(* ===== verification/_CoqProject ===== *)
-Q . S2P
Prelude.v
GoStrings.v
GoTime.v
Sha256.v
Errors.v
Schema.v
WalNames.v
Retention.v
RecoveryPlan.v
Prog.v
ProgRules.v
Store.v
Disk.v
Json.v
Documents.v
Repository.v
Gate.v
GateProtocol.v
Transfer.v
Memory.v
Catalog.v
Publication.v
Gc.v
GcSafety.v
Lifecycle.v
Restore.v
WalArchive.v
RetentionRun.v
LooseJson.v
GuardConfig.v
Admission.v
Guard.v
GuardSafety.v
Md5.v
S3Keys.v
S3Config.v
S3Client.v
S3Safety.v
S3Upload.v
S3List.v
S3Checks.v
S3Transport.v
Configuration.v
Capacity.v
NativePath.v
NativeOps.v
NativeArchive.v
NativeManifest.v
NativeText.v
NativeBudget.v
NativeInput.v
NativeCommand.v
NativeRestore.v
NativeSafety.v
NativeMove.v
ConfigSnapshot.v
NativeCapture.v
NativePreflight.v
NativeEvidence.v
CnpgCluster.v
CnpgOps.v
CnpgWal.v
CnpgKube.v
CnpgRecovery.v
CnpgDemo.v
CnpgWalSafety.v
CnpgRecoverySafety.v
CnpgDocument.v
CnpgRestore.v
CnpgRestoreSafety.v
CnpgBackup.v
CnpgBackupSafety.v
CnpgMetrics.v
CnpgManager.v
CnpgObserver.v
CnpgManagerSafety.v
CnpgPlacement.v
CnpgPlacementSafety.v
CnpgPlacementDemo.v
CnpgProcess.v
