(* ===== verification/Prelude.v ===== *)
(** * Verification of cnpg_backup

    cnpg_backup is a CloudNativePG plugin, written in Go, that stores physical PostgreSQL backups and WAL in an
    S3-compatible bucket.  Several processes work on one repository (a prefix of a bucket) without any
    coordinator but the object store itself: backup writers, restore readers, WAL archivers and one garbage
    collector.  This library models the parts of the program that decide whether a backup survives, and proves
    what they promise.

    ** How the parts interact

    Every durable fact is a JSON document or a payload object under [v1/<repository id>/]:

    - [repository.json] fixes the lineage (system identifier, PostgreSQL major, segment size, writer);
    - [gate.json] admits either one collector or any number of backup and restore holders, by compare-and-swap;
    - [backups/<uid>/request.json], [attempts/<id>/claim.json], payload artifacts, [commit.json] (the backup
      exists when this object exists) and [retirement.json] (it no longer does);
    - [wal/...] holds archived segments and histories, [gc/<op>.json] the plans of the collector.

    A backup is admitted by the gate, claims an attempt, uploads and verifies its payload, and creates
    [commit.json] last.  A restore is admitted, resolves a target into a frozen plan and downloads its chain.
    Retention is admitted as the only owner, inventories everything, plans, and retires in bounded batches.

    In Kubernetes, a manager validates Clusters, places a sidecar into the Pod and Job templates of the operator, coordinates each
    recovery through a durable operation that holds the source, and runs retention, status and metrics loops; the sidecar of an
    instance answers the backup and WAL callbacks, the sidecar of a recovery restores through a plan, and a guard in front of the
    recovery command owns the target volumes until everything has drained.

    ** The files, from the bottom up

    Language and libraries:
    - [Prelude]: results, guards, loops, machine widths, [sort.Slice], the automation; this header.
    - [GoStrings], [GoTime], [Sha256]: what the code uses of strings, strconv, utf8, path and regexp, of
      time (RFC 3339) and of crypto/sha256, as executable functions.
    - [Json]: encoding/json's text form and the strict decoder of internal/repository/schema.go and unicode.go.
    - [Errors]: internal/s3store/errors.go and the sentinel errors.

    The repository (internal/repository):
    - [Schema] (schema.go): records and validation; [Documents]: their JSON shapes and round trips.
    - [WalNames] (plan.go, retention_inventory.go, gc.go): names, positions and keys of archive files.
    - [Store] (the Storage interface): [prog], the tree of calls of a function with its continuation, [runs],
      the relation between a program, the trace of its calls with their answers and its result, and a
      program logic over traces ([wp]).  Storage, clock, random source and local files answer anything.
    - [Disk]: a directory of files with their contents and what of them survives a crash; rules for programs that change it.
    - [Repository], [Lifecycle] (repository.go, inventory.go, writer.go): objects, readers, opening.
    - [Gate] (gate.go): the document and the CAS loop; [GateProtocol]: the same programs, call by call, for
      any number of processes as a step relation with lost answers, delayed writes and crashes.
    - [Transfer], [Catalog], [Publication] (publication.go, catalog.go, catalog_integrity.go,
      backup_history.go, differential.go).
    - [RecoveryPlan], [Restore] (plan.go, coverage.go, recovery.go).
    - [Gc], [GcSafety] (gc.go, retention_inventory.go, gc_workspace.go).
    - [Memory]: a concrete bucket that answers every call, on which the witnesses run the programs.

    Above the repository:
    - [WalArchive] (internal/wal/wal.go); [Retention] (internal/retention/planner.go); [RetentionRun] (run.go).

    Object storage (internal/s3store), over the calls of the HTTP client:
    - [Prog]: programs, traces, runs and the program logic, for any signature of calls.
    - [Md5], [S3Keys], [S3Config], [S3Client]: keys and options, configuration, and the client's operations with their
      workers and retries; [S3Safety], [S3Upload], [S3List], [S3Checks]: what they guarantee; [S3Transport]: the transport.

    Recovery guard (internal/recoveryguard):
    - [LooseJson] (the lenient decoder of encoding/json), [GuardConfig], [Admission], [Guard], [GuardSafety].

    Configuration (internal/configuration): [Configuration] (repository.go, store.go), [Capacity] (capacity.go), [ConfigSnapshot]
    (snapshot.go, native.go, authorize.go, and the decoding of repository.go).

    Native operations (internal/postgres):
    - [NativePath], [NativeArchive], [NativeManifest] (archive.go): paths, tar archives, the backup manifest.
    - [NativeText] (capture.go, preflight.go, control.go, label_time.go, differential.go): what tools print and record.
    - [NativeOps]: the calls of a native operation; a file system, tools and a repository that answer anything.
    - [NativeCommand] (command.go): the process group of a tool, its bounded output and its end; elsewhere a tool is one call.
    - [NativeBudget], [NativeInput], [NativeRestore] (restore.go, restore_input.go, restore_capacity.go,
      restore_materialize.go, restore_differential.go).
    - [NativeSafety] and [NativeMove]: what a restore guarantees about its inputs, its targets and the WAL it moves.
    - [NativeCapture] (capture.go, differential.go, preflight.go), [NativePreflight] (capture.go, preflight.go, workspace.go):
      captures, differentials, the checks before them, the private workspace; [NativeEvidence]: what a capture rests on.

    The plugin (internal/cnpgi), over the calls of a sidecar or of the manager:
    - [CnpgCluster] (cluster.go, capacity.go, recovery_plan.go), [CnpgOps]: the Cluster, targets and budgets; the calls.
    - [CnpgWal] (wal.go, recovery_wal.go, wal_fetch.go), [CnpgKube] (kubernetes.go, repository_snapshot.go), [CnpgRecovery]
      (recovery_operation.go, recovery_reconcile.go), [CnpgRestore] (restore.go), [CnpgBackup] (backup.go): the callbacks, the
      coordinator of recoveries and its durable operation; [CnpgDemo]: a concrete cluster to run them on.
    - [CnpgWalSafety], [CnpgRecoverySafety], [CnpgDocument], [CnpgRestoreSafety], [CnpgBackupSafety]: what they guarantee.
    - [ProgRules]: rules of the program logic shared by the files above.
    - [CnpgMetrics] (backup_metrics.go, retention_metrics.go, recovery_metrics.go): what the manager remembers, and a scrape.
    - [CnpgManager] (status.go, retention.go, retention_workspace.go, backup_history.go, recovery_reconcile.go): its loops;
      [CnpgManagerSafety]: what they send; [CnpgObserver] (backup_observer.go): failures counted by interleaving processes.
    - [CnpgPlacement] (placement.go, collisions.go, version.go, manager.go): the lifecycle hook and the template it produces;
      [CnpgPlacementSafety]: the template as a function of what was read; [CnpgPlacementDemo]: a concrete placement.
    - [CnpgProcess] (sidecar.go, manager.go, recoveryguard/config.go, cmd/cnpg-backup/main.go): how the processes start.

    ** What the theorems show

    - Concurrency ([GateProtocol]): collectors and holders exclude each other in every reachable state, released
      entries never come back, delayed writes of an acknowledged admission are fenced, and an uncontended
      change completes by its own calls.
    - Publication: [commit.json] is created last, over verified bytes; the result is the verified winner; an
      ambiguous mutation latches the hold.  Catalog: complete and cross-checked.
    - Restore: a resolved plan is valid, bound to its reader, verified and covered by the archive; it is
      stored atomically, also when the machine crashes between any two steps, and read back exactly; revalidation keeps its backups.
    - Retention: the planner keeps the recovery window, parents, minimum fulls and every segment a kept backup
      replays, independently of map order, even where a loop adds to the map it ranges over, and terminates; the run deletes only what such a plan
      entitles; the collector never deletes a live payload, plans before it acts, is bounded, and keeps the
      gate when an outcome is unknown.
    - WAL: an acknowledgement means verified remote bytes; end-of-archive is never invented; restored bytes are
      verified and durable under their destination before success is reported; archive and retrieve are inverse over a working store.
    - S3: a conditional PUT is sent at most once over verified bytes; a multipart upload completes whole or is reported
      with its identifier; downloads and listings are exact or fail; the transport never invents absence or success.
    - Guard: a volume has one recovery at a time, and its marker goes only after every process and task has ended.
    - Configuration: the accepted prefixes are the store's; a capacity check reserves disjoint filesystems.
    - Native formats: an archive that passes the scan stays inside its root; an accepted manifest is well formed; WAL file
      names round-trip; no text from a backup can change the SQL that dates it.
    - Configuration: a capture reads one generation of its projected volume; a manager's call reaches its handler only
      with a chain that leads to current authorities.
    - Native restore: the budgets cover what is written; a scanned input is exact; targets stay untouched, by file operations and by pg_combinebackup,
      until every original is verified; restored WAL is removed only after its copy was read back.
    - Native tools: output is used only whole, from a tool that exited cleanly and whose process group is gone.
    - Native capture: a success rests on an unchanged server, on native verification and on the bytes spooled; the source is
      only read; a differential uses its full's manifest byte for byte; the private tree is cleared only by its owner.
    - Backup callback: commit.json is the last step of a capture that was verified, uploaded, read back and checked once more;
      the answer describes the published commit. WAL callbacks: success means that the stored segment was read back, and the
      restore command tells the end of WAL from a failure by its exit code.
    - Restore callback: durable plan first, at most one restore per process, a failure leaves a closed service.
    - Recovery coordinator: the durable operation only moves forward on evidence, its document round-trips, and the source is
      released only after the recovery completed. Manager: the retention it runs is enabled, due and entitled; a warning comes
      after its stored throttle; a failure is counted once; a scrape shows only what was read recently; the caches are bounded.
    - Placement: the injected template is a function of the template and the repositories read; placing again changes nothing;
      a restore runs only behind its guard, with its source held; a live Pod is only looked at. Processes: a socket is taken
      only under its lock; the manager serves only what it was pinned to.
    ** Conventions, bounds and fuel

    Go integers are [Z]; unchecked 32- and 64-bit arithmetic is written with [wrap32]/[wrap64].  A nil pointer
    is [None].  [(T, error)] is [result]; a nil dereference or an index out of range is a value [Panic] where
    the code does not test first.  Loops are structural or carry fuel: the coverage walks of
    [Retention] and [RecoveryPlan] take the number of segments in the range as fuel, and
    [coverage_walk_terminates] / [resolve_walk_terminates] show that it is enough; the CAS loop has the source's own bound of
    rounds; streams (bytes of a file, pages of a listing) are finite lists, so their loops are structural.
    The endless loops of the manager ([rounds]) and the watch of a recovery take the number of passes looked at as fuel: a theorem
    holds for every number.  The pages of a recovery's lists take the source's own limit of objects, which [pages_enough] shows to
    be enough.  Theorems about a [prog] quantify over every trace, that is over every behaviour of storage.
    What is not under src/ and not the language (the gzip codec, the native input check, the authenticated history
    reader, the clients that call a callback) is a parameter with named hypotheses.

    ** Not modelled

    - The gRPC and HTTP servers, TLS transports, informers and work queues: they deliver the modelled callbacks in any order; the
      Kubernetes API server answers anything.
    - Kubernetes structures keep the fields that the code reads or writes; the rest of a foreign container, volume or security
      context is one text, a quantity is its text, and decoding an object is a parameter.
    - archive/tar, compress/gzip, PEM and X.509, net/url, time.ParseDuration, resource.ParseQuantity, Kubernetes resource lists and
      the minio client are parameters.
    - hack/: fixtures and drivers of the test campaigns, not part of the shipped program. *)

From Stdlib Require Export ZArith Lia Bool Ascii.
From stdpp Require Export base decidable option list list_numbers strings gmap sorting.

(** ** Results and guards

    A Go function that returns [(T, error)] is a function into [result T];
    [Err] carries the error and there is no value (the source returns the zero
    value next to a non-nil error and no caller reads it). *)

Inductive result (E A : Type) : Type :=
| Ok (a : A)
| Err (e : E).
Arguments Ok {E A} a.
Arguments Err {E A} e.

Declare Scope go_scope.
Delimit Scope go_scope with go.
Open Scope Z_scope.

Definition res_bind {E A B : Type} (m : result E A) (k : A -> result E B) : result E B :=
  match m with Ok a => k a | Err e => Err e end.

Notation "'let?' x := m 'in' k" := (res_bind m (fun x => k))
  (at level 10, x pattern, m at level 100, k at level 200) : go_scope.
Notation "m ;;? k" := (res_bind m (fun _ => k))
  (at level 100, k at level 200, right associativity) : go_scope.
Open Scope go_scope.

(** Equality and inequality tests of the source, decided. *)
Notation "x ==? y" := (bool_decide (x = y)) (at level 70) : go_scope.
Notation "x !=? y" := (negb (bool_decide (x = y))) (at level 70) : go_scope.

Definition is_ok {E A} (r : result E A) : bool := match r with Ok _ => true | Err _ => false end.
Definition is_err {E A} (r : result E A) : bool := negb (is_ok r).

(** First failure of a loop body run over a list. *)
Fixpoint forM {E A B} (l : list A) (acc : B) (body : B -> A -> result E B) : result E B :=
  match l with
  | [] => Ok acc
  | x :: l => let? acc := body acc x in forM l acc body
  end.

(** ** Machine widths *)
Definition u32_max : Z := 2 ^ 32 - 1.
Definition u64_max : Z := 2 ^ 64 - 1.
Definition is_u32 (z : Z) : Prop := 0 <= z < 2 ^ 32.
Definition is_u64 (z : Z) : Prop := 0 <= z < 2 ^ 64.
(** [uint64] addition, subtraction and multiplication wrap around. *)
Definition wrap64 (z : Z) : Z := z mod 2 ^ 64.
Definition wrap32 (z : Z) : Z := z mod 2 ^ 32.

(** ** Automation *)
Create HintDb go.
#[export] Hint Unfold is_u32 is_u64 u32_max u64_max : go.

Ltac bool_split :=
  repeat match goal with
  | H : _ || _ = false |- _ => apply orb_false_iff in H as [? ?]
  | H : _ && _ = true |- _ => apply andb_true_iff in H as [? ?]
  | H : negb _ = true |- _ => apply negb_true_iff in H
  | H : negb _ = false |- _ => apply negb_false_iff in H
  | H : bool_decide _ = true |- _ => apply bool_decide_eq_true in H
  | H : bool_decide _ = false |- _ => apply bool_decide_eq_false in H
  | H : (_ <? _)%Z = false |- _ => apply Z.ltb_ge in H
  | H : (_ <? _)%Z = true |- _ => apply Z.ltb_lt in H
  | H : (_ <=? _)%Z = false |- _ => apply Z.leb_gt in H
  | H : (_ <=? _)%Z = true |- _ => apply Z.leb_le in H
  | H : (_ =? _)%Z = false |- _ => apply Z.eqb_neq in H
  | H : (_ =? _)%Z = true |- _ => apply Z.eqb_eq in H
  end.

(** Evaluates decided equalities between literals. *)
Ltac lit_eq :=
  repeat match goal with
  | |- context [bool_decide ?P] =>
      let v := eval vm_compute in (bool_decide P) in
      lazymatch v with
      | true => change (bool_decide P) with true
      | false => change (bool_decide P) with false
      end
  end.

(** Inverts one guard or bind of a hypothesis that says a chain succeeded. *)
Ltac res_step :=
  match goal with
  | H : Err _ = Ok _ |- _ => discriminate H
  | H : Ok _ = Err _ |- _ => discriminate H
  | H : Ok _ = Ok _ |- _ => injection H as H; try subst
  | H : Err _ = Err _ |- _ => injection H as H; try subst
  | H : res_bind ?m _ = Ok _ |- _ =>
      let E := fresh "E" in destruct m eqn:E; cbn [res_bind] in H; [|discriminate H]
  | H : (if ?b then Err _ else _) = Ok _ |- _ =>
      let E := fresh "E" in destruct b eqn:E; [discriminate H|]
  | H : (if ?b then _ else Err _) = Ok _ |- _ =>
      let E := fresh "E" in destruct b eqn:E; [|discriminate H]
  end.
Ltac res_inv := repeat res_step.

Section Results.
Context {E A B : Type}.

Lemma res_bind_ok (m : result E A) (k : A -> result E B) b :
  res_bind m k = Ok b <-> exists a, m = Ok a /\ k a = Ok b.
Proof. destruct m; cbn; naive_solver. Qed.

Lemma forM_app (l1 l2 : list A) (acc : B) (body : B -> A -> result E B) :
  forM (l1 ++ l2) acc body = let? acc := forM l1 acc body in forM l2 acc body.
Proof.
  revert acc; induction l1 as [|x l1 IH]; intros acc; cbn; [done|].
  destruct (body acc x); cbn; [apply IH|done].
Qed.

(** Loop rule: an invariant indexed by the elements already visited. *)
Lemma forM_inv (I : list A -> B -> Prop) (l : list A) acc0 acc (body : B -> A -> result E B) :
  I [] acc0 ->
  (forall pre x post a a', l = pre ++ x :: post -> I pre a -> body a x = Ok a' ->
     I (pre ++ [x]) a') ->
  forM l acc0 body = Ok acc -> I l acc.
Proof.
  intros H0 Hstep Hrun.
  assert (forall post pre a, l = pre ++ post -> I pre a ->
    forM post a body = Ok acc -> I l acc) as Hgen.
  { induction post as [|x post IH]; intros pre a -> Ha Hr; cbn in Hr; res_inv.
    - by rewrite app_nil_r.
    - eapply (IH (pre ++ [x])); [by rewrite <- app_assoc| |eassumption].
      eapply Hstep; eauto. }
  by eapply (Hgen l []).
Qed.
End Results.

(** ** Lists *)
Section Lists.
Context {A : Type}.

Lemma existsb_false_Forall (f : A -> bool) l :
  existsb f l = false <-> Forall (fun x => f x = false) l.
Proof.
  induction l as [|x l IH]; cbn; [split; [constructor|done]|].
  rewrite orb_false_iff, IH, Forall_cons. done.
Qed.

Lemma filter_perm (f : A -> bool) l1 l2 : l1 ≡ₚ l2 -> List.filter f l1 ≡ₚ List.filter f l2.
Proof.
  induction 1 as [|x l1 l2 _ IH|x y l|l1 l2 l3 _ IH1 _ IH2]; cbn; repeat case_match;
    eauto using Permutation_swap, Permutation_trans.
Qed.

Lemma last_snoc_inv (l : list A) x : last l = Some x -> exists l', l = l' ++ [x].
Proof.
  destruct l as [|y l] using rev_ind; cbn; [done|].
  rewrite last_snoc. intros [= ->]. eauto.
Qed.
End Lists.

(** [sort.Slice(l, less)]: the standard library sorts by the strict order
    [less]; elements that [less] does not separate may end in any order, so
    theorems about the result assume [less] total or speak up to permutation. *)
Definition not_less {A} (less : A -> A -> bool) (a b : A) : Prop := less b a = false.
#[export] Instance not_less_dec {A} (less : A -> A -> bool) : RelDecision (not_less less).
Proof. intros a b. unfold not_less. apply _. Defined.
Definition sort_slice {A} (less : A -> A -> bool) (l : list A) : list A :=
  merge_sort (not_less less) l.

Section SortSlice.
Context {A : Type} (less : A -> A -> bool).

Lemma sort_slice_perm l : sort_slice less l ≡ₚ l.
Proof. apply merge_sort_Permutation. Qed.

Lemma elem_of_sort_slice l x : x ∈ sort_slice less l <-> x ∈ l.
Proof. by rewrite sort_slice_perm. Qed.

Lemma sort_slice_sorted l :
  (forall a b, less a b = true -> less b a = false) ->
  (forall a b c, less b a = false -> less c b = false -> less c a = false) ->
  StronglySorted (not_less less) (sort_slice less l).
Proof.
  intros Has Htr. apply StronglySorted_merge_sort.
  - intros a b c. apply Htr.
  - intros a b. unfold not_less. destruct (less a b) eqn:Hab; eauto.
Qed.
End SortSlice.

(** ** Loops whose order does not matter *)
Lemma foldl_comm_perm {A B} (f : B -> A -> B) (l1 l2 : list A) :
  (forall a x y, f (f a x) y = f (f a y) x) ->
  l1 ≡ₚ l2 -> forall a, foldl f a l1 = foldl f a l2.
Proof.
  intros Hc Hp. induction Hp as [|x l1 l2 _ IH|x y l|l1 l2 l3 _ IH1 _ IH2]; intros a; cbn; auto.
  - by rewrite Hc.
  - by rewrite IH1.
Qed.

Lemma forM_comm_perm {E A B} (P : A -> Prop) (body : B -> A -> result E B) (l1 l2 : list A) :
  (forall a x y, P x -> P y ->
     (let? a := body a x in body a y) = (let? a := body a y in body a x)) ->
  Forall P l1 -> l1 ≡ₚ l2 -> forall a, forM l1 a body = forM l2 a body.
Proof.
  intros Hc HP Hp. induction Hp as [|x l1 l2 _ IH|x y l|l1 l2 l3 Hp1 IH1 _ IH2]; intros a; cbn; auto.
  - inversion HP; subst. destruct (body a x); cbn; auto.
  - inversion HP as [|? ? Px HP']; subst. inversion HP'; subst.
    pose proof (Hc a y x ltac:(done) ltac:(done)) as H.
    destruct (body a y) as [b|e]; destruct (body a x) as [c|e']; cbn in *;
      first [congruence | by rewrite H | by rewrite <- H].
  - rewrite IH1 by done. apply IH2. by rewrite <- Hp1.
Qed.
