(* ===== verification/GoStrings.v ===== *)
(** * The string, number and regular-expression functions the program uses

    Go strings are byte strings: [string] is a list of 8-bit [ascii] bytes.
    This file holds the parts of [strings], [strconv], [fmt] and [unicode/utf8]
    that the modelled code calls, as executable functions, with the round trips
    and order facts the components share.  Conventions: lengths and numbers are
    [Z]; [ParseUint] returns [None] where the library returns an error. *)

From S2P Require Import Prelude.

(** ** Bytes *)
Definition byte_val (c : ascii) : Z := Z.of_N (N_of_ascii c).
Definition in_range (lo hi : ascii) (c : ascii) : bool :=
  (byte_val lo <=? byte_val c) && (byte_val c <=? byte_val hi).
Definition is_digit : ascii -> bool := in_range "0" "9".
(** [[0-9A-F]] and [[0-9a-f]] *)
Definition is_hex_upper (c : ascii) : bool := is_digit c || in_range "A" "F" c.
Definition is_hex_lower (c : ascii) : bool := is_digit c || in_range "a" "f" c.

Fixpoint all_chars (p : ascii -> bool) (s : string) : bool :=
  match s with EmptyString => true | String c s => p c && all_chars p s end.
(** [len(s)] *)
Definition len (s : string) : Z := Z.of_nat (String.length s).
(** A regular expression of the form [^[class]{n}$]. *)
Definition class_n (p : ascii -> bool) (n : nat) (s : string) : bool :=
  (String.length s =? n)%nat && all_chars p s.

(** ** Package strings *)
(** [s[i:j]], used on indices the code has already bounded. *)
Definition slice (i j : nat) (s : string) : string := String.substring i (j - i) s.
Definition HasPrefix (s p : string) : bool := String.prefix p s.
Fixpoint drop_bytes (n : nat) (s : string) : string :=
  match n, s with
  | O, _ => s
  | S n, String _ s => drop_bytes n s
  | S _, EmptyString => EmptyString
  end.
Definition HasSuffix (s p : string) : bool :=
  (String.length p <=? String.length s)%nat
  && (drop_bytes (String.length s - String.length p) s ==? p).
Definition TrimPrefix (s p : string) : string :=
  if HasPrefix s p then drop_bytes (String.length p) s else s.
Definition TrimSuffix (s p : string) : string :=
  if HasSuffix s p then String.substring 0 (String.length s - String.length p) s else s.
(** [strings.ContainsAny(s, cs)] for a set of ASCII bytes. *)
Definition ContainsAny (s : string) (cs : list ascii) : bool :=
  negb (all_chars (fun c => negb (bool_decide (c ∈ cs))) s).
(** [strings.Contains(s, sub)] *)
Fixpoint Contains (s sub : string) : bool :=
  HasPrefix s sub || match s with EmptyString => false | String _ s => Contains s sub end.
(** [strings.Split(s, sep)] for a one-byte separator: never empty. *)
Fixpoint split_go (sep : ascii) (cur : string) (s : string) : list string :=
  match s with
  | EmptyString => [cur]
  | String c s =>
      if bool_decide (c = sep) then cur :: split_go sep EmptyString s
      else split_go sep (cur +:+ String c EmptyString) s
  end.
Definition Split (sep : ascii) (s : string) : list string := split_go sep EmptyString s.

(** Width in bytes of a Unicode white-space character at the head of [s]
    ([unicode.IsSpace]), 0 when there is none. *)
Definition space_width (s : string) : nat :=
  let b := byte_val in
  match s with
  | EmptyString => 0%nat
  | String c s1 =>
    if (b c =? 32) || ((9 <=? b c) && (b c <=? 13)) then 1%nat else
    match s1 with
    | EmptyString => 0%nat
    | String d s2 =>
      if (b c =? 0xC2) && ((b d =? 0x85) || (b d =? 0xA0)) then 2%nat else
      match s2 with
      | EmptyString => 0%nat
      | String e _ =>
        if ((b c =? 0xE1) && (b d =? 0x9A) && (b e =? 0x80))
           || ((b c =? 0xE2) && (b d =? 0x80)
               && (((0x80 <=? b e) && (b e <=? 0x8A)) || (b e =? 0xA8) || (b e =? 0xA9)
                   || (b e =? 0xAF)))
           || ((b c =? 0xE2) && (b d =? 0x81) && (b e =? 0x9F))
           || ((b c =? 0xE3) && (b d =? 0x80) && (b e =? 0x80))
        then 3%nat else 0%nat
      end
    end
  end.
(** [strings.Fields]: maximal runs of bytes that belong to no white space. *)
Definition emit (cur : string) : list string := if cur ==? "" then [] else [cur].
Fixpoint fields_go (skip : nat) (cur s : string) : list string :=
  match s with
  | EmptyString => emit cur
  | String c s' =>
    match skip with
    | S k => fields_go k cur s'
    | O => match space_width s with
           | O => fields_go 0 (cur +:+ String c EmptyString) s'
           | S k => emit cur ++ fields_go k EmptyString s'
           end
    end
  end.
Definition Fields (s : string) : list string := fields_go 0 EmptyString s.
(** [strings.TrimSpace] *)
Fixpoint trim_left (skip : nat) (s : string) : string :=
  match s with
  | EmptyString => EmptyString
  | String _ s' =>
    match skip with
    | S k => trim_left k s'
    | O => match space_width s with O => s | S k => trim_left k s' end
    end
  end.
(** Longest prefix whose remainder is white space only. *)
Fixpoint trim_right (s : string) : string :=
  match s with
  | EmptyString => EmptyString
  | String c s' => if trim_left 0 s ==? "" then EmptyString else String c (trim_right s')
  end.
Definition TrimSpace (s : string) : string := trim_right (trim_left 0 s).

(** ** Package unicode/utf8: [ValidString] *)
Definition cont (c : ascii) : bool := (128 <=? byte_val c) && (byte_val c <=? 191).
Fixpoint utf8_go (need : nat) (lo hi : Z) (s : string) : bool :=
  match s with
  | EmptyString => (need =? 0)%nat
  | String c s =>
    let b := byte_val c in
    match need with
    | O => if b <? 0x80 then utf8_go 0 0x80 0xBF s
           else if (0xC2 <=? b) && (b <=? 0xDF) then utf8_go 1 0x80 0xBF s
           else if b =? 0xE0 then utf8_go 2 0xA0 0xBF s
           else if ((0xE1 <=? b) && (b <=? 0xEC)) || (b =? 0xEE) || (b =? 0xEF) then utf8_go 2 0x80 0xBF s
           else if b =? 0xED then utf8_go 2 0x80 0x9F s
           else if b =? 0xF0 then utf8_go 3 0x90 0xBF s
           else if (0xF1 <=? b) && (b <=? 0xF3) then utf8_go 3 0x80 0xBF s
           else if b =? 0xF4 then utf8_go 3 0x80 0x8F s
           else false
    | S k => (lo <=? b) && (b <=? hi) && utf8_go k 0x80 0xBF s
    end
  end.
Definition ValidString (s : string) : bool := utf8_go 0 0x80 0xBF s.

(** ** Package strconv *)
Definition digit_val (c : ascii) : option Z :=
  if is_digit c then Some (byte_val c - 48)
  else if in_range "a" "z" c then Some (byte_val c - 87)
  else if in_range "A" "Z" c then Some (byte_val c - 55)
  else None.
Fixpoint parse_digits (base acc : Z) (s : string) : option Z :=
  match s with
  | EmptyString => Some acc
  | String c s =>
    match digit_val c with
    | Some d => if d <? base then parse_digits base (acc * base + d) s else None
    | None => None
    end
  end.
(** [strconv.ParseUint(s, base, bits)] *)
Definition ParseUint (s : string) (base bits : Z) : option Z :=
  if s ==? "" then None else
  match parse_digits base 0 s with
  | Some n => if n <? 2 ^ bits then Some n else None
  | None => None
  end.
(** The value of a call whose error is ignored: the input is validated before. *)
Definition parse_hex (s : string) : Z := default 0 (ParseUint s 16 32).

(** Digits as [strconv.FormatUint] (lower case) and [%X] (upper case) write
    them; for bases up to ten the two agree. *)
Definition digit_char (upper : bool) (d : Z) : ascii :=
  ascii_of_N (Z.to_N (if d <? 10 then 48 + d else if upper then 55 + d else 87 + d)).
Fixpoint fmt_digits (upper : bool) (fuel : nat) (base n : Z) (acc : string) : string :=
  match fuel with
  | O => acc
  | S f => let acc' := String (digit_char upper (n mod base)) acc in
           if n / base =? 0 then acc' else fmt_digits upper f base (n / base) acc'
  end.
(** One digit per halving is enough fuel for every base from two on. *)
Definition fmt_fuel (n : Z) : nat := S (Z.to_nat (Z.log2 n)).
Definition fmt_uint (upper : bool) (base n : Z) : string :=
  fmt_digits upper (fmt_fuel n) base n EmptyString.
(** [strconv.FormatUint(n, 10)] and, on a negative number, [strconv.FormatInt] *)
Definition FormatUint (n : Z) : string := fmt_uint false 10 n.
Definition FormatInt (n : Z) : string :=
  if n <? 0 then String "-" (FormatUint (- n)) else FormatUint n.
(** [fmt.Sprintf("%X", n)] and [fmt.Sprintf("%08X", n)] *)
Definition sprintf_X (n : Z) : string := fmt_uint true 16 n.
Fixpoint zeros (n : nat) : string := match n with O => EmptyString | S n => String "0" (zeros n) end.
Definition pad (w : nat) (s : string) : string := zeros (w - String.length s) +:+ s.
Definition sprintf_08X (n : Z) : string := pad 8 (sprintf_X n).

Example fields_ex : Fields (String "009" "1  0/3000000	no recovery target") =
  ["1"; "0/3000000"; "no"; "recovery"; "target"].
Proof. vm_compute. reflexivity. Qed.
Example format_ex : (FormatUint 0, FormatUint 16777216, sprintf_X 0xABCDEF, sprintf_08X 27)
  = ("0", "16777216", "ABCDEF", "0000001B").
Proof. vm_compute. reflexivity. Qed.
Example split_ex : Split "/" "a//b/" = ["a"; ""; "b"; ""].
Proof. vm_compute. reflexivity. Qed.
Example trim_ex : TrimSpace "  a b  " = "a b".
Proof. vm_compute. reflexivity. Qed.

(** ** Byte order of strings: [a < b] in Go is [String.ltb a b] *)
Lemma string_compare_refl (s : string) : String.compare s s = Eq.
Proof.
  induction s as [|c s IH]; [done|]. cbn. unfold Ascii.compare. by rewrite N.compare_refl.
Qed.

Lemma ltb_irrefl (s : string) : String.ltb s s = false.
Proof. unfold String.ltb. by rewrite string_compare_refl. Qed.

Lemma ltb_antisym (a b : string) : String.ltb a b = true -> String.ltb b a = false.
Proof.
  unfold String.ltb. rewrite (String.compare_antisym b a).
  by destruct (String.compare a b).
Qed.

Lemma ltb_total (a b : string) : String.ltb a b = false -> String.ltb b a = false -> a = b.
Proof.
  unfold String.ltb. rewrite (String.compare_antisym b a).
  destruct (String.compare a b) eqn:E; try done.
  intros _ _. by apply String.compare_eq_iff.
Qed.

Lemma leb_negb_ltb (a b : string) : String.leb a b = negb (String.ltb b a).
Proof.
  unfold String.leb, String.ltb. rewrite (String.compare_antisym b a).
  by destruct (String.compare a b).
Qed.

Lemma ltb_ge_trans (a b c : string) :
  String.ltb b a = false -> String.ltb c b = false -> String.ltb c a = false.
Proof.
  intros H1 H2. apply negb_true_iff. rewrite <- leb_negb_ltb. apply Is_true_eq_true.
  change (String.le a c). etransitivity; unfold String.le;
    apply Is_true_eq_left; rewrite leb_negb_ltb; by apply negb_true_iff.
Qed.

Lemma ltb_trans (a b c : string) :
  String.ltb a b = true -> String.ltb b c = true -> String.ltb a c = true.
Proof.
  intros H1 H2. destruct (String.ltb a c) eqn:E; [done|].
  pose proof (ltb_ge_trans c a b E (ltb_antisym _ _ H1)). congruence.
Qed.

(** ** Strings as byte lists *)
Lemma append_nil_r (s : string) : s +:+ EmptyString = s.
Proof. induction s as [|c s IH]; [done|]. change (String c (s +:+ "") = String c s). by rewrite IH. Qed.

Lemma append_assoc (a b c : string) : (a +:+ b) +:+ c = a +:+ (b +:+ c).
Proof.
  induction a as [|x a IH]; [done|].
  change (String x ((a +:+ b) +:+ c) = String x (a +:+ b +:+ c)). by rewrite IH.
Qed.

Lemma length_append (a b : string) :
  String.length (a +:+ b) = (String.length a + String.length b)%nat.
Proof.
  induction a as [|x a IH]; [done|].
  change (S (String.length (a +:+ b)) = (S (String.length a) + String.length b)%nat).
  by rewrite IH.
Qed.

Lemma all_chars_append p (a b : string) : all_chars p (a +:+ b) = all_chars p a && all_chars p b.
Proof.
  induction a as [|x a IH]; [done|].
  change (p x && all_chars p (a +:+ b) = p x && all_chars p a && all_chars p b).
  by rewrite IH, andb_assoc.
Qed.

Lemma all_chars_impl (p q : ascii -> bool) s :
  (forall c, p c = true -> q c = true) -> all_chars p s = true -> all_chars q s = true.
Proof. intros Hpq. induction s; cbn; [done|]. rewrite !andb_true_iff. naive_solver. Qed.

(** [Split] on a separator that does not occur, and on a joined string. *)
Lemma split_go_app sep cur a b :
  all_chars (fun c => c !=? sep) a = true ->
  split_go sep cur (a +:+ String sep b) = (cur +:+ a) :: Split sep b.
Proof.
  revert cur. induction a as [|c a IH]; intros cur Ha.
  - change (("" +:+ String sep b)) with (String sep b). cbn.
    rewrite bool_decide_eq_true_2 by done. by rewrite append_nil_r.
  - cbn in Ha. apply andb_true_iff in Ha as [Hc Ha].
    change (String c a +:+ String sep b) with (String c (a +:+ String sep b)).
    cbn. bool_split. rewrite bool_decide_eq_false_2 by done.
    rewrite IH by done. by rewrite append_assoc.
Qed.

Lemma split_go_nosep sep cur a :
  all_chars (fun c => c !=? sep) a = true -> split_go sep cur a = [cur +:+ a].
Proof.
  revert cur. induction a as [|c a IH]; intros cur Ha; cbn.
  - by rewrite append_nil_r.
  - cbn in Ha. apply andb_true_iff in Ha as [Hc Ha]. bool_split.
    rewrite bool_decide_eq_false_2 by done. rewrite IH by done. by rewrite append_assoc.
Qed.

Lemma Split_join sep a b :
  all_chars (fun c => c !=? sep) a = true -> Split sep (a +:+ String sep b) = a :: Split sep b.
Proof. intros Ha. unfold Split at 1. by rewrite split_go_app. Qed.

Lemma Split_nosep sep a : all_chars (fun c => c !=? sep) a = true -> Split sep a = [a].
Proof. intros Ha. unfold Split. by rewrite split_go_nosep. Qed.

(** Putting the pieces of a split back together gives the input. *)
Fixpoint join (sep : ascii) (l : list string) : string :=
  match l with
  | [] => EmptyString
  | [x] => x
  | x :: l => x +:+ String sep (join sep l)
  end.

Lemma split_go_cons sep cur s : exists x l, split_go sep cur s = x :: l.
Proof. revert cur. induction s as [|c s IH]; intros cur; cbn; [eauto|]. case_bool_decide; eauto. Qed.

Lemma join_split_go sep cur s : join sep (split_go sep cur s) = cur +:+ s.
Proof.
  revert cur. induction s as [|c s IH]; intros cur; cbn; [by rewrite append_nil_r|].
  case_bool_decide as Hc; [|by rewrite IH, append_assoc].
  destruct (split_go_cons sep "" s) as (x & l & E). rewrite E. cbn.
  subst. f_equal. f_equal. specialize (IH EmptyString). rewrite E in IH. exact IH.
Qed.

Lemma join_Split sep s : join sep (Split sep s) = s.
Proof. apply join_split_go. Qed.

(** ** Numbers: parsing what was printed *)
Lemma byte_val_ascii (z : Z) : 0 <= z < 256 -> byte_val (ascii_of_N (Z.to_N z)) = z.
Proof. intros Hz. unfold byte_val. rewrite N_ascii_embedding by lia. lia. Qed.

Lemma byte_val_inj (c d : ascii) : byte_val c = byte_val d -> c = d.
Proof.
  unfold byte_val. intros H. apply N2Z.inj in H.
  rewrite <- (ascii_N_embedding c), <- (ascii_N_embedding d). by f_equal.
Qed.

Lemma byte_val_range (c : ascii) : 0 <= byte_val c < 256.
Proof. unfold byte_val. pose proof (N_ascii_bounded c). lia. Qed.

Lemma digit_val_char upper d : 0 <= d < 16 -> digit_val (digit_char upper d) = Some d.
Proof.
  intros Hd. assert (d = 0 \/ d = 1 \/ d = 2 \/ d = 3 \/ d = 4 \/ d = 5 \/ d = 6 \/ d = 7 \/ d = 8
    \/ d = 9 \/ d = 10 \/ d = 11 \/ d = 12 \/ d = 13 \/ d = 14 \/ d = 15) as H by lia.
  destruct upper; repeat (destruct H as [->|H]; [reflexivity|]); subst; reflexivity.
Qed.

Section Format.
Context (upper : bool) (base : Z) (Hbase : 2 <= base <= 16).

Lemma fmt_digits_fuel f1 f2 n acc :
  0 <= n < 2 ^ Z.of_nat f1 -> (f1 <= f2)%nat -> (1 <= f1)%nat ->
  fmt_digits upper f1 base n acc = fmt_digits upper f2 base n acc.
Proof.
  revert f2 n acc. induction f1 as [|f1 IH]; intros f2 n acc Hn Hle Hf; [lia|].
  destruct f2 as [|f2]; [lia|]. cbn [fmt_digits].
  destruct (Z.eqb_spec (n / base) 0) as [|Hnz]; [done|].
  rewrite Nat2Z.inj_succ, Z.pow_succ_r in Hn by lia.
  assert (0 <= n / base < 2 ^ Z.of_nat f1) as Hdiv.
  { split; [apply Z.div_pos; lia|]. apply Z.div_lt_upper_bound; [lia|]. nia. }
  apply IH; [done|lia|]. destruct f1; [cbn in Hdiv; lia|lia].
Qed.

Lemma fmt_fuel_ok n : 0 <= n -> n < 2 ^ Z.of_nat (fmt_fuel n).
Proof.
  intros Hn. unfold fmt_fuel. rewrite Nat2Z.inj_succ, Z2Nat.id by apply Z.log2_nonneg.
  destruct (Z.eq_dec n 0) as [->|]; [cbn; lia|]. apply Z.log2_spec. lia.
Qed.

(** The recursion equation of printing, free of fuel. *)
Lemma fmt_unfold n acc :
  0 <= n ->
  fmt_digits upper (fmt_fuel n) base n acc =
  let acc' := String (digit_char upper (n mod base)) acc in
  if n / base =? 0 then acc' else fmt_digits upper (fmt_fuel (n / base)) base (n / base) acc'.
Proof.
  intros Hn. unfold fmt_fuel at 1. cbn [fmt_digits].
  destruct (Z.eqb_spec (n / base) 0) as [|Hnz]; [done|].
  assert (base <= n) as Hbn.
  { destruct (Z.lt_ge_cases n base); [|done]. rewrite Z.div_small in Hnz by lia. lia. }
  assert (0 < n / base) by (apply Z.div_str_pos; lia).
  assert (n / base <= n / 2) as Hle.
  { apply Z.div_le_lower_bound; [lia|]. pose proof (Z.mul_div_le n base). nia. }
  assert (Z.log2 (n / base) <= Z.log2 n - 1) as Hlog.
  { transitivity (Z.log2 (n / 2)); [by apply Z.log2_le_mono|].
    change (n / 2) with (n / 2 ^ 1). rewrite <- Z.shiftr_div_pow2 by lia.
    rewrite Z.log2_shiftr by lia. pose proof (Z.log2_pos n). lia. }
  pose proof (Z.log2_nonneg (n / base)).
  symmetry. apply fmt_digits_fuel.
  - split; [lia|]. apply fmt_fuel_ok. lia.
  - unfold fmt_fuel. lia.
  - unfold fmt_fuel. lia.
Qed.

Lemma parse_fmt_digits n acc :
  0 <= n -> parse_digits base 0 (fmt_digits upper (fmt_fuel n) base n acc) = parse_digits base n acc.
Proof.
  intros Hn. revert n Hn acc. refine (Zlt_0_ind _ _). intros n IH Hn acc.
  rewrite fmt_unfold by done. cbn zeta.
  pose proof (Z.mod_pos_bound n base ltac:(lia)) as Hm.
  pose proof (Z.div_mod n base ltac:(lia)) as Hdm.
  destruct (Z.eqb_spec (n / base) 0) as [Hz|Hnz].
  - cbn [parse_digits]. rewrite digit_val_char by lia.
    destruct (Z.ltb_spec (n mod base) base); [|lia]. f_equal. nia.
  - assert (0 <= n / base) by (apply Z.div_pos; lia).
    rewrite IH by (split; [lia|]; apply Z.div_lt; nia).
    cbn [parse_digits]. rewrite digit_val_char by lia.
    destruct (Z.ltb_spec (n mod base) base); [|lia]. f_equal. nia.
Qed.

Lemma fmt_uint_nonempty n : 0 <= n -> fmt_uint upper base n <> "".
Proof.
  intros Hn. unfold fmt_uint. revert n Hn.
  enough (forall n, 0 <= n -> forall acc, acc <> "" \/ True ->
    fmt_digits upper (fmt_fuel n) base n acc <> "") as H by (intros; apply H; auto).
  refine (Zlt_0_ind _ _). intros n IH Hn acc _. rewrite fmt_unfold by done. cbn zeta.
  destruct (Z.eqb_spec (n / base) 0) as [|Hnz]; [done|]. apply IH; [|auto].
  split; [apply Z.div_pos; lia|]. apply Z.div_lt; [|lia].
  destruct (Z.eq_dec n 0) as [->|]; [|lia]. rewrite Z.div_0_l in Hnz by lia. lia.
Qed.

Lemma ParseUint_fmt n bits :
  0 <= n < 2 ^ bits -> ParseUint (fmt_uint upper base n) base bits = Some n.
Proof.
  intros Hn. unfold ParseUint. rewrite bool_decide_eq_false_2 by (apply fmt_uint_nonempty; lia).
  unfold fmt_uint. rewrite parse_fmt_digits by lia. cbn.
  destruct (Z.ltb_spec n (2 ^ bits)); [done|lia].
Qed.

(** Printing what was parsed: a digit string without leading zero is what
    printing its value gives. *)
Definition canonical_digit (c : ascii) : Prop :=
  exists d, digit_val c = Some d /\ 0 <= d < base /\ digit_char upper d = c.

Fixpoint canonical (s : string) : Prop :=
  match s with EmptyString => True | String c s => canonical_digit c /\ canonical s end.

Lemma fmt_parse_acc s : forall a n, 0 < a -> canonical s ->
  parse_digits base a s = Some n ->
  fmt_digits upper (fmt_fuel n) base n "" = fmt_digits upper (fmt_fuel a) base a s.
Proof.
  induction s as [|c s IH]; intros a n Ha Hc Hp; cbn in Hp; [congruence|].
  destruct Hc as [(d & Hd & Hr & Hch) Hs]. rewrite Hd in Hp.
  destruct (Z.ltb_spec d base); [|done].
  assert ((a * base + d) / base = a) as Hq.
  { rewrite Z.div_add_l by lia. rewrite Z.div_small by lia. lia. }
  assert ((a * base + d) mod base = d) as Hm.
  { rewrite Z.add_comm, Z.mod_add by lia. apply Z.mod_small. lia. }
  rewrite (IH (a * base + d) n) by (done || nia).
  rewrite fmt_unfold by nia. cbn zeta. rewrite Hq, Hm, Hch.
  destruct (Z.eqb_spec a 0); [lia|done].
Qed.

Lemma fmt_parse c s n :
  canonical (String c s) -> (c = "0"%char -> s = EmptyString) ->
  parse_digits base 0 (String c s) = Some n -> fmt_uint upper base n = String c s.
Proof.
  intros [(d & Hd & Hr & Hch) Hs] Hz Hp. cbn in Hp. rewrite Hd in Hp.
  destruct (Z.ltb_spec d base); [|done]. unfold fmt_uint.
  assert (d mod base = d) as Hm by (apply Z.mod_small; lia).
  assert (d / base = 0) as Hq by (apply Z.div_small; lia).
  destruct (Z.eq_dec d 0) as [->|Hd0].
  - assert (c = "0"%char) as Hc0 by (rewrite <- Hch; by destruct upper).
    rewrite (Hz Hc0) in Hp. injection Hp as Hn. assert (n = 0) as -> by lia.
    rewrite fmt_unfold by lia. cbn zeta. rewrite Hq. cbn. by rewrite Hm, Hch, (Hz Hc0).
  - rewrite (fmt_parse_acc s d n) by (done || lia).
    rewrite fmt_unfold by lia. cbn zeta. by rewrite Hq, Hm, Hch.
Qed.
End Format.

Lemma ascii_all (P : ascii -> Prop) :
  (forall n, (n < 256)%nat -> P (ascii_of_nat n)) -> forall c, P c.
Proof.
  intros H c. rewrite <- (ascii_nat_embedding c). apply H. apply nat_ascii_bounded.
Qed.

(** A boolean property of all 256 bytes, decided by evaluation. *)
Definition every_byte (p : ascii -> bool) : bool :=
  forallb (fun n => p (ascii_of_nat n)) (List.seq 0 256).

Lemma every_byte_spec p : every_byte p = true -> forall c, p c = true.
Proof.
  intros H c. revert c. apply ascii_all. intros n Hn.
  unfold every_byte in H. rewrite forallb_forall in H. apply H, in_seq. lia.
Qed.

Definition canonical_digitb (upper : bool) (base : Z) (c : ascii) : bool :=
  match digit_val c with
  | Some d => (0 <=? d) && (d <? base) && (digit_char upper d ==? c)
  | None => false
  end.

Lemma canonical_digitb_spec upper base c :
  canonical_digitb upper base c = true -> canonical_digit upper base c.
Proof.
  unfold canonical_digitb, canonical_digit. destruct (digit_val c) as [d|]; [|done].
  intros H. bool_split. eauto.
Qed.

Lemma canonical_class p upper base :
  every_byte (fun c => implb (p c) (canonical_digitb upper base c)) = true ->
  forall s, all_chars p s = true -> canonical upper base s.
Proof.
  intros H s. pose proof (every_byte_spec _ H) as Hc.
  induction s as [|c s IH]; cbn; [done|]. rewrite andb_true_iff. intros [Hp Hs].
  split; [|by apply IH]. apply canonical_digitb_spec.
  specialize (Hc c). cbn beta in Hc. by rewrite Hp in Hc.
Qed.

Lemma hex_upper_canonical s : all_chars is_hex_upper s = true -> canonical true 16 s.
Proof. apply canonical_class. vm_compute. reflexivity. Qed.

Lemma hex_lower_canonical s : all_chars is_hex_lower s = true -> canonical false 16 s.
Proof. apply canonical_class. vm_compute. reflexivity. Qed.

Lemma digits_canonical s : all_chars is_digit s = true -> canonical false 10 s.
Proof. apply canonical_class. vm_compute. reflexivity. Qed.

(** What the printed digits look like. *)
Lemma digit_char_hex d : 0 <= d < 16 -> is_hex_upper (digit_char true d) = true.
Proof.
  intros Hd. assert (is_hex_upper (digit_char true (Z.of_nat (Z.to_nat d))) = true) as H.
  { assert (Z.to_nat d < 16)%nat as Hn by lia. revert Hn. generalize (Z.to_nat d). intros n Hn.
    do 16 (destruct n as [|n]; [reflexivity|]). lia. }
  by rewrite Z2Nat.id in H by lia.
Qed.

Lemma fmt_uint_hex n : 0 <= n -> all_chars is_hex_upper (sprintf_X n) = true.
Proof.
  intros Hn. unfold sprintf_X, fmt_uint.
  assert (all_chars is_hex_upper "" = true) as Hacc by done. revert Hacc.
  generalize (""%string). revert n Hn. refine (Zlt_0_ind _ _). intros n IH Hn acc Hacc.
  rewrite fmt_unfold by lia. cbn zeta.
  assert (all_chars is_hex_upper (String (digit_char true (n mod 16)) acc) = true) as Hacc'.
  { cbn [all_chars]. rewrite digit_char_hex by (apply Z.mod_pos_bound; lia). exact Hacc. }
  destruct (Z.eqb_spec (n / 16) 0) as [|Hnz]; [done|]. apply IH; [|done].
  split; [apply Z.div_pos; lia|]. apply Z.div_lt; [|lia].
  destruct (Z.eq_dec n 0) as [->|]; [|lia]. by rewrite Z.div_0_l in Hnz.
Qed.

(** The width of a printed number is bounded by the width of its range. *)
Lemma fmt_uint_length upper n : forall w acc, 0 <= n < 16 ^ Z.of_nat (S w) ->
  (String.length (fmt_digits upper (fmt_fuel n) 16 n acc) <= String.length acc + S w)%nat.
Proof.
  intros w. revert n. induction w as [|w IH]; intros n acc Hn;
    rewrite fmt_unfold by lia; cbn zeta.
  - cbn in Hn. rewrite (Z.div_small n 16) by lia. cbn. lia.
  - destruct (Z.eqb_spec (n / 16) 0); [cbn; lia|].
    rewrite Nat2Z.inj_succ, Z.pow_succ_r in Hn by lia.
    etransitivity; [apply IH|].
    + split; [apply Z.div_pos; lia|]. apply Z.div_lt_upper_bound; lia.
    + cbn. lia.
Qed.

(** No leading zero. *)
Lemma fmt_uint_head upper n acc : 0 < n ->
  exists c s, fmt_digits upper (fmt_fuel n) 16 n acc = String c s /\ c <> "0"%char.
Proof.
  intros Hn. assert (0 <= n) as Hn0 by lia. revert n Hn0 Hn acc.
  refine (Zlt_0_ind _ _). intros n IH _ Hn acc. rewrite fmt_unfold by lia. cbn zeta.
  destruct (Z.eqb_spec (n / 16) 0) as [Hz|Hnz].
  - eexists _, _. split; [reflexivity|]. intros Hc.
    pose proof (Z.mod_pos_bound n 16 ltac:(lia)).
    pose proof (Z.div_mod n 16 ltac:(lia)).
    apply (f_equal digit_val) in Hc. rewrite digit_val_char in Hc by lia.
    change (digit_val "0") with (Some 0) in Hc. injection Hc as Hc. lia.
  - apply IH; pose proof (Z.div_pos n 16); try lia. split; [lia|]. apply Z.div_lt; lia.
Qed.

(** Every digit string parses, to a number below [base ^ length]. *)
Lemma parse_canonical upper base s : 2 <= base -> canonical upper base s -> forall a, 0 <= a ->
  exists n, parse_digits base a s = Some n
    /\ a * base ^ Z.of_nat (String.length s) <= n < (a + 1) * base ^ Z.of_nat (String.length s).
Proof.
  intros Hb. induction s as [|c s IH]; intros Hc a Ha.
  - exists a. split; [done|]. change (Z.of_nat (String.length "")) with 0. lia.
  - destruct Hc as [(d & Hd & Hr & _) Hs].
    destruct (IH Hs (a * base + d) ltac:(nia)) as (n & Hn & Hlo & Hhi).
    exists n. cbn [parse_digits]. rewrite Hd. destruct (Z.ltb_spec d base); [|lia].
    split; [done|]. cbn [String.length]. rewrite Nat2Z.inj_succ, Z.pow_succ_r by lia.
    assert (0 < base ^ Z.of_nat (String.length s)) by (apply Z.pow_pos_nonneg; lia). nia.
Qed.

Lemma parse_hex_canonical s : s <> "" -> (String.length s <= 8)%nat ->
  all_chars is_hex_upper s = true ->
  parse_digits 16 0 s = Some (parse_hex s) /\ 0 <= parse_hex s < 2 ^ 32.
Proof.
  intros Hne Hlen Hs.
  destruct (parse_canonical true 16 s ltac:(lia) (hex_upper_canonical _ Hs) 0 ltac:(lia))
    as (n & Hn & Hlo & Hhi).
  assert (16 ^ Z.of_nat (String.length s) <= 16 ^ 8) as Hpow by (apply Z.pow_le_mono_r; lia).
  change (16 ^ 8) with (2 ^ 32) in Hpow.
  assert (0 <= n < 2 ^ 32) by lia.
  unfold parse_hex, ParseUint. rewrite bool_decide_eq_false_2 by done. rewrite Hn.
  destruct (Z.ltb_spec n (2 ^ 32)); [|lia]. done.
Qed.

Lemma parse_digits_nonneg base s : 0 <= base -> forall a n, 0 <= a ->
  parse_digits base a s = Some n -> 0 <= n.
Proof.
  intros Hb. induction s as [|c s IH]; intros a n Ha; cbn; [congruence|].
  destruct (digit_val c) as [d|] eqn:Ed; [|done]. destruct (d <? base); [|done].
  apply IH. assert (0 <= d); [|nia]. unfold digit_val, is_digit, in_range in Ed.
  change (byte_val "0") with 48 in Ed. change (byte_val "a") with 97 in Ed.
  change (byte_val "A") with 65 in Ed. repeat case_match; simplify_eq; bool_split; lia.
Qed.

(** Digit strings of one length denote different numbers. *)
Lemma parse_digits_inj_acc upper base s1 : 2 <= base -> forall s2 a1 a2 n,
  canonical upper base s1 -> canonical upper base s2 -> String.length s1 = String.length s2 ->
  parse_digits base a1 s1 = Some n -> parse_digits base a2 s2 = Some n -> a1 = a2 /\ s1 = s2.
Proof.
  intros Hb. induction s1 as [|c1 s1 IH]; intros [|c2 s2] a1 a2 n C1 C2 Hl P1 P2; cbn in *; try done.
  - split; congruence.
  - destruct C1 as [(d1 & D1 & R1 & X1) C1], C2 as [(d2 & D2 & R2 & X2) C2].
    rewrite D1 in P1. rewrite D2 in P2.
    destruct (Z.ltb_spec d1 base); [|done]. destruct (Z.ltb_spec d2 base); [|done].
    injection Hl as Hl. destruct (IH s2 _ _ n C1 C2 Hl P1 P2) as [E ->].
    assert (a1 = a2 /\ d1 = d2) as [-> ->]; [|by subst].
    assert (a1 = a2) as ->; [|lia]. nia.
Qed.

Lemma parse_digits_inj upper base s1 s2 n : 2 <= base ->
  canonical upper base s1 -> canonical upper base s2 -> String.length s1 = String.length s2 ->
  parse_digits base 0 s1 = Some n -> parse_digits base 0 s2 = Some n -> s1 = s2.
Proof. intros. by edestruct (parse_digits_inj_acc upper base s1) as [_ ?]. Qed.

(** Padding with zeros keeps the value. *)
Lemma parse_zeros base n s : 1 <= base -> parse_digits base 0 (zeros n +:+ s) = parse_digits base 0 s.
Proof.
  intros Hb. induction n as [|n IH]; [done|].
  change (zeros (S n) +:+ s) with (String "0" (zeros n +:+ s)). cbn [parse_digits].
  change (digit_val "0") with (Some 0). cbn match. rewrite (proj2 (Z.ltb_lt 0 base)) by lia. exact IH.
Qed.

Lemma zeros_length n : String.length (zeros n) = n.
Proof. induction n; cbn; by f_equal. Qed.

Lemma zeros_hex n : all_chars is_hex_upper (zeros n) = true.
Proof. induction n; [done|]. cbn. by rewrite IHn. Qed.

Lemma sprintf_08X_spec n : 0 <= n < 2 ^ 32 ->
  String.length (sprintf_08X n) = 8%nat /\ all_chars is_hex_upper (sprintf_08X n) = true
  /\ parse_hex (sprintf_08X n) = n.
Proof.
  intros Hn. assert (String.length (sprintf_X n) <= 8)%nat as Hl
    by exact (fmt_uint_length true n 7 "" ltac:(cbn; lia)).
  unfold sprintf_08X, pad.
  assert (all_chars is_hex_upper (zeros (8 - String.length (sprintf_X n)) +:+ sprintf_X n) = true) as Hh.
  { rewrite all_chars_append, zeros_hex. apply fmt_uint_hex. lia. }
  assert (String.length (zeros (8 - String.length (sprintf_X n)) +:+ sprintf_X n) = 8%nat) as Hlen.
  { rewrite length_append, zeros_length. lia. }
  split_and!; [done|done|].
  destruct (parse_hex_canonical _ ltac:(intros E; by rewrite E in Hlen) ltac:(lia) Hh) as [Hp _].
  rewrite parse_zeros in Hp by lia. unfold sprintf_X, fmt_uint in Hp.
  rewrite parse_fmt_digits in Hp by lia. injection Hp as Hp. exact (eq_sym Hp).
Qed.

(** ** Prefixes and suffixes *)
Lemma take_drop_bytes n s : (n <= String.length s)%nat ->
  s = String.substring 0 n s +:+ drop_bytes n s /\ String.length (String.substring 0 n s) = n.
Proof.
  revert s. induction n as [|n IH]; intros s Hn.
  - destruct s; done.
  - destruct s as [|c s]; cbn in Hn; [lia|]. destruct (IH s ltac:(lia)) as [E L]. cbn. split.
    + change (String ?a ?b +:+ ?x) with (String a (b +:+ x)). by rewrite <- E.
    + by rewrite L.
Qed.

Lemma HasSuffix_inv s p : HasSuffix s p = true ->
  s = TrimSuffix s p +:+ p /\ (String.length (TrimSuffix s p) + String.length p = String.length s)%nat.
Proof.
  intros H. unfold TrimSuffix. rewrite H. unfold HasSuffix in H.
  apply andb_true_iff in H as [Hl Hd]. apply Nat.leb_le in Hl. bool_split.
  destruct (take_drop_bytes (String.length s - String.length p) s ltac:(lia)) as [E L].
  rewrite Hd in E. rewrite L. split; [done|lia].
Qed.

Lemma drop_bytes_append a b : drop_bytes (String.length a) (a +:+ b) = b.
Proof. induction a as [|c a IH]; [by destruct b|]. exact IH. Qed.

Lemma substring_append a b : String.substring 0 (String.length a) (a +:+ b) = a.
Proof.
  induction a as [|c a IH]; [by destruct b|].
  change (String c a +:+ b) with (String c (a +:+ b)). cbn. by rewrite IH.
Qed.

Lemma HasSuffix_append a p : HasSuffix (a +:+ p) p = true /\ TrimSuffix (a +:+ p) p = a.
Proof.
  assert (HasSuffix (a +:+ p) p = true) as H.
  { unfold HasSuffix. rewrite length_append.
    replace (String.length a + String.length p - String.length p)%nat with (String.length a) by lia.
    rewrite drop_bytes_append, bool_decide_eq_true_2 by done.
    rewrite (proj2 (Nat.leb_le _ _)) by lia. done. }
  split; [done|]. unfold TrimSuffix. rewrite H, length_append.
  replace (String.length a + String.length p - String.length p)%nat with (String.length a) by lia.
  apply substring_append.
Qed.

Lemma HasPrefix_append p s : HasPrefix (p +:+ s) p = true /\ TrimPrefix (p +:+ s) p = s.
Proof.
  assert (HasPrefix (p +:+ s) p = true) as H.
  { unfold HasPrefix. induction p as [|c p IH]; [by destruct s|].
    change (String c p +:+ s) with (String c (p +:+ s)). cbn.
    destruct (Ascii.ascii_dec c c); [done|congruence]. }
  split; [done|]. unfold TrimPrefix. rewrite H. apply drop_bytes_append.
Qed.

Lemma HasPrefix_inv s p : HasPrefix s p = true -> s = p +:+ TrimPrefix s p.
Proof.
  intros H. unfold TrimPrefix. rewrite H. revert s H. unfold HasPrefix.
  induction p as [|c p IH]; intros s H; [by destruct s|].
  destruct s as [|d s]; cbn in H; [done|]. destruct (Ascii.ascii_dec c d) as [->|]; [|done].
  cbn. change (String d p +:+ ?x) with (String d (p +:+ x)). by rewrite <- (IH s).
Qed.

Lemma all_chars_slice p i j s : all_chars p s = true -> all_chars p (slice i j s) = true.
Proof.
  unfold slice. generalize (j - i)%nat. revert i.
  induction s as [|c s IH]; intros i n; cbn; [by destruct i, n|].
  intros [Hc Hs]%andb_true_iff. destruct i, n; cbn; rewrite ?Hc; try done; by apply IH.
Qed.

Lemma substring_skip a b i n :
  String.substring (String.length a + i) n (a +:+ b) = String.substring i n b.
Proof.
  induction a as [|c a IH]; [done|].
  change (String c a +:+ b) with (String c (a +:+ b)). exact IH.
Qed.

(** The three fixed-width fields of a concatenation. *)
Lemma slice_three a b c : String.length a = 8%nat -> String.length b = 8%nat ->
  String.length c = 8%nat ->
  slice 0 8 (a +:+ b +:+ c) = a /\ slice 8 16 (a +:+ b +:+ c) = b /\ slice 16 24 (a +:+ b +:+ c) = c.
Proof.
  intros Ha Hb Hc. unfold slice. cbn [Nat.sub]. split_and!.
  - rewrite <- Ha at 1. apply substring_append.
  - change 8%nat with (8 + 0)%nat at 1. rewrite <- Ha at 1. rewrite substring_skip.
    rewrite <- Hb at 1. apply substring_append.
  - change 16%nat with (8 + 8)%nat. rewrite <- Ha at 1. rewrite substring_skip.
    change 8%nat with (8 + 0)%nat at 1. rewrite <- Hb at 1. rewrite substring_skip.
    rewrite <- Hc. pose proof (substring_append c "") as H. by rewrite append_nil_r in H.
Qed.
