(* ===== verification/GoTime.v ===== *)
(** * Instants and the RFC 3339 text form the repository stores

    A [time.Time] is an instant: nanoseconds since the Unix epoch, in [Z].
    [parse_rfc3339nano] follows [time.Parse(time.RFC3339Nano, s)], including what
    it tolerates (a one-digit hour, a comma before the fraction, more than nine
    fraction digits, numeric zones up to 24:60); [format_rfc3339nano] follows
    [t.UTC().Format(time.RFC3339Nano)]. *)

From S2P Require Import Prelude GoStrings.

Definition Time := Z.
Definition second : Z := 1000000000.
Definition hour_ns : Z := 3600 * second.
(** [time.Time{}]: January 1 of year 1, UTC. *)
Definition zero_time : Time := -62135596800 * second.
Definition IsZero (t : Time) : bool := t =? zero_time.
Definition Before (a b : Time) : bool := a <? b.
Definition After (a b : Time) : bool := b <? a.

(** ** Calendar *)
Definition days_from_civil (y m d : Z) : Z :=
  let y' := if m <=? 2 then y - 1 else y in
  let era := y' / 400 in
  let yoe := y' - era * 400 in
  let mp := if m <=? 2 then m + 9 else m - 3 in
  let doy := (153 * mp + 2) / 5 + d - 1 in
  let doe := yoe * 365 + yoe / 4 - yoe / 100 + doy in
  era * 146097 + doe - 719468.

Definition civil_from_days (days : Z) : Z * Z * Z :=
  let z := days + 719468 in
  let era := z / 146097 in
  let doe := z - era * 146097 in
  let yoe := (doe - doe / 1460 + doe / 36524 - doe / 146096) / 365 in
  let doy := doe - (365 * yoe + yoe / 4 - yoe / 100) in
  let mp := (5 * doy + 2) / 153 in
  let d := doy - (153 * mp + 2) / 5 + 1 in
  let m := if mp <? 10 then mp + 3 else mp - 9 in
  (yoe + era * 400 + (if m <=? 2 then 1 else 0), m, d).

Definition is_leap (y : Z) : bool :=
  (y mod 4 =? 0) && ((negb (y mod 100 =? 0)) || (y mod 400 =? 0)).
Definition days_in (m y : Z) : Z :=
  if m =? 2 then (if is_leap y then 29 else 28)
  else if (m =? 4) || (m =? 6) || (m =? 9) || (m =? 11) then 30 else 31.

Definition date (y mo d h mi s ns : Z) : Time :=
  ((days_from_civil y mo d * 86400) + h * 3600 + mi * 60 + s) * second + ns.

(** ** Parsing *)
Definition expect (c : ascii) (s : string) : option string :=
  match s with String x s => if bool_decide (x = c) then Some s else None | EmptyString => None end.
Definition digit (c : ascii) : Z := byte_val c - 48.
(** [getnum]: two digits, or one when the layout does not fix the width. *)
Definition getnum (fixed : bool) (s : string) : option (Z * string) :=
  match s with
  | String a s1 =>
    if is_digit a then
      match s1 with
      | String b s2 =>
        if is_digit b then Some (digit a * 10 + digit b, s2)
        else if fixed then None else Some (digit a, s1)
      | EmptyString => if fixed then None else Some (digit a, s1)
      end
    else None
  | EmptyString => None
  end.
Definition getyear (s : string) : option (Z * string) :=
  match s with
  | String a (String b (String c (String d s'))) =>
    if is_digit a && is_digit b && is_digit c && is_digit d
    then Some (digit a * 1000 + digit b * 100 + digit c * 10 + digit d, s') else None
  | _ => None
  end.
(** Digits of a fraction: the first nine count, the rest are dropped. *)
Fixpoint frac_digits (left : nat) (acc : Z) (s : string) : Z * string :=
  match s with
  | String c s' =>
    if is_digit c then
      match left with
      | O => frac_digits O acc s'
      | S k => frac_digits k (acc * 10 + digit c) s'
      end
    else (acc * 10 ^ Z.of_nat left, s)
  | EmptyString => (acc * 10 ^ Z.of_nat left, s)
  end.
Definition getfrac (s : string) : Z * string :=
  match s with
  | String p (String d s') =>
    if (bool_decide (p = "."%char) || bool_decide (p = ","%char)) && is_digit d
    then frac_digits 9 0 (String d s') else (0, s)
  | _ => (0, s)
  end.
(** [Z07:00]: the offset in seconds. *)
Definition getzone (s : string) : option (Z * string) :=
  match s with
  | String "Z" s' => Some (0, s')
  | String sg (String a (String b (String ":" (String c (String d s'))))) =>
    if is_digit a && is_digit b && is_digit c && is_digit d then
      let hr := digit a * 10 + digit b in
      let mm := digit c * 10 + digit d in
      if (hr <=? 24) && (mm <=? 60) then
        let off := (hr * 60 + mm) * 60 in
        if bool_decide (sg = "+"%char) then Some (off, s')
        else if bool_decide (sg = "-"%char) then Some (- off, s') else None
      else None
    else None
  | _ => None
  end.

Notation "'let!' x := m 'in' k" := (match m with Some x => k | None => None end)
  (at level 10, x pattern, m at level 100, k at level 200) : go_scope.
Definition check (b : bool) : option () := if b then Some () else None.

(** The instant and the year shown in the parsed zone ([t.Year()]). *)
Definition parse_rfc3339nano (s : string) : option (Time * Z) :=
  let! (y, s) := getyear s in
  let! s := expect "-" s in
  let! (mo, s) := getnum true s in
  let! _ := check ((1 <=? mo) && (mo <=? 12)) in
  let! s := expect "-" s in
  let! (d, s) := getnum true s in
  let! s := expect "T" s in
  let! (h, s) := getnum false s in
  let! _ := check (h <? 24) in
  let! s := expect ":" s in
  let! (mi, s) := getnum true s in
  let! _ := check (mi <? 60) in
  let! s := expect ":" s in
  let! (sec, s) := getnum true s in
  let! _ := check (sec <? 60) in
  let '(ns, s) := getfrac s in
  let! (off, s) := getzone s in
  let! _ := check ((s ==? "") && (1 <=? d) && (d <=? days_in mo y)) in
  Some (date y mo d h mi sec ns - off * second, y).

(** ** Formatting *)
Definition dig (n : Z) : ascii := digit_char false n.
Definition two (n : Z) (s : string) : string := String (dig (n / 10)) (String (dig (n mod 10)) s).
Definition four (n : Z) (s : string) : string :=
  String (dig (n / 1000)) (String (dig (n / 100 mod 10)) (two (n mod 100) s)).
(** The fraction's nine digits without trailing zeros; nothing for zero. *)
Fixpoint frac_text (left : nat) (n : Z) : string :=
  match left with
  | O => EmptyString
  | S k => if n =? 0 then EmptyString
           else String (dig (n / 10 ^ Z.of_nat k)) (frac_text k (n mod 10 ^ Z.of_nat k))
  end.
Definition frac (ns : Z) (s : string) : string :=
  if ns =? 0 then s else String "." (frac_text 9 ns +:+ s).

Definition format_rfc3339nano (t : Time) : string :=
  let secs := t / second in
  let ns := t mod second in
  let '(y, mo, d) := civil_from_days (secs / 86400) in
  let r := secs mod 86400 in
  four y (String "-" (two mo (String "-" (two d (String "T"
    (two (r / 3600) (String ":" (two (r mod 3600 / 60) (String ":"
    (two (r mod 60) (frac ns "Z"))))))))))).

Example format_epoch : format_rfc3339nano (1700000000 * second + 120000000) = "2023-11-14T22:13:20.12Z".
Proof. vm_compute. reflexivity. Qed.
Example parse_ex : parse_rfc3339nano "2023-11-14T23:13:20.12+01:00" =
  Some (1700000000 * second + 120000000, 2023).
Proof. vm_compute. reflexivity. Qed.
Example parse_leap : (parse_rfc3339nano "2023-02-29T00:00:00Z", parse_rfc3339nano "2024-02-29T1:00:00,5Z")
  = (None, Some (1709168400 * second + 500000000, 2024)).
Proof. vm_compute. reflexivity. Qed.

(** ** The calendar is consistent *)
Ltac divs := Z.to_euclidean_division_equations.

Lemma yoe_bounds doe : 0 <= doe < 146097 ->
  let yoe := (doe - doe / 1460 + doe / 36524 - doe / 146096) / 365 in
  0 <= yoe < 400 /\ 0 <= doe - (365 * yoe + yoe / 4 - yoe / 100) <= 365.
Proof.
  intros H yoe. subst yoe.
  assert (0 <= doe / 146096 <= 1) by (divs; lia).
  assert (0 <= doe / 36524 <= 4) by (divs; lia). split; divs; lia.
Qed.

(** The 366th day of a March-based year is a leap day. *)
Lemma doy_leap doe yoe : 0 <= doe < 146097 ->
  (doe - doe / 1460 + doe / 36524 - doe / 146096) / 365 = yoe ->
  doe - (365 * yoe + yoe / 4 - yoe / 100) = 365 ->
  yoe mod 4 = 3 /\ (yoe mod 100 = 99 -> yoe = 399).
Proof.
  intros H1 H2 H3.
  assert (0 <= doe / 146096 <= 1) by (divs; lia).
  assert (0 <= doe / 36524 <= 4) by (divs; lia).
  divs; lia.
Qed.

Lemma leap_year yoe era :
  0 <= yoe < 400 -> yoe mod 4 = 3 -> (yoe mod 100 = 99 -> yoe = 399) ->
  is_leap (yoe + era * 400 + 1) = true.
Proof.
  intros H1 H2 H3. unfold is_leap.
  assert ((yoe + era * 400 + 1) mod 4 = 0) as -> by (divs; lia). cbn [Z.eqb andb].
  destruct (Z.eqb_spec ((yoe + era * 400 + 1) mod 100) 0) as [Hc|]; [|done]. cbn.
  apply Z.eqb_eq. divs; lia.
Qed.

Lemma civil_from_days_spec z y m d :
  civil_from_days z = (y, m, d) ->
  1 <= m <= 12 /\ 1 <= d <= days_in m y /\ days_from_civil y m d = z.
Proof.
  unfold civil_from_days. cbn zeta.
  set (era := (z + 719468) / 146097). set (doe := z + 719468 - era * 146097).
  assert (0 <= doe < 146097) as Hdoe by (subst doe era; divs; lia).
  pose proof (yoe_bounds doe Hdoe) as [Hyoe Hdoy]. pose proof (doy_leap doe _ Hdoe eq_refl) as Hleap.
  set (yoe := (doe - doe / 1460 + doe / 36524 - doe / 146096) / 365) in *.
  set (doy := doe - (365 * yoe + yoe / 4 - yoe / 100)) in *.
  set (mp := (5 * doy + 2) / 153).
  assert (0 <= mp <= 11) as Hmp by (subst mp; divs; lia).
  assert (1 <= doy - (153 * mp + 2) / 5 + 1 <= 31) as Hd by (subst mp; divs; lia).
  intros [= <- <- <-].
  assert (doe = yoe * 365 + yoe / 4 - yoe / 100 + doy) as Edoe by (subst doy; lia).
  assert (z = era * 146097 + doe - 719468) as Ez by (subst doe; lia).
  destruct (Z.ltb_spec mp 10) as [Hlt|Hge].
  - assert ((mp + 3 <=? 2) = false) as Hm by (apply Z.leb_gt; lia).
    split_and!; try lia.
    + unfold days_in.
      destruct (Z.eqb_spec (mp + 3) 2); [lia|].
      destruct ((mp + 3 =? 4) || (mp + 3 =? 6) || (mp + 3 =? 9) || (mp + 3 =? 11)) eqn:E; [|lia].
      assert (mp = 1 \/ mp = 3 \/ mp = 6 \/ mp = 8) as Hc by (rewrite !orb_true_iff, !Z.eqb_eq in E; lia).
      subst mp. divs; lia.
    + unfold days_from_civil. rewrite Hm. cbn zeta.
      replace (yoe + era * 400 + 0) with (yoe + era * 400) by lia.
      replace ((yoe + era * 400) / 400) with era by (divs; lia).
      replace (yoe + era * 400 - era * 400) with yoe by lia.
      replace (mp + 3 - 3) with mp by lia. lia.
  - assert ((mp - 9 <=? 2) = true) as Hm by (apply Z.leb_le; lia).
    rewrite Hm. split_and!; try lia.
    + unfold days_in. destruct (Z.eqb_spec (mp - 9) 2) as [Hf|].
      * assert (mp = 11) as Hmp11 by lia. rewrite Hmp11.
        destruct (Z.eq_dec doy 365) as [Hl|].
        -- destruct (Hleap Hl). rewrite leap_year by done. divs; lia.
        -- destruct (is_leap _); divs; lia.
      * destruct ((mp - 9 =? 4) || (mp - 9 =? 6) || (mp - 9 =? 9) || (mp - 9 =? 11)) eqn:E; [|lia].
        rewrite !orb_true_iff, !Z.eqb_eq in E. lia.
    + unfold days_from_civil. rewrite Hm. cbn zeta.
      replace (yoe + era * 400 + 1 - 1) with (yoe + era * 400) by lia.
      replace ((yoe + era * 400) / 400) with era by (divs; lia).
      replace (yoe + era * 400 - era * 400) with yoe by lia.
      replace (mp - 9 + 9) with mp by lia. lia.
Qed.

(** ** Parsing what was formatted *)
Lemma dig_spec n : 0 <= n <= 9 -> is_digit (dig n) = true /\ digit (dig n) = n.
Proof.
  intros Hn. assert (Forall (fun n => is_digit (dig n) = true /\ digit (dig n) = n) (seqZ 0 10)) as H by repeat constructor.
  rewrite Forall_forall in H. apply H, elem_of_seqZ. lia.
Qed.

Ltac dig_rw n :=
  let H1 := fresh in let H2 := fresh in
  destruct (dig_spec n ltac:(divs; lia)) as [H1 H2]; rewrite ?H1, ?H2; clear H1 H2.

Lemma getnum_two fixed n s : 0 <= n <= 99 -> getnum fixed (two n s) = Some (n, s).
Proof.
  intros Hn. cbn [getnum two]. dig_rw (n / 10). dig_rw (n mod 10).
  do 2 f_equal. divs; lia.
Qed.

Lemma getyear_four n s : 0 <= n <= 9999 -> getyear (four n s) = Some (n, s).
Proof.
  intros Hn. cbn [getyear four two]. dig_rw (n / 1000). dig_rw (n / 100 mod 10).
  dig_rw (n mod 100 / 10). dig_rw ((n mod 100) mod 10). cbn [andb].
  do 2 f_equal. divs; lia.
Qed.

Lemma frac_digits_text left : forall n acc, 0 <= n < 10 ^ Z.of_nat left ->
  frac_digits left acc (frac_text left n +:+ "Z") = (acc * 10 ^ Z.of_nat left + n, "Z").
Proof.
  induction left as [|k IH]; intros n acc Hn.
  - assert (n = 0) as -> by (cbn in Hn; lia). rewrite Z.add_0_r. done.
  - cbn [frac_text]. destruct (Z.eqb_spec n 0) as [->|Hnz].
    { change ("" +:+ "Z") with "Z". cbn [frac_digits]. rewrite Z.add_0_r. done. }
    rewrite Nat2Z.inj_succ, Z.pow_succ_r in Hn by lia.
    assert (0 < 10 ^ Z.of_nat k) by (apply Z.pow_pos_nonneg; lia).
    assert (0 <= n / 10 ^ Z.of_nat k <= 9) as Hq.
    { split; [apply Z.div_pos; lia|].
      enough (n / 10 ^ Z.of_nat k < 10) by lia. apply Z.div_lt_upper_bound; lia. }
    change (String ?a ?b +:+ "Z") with (String a (b +:+ "Z")). cbn [frac_digits].
    destruct (dig_spec _ Hq) as [-> ->]. rewrite IH by (apply Z.mod_pos_bound; lia).
    rewrite Nat2Z.inj_succ, Z.pow_succ_r by lia. f_equal.
    rewrite (Z.div_mod n (10 ^ Z.of_nat k)) at 3 by lia. ring.
Qed.

Lemma getfrac_frac ns : 0 <= ns < second -> getfrac (frac ns "Z") = (ns, "Z").
Proof.
  unfold second. intros Hns. unfold frac. destruct (Z.eqb_spec ns 0) as [->|Hnz]; [done|].
  pose proof (frac_digits_text 9 ns 0 ltac:(cbn; lia)) as H.
  cbn [getfrac].
  destruct (frac_text 9 ns +:+ "Z") as [|c s] eqn:E; [discriminate H|].
  assert (is_digit c = true) as ->.
  { cbn [frac_text] in E. destruct (Z.eqb_spec ns 0); [lia|].
    change (String ?a ?b +:+ "Z") with (String a (b +:+ "Z")) in E. injection E as <- _.
    apply dig_spec. cbn. divs; lia. }
  cbn [bool_decide]. rewrite bool_decide_eq_true_2 by done. cbn [orb andb]. rewrite H.
  f_equal; lia.
Qed.

Lemma expect_cons c s : expect c (String c s) = Some s.
Proof. cbn. by rewrite bool_decide_eq_true_2. Qed.

Lemma parse_format t :
  let y := fst (fst (civil_from_days (t / second / 86400))) in
  0 <= y <= 9999 -> parse_rfc3339nano (format_rfc3339nano t) = Some (t, y).
Proof.
  cbn zeta. unfold format_rfc3339nano.
  destruct (civil_from_days (t / second / 86400)) as [[y mo] d] eqn:Ec. cbn [fst].
  intros Hy. apply civil_from_days_spec in Ec as (Hmo & Hd & Edays).
  assert (days_in mo y <= 31) as Hdi.
  { unfold days_in. repeat case_match; lia. }
  set (r := t / second mod 86400). assert (0 <= r < 86400) as Hr by (apply Z.mod_pos_bound; lia).
  assert (0 <= t mod second < second) as Hns by (apply Z.mod_pos_bound; unfold second; lia).
  unfold parse_rfc3339nano.
  rewrite getyear_four by lia. rewrite expect_cons, getnum_two by lia.
  replace ((1 <=? mo) && (mo <=? 12)) with true by (symmetry; apply andb_true_iff; rewrite !Z.leb_le; lia).
  cbn [check]. rewrite expect_cons, getnum_two by lia. rewrite expect_cons.
  rewrite getnum_two by (divs; lia).
  replace (r / 3600 <? 24) with true by (symmetry; apply Z.ltb_lt; divs; lia).
  cbn [check]. rewrite expect_cons, getnum_two by (divs; lia).
  replace (r mod 3600 / 60 <? 60) with true by (symmetry; apply Z.ltb_lt; divs; lia).
  cbn [check]. rewrite expect_cons, getnum_two by (divs; lia).
  replace (r mod 60 <? 60) with true by (symmetry; apply Z.ltb_lt; divs; lia).
  cbn [check]. rewrite getfrac_frac by done. cbn [getzone].
  change ("" ==? "") with true. cbn [andb].
  replace ((1 <=? d) && (d <=? days_in mo y)) with true
    by (symmetry; apply andb_true_iff; rewrite !Z.leb_le; lia).
  cbn [check]. f_equal. f_equal.
  unfold date. rewrite Edays. subst r. unfold second in *. divs; lia.
Qed.
