(* ===== verification/Sha256.v ===== *)
(** * SHA-256 (crypto/sha256) and hex digests

    The repository names content by SHA-256: [digest] is the function of
    internal/repository/schema.go, [sha256] the standard library's [Sum256].
    Words are 32-bit numbers in [Z]; bytes are [ascii]. *)

From S2P Require Import Prelude GoStrings.

Definition w32 (z : Z) : Z := Z.land z u32_max.
Definition rotr (x : Z) (n : Z) : Z := w32 (Z.lor (Z.shiftr x n) (Z.shiftl x (32 - n))).
Definition lnot32 (x : Z) : Z := Z.lxor x u32_max.

(** The constants: the first 32 bits of the fractional parts of the cube roots of the
    first 64 primes and of the square roots of the first 8. *)
Definition prime (n : Z) : bool := forallb (fun d => negb (n mod Z.of_nat d =? 0)) (seq 2 (Z.to_nat n - 2)).
Definition primes (k : nat) : list Z := take k (List.filter prime (Z.of_nat <$> seq 2 310)).
(** The cube root rounded down, bit by bit from [2^bits]. *)
Fixpoint cube_root (bits : nat) (acc n : Z) : Z :=
  match bits with
  | O => acc
  | S b => let x := acc + 2 ^ Z.of_nat b in cube_root b (if x * x * x <=? n then x else acc) n
  end.
Definition sha_k : list Z := Eval vm_compute in (fun p => w32 (cube_root 36 0 (Z.shiftl p 96))) <$> primes 64.
Definition sha_h0 : list Z := Eval vm_compute in (fun p => w32 (Z.sqrt (Z.shiftl p 64))) <$> primes 8.

Definition bytes_of (s : string) : list Z := byte_val <$> String.list_ascii_of_string s.
(** [n] bytes, most significant first. *)
Fixpoint be_bytes (n : nat) (z : Z) : list Z :=
  match n with O => [] | S k => Z.land (Z.shiftr z (8 * Z.of_nat k)) 255 :: be_bytes k z end.
Definition padded (s : string) : list Z :=
  let m := bytes_of s in
  let zs := (55 - Z.of_nat (length m)) mod 64 in
  m ++ 128 :: replicate (Z.to_nat zs) 0 ++ be_bytes 8 (8 * Z.of_nat (length m)).

Fixpoint words (l : list Z) : list Z :=
  match l with
  | a :: b :: c :: d :: l =>
      Z.lor (Z.lor (Z.shiftl a 24) (Z.shiftl b 16)) (Z.lor (Z.shiftl c 8) d) :: words l
  | _ => []
  end.

(** Message schedule, newest word first. *)
Fixpoint schedule (n : nat) (w : list Z) : list Z :=
  match n with
  | O => w
  | S n =>
    let at_ i := nth i w 0 in
    let x15 := at_ 14%nat in let x2 := at_ 1%nat in
    let s0 := Z.lxor (Z.lxor (rotr x15 7) (rotr x15 18)) (Z.shiftr x15 3) in
    let s1 := Z.lxor (Z.lxor (rotr x2 17) (rotr x2 19)) (Z.shiftr x2 10) in
    schedule n (w32 (at_ 15%nat + s0 + at_ 6%nat + s1) :: w)
  end.

Definition sha_round (st : list Z) (kw : Z * Z) : list Z :=
  match st with
  | [a; b; c; d; e; f; g; h] =>
    let s1 := Z.lxor (Z.lxor (rotr e 6) (rotr e 11)) (rotr e 25) in
    let ch := Z.lxor (Z.land e f) (Z.land (lnot32 e) g) in
    let t1 := h + s1 + ch + kw.1 + kw.2 in
    let s0 := Z.lxor (Z.lxor (rotr a 2) (rotr a 13)) (rotr a 22) in
    let maj := Z.lxor (Z.lxor (Z.land a b) (Z.land a c)) (Z.land b c) in
    [w32 (t1 + s0 + maj); a; b; c; w32 (d + t1); e; f; g]
  | _ => st
  end.
Definition sha_block (h : list Z) (w16 : list Z) : list Z :=
  let w := rev (schedule 48 (rev w16)) in
  zip_with (fun x y => w32 (x + y)) h (foldl sha_round h (zip sha_k w)).
Fixpoint sha_blocks (fuel : nat) (h : list Z) (ws : list Z) : list Z :=
  match fuel, ws with
  | S f, _ :: _ => sha_blocks f (sha_block h (take 16 ws)) (drop 16 ws)
  | _, _ => h
  end.
(** [sha256.Sum256]: 32 bytes. *)
Definition Sum256 (s : string) : list Z :=
  let ws := words (padded s) in
  concat (be_bytes 4 <$> sha_blocks (length ws) sha_h0 ws).

(** [hex.EncodeToString] and [%x] of bytes *)
Definition hex_byte (b : Z) : string :=
  String (digit_char false (b / 16)) (String (digit_char false (b mod 16)) EmptyString).
Definition hex (l : list Z) : string := foldr (fun b s => hex_byte b +:+ s) EmptyString l.
Definition digest (b : string) : string := hex (Sum256 b).

(** UUID text from 16 bytes with the version nibble [v] and the RFC variant:
    [b[6] = (b[6]&15)|v; b[8] = (b[8]&63)|128] and the dashed format. *)
Definition uuid_text (v : Z) (b : list Z) : string :=
  let set i f l := match l !! i with Some x => <[i := f x]> l | None => l end in
  let b := set 6%nat (fun x => Z.lor (Z.land x 15) v) b in
  let b := set 8%nat (fun x => Z.lor (Z.land x 63) 128) b in
  let sub i j := hex (take (j - i) (drop i b)) in
  (sub 0 4 +:+ "-" +:+ sub 4 6 +:+ "-" +:+ sub 6 8 +:+ "-" +:+ sub 8 10 +:+ "-" +:+ sub 10 16)%nat.

Example digest_abc : digest "abc" =
  "ba7816bf8f01cfea414140de5dae2223b00361a396177a9cb410ff61f20015ad".
Proof. vm_compute. reflexivity. Qed.
Example digest_empty : digest "" =
  "e3b0c44298fc1c149afbf4c8996fb92427ae41e4649b934ca495991b7852b855".
Proof. vm_compute. reflexivity. Qed.
Example digest_two_blocks : digest "abcdbcdecdefdefgefghfghighijhijkijkljklmklmnlmnomnopnopq" =
  "248d6a61d20638b8e5c026930c3e6039a33ce45964ff2167f6ecedd419db06c1".
Proof. vm_compute. reflexivity. Qed.

(** The text of a digest always has the accepted digest form. *)
Lemma be_bytes_length n z : length (be_bytes n z) = n.
Proof. induction n; cbn; by f_equal. Qed.

Lemma be_bytes_range n z b : b ∈ be_bytes n z -> 0 <= b < 256.
Proof.
  induction n as [|n IH]; cbn; [by intros ?%elem_of_nil|].
  intros [->|H]%elem_of_cons; [|by apply IH].
  change 255 with (Z.ones 8). rewrite Z.land_ones by lia. apply Z.mod_pos_bound. lia.
Qed.

Lemma hex_length l : String.length (hex l) = (2 * length l)%nat.
Proof.
  induction l as [|b l IH]; [done|]. cbn [hex foldr]. rewrite length_append.
  fold (hex l). rewrite IH. cbn. lia.
Qed.

Lemma digit_char_hex_lower d : 0 <= d < 16 -> is_hex_lower (digit_char false d) = true.
Proof.
  intros Hd. assert (is_hex_lower (digit_char false (Z.of_nat (Z.to_nat d))) = true) as H.
  { assert (Z.to_nat d < 16)%nat as Hn by lia. revert Hn. generalize (Z.to_nat d). intros n Hn.
    do 16 (destruct n as [|n]; [reflexivity|]). lia. }
  by rewrite Z2Nat.id in H by lia.
Qed.

Lemma hex_chars l : (forall b, b ∈ l -> 0 <= b < 256) -> all_chars is_hex_lower (hex l) = true.
Proof.
  induction l as [|b l IH]; intros Hl; [done|]. cbn [hex foldr]. fold (hex l).
  rewrite all_chars_append, IH by (intros; apply Hl; by constructor).
  specialize (Hl b ltac:(by constructor)). rewrite andb_true_r. unfold hex_byte. cbn [all_chars].
  rewrite !digit_char_hex_lower; [done| |].
  - apply Z.mod_pos_bound. lia.
  - split; [apply Z.div_pos; lia|]. apply Z.div_lt_upper_bound; lia.
Qed.

Lemma sha_round_length st kw : length (sha_round st kw) = length st.
Proof. unfold sha_round. by repeat (case_match; try done). Qed.

Lemma foldl_sha_round_length l st : length (foldl sha_round st l) = length st.
Proof. revert st. induction l as [|x l IH]; intros st; cbn; [done|]. by rewrite IH, sha_round_length. Qed.

Lemma sha_blocks_length f h ws : length (sha_blocks f h ws) = length h.
Proof.
  revert h ws. induction f as [|f IH]; intros h ws; cbn; [done|]. destruct ws; [done|].
  rewrite IH. unfold sha_block. rewrite length_zip_with, foldl_sha_round_length. lia.
Qed.

Lemma Sum256_spec s : length (Sum256 s) = 32%nat /\ forall b, b ∈ Sum256 s -> 0 <= b < 256.
Proof.
  unfold Sum256. set (l := sha_blocks _ _ _).
  assert (length l = 8%nat) as Hl by apply sha_blocks_length. clearbody l. split.
  - do 8 (destruct l as [|? l]; [done|]). destruct l; [done|]. done.
  - intros b Hb%list_elem_of_In%in_concat. destruct Hb as (x & Hx & Hb).
    apply list_elem_of_In, list_elem_of_fmap in Hx as (y & -> & _).
    by eapply be_bytes_range, list_elem_of_In.
Qed.

Lemma digest_form b : class_n is_hex_lower 64 (digest b) = true.
Proof.
  destruct (Sum256_spec b) as [Hl Hr]. unfold class_n, digest.
  rewrite hex_length, Hl, hex_chars by done. done.
Qed.
