(* ===== verification/Errors.v ===== *)
(** * Error vocabulary (internal/s3store/errors.go, internal/repository/schema.go)

    Go's [error] is an open interface; [error] here lists the values the
    modelled packages create or compare with.  A storage failure carries its
    bounded [Kind] and whether a mutation may have been applied. *)

From S2P Require Import Prelude.

Inductive Kind :=
| Invalid | NotFound | HeadMissing | Precondition | Conflict | Auth | TLS
| Transient | Canceled | Corrupt | Limit | Unsupported | Unknown | LocalIO.
#[export] Instance Kind_eq_dec : EqDecision Kind.
Proof. solve_decision. Defined.

Inductive error :=
(* package repository *)
| ErrInvalid | ErrIdentity | ErrCorrupt | ErrCapacity | ErrBlocked | ErrClosed
| ErrUncertain | ErrRetired | ErrContention
(* package retention *)
| ErrCoverage
(* package wal *)
| WalInvalid | WalConflict | WalExpired | WalCorrupt | WalLocal
(* package postgres *)
| ErrInput
(* *s3store.Error *)
| S3 (k : Kind) (ambiguous : bool)
(* context.Canceled, context.DeadlineExceeded, and errors of other packages *)
| ErrContext
(* a run-time panic: nil dereference or index out of range *)
| Panic
| ErrOther.
#[export] Instance error_eq_dec : EqDecision error.
Proof. solve_decision. Defined.

Abbreviation res := (result error).

Definition failure (k : Kind) : error := S3 k false.
(** [s3store.Is(err, k)] *)
Definition Is (e : error) (k : Kind) : bool :=
  match e with S3 k' _ => k' ==? k | _ => false end.
Definition definitive (k : Kind) : bool :=
  match k with Precondition | Auth | Conflict => true | _ => false end.

(** What the SDK can hand to [classify]: an error that already is a storage
    [*Error] (anywhere in its chain), a context error, an X.509 failure, or any
    other error with the response code [minio.ToErrorResponse] extracts. *)
Inductive sdk_error :=
| SdkStore (k : Kind) (ambiguous : bool)
| SdkContext
| SdkCertificate
| SdkResponse (code : string).

Definition code_kind (code : string) : Kind :=
  if code ==? "PreconditionFailed" then Precondition
  else if (code ==? "ConditionalRequestConflict") || (code ==? "OperationAborted") then Conflict
  else if (code ==? "AccessDenied") || (code ==? "InvalidAccessKeyId")
       || (code ==? "SignatureDoesNotMatch") || (code ==? "AuthorizationHeaderMalformed")
       || (code ==? "InvalidRegion") || (code ==? "ExpiredToken") || (code ==? "InvalidToken")
  then Auth
  else if (code ==? "SlowDown") || (code ==? "RequestTimeout") || (code ==? "InternalError")
       || (code ==? "ServiceUnavailable")
  then Transient
  else Unknown.

Definition classify (err : sdk_error) (mutation : bool) : error :=
  match err with
  | SdkStore k amb => S3 k (amb || (mutation && negb (definitive k)))
  | SdkContext => S3 Canceled mutation
  | SdkCertificate => S3 TLS mutation
  | SdkResponse code => let k := code_kind code in S3 k (mutation && negb (definitive k))
  end.

(** [repository.ambiguous(err)] for a non-nil error; nil is not ambiguous. *)
Definition ambiguous (e : error) : bool :=
  match e with S3 _ amb => amb | _ => true end.
Definition ambiguous_res {A} (r : res A) : bool :=
  match r with Ok _ => false | Err e => ambiguous e end.

(** A mutation's failure counts as settled only when the server answered with
    one of the three definitive kinds. *)
Lemma classify_mutation_ambiguous err :
  ambiguous (classify err true) = false -> exists k, classify err true = S3 k false /\ definitive k = true.
Proof.
  destruct err as [k amb| | |code]; cbn; try done.
  - intros H. apply orb_false_iff in H as [-> H]. apply negb_false_iff in H. rewrite H. eauto.
  - intros H. apply negb_false_iff in H. rewrite H. eauto.
Qed.

Lemma classify_read_settled err :
  (forall k, err <> SdkStore k true) -> ambiguous (classify err false) = false.
Proof. destruct err as [k []| | |code]; cbn; try done. intros H. by destruct (H k). Qed.
