(* ===== verification/Schema.v ===== *)
(** * Repository records and their validation (internal/repository/schema.go)

    One record per JSON document of repository format v1, one validation
    function per [validate] method, guard by guard.  A Go pointer is an
    [option]; a slice whose nil-ness the code tests is an [option] of a list. *)

From S2P Require Import Prelude GoStrings GoTime Sha256 Errors.

(** ** Limits *)
Definition smallLimit : Z := Z.shiftl 64 10.
Definition gateLimit : Z := Z.shiftl 1 20.
Definition commitLimit : Z := Z.shiftl 4 20.
Definition MaxManifestBytes : Z := Z.shiftl 64 20.
Definition MaxBackupBytes : Z := Z.shiftl 1 40.
Definition MaxArtifactBytes : Z := Z.shiftl 512 30.
Definition MaxCatalogRecords : Z := 1000000.

(** ** Identifiers, digests, LSNs, timestamps *)
Definition uuidRE (s : string) : bool :=
  match Split "-" s with
  | [a; b; c; d; e] =>
      class_n is_hex_lower 8 a && class_n is_hex_lower 4 b && class_n is_hex_lower 4 c
      && class_n is_hex_lower 4 d && class_n is_hex_lower 12 e
  | _ => false
  end.
Definition hashRE (s : string) : bool := class_n is_hex_lower 64 s.
(** [0|[1-9A-F][0-9A-F]{0,7}] *)
Definition lsn_part (s : string) : bool :=
  match s with
  | EmptyString => false
  | String c t =>
      (s ==? "0")
      || ((in_range "1" "9" c || in_range "A" "F" c) && (String.length t <=? 7)%nat
          && all_chars is_hex_upper t)
  end.
Definition lsnRE (s : string) : bool :=
  match Split "/" s with [a; b] => lsn_part a && lsn_part b | _ => false end.

Definition validID (s : string) : bool :=
  uuidRE s && (s !=? "00000000-0000-0000-0000-000000000000").

Definition decimal (s : string) : option Z :=
  match ParseUint s 10 64 with
  | Some n => if FormatUint n ==? s then Some n else None
  | None => None
  end.

Definition ParseLSN (s : string) : res Z :=
  if negb (lsnRE s) then Err ErrInvalid else
  match Split "/" s with
  | [a; b] => Ok (Z.lor (Z.shiftl (parse_hex a) 32) (parse_hex b))
  | _ => Err ErrInvalid
  end.
(** [a, _ := ParseLSN(s)] *)
Definition lsn (s : string) : Z := match ParseLSN s with Ok n => n | Err _ => 0 end.
(** [fmt.Sprintf("%X/%X", n>>32, n&math.MaxUint32)] *)
Definition format_lsn (n : Z) : string :=
  sprintf_X (Z.shiftr n 32) +:+ "/" +:+ sprintf_X (Z.land n u32_max).

Definition stamp (s : string) : option Time :=
  match parse_rfc3339nano s with
  | Some (t, year) => if (2000 <=? year) && (s ==? format_rfc3339nano t) then Some t else None
  | None => None
  end.

(** [t, _ := stamp(s)] *)
Definition stamp_time (s : string) : Time :=
  match parse_rfc3339nano s with Some (t, _) => t | None => zero_time end.

Definition nul : ascii := "000"%char.
Definition validText (s : string) (n : Z) : bool :=
  (s !=? "") && (len s <=? n) && ValidString s
  && negb (ContainsAny s [nul; "013"%char; "010"%char]).

(** ** repository.json *)
Record Identity := mkIdentity {
  id_Schema : Z;
  id_RepositoryID : string;
  id_PostgresMajor : Z;
  id_SystemIdentifier : string;
  id_WALSegmentBytes : Z;
  id_WriterClusterUID : string;
  id_CreatedAt : string }.
#[export] Instance Identity_eq_dec : EqDecision Identity.
Proof. solve_decision. Defined.

(** [w < 1<<20 || w > 1<<30 || w&(w-1) != 0] *)
Definition bad_segment_bytes (w : Z) : bool :=
  (w <? Z.shiftl 1 20) || (Z.shiftl 1 30 <? w) || (negb (Z.land w (w - 1) =? 0)).

Definition Identity_Validate (v : Identity) : res () :=
  let n := decimal (id_SystemIdentifier v) in
  if (id_Schema v !=? 1) || negb (validID (id_RepositoryID v)) || (id_PostgresMajor v !=? 18)
     || match n with None => true | Some n => n =? 0 end
     || negb (validID (id_WriterClusterUID v))
     || match stamp (id_CreatedAt v) with None => true | Some _ => false end
     || bad_segment_bytes (id_WALSegmentBytes v)
  then Err ErrInvalid else Ok ().

(** ** request.json *)
Record Request := mkRequest {
  rq_Schema : Z;
  rq_RepositoryID : string;
  rq_BackupUID : string;
  rq_WriterClusterUID : string;
  rq_RequestedKind : string;
  rq_RootBackupUID : option string;
  rq_ConfigSHA256 : string }.
#[export] Instance Request_eq_dec : EqDecision Request.
Proof. solve_decision. Defined.

Definition Request_validate (v : Request) (id : Identity) : res () :=
  if (rq_Schema v !=? 1) || (rq_RepositoryID v !=? id_RepositoryID id)
     || negb (validID (rq_BackupUID v)) || (rq_WriterClusterUID v !=? id_WriterClusterUID id)
     || negb (hashRE (rq_ConfigSHA256 v))
  then Err ErrIdentity else
  match rq_RootBackupUID v with
  | None => if rq_RequestedKind v ==? "full" then Ok () else Err ErrInvalid
  | Some root =>
      if (rq_RequestedKind v ==? "differential") && validID root && (root !=? rq_BackupUID v)
      then Ok () else Err ErrInvalid
  end.

(** ** claim.json *)
Record Claim := mkClaim {
  cl_Schema : Z;
  cl_RepositoryID : string;
  cl_BackupUID : string;
  cl_AttemptID : string;
  cl_ProcessID : string;
  cl_RequestSHA256 : string }.
#[export] Instance Claim_eq_dec : EqDecision Claim.
Proof. solve_decision. Defined.

(** ** commit.json *)
Record Tablespace := mkTablespace { ts_OID : Z; ts_Name : string }.
#[export] Instance Tablespace_eq_dec : EqDecision Tablespace.
Proof. solve_decision. Defined.
Record Artifact := mkArtifact {
  ar_Index : Z;
  ar_Role : string;
  ar_TablespaceOID : option Z;
  ar_Compression : string;
  ar_StoredBytes : Z;
  ar_RawBytes : Z;
  ar_StoredSHA256 : string;
  ar_RawSHA256 : string }.
#[export] Instance Artifact_eq_dec : EqDecision Artifact.
Proof. solve_decision. Defined.
Record WALRange := mkWALRange { wr_Timeline : Z; wr_StartLSN : string; wr_EndLSN : string }.
#[export] Instance WALRange_eq_dec : EqDecision WALRange.
Proof. solve_decision. Defined.
Record Commit := mkCommit {
  c_Schema : Z;
  c_RepositoryID : string;
  c_BackupUID : string;
  c_AttemptID : string;
  c_RequestSHA256 : string;
  c_Kind : string;
  c_ParentBackupUID : option string;
  c_RootBackupUID : string;
  c_SystemIdentifier : string;
  c_PostgresMajor : Z;
  c_ToolVersion : string;
  c_Timeline : Z;
  c_ChecksumVersion : Z;
  c_CaptureInstanceUID : string;
  c_PostmasterStartedAt : string;
  c_StartedAt : string;
  c_StoppedAt : string;
  c_StartLSN : string;
  c_StopLSN : string;
  c_RedoLSN : string;
  c_BundledWALStartLSN : string;
  c_BundledWALEndLSN : string;
  c_WALRanges : list WALRange;
  c_BackupLabel : string;
  c_TablespaceMap : string;
  c_RootManifestSHA256 : option string;
  c_ManifestBytes : Z;
  c_ManifestSHA256 : string;
  c_Tablespaces : option (list Tablespace);
  c_Artifacts : list Artifact }.
#[export] Instance Commit_eq_dec : EqDecision Commit.
Proof. solve_decision. Defined.

(** The first loop over tablespaces: the OIDs and names seen so far. *)
Definition tablespace_step (acc : gset Z * gset string) (t : Tablespace)
  : res (gset Z * gset string) :=
  let '(oids, names) := acc in
  if (ts_OID t =? 0) || bool_decide (ts_OID t ∈ oids) || negb (validText (ts_Name t) 63)
     || bool_decide (ts_Name t ∈ names)
  then Err ErrInvalid
  else Ok ({[ts_OID t]} ∪ oids, {[ts_Name t]} ∪ names).

(** The loop over artifacts: the index, counters, byte sums and used OIDs. *)
Record ArtifactState := mkArtifactState {
  as_i : Z; as_base : Z; as_wal : Z; as_raw : Z; as_stored : Z; as_used : gset Z }.

Definition artifact_step (oids : gset Z) (st : ArtifactState) (a : Artifact) : res ArtifactState :=
  if (ar_Index a !=? as_i st) || (ar_StoredBytes a <? 1) || (MaxArtifactBytes <? ar_StoredBytes a)
     || (ar_RawBytes a <? 1) || (MaxBackupBytes <? ar_RawBytes a)
     || negb (hashRE (ar_StoredSHA256 a)) || negb (hashRE (ar_RawSHA256 a))
  then Err ErrInvalid else
  if (ar_Compression a !=? "none") && (ar_Compression a !=? "gzip") then Err ErrInvalid else
  if (ar_Compression a ==? "none")
     && ((ar_RawBytes a !=? ar_StoredBytes a) || (ar_RawSHA256 a !=? ar_StoredSHA256 a))
  then Err ErrInvalid else
  let raw := as_raw st + ar_RawBytes a in
  let stored := as_stored st + ar_StoredBytes a in
  let next base wal used := Ok (mkArtifactState (as_i st + 1) base wal raw stored used) in
  if ar_Role a ==? "base" then
    match ar_TablespaceOID a with
    | Some _ => Err ErrInvalid
    | None => next (as_base st + 1) (as_wal st) (as_used st)
    end
  else if ar_Role a ==? "wal" then
    if match ar_TablespaceOID a with Some _ => true | None => false end
       || (Z.shiftl 256 30 <? ar_RawBytes a)
    then Err ErrInvalid
    else next (as_base st) (as_wal st + 1) (as_used st)
  else if ar_Role a ==? "tablespace" then
    match ar_TablespaceOID a with
    | None => Err ErrInvalid
    | Some o =>
        if bool_decide (o ∉ oids) || bool_decide (o ∈ as_used st) then Err ErrInvalid
        else next (as_base st) (as_wal st) ({[o]} ∪ as_used st)
    end
  else Err ErrInvalid.

(** The [switch v.Kind] of [Commit.validate]. *)
Definition Commit_validate_kind (v : Commit) : res () :=
  if c_Kind v ==? "full" then
    match c_ParentBackupUID v, c_RootManifestSHA256 v with
    | None, None => if c_RootBackupUID v !=? c_BackupUID v then Err ErrInvalid else Ok ()
    | _, _ => Err ErrInvalid
    end
  else if c_Kind v ==? "differential" then
    match c_ParentBackupUID v, c_RootManifestSHA256 v with
    | Some p, Some h =>
        if negb (validID p) || (p !=? c_RootBackupUID v)
           || (c_RootBackupUID v ==? c_BackupUID v) || negb (hashRE h)
        then Err ErrInvalid else Ok ()
    | _, _ => Err ErrInvalid
    end
  else Err ErrInvalid.

Definition Commit_validate (v : Commit) (id : Identity) : res () :=
  if (c_Schema v !=? 1) || (c_RepositoryID v !=? id_RepositoryID id)
     || (c_SystemIdentifier v !=? id_SystemIdentifier id) || (c_PostgresMajor v !=? 18)
     || (c_ToolVersion v !=? "18.6") || negb (validID (c_BackupUID v))
     || negb (validID (c_AttemptID v)) || negb (validID (c_CaptureInstanceUID v))
     || negb (hashRE (c_RequestSHA256 v)) || (c_Timeline v =? 0)
     || (c_ChecksumVersion v <? 0) || (1 <? c_ChecksumVersion v)
  then Err ErrInvalid else
  match stamp (c_StartedAt v), stamp (c_StoppedAt v), stamp (c_PostmasterStartedAt v) with
  | Some start, Some stop, Some pm =>
    if Before stop start || After pm start then Err ErrInvalid else
    let? n0 := ParseLSN (c_RedoLSN v) in
    let? n1 := ParseLSN (c_StartLSN v) in
    let? n2 := ParseLSN (c_StopLSN v) in
    let? n3 := ParseLSN (c_BundledWALStartLSN v) in
    let? n4 := ParseLSN (c_BundledWALEndLSN v) in
    if (n1 <? n0) || (n2 <=? n1) || (n0 <? n3) || (n4 !=? n2)
       || (c_WALRanges v !=? [mkWALRange (c_Timeline v) (c_BundledWALStartLSN v) (c_BundledWALEndLSN v)])
    then Err ErrInvalid else
    if (c_BackupLabel v ==? "") || (Z.shiftl 64 10 <? len (c_BackupLabel v))
       || negb (ValidString (c_BackupLabel v)) || ContainsAny (c_BackupLabel v) [nul]
       || (Z.shiftl 64 10 <? len (c_TablespaceMap v))
       || negb (ValidString (c_TablespaceMap v)) || ContainsAny (c_TablespaceMap v) [nul]
       || (c_ManifestBytes v <? 1) || (MaxManifestBytes <? c_ManifestBytes v)
       || negb (hashRE (c_ManifestSHA256 v))
    then Err ErrInvalid else
    Commit_validate_kind v ;;?
    match c_Tablespaces v with
    | None => Err ErrCapacity
    | Some tbs =>
      if (64 <? Z.of_nat (length tbs))
         || (Z.of_nat (length (c_Artifacts v)) !=? Z.of_nat (length tbs) + 2)
         || (66 <? Z.of_nat (length (c_Artifacts v)))
      then Err ErrCapacity else
      let? (oids, _) := forM tbs (∅, ∅) tablespace_step in
      let? st := forM (c_Artifacts v) (mkArtifactState 0 0 0 (c_ManifestBytes v) 0 ∅)
                      (artifact_step oids) in
      if (as_base st !=? 1) || (as_wal st !=? 1) || (MaxBackupBytes <? as_raw st)
         || (MaxBackupBytes + MaxBackupBytes / 100 + Z.shiftl 1 30 <? as_stored st)
      then Err ErrCapacity else Ok ()
    end
  | _, _, _ => Err ErrInvalid
  end.

Definition validateParent (c p : Commit) : res () :=
  if (c_Kind c !=? "differential") || (c_Kind p !=? "full")
     || (c_ParentBackupUID c !=? Some (c_BackupUID p))
     || (c_RootBackupUID c !=? c_BackupUID p) || (c_RepositoryID c !=? c_RepositoryID p)
     || (c_SystemIdentifier c !=? c_SystemIdentifier p) || (c_PostgresMajor c !=? c_PostgresMajor p)
     || (c_Timeline c !=? c_Timeline p) || (c_ChecksumVersion c !=? c_ChecksumVersion p)
     || (c_CaptureInstanceUID c !=? c_CaptureInstanceUID p)
     || (c_PostmasterStartedAt c !=? c_PostmasterStartedAt p)
     || (c_RootManifestSHA256 c !=? Some (c_ManifestSHA256 p))
  then Err ErrCorrupt else
  let a := lsn (c_StopLSN p) in
  let b := lsn (c_StartLSN c) in
  let pt := stamp_time (c_StoppedAt p) in
  let ct := stamp_time (c_StartedAt c) in
  if (b <? a) || Before ct pt then Err ErrCorrupt else Ok ().

(** ** retired.json *)
Record Retirement := mkRetirement {
  rt_Schema : Z;
  rt_RepositoryID : string;
  rt_BackupUID : string;
  rt_CommitSHA256 : string;
  rt_GCOperationID : string }.
#[export] Instance Retirement_eq_dec : EqDecision Retirement.
Proof. solve_decision. Defined.

Definition Retirement_validate (v : Retirement) (id : Identity) (uid hash : string) : res () :=
  if (rt_Schema v !=? 1) || (rt_RepositoryID v !=? id_RepositoryID id) || (rt_BackupUID v !=? uid)
     || (rt_CommitSHA256 v !=? hash) || negb (validID (rt_GCOperationID v))
  then Err ErrCorrupt else Ok ().

(** ** Canonical text forms *)
Lemma shiftr_div n : Z.shiftr n 32 = n / 2 ^ 32.
Proof. by rewrite Z.shiftr_div_pow2 by lia. Qed.

Lemma land_mod n : Z.land n u32_max = n mod 2 ^ 32.
Proof. change u32_max with (Z.ones 32). by rewrite Z.land_ones by lia. Qed.

Lemma lor_shiftl_add hi lo : 0 <= lo < 2 ^ 32 -> Z.lor (Z.shiftl hi 32) lo = hi * 2 ^ 32 + lo.
Proof.
  intros Hlo. rewrite Z.shiftl_mul_pow2 by lia. symmetry. apply Z.add_nocarry_lor.
  apply Z.bits_inj'. intros i Hi. rewrite Z.land_spec, Z.bits_0.
  destruct (Z.lt_ge_cases i 32) as [Hlt|Hge].
  - by rewrite Z.mul_pow2_bits_low by lia.
  - rewrite andb_false_iff. right.
    destruct (Z.eq_dec lo 0) as [->|Hnz]; [apply Z.bits_0|].
    apply Z.bits_above_log2; [lia|]. pose proof (proj1 (Z.log2_lt_pow2 lo 32 ltac:(lia)) ltac:(lia)). lia.
Qed.

Lemma lsn_part_X n : 0 <= n < 2 ^ 32 -> lsn_part (sprintf_X n) = true.
Proof.
  intros Hn. destruct (Z.eq_dec n 0) as [->|Hnz]; [done|].
  pose proof (fmt_uint_hex n ltac:(lia)) as Hhex.
  pose proof (fmt_uint_length true n 7 "" ltac:(cbn; lia)) as Hlen.
  destruct (fmt_uint_head true n "" ltac:(lia)) as (c & s & E & Hc).
  unfold sprintf_X, fmt_uint in *. rewrite E in *. cbn in Hlen, Hhex.
  apply andb_true_iff in Hhex as [Hh Hs]. cbn [lsn_part].
  apply orb_true_iff. right. rewrite !andb_true_iff. split_and!.
  - assert (every_byte (fun c : ascii => implb (is_hex_upper c)
      ((in_range "1" "9" c || in_range "A" "F" c) || (c ==? "0"%char))) = true) as H
      by (vm_compute; reflexivity).
    pose proof (every_byte_spec _ H c) as Hb. cbn beta in Hb.
    by rewrite Hh, (bool_decide_eq_false_2 (c = "0"%char)), orb_false_r in Hb.
  - apply Nat.leb_le. lia.
  - done.
Qed.

Lemma lsn_part_hex s : lsn_part s = true ->
  s <> "" /\ (String.length s <= 8)%nat /\ all_chars is_hex_upper s = true
  /\ (forall c t, s = String c t -> c = "0"%char -> t = "").
Proof.
  destruct s as [|c t]; cbn [lsn_part]; [done|]. intros H. apply orb_true_iff in H as [H|H].
  - bool_split. injection H as -> ->. split_and!; try done. cbn. lia. congruence.
  - apply andb_true_iff in H as [H Ht]. apply andb_true_iff in H as [Hc Hl].
    apply Nat.leb_le in Hl. split_and!; [done|cbn; lia| |].
    + cbn. rewrite Ht, andb_true_r. unfold is_hex_upper, is_digit, in_range in *.
      change (byte_val "1") with 49 in Hc. change (byte_val "0") with 48.
      rewrite !orb_true_iff, !andb_true_iff, !Z.leb_le in *. lia.
    + intros c' t' [= <- <-] ->. discriminate Hc.
Qed.

Lemma lsn_part_inv s : lsn_part s = true ->
  sprintf_X (parse_hex s) = s /\ 0 <= parse_hex s < 2 ^ 32.
Proof.
  intros (Hne & Hlen & Hhex & Hz)%lsn_part_hex.
  destruct (parse_hex_canonical s Hne Hlen Hhex) as [Hp Hr]. split; [|done].
  destruct s as [|c t]; [done|].
  apply fmt_parse; [lia|by apply hex_upper_canonical| |done].
  intros ->. by eapply Hz.
Qed.

Lemma sprintf_X_noslash n : 0 <= n -> all_chars (fun c => c !=? "/"%char) (sprintf_X n) = true.
Proof.
  intros Hn. eapply all_chars_impl; [|by apply fmt_uint_hex].
  intros c. assert (every_byte (fun c : ascii => implb (is_hex_upper c) (c !=? "/"%char)) = true) as H
    by (vm_compute; reflexivity).
  pose proof (every_byte_spec _ H c) as Hc. cbn beta in Hc. intros Hx. by rewrite Hx in Hc.
Qed.

Lemma Split_format_lsn n : 0 <= n -> Split "/" (format_lsn n) =
  [sprintf_X (Z.shiftr n 32); sprintf_X (Z.land n u32_max)].
Proof.
  intros Hn. unfold format_lsn. rewrite shiftr_div, land_mod.
  change ("/" +:+ ?x) with (String "/" x).
  rewrite Split_join by (apply sprintf_X_noslash, Z.div_pos; lia).
  by rewrite Split_nosep by (apply sprintf_X_noslash, Z.mod_pos_bound; lia).
Qed.

(** Printing a 64-bit position and parsing it back is the identity. *)
Lemma ParseLSN_format n : is_u64 n -> ParseLSN (format_lsn n) = Ok n.
Proof.
  unfold is_u64. intros Hn.
  assert (0 <= n / 2 ^ 32 < 2 ^ 32) as Hhi.
  { split; [apply Z.div_pos; lia|]. apply Z.div_lt_upper_bound; lia. }
  assert (0 <= n mod 2 ^ 32 < 2 ^ 32) as Hlo by (apply Z.mod_pos_bound; lia).
  unfold ParseLSN, lsnRE. rewrite Split_format_lsn by lia. rewrite shiftr_div, land_mod.
  rewrite !lsn_part_X by lia. cbn [andb negb].
  unfold parse_hex, sprintf_X. rewrite !ParseUint_fmt by lia. cbn [from_option id].
  rewrite lor_shiftl_add by lia. f_equal. pose proof (Z.div_mod n (2 ^ 32)). lia.
Qed.

(** The accepted text of a position is the printed form of its value, so equal
    positions have equal text. *)
Lemma ParseLSN_canonical s n : ParseLSN s = Ok n -> s = format_lsn n /\ is_u64 n.
Proof.
  unfold ParseLSN, lsnRE. pose proof (join_Split "/" s) as Hj.
  destruct (Split "/" s) as [|a [|b [|? ?]]]; try done. cbn [negb].
  destruct (lsn_part a && lsn_part b) eqn:E; cbn [negb]; [|done]. intros [= <-].
  apply andb_true_iff in E as [[Ha Hra]%lsn_part_inv [Hb Hrb]%lsn_part_inv].
  rewrite lor_shiftl_add by lia. unfold is_u64, format_lsn. rewrite shiftr_div, land_mod.
  rewrite Z.div_add_l, (Z.div_small (parse_hex b)), Z.add_0_r by lia.
  rewrite Z.add_comm, Z.mod_add, Z.mod_small by lia. rewrite Ha, Hb. split; [|lia].
  rewrite <- Hj. done.
Qed.

Lemma ParseLSN_inj s1 s2 n : ParseLSN s1 = Ok n -> ParseLSN s2 = Ok n -> s1 = s2.
Proof. intros [-> _]%ParseLSN_canonical [-> _]%ParseLSN_canonical. done. Qed.

Lemma lsn_ok s n : ParseLSN s = Ok n -> lsn s = n.
Proof. unfold lsn. by intros ->. Qed.

Lemma lsn_u64 s : is_u64 (lsn s).
Proof.
  unfold lsn. destruct (ParseLSN s) eqn:E; [|unfold is_u64; lia]. by destruct (ParseLSN_canonical _ _ E).
Qed.

Lemma lsn_format n : is_u64 n -> lsn (format_lsn n) = n.
Proof. intros Hn. unfold lsn. by rewrite ParseLSN_format. Qed.

(** Timestamps: accepted text is the canonical text of its instant. *)
Lemma stamp_canonical s t : stamp s = Some t -> s = format_rfc3339nano t /\ stamp_time s = t.
Proof.
  unfold stamp, stamp_time. destruct (parse_rfc3339nano s) as [[t' y]|]; [|done].
  destruct (2000 <=? y); cbn; [|done]. case_bool_decide; [|done]. intros [= <-]. done.
Qed.

Lemma stamp_format t :
  2000 <= (civil_from_days (t / second / 86400)).1.1 <= 9999 -> stamp (format_rfc3339nano t) = Some t.
Proof.
  intros Hy. unfold stamp. rewrite parse_format by lia.
  destruct (Z.leb_spec 2000 (civil_from_days (t / second / 86400)).1.1); [|lia].
  cbn. by rewrite bool_decide_eq_true_2.
Qed.

Lemma decimal_canonical s n : decimal s = Some n -> s = FormatUint n /\ is_u64 n.
Proof.
  unfold decimal. destruct (ParseUint s 10 64) as [m|] eqn:E; [|done].
  case_bool_decide as Hf; [|done]. intros [= <-]. split; [done|].
  unfold ParseUint in E. case_bool_decide; [done|].
  destruct (parse_digits 10 0 s) as [k|] eqn:Ep; [|done].
  destruct (Z.ltb_spec k (2 ^ 64)); [|done]. injection E as <-. split; [|done].
  by eapply parse_digits_nonneg in Ep.
Qed.

Lemma decimal_FormatUint n : is_u64 n -> decimal (FormatUint n) = Some n.
Proof.
  intros Hn. unfold decimal, FormatUint. rewrite ParseUint_fmt by (unfold is_u64 in Hn; lia).
  by rewrite bool_decide_eq_true_2.
Qed.

(** ** What an accepted commit guarantees *)
Definition tablespaces (v : Commit) : list Tablespace := default [] (c_Tablespaces v).
(** The tablespace OIDs the artifacts carry, in artifact order. *)
Definition artifact_oids (l : list Artifact) : list Z :=
  omap (fun a => if ar_Role a ==? "tablespace" then ar_TablespaceOID a else None) l.
Definition role_count (r : string) (l : list Artifact) : Z :=
  Z.of_nat (length (List.filter (fun a => ar_Role a ==? r) l)).
Fixpoint sumZ {A} (f : A -> Z) (l : list A) : Z :=
  match l with [] => 0 | a :: l => f a + sumZ f l end.

Lemma sumZ_app {A} (f : A -> Z) l1 l2 : sumZ f (l1 ++ l2) = sumZ f l1 + sumZ f l2.
Proof. induction l1; cbn; [done|]. rewrite IHl1. lia. Qed.

Lemma tablespace_loop tbs oids names :
  forM tbs (∅, ∅) tablespace_step = Ok (oids, names) ->
  NoDup (ts_OID <$> tbs) /\ NoDup (ts_Name <$> tbs) /\ oids = list_to_set (ts_OID <$> tbs)
  /\ Forall (fun t => ts_OID t <> 0 /\ validText (ts_Name t) 63 = true) tbs.
Proof.
  intros H.
  eapply (forM_inv (fun pre (acc : gset Z * gset string) =>
    NoDup (ts_OID <$> pre) /\ NoDup (ts_Name <$> pre) /\ acc.1 = list_to_set (ts_OID <$> pre)
    /\ acc.2 = list_to_set (ts_Name <$> pre)
    /\ Forall (fun t => ts_OID t <> 0 /\ validText (ts_Name t) 63 = true) pre)) in H.
  - cbn in H. naive_solver.
  - cbn. split_and!; try constructor; done.
  - intros pre t post [os ns] [os' ns'] _ (H1 & H2 & H3 & H4 & H5) Hs. cbn in *.
    res_inv. rewrite !orb_false_iff in E. destruct E as [[[Ho Hno] Ht] Hnn]. bool_split.
    simplify_eq. rewrite !fmap_app. cbn.
    split_and!.
    + apply NoDup_app. split_and!; [done| |apply NoDup_singleton].
      intros x Hx ->%list_elem_of_singleton. by apply Hno, elem_of_list_to_set.
    + apply NoDup_app. split_and!; [done| |apply NoDup_singleton].
      intros x Hx ->%list_elem_of_singleton. by apply Hnn, elem_of_list_to_set.
    + rewrite list_to_set_app_L. cbn. set_solver.
    + rewrite list_to_set_app_L. cbn. set_solver.
    + apply Forall_app. split; [done|]. by repeat constructor.
Qed.

Record artifact_ok (a : Artifact) : Prop := {
  ao_stored : 1 <= ar_StoredBytes a <= MaxArtifactBytes;
  ao_raw : 1 <= ar_RawBytes a <= MaxBackupBytes;
  ao_compression : ar_Compression a = "none" \/ ar_Compression a = "gzip";
  ao_identity : ar_Compression a = "none" ->
    ar_RawBytes a = ar_StoredBytes a /\ ar_RawSHA256 a = ar_StoredSHA256 a }.

Record artifact_inv (oids : gset Z) (manifest : Z) (pre : list Artifact) (st : ArtifactState) : Prop := {
  ai_i : as_i st = Z.of_nat (length pre);
  ai_base : as_base st = role_count "base" pre;
  ai_wal : as_wal st = role_count "wal" pre;
  ai_raw : as_raw st = manifest + sumZ ar_RawBytes pre;
  ai_stored : as_stored st = sumZ ar_StoredBytes pre;
  ai_used : as_used st = list_to_set (artifact_oids pre);
  ai_nodup : NoDup (artifact_oids pre);
  ai_sub : forall o, o ∈ artifact_oids pre -> o ∈ oids;
  ai_count : Z.of_nat (length (artifact_oids pre)) + as_base st + as_wal st = Z.of_nat (length pre);
  ai_each : Forall artifact_ok pre }.

Lemma role_count_snoc r l a :
  role_count r (l ++ [a]) = role_count r l + if ar_Role a ==? r then 1 else 0.
Proof.
  unfold role_count. rewrite List.filter_app, length_app. cbn.
  destruct (ar_Role a ==? r); cbn; lia.
Qed.

Lemma artifact_oids_snoc l a :
  artifact_oids (l ++ [a]) =
  artifact_oids l ++ match (if ar_Role a ==? "tablespace" then ar_TablespaceOID a else None) with
                     | Some o => [o] | None => [] end.
Proof. unfold artifact_oids. rewrite omap_app. cbn. by destruct (if ar_Role a ==? _ then _ else _). Qed.

Lemma artifact_step_inv oids m pre a st st' :
  artifact_inv oids m pre st -> artifact_step oids st a = Ok st' ->
  artifact_inv oids m (pre ++ [a]) st'.
Proof.
  intros I Hs. unfold artifact_step in Hs.
  destruct (_ || _) eqn:E1 in Hs; [done|]. destruct (_ && _) eqn:E2 in Hs; [done|].
  destruct (_ && _) eqn:E3 in Hs; [done|].
  assert (artifact_ok a) as Hok.
  { bool_split. split; try lia.
    - apply andb_false_iff in E2 as [E2|E2]; bool_split; auto.
    - intros Hn. rewrite (bool_decide_eq_true_2 _ Hn) in E3. cbn in E3. bool_split. auto. }
  clear E1 E2 E3. destruct I.
  destruct (bool_decide (ar_Role a = "base")) eqn:Rb; [|destruct (bool_decide (ar_Role a = "wal")) eqn:Rw;
    [|destruct (bool_decide (ar_Role a = "tablespace")) eqn:Rt; [|done]]].
  - destruct (ar_TablespaceOID a) eqn:Eo; [done|]. simplify_eq. bool_split.
    split; cbn; rewrite ?length_app, ?role_count_snoc, ?artifact_oids_snoc, ?sumZ_app, ?Rb; lit_eq; cbn;
      rewrite ?app_nil_r; try lia; try done. apply Forall_app; split; [done|by apply Forall_singleton].
  - destruct (ar_TablespaceOID a) eqn:Eo; [done|]. destruct (_ <? _); [done|]. cbn [orb] in Hs. simplify_eq. bool_split.
    split; cbn; rewrite ?length_app, ?role_count_snoc, ?artifact_oids_snoc, ?sumZ_app, ?Rw; lit_eq; cbn;
      rewrite ?app_nil_r; try lia; try done. apply Forall_app; split; [done|by apply Forall_singleton].
  - destruct (ar_TablespaceOID a) as [o|] eqn:Eo; [|done].
    destruct (_ || _) eqn:E4 in Hs; [done|]. simplify_eq. bool_split.
    assert (o ∈ oids) as Hin by (destruct (decide (o ∈ oids)); done).
    assert (o ∉ artifact_oids pre) as Hnew by (rewrite ai_used0 in *; set_solver).
    split; cbn; rewrite ?length_app, ?role_count_snoc, ?artifact_oids_snoc, ?sumZ_app, ?Rt; lit_eq; cbn;
      rewrite ?Eo, ?length_app; cbn; try lia.
    + rewrite ai_used0, list_to_set_app_L. cbn. set_solver.
    + apply NoDup_app. split_and!; [done| |apply NoDup_singleton].
      by intros x Hx ->%list_elem_of_singleton.
    + intros x [Hx| ->%list_elem_of_singleton]%elem_of_app; auto.
    + apply Forall_app; split; [done|by apply Forall_singleton].
Qed.

Record commit_ok (v : Commit) (id : Identity) : Prop := {
  ck_repo : c_RepositoryID v = id_RepositoryID id;
  ck_system : c_SystemIdentifier v = id_SystemIdentifier id;
  ck_uid : validID (c_BackupUID v) = true;
  ck_attempt : validID (c_AttemptID v) = true;
  ck_timeline : c_Timeline v <> 0;
  ck_times : exists start stop pm, stamp (c_StartedAt v) = Some start
    /\ stamp (c_StoppedAt v) = Some stop /\ stamp (c_PostmasterStartedAt v) = Some pm
    /\ pm <= start <= stop;
  ck_lsns : exists redo start stop bstart, ParseLSN (c_RedoLSN v) = Ok redo
    /\ ParseLSN (c_StartLSN v) = Ok start /\ ParseLSN (c_StopLSN v) = Ok stop
    /\ ParseLSN (c_BundledWALStartLSN v) = Ok bstart /\ ParseLSN (c_BundledWALEndLSN v) = Ok stop
    /\ bstart <= redo <= start /\ start < stop;
  ck_ranges : c_WALRanges v = [mkWALRange (c_Timeline v) (c_BundledWALStartLSN v) (c_BundledWALEndLSN v)];
  ck_manifest : 1 <= c_ManifestBytes v <= MaxManifestBytes;
  ck_kind :
    (c_Kind v = "full" /\ c_ParentBackupUID v = None /\ c_RootBackupUID v = c_BackupUID v)
    \/ (c_Kind v = "differential" /\ c_ParentBackupUID v = Some (c_RootBackupUID v)
        /\ validID (c_RootBackupUID v) = true /\ c_RootBackupUID v <> c_BackupUID v);
  ck_loop : exists tbs oids names st, c_Tablespaces v = Some tbs
    /\ (length tbs <= 64)%nat /\ length (c_Artifacts v) = (length tbs + 2)%nat
    /\ forM tbs (∅, ∅) tablespace_step = Ok (oids, names)
    /\ forM (c_Artifacts v) (mkArtifactState 0 0 0 (c_ManifestBytes v) 0 ∅) (artifact_step oids) = Ok st
    /\ as_base st = 1 /\ as_wal st = 1 /\ as_raw st <= MaxBackupBytes
    /\ as_stored st <= MaxBackupBytes + MaxBackupBytes / 100 + Z.shiftl 1 30 }.

Lemma Commit_kind_inv v : Commit_validate_kind v = Ok () ->
  (c_Kind v = "full" /\ c_ParentBackupUID v = None /\ c_RootBackupUID v = c_BackupUID v)
  \/ (c_Kind v = "differential" /\ c_ParentBackupUID v = Some (c_RootBackupUID v)
      /\ validID (c_RootBackupUID v) = true /\ c_RootBackupUID v <> c_BackupUID v).
Proof.
  unfold Commit_validate_kind.
  repeat case_match; try done; intros _; bool_split; subst; naive_solver.
Qed.

Lemma Commit_validate_ok v id : Commit_validate v id = Ok () -> commit_ok v id.
Proof.
  unfold Commit_validate. intros H. res_step.
  destruct (stamp (c_StartedAt v)) as [start|] eqn:Es; [|done].
  destruct (stamp (c_StoppedAt v)) as [stop|] eqn:Et; [|done].
  destruct (stamp (c_PostmasterStartedAt v)) as [pm|] eqn:Ep; [|done].
  res_step. do 5 res_step. res_step. res_step. res_step.
  destruct (c_Tablespaces v) as [tbs|] eqn:Etb; [|done].
  res_step. destruct (forM tbs (∅, ∅) tablespace_step) as [[oids names]|] eqn:Eo; [|done].
  cbn [res_bind] in H. do 2 res_step. clear H.
  assert (Commit_validate_kind v = Ok ()) as Hk%Commit_kind_inv
    by (by destruct (Commit_validate_kind v) as [[]|]).
  unfold Before, After in *. bool_split. subst.
  split; try done.
  - exists start, stop, pm. split_and!; done || lia.
  - eexists _, _, _, _. split_and!; done || lia.
  - eexists tbs, oids, names, _. split_and!; done || lia.
Qed.

(** The artifacts of an accepted commit are one base tar, one WAL tar and one
    tar per tablespace, and the byte totals are within the limits. *)
Lemma commit_artifacts v id : commit_ok v id ->
  role_count "base" (c_Artifacts v) = 1 /\ role_count "wal" (c_Artifacts v) = 1
  /\ artifact_oids (c_Artifacts v) ≡ₚ ts_OID <$> tablespaces v
  /\ Forall artifact_ok (c_Artifacts v)
  /\ c_ManifestBytes v + sumZ ar_RawBytes (c_Artifacts v) <= MaxBackupBytes.
Proof.
  intros [_ _ _ _ _ _ _ _ _ _ (tbs & oids & names & st & Et & Hl & Hlen & Ho & Ha & Hb & Hw & Hr & Hs)].
  unfold tablespaces. rewrite Et. cbn.
  apply tablespace_loop in Ho as (Hnd & _ & Eoids & _).
  assert (artifact_inv oids (c_ManifestBytes v) (c_Artifacts v) st) as I.
  { eapply (forM_inv (artifact_inv oids (c_ManifestBytes v))); [| |exact Ha].
    - split; cbn; try done. lia. constructor. intros o Hx. by apply elem_of_nil in Hx.
    - intros pre x post a a' _. apply artifact_step_inv. }
  destruct I. split_and!; [congruence|congruence| |done|lia].
  apply submseteq_length_Permutation; [|rewrite length_fmap; lia].
  apply NoDup_submseteq; [done|]. intros o Ho%ai_sub0. rewrite Eoids in Ho.
  by apply elem_of_list_to_set in Ho.
Qed.

(** ** Accepted commits *)
(** An accepted commit is complete and bounded.  It has exactly one base tar, one
    WAL tar and one tar per declared tablespace (distinct OIDs, no other roles), every
    artifact is within the stored and raw limits and its digests are well formed, the raw bytes of
    all of it stay within 1 TiB, and its LSNs are ordered
    [bundle start <= redo <= start < stop = bundle end]. *)
Theorem Commit_validate_complete v id : Commit_validate v id = Ok () ->
  role_count "base" (c_Artifacts v) = 1 /\ role_count "wal" (c_Artifacts v) = 1
  /\ artifact_oids (c_Artifacts v) ≡ₚ ts_OID <$> tablespaces v
  /\ Forall artifact_ok (c_Artifacts v)
  /\ c_ManifestBytes v + sumZ ar_RawBytes (c_Artifacts v) <= MaxBackupBytes
  /\ lsn (c_BundledWALStartLSN v) <= lsn (c_RedoLSN v) <= lsn (c_StartLSN v)
  /\ lsn (c_StartLSN v) < lsn (c_StopLSN v) /\ c_BundledWALEndLSN v = c_StopLSN v.
Proof.
  intros H%Commit_validate_ok. destruct (commit_artifacts v id H) as (H1 & H2 & H3 & H4 & H5).
  destruct (ck_lsns v id H) as (redo & start & stop & bstart & E1 & E2 & E3 & E4 & E5 & Ho & Hl).
  rewrite (lsn_ok _ _ E1), (lsn_ok _ _ E2), (lsn_ok _ _ E3), (lsn_ok _ _ E4).
  split_and!; try done; [lia..|]. by eapply ParseLSN_inj.
Qed.

Definition ex_identity : Identity :=
  mkIdentity 1 "11111111-1111-4111-8111-111111111111" 18 "7300000000000000001" (Z.shiftl 16 20)
    "22222222-2222-4222-8222-222222222222" "2024-05-01T10:00:00Z".
Definition ex_hash : string := "ba7816bf8f01cfea414140de5dae2223b00361a396177a9cb410ff61f20015ad".
Definition ex_artifact (i : Z) (role : string) (oid : option Z) : Artifact :=
  mkArtifact i role oid "none" 512 512 ex_hash ex_hash.
Definition ex_commit : Commit :=
  mkCommit 1 (id_RepositoryID ex_identity) "33333333-3333-4333-8333-333333333333"
    "44444444-4444-4444-8444-444444444444" ex_hash "full" None "33333333-3333-4333-8333-333333333333"
    (id_SystemIdentifier ex_identity) 18 "18.6" 1 1 "55555555-5555-4555-8555-555555555555"
    "2024-05-01T10:30:00Z" "2024-05-01T11:00:00Z" "2024-05-01T11:05:00Z"
    "0/2000028" "0/2000100" "0/2000028" "0/2000000" "0/2000100"
    [mkWALRange 1 "0/2000000" "0/2000100"] "START WAL LOCATION: 0/2000028" "" None 100 ex_hash
    (Some [mkTablespace 16400 "fast"])
    [ex_artifact 0 "base" None; ex_artifact 1 "tablespace" (Some 16400); ex_artifact 2 "wal" None].

Lemma ex_commit_valid : Commit_validate ex_commit ex_identity = Ok ().
Proof. vm_compute. reflexivity. Qed.

Lemma Commit_validate_complete_witness : role_count "base" (c_Artifacts ex_commit) = 1.
Proof. apply (Commit_validate_complete ex_commit ex_identity). vm_compute. reflexivity. Defined.

(** ** Generated identifiers are valid *)
Lemma hex_lower_nodash s : all_chars is_hex_lower s = true -> all_chars (fun c => c !=? "-"%char) s = true.
Proof.
  apply all_chars_impl. intros c Hc. apply negb_true_iff, bool_decide_eq_false. intros ->. discriminate Hc.
Qed.

Lemma version_byte v x : v = 64 \/ v = 128 -> 0 <= x < 256 ->
  64 <= Z.lor (Z.land x 15) v < 256 /\ 0 <= Z.lor (Z.land x 63) 128 < 256.
Proof.
  intros Hv Hx.
  assert (forallb (fun n => let y := Z.lor (Z.land (Z.of_nat n) 15) v in let z := Z.lor (Z.land (Z.of_nat n) 63) 128 in
    (64 <=? y) && (y <? 256) && (0 <=? z) && (z <? 256)) (seq 0 256) = true) as H
    by (destruct Hv as [-> | ->]; vm_compute; reflexivity).
  rewrite forallb_forall in H. specialize (H (Z.to_nat x)). rewrite in_seq, Z2Nat.id in H by lia.
  specialize (H ltac:(lia)). cbv zeta in H. bool_split. lia.
Qed.

Lemma uuid_pieces a b c d e :
  (length a = 4 /\ length b = 2 /\ length c = 2 /\ length d = 2 /\ length e = 6)%nat ->
  Forall (fun x => 0 <= x < 256) (a ++ b ++ c ++ d ++ e) ->
  let s := hex a +:+ "-" +:+ hex b +:+ "-" +:+ hex c +:+ "-" +:+ hex d +:+ "-" +:+ hex e in
  Split "-" s = [hex a; hex b; hex c; hex d; hex e] /\ uuidRE s = true.
Proof.
  intros (La & Lb & Lc & Ld & Le) Hb. cbv zeta.
  rewrite !Forall_app in Hb. destruct Hb as (Ha & Hb & Hc & Hd & He).
  assert (forall l, Forall (fun x => 0 <= x < 256) l -> all_chars is_hex_lower (hex l) = true) as Hh.
  { intros l Hl. apply hex_chars. by rewrite Forall_forall in Hl. }
  assert (Split "-" (hex a +:+ "-" +:+ hex b +:+ "-" +:+ hex c +:+ "-" +:+ hex d +:+ "-" +:+ hex e)
    = [hex a; hex b; hex c; hex d; hex e]) as Hs.
  { do 4 (etransitivity; [apply Split_join; by apply hex_lower_nodash, Hh|f_equal]).
    apply Split_nosep. by apply hex_lower_nodash, Hh. }
  split; [done|]. unfold uuidRE. rewrite Hs. unfold class_n. rewrite !hex_length, La, Lb, Lc, Ld, Le, !Hh by done. done.
Qed.

(** Sixteen or more bytes with a version nibble make a valid identifier: the
    dashed form matches and the version makes it differ from the nil UUID. *)
Lemma uuid_text_valid v b : v = 64 \/ v = 128 -> (16 <= length b)%nat -> Forall (fun x => 0 <= x < 256) b ->
  validID (uuid_text v b) = true.
Proof.
  intros Hv Hl Hb.
  destruct b as [|b0 [|b1 [|b2 [|b3 [|b4 [|b5 [|b6 [|b7 [|b8 [|b9 [|b10 [|b11 [|b12 [|b13 [|b14 [|b15 b]]]]]]]]]]]]]]]];
    cbn in Hl; try lia.
  rewrite !Forall_cons in Hb. destruct Hb as (?&?&?&?&?&?&H6&?&H8&?&?&?&?&?&?&?&_).
  destruct (version_byte v b6 Hv H6) as [Hv6 _]. destruct (version_byte v b8 Hv H8) as [_ Hv8].
  set (y := Z.lor (Z.land b6 15) v) in *. set (z := Z.lor (Z.land b8 63) 128) in *.
  change (uuid_text v _) with (hex [b0; b1; b2; b3] +:+ "-" +:+ hex [b4; b5] +:+ "-" +:+ hex [y; b7] +:+ "-" +:+
    hex [z; b9] +:+ "-" +:+ hex [b10; b11; b12; b13; b14; b15]).
  destruct (uuid_pieces [b0; b1; b2; b3] [b4; b5] [y; b7] [z; b9] [b10; b11; b12; b13; b14; b15]) as [Hs Hre]; [done| |].
  { repeat (constructor; [lia|]). constructor. }
  unfold validID. rewrite Hre. cbn [andb]. apply negb_true_iff, bool_decide_eq_false. intros E. rewrite E in Hs.
  pose proof (f_equal (fun l => nth 2 l "") Hs) as Hx. change ("0000" = String (digit_char false (y / 16)) (String (digit_char false (y mod 16)) (hex [b7]))) in Hx.
  injection Hx as E0 _. symmetry in E0.
  pose proof (digit_val_char false (y / 16) ltac:(divs; lia)) as Hd. rewrite E0 in Hd. change (digit_val "0") with (Some 0) in Hd.
  injection Hd as Hd. divs; lia.
Qed.

(** ** The errors of validation *)
(** The validators fail with the repository's own errors only. *)
Definition schema_error (e : error) : bool :=
  match e with ErrInvalid | ErrIdentity | ErrCorrupt | ErrCapacity => true | _ => false end.
Definition schema_only {A} (x : res A) : Prop := match x with Ok _ => True | Err e => schema_error e = true end.
Lemma schema_only_bind {A B} (m : res A) (k : A -> res B) :
  schema_only m -> (forall a, schema_only (k a)) -> schema_only (let? a := m in k a).
Proof. intros Hm Hk. destruct m as [a|e]; [apply Hk|exact Hm]. Qed.
Lemma schema_only_forM {A B} (l : list A) (acc : B) (f : B -> A -> res B) :
  (forall b a, schema_only (f b a)) -> schema_only (forM l acc f).
Proof.
  intros Hf. revert acc. induction l as [|x l IH]; intros acc; cbn; [done|].
  apply schema_only_bind; [apply Hf|]. intros b. apply IH.
Qed.
Lemma ParseLSN_schema_only s : schema_only (ParseLSN s).
Proof. unfold ParseLSN. destruct (lsnRE s); cbn; [|done]. by destruct (Split "/" s) as [|? [|? [|]]]. Qed.
Ltac schema_step :=
  match goal with
  | |- schema_only (res_bind _ _) => apply schema_only_bind; [|intros]
  | |- schema_only (ParseLSN _) => apply ParseLSN_schema_only
  | |- schema_only (Ok _) => exact I
  | |- schema_only (Err _) => reflexivity
  | |- schema_only (forM _ _ _) => apply schema_only_forM; intros
  | |- schema_only (match ?x with _ => _ end) => destruct x
  end.
Lemma Commit_validate_schema_only c id : schema_only (Commit_validate c id).
Proof.
  unfold Commit_validate. repeat schema_step; unfold Commit_validate_kind, tablespace_step, artifact_step;
    cbv zeta; repeat schema_step.
Qed.
