(* ===== verification/WalNames.v ===== *)
(** * WAL file names (internal/repository/plan.go, retention_inventory.go, gc.go)

    The name grammar, the segment arithmetic that depends on the repository's
    physical segment size, and the position a segment name denotes. *)

From S2P Require Import Prelude GoStrings Errors Schema.

(** [^([0-9A-F]{24}(\.partial)?|[0-9A-F]{8}\.history|[0-9A-F]{24}\.[0-9A-F]{8}\.backup)$] *)
Definition walRE (name : string) : bool :=
  class_n is_hex_upper 24 name
  || (HasSuffix name ".partial" && class_n is_hex_upper 24 (TrimSuffix name ".partial"))
  || (HasSuffix name ".history" && class_n is_hex_upper 8 (TrimSuffix name ".history"))
  || (HasSuffix name ".backup" && (String.length name =? 40)%nat
      && all_chars is_hex_upper (slice 0 24 name) && (slice 24 25 name ==? ".")
      && all_chars is_hex_upper (slice 25 33 name)).

Definition ValidWALFilename (name : string) : bool :=
  walRE name && (slice 0 8 name !=? "00000000").

Definition walTimeline (name : string) (size : Z) : res Z :=
  if bad_segment_bytes size then Err ErrInvalid else
  if negb (walRE name) then Err ErrInvalid else
  match ParseUint (slice 0 8 name) 16 32 with
  | None => Err ErrInvalid
  | Some t =>
    if t =? 0 then Err ErrInvalid else
    if HasSuffix name ".history" then Ok t else
    let seg := parse_hex (slice 16 24 name) in
    if 2 ^ 32 / size <=? seg then Err ErrInvalid else
    if HasSuffix name ".backup" && (size <=? parse_hex (slice 25 33 name)) then Err ErrInvalid
    else Ok t
  end.

Definition ValidateWALName (name : string) (size : Z) : res () :=
  match walTimeline name size with Ok _ => Ok () | Err e => Err e end.

(** [log<<32 | segment*uint64(size)] *)
Definition segment_start (name : string) (size : Z) : Z :=
  Z.lor (Z.shiftl (parse_hex (slice 8 16 name)) 32)
        (wrap64 (parse_hex (slice 16 24 name) * size)).

(** The timeline and the start position of a complete segment. *)
Definition ArchivePosition (name : string) (size : Z) : res (Z * Z) :=
  match walTimeline name size with
  | Err _ => Err ErrInvalid
  | Ok t => if (String.length name =? 24)%nat then Ok (t, segment_start name size) else Err ErrInvalid
  end.

(** [Repository.WALKey] below the repository root. *)
Definition WALKey (root : string) (size : Z) (name : string) : res string :=
  let? t := walTimeline name size in
  Ok (root +:+ "wal/" +:+ sprintf_08X t +:+ "/" +:+ name).

(** PostgreSQL's name of the segment at an aligned position; the code only
    parses such names, this is the form it parses. *)
Definition segment_name (timeline start size : Z) : string :=
  sprintf_08X timeline +:+ sprintf_08X (start / 2 ^ 32) +:+ sprintf_08X (start mod 2 ^ 32 / size).

Example position_ex : ArchivePosition "0000000200000001000000FE" (Z.shiftl 16 20)
  = Ok (2, 0x1FE000000).
Proof. vm_compute. reflexivity. Qed.
Example name_ex : (walTimeline "000000010000000100000100" (Z.shiftl 16 20),
  walTimeline "00000002.history" (Z.shiftl 16 20),
  walTimeline "000000010000000000000003.00000028.backup" (Z.shiftl 16 20),
  walTimeline "000000010000000000000003.partial" (Z.shiftl 16 20),
  walTimeline "000000000000000000000003" (Z.shiftl 16 20))
  = (Err ErrInvalid, Ok 2, Ok 1, Ok 1, Err ErrInvalid).
Proof. vm_compute. reflexivity. Qed.

(** ** Segment sizes are powers of two *)
Lemma land_pred_pow2 w : 0 < w -> Z.land w (w - 1) = 0 -> w = 2 ^ Z.log2 w.
Proof.
  intros Hw Hl. destruct (Z.log2_spec w Hw) as [Hlo Hhi].
  destruct (Z.eq_dec w (2 ^ Z.log2 w)) as [|Hne]; [done|]. exfalso.
  assert (Z.testbit (Z.land w (w - 1)) (Z.log2 w) = true) as Hb.
  { rewrite Z.land_spec. apply andb_true_iff. split; [by apply Z.bit_log2|].
    assert (Z.log2 (w - 1) = Z.log2 w) as <- by (apply Z.log2_unique; [apply Z.log2_nonneg|lia]).
    apply Z.bit_log2. pose proof (Z.pow_pos_nonneg 2 (Z.log2 w)). pose proof (Z.log2_nonneg w). lia. }
  rewrite Hl, Z.bits_0 in Hb. done.
Qed.

(** An accepted segment size is [2^k] with [20 <= k <= 30]. *)
Lemma segment_bytes_pow2 w : bad_segment_bytes w = false ->
  exists k, 20 <= k <= 30 /\ w = 2 ^ k.
Proof.
  unfold bad_segment_bytes. intros [[Hlo Hhi]%orb_false_iff Hl]%orb_false_iff. bool_split.
  change (Z.shiftl 1 20) with (2 ^ 20) in *. change (Z.shiftl 1 30) with (2 ^ 30) in *.
  apply land_pred_pow2 in Hl; [|lia]. exists (Z.log2 w). split; [|done].
  apply Z.log2_le_mono in Hlo, Hhi. rewrite Z.log2_pow2 in Hlo, Hhi by lia. done.
Qed.

Lemma segment_bytes_facts w : bad_segment_bytes w = false ->
  0 < w /\ 2 ^ 20 <= w <= 2 ^ 30 /\ 2 ^ 32 / w * w = 2 ^ 32 /\ 2 ^ 64 mod w = 0.
Proof.
  intros (k & Hk & ->)%segment_bytes_pow2.
  assert (0 < 2 ^ k) by (apply Z.pow_pos_nonneg; lia).
  split_and!; [lia|apply Z.pow_le_mono_r; lia|apply Z.pow_le_mono_r; lia| |].
  - replace (2 ^ 32) with (2 ^ (32 - k) * 2 ^ k) by (rewrite <- Z.pow_add_r by lia; f_equal; lia).
    rewrite Z.div_mul; lia.
  - replace (2 ^ 64) with (2 ^ (64 - k) * 2 ^ k) by (rewrite <- Z.pow_add_r by lia; f_equal; lia).
    apply Z.mod_mul. lia.
Qed.

(** ** Segment names and positions correspond one to one *)
Definition hex8 (s : string) : Prop := String.length s = 8%nat /\ all_chars is_hex_upper s = true.

Lemma hex8_parse s : hex8 s -> parse_digits 16 0 s = Some (parse_hex s) /\ 0 <= parse_hex s < 2 ^ 32.
Proof. intros [Hl Hs]. apply parse_hex_canonical; [by intros ->|lia|done]. Qed.

Lemma hex8_inj s1 s2 : hex8 s1 -> hex8 s2 -> parse_hex s1 = parse_hex s2 -> s1 = s2.
Proof.
  intros H1 H2 E. destruct (hex8_parse s1 H1) as [P1 _]. destruct (hex8_parse s2 H2) as [P2 _].
  destruct H1 as [L1 C1], H2 as [L2 C2].
  eapply (parse_digits_inj true 16); [lia|by apply hex_upper_canonical|by apply hex_upper_canonical| |exact P1|].
  - congruence.
  - by rewrite E.
Qed.

Lemma segment_name_split name : class_n is_hex_upper 24 name = true ->
  name = slice 0 8 name +:+ slice 8 16 name +:+ slice 16 24 name
  /\ hex8 (slice 0 8 name) /\ hex8 (slice 8 16 name) /\ hex8 (slice 16 24 name).
Proof.
  unfold class_n. intros [Hl Hc]%andb_true_iff. apply Nat.eqb_eq in Hl.
  do 24 (destruct name as [|? name]; [discriminate Hl|]). destruct name; [|discriminate Hl]. clear Hl.
  cbn in Hc. repeat (apply andb_true_iff in Hc as [? Hc]). unfold hex8. cbn.
  split_and!; try reflexivity; repeat (apply andb_true_iff; split); done.
Qed.

Lemma walRE_24 name : walRE name = true -> String.length name = 24%nat ->
  class_n is_hex_upper 24 name = true.
Proof.
  unfold walRE. intros H Hl. destruct (class_n is_hex_upper 24 name); [done|]. exfalso.
  unfold class_n in H. cbn [orb] in H.
  repeat (apply orb_true_iff in H as [H|H]).
  - apply andb_true_iff in H as [Hs [Hn _]%andb_true_iff]. apply HasSuffix_inv in Hs as [_ Hs].
    apply Nat.eqb_eq in Hn. cbn in Hs. lia.
  - apply andb_true_iff in H as [Hs [Hn _]%andb_true_iff]. apply HasSuffix_inv in Hs as [_ Hs].
    apply Nat.eqb_eq in Hn. cbn in Hs. lia.
  - rewrite Hl in H. rewrite !andb_true_iff in H. naive_solver.
Qed.

(** A hexadecimal name has no dot, so no suffix of the other forms. *)
Lemma hex_no_suffix name p : all_chars is_hex_upper name = true ->
  all_chars is_hex_upper p = false -> HasSuffix name p = false.
Proof.
  intros Hn Hp. destruct (HasSuffix name p) eqn:E; [|done]. apply HasSuffix_inv in E as [E _].
  rewrite E, all_chars_append, andb_true_iff in Hn. destruct Hn as [_ Hn]. congruence.
Qed.

Lemma ArchivePosition_inv name size t start : ArchivePosition name size = Ok (t, start) ->
  bad_segment_bytes size = false /\ class_n is_hex_upper 24 name = true
  /\ t = parse_hex (slice 0 8 name) /\ t <> 0
  /\ parse_hex (slice 16 24 name) < 2 ^ 32 / size
  /\ start = parse_hex (slice 8 16 name) * 2 ^ 32 + parse_hex (slice 16 24 name) * size.
Proof.
  unfold ArchivePosition, walTimeline. intros H.
  destruct (bad_segment_bytes size) eqn:Eb; [done|].
  destruct (walRE name) eqn:Er; [|done]. cbn [negb] in H.
  destruct (ParseUint (slice 0 8 name) 16 32) as [t'|] eqn:Et; [|done].
  destruct (Z.eqb_spec t' 0) as [|Ht]; [done|].
  destruct (String.length name =? 24)%nat eqn:El; [|by repeat case_match].
  apply Nat.eqb_eq in El. pose proof (walRE_24 name Er El) as Hc.
  assert (all_chars is_hex_upper name = true) as Ha by (unfold class_n in Hc; bool_split; done).
  rewrite !hex_no_suffix in H by done. cbn [andb] in H.
  destruct (Z.leb_spec (2 ^ 32 / size) (parse_hex (slice 16 24 name))) as [|Hseg]; [done|].
  destruct (segment_name_split name Hc) as (_ & _ & H2 & H3).
  destruct (hex8_parse _ H2) as [_ R2], (hex8_parse _ H3) as [_ R3].
  destruct (segment_bytes_facts size Eb) as (Hpos & Hr & Hdiv & _).
  assert (parse_hex (slice 16 24 name) * size < 2 ^ 32) as Hlt by nia.
  assert (t = parse_hex (slice 0 8 name)) by (unfold parse_hex; rewrite Et; cbn; congruence).
  injection H as <- <-. unfold segment_start, wrap64.
  rewrite (Z.mod_small _ (2 ^ 64)), lor_shiftl_add by nia. done.
Qed.

(** A position is aligned to the segment size and the whole segment lies in the
    64-bit address space; the timeline is a nonzero 32-bit number. *)
Lemma ArchivePosition_bounds name size t start : ArchivePosition name size = Ok (t, start) ->
  0 < t < 2 ^ 32 /\ start mod size = 0 /\ 0 <= start /\ start + size <= 2 ^ 64.
Proof.
  intros (Hb & Hc & Et & Ht & Hseg & ->)%ArchivePosition_inv.
  destruct (segment_name_split name Hc) as (_ & H1 & H2 & H3).
  destruct (hex8_parse _ H1) as [_ R1], (hex8_parse _ H2) as [_ R2], (hex8_parse _ H3) as [_ R3].
  destruct (segment_bytes_facts size Hb) as (Hpos & Hr & Hdiv & _).
  split_and!; try nia.
  rewrite <- Hdiv. rewrite Z.mul_assoc, <- Z.mul_add_distr_r. apply Z.mod_mul. lia.
Qed.

(** Two segment names with the same position are the same name. *)
Lemma ArchivePosition_inj n1 n2 size p :
  ArchivePosition n1 size = Ok p -> ArchivePosition n2 size = Ok p -> n1 = n2.
Proof.
  destruct p as [t start]. intros H1 H2.
  apply ArchivePosition_inv in H1 as (Hb & C1 & T1 & _ & S1 & P1).
  apply ArchivePosition_inv in H2 as (_ & C2 & T2 & _ & S2 & P2).
  destruct (segment_bytes_facts size Hb) as (Hpos & Hr & Hdiv & _).
  destruct (segment_name_split n1 C1) as (E1 & A1 & A2 & A3).
  destruct (segment_name_split n2 C2) as (E2 & B1 & B2 & B3).
  destruct (hex8_parse _ A2) as [_ RA2], (hex8_parse _ A3) as [_ RA3].
  destruct (hex8_parse _ B2) as [_ RB2], (hex8_parse _ B3) as [_ RB3].
  assert (parse_hex (slice 8 16 n1) = parse_hex (slice 8 16 n2)) as Elog by nia.
  assert (parse_hex (slice 16 24 n1) = parse_hex (slice 16 24 n2)) as Eseg by nia.
  rewrite E1, E2. f_equal; [by apply hex8_inj; [| |congruence]|].
  f_equal; by apply hex8_inj.
Qed.

(** Every aligned position has its name: printing and reading back agree. *)
Lemma ArchivePosition_name t start size :
  bad_segment_bytes size = false -> 0 < t < 2 ^ 32 -> is_u64 start -> start mod size = 0 ->
  ArchivePosition (segment_name t start size) size = Ok (t, start).
Proof.
  intros Hb Ht Hs Ha. destruct (segment_bytes_facts size Hb) as (Hpos & Hr & Hdiv & _).
  unfold is_u64 in Hs.
  assert (0 <= start / 2 ^ 32 < 2 ^ 32) as Hhi.
  { split; [apply Z.div_pos; lia|]. apply Z.div_lt_upper_bound; lia. }
  assert (0 <= start mod 2 ^ 32 < 2 ^ 32) as Hlo by (apply Z.mod_pos_bound; lia).
  assert (0 <= start mod 2 ^ 32 / size < 2 ^ 32 / size) as Hseg.
  { split; [apply Z.div_pos; lia|]. apply Z.div_lt_upper_bound; lia. }
  assert (start mod 2 ^ 32 / size * size = start mod 2 ^ 32) as Hex.
  { assert ((start mod 2 ^ 32) mod size = 0) as Hm.
    { rewrite Z.mod_mod_divide; [done|]. by exists (2 ^ 32 / size). }
    pose proof (Z.div_mod (start mod 2 ^ 32) size). lia. }
  destruct (sprintf_08X_spec t ltac:(lia)) as (L1 & C1 & P1).
  destruct (sprintf_08X_spec (start / 2 ^ 32) ltac:(lia)) as (L2 & C2 & P2).
  destruct (sprintf_08X_spec (start mod 2 ^ 32 / size) ltac:(nia)) as (L3 & C3 & P3).
  unfold segment_name. set (name := _ +:+ _ +:+ _).
  destruct (slice_three _ _ _ L1 L2 L3) as (S1 & S2 & S3). fold name in S1, S2, S3.
  assert (String.length name = 24%nat) as Hlen by (unfold name; rewrite !length_append; lia).
  assert (all_chars is_hex_upper name = true) as Hall
    by (unfold name; rewrite !all_chars_append, C1, C2, C3; done).
  assert (class_n is_hex_upper 24 name = true) as Hcn by (unfold class_n; rewrite Hlen, Hall; done).
  unfold ArchivePosition, walTimeline, segment_start. rewrite Hb.
  unfold walRE. rewrite Hcn. cbn [orb negb]. rewrite S1, S2, S3.
  assert (ParseUint (sprintf_08X t) 16 32 = Some t) as ->.
  { unfold parse_hex in P1. destruct (ParseUint (sprintf_08X t) 16 32) as [x|]; cbn in P1; [congruence|lia]. }
  destruct (Z.eqb_spec t 0); [lia|]. rewrite !hex_no_suffix by done. cbn [andb].
  rewrite P2, P3, Hlen. destruct (Z.leb_spec (2 ^ 32 / size) (start mod 2 ^ 32 / size)); [lia|].
  cbn [Nat.eqb]. unfold wrap64. rewrite Hex, (Z.mod_small _ (2 ^ 64)), lor_shiftl_add by lia.
  do 2 f_equal. pose proof (Z.div_mod start (2 ^ 32)). lia.
Qed.

(** [raw, e := strconv.ParseInt(s, 10, 64)] with [strconv.FormatInt(raw, 10) == s] and [raw >= 1] required:
    the canonical decimal text of a positive int64. *)
Definition positive_int64 (s : string) : option Z :=
  match decimal s with
  | Some n => if (1 <=? n) && (n <? 2 ^ 63) then Some n else None
  | None => None
  end.
