(* ===== verification/Retention.v ===== *)
(** * Retention planning (internal/retention/planner.go)

    The pure planner: from a complete inventory it decides which backups to keep
    and expire, the current timeline and the WAL floor.  [uint64] values are [Z];
    additions the code leaves unchecked are written with [wrap64].  Go iterates
    maps in an unspecified order: the three loops that do so take the order from
    the argument [order]; one of them adds entries to the map it ranges over. *)

From S2P Require Import Prelude GoStrings GoTime Errors Schema WalNames.

Record Backup := mkBackup {
  b_ID : string; b_Parent : string; b_Timeline : Z; b_Completed : Time;
  b_Start : Z; b_Redo : Z; b_End : Z }.
Record Timeline := mkTimeline { t_ID : Z; t_Fork : Z }.
#[export] Instance Timeline_eq_dec : EqDecision Timeline.
Proof. solve_decision. Defined.
Record Segment := mkSegment { s_Timeline : Z; s_Start : Z; s_Live : bool }.
Record Inventory := mkInventory {
  in_Backups : list Backup; in_Paths : list (list Timeline);
  in_Segments : list Segment; in_SegmentBytes : Z }.
(** [retention.Hint] *)
Record FirstRequired := mkFirstRequired { h_Timeline : Z; h_Start : Z }.
Record Decision := mkDecision {
  d_Keep : gmap string string; d_Expire : list string;
  d_Current : Z; d_WALFloor : Z; d_Shortened : bool }.

(** What a [range] over a map visits when its body adds entries: every entry there was, each key once, and any of the new
    keys after it was added. *)
Definition growing (body : gmap string string -> string -> gmap string string) : Prop := forall m k, dom m ⊆ dom (body m k).
Record visits (body : gmap string string -> string -> gmap string string) (m : gmap string string) (l : list string) : Prop := mkVisits {
  vi_once : NoDup l;
  vi_all : forall k, is_Some (m !! k) -> k ∈ l;
  vi_there : forall i k, l !! i = Some k -> is_Some (foldl body m (take i l) !! k) }.
(** The order in which a [range] over a map visits its entries: over a map that does not change, and over one to which [body] adds. *)
Record order := mkOrder {
  range_paths : gmap Z (list Timeline) -> list (Z * list Timeline);
  range_keep : gmap string string -> list string;
  range_growing : (gmap string string -> string -> gmap string string) -> gmap string string -> list string }.
Definition order_ok (o : order) : Prop :=
  (forall m, range_paths o m ≡ₚ map_to_list m)
  /\ (forall m, range_keep o m ≡ₚ (map_to_list m).*1)
  /\ (forall body m, growing body -> visits body m (range_growing o body m)).
(** One admissible order, which passes over the keys added. *)
Definition tree_order : order :=
  mkOrder (fun m => map_to_list m) (fun m => (map_to_list m).*1) (fun _ m => (map_to_list m).*1).

(** ** Paths *)
(** [t.ID == 0 || i > 0 && (t.ID <= path[i-1].ID || t.Fork < path[i-1].Fork)],
    with the predecessor's pair. *)
Fixpoint path_steps (prev : option Timeline) (path : list Timeline) : bool :=
  match path with
  | [] => true
  | t :: path =>
      negb ((t_ID t =? 0)
            || match prev with
               | None => false
               | Some p => (t_ID t <=? t_ID p) || (t_Fork t <? t_Fork p)
               end)
      && path_steps (Some t) path
  end.
Definition path_shape (path : list Timeline) : bool :=
  match path with
  | [] => false
  | t :: _ => (Z.of_nat (length path) <=? 1024) && (t_Fork t =? 0) && path_steps None path
  end.
Definition last_id (path : list Timeline) : Z := from_option t_ID 0 (last path).
Definition ancestor_ids (path : list Timeline) : list Z := t_ID <$> removelast path.

Definition collect_path (acc : gmap Z (list Timeline) * gset Z) (path : list Timeline)
  : res (gmap Z (list Timeline) * gset Z) :=
  let '(paths, ancestors) := acc in
  if negb (path_shape path) then Err ErrCoverage else
  let ancestors := list_to_set (ancestor_ids path) ∪ ancestors in
  match paths !! last_id path with
  | Some _ => Err ErrCoverage
  | None => Ok (<[last_id path := path]> paths, ancestors)
  end.

(** Every proper prefix of a path is the path of its own last timeline. *)
Definition prefixes_agree (paths : gmap Z (list Timeline)) (path : list Timeline) : bool :=
  forallb (fun i : nat =>
    match path !! i with
    | None => true
    | Some t => match paths !! t_ID t with
                | None => false
                | Some prefix => (Z.of_nat (length prefix) =? Z.of_nat i + 1) && (prefix ==? take (S i) path)
                end
    end) (seq 0 (length path)).

Definition find_current (paths : gmap Z (list Timeline)) (ancestors : gset Z)
    (current : Z) (e : Z * list Timeline) : res Z :=
  let '(id, path) := e in
  if negb (prefixes_agree paths path) then Err ErrCoverage else
  if bool_decide (id ∈ ancestors) then Ok current else
  if negb (current =? 0) then Err ErrCoverage else Ok id.

(** ** Backups *)
Definition collect_backup (paths : gmap Z (list Timeline)) (byID : gmap string Backup) (b : Backup)
  : res (gmap string Backup) :=
  if (b_ID b ==? "") || IsZero (b_Completed b) || (b_End b <=? b_Start b) || (b_Start b <? b_Redo b)
     || match paths !! b_Timeline b with None => true | Some _ => false end
  then Err ErrCoverage else
  match byID !! b_ID b with
  | Some _ => Err ErrCoverage
  | None => Ok (<[b_ID b := b]> byID)
  end.

Definition check_parent (byID : gmap string Backup) (_ : ()) (b : Backup) : res () :=
  if b_Parent b ==? "" then Ok () else
  match byID !! b_Parent b with
  | None => Err ErrCoverage
  | Some f =>
      if (b_Parent f !=? "") || (b_Timeline f !=? b_Timeline b)
         || After (b_Completed f) (b_Completed b) || (b_Start b <? b_End f)
      then Err ErrCoverage else Ok ()
  end.

(** [reachable(b, path)]: the backup ends before the path leaves its timeline. *)
Fixpoint reachable (b : Backup) (path : list Timeline) : bool :=
  match path with
  | [] => false
  | t :: rest =>
      if t_ID t =? b_Timeline b then
        match rest with [] => true | n :: _ => b_End b <? t_Fork n end
      else reachable b rest
  end.

Definition newer (a b : Backup) : bool :=
  if b_Completed a =? b_Completed b then String.ltb (b_ID b) (b_ID a)
  else After (b_Completed a) (b_Completed b).

(** ** What one path keeps *)
Record keep_state := mkKeep { k_Keep : gmap string string; k_roots : Z; k_anchor : bool }.

Definition keep_step (cutoff : Time) (minimum : Z) (st : keep_state) (b : Backup) : keep_state :=
  let keep := k_Keep st in
  let keep := if negb (Before (b_Completed b) cutoff)
              then <[b_ID b := "inside recovery window"]> keep else keep in
  let first := negb (k_anchor st) && negb (After (b_Completed b) cutoff) in
  let keep := if first then <[b_ID b := "window anchor"]> keep else keep in
  let root := (b_Parent b ==? "") && (k_roots st <? minimum) in
  let keep := if root then <[b_ID b := "minimum full roots"]> keep else keep in
  mkKeep keep (if root then k_roots st + 1 else k_roots st) (k_anchor st || first).

Definition candidates (in_ : Inventory) (path : list Timeline) : list Backup :=
  sort_slice newer (List.filter (fun b => reachable b path) (in_Backups in_)).

Definition keep_path (in_ : Inventory) (cutoff : Time) (minimum : Z)
    (acc : gmap string string * bool) (path : list Timeline) : gmap string string * bool :=
  let '(keep, shortened) := acc in
  match candidates in_ path with
  | [] => (keep, shortened)
  | newest :: older =>
      let cs := newest :: older in
      let st := foldl (keep_step cutoff minimum) (mkKeep keep 0 false) cs in
      let keep := <[b_ID newest := "latest usable backup"]> (k_Keep st) in
      if k_anchor st then (keep, shortened)
      else (<[b_ID (List.last older newest) := "earliest usable; shortened window"]> keep, true)
  end.

(** ** Parents of kept differentials *)
Definition keep_parent (byID : gmap string Backup) (keep : gmap string string) (id : string)
  : gmap string string :=
  let parent := from_option b_Parent "" (byID !! id) in
  if parent ==? "" then keep else <[parent := "full parent of retained differential"]> keep.

(** ** Expiry order: differentials first, then by identifier *)
Definition expire_less (byID : gmap string Backup) (x y : string) : bool :=
  let isdiff i := negb (from_option b_Parent "" (byID !! i) ==? "") in
  let idof i := from_option b_ID "" (byID !! i) in
  if negb (Bool.eqb (isdiff x) (isdiff y)) then isdiff x else String.ltb (idof x) (idof y).
Definition expired (in_ : Inventory) (byID : gmap string Backup) (keep : gmap string string) : list string :=
  sort_slice (expire_less byID)
    (List.filter (fun i => from_option (fun r => r) "" (keep !! i) ==? "") (b_ID <$> in_Backups in_)).

(** ** Archived segments *)
Definition collect_segment (paths : gmap Z (list Timeline)) (step : Z)
    (acc : gmap (Z * Z) bool * gmap Z Z) (s : Segment) : res (gmap (Z * Z) bool * gmap Z Z) :=
  let '(live, frontier) := acc in
  if match paths !! s_Timeline s with None => true | Some _ => false end
     || negb (s_Start s mod step =? 0) || (u64_max - step <? s_Start s)
  then Err ErrCoverage else
  match live !! (s_Timeline s, s_Start s) with
  | Some _ => Err ErrCoverage
  | None =>
      Ok (<[(s_Timeline s, s_Start s) := s_Live s]> live,
          <[s_Timeline s := Z.max (default 0 (frontier !! s_Timeline s)) (wrap64 (s_Start s + step))]> frontier)
  end.

(** [for start := ...; start < end; start += step { if !live[t][start] fail }].
    [None] is running out of fuel. *)
Fixpoint check_live (fuel : nat) (live : gmap (Z * Z) bool) (tl step start end_ : Z) : option bool :=
  match fuel with
  | O => None
  | S f =>
      if end_ <=? start then Some true
      else if negb (default false (live !! (tl, start))) then Some false
      else check_live f live tl step (wrap64 (start + step)) end_
  end.

Record cover_state := mkCover { cv_pos : Z; cv_started : bool; cv_floor : Z }.
Record cover_env := mkEnv {
  e_step : Z; e_nseg : Z; e_live : gmap (Z * Z) bool; e_frontier : gmap Z Z; e_current : Z }.

(** The loop over [path] for one kept backup. *)
Fixpoint cover_path (env : cover_env) (b : Backup) (st : cover_state) (path : list Timeline)
  : res cover_state :=
  match path with
  | [] => Ok st
  | t :: rest =>
      let started := cv_started st || (t_ID t =? b_Timeline b) in
      if negb started then cover_path env b st rest else
      let pos := cv_pos st in
      let step := e_step env in
      let end_ := match rest with
                  | n :: _ => t_Fork n
                  | [] => Z.max pos (default 0 (e_frontier env !! t_ID t))
                  end in
      if (end_ <? pos) || (e_nseg env <? (end_ - pos) / step) then Err ErrCoverage else
      let covered :=
        if pos <? end_
        then check_live (Z.to_nat (e_nseg env) + 3) (e_live env) (t_ID t) step (pos / step * step) end_
        else Some true in
      match covered with
      | Some true =>
          let floor :=
            if t_ID t =? e_current env then
              let f := if b_Timeline b =? e_current env then Z.min (b_Start b) (b_Redo b) else t_Fork t in
              Z.min (cv_floor st) (f / step * step)
            else cv_floor st in
          cover_path env b (mkCover end_ true floor) rest
      | _ => Err ErrCoverage
      end
  end.

Definition cover_backup (env : cover_env) (paths : list (list Timeline)) (byID : gmap string Backup)
    (floor : Z) (id : string) : res Z :=
  match byID !! id with
  | None => Ok floor
  | Some b =>
      forM paths floor (fun floor path =>
        if negb (reachable b path) then Ok floor else
        let? st := cover_path env b (mkCover (b_End b) false floor) path in
        Ok (cv_floor st))
  end.

(** ** The planner *)
Definition Plan (o : order) (in_ : Inventory) (cutoff : Time) (minimum : Z) (hint : option FirstRequired)
  : res Decision :=
  let step := in_SegmentBytes in_ in
  if IsZero cutoff || (minimum <? 1) || (100 <? minimum) || bad_segment_bytes step
     || (Z.of_nat (length (in_Backups in_)) =? 0) || (Z.of_nat (length (in_Paths in_)) =? 0)
     || (1024 <? Z.of_nat (length (in_Paths in_)))
  then Err ErrCoverage else
  let? (paths, ancestors) := forM (in_Paths in_) (∅, ∅) collect_path in
  let? current := forM (range_paths o paths) 0 (find_current paths ancestors) in
  let? byID := forM (in_Backups in_) ∅ (collect_backup paths) in
  let? _ := forM (in_Backups in_) () (check_parent byID) in
  let '(keep, shortened) := foldl (keep_path in_ cutoff minimum) (∅, false) (in_Paths in_) in
  let keep := foldl (keep_parent byID) keep (range_growing o (keep_parent byID) keep) in
  let expire := expired in_ byID keep in
  let? (live, frontier) := forM (in_Segments in_) (∅, ∅) (collect_segment paths step) in
  let env := mkEnv step (Z.of_nat (length (in_Segments in_))) live frontier current in
  let? floor := forM (range_keep o keep) u64_max (cover_backup env (in_Paths in_) byID) in
  if floor =? u64_max then Err ErrCoverage else
  let floor := match hint with
               | Some h => if h_Timeline h =? current then Z.min floor (h_Start h / step * step) else floor
               | None => floor
               end in
  Ok (mkDecision keep expire current floor shortened).

(** ** Order of backups *)
Lemma newer_asym a b : newer a b = true -> newer b a = false.
Proof.
  unfold newer, After. rewrite (Z.eqb_sym (b_Completed b)).
  destruct (b_Completed a =? b_Completed b); [apply ltb_antisym|]. intros H. bool_split.
  apply Z.ltb_ge. lia.
Qed.

Lemma newer_ge_trans a b c : newer b a = false -> newer c b = false -> newer c a = false.
Proof.
  unfold newer, After.
  destruct (Z.eqb_spec (b_Completed b) (b_Completed a)) as [E1|N1],
           (Z.eqb_spec (b_Completed c) (b_Completed b)) as [E2|N2],
           (Z.eqb_spec (b_Completed c) (b_Completed a)) as [E3|N3]; intros H1 H2; bool_split; try lia;
    solve [apply Z.ltb_ge; lia | by eapply ltb_ge_trans].
Qed.

Lemma newer_total a b : newer a b = false -> newer b a = false -> b_ID a = b_ID b.
Proof.
  unfold newer, After. rewrite (Z.eqb_sym (b_Completed b)).
  destruct (Z.eqb_spec (b_Completed a) (b_Completed b)); intros H1 H2; bool_split; [|lia].
  by apply ltb_total.
Qed.

Lemma newer_completed a b : newer b a = false -> b_Completed b <= b_Completed a.
Proof.
  unfold newer, After. destruct (Z.eqb_spec (b_Completed b) (b_Completed a)); intros H; bool_split; lia.
Qed.

Lemma candidates_elem in_ path b :
  b ∈ candidates in_ path <-> b ∈ in_Backups in_ /\ reachable b path = true.
Proof.
  unfold candidates. rewrite elem_of_sort_slice, !list_elem_of_In, filter_In. done.
Qed.

Lemma candidates_sorted in_ path : StronglySorted (not_less newer) (candidates in_ path).
Proof. apply sort_slice_sorted; [apply newer_asym|apply newer_ge_trans]. Qed.

Lemma candidates_split in_ path pre b post :
  candidates in_ path = pre ++ b :: post ->
  (forall x, x ∈ pre -> newer b x = false) /\ (forall x, x ∈ post -> newer x b = false).
Proof.
  intros E. pose proof (candidates_sorted in_ path) as Hs. rewrite E in Hs.
  apply StronglySorted_app in Hs as (H1 & _ & H2). apply StronglySorted_cons in H2 as [H2 _].
  rewrite Forall_forall in H2. split; [|exact H2].
  intros x Hx. apply (H1 x b Hx). by left.
Qed.

(** ** What a path keeps *)
Definition fulls (l : list Backup) : Z :=
  Z.of_nat (length (List.filter (fun b => b_Parent b ==? "") l)).
Definition anchored (cutoff : Time) (l : list Backup) : Prop :=
  exists x, x ∈ l /\ b_Completed x <= cutoff.

(** [b], found after the newer candidates [pre], is kept by the scan. *)
Definition scan_keeps (cutoff : Time) (minimum : Z) (pre : list Backup) (b : Backup) : Prop :=
  cutoff <= b_Completed b
  \/ (b_Completed b <= cutoff /\ ~ anchored cutoff pre)
  \/ (b_Parent b = "" /\ fulls pre < minimum).

Lemma fulls_snoc l b : fulls (l ++ [b]) = fulls l + if b_Parent b ==? "" then 1 else 0.
Proof.
  unfold fulls. rewrite List.filter_app, length_app. cbn. destruct (b_Parent b ==? ""); cbn; lia.
Qed.

Lemma anchored_snoc cutoff l b : anchored cutoff (l ++ [b]) <-> anchored cutoff l \/ b_Completed b <= cutoff.
Proof. unfold anchored. setoid_rewrite elem_of_app. setoid_rewrite list_elem_of_singleton. naive_solver. Qed.

Section Scan.
Context (cutoff : Time) (minimum : Z) (keep0 : gmap string string).

Record scan_inv (pre : list Backup) (st : keep_state) : Prop := {
  si_dom : forall i, is_Some (k_Keep st !! i) <-> is_Some (keep0 !! i)
    \/ exists p b q, pre = p ++ b :: q /\ b_ID b = i /\ scan_keeps cutoff minimum p b;
  si_roots : k_roots st = Z.min minimum (fulls pre);
  si_anchor : k_anchor st = true <-> anchored cutoff pre }.

Lemma keep_step_dom st b i :
  is_Some (k_Keep (keep_step cutoff minimum st b) !! i) <-> is_Some (k_Keep st !! i)
  \/ (b_ID b = i /\ (cutoff <= b_Completed b
      \/ (k_anchor st = false /\ b_Completed b <= cutoff) \/ (b_Parent b = "" /\ k_roots st < minimum))).
Proof.
  unfold keep_step, Before, After. cbn.
  destruct (Z.ltb_spec (b_Completed b) cutoff), (Z.ltb_spec cutoff (b_Completed b)),
    (k_anchor st), (bool_decide_reflect (b_Parent b = "")), (Z.ltb_spec (k_roots st) minimum); cbn;
    rewrite ?lookup_insert_is_Some'; naive_solver lia.
Qed.

Lemma snoc_split (P : list Backup -> Backup -> Prop) pre x :
  (exists p b q, pre ++ [x] = p ++ b :: q /\ P p b)
  <-> (exists p b q, pre = p ++ b :: q /\ P p b) \/ P pre x.
Proof.
  split.
  - intros (p & b & q & E & HP). destruct q as [|y q] using rev_ind.
    + apply app_inj_tail in E as [-> ->]. auto.
    + left. rewrite app_comm_cons, app_assoc in E. apply app_inj_tail in E as [-> _]. eauto.
  - intros [(p & b & q & -> & HP)|HP].
    + exists p, b, (q ++ [x]). by rewrite <- app_assoc.
    + by exists pre, x, [].
Qed.

Lemma scan_foldl cs : 0 <= minimum ->
  scan_inv cs (foldl (keep_step cutoff minimum) (mkKeep keep0 0 false) cs).
Proof.
  intros Hmin. induction cs as [|b cs IH] using rev_ind.
  - split; cbn.
    + intros i. split; [auto|]. intros [?|(p & b & q & E & _)]; [done|]. by destruct p.
    + unfold fulls. cbn. lia.
    + split; [done|]. intros (x & Hx & _). by apply elem_of_nil in Hx.
  - rewrite foldl_snoc. destruct IH as [Hd Hr Ha]. split.
    + intros i. rewrite keep_step_dom, Hd.
      pose proof (snoc_split (fun p b => b_ID b = i /\ scan_keeps cutoff minimum p b) cs b) as Hs.
      setoid_rewrite Hs. unfold scan_keeps. rewrite <- Ha, Hr, not_true_iff_false.
      assert (Z.min minimum (fulls cs) < minimum <-> fulls cs < minimum) as -> by lia. tauto.
    + cbn [keep_step k_roots]. rewrite fulls_snoc, Hr. generalize (fulls cs). intros n.
      destruct (b_Parent b ==? ""), (Z.ltb_spec (Z.min minimum n) minimum); cbn; lia.
    + rewrite anchored_snoc. cbn. unfold After.
      revert Ha. generalize (k_anchor (foldl (keep_step cutoff minimum) (mkKeep keep0 0 false) cs)).
      intros []; destruct (Z.ltb_spec cutoff (b_Completed b)); cbn; naive_solver lia.
Qed.
End Scan.

Section KeepPaths.
Context (in_ : Inventory) (cutoff : Time) (minimum : Z) (Hmin : 0 <= minimum).

(** [b] is kept because of [path]. *)
Definition kept_by (path : list Timeline) (b : Backup) : Prop :=
  exists pre post, candidates in_ path = pre ++ b :: post
    /\ (scan_keeps cutoff minimum pre b \/ pre = []
        \/ (post = [] /\ ~ anchored cutoff (candidates in_ path))).

Lemma last_split (x : Backup) l : exists pre, x :: l = pre ++ [List.last l x].
Proof.
  destruct l as [|y l] using rev_ind; [by exists []|]. exists (x :: l).
  by rewrite List.last_last.
Qed.

Lemma keep_path_spec keep sh path keep' sh' :
  keep_path in_ cutoff minimum (keep, sh) path = (keep', sh') ->
  (forall i, is_Some (keep' !! i) <-> is_Some (keep !! i) \/ exists b, kept_by path b /\ b_ID b = i)
  /\ (sh' = true <-> sh = true
      \/ (candidates in_ path <> [] /\ ~ anchored cutoff (candidates in_ path))).
Proof.
  unfold keep_path, kept_by. destruct (candidates in_ path) as [|x l] eqn:Ec.
  { intros [= <- <-]. split; [|naive_solver]. intros i. split; [auto|].
    intros [?|(b & (pre & post & E & _) & _)]; [done|]. by destruct pre. }
  cbn zeta. pose proof (scan_foldl cutoff minimum keep (x :: l) Hmin) as [Hd _ Ha].
  set (st := foldl _ _ _) in *.
  assert (forall i, is_Some (<[b_ID x := "latest usable backup"]> (k_Keep st) !! i) <->
    is_Some (keep !! i) \/ exists b, (exists pre post, x :: l = pre ++ b :: post
      /\ (scan_keeps cutoff minimum pre b \/ pre = [])) /\ b_ID b = i) as Hd1.
  { intros i. rewrite lookup_insert_is_Some', Hd. split.
    - intros [<-|[?|(p & b & q & E & <- & Hk)]]; [|by auto|].
      + right. exists x. split; [|done]. exists [], l. auto.
      + right. exists b. eauto 10.
    - intros [?|(b & (pre & post & E & [Hk| ->]) & <-)]; [by auto| |].
      + right. right. eauto 10.
      + injection E as -> _. auto. }
  destruct (k_anchor st) eqn:Ean; intros [= <- <-].
  - assert (anchored cutoff (x :: l)) as Han by (by apply Ha).
    split; [|tauto]. intros i. rewrite Hd1. split.
    + intros [?|(b & (pre & post & E & H) & Hb)]; [by auto|].
      right. exists b. split; [|done]. exists pre, post. tauto.
    + intros [?|(b & (pre & post & E & H) & Hb)]; [by auto|].
      right. exists b. split; [|done]. exists pre, post. tauto.
  - assert (~ anchored cutoff (x :: l)) as Han by (rewrite <- Ha; done).
    split; [|split; [by auto|done]]. intros i. rewrite lookup_insert_is_Some', Hd1.
    destruct (last_split x l) as (pre0 & Elast). split.
    + intros [<-|[?|(b & (pre & post & E & H) & Hb)]]; [|by auto|].
      * right. eexists. split; [|done]. exists pre0, []. auto.
      * right. exists b. split; [|done]. exists pre, post. tauto.
    + intros [?|(b & (pre & post & E & H) & Hb)]; [by auto|].
      destruct H as [H|[H|[-> _]]].
      * right. right. exists b. split; [|done]. exists pre, post. auto.
      * right. right. exists b. split; [|done]. exists pre, post. auto.
      * rewrite Elast in E. apply app_inj_tail in E as [_ E]. left. congruence.
Qed.

Lemma keep_paths_spec paths keep sh :
  foldl (keep_path in_ cutoff minimum) (∅, false) paths = (keep, sh) ->
  (forall i, is_Some (keep !! i) <-> exists path b, path ∈ paths /\ kept_by path b /\ b_ID b = i)
  /\ (sh = true <-> exists path, path ∈ paths /\ candidates in_ path <> []
      /\ ~ anchored cutoff (candidates in_ path)).
Proof.
  revert keep sh. induction paths as [|path paths IH] using rev_ind; intros keep sh.
  - cbn. intros [= <- <-]. split.
    + intros i. rewrite lookup_empty. split; [by intros []|].
      intros (? & ? & H & _). by apply elem_of_nil in H.
    + split; [done|]. intros (? & H & _). by apply elem_of_nil in H.
  - rewrite foldl_snoc. destruct (foldl _ _ paths) as [keep1 sh1].
    destruct (IH keep1 sh1 eq_refl) as [H1 H2]. intros (H3 & H4)%keep_path_spec.
    setoid_rewrite elem_of_app. setoid_rewrite list_elem_of_singleton. split.
    + intros i. rewrite H3, H1. naive_solver.
    + rewrite H4, H2. naive_solver.
Qed.
End KeepPaths.

(** ** Parents *)
Lemma keep_parents_dom byID l keep i :
  is_Some (foldl (keep_parent byID) keep l !! i) <-> is_Some (keep !! i)
  \/ exists j, j ∈ l /\ from_option b_Parent "" (byID !! j) = i /\ i <> "".
Proof.
  revert keep. induction l as [|j l IH]; intros keep; cbn.
  - split; [auto|]. intros [?|(j & H & _)]; [done|]. by apply elem_of_nil in H.
  - rewrite IH. setoid_rewrite elem_of_cons. unfold keep_parent.
    case_bool_decide as E.
    + split; [naive_solver|]. intros [?|(j' & [->|?] & <- & ?)]; [by auto|done|]. right. eauto.
    + rewrite lookup_insert_is_Some'. naive_solver.
Qed.

Lemma keep_parent_comm byID keep x y :
  keep_parent byID (keep_parent byID keep x) y = keep_parent byID (keep_parent byID keep y) x.
Proof.
  unfold keep_parent. repeat case_bool_decide; try done.
  destruct (decide (from_option b_Parent "" (byID !! x) = from_option b_Parent "" (byID !! y))) as [->|].
  - done.
  - by apply insert_insert_ne.
Qed.

(** Visiting a full that the loop itself has just added changes nothing, so the
    result does not depend on whether the iteration reaches added entries. *)
Lemma keep_parent_full byID keep f b :
  byID !! f = Some b -> b_Parent b = "" -> keep_parent byID keep f = keep.
Proof. intros E Hp. unfold keep_parent. rewrite E. cbn. by rewrite bool_decide_eq_true_2. Qed.

(** Reasons are never empty, so the emptiness test of the code is absence. *)
Definition nonempty_values (m : gmap string string) : Prop := map_Forall (fun _ v => v <> "") m.

Lemma keep_step_nonempty cutoff minimum st b :
  nonempty_values (k_Keep st) -> nonempty_values (k_Keep (keep_step cutoff minimum st b)).
Proof.
  intros H. unfold keep_step. cbn [k_Keep].
  repeat match goal with |- context [if ?c then <[_ := _]> _ else _] => destruct c end;
    repeat (apply map_Forall_insert_2; [done|]); exact H.
Qed.

Lemma keep_path_nonempty in_ cutoff minimum acc path :
  nonempty_values acc.1 -> nonempty_values (keep_path in_ cutoff minimum acc path).1.
Proof.
  destruct acc as [keep sh]. cbn. intros H. unfold keep_path.
  destruct (candidates in_ path) as [|x l]; [done|]. cbn zeta.
  assert (forall cs st, nonempty_values (k_Keep st) ->
    nonempty_values (k_Keep (foldl (keep_step cutoff minimum) st cs))) as Hf.
  { induction cs as [|b cs IH]; intros st Hst; cbn; [done|]. by apply IH, keep_step_nonempty. }
  specialize (Hf (x :: l) (mkKeep keep 0 false) H).
  destruct (k_anchor _); cbn; repeat (apply map_Forall_insert_2; [done|]); done.
Qed.

Lemma keep_paths_nonempty in_ cutoff minimum paths :
  nonempty_values (foldl (keep_path in_ cutoff minimum) (∅, false) paths).1.
Proof.
  induction paths as [|p paths IH] using rev_ind; [apply map_Forall_empty|].
  rewrite foldl_snoc. by apply keep_path_nonempty.
Qed.

Lemma keep_parents_nonempty byID l keep :
  nonempty_values keep -> nonempty_values (foldl (keep_parent byID) keep l).
Proof.
  revert keep. induction l as [|j l IH]; intros keep H; cbn; [done|]. apply IH.
  unfold keep_parent. case_bool_decide; [done|]. by apply map_Forall_insert_2.
Qed.

(** ** The collecting loops *)
Definition all_paths_ok (l : list (list Timeline)) (paths : gmap Z (list Timeline)) (anc : gset Z) : Prop :=
  (forall i p, paths !! i = Some p <-> p ∈ l /\ last_id p = i)
  /\ Forall (fun p => path_shape p = true) l
  /\ NoDup (last_id <$> l)
  /\ (forall i, i ∈ anc <-> exists p, p ∈ l /\ i ∈ ancestor_ids p).

Lemma collect_paths_spec l paths anc :
  forM l (∅, ∅) collect_path = Ok (paths, anc) -> all_paths_ok l paths anc.
Proof.
  intros H. change (all_paths_ok l (paths, anc).1 (paths, anc).2). revert H.
  apply (forM_inv (fun pre acc => all_paths_ok pre acc.1 acc.2)); unfold all_paths_ok; cbn.
  - split_and!; [|done|constructor|]; intros.
    + rewrite lookup_empty. split; [done|]. intros [H _]. by apply elem_of_nil in H.
    + split; [set_solver|]. intros (p & H & _). by apply elem_of_nil in H.
  - intros pre p post [m a] [m' a'] _ (Hm & Hs & Hn & Ha) Hc. cbn in *.
    destruct (path_shape p) eqn:Eshape; [|done]. cbn in Hc.
    destruct (m !! last_id p) as [q|] eqn:El; [done|]. injection Hc as <- <-.
    assert (forall q, q ∈ pre -> last_id q <> last_id p) as Hfresh.
    { intros q Hq E. assert (m !! last_id p = Some q) by (apply Hm; auto). congruence. }
    split_and!.
    + intros i q. rewrite elem_of_app, list_elem_of_singleton.
      destruct (decide (last_id p = i)) as [<-|Hne].
      * rewrite lookup_insert_eq. naive_solver.
      * rewrite lookup_insert_ne by done. rewrite Hm. naive_solver.
    + apply Forall_app. split; [done|]. by constructor.
    + rewrite fmap_app. apply NoDup_app. split_and!; [done| |apply NoDup_singleton].
      intros i (q & -> & Hq)%list_elem_of_fmap H%list_elem_of_singleton. by apply (Hfresh q).
    + intros i. rewrite elem_of_union, elem_of_list_to_set, Ha.
      setoid_rewrite elem_of_app. setoid_rewrite list_elem_of_singleton. naive_solver.
Qed.

Definition backup_ok (paths : gmap Z (list Timeline)) (b : Backup) : Prop :=
  b_ID b <> "" /\ IsZero (b_Completed b) = false /\ b_Start b < b_End b /\ b_Redo b <= b_Start b
  /\ is_Some (paths !! b_Timeline b).
Definition backups_ok (paths : gmap Z (list Timeline)) (l : list Backup) (byID : gmap string Backup) : Prop :=
  (forall i b, byID !! i = Some b <-> b ∈ l /\ b_ID b = i)
  /\ Forall (backup_ok paths) l /\ NoDup (b_ID <$> l).

Lemma collect_backups_spec paths l byID :
  forM l ∅ (collect_backup paths) = Ok byID -> backups_ok paths l byID.
Proof.
  apply (forM_inv (fun pre acc => backups_ok paths pre acc)); unfold backups_ok.
  - split_and!; [|done|constructor]. intros. rewrite lookup_empty. split; [done|].
    intros [H _]. by apply elem_of_nil in H.
  - intros pre b post m m' _ (Hm & Hs & Hn) Hc. unfold collect_backup in Hc.
    destruct (_ || _) eqn:Eg in Hc; [done|]. destruct (m !! b_ID b) eqn:El; [done|]. injection Hc as <-.
    apply orb_false_iff in Eg as [Eg E5]. apply orb_false_iff in Eg as [Eg E4].
    apply orb_false_iff in Eg as [Eg E3]. apply orb_false_iff in Eg as [E1 E2].
    assert (forall q, q ∈ pre -> b_ID q <> b_ID b) as Hfresh.
    { intros q Hq E. assert (m !! b_ID b = Some q) by (apply Hm; auto). congruence. }
    split_and!.
    + intros i q. rewrite elem_of_app, list_elem_of_singleton.
      destruct (decide (b_ID b = i)) as [<-|Hne].
      * rewrite lookup_insert_eq. naive_solver.
      * rewrite lookup_insert_ne by done. rewrite Hm. naive_solver.
    + apply Forall_app. split; [done|]. constructor; [|done]. unfold backup_ok.
      destruct (paths !! b_Timeline b); [|done]. bool_split. split_and!; eauto; lia.
    + rewrite fmap_app. apply NoDup_app. split_and!; [done| |apply NoDup_singleton].
      intros i (q & -> & Hq)%list_elem_of_fmap H%list_elem_of_singleton. by apply (Hfresh q).
Qed.

Definition parent_ok (byID : gmap string Backup) (b : Backup) : Prop :=
  b_Parent b = "" \/ exists f, byID !! b_Parent b = Some f /\ b_Parent f = ""
    /\ b_Timeline f = b_Timeline b /\ b_Completed f <= b_Completed b /\ b_End f <= b_Start b.

Lemma check_parents_spec byID l :
  forM l () (check_parent byID) = Ok () -> Forall (parent_ok byID) l.
Proof.
  apply (forM_inv (fun pre _ => Forall (parent_ok byID) pre)); [done|].
  intros pre b post [] [] _ Hpre Hc. apply Forall_app. split; [done|]. constructor; [|done].
  unfold check_parent in Hc. unfold parent_ok. case_bool_decide as Ep; [by left|]. right.
  destruct (byID !! b_Parent b) as [f|]; [|done]. exists f.
  destruct (_ || _) eqn:Eg in Hc; [done|]. unfold After in Eg. bool_split. split_and!; auto; lia.
Qed.

(** ** The parents, whatever is visited *)
Lemma keep_parent_grows byID : growing (keep_parent byID).
Proof. intros m k. unfold keep_parent. destruct (_ ==? ""); [done|]. rewrite dom_insert. set_solver. Qed.
Lemma keys_elem (m : gmap string string) k : k ∈ (map_to_list m).*1 <-> is_Some (m !! k).
Proof.
  rewrite list_elem_of_fmap. split.
  - intros ([j v] & -> & H%elem_of_map_to_list). eauto.
  - intros [v Hv]. exists (k, v). by rewrite elem_of_map_to_list.
Qed.
(** A key added while ranging is a full backup, so visiting it adds nothing. *)
Lemma added_is_full paths l byID keep0 visited k :
  backups_ok paths l byID -> Forall (parent_ok byID) l ->
  is_Some (foldl (keep_parent byID) keep0 visited !! k) -> keep0 !! k = None -> forall keep, keep_parent byID keep k = keep.
Proof.
  intros (Hb & _) Hp Hk Hn keep. apply keep_parents_dom in Hk as [[v Hv]|(j & _ & Hj & Hne)]; [congruence|].
  destruct (byID !! j) as [b|] eqn:Ej; cbn in Hj; [|done]. apply Hb in Ej as [Hin _]. rewrite Forall_forall in Hp.
  destruct (Hp b Hin) as [?|(f & Hf & Hfull & _)]; [congruence|]. unfold keep_parent. rewrite <- Hj, Hf. cbn. by rewrite Hfull.
Qed.
Lemma foldl_skips {A B} (f : B -> A -> B) (P : A -> Prop) `{forall x, stdpp.base.Decision (P x)} (l : list A) b :
  (forall i x, l !! i = Some x -> ~ P x -> forall b, f b x = b) -> foldl f b l = foldl f b (filter P l).
Proof.
  revert b. induction l as [|x l IH]; intros b Hs; [done|]. rewrite filter_cons. cbn.
  assert (Hl : forall i y, l !! i = Some y -> ~ P y -> forall b, f b y = b) by (intros i y; apply (Hs (S i) y)).
  destruct (decide (P x)); cbn; [by apply IH|]. rewrite (Hs 0%nat x) by done. by apply IH.
Qed.
Lemma parents_settled paths backups byID keep0 l :
  backups_ok paths backups byID -> Forall (parent_ok byID) backups -> visits (keep_parent byID) keep0 l ->
  foldl (keep_parent byID) keep0 l = foldl (keep_parent byID) keep0 (map_to_list keep0).*1.
Proof.
  intros Hb Hp [H1 H2 H3]. rewrite (foldl_skips _ (fun k => is_Some (keep0 !! k)) l).
  - apply foldl_comm_perm; [intros; apply keep_parent_comm|]. apply NoDup_Permutation; [by apply NoDup_filter|apply NoDup_fst_map_to_list|].
    intros k. rewrite list_elem_of_filter, keys_elem. split; [by intros []|]. auto.
  - intros i k Hi Hk keep. eapply (added_is_full paths backups byID keep0 (take i l)); [done|done|by apply H3|]. by apply eq_None_not_Some.
Qed.

(** ** A successful plan *)
Record plan_run (o : order) (in_ : Inventory) (cutoff : Time) (minimum : Z) (hint : option FirstRequired)
    (d : Decision) (paths : gmap Z (list Timeline)) (anc : gset Z) (byID : gmap string Backup)
    (keep0 : gmap string string) (live : gmap (Z * Z) bool) (frontier : gmap Z Z) (floor : Z) : Prop := {
  pr_min : 1 <= minimum;
  pr_step : bad_segment_bytes (in_SegmentBytes in_) = false;
  pr_nonempty : in_Paths in_ <> [];
  pr_paths : all_paths_ok (in_Paths in_) paths anc;
  pr_current : forM (range_paths o paths) 0 (find_current paths anc) = Ok (d_Current d);
  pr_byID : backups_ok paths (in_Backups in_) byID;
  pr_parents : Forall (parent_ok byID) (in_Backups in_);
  pr_keep0 : foldl (keep_path in_ cutoff minimum) (∅, false) (in_Paths in_) = (keep0, d_Shortened d);
  pr_keep : d_Keep d = foldl (keep_parent byID) keep0 (range_growing o (keep_parent byID) keep0);
  pr_expire : d_Expire d = expired in_ byID (d_Keep d);
  pr_segments : forM (in_Segments in_) (∅, ∅) (collect_segment paths (in_SegmentBytes in_)) = Ok (live, frontier);
  pr_cover : forM (range_keep o (d_Keep d)) u64_max
    (cover_backup (mkEnv (in_SegmentBytes in_) (Z.of_nat (length (in_Segments in_))) live frontier (d_Current d))
       (in_Paths in_) byID) = Ok floor;
  pr_floor : floor <> u64_max;
  pr_walfloor : d_WALFloor d = match hint with
    | Some h => if h_Timeline h =? d_Current d
                then Z.min floor (h_Start h / in_SegmentBytes in_ * in_SegmentBytes in_) else floor
    | None => floor end }.

Arguments pr_min {_ _ _ _ _ _ _ _ _ _ _ _ _} _.
Arguments pr_step {_ _ _ _ _ _ _ _ _ _ _ _ _} _.
Arguments pr_nonempty {_ _ _ _ _ _ _ _ _ _ _ _ _} _.
Arguments pr_paths {_ _ _ _ _ _ _ _ _ _ _ _ _} _.
Arguments pr_current {_ _ _ _ _ _ _ _ _ _ _ _ _} _.
Arguments pr_byID {_ _ _ _ _ _ _ _ _ _ _ _ _} _.
Arguments pr_parents {_ _ _ _ _ _ _ _ _ _ _ _ _} _.
Arguments pr_keep0 {_ _ _ _ _ _ _ _ _ _ _ _ _} _.
Arguments pr_keep {_ _ _ _ _ _ _ _ _ _ _ _ _} _.
Arguments pr_expire {_ _ _ _ _ _ _ _ _ _ _ _ _} _.
Arguments pr_segments {_ _ _ _ _ _ _ _ _ _ _ _ _} _.
Arguments pr_cover {_ _ _ _ _ _ _ _ _ _ _ _ _} _.
Arguments pr_floor {_ _ _ _ _ _ _ _ _ _ _ _ _} _.
Arguments pr_walfloor {_ _ _ _ _ _ _ _ _ _ _ _ _} _.

Lemma Plan_run o in_ cutoff minimum hint d :
  Plan o in_ cutoff minimum hint = Ok d ->
  exists paths anc byID keep0 live frontier floor,
    plan_run o in_ cutoff minimum hint d paths anc byID keep0 live frontier floor.
Proof.
  unfold Plan. cbv zeta. destruct (_ || _) eqn:Eg; [done|]. intros H.
  apply res_bind_ok in H as ((paths & anc) & Hp & H).
  apply res_bind_ok in H as (current & Hcur & H).
  apply res_bind_ok in H as (byID & Hb & H).
  apply res_bind_ok in H as ([] & Hpar & H).
  destruct (foldl _ _ _) as [keep0 sh] eqn:Ek in H.
  apply res_bind_ok in H as ((live & frontier) & Hseg & H).
  apply res_bind_ok in H as (floor & Hcov & H).
  destruct (floor =? u64_max) eqn:Ef; [done|]. injection H as <-.
  exists paths, anc, byID, keep0, live, frontier, floor.
  apply orb_false_iff in Eg as [Eg _]. apply orb_false_iff in Eg as [Eg E6].
  apply orb_false_iff in Eg as [Eg _]. apply orb_false_iff in Eg as [Eg E4].
  apply orb_false_iff in Eg as [Eg _]. apply orb_false_iff in Eg as [_ E2].
  split; cbn; try done.
  - apply Z.ltb_ge in E2. lia.
  - intros Hnil. by rewrite Hnil in E6.
  - by apply collect_paths_spec.
  - by apply collect_backups_spec.
  - by apply check_parents_spec.
  - by apply Z.eqb_neq in Ef.
Qed.

(** ** Which backups a decision keeps *)
Definition kept (d : Decision) (b : Backup) : Prop := is_Some (d_Keep d !! b_ID b).

Lemma kept_by_backup in_ cutoff minimum path b : kept_by in_ cutoff minimum path b ->
  b ∈ in_Backups in_ /\ reachable b path = true.
Proof.
  intros (pre & post & E & _). apply candidates_elem. rewrite E. set_solver.
Qed.

Section Kept.
Context {o : order} {in_ : Inventory} {cutoff : Time} {minimum : Z} {hint : option FirstRequired}
  {d : Decision} {paths : gmap Z (list Timeline)} {anc : gset Z} {byID : gmap string Backup}
  {keep0 : gmap string string} {live : gmap (Z * Z) bool} {frontier : gmap Z Z} {floor : Z}.
Context (Ho : order_ok o)
  (R : plan_run o in_ cutoff minimum hint d paths anc byID keep0 live frontier floor).

Lemma byID_lookup b : b ∈ in_Backups in_ -> byID !! b_ID b = Some b.
Proof using R. intros Hb. by apply (pr_byID R). Qed.

Lemma range_keep_elem m i : i ∈ range_keep o m <-> is_Some (m !! i).
Proof using Ho. destruct Ho as (_ & Hk & _). rewrite Hk. apply keys_elem. Qed.
Lemma keep_settled : d_Keep d = foldl (keep_parent byID) keep0 (map_to_list keep0).*1.
Proof using Ho R.
  rewrite (pr_keep R). eapply parents_settled; [exact (pr_byID R)|exact (pr_parents R)|]. apply Ho, keep_parent_grows.
Qed.

(** Kept: chosen for some path, or the parent of a chosen differential. *)
Lemma keep_spec i : is_Some (d_Keep d !! i) <->
  exists path b, path ∈ in_Paths in_ /\ kept_by in_ cutoff minimum path b
    /\ (b_ID b = i \/ (b_Parent b = i /\ i <> "")).
Proof using Ho R.
  assert (0 <= minimum) as Hm by (pose proof (pr_min R); lia).
  destruct (keep_paths_spec in_ cutoff minimum Hm _ _ _ (pr_keep0 R)) as [Hk _].
  rewrite keep_settled, keep_parents_dom, Hk.
  setoid_rewrite keys_elem. setoid_rewrite Hk. split.
  - intros [(path & b & Hp & Hb & <-)|(j & (path & b & Hp & Hb & <-) & Hj & Hi)]; [eauto 10|].
    rewrite byID_lookup in Hj by (by apply kept_by_backup in Hb as []). cbn in Hj. eauto 10.
  - intros (path & b & Hp & Hb & [<-|[<- Hne]]); [eauto 10|]. right. exists (b_ID b).
    rewrite byID_lookup by (by apply kept_by_backup in Hb as []). eauto 10.
Qed.

Lemma kept_intro path b : path ∈ in_Paths in_ -> kept_by in_ cutoff minimum path b -> kept d b.
Proof using Ho R. intros Hp Hb. apply keep_spec. eauto 10. Qed.

Lemma parent_lookup b : b ∈ in_Backups in_ -> b_Parent b <> "" ->
  exists f, f ∈ in_Backups in_ /\ b_ID f = b_Parent b /\ b_Parent f = "" /\ byID !! b_Parent b = Some f
    /\ b_Timeline f = b_Timeline b /\ b_Completed f <= b_Completed b /\ b_End f <= b_Start b.
Proof using R.
  intros Hb Hne. pose proof (pr_parents R) as Hp.
  rewrite Forall_forall in Hp. destruct (Hp b Hb) as [?|(f & Hf & ?)]; [done|].
  exists f. pose proof Hf as Hf'. apply (pr_byID R) in Hf' as [? ?]. tauto.
Qed.

Lemma kept_parent b f : b ∈ in_Backups in_ -> kept d b -> b_Parent b <> "" -> b_ID f = b_Parent b -> kept d f.
Proof using Ho R.
  intros Hb Hk Hne Hf. unfold kept in *. rewrite Hf. apply keep_spec in Hk as (path & c & Hp & Hc & H).
  apply kept_by_backup in Hc as Hc'. destruct Hc' as [Hc' _].
  apply keep_spec. exists path, c. split; [done|]. split; [done|]. right.
  destruct H as [H|[H _]].
  - assert (c = b) as ->; [|done]. pose proof (byID_lookup c Hc'). pose proof (byID_lookup b Hb). congruence.
  - (* [b] would be the parent of [c], so a full *)
    exfalso. destruct (decide (b_Parent c = "")) as [E|E].
    + assert (b_ID b = "") as Hz by congruence.
      pose proof (pr_byID R) as (_ & Hok & _).
      rewrite Forall_forall in Hok. by destruct (Hok b Hb) as [? _].
    + destruct (parent_lookup c Hc' E) as (g & Hg & Hg1 & Hg2 & Hg3 & _).
      assert (byID !! b_ID b = Some b) as Hbb by (by apply byID_lookup). rewrite <- H, Hg3 in Hbb.
      injection Hbb as ->. done.
Qed.

Lemma kept_id i : is_Some (d_Keep d !! i) -> exists b, b ∈ in_Backups in_ /\ b_ID b = i.
Proof using Ho R.
  intros (path & b & Hp & Hb & H)%keep_spec. apply kept_by_backup in Hb as [Hb _].
  destruct H as [<-|[<- Hne]]; [eauto|]. destruct (parent_lookup b Hb Hne) as (f & ? & ? & _). eauto.
Qed.

Lemma keep_nonempty : nonempty_values (d_Keep d).
Proof using R.
  rewrite (pr_keep R). apply keep_parents_nonempty.
  pose proof (keep_paths_nonempty in_ cutoff minimum (in_Paths in_)) as H.
  by rewrite (pr_keep0 R) in H.
Qed.

Lemma expire_elem i : i ∈ d_Expire d <-> (exists b, b ∈ in_Backups in_ /\ b_ID b = i) /\ d_Keep d !! i = None.
Proof using R.
  rewrite (pr_expire R). unfold expired.
  rewrite elem_of_sort_slice, list_elem_of_In, filter_In, <- list_elem_of_In, list_elem_of_fmap.
  pose proof keep_nonempty as Hne. destruct (d_Keep d !! i) as [r|] eqn:Ei; cbn.
  - apply Hne in Ei. rewrite bool_decide_eq_true. naive_solver.
  - naive_solver.
Qed.
End Kept.

(** ** Properties of a decision *)

(** [b] is the backup that a restore along [path] to the instant [t] starts from:
    the newest reachable one that completed before [t]. *)
Definition restore_choice (in_ : Inventory) (path : list Timeline) (before : Time -> bool) (b : Backup) : Prop :=
  b ∈ in_Backups in_ /\ reachable b path = true /\ before (b_Completed b) = true
  /\ forall x, x ∈ in_Backups in_ -> reachable x path = true -> before (b_Completed x) = true ->
       newer x b = false.

Lemma candidate_position in_ path b :
  b ∈ in_Backups in_ -> reachable b path = true ->
  exists pre post, candidates in_ path = pre ++ b :: post.
Proof. intros Hb Hr. apply list_elem_of_split. by apply candidates_elem. Qed.

Lemma candidates_nodup in_ path : NoDup (b_ID <$> in_Backups in_) -> NoDup (b_ID <$> candidates in_ path).
Proof.
  intros H. unfold candidates. rewrite sort_slice_perm. revert H.
  generalize (in_Backups in_). intros l. induction l as [|b l IH]; cbn; [done|].
  intros [Hb Hl]%NoDup_cons. destruct (reachable b path); cbn; [|auto].
  apply NoDup_cons. split; [|auto]. intros (x & Ex & Hx)%list_elem_of_fmap. apply Hb.
  apply list_elem_of_fmap. exists x. split; [done|].
  apply list_elem_of_In. apply list_elem_of_In, filter_In in Hx. apply Hx.
Qed.

(** Backups before [b] in the candidate order are strictly newer. *)
Lemma candidates_newer in_ path pre b post x :
  NoDup (b_ID <$> in_Backups in_) -> candidates in_ path = pre ++ b :: post -> x ∈ pre -> newer x b = true.
Proof.
  intros Hn E Hx. pose proof (candidates_nodup in_ path Hn) as Hc. rewrite E, fmap_app, fmap_cons in Hc.
  apply NoDup_app in Hc as (_ & Hc & _). destruct (candidates_split _ _ _ _ _ E) as [Hs _].
  destruct (newer x b) eqn:En; [done|]. exfalso.
  apply (Hc (b_ID x)); [apply list_elem_of_fmap; eauto|]. rewrite (newer_total x b En (Hs x Hx)). apply list_elem_of_here.
Qed.

Lemma restore_choice_kept_by in_ cutoff minimum path before b :
  NoDup (b_ID <$> in_Backups in_) ->
  (forall c, c <= cutoff -> before c = true) -> restore_choice in_ path before b ->
  kept_by in_ cutoff minimum path b.
Proof.
  intros Hn Hcut (Hb & Hr & Ht & Hnew). destruct (candidate_position _ _ _ Hb Hr) as (pre & post & E).
  exists pre, post. split; [done|]. left. destruct (Z.le_gt_cases cutoff (b_Completed b)) as [|Hlt]; [by left|].
  right. left. split; [lia|]. intros (x & Hx & Hc).
  assert (newer x b = true) as Hxb by (by eapply candidates_newer).
  assert (x ∈ candidates in_ path) as [Hx1 Hx2]%candidates_elem by (rewrite E; set_solver).
  rewrite (Hnew x Hx1 Hx2) in Hxb; [done|]. by apply Hcut.
Qed.

(** C14: the recovery window survives retention.  On every known timeline path and
    for every instant [t] after the cutoff, the backup a restore to [t] would
    start from (the newest reachable one completed strictly before [t]) is
    kept, and so is the full parent it needs; for [t] at or after the cutoff the same
    holds with "completed by [t]".  Retention therefore never changes the backup
    chosen for a time inside the window. *)
Theorem plan_keeps_recovery_window o in_ cutoff minimum hint d path t before b :
  order_ok o -> Plan o in_ cutoff minimum hint = Ok d -> path ∈ in_Paths in_ ->
  (before = (fun c => c <? t) /\ cutoff < t \/ before = (fun c => c <=? t) /\ cutoff <= t) ->
  restore_choice in_ path before b ->
  kept d b /\ (b_Parent b <> "" ->
    exists f, f ∈ in_Backups in_ /\ b_ID f = b_Parent b /\ b_Parent f = "" /\ kept d f).
Proof.
  intros Ho (paths & anc & byID & keep0 & live & frontier & floor & R)%Plan_run Hp Hbef Hc.
  assert (kept d b) as Hk.
  { eapply (kept_intro Ho R); [done|]. eapply restore_choice_kept_by; [|idtac|exact Hc].
    - apply (pr_byID R).
    - intros c. destruct Hbef as [[-> ?]|[-> ?]]; intros; [apply Z.ltb_lt|apply Z.leb_le]; lia. }
  split; [done|]. intros Hne. destruct Hc as (Hb & _).
  destruct (parent_lookup R b Hb Hne) as (f & Hf & Hid & Hfull & _). exists f.
  split_and!; auto. exact (kept_parent Ho R b f Hb Hk Hne Hid).
Qed.

(** Every backup is either kept or expired and never both, the expiry list
    has no duplicates, and both name only backups of the inventory. *)
Lemma plan_partitions o in_ cutoff minimum hint d :
  order_ok o -> Plan o in_ cutoff minimum hint = Ok d ->
  NoDup (d_Expire d)
  /\ (forall b, b ∈ in_Backups in_ -> kept d b <-> b_ID b ∉ d_Expire d)
  /\ (forall i, is_Some (d_Keep d !! i) \/ i ∈ d_Expire d <-> exists b, b ∈ in_Backups in_ /\ b_ID b = i).
Proof.
  intros Ho (paths & anc & byID & keep0 & live & frontier & floor & R)%Plan_run. split_and!.
  - rewrite (pr_expire R). unfold expired. rewrite sort_slice_perm.
    apply NoDup_ListNoDup, List.NoDup_filter, NoDup_ListNoDup. apply (pr_byID R).
  - intros b Hb. rewrite (expire_elem R). unfold kept. destruct (d_Keep d !! b_ID b); split.
    + intros _ [_ ?]. done.
    + eauto.
    + by intros [].
    + intros H. exfalso. eauto.
  - intros i. rewrite (expire_elem R). split.
    + intros [H|[H _]]; [exact (kept_id Ho R i H)|exact H].
    + intros H. destruct (d_Keep d !! i); eauto.
Qed.

(** Retention keeps restore chains whole: the parent of a kept differential is
    in the inventory, is a full of the same timeline that ended before the differential
    started, and is kept. *)
Theorem plan_parent_closed o in_ cutoff minimum hint d b :
  order_ok o -> Plan o in_ cutoff minimum hint = Ok d ->
  b ∈ in_Backups in_ -> kept d b -> b_Parent b <> "" ->
  exists f, f ∈ in_Backups in_ /\ b_ID f = b_Parent b /\ b_Parent f = "" /\ kept d f
    /\ b_Timeline f = b_Timeline b /\ b_End f <= b_Start b.
Proof.
  intros Ho (paths & anc & byID & keep0 & live & frontier & floor & R)%Plan_run Hb Hk Hne.
  destruct (parent_lookup R b Hb Hne) as (f & Hf & Hid & Hfull & _ & Ht & _ & He). exists f.
  split_and!; auto. exact (kept_parent Ho R b f Hb Hk Hne Hid).
Qed.

Lemma fulls_before in_ path pre b post :
  NoDup (b_ID <$> in_Backups in_) -> candidates in_ path = pre ++ b :: post ->
  fulls pre <= Z.of_nat (length (List.filter
    (fun x => (b_Parent x ==? "") && reachable x path && newer x b) (in_Backups in_))).
Proof.
  intros Hn E.
  assert (List.filter (fun x => (b_Parent x ==? "") && reachable x path && newer x b) (in_Backups in_) ≡ₚ
    List.filter (fun x => (b_Parent x ==? "") && newer x b) (candidates in_ path)) as ->.
  { unfold candidates. rewrite (filter_perm _ _ _ (sort_slice_perm newer _)).
    generalize (in_Backups in_). intros l. induction l as [|x l IH]; [done|].
    cbn [List.filter]. destruct (reachable x path); cbn [List.filter];
      rewrite ?andb_true_r, ?andb_false_r; cbn [andb]; [|done].
    destruct (_ && _); [by constructor|done]. }
  rewrite E, List.filter_app, length_app. unfold fulls.
  enough (List.filter (fun x => b_Parent x ==? "") pre
    = List.filter (fun x => (b_Parent x ==? "") && newer x b) pre) as -> by lia.
  apply List.filter_ext_in. intros x Hx%list_elem_of_In.
  rewrite (candidates_newer _ _ _ _ _ _ Hn E Hx). by rewrite andb_true_r.
Qed.

(** On every path the [minimum] newest reachable fulls are kept: a full with
    fewer than [minimum] newer reachable fulls on a path is never expired. *)
Theorem plan_keeps_minimum_fulls o in_ cutoff minimum hint d path b :
  order_ok o -> Plan o in_ cutoff minimum hint = Ok d -> path ∈ in_Paths in_ ->
  b ∈ in_Backups in_ -> b_Parent b = "" -> reachable b path = true ->
  Z.of_nat (length (List.filter (fun x => (b_Parent x ==? "") && reachable x path && newer x b)
    (in_Backups in_))) < minimum ->
  kept d b.
Proof.
  intros Ho (paths & anc & byID & keep0 & live & frontier & floor & R)%Plan_run Hp Hb Hfull Hr Hlt.
  destruct (candidate_position _ _ _ Hb Hr) as (pre & post & E).
  eapply (kept_intro Ho R); [done|]. exists pre, post. split; [done|]. left. right. right.
  split; [done|]. pose proof (fulls_before in_ path pre b post ltac:(apply (pr_byID R)) E). lia.
Qed.

(** A path that has any reachable backup keeps its newest one, so the state
    of every branch stays restorable; [Shortened] reports exactly that some path has
    backups of which none completed by the cutoff, and then the oldest is kept. *)
Theorem plan_latest_and_shortened o in_ cutoff minimum hint d :
  order_ok o -> Plan o in_ cutoff minimum hint = Ok d ->
  (forall path b, path ∈ in_Paths in_ -> restore_choice in_ path (fun _ => true) b -> kept d b)
  /\ (d_Shortened d = true <-> exists path, path ∈ in_Paths in_
        /\ (exists b, b ∈ in_Backups in_ /\ reachable b path = true)
        /\ forall b, b ∈ in_Backups in_ -> reachable b path = true -> cutoff < b_Completed b)
  /\ (forall path b, path ∈ in_Paths in_ -> b ∈ in_Backups in_ -> reachable b path = true ->
        (forall x, x ∈ in_Backups in_ -> reachable x path = true -> cutoff < b_Completed x /\ newer b x = false) ->
        kept d b).
Proof.
  intros Ho (paths & anc & byID & keep0 & live & frontier & floor & R)%Plan_run. split_and!.
  - intros path b Hp Hc. eapply (kept_intro Ho R); [done|].
    destruct Hc as (Hb & Hr & _ & Hnew). destruct (candidate_position _ _ _ Hb Hr) as (pre & post & E).
    exists pre, post. split; [done|]. right. left. destruct pre as [|x pre]; [done|]. exfalso.
    assert (x ∈ candidates in_ path) as [Hx1 Hx2]%candidates_elem by (rewrite E; set_solver).
    pose proof (candidates_newer in_ path (x :: pre) b post x ltac:(apply (pr_byID R)) E ltac:(left)) as H.
    by rewrite (Hnew x Hx1 Hx2 eq_refl) in H.
  - assert (0 <= minimum) as Hm by (pose proof (pr_min R); lia).
    destruct (keep_paths_spec in_ cutoff minimum Hm _ _ _ (pr_keep0 R)) as [_ ->].
    apply exist_proper. intros path. apply and_iff_compat_l. unfold anchored.
    setoid_rewrite candidates_elem. split.
    + intros [Hne Hna]. split.
      * destruct (candidates in_ path) as [|b l] eqn:E; [done|]. exists b. apply candidates_elem. rewrite E. left.
      * intros b Hb Hr. apply Z.nle_gt. eauto 10.
    + intros [(b & Hb) Hall]. split.
      * intros E. apply candidates_elem in Hb. rewrite E in Hb. by apply elem_of_nil in Hb.
      * intros (x & [Hx1 Hx2] & Hx). specialize (Hall x Hx1 Hx2). lia.
  - intros path b Hp Hb Hr Hall. eapply (kept_intro Ho R); [done|].
    destruct (candidate_position _ _ _ Hb Hr) as (pre & post & E). exists pre, post. split; [done|].
    left. left. specialize (Hall b Hb Hr). lia.
Qed.

Lemma expire_less_asym byID a b : expire_less byID a b = true -> expire_less byID b a = false.
Proof.
  unfold expire_less. cbv zeta.
  destruct (from_option b_Parent "" (byID !! a) ==? ""), (from_option b_Parent "" (byID !! b) ==? "");
    cbn; try done; apply ltb_antisym.
Qed.
Lemma expire_less_ge_trans byID a b c :
  expire_less byID b a = false -> expire_less byID c b = false -> expire_less byID c a = false.
Proof.
  unfold expire_less. cbv zeta.
  destruct (from_option b_Parent "" (byID !! a) ==? ""), (from_option b_Parent "" (byID !! b) ==? ""),
    (from_option b_Parent "" (byID !! c) ==? ""); cbn; try done; apply ltb_ge_trans.
Qed.

(** The expiry order respects dependencies: whenever a full is reached,
    every differential that names it as parent stands earlier in the list, so deleting any
    prefix of the list never leaves a differential without its parent. *)
Theorem plan_expire_order o in_ cutoff minimum hint d pre f post b :
  order_ok o -> Plan o in_ cutoff minimum hint = Ok d ->
  d_Expire d = pre ++ f :: post -> b ∈ in_Backups in_ -> b_Parent b = f -> b_ID b ∈ pre.
Proof.
  intros Ho (paths & anc & byID & keep0 & live & frontier & floor & R)%Plan_run E Hb Hpar.
  assert (f ∈ d_Expire d) as Hf by (rewrite E; set_solver).
  apply (expire_elem R) in Hf as [(g & Hg & Hgid) Hnk].
  pose proof (pr_byID R) as (_ & Hok & _). rewrite Forall_forall in Hok.
  assert (b_Parent b <> "") as Hne by (destruct (Hok g Hg); congruence).
  destruct (parent_lookup R b Hb Hne) as (f' & Hf' & Hid & Hfull & Hlk & _).
  assert (d_Keep d !! b_ID b = None) as Hbn.
  { destruct (d_Keep d !! b_ID b) eqn:Ek; [|done].
    pose proof (kept_parent Ho R b f' Hb ltac:(by eexists) Hne Hid) as [r Hr]. congruence. }
  assert (b_ID b ∈ d_Expire d) as Hbe by (apply (expire_elem R); eauto).
  rewrite E in Hbe. apply elem_of_app in Hbe as [?|Hbe]; [done|]. exfalso.
  assert (StronglySorted (not_less (expire_less byID)) (d_Expire d)) as Hs.
  { rewrite (pr_expire R). apply sort_slice_sorted; [apply expire_less_asym|apply expire_less_ge_trans]. }
  rewrite E in Hs. apply StronglySorted_app in Hs as (_ & _ & Hs).
  apply StronglySorted_cons in Hs as [Hs _]. rewrite Forall_forall in Hs.
  assert (byID !! f = Some f') as Hlf by congruence.
  apply elem_of_cons in Hbe as [Hbe|Hbe].
  - rewrite (byID_lookup R b Hb) in Hlk || idtac. pose proof (byID_lookup R b Hb) as Hbb. congruence.
  - specialize (Hs _ Hbe). unfold not_less, expire_less in Hs. cbv zeta in Hs.
    rewrite (byID_lookup R b Hb), Hlf in Hs. cbn in Hs. rewrite Hfull in Hs.
    rewrite (bool_decide_eq_false_2 _ Hne) in Hs. done.
Qed.

(** ** Shape of a path *)
Definition before_on_path (a b : Timeline) : Prop := t_ID a < t_ID b /\ t_Fork a <= t_Fork b.
#[export] Instance before_on_path_trans : Transitive before_on_path.
Proof. intros a b c [] []. split; lia. Qed.

Lemma path_steps_sorted prev path : path_steps prev path = true ->
  Forall (fun t => t_ID t <> 0) path /\ StronglySorted before_on_path path
  /\ (forall p t, prev = Some p -> t ∈ path -> before_on_path p t).
Proof.
  revert prev. induction path as [|t path IH]; intros prev; cbn.
  - intros _. split_and!; [done|constructor|]. intros ? ? _ H. by apply elem_of_nil in H.
  - intros H. apply andb_true_iff in H as [H1 H2]. destruct (IH _ H2) as (Hz & Hs & Hp).
    apply negb_true_iff, orb_false_iff in H1 as [H1 H3]. split_and!.
    + constructor; [by apply Z.eqb_neq|done].
    + constructor; [done|]. apply Forall_forall. intros x Hx. by apply (Hp t).
    + intros p x -> Hx. apply orb_false_iff in H3 as [H3 H4]. apply Z.leb_gt in H3. apply Z.ltb_ge in H4.
      apply elem_of_cons in Hx as [->|Hx]; [by split|].
      transitivity t; [by split|]. by apply (Hp t).
Qed.

Lemma path_shape_facts path : path_shape path = true ->
  exists l t, path = l ++ [t] /\ last_id path = t_ID t /\ last_id path <> 0 /\ ancestor_ids path = t_ID <$> l
    /\ StronglySorted before_on_path path /\ (forall i, i ∈ ancestor_ids path -> i < last_id path).
Proof.
  destruct path as [|x l0]; [done|]. intros H. cbn [path_shape] in H.
  apply andb_true_iff in H as [_ H]. destruct (path_steps_sorted _ _ H) as (Hz & Hs & _).
  clear H. destruct (exists_last (l := x :: l0)) as (l & t & E); [done|]. rewrite E in *. clear E. exists l, t.
  assert (last_id (l ++ [t]) = t_ID t) as El by (unfold last_id; by rewrite last_snoc).
  assert (ancestor_ids (l ++ [t]) = t_ID <$> l) as Ea by (unfold ancestor_ids; by rewrite removelast_last).
  rewrite El, Ea. split_and!; auto.
  - rewrite Forall_forall in Hz. apply Hz. set_solver.
  - intros i (y & -> & Hy)%list_elem_of_fmap. apply StronglySorted_app in Hs as (Hs & _ & _).
    apply (Hs y t Hy), list_elem_of_here.
Qed.

Section FindCurrent.
Context (paths : gmap Z (list Timeline)) (anc : gset Z).

Lemma find_current_spec l cur :
  Forall (fun e => e.1 <> 0) l -> forM l 0 (find_current paths anc) = Ok cur ->
  (forall e, e ∈ l -> (e.1 ∈ anc) \/ e.1 = cur)
  /\ (forall e, e ∈ l -> prefixes_agree paths e.2 = true)
  /\ (cur <> 0 -> (cur ∉ anc) /\ exists p, (cur, p) ∈ l).
Proof.
  intros Hl. rewrite Forall_forall in Hl.
  apply (forM_inv (fun pre c => (forall e, e ∈ pre -> (e.1 ∈ anc) \/ e.1 = c)
    /\ (forall e, e ∈ pre -> prefixes_agree paths e.2 = true)
    /\ (c <> 0 -> (c ∉ anc) /\ exists p, (c, p) ∈ pre))).
  - split_and!; [| |done]; intros e H; by apply elem_of_nil in H.
  - intros pre [id p] post c c' E (H1 & H2 & H3) Hf. unfold find_current in Hf.
    setoid_rewrite elem_of_app. setoid_rewrite list_elem_of_singleton.
    destruct (prefixes_agree paths p) eqn:Ep; [|done]. cbn in Hf.
    destruct (bool_decide_reflect (id ∈ anc)) as [Ha|Ha].
    + injection Hf as <-. split_and!; [naive_solver|naive_solver|].
      intros Hc. destruct (H3 Hc) as [? [q ?]]. eauto.
    + destruct (Z.eqb_spec c 0) as [->|]; [|done]. injection Hf as <-. split_and!; [|naive_solver|eauto].
      intros e [He| ->]; [|by right]. destruct (H1 e He) as [?|Hz]; [by left|]. exfalso.
      apply (Hl e); [rewrite E; set_solver|done].
Qed.
End FindCurrent.

Lemma range_paths_elem o l paths anc i p : order_ok o -> all_paths_ok l paths anc ->
  (i, p) ∈ range_paths o paths <-> p ∈ l /\ last_id p = i.
Proof. intros [Ho _] (Hp & _). rewrite Ho, elem_of_map_to_list. apply Hp. Qed.

Lemma exists_max_path (l : list (list Timeline)) : l <> [] ->
  exists p, p ∈ l /\ forall q, q ∈ l -> last_id q <= last_id p.
Proof.
  induction l as [|x l IH]; [done|]. intros _. destruct l as [|y l].
  - exists x. split; [left|]. intros q Hq%list_elem_of_singleton. by subst.
  - destruct (IH ltac:(done)) as (p & Hp & Hm). destruct (Z.le_gt_cases (last_id x) (last_id p)).
    + exists p. split; [by right|]. intros q [->|Hq]%elem_of_cons; [done|auto].
    + exists x. split; [left|]. intros q [->|Hq]%elem_of_cons; [done|]. specialize (Hm q Hq). lia.
Qed.

(** [Current] is the unique leaf of the timeline forest: it names a known
    path, no path passes through it, and every other path's timeline is an ancestor. *)
Theorem plan_current_unique_leaf o in_ cutoff minimum hint d :
  order_ok o -> Plan o in_ cutoff minimum hint = Ok d ->
  (exists p, p ∈ in_Paths in_ /\ last_id p = d_Current d)
  /\ (forall p, p ∈ in_Paths in_ -> d_Current d ∉ ancestor_ids p)
  /\ (forall p, p ∈ in_Paths in_ -> last_id p <> d_Current d -> exists q, q ∈ in_Paths in_ /\ last_id p ∈ ancestor_ids q).
Proof.
  intros Ho (paths & anc & byID & keep0 & live & frontier & floor & R)%Plan_run.
  pose proof (pr_paths R) as Hok. destruct Hok as (Hp & Hs & _ & Ha).
  assert (forall p, p ∈ in_Paths in_ -> path_shape p = true) as Hsh by (by rewrite Forall_forall in Hs).
  pose proof (fun i p => range_paths_elem o _ _ _ i p Ho (pr_paths R)) as Hr.
  destruct (find_current_spec paths anc (range_paths o paths) (d_Current d)) as (H1 & _ & H3).
  { apply Forall_forall. intros [i p] [Hin <-]%Hr. by destruct (path_shape_facts p (Hsh p Hin)) as (? & ? & ? & ? & ? & _). }
  { apply (pr_current R). }
  assert (d_Current d <> 0) as Hnz.
  { destruct (exists_max_path (in_Paths in_)) as (p & Hin & Hmax); [apply (pr_nonempty R)|].
    destruct (path_shape_facts p (Hsh p Hin)) as (_ & _ & _ & _ & Hz & _).
    destruct (H1 (last_id p, p)) as [Hanc|Hc]; [by apply Hr| |by rewrite <- Hc].
    apply Ha in Hanc as (q & Hq & Hi). destruct (path_shape_facts q (Hsh q Hq)) as (_ & _ & _ & _ & _ & _ & _ & Hlt).
    specialize (Hlt _ Hi). specialize (Hmax q Hq). cbn in Hlt. lia. }
  destruct (H3 Hnz) as (Hna & p & Hin). split_and!.
  - exists p. by apply Hr in Hin.
  - intros q Hq Hi. apply Hna, Ha. eauto.
  - intros q Hq Hne. destruct (H1 (last_id q, q)) as [Hanc|Hc]; [by apply Hr| |done]. by apply Ha.
Qed.

(** ** Archived segments *)
(** [frontier[t]]: one past the last archived segment of [tl]. *)
Definition frontier_of (in_ : Inventory) (tl : Z) : Z :=
  foldr (fun s m => if s_Timeline s =? tl then Z.max m (s_Start s + in_SegmentBytes in_) else m)
    0 (in_Segments in_).

Definition segments_ok (step : Z) (l : list Segment) (live : gmap (Z * Z) bool) (frontier : gmap Z Z) : Prop :=
  (forall tl s v, live !! (tl, s) = Some v <-> mkSegment tl s v ∈ l)
  /\ (forall tl, default 0 (frontier !! tl) =
        foldr (fun s m => if s_Timeline s =? tl then Z.max m (s_Start s + step) else m) 0 l)
  /\ Forall (fun s => s_Start s mod step = 0 /\ s_Start s + step <= u64_max) l.

Lemma frontier_snoc step tl l s : 0 <= s_Start s + step ->
  foldr (fun s m => if s_Timeline s =? tl then Z.max m (s_Start s + step) else m) 0 (l ++ [s])
  = if s_Timeline s =? tl
    then Z.max (foldr (fun s m => if s_Timeline s =? tl then Z.max m (s_Start s + step) else m) 0 l) (s_Start s + step)
    else foldr (fun s m => if s_Timeline s =? tl then Z.max m (s_Start s + step) else m) 0 l.
Proof.
  intros Hs. induction l as [|x l IH]; cbn.
  - destruct (s_Timeline s =? tl); done.
  - rewrite IH. destruct (s_Timeline x =? tl), (s_Timeline s =? tl); lia.
Qed.

Lemma collect_segments_spec paths step l live frontier :
  1 <= step -> Forall (fun s => is_u64 (s_Start s)) l ->
  forM l (∅, ∅) (collect_segment paths step) = Ok (live, frontier) -> segments_ok step l live frontier.
Proof.
  intros Hstep Hu H. rewrite Forall_forall in Hu. change (segments_ok step l (live, frontier).1 (live, frontier).2). revert H.
  apply (forM_inv (fun pre acc => segments_ok step pre acc.1 acc.2)); unfold segments_ok; cbn.
  - split_and!; [| |done]; intros; rewrite lookup_empty; [|done].
    split; [done|]. intros H. by apply elem_of_nil in H.
  - intros pre [tl st v] post [m f] [m' f'] El (Hm & Hf & Ha) Hc. cbn in *.
    assert (is_u64 st) as [Hu0 Hu1] by (apply (Hu (mkSegment tl st v)); rewrite El; set_solver).
    destruct (_ || _) eqn:Eg in Hc; [done|].
    apply orb_false_iff in Eg as [Eg E3]. apply orb_false_iff in Eg as [_ E2].
    apply negb_false_iff, Z.eqb_eq in E2. apply Z.ltb_ge in E3. unfold u64_max in *.
    destruct (m !! (tl, st)) eqn:El'; [done|]. injection Hc as <- <-. split_and!.
    + intros tl' s' v'. rewrite elem_of_app, list_elem_of_singleton, <- Hm.
      destruct (decide ((tl, st) = (tl', s'))) as [[= -> ->]|Hne].
      * rewrite lookup_insert_eq, El'. naive_solver.
      * rewrite lookup_insert_ne by done. naive_solver.
    + intros tl'. rewrite frontier_snoc by (cbn; lia). cbn. rewrite <- Hf.
      unfold wrap64. rewrite Z.mod_small by lia.
      destruct (Z.eqb_spec tl tl') as [->|Hne]; [by rewrite lookup_insert_eq|].
      by rewrite lookup_insert_ne.
    + apply Forall_app. split; [done|]. constructor; [|done]. cbn. lia.
Qed.

Section Walk.
Context (live : gmap (Z * Z) bool) (tl step : Z) (Hstep : 1 <= step).
Context (Hlive : forall s, live !! (tl, s) = Some true -> s + step <= u64_max).

(** The loop ends within the fuel and decides whether every segment start it visits is live. *)
Lemma check_live_spec fuel start end_ :
  0 <= start -> end_ - start < (Z.of_nat fuel - 1) * step + 1 -> (0 < fuel)%nat ->
  exists b, check_live fuel live tl step start end_ = Some b
    /\ (b = true <-> forall k, 0 <= k -> start + k * step < end_ -> live !! (tl, start + k * step) = Some true).
Proof using Hstep Hlive.
  revert start. induction fuel as [|f IH]; intros start H0 Hf Hpos; [lia|]. cbn [check_live].
  destruct (Z.leb_spec end_ start).
  { exists true. split; [done|]. split; [|done]. intros _ k Hk Hlt. nia. }
  destruct (live !! (tl, start)) as [[]|] eqn:El; cbn.
  - pose proof (Hlive _ El) as Hm. unfold u64_max in Hm. unfold wrap64. rewrite Z.mod_small by lia.
    assert (0 < f)%nat as Hf0 by (destruct f; [nia|lia]).
    destruct (IH (start + step)) as (b & Eb & Hb); [lia|nia|done|].
    exists b. split; [done|]. rewrite Hb. split.
    + intros Hall k Hk Hlt. destruct (decide (k = 0)) as [->|].
      * by replace (start + 0 * step) with start by lia.
      * replace (start + k * step) with (start + step + (k - 1) * step) by ring. apply Hall; [lia|].
        replace (start + step + (k - 1) * step) with (start + k * step) by ring. lia.
    + intros Hall k Hk Hlt. replace (start + step + k * step) with (start + (k + 1) * step) in * by ring.
      apply Hall; lia.
  - exists false. split; [done|]. split; [done|]. intros Hall. specialize (Hall 0).
    replace (start + 0 * step) with start in Hall by lia. rewrite El in Hall. by discriminate Hall.
  - exists false. split; [done|]. split; [done|]. intros Hall. specialize (Hall 0).
    replace (start + 0 * step) with start in Hall by lia. rewrite El in Hall. by discriminate Hall.
Qed.

(** The segments that hold bytes of [[pos, end_)]. *)
Definition live_range (pos end_ : Z) : Prop :=
  pos < end_ -> forall s, s mod step = 0 -> pos < s + step -> s < end_ -> live !! (tl, s) = Some true.

Lemma check_live_range n pos end_ :
  0 <= pos -> (end_ - pos) / step <= n -> pos < end_ ->
  exists b, check_live (Z.to_nat n + 3) live tl step (pos / step * step) end_ = Some b
    /\ (b = true <-> live_range pos end_).
Proof using Hstep Hlive.
  intros H0 Hn Hlt.
  pose proof (Z.div_mod pos step ltac:(lia)) as Hd. pose proof (Z.mod_pos_bound pos step ltac:(lia)) as Hm.
  pose proof (Z.div_mod (end_ - pos) step ltac:(lia)) as Hd2.
  pose proof (Z.mod_pos_bound (end_ - pos) step ltac:(lia)) as Hm2.
  pose proof (Z.div_pos (end_ - pos) step ltac:(lia) ltac:(lia)) as Hq.
  pose proof (Z.div_pos pos step ltac:(lia) ltac:(lia)) as Hq0.
  destruct (check_live_spec (Z.to_nat n + 3) (pos / step * step) end_) as (b & Eb & Hb); [nia| |lia|].
  { rewrite Nat2Z.inj_add, Z2Nat.id by lia. nia. }
  exists b. split; [done|]. rewrite Hb. unfold live_range. split.
  - intros Hall _ s Hs H1 H2. apply Z.mod_divide in Hs as [k ->]; [|lia].
    replace (k * step) with (pos / step * step + (k - pos / step) * step) by ring. apply Hall; [|nia].
    enough (pos / step <= k) by lia. nia.
  - intros Hall k Hk H. apply Hall; [done| |nia|done].
    rewrite <- Z.mul_add_distr_r. apply Z.mod_mul. lia.
Qed.
End Walk.

(** ** WAL coverage of a kept backup *)
Fixpoint from_timeline (tl : Z) (path : list Timeline) : list Timeline :=
  match path with
  | [] => []
  | t :: rest => if t_ID t =? tl then path else from_timeline tl rest
  end.

(** The WAL intervals a restore needs after position [pos] along [path]: up to each
    fork, and on the last timeline up to the end of the archive. *)
Fixpoint wal_needed (frontier : Z -> Z) (pos : Z) (path : list Timeline) : list (Timeline * Z * Z) :=
  match path with
  | [] => []
  | t :: rest =>
      let end_ := match rest with n :: _ => t_Fork n | [] => Z.max pos (frontier (t_ID t)) end in
      (t, pos, end_) :: wal_needed frontier end_ rest
  end.

Lemma wal_needed_lo frontier pos h rest t lo hi :
  (t, lo, hi) ∈ wal_needed frontier pos (h :: rest) ->
  (t = h /\ lo = pos) \/ (t ∈ rest /\ lo = t_Fork t).
Proof.
  revert pos h. induction rest as [|n rest IH]; intros pos h Hin.
  - cbn in Hin. apply list_elem_of_singleton in Hin. left. by injection Hin as -> -> _.
  - apply elem_of_cons in Hin as [E|Hin]; [left; by injection E as -> -> _|]. right.
    apply IH in Hin as [[-> ->]|[? ->]]; split; set_solver.
Qed.

Lemma from_timeline_reachable b path : reachable b path = true ->
  exists h rest, from_timeline (b_Timeline b) path = h :: rest /\ t_ID h = b_Timeline b.
Proof.
  induction path as [|t path IH]; cbn; [done|].
  destruct (Z.eqb_spec (t_ID t) (b_Timeline b)); [eauto|auto].
Qed.

Lemma from_timeline_suffix tl path : exists pre, path = pre ++ from_timeline tl path.
Proof.
  induction path as [|t path [pre IH]]; cbn; [by exists []|].
  destruct (t_ID t =? tl); [by exists []|]. exists (t :: pre). cbn. by f_equal.
Qed.

(** The position below which the current timeline is not needed by [b]. *)
Definition floor_for (env : cover_env) (b : Backup) (t : Timeline) : Z :=
  (if b_Timeline b =? e_current env then Z.min (b_Start b) (b_Redo b) else t_Fork t)
  / e_step env * e_step env.

Definition covered_path (env : cover_env) (b : Backup) (path : list Timeline) (floor : Z) : Prop :=
  (forall t lo hi,
     (t, lo, hi) ∈ wal_needed (fun tl => default 0 (e_frontier env !! tl)) (b_End b) (from_timeline (b_Timeline b) path) ->
     lo <= hi /\ live_range (e_live env) (t_ID t) (e_step env) lo hi)
  /\ (forall t, t ∈ from_timeline (b_Timeline b) path -> t_ID t = e_current env -> floor <= floor_for env b t).

Lemma covered_path_mono env b path f f' : f' <= f -> covered_path env b path f -> covered_path env b path f'.
Proof. intros Hle [H1 H2]. split; [done|]. intros t Ht Hc. specialize (H2 t Ht Hc). lia. Qed.

Section Cover.
Context (env : cover_env) (b : Backup) (Hstep : 1 <= e_step env).
Context (Hlive : forall tl s, e_live env !! (tl, s) = Some true -> s + e_step env <= u64_max).

Lemma cover_path_start pos fl path :
  from_timeline (b_Timeline b) path <> [] ->
  cover_path env b (mkCover pos false fl) path
  = cover_path env b (mkCover pos true fl) (from_timeline (b_Timeline b) path).
Proof using.
  induction path as [|t path IH]; [done|]. cbn [from_timeline cover_path cv_started].
  destruct (Z.eqb_spec (t_ID t) (b_Timeline b)) as [E|E]; cbn [orb negb]; [|auto].
  intros _. cbn [cover_path cv_started]. by rewrite orb_true_l.
Qed.

Lemma cover_path_spec pos fl path st :
  0 <= pos -> Forall (fun t => 0 <= t_Fork t) path ->
  cover_path env b (mkCover pos true fl) path = Ok st ->
  cv_floor st <= fl
  /\ (forall t lo hi, (t, lo, hi) ∈ wal_needed (fun tl => default 0 (e_frontier env !! tl)) pos path ->
        lo <= hi /\ live_range (e_live env) (t_ID t) (e_step env) lo hi)
  /\ (forall t, t ∈ path -> t_ID t = e_current env -> cv_floor st <= floor_for env b t).
Proof using Hstep Hlive.
  revert pos fl. induction path as [|t rest IH]; intros pos fl Hpos Hf.
  { cbn. intros [= <-]. split_and!; [cbn; lia| |]; intros * H; by apply elem_of_nil in H. }
  inversion Hf as [|? ? Ht Hrest]; subst. cbn [cover_path cv_started cv_pos cv_floor orb negb].
  set (end_ := match rest with n :: _ => t_Fork n | [] => _ end).
  destruct (_ || _) eqn:Eg; [done|]. apply orb_false_iff in Eg as [E1 E2].
  apply Z.ltb_ge in E1. apply Z.ltb_ge in E2.
  assert (0 <= end_) as Hend by lia.
  assert (forall c, (if pos <? end_
    then check_live (Z.to_nat (e_nseg env) + 3) (e_live env) (t_ID t) (e_step env) (pos / e_step env * e_step env) end_
    else Some true) = Some c -> c = true -> live_range (e_live env) (t_ID t) (e_step env) pos end_) as Hc.
  { intros c Ec ->. destruct (Z.ltb_spec pos end_) as [Hlt|]; [|intros ?; lia].
    destruct (check_live_range (e_live env) (t_ID t) (e_step env) Hstep (Hlive (t_ID t)) (e_nseg env) pos end_)
      as (b' & Eb & Hb); [done..|]. rewrite Ec in Eb. injection Eb as <-. by apply Hb. }
  destruct (if pos <? end_ then _ else _) as [[]|] eqn:Ec; [|done..]. specialize (Hc _ eq_refl eq_refl).
  intros Hrun. apply IH in Hrun as (H1 & H2 & H3); [|done|done]. cbn [wal_needed]. fold end_. split_and!.
  - destruct (t_ID t =? e_current env); lia.
  - intros t' lo hi [[= -> -> ->]|H]%elem_of_cons; [done|eauto].
  - intros t' [->|H]%elem_of_cons Hcur; [|auto]. unfold floor_for.
    rewrite (proj2 (Z.eqb_eq _ _) Hcur) in H1. lia.
Qed.

Lemma cover_backup_spec paths byID fl fl' id :
  byID !! id = Some b -> 0 <= b_End b -> Forall (Forall (fun t => 0 <= t_Fork t)) paths ->
  cover_backup env paths byID fl id = Ok fl' ->
  fl' <= fl /\ forall path, path ∈ paths -> reachable b path = true -> covered_path env b path fl'.
Proof using Hstep Hlive.
  intros Hid He Hf. unfold cover_backup. rewrite Hid. rewrite Forall_forall in Hf.
  apply (forM_inv (fun pre f => f <= fl /\ forall path, path ∈ pre -> reachable b path = true -> covered_path env b path f)).
  { split; [lia|]. intros ? H. by apply elem_of_nil in H. }
  intros pre path post f f' E [Hle Hall]. destruct (reachable b path) eqn:Er; cbn [negb].
  - intros (st & Hst & Hf')%res_bind_ok. injection Hf' as <-.
    destruct (from_timeline_reachable b path Er) as (h & rest & Efrom & Hh).
    rewrite cover_path_start in Hst by (by rewrite Efrom).
    apply cover_path_spec in Hst as (H1 & H2 & H3); [|done|].
    + split; [lia|]. intros p [Hp| ->%list_elem_of_singleton]%elem_of_app Hr; [|by split].
      eapply covered_path_mono; [exact H1|auto].
    + assert (Forall (fun t => 0 <= t_Fork t) path) as Hpath by (apply Hf; rewrite E; set_solver).
      destruct (from_timeline_suffix (b_Timeline b) path) as [p Ep]. rewrite Ep in Hpath.
      by apply Forall_app in Hpath as [_ ?].
  - intros [= <-]. split; [done|]. intros p [Hp| ->%list_elem_of_singleton]%elem_of_app Hr; [auto|congruence].
Qed.
End Cover.

(** Every number of the inventory is in range for its Go type. *)
Definition inventory_u64 (in_ : Inventory) : Prop :=
  Forall (fun b => is_u64 (b_Start b) /\ is_u64 (b_Redo b) /\ is_u64 (b_End b)) (in_Backups in_)
  /\ Forall (Forall (fun t => is_u64 (t_Fork t))) (in_Paths in_)
  /\ Forall (fun s => is_u64 (s_Start s)) (in_Segments in_).

Lemma covers_spec env paths byID (l : list string) fl fl' :
  1 <= e_step env -> (forall tl s, e_live env !! (tl, s) = Some true -> s + e_step env <= u64_max) ->
  Forall (Forall (fun t => 0 <= t_Fork t)) paths ->
  (forall id b, byID !! id = Some b -> 0 <= b_End b) ->
  forM l fl (cover_backup env paths byID) = Ok fl' ->
  fl' <= fl /\ forall id b path, id ∈ l -> byID !! id = Some b -> path ∈ paths -> reachable b path = true ->
    covered_path env b path fl'.
Proof.
  intros Hs Hl Hf He.
  apply (forM_inv (fun pre f => f <= fl /\ forall id b path, id ∈ pre -> byID !! id = Some b -> path ∈ paths ->
    reachable b path = true -> covered_path env b path f)).
  { split; [lia|]. intros ? ? ? H. by apply elem_of_nil in H. }
  intros pre id post f f' _ [Hle Hall] Hc. destruct (byID !! id) as [b|] eqn:Eb.
  - destruct (cover_backup_spec env b Hs Hl paths byID f f' id Eb (He _ _ Eb) Hf Hc) as [Hle' Hnew].
    split; [lia|]. intros j c path [Hj| ->%list_elem_of_singleton]%elem_of_app Hlk Hp Hr.
    + eapply covered_path_mono; [exact Hle'|eauto].
    + rewrite Eb in Hlk. injection Hlk as <-. auto.
  - unfold cover_backup in Hc. rewrite Eb in Hc. injection Hc as <-. split; [done|].
    intros j c path [Hj| ->%list_elem_of_singleton]%elem_of_app Hlk; [eauto|congruence].
Qed.

Lemma bad_segment_bytes_false step : bad_segment_bytes step = false -> 1 <= step.
Proof. intros H%segment_bytes_facts. lia. Qed.

Section CoverPlan.
Context {o : order} {in_ : Inventory} {cutoff : Time} {minimum : Z} {hint : option FirstRequired}
  {d : Decision} {paths : gmap Z (list Timeline)} {anc : gset Z} {byID : gmap string Backup}
  {keep0 : gmap string string} {live : gmap (Z * Z) bool} {frontier : gmap Z Z} {floor : Z}.
Context (Ho : order_ok o) (Hu : inventory_u64 in_)
  (R : plan_run o in_ cutoff minimum hint d paths anc byID keep0 live frontier floor).

Lemma plan_segments : segments_ok (in_SegmentBytes in_) (in_Segments in_) live frontier.
Proof using Hu R.
  eapply collect_segments_spec; [exact (bad_segment_bytes_false _ (pr_step R))|apply Hu|apply (pr_segments R)].
Qed.

Lemma plan_covered b path : b ∈ in_Backups in_ -> kept d b -> path ∈ in_Paths in_ -> reachable b path = true ->
  covered_path (mkEnv (in_SegmentBytes in_) (Z.of_nat (length (in_Segments in_))) live frontier (d_Current d)) b path floor.
Proof using Ho Hu R.
  intros Hb Hk Hp Hr. pose proof plan_segments as (Hlv & _ & Hal). rewrite Forall_forall in Hal.
  eapply covers_spec; [| | | |exact (pr_cover R)|by apply (range_keep_elem Ho)| |done|done]; cbn.
  - exact (bad_segment_bytes_false _ (pr_step R)).
  - intros tl s H%Hlv. apply (Hal _ H).
  - destruct Hu as (_ & H & _). eapply Forall_impl; [exact H|]. intros p Hp'.
    eapply Forall_impl; [exact Hp'|]. intros t [? ?]. done.
  - intros id c Hc. apply (pr_byID R) in Hc as [Hc _]. destruct Hu as (H & _ & _).
    rewrite Forall_forall in H. by destruct (H c Hc) as (_ & _ & [? _]).
  - by apply (byID_lookup R).
Qed.

Lemma plan_floor_le : d_WALFloor d <= floor.
Proof using R. rewrite (pr_walfloor R). destruct hint as [h|]; [destruct (_ =? _)|]; lia. Qed.
End CoverPlan.

Lemma floor_for_le env b t lo :
  1 <= e_step env -> (if b_Timeline b =? e_current env then Z.min (b_Start b) (b_Redo b) else t_Fork t) <= lo ->
  floor_for env b t <= lo / e_step env * e_step env.
Proof.
  intros Hs Hle. unfold floor_for. apply Z.mul_le_mono_nonneg_r; [lia|]. apply Z.div_le_mono; lia.
Qed.

Lemma aligned_above step lo s : 1 <= step -> s mod step = 0 -> lo < s + step -> lo / step * step <= s.
Proof.
  intros Hs [k ->]%Z.mod_divide Hlt; [|lia]. apply Z.mul_le_mono_nonneg_r; [lia|].
  enough (lo / step < k + 1) by lia. apply Z.div_lt_upper_bound; [lia|].
  rewrite (Z.mul_comm step), Z.mul_add_distr_r. lia.
Qed.

(** A timeline of the needed intervals of [b] lies above its floor contribution. *)
Lemma needed_above_floor env b path fr t lo hi :
  path_shape path = true -> reachable b path = true -> 1 <= e_step env ->
  b_Redo b <= b_Start b < b_End b ->
  (t, lo, hi) ∈ wal_needed fr (b_End b) (from_timeline (b_Timeline b) path) ->
  t_ID t = e_current env -> t ∈ from_timeline (b_Timeline b) path /\ floor_for env b t <= lo / e_step env * e_step env.
Proof.
  intros Hs Hr Hst Hb Hin Hcur. destruct (from_timeline_reachable b path Hr) as (h & rest & Ef & Hh).
  destruct (path_shape_facts path Hs) as (_ & _ & _ & _ & _ & _ & Hsort & _).
  destruct (from_timeline_suffix (b_Timeline b) path) as [pre Epre]. rewrite Epre in Hsort.
  apply StronglySorted_app in Hsort as (_ & _ & Hsort). rewrite Ef in *.
  apply StronglySorted_cons in Hsort as [Hsort _]. rewrite Forall_forall in Hsort.
  apply wal_needed_lo in Hin as [[-> ->]|[Ht ->]].
  - split; [left|]. apply floor_for_le; [done|].
    rewrite (proj2 (Z.eqb_eq (b_Timeline b) (e_current env))) by congruence. lia.
  - split; [by right|]. apply floor_for_le; [done|].
    rewrite (proj2 (Z.eqb_neq (b_Timeline b) (e_current env))); [lia|].
    destruct (Hsort t Ht) as [? _]. lia.
Qed.

Lemma covers_kept o in_ cutoff minimum hint d b path t lo hi :
  order_ok o -> inventory_u64 in_ -> Plan o in_ cutoff minimum hint = Ok d ->
  b ∈ in_Backups in_ -> kept d b -> path ∈ in_Paths in_ -> reachable b path = true ->
  (t, lo, hi) ∈ wal_needed (frontier_of in_) (b_End b) (from_timeline (b_Timeline b) path) ->
  lo <= hi
  /\ (lo < hi -> forall s, s mod in_SegmentBytes in_ = 0 -> lo < s + in_SegmentBytes in_ -> s < hi ->
        mkSegment (t_ID t) s true ∈ in_Segments in_ /\ (t_ID t = d_Current d -> d_WALFloor d <= s))
  /\ (t_ID t = d_Current d -> d_WALFloor d <= if b_Timeline b =? d_Current d then b_Redo b else t_Fork t).
Proof.
  intros Ho Hu (paths & anc & byID & keep0 & live & frontier & floor & R)%Plan_run Hb Hk Hp Hr Hin.
  pose proof (plan_covered Ho Hu R b path Hb Hk Hp Hr) as [Hcov Hfl].
  pose proof (plan_segments Hu R) as (Hlv & Hfr & _).
  pose proof (bad_segment_bytes_false _ (pr_step R)) as Hst.
  pose proof (plan_floor_le R) as Hle.
  set (env := mkEnv _ _ _ _ _) in *.
  assert (b_Redo b <= b_Start b < b_End b) as Hbb.
  { pose proof (pr_byID R) as (_ & Hok & _). rewrite Forall_forall in Hok.
    destruct (Hok b Hb) as (_ & _ & ? & ? & _). lia. }
  assert (path_shape path = true) as Hs.
  { pose proof (pr_paths R) as (_ & Hs & _). rewrite Forall_forall in Hs. auto. }
  assert (forall l pos, wal_needed (frontier_of in_) pos l
    = wal_needed (fun tl => default 0 (e_frontier env !! tl)) pos l) as Hwn.
  { induction l as [|x l IH]; intros pos; cbn; [done|]. rewrite IH. unfold frontier_of. by rewrite Hfr. }
  rewrite Hwn in Hin. destruct (Hcov t lo hi Hin) as [Hlh Hlr].
  assert (t_ID t = d_Current d -> d_WALFloor d <= lo / in_SegmentBytes in_ * in_SegmentBytes in_
    /\ d_WALFloor d <= floor_for env b t) as Hfloor.
  { intros Hc. destruct (needed_above_floor env b path _ t lo hi Hs Hr Hst Hbb Hin Hc) as [Ht Hf].
    specialize (Hfl t Ht Hc). change (e_step env) with (in_SegmentBytes in_) in Hf. lia. }
  split_and!; [done| |].
  - intros Hlt s Hs1 Hs2 Hs3. split; [apply Hlv; by apply Hlr|].
    intros Hc. destruct (Hfloor Hc) as [Hf _]. pose proof (aligned_above _ lo s Hst Hs1 Hs2). lia.
  - intros Hc. destruct (Hfloor Hc) as [_ Hf]. unfold floor_for, env in Hf. cbn [e_step e_current] in Hf.
    assert (forall x, x / in_SegmentBytes in_ * in_SegmentBytes in_ <= x) as Hdiv.
    { intros x. pose proof (Z.div_mod x (in_SegmentBytes in_) ltac:(lia)).
      pose proof (Z.mod_pos_bound x (in_SegmentBytes in_) ltac:(lia)). lia. }
    destruct (b_Timeline b =? d_Current d).
    + specialize (Hdiv (Z.min (b_Start b) (b_Redo b))). lia.
    + specialize (Hdiv (t_Fork t)). lia.
Qed.

(** Coverage and floor safety.  For every kept backup and every path on which it
    is usable, each WAL segment that holds bytes a restore replays after the backup (up to
    every fork, and on the last timeline up to the end of the archive) is archived and
    live, and the segments of it that lie on the current timeline are not below [WALFloor];
    the floor is also at or below the backup's redo point (a backup of the current timeline) or the
    fork (a backup of an ancestor).  Deleting current-timeline segments below the floor
    therefore removes nothing a kept backup needs. *)
Theorem plan_covers_kept o in_ cutoff minimum hint d b path t lo hi :
  order_ok o -> inventory_u64 in_ -> Plan o in_ cutoff minimum hint = Ok d ->
  b ∈ in_Backups in_ -> kept d b -> path ∈ in_Paths in_ -> reachable b path = true ->
  (t, lo, hi) ∈ wal_needed (frontier_of in_) (b_End b) (from_timeline (b_Timeline b) path) ->
  lo <= hi
  /\ (lo < hi -> forall s, s mod in_SegmentBytes in_ = 0 -> lo < s + in_SegmentBytes in_ -> s < hi ->
        mkSegment (t_ID t) s true ∈ in_Segments in_ /\ (t_ID t = d_Current d -> d_WALFloor d <= s))
  /\ (t_ID t = d_Current d -> d_WALFloor d <= if b_Timeline b =? d_Current d then b_Redo b else t_Fork t).
Proof. apply covers_kept. Qed.

(** C33: the coverage walk terminates and is exact.  For every accepted set of segments and every
    interval the code admits (its length in segments is at most the number of segments), the
    loop decides within the fuel [nseg + 3] despite the unchecked [start += step], and it
    answers true exactly when every segment that holds bytes of the interval is archived live. *)
Theorem coverage_walk_terminates paths step segs live frontier tl pos end_ :
  1 <= step -> Forall (fun s => is_u64 (s_Start s)) segs ->
  forM segs (∅, ∅) (collect_segment paths step) = Ok (live, frontier) ->
  0 <= pos < end_ -> (end_ - pos) / step <= Z.of_nat (length segs) ->
  exists ok, check_live (Z.to_nat (Z.of_nat (length segs)) + 3) live tl step (pos / step * step) end_ = Some ok
    /\ (ok = true <-> forall s, s mod step = 0 -> pos < s + step -> s < end_ -> mkSegment tl s true ∈ segs).
Proof.
  intros Hstep Hu Hc Hpos Hlen. apply collect_segments_spec in Hc as (Hlv & _ & Hal); [|done..].
  rewrite Forall_forall in Hal.
  destruct (check_live_range live tl step Hstep) with (n := Z.of_nat (length segs)) (pos := pos) (end_ := end_)
    as (ok & Eok & Hok); [|lia|done|lia|].
  - intros s H%Hlv. apply (Hal _ H).
  - exists ok. split; [done|]. rewrite Hok. unfold live_range. setoid_rewrite Hlv. split; [|auto].
    intros H s. apply H. lia.
Qed.

(** ** Independence from map iteration *)
Definition omin (fl : Z) (c : option Z) : Z := match c with None => fl | Some c => Z.min fl c end.
(** A step on the floor that fails or takes a minimum, whatever the floor. *)
Definition floor_step (f : Z -> res Z) : Prop :=
  exists r : option (option Z), forall fl, f fl = match r with None => Err ErrCoverage | Some c => Ok (omin fl c) end.

Lemma floor_step_comp f g : floor_step f -> floor_step g -> floor_step (fun fl => let? x := f fl in g x).
Proof.
  intros [[c|] Hf] [[c'|] Hg].
  - exists (Some (match c, c' with Some a, Some b => Some (Z.min a b) | None, x | x, None => x end)).
    intros fl. rewrite Hf. cbn. rewrite Hg. destruct c, c'; cbn; try done. by rewrite Z.min_assoc.
  - exists None. intros fl. rewrite Hf. cbn. by rewrite Hg.
  - exists None. intros fl. by rewrite Hf.
  - exists None. intros fl. by rewrite Hf.
Qed.

Lemma floor_step_commute f g fl : floor_step f -> floor_step g ->
  (let? x := f fl in g x) = (let? x := g fl in f x).
Proof.
  intros [[c|] Hf] [[c'|] Hg]; rewrite Hf, Hg; cbn; rewrite ?Hf, ?Hg; try done.
  f_equal. destruct c, c'; cbn; lia.
Qed.

Lemma cover_path_floor_step env b path pos started :
  floor_step (fun fl => let? st := cover_path env b (mkCover pos started fl) path in Ok (cv_floor st)).
Proof.
  revert pos started. induction path as [|t rest IH]; intros pos started.
  - exists (Some None). done.
  - cbn [cover_path cv_started cv_pos cv_floor]. cbv zeta. destruct (started || _) eqn:Es; cbn [negb]; [|by apply IH].
    set (end_ := match rest with n :: _ => t_Fork n | [] => _ end).
    destruct ((end_ <? pos) || _); [by exists None|].
    destruct (if pos <? end_ then _ else _) as [[]|]; [|by exists None..].
    destruct (IH end_ true) as [r Hr]. destruct (t_ID t =? e_current env); [|by exists r].
    set (f := (if _ =? _ then _ else _) / _ * _).
    destruct r as [c|]; [|exists None; intros fl; by rewrite Hr].
    exists (Some (Some (omin f c))). intros fl. rewrite Hr. destruct c; cbn; f_equal; lia.
Qed.

Lemma cover_backup_floor_step env paths byID id : floor_step (fun fl => cover_backup env paths byID fl id).
Proof.
  unfold cover_backup. destruct (byID !! id) as [b|]; [|by exists (Some None)].
  induction paths as [|p paths IH]; [by exists (Some None)|]. cbn [forM].
  apply (floor_step_comp (fun fl => if negb (reachable b p) then Ok fl else
    let? st := cover_path env b (mkCover (b_End b) false fl) p in Ok (cv_floor st)) _); [|exact IH].
  destruct (reachable b p); cbn [negb]; [apply cover_path_floor_step|by exists (Some None)].
Qed.

Lemma find_current_commute paths anc cur x y : x.1 <> 0 -> y.1 <> 0 ->
  (let? c := find_current paths anc cur x in find_current paths anc c y)
  = (let? c := find_current paths anc cur y in find_current paths anc c x).
Proof.
  destruct x as [i p], y as [j q]. cbn [fst]. intros Hi Hj. unfold find_current.
  apply Z.eqb_neq in Hi, Hj.
  destruct (prefixes_agree paths p), (prefixes_agree paths q), (bool_decide (i ∈ anc)), (bool_decide (j ∈ anc)),
    (cur =? 0) eqn:Ec; cbn; rewrite ?Ec; cbn; rewrite ?Hi, ?Hj; done.
Qed.

(** C31: the plan does not depend on the order in which Go visits its maps, nor on which of the keys that the loop over the kept
    backups adds to its own map are visited: two runs on the same inventory return the same decision or the same error. *)
Theorem plan_deterministic o1 o2 in_ cutoff minimum hint :
  order_ok o1 -> order_ok o2 -> Plan o1 in_ cutoff minimum hint = Plan o2 in_ cutoff minimum hint.
Proof.
  intros (P1 & K1 & G1) (P2 & K2 & G2). unfold Plan. cbv zeta. destruct (_ || _); [done|].
  destruct (forM (in_Paths in_) _ _) as [[paths anc]|] eqn:Hp; [|done]. cbn [res_bind].
  apply collect_paths_spec in Hp as (Hlk & Hs & _). rewrite Forall_forall in Hs.
  rewrite (forM_comm_perm (fun e => e.1 <> 0) _ (range_paths o1 paths) (range_paths o2 paths)).
  2: { intros c x y Hx Hy. exact (find_current_commute paths anc c x y Hx Hy). }
  2: { rewrite P1. apply Forall_forall. intros [i p] H%elem_of_map_to_list. apply Hlk in H as [Hin <-].
       by destruct (path_shape_facts p (Hs p Hin)) as (? & ? & ? & ? & ? & _). }
  2: { by rewrite P1, P2. }
  destruct (forM (range_paths o2 paths) _ _) as [current|]; [|done]. cbn [res_bind].
  destruct (forM (in_Backups in_) ∅ _) as [byID|] eqn:Hb; [|done]. cbn [res_bind]. apply collect_backups_spec in Hb.
  destruct (forM (in_Backups in_) () _) as [[]|] eqn:Hpar; [|done]. cbn [res_bind]. apply check_parents_spec in Hpar.
  destruct (foldl _ _ (in_Paths in_)) as [keep0 sh].
  rewrite (parents_settled _ _ _ _ _ Hb Hpar (G1 _ keep0 (keep_parent_grows byID))), (parents_settled _ _ _ _ _ Hb Hpar (G2 _ keep0 (keep_parent_grows byID))).
  destruct (forM (in_Segments in_) _ _) as [[live frontier]|]; [|done]. cbn [res_bind].
  generalize (foldl (keep_parent byID) keep0 (map_to_list keep0).*1). intros keep.
  rewrite (forM_comm_perm (fun _ => True) _ (range_keep o1 keep) (range_keep o2 keep)); [done| | |].
  - intros fl x y _ _. apply (floor_step_commute (fun fl => cover_backup _ _ _ fl x) (fun fl => cover_backup _ _ _ fl y));
      apply cover_backup_floor_step.
  - by apply Forall_forall.
  - by rewrite K1, K2.
Qed.

(** The archive hint only lowers the WAL floor: it changes nothing else in
    the decision, never makes planning fail, and never raises the floor. *)
Theorem plan_hint_only_lowers o in_ cutoff minimum h :
  Plan o in_ cutoff minimum (Some h)
  = match Plan o in_ cutoff minimum None with
    | Err e => Err e
    | Ok d => Ok (mkDecision (d_Keep d) (d_Expire d) (d_Current d)
        (if h_Timeline h =? d_Current d
         then Z.min (d_WALFloor d) (h_Start h / in_SegmentBytes in_ * in_SegmentBytes in_) else d_WALFloor d)
        (d_Shortened d))
    end.
Proof.
  unfold Plan. cbv zeta. destruct (_ || _); [done|].
  destruct (forM (in_Paths in_) _ _) as [[paths anc]|]; [|done]. cbn [res_bind].
  destruct (forM (range_paths o paths) _ _) as [current|]; [|done]. cbn [res_bind].
  destruct (forM (in_Backups in_) ∅ _) as [byID|]; [|done]. cbn [res_bind].
  destruct (forM (in_Backups in_) () _); [|done]. cbn [res_bind].
  destruct (foldl _ _ (in_Paths in_)) as [keep0 sh].
  destruct (forM (in_Segments in_) _ _) as [[live frontier]|]; [|done]. cbn [res_bind].
  destruct (forM (range_keep o _) _ _) as [floor|]; [|done]. cbn [res_bind].
  by destruct (floor =? u64_max).
Qed.

(** ** A concrete inventory: two timelines, fulls with differentials *)
Definition ex_MiB : Z := 2 ^ 20.
Definition ex_segments (tl : Z) (first count : nat) : list Segment :=
  (fun k : nat => mkSegment tl (Z.of_nat k * ex_MiB) true) <$> seq first count.
Definition ex_backups : list Backup :=
  [mkBackup "f1" "" 1 100 (1 * ex_MiB) (1 * ex_MiB) (2 * ex_MiB);
   mkBackup "d1" "f1" 1 200 (3 * ex_MiB) (3 * ex_MiB) (4 * ex_MiB);
   mkBackup "f2" "" 1 300 (5 * ex_MiB) (5 * ex_MiB) (6 * ex_MiB);
   mkBackup "d2" "f2" 1 350 (6 * ex_MiB) (6 * ex_MiB) (7 * ex_MiB);
   mkBackup "f3" "" 2 400 (10 * ex_MiB) (10 * ex_MiB) (11 * ex_MiB)].
Definition ex_paths : list (list Timeline) :=
  [[mkTimeline 1 0]; [mkTimeline 1 0; mkTimeline 2 (9 * ex_MiB)]].
Definition ex_inventory : Inventory :=
  mkInventory ex_backups ex_paths (ex_segments 1 1 9 ++ ex_segments 2 9 4) ex_MiB.
Definition ex_decision : Decision :=
  match Plan tree_order ex_inventory 360 1 None with Ok d => d | Err _ => mkDecision ∅ [] 0 0 false end.

Lemma growing_dom body m l : growing body -> dom m ⊆ dom (foldl body m l).
Proof. intros Hg. revert m. induction l as [|k l IH]; intros m; cbn; [done|]. etrans; [apply (Hg m k)|apply IH]. Qed.
(** The keys in any order, and after them some of those that were added. *)
Lemma visits_keys body m keys more : growing body -> keys ≡ₚ (map_to_list m).*1 -> NoDup more ->
  (forall k, k ∈ more -> m !! k = None /\ is_Some (foldl body m keys !! k)) -> visits body m (keys ++ more).
Proof.
  intros Hg Hk Hn Hm. assert (Hin : forall k, k ∈ keys <-> is_Some (m !! k)) by (intros k; rewrite Hk; apply keys_elem). split.
  - apply NoDup_app. split_and!; [rewrite Hk; apply NoDup_fst_map_to_list| |done]. intros k [v Hv]%Hin Hmore. destruct (Hm k Hmore). congruence.
  - intros k H%Hin. apply elem_of_app. by left.
  - intros i k Hi. apply elem_of_dom. apply lookup_app_Some in Hi as [Hi|[Hle Hi]].
    + apply (growing_dom body m _ Hg), elem_of_dom, Hin. by eapply list_elem_of_lookup_2.
    + rewrite take_app_ge by done. rewrite foldl_app. apply (growing_dom body _ _ Hg), elem_of_dom. apply Hm. by eapply list_elem_of_lookup_2.
Qed.
Lemma tree_order_ok : order_ok tree_order.
Proof.
  split_and!; [done|done|]. intros body m Hg. rewrite <- (app_nil_r (range_growing _ _ _)). apply visits_keys; [done|done|constructor|]. intros k H. by apply elem_of_nil in H.
Qed.
(** Another: backwards, and then every key that was added. *)
Definition eager_order : order :=
  mkOrder (fun m => rev (map_to_list m)) (fun m => rev (map_to_list m).*1)
    (fun body m => let keys := rev (map_to_list m).*1 in keys ++ filter (fun k => m !! k = None) (map_to_list (foldl body m keys)).*1).
Lemma eager_order_ok : order_ok eager_order.
Proof.
  split_and!; [intros m; symmetry; apply Permutation_rev..|]. intros body m Hg. apply visits_keys; [done|symmetry; apply Permutation_rev|apply NoDup_filter, NoDup_fst_map_to_list|].
  intros k [Hk Hin]%list_elem_of_filter. split; [done|]. by apply keys_elem.
Qed.
Lemma ex_plan : Plan tree_order ex_inventory 360 1 None = Ok ex_decision.
Proof. vm_compute. reflexivity. Qed.
Lemma ex_u64 : inventory_u64 ex_inventory.
Proof.
  split_and!; repeat constructor; vm_compute; discriminate.
Qed.

(** Case analysis on the members of a concrete list. *)
Ltac each_elem H :=
  repeat (apply elem_of_cons in H as [H|H]; [subst|]); [..|by apply elem_of_nil in H].
Ltac elem_at i := apply (list_elem_of_lookup_2 _ i); vm_compute; reflexivity.

Lemma plan_keeps_recovery_window_witness :
  kept ex_decision (mkBackup "d2" "f2" 1 350 (6 * ex_MiB) (6 * ex_MiB) (7 * ex_MiB)) /\
  ("f2" <> "" -> exists f, f ∈ in_Backups ex_inventory /\ b_ID f = "f2" /\ b_Parent f = "" /\ kept ex_decision f).
Proof.
  apply (plan_keeps_recovery_window tree_order ex_inventory 360 1 None ex_decision
    [mkTimeline 1 0; mkTimeline 2 (9 * ex_MiB)] 380 (fun c => c <? 380)
    (mkBackup "d2" "f2" 1 350 (6 * ex_MiB) (6 * ex_MiB) (7 * ex_MiB))).
  - exact tree_order_ok.
  - exact ex_plan.
  - elem_at 1%nat.
  - left. split; [reflexivity|lia].
  - split; [elem_at 3%nat|]. split; [reflexivity|]. split; [reflexivity|].
    intros x Hx _. each_elem Hx; intros Hb; first [reflexivity | discriminate Hb].
Defined.

Lemma plan_parent_closed_witness : exists f, f ∈ in_Backups ex_inventory /\ b_ID f = "f2" /\ b_Parent f = ""
  /\ kept ex_decision f /\ b_Timeline f = 1 /\ b_End f <= 6 * ex_MiB.
Proof.
  apply (plan_parent_closed tree_order ex_inventory 360 1 None ex_decision
    (mkBackup "d2" "f2" 1 350 (6 * ex_MiB) (6 * ex_MiB) (7 * ex_MiB)) tree_order_ok ex_plan).
  - elem_at 3%nat.
  - eexists. vm_compute. reflexivity.
  - discriminate.
Defined.

Lemma plan_keeps_minimum_fulls_witness :
  kept ex_decision (mkBackup "f3" "" 2 400 (10 * ex_MiB) (10 * ex_MiB) (11 * ex_MiB)).
Proof.
  apply (plan_keeps_minimum_fulls tree_order ex_inventory 360 1 None ex_decision
    [mkTimeline 1 0; mkTimeline 2 (9 * ex_MiB)]).
  - exact tree_order_ok.
  - exact ex_plan.
  - elem_at 1%nat.
  - elem_at 4%nat.
  - reflexivity.
  - reflexivity.
  - vm_compute. reflexivity.
Defined.

Lemma plan_latest_and_shortened_witness : d_Shortened ex_decision = true <->
  exists path, path ∈ in_Paths ex_inventory
    /\ (exists b, b ∈ in_Backups ex_inventory /\ reachable b path = true)
    /\ forall b, b ∈ in_Backups ex_inventory -> reachable b path = true -> 360 < b_Completed b.
Proof.
  exact (proj1 (proj2 (plan_latest_and_shortened tree_order ex_inventory 360 1 None ex_decision tree_order_ok ex_plan))).
Defined.

Lemma plan_expire_order_witness : d_Expire ex_decision = ["d1"; "f1"] /\ "d1" ∈ ["d1"].
Proof.
  split; [vm_compute; reflexivity|].
  apply (plan_expire_order tree_order ex_inventory 360 1 None ex_decision ["d1"] "f1" []
    (mkBackup "d1" "f1" 1 200 (3 * ex_MiB) (3 * ex_MiB) (4 * ex_MiB)) tree_order_ok ex_plan).
  - vm_compute. reflexivity.
  - elem_at 1%nat.
  - reflexivity.
Defined.

Lemma plan_current_unique_leaf_witness : d_Current ex_decision = 2 /\
  forall p, p ∈ in_Paths ex_inventory -> d_Current ex_decision ∉ ancestor_ids p.
Proof.
  split; [vm_compute; reflexivity|].
  exact (proj1 (proj2 (plan_current_unique_leaf tree_order ex_inventory 360 1 None ex_decision tree_order_ok ex_plan))).
Defined.

Lemma plan_covers_kept_witness :
  7 * ex_MiB <= 9 * ex_MiB
  /\ (7 * ex_MiB < 9 * ex_MiB -> forall s, s mod ex_MiB = 0 -> 7 * ex_MiB < s + ex_MiB -> s < 9 * ex_MiB ->
        mkSegment 1 s true ∈ in_Segments ex_inventory /\ (1 = d_Current ex_decision -> d_WALFloor ex_decision <= s))
  /\ (1 = d_Current ex_decision -> d_WALFloor ex_decision <= if 1 =? d_Current ex_decision then 6 * ex_MiB else 0).
Proof.
  apply (plan_covers_kept tree_order ex_inventory 360 1 None ex_decision
    (mkBackup "d2" "f2" 1 350 (6 * ex_MiB) (6 * ex_MiB) (7 * ex_MiB))
    [mkTimeline 1 0; mkTimeline 2 (9 * ex_MiB)] (mkTimeline 1 0) (7 * ex_MiB) (9 * ex_MiB)
    tree_order_ok ex_u64 ex_plan).
  - elem_at 3%nat.
  - eexists. vm_compute. reflexivity.
  - elem_at 1%nat.
  - reflexivity.
  - elem_at 0%nat.
Defined.

Lemma coverage_walk_terminates_witness :
  exists ok, check_live 5 ({[(1, 0) := true; (1, ex_MiB) := false]} : gmap (Z * Z) bool) 1 ex_MiB 0 ex_MiB = Some ok.
Proof.
  destruct (coverage_walk_terminates {[1 := [mkTimeline 1 0]]} ex_MiB
    [mkSegment 1 0 true; mkSegment 1 ex_MiB false]
    {[(1, 0) := true; (1, ex_MiB) := false]} {[1 := 2 * ex_MiB]} 1 0 ex_MiB) as (ok & E & H).
  - vm_compute. discriminate.
  - repeat constructor; vm_compute; discriminate.
  - vm_compute. reflexivity.
  - vm_compute. split; [discriminate|reflexivity].
  - vm_compute. discriminate.
  - exists ok. exact E.
Defined.

Lemma plan_deterministic_witness : Plan eager_order ex_inventory 360 1 None = Plan tree_order ex_inventory 360 1 None
  /\ range_growing eager_order (fun m _ => <["f2" := "parent"]> m) {["d2" := "kept"]} = ["d2"; "f2"].
Proof. split; [exact (plan_deterministic eager_order tree_order _ _ _ _ eager_order_ok tree_order_ok)|vm_compute; reflexivity]. Defined.
