(* ===== verification/RecoveryPlan.v ===== *)
(** * Recovery plans (internal/repository/plan.go, coverage.go, recovery.go)

    The frozen recovery plan: its target, timeline path, backup chain and
    required archive ranges, the validation of all of it, the choice of the backup
    and the pure parts of [Hold.Resolve].  An index or pointer the code uses without a
    test is [Panic] when it is absent. *)

From S2P Require Import Prelude GoStrings GoTime Sha256 Errors Schema WalNames.

Record Target := mkTarget {
  tg_Kind : string; tg_Value : string; tg_Exclusive : bool;
  tg_BackupUID : option string; tg_Timeline : Z }.
Record Timeline := mkTimeline { tl_ID : Z; tl_ForkLSN : option string }.
#[export] Instance Timeline_eq_dec : EqDecision Timeline.
Proof. solve_decision. Defined.
Record Plan := mkPlan {
  p_Schema : Z;
  p_Source : Identity;
  p_DestinationRepositoryID : string;
  p_TargetClusterUID : string;
  p_BootstrapSHA256 : string;
  p_OperationID : string;
  p_LifetimeHoldID : string;
  p_ReaderHoldID : string;
  p_Target : Target;
  p_Path : list Timeline;
  p_Chain : list Commit;
  p_RequiredArchive : option (list WALRange) }.

(** ** Operation identity and targets *)
Definition RestoreOperationID (target fingerprint : string) : res string :=
  if negb (validID target) || negb (hashRE fingerprint) then Err ErrInvalid else
  Ok (uuid_text 128 (Sum256 ("cnpg-backup/restore/v1" +:+ String nul target +:+ String nul fingerprint))).

Definition timeTarget (s : string) : res Time :=
  match parse_rfc3339nano s with Some (t, _) => Ok t | None => Err ErrInvalid end.

Definition Target_validate (t : Target) : res () :=
  if (tg_Timeline t =? 0) || match tg_BackupUID t with Some u => negb (validID u) | None => false end
  then Err ErrInvalid else
  let no_uid := match tg_BackupUID t with None => true | Some _ => false end in
  let kind := tg_Kind t in
  if kind ==? "latest" then if (tg_Value t !=? "") || tg_Exclusive t then Err ErrInvalid else Ok ()
  else if kind ==? "time" then timeTarget (tg_Value t) ;;? Ok ()
  else if kind ==? "lsn" then ParseLSN (tg_Value t) ;;? Ok ()
  else if kind ==? "name" then
    if negb (validText (tg_Value t) 63) || tg_Exclusive t || no_uid then Err ErrInvalid else Ok ()
  else if kind ==? "xid" then
    match decimal (tg_Value t) with
    | None => Err ErrInvalid
    | Some n => if (n <? 3) || (u32_max <? n) || no_uid then Err ErrInvalid else Ok ()
    end
  else if kind ==? "immediate" then
    if (tg_Value t !=? "") || tg_Exclusive t || no_uid then Err ErrInvalid else Ok ()
  else Err ErrInvalid.

(** ** Eligibility and order of backups *)
Fixpoint index_of (id : Z) (path : list Timeline) : option nat :=
  match path with
  | [] => None
  | v :: path => if tl_ID v =? id then Some 0%nat else S <$> index_of id path
  end.

Definition eligible (c : Commit) (t : Target) (path : list Timeline) : bool :=
  if match tg_BackupUID t with Some u => u !=? c_BackupUID c | None => false end then false else
  match index_of (c_Timeline c) path with
  | None => false
  | Some idx =>
    let end_ := lsn (c_StopLSN c) in
    let forked := match path !! S idx with
                  | None => false
                  | Some n => match tl_ForkLSN n with
                              | None => true
                              | Some f => match ParseLSN f with Err _ => true | Ok fork => fork <=? end_ end
                              end
                  end in
    if forked then false else
    if tg_Kind t ==? "time" then
      match stamp (c_StoppedAt c), timeTarget (tg_Value t) with
      | Some stop, Ok target => Before stop target
      | _, _ => false
      end
    else if tg_Kind t ==? "lsn" then
      match ParseLSN (tg_Value t) with
      | Err _ => false
      | Ok target =>
          negb (target <=? end_)
          && forallb (fun n => match tl_ForkLSN n with
                               | None => false
                               | Some f => match ParseLSN f with Err _ => false | Ok fork => negb (target <? fork) end
                               end) (drop (S idx) path)
      end
    else true
  end.

Definition newer (a b : Commit) : bool :=
  let ta := stamp_time (c_StoppedAt a) in
  let tb := stamp_time (c_StoppedAt b) in
  if negb (ta =? tb) then After ta tb else String.ltb (c_BackupUID b) (c_BackupUID a).

(** The visitor of [Select] and [Resolve]: the newest eligible commit so far. *)
Definition choose_step (t : Target) (path : list Timeline) (chosen : option Commit) (en : Commit * bool)
  : option Commit :=
  let '(c, retired) := en in
  if retired || negb (eligible c t path) then chosen else
  match chosen with
  | None => Some c
  | Some x => if newer c x then Some c else chosen
  end.
Definition choose (t : Target) (path : list Timeline) (entries : list (Commit * bool)) : option Commit :=
  foldl (choose_step t path) None entries.

(** ** [Plan.Validate] *)
Record path_state := mkPathState { ps_i : nat; ps_prev : Z; ps_ids : gmap Z nat; ps_last : Z }.
Definition path_step (st : path_state) (t : Timeline) : res path_state :=
  if tl_ID t =? 0 then Err ErrInvalid else
  match ps_ids st !! tl_ID t with
  | Some _ => Err ErrInvalid
  | None =>
    let next last := Ok (mkPathState (S (ps_i st)) (tl_ID t) (<[tl_ID t := ps_i st]> (ps_ids st)) last) in
    match ps_i st, tl_ForkLSN t with
    | O, Some _ => Err ErrInvalid
    | O, None => next (ps_last st)
    | S _, None => Err ErrInvalid
    | S _, Some f =>
        if tl_ID t <=? ps_prev st then Err ErrInvalid else
        match ParseLSN f with
        | Err _ => Err ErrInvalid
        | Ok n => if n <? ps_last st then Err ErrInvalid else next n
        end
    end
  end.
Definition validate_path (path : list Timeline) : res (gmap Z nat) :=
  let? st := forM path (mkPathState 0 0 ∅ 0) path_step in Ok (ps_ids st).

(** [path[pi].ID] *)
Definition path_id (path : list Timeline) (pi : nat) : res Z :=
  match path !! pi with Some t => Ok (tl_ID t) | None => Err Panic end.
(** [fork, _ := ParseLSN( *path[pi+1].ForkLSN)], when [pi+1] is in range *)
Definition next_fork (path : list Timeline) (pi : nat) : res (option Z) :=
  match path !! S pi with
  | None => Ok None
  | Some n => match tl_ForkLSN n with None => Err Panic | Some f => Ok (Some (lsn f)) end
  end.

Definition archive_step (path : list Timeline) (acc : Z * nat) (w : WALRange) : res (Z * nat) :=
  let '(pos, pi) := acc in
  match ParseLSN (wr_StartLSN w), ParseLSN (wr_EndLSN w) with
  | Ok a, Ok b =>
      if (a !=? pos) || (b <=? a) then Err ErrInvalid else
      let? id := path_id path pi in
      if wr_Timeline w !=? id then Err ErrInvalid else
      let? fork := next_fork path pi in
      match fork with
      | None => Ok (b, pi)
      | Some fork => if fork <? b then Err ErrInvalid else Ok (b, if b =? fork then S pi else pi)
      end
  | _, _ => Err ErrInvalid
  end.

Definition validate_archive (path : list Timeline) (pos : Z) (pi : nat) (immediate : bool)
    (ranges : list WALRange) : res () :=
  let? (_, pi) := forM ranges (pos, pi) (archive_step path) in
  let leaf := (S pi =? length path)%nat in
  if negb (Z.of_nat (length ranges) =? 0) && negb leaf then Err ErrInvalid else
  if negb immediate && negb leaf then Err ErrInvalid else Ok ().

Definition Plan_Validate (p : Plan) : res () :=
  if (p_Schema p !=? 1) || is_err (Identity_Validate (p_Source p)) || negb (validID (p_DestinationRepositoryID p))
     || (p_DestinationRepositoryID p ==? id_RepositoryID (p_Source p)) || negb (validID (p_TargetClusterUID p))
     || (p_TargetClusterUID p ==? id_WriterClusterUID (p_Source p)) || negb (validID (p_ReaderHoldID p))
  then Err ErrIdentity else
  match RestoreOperationID (p_TargetClusterUID p) (p_BootstrapSHA256 p) with
  | Err _ => Err ErrIdentity
  | Ok op =>
    if (op !=? p_OperationID p) || (p_LifetimeHoldID p !=? op) then Err ErrIdentity else
    Target_validate (p_Target p) ;;?
    match p_RequiredArchive p with
    | None => Err ErrCapacity
    | Some ranges =>
      if (Z.of_nat (length (p_Chain p)) <? 1) || (2 <? Z.of_nat (length (p_Chain p)))
         || (Z.of_nat (length (p_Path p)) <? 1) || (1024 <? Z.of_nat (length (p_Path p)))
         || (1024 <? Z.of_nat (length ranges))
      then Err ErrCapacity else
      forM (p_Chain p) () (fun _ c => Commit_validate c (p_Source p)) ;;?
      match p_Chain p with
      | [] => Err Panic
      | full :: rest =>
        if c_Kind full !=? "full" then Err ErrCorrupt else
        match rest with [] => Ok () | d :: _ => validateParent d full end ;;?
        let? ids := validate_path (p_Path p) in
        match last (p_Path p) with
        | None => Err Panic
        | Some leaf =>
          if tl_ID leaf !=? tg_Timeline (p_Target p) then Err ErrInvalid else
          let selected := List.last rest full in
          if negb (eligible selected (p_Target p) (p_Path p)) then Err ErrInvalid else
          validate_archive (p_Path p) (lsn (c_BundledWALEndLSN selected))
            (default 0%nat (ids !! c_Timeline selected)) (tg_Kind (p_Target p) ==? "immediate") ranges
        end
      end
    end
  end.

(** ** [Plan.Coverage] *)
Definition intersects (size timeline start : Z) (w : WALRange) : bool :=
  (wr_Timeline w =? timeline)
  && (let a := lsn (wr_StartLSN w) in
      let b := lsn (wr_EndLSN w) in
      (start <? b) && ((a <? start) || (wrap64 (a - start) <? size))).

Definition Coverage (p : Plan) (name : string) : res (bool * bool) :=
  Plan_Validate p ;;?
  let size := id_WALSegmentBytes (p_Source p) in
  let? timeline := walTimeline name size in
  if HasSuffix name ".history" then
    Ok (false, existsb (fun t => (tl_ID t =? timeline) && (1 <? timeline)) (p_Path p))
  else if negb (String.length name =? 24)%nat then Ok (false, false) else
  let start := segment_start name size in
  match last (p_Chain p) with
  | None => Err Panic
  | Some c => Ok (existsb (intersects size timeline start) (c_WALRanges c),
                  existsb (intersects size timeline start) (default [] (p_RequiredArchive p)))
  end.

(** ** Timeline histories *)
Record history_state := mkHistory { hs_path : list Timeline; hs_previous : Z; hs_last : Z }.
Definition history_line (timeline : Z) (st : history_state) (line : string) : res history_state :=
  let line := TrimSpace line in
  if (line ==? "") || HasPrefix line "#" then Ok st else
  match Fields line with
  | f0 :: f1 :: _ :: _ =>
    if 1023 <=? Z.of_nat (length (hs_path st)) then Err ErrCorrupt else
    match ParseUint f0 10 32, ParseLSN f1 with
    | Some n, Ok end_ =>
      let first := match hs_path st with [] => true | _ => false end in
      if (n =? 0) || (n <=? hs_previous st) || (timeline <=? n) || (negb first && (end_ <? hs_last st))
      then Err ErrCorrupt else
      let fork := if first then None else Some (format_lsn (hs_last st)) in
      Ok (mkHistory (hs_path st ++ [mkTimeline n fork]) n end_)
    | _, _ => Err ErrCorrupt
    end
  | _ => Err ErrCorrupt
  end.
Definition newline : ascii := "010"%char.
Definition ParseHistory (timeline : Z) (b : string) : res (list Timeline) :=
  if (timeline <=? 1) || (len b =? 0) || (Z.shiftl 1 20 <? len b) then Err ErrInvalid else
  let? st := forM (Split newline b) (mkHistory [] 0 0) (history_line timeline) in
  match hs_path st with
  | [] => Err ErrCorrupt
  | path => Ok (path ++ [mkTimeline timeline (Some (format_lsn (hs_last st)))])
  end.

(** ** The pure parts of [Hold.Resolve] *)
Record archive_state := mkArchive {
  av_timelines : gset Z; av_segments : gset (Z * Z); av_histories : gset Z }.
Definition resolve_name (size : Z) (st : archive_state) (name : string) : res archive_state :=
  let? t := walTimeline name size in
  if HasSuffix name ".partial" then Ok st else
  Ok (mkArchive ({[t]} ∪ av_timelines st)
        (if (String.length name =? 24)%nat then {[(t, segment_start name size)]} ∪ av_segments st else av_segments st)
        (if HasSuffix name ".history" then {[t]} ∪ av_histories st else av_histories st)).
Definition resolve_names (size : Z) (names : list string) : res archive_state :=
  forM names (mkArchive ∅ ∅ ∅) (resolve_name size).

(** The sorted list of all known timelines: archived, of live commits, and the target's. *)
Definition known_timelines (commits : gset Z) (target : Z) : list Z :=
  sort_slice Z.ltb (elements (if negb (target =? 0) then {[target]} ∪ commits else commits)).

(** What one history file adds: its path, and the ancestors it must agree with. *)
Definition ancestor_step (histories : gset Z) (paths : gmap Z (list Timeline)) (p : list Timeline)
    (anc : gset Z) (ia : nat * Timeline) : res (gset Z) :=
  let '(i, a) := ia in
  if (1 <? tl_ID a) && negb (bool_decide (tl_ID a ∈ histories)) then Err ErrCorrupt else
  match paths !! tl_ID a with
  | Some known => if known ==? take (S i) p then Ok ({[tl_ID a]} ∪ anc) else Err ErrCorrupt
  | None => Ok ({[tl_ID a]} ∪ anc)
  end.
Definition history_step (histories : gset Z) (acc : gmap Z (list Timeline) * gset Z) (t : Z) (b : string)
  : res (gmap Z (list Timeline) * gset Z) :=
  let '(paths, anc) := acc in
  let? p := ParseHistory t b in
  let paths := <[t := p]> paths in
  let? anc := forM (imap pair (removelast p)) anc (ancestor_step histories paths p) in
  Ok (paths, anc).
Definition initial_paths : gmap Z (list Timeline) * gset Z := ({[1 := [mkTimeline 1 None]]}, ∅).

(** The timeline to recover along when the target names none: the only leaf. *)
Definition leaf_step (anc : gset Z) (target : Z) (t : Z) : res Z :=
  if bool_decide (t ∈ anc) then Ok target else
  if negb (target =? 0) then Err ErrBlocked else Ok t.
Definition target_timeline (ids : list Z) (anc : gset Z) (target : Z) : res Z :=
  if target =? 0 then forM ids 0 (leaf_step anc) else Ok target.

(** The end of the archive on the last timeline. *)
Definition leaf_frontier (size : Z) (segs : gset (Z * Z)) (tl pos : Z) : res Z :=
  forM (elements segs) pos (fun frontier '(t, start) =>
    if negb (t =? tl) then Ok frontier else
    if u64_max - size <? start then Err ErrCapacity else Ok (Z.max frontier (start + size))).

(** The walk over the segments of one range; [None] is running out of fuel. *)
Fixpoint walk (fuel : nat) (size : Z) (segs : gset (Z * Z)) (tl count start frontier : Z) : option (res ()) :=
  match fuel with
  | O => None
  | S fuel =>
      if frontier <=? start then Some (Ok ()) else
      let count := count + 1 in
      if (MaxCatalogRecords <? count) || negb (bool_decide ((tl, start) ∈ segs)) then Some (Err ErrBlocked) else
      if u64_max - size <? start then Some (Err ErrCapacity) else
      walk fuel size segs tl count (start + size) frontier
  end.

Fixpoint required_ranges (size : Z) (segs : gset (Z * Z)) (tl pos : Z) (path : list Timeline) : res (list WALRange) :=
  match path with
  | [] => Ok []
  | t :: rest =>
      if tl_ID t <? tl then required_ranges size segs tl pos rest else
      let? frontier := match rest with
                       | [] => leaf_frontier size segs (tl_ID t) pos
                       | n :: _ => match tl_ForkLSN n with None => Err Panic | Some f => Ok (lsn f) end
                       end in
      let? here :=
        if frontier <=? pos then Ok [] else
        match walk (stdpp.base.size segs + 2) size segs (tl_ID t) 0 (pos / size * size) frontier with
        | Some r => r ;;? Ok [mkWALRange (tl_ID t) (format_lsn pos) (format_lsn frontier)]
        | None => Err ErrOther
        end in
      let? more := required_ranges size segs tl frontier rest in
      Ok (here ++ more)
  end.
Definition required_archive (size : Z) (segs : gset (Z * Z)) (t : Target) (path : list Timeline) (c : Commit)
  : res (list WALRange) :=
  if tg_Kind t ==? "immediate" then Ok []
  else required_ranges size segs (c_Timeline c) (lsn (c_BundledWALEndLSN c)) path.

(** ** Valid paths *)
Definition fork_of (t : Timeline) : Z := match tl_ForkLSN t with Some f => lsn f | None => 0 end.
Definition path_before (a b : Timeline) : Prop := tl_ID a < tl_ID b /\ fork_of a <= fork_of b.

(** Oldest first, timelines increase, only the first has no fork, forks do not decrease. *)
Record valid_path (path : list Timeline) : Prop := {
  vp_first : forall t, path !! 0%nat = Some t -> tl_ForkLSN t = None;
  vp_rest : forall i t, path !! S i = Some t -> exists f n, tl_ForkLSN t = Some f /\ ParseLSN f = Ok n;
  vp_ids : Forall (fun t => tl_ID t <> 0) path;
  vp_sorted : StronglySorted path_before path }.

Record path_inv (path : list Timeline) (st : path_state) : Prop := {
  pi_valid : valid_path path;
  pi_i : ps_i st = length path;
  pi_prev : ps_prev st = from_option tl_ID 0 (last path);
  pi_last : ps_last st = from_option fork_of 0 (last path);
  pi_ids : forall id i, ps_ids st !! id = Some i <-> exists t, path !! i = Some t /\ tl_ID t = id }.

Lemma fork_of_nonneg t : 0 <= fork_of t.
Proof. unfold fork_of. destruct (tl_ForkLSN t); [apply lsn_u64|lia]. Qed.

Lemma sorted_snoc {A} (R : A -> A -> Prop) l x :
  StronglySorted R (l ++ [x]) <-> StronglySorted R l /\ Forall (fun y => R y x) l.
Proof.
  induction l as [|a l IH]; cbn.
  - split; [|intros; repeat constructor]. intros _. split; constructor.
  - split.
    + intros H. apply StronglySorted_inv in H as [H1 H2]. apply IH in H1 as [H1 H3].
      apply Forall_app in H2 as [H2 H4]. inversion H4; subst. split; constructor; auto.
    + intros [H1 H2]. apply StronglySorted_inv in H1 as [H1 H3]. inversion H2; subst.
      constructor; [apply IH; auto|]. apply Forall_app. auto.
Qed.

Lemma valid_path_snoc l t : valid_path (l ++ [t]) <->
  valid_path l /\ tl_ID t <> 0
  /\ match last l with
     | None => tl_ForkLSN t = None
     | Some p => tl_ID p < tl_ID t /\ fork_of p <= fork_of t
                 /\ exists f n, tl_ForkLSN t = Some f /\ ParseLSN f = Ok n
     end.
Proof.
  split.
  - intros [H1 H2 H3 H4]. apply sorted_snoc in H4 as [H4 H5]. apply Forall_app in H3 as [H3 H6].
    split; [|split; [by inversion H6|]].
    + split; [|intros i x Hx|done|done].
      * intros x Hx. apply H1. by apply lookup_app_l_Some.
      * apply (H2 i). by apply lookup_app_l_Some.
    + destruct (last l) as [p|] eqn:El.
      * apply last_snoc_inv in El as [l' ->]. apply Forall_app in H5 as [_ H5].
        inversion H5 as [|? ? [? ?] _]; subst. split_and!; [done|done|].
        apply (H2 (length l')). rewrite lookup_app_r by (rewrite length_app; cbn; lia).
        by replace (S (length l') - length (l' ++ [p]))%nat with 0%nat by (rewrite length_app; cbn; lia).
      * apply last_None in El as ->. by apply H1.
  - intros ([H1 H2 H3 H4] & H5 & H6). destruct (last l) as [p|] eqn:El.
    + assert (l <> []) as Hne by (by intros ->). destruct H6 as (H6 & H7 & H8). split.
      * intros x Hx. apply H1. destruct l; [done|exact Hx].
      * intros i x Hx. apply lookup_app_Some in Hx as [Hx|[Hi Hx]]; [by apply (H2 i)|].
        apply list_lookup_singleton_Some in Hx as [_ <-]. done.
      * apply Forall_app. split; [done|]. by constructor.
      * apply sorted_snoc. split; [done|]. apply last_snoc_inv in El as [l' ->].
        apply sorted_snoc in H4 as [_ H4]. apply Forall_app. split; [|repeat constructor; done].
        eapply Forall_impl; [exact H4|]. intros y [? ?]. split; lia.
    + apply last_None in El as ->. split; cbn.
      * by intros x [= <-].
      * intros i x Hx. by destruct i.
      * by constructor.
      * repeat constructor.
Qed.

Lemma valid_path_nil : valid_path [].
Proof. split; [done|done|constructor|constructor]. Qed.

Lemma path_step_inv l t st : path_inv l st ->
  (forall st', path_step st t = Ok st' -> path_inv (l ++ [t]) st')
  /\ (valid_path (l ++ [t]) -> exists st', path_step st t = Ok st').
Proof.
  intros [Hv Hi Hp Hl Hids]. unfold path_step.
  assert (forall last', last' = fork_of t -> valid_path (l ++ [t]) -> ps_ids st !! tl_ID t = None ->
    path_inv (l ++ [t]) (mkPathState (S (ps_i st)) (tl_ID t) (<[tl_ID t := ps_i st]> (ps_ids st)) last')) as Hnext.
  { intros last' -> Hv' Hn. split; cbn; [done| | | |].
    - rewrite length_app, Hi. cbn. lia.
    - by rewrite last_snoc.
    - by rewrite last_snoc.
    - intros id i. destruct (decide (tl_ID t = id)) as [<-|Hne].
      + rewrite lookup_insert_eq. split.
        * intros [= <-]. exists t. rewrite Hi, lookup_app_r, Nat.sub_diag by lia. done.
        * intros (x & Hx & E). apply lookup_app_Some in Hx as [Hx|[Hle Hx]].
          -- assert (ps_ids st !! tl_ID t = Some i) by (apply Hids; eauto). congruence.
          -- apply list_lookup_singleton_Some in Hx as [Hx _]. rewrite Hi. f_equal. lia.
      + rewrite lookup_insert_ne by done. rewrite Hids. split.
        * intros (x & Hx & E). exists x. split; [by apply lookup_app_l_Some|done].
        * intros (x & Hx & E). apply lookup_app_Some in Hx as [Hx|[Hle Hx]]; [eauto|].
          apply list_lookup_singleton_Some in Hx as [_ <-]. done. }
  rewrite valid_path_snoc. destruct (Z.eqb_spec (tl_ID t) 0) as [Hz|Hz].
  { split; [done|]. by intros (_ & ? & _). }
  destruct (ps_ids st !! tl_ID t) as [j|] eqn:Ej.
  { split; [done|]. intros (_ & _ & H). apply Hids in Ej as (x & Hx & Ex). destruct (last l) as [p|] eqn:El.
    - destruct H as (H & _). pose proof El as El'. apply last_snoc_inv in El' as [l' ->].
      assert (tl_ID x <= tl_ID p); [|lia]. apply lookup_app_Some in Hx as [Hx|[_ Hx]].
      + pose proof (vp_sorted _ Hv) as Hs. apply sorted_snoc in Hs as [_ Hs]. rewrite Forall_forall in Hs.
        destruct (Hs x) as [? _]; [by eapply list_elem_of_lookup_2|]. lia.
      + apply list_lookup_singleton_Some in Hx as [_ <-]. lia.
    - apply last_None in El as ->. by rewrite lookup_nil in Hx. }
  rewrite Hi, Hp, Hl in *. destruct (last l) as [p|] eqn:El; cbn [from_option] in *.
  - destruct (length l) as [|n] eqn:Elen; [by apply nil_length_inv in Elen as ->|].
    destruct (tl_ForkLSN t) as [f|] eqn:Ef; [|split; [done|]; by intros (_ & _ & _ & _ & f & n' & [=] & _)].
    destruct (Z.leb_spec (tl_ID t) (tl_ID p)) as [|Hlt]; [split; [done|]; intros (_ & _ & ? & _); lia|].
    destruct (ParseLSN f) as [m|] eqn:Em; [|split; [done|]; intros (_ & _ & _ & _ & f' & n' & [= <-] & ?); congruence].
    assert (fork_of t = m) as Hm by (unfold fork_of; rewrite Ef; by apply lsn_ok).
    destruct (Z.ltb_spec m (fork_of p)); [split; [done|]; intros (_ & _ & _ & ? & _); lia|].
    split; [|eauto]. intros st' [= <-]. apply Hnext; [done| |done]. apply valid_path_snoc. rewrite El.
    split_and!; auto; [lia|]. eauto.
  - apply last_None in El as ->. cbn [length] in *. destruct (tl_ForkLSN t) as [f|] eqn:Ef.
    + split; [done|]. by intros (_ & _ & [=]).
    + split; [|eauto]. intros st' [= <-]. apply Hnext; [by unfold fork_of; rewrite Ef| |done].
      apply valid_path_snoc. split_and!; [apply valid_path_nil|done|done].
Qed.

Lemma path_loop l :
  (forall st, forM l (mkPathState 0 0 ∅ 0) path_step = Ok st -> path_inv l st)
  /\ (valid_path l -> exists st, forM l (mkPathState 0 0 ∅ 0) path_step = Ok st).
Proof.
  induction l as [|t l [IH1 IH2]] using rev_ind.
  - split; [|eauto]. cbn. intros st [= <-]. split; cbn; [apply valid_path_nil|done|done|done|].
    intros id i. rewrite lookup_empty. split; [done|]. intros (t & Ht & _). by rewrite lookup_nil in Ht.
  - rewrite forM_app. split.
    + intros st (st0 & H0 & H1)%res_bind_ok. cbn in H1. apply res_bind_ok in H1 as (st1 & H1 & [= <-]).
      by apply (path_step_inv l t st0 (IH1 _ H0)).
    + intros Hv. pose proof Hv as Hv'. apply valid_path_snoc in Hv' as (Hv' & _). destruct (IH2 Hv') as [st0 H0].
      destruct (path_step_inv l t st0 (IH1 _ H0)) as [_ H2]. destruct (H2 Hv) as [st1 H1].
      exists st1. rewrite H0. cbn. by rewrite H1.
Qed.

(** [validate_path] accepts exactly the valid paths, and its map is the index of each timeline. *)
Lemma validate_path_spec path :
  (exists ids, validate_path path = Ok ids) <-> valid_path path.
Proof.
  unfold validate_path. destruct (path_loop path) as [H1 H2]. split.
  - intros [ids (st & Hst & _)%res_bind_ok]. apply (H1 _ Hst).
  - intros [st Hst]%H2. exists (ps_ids st). by rewrite Hst.
Qed.

Lemma validate_path_ids path ids : validate_path path = Ok ids ->
  valid_path path /\ forall id i, ids !! id = Some i <-> exists t, path !! i = Some t /\ tl_ID t = id.
Proof.
  unfold validate_path. intros (st & Hst & [= <-])%res_bind_ok.
  destruct (path_loop path) as [H1 _]. destruct (H1 _ Hst) as [? _ _ _ ?]. done.
Qed.

(** ** Histories yield valid paths *)
Record history_inv (timeline : Z) (st : history_state) : Prop := {
  hi_valid : valid_path (hs_path st);
  hi_len : Z.of_nat (length (hs_path st)) <= 1023;
  hi_last : hs_path st <> [] ->
    from_option tl_ID 0 (last (hs_path st)) = hs_previous st /\ hs_previous st < timeline
    /\ is_u64 (hs_last st) /\ from_option fork_of 0 (last (hs_path st)) <= hs_last st }.

Lemma fork_format n : is_u64 n -> fork_of (mkTimeline 0 (Some (format_lsn n))) = n.
Proof. intros H. unfold fork_of. cbn. by rewrite lsn_format. Qed.

Lemma history_line_inv timeline st line st' :
  history_inv timeline st -> history_line timeline st line = Ok st' -> history_inv timeline st'.
Proof.
  intros [Hv Hl Hlast]. unfold history_line. destruct (_ || _); [by intros [= <-]|].
  destruct (Fields _) as [|f0 [|f1 [|f2 fs]]]; [done..|]. destruct (Z.leb_spec 1023 (Z.of_nat (length (hs_path st)))); [done|].
  destruct (ParseUint f0 10 32) as [n|]; [|done]. destruct (ParseLSN f1) as [e|] eqn:Ee; [|done].
  destruct (_ || _) eqn:Eg; [done|]. intros [= <-].
  apply orb_false_iff in Eg as [Eg E4]. apply orb_false_iff in Eg as [Eg E3]. apply orb_false_iff in Eg as [E1 E2].
  apply Z.eqb_neq in E1. apply Z.leb_gt in E2, E3. apply ParseLSN_canonical in Ee as [_ Hu].
  destruct (hs_path st) as [|h t] eqn:Ep.
  - cbn in *. split; cbn; [|lia|intros _; split_and!; auto].
    + apply (valid_path_snoc [] (mkTimeline n None)). split_and!; [apply valid_path_nil|done|done].
    + unfold fork_of. cbn. apply Hu.
  - destruct (Hlast ltac:(done)) as (Hid & Hpt & Hlu & Hfk). rewrite <- Ep in *.
    assert (hs_path st <> []) as Hne by (by rewrite Ep).
    cbn in E4. apply Z.ltb_ge in E4.
    assert (fork_of (mkTimeline n (Some (format_lsn (hs_last st)))) = hs_last st) as Hf
      by (unfold fork_of; cbn; by rewrite lsn_format).
    split; cbn [hs_path hs_previous hs_last].
    + apply valid_path_snoc. split_and!; [done|done|].
      destruct (last (hs_path st)) as [p|] eqn:El; cbn in *.
      * rewrite Hf. split_and!; [lia|lia|]. eexists _, _. split; [done|]. by apply ParseLSN_format.
      * by apply last_None in El.
    + rewrite length_app. cbn. lia.
    + intros _. rewrite last_snoc. cbn [from_option]. rewrite Hf. split_and!; auto.
Qed.

(** A parsed timeline history is a path that [Plan.Validate] accepts: it ends at the
    requested timeline, has at least two and at most 1024 entries, strictly
    increasing nonzero timelines, canonical fork positions that do not decrease,
    and no fork on the first entry only. *)
Theorem ParseHistory_valid_path timeline b path :
  ParseHistory timeline b = Ok path ->
  valid_path path /\ (exists ids, validate_path path = Ok ids)
  /\ from_option tl_ID 0 (last path) = timeline /\ 2 <= Z.of_nat (length path) <= 1024.
Proof.
  unfold ParseHistory. destruct (_ || _) eqn:Eg; [done|]. intros (st & Hst & H)%res_bind_ok.
  assert (history_inv timeline st) as [Hv Hl Hlast].
  { revert Hst. apply (forM_inv (fun _ st => history_inv timeline st)).
    - split; cbn; [apply valid_path_nil|lia|done].
    - intros ? line ? a a' _ Ha. by apply history_line_inv. }
  destruct (hs_path st) as [|h t] eqn:Ep; [done|]. rewrite <- Ep in *. injection H as <-.
  assert (hs_path st <> []) as Hne by (by rewrite Ep). destruct (Hlast Hne) as (Hid & Hpt & Hlu & Hfk).
  assert (timeline <> 0) as Hz by (apply orb_false_iff in Eg as [Eg _]; apply orb_false_iff in Eg as [Eg _]; apply Z.leb_gt in Eg; lia).
  assert (valid_path (hs_path st ++ [mkTimeline timeline (Some (format_lsn (hs_last st)))])) as Hvp.
  { apply valid_path_snoc. split_and!; [done|done|]. destruct (last (hs_path st)) as [p|] eqn:El.
    - cbn in Hid, Hfk.
      assert (fork_of (mkTimeline timeline (Some (format_lsn (hs_last st)))) = hs_last st) as ->
        by (unfold fork_of; cbn; by rewrite lsn_format).
      split_and!; [cbn; lia|lia|].
      eexists _, _. split; [done|]. by apply ParseLSN_format.
    - by apply last_None in El. }
  split_and!; [done|by apply validate_path_spec|by rewrite last_snoc| |].
  - rewrite length_app. rewrite Ep. cbn. lia.
  - rewrite length_app. cbn. lia.
Qed.

Example history_ex : ParseHistory 3 ("1" +:+ String "009" ("0/3000000" +:+ String "009" ("no recovery target" +:+
  String newline ("2" +:+ String "009" ("0/5000028" +:+ String "009" "before promote")))))
  = Ok [mkTimeline 1 None; mkTimeline 2 (Some "0/3000000"); mkTimeline 3 (Some "0/5000028")].
Proof. vm_compute. reflexivity. Qed.

Lemma ParseHistory_valid_path_witness :
  valid_path [mkTimeline 1 None; mkTimeline 2 (Some "0/3000000")]
  /\ (exists ids, validate_path [mkTimeline 1 None; mkTimeline 2 (Some "0/3000000")] = Ok ids)
  /\ 2 = 2 /\ 2 <= 2 <= 1024.
Proof.
  apply (ParseHistory_valid_path 2 "1 0/3000000 reason"). vm_compute. reflexivity.
Defined.

(** ** Required archive *)
Lemma index_of_spec id path :
  match index_of id path with
  | Some i => exists t, path !! i = Some t /\ tl_ID t = id
  | None => Forall (fun t => tl_ID t <> id) path
  end.
Proof.
  induction path as [|v path IH]; cbn; [done|].
  destruct (Z.eqb_spec (tl_ID v) id) as [E|E]; [by exists v|].
  destruct (index_of id path); cbn; [done|]. by constructor.
Qed.

Lemma index_unique path i j x y : StronglySorted path_before path ->
  path !! i = Some x -> path !! j = Some y -> tl_ID x = tl_ID y -> i = j.
Proof.
  intros Hs Hx Hy E. destruct (Nat.lt_trichotomy i j) as [Hlt|[?|Hlt]]; [exfalso|done|exfalso].
  - destruct (list_elem_of_split_length path i x Hx) as (l1 & l2 & -> & ->).
    apply StronglySorted_app in Hs as (_ & _ & Hs). apply StronglySorted_cons in Hs as [Hs _].
    rewrite Forall_forall in Hs. destruct (Hs y) as [? _]; [|lia].
    rewrite lookup_app_r in Hy by lia. destruct (j - length l1)%nat as [|k] eqn:Ek; [lia|].
    by eapply list_elem_of_lookup_2.
  - destruct (list_elem_of_split_length path j y Hy) as (l1 & l2 & -> & ->).
    apply StronglySorted_app in Hs as (_ & _ & Hs). apply StronglySorted_cons in Hs as [Hs _].
    rewrite Forall_forall in Hs. destruct (Hs x) as [? _]; [|lia].
    rewrite lookup_app_r in Hx by lia. destruct (i - length l1)%nat as [|k] eqn:Ek; [lia|].
    by eapply list_elem_of_lookup_2.
Qed.

Section Walk.
Context (size : Z) (segs : gset (Z * Z)) (tl frontier : Z) (Hsize : 0 < size).

Lemma walk_spec fuel count start :
  walk fuel size segs tl count start frontier = Some (Ok ()) ->
  forall k, 0 <= k -> start + k * size < frontier -> (tl, start + k * size) ∈ segs.
Proof using Hsize.
  revert count start. induction fuel as [|f IH]; intros count start; cbn [walk]; [done|].
  destruct (Z.leb_spec frontier start).
  { intros _ k Hk Hlt. nia. }
  destruct (_ || _) eqn:Eg; [done|]. apply orb_false_iff in Eg as [_ Eg].
  apply negb_false_iff, bool_decide_eq_true in Eg. destruct (_ <? _); [done|].
  intros H1 k Hk Hlt. destruct (decide (k = 0)) as [->|].
  - by replace (start + 0 * size) with start by lia.
  - replace (start + k * size) with (start + size + (k - 1) * size) in * by ring.
    eapply IH; [eassumption|lia|done].
Qed.

(** Each round consumes a different archived segment. *)
Lemma walk_fuel fuel count start (seen : list Z) :
  NoDup seen -> (forall s, s ∈ seen -> (tl, s) ∈ segs /\ s < start) ->
  (stdpp.base.size segs + 2 <= fuel + length seen)%nat ->
  walk fuel size segs tl count start frontier <> None.
Proof using Hsize.
  revert count start seen. induction fuel as [|f IH]; intros count start seen Hn Hs Hlen; cbn [walk].
  - exfalso.
    assert (length (pair tl <$> seen) <= stdpp.base.size segs)%nat.
    { rewrite <- (size_list_to_set (C := gset (Z * Z)) (pair tl <$> seen)).
      - apply subseteq_size. intros [t x] H%elem_of_list_to_set. apply list_elem_of_fmap in H as (y & [= -> ->] & Hy).
        by apply Hs.
      - apply NoDup_fmap_2; [|done]. by intros ? ? [= ->]. }
    rewrite length_fmap in *. lia.
  - destruct (_ <=? _); [done|]. destruct (_ || _) eqn:Eg; [done|]. apply orb_false_iff in Eg as [_ Eg].
    apply negb_false_iff, bool_decide_eq_true in Eg. destruct (_ <? _); [done|].
    apply (IH _ _ (start :: seen)).
    + constructor; [|done]. intros Hin. destruct (Hs _ Hin). lia.
    + intros s [->|Hin]%elem_of_cons; [split; [done|lia]|]. destruct (Hs _ Hin). split; [done|lia].
    + cbn. lia.
Qed.
End Walk.

(** The coverage walk of [Resolve] always terminates: whatever the archive
    inventory and the interval, the number of rounds is bounded by the number of archived
    segments plus two, so the fuel of the model is never exhausted. *)
Theorem resolve_walk_terminates size segs tl start frontier :
  0 < size -> exists r, walk (stdpp.base.size segs + 2) size segs tl 0 start frontier = Some r.
Proof.
  intros Hs. destruct (walk _ _ _ _ _ _ _) as [r|] eqn:E; [eauto|]. exfalso.
  eapply (walk_fuel size segs tl frontier Hs _ 0 start []); [constructor| | |exact E].
  - intros s H. by apply elem_of_nil in H.
  - cbn. lia.
Qed.
Lemma resolve_walk_terminates_witness :
  exists r, walk (stdpp.base.size ({[(1, 0)]} : gset (Z * Z)) + 2) 16 {[(1, 0)]} 1 0 0 32 = Some r.
Proof. apply (resolve_walk_terminates 16 {[(1, 0)]} 1 0 32). lia. Defined.

Lemma leaf_frontier_bounds size segs tl pos frontier :
  is_u64 pos -> leaf_frontier size segs tl pos = Ok frontier -> pos <= frontier /\ is_u64 frontier.
Proof.
  intros Hp. unfold leaf_frontier.
  apply (forM_inv (fun _ f => pos <= f /\ is_u64 f)); [split; [lia|done]|].
  intros ? [t s] ? a a' _ [H1 [H2 H3]]. destruct (negb _); [by intros [= <-]|].
  destruct (Z.ltb_spec (u64_max - size) s); [done|]. intros [= <-]. unfold is_u64, u64_max in *. lia.
Qed.

(** A range [w] whose every intersecting aligned segment is archived. *)
Definition range_archived (size : Z) (segs : gset (Z * Z)) (w : WALRange) : Prop :=
  forall start, start mod size = 0 -> start < lsn (wr_EndLSN w) -> lsn (wr_StartLSN w) < start + size ->
    (wr_Timeline w, start) ∈ segs.

Lemma required_ranges_archived size segs tl pos path ranges :
  0 < size -> is_u64 pos -> required_ranges size segs tl pos path = Ok ranges ->
  Forall (range_archived size segs) ranges.
Proof.
  intros Hsize. revert pos ranges. induction path as [|t rest IH]; intros pos ranges Hp; cbn [required_ranges].
  { by intros [= <-]. }
  destruct (_ <? _); [by apply IH|]. intros (frontier & Hf & H)%res_bind_ok.
  apply res_bind_ok in H as (here & Hh & H). apply res_bind_ok in H as (more & Hm & [= <-]).
  assert (is_u64 frontier) as Hfu.
  { destruct rest as [|n rest]; [by apply leaf_frontier_bounds in Hf as []|].
    destruct (tl_ForkLSN n); [|done]. injection Hf as <-. apply lsn_u64. }
  apply Forall_app. split; [|by eapply IH]. destruct (Z.leb_spec frontier pos); [by injection Hh as <-|].
  destruct (walk _ _ _ _ _ _ _) as [[[]|]|] eqn:Ew; [|done..]. cbn in Hh. injection Hh as <-.
  constructor; [|done]. intros start Ha H1 H2. cbn in *. rewrite lsn_format in H1, H2 by done.
  apply Z.mod_divide in Ha as [k ->]; [|lia].
  pose proof (Z.div_mod pos size ltac:(lia)). pose proof (Z.mod_pos_bound pos size Hsize).
  replace (k * size) with (pos / size * size + (k - pos / size) * size) by ring.
  eapply walk_spec; [done|exact Ew| |nia]. enough (pos / size < k + 1) by lia. nia.
Qed.

Lemma required_archive_archived size segs t path c ranges :
  0 < size -> required_archive size segs t path c = Ok ranges -> Forall (range_archived size segs) ranges.
Proof.
  intros Hs. unfold required_archive. destruct (_ ==? _); [by intros [= <-]|].
  apply required_ranges_archived; [done|apply lsn_u64].
Qed.

Lemma resolve_names_spec size names st :
  resolve_names size names = Ok st ->
  forall t start, (t, start) ∈ av_segments st <-> exists name, name ∈ names /\ ArchivePosition name size = Ok (t, start).
Proof.
  unfold resolve_names.
  apply (forM_inv (fun pre st => forall t start, (t, start) ∈ av_segments st <->
    exists name, name ∈ pre /\ ArchivePosition name size = Ok (t, start))).
  - intros t s. cbn. split; [set_solver|]. intros (n & H & _). by apply elem_of_nil in H.
  - intros pre name post a a' _ Ha Hn t s. unfold resolve_name in Hn. apply res_bind_ok in Hn as (tt & Ht & Hn).
    setoid_rewrite elem_of_app. setoid_rewrite list_elem_of_singleton.
    assert (forall p, ArchivePosition name size = Ok p <-> String.length name = 24%nat /\ p = (tt, segment_start name size)) as Hpos.
    { intros p. unfold ArchivePosition. rewrite Ht. destruct (Nat.eqb_spec (String.length name) 24); naive_solver. }
    destruct (HasSuffix name ".partial") eqn:Ep.
    + injection Hn as <-. rewrite Ha. split; [naive_solver|]. intros (n & [Hin| ->] & Hp); [eauto|]. exfalso.
      apply Hpos in Hp as [Hl _].
      assert (class_n is_hex_upper 24 name = true) as Hc.
      { apply walRE_24; [|done]. unfold walTimeline in Ht. destruct (bad_segment_bytes size); [done|].
        by destruct (walRE name). }
      unfold class_n in Hc. apply andb_true_iff in Hc as [_ Hc].
      by rewrite (hex_no_suffix name ".partial" Hc eq_refl) in Ep.
    + injection Hn as <-. cbn. destruct (Nat.eqb_spec (String.length name) 24) as [El|El].
      * rewrite elem_of_union, elem_of_singleton, Ha. split.
        -- intros [[= -> ->]|(n & ? & ?)]; [|eauto]. exists name. split; [by right|]. by apply Hpos.
        -- intros (n & [Hin| ->] & Hp); [right; eauto|]. apply Hpos in Hp as [_ [= -> ->]]. by left.
      * rewrite Ha. split; [naive_solver|]. intros (n & [Hin| ->] & Hp); [eauto|]. by apply Hpos in Hp as [? _].
Qed.

(** ** The ranges of [Resolve] pass [Validate] *)
Section Accepted.
Context (size : Z) (segs : gset (Z * Z)) (path : list Timeline) (Hsize : 0 < size).

Lemma archive_range_step pos pi t frontier :
  is_u64 pos -> is_u64 frontier -> pos < frontier -> path !! pi = Some t ->
  (forall n, path !! S pi = Some n -> (exists f, tl_ForkLSN n = Some f) /\ fork_of n = frontier) ->
  archive_step path (pos, pi) (mkWALRange (tl_ID t) (format_lsn pos) (format_lsn frontier))
  = Ok (frontier, if decide (S pi < length path)%nat then S pi else pi).
Proof using.
  intros Hp Hf Hlt Ht Hn. unfold archive_step. cbn [wr_StartLSN wr_EndLSN wr_Timeline].
  rewrite !ParseLSN_format by done. rewrite bool_decide_eq_true_2 by done.
  destruct (Z.leb_spec frontier pos); [lia|]. cbn [negb orb]. unfold path_id. rewrite Ht. cbn [res_bind].
  rewrite bool_decide_eq_true_2 by done. cbn [negb]. unfold next_fork.
  destruct (path !! S pi) as [n|] eqn:En.
  - destruct (Hn n eq_refl) as [[f Hff] Hfo]. rewrite Hff. cbn [res_bind].
    assert (lsn f = frontier) as -> by (unfold fork_of in Hfo; by rewrite Hff in Hfo).
    destruct (Z.ltb_spec frontier frontier); [lia|]. rewrite Z.eqb_refl.
    rewrite decide_True; [done|]. by eapply lookup_lt_Some.
  - cbn [res_bind]. rewrite decide_False; [done|]. apply lookup_ge_None in En. lia.
Qed.

Lemma required_ranges_accepted tl suffix pi pos ranges :
  valid_path path -> is_u64 pos -> drop pi path = suffix -> suffix <> [] ->
  Forall (fun t => tl <= tl_ID t) suffix ->
  StronglySorted (fun a b => fork_of a < fork_of b) (drop (S pi) path) ->
  (forall n, path !! S pi = Some n -> pos < fork_of n) ->
  required_ranges size segs tl pos suffix = Ok ranges ->
  (length ranges <= length suffix)%nat
  /\ exists pos', forM ranges (pos, pi) (archive_step path) = Ok (pos', (length path - 1)%nat).
Proof using Hsize.
  intros Hv. revert pi pos ranges. induction suffix as [|t rest IH]; intros pi pos ranges Hp Hd Hne Htl Hst Hfk; [done|].
  inversion Htl as [|? ? Ht Hrest]; subst. cbn [required_ranges]. destruct (Z.ltb_spec (tl_ID t) tl); [lia|].
  assert (path !! pi = Some t) as Hpi by (rewrite <- (Nat.add_0_r pi), <- lookup_drop, Hd; done).
  assert (drop (S pi) path = rest) as Hd' by (rewrite <- Nat.add_1_r, <- drop_drop, Hd; done).
  intros (frontier & Hf & H')%res_bind_ok.
  apply res_bind_ok in H' as (here & Hh & H'). apply res_bind_ok in H' as (more & Hm & [= <-]).
  destruct rest as [|n rest].
  - apply leaf_frontier_bounds in Hf as [Hle Hfu]; [|done]. cbn in Hm. injection Hm as <-. rewrite app_nil_r.
    assert (path !! S pi = None) as Hnone.
    { apply lookup_ge_None. pose proof (f_equal length Hd') as Hlen. rewrite length_drop in Hlen. cbn in Hlen. lia. }
    assert (pi = length path - 1)%nat as Epi.
    { apply lookup_ge_None in Hnone. apply lookup_lt_Some in Hpi. lia. }
    destruct (Z.leb_spec frontier pos) as [|Hlt].
    + injection Hh as <-. cbn. split; [lia|]. exists pos. by rewrite <- Epi.
    + destruct (walk _ _ _ _ _ _ _) as [[[]|]|]; [|done..]. cbn in Hh. injection Hh as <-. split; [cbn; lia|].
      cbn [forM]. rewrite (archive_range_step pos pi t frontier); [|done..|by rewrite Hnone].
      cbn [res_bind]. exists frontier. rewrite decide_False by (apply lookup_ge_None in Hnone; lia). by rewrite <- Epi.
  - assert (path !! S pi = Some n) as Hn by (rewrite <- (Nat.add_0_r (S pi)), <- lookup_drop, Hd'; done).
    destruct (vp_rest _ Hv pi n Hn) as (f & m & Ef & Em). rewrite Ef in Hf. injection Hf as <-.
    assert (fork_of n = lsn f) as Efk by (unfold fork_of; by rewrite Ef).
    specialize (Hfk n Hn) as Hlt. rewrite Efk in Hlt.
    destruct (Z.leb_spec (lsn f) pos); [lia|].
    destruct (walk _ _ _ _ _ _ _) as [[[]|]|]; [|done..]. cbn in Hh. injection Hh as <-.
    rewrite Hd' in Hst. apply StronglySorted_cons in Hst as [Hst1 Hst2].
    assert (drop (S (S pi)) path = rest) as Hd2 by (rewrite <- Nat.add_1_r, <- drop_drop, Hd'; done).
    destruct (IH (S pi) (lsn f) more) as [Hl [pos' Hrun]]; [apply lsn_u64|done|done|done|by rewrite Hd2| |done|].
    + intros n' Hn'. assert (n' ∈ rest) as Hin.
      { rewrite <- Hd2. apply (list_elem_of_lookup_2 _ 0). by rewrite lookup_drop, Nat.add_0_r. }
      rewrite Forall_forall in Hst1. specialize (Hst1 n' Hin). lia.
    + split; [cbn in *; lia|]. exists pos'. cbn [app forM].
      rewrite (archive_range_step pos pi t (lsn f)); [|done|apply lsn_u64|done|done|].
      * cbn [res_bind]. rewrite decide_True by (by eapply lookup_lt_Some). done.
      * intros n' Hn'. rewrite Hn in Hn'. injection Hn' as <-. eauto.
Qed.

Lemma required_ranges_skip tl pos idx t :
  StronglySorted path_before path -> path !! idx = Some t -> tl_ID t = tl ->
  required_ranges size segs tl pos path = required_ranges size segs tl pos (drop idx path).
Proof using.
  revert idx. induction path as [|x l IH]; intros idx Hs Hi Ht; [done|].
  destruct idx as [|idx]; [done|]. cbn in Hi. apply StronglySorted_cons in Hs as [Hs1 Hs2].
  rewrite Forall_forall in Hs1. destruct (Hs1 t) as [Hlt _]; [by eapply list_elem_of_lookup_2|].
  cbn [required_ranges drop]. destruct (Z.ltb_spec (tl_ID x) tl); [|lia]. by apply IH.
Qed.
End Accepted.

(** The archive ranges [Resolve] freezes are accepted by [Plan.Validate]: for a
    valid path, a chosen eligible backup whose bundle ends at its stop position and
    strictly increasing forks after it, the ranges pass the contiguity check of
    [Validate], reach the target timeline, and number at most the length of the path. *)
Theorem required_archive_accepted size segs t path ids c idx ranges :
  bad_segment_bytes size = false -> validate_path path = Ok ids ->
  eligible c t path = true -> index_of (c_Timeline c) path = Some idx ->
  ParseLSN (c_BundledWALEndLSN c) = ParseLSN (c_StopLSN c) ->
  StronglySorted (fun a b => fork_of a < fork_of b) (drop (S idx) path) ->
  required_archive size segs t path c = Ok ranges ->
  validate_archive path (lsn (c_BundledWALEndLSN c)) (default 0%nat (ids !! c_Timeline c))
    (tg_Kind t ==? "immediate") ranges = Ok ()
  /\ (length ranges <= length path)%nat.
Proof.
  intros Hb Hvp He Hidx Hend Hst Hr. destruct (segment_bytes_facts size Hb) as (Hsize & _).
  destruct (validate_path_ids _ _ Hvp) as [Hv Hids].
  pose proof (index_of_spec (c_Timeline c) path) as Hsp. rewrite Hidx in Hsp. destruct Hsp as (x & Hx & Ex).
  assert (ids !! c_Timeline c = Some idx) as -> by (apply Hids; eauto). cbn [default from_option id].
  unfold required_archive in Hr. unfold validate_archive. destruct (tg_Kind t ==? "immediate") eqn:Ek.
  { injection Hr as <-. cbn. split; [done|lia]. }
  rewrite (required_ranges_skip size segs path _ _ idx x (vp_sorted _ Hv) Hx Ex) in Hr.
  assert (drop idx path = x :: drop (S idx) path) as Hdrop by (by apply drop_S).
  destruct (required_ranges_accepted size segs path Hsize (c_Timeline c) (drop idx path) idx
    (lsn (c_BundledWALEndLSN c)) ranges) as [Hl [pos' Hrun]]; [done|apply lsn_u64|done|by rewrite Hdrop| |done| |done|].
  - pose proof (vp_sorted _ Hv) as Hs. rewrite <- (take_drop idx path) in Hs.
    apply StronglySorted_app in Hs as (_ & _ & Hs). rewrite Hdrop in *. apply StronglySorted_cons in Hs as [Hs _].
    constructor; [lia|]. eapply Forall_impl; [exact Hs|]. intros y [? _]. lia.
  - intros n Hn. unfold eligible in He. rewrite Hidx, Hn in He. destruct (match tg_BackupUID t with Some _ => _ | None => _ end); [done|].
    unfold fork_of, lsn at 1. rewrite Hend. fold (lsn (c_StopLSN c)).
    destruct (tl_ForkLSN n) as [f|]; [|done]. unfold lsn at 2. destruct (ParseLSN f) as [fork|]; [|done].
    destruct (Z.leb_spec fork (lsn (c_StopLSN c))); [done|]. done.
  - rewrite Hrun. cbn [res_bind].
    assert (0 < length path)%nat by (apply lookup_lt_Some in Hx; lia).
    replace (S (length path - 1))%nat with (length path) by lia. rewrite Nat.eqb_refl, !andb_false_r.
    split; [done|]. rewrite length_drop in Hl. lia.
Qed.

(** Two forks at the same position make [Resolve]'s own plan invalid: the
    path is accepted, the archive is complete and the ranges are computed, but the contiguity
    check of [Validate] moves at most one timeline per range and rejects them. *)
Theorem equal_forks_rejected :
  let path := [mkTimeline 1 None; mkTimeline 2 (Some "0/3000000"); mkTimeline 3 (Some "0/3000000")] in
  let segs : gset (Z * Z) := {[(1, 0x2000000); (3, 0x3000000)]} in
  is_ok (validate_path path) = true
  /\ required_ranges (Z.shiftl 16 20) segs 1 0x2000100 path
     = Ok [mkWALRange 1 "0/2000100" "0/3000000"; mkWALRange 3 "0/3000000" "0/4000000"]
  /\ validate_archive path 0x2000100 0 false
       [mkWALRange 1 "0/2000100" "0/3000000"; mkWALRange 3 "0/3000000" "0/4000000"] = Err ErrInvalid.
Proof. vm_compute. done. Qed.

Definition ex_path : list Timeline := [mkTimeline 1 None; mkTimeline 2 (Some "0/3000000")].
Definition ex_ids : gmap Z nat := {[1 := 0%nat; 2 := 1%nat]}.
Definition ex_target : Target := mkTarget "latest" "" false None 2.
Definition ex_ranges : list WALRange :=
  [mkWALRange 1 "0/2000100" "0/3000000"; mkWALRange 2 "0/3000000" "0/4000000"].
Definition ex_segs : gset (Z * Z) := {[(1, 0x2000000); (2, 0x3000000)]}.

Lemma required_archive_accepted_witness :
  validate_archive ex_path (lsn (c_BundledWALEndLSN ex_commit)) (default 0%nat (ex_ids !! c_Timeline ex_commit))
    (tg_Kind ex_target ==? "immediate") ex_ranges = Ok () /\ (length ex_ranges <= length ex_path)%nat.
Proof.
  apply (required_archive_accepted (Z.shiftl 16 20) ex_segs ex_target ex_path ex_ids ex_commit 0 ex_ranges).
  all: lazymatch goal with |- StronglySorted _ _ => repeat constructor | |- _ => vm_compute; reflexivity end.
Defined.

(** ** Coverage *)
Lemma forM_unit {A} (f : A -> res ()) l : forM l () (fun _ x => f x) = Ok () -> Forall (fun x => f x = Ok ()) l.
Proof.
  apply (forM_inv (fun pre _ => Forall (fun x => f x = Ok ()) pre)); [done|].
  intros pre x post [] [] _ Hpre Hx. apply Forall_app. split; [done|]. by constructor.
Qed.

Record plan_ok (p : Plan) : Prop := {
  po_source : Identity_Validate (p_Source p) = Ok ();
  po_chain : exists full rest, p_Chain p = full :: rest /\ (length rest <= 1)%nat /\ c_Kind full = "full"
    /\ Forall (fun c => Commit_validate c (p_Source p) = Ok ()) (p_Chain p)
    /\ match rest with [] => True | d :: _ => validateParent d full = Ok () end;
  po_path : exists ids, validate_path (p_Path p) = Ok ids /\ (0 < length (p_Path p) <= 1024)%nat
    /\ from_option tl_ID 0 (last (p_Path p)) = tg_Timeline (p_Target p)
    /\ exists full rest ranges, p_Chain p = full :: rest /\ p_RequiredArchive p = Some ranges
       /\ eligible (List.last rest full) (p_Target p) (p_Path p) = true
       /\ validate_archive (p_Path p) (lsn (c_BundledWALEndLSN (List.last rest full)))
            (default 0%nat (ids !! c_Timeline (List.last rest full))) (tg_Kind (p_Target p) ==? "immediate") ranges = Ok () }.

Lemma Plan_Validate_ok p : Plan_Validate p = Ok () -> plan_ok p.
Proof.
  unfold Plan_Validate. destruct (_ || _) eqn:Eid; [done|]. destruct (RestoreOperationID _ _) as [op|]; [|done].
  destruct (_ || (p_LifetimeHoldID p !=? op)); [done|]. intros ([] & Ht & H)%res_bind_ok.
  destruct (p_RequiredArchive p) as [ranges|] eqn:Er; [|done].
  destruct (_ || (1024 <? Z.of_nat (length ranges))) eqn:Ecap; [done|].
  apply res_bind_ok in H as ([] & Hc & H). destruct (p_Chain p) as [|full rest] eqn:Ech; [done|].
  destruct (c_Kind full !=? "full") eqn:Ek; [done|]. apply res_bind_ok in H as ([] & Hpar & H).
  apply res_bind_ok in H as (ids & Hids & H). destruct (last (p_Path p)) as [leaf|] eqn:El; [|done].
  destruct (tl_ID leaf !=? _) eqn:Etl; [done|]. destruct (eligible _ _ _) eqn:Eel; [|done]. cbn [negb] in H.
  apply orb_false_iff in Eid as [Eid _]. apply orb_false_iff in Eid as [Eid _].
  apply orb_false_iff in Eid as [Eid _]. apply orb_false_iff in Eid as [Eid _].
  apply orb_false_iff in Eid as [Eid _]. apply orb_false_iff in Eid as [_ Eid].
  apply orb_false_iff in Ecap as [Ecap _]. apply orb_false_iff in Ecap as [Ecap E4].
  apply orb_false_iff in Ecap as [Ecap E3]. apply orb_false_iff in Ecap as [E1 E2].
  apply Z.ltb_ge in E2, E3, E4. bool_split. split.
  - unfold is_err in Eid. by destruct (Identity_Validate (p_Source p)) as [[]|].
  - exists full, rest. cbn in E2. split_and!; [done|lia|done| |by destruct rest].
    rewrite Ech. by apply forM_unit.
  - exists ids. split; [done|]. split; [lia|]. rewrite El. cbn. split; [done|].
    exists full, rest, ranges. done.
Qed.

Lemma archive_step_range path a a' w : archive_step path a w = Ok a' ->
  exists x y, ParseLSN (wr_StartLSN w) = Ok x /\ ParseLSN (wr_EndLSN w) = Ok y /\ x < y.
Proof.
  destruct a as [pos pi]. unfold archive_step. destruct (ParseLSN _) as [x|]; [|done].
  destruct (ParseLSN _) as [y|]; [|done]. destruct (_ || _) eqn:E; [done|]. intros _.
  apply orb_false_iff in E as [_ E]. apply Z.leb_gt in E. eauto.
Qed.

Lemma validate_archive_ranges path pos pi imm ranges : validate_archive path pos pi imm ranges = Ok () ->
  Forall (fun w => lsn (wr_StartLSN w) < lsn (wr_EndLSN w)) ranges.
Proof.
  unfold validate_archive. intros ([pos' pi'] & H & _)%res_bind_ok. revert H.
  apply (forM_inv (fun pre _ => Forall (fun w => lsn (wr_StartLSN w) < lsn (wr_EndLSN w)) pre)); [done|].
  intros pre w post a a' _ Hpre (x & y & Ex & Ey & Hlt)%archive_step_range. apply Forall_app. split; [done|].
  constructor; [|done]. by rewrite (lsn_ok _ _ Ex), (lsn_ok _ _ Ey).
Qed.

(** [w] holds a byte of the segment of [size] bytes at [start]. *)
Definition holds_byte (size start : Z) (w : WALRange) : Prop :=
  exists x, start <= x < start + size /\ lsn (wr_StartLSN w) <= x < lsn (wr_EndLSN w).

Lemma intersects_spec size timeline start w :
  0 < size -> 0 <= start -> lsn (wr_StartLSN w) < lsn (wr_EndLSN w) ->
  intersects size timeline start w = true <-> wr_Timeline w = timeline /\ holds_byte size start w.
Proof.
  intros Hs H0 Hlt. unfold intersects, holds_byte. pose proof (lsn_u64 (wr_StartLSN w)) as Ha.
  unfold is_u64 in Ha. cbv zeta. rewrite !andb_true_iff, Z.eqb_eq, Z.ltb_lt, orb_true_iff, Z.ltb_lt.
  apply and_iff_compat_l. unfold wrap64. split.
  - intros [H1 H2]. exists (Z.max start (lsn (wr_StartLSN w))).
    destruct (Z.lt_ge_cases (lsn (wr_StartLSN w)) start); [lia|].
    destruct H2 as [?|H2]; [lia|]. rewrite Z.mod_small in H2 by lia. apply Z.ltb_lt in H2. lia.
  - intros (x & H1 & H2). split; [lia|]. destruct (Z.lt_ge_cases (lsn (wr_StartLSN w)) start); [by left|].
    right. rewrite Z.mod_small by lia. apply Z.ltb_lt. lia.
Qed.

Lemma last_cons {A} (x : A) l : last (x :: l) = Some (List.last l x).
Proof.
  revert x. induction l as [|y l IH]; intros x; [done|]. rewrite last_cons_cons, IH. f_equal.
  clear. revert y. induction l as [|z l IH]; intros y; [done|]. cbn in *. destruct l; [done|]. apply IH.
Qed.

Lemma existsb_intersects size timeline start l :
  0 < size -> 0 <= start -> Forall (fun w => lsn (wr_StartLSN w) < lsn (wr_EndLSN w)) l ->
  existsb (intersects size timeline start) l = true
  <-> exists w, w ∈ l /\ wr_Timeline w = timeline /\ holds_byte size start w.
Proof.
  intros Hs H0 Hl. rewrite Forall_forall in Hl. rewrite existsb_exists. split.
  - intros (w & Hw & Hi). rewrite <- list_elem_of_In in Hw. exists w. split; [done|].
    by apply intersects_spec in Hi; [|done|done|apply Hl].
  - intros (w & Hw & Hi). exists w. rewrite <- list_elem_of_In. split; [done|].
    by apply intersects_spec; [done|done|apply Hl|].
Qed.

Lemma ArchivePosition_timeline name size t start :
  ArchivePosition name size = Ok (t, start) ->
  walTimeline name size = Ok t /\ String.length name = 24%nat /\ start = segment_start name size
  /\ HasSuffix name ".history" = false.
Proof.
  intros H. pose proof H as (Hb & Hc & _)%ArchivePosition_inv. unfold ArchivePosition in H.
  destruct (walTimeline name size) as [t'|]; [|done]. destruct (Nat.eqb_spec (String.length name) 24); [|done].
  injection H as -> <-. split_and!; [done|done|done|]. apply hex_no_suffix; [|done].
  unfold class_n in Hc. by apply andb_true_iff in Hc as [_ ?].
Qed.

Lemma Coverage_spec p name t start bundle remote :
  ArchivePosition name (id_WALSegmentBytes (p_Source p)) = Ok (t, start) ->
  Coverage p name = Ok (bundle, remote) ->
  (bundle = true <-> exists c w, last (p_Chain p) = Some c /\ w ∈ c_WALRanges c /\ wr_Timeline w = t
     /\ holds_byte (id_WALSegmentBytes (p_Source p)) start w)
  /\ (remote = true <-> exists w, w ∈ default [] (p_RequiredArchive p) /\ wr_Timeline w = t
     /\ holds_byte (id_WALSegmentBytes (p_Source p)) start w).
Proof.
  intros Hpos H. destruct (ArchivePosition_timeline _ _ _ _ Hpos) as (Ht & Hl & Hst & Hh).
  pose proof (ArchivePosition_bounds _ _ _ _ Hpos) as (_ & _ & H0 & _).
  pose proof Hpos as (Hb & _)%ArchivePosition_inv. destruct (segment_bytes_facts _ Hb) as (Hsz & _).
  unfold Coverage in H. apply res_bind_ok in H as ([] & Hv & H). apply Plan_Validate_ok in Hv.
  cbv zeta in H. rewrite Ht in H. cbn [res_bind] in H. rewrite Hh, Hl in H. cbn [Nat.eqb negb] in H.
  rewrite <- Hst in H.
  destruct (po_path p Hv) as (ids & Hids & _ & _ & full & rest & ranges & Ech & Er & _ & Harch).
  destruct (po_chain p Hv) as (full' & rest' & Ech' & _ & _ & Hval & _).
  rewrite Ech, last_cons in *. injection H as <- <-. rewrite Er in *. cbn [default from_option id].
  rewrite !existsb_intersects; [|done|done| |done|done|].
  - split; [|done]. split; [intros (w & H1 & H2); eauto|]. intros (c & w & [= <-] & H1 & H2). eauto.
  - by eapply validate_archive_ranges.
  - rewrite Forall_forall in Hval.
    assert (commit_ok (List.last rest full) (p_Source p)) as Hco.
    { apply Commit_validate_ok, Hval, last_Some_elem_of, last_cons. }
    rewrite (ck_ranges _ _ Hco). constructor; [|done]. cbn.
    destruct (ck_lsns _ _ Hco) as (redo & s & e & bs & E1 & E2 & E3 & E4 & E5 & ? & ?).
    rewrite (lsn_ok _ _ E4), (lsn_ok _ _ E5). lia.
Qed.

(** Coverage classifies a complete segment exactly by the bytes it holds: it is
    needed from the bundle iff it shares a byte with the chosen backup's bundled range, and
    from the archive iff it shares a byte with a required range of its timeline
    (positions as mathematical integers: the overflow-avoiding comparison is exact). *)
Theorem Coverage_exact p name t start bundle remote :
  ArchivePosition name (id_WALSegmentBytes (p_Source p)) = Ok (t, start) ->
  Coverage p name = Ok (bundle, remote) ->
  (bundle = true <-> exists c w, last (p_Chain p) = Some c /\ w ∈ c_WALRanges c /\ wr_Timeline w = t
     /\ holds_byte (id_WALSegmentBytes (p_Source p)) start w)
  /\ (remote = true <-> exists w, w ∈ default [] (p_RequiredArchive p) /\ wr_Timeline w = t
     /\ holds_byte (id_WALSegmentBytes (p_Source p)) start w).
Proof. apply Coverage_spec. Qed.

(** Nothing remote is missing.  If a plan carries the ranges computed from an
    archive listing, every complete segment that [Coverage] classifies as
    needed from the archive is a name of that listing. *)
Lemma coverage_archived size names st t path c ranges p name bundle :
  resolve_names size names = Ok st ->
  required_archive size (av_segments st) t path c = Ok ranges ->
  p_RequiredArchive p = Some ranges -> id_WALSegmentBytes (p_Source p) = size ->
  String.length name = 24%nat -> Coverage p name = Ok (bundle, true) -> name ∈ names.
Proof.
  intros Hn Hr Hp Hs Hl Hc.
  assert (exists tl start, ArchivePosition name size = Ok (tl, start)) as (tl & start & Hpos).
  { unfold Coverage in Hc. apply res_bind_ok in Hc as ([] & _ & Hc). cbv zeta in Hc. rewrite Hs in Hc.
    apply res_bind_ok in Hc as (tl & Htl & _). unfold ArchivePosition. rewrite Htl, Hl. cbn. eauto. }
  pose proof Hpos as (Hb & _)%ArchivePosition_inv. destruct (segment_bytes_facts _ Hb) as (Hsz & _).
  pose proof (ArchivePosition_bounds _ _ _ _ Hpos) as (_ & Hal & _).
  rewrite <- Hs in Hpos. destruct (Coverage_spec p name tl start bundle true Hpos Hc) as [_ Hrem].
  destruct (proj1 Hrem eq_refl) as (w & Hw & Htl & x & Hx1 & Hx2). rewrite Hp in Hw. cbn in Hw. rewrite Hs in *.
  pose proof (required_archive_archived _ _ _ _ _ _ Hsz Hr) as Harch. rewrite Forall_forall in Harch.
  specialize (Harch w Hw start Hal ltac:(lia) ltac:(lia)). rewrite Htl in Harch.
  apply (resolve_names_spec _ _ _ Hn) in Harch as (n' & Hin & Hn').
  by rewrite (ArchivePosition_inj _ _ _ _ Hpos Hn').
Qed.


(** ** No run-time panic *)
Definition no_panic {A} (r : res A) : Prop := r <> Err Panic.

Lemma no_panic_bind {A B} (m : res A) (k : A -> res B) :
  no_panic m -> (forall a, m = Ok a -> no_panic (k a)) -> no_panic (let? a := m in k a).
Proof. unfold no_panic. intros Hm Hk. destruct m as [a|e]; cbn; [by apply Hk|congruence]. Qed.

Lemma no_panic_forM {A B} (l : list A) (acc : B) (f : B -> A -> res B) :
  (forall b a, no_panic (f b a)) -> no_panic (forM l acc f).
Proof.
  intros Hf. revert acc. induction l as [|x l IH]; intros acc; cbn; [done|].
  apply no_panic_bind; [apply Hf|]. intros b _. apply IH.
Qed.

Lemma ParseLSN_no_panic s : no_panic (ParseLSN s).
Proof. unfold ParseLSN. destruct (lsnRE s); cbn; [|done]. by destruct (Split "/" s) as [|? [|? [|]]]. Qed.

Ltac np_step :=
  match goal with
  | |- no_panic (res_bind _ _) => apply no_panic_bind; [|intros]
  | |- no_panic (ParseLSN _) => apply ParseLSN_no_panic
  | |- no_panic (Ok _) => done
  | |- no_panic (Err _) => done
  | |- no_panic (forM _ _ _) => apply no_panic_forM; intros
  | |- no_panic (match ?x with _ => _ end) => destruct x
  | |- no_panic (let '(_, _) := ?x in _) => destruct x
  end.
Ltac np := repeat np_step.

Lemma Commit_validate_no_panic c id : no_panic (Commit_validate c id).
Proof. pose proof (Commit_validate_schema_only c id) as H. unfold no_panic. intros E. by rewrite E in H. Qed.

Lemma Target_validate_no_panic t : no_panic (Target_validate t).
Proof. unfold Target_validate, timeTarget. cbv zeta. np. Qed.

Lemma archive_step_no_panic path pos pi w : valid_path path -> (pi < length path)%nat ->
  no_panic (archive_step path (pos, pi) w)
  /\ forall pos' pi', archive_step path (pos, pi) w = Ok (pos', pi') -> (pi' < length path)%nat.
Proof.
  intros Hv Hpi. unfold archive_step. destruct (ParseLSN (wr_StartLSN w)) as [a|]; [|done].
  destruct (ParseLSN (wr_EndLSN w)) as [b|]; [|done]. destruct (_ || _); [done|].
  unfold path_id. destruct (lookup_lt_is_Some_2 _ _ Hpi) as [t Ht]. rewrite Ht. cbn [res_bind].
  destruct (negb _); [done|]. unfold next_fork. destruct (path !! S pi) as [n|] eqn:En; cbn [res_bind].
  - destruct (vp_rest _ Hv pi n En) as (f & m & -> & _). cbn [res_bind]. destruct (_ <? _); [done|].
    split; [done|]. intros pos' pi' [= _ <-]. apply lookup_lt_Some in En. destruct (_ =? _); lia.
  - split; [done|]. by intros pos' pi' [= _ <-].
Qed.

Lemma validate_archive_no_panic path pos pi imm ranges :
  valid_path path -> (pi < length path)%nat -> no_panic (validate_archive path pos pi imm ranges).
Proof.
  intros Hv Hpi. unfold validate_archive. apply no_panic_bind; [|intros [pos' pi'] _; np].
  revert pos pi Hpi. induction ranges as [|w l IH]; intros pos pi Hpi; cbn; [done|].
  destruct (archive_step_no_panic path pos pi w Hv Hpi) as [H1 H2].
  apply no_panic_bind; [done|]. intros [pos' pi'] Ha. apply IH. eauto.
Qed.

(** Validating a plan and classifying a WAL name never panic, whatever the
    plan holds: every index and pointer the code uses unchecked is established by an earlier check. *)
Theorem Plan_Validate_no_panic p name :
  Plan_Validate p <> Err Panic /\ Coverage p name <> Err Panic.
Proof.
  assert (no_panic (Plan_Validate p)) as Hp.
  { unfold Plan_Validate. destruct (_ || _); [done|]. unfold RestoreOperationID.
    destruct (negb _ || _); [done|]. destruct (_ || _); [done|].
    apply no_panic_bind; [apply Target_validate_no_panic|]. intros _ _.
    destruct (p_RequiredArchive p) as [ranges|]; [|done].
    destruct (_ || (1024 <? Z.of_nat (length ranges))) eqn:Ecap; [done|].
    apply no_panic_bind; [apply no_panic_forM; intros; apply Commit_validate_no_panic|]. intros _ _.
    apply orb_false_iff in Ecap as [Ecap _]. apply orb_false_iff in Ecap as [Ecap E4].
    apply orb_false_iff in Ecap as [Ecap E3]. apply orb_false_iff in Ecap as [E1 E2].
    destruct (p_Chain p) as [|full rest]; [done|]. destruct (negb _); [done|].
    apply no_panic_bind; [destruct rest; [done|]; unfold validateParent; cbv zeta; np|]. intros _ _.
    apply no_panic_bind.
    { unfold validate_path. apply no_panic_bind; [|done].
      apply no_panic_forM. intros b a. unfold path_step. cbv zeta. np. }
    intros ids Hids. apply validate_path_ids in Hids as [Hv Hids].
    destruct (last (p_Path p)) as [leaf|] eqn:El.
    2: { apply last_None in El. rewrite El in E3. done. }
    destruct (negb _); [done|]. destruct (negb _); [done|]. apply validate_archive_no_panic; [done|].
    destruct (ids !! c_Timeline (List.last rest full)) as [i|] eqn:Ei; cbn.
    - apply Hids in Ei as (t & Ht & _). by eapply lookup_lt_Some.
    - apply Z.ltb_ge in E3. lia. }
  split; [exact Hp|]. unfold Coverage. apply (no_panic_bind _ _ Hp). intros [] Hv.
  apply Plan_Validate_ok in Hv. cbv zeta. apply no_panic_bind; [unfold walTimeline; np|]. intros t _.
  destruct (HasSuffix _ _); [done|]. destruct (negb _); [done|].
  destruct (po_chain p Hv) as (full & rest & -> & _). by rewrite last_cons.
Qed.

(** ** The chosen backup *)
Lemma newer_commit_asym a b : newer a b = true -> newer b a = false.
Proof.
  unfold newer, After. cbv zeta. rewrite (Z.eqb_sym (stamp_time (c_StoppedAt b))).
  destruct (_ =? _); cbn; [apply ltb_antisym|]. rewrite Z.ltb_lt, Z.ltb_ge. lia.
Qed.
Lemma newer_commit_ge_trans a b c : newer b a = false -> newer c b = false -> newer c a = false.
Proof.
  unfold newer, After. cbv zeta.
  destruct (Z.eqb_spec (stamp_time (c_StoppedAt b)) (stamp_time (c_StoppedAt a))),
           (Z.eqb_spec (stamp_time (c_StoppedAt c)) (stamp_time (c_StoppedAt b))),
           (Z.eqb_spec (stamp_time (c_StoppedAt c)) (stamp_time (c_StoppedAt a))); cbn;
    intros H1 H2; rewrite ?Z.ltb_ge in *; try lia; by eapply ltb_ge_trans.
Qed.

(** The backup chosen for a restore is the newest live eligible one of the
    catalog (ties broken by identifier), and none is chosen only if no live commit is eligible. *)
Lemma choose_spec t path entries :
  match choose t path entries with
  | Some c => (c, false) ∈ entries /\ eligible c t path = true
      /\ forall x, (x, false) ∈ entries -> eligible x t path = true -> newer x c = false
  | None => forall x, (x, false) ∈ entries -> eligible x t path = false
  end.
Proof.
  unfold choose. induction entries as [|[x r] l IH] using rev_ind.
  { cbn. intros x H. by apply elem_of_nil in H. }
  assert (forall y, (y, false) ∈ l ++ [(x, r)] <-> (y, false) ∈ l \/ (y, false) = (x, r)) as Hin.
  { intros y. by rewrite elem_of_app, list_elem_of_singleton. }
  rewrite foldl_snoc. unfold choose_step at 1.
  destruct (foldl _ None l) as [c|].
  - destruct IH as (H1 & H2 & H3). destruct r; cbn [orb].
    { split_and!; [by apply Hin; left|done|]. intros y [Hy|[=]]%Hin He. auto. }
    destruct (eligible x t path) eqn:Ex; cbn [negb].
    + destruct (newer x c) eqn:En.
      * split_and!; [by apply Hin; right|done|]. intros y [Hy|[= ->]]%Hin He.
        -- eapply newer_commit_ge_trans; [|by apply H3]. by apply newer_commit_asym.
        -- destruct (newer x x) eqn:Exx; [|done]. by rewrite (newer_commit_asym _ _ Exx) in Exx.
      * split_and!; [by apply Hin; left|done|]. intros y [Hy|[= ->]]%Hin He; auto.
    + split_and!; [by apply Hin; left|done|]. intros y [Hy|[= ->]]%Hin He; [auto|congruence].
  - destruct r; cbn [orb].
    { intros y [Hy|[=]]%Hin. auto. }
    destruct (eligible x t path) eqn:Ex; cbn [negb].
    + split_and!; [by apply Hin; right|done|]. intros y [Hy|[= ->]]%Hin He.
      * by rewrite IH in He.
      * destruct (newer x x) eqn:Exx; [|done]. by rewrite (newer_commit_asym _ _ Exx) in Exx.
    + intros y [Hy|[= ->]]%Hin; auto.
Qed.

(** The restore operation identifier of valid inputs exists and is itself a valid
    identifier, so the lifetime holder that carries it is always accepted by the gate. *)
Theorem RestoreOperationID_valid target fingerprint :
  validID target = true -> hashRE fingerprint = true ->
  exists op, RestoreOperationID target fingerprint = Ok op /\ validID op = true.
Proof.
  intros Ht Hf. unfold RestoreOperationID. rewrite Ht, Hf. cbn [negb orb]. eexists. split; [done|].
  destruct (Sum256_spec ("cnpg-backup/restore/v1" +:+ String nul target +:+ String nul fingerprint)) as [Hl Hr].
  apply uuid_text_valid; [by right|rewrite Hl; lia|by apply Forall_forall].
Qed.
Lemma RestoreOperationID_valid_witness :
  exists op, RestoreOperationID "66666666-6666-4666-8666-666666666666" ex_hash = Ok op /\ validID op = true.
Proof.
  apply (RestoreOperationID_valid "66666666-6666-4666-8666-666666666666" ex_hash); vm_compute; reflexivity.
Defined.

(** ** A concrete plan *)
Definition ex_operation : string :=
  match RestoreOperationID "66666666-6666-4666-8666-666666666666" ex_hash with Ok op => op | Err _ => "" end.
Definition ex_plan : Plan :=
  mkPlan 1 ex_identity "77777777-7777-4777-8777-777777777777" "66666666-6666-4666-8666-666666666666" ex_hash
    ex_operation ex_operation "88888888-8888-4888-8888-888888888888" ex_target ex_path [ex_commit] (Some ex_ranges).
Definition ex_names : list string :=
  ["000000010000000000000002"; "000000020000000000000003"; "00000002.history"].

Example ex_plan_valid : Plan_Validate ex_plan = Ok ().
Proof. vm_compute. reflexivity. Qed.

Lemma Coverage_exact_witness :
  (true = true <-> exists c w, last (p_Chain ex_plan) = Some c /\ w ∈ c_WALRanges c /\ wr_Timeline w = 1
     /\ holds_byte (id_WALSegmentBytes (p_Source ex_plan)) 0x2000000 w)
  /\ (true = true <-> exists w, w ∈ default [] (p_RequiredArchive ex_plan) /\ wr_Timeline w = 1
     /\ holds_byte (id_WALSegmentBytes (p_Source ex_plan)) 0x2000000 w).
Proof.
  apply (Coverage_exact ex_plan "000000010000000000000002" 1 0x2000000 true true); vm_compute; reflexivity.
Defined.
