(* ===== verification/Prog.v ===== *)
(** * Programs over an effect signature

    Code that is sequential between its calls to an environment is a [prog]: a tree of calls, each with
    the continuation that takes its answer.  [E X] is the type of the calls answered in [X].  Nothing is assumed
    of the answers: a theorem about a [prog] holds for every environment. *)

From S2P Require Import Prelude.

Inductive prog (E : Type -> Type) (A : Type) : Type :=
| Ret (a : A)
| Vis {X : Type} (e : E X) (k : X -> prog E A).
Arguments Ret {E A} a.
Arguments Vis {E A X} e k.

Section Programs.
Context {E : Type -> Type}.

Fixpoint bind {A B} (p : prog E A) (f : A -> prog E B) : prog E B :=
  match p with
  | Ret a => f a
  | Vis e k => Vis e (fun x => bind (k x) f)
  end.
Definition call {X} (e : E X) : prog E X := Vis e Ret.
(** Error propagation: [if err != nil { return err }]. *)
Definition bindE {Er A B} (p : prog E (result Er A)) (f : A -> prog E (result Er B)) : prog E (result Er B) :=
  bind p (fun r => match r with Ok a => f a | Err e => Ret (Err e) end).
Definition fail {Er A} (e : Er) : prog E (result Er A) := Ret (Err e).
Definition done {Er A} (a : A) : prog E (result Er A) := Ret (Ok a).

(** A visitor run over a list, stopping at its first error. *)
Fixpoint visit_all {Er A B} (l : list A) (acc : B) (visit : B -> A -> prog E (result Er B)) : prog E (result Er B) :=
  match l with
  | [] => done acc
  | x :: l => bindE (visit acc x) (fun acc => visit_all l acc visit)
  end.
End Programs.

Declare Scope prog_scope.
Delimit Scope prog_scope with prog.
Notation "'let!' x := p 'in' k" := (bind p (fun x => k))
  (at level 10, x pattern, p at level 100, k at level 200) : prog_scope.
Notation "'let*' x := p 'in' k" := (bindE p (fun x => k))
  (at level 10, x pattern, p at level 100, k at level 200) : prog_scope.
Notation "p ';;*' k" := (bindE p (fun _ => k))
  (at level 100, k at level 200, right associativity) : prog_scope.
Open Scope prog_scope.

(** ** Traces and specifications *)
Inductive action (E : Type -> Type) :=
| Act {X : Type} (e : E X) (x : X).
Arguments Act {E X} e x.

Section Specifications.
Context {E : Type -> Type}.
Abbreviation trace := (list (action E)).

(** [wp G Q p tr]: started after the trace [tr] (newest first), every call [p] makes satisfies [G] with
    the trace before it, and every result satisfies [Q] with the whole trace. *)
Fixpoint wp {A} (G : trace -> forall X, E X -> Prop) (Q : trace -> A -> Prop) (p : prog E A) (tr : trace) : Prop :=
  match p with
  | Ret a => Q tr a
  | @Vis _ _ X e k => G tr X e /\ forall x, wp G Q (k x) (Act e x :: tr)
  end.

Section WP.
Context (G : trace -> forall X, E X -> Prop).

Lemma wp_mono {A} (Q Q' : trace -> A -> Prop) p tr :
  (forall tr a, Q tr a -> Q' tr a) -> wp G Q p tr -> wp G Q' p tr.
Proof.
  intros HQ. revert tr. induction p as [a|X e k IH]; intros tr; cbn; [apply HQ|].
  intros [Hg Hk]. split; [done|]. intros x. by apply IH.
Qed.

Lemma wp_bind {A B} (Q : trace -> B -> Prop) (p : prog E A) (f : A -> prog E B) tr :
  wp G (fun tr a => wp G Q (f a) tr) p tr -> wp G Q (bind p f) tr.
Proof.
  revert tr. induction p as [a|X e k IH]; intros tr; cbn; [done|].
  intros [Hg Hk]. split; [done|]. intros x. by apply IH.
Qed.

Lemma wp_call {X B} (Q : trace -> B -> Prop) (e : E X) (f : X -> prog E B) tr :
  G tr X e -> (forall x, wp G Q (f x) (Act e x :: tr)) -> wp G Q (bind (call e) f) tr.
Proof. done. Qed.
Lemma wp_bindE {Er A B} (Q : trace -> result Er B -> Prop) (p : prog E (result Er A))
    (f : A -> prog E (result Er B)) tr :
  wp G (fun tr r => match r with Ok a => wp G Q (f a) tr | Err e => Q tr (Err e) end) p tr ->
  wp G Q (bindE p f) tr.
Proof. intros H. apply wp_bind. eapply wp_mono; [|exact H]. intros tr' [a|e]; done. Qed.

(** Loop rule for visitors. *)
Lemma wp_visit_all {Er A B} (I : trace -> B -> Prop) (Q : trace -> result Er B -> Prop) (l : list A) acc
    (visit : B -> A -> prog E (result Er B)) tr :
  I tr acc ->
  (forall tr b x, x ∈ l -> I tr b ->
     wp G (fun tr r => match r with Ok b => I tr b | Err e => Q tr (Err e) end) (visit b x) tr) ->
  (forall tr b, I tr b -> Q tr (Ok b)) ->
  wp G Q (visit_all l acc visit) tr.
Proof.
  intros HI Hstep HQ. revert acc tr HI. induction l as [|x l IH]; intros acc tr HI; cbn [visit_all].
  - by apply HQ.
  - apply wp_bindE. eapply wp_mono; [|apply Hstep; [left|exact HI]].
    intros tr' [b|e] H; [|done]. apply IH; [|done]. intros. apply Hstep; [by right|done].
Qed.
End WP.

Lemma wp_G_mono {A} (G G' : trace -> forall X, E X -> Prop) (Q : trace -> A -> Prop) p tr :
  (forall tr X e, G tr X e -> G' tr X e) -> wp G Q p tr -> wp G' Q p tr.
Proof.
  intros HG. revert tr. induction p as [a|X e k IH]; intros tr; cbn; [done|].
  intros [Hg Hk]. split; [by apply HG|]. intros x. by apply IH.
Qed.

(** Runs: the traces a program can produce and their results. *)
Inductive runs {A} : prog E A -> trace -> trace -> A -> Prop :=
| runs_ret a tr : runs (Ret a) tr tr a
| runs_vis {X} (e : E X) k x tr tr' a : runs (k x) (Act e x :: tr) tr' a -> runs (Vis e k) tr tr' a.

Lemma wp_runs {A} G (Q : trace -> A -> Prop) p tr tr' a : wp G Q p tr -> runs p tr tr' a -> Q tr' a.
Proof. intros H Hr. induction Hr as [|X e k x tr tr' a _ IH]; cbn in H; [done|]. apply IH, H. Qed.

(** The calls a program can make, with the trace before each. *)
Inductive emits {A} : prog E A -> trace -> trace -> forall X, E X -> Prop :=
| emits_here X (e : E X) k tr : emits (Vis e k) tr tr X e
| emits_next X (e : E X) k x tr pre Y (f : E Y) :
    emits (k x) (Act e x :: tr) pre Y f -> emits (Vis e k) tr pre Y f.

Lemma wp_emits {A} G (Q : trace -> A -> Prop) p tr pre X (e : E X) :
  wp G Q p tr -> emits p tr pre X e -> G pre X e.
Proof. intros H He. induction He as [|X e k x tr pre Y f _ IH]; cbn in H; [by destruct H|]. by apply IH, H. Qed.

(** ** Running against a concrete environment *)
Definition handler (S : Type) : Type := forall X, E X -> S -> X * S.
Fixpoint run {S A} (h : handler S) (p : prog E A) (s : S) : A * S :=
  match p with
  | Ret a => (a, s)
  | @Vis _ _ X e k => let '(x, s) := h X e s in run h (k x) s
  end.

Lemma run_runs {S A} (h : handler S) (p : prog E A) s tr : exists tr', runs p tr tr' (run h p s).1.
Proof.
  revert s tr. induction p as [a|X e k IH]; intros s tr; cbn; [exists tr; constructor|].
  destruct (h X e s) as [x s']. destruct (IH x s' (Act e x :: tr)) as [tr' Hr]. exists tr'. by constructor 2 with x.
Qed.

(** The calls of a concrete run. *)
Fixpoint run_trace {S A} (h : handler S) (p : prog E A) (s : S) (tr : trace) : trace :=
  match p with
  | Ret _ => tr
  | @Vis _ _ X e k => let '(x, s) := h X e s in run_trace h (k x) s (Act e x :: tr)
  end.
Lemma run_trace_runs {S A} (h : handler S) (p : prog E A) s tr : runs p tr (run_trace h p s tr) (run h p s).1.
Proof.
  revert s tr. induction p as [a|X e k IH]; intros s tr; cbn; [constructor|].
  destruct (h X e s) as [x s'] eqn:Ex. apply runs_vis with x. apply IH.
Qed.
(** The answers in the trace of a run are the environment's. *)
Lemma run_trace_answers {S A} (h : handler S) (P : action E -> Prop) (p : prog E A) s tr :
  (forall X e s, P (Act e (h X e s).1)) -> (forall a, a ∈ tr -> P a) -> forall a, a ∈ run_trace h p s tr -> P a.
Proof.
  intros Hh. revert s tr. induction p as [x|X e k IH]; intros s tr Ht; cbn; [done|]. pose proof (Hh X e s) as H. destruct (h X e s) as [y s']. apply IH.
  intros b [->|Hb]%elem_of_cons; [exact H|by apply Ht].
Qed.
Definition act_is (P : forall X, E X -> bool) (a : action E) : bool := match a with @Act _ X e _ => P X e end.
Lemma run_emits {S A} (h : handler S) (P : forall X, E X -> bool) (p : prog E A) s tr :
  existsb (act_is P) tr = false -> existsb (act_is P) (run_trace h p s tr) = true ->
  exists pre X (e : E X), P X e = true /\ emits p tr pre X e.
Proof.
  revert s tr. induction p as [a|X e k IH]; intros s tr H0 H; cbn in *; [congruence|].
  destruct (h X e s) as [x s'] eqn:Eh. destruct (P X e) eqn:EP.
  - exists tr, X, e. split; [done|constructor].
  - destruct (IH x s' (Act e x :: tr)) as (pre & Y & f & Hf & He); [cbn; by rewrite EP|done|].
    exists pre, Y, f. split; [done|]. by constructor 2 with x.
Qed.

Definition extends (tr tr' : trace) : Prop := exists l, tr' = l ++ tr.
Lemma extends_refl tr : extends tr tr.
Proof. by exists []. Qed.
Lemma extends_trans a b c : extends a b -> extends b c -> extends a c.
Proof. intros (l & ->) (m & ->). exists (m ++ l). by rewrite app_assoc. Qed.
Lemma extends_cons a tr : extends tr (a :: tr).
Proof. by exists [a]. Qed.
Lemma extends_elem tr tr' (a : action E) : extends tr tr' -> a ∈ tr -> a ∈ tr'.
Proof. intros (l & ->) H. apply elem_of_app. by right. Qed.
(** Facts that stay true as the trace grows. *)
Definition stable (P : trace -> Prop) : Prop := forall tr tr', extends tr tr' -> P tr -> P tr'.
Lemma stable_elem (a : action E) : stable (fun tr => a ∈ tr).
Proof. intros tr tr' He Ha. by eapply extends_elem. Qed.
End Specifications.
Create HintDb trace.
#[export] Hint Resolve extends_refl extends_cons : trace.

(** Case analysis on the guard at the head of the program. *)
Tactic Notation "wp_if" "as" ident(E) :=
  match goal with |- wp _ _ (if ?b then _ else _) _ => destruct b eqn:E end.
