(* ===== verification/ProgRules.v ===== *)
(** * Rules for programs in an arbitrary environment

    Generic over the effect signature: a program whose calls are all of one kind, knowledge about results added to a guard, and steps whose
    results do not matter. *)

From S2P Require Import Prelude Prog.

Section Rules.
Context {E : Type -> Type}.
Abbreviation trace := (list (action E)).
Definition anything (tr : trace) X (e : E X) : Prop := True.

Lemma wp_grows {A} (p : prog E A) tr : wp anything (fun tr' _ => extends tr tr') p tr.
Proof.
  enough (H : forall tr0, extends tr0 tr -> wp anything (fun tr' _ => extends tr0 tr') p tr) by (apply H, extends_refl).
  revert tr. induction p as [a|X e k IH]; intros tr tr0 H; cbn; [done|]. split; [done|]. intros x. apply IH.
  eapply extends_trans; [exact H|apply extends_cons].
Qed.
Lemma wp_also {A} (G : trace -> forall X, E X -> Prop) (Q R : trace -> A -> Prop) (p : prog E A) tr :
  wp G Q p tr -> wp anything R p tr -> wp G (fun tr a => Q tr a /\ R tr a) p tr.
Proof.
  revert tr. induction p as [a|X e k IH]; intros tr; cbn; [done|]. intros [Hg Hq] [_ Hr]. split; [done|]. intros x. apply IH; [apply Hq|apply Hr].
Qed.
Lemma wp_past {A B} (p : prog E A) (f : A -> prog E B) (Q : trace -> B -> Prop) tr :
  (forall tr' a, extends tr tr' -> wp anything Q (f a) tr') -> wp anything Q (bind p f) tr.
Proof. intros H. apply wp_bind. eapply wp_mono; [|apply wp_grows]. intros tr' a He. by apply H. Qed.
Lemma wp_knows {A B} (p : prog E A) (f : A -> prog E B) (R : trace -> A -> Prop) (Q : trace -> B -> Prop) tr :
  wp anything R p tr -> (forall tr' a, extends tr tr' -> R tr' a -> wp anything Q (f a) tr') -> wp anything Q (bind p f) tr.
Proof.
  intros Hp Hf. apply wp_bind. eapply wp_mono; [|apply (wp_also _ _ _ _ _ Hp (wp_grows p tr))]. intros tr' a [Ha He]. by apply Hf.
Qed.
Lemma wp_pastE {Er A B} (p : prog E (result Er A)) (f : A -> prog E (result Er B)) (Q : trace -> result Er B -> Prop) tr :
  (forall tr' e, Q tr' (Err e)) -> (forall tr' a, extends tr tr' -> wp anything Q (f a) tr') -> wp anything Q (bindE p f) tr.
Proof. intros He Hf. apply wp_past. intros tr' [a|e] Hx; [by apply Hf|]. apply He. Qed.

(** The same, with a fact about the value of the first part. *)
Lemma wp_knowsE {Er A B} (p : prog E (result Er A)) (f : A -> prog E (result Er B)) (R : trace -> A -> Prop) (Q : trace -> result Er B -> Prop) tr :
  wp anything (fun tr x => forall a, x = Ok a -> R tr a) p tr -> (forall tr' e, Q tr' (Err e)) ->
  (forall tr' a, extends tr tr' -> R tr' a -> wp anything Q (f a) tr') -> wp anything Q (bindE p f) tr.
Proof. intros Hp He Hf. eapply wp_knows; [exact Hp|]. intros tr' [a|e] Hx Hr; [|apply He]. apply Hf; [done|]. by apply Hr. Qed.

(** Programs whose calls all satisfy [S]. *)
Definition calls {A} (S : forall X, E X -> Prop) (p : prog E A) : Prop := forall tr, wp (fun _ => S) (fun _ _ => True) p tr.
Section Calls.
Context (S : forall X, E X -> Prop).
Lemma calls_ret {A} (a : A) : calls S (Ret a).
Proof. done. Qed.
Lemma calls_bind {A B} (p : prog E A) (f : A -> prog E B) : calls S p -> (forall a, calls S (f a)) -> calls S (bind p f).
Proof. intros Hp Hf tr. apply wp_bind. eapply wp_mono; [|apply Hp]. intros tr' a _. apply Hf. Qed.
Lemma calls_bindE {Er A B} (p : prog E (result Er A)) (f : A -> prog E (result Er B)) :
  calls S p -> (forall a, calls S (f a)) -> calls S (bindE p f).
Proof. intros Hp Hf. apply calls_bind; [done|]. intros [a|e]; [apply Hf|apply calls_ret]. Qed.
Lemma calls_call {X} (e : E X) : S X e -> calls S (call e).
Proof. by intros He tr. Qed.
Lemma calls_visit {Er A B} (l : list A) (acc : B) visit : (forall b x, calls S (visit b x)) -> calls S (visit_all (Er := Er) l acc visit).
Proof. intros Hv. revert acc. induction l as [|x l IH]; intros acc; cbn [visit_all]; [apply calls_ret|]. apply calls_bindE; [apply Hv|apply IH]. Qed.
End Calls.
Lemma calls_mono {A} (S S' : forall X, E X -> Prop) (p : prog E A) : (forall X e, S X e -> S' X e) -> calls S p -> calls S' p.
Proof. intros H Hp tr. eapply wp_G_mono; [|apply Hp]. auto. Qed.
(** A family of facts about one run. *)
Lemma wp_all {A B} (Q : B -> trace -> A -> Prop) (p : prog E A) tr : (forall b, wp anything (Q b) p tr) -> wp anything (fun tr a => forall b, Q b tr a) p tr.
Proof. revert tr. induction p as [a|X e k IH]; intros tr H; cbn; [done|]. split; [done|]. intros x. apply IH. intros b. apply (H b). Qed.
(** A program whose calls the guard always allows keeps what is known of its results. *)
Lemma wp_calls {A} (G : trace -> forall X, E X -> Prop) (S : forall X, E X -> Prop) (Q : trace -> A -> Prop) (p : prog E A) tr :
  (forall tr' X e, extends tr tr' -> S X e -> G tr' X e) -> calls S p -> wp anything Q p tr -> wp G Q p tr.
Proof.
  intros HG Hp Hq. specialize (Hp tr).
  enough (H : forall tr0, extends tr tr0 -> wp (fun _ => S) (fun _ _ => True) p tr0 -> wp anything Q p tr0 -> wp G Q p tr0) by (apply (H tr); [apply extends_refl|done..]).
  clear Hp Hq. induction p as [a|X e k IH]; intros tr0 He; cbn; [done|]. intros [Hs Hk] [_ Hr]. split; [by apply HG|]. intros x.
  apply IH; [|apply Hk|apply Hr]. eapply extends_trans; [exact He|apply extends_cons].
Qed.
Lemma wp_calls_bind {A B} (G : trace -> forall X, E X -> Prop) (S : forall X, E X -> Prop) (R : trace -> A -> Prop) (Q : trace -> B -> Prop)
    (p : prog E A) (f : A -> prog E B) tr :
  (forall tr' X e, extends tr tr' -> S X e -> G tr' X e) -> calls S p -> wp anything R p tr ->
  (forall tr' a, extends tr tr' -> R tr' a -> wp G Q (f a) tr') -> wp G Q (bind p f) tr.
Proof.
  intros HG Hp Hr Hf. apply wp_bind. eapply wp_calls; [exact HG|exact Hp|]. eapply wp_mono; [|apply (wp_also _ _ _ _ _ Hr (wp_grows p tr))].
  intros tr' a [Ha He]. by apply Hf.
Qed.
(** A program started later: what it needs of the trace, and what it gives, concerns the part it made itself. *)
Lemma wp_frame {A} (G : trace -> forall X, E X -> Prop) (Q : trace -> A -> Prop) (p : prog E A) tr0 base :
  wp G Q p tr0 -> wp (fun tr X e => exists l, tr = l ++ base /\ G l X e) (fun tr a => exists l, tr = l ++ base /\ Q l a) p (tr0 ++ base).
Proof.
  revert tr0. induction p as [a|X e k IH]; intros tr0; cbn; [by exists tr0|]. intros [Hg Hk]. split; [by exists tr0|]. intros x. apply (IH x (_ :: _)), Hk.
Qed.
(** The calls of a program come after the trace it was started with. *)
Lemma wp_since {A} (G : trace -> forall X, E X -> Prop) (Q : trace -> A -> Prop) (p : prog E A) tr0 :
  wp G Q p tr0 -> wp (fun tr X e => extends tr0 tr /\ G tr X e) Q p tr0.
Proof.
  enough (H : forall tr, extends tr0 tr -> wp G Q p tr -> wp (fun tr X e => extends tr0 tr /\ G tr X e) Q p tr) by (apply H, extends_refl).
  induction p as [a|X e k IH]; intros tr He; cbn; [done|]. intros [Hg Hk]. split; [done|]. intros x. apply IH; [|done].
  eapply extends_trans; [exact He|apply extends_cons].
Qed.
(** A guard that does not look at the trace, from any specification. *)
Lemma wp_to_calls {A} (G : trace -> forall X, E X -> Prop) (S : forall X, E X -> Prop) (Q : trace -> A -> Prop) (p : prog E A) tr0 :
  wp G Q p tr0 -> (forall tr X e, G tr X e -> S X e) -> calls S p.
Proof.
  intros Hp HG tr. revert tr tr0 Hp. induction p as [a|X e k IH]; intros tr tr0; cbn; [done|]. intros [Hg Hk]. split; [by eapply HG|]. intros x. by eapply IH.
Qed.
(** Every result of a program is the result of a run of it. *)
Lemma wp_run {A} (p : prog E A) tr : wp anything (fun tr' a => runs p tr tr' a) p tr.
Proof.
  induction p as [a|X e k IH] in tr |- *; cbn; [constructor|]. split; [done|]. intros x. eapply wp_mono; [|apply IH]. intros tr' a H. by apply runs_vis with x.
Qed.
(** Every call of a program is a call of it. *)
Lemma wp_emitted {A} (p : prog E A) tr : wp (fun tr' X e => emits p tr tr' X e) (fun _ _ => True) p tr.
Proof.
  enough (H : forall (q : prog E A) tr0, (forall tr' X (e : E X), emits q tr0 tr' X e -> emits p tr tr' X e) -> wp (fun tr' X e => emits p tr tr' X e) (fun _ _ => True) q tr0) by (by apply H).
  induction q as [a|X e k IH]; intros tr0 Hq; cbn; [done|]. split; [apply Hq; constructor|]. intros x. apply IH. intros. apply Hq. by constructor 2 with x.
Qed.
End Rules.
Ltac calls_step :=
  match goal with
  | |- calls _ (bindE _ _) => apply calls_bindE; [|intros ?]
  | |- calls _ (bind _ _) => apply calls_bind; [|intros ?]
  | |- calls _ (Ret _) => apply calls_ret
  | |- calls _ (fail _) => apply calls_ret
  | |- calls _ (done _) => apply calls_ret
  | |- calls _ (call _) => apply calls_call; cbn
  | |- calls _ (visit_all _ _ _) => apply calls_visit; intros ? ?
  | |- calls _ (match ?x with _ => _ end) => destruct x
  | |- calls _ (let '(_, _) := ?x in _) => destruct x
  end; cbv zeta.
