(* ===== verification/Store.v ===== *)
(** * Programs over object storage (internal/repository/repository.go, type Storage)

    The repository's code is sequential between its calls to storage, the clock,
    the random source, the context and the local file system.  [event] lists these
    calls with the type of their answer; [prog A] is the tree of calls and
    continuations (Prog.v) of a function that returns [A]. *)

From S2P Require Import Prelude GoStrings GoTime Errors Schema Prog.

Record Info := mkInfo {
  i_Key : string; i_ETag : string; i_Size : Z; i_Modified : Time; i_Metadata : gmap string string }.
Record Integrity := mkIntegrity { ig_Size : Z; ig_SHA256 : string }.
Record Upload := mkUpload { up_Key : string; up_ID : string }.
(** [Condition] selects exactly one of its two fields. *)
Inductive Condition := Create | Match (etag : string).

(** An operation on a file that the code names in a directory it has opened. *)
Inductive disk_op :=
| DCreate (name : string) | DTruncate (name : string) | DWrite (name bytes : string)
(** a write of bytes that a failed decoding had delivered *)
| DWriteSome (name : string)
| DSync (name : string) | DClose (name : string) | DRename (from to : string) | DRemove (name : string) | DSyncDir.

Inductive event : Type -> Type :=
| UUID : event string
| Now : event Time
| CtxErr : event (option error)
| Sleep (d : Z) : event (option error)
| Local (what : string) : event (option error)
| Disk (op : disk_op) : event (option error)
| CheckBucketSafety : event (res ())
| CheckConditions (prefix : string) : event (res ())
| Head (key : string) : event (res Info)
| Read (key : string) (limit : Z) : event (res (string * Info))
| PutFile (key body : string) (i : Integrity) (c : Condition) (metadata : gmap string string) : event (res Info)
| UploadFile (key body : string) (i : Integrity) (metadata : gmap string string) : event (res Info)
| Download (key : string) (i : Integrity) : event (res string)
| ListObjects (prefix : string) (max : Z) : event (list Info * res ())
| Delete (key : string) : event (res ())
| AbortUpload (u : Upload) : event (res ())
| ListUploads (prefix : string) (max : Z) : event (list Upload * res ())
| DownloadWAL (key : string) (i : Integrity) : event (res (string * Info))
(** a function of the caller, asked about a commit where it selects one *)
| Caller (what : string) (about : option Commit) : event (res ()).

Abbreviation prog := (Prog.prog event).
Abbreviation action := (Prog.action event).
Abbreviation trace := (list action).
Abbreviation handler := (@Prog.handler event).

(** [if e := ctx.Err(); e != nil { return e }] *)
Definition lift (r : option error) : res () := match r with None => Ok () | Some e => Err e end.
Definition check_ctx : prog (res ()) := let! r := call CtxErr in Ret (lift r).

(** [store.List(ctx, prefix, max, visit)]: the listing is complete only when the
    final status is [nil]; the visitor's error is returned as it is. *)
Definition List {B} (prefix : string) (max : Z) (acc : B) (visit : B -> Info -> prog (res B)) : prog (res B) :=
  let! (items, status) := call (ListObjects prefix max) in
  let* acc := visit_all items acc visit in
  Ret (let? _ := status in Ok acc).
Definition ListU {B} (prefix : string) (max : Z) (acc : B) (visit : B -> Upload -> prog (res B)) : prog (res B) :=
  let! (items, status) := call (ListUploads prefix max) in
  let* acc := visit_all items acc visit in
  Ret (let? _ := status in Ok acc).

(** ** Reading programs *)
Definition mutating {X} (e : event X) : bool :=
  match e with
  | PutFile _ _ _ _ _ | UploadFile _ _ _ _ | Delete _ | AbortUpload _ | CheckConditions _ | Caller _ _ => true
  | _ => false
  end.
Definition act_mutating (a : action) : bool := match a with Act e _ => mutating e end.
(** [tr'] continues [tr] without a mutation. *)
Definition quiet (tr tr' : trace) : Prop := exists l, tr' = l ++ tr /\ Forall (fun a => act_mutating a = false) l.
Definition allows_reads (G : trace -> forall X, event X -> Prop) : Prop :=
  forall tr X (e : event X), mutating e = false -> G tr X e.

Lemma quiet_refl tr : quiet tr tr.
Proof. by exists []. Qed.
Lemma quiet_trans a b c : quiet a b -> quiet b c -> quiet a c.
Proof. intros (l & -> & Hl) (m & -> & Hm). exists (m ++ l). rewrite app_assoc. split; [done|]. by apply Forall_app. Qed.
Lemma quiet_cons {X} (e : event X) x tr : mutating e = false -> quiet tr (Act e x :: tr).
Proof. intros H. exists [Act e x]. split; [done|]. by apply Forall_singleton. Qed.
Lemma quiet_step {X} (e : event X) x tr tr' : mutating e = false -> quiet tr tr' -> quiet tr (Act e x :: tr').
Proof. intros He (l & -> & Hl). exists (Act e x :: l). split; [done|]. by constructor. Qed.
Lemma quiet_extends a b : quiet a b -> extends a b.
Proof. intros (l & -> & _). by exists l. Qed.
Lemma quiet_elem tr tr' (a : action) : quiet tr tr' -> act_mutating a = true -> a ∈ tr' -> a ∈ tr.
Proof.
  intros (l & -> & Hl) Ha [H|H]%elem_of_app; [|done]. rewrite Forall_forall in Hl. specialize (Hl a H). congruence.
Qed.
#[export] Hint Resolve quiet_refl quiet_cons quiet_extends : trace.

(** [reads p Q]: whatever is answered, [p] makes no mutation and its result satisfies [Q]. *)
Definition reads {A} (p : prog A) (Q : trace -> A -> Prop) : Prop :=
  forall G tr, allows_reads G -> wp G (fun tr' a => quiet tr tr' /\ Q tr' a) p tr.

Lemma reads_ret {A} (a : A) (Q : trace -> A -> Prop) : (forall tr, Q tr a) -> reads (Ret a) Q.
Proof. intros H G tr _. cbn. auto with trace. Qed.
Lemma reads_call {X} (e : event X) : mutating e = false -> reads (call e) (fun tr x => Act e x ∈ tr).
Proof. intros H G tr HG. cbn. split; [by apply HG|]. intros x. split; [by apply quiet_cons|]. by left. Qed.
Lemma reads_mono {A} (p : prog A) (Q Q' : trace -> A -> Prop) :
  (forall tr a, Q tr a -> Q' tr a) -> reads p Q -> reads p Q'.
Proof. intros H Hp G tr HG. eapply wp_mono; [|by apply Hp]. intros tr' a [? ?]. auto. Qed.
Lemma reads_bind {A B} (p : prog A) (f : A -> prog B) Q1 (Q : trace -> B -> Prop) :
  reads p Q1 ->
  (forall a, reads (f a) (fun tr' b => forall tr, quiet tr tr' -> Q1 tr a -> Q tr' b)) -> reads (bind p f) Q.
Proof.
  intros Hp Hf G tr HG. apply wp_bind. eapply wp_mono; [|by apply Hp]. intros tr1 a [Hq1 H1].
  eapply wp_mono; [|by apply (Hf a G tr1 HG)]. intros tr2 b [Hq2 H2].
  split; [by eapply quiet_trans|]. by eapply H2.
Qed.
(** Using a reading program inside a larger one. *)
Lemma wp_reads {A B} G (p : prog A) (f : A -> prog B) Q1 (Q : trace -> B -> Prop) tr :
  allows_reads G -> reads p Q1 -> (forall tr' a, quiet tr tr' -> Q1 tr' a -> wp G Q (f a) tr') -> wp G Q (bind p f) tr.
Proof.
  intros HG Hp Hf. apply wp_bind. eapply wp_mono; [|by apply Hp]. intros tr' a [Hq H1]. by apply Hf.
Qed.
Lemma wp_readsE {A B} G (p : prog (res A)) (f : A -> prog (res B)) Q1 (Q : trace -> res B -> Prop) tr :
  allows_reads G -> reads p Q1 -> (forall tr' e, quiet tr tr' -> Q tr' (Err e)) ->
  (forall tr' a, quiet tr tr' -> Q1 tr' (Ok a) -> wp G Q (f a) tr') -> wp G Q (bindE p f) tr.
Proof.
  intros HG Hp He Hf. eapply wp_reads; [done|exact Hp|]. intros tr' [a|e] Hq H1; [by apply Hf|by apply He].
Qed.

(** The result of a reading program is [Ok] only with the evidence [P]. *)
Definition proves {A} (p : prog (res A)) (P : A -> trace -> Prop) : Prop :=
  reads p (fun tr x => match x with Ok a => P a tr | Err _ => True end).
Lemma proves_fail {A} e (P : A -> trace -> Prop) : proves (fail e) P.
Proof. by apply reads_ret. Qed.
Lemma proves_done {A} (a : A) (P : A -> trace -> Prop) : (forall tr, P a tr) -> proves (done a) P.
Proof. intros H. by apply reads_ret. Qed.
Lemma proves_mono {A} (p : prog (res A)) (P P' : A -> trace -> Prop) :
  (forall a tr, P a tr -> P' a tr) -> proves p P -> proves p P'.
Proof. intros H. apply reads_mono. intros tr [a|e]; auto. Qed.
Lemma proves_bindE {A B} (p : prog (res A)) (f : A -> prog (res B)) P1 (P : B -> trace -> Prop) :
  (forall a, stable (P1 a)) -> proves p P1 -> (forall a, proves (f a) (fun b tr => P1 a tr -> P b tr)) ->
  proves (bindE p f) P.
Proof.
  intros Hs Hp Hf. eapply reads_bind; [exact Hp|]. intros [a|e]; [|by apply reads_ret].
  eapply reads_mono; [|exact (Hf a)]. intros tr' [b|e] H tr Hq H1; [|done]. apply H. eapply Hs; [by apply quiet_extends|done].
Qed.
Lemma proves_bind {A B} (p : prog A) (f : A -> prog (res B)) P :
  reads p (fun _ _ => True) -> (forall a, proves (f a) P) -> proves (bind p f) P.
Proof.
  intros Hp Hf. eapply reads_bind; [exact Hp|]. intros a. eapply reads_mono; [|exact (Hf a)]. by intros tr' [b|e] H tr.
Qed.
Lemma proves_call {A} (e : event (res A)) : mutating e = false -> proves (call e) (fun a tr => Act e (Ok a) ∈ tr).
Proof. intros H. eapply reads_mono; [|by apply reads_call]. intros tr [a|err]; done. Qed.
Lemma reads_local {X} (e : event X) : mutating e = false -> reads (call e) (fun _ _ => True).
Proof. intros H. eapply reads_mono; [|by apply reads_call]. done. Qed.
Lemma proves_check_ctx : proves check_ctx (fun _ _ => True).
Proof. apply proves_bind; [by apply reads_local|]. intros [e|]; [apply proves_fail|by apply proves_done]. Qed.
Lemma proves_visit_all {A} (l : list A) (visit : A -> prog (res ())) (P : A -> trace -> Prop) :
  (forall a, stable (P a)) -> (forall a, a ∈ l -> proves (visit a) (fun _ => P a)) ->
  proves (visit_all l () (fun _ => visit)) (fun _ tr => Forall (fun a => P a tr) l).
Proof.
  intros Hs Hv. induction l as [|a l IH]; cbn; [apply proves_done; constructor|].
  eapply (proves_bindE _ _ (fun _ => P a)); [intros []; exact (Hs a)|apply Hv; left|]. intros [].
  eapply proves_mono; [|apply IH; intros x Hx; apply Hv; by right]. intros [] tr Hl Ha. by constructor.
Qed.

(** [reject as E]: the head of the program is a guard; its failing branch is trivial. *)
Tactic Notation "reject" "as" ident(E) :=
  match goal with
  | |- proves (if ?b then _ else _) _ => destruct b eqn:E; [apply proves_fail|]
  | |- proves (match ?b with Ok _ => _ | Err _ => _ end) _ => destruct b eqn:E; [|apply proves_fail]
  | |- reads (if ?b then _ else _) _ => destruct b eqn:E; [by apply reads_ret|]
  end.
(** The head is a call or a reader whose evidence is kept. *)
Tactic Notation "seen" uconstr(H) "with" uconstr(S) := eapply proves_bindE; [|apply H|]; [intros ?; apply S|].

(** A visitor run over a whole listing, with an invariant over the items seen so far. *)
Lemma reads_visit_fold {A B} (l : list A) (visit : B -> A -> prog (res B)) (I : list A -> B -> trace -> Prop) :
  (forall pre b, stable (I pre b)) ->
  (forall pre b x, proves (visit b x) (fun b' tr => I pre b tr -> I (pre ++ [x]) b' tr)) ->
  forall G, allows_reads G -> forall pre acc tr, I pre acc tr ->
  wp G (fun tr' x => quiet tr tr' /\ match x with Ok b => I (pre ++ l) b tr' | Err _ => True end) (visit_all l acc visit) tr.
Proof.
  intros Hs Hv G HG. induction l as [|x l IH]; intros pre acc tr HI; cbn [visit_all].
  - cbn. rewrite app_nil_r. auto with trace.
  - apply wp_bindE. eapply wp_mono; [|by apply (Hv pre acc x)]. intros tr1 [b|e] [Hq H1]; [|done].
    eapply wp_mono; [|apply (IH (pre ++ [x]) b tr1)].
    + intros tr2 y [Hq2 H2]. rewrite <- app_assoc in H2. split; [by eapply quiet_trans|done].
    + apply H1. eapply Hs; [by apply quiet_extends|done].
Qed.
Lemma proves_List {B} prefix max (acc : B) visit (I : list Info -> B -> trace -> Prop) :
  (forall pre b, stable (I pre b)) -> (forall tr, I [] acc tr) ->
  (forall pre b x, proves (visit b x) (fun b' tr => I pre b tr -> I (pre ++ [x]) b' tr)) ->
  proves (List prefix max acc visit)
    (fun b tr => exists items, Act (ListObjects prefix max) (items, Ok ()) ∈ tr /\ I items b tr).
Proof.
  intros Hs H0 Hv. unfold List. eapply reads_bind; [by apply reads_call|]. intros [items status].
  intros G tr HG. apply wp_bindE. eapply wp_mono; [|apply (reads_visit_fold items visit I Hs Hv G HG [] acc tr (H0 tr))].
  intros tr1 [b|e] [Hq H1]; [|done]. cbn in *. split; [done|]. destruct status as [[]|e]; [|done]. cbn.
  intros tr0 Hq0 Hin. exists items. split; [|done]. eapply extends_elem; [by apply quiet_extends|done].
Qed.

(** ** Settled mutations *)
(** A failed precondition is a definitive refusal, whatever else the error says. *)
Definition open_answer {A} (x : res A) : bool :=
  match x with Ok _ => false | Err e => ambiguous e && negb (Is e Precondition) end.
(** A mutation whose answer leaves open whether it was applied. *)
Definition unsettled (a : action) : bool :=
  match a with
  | Act e x =>
      match e in event X return X -> bool with
      | PutFile _ _ _ _ _ => fun x => open_answer x
      | UploadFile _ _ _ _ => fun x => open_answer x
      | Delete _ => fun x => open_answer x
      | AbortUpload _ => fun x => open_answer x
      | _ => fun _ => false
      end x
  end.
Definition settled (tr : trace) : Prop := Forall (fun a => unsettled a = false) tr.
Lemma quiet_settled tr tr' : quiet tr tr' -> settled tr -> settled tr'.
Proof.
  intros (l & -> & Hl) Hs. apply Forall_app. split; [|done]. eapply Forall_impl; [exact Hl|].
  intros [X e x] H. by destruct e.
Qed.
