(* ===== verification/Disk.v ===== *)
(** * The files of one directory

    What the operations of [Disk] do to the names of a directory, with an operation that fails leaving any of the states it may leave, and a
    small Hoare logic for programs that only publish a file by renaming it. *)

From S2P Require Import Prelude GoStrings GoTime Errors Schema Prog ProgRules Store.

(** A file: its bytes, and whether they are durable. *)
Record dfile := mkDFile { df_bytes : string; df_synced : bool }.
(** A directory: the names it has now, and those it has after a crash. *)
Record disk := mkDisk { dk_names : gmap string dfile; dk_durable : gmap string dfile }.
Definition empty_file : dfile := mkDFile "" false.
Definition with_names (d : disk) (m : gmap string dfile) : disk := mkDisk m (dk_durable d).
Definition put_file (d : disk) (name : string) (f : dfile) : disk := with_names d (<[name := f]> (dk_names d)).
Definition file_at (d : disk) (name : string) : dfile := default empty_file (dk_names d !! name).
(** The file after more bytes. *)
Definition grown (d : disk) (name bytes : string) : disk := put_file d name (mkDFile (df_bytes (file_at d name) +:+ bytes) false).
Definition unlinked (d : disk) (name : string) : disk := with_names d (delete name (dk_names d)).
(** [os.Rename]: one name takes the place of another. *)
Definition renamed (d : disk) (from to : string) : disk :=
  match dk_names d !! from with Some f => put_file (unlinked d from) to f | None => d end.
(** An operation that was answered with success has its effect; one that failed may have had a part of it. *)
Definition disk_step (op : disk_op) (answer : option error) (d d' : disk) : Prop :=
  match op, answer with
  | DCreate n, None | DTruncate n, None => d' = put_file d n empty_file
  | DCreate n, Some _ | DTruncate n, Some _ => d' = d \/ d' = put_file d n empty_file
  | DWrite n b, None => d' = grown d n b
  | DWrite n b, Some _ => exists part rest, b = part +:+ rest /\ d' = grown d n part
  | DWriteSome n, _ => exists part, d' = grown d n part
  | DSync n, None => d' = put_file d n (mkDFile (df_bytes (file_at d n)) true)
  | DRename a b, None => d' = renamed d a b
  | DRename a b, Some _ => d' = d \/ d' = renamed d a b
  | DRemove n, None => d' = unlinked d n
  | DRemove n, Some _ => d' = d \/ d' = unlinked d n
  | DSyncDir, None => d' = mkDisk (dk_names d) (dk_names d)
  | DSyncDir, Some _ => d' = d \/ d' = mkDisk (dk_names d) (dk_names d)
  | DSync _, Some _ | DClose _, _ => d' = d
  end.
Definition act_disk (a : action) (d d' : disk) : Prop :=
  match a with @Act _ X e x => match e in event Y return Y -> Prop with Disk op => fun x => disk_step op x d d' | _ => fun _ => d' = d end x end.
(** The directories that a trace (its last action first) may leave, from [d0]. *)
Fixpoint replays (d0 : disk) (tr : trace) (d : disk) : Prop :=
  match tr with
  | [] => d = d0
  | a :: tr => exists d1, replays d0 tr d1 /\ act_disk a d1 d
  end.
(** Every trace leaves some directory: a statement about all of them is about something. *)
Lemma replays_total d0 tr : exists d, replays d0 tr d.
Proof.
  induction tr as [|[X e x] tr [d IH]]; [by exists d0|].
  enough (exists d', act_disk (Act e x) d d') as [d' H] by (exists d', d; done). destruct e; cbn; try (by eexists).
  destruct op, x; cbn; try (by eexists); try (eexists; by left).
  - eexists _, "", _. done.
  - by eexists _, "".
  - by eexists _, "".
Qed.

(** The oldest action comes first. *)
Lemma replays_first a l d0 : forall d, replays d0 (l ++ [a]) d -> exists d1, act_disk a d0 d1 /\ replays d1 l d.
Proof.
  induction l as [|b l IH]; intros d; cbn; [intros (d1 & -> & H); by exists d|].
  intros (d1 & H1 & H2). destruct (IH _ H1) as (d2 & H3 & H4). eauto.
Qed.

(** The name is as it was in [d0]. *)
Definition untouched (name : string) (d0 d : disk) : Prop := dk_names d !! name = dk_names d0 !! name /\ dk_durable d !! name = dk_durable d0 !! name.
(** It has the complete and synced [bytes]: for now, or also after a crash. *)
Definition visible (name bytes : string) (d : disk) : Prop := dk_names d !! name = Some (mkDFile bytes true).
Definition persisted (name bytes : string) (d : disk) : Prop := visible name bytes d /\ dk_durable d !! name = Some (mkDFile bytes true).
(** It is as it was or complete, now and after a crash. *)
Definition old_or_whole (name bytes : string) (d0 d : disk) : Prop :=
  (dk_names d !! name = dk_names d0 !! name \/ dk_names d !! name = Some (mkDFile bytes true))
  /\ (dk_durable d !! name = dk_durable d0 !! name \/ dk_durable d !! name = Some (mkDFile bytes true)).
Lemma untouched_whole name bytes d0 d : untouched name d0 d -> old_or_whole name bytes d0 d.
Proof. intros [H1 H2]. by split; left. Qed.
Lemma persisted_whole name bytes d0 d : persisted name bytes d -> old_or_whole name bytes d0 d.
Proof. intros [H1 H2]. by split; right. Qed.
(** The name an operation acts on, if it is not another than [name]. *)
Definition spares (name : string) (op : disk_op) : Prop :=
  match op with
  | DCreate n | DTruncate n | DWrite n _ | DWriteSome n | DSync n | DRemove n => n <> name
  | DClose _ => True
  | DRename _ _ | DSyncDir => False
  end.
Lemma spares_untouched name op x d0 d d' : spares name op -> untouched name d0 d -> disk_step op x d d' -> untouched name d0 d'.
Proof.
  assert (forall n f, n <> name -> untouched name d0 d -> untouched name d0 (put_file d n f)) as Hput.
  { intros n f Hn [H1 H2]. split; [|done]. cbn. by rewrite lookup_insert_ne. }
  assert (forall n, n <> name -> untouched name d0 d -> untouched name d0 (unlinked d n)) as Hun.
  { intros n Hn [H1 H2]. split; [|done]. cbn. by rewrite lookup_delete_ne. }
  intros Hs Hu. destruct op, x; cbn in *; try done; intros Hd; repeat match goal with H : exists _, _ |- _ => destruct H | H : _ /\ _ |- _ => destruct H
    | H : _ \/ _ |- _ => destruct H end; subst; unfold grown; auto.
Qed.

Lemma renamed_at d from to f : dk_names d !! from = Some f -> dk_names (renamed d from to) !! to = Some f /\ dk_durable (renamed d from to) = dk_durable d.
Proof. intros H. unfold renamed. rewrite H. cbn. by rewrite lookup_insert, decide_True. Qed.

(** ** Programs
    From any directory with [S], at every call one with [I], and at the end one with [Q] for the result. *)
Fixpoint does {A} (I S : disk -> Prop) (p : prog A) (Q : A -> disk -> Prop) : Prop :=
  match p with
  | Ret a => forall d, S d -> Q a d
  | @Vis _ _ X e k => (forall d, S d -> I d) /\ forall x, does I (fun d' => exists d, S d /\ act_disk (Act e x) d d') (k x) Q
  end.
Lemma does_mono {A} (I S S' : disk -> Prop) (p : prog A) (Q Q' : A -> disk -> Prop) :
  (forall d, S' d -> S d) -> (forall a d, Q a d -> Q' a d) -> does I S p Q -> does I S' p Q'.
Proof.
  intros HS HQ. revert S S' HS. induction p as [a|X e k IH]; intros S S' HS; cbn; [eauto|].
  intros [H1 H2]. split; [eauto|]. intros x. eapply IH; [|exact (H2 x)]. intros d (d1 & H3 & H4). eauto.
Qed.
Lemma does_bind {A B} (I S : disk -> Prop) (p : prog A) (f : A -> prog B) (Q : A -> disk -> Prop) (Q' : B -> disk -> Prop) :
  does I S p Q -> (forall a, does I (Q a) (f a) Q') -> does I S (bind p f) Q'.
Proof.
  intros Hp Hf. revert S Hp. induction p as [a|X e k IH]; intros S; cbn.
  - intros H. eapply does_mono; [|done|apply Hf]. auto.
  - intros [H1 H2]. split; [done|]. intros x. by apply IH.
Qed.
(** A call that does not touch the directory, and a file operation whose failure ends the program. *)
Lemma does_call {A X} (I S : disk -> Prop) (e : event X) (k : X -> prog A) (Q : A -> disk -> Prop) :
  match e with Disk _ => False | _ => True end -> (forall d, S d -> I d) -> (forall x, does I S (k x) Q) -> does I S (bind (call e) k) Q.
Proof.
  intros He HI Hk. split; [done|]. intros x. eapply does_mono; [|done|apply Hk]. intros d (d1 & H1 & H2). by destruct e; cbn in H2; subst.
Qed.
Lemma does_disk {A} (I S S1 S2 : disk -> Prop) op (k : option error -> prog A) (Q : A -> disk -> Prop) : (forall d, S d -> I d) ->
  (forall d d', S d -> disk_step op None d d' -> S1 d') -> (forall d d' e, S d -> disk_step op (Some e) d d' -> S2 d') ->
  does I S1 (k None) Q -> (forall e, does I S2 (k (Some e)) Q) -> does I S (bind (call (Disk op)) k) Q.
Proof.
  intros HI H1 H2 K1 K2. split; [done|]. intros [e|]; (eapply does_mono; [|done|by apply K1 || apply K2]); intros d (d1 & Hd & Hs); cbn in Hs; eauto.
Qed.
(** What holds of a program holds of every trace of it. *)
Lemma does_runs {A} (I S : disk -> Prop) (p : prog A) (Q : A -> disk -> Prop) tr0 tr a : does I S p Q -> runs p tr0 tr a ->
  exists l, tr = l ++ tr0 /\ forall d0 d, S d0 -> replays d0 l d -> Q a d.
Proof.
  intros Hd Hr. revert S Hd. induction Hr as [a tr|X e k x tr tr' a Hr IH]; intros S; cbn.
  - intros H. exists []. split; [done|]. intros d0 d H0 ->. auto.
  - intros [_ H]. destruct (IH _ (H x)) as (l & -> & Hl). exists (l ++ [Act e x]). rewrite <- app_assoc. split; [done|].
    intros d0 d H0 (d1 & H1 & H2)%replays_first. eapply Hl; [|exact H2]. eauto.
Qed.
Lemma does_emits {A} (I S : disk -> Prop) (p : prog A) (Q : A -> disk -> Prop) tr0 pre X (e : event X) : does I S p Q -> emits p tr0 pre X e ->
  exists l, pre = l ++ tr0 /\ forall d0 d, S d0 -> replays d0 l d -> I d.
Proof.
  intros Hd He. revert S Hd. induction He as [Y f k tr|Y f k x tr pre Z g He IH]; intros S; cbn.
  - intros [H _]. exists []. split; [done|]. intros d0 d H0 ->. auto.
  - intros [_ H]. destruct (IH _ (H x)) as (l & -> & Hl). exists (l ++ [Act f x]). rewrite <- app_assoc. split; [done|].
    intros d0 d H0 (d1 & H1 & H2)%replays_first. eapply Hl; [|exact H2]. eauto.
Qed.

(** ** Evidence in a longer trace *)
(** A stretch of the trace leaves every directory with [P]. *)
Definition leaves (P : disk -> Prop) (tr : trace) : Prop := exists after l base, tr = after ++ l ++ base /\ forall d0 d, replays d0 l d -> P d.
Lemma leaves_stable P : stable (leaves P).
Proof. intros tr tr' [l ->] (after & m & base & -> & H). exists (l ++ after), m, base. by rewrite app_assoc. Qed.
Lemma does_leaves {A} (p : prog A) (Q : A -> disk -> Prop) tr : does (fun _ => True) (fun _ => True) p Q -> wp anything (fun tr' a => leaves (Q a) tr') p tr.
Proof.
  intros Hd. eapply wp_mono; [|apply wp_run]. intros tr' a Hr. destruct (does_runs _ _ _ _ _ _ _ Hd Hr) as (l & -> & H).
  exists [], l, tr. split; [done|]. intros d0 d. by apply H.
Qed.
