(* ===== verification/Json.v ===== *)
(** * Documents as JSON (encoding/json as internal/repository/schema.go and unicode.go use it)

    [print] is [json.Marshal]'s compact text, [parse_document] the decoder's
    grammar, [strict] the repository's strict decoder: size limit, valid UTF-8 and
    escapes, every field of the type present exactly once and no other, no null
    for a value that is not a pointer, nothing after the document.  A type's shape is a
    pair of functions between its values and JSON trees. *)

From S2P Require Import Prelude GoStrings Errors.

#[warnings="-register-all"]
Inductive json :=
| JNull
| JBool (b : bool)
| JNumber (text : string)
| JText (s : string)
| JArray (l : list json)
| JObject (l : list (string * json)).

Definition quote : ascii := "034"%char.
Definition backslash : ascii := "\"%char.

(** ** [validJSONUnicode] *)
Definition hex4 (a b c d : ascii) : option Z := ParseUint (String a (String b (String c (String d "")))) 16 16.
Definition low_surrogate (n : Z) : bool := (0xDC00 <=? n) && (n <=? 0xDFFF).
Definition high_surrogate (n : Z) : bool := (0xD800 <=? n) && (n <=? 0xDBFF).
Fixpoint unicode_go (inside : bool) (s : string) : bool :=
  match s with
  | EmptyString => negb inside
  | String x t =>
      if x ==? quote then unicode_go (negb inside) t
      else if negb inside || negb (x ==? backslash) then unicode_go inside t
      else match t with
           | EmptyString => false
           | String e t =>
               if negb (e ==? "u"%char) then unicode_go inside t else
               match t with
               | String a (String b (String c (String d t))) =>
                   match hex4 a b c d with
                   | None => false
                   | Some n =>
                       if low_surrogate n then false
                       else if high_surrogate n then
                         match t with
                         | String x (String y (String a (String b (String c (String d t))))) =>
                             if negb (x ==? backslash) || negb (y ==? "u"%char) then false else
                             match hex4 a b c d with
                             | None => false
                             | Some low => if negb (low_surrogate low) then false else unicode_go inside t
                             end
                         | _ => false
                         end
                       else unicode_go inside t
                   end
               | _ => false
               end
           end
  end.
Definition validJSONUnicode (b : string) : bool := unicode_go false b.

(** ** Reading *)
Definition byte (z : Z) : ascii := ascii_of_N (Z.to_N z).
(** UTF-8 of a code point. *)
Definition utf8_encode (n : Z) (s : string) : string :=
  if n <? 0x80 then String (byte n) s
  else if n <? 0x800 then String (byte (0xC0 + n / 64)) (String (byte (0x80 + n mod 64)) s)
  else if n <? 0x10000 then
    String (byte (0xE0 + n / 4096)) (String (byte (0x80 + n / 64 mod 64)) (String (byte (0x80 + n mod 64)) s))
  else String (byte (0xF0 + n / 262144)) (String (byte (0x80 + n / 4096 mod 64))
         (String (byte (0x80 + n / 64 mod 64)) (String (byte (0x80 + n mod 64)) s))).
Definition simple_escape (e : ascii) : option ascii :=
  if (e ==? quote) || (e ==? backslash) || (e ==? "/"%char) then Some e
  else if e ==? "b"%char then Some "008"%char
  else if e ==? "f"%char then Some "012"%char
  else if e ==? "n"%char then Some "010"%char
  else if e ==? "r"%char then Some "013"%char
  else if e ==? "t"%char then Some "009"%char
  else None.

Definition prepend (c : string -> string) (r : option (string * string)) : option (string * string) :=
  match r with Some (s, rest) => Some (c s, rest) | None => None end.
(** The rest of a string literal: its value and what follows the closing quote. *)
Fixpoint parse_text (s : string) : option (string * string) :=
  match s with
  | EmptyString => None
  | String x t =>
      if x ==? quote then Some ("", t)
      else if negb (x ==? backslash) then
        if byte_val x <? 0x20 then None else prepend (String x) (parse_text t)
      else match t with
           | EmptyString => None
           | String e t =>
               match simple_escape e with
               | Some c => prepend (String c) (parse_text t)
               | None =>
                   if negb (e ==? "u"%char) then None else
                   match t with
                   | String a (String b (String c (String d t))) =>
                       match hex4 a b c d with
                       | None => None
                       | Some n =>
                           if high_surrogate n then
                             match t with
                             | String _ (String _ (String a (String b (String c (String d t))))) =>
                                 match hex4 a b c d with
                                 | None => None
                                 | Some low =>
                                     prepend (utf8_encode (0x10000 + (n - 0xD800) * 1024 + (low - 0xDC00))) (parse_text t)
                                 end
                             | _ => None
                             end
                           else prepend (utf8_encode n) (parse_text t)
                       end
                   | _ => None
                   end
               end
           end
  end.

Definition is_space (c : ascii) : bool :=
  (c ==? " "%char) || (c ==? "009"%char) || (c ==? "010"%char) || (c ==? "013"%char).
Fixpoint skip_space (s : string) : string :=
  match s with String c t => if is_space c then skip_space t else s | EmptyString => "" end.
Fixpoint span (p : ascii -> bool) (s : string) : string * string :=
  match s with
  | String c t => if p c then let '(a, b) := span p t in (String c a, b) else ("", s)
  | EmptyString => ("", "")
  end.
(** An optional minus, digits without a leading zero, an optional fraction, an optional exponent. *)
Definition parse_number (s : string) : option (string * string) :=
  let '(sign, s) := match s with String "-" t => ("-", t) | _ => ("", s) end in
  let '(digits, s) := span is_digit s in
  if (digits ==? "") || ((1 <? len digits) && (slice 0 1 digits ==? "0")) then None else
  match (match s with
         | String "." t => let '(f, t) := span is_digit t in if f ==? "" then None else Some ("." +:+ f, t)
         | _ => Some ("", s)
         end) with
  | None => None
  | Some (frac, s) =>
      match (match s with
             | String c t =>
                 if (c ==? "e"%char) || (c ==? "E"%char) then
                   let '(sg, t) := match t with
                                   | String x u => if (x ==? "+"%char) || (x ==? "-"%char) then (String x "", u) else ("", t)
                                   | EmptyString => ("", t)
                                   end in
                   let '(e, t) := span is_digit t in
                   if e ==? "" then None else Some (String c (sg +:+ e), t)
                 else Some ("", s)
             | EmptyString => Some ("", s)
             end) with
      | None => None
      | Some (exp, s) => Some (sign +:+ digits +:+ frac +:+ exp, s)
      end
  end.
Definition literal (w s : string) : option string := if HasPrefix s w then Some (TrimPrefix s w) else None.

(** One value, the tail of an array, the tail of an object. *)
Fixpoint parse_value (fuel : nat) (s : string) : option (json * string) :=
  match fuel with
  | O => None
  | S f =>
      match skip_space s with
      | EmptyString => None
      | String c t =>
          if c ==? quote then match parse_text t with Some (x, t) => Some (JText x, t) | None => None end
          else if c ==? "{"%char then
            match skip_space t with
            | String "}" t => Some (JObject [], t)
            | t => match parse_members f t with Some (l, t) => Some (JObject l, t) | None => None end
            end
          else if c ==? "["%char then
            match skip_space t with
            | String "]" t => Some (JArray [], t)
            | t => match parse_elements f t with Some (l, t) => Some (JArray l, t) | None => None end
            end
          else if (c ==? "-"%char) || is_digit c then
            match parse_number (String c t) with Some (n, t) => Some (JNumber n, t) | None => None end
          else match literal "null" (String c t) with
               | Some t => Some (JNull, t)
               | None =>
                   match literal "true" (String c t) with
                   | Some t => Some (JBool true, t)
                   | None => match literal "false" (String c t) with Some t => Some (JBool false, t) | None => None end
                   end
               end
      end
  end
with parse_elements (fuel : nat) (s : string) : option (list json * string) :=
  match fuel with
  | O => None
  | S f =>
      match parse_value f s with
      | None => None
      | Some (v, t) =>
          match skip_space t with
          | String "]" t => Some ([v], t)
          | String "," t => match parse_elements f t with Some (l, t) => Some (v :: l, t) | None => None end
          | _ => None
          end
      end
  end
with parse_members (fuel : nat) (s : string) : option (list (string * json) * string) :=
  match fuel with
  | O => None
  | S f =>
      match skip_space s with
      | String c t =>
          if negb (c ==? quote) then None else
          match parse_text t with
          | None => None
          | Some (k, t) =>
              match skip_space t with
              | String ":" t =>
                  match parse_value f t with
                  | None => None
                  | Some (v, t) =>
                      match skip_space t with
                      | String "}" t => Some ([(k, v)], t)
                      | String "," t => match parse_members f t with Some (l, t) => Some ((k, v) :: l, t) | None => None end
                      | _ => None
                      end
                  end
              | _ => None
              end
          end
      | EmptyString => None
      end
  end.
Definition parse_document (b : string) : option json :=
  match parse_value (S (String.length b)) b with
  | Some (j, t) => if skip_space t ==? "" then Some j else None
  | None => None
  end.

(** ** Writing *)
Definition hex2 (z : Z) : string := String (digit_char false (z / 16)) (String (digit_char false (z mod 16)) "").
Definition escape_byte (c : ascii) : string :=
  if (c ==? quote) || (c ==? backslash) then String backslash (String c "")
  else if c ==? "008"%char then "\b"
  else if c ==? "012"%char then "\f"
  else if c ==? "010"%char then "\n"
  else if c ==? "013"%char then "\r"
  else if c ==? "009"%char then "\t"
  else if (byte_val c <? 0x20) || (c ==? "<"%char) || (c ==? ">"%char) || (c ==? "&"%char)
  then "\u00" +:+ hex2 (byte_val c)
  else String c "".
(** The width of the UTF-8 sequence at the head, 0 when it is invalid. *)
Definition rune_width (s : string) : nat :=
  let valid k := (k <=? String.length s)%nat && ValidString (slice 0 k s) in
  if valid 1%nat then 1 else if valid 2%nat then 2 else if valid 3%nat then 3 else if valid 4%nat then 4 else 0.
(** Text with the escapes of [json.Marshal]: U+2028 and U+2029 are escaped, and a
    byte that is not part of valid UTF-8 becomes the replacement character.  [keep] and
    [drop] count the bytes of the current sequence still to be copied or skipped. *)
Fixpoint escape (keep drop : nat) (s : string) : string :=
  match s with
  | EmptyString => ""
  | String c t =>
      match keep, drop with
      | S k, _ => String c (escape k 0 t)
      | O, S k => escape 0 k t
      | O, O =>
          match rune_width s with
          | O => "\ufffd" +:+ escape 0 0 t
          | S O => escape_byte c +:+ escape 0 0 t
          | S k =>
              if slice 0 3 s ==? utf8_encode 0x2028 "" then "\u2028" +:+ escape 0 k t
              else if slice 0 3 s ==? utf8_encode 0x2029 "" then "\u2029" +:+ escape 0 k t
              else String c (escape k 0 t)
          end
      end
  end.
Definition print_text (s : string) : string := String quote (escape 0 0 s +:+ String quote "").
Fixpoint commas (l : list string) : string :=
  match l with
  | [] => ""
  | [x] => x
  | x :: l => x +:+ "," +:+ commas l
  end.
Fixpoint print (j : json) : string :=
  match j with
  | JNull => "null"
  | JBool true => "true"
  | JBool false => "false"
  | JNumber n => n
  | JText s => print_text s
  | JArray l => "[" +:+ commas (map print l) +:+ "]"
  | JObject l => "{" +:+ commas (map (fun '(k, v) => print_text k +:+ ":" +:+ print v) l) +:+ "}"
  end.

(** ** Shapes *)
Class Json (A : Type) := mkJson { to_json : A -> json; of_json : json -> option A }.

Definition Marshal {A} {J : Json A} (v : A) : string := print (to_json v).
Definition strict {A} {J : Json A} (b : string) (max : Z) : res A :=
  if max <? len b then Err ErrCapacity else
  if negb (ValidString b) || negb (validJSONUnicode b) then Err ErrInvalid else
  match parse_document b with
  | None => Err ErrInvalid
  | Some j => match of_json j with None => Err ErrInvalid | Some v => Ok v end
  end.

Definition json_string : Json string :=
  mkJson string JText (fun j => match j with JText s => Some s | _ => None end).
Definition json_bool : Json bool :=
  mkJson bool JBool (fun j => match j with JBool b => Some b | _ => None end).
(** An integer type with values [lo..hi]. *)
Definition parse_int (text : string) : option Z :=
  match text with
  | String "-" t => Z.opp <$> ParseUint t 10 64
  | _ => ParseUint text 10 64
  end.
Definition json_int (lo hi : Z) : Json Z :=
  mkJson Z (fun z => JNumber (FormatInt z))
    (fun j => match j with
              | JNumber t => match (if lo <? 0 then parse_int t else ParseUint t 10 64) with Some z => if (lo <=? z) && (z <=? hi) then Some z else None | None => None end
              | _ => None
              end).
Definition int64 : Json Z := json_int (- 2 ^ 63) (2 ^ 63 - 1).
Definition uint32 : Json Z := json_int 0 u32_max.
Definition json_ptr {A} (J : Json A) : Json (option A) :=
  mkJson (option A) (fun v => match v with None => JNull | Some v => to_json v end)
    (fun j => match j with JNull => Some None | _ => Some <$> of_json j end).
Fixpoint all_some {A} (l : list (option A)) : option (list A) :=
  match l with
  | [] => Some []
  | Some x :: l => match all_some l with Some l => Some (x :: l) | None => None end
  | None :: _ => None
  end.
Definition json_list {A} (J : Json A) : Json (list A) :=
  mkJson (list A) (fun l => JArray (map to_json l))
    (fun j => match j with JArray l => all_some (map of_json l) | _ => None end).
(** A slice whose nil-ness the code tests: nil is written as null and null is refused. *)
Definition json_slice {A} (J : Json A) : Json (option (list A)) :=
  mkJson (option (list A)) (fun v => match v with None => JNull | Some l => JArray (map to_json l) end)
    (fun j => match j with JArray l => Some <$> all_some (map of_json l) | _ => None end).

(** The members of an object are exactly the fields of the type. *)
Fixpoint member (k : string) (l : list (string * json)) : option json :=
  match l with [] => None | (k', v) :: l => if k' ==? k then Some v else member k l end.
Definition exact_fields (names : list string) (l : list (string * json)) : bool :=
  bool_decide (NoDup l.*1) && forallb (fun k => bool_decide (k ∈ names)) l.*1
  && (length l =? length names)%nat.
Definition field {A} (J : Json A) (k : string) (l : list (string * json)) : option A :=
  match member k l with Some j => of_json j | None => None end.
Notation "'fields' names 'of' j 'as' l 'in' e" :=
  (match j with JObject l => if exact_fields names l then e else None | _ => None end)
  (at level 10, names at level 9, j at level 9, l name, e at level 200).

(** ** Decoding what was printed *)
Definition is_ascii (c : ascii) : bool := byte_val c <? 128.
Definition ascii_text (s : string) : bool := all_chars is_ascii s.

Lemma escape_byte_parse c t : is_ascii c = true ->
  parse_text (escape_byte c +:+ t) = prepend (String c) (parse_text t).
Proof. destruct c as [[] [] [] [] [] [] [] []]; intros H; first [discriminate H|reflexivity]. Qed.
Lemma escape_byte_unicode c t : is_ascii c = true -> unicode_go true (escape_byte c +:+ t) = unicode_go true t.
Proof. destruct c as [[] [] [] [] [] [] [] []]; intros H; first [discriminate H|reflexivity]. Qed.
Lemma escape_byte_ascii c : is_ascii c = true -> ascii_text (escape_byte c) = true.
Proof. destruct c as [[] [] [] [] [] [] [] []]; intros H; first [discriminate H|reflexivity]. Qed.
Lemma ascii_rune c t : is_ascii c = true -> rune_width (String c t) = 1%nat.
Proof.
  intros H. unfold rune_width. assert (slice 0 1 (String c t) = String c "") as -> by (by destruct t).
  assert (ValidString (String c "") = true) as ->.
  { revert H. destruct c as [[] [] [] [] [] [] [] []]; intros H; first [discriminate H|reflexivity]. }
  done.
Qed.

Lemma escape_cons c t : is_ascii c = true -> escape 0 0 (String c t) = escape_byte c +:+ escape 0 0 t.
Proof. intros H. cbn [escape]. by rewrite ascii_rune. Qed.

Lemma parse_escape s rest : ascii_text s = true ->
  parse_text (escape 0 0 s +:+ String quote rest) = Some (s, rest).
Proof.
  induction s as [|c s IH]; intros H; [done|]. cbn in H. apply andb_true_iff in H as [Hc Hs].
  rewrite escape_cons, append_assoc, escape_byte_parse, IH by done. done.
Qed.
Lemma unicode_escape s rest : ascii_text s = true ->
  unicode_go true (escape 0 0 s +:+ String quote rest) = unicode_go false rest.
Proof.
  induction s as [|c s IH]; intros H; [done|]. cbn in H. apply andb_true_iff in H as [Hc Hs].
  rewrite escape_cons, append_assoc, escape_byte_unicode, IH by done. done.
Qed.
Lemma ascii_escape s : ascii_text s = true -> ascii_text (escape 0 0 s) = true.
Proof.
  unfold ascii_text. induction s as [|c s IH]; intros H; [done|]. cbn in H. apply andb_true_iff in H as [Hc Hs].
  rewrite escape_cons, all_chars_append, IH by done. rewrite andb_true_r. by apply escape_byte_ascii.
Qed.

Lemma ascii_valid s : ascii_text s = true -> ValidString s = true.
Proof.
  unfold ValidString, ascii_text. induction s as [|c s IH]; intros H; [done|]. cbn in H. apply andb_true_iff in H as [Hc Hs].
  rewrite <- (IH Hs). unfold is_ascii in Hc. apply Z.ltb_lt in Hc. cbn [utf8_go].
  by destruct (Z.ltb_spec (byte_val c) 0x80); [|lia].
Qed.

(** Trees the encoders produce: ASCII texts and integer numbers. *)
Fixpoint nsum (l : list nat) : nat := match l with [] => 0 | x :: l => x + nsum l end%nat.
Fixpoint jsize (j : json) : nat :=
  match j with
  | JArray l => S (nsum (map (fun x => S (jsize x)) l))
  | JObject l => S (nsum (map (fun '(_, x) => S (jsize x)) l))
  | _ => 1
  end.
Fixpoint plain_tree (j : json) : Prop :=
  match j with
  | JNull | JBool _ => True
  | JNumber n => exists z, n = FormatInt z /\ - 2 ^ 64 < z < 2 ^ 64
  | JText s => ascii_text s = true
  | JArray l => foldr (fun x P => plain_tree x /\ P) True l
  | JObject l => foldr (fun '(k, x) P => (ascii_text k = true /\ plain_tree x) /\ P) True l
  end.
(** What may follow a value. *)
Definition follows (s : string) : Prop :=
  match s with EmptyString => True | String c _ => c = "," \/ c = "]" \/ c = "}" end%char.

Lemma digit_char_digit d : 0 <= d < 10 -> is_digit (digit_char false d) = true.
Proof.
  intros Hd. assert (d = 0 \/ d = 1 \/ d = 2 \/ d = 3 \/ d = 4 \/ d = 5 \/ d = 6 \/ d = 7 \/ d = 8 \/ d = 9) as H by lia.
  repeat (destruct H as [->|H]; [reflexivity|]). by subst.
Qed.
Lemma fmt_decimal n acc : 0 <= n -> all_chars is_digit acc = true ->
  all_chars is_digit (fmt_digits false (fmt_fuel n) 10 n acc) = true
  /\ exists c t, fmt_digits false (fmt_fuel n) 10 n acc = String c t /\ (0 < n -> c <> "0"%char).
Proof.
  intros Hn. revert n Hn acc. refine (Zlt_0_ind _ _). intros n IH Hn acc Hacc.
  rewrite fmt_unfold by lia. cbn zeta. pose proof (Z.mod_pos_bound n 10 ltac:(lia)) as Hm.
  pose proof (Z.div_mod n 10 ltac:(lia)) as Hd.
  assert (all_chars is_digit (String (digit_char false (n mod 10)) acc) = true) as Hacc'.
  { cbn [all_chars]. by rewrite digit_char_digit. }
  destruct (Z.eqb_spec (n / 10) 0) as [Hz|Hnz].
  - split; [done|]. eexists _, _. split; [done|]. intros Hpos E.
    apply (f_equal digit_val) in E. rewrite digit_val_char in E by lia.
    change (digit_val "0") with (Some 0) in E. injection E as E. lia.
  - assert (0 <= n / 10) by (apply Z.div_pos; lia).
    destruct (IH (n / 10)) with (acc := String (digit_char false (n mod 10)) acc) as [H1 (c & t & E & H2)];
      [split; [lia|]; apply Z.div_lt; lia|done|].
    split; [done|]. exists c, t. split; [done|]. intros _. apply H2. lia.
Qed.
Lemma FormatUint_form n : 0 <= n -> all_chars is_digit (FormatUint n) = true
  /\ exists c t, FormatUint n = String c t /\ (0 < n -> c <> "0"%char).
Proof. intros Hn. by apply fmt_decimal. Qed.

Lemma span_digits d rest : all_chars is_digit d = true -> follows rest -> span is_digit (d +:+ rest) = (d, rest).
Proof.
  induction d as [|c d IH]; intros Hd Hf.
  - destruct rest as [|c rest]; [done|]. by destruct Hf as [->|[->| ->]].
  - cbn [all_chars] in Hd. apply andb_true_iff in Hd as [Hc Hd].
    change (span is_digit (String c d +:+ rest)) with
      (if is_digit c then let '(a, b) := span is_digit (d +:+ rest) in (String c a, b) else ("", String c d +:+ rest)).
    by rewrite Hc, (IH Hd Hf).
Qed.

Lemma parse_number_uint n rest : 0 <= n -> follows rest ->
  forall sign, sign = "" \/ sign = "-" ->
  parse_number (sign +:+ FormatUint n +:+ rest) = Some (sign +:+ FormatUint n, rest).
Proof.
  intros Hn Hf sign Hs. destruct (FormatUint_form n Hn) as (Hd & c & t & E & Hz).
  assert (is_digit c = true) as Hc by (rewrite E in Hd; cbn in Hd; by apply andb_true_iff in Hd as [? _]).
  assert ((FormatUint n ==? "") || ((1 <? len (FormatUint n)) && (slice 0 1 (FormatUint n) ==? "0")) = false) as Hlead.
  { rewrite bool_decide_eq_false_2 by (by rewrite E). cbn [orb].
    destruct (decide (n = 0)) as [->|]; [reflexivity|].
    rewrite (bool_decide_eq_false_2 (slice 0 1 (FormatUint n) = "0")); [apply andb_false_r|].
    rewrite E. assert (slice 0 1 (String c t) = String c "") as -> by (by destruct t). intros [= ->]. apply Hz; [lia|done]. }
  assert (forall sg, (let '(digits, s) := span is_digit (FormatUint n +:+ rest) in
    if (digits ==? "") || ((1 <? len digits) && (slice 0 1 digits ==? "0")) then None else
    match (match s with
         | String "." t => let '(f, t) := span is_digit t in if f ==? "" then None else Some ("." +:+ f, t)
         | _ => Some ("", s)
         end) with
    | None => None
    | Some (frac, s) =>
      match (match s with
             | String c t =>
                 if (c ==? "e"%char) || (c ==? "E"%char) then
                   let '(sg, t) := match t with
                                   | String x u => if (x ==? "+"%char) || (x ==? "-"%char) then (String x "", u) else ("", t)
                                   | EmptyString => ("", t)
                                   end in
                   let '(e, t) := span is_digit t in
                   if e ==? "" then None else Some (String c (sg +:+ e), t)
                 else Some ("", s)
             | EmptyString => Some ("", s)
             end) with
      | None => None
      | Some (exp, s) => Some (sg +:+ digits +:+ frac +:+ exp, s)
      end
    end) = Some (sg +:+ FormatUint n, rest)) as Hgen.
  { intros sg. rewrite span_digits by done. rewrite Hlead.
    assert (sg +:+ FormatUint n +:+ "" +:+ "" = sg +:+ FormatUint n) as Hnil.
    { change ("" +:+ "") with "". by rewrite append_nil_r. }
    destruct rest as [|x rest]; [exact (f_equal (fun y => Some (y, "")) Hnil)|].
    destruct Hf as [->|[->| ->]]; exact (f_equal (fun y => Some (y, _)) Hnil). }
  unfold parse_number. destruct Hs as [-> | ->].
  - rewrite E in *. cbn [String.app] in *.
    destruct c as [[] [] [] [] [] [] [] []]; try discriminate Hc; apply (Hgen "").
  - apply (Hgen "-").
Qed.

Lemma parse_number_int z rest : follows rest -> parse_number (FormatInt z +:+ rest) = Some (FormatInt z, rest).
Proof.
  intros Hf. unfold FormatInt. destruct (Z.ltb_spec z 0).
  - apply (parse_number_uint (- z) rest ltac:(lia) Hf "-"). by right.
  - apply (parse_number_uint z rest ltac:(lia) Hf ""). by left.
Qed.

Lemma FormatInt_head z : exists c t, FormatInt z = String c t /\ ((c = "-"%char) \/ is_digit c = true).
Proof.
  unfold FormatInt. destruct (Z.ltb_spec z 0); [eauto|]. destruct (FormatUint_form z) as (Hd & c & t & E & _); [lia|].
  exists c, t. split; [done|]. right. rewrite E in Hd. cbn in Hd. by apply andb_true_iff in Hd as [? _].
Qed.

Lemma print_head j : plain_tree j ->
  exists c t, print j = String c t /\ is_space c = false /\ c <> "]"%char.
Proof.
  destruct j as [|[]|n|s|l|l]; intros H; cbn [print]; try (eexists _, _; split; [reflexivity|done]).
  destruct H as (z & -> & _). destruct (FormatInt_head z) as (c & t & -> & Hc). exists c, t. split; [done|].
  destruct Hc as [->|Hc]; [done|]. destruct c as [[] [] [] [] [] [] [] []]; try discriminate Hc; done.
Qed.

Lemma skip_head c t : is_space c = false -> skip_space (String c t) = String c t.
Proof. intros H. cbn [skip_space]. by rewrite H. Qed.

Lemma append_cons c s t : String c s +:+ t = String c (s +:+ t).
Proof. done. Qed.

(** The printed members of an object. *)
Definition print_member (kv : string * json) : string := let '(k, v) := kv in print_text k +:+ ":" +:+ print v.

Section ParsePrint.
Context (n : nat) (IH : forall j, (jsize j <= n)%nat -> plain_tree j -> forall fuel rest, (jsize j <= fuel)%nat ->
  follows rest -> parse_value fuel (print j +:+ rest) = Some (j, rest)).

Lemma parse_elements_print l fuel rest :
  l <> [] -> (nsum (map (fun x => S (jsize x)) l) <= n)%nat -> foldr (fun x P => plain_tree x /\ P) True l ->
  (nsum (map (fun x => S (jsize x)) l) <= fuel)%nat ->
  parse_elements fuel (commas (map print l) +:+ String "]" rest) = Some (l, rest).
Proof using IH.
  revert fuel. induction l as [|x l IHl]; intros fuel Hne Hs Hp Hf; [done|].
  cbn [map nsum] in Hs, Hf. destruct Hp as [Hx Hl].
  destruct fuel as [|fuel]; [lia|]. cbn [parse_elements]. destruct l as [|y l].
  - cbn [map commas]. rewrite (IH x) by (done || lia || (cbn; auto)). done.
  - change (commas (map print (x :: y :: l))) with (print x +:+ "," +:+ commas (map print (y :: l))).
    rewrite !append_assoc, append_cons.
    rewrite (IH x) by (done || lia || (cbn; auto)). rewrite skip_head by done.
    change ("" +:+ ?s) with s. rewrite IHl; [done|done|cbn [map nsum] in *; lia|done|cbn [map nsum] in *; lia].
Qed.

Lemma parse_members_print l fuel rest :
  l <> [] -> (nsum (map (fun '(_, x) => S (jsize x)) l) <= n)%nat ->
  foldr (fun '(k, x) P => (ascii_text k = true /\ plain_tree x) /\ P) True l ->
  (nsum (map (fun '(_, x) => S (jsize x)) l) <= fuel)%nat ->
  parse_members fuel (commas (map print_member l) +:+ String "}" rest) = Some (l, rest).
Proof using IH.
  revert fuel. induction l as [|[k x] l IHl]; intros fuel Hne Hs Hp Hf; [done|].
  cbn [map nsum] in Hs, Hf. destruct Hp as [[Hk Hx] Hl].
  destruct fuel as [|fuel]; [lia|]. cbn [parse_members].
  assert (forall tail, follows tail -> tail <> "" ->
    match skip_space ((print_text k +:+ ":" +:+ print x) +:+ tail) with
    | String c t => negb (c ==? quote) = false /\ exists t', parse_text t = Some (k, String ":" t')
        /\ parse_value fuel t' = Some (x, tail)
    | EmptyString => False
    end) as Hhead.
  { intros tail Ht _. unfold print_text. rewrite !append_cons, skip_head by done. split; [done|].
    eexists. rewrite !append_assoc, append_cons. rewrite parse_escape by done. split; [reflexivity|].
    change ("" +:+ ?s) with s. apply IH; [lia|done|lia|done]. }
  destruct l as [|[k2 y] l].
  - cbn [map commas print_member]. specialize (Hhead (String "}" rest) ltac:(cbn; auto) ltac:(done)).
    destruct (skip_space _) as [|c t]; [done|]. destruct Hhead as (-> & t' & -> & Hv).
    rewrite skip_head by done. rewrite Hv. by rewrite skip_head.
  - change (commas (map print_member ((k, x) :: (k2, y) :: l)))
      with ((print_text k +:+ ":" +:+ print x) +:+ "," +:+ commas (map print_member ((k2, y) :: l))).
    specialize (Hhead (String "," (commas (map print_member ((k2, y) :: l)) +:+ String "}" rest)) ltac:(cbn; auto) ltac:(done)).
    rewrite append_assoc. rewrite append_cons. change ("" +:+ ?s) with s.
    destruct (skip_space _) as [|c t]; [done|]. destruct Hhead as (-> & t' & -> & Hv).
    rewrite skip_head by done. rewrite Hv. rewrite skip_head by done.
    rewrite IHl; [done|done|cbn [map nsum] in *; lia|done|cbn [map nsum] in *; lia].
Qed.
End ParsePrint.

Lemma commas_head x l t : exists u, commas (String x t :: l) = String x u.
Proof. destruct l; cbn; eauto. Qed.

Lemma literal_append w s : literal w (w +:+ s) = Some s.
Proof. unfold literal. by destruct (HasPrefix_append w s) as [-> ->]. Qed.
Lemma parse_literals fuel rest :
  parse_value (S fuel) ("null" +:+ rest) = Some (JNull, rest)
  /\ parse_value (S fuel) ("true" +:+ rest) = Some (JBool true, rest)
  /\ parse_value (S fuel) ("false" +:+ rest) = Some (JBool false, rest).
Proof.
  split_and!.
  - change (match literal "null" ("null" +:+ rest) with
      | Some t => Some (JNull, t)
      | None => match literal "true" ("null" +:+ rest) with Some t => Some (JBool true, t)
                | None => match literal "false" ("null" +:+ rest) with Some t => Some (JBool false, t) | None => None end end
      end = Some (JNull, rest)). by rewrite literal_append.
  - change (match literal "true" ("true" +:+ rest) with Some t => Some (JBool true, t)
                | None => match literal "false" ("true" +:+ rest) with Some t => Some (JBool false, t) | None => None end
      end = Some (JBool true, rest)). by rewrite literal_append.
  - change (match literal "false" ("false" +:+ rest) with Some t => Some (JBool false, t) | None => None end
      = Some (JBool false, rest)). by rewrite literal_append.
Qed.

Lemma parse_print n : forall j, (jsize j <= n)%nat -> plain_tree j -> forall fuel rest, (jsize j <= fuel)%nat ->
  follows rest -> parse_value fuel (print j +:+ rest) = Some (j, rest).
Proof.
  induction n as [|n IH]; intros j Hj Hp fuel rest Hf Hr; [destruct j; cbn in Hj; lia|].
  destruct fuel as [|fuel]; [destruct j; cbn in Hf; lia|].
  destruct (parse_literals fuel rest) as (Hnull & Htrue & Hfalse).
  destruct j as [|[]|t|s|l|l]; [exact Hnull|exact Htrue|exact Hfalse| | | |]; cbn [print parse_value].
  - destruct Hp as (z & -> & _). pose proof (parse_number_int z rest Hr) as Hn.
    destruct (FormatInt_head z) as (c & t & E & Hc). rewrite E in *. rewrite append_cons in *.
    assert (is_space c = false /\ c <> quote /\ c <> "{"%char /\ c <> "["%char /\ (c ==? "-"%char) || is_digit c = true)
      as (H1 & H2 & H3 & H4 & H5).
    { destruct Hc as [->|Hc]; [done|]. rewrite Hc, orb_true_r.
      destruct c as [[] [] [] [] [] [] [] []]; try discriminate Hc; done. }
    rewrite skip_head by done. rewrite (bool_decide_eq_false_2 (c = quote)), (bool_decide_eq_false_2 (c = "{"%char)),
      (bool_decide_eq_false_2 (c = "["%char)) by done. by rewrite H5, Hn.
  - unfold print_text. rewrite !append_cons, skip_head by done. rewrite bool_decide_eq_true_2 by done.
    rewrite append_assoc, append_cons. by rewrite parse_escape.
  - cbn [plain_tree jsize] in *. rewrite !append_assoc, !append_cons. change ("" +:+ ?s) with s. rewrite skip_head by done.
    rewrite (bool_decide_eq_false_2 ("["%char = quote)), (bool_decide_eq_false_2 ("["%char = "{"%char)),
      bool_decide_eq_true_2 by done.
    change ("" +:+ ?s) with s. destruct l as [|x l]; [done|].
    pose proof (parse_elements_print n IH (x :: l) fuel rest ltac:(done) ltac:(lia) Hp ltac:(lia)) as He.
    destruct Hp as [Hx _]. destruct (print_head x Hx) as (c & t & E & Hc & Hne).
    cbn [map] in He |- *. rewrite E in He |- *. destruct (commas_head c (map print l) t) as [u Eu]. rewrite Eu in He |- *.
    rewrite append_cons in He |- *. rewrite skip_head by done.
    destruct c as [[] [] [] [] [] [] [] []]; first [by rewrite He|done].
  - cbn [plain_tree jsize] in *. rewrite !append_assoc, !append_cons. change ("" +:+ ?s) with s. rewrite skip_head by done.
    rewrite (bool_decide_eq_false_2 ("{"%char = quote)), bool_decide_eq_true_2 by done.
    change ("" +:+ ?s) with s. destruct l as [|[k x] l]; [done|].
    pose proof (parse_members_print n IH ((k, x) :: l) fuel rest ltac:(done) ltac:(lia) Hp ltac:(lia)) as He.
    change (map (fun '(k, v) => print_text k +:+ ":" +:+ print v) ((k, x) :: l)) with (map print_member ((k, x) :: l)).
    cbn [map print_member] in He |- *. unfold print_text at 1 in He. unfold print_text at 1.
    rewrite append_cons in He |- *. destruct (commas_head quote (map print_member l)
      ((escape 0 0 k +:+ String quote "") +:+ ":" +:+ print x)) as [u Eu]. rewrite Eu in He |- *.
    rewrite append_cons in He |- *. rewrite skip_head by done.
    change (match parse_members fuel (String quote (u +:+ String "}" rest)) with
      | Some (l, t) => Some (JObject l, t) | None => None end = Some (JObject ((k, x) :: l), rest)). by rewrite He.
Qed.

(** Printed trees are ASCII without stray escapes, and long enough for the parser's fuel. *)
Lemma unicode_plain s t : all_chars (fun c => negb (c ==? quote)) s = true -> unicode_go false (s +:+ t) = unicode_go false t.
Proof.
  induction s as [|c s IH]; intros H; [done|]. cbn [all_chars] in H. apply andb_true_iff in H as [Hc Hs].
  rewrite append_cons. cbn [unicode_go]. apply negb_true_iff in Hc. rewrite Hc. cbn [negb orb]. auto.
Qed.
Lemma unicode_print_text s t : ascii_text s = true -> unicode_go false (print_text s +:+ t) = unicode_go false t.
Proof.
  intros H. unfold print_text. rewrite append_cons, append_assoc, append_cons. cbn [unicode_go].
  rewrite bool_decide_eq_true_2 by done. cbn [negb]. by rewrite unicode_escape.
Qed.

Definition clean (s : string) : Prop := ascii_text s = true /\ forall t, unicode_go false (s +:+ t) = unicode_go false t.
Lemma clean_app a b : clean a -> clean b -> clean (a +:+ b).
Proof.
  intros [A1 A2] [B1 B2]. split; [unfold ascii_text; rewrite all_chars_append; by apply andb_true_iff|].
  intros t. by rewrite append_assoc, A2, B2.
Qed.
Lemma clean_text s : ascii_text s = true -> clean (print_text s).
Proof.
  intros H. split; [|intros t; by apply unicode_print_text]. unfold print_text, ascii_text. cbn [all_chars].
  rewrite all_chars_append. apply andb_true_iff. split; [done|]. apply andb_true_iff. split; [by apply ascii_escape|done].
Qed.
Lemma clean_commas l : Forall clean l -> clean (commas l).
Proof.
  induction l as [|x l IH]; intros H; [done|]. inversion H as [|? ? Hx Hl]; subst. destruct l as [|y l]; [done|].
  change (commas (x :: y :: l)) with (x +:+ "," +:+ commas (y :: l)).
  apply clean_app; [done|]. apply clean_app; [split; [done|by intros t]|]. by apply IH.
Qed.
Lemma clean_digits s : all_chars is_digit s = true -> clean s.
Proof.
  intros H. split.
  - eapply all_chars_impl; [|exact H]. intros c Hc. destruct c as [[] [] [] [] [] [] [] []]; try discriminate Hc; done.
  - intros t. apply unicode_plain. eapply all_chars_impl; [|exact H]. intros c Hc.
    destruct c as [[] [] [] [] [] [] [] []]; try discriminate Hc; done.
Qed.
Lemma clean_int z : clean (FormatInt z).
Proof.
  unfold FormatInt. destruct (Z.ltb_spec z 0).
  - apply (clean_app "-"); [split; [done|by intros t]|]. apply clean_digits, FormatUint_form. lia.
  - apply clean_digits, FormatUint_form. lia.
Qed.

Lemma print_clean n : forall j, (jsize j <= n)%nat -> plain_tree j -> clean (print j) /\ (jsize j <= String.length (print j))%nat.
Proof.
  induction n as [|n IH]; intros j Hj Hp; [destruct j; cbn in Hj; lia|].
  assert (forall l, (nsum (map (fun s => S (String.length s)) l) <= S (String.length (commas l)))%nat) as Hcl.
  { clear. induction l as [|x l IH]; cbn; [lia|]. destruct l as [|y l]; [cbn; lia|].
    change (commas (x :: y :: l)) with (x +:+ "," +:+ commas (y :: l)). rewrite !length_append. cbn [String.length]. lia. }
  destruct j as [|[]|t|s|l|l]; try (split; [split; [done|by intros u]|cbn; lia]).
  - destruct Hp as (z & -> & _). split; [apply clean_int|]. destruct (FormatInt_head z) as (c & u & E & _).
    cbn [print jsize]. rewrite E. cbn. lia.
  - split; [by apply clean_text|]. cbn. lia.
  - cbn [print jsize plain_tree] in *.
    assert (Forall (fun x => clean (print x) /\ (jsize x <= String.length (print x))%nat) l) as Hl.
    { clear Hcl. induction l as [|x l IHl]; [constructor|]. cbn [map nsum foldr] in *. destruct Hp as [Hx Hl].
      constructor; [apply IH; [lia|done]|]. apply IHl; [lia|done]. }
    split.
    + apply (clean_app "["); [split; [done|by intros u]|]. apply clean_app; [|split; [done|by intros u]].
      apply clean_commas. apply List.Forall_map. eapply Forall_impl; [exact Hl|]. by intros x [? _].
    + rewrite !length_append. cbn [String.length]. specialize (Hcl (map print l)). rewrite map_map in Hcl.
      assert (nsum (map (fun x => S (jsize x)) l) <= nsum (map (fun x => S (String.length (print x))) l))%nat; [|lia].
      clear -Hl. induction Hl as [|x l [_ Hx] _ IH]; cbn; lia.
  - cbn [print jsize plain_tree] in *.
    assert (Forall (fun kv => clean (print_member kv) /\ (jsize kv.2 <= String.length (print_member kv))%nat) l) as Hl.
    { clear Hcl. induction l as [|[k x] l IHl]; [constructor|]. cbn [map nsum foldr] in *. destruct Hp as [[Hk Hx] Hl].
      constructor; [|apply IHl; [lia|done]]. destruct (IH x ltac:(lia) Hx) as [Hc Hs]. cbn [print_member snd]. split.
      - apply clean_app; [by apply clean_text|]. apply (clean_app ":"); [split; [done|by intros u]|done].
      - rewrite !length_append. lia. }
    change (map (fun '(k, v) => print_text k +:+ ":" +:+ print v) l) with (map print_member l). split.
    + apply (clean_app "{"); [split; [done|by intros u]|]. apply clean_app; [|split; [done|by intros u]].
      apply clean_commas. apply List.Forall_map. eapply Forall_impl; [exact Hl|]. by intros x [? _].
    + rewrite !length_append. cbn [String.length]. specialize (Hcl (map print_member l)). rewrite map_map in Hcl.
      assert (nsum (map (fun '(_, x) => S (jsize x)) l) <= nsum (map (fun x => S (String.length (print_member x))) l))%nat; [|lia].
      clear -Hl. induction Hl as [|[k x] l [_ Hx] _ IH]; cbn in *; lia.
Qed.

(** ** The laws clients use *)
Class JsonLaws (A : Type) {J : Json A} := mkJsonLaws {
  json_ok : A -> Prop;
  json_plain : forall v, json_ok v -> plain_tree (to_json v);
  json_back : forall v, json_ok v -> of_json (to_json v) = Some v }.

Lemma strict_limit {A} {J : Json A} b max (v : A) : strict b max = Ok v -> len b <= max.
Proof. unfold strict. destruct (Z.ltb_spec max (len b)); [done|lia]. Qed.

Lemma strict_error {A} {J : Json A} b max e : strict b max = Err e -> e = ErrCapacity \/ e = ErrInvalid.
Proof. unfold strict. intros H. repeat case_match; simplify_eq; auto. Qed.

Lemma parse_document_print j : plain_tree j -> parse_document (print j) = Some j.
Proof.
  intros Hp. unfold parse_document. destruct (print_clean _ j (Nat.le_refl _) Hp) as [_ Hs].
  pose proof (parse_print _ j (Nat.le_refl _) Hp (S (String.length (print j))) "" ltac:(lia) I) as H.
  rewrite append_nil_r in H. by rewrite H.
Qed.

Lemma strict_marshal {A} {J : Json A} {L : JsonLaws A} (v : A) max :
  json_ok v -> len (Marshal v) <= max -> strict (Marshal v) max = Ok v.
Proof.
  intros Hok Hlen. unfold strict, Marshal in *. destruct (Z.ltb_spec max (len (print (to_json v)))); [lia|].
  pose proof (json_plain v Hok) as Hp. destruct (print_clean _ _ (Nat.le_refl _) Hp) as [[Ha Hu] _].
  rewrite (ascii_valid _ Ha). unfold validJSONUnicode. specialize (Hu ""). rewrite append_nil_r in Hu. rewrite Hu.
  cbn [unicode_go negb orb]. rewrite parse_document_print by done. by rewrite json_back.
Qed.

(** The laws in one statement, for building instances field by field. *)
Definition lawful {A} (J : Json A) (ok : A -> Prop) : Prop :=
  forall v, ok v -> plain_tree (@to_json A J v) /\ @of_json A J (@to_json A J v) = Some v.
Definition lawful_JsonLaws {A} {J : Json A} {ok} (H : lawful J ok) : JsonLaws A :=
  mkJsonLaws A J ok (fun v Hv => proj1 (H v Hv)) (fun v Hv => proj2 (H v Hv)).
Lemma lawful_string : lawful json_string (fun s => ascii_text s = true).
Proof. by intros v H. Qed.
Lemma lawful_bool : lawful json_bool (fun _ => True).
Proof. by intros v H. Qed.
Lemma parse_int_FormatInt z : - 2 ^ 64 < z < 2 ^ 64 -> parse_int (FormatInt z) = Some z.
Proof.
  intros Hz. unfold FormatInt. destruct (Z.ltb_spec z 0).
  - cbn [parse_int]. unfold FormatUint. rewrite ParseUint_fmt by lia. cbn. f_equal. lia.
  - assert (ParseUint (FormatUint z) 10 64 = Some z) as Hu by (apply ParseUint_fmt; lia).
    destruct (FormatUint_form z ltac:(lia)) as (Hd & c & t & E & _). rewrite E in *. cbn in Hd.
    apply andb_true_iff in Hd as [Hc _]. unfold parse_int.
    destruct c as [[] [] [] [] [] [] [] []]; try discriminate Hc; exact Hu.
Qed.
Lemma lawful_int lo hi : - 2 ^ 64 < lo -> hi < 2 ^ 64 -> lawful (json_int lo hi) (fun z => lo <= z <= hi).
Proof.
  intros Hl Hh z Hz. split; [exists z; split; [done|lia]|]. cbn.
  assert ((if lo <? 0 then parse_int (FormatInt z) else ParseUint (FormatInt z) 10 64) = Some z) as ->.
  { destruct (Z.ltb_spec lo 0); [apply parse_int_FormatInt; lia|].
    unfold FormatInt. destruct (Z.ltb_spec z 0); [lia|]. apply ParseUint_fmt; lia. }
  destruct (Z.leb_spec lo z), (Z.leb_spec z hi); try lia. done.
Qed.
Lemma lawful_ptr {A} (J : Json A) ok : (forall v, @to_json A J v <> JNull) -> lawful J ok ->
  lawful (json_ptr J) (fun o => match o with Some v => ok v | None => True end).
Proof.
  intros Hn H [v|] Hv; [|done]. destruct (H v Hv) as [Hp Hb]. split; [done|]. cbn. specialize (Hn v).
  destruct (to_json v) eqn:E; try done; by rewrite <- E in *; rewrite Hb.
Qed.
Lemma all_some_map {A} (J : Json A) ok l : lawful J ok -> Forall ok l ->
  all_some (map (@of_json A J) (map (@to_json A J) l)) = Some l /\ foldr (fun x P => plain_tree x /\ P) True (map (@to_json A J) l).
Proof.
  intros H. induction 1 as [|v l Hv _ [IH1 IH2]]; [done|]. destruct (H v Hv) as [Hp Hb]. cbn. by rewrite Hb, IH1.
Qed.
Lemma lawful_list {A} (J : Json A) ok : lawful J ok -> lawful (json_list J) (Forall ok).
Proof. intros H l Hl. destruct (all_some_map J ok l H Hl). done. Qed.
Lemma lawful_slice {A} (J : Json A) ok : lawful J ok ->
  lawful (json_slice J) (fun o => match o with Some l => Forall ok l | None => False end).
Proof. intros H [l|] Hl; [|done]. destruct (all_some_map J ok l H Hl) as [E ?]. split; [done|]. cbn. by rewrite E. Qed.

(** Decoding an object that lists the fields in order. *)
Lemma exact_fields_same names l : l.*1 = names -> NoDup names -> exact_fields names l = true.
Proof.
  intros E Hn. unfold exact_fields. rewrite E. rewrite bool_decide_eq_true_2 by done. cbn [andb].
  apply andb_true_iff. split.
  - apply forallb_forall. intros k Hk. apply bool_decide_eq_true_2. by apply list_elem_of_In.
  - rewrite <- E, length_fmap. apply Nat.eqb_refl.
Qed.

(** A field of an object with distinct keys decodes to the value it was written from. *)
Lemma member_in k j l : NoDup l.*1 -> (k, j) ∈ l -> member k l = Some j.
Proof.
  induction l as [|[k' j'] l IH]; intros Hn Hin; [by apply not_elem_of_nil in Hin|]. cbn in Hn |- *.
  apply NoDup_cons in Hn as [Hk Hn]. apply elem_of_cons in Hin as [[= -> ->]|Hin].
  - by rewrite bool_decide_eq_true_2.
  - rewrite bool_decide_eq_false_2; [auto|]. intros ->. apply Hk. apply list_elem_of_fmap. by exists (k, j).
Qed.
Lemma field_in {A} (J : Json A) ok k (v : A) l : (k, to_json v) ∈ l -> lawful J ok -> ok v -> NoDup l.*1 ->
  field J k l = Some v.
Proof. intros Hin HJ Hv Hn. unfold field. rewrite (member_in k (to_json v)) by done. by apply HJ. Qed.
Lemma plain_fields l : Forall (fun '(k, j) => ascii_text k = true /\ plain_tree j) l -> plain_tree (JObject l).
Proof. cbn. induction 1 as [|[k j] l H _ IH]; done. Qed.
Lemma lawful_laws {A} (J : Json A) ok : lawful J ok -> forall v, ok v -> plain_tree (to_json v).
Proof. intros H v Hv. by apply H. Qed.

Definition is_int64 (z : Z) : Prop := - 2 ^ 63 <= z <= 2 ^ 63 - 1.
Definition is_uint32 (z : Z) : Prop := 0 <= z <= u32_max.
Definition is_text (s : string) : Prop := ascii_text s = true.
Definition opt_ok {A} (ok : A -> Prop) (o : option A) : Prop := match o with Some v => ok v | None => True end.
Definition slice_ok {A} (ok : A -> Prop) (o : option (list A)) : Prop := match o with Some l => Forall ok l | None => False end.

Lemma lawful_text : lawful json_string is_text.
Proof. apply lawful_string. Qed.
Lemma lawful_int64 : lawful int64 is_int64.
Proof. by apply lawful_int. Qed.
Lemma lawful_uint32 : lawful uint32 is_uint32.
Proof. by apply lawful_int. Qed.
Lemma lawful_ptr_text : lawful (json_ptr json_string) (opt_ok is_text).
Proof. apply lawful_ptr; [done|apply lawful_text]. Qed.
Lemma lawful_ptr_uint32 : lawful (json_ptr uint32) (opt_ok is_uint32).
Proof. apply lawful_ptr; [done|apply lawful_uint32]. Qed.
Lemma lawful_slice_ok {A} (J : Json A) ok : lawful J ok -> lawful (json_slice J) (slice_ok ok).
Proof. apply lawful_slice. Qed.

Create HintDb lawful.
#[export] Hint Resolve lawful_text lawful_bool lawful_int64 lawful_uint32 lawful_ptr_text lawful_ptr_uint32
  lawful_list lawful_slice_ok : lawful.

(** Laws of a struct whose fields are lawful: the goal is [lawful J ok] with [ok] a conjunction
    of the fields' conditions. *)
Ltac in_fields := solve [repeat first [apply list_elem_of_here | apply list_elem_of_further]].
Ltac no_dup := by apply (bool_decide_unpack _).
Ltac lawful_struct J :=
  let v := fresh "v" in let Hv := fresh "Hv" in
  intros v Hv; hnf in Hv; destruct_and? Hv; split;
  [ apply plain_fields; repeat (apply List.Forall_cons; [split; [reflexivity|]|]); [..|apply List.Forall_nil];
    (eapply lawful_laws; [solve [eauto with lawful]|eassumption])
  | unfold J; cbn [of_json to_json];
    rewrite exact_fields_same; [|reflexivity|no_dup];
    match goal with |- context [field _ _ ?l] =>
      let Hn := fresh in assert (NoDup l.*1) as Hn by no_dup;
      repeat (erewrite field_in; [|in_fields|solve [eauto with lawful]|eassumption|exact Hn]) end;
    destruct v; reflexivity ].
