(* ===== verification/Documents.v ===== *)
(** * The shapes of the metadata documents (internal/repository/schema.go, struct tags)

    One [Json] instance per document type, with the fields in the order of the
    struct, and the round trip of every document through [Marshal] and [strict]. *)

From S2P Require Import Prelude GoStrings GoTime Sha256 Errors Schema Json.

#[export] Instance json_Identity : Json Identity := mkJson Identity
  (fun v => JObject [
     ("schema", @to_json _ int64 (id_Schema v)); ("repository_id", @to_json _ json_string (id_RepositoryID v));
     ("postgres_major", @to_json _ int64 (id_PostgresMajor v));
     ("system_identifier", @to_json _ json_string (id_SystemIdentifier v));
     ("wal_segment_bytes", @to_json _ int64 (id_WALSegmentBytes v));
     ("writer_cluster_uid", @to_json _ json_string (id_WriterClusterUID v));
     ("created_at", @to_json _ json_string (id_CreatedAt v))])
  (fun j => fields ["schema"; "repository_id"; "postgres_major"; "system_identifier"; "wal_segment_bytes";
                    "writer_cluster_uid"; "created_at"] of j as l in
     schema_ ← field int64 "schema" l; repositoryid_ ← field json_string "repository_id" l;
     postgresmajor_ ← field int64 "postgres_major" l;
     systemidentifier_ ← field json_string "system_identifier" l;
     walsegmentbytes_ ← field int64 "wal_segment_bytes" l;
     writerclusteruid_ ← field json_string "writer_cluster_uid" l;
     createdat_ ← field json_string "created_at" l;
     Some (mkIdentity schema_ repositoryid_ postgresmajor_ systemidentifier_ walsegmentbytes_ writerclusteruid_ createdat_)).

#[export] Instance json_Request : Json Request := mkJson Request
  (fun v => JObject [
     ("schema", @to_json _ int64 (rq_Schema v)); ("repository_id", @to_json _ json_string (rq_RepositoryID v));
     ("backup_uid", @to_json _ json_string (rq_BackupUID v));
     ("writer_cluster_uid", @to_json _ json_string (rq_WriterClusterUID v));
     ("requested_kind", @to_json _ json_string (rq_RequestedKind v));
     ("root_backup_uid", @to_json _ (json_ptr json_string) (rq_RootBackupUID v));
     ("config_sha256", @to_json _ json_string (rq_ConfigSHA256 v))])
  (fun j => fields ["schema"; "repository_id"; "backup_uid"; "writer_cluster_uid"; "requested_kind";
                    "root_backup_uid"; "config_sha256"] of j as l in
     schema_ ← field int64 "schema" l; repositoryid_ ← field json_string "repository_id" l;
     backupuid_ ← field json_string "backup_uid" l;
     writerclusteruid_ ← field json_string "writer_cluster_uid" l;
     requestedkind_ ← field json_string "requested_kind" l;
     rootbackupuid_ ← field (json_ptr json_string) "root_backup_uid" l;
     configsha256_ ← field json_string "config_sha256" l;
     Some (mkRequest schema_ repositoryid_ backupuid_ writerclusteruid_ requestedkind_ rootbackupuid_ configsha256_)).

#[export] Instance json_Claim : Json Claim := mkJson Claim
  (fun v => JObject [
     ("schema", @to_json _ int64 (cl_Schema v)); ("repository_id", @to_json _ json_string (cl_RepositoryID v));
     ("backup_uid", @to_json _ json_string (cl_BackupUID v));
     ("attempt_id", @to_json _ json_string (cl_AttemptID v));
     ("process_id", @to_json _ json_string (cl_ProcessID v));
     ("request_sha256", @to_json _ json_string (cl_RequestSHA256 v))])
  (fun j => fields ["schema"; "repository_id"; "backup_uid"; "attempt_id"; "process_id"; "request_sha256"] of j as l in
     schema_ ← field int64 "schema" l; repositoryid_ ← field json_string "repository_id" l;
     backupuid_ ← field json_string "backup_uid" l; attemptid_ ← field json_string "attempt_id" l;
     processid_ ← field json_string "process_id" l; requestsha256_ ← field json_string "request_sha256" l;
     Some (mkClaim schema_ repositoryid_ backupuid_ attemptid_ processid_ requestsha256_)).

#[export] Instance json_Tablespace : Json Tablespace := mkJson Tablespace
  (fun v => JObject [
     ("oid", @to_json _ uint32 (ts_OID v)); ("name", @to_json _ json_string (ts_Name v))])
  (fun j => fields ["oid"; "name"] of j as l in
     oid_ ← field uint32 "oid" l; name_ ← field json_string "name" l;
     Some (mkTablespace oid_ name_)).

#[export] Instance json_Artifact : Json Artifact := mkJson Artifact
  (fun v => JObject [
     ("index", @to_json _ int64 (ar_Index v)); ("role", @to_json _ json_string (ar_Role v));
     ("tablespace_oid", @to_json _ (json_ptr uint32) (ar_TablespaceOID v));
     ("compression", @to_json _ json_string (ar_Compression v));
     ("stored_bytes", @to_json _ int64 (ar_StoredBytes v)); ("raw_bytes", @to_json _ int64 (ar_RawBytes v));
     ("stored_sha256", @to_json _ json_string (ar_StoredSHA256 v));
     ("raw_sha256", @to_json _ json_string (ar_RawSHA256 v))])
  (fun j => fields ["index"; "role"; "tablespace_oid"; "compression"; "stored_bytes"; "raw_bytes";
                    "stored_sha256"; "raw_sha256"] of j as l in
     index_ ← field int64 "index" l; role_ ← field json_string "role" l;
     tablespaceoid_ ← field (json_ptr uint32) "tablespace_oid" l;
     compression_ ← field json_string "compression" l; storedbytes_ ← field int64 "stored_bytes" l;
     rawbytes_ ← field int64 "raw_bytes" l; storedsha256_ ← field json_string "stored_sha256" l;
     rawsha256_ ← field json_string "raw_sha256" l;
     Some (mkArtifact index_ role_ tablespaceoid_ compression_ storedbytes_ rawbytes_ storedsha256_ rawsha256_)).

#[export] Instance json_WALRange : Json WALRange := mkJson WALRange
  (fun v => JObject [
     ("timeline", @to_json _ uint32 (wr_Timeline v)); ("start_lsn", @to_json _ json_string (wr_StartLSN v));
     ("end_lsn", @to_json _ json_string (wr_EndLSN v))])
  (fun j => fields ["timeline"; "start_lsn"; "end_lsn"] of j as l in
     timeline_ ← field uint32 "timeline" l; startlsn_ ← field json_string "start_lsn" l;
     endlsn_ ← field json_string "end_lsn" l;
     Some (mkWALRange timeline_ startlsn_ endlsn_)).

#[export] Instance json_Commit : Json Commit := mkJson Commit
  (fun v => JObject [
     ("schema", @to_json _ int64 (c_Schema v)); ("repository_id", @to_json _ json_string (c_RepositoryID v));
     ("backup_uid", @to_json _ json_string (c_BackupUID v));
     ("attempt_id", @to_json _ json_string (c_AttemptID v));
     ("request_sha256", @to_json _ json_string (c_RequestSHA256 v));
     ("kind", @to_json _ json_string (c_Kind v));
     ("parent_backup_uid", @to_json _ (json_ptr json_string) (c_ParentBackupUID v));
     ("root_backup_uid", @to_json _ json_string (c_RootBackupUID v));
     ("system_identifier", @to_json _ json_string (c_SystemIdentifier v));
     ("postgres_major", @to_json _ int64 (c_PostgresMajor v));
     ("tool_version", @to_json _ json_string (c_ToolVersion v)); ("timeline", @to_json _ uint32 (c_Timeline v));
     ("checksum_version", @to_json _ int64 (c_ChecksumVersion v));
     ("capture_instance_uid", @to_json _ json_string (c_CaptureInstanceUID v));
     ("postmaster_started_at", @to_json _ json_string (c_PostmasterStartedAt v));
     ("started_at", @to_json _ json_string (c_StartedAt v));
     ("stopped_at", @to_json _ json_string (c_StoppedAt v));
     ("start_lsn", @to_json _ json_string (c_StartLSN v)); ("stop_lsn", @to_json _ json_string (c_StopLSN v));
     ("redo_lsn", @to_json _ json_string (c_RedoLSN v));
     ("bundled_wal_start_lsn", @to_json _ json_string (c_BundledWALStartLSN v));
     ("bundled_wal_end_lsn", @to_json _ json_string (c_BundledWALEndLSN v));
     ("wal_ranges", @to_json _ (json_list json_WALRange) (c_WALRanges v));
     ("backup_label", @to_json _ json_string (c_BackupLabel v));
     ("tablespace_map", @to_json _ json_string (c_TablespaceMap v));
     ("root_manifest_sha256", @to_json _ (json_ptr json_string) (c_RootManifestSHA256 v));
     ("manifest_bytes", @to_json _ int64 (c_ManifestBytes v));
     ("manifest_sha256", @to_json _ json_string (c_ManifestSHA256 v));
     ("tablespaces", @to_json _ (json_slice json_Tablespace) (c_Tablespaces v));
     ("artifacts", @to_json _ (json_list json_Artifact) (c_Artifacts v))])
  (fun j => fields ["schema"; "repository_id"; "backup_uid"; "attempt_id"; "request_sha256"; "kind";
                    "parent_backup_uid"; "root_backup_uid"; "system_identifier"; "postgres_major";
                    "tool_version"; "timeline"; "checksum_version"; "capture_instance_uid";
                    "postmaster_started_at"; "started_at"; "stopped_at"; "start_lsn"; "stop_lsn"; "redo_lsn";
                    "bundled_wal_start_lsn"; "bundled_wal_end_lsn"; "wal_ranges"; "backup_label";
                    "tablespace_map"; "root_manifest_sha256"; "manifest_bytes"; "manifest_sha256";
                    "tablespaces"; "artifacts"] of j as l in
     schema_ ← field int64 "schema" l; repositoryid_ ← field json_string "repository_id" l;
     backupuid_ ← field json_string "backup_uid" l; attemptid_ ← field json_string "attempt_id" l;
     requestsha256_ ← field json_string "request_sha256" l; kind_ ← field json_string "kind" l;
     parentbackupuid_ ← field (json_ptr json_string) "parent_backup_uid" l;
     rootbackupuid_ ← field json_string "root_backup_uid" l;
     systemidentifier_ ← field json_string "system_identifier" l;
     postgresmajor_ ← field int64 "postgres_major" l; toolversion_ ← field json_string "tool_version" l;
     timeline_ ← field uint32 "timeline" l; checksumversion_ ← field int64 "checksum_version" l;
     captureinstanceuid_ ← field json_string "capture_instance_uid" l;
     postmasterstartedat_ ← field json_string "postmaster_started_at" l;
     startedat_ ← field json_string "started_at" l; stoppedat_ ← field json_string "stopped_at" l;
     startlsn_ ← field json_string "start_lsn" l; stoplsn_ ← field json_string "stop_lsn" l;
     redolsn_ ← field json_string "redo_lsn" l;
     bundledwalstartlsn_ ← field json_string "bundled_wal_start_lsn" l;
     bundledwalendlsn_ ← field json_string "bundled_wal_end_lsn" l;
     walranges_ ← field (json_list json_WALRange) "wal_ranges" l;
     backuplabel_ ← field json_string "backup_label" l; tablespacemap_ ← field json_string "tablespace_map" l;
     rootmanifestsha256_ ← field (json_ptr json_string) "root_manifest_sha256" l;
     manifestbytes_ ← field int64 "manifest_bytes" l; manifestsha256_ ← field json_string "manifest_sha256" l;
     tablespaces_ ← field (json_slice json_Tablespace) "tablespaces" l;
     artifacts_ ← field (json_list json_Artifact) "artifacts" l;
     Some (mkCommit schema_ repositoryid_ backupuid_ attemptid_ requestsha256_ kind_ parentbackupuid_ rootbackupuid_
         systemidentifier_ postgresmajor_ toolversion_ timeline_ checksumversion_ captureinstanceuid_
         postmasterstartedat_ startedat_ stoppedat_ startlsn_ stoplsn_ redolsn_ bundledwalstartlsn_
         bundledwalendlsn_ walranges_ backuplabel_ tablespacemap_ rootmanifestsha256_ manifestbytes_
         manifestsha256_ tablespaces_ artifacts_)).

#[export] Instance json_Retirement : Json Retirement := mkJson Retirement
  (fun v => JObject [
     ("schema", @to_json _ int64 (rt_Schema v)); ("repository_id", @to_json _ json_string (rt_RepositoryID v));
     ("backup_uid", @to_json _ json_string (rt_BackupUID v));
     ("commit_sha256", @to_json _ json_string (rt_CommitSHA256 v));
     ("gc_operation_id", @to_json _ json_string (rt_GCOperationID v))])
  (fun j => fields ["schema"; "repository_id"; "backup_uid"; "commit_sha256"; "gc_operation_id"] of j as l in
     schema_ ← field int64 "schema" l; repositoryid_ ← field json_string "repository_id" l;
     backupuid_ ← field json_string "backup_uid" l; commitsha256_ ← field json_string "commit_sha256" l;
     gcoperationid_ ← field json_string "gc_operation_id" l;
     Some (mkRetirement schema_ repositoryid_ backupuid_ commitsha256_ gcoperationid_)).

(** ** Laws *)
Definition identity_plain (v : Identity) : Prop :=
  is_int64 (id_Schema v) /\ is_text (id_RepositoryID v) /\ is_int64 (id_PostgresMajor v) /\
  is_text (id_SystemIdentifier v) /\ is_int64 (id_WALSegmentBytes v) /\ is_text (id_WriterClusterUID v) /\
  is_text (id_CreatedAt v).
Lemma lawful_Identity : lawful json_Identity identity_plain.
Proof. lawful_struct json_Identity. Qed.
#[export] Hint Resolve lawful_Identity : lawful.

Definition request_plain (v : Request) : Prop :=
  is_int64 (rq_Schema v) /\ is_text (rq_RepositoryID v) /\ is_text (rq_BackupUID v) /\
  is_text (rq_WriterClusterUID v) /\ is_text (rq_RequestedKind v) /\ opt_ok is_text (rq_RootBackupUID v) /\
  is_text (rq_ConfigSHA256 v).
Lemma lawful_Request : lawful json_Request request_plain.
Proof. lawful_struct json_Request. Qed.
#[export] Hint Resolve lawful_Request : lawful.

Definition claim_plain (v : Claim) : Prop :=
  is_int64 (cl_Schema v) /\ is_text (cl_RepositoryID v) /\ is_text (cl_BackupUID v) /\
  is_text (cl_AttemptID v) /\ is_text (cl_ProcessID v) /\ is_text (cl_RequestSHA256 v).
Lemma lawful_Claim : lawful json_Claim claim_plain.
Proof. lawful_struct json_Claim. Qed.
#[export] Hint Resolve lawful_Claim : lawful.

Definition tablespace_plain (v : Tablespace) : Prop :=
  is_uint32 (ts_OID v) /\ is_text (ts_Name v).
Lemma lawful_Tablespace : lawful json_Tablespace tablespace_plain.
Proof. lawful_struct json_Tablespace. Qed.
#[export] Hint Resolve lawful_Tablespace : lawful.

Definition artifact_plain (v : Artifact) : Prop :=
  is_int64 (ar_Index v) /\ is_text (ar_Role v) /\ opt_ok is_uint32 (ar_TablespaceOID v) /\
  is_text (ar_Compression v) /\ is_int64 (ar_StoredBytes v) /\ is_int64 (ar_RawBytes v) /\
  is_text (ar_StoredSHA256 v) /\ is_text (ar_RawSHA256 v).
Lemma lawful_Artifact : lawful json_Artifact artifact_plain.
Proof. lawful_struct json_Artifact. Qed.
#[export] Hint Resolve lawful_Artifact : lawful.

Definition walrange_plain (v : WALRange) : Prop :=
  is_uint32 (wr_Timeline v) /\ is_text (wr_StartLSN v) /\ is_text (wr_EndLSN v).
Lemma lawful_WALRange : lawful json_WALRange walrange_plain.
Proof. lawful_struct json_WALRange. Qed.
#[export] Hint Resolve lawful_WALRange : lawful.

Definition commit_plain (v : Commit) : Prop :=
  is_int64 (c_Schema v) /\ is_text (c_RepositoryID v) /\ is_text (c_BackupUID v) /\ is_text (c_AttemptID v) /\
  is_text (c_RequestSHA256 v) /\ is_text (c_Kind v) /\ opt_ok is_text (c_ParentBackupUID v) /\
  is_text (c_RootBackupUID v) /\ is_text (c_SystemIdentifier v) /\ is_int64 (c_PostgresMajor v) /\
  is_text (c_ToolVersion v) /\ is_uint32 (c_Timeline v) /\ is_int64 (c_ChecksumVersion v) /\
  is_text (c_CaptureInstanceUID v) /\ is_text (c_PostmasterStartedAt v) /\ is_text (c_StartedAt v) /\
  is_text (c_StoppedAt v) /\ is_text (c_StartLSN v) /\ is_text (c_StopLSN v) /\ is_text (c_RedoLSN v) /\
  is_text (c_BundledWALStartLSN v) /\ is_text (c_BundledWALEndLSN v) /\ Forall walrange_plain (c_WALRanges v) /\
  is_text (c_BackupLabel v) /\ is_text (c_TablespaceMap v) /\ opt_ok is_text (c_RootManifestSHA256 v) /\
  is_int64 (c_ManifestBytes v) /\ is_text (c_ManifestSHA256 v) /\ slice_ok tablespace_plain (c_Tablespaces v) /\
  Forall artifact_plain (c_Artifacts v).
Lemma lawful_Commit : lawful json_Commit commit_plain.
Proof. lawful_struct json_Commit. Qed.
#[export] Hint Resolve lawful_Commit : lawful.

Definition retirement_plain (v : Retirement) : Prop :=
  is_int64 (rt_Schema v) /\ is_text (rt_RepositoryID v) /\ is_text (rt_BackupUID v) /\
  is_text (rt_CommitSHA256 v) /\ is_text (rt_GCOperationID v).
Lemma lawful_Retirement : lawful json_Retirement retirement_plain.
Proof. lawful_struct json_Retirement. Qed.
#[export] Hint Resolve lawful_Retirement : lawful.


(** ** Texts of validated fields *)
Lemma hex_lower_text s : all_chars is_hex_lower s = true -> is_text s.
Proof.
  intros H. eapply all_chars_impl; [|exact H]. intros c Hc.
  destruct c as [[] [] [] [] [] [] [] []]; first [discriminate Hc|reflexivity].
Qed.
Lemma class_text n s : class_n is_hex_lower n s = true -> is_text s.
Proof. intros [_ H]%andb_true_iff. by apply hex_lower_text. Qed.
Lemma text_app a b : is_text a -> is_text b -> is_text (a +:+ b).
Proof. intros Ha Hb. unfold is_text, ascii_text. rewrite all_chars_append. by apply andb_true_iff. Qed.
Lemma hash_text s : hashRE s = true -> is_text s.
Proof. apply class_text. Qed.
Lemma validID_text s : validID s = true -> is_text s.
Proof.
  unfold validID, uuidRE. intros [H _]%andb_true_iff. rewrite <- (join_Split "-" s).
  destruct (Split "-" s) as [|a [|b [|c [|d [|e [|]]]]]]; try done.
  apply andb_true_iff in H as [H He]. apply andb_true_iff in H as [H Hd]. apply andb_true_iff in H as [H Hc].
  apply andb_true_iff in H as [Ha Hb]. cbn [join].
  repeat (apply text_app; [by eapply class_text|]; apply (text_app "-"); [done|]). by eapply class_text.
Qed.
Lemma decimal_text s n : decimal s = Some n -> is_text s.
Proof.
  intros [-> Hn]%decimal_canonical. destruct Hn as [Hn _]. destruct (FormatUint_form n Hn) as (Hd & _).
  by apply clean_digits in Hd as [? _].
Qed.
#[export] Hint Resolve hash_text validID_text decimal_text : lawful.

#[export] Instance laws_Commit : JsonLaws Commit := lawful_JsonLaws lawful_Commit.

(** A commit document whose texts are ASCII survives storage: the strict decoder
    returns exactly the commit [Marshal] wrote, whenever the text fits the size limit.
    Every optional field, the nil-able tablespace list and the nested artifacts are included. *)
Theorem commit_roundtrip (c : Commit) :
  commit_plain c -> len (Marshal c) <= commitLimit -> strict (Marshal c) commitLimit = Ok c.
Proof. exact (strict_marshal (L := laws_Commit) c commitLimit). Qed.
Lemma commit_roundtrip_witness :
  commit_plain ex_commit /\ strict (Marshal ex_commit) commitLimit = Ok ex_commit.
Proof.
  assert (commit_plain ex_commit) as H.
  { unfold commit_plain. split_and!; repeat constructor; try done; by vm_compute. }
  split; [exact H|]. apply (commit_roundtrip ex_commit H). by vm_compute.
Defined.
