(* ===== verification/Repository.v ===== *)
(** * The repository's objects (internal/repository/repository.go, inventory.go, catalog.go)

    Keys below the repository root, the single conditional PUT, and the readers of the
    permanent metadata documents with their cross-checks. *)

From S2P Require Import Prelude GoStrings GoTime Sha256 Errors Schema Prog Store Json Documents.

Record Repository := mkRepository { r_id : Identity; r_root : string; r_process : string }.

Definition root_of (repositoryID : string) : string := "v1/" +:+ repositoryID +:+ "/".
Definition backup (r : Repository) (uid : string) : string := r_root r +:+ "backups/" +:+ uid +:+ "/".
Definition attempt (r : Repository) (uid att : string) : string :=
  backup r uid +:+ "attempts/" +:+ att +:+ "/".
Definition artifact_key (r : Repository) (uid att : string) (index : Z) (compression : string) : string :=
  let s := attempt r uid att +:+ "data/" +:+ FormatInt index +:+ ".tar" in
  if compression ==? "gzip" then s +:+ ".gz" else s.
Definition artifact (r : Repository) (c : Commit) (a : Artifact) : string :=
  artifact_key r (c_BackupUID c) (c_AttemptID c) (ar_Index a) (ar_Compression a).

(** ** Writing *)
Definition put_dispatch (key b : string) (c : Condition) (metadata : gmap string string) : prog (res Info) :=
  call (PutFile key b (mkIntegrity (len b) (digest b)) c metadata).
Definition put_write (key b : string) (c : Condition) (metadata : gmap string string) : prog (res Info) :=
  let! w := call (Local "write") in
  match w with Some _ => fail (S3 LocalIO false) | None => put_dispatch key b c metadata end.
Definition put (key b : string) (c : Condition) (metadata : gmap string string) : prog (res Info) :=
  let! t := call (Local "temp") in
  match t with Some _ => fail (S3 LocalIO false) | None => put_write key b c metadata end.

Definition createExact (key b : string) (max : Z) : prog (res Info) :=
  let! r := put key b Create ∅ in
  match r with
  | Ok i => done i
  | Err e =>
      let! got := call (Read key max) in
      match got with
      | Err _ => fail e
      | Ok (got, i) => if negb (got ==? b) then fail ErrIdentity else done i
      end
  end.

(** ** Catalog keys *)
Definition catalogKey (root key : string) : option (string * string) :=
  let prefix := root +:+ "backups/" in
  if negb (HasPrefix key prefix) then None else
  match Split "/" (TrimPrefix key prefix) with
  | [uid; name] =>
      if negb (validID uid) then None else
      if name ==? "commit.json" then Some (uid, "commit")
      else if (name ==? "request.json") || (name ==? "retired.json") then Some (uid, "metadata")
      else None
  | uid :: attempts :: att :: rest =>
      if negb (validID uid) then None else
      match rest with
      | [] => None
      | [name] =>
          if negb (attempts ==? "attempts") || negb (validID att) then None else
          if (name ==? "claim.json") || (name ==? "manifest.pg.json") then Some (uid, "attempt") else None
      | [data; name] =>
          if negb (attempts ==? "attempts") || negb (validID att) then None else
          if negb (data ==? "data") then None else
          let name := if HasSuffix name ".gz" then TrimSuffix name ".gz" else name in
          if negb (HasSuffix name ".tar") then None else
          match decimal (TrimSuffix name ".tar") with
          | Some n => if n <? 66 then Some (uid, "artifact") else None
          | None => None
          end
      | _ => None
      end
  | _ => None
  end.

(** ** Reading *)
Section Readers.
Context (r : Repository).

Definition readClaim (uid att : string) : prog (res Claim) :=
  if negb (validID uid) || negb (validID att) then fail ErrInvalid else
  let* (b, _) := call (Read (attempt r uid att +:+ "claim.json") smallLimit) in
  match strict b smallLimit with
  | Err _ => fail ErrCorrupt
  | Ok cl =>
      if (cl_Schema cl !=? 1) || (cl_RepositoryID cl !=? id_RepositoryID (r_id r)) || (cl_BackupUID cl !=? uid)
         || (cl_AttemptID cl !=? att) || negb (validID (cl_ProcessID cl)) || negb (hashRE (cl_RequestSHA256 cl))
      then fail ErrCorrupt else done cl
  end.

Definition readCommit (uid : string) : prog (res (Commit * string * Info)) :=
  if negb (validID uid) then fail ErrInvalid else
  let* (b, i) := call (Read (backup r uid +:+ "commit.json") commitLimit) in
  match strict b commitLimit with
  | Err e => fail e
  | Ok c =>
      match Commit_validate c (r_id r) with
      | Err e => fail e
      | Ok () => if c_BackupUID c !=? uid then fail ErrCorrupt else done (c, b, i)
      end
  end.

Definition live (c : Commit) (b : string) : prog (res ()) :=
  let! rb := call (Read (backup r (c_BackupUID c) +:+ "retired.json") smallLimit) in
  match rb with
  | Err e => if Is e NotFound then done () else fail e
  | Ok (rb, _) =>
      match strict rb smallLimit with
      | Err _ => fail ErrCorrupt
      | Ok ret => if is_err (Retirement_validate ret (r_id r) (c_BackupUID c) (digest b))
                  then fail ErrCorrupt else fail ErrRetired
      end
  end.

Definition requestFor (c : Commit) : prog (res Request) :=
  let* (b, _) := call (Read (backup r (c_BackupUID c) +:+ "request.json") smallLimit) in
  match strict b smallLimit with
  | Err _ => fail ErrCorrupt
  | Ok req =>
      if is_err (Request_validate req (r_id r)) || (digest b !=? c_RequestSHA256 c)
         || (rq_BackupUID req !=? c_BackupUID c) || (rq_RequestedKind req !=? c_Kind c)
      then fail ErrCorrupt else
      if (c_Kind c ==? "differential") && (rq_RootBackupUID req !=? Some (c_RootBackupUID c))
      then fail ErrCorrupt else
      let* cl := readClaim (c_BackupUID c) (c_AttemptID c) in
      if cl_RequestSHA256 cl !=? c_RequestSHA256 c then fail ErrCorrupt else done req
  end.

Definition readParent (c : Commit) : prog (res Commit) :=
  match c_ParentBackupUID c with
  | None => fail Panic
  | Some parent =>
      let* (p, b, _) := readCommit parent in
      match validateParent c p with
      | Err e => fail e
      | Ok () => live p b ;;* requestFor p ;;* done p
      end
  end.

Definition validateListedMetadata (key : string) : prog (res ()) :=
  match Split "/" (TrimPrefix key (r_root r +:+ "backups/")) with
  | [uid; name] =>
      let* (b, _) := call (Read key smallLimit) in
      if name ==? "request.json" then
        match strict b smallLimit with
        | Err _ => fail ErrCorrupt
        | Ok q => if is_err (Request_validate q (r_id r)) || (rq_BackupUID q !=? uid) then fail ErrCorrupt else done ()
        end
      else if name ==? "retired.json" then
        match strict b smallLimit with
        | Err _ => fail ErrCorrupt
        | Ok ret =>
            let* (_, cb, _) := readCommit uid in
            Ret (Retirement_validate ret (r_id r) uid (digest cb))
        end
      else fail ErrCorrupt
  | uid :: _ :: att :: _ =>
      let* cl := readClaim uid att in
      let* (qb, _) := call (Read (backup r uid +:+ "request.json") smallLimit) in
      match strict qb smallLimit with
      | Err _ => fail ErrCorrupt
      | Ok req =>
          if is_err (Request_validate req (r_id r)) || (rq_BackupUID req !=? uid) || (digest qb !=? cl_RequestSHA256 cl)
          then fail ErrCorrupt else done ()
      end
  | _ => fail Panic
  end.
End Readers.

(** ** What a successful reader has seen *)
Section Evidence.
Context (r : Repository).

(** [c] is the strictly decoded, valid content [b] of its backup's commit.json. *)
Definition commit_read (uid : string) (x : Commit * string * Info) (tr : trace) : Prop :=
  let '(c, b, i) := x in
  Act (Read (backup r uid +:+ "commit.json") commitLimit) (Ok (b, i)) ∈ tr
  /\ strict b commitLimit = Ok c /\ Commit_validate c (r_id r) = Ok () /\ c_BackupUID c = uid.
(** An authenticated read found no retirement marker. *)
Definition not_retired (uid : string) (tr : trace) : Prop :=
  exists e, Act (Read (backup r uid +:+ "retired.json") smallLimit) (Err e) ∈ tr /\ Is e NotFound = true.
Definition claim_read (uid att : string) (cl : Claim) (tr : trace) : Prop :=
  exists b i, Act (Read (attempt r uid att +:+ "claim.json") smallLimit) (Ok (b, i)) ∈ tr
  /\ strict b smallLimit = Ok cl /\ cl_BackupUID cl = uid /\ cl_AttemptID cl = att.
(** The frozen request of a commit, byte for byte, and the claim of its attempt. *)
Definition requested (c : Commit) (req : Request) (tr : trace) : Prop :=
  (exists b i, Act (Read (backup r (c_BackupUID c) +:+ "request.json") smallLimit) (Ok (b, i)) ∈ tr
    /\ strict b smallLimit = Ok req /\ digest b = c_RequestSHA256 c
    /\ rq_BackupUID req = c_BackupUID c /\ rq_RequestedKind req = c_Kind c)
  /\ exists cl, claim_read (c_BackupUID c) (c_AttemptID c) cl tr /\ cl_RequestSHA256 cl = c_RequestSHA256 c.
Definition parent_read (c p : Commit) (tr : trace) : Prop :=
  exists b i req, c_ParentBackupUID c = Some (c_BackupUID p) /\ commit_read (c_BackupUID p) (p, b, i) tr
  /\ validateParent c p = Ok () /\ not_retired (c_BackupUID p) tr /\ requested p req tr.

Lemma commit_read_stable uid x : stable (commit_read uid x).
Proof. destruct x as [[c b] i]. intros tr tr' He (H1 & H2). split; [by eapply extends_elem|done]. Qed.
Lemma not_retired_stable uid : stable (not_retired uid).
Proof. intros tr tr' He (e & H1 & H2). exists e. split; [by eapply extends_elem|done]. Qed.
Lemma claim_read_stable uid att cl : stable (claim_read uid att cl).
Proof. intros tr tr' He (b & i & H1 & H2). exists b, i. split; [by eapply extends_elem|done]. Qed.
Lemma requested_stable c req : stable (requested c req).
Proof.
  intros tr tr' He [(b & i & H1 & H2) (cl & H3 & H4)]. split.
  - exists b, i. split; [by eapply extends_elem|done].
  - exists cl. split; [by eapply claim_read_stable|done].
Qed.
Lemma parent_read_stable c p : stable (parent_read c p).
Proof.
  intros tr tr' He (b & i & req & H1 & H2 & H3 & H4 & H5). exists b, i, req.
  split_and!; [done|by eapply commit_read_stable|done|by eapply not_retired_stable|by eapply requested_stable].
Qed.

Lemma readClaim_proves uid att : proves (readClaim r uid att) (claim_read uid att).
Proof.
  unfold readClaim. destruct (negb (validID uid) || negb (validID att)); [apply proves_fail|].
  eapply proves_bindE; [|by apply proves_call|]; [intros a; apply stable_elem|]. intros [b i].
  destruct (strict b smallLimit) as [cl|e] eqn:E; [|apply proves_fail]. destruct (_ || _) eqn:Ec; [apply proves_fail|].
  apply proves_done. intros tr H. exists b, i. bool_split. done.
Qed.

Lemma readCommit_proves uid : proves (readCommit r uid) (commit_read uid).
Proof.
  unfold readCommit. destruct (validID uid); [|apply proves_fail]. cbn [negb].
  eapply proves_bindE; [|by apply proves_call|]; [intros a; apply stable_elem|]. intros [b i].
  destruct (strict b commitLimit) as [c|e] eqn:E; [|apply proves_fail].
  destruct (Commit_validate c (r_id r)) as [[]|e] eqn:Ev; [|apply proves_fail].
  case_bool_decide; cbn; [|apply proves_fail]. by apply proves_done.
Qed.

Lemma live_proves c b : proves (live r c b) (fun _ => not_retired (c_BackupUID c)).
Proof.
  unfold live. eapply reads_bind; [by apply reads_call|]. intros [[rb i]|e].
  - destruct (strict rb smallLimit) as [ret|]; [|by apply reads_ret].
    destruct (is_err _); by apply reads_ret.
  - destruct (Is e NotFound) eqn:E; [|by apply reads_ret]. apply reads_ret. intros tr' tr Hq H.
    exists e. split; [|done]. eapply extends_elem; [by apply quiet_extends|done].
Qed.

Lemma requestFor_proves c : proves (requestFor r c) (requested c).
Proof.
  unfold requestFor. eapply proves_bindE; [|by apply proves_call|]; [intros a; apply stable_elem|]. intros [b i].
  destruct (strict b smallLimit) as [req|] eqn:E; [|apply proves_fail].
  destruct (_ || _) eqn:Ec; [apply proves_fail|]. destruct (_ && _); [apply proves_fail|].
  eapply proves_bindE; [|apply readClaim_proves|]; [intros cl; apply claim_read_stable|]. intros cl.
  destruct (cl_RequestSHA256 cl !=? c_RequestSHA256 c) eqn:Eh; [apply proves_fail|]. apply proves_done.
  intros tr Hcl Hb. bool_split. split.
  - by exists b, i.
  - by exists cl.
Qed.

Lemma readParent_proves c : proves (readParent r c) (parent_read c).
Proof.
  unfold readParent. destruct (c_ParentBackupUID c) as [uid|] eqn:Ep; [|apply proves_fail].
  eapply proves_bindE; [|apply readCommit_proves|]; [intros x; apply commit_read_stable|]. intros [[p b] i].
  destruct (validateParent c p) as [[]|] eqn:Ev; [|apply proves_fail].
  eapply proves_bindE; [|apply live_proves|]; [intros ?; apply not_retired_stable|]. intros [].
  eapply proves_bindE; [|apply requestFor_proves|]; [intros req; apply requested_stable|]. intros req.
  apply proves_done. intros tr Hreq Hlive Hread. pose proof Hread as (_ & _ & _ & <-).
  exists b, i, req. done.
Qed.

(** A missing commit was reported missing by storage. *)
Lemma readCommit_reads uid : reads (readCommit r uid) (fun tr x => match x with
  | Ok y => commit_read uid y tr
  | Err e => Act (Read (backup r uid +:+ "commit.json") commitLimit) (Err e) ∈ tr \/ (match e with S3 _ _ => False | _ => True end)
  end).
Proof.
  unfold readCommit. destruct (validID uid) eqn:Evid; cbn [negb]; [|apply reads_ret; by right].
  eapply reads_bind; [by apply reads_call|]. intros [[b i]|e].
  2: { apply reads_ret. intros tr' tr Hq H. left. eapply extends_elem; [by apply quiet_extends|done]. }
  cbn. destruct (strict b commitLimit) as [c|e] eqn:Es.
  2: { apply reads_ret. intros tr' tr Hq H. right. by destruct (strict_error _ _ _ Es) as [-> | ->]. }
  destruct (Commit_validate c (r_id r)) as [[]|e] eqn:Ev.
  2: { apply reads_ret. intros tr' tr Hq H. right. pose proof (Commit_validate_schema_only c (r_id r)) as Hs.
       rewrite Ev in Hs. by destruct e. }
  destruct (c_BackupUID c !=? uid) eqn:Eu; apply reads_ret; [by right|]. intros tr' tr Hq H. bool_split.
  split_and!; [eapply extends_elem; [by apply quiet_extends|done]|done|done|done].
Qed.

Lemma validateListedMetadata_reads key : proves (validateListedMetadata r key) (fun _ _ => True).
Proof.
  unfold validateListedMetadata. destruct (Split _ _) as [|uid [|name [|att rest]]]; try apply proves_fail.
  - seen (proves_call (Read key smallLimit) eq_refl) with stable_elem. intros [b i].
    destruct (name ==? "request.json").
    { destruct (strict b smallLimit); [|apply proves_fail]. reject as E. by apply proves_done. }
    destruct (name ==? "retired.json"); [|apply proves_fail].
    destruct (strict b smallLimit); [|apply proves_fail].
    seen readCommit_proves with commit_read_stable. intros [[c cb] ?].
    destruct (Retirement_validate _ _ _ _); [by apply proves_done|apply proves_fail].
  - seen readClaim_proves with claim_read_stable. intros cl.
    seen (proves_call (Read (backup r uid +:+ "request.json") smallLimit) eq_refl) with stable_elem. intros [qb i].
    destruct (strict qb smallLimit); [|apply proves_fail]. reject as E. by apply proves_done.
Qed.
End Evidence.
