(* ===== verification/Gate.v ===== *)
(** * The admission gate (internal/repository/gate.go)

    gate.json holds either one garbage-collection owner or a sorted set of
    holders.  Every change is a compare-and-swap on its ETag; after an ambiguous
    answer a no-op write (the barrier) fences the delayed request.  A [Hold] is the
    process-local handle of an acknowledged holder. *)

From S2P Require Import Prelude GoStrings GoTime Sha256 Errors Schema Prog Store Json Documents Repository.

Record Holder := mkHolder {
  ho_ID : string; ho_Kind : string; ho_TargetClusterUID : string; ho_OperationID : string;
  ho_ProcessID : option string }.
#[export] Instance Holder_eq_dec : EqDecision Holder.
Proof. solve_decision. Defined.
Record Owner := mkOwner { ow_OperationID : string; ow_ProcessID : string; ow_Kind : string }.
#[export] Instance Owner_eq_dec : EqDecision Owner.
Proof. solve_decision. Defined.
Record Gate := mkGate {
  g_Schema : Z; g_RepositoryID : string; g_Generation : string; g_Nonce : string;
  g_Owner : option Owner; g_Holders : option (list Holder) }.
#[export] Instance Gate_eq_dec : EqDecision Gate.
Proof. solve_decision. Defined.

#[export] Instance json_Holder : Json Holder := mkJson Holder
  (fun v => JObject [
     ("id", @to_json _ json_string (ho_ID v)); ("kind", @to_json _ json_string (ho_Kind v));
     ("target_cluster_uid", @to_json _ json_string (ho_TargetClusterUID v));
     ("operation_id", @to_json _ json_string (ho_OperationID v));
     ("process_id", @to_json _ (json_ptr json_string) (ho_ProcessID v))])
  (fun j => fields ["id"; "kind"; "target_cluster_uid"; "operation_id"; "process_id"] of j as l in
     id_ ← field json_string "id" l; kind_ ← field json_string "kind" l;
     targetclusteruid_ ← field json_string "target_cluster_uid" l;
     operationid_ ← field json_string "operation_id" l;
     processid_ ← field (json_ptr json_string) "process_id" l;
     Some (mkHolder id_ kind_ targetclusteruid_ operationid_ processid_)).

#[export] Instance json_Owner : Json Owner := mkJson Owner
  (fun v => JObject [
     ("operation_id", @to_json _ json_string (ow_OperationID v));
     ("process_id", @to_json _ json_string (ow_ProcessID v)); ("kind", @to_json _ json_string (ow_Kind v))])
  (fun j => fields ["operation_id"; "process_id"; "kind"] of j as l in
     operationid_ ← field json_string "operation_id" l; processid_ ← field json_string "process_id" l;
     kind_ ← field json_string "kind" l;
     Some (mkOwner operationid_ processid_ kind_)).

#[export] Instance json_Gate : Json Gate := mkJson Gate
  (fun v => JObject [
     ("schema", @to_json _ int64 (g_Schema v)); ("repository_id", @to_json _ json_string (g_RepositoryID v));
     ("generation", @to_json _ json_string (g_Generation v)); ("nonce", @to_json _ json_string (g_Nonce v));
     ("owner", @to_json _ (json_ptr json_Owner) (g_Owner v));
     ("holders", @to_json _ (json_slice json_Holder) (g_Holders v))])
  (fun j => fields ["schema"; "repository_id"; "generation"; "nonce"; "owner"; "holders"] of j as l in
     schema_ ← field int64 "schema" l; repositoryid_ ← field json_string "repository_id" l;
     generation_ ← field json_string "generation" l; nonce_ ← field json_string "nonce" l;
     owner_ ← field (json_ptr json_Owner) "owner" l; holders_ ← field (json_slice json_Holder) "holders" l;
     Some (mkGate schema_ repositoryid_ generation_ nonce_ owner_ holders_)).

Definition Holder_validate (h : Holder) : res () :=
  if negb (validID (ho_ID h)) || negb (validID (ho_TargetClusterUID h)) || negb (validID (ho_OperationID h))
  then Err ErrInvalid else
  if ho_Kind h ==? "restore-lifetime" then
    match ho_ProcessID h with
    | Some _ => Err ErrInvalid
    | None => if ho_ID h !=? ho_OperationID h then Err ErrInvalid else Ok ()
    end
  else if (ho_Kind h ==? "backup") || (ho_Kind h ==? "restore-reader") then
    match ho_ProcessID h with
    | None => Err ErrInvalid
    | Some p => if validID p then Ok () else Err ErrInvalid
    end
  else Err ErrInvalid.

(** The loop over holders: each is valid and the identifiers increase. *)
Definition holder_step (last : string) (h : Holder) : res string :=
  if is_err (Holder_validate h) || negb (String.ltb last (ho_ID h)) then Err ErrCorrupt else Ok (ho_ID h).

Definition Gate_validate (g : Gate) (id : Identity) : res () :=
  match g_Holders g with
  | None => Err ErrCorrupt
  | Some holders =>
    if (g_Schema g !=? 1) || (g_RepositoryID g !=? id_RepositoryID id) || negb (validID (g_Nonce g))
    then Err ErrCorrupt else
    match decimal (g_Generation g) with
    | None => Err ErrCorrupt
    | Some _ =>
      if 1024 <? Z.of_nat (length holders) then Err ErrCapacity else
      if match g_Owner g with
         | None => false
         | Some o => negb (validID (ow_OperationID o)) || negb (validID (ow_ProcessID o)) || (ow_Kind o !=? "gc")
                     || negb (Z.of_nat (length holders) =? 0)
         end
      then Err ErrCorrupt else
      forM holders "" holder_step ;;? Ok ()
    end
  end.

Definition sameHolder (a b : Holder) : bool :=
  if (ho_ID a !=? ho_ID b) || (ho_Kind a !=? ho_Kind b) || (ho_TargetClusterUID a !=? ho_TargetClusterUID b)
     || (ho_OperationID a !=? ho_OperationID b)
  then false else
  match ho_ProcessID a, ho_ProcessID b with
  | Some p, Some q => p ==? q
  | None, None => true
  | _, _ => false
  end.

Definition gate_key (r : Repository) : string := r_root r +:+ "gate.json".
Definition holders_of (g : Gate) : list Holder := default [] (g_Holders g).

(** ** Changes

    A change inspects and edits the gate it was given and says whether there is
    nothing to do. *)
Abbreviation change := (Gate -> res (Gate * bool)).

Fixpoint find_holder (id : string) (l : list Holder) : option Holder :=
  match l with
  | [] => None
  | v :: l => if ho_ID v ==? id then Some v else find_holder id l
  end.
Fixpoint remove_first (id : string) (l : list Holder) : list Holder :=
  match l with
  | [] => []
  | v :: l => if ho_ID v ==? id then l else v :: remove_first id l
  end.
Definition with_holders (g : Gate) (l : list Holder) : Gate :=
  mkGate (g_Schema g) (g_RepositoryID g) (g_Generation g) (g_Nonce g) (g_Owner g) (Some l).
Definition with_owner (g : Gate) (o : option Owner) : Gate :=
  mkGate (g_Schema g) (g_RepositoryID g) (g_Generation g) (g_Nonce g) o (g_Holders g).

Definition add_change (h : Holder) : change := fun g =>
  match find_holder (ho_ID h) (holders_of g) with
  | Some v => if negb (sameHolder v h) then Err ErrIdentity else Ok (g, true)
  | None =>
      match g_Owner g with
      | Some _ => Err ErrBlocked
      | None => if Z.of_nat (length (holders_of g)) =? 1024 then Err ErrCapacity
                else Ok (with_holders g (holders_of g ++ [h]), false)
      end
  end.
Definition remove_change (h : Holder) : change := fun g =>
  match find_holder (ho_ID h) (holders_of g) with
  | Some v => if negb (sameHolder v h) then Err ErrIdentity
              else Ok (with_holders g (remove_first (ho_ID h) (holders_of g)), false)
  | None => Ok (g, true)
  end.
Definition acquire_change (o : Owner) : change := fun g =>
  match g_Owner g with
  | Some x => if x ==? o then Ok (g, true) else Err ErrBlocked
  | None => if negb (Z.of_nat (length (holders_of g)) =? 0) then Err ErrBlocked else Ok (with_owner g (Some o), false)
  end.
Definition release_change (o : Owner) : change := fun g =>
  match g_Owner g with
  | None => Ok (g, true)
  | Some x => if negb (x ==? o) then Err ErrIdentity else Ok (with_owner g None, false)
  end.

(** The document a round writes: the next generation, a fresh nonce, holders sorted. *)
Definition less_holder (a b : Holder) : bool := String.ltb (ho_ID a) (ho_ID b).
Definition next_gate (g : Gate) (n : Z) (nonce : string) : Gate :=
  mkGate (g_Schema g) (g_RepositoryID g) (FormatUint (n + 1)) nonce (g_Owner g)
    (sort_slice less_holder <$> g_Holders g).

Section GateOps.
Context (r : Repository).

Definition readGate : prog (res (Gate * Info)) :=
  let* (b, i) := call (Read (gate_key r) gateLimit) in
  match strict b gateLimit with
  | Err e => fail e
  | Ok g => match Gate_validate g (r_id r) with Err e => fail e | Ok () => done (g, i) end
  end.

(** What a round does with the gate it read: return, or a document to write. *)
Inductive round_plan := Stop (x : res ()) | Write (g : Gate) (n : Z).
Definition plan_round (barrier : bool) (f : change) (g : Gate) : round_plan :=
  let write g :=
    let n := default 0 (decimal (g_Generation g)) in
    if n =? u64_max then Stop (Err ErrCapacity) else Write g n in
  if barrier then write g else
  match f g with
  | Err e => Stop (Err e)
  | Ok (g, true) => Stop (Ok ())
  | Ok (g, false) => write g
  end.

(** After the conditional PUT; [again barrier] is the next round. *)
Definition after_put (again : bool -> prog (res ())) (barrier : bool) (w : res Info) : prog (res ()) :=
  match w with
  | Ok _ => if barrier then again false else done ()
  | Err e =>
      if ambiguous e then again true
      else if Is e Precondition || Is e Conflict then again barrier
      else fail e
  end.
Definition write_gate (again : bool -> prog (res ())) (barrier : bool) (etag : string) (g : Gate) (n : Z)
    (nonce : string) : prog (res ()) :=
  let g := next_gate g n nonce in
  match Gate_validate g (r_id r) with
  | Err e => fail e
  | Ok () =>
      let b := Marshal g in
      if gateLimit <? len b then fail ErrCapacity else
      let! w := put (gate_key r) b (Match etag) ∅ in after_put again barrier w
  end.
Definition change_round (again : bool -> prog (res ())) (barrier : bool) (f : change) : prog (res ()) :=
  let* (g, i) := readGate in
  match plan_round barrier f g with
  | Stop x => Ret x
  | Write g n => let! nonce := call UUID in write_gate again barrier (i_ETag i) g n nonce
  end.
(** [for round := 0; round < 10; round++]: [rounds] is what is left of the ten. *)
Fixpoint changeGate_loop (rounds : nat) (barrier : bool) (f : change) : prog (res ()) :=
  match rounds with
  | O => fail ErrContention
  | S rounds => change_round (fun barrier => changeGate_loop rounds barrier f) barrier f
  end.
Definition changeGate (f : change) : prog (res ()) := changeGate_loop 10 false f.

Definition addHolder (h : Holder) : prog (res ()) :=
  if is_err (Holder_validate h) then fail ErrInvalid else changeGate (add_change h).
Definition removeHolder (h : Holder) : prog (res ()) := changeGate (remove_change h).

(** ** Handles *)
Record Hold := mkHold { h_holder : Holder; h_closed : bool; h_uncertain : bool }.

Definition admit_holder (kind target operation : string) : prog (res Hold) :=
  let! id := call UUID in
  let h := mkHolder id kind target operation (Some (r_process r)) in
  addHolder h ;;* done (mkHold h false false).
Definition AdmitBackup (writer operation : string) : prog (res Hold) :=
  if (writer !=? id_WriterClusterUID (r_id r)) || negb (validID operation) then fail ErrIdentity else
  call CheckBucketSafety ;;* admit_holder "backup" writer operation.
Definition lifetime_holder (target operation : string) : Holder :=
  mkHolder operation "restore-lifetime" target operation None.
Definition EstablishLifetime (target operation : string) : prog (res ()) :=
  addHolder (lifetime_holder target operation).
Definition AdmitRestore (target operation : string) : prog (res Hold) :=
  EstablishLifetime target operation ;;* admit_holder "restore-reader" target operation.
Definition ReleaseLifetimeAfterTermination (target operation : string) : prog (res ()) :=
  let h := lifetime_holder target operation in
  if is_err (Holder_validate h) then fail ErrInvalid else removeHolder h.

Definition admitted (h : Hold) (g : Gate) : bool :=
  let found := existsb (fun v => sameHolder v (h_holder h)) (holders_of g) in
  let life := (ho_Kind (h_holder h) !=? "restore-reader")
    || existsb (fun v => (ho_Kind v ==? "restore-lifetime") && (ho_ID v ==? ho_OperationID (h_holder h))
                         && (ho_TargetClusterUID v ==? ho_TargetClusterUID (h_holder h))) (holders_of g) in
  found && life && match g_Owner g with None => true | Some _ => false end.
Definition Hold_check (h : Hold) : prog (res ()) :=
  if h_closed h then fail ErrClosed else
  if h_uncertain h then fail ErrUncertain else
  let* (g, _) := readGate in
  if admitted h g then done () else fail ErrBlocked.

Definition Hold_Close (h : Hold) : prog (Hold * res ()) :=
  let h := mkHold (h_holder h) true (h_uncertain h) in
  if h_uncertain h then Ret (h, Err ErrUncertain) else
  let! x := removeHolder (h_holder h) in Ret (h, x).
End GateOps.

(** ** The gate document *)
Definition holder_plain (v : Holder) : Prop :=
  is_text (ho_ID v) /\ is_text (ho_Kind v) /\ is_text (ho_TargetClusterUID v) /\ is_text (ho_OperationID v) /\
  opt_ok is_text (ho_ProcessID v).
Lemma lawful_Holder : lawful json_Holder holder_plain.
Proof. lawful_struct json_Holder. Qed.
#[export] Hint Resolve lawful_Holder : lawful.

Definition owner_plain (v : Owner) : Prop :=
  is_text (ow_OperationID v) /\ is_text (ow_ProcessID v) /\ is_text (ow_Kind v).
Lemma lawful_Owner : lawful json_Owner owner_plain.
Proof. lawful_struct json_Owner. Qed.
#[export] Hint Resolve lawful_Owner : lawful.

Definition gate_plain (v : Gate) : Prop :=
  is_int64 (g_Schema v) /\ is_text (g_RepositoryID v) /\ is_text (g_Generation v) /\ is_text (g_Nonce v) /\
  opt_ok owner_plain (g_Owner v) /\ slice_ok holder_plain (g_Holders v).
Lemma lawful_ptr_Owner : lawful (json_ptr json_Owner) (opt_ok owner_plain).
Proof. apply lawful_ptr; [done|apply lawful_Owner]. Qed.
#[export] Hint Resolve lawful_ptr_Owner : lawful.
Lemma lawful_Gate : lawful json_Gate gate_plain.
Proof. lawful_struct json_Gate. Qed.
#[export] Hint Resolve lawful_Gate : lawful.

Definition holder_lt (a b : Holder) : Prop := String.ltb (ho_ID a) (ho_ID b) = true.

Lemma holder_loop l last :
  is_ok (forM l last holder_step) = true <->
  Forall (fun h => Holder_validate h = Ok ()) l /\ StronglySorted holder_lt l
  /\ Forall (fun h => String.ltb last (ho_ID h) = true) l.
Proof.
  revert last. induction l as [|h l IH]; intros last; cbn [forM].
  { split; [intros _; repeat constructor|done]. }
  unfold holder_step at 1. destruct (is_err (Holder_validate h)) eqn:Ev; cbn [orb].
  { split; [done|]. intros (Hv & _). inversion Hv as [|? ? Hh]. unfold is_err in Ev. by rewrite Hh in Ev. }
  assert (Holder_validate h = Ok ()) as Hh by (unfold is_err in Ev; by destruct (Holder_validate h) as [[]|]).
  destruct (String.ltb last (ho_ID h)) eqn:El; cbn [negb res_bind].
  2: { split; [done|]. intros (_ & _ & Hl). inversion Hl as [|? ? Hl']. congruence. }
  rewrite IH. split.
  - intros (H1 & H2 & H3). split_and!; constructor; auto.
    eapply Forall_impl; [exact H3|]. intros x Hx. by eapply ltb_trans.
  - intros (H1 & H2 & H3). apply Forall_cons in H1 as [_ H1]. apply StronglySorted_cons in H2 as [H2 H4]. auto.
Qed.

(** What a valid gate is: an owner excludes holders, holders are valid and strictly sorted. *)
Record gate_ok (id : Identity) (g : Gate) : Prop := {
  gk_schema : g_Schema g = 1;
  gk_repo : g_RepositoryID g = id_RepositoryID id;
  gk_nonce : validID (g_Nonce g) = true;
  gk_generation : exists n, decimal (g_Generation g) = Some n;
  gk_holders : exists l, g_Holders g = Some l /\ (length l <= 1024)%nat
    /\ Forall (fun h => Holder_validate h = Ok ()) l /\ StronglySorted holder_lt l;
  gk_owner : forall o, g_Owner g = Some o -> holders_of g = []
    /\ validID (ow_OperationID o) = true /\ validID (ow_ProcessID o) = true /\ ow_Kind o = "gc" }.

Lemma ltb_empty s : s <> "" -> String.ltb "" s = true.
Proof. by destruct s. Qed.

Lemma validID_nonempty s : validID s = true -> s <> "".
Proof. by intros H ->. Qed.

Lemma Holder_validate_id h : Holder_validate h = Ok () -> validID (ho_ID h) = true.
Proof. unfold Holder_validate. destruct (validID (ho_ID h)); done. Qed.

Lemma Gate_validate_spec g id : Gate_validate g id = Ok () <-> gate_ok id g.
Proof.
  unfold Gate_validate. split.
  - destruct (g_Holders g) as [l|] eqn:Eh; [|done]. destruct (_ || _) eqn:E1; [done|].
    destruct (decimal (g_Generation g)) as [n|] eqn:En; [|done]. destruct (Z.ltb_spec 1024 (Z.of_nat (length l))); [done|].
    destruct (match g_Owner g with Some _ => _ | None => _ end) eqn:Eo; [done|].
    destruct (forM l "" holder_step) as [x|] eqn:Ef; [|done]. intros _.
    pose proof (proj1 (holder_loop l "")) as Hl. rewrite Ef in Hl. destruct (Hl eq_refl) as (Hv & Hs & _).
    apply orb_false_iff in E1 as [E1 E3]. apply orb_false_iff in E1 as [E1 E2]. bool_split. split; eauto.
    + exists l. split_and!; [done|lia|done|done].
    + intros o Ho. rewrite Ho in Eo. unfold holders_of. rewrite Eh. cbn.
      apply orb_false_iff in Eo as [Eo E6]. apply orb_false_iff in Eo as [Eo E5]. apply orb_false_iff in Eo as [E0 E4].
      bool_split. split_and!; try done. by destruct l.
  - intros [H1 H2 H3 [n H4] (l & H5 & H6 & H7 & H8) H9]. rewrite H5, H1, H2, H3, H4. cbn [negb orb].
    rewrite !bool_decide_eq_true_2 by done. cbn [negb orb].
    destruct (Z.ltb_spec 1024 (Z.of_nat (length l))); [lia|].
    assert (is_ok (forM l "" holder_step) = true) as Hf.
    { apply holder_loop. split_and!; [done|done|]. eapply Forall_impl; [exact H7|].
      intros h Hh. apply ltb_empty, validID_nonempty. by apply Holder_validate_id. }
    destruct (g_Owner g) as [o|] eqn:Eo.
    + destruct (H9 o eq_refl) as (Hl & -> & -> & ->). cbn. unfold holders_of in Hl. rewrite H5 in Hl. cbn in Hl.
      by rewrite Hl.
    + by destruct (forM l "" holder_step).
Qed.

(** Valid gates survive [Marshal] and [strict]. *)
#[export] Instance laws_Gate : JsonLaws Gate := lawful_JsonLaws lawful_Gate.

Lemma Holder_validate_plain h : Holder_validate h = Ok () -> holder_plain h.
Proof.
  unfold Holder_validate. destruct (_ || _) eqn:E; [done|].
  apply orb_false_iff in E as [E E3]. apply orb_false_iff in E as [E1 E2]. bool_split.
  intros H. unfold holder_plain. split_and!; [by apply validID_text| |by apply validID_text|by apply validID_text|].
  - destruct (ho_Kind h ==? "restore-lifetime") eqn:K1; [bool_split; by rewrite K1|].
    destruct (_ || _) eqn:K2; [|done]. apply orb_true_iff in K2 as [K|K]; bool_split; by rewrite K.
  - destruct (ho_ProcessID h) as [p|]; [|done]. cbn. destruct (_ ==? _); [done|]. destruct (_ || _); [|done].
    destruct (validID p) eqn:Ep; [by apply validID_text|done].
Qed.
Lemma Identity_repository id : Identity_Validate id = Ok () -> validID (id_RepositoryID id) = true.
Proof. unfold Identity_Validate. destruct (validID (id_RepositoryID id)); [done|]. by rewrite orb_true_r. Qed.
Lemma gate_ok_plain id g : Identity_Validate id = Ok () -> gate_ok id g -> json_ok g.
Proof.
  intros Hid%Identity_repository [H1 H2 H3 [n H4] (l & H5 & _ & H7 & _) H9]. cbn. unfold gate_plain.
  rewrite H1, H2, H5. split_and!; [done|by apply validID_text|by eapply decimal_text|by apply validID_text| |].
  - destruct (g_Owner g) as [o|]; [|done]. destruct (H9 o eq_refl) as (_ & Ho & Hp & Hk). cbn. unfold owner_plain.
    rewrite Hk. split_and!; [by apply validID_text|by apply validID_text|done].
  - cbn. eapply Forall_impl; [exact H7|]. exact Holder_validate_plain.
Qed.

Lemma holder_sorted_nodup l : StronglySorted holder_lt l -> NoDup (ho_ID <$> l).
Proof.
  induction l as [|h l IH]; intros Hs; [constructor|]. apply StronglySorted_cons in Hs as [H1 H2].
  cbn. constructor; [|auto]. intros (x & E & Hx)%list_elem_of_fmap. rewrite Forall_forall in H1.
  specialize (H1 x Hx). unfold holder_lt in H1. by rewrite E, ltb_irrefl in H1.
Qed.

Lemma sort_holders_ok l : Forall (fun h => Holder_validate h = Ok ()) l -> NoDup (ho_ID <$> l) ->
  Forall (fun h => Holder_validate h = Ok ()) (sort_slice less_holder l) /\ StronglySorted holder_lt (sort_slice less_holder l).
Proof.
  intros Hv Hn. split; [by rewrite sort_slice_perm|].
  assert (StronglySorted (not_less less_holder) (sort_slice less_holder l)) as Hs.
  { apply sort_slice_sorted.
    - intros a b. apply ltb_antisym.
    - intros a b c H1 H2. by eapply ltb_ge_trans. }
  assert (NoDup (ho_ID <$> sort_slice less_holder l)) as Hn' by (by rewrite sort_slice_perm).
  revert Hs Hn'. generalize (sort_slice less_holder l). clear. intros l.
  induction l as [|h l IH]; intros Hs Hn; constructor.
  - apply StronglySorted_cons in Hs as [_ Hs]. cbn in Hn. apply NoDup_cons in Hn as [_ Hn]. auto.
  - apply StronglySorted_cons in Hs as [Hs _]. cbn in Hn. apply NoDup_cons in Hn as [Hn _].
    apply Forall_forall. intros x Hx. rewrite Forall_forall in Hs. specialize (Hs x Hx).
    unfold not_less, less_holder in Hs. unfold holder_lt. destruct (String.ltb (ho_ID h) (ho_ID x)) eqn:E; [done|].
    exfalso. apply Hn. apply list_elem_of_fmap. exists x. split; [|done]. by apply ltb_total.
Qed.

Lemma find_holder_spec i l :
  match find_holder i l with
  | Some v => v ∈ l /\ ho_ID v = i
  | None => i ∉ (ho_ID <$> l)
  end.
Proof.
  induction l as [|v l IH]; cbn; [apply not_elem_of_nil|]. case_bool_decide as E.
  - split; [left|done].
  - destruct (find_holder i l); [split; [right|]; tauto|]. apply not_elem_of_cons. split; [congruence|done].
Qed.

Lemma remove_first_elem i l x : x ∈ l -> ho_ID x <> i -> x ∈ remove_first i l.
Proof.
  induction l as [|v l IH]; cbn; [done|]. intros [->|Hx]%elem_of_cons Hne.
  - rewrite bool_decide_eq_false_2 by done. left.
  - case_bool_decide; [done|]. right. auto.
Qed.

Lemma remove_first_sublist i l : remove_first i l `sublist_of` l.
Proof.
  induction l as [|v l IH]; cbn; [done|]. case_bool_decide; [by apply sublist_cons|by apply sublist_skip].
Qed.

Lemma remove_first_gone i l : NoDup (ho_ID <$> l) -> i ∉ (ho_ID <$> remove_first i l).
Proof.
  induction l as [|v l IH]; cbn; [intros _; apply not_elem_of_nil|]. intros [Hv Hn]%NoDup_cons.
  case_bool_decide as E; [by subst|]. cbn. apply not_elem_of_cons. split; [congruence|auto].
Qed.

Lemma sameHolder_eq a b : sameHolder a b = true -> a = b.
Proof.
  unfold sameHolder. destruct (_ || _) eqn:E; [done|]. intros H. apply orb_false_iff in E as [E E4].
  apply orb_false_iff in E as [E E3]. apply orb_false_iff in E as [E1 E2]. bool_split.
  destruct a as [? ? ? ? pa], b as [? ? ? ? pb]. cbn in *. subst.
  destruct pa, pb; try done. apply bool_decide_eq_true in H. by subst.
Qed.
Lemma sameHolder_refl a : sameHolder a a = true.
Proof.
  unfold sameHolder. rewrite !bool_decide_eq_true_2 by done. cbn. destruct (ho_ProcessID a); [|done].
  by apply bool_decide_eq_true_2.
Qed.

(** ** The four changes *)
Inductive gate_op := OpAdd (h : Holder) | OpRemove (h : Holder) | OpAcquire (o : Owner) | OpRelease (o : Owner).
Definition change_of (op : gate_op) : change :=
  match op with
  | OpAdd h => add_change h
  | OpRemove h => remove_change h
  | OpAcquire o => acquire_change o
  | OpRelease o => release_change o
  end.
(** What the callers establish before they start a change. *)
Definition op_ok (op : gate_op) : Prop :=
  match op with
  | OpAdd h => Holder_validate h = Ok ()
  | OpAcquire o => validID (ow_OperationID o) = true /\ validID (ow_ProcessID o) = true /\ ow_Kind o = "gc"
  | OpRemove _ | OpRelease _ => True
  end.

(** [g'] is what a round of [op] may write from [g]: the change, or a barrier's copy. *)
Definition edited (op : gate_op) (g g' : Gate) : Prop := g' = g \/ change_of op g = Ok (g', false).

Definition same_but (g g' : Gate) : Prop :=
  g_Schema g' = g_Schema g /\ g_RepositoryID g' = g_RepositoryID g /\ g_Generation g' = g_Generation g.

Lemma edited_same op g g' : edited op g g' -> same_but g g'.
Proof.
  intros [->|H]; [done|]. destruct op; cbn in H;
    unfold add_change, remove_change, acquire_change, release_change in H;
    repeat (case_match; try done); by injection H as <-.
Qed.

Lemma edited_holders op id g g' : gate_ok id g -> op_ok op -> edited op g g' ->
  exists l, g_Holders g' = Some l /\ (length l <= 1024)%nat
    /\ Forall (fun h => Holder_validate h = Ok ()) l /\ NoDup (ho_ID <$> l)
    /\ (forall o, g_Owner g' = Some o -> l = [] /\ validID (ow_OperationID o) = true
          /\ validID (ow_ProcessID o) = true /\ ow_Kind o = "gc").
Proof.
  intros [_ _ _ _ (l & Hl & Hlen & Hv & Hs) Ho] Hop He.
  assert (holders_of g = l) as Hol by (unfold holders_of; by rewrite Hl).
  pose proof (holder_sorted_nodup l Hs) as Hn. rewrite Hol in Ho.
  destruct He as [->|H]; [exists l; split_and!; auto|].
  destruct op as [h|h|o|o]; cbn in H; unfold add_change, remove_change, acquire_change, release_change in H; rewrite ?Hol in H.
  - pose proof (find_holder_spec (ho_ID h) l) as Hf. destruct (find_holder (ho_ID h) l); [by case_match|].
    destruct (g_Owner g) as [|] eqn:Eo; [done|]. destruct (Z.eqb_spec (Z.of_nat (length l)) 1024); [done|].
    injection H as <-. exists (l ++ [h]). cbn. rewrite Eo. split_and!; [done| | | |done].
    + rewrite length_app. cbn. lia.
    + apply Forall_app. split; [done|]. by constructor.
    + rewrite fmap_app. apply NoDup_app. split_and!; [done| |apply NoDup_singleton].
      intros i Hi Hi'%list_elem_of_singleton. cbn in Hi'. by subst.
  - destruct (find_holder (ho_ID h) l); [|done]. destruct (negb _); [done|]. injection H as <-.
    pose proof (remove_first_sublist (ho_ID h) l) as Hsub.
    exists (remove_first (ho_ID h) l). cbn. split_and!; [done| | | |].
    + apply sublist_length in Hsub. lia.
    + apply Forall_forall. intros x Hx. rewrite Forall_forall in Hv. apply Hv. by eapply elem_of_sublist.
    + eapply sublist_NoDup; [exact Hn|]. by apply fmap_sublist.
    + intros o Eo. destruct (Ho o Eo) as (E & ?). split; [|done]. by rewrite E.
  - destruct (g_Owner g) as [|] eqn:Eo; [by case_match|]. destruct (Z.eqb_spec (Z.of_nat (length l)) 0) as [E|]; [|done].
    injection H as <-. exists l. cbn. split_and!; auto. intros o' [= <-]. split; [|done]. by destruct l.
  - destruct (g_Owner g) as [|] eqn:Eo; [|done]. destruct (negb _); [done|]. injection H as <-. exists l. cbn. split_and!; auto; done.
Qed.

Lemma edited_next_ok op id g g' n nonce : gate_ok id g -> op_ok op -> edited op g g' ->
  decimal (g_Generation g) = Some n -> n <> u64_max -> validID nonce = true ->
  gate_ok id (next_gate g' n nonce).
Proof.
  intros Hg Hop He Hn Hm Hnc. destruct (edited_holders op id g g' Hg Hop He) as (l & Hl & Hlen & Hv & Hnd & Ho).
  destruct (edited_same op g g' He) as (E1 & E2 & E3). destruct (sort_holders_ok l Hv Hnd) as [Hv' Hs'].
  split; cbn; rewrite ?E1, ?E2; try apply Hg; auto.
  - exists (n + 1). apply decimal_FormatUint. apply decimal_canonical in Hn as [_ Hu].
    unfold is_u64, u64_max in *. lia.
  - rewrite Hl. cbn. exists (sort_slice less_holder l). split_and!; [done| |done|done].
    by rewrite (Permutation_length (sort_slice_perm less_holder l)).
  - intros o Eo. destruct (Ho o Eo) as (-> & ?). unfold holders_of. cbn. rewrite Hl. done.
Qed.

(** The four changes preserve the gate invariant.  From a valid gate, whatever an
    add, remove, acquire or release writes (with the next generation, a valid nonce and the
    holders sorted) is again a valid gate: owner and holders exclude each other, holders are
    valid, strictly sorted and at most 1024. *)
Theorem gate_changes_preserve_validity op id g g' n nonce :
  Gate_validate g id = Ok () -> op_ok op -> edited op g g' ->
  decimal (g_Generation g) = Some n -> n <> u64_max -> validID nonce = true ->
  Gate_validate (next_gate g' n nonce) id = Ok ()
  /\ (g_Owner (next_gate g' n nonce) <> None -> holders_of (next_gate g' n nonce) = []).
Proof.
  intros Hg%Gate_validate_spec Hop He Hn Hm Hnc. pose proof (edited_next_ok op id g g' n nonce Hg Hop He Hn Hm Hnc) as H.
  split; [by apply Gate_validate_spec|]. intros Ho. destruct (g_Owner (next_gate g' n nonce)) as [o|] eqn:E; [|done].
  by destruct (gk_owner _ _ H o E).
Qed.
Definition ex_gate : Gate :=
  mkGate 1 (id_RepositoryID ex_identity) "7" "99999999-9999-4999-8999-999999999999" None (Some []).
Definition ex_owner : Owner := mkOwner "aaaaaaaa-aaaa-4aaa-8aaa-aaaaaaaaaaaa" "bbbbbbbb-bbbb-4bbb-8bbb-bbbbbbbbbbbb" "gc".
Lemma gate_changes_preserve_validity_witness :
  Gate_validate (next_gate (with_owner ex_gate (Some ex_owner)) 7 "cccccccc-cccc-4ccc-8ccc-cccccccccccc") ex_identity = Ok ()
  /\ (g_Owner (next_gate (with_owner ex_gate (Some ex_owner)) 7 "cccccccc-cccc-4ccc-8ccc-cccccccccccc") <> None ->
      holders_of (next_gate (with_owner ex_gate (Some ex_owner)) 7 "cccccccc-cccc-4ccc-8ccc-cccccccccccc") = []).
Proof.
  apply (gate_changes_preserve_validity (OpAcquire ex_owner) ex_identity ex_gate).
  - vm_compute. reflexivity.
  - vm_compute. split_and!; reflexivity.
  - right. vm_compute. reflexivity.
  - vm_compute. reflexivity.
  - vm_compute. discriminate.
  - vm_compute. reflexivity.
Defined.

(** ** What a change does to one holder or owner *)
Lemma next_holders g n nonce h : h ∈ holders_of (next_gate g n nonce) <-> h ∈ holders_of g.
Proof.
  unfold holders_of. cbn. destruct (g_Holders g) as [l|]; cbn; [|done]. apply elem_of_sort_slice.
Qed.

Lemma edited_drops_holder op id g g' h : gate_ok id g -> edited op g g' ->
  h ∈ holders_of g -> h ∉ holders_of g' -> op = OpRemove h.
Proof.
  intros Hg [->|H] Hin Hout; [done|]. destruct op as [x|x|o|o]; cbn in H.
  - unfold add_change in H. repeat (case_match; try done). injection H as <-. exfalso. apply Hout.
    unfold holders_of at 1. cbn. set_solver.
  - unfold remove_change in H. pose proof (find_holder_spec (ho_ID x) (holders_of g)) as Hf.
    destruct (find_holder _ _) as [v|]; [|done]. destruct (sameHolder v x) eqn:Es; [|done]. injection H as <-.
    apply sameHolder_eq in Es as ->. destruct Hf as [Hv _]. f_equal.
    destruct (decide (ho_ID h = ho_ID x)) as [E|E].
    + destruct (gk_holders _ _ Hg) as (l & Hl & _ & _ & Hs). apply holder_sorted_nodup in Hs.
      unfold holders_of in *. rewrite Hl in *. cbn in *. clear -Hs Hin Hv E.
      induction l as [|y l IH]; [by apply elem_of_nil in Hin|]. cbn in Hs. apply NoDup_cons in Hs as [Hy Hs].
      apply elem_of_cons in Hin as [->|Hin], Hv as [->|Hv]; [done| | |auto].
      * exfalso. apply Hy. rewrite E. apply list_elem_of_fmap. eauto.
      * exfalso. apply Hy. rewrite <- E. apply list_elem_of_fmap. eauto.
    + exfalso. apply Hout. unfold holders_of at 1. cbn. by apply remove_first_elem.
  - unfold acquire_change in H. repeat (case_match; try done). injection H as <-. done.
  - unfold release_change in H. repeat (case_match; try done). injection H as <-. done.
Qed.

Lemma edited_adds_holder op g g' h : edited op g g' ->
  h ∉ holders_of g -> h ∈ holders_of g' -> op = OpAdd h.
Proof.
  intros [->|H] Hout Hin; [done|]. destruct op as [x|x|o|o]; cbn in H.
  - unfold add_change in H. repeat (case_match; try done). injection H as <-. unfold holders_of at 1 in Hin. cbn in Hin.
    apply elem_of_app in Hin as [?|Hin%list_elem_of_singleton]; [done|]. by subst.
  - unfold remove_change in H. repeat (case_match; try done). injection H as <-. unfold holders_of at 1 in Hin. cbn in Hin.
    exfalso. apply Hout. eapply elem_of_sublist; [exact Hin|]. apply remove_first_sublist.
  - unfold acquire_change in H. repeat (case_match; try done). injection H as <-. done.
  - unfold release_change in H. repeat (case_match; try done). injection H as <-. done.
Qed.

Lemma edited_drops_owner op g g' o : edited op g g' ->
  g_Owner g = Some o -> g_Owner g' <> Some o -> op = OpRelease o.
Proof.
  intros [->|H] Hin Hout; [done|]. destruct op as [x|x|y|y]; cbn in H.
  - unfold add_change in H. rewrite Hin in H. by repeat case_match.
  - unfold remove_change in H. repeat (case_match; try done). injection H as <-. done.
  - unfold acquire_change in H. rewrite Hin in H. by repeat case_match.
  - unfold release_change in H. rewrite Hin in H. case_bool_decide; [|done]. by subst.
Qed.

Lemma edited_adds_owner op g g' o : edited op g g' ->
  g_Owner g <> Some o -> g_Owner g' = Some o -> op = OpAcquire o.
Proof.
  intros [->|H] Hout Hin; [done|]. destruct op as [x|x|y|y]; cbn in H.
  - unfold add_change in H. repeat (case_match; try done). injection H as <-. cbn in Hin. congruence.
  - unfold remove_change in H. repeat (case_match; try done). injection H as <-. cbn in Hin. congruence.
  - unfold acquire_change in H. repeat (case_match; try done). injection H as <-. cbn in Hin. congruence.
  - unfold release_change in H. repeat (case_match; try done). injection H as <-. done.
Qed.

(** What a change has established when it reports success. *)
Definition achieved (op : gate_op) (g : Gate) : Prop :=
  match op with
  | OpAdd h => h ∈ holders_of g
  | OpRemove h => h ∉ holders_of g
  | OpAcquire o => g_Owner g = Some o
  | OpRelease o => g_Owner g <> Some o
  end.

Lemma change_achieved op id g g' b : gate_ok id g -> change_of op g = Ok (g', b) -> achieved op g' /\ (b = true -> g' = g).
Proof.
  intros Hg H. destruct op as [x|x|o|o]; cbn in *.
  - unfold add_change in H. pose proof (find_holder_spec (ho_ID x) (holders_of g)) as Hf.
    destruct (find_holder _ _) as [v|].
    + destruct (sameHolder v x) eqn:Es; [|done]. injection H as <- <-. apply sameHolder_eq in Es as ->. by destruct Hf.
    + repeat (case_match; try done). injection H as <- <-. split; [|done]. unfold holders_of at 1. cbn. set_solver.
  - unfold remove_change in H. pose proof (find_holder_spec (ho_ID x) (holders_of g)) as Hf.
    destruct (find_holder _ _) as [v|].
    + destruct (sameHolder v x); [|done]. injection H as <- <-. split; [|done]. unfold holders_of at 1. cbn. intros Hin.
      destruct (gk_holders _ _ Hg) as (l & Hl & _ & _ & Hs). apply holder_sorted_nodup in Hs.
      unfold holders_of in Hin. rewrite Hl in Hin. cbn in Hin. apply (remove_first_gone (ho_ID x) l Hs).
      apply list_elem_of_fmap. eauto.
    + injection H as <- <-. split; [|done]. intros Hin. apply Hf. apply list_elem_of_fmap. eauto.
  - unfold acquire_change in H. destruct (g_Owner g) as [y|] eqn:E.
    + case_bool_decide; [|done]. injection H as <- <-. subst. done.
    + case_match; [done|]. injection H as <- <-. done.
  - unfold release_change in H. destruct (g_Owner g) as [y|] eqn:E.
    + case_match; [done|]. injection H as <- <-. done.
    + injection H as <- <-. split; [congruence|done].
Qed.

Lemma next_achieved op g n nonce : achieved op (next_gate g n nonce) <-> achieved op g.
Proof. destruct op; cbn [achieved]; rewrite ?next_holders; done. Qed.
