(* ===== verification/GateProtocol.v ===== *)
(** * The admission protocol under concurrency (internal/repository/gate.go, gc.go)

    Any number of processes run [changeGate] against one gate object.  A PUT may
    be applied and acknowledged, applied with the answer lost, definitely refused, or
    delayed: then the caller sees an ambiguous error while the request may still be
    applied at any later time, if its ETag still matches.  Processes may stop at any
    point.  The programs that run are the ones of Gate.v, call by call. *)

From S2P Require Import Prelude GoStrings GoTime Sha256 Errors Schema Prog Store Json Documents Repository Gate.

(** ** The world *)
Inductive phase := Starting | Active | Ending | Ended.
Record handle (A : Type) := mkHandle { hd_value : A; hd_starter : nat; hd_phase : phase }.
Arguments mkHandle {A} _ _ _.
Arguments hd_value {A} _.
Arguments hd_starter {A} _.
Arguments hd_phase {A} _.

Record world := mkWorld {
  w_body : string; w_etag : string; w_used : gset string;
  w_pending : list (nat * string * string);      (* delayed PUTs: caller, ETag, body *)
  w_ops : gmap nat gate_op;                      (* every change ever started *)
  w_running : gmap nat (prog (res ()));          (* changes whose result is not delivered *)
  w_holds : gmap string (handle Holder);         (* process-bound holders, by identifier *)
  w_owners : gmap string (handle Owner) }.       (* collectors, by operation *)

Definition set_object (w : world) (b etag : string) : world :=
  mkWorld b etag ({[etag]} ∪ w_used w) (w_pending w) (w_ops w) (w_running w) (w_holds w) (w_owners w).
Definition add_pending (w : world) (x : nat * string * string) : world :=
  mkWorld (w_body w) (w_etag w) (w_used w) (x :: w_pending w) (w_ops w) (w_running w) (w_holds w) (w_owners w).
Definition set_running (w : world) (m : gmap nat (prog (res ()))) : world :=
  mkWorld (w_body w) (w_etag w) (w_used w) (w_pending w) (w_ops w) m (w_holds w) (w_owners w).
Definition start (w : world) (c : nat) (op : gate_op) (p : prog (res ())) : world :=
  mkWorld (w_body w) (w_etag w) (w_used w) (w_pending w) (<[c := op]> (w_ops w)) (<[c := p]> (w_running w))
    (w_holds w) (w_owners w).
Definition set_hold (w : world) (h : Holder) (x : handle Holder) : world :=
  mkWorld (w_body w) (w_etag w) (w_used w) (w_pending w) (w_ops w) (w_running w)
    (<[ho_ID h := x]> (w_holds w)) (w_owners w).
Definition set_owner (w : world) (o : Owner) (x : handle Owner) : world :=
  mkWorld (w_body w) (w_etag w) (w_used w) (w_pending w) (w_ops w) (w_running w)
    (w_holds w) (<[ow_OperationID o := x]> (w_owners w)).

Definition lifetime (h : Holder) : Prop := ho_Kind h = "restore-lifetime".

Section Protocol.
Context (r : Repository).

(** A conditional PUT takes effect: every version has an ETag of its own. *)
Definition applied (w : world) (etag b : string) (w' : world) : Prop :=
  w_etag w = etag /\ exists etag', (etag' ∉ w_used w) /\ w' = set_object w b etag'.

(** The answers storage and the process give to one call of caller [c]. *)
Definition answers (c : nat) {X} (e : event X) : X -> world -> world -> Prop :=
  match e in event X return X -> world -> world -> Prop with
  | UUID => fun _ w w' => w' = w
  | Local _ => fun _ w w' => w' = w
  | Disk _ => fun _ w w' => w' = w
  | Read key _ => fun x w w' => w' = w /\ key = gate_key r
      /\ match x with Ok (b, i) => b = w_body w /\ i_ETag i = w_etag w | Err _ => True end
  | PutFile key b _ (Match etag) _ => fun x w w' => key = gate_key r /\
      (applied w etag b w' /\ match x with Ok _ => True | Err e => ambiguous e = true end
       \/ w' = w /\ (exists e, x = Err e /\ ambiguous e = false)
       \/ w' = add_pending w (c, etag, b) /\ (exists e, x = Err e /\ ambiguous e = true))
  | _ => fun _ _ _ => False
  end.
Definition calls (c : nat) (p : prog (res ())) (w w' : world) (p' : prog (res ())) : Prop :=
  match p with
  | Ret _ => False
  | Vis e k => exists x, answers c e x w w' /\ p' = k x
  end.

Inductive step (w : world) : world -> Prop :=
| step_call c p p' w' :
    w_running w !! c = Some p -> calls c p w w' p' -> step w (set_running w' (<[c := p']> (w_running w')))
| step_late c etag b w' : (c, etag, b) ∈ w_pending w -> applied w etag b w' -> step w w'
| step_admit c h : w_ops w !! c = None -> w_holds w !! ho_ID h = None -> ~ lifetime h -> Holder_validate h = Ok () ->
    step w (set_hold (start w c (OpAdd h) (addHolder r h)) h (mkHandle h c Starting))
| step_admitted c h : w_running w !! c = Some (Ret (Ok ())) -> w_holds w !! ho_ID h = Some (mkHandle h c Starting) ->
    step w (set_hold (set_running w (delete c (w_running w))) h (mkHandle h c Active))
| step_close c c0 h : w_ops w !! c = None -> w_holds w !! ho_ID h = Some (mkHandle h c0 Active) ->
    step w (set_hold (start w c (OpRemove h) (removeHolder r h)) h (mkHandle h c0 Ending))
| step_closed c c0 h : w_running w !! c = Some (Ret (Ok ())) -> w_ops w !! c = Some (OpRemove h) ->
    w_holds w !! ho_ID h = Some (mkHandle h c0 Ending) ->
    step w (set_hold (set_running w (delete c (w_running w))) h (mkHandle h c0 Ended))
| step_establish c h : w_ops w !! c = None -> lifetime h -> Holder_validate h = Ok () ->
    step w (start w c (OpAdd h) (addHolder r h))
| step_terminate c h : w_ops w !! c = None -> lifetime h -> step w (start w c (OpRemove h) (removeHolder r h))
| step_acquire c o : w_ops w !! c = None -> w_owners w !! ow_OperationID o = None -> op_ok (OpAcquire o) ->
    step w (set_owner (start w c (OpAcquire o) (changeGate r (acquire_change o))) o (mkHandle o c Starting))
| step_acquired c o : w_running w !! c = Some (Ret (Ok ())) -> w_owners w !! ow_OperationID o = Some (mkHandle o c Starting) ->
    step w (set_owner (set_running w (delete c (w_running w))) o (mkHandle o c Active))
| step_release c c0 o : w_ops w !! c = None -> w_owners w !! ow_OperationID o = Some (mkHandle o c0 Active) ->
    step w (set_owner (start w c (OpRelease o) (changeGate r (release_change o))) o (mkHandle o c0 Ending))
| step_released c c0 o : w_running w !! c = Some (Ret (Ok ())) -> w_ops w !! c = Some (OpRelease o) ->
    w_owners w !! ow_OperationID o = Some (mkHandle o c0 Ending) ->
    step w (set_owner (set_running w (delete c (w_running w))) o (mkHandle o c0 Ended)).

(** A freshly initialized repository. *)
Definition initial (w : world) : Prop :=
  (exists g, strict (w_body w) gateLimit = Ok g /\ Gate_validate g (r_id r) = Ok ())
  /\ w_used w = {[w_etag w]} /\ w_pending w = [] /\ w_ops w = ∅ /\ w_running w = ∅
  /\ w_holds w = ∅ /\ w_owners w = ∅.
Inductive reachable : world -> Prop :=
| reach_initial w : initial w -> reachable w
| reach_step w w' : reachable w -> step w w' -> reachable w'.

(** ** Where a change is *)
Definition again (n : nat) (op : gate_op) (barrier : bool) : prog (res ()) :=
  changeGate_loop r n barrier (change_of op).

(** [op] may write [b] over the version [etag]: it was computed from that version. *)
Definition round_edit (op : gate_op) (barrier : bool) (g g' : Gate) : Prop :=
  if barrier then g' = g else change_of op g = Ok (g', false).
Definition writable (w : world) (op : gate_op) (barrier : bool) (etag b : string) : Prop :=
  etag ∈ w_used w /\ (etag = w_etag w -> exists g g' n nonce,
    strict (w_body w) gateLimit = Ok g /\ gate_ok (r_id r) g /\ round_edit op barrier g g'
    /\ b = Marshal (next_gate g' n nonce) /\ gate_ok (r_id r) (next_gate g' n nonce) /\ len b <= gateLimit).

Inductive position (w : world) (op : gate_op) : bool -> prog (res ()) -> Prop :=
| pos_round n barrier : position w op barrier (again n op barrier)
| pos_error e barrier : position w op barrier (Ret (Err e))
| pos_ok : (exists g, strict (w_body w) gateLimit = Ok g /\ achieved op g) \/ 
           (match op with OpAdd h | OpRemove h => lifetime h | _ => False end) ->
    position w op false (Ret (Ok ()))
| pos_uuid n barrier etag g' m :
    (etag ∈ w_used w /\ (etag = w_etag w -> exists g, strict (w_body w) gateLimit = Ok g
       /\ gate_ok (r_id r) g /\ round_edit op barrier g g')) ->
    position w op barrier (bind (call UUID) (write_gate r (again n op) barrier etag g' m))
| pos_temp n barrier etag b : writable w op barrier etag b ->
    position w op barrier (bind (put (gate_key r) b (Match etag) ∅) (after_put (again n op) barrier))
| pos_write n barrier etag b : writable w op barrier etag b ->
    position w op barrier (bind (put_write (gate_key r) b (Match etag) ∅) (after_put (again n op) barrier))
| pos_put n barrier etag b : writable w op barrier etag b ->
    position w op barrier (bind (put_dispatch (gate_key r) b (Match etag) ∅) (after_put (again n op) barrier)).

(** The delayed PUTs of [c] can never be applied. *)
Definition fenced (w : world) (c : nat) : Prop :=
  forall etag b, (c, etag, b) ∈ w_pending w -> etag <> w_etag w.

(** What the handles say about a change that was started. *)
Definition registered (w : world) (c : nat) (op : gate_op) : Prop :=
  match op with
  | OpAdd h => lifetime h \/ exists ph, w_holds w !! ho_ID h = Some (mkHandle h c ph)
  | OpRemove h => lifetime h \/ exists c0 ph, w_holds w !! ho_ID h = Some (mkHandle h c0 ph) /\ (ph = Ending \/ ph = Ended)
  | OpAcquire o => exists ph, w_owners w !! ow_OperationID o = Some (mkHandle o c ph)
  | OpRelease o => exists c0 ph, w_owners w !! ow_OperationID o = Some (mkHandle o c0 ph) /\ (ph = Ending \/ ph = Ended)
  end.
Definition phase_ok {A} (w : world) (x : handle A) (present : Prop) : Prop :=
  (hd_phase x <> Starting -> w_running w !! hd_starter x = None /\ fenced w (hd_starter x))
  /\ (hd_phase x = Active -> present) /\ (hd_phase x = Ended -> ~ present).

Record inv (w : world) : Prop := {
  iv_used : w_etag w ∈ w_used w;
  iv_gate : exists g, strict (w_body w) gateLimit = Ok g /\ gate_ok (r_id r) g;
  iv_pending : forall c etag b, (c, etag, b) ∈ w_pending w ->
    exists op barrier, w_ops w !! c = Some op /\ writable w op barrier etag b;
  iv_running : forall c p, w_running w !! c = Some p ->
    exists op barrier, w_ops w !! c = Some op /\ position w op barrier p /\ (barrier = false -> fenced w c);
  iv_ops : forall c op, w_ops w !! c = Some op -> op_ok op /\ registered w c op;
  iv_holds : forall i x g, w_holds w !! i = Some x -> strict (w_body w) gateLimit = Ok g ->
    i = ho_ID (hd_value x) /\ ~ lifetime (hd_value x) /\ w_ops w !! hd_starter x = Some (OpAdd (hd_value x))
    /\ phase_ok w x (hd_value x ∈ holders_of g);
  iv_owners : forall i x g, w_owners w !! i = Some x -> strict (w_body w) gateLimit = Ok g ->
    i = ow_OperationID (hd_value x) /\ w_ops w !! hd_starter x = Some (OpAcquire (hd_value x))
    /\ phase_ok w x (g_Owner g = Some (hd_value x)) }.

(** ** Preservation *)
Context (Hid : Identity_Validate (r_id r) = Ok ()).

Definition same_object (w w' : world) : Prop :=
  w_body w' = w_body w /\ w_etag w' = w_etag w /\ w_used w' = w_used w.

Lemma writable_same w w' op barrier etag b : same_object w w' -> writable w op barrier etag b -> writable w' op barrier etag b.
Proof using. intros (E1 & E2 & E3). unfold writable. by rewrite E1, E2, E3. Qed.

Lemma position_same w w' op barrier p : same_object w w' -> position w op barrier p -> position w' op barrier p.
Proof using.
  intros Hs Hp. destruct Hp; try (constructor; by eauto using writable_same).
  - constructor. destruct Hs as (E1 & E2 & E3). by rewrite E1.
  - constructor. destruct Hs as (E1 & E2 & E3). by rewrite E1, E2, E3.
Qed.

Lemma fenced_same w w' c : same_object w w' -> w_pending w' = w_pending w -> fenced w c -> fenced w' c.
Proof using. intros (E1 & E2 & E3) E4. unfold fenced. by rewrite E2, E4. Qed.

Lemma round_edit_edited op barrier g g' : round_edit op barrier g g' -> edited op g g'.
Proof using. destruct barrier; [by left|by right]. Qed.

(** A change whose writes may still arrive is not the finished one of a handle. *)
Definition writer (w : world) (c : nat) (etag b : string) : Prop :=
  is_Some (w_running w !! c) \/ ((c, etag, b) ∈ w_pending w /\ etag = w_etag w).

Lemma writer_not_done w c etag b : writer w c etag b -> ~ (w_running w !! c = None /\ fenced w c).
Proof using. intros [[p Hp]|[Hin He]] [Hn Hf]; [congruence|]. by apply (Hf etag b). Qed.

Section Apply.
Context (w : world) (Hinv : inv w) (c : nat) (op : gate_op) (etag b : string).
Context (Hop : w_ops w !! c = Some op) (Hwr : writer w c etag b) (g g' g2 : Gate).
Context (Hg : strict (w_body w) gateLimit = Ok g) (Hok : gate_ok (r_id r) g) (Hed : edited op g g')
  (Eg2 : exists n nonce, g2 = next_gate g' n nonce).

Lemma next_elem h : h ∈ holders_of g2 <-> h ∈ holders_of g'.
Proof using Eg2. destruct Eg2 as (n & nonce & ->). apply next_holders. Qed.
Lemma next_own : g_Owner g2 = g_Owner g'.
Proof using Eg2. by destruct Eg2 as (n & nonce & ->). Qed.

Lemma drop_hold h : ~ lifetime h -> h ∈ holders_of g -> h ∉ holders_of g2 ->
  exists c0 ph, w_holds w !! ho_ID h = Some (mkHandle h c0 ph) /\ (ph = Ending \/ ph = Ended).
Proof using Hinv Hop Hok Hed Eg2.
  rewrite next_elem. intros Hl H1 H2. pose proof (edited_drops_holder _ _ _ _ _ Hok Hed H1 H2) as E.
  destruct (iv_ops w Hinv c op Hop) as [_ Hr]. rewrite E in Hr. destruct Hr as [?|?]; done.
Qed.
Lemma add_hold h : ~ lifetime h -> h ∉ holders_of g -> h ∈ holders_of g2 ->
  exists ph, w_holds w !! ho_ID h = Some (mkHandle h c ph).
Proof using Hinv Hop Hed Eg2.
  rewrite next_elem. intros Hl H1 H2. pose proof (edited_adds_holder _ _ _ _ Hed H1 H2) as E.
  destruct (iv_ops w Hinv c op Hop) as [_ Hr]. rewrite E in Hr. destruct Hr as [?|?]; done.
Qed.
Lemma drop_owner o : g_Owner g = Some o -> g_Owner g2 <> Some o ->
  exists c0 ph, w_owners w !! ow_OperationID o = Some (mkHandle o c0 ph) /\ (ph = Ending \/ ph = Ended).
Proof using Hinv Hop Hed Eg2.
  rewrite next_own. intros H1 H2. pose proof (edited_drops_owner _ _ _ _ Hed H1 H2) as E.
  destruct (iv_ops w Hinv c op Hop) as [_ Hr]. by rewrite E in Hr.
Qed.
Lemma add_owner o : g_Owner g <> Some o -> g_Owner g2 = Some o ->
  exists ph, w_owners w !! ow_OperationID o = Some (mkHandle o c ph).
Proof using Hinv Hop Hed Eg2.
  rewrite next_own. intros H1 H2. pose proof (edited_adds_owner _ _ _ _ Hed H1 H2) as E.
  destruct (iv_ops w Hinv c op Hop) as [_ Hr]. by rewrite E in Hr.
Qed.

(** A handle that is past its start was not started by this writer. *)
Lemma hold_not_writer h c0 ph : w_holds w !! ho_ID h = Some (mkHandle h c0 ph) -> ph <> Starting -> c0 <> c.
Proof using Hinv Hwr Hg.
  intros Hh Hp ->. destruct (iv_holds w Hinv _ _ g Hh Hg) as (_ & _ & _ & Hd & _).
  by apply (writer_not_done w c etag b Hwr), Hd.
Qed.
Lemma owner_not_writer o c0 ph : w_owners w !! ow_OperationID o = Some (mkHandle o c0 ph) -> ph <> Starting -> c0 <> c.
Proof using Hinv Hwr Hg.
  intros Hh Hp ->. destruct (iv_owners w Hinv _ _ g Hh Hg) as (_ & _ & Hd & _).
  by apply (writer_not_done w c etag b Hwr), Hd.
Qed.

(** A success not yet delivered stays true under the write. *)
Lemma achieved_persists c1 op1 p : w_running w !! c1 = Some p -> w_ops w !! c1 = Some op1 ->
  match op1 with OpAdd h | OpRemove h => ~ lifetime h | _ => True end ->
  achieved op1 g -> achieved op1 g2.
Proof using Hinv Hop Hwr Hg Hok Hed Eg2.
  intros Hrun Hop1 Hl Hach. destruct (iv_ops w Hinv c1 op1 Hop1) as [_ Hreg].
  destruct op1 as [h|h|o|o]; cbn in *.
  - destruct (decide (h ∈ holders_of g2)) as [|Hn]; [done|]. exfalso.
    destruct (drop_hold h Hl Hach Hn) as (c0 & ph & Hh & Hph). destruct Hreg as [?|[ph' Hh']]; [done|].
    rewrite Hh in Hh'. injection Hh' as -> ->.
    destruct (iv_holds w Hinv _ _ g Hh Hg) as (_ & _ & _ & Hd & _).
    destruct (Hd ltac:(cbn; by destruct Hph as [-> | ->])) as [Hnone _]. cbn in Hnone. congruence.
  - intros Hin. destruct (add_hold h Hl Hach Hin) as (ph & Hh).
    destruct Hreg as [?|(c0 & ph' & Hh' & Hph)]; [done|]. rewrite Hh in Hh'. injection Hh' as _ Eph.
    apply (hold_not_writer h c ph Hh); [|done]. rewrite Eph. by destruct Hph as [-> | ->].
  - destruct (decide (g_Owner g2 = Some o)) as [|Hn]; [done|]. exfalso.
    destruct (drop_owner o Hach Hn) as (c0 & ph & Hh & Hph). destruct Hreg as [ph' Hh'].
    rewrite Hh in Hh'. injection Hh' as -> ->.
    destruct (iv_owners w Hinv _ _ g Hh Hg) as (_ & _ & Hd & _).
    destruct (Hd ltac:(cbn; by destruct Hph as [-> | ->])) as [Hnone _]. cbn in Hnone. congruence.
  - intros Hin. destruct (add_owner o Hach Hin) as (ph & Hh).
    destruct Hreg as (c0 & ph' & Hh' & Hph). rewrite Hh in Hh'. injection Hh' as _ Eph.
    apply (owner_not_writer o c ph Hh); [|done]. rewrite Eph. by destruct Hph as [-> | ->].
Qed.
End Apply.

(** Nothing computed from an older version can be written any more. *)
Lemma new_etag_fences w etag' b c : inv w -> etag' ∉ w_used w -> fenced (set_object w b etag') c.
Proof using.
  intros Hinv Hn et b' Hin ->. cbn in *. destruct (iv_pending w Hinv _ _ _ Hin) as (op & bar & _ & Hu & _). done.
Qed.
Lemma writable_new w etag' b op barrier et b' :
  etag' ∉ w_used w -> writable w op barrier et b' -> writable (set_object w b etag') op barrier et b'.
Proof using.
  intros Hn [Hu _]. split; cbn; [apply elem_of_union; by right|]. intros ->. done.
Qed.

Lemma apply_inv w c op barrier etag b w' :
  inv w -> w_ops w !! c = Some op -> writable w op barrier etag b -> writer w c etag b -> applied w etag b w' ->
  inv w' /\ (forall c, fenced w' c) /\ w_running w' = w_running w /\ w_ops w' = w_ops w
  /\ (barrier = false -> exists g, strict (w_body w') gateLimit = Ok g /\ achieved op g).
Proof using Hid.
  intros Hinv Hop [Hu Hw] Hwr (Eet & etag' & Hn & ->).
  destruct (Hw (eq_sym Eet)) as (g & g' & n & nonce & Hg & Hok & Hed & Eb & Hok2 & Hlen).
  assert (strict b gateLimit = Ok (next_gate g' n nonce)) as Hg2.
  { rewrite Eb. apply strict_marshal; [by apply (gate_ok_plain (r_id r))|]. by rewrite <- Eb. }
  pose proof (round_edit_edited _ _ _ _ Hed) as Hed'. set (g2 := next_gate g' n nonce) in *.
  assert (exists n nonce, g2 = next_gate g' n nonce) as Eg2 by (by exists n, nonce).
  assert (forall c, fenced (set_object w b etag') c) as Hfen by (intros; by apply new_etag_fences).
  split; [|split_and!; [done|done|done|]].
  - split; cbn [set_object w_body w_etag w_used w_pending w_ops w_running w_holds w_owners].
    + set_solver.
    + by exists g2.
    + intros c1 et b1 Hin. destruct (iv_pending w Hinv _ _ _ Hin) as (op1 & bar & H1 & H2).
      exists op1, bar. split; [done|]. by apply writable_new.
    + intros c1 p Hp. destruct (iv_running w Hinv _ _ Hp) as (op1 & bar & H1 & H2 & _).
      exists op1, bar. split; [done|]. split; [|done].
      destruct H2 as [| |Hach|? ? et ? ? [Hu1 _]| | |]; try (constructor; by apply writable_new); try constructor.
      * destruct Hach as [(g0 & Hg0 & Hach)|Hl]; [|by right]. rewrite Hg in Hg0. injection Hg0 as <-.
        assert (match op1 with OpAdd h | OpRemove h => lifetime h | _ => False end \/
                match op1 with OpAdd h | OpRemove h => ~ lifetime h | _ => True end) as [Hl|Hl].
        { destruct op1; try (by right); unfold lifetime; destruct (decide (ho_Kind h = "restore-lifetime")); auto. }
        { by right. }
        left. exists g2. split; [done|].
        by apply (achieved_persists w Hinv c op etag b Hop Hwr g g' g2 Hg Hok Hed' Eg2 c1 op1 (Ret (Ok ()))).
      * split; cbn; [set_solver|]. intros ->. done.
    + intros c1 op1 H1. by apply (iv_ops w Hinv).
    + intros i x g0 Hx Hg0. rewrite Hg2 in Hg0. injection Hg0 as <-.
      destruct (iv_holds w Hinv _ _ g Hx Hg) as (Ei & Hl & Hs & Hd & Ha & He). split_and!; [done|done|done|].
      destruct x as [h c0 ph]. cbn in *. subst i. unfold phase_ok. cbn. split_and!.
      * intros Hph. split; [by apply Hd|done].
      * intros ->. destruct (decide (h ∈ holders_of g2)) as [|Hout]; [done|]. exfalso.
        destruct (drop_hold w Hinv c op Hop g g' g2 Hok Hed' Eg2 h Hl (Ha eq_refl) Hout) as (c1 & ph & Hh & Hph).
        rewrite Hx in Hh. injection Hh as _ <-. by destruct Hph.
      * intros -> Hin. destruct (add_hold w Hinv c op Hop g g' g2 Hed' Eg2 h Hl (He eq_refl) Hin) as (ph & Hh).
        rewrite Hx in Hh. injection Hh as -> _.
        by apply (hold_not_writer w Hinv c etag b Hwr g Hg h c Ended Hx).
    + intros i x g0 Hx Hg0. rewrite Hg2 in Hg0. injection Hg0 as <-.
      destruct (iv_owners w Hinv _ _ g Hx Hg) as (Ei & Hs & Hd & Ha & He). split_and!; [done|done|].
      destruct x as [o c0 ph]. cbn in *. subst i. unfold phase_ok. cbn. split_and!.
      * intros Hph. split; [by apply Hd|done].
      * intros ->. destruct (decide (g_Owner g2 = Some o)) as [|Hout]; [done|]. exfalso.
        destruct (drop_owner w Hinv c op Hop g g' g2 Hed' Eg2 o (Ha eq_refl) Hout) as (c1 & ph & Hh & Hph).
        rewrite Hx in Hh. injection Hh as _ <-. by destruct Hph.
      * intros -> Hin. destruct (add_owner w Hinv c op Hop g g' g2 Hed' Eg2 o (He eq_refl) Hin) as (ph & Hh).
        rewrite Hx in Hh. injection Hh as -> _.
        by apply (owner_not_writer w Hinv c etag b Hwr g Hg o c Ended Hx).
  - intros ->. exists g2. split; [done|]. apply next_achieved. cbn in Hed.
    by destruct (change_achieved op (r_id r) g g' false Hok Hed).
Qed.

(** A caller moves to another position without touching the object. *)
Lemma move_inv w c p0 op barrier p :
  inv w -> w_running w !! c = Some p0 -> w_ops w !! c = Some op -> position w op barrier p ->
  (barrier = false -> fenced w c) -> inv (set_running w (<[c := p]> (w_running w))).
Proof using.
  intros Hinv Hrun Hop Hpos Hf. destruct Hinv as [H1 H2 H3 H4 H5 H6 H7].
  assert (same_object w (set_running w (<[c := p]> (w_running w)))) as Hs by done.
  assert (forall {A} (x : handle A) P, phase_ok w x P -> phase_ok (set_running w (<[c := p]> (w_running w))) x P) as Hph.
  { intros A x P (Ha & Hb & Hc). split; [|done]. intros Hp. destruct (Ha Hp) as [Hn Hfe]. split; [|done].
    cbn. rewrite lookup_insert_ne; [done|]. intros ->. congruence. }
  split; cbn [set_running w_body w_etag w_used w_pending w_ops w_running w_holds w_owners]; try done.
  - intros c1 p1 Hp1. destruct (decide (c = c1)) as [<-|Hne].
    + rewrite lookup_insert_eq in Hp1. injection Hp1 as <-. exists op, barrier. split_and!; [done| |done].
      by apply (position_same w).
    + rewrite lookup_insert_ne in Hp1 by done. destruct (H4 c1 p1 Hp1) as (op1 & bar & E1 & E2 & E3).
      exists op1, bar. split_and!; [done| |done]. by apply (position_same w).
  - intros i x g Hx Hg. destruct (H6 i x g Hx Hg) as (? & ? & ? & ?). split_and!; auto.
  - intros i x g Hx Hg. destruct (H7 i x g Hx Hg) as (? & ? & ?). split_and!; auto.
Qed.

(** A running caller's PUT is delayed. *)
Lemma delay_inv w c p0 op barrier etag b p :
  inv w -> w_running w !! c = Some p0 -> w_ops w !! c = Some op -> writable w op barrier etag b ->
  position w op true p ->
  inv (set_running (add_pending w (c, etag, b)) (<[c := p]> (w_running w))).
Proof using.
  intros Hinv Hrun Hop Hwr Hpos. destruct Hinv as [H1 H2 H3 H4 H5 H6 H7].
  set (w' := set_running _ _). assert (same_object w w') as Hs by done.
  assert (forall c1, c1 <> c -> fenced w c1 -> fenced w' c1) as Hfe.
  { intros c1 Hne Hf et b' [E|Hin]%elem_of_cons; [by injection E as -> _ _|]. by apply (Hf et b'). }
  assert (forall {A} (x : handle A) P, phase_ok w x P -> phase_ok w' x P) as Hph.
  { intros A x P (Ha & Hb & Hc). split; [|done]. intros Hp. destruct (Ha Hp) as [Hn Hf].
    assert (hd_starter x <> c) as Hne by (intros E; rewrite E in Hn; congruence).
    split; [|by apply Hfe]. cbn. by rewrite lookup_insert_ne. }
  split; try done.
  - intros c1 et b1 [E|Hin]%elem_of_cons.
    + injection E as -> -> ->. exists op, barrier. split; [done|]. by apply (writable_same w).
    + destruct (H3 c1 et b1 Hin) as (op1 & bar & E1 & E2). exists op1, bar. split; [done|]. by apply (writable_same w).
  - intros c1 p1 Hp1. cbn in Hp1. destruct (decide (c = c1)) as [<-|Hne].
    + rewrite lookup_insert_eq in Hp1. injection Hp1 as <-. exists op, true. split_and!; [done| |done].
      by apply (position_same w).
    + rewrite lookup_insert_ne in Hp1 by done. destruct (H4 c1 p1 Hp1) as (op1 & bar & E1 & E2 & E3).
      exists op1, bar. split_and!; [done| |intros E; apply Hfe; [done|auto]]. by apply (position_same w).
  - intros i x g Hx Hg. destruct (H6 i x g Hx Hg) as (? & ? & ? & ?). split_and!; auto.
  - intros i x g Hx Hg. destruct (H7 i x g Hx Hg) as (? & ? & ?). split_and!; auto.
Qed.

Lemma settled_position w op n barrier e : ambiguous e = false ->
  exists barrier', (barrier' = false -> barrier = false) /\ position w op barrier' (after_put (again n op) barrier (Err e)).
Proof using.
  intros He. cbn. rewrite He. exists barrier. split; [done|]. destruct (_ || _); constructor.
Qed.

Lemma call_inv w c p p' w' :
  inv w -> w_running w !! c = Some p -> calls c p w w' p' -> inv (set_running w' (<[c := p']> (w_running w'))).
Proof using Hid.
  intros Hinv Hrun Hc. destruct (iv_running w Hinv c p Hrun) as (op & barrier & Hop & Hpos & Hf).
  destruct (iv_ops w Hinv c op Hop) as [Hopok _].
  destruct Hpos as [n barrier|e barrier|Hach|n barrier etag g' m [Hu Hcur]|n barrier etag b Hw|n barrier etag b Hw|n barrier etag b Hw].
  - (* the read of a round *)
    destruct n as [|n]; [done|]. destruct Hc as (x & (-> & _ & Hx) & ->).
    destruct x as [[b i]|e]; cbn [bind]; [|by apply (move_inv w c _ op barrier _ Hinv Hrun Hop); [constructor|]].
    destruct Hx as [-> Het]. destruct (iv_gate w Hinv) as (g & Hg & Hok). rewrite Hg. cbn [bind].
    rewrite (proj2 (Gate_validate_spec g (r_id r)) Hok). unfold done. cbn [bind].
    apply (move_inv w c _ op barrier _ Hinv Hrun Hop); [|done].
    assert (forall g' m, round_edit op barrier g g' -> position w op barrier
      (bind (call UUID) (write_gate r (again n op) barrier (i_ETag i) g' m))) as Hwrite.
    { intros g' m He. constructor. rewrite Het. split; [apply (iv_used w Hinv)|]. intros _. by exists g. }
    unfold plan_round. cbv zeta. destruct barrier.
    + destruct (_ =? _); [constructor|]. by apply Hwrite.
    + destruct (change_of op g) as [[g' []]|e] eqn:Ech; [| |constructor].
      * constructor. left. exists g. split; [done|].
        destruct (change_achieved op (r_id r) g g' true Hok Ech) as [Ha Eq]. by rewrite <- (Eq eq_refl).
      * destruct (_ =? _); [constructor|]. by apply Hwrite.
  - done.
  - done.
  - (* the nonce *)
    destruct Hc as (nonce & -> & ->). cbn [bind].
    apply (move_inv w c _ op barrier _ Hinv Hrun Hop); [|done]. unfold write_gate.
    destruct (Gate_validate (next_gate g' m nonce) (r_id r)) as [[]|e] eqn:Ev; [|constructor].
    destruct (Z.ltb_spec gateLimit (len (Marshal (next_gate g' m nonce)))); [constructor|].
    constructor. split; [done|]. intros E. destruct (Hcur E) as (g & Hg & Hok & Hed).
    exists g, g', m, nonce. split_and!; try done. by apply Gate_validate_spec.
  - (* the spool file *)
    destruct Hc as (x & -> & ->). cbn [bind]. destruct x as [e|].
    + destruct (settled_position w op n barrier (S3 LocalIO false) eq_refl) as (bar & Hb & Hp).
      apply (move_inv w c _ op bar _ Hinv Hrun Hop); [exact Hp|auto].
    + apply (move_inv w c _ op barrier _ Hinv Hrun Hop); [|done]. by constructor.
  - destruct Hc as (x & -> & ->). cbn [bind]. destruct x as [e|].
    + destruct (settled_position w op n barrier (S3 LocalIO false) eq_refl) as (bar & Hb & Hp).
      apply (move_inv w c _ op bar _ Hinv Hrun Hop); [exact Hp|auto].
    + apply (move_inv w c _ op barrier _ Hinv Hrun Hop); [|done]. by constructor.
  - (* the PUT *)
    destruct Hc as (x & (_ & Hx) & ->). cbn [bind].
    destruct Hx as [[Hap Hx]|[[-> (e & -> & He)]|[-> (e & -> & He)]]].
    + assert (writer w c etag b) as Hwr by (left; eauto).
      destruct (apply_inv w c op barrier etag b w' Hinv Hop Hw Hwr Hap) as (Hinv' & Hfen & Er & Eo & Hach).
      rewrite <- Er in Hrun. rewrite <- Eo in Hop. destruct x as [i|e]; cbn [after_put].
      * destruct barrier.
        -- apply (move_inv w' c _ op false _ Hinv' Hrun Hop); [constructor|auto].
        -- apply (move_inv w' c _ op false _ Hinv' Hrun Hop); [|auto]. constructor. left. auto.
      * rewrite Hx. apply (move_inv w' c _ op true _ Hinv' Hrun Hop); [constructor|done].
    + destruct (settled_position w op n barrier e He) as (bar & Hb & Hp).
      apply (move_inv w c _ op bar _ Hinv Hrun Hop); [exact Hp|auto].
    + cbn [after_put]. rewrite He. apply (delay_inv w c _ op barrier etag b _ Hinv Hrun Hop Hw). constructor.
Qed.

(** Handles only move forward. *)
Definition ended (ph : phase) : Prop := ph = Ending \/ ph = Ended.
Definition advances {A} (m m' : gmap string (handle A)) : Prop :=
  forall i h c ph, m !! i = Some (mkHandle h c ph) -> exists ph', m' !! i = Some (mkHandle h c ph') /\ (ended ph -> ended ph').

Lemma advances_refl {A} (m : gmap string (handle A)) : advances m m.
Proof using. intros i h c ph H. eauto. Qed.
Lemma advances_insert {A} (m : gmap string (handle A)) i h c ph' :
  (m !! i = None \/ exists ph, m !! i = Some (mkHandle h c ph) /\ (ended ph -> ended ph')) ->
  advances m (<[i := mkHandle h c ph']> m).
Proof using.
  intros Hm j h1 c1 ph1 Hj. destruct (decide (i = j)) as [<-|Hne].
  - rewrite lookup_insert_eq. destruct Hm as [Hm|(ph & Hm & He)]; rewrite Hj in Hm; [done|].
    injection Hm as -> -> ->. eauto.
  - rewrite lookup_insert_ne by done. eauto.
Qed.

Lemma registered_advance w w' c op : advances (w_holds w) (w_holds w') -> advances (w_owners w) (w_owners w') ->
  registered w c op -> registered w' c op.
Proof using.
  intros Hh Ho. destruct op as [h|h|o|o]; cbn.
  - intros [?|(ph & H)]; [by left|]. right. destruct (Hh _ _ _ _ H) as (ph' & ? & _). eauto.
  - intros [?|(c0 & ph & H & He)]; [by left|]. right. destruct (Hh _ _ _ _ H) as (ph' & ? & He'). exists c0, ph'. split; [done|by apply He'].
  - intros (ph & H). destruct (Ho _ _ _ _ H) as (ph' & ? & _). eauto.
  - intros (c0 & ph & H & He). destruct (Ho _ _ _ _ H) as (ph' & ? & He'). exists c0, ph'. split; [done|by apply He'].
Qed.

Lemma unstarted_silent w c : inv w -> w_ops w !! c = None -> fenced w c /\ w_running w !! c = None.
Proof using.
  intros Hinv Hc. split.
  - intros et b Hin. destruct (iv_pending w Hinv _ _ _ Hin) as (op & bar & H & _). congruence.
  - destruct (w_running w !! c) eqn:E; [|done]. destruct (iv_running w Hinv _ _ E) as (op & bar & H & _). congruence.
Qed.

Definition hold_ok (w : world) (i : string) (x : handle Holder) : Prop :=
  forall g, strict (w_body w) gateLimit = Ok g ->
    i = ho_ID (hd_value x) /\ ~ lifetime (hd_value x) /\ w_ops w !! hd_starter x = Some (OpAdd (hd_value x))
    /\ phase_ok w x (hd_value x ∈ holders_of g).
Definition owner_ok (w : world) (i : string) (x : handle Owner) : Prop :=
  forall g, strict (w_body w) gateLimit = Ok g ->
    i = ow_OperationID (hd_value x) /\ w_ops w !! hd_starter x = Some (OpAcquire (hd_value x))
    /\ phase_ok w x (g_Owner g = Some (hd_value x)).

Lemma start_inv w c op p hs os :
  inv w -> w_ops w !! c = None -> op_ok op -> position w op false p ->
  advances (w_holds w) hs -> advances (w_owners w) os ->
  let w' := mkWorld (w_body w) (w_etag w) (w_used w) (w_pending w) (<[c := op]> (w_ops w)) (<[c := p]> (w_running w)) hs os in
  registered w' c op ->
  (forall i x, hs !! i = Some x -> w_holds w !! i = Some x \/ hold_ok w' i x) ->
  (forall i x, os !! i = Some x -> w_owners w !! i = Some x \/ owner_ok w' i x) -> inv w'.
Proof using.
  intros Hinv Hc Hok Hpos Hah Hao w' Hreg Hhs Hos. destruct (unstarted_silent w c Hinv Hc) as [Hfc Hrc].
  destruct Hinv as [H1 H2 H3 H4 H5 H6 H7]. assert (same_object w w') as Hs by done.
  assert (forall c1 o1, w_ops w !! c1 = Some o1 -> w_ops w' !! c1 = Some o1) as Hops.
  { intros c1 o1 E. cbn. rewrite lookup_insert_ne; [done|]. intros ->. congruence. }
  assert (forall {A} (x : handle A) P, is_Some (w_ops w !! hd_starter x) -> phase_ok w x P -> phase_ok w' x P) as Hph.
  { intros A x P [o Hx] (Ha & Hb & Hd). split; [|done]. intros Hp. destruct (Ha Hp) as [Hn Hf]. split; [|done].
    cbn. rewrite lookup_insert_ne; [done|]. intros ->. congruence. }
  split; try done.
  - intros c1 et b Hin. destruct (H3 c1 et b Hin) as (op1 & bar & E1 & E2). exists op1, bar. eauto using writable_same.
  - intros c1 p1 Hp1. cbn in Hp1. destruct (decide (c = c1)) as [<-|Hne].
    + rewrite lookup_insert_eq in Hp1. injection Hp1 as <-. exists op, false. cbn. rewrite lookup_insert_eq.
      split_and!; [done| |done]. by apply (position_same w).
    + rewrite lookup_insert_ne in Hp1 by done. destruct (H4 c1 p1 Hp1) as (op1 & bar & E1 & E2 & E3).
      exists op1, bar. split_and!; [by apply Hops| |done]. by apply (position_same w).
  - intros c1 op1 E. cbn in E. destruct (decide (c = c1)) as [<-|Hne].
    + rewrite lookup_insert_eq in E. by injection E as <-.
    + rewrite lookup_insert_ne in E by done. destruct (H5 c1 op1 E) as [? Hr]. split; [done|].
      by apply (registered_advance w w').
  - intros i x g Hx Hg. destruct (Hhs i x Hx) as [Hold|Hnew]; [|by apply Hnew].
    destruct (H6 i x g Hold Hg) as (? & ? & ? & ?). split_and!; eauto.
  - intros i x g Hx Hg. destruct (Hos i x Hx) as [Hold|Hnew]; [|by apply Hnew].
    destruct (H7 i x g Hold Hg) as (? & ? & ?). split_and!; eauto.
Qed.

Lemma deliver_inv w c hs os :
  inv w -> advances (w_holds w) hs -> advances (w_owners w) os ->
  let w' := mkWorld (w_body w) (w_etag w) (w_used w) (w_pending w) (w_ops w) (delete c (w_running w)) hs os in
  (forall i x, hs !! i = Some x -> w_holds w !! i = Some x \/ hold_ok w' i x) ->
  (forall i x, os !! i = Some x -> w_owners w !! i = Some x \/ owner_ok w' i x) -> inv w'.
Proof using.
  intros Hinv Hah Hao w' Hhs Hos. destruct Hinv as [H1 H2 H3 H4 H5 H6 H7]. assert (same_object w w') as Hs by done.
  assert (forall {A} (x : handle A) P, phase_ok w x P -> phase_ok w' x P) as Hph.
  { intros A x P (Ha & Hb & Hd). split; [|done]. intros Hp. destruct (Ha Hp) as [Hn Hf]. split; [|done].
    cbn. apply lookup_delete_None. by right. }
  split; try done.
  - intros c1 p1 Hp1. cbn in Hp1. apply lookup_delete_Some in Hp1 as [_ Hp1]. destruct (H4 c1 p1 Hp1) as (op1 & bar & E1 & E2 & E3).
    exists op1, bar. split_and!; [done| |done]. by apply (position_same w).
  - intros c1 op1 E. destruct (H5 c1 op1 E) as [? Hr]. split; [done|]. by apply (registered_advance w w').
  - intros i x g Hx Hg. destruct (Hhs i x Hx) as [Hold|Hnew]; [|by apply Hnew].
    destruct (H6 i x g Hold Hg) as (? & ? & ? & ?). split_and!; auto.
  - intros i x g Hx Hg. destruct (Hos i x Hx) as [Hold|Hnew]; [|by apply Hnew].
    destruct (H7 i x g Hold Hg) as (? & ? & ?). split_and!; auto.
Qed.

Lemma insert_cases {A} (m : gmap string (handle A)) i x j y :
  <[i := x]> m !! j = Some y -> m !! j = Some y \/ (j = i /\ y = x).
Proof using. intros [[-> ->]|[_ ?]]%lookup_insert_Some; auto. Qed.

Lemma ok_achieved w c op g : inv w -> w_running w !! c = Some (Ret (Ok ())) -> w_ops w !! c = Some op ->
  match op with OpAdd h | OpRemove h => ~ lifetime h | _ => True end ->
  strict (w_body w) gateLimit = Ok g -> achieved op g /\ fenced w c.
Proof using.
  intros Hinv Hrun Hop Hl Hg. destruct (iv_running w Hinv _ _ Hrun) as (op1 & bar & Hop1 & Hpos & Hf).
  rewrite Hop in Hop1. injection Hop1 as <-.
  remember (Ret (Ok ())) as p eqn:Ep. destruct Hpos as [n ?| |Hach| | | |]; try done.
  - by destruct n.
  - split; [|by apply Hf]. destruct Hach as [(g0 & Hg0 & Ha)|Hl']; [congruence|]. by destruct op.
Qed.

Lemma addHolder_start h : Holder_validate h = Ok () -> addHolder r h = again 10 (OpAdd h) false.
Proof using. intros H. unfold addHolder. by rewrite H. Qed.

Lemma started_hold_ok w c h ph : ~ lifetime h -> w_ops w !! c = Some (OpAdd h) -> ph = Starting ->
  hold_ok w (ho_ID h) (mkHandle h c ph).
Proof using. intros Hl Ho -> g Hg. split_and!; [done|done|done|]. by split. Qed.
Lemma started_owner_ok w c o ph : w_ops w !! c = Some (OpAcquire o) -> ph = Starting ->
  owner_ok w (ow_OperationID o) (mkHandle o c ph).
Proof using. intros Ho -> g Hg. split_and!; [done|done|]. by split. Qed.

(** A handle's facts when it leaves [Starting] or moves on. *)
Lemma hold_phase w h c0 ph :
  ~ lifetime h -> w_ops w !! c0 = Some (OpAdd h) -> w_running w !! c0 = None -> fenced w c0 ->
  (forall g, strict (w_body w) gateLimit = Ok g -> (ph = Active -> h ∈ holders_of g) /\ (ph = Ended -> h ∉ holders_of g)) ->
  hold_ok w (ho_ID h) (mkHandle h c0 ph).
Proof using. intros Hl Ho Hr Hf Hp g Hg. destruct (Hp g Hg). split_and!; [done|done|done|]. by split. Qed.
Lemma owner_phase w o c0 ph :
  w_ops w !! c0 = Some (OpAcquire o) -> w_running w !! c0 = None -> fenced w c0 ->
  (forall g, strict (w_body w) gateLimit = Ok g -> (ph = Active -> g_Owner g = Some o) /\ (ph = Ended -> g_Owner g <> Some o)) ->
  owner_ok w (ow_OperationID o) (mkHandle o c0 ph).
Proof using. intros Ho Hr Hf Hp g Hg. destruct (Hp g Hg). split_and!; [done|done|]. by split. Qed.


Lemma ended_handle {A} (m : gmap string (handle A)) i h c ph ph' :
  m !! i = Some (mkHandle h c ph) -> (ended ph -> ended ph') -> advances m (<[i := mkHandle h c ph']> m).
Proof using. intros H He. apply advances_insert. right. eauto. Qed.

Lemma step_inv w w' : inv w -> step w w' -> inv w'.
Proof using Hid.
  intros Hinv Hs. destruct (iv_gate w Hinv) as (g & Hg & Hgok).
  destruct Hs as [c p p' w' Hrun Hc|c et b w' Hin Hap|c h Hc Hn Hl Hv|c h Hrun Hh|c c0 h Hc Hh|c c0 h Hrun Hop Hh
    |c h Hc Hl Hv|c h Hc Hl|c o Hc Hn Hv|c o Hrun Ho|c c0 o Hc Ho|c c0 o Hrun Hop Ho].
  - by eapply call_inv.
  - destruct (iv_pending w Hinv _ _ _ Hin) as (op & bar & Hop & Hw).
    assert (writer w c et b) as Hwr by (right; split; [done|]; by destruct Hap).
    by destruct (apply_inv w c op bar et b w' Hinv Hop Hw Hwr Hap) as (? & _).
  - apply (start_inv w c (OpAdd h)); try done.
    + rewrite (addHolder_start h Hv). constructor.
    + apply advances_insert. by left.
    + apply advances_refl.
    + right. exists Starting. cbn. apply lookup_insert_eq.
    + intros i x [?|[-> ->]]%insert_cases; [by left|]. right. apply started_hold_ok; [done| |done].
      cbn. apply lookup_insert_eq.
    + intros i x Hx. by left.
  - destruct (iv_holds w Hinv _ _ g Hh Hg) as (_ & Hl & Hop & _). cbn in Hl, Hop.
    destruct (ok_achieved w c (OpAdd h) g Hinv Hrun Hop Hl Hg) as [Hach Hf].
    apply (deliver_inv w c); try done.
    + eapply ended_handle; [exact Hh|]. by intros [?|?].
    + apply advances_refl.
    + intros i x [?|[-> ->]]%insert_cases; [by left|]. right. apply hold_phase; try done; cbn.
      * apply lookup_delete_eq.
      * intros g0 Hg0. rewrite Hg in Hg0. injection Hg0 as <-. split; [done|done].
    + intros i x Hx. by left.
  - destruct (iv_holds w Hinv _ _ g Hh Hg) as (_ & Hl & Hop & Hph & _). cbn in Hl, Hop.
    destruct (Hph ltac:(done)) as [Hr0 Hf0]. cbn in Hr0, Hf0.
    assert (c <> c0) as Hne by congruence.
    apply (start_inv w c (OpRemove h)); try done.
    + apply (pos_round w (OpRemove h) 10 false).
    + eapply ended_handle; [exact Hh|]. intros _. by left.
    + apply advances_refl.
    + right. exists c0, Ending. cbn. split; [apply lookup_insert_eq|by left].
    + intros i x [?|[-> ->]]%insert_cases; [by left|]. right. apply hold_phase; try done; cbn; by rewrite lookup_insert_ne.
    + intros i x Hx. by left.
  - destruct (iv_holds w Hinv _ _ g Hh Hg) as (_ & Hl & Hop0 & Hph & _). cbn in Hl, Hop0.
    destruct (Hph ltac:(done)) as [Hr0 Hf0]. cbn in Hr0, Hf0.
    destruct (ok_achieved w c (OpRemove h) g Hinv Hrun Hop Hl Hg) as [Hach Hf].
    apply (deliver_inv w c); try done.
    + eapply ended_handle; [exact Hh|]. intros _. by right.
    + apply advances_refl.
    + intros i x [?|[-> ->]]%insert_cases; [by left|]. right. apply hold_phase; try done; cbn.
      * apply lookup_delete_None. by right.
      * intros g0 Hg0. rewrite Hg in Hg0. injection Hg0 as <-. split; [done|done].
    + intros i x Hx. by left.
  - apply (start_inv w c (OpAdd h)); try done; [|apply advances_refl|apply advances_refl|by left|intros; by left..].
    rewrite (addHolder_start h Hv). constructor.
  - apply (start_inv w c (OpRemove h)); try done; [|apply advances_refl|apply advances_refl|by left|intros; by left..].
    apply (pos_round w (OpRemove h) 10 false).
  - apply (start_inv w c (OpAcquire o)); try done.
    + apply (pos_round w (OpAcquire o) 10 false).
    + apply advances_refl.
    + apply advances_insert. by left.
    + exists Starting. cbn. apply lookup_insert_eq.
    + intros i x Hx. by left.
    + intros i x [?|[-> ->]]%insert_cases; [by left|]. right. apply started_owner_ok; [|done].
      cbn. apply lookup_insert_eq.
  - destruct (iv_owners w Hinv _ _ g Ho Hg) as (_ & Hop & _). cbn in Hop.
    destruct (ok_achieved w c (OpAcquire o) g Hinv Hrun Hop I Hg) as [Hach Hf].
    apply (deliver_inv w c); try done.
    + apply advances_refl.
    + eapply ended_handle; [exact Ho|]. by intros [?|?].
    + intros i x Hx. by left.
    + intros i x [?|[-> ->]]%insert_cases; [by left|]. right. apply owner_phase; try done; cbn.
      * apply lookup_delete_eq.
      * intros g0 Hg0. rewrite Hg in Hg0. injection Hg0 as <-. split; [done|done].
  - destruct (iv_owners w Hinv _ _ g Ho Hg) as (_ & Hop & Hph & _). cbn in Hop.
    destruct (Hph ltac:(done)) as [Hr0 Hf0]. cbn in Hr0, Hf0.
    assert (c <> c0) as Hne by congruence.
    apply (start_inv w c (OpRelease o)); try done.
    + apply (pos_round w (OpRelease o) 10 false).
    + apply advances_refl.
    + eapply ended_handle; [exact Ho|]. intros _. by left.
    + exists c0, Ending. cbn. split; [apply lookup_insert_eq|by left].
    + intros i x Hx. by left.
    + intros i x [?|[-> ->]]%insert_cases; [by left|]. right. apply owner_phase; try done; cbn; by rewrite lookup_insert_ne.
  - destruct (iv_owners w Hinv _ _ g Ho Hg) as (_ & Hop0 & Hph & _). cbn in Hop0.
    destruct (Hph ltac:(done)) as [Hr0 Hf0]. cbn in Hr0, Hf0.
    destruct (ok_achieved w c (OpRelease o) g Hinv Hrun Hop I Hg) as [Hach Hf].
    apply (deliver_inv w c); try done.
    + apply advances_refl.
    + eapply ended_handle; [exact Ho|]. intros _. by right.
    + intros i x Hx. by left.
    + intros i x [?|[-> ->]]%insert_cases; [by left|]. right. apply owner_phase; try done; cbn.
      * apply lookup_delete_None. by right.
      * intros g0 Hg0. rewrite Hg in Hg0. injection Hg0 as <-. split; [done|done].
Qed.

Lemma reachable_inv w : reachable w -> inv w.
Proof using Hid.
  induction 1 as [w ((g & Hg & Hv) & Hu & Hp & Ho & Hr & Hh & Hw)|w w' _ IH Hs]; [|by eapply step_inv].
  split; rewrite ?Hu, ?Hp, ?Ho, ?Hr, ?Hh, ?Hw.
  - by apply elem_of_singleton.
  - exists g. split; [done|]. by apply Gate_validate_spec.
  - intros c et b H. by apply elem_of_nil in H.
  - intros c p H. by rewrite lookup_empty in H.
  - intros c op H. by rewrite lookup_empty in H.
  - intros i x g0 H. by rewrite lookup_empty in H.
  - intros i x g0 H. by rewrite lookup_empty in H.
Qed.
End Protocol.

(** ** What the protocol guarantees *)

(** C1: Mutual exclusion, from the side of a backup or restore.  In every reachable state of any number of
    concurrent processes, with lost answers, delayed writes and crashes, an admitted and not yet closed
    holder is in the stored gate, the gate has no owner, and no garbage collector is active. *)
Theorem gate_hold_excludes_gc r w i x :
  Identity_Validate (r_id r) = Ok () -> reachable r w -> w_holds w !! i = Some x -> hd_phase x = Active ->
  (exists g, strict (w_body w) gateLimit = Ok g /\ hd_value x ∈ holders_of g /\ g_Owner g = None)
  /\ (forall j y, w_owners w !! j = Some y -> hd_phase y <> Active).
Proof.
  intros Hid Hr Hx Hp. pose proof (reachable_inv r Hid w Hr) as Hinv. destruct (iv_gate r w Hinv) as (g & Hg & Hok).
  destruct (iv_holds r w Hinv i x g Hx Hg) as (_ & _ & _ & _ & Hin & _). specialize (Hin Hp).
  assert (g_Owner g = None) as Ho.
  { destruct (g_Owner g) as [o|] eqn:E; [|done]. destruct (gk_owner _ _ Hok o E) as [Hl _].
    rewrite Hl in Hin. by apply elem_of_nil in Hin. }
  split; [by exists g|]. intros j y Hy Hq.
  destruct (iv_owners r w Hinv j y g Hy Hg) as (_ & _ & _ & Hown & _). specialize (Hown Hq). congruence.
Qed.

(** C2: Mutual exclusion, from the side of garbage collection.  An active collector is the
    owner stored in the gate, the gate has no holder at all (no backup, no restore reader and no
    restore lifetime), no process-bound holder is active, and no other collector is. *)
Theorem gate_gc_excludes_all r w i x :
  Identity_Validate (r_id r) = Ok () -> reachable r w -> w_owners w !! i = Some x -> hd_phase x = Active ->
  (exists g, strict (w_body w) gateLimit = Ok g /\ g_Owner g = Some (hd_value x) /\ holders_of g = [])
  /\ (forall j y, w_holds w !! j = Some y -> hd_phase y <> Active)
  /\ (forall j y, w_owners w !! j = Some y -> hd_phase y = Active -> j = i).
Proof.
  intros Hid Hr Hx Hp. pose proof (reachable_inv r Hid w Hr) as Hinv. destruct (iv_gate r w Hinv) as (g & Hg & Hok).
  destruct (iv_owners r w Hinv i x g Hx Hg) as (Ei & _ & _ & Hown & _). specialize (Hown Hp).
  destruct (gk_owner _ _ Hok _ Hown) as [Hl _]. split_and!; [by exists g| |].
  - intros j y Hy Hq. destruct (iv_holds r w Hinv j y g Hy Hg) as (_ & _ & _ & _ & Hin & _). specialize (Hin Hq).
    rewrite Hl in Hin. by apply elem_of_nil in Hin.
  - intros j y Hy Hq. destruct (iv_owners r w Hinv j y g Hy Hg) as (Ej & _ & _ & Hown' & _). specialize (Hown' Hq).
    congruence.
Qed.

(** A release that returned success is final: a closed holder is not in the stored gate and a released
    collector is not its owner, in every later state, whatever delayed writes arrive. *)
Theorem gate_release_final r w :
  Identity_Validate (r_id r) = Ok () -> reachable r w ->
  exists g, strict (w_body w) gateLimit = Ok g /\ Gate_validate g (r_id r) = Ok ()
  /\ (forall i x, w_holds w !! i = Some x -> hd_phase x = Ended -> hd_value x ∉ holders_of g)
  /\ (forall i x, w_owners w !! i = Some x -> hd_phase x = Ended -> g_Owner g <> Some (hd_value x)).
Proof.
  intros Hid Hr. pose proof (reachable_inv r Hid w Hr) as Hinv. destruct (iv_gate r w Hinv) as (g & Hg & Hok).
  exists g. split_and!; [done|by apply Gate_validate_spec| |].
  - intros i x Hx Hp. destruct (iv_holds r w Hinv i x g Hx Hg) as (_ & _ & _ & _ & _ & Hn). auto.
  - intros i x Hx Hp. destruct (iv_owners r w Hinv i x g Hx Hg) as (_ & _ & _ & _ & Hn). auto.
Qed.

(** The barrier fences ambiguous writes.  Once an admission has returned success, no delayed PUT of
    the change that performed it can take effect any more, so the holder cannot reappear after it is closed. *)
Theorem gate_fencing r w i x etag b w' :
  Identity_Validate (r_id r) = Ok () -> reachable r w -> w_holds w !! i = Some x -> hd_phase x <> Starting ->
  (hd_starter x, etag, b) ∈ w_pending w -> ~ applied w etag b w'.
Proof.
  intros Hid Hr Hx Hp Hin (He & _). pose proof (reachable_inv r Hid w Hr) as Hinv.
  destruct (iv_gate r w Hinv) as (g & Hg & _). destruct (iv_holds r w Hinv i x g Hx Hg) as (_ & _ & _ & Hf & _).
  destruct (Hf Hp) as [_ Hfence]. by apply (Hfence etag b Hin).
Qed.

(** ** Progress without contention *)
(** One call of the change [c], answered by storage: every other process stands still. *)
Definition own_step (r : Repository) (c : nat) (w w' : world) : Prop :=
  exists p p' w1, w_running w !! c = Some p /\ calls r c p w w1 p' /\ w' = set_running w1 (<[c := p']> (w_running w1)).
Lemma own_reachable r c w w' : reachable r w -> own_step r c w w' -> reachable r w'.
Proof. intros Hr (p & p' & w1 & Hp & Hc & ->). eapply reach_step; [exact Hr|]. by econstructor. Qed.
Section Progress.
Context (r : Repository) (c : nat) (Q : world -> Prop).
Hypothesis Q_step : forall w w', Q w -> own_step r c w w' -> Q w'.

Lemma reach_call w {X} (e : event X) k x w' :
  Q w -> w_running w !! c = Some (Vis e k) -> answers r c e x w w' ->
  Q (set_running w' (<[c := k x]> (w_running w'))).
Proof. intros Hr Hrun Ha. apply (Q_step w); [done|]. exists (Vis e k), (k x), w'. split; [done|]. split; [by exists x|done]. Qed.

(** One round that reads the gate and sends its PUT, with the answer [x] and the world [w1]. *)
Lemma reach_round w rounds barrier f g g' n nonce x w1 :
  Q w -> w_running w !! c = Some (changeGate_loop r (S rounds) barrier f) ->
  strict (w_body w) gateLimit = Ok g -> Gate_validate g (r_id r) = Ok () -> plan_round barrier f g = Write g' n ->
  Gate_validate (next_gate g' n nonce) (r_id r) = Ok () -> len (Marshal (next_gate g' n nonce)) <= gateLimit ->
  (forall m, let b := Marshal (next_gate g' n nonce) in
    answers r c (PutFile (gate_key r) b (mkIntegrity (len b) (digest b)) (Match (w_etag w)) ∅) x
      (set_running w m) (set_running w1 m)) ->
  Q (set_running w1
    (<[c := after_put (fun b => changeGate_loop r rounds b f) barrier x]> (w_running w))).
Proof.
  intros Hr Hrun Hg Hv Hplan Hv2 Hlen Hput.
  pose (i := mkInfo (gate_key r) (w_etag w) 0 0 ∅).
  eapply (reach_call w (Read (gate_key r) gateLimit) _ (Ok (w_body w, i)) w) in Hr; [|exact Hrun|done].
  cbn [bind call fst snd] in Hr. rewrite Hg, Hv in Hr. cbn [bind done] in Hr. rewrite Hplan in Hr.
  eapply (reach_call _ UUID _ nonce) in Hr; [|by apply lookup_insert_eq|done].
  cbn [bind call] in Hr. unfold write_gate in Hr. rewrite Hv2 in Hr.
  destruct (Z.ltb_spec gateLimit (len (Marshal (next_gate g' n nonce)))); [lia|].
  eapply (reach_call _ (Local "temp") _ None) in Hr; [|by apply lookup_insert_eq|done].
  eapply (reach_call _ (Local "write") _ None) in Hr; [|by apply lookup_insert_eq|done].
  eapply (reach_call _ _ _ x) in Hr; [|by apply lookup_insert_eq|].
  2: { cbn [w_running set_running]. apply Hput. }
  cbn [w_running set_running bind call i_ETag i] in Hr. by rewrite !insert_insert_eq in Hr.
Qed.

(** The PUT is applied and acknowledged. *)
Lemma answered_applied w rounds barrier f g g' n nonce etag' :
  Q w -> w_running w !! c = Some (changeGate_loop r (S rounds) barrier f) ->
  strict (w_body w) gateLimit = Ok g -> Gate_validate g (r_id r) = Ok () -> plan_round barrier f g = Write g' n ->
  Gate_validate (next_gate g' n nonce) (r_id r) = Ok () -> len (Marshal (next_gate g' n nonce)) <= gateLimit ->
  etag' ∉ w_used w ->
  Q (set_running (set_object w (Marshal (next_gate g' n nonce)) etag')
    (<[c := if barrier then changeGate_loop r rounds false f else Ret (Ok ())]> (w_running w))).
Proof.
  intros Hr Hrun Hg Hv Hplan Hv2 Hlen Hn. pose (i := mkInfo (gate_key r) etag' 0 0 ∅).
  eapply (reach_round w rounds barrier f g g' n nonce (Ok i)
    (set_object w (Marshal (next_gate g' n nonce)) etag')) in Hr; try done.
  intros m b. split; [done|]. left. split; [|done]. split; [done|]. exists etag'. by split.
Qed.
(** The PUT is delayed and the caller sees an ambiguous error. *)
Lemma answered_delayed w rounds barrier f g g' n nonce :
  Q w -> w_running w !! c = Some (changeGate_loop r (S rounds) barrier f) ->
  strict (w_body w) gateLimit = Ok g -> Gate_validate g (r_id r) = Ok () -> plan_round barrier f g = Write g' n ->
  Gate_validate (next_gate g' n nonce) (r_id r) = Ok () -> len (Marshal (next_gate g' n nonce)) <= gateLimit ->
  Q (set_running (add_pending w (c, w_etag w, Marshal (next_gate g' n nonce)))
    (<[c := changeGate_loop r rounds true f]> (w_running w))).
Proof.
  intros Hr Hrun Hg Hv Hplan Hv2 Hlen.
  eapply (reach_round w rounds barrier f g g' n nonce (Err (S3 Unknown true))
    (add_pending w (c, w_etag w, Marshal (next_gate g' n nonce)))) in Hr; try done.
  intros m b. split; [done|]. right. right. split; [done|]. by eexists.
Qed.
End Progress.

Definition reach_applied r w c := answered_applied r c (reachable r) (own_reachable r c) w.
Definition reach_delayed r w c := answered_delayed r c (reachable r) (own_reachable r c) w.

(** C34: An uncontended change makes progress: if a change is about to start its round on a gate whose edit is valid and fits, and storage
    answers, calls of that process alone lead from this world to one in which it has returned success, with exactly that edit
    stored under the new version; the other processes, the handles and the delayed writes are untouched. *)
Theorem gate_uncontended_progress r w c f g g' n nonce etag' :
  w_running w !! c = Some (changeGate r f) ->
  strict (w_body w) gateLimit = Ok g -> Gate_validate g (r_id r) = Ok () -> plan_round false f g = Write g' n ->
  Gate_validate (next_gate g' n nonce) (r_id r) = Ok () -> len (Marshal (next_gate g' n nonce)) <= gateLimit ->
  etag' ∉ w_used w ->
  exists w', rtc (own_step r c) w w' /\ (reachable r w -> reachable r w') /\ w_body w' = Marshal (next_gate g' n nonce) /\ w_etag w' = etag'
    /\ w_running w' !! c = Some (Ret (Ok ())) /\ (forall d, d <> c -> w_running w' !! d = w_running w !! d)
    /\ w_pending w' = w_pending w /\ w_ops w' = w_ops w /\ w_holds w' = w_holds w /\ w_owners w' = w_owners w.
Proof.
  intros Hrun Hg Hv Hplan Hv2 Hlen Hn. eexists. split_and!.
  - eapply (answered_applied r c (rtc (own_step r c) w)); [intros; by eapply rtc_r|apply rtc_refl|done..].
  - intros Hr. by eapply reach_applied.
  - done.
  - done.
  - by apply lookup_insert_eq.
  - intros d Hd. by apply lookup_insert_ne.
  - done.
  - done.
  - done.
  - done.
Qed.

(** ** A concrete execution *)
Definition ex_process : string := "bbbbbbbb-bbbb-4bbb-8bbb-bbbbbbbbbbbb".
Definition ex_repo : Repository := mkRepository ex_identity (root_of (id_RepositoryID ex_identity)) ex_process.
Definition ex_holder : Holder :=
  mkHolder "dddddddd-dddd-4ddd-8ddd-dddddddddddd" "backup" (id_WriterClusterUID ex_identity)
    "eeeeeeee-eeee-4eee-8eee-eeeeeeeeeeee" (Some ex_process).
Definition ex_nonce : string := "cccccccc-cccc-4ccc-8ccc-cccccccccccc".
Definition ex_world0 : world := mkWorld (Marshal ex_gate) "e0" {["e0"]} [] ∅ ∅ ∅ ∅.
Lemma ex_reach0 : reachable ex_repo ex_world0.
Proof.
  apply reach_initial. split; [|done]. exists ex_gate. split; by vm_compute.
Qed.

(** An admission whose first PUT is delayed: a barrier, then the acknowledged write. *)
Definition ex_gate1 : Gate := next_gate (with_holders ex_gate [ex_holder]) 7 ex_nonce.
Definition ex_gate2 : Gate := next_gate ex_gate 7 ex_nonce.
Definition ex_gate3 : Gate := next_gate (with_holders ex_gate2 [ex_holder]) 8 ex_nonce.
Definition ex_admitted : world :=
  mkWorld (Marshal ex_gate3) "e2" ({["e2"]} ∪ ({["e1"]} ∪ {["e0"]})) [(0%nat, "e0", Marshal ex_gate1)]
    {[0%nat := OpAdd ex_holder]} ∅ {[ho_ID ex_holder := mkHandle ex_holder 0 Active]} ∅.
Lemma add_start h : Holder_validate h = Ok () -> addHolder ex_repo h = changeGate ex_repo (add_change h).
Proof. intros H. unfold addHolder, is_err. by rewrite H. Qed.
(** One round on concrete documents: the step lemma applied, its side conditions evaluated. *)
Ltac ex_side :=
  lazymatch goal with
  | |- _ ∉ _ => apply (bool_decide_unpack _); vm_compute; reflexivity
  | |- _ <= _ => vm_compute; discriminate
  | |- _ => vm_compute; reflexivity
  end.
Ltac ex_round H lemma :=
  let H' := fresh in
  match type of H with reachable _ ?w => pose proof (lemma w H) as H' end; clear H; rename H' into H;
  specialize (H (lookup_insert_eq _ _ _));
  repeat match type of H with ?P -> _ =>
    let Hp := fresh in assert P as Hp by ex_side; specialize (H Hp); clear Hp end;
  cbn [set_running set_object set_hold set_owner add_pending w_running w_holds start w_ops w_owners w_body w_etag
       w_used w_pending] in H;
  rewrite ?insert_insert_eq in H.
Lemma ex_reach_admitted : reachable ex_repo ex_admitted.
Proof.
  pose proof ex_reach0 as H.
  eapply reach_step in H; [|apply (step_admit _ _ 0%nat ex_holder); [done|done|by vm_compute|by vm_compute]].
  rewrite add_start in H by (by vm_compute).
  ex_round H (fun w => reach_delayed ex_repo w 0%nat 9 false (add_change ex_holder) ex_gate (with_holders ex_gate [ex_holder]) 7 ex_nonce).
  ex_round H (fun w => reach_applied ex_repo w 0%nat 8 true (add_change ex_holder) ex_gate ex_gate 7 ex_nonce "e1").
  ex_round H (fun w => reach_applied ex_repo w 0%nat 7 false (add_change ex_holder) ex_gate2 (with_holders ex_gate2 [ex_holder]) 8 ex_nonce "e2").
  eapply reach_step in H; [|apply (step_admitted _ _ 0%nat ex_holder); [apply lookup_insert_eq|reflexivity]].
  cbn [set_running set_hold w_running w_holds start w_ops w_owners w_body w_etag w_used w_pending] in H.
  rewrite ?insert_insert_eq, delete_insert_eq in H. exact H.
Qed.

(** A collector that acquired the gate. *)
Definition ex_gate_gc : Gate := next_gate (with_owner ex_gate (Some ex_owner)) 7 ex_nonce.
Definition ex_collecting : world :=
  mkWorld (Marshal ex_gate_gc) "e1" ({["e1"]} ∪ {["e0"]}) [] {[0%nat := OpAcquire ex_owner]} ∅ ∅
    {[ow_OperationID ex_owner := mkHandle ex_owner 0 Active]}.
Definition ex_acquiring : world :=
  set_owner (start ex_world0 0 (OpAcquire ex_owner) (changeGate ex_repo (acquire_change ex_owner))) ex_owner
    (mkHandle ex_owner 0 Starting).
Lemma ex_reach_acquiring : reachable ex_repo ex_acquiring.
Proof.
  assert (op_ok (OpAcquire ex_owner)) as Ho by (by vm_compute).
  exact (reach_step _ _ _ ex_reach0 (step_acquire ex_repo ex_world0 0%nat ex_owner eq_refl eq_refl Ho)).
Qed.
Lemma ex_reach_collecting : reachable ex_repo ex_collecting.
Proof.
  pose proof ex_reach_acquiring as H. unfold ex_acquiring in H.
  ex_round H (fun w => reach_applied ex_repo w 0%nat 9 false (acquire_change ex_owner) ex_gate
    (with_owner ex_gate (Some ex_owner)) 7 ex_nonce "e1").
  eapply reach_step in H; [|apply (step_acquired _ _ 0%nat ex_owner); [apply lookup_insert_eq|reflexivity]].
  cbn [set_running set_owner w_running w_holds start w_ops w_owners w_body w_etag w_used w_pending] in H.
  rewrite ?insert_insert_eq, delete_insert_eq in H. exact H.
Qed.

(** The holder of [ex_admitted] closed again. *)
Definition ex_gate4 : Gate := next_gate (with_holders ex_gate3 []) 9 ex_nonce.
Definition ex_closed : world :=
  mkWorld (Marshal ex_gate4) "e3" ({["e3"]} ∪ ({["e2"]} ∪ ({["e1"]} ∪ {["e0"]}))) [(0%nat, "e0", Marshal ex_gate1)]
    (<[1%nat := OpRemove ex_holder]> {[0%nat := OpAdd ex_holder]}) ∅
    {[ho_ID ex_holder := mkHandle ex_holder 0 Ended]} ∅.
Lemma ex_reach_closed : reachable ex_repo ex_closed.
Proof.
  pose proof ex_reach_admitted as H.
  eapply reach_step in H; [|apply (step_close _ _ 1%nat 0%nat ex_holder); [done|done]].
  unfold removeHolder in H.
  ex_round H (fun w => reach_applied ex_repo w 1%nat 9 false (remove_change ex_holder) ex_gate3
    (with_holders ex_gate3 []) 9 ex_nonce "e3").
  eapply reach_step in H; [|apply (step_closed _ _ 1%nat 0%nat ex_holder); [apply lookup_insert_eq|done|reflexivity]].
  cbn [set_running set_hold w_running w_holds start w_ops w_owners w_body w_etag w_used w_pending ex_admitted] in H.
  rewrite ?insert_insert_eq, delete_insert_eq in H. exact H.
Qed.

Lemma ex_identity_ok : Identity_Validate (r_id ex_repo) = Ok ().
Proof. vm_compute. reflexivity. Qed.

Lemma gate_hold_excludes_gc_witness :
  (exists g, strict (w_body ex_admitted) gateLimit = Ok g /\ ex_holder ∈ holders_of g /\ g_Owner g = None)
  /\ (forall j y, w_owners ex_admitted !! j = Some y -> hd_phase y <> Active).
Proof.
  exact (gate_hold_excludes_gc ex_repo ex_admitted (ho_ID ex_holder) (mkHandle ex_holder 0 Active)
    ex_identity_ok ex_reach_admitted eq_refl eq_refl).
Defined.
Lemma gate_gc_excludes_all_witness :
  (exists g, strict (w_body ex_collecting) gateLimit = Ok g /\ g_Owner g = Some ex_owner /\ holders_of g = [])
  /\ (forall j y, w_holds ex_collecting !! j = Some y -> hd_phase y <> Active)
  /\ (forall j y, w_owners ex_collecting !! j = Some y -> hd_phase y = Active -> j = ow_OperationID ex_owner).
Proof.
  exact (gate_gc_excludes_all ex_repo ex_collecting (ow_OperationID ex_owner) (mkHandle ex_owner 0 Active)
    ex_identity_ok ex_reach_collecting eq_refl eq_refl).
Defined.
Lemma gate_release_final_witness :
  w_holds ex_closed !! ho_ID ex_holder = Some (mkHandle ex_holder 0 Ended)
  /\ exists g, strict (w_body ex_closed) gateLimit = Ok g /\ Gate_validate g (r_id ex_repo) = Ok ()
  /\ (forall i x, w_holds ex_closed !! i = Some x -> hd_phase x = Ended -> hd_value x ∉ holders_of g)
  /\ (forall i x, w_owners ex_closed !! i = Some x -> hd_phase x = Ended -> g_Owner g <> Some (hd_value x)).
Proof. split; [done|]. exact (gate_release_final ex_repo ex_closed ex_identity_ok ex_reach_closed). Defined.
Lemma gate_fencing_witness :
  ~ applied ex_closed "e0" (Marshal ex_gate1) (set_object ex_closed (Marshal ex_gate1) "e4").
Proof.
  apply (gate_fencing ex_repo ex_closed (ho_ID ex_holder) (mkHandle ex_holder 0 Ended) "e0" (Marshal ex_gate1)).
  - exact ex_identity_ok.
  - exact ex_reach_closed.
  - done.
  - done.
  - left.
Defined.
Lemma gate_uncontended_progress_witness :
  exists w', rtc (own_step ex_repo 0%nat) ex_acquiring w' /\ (reachable ex_repo ex_acquiring -> reachable ex_repo w') /\ w_body w' = Marshal ex_gate_gc /\ w_etag w' = "e1"
    /\ w_running w' !! 0%nat = Some (Ret (Ok ()))
    /\ (forall d, d <> 0%nat -> w_running w' !! d = w_running ex_acquiring !! d)
    /\ w_pending w' = w_pending ex_acquiring /\ w_ops w' = w_ops ex_acquiring /\ w_holds w' = w_holds ex_acquiring /\ w_owners w' = w_owners ex_acquiring.
Proof.
  apply (gate_uncontended_progress ex_repo ex_acquiring 0%nat (acquire_change ex_owner) ex_gate
    (with_owner ex_gate (Some ex_owner)) 7 ex_nonce "e1" (lookup_insert_eq _ _ _)); ex_side.
Defined.
