(* ===== verification/Transfer.v ===== *)
(** * Verification of files and payloads (internal/repository/publication.go, catalog_integrity.go)

    [verifyFile] checks the stored bytes of an artifact against its size and digest and
    the raw bytes inside it against theirs; the functions above it download what a
    commit names and verify it.  The gzip decoder is a parameter: it maps stored bytes to
    the contents of their first member and what follows it. *)

From S2P Require Import Prelude GoStrings GoTime Sha256 Errors Schema Prog Store Json Documents Repository.

(** An open file: its bytes, and whether it is a regular file. *)
Record File := mkFile { f_bytes : string; f_regular : bool }.
(** What an artifact's record says of its file. *)
Record Expect := mkExpect { x_size : Z; x_hash : string; x_compression : string; x_raw : Z; x_rawhash : string }.
Definition expect_manifest (c : Commit) : Expect :=
  mkExpect (c_ManifestBytes c) (c_ManifestSHA256 c) "none" (c_ManifestBytes c) (c_ManifestSHA256 c).
Definition expect_artifact (a : Artifact) : Expect :=
  mkExpect (ar_StoredBytes a) (ar_StoredSHA256 a) (ar_Compression a) (ar_RawBytes a) (ar_RawSHA256 a).
Definition stored_integrity (x : Expect) : Integrity := mkIntegrity (x_size x) (x_hash x).

Section Transfer.
Context (gunzip : string -> option (string * string)) (r : Repository).

(** The raw bytes of a stored file: the file itself, or the only member of a gzip stream.
    [io.LimitReader(reader, raw+1)] never lets more than [raw+1] bytes through. *)
Definition raw_bytes (compression stored : string) : option string :=
  if compression ==? "gzip" then
    match gunzip stored with
    | Some (out, rest) => if rest ==? "" then Some out else None
    | None => None
    end
  else Some stored.

(** [io.CopyBuffer] through a [contextReader]: the context or the disk may stop it. *)
Definition copy_checks : prog (res ()) :=
  check_ctx ;;* let! e := call (Local "read") in Ret (lift e).

Definition verifyFile (f : option File) (x : Expect) : prog (res ()) :=
  match f with
  | None => fail ErrInvalid
  | Some f =>
      let! st := call (Local "stat") in
      match st with
      | Some e => fail e
      | None =>
          if negb (f_regular f) || (len (f_bytes f) !=? x_size x) then fail ErrCorrupt else
          copy_checks ;;*
          if digest (f_bytes f) !=? x_hash x then fail ErrCorrupt else
          if (x_compression x !=? "gzip") && (x_compression x !=? "none") then fail ErrInvalid else
          let! second := copy_checks in
          match second, raw_bytes (x_compression x) (f_bytes f) with
          | Ok (), Some raw => if (len raw !=? x_raw x) || (digest raw !=? x_rawhash x) then fail ErrCorrupt else done ()
          | _, _ => fail ErrCorrupt
          end
      end
  end.

Definition downloadVerify (key : string) (x : Expect) : prog (res ()) :=
  let! t := call (Local "temp") in
  match t with
  | Some e => fail e
  | None =>
      let* b := call (Download key (stored_integrity x)) in
      verifyFile (Some (mkFile b true)) x
  end.

Definition manifest_key (c : Commit) : string := attempt r (c_BackupUID c) (c_AttemptID c) +:+ "manifest.pg.json".
Definition verifyPayload (c : Commit) : prog (res ()) :=
  downloadVerify (manifest_key c) (expect_manifest c) ;;*
  visit_all (c_Artifacts c) () (fun _ a => downloadVerify (artifact r c a) (expect_artifact a)).

Definition parent (c : Commit) : prog (res ()) :=
  if c_Kind c ==? "full" then done () else
  let* p := readParent r c in verifyPayload p.

Definition verifyWinner (c : Commit) (b : string) : prog (res ()) :=
  live r c b ;;* requestFor r c ;;* parent c ;;* verifyPayload c.

Definition payloadMetadata (c : Commit) : prog (res ()) :=
  downloadVerify (manifest_key c) (expect_manifest c) ;;*
  visit_all (c_Artifacts c) () (fun _ a =>
    let* i := call (Head (artifact r c a)) in
    if (i_Size i !=? ar_StoredBytes a) || (i_ETag i ==? "") then fail ErrCorrupt else done ()).

Definition parentMetadata (c : Commit) : prog (res ()) :=
  if c_Kind c ==? "full" then done () else
  let* p := readParent r c in payloadMetadata p.
End Transfer.

(** ** What a verified payload is *)
Section Evidence.
Context (gunzip : string -> option (string * string)) (r : Repository).

Definition matches (x : Expect) (b : string) : Prop :=
  len b = x_size x /\ digest b = x_hash x
  /\ exists raw, raw_bytes gunzip (x_compression x) b = Some raw /\ len raw = x_raw x /\ digest raw = x_rawhash x.
(** The object was downloaded, and the bytes received are the expected ones. *)
Definition fetched (key : string) (x : Expect) (tr : trace) : Prop :=
  exists b, Act (Download key (stored_integrity x)) (Ok b) ∈ tr /\ matches x b.
Definition payload_fetched (c : Commit) (tr : trace) : Prop :=
  fetched (manifest_key r c) (expect_manifest c) tr
  /\ Forall (fun a => fetched (artifact r c a) (expect_artifact a) tr) (c_Artifacts c).
Definition parent_fetched (c : Commit) (tr : trace) : Prop :=
  c_Kind c = "full" \/ exists p, parent_read r c p tr /\ payload_fetched p tr.
(** [c] was usable when it was checked: live, properly requested and claimed, its
    full parent too, and every byte of both payloads verified. *)
Definition usable (c : Commit) (tr : trace) : Prop :=
  not_retired r (c_BackupUID c) tr /\ (exists req, requested r c req tr) /\ parent_fetched c tr /\ payload_fetched c tr.

Lemma fetched_stable key x : stable (fetched key x).
Proof. intros tr tr' He (b & H1 & H2). exists b. split; [by eapply extends_elem|done]. Qed.
Lemma payload_fetched_stable c : stable (payload_fetched c).
Proof.
  intros tr tr' He [H1 H2]. split; [by eapply fetched_stable|]. eapply Forall_impl; [exact H2|].
  intros a Ha. by eapply fetched_stable.
Qed.
Lemma parent_fetched_stable c : stable (parent_fetched c).
Proof.
  intros tr tr' He [H|(p & H1 & H2)]; [by left|]. right. exists p.
  split; [by eapply parent_read_stable|by eapply payload_fetched_stable].
Qed.

Lemma copy_checks_proves : proves copy_checks (fun _ _ => True).
Proof.
  eapply (proves_bindE _ _ (fun _ _ => True)); [done|apply proves_check_ctx|]. intros [].
  apply proves_bind; [by apply reads_local|]. intros [e|]; [apply proves_fail|by apply proves_done].
Qed.
Lemma verifyFile_proves f x : proves (verifyFile gunzip (Some f) x) (fun _ _ => matches x (f_bytes f)).
Proof.
  unfold verifyFile. apply proves_bind; [by apply reads_local|]. intros [e|]; [apply proves_fail|].
  destruct (negb (f_regular f) || _) eqn:Es; [apply proves_fail|].
  eapply (proves_bindE _ _ (fun _ _ => True)); [done|apply copy_checks_proves|]. intros [].
  destruct (digest (f_bytes f) !=? x_hash x) eqn:Eh; [apply proves_fail|]. destruct (_ && _); [apply proves_fail|].
  apply proves_bind; [eapply reads_mono; [|apply copy_checks_proves]; done|]. intros [[]|e]; [|apply proves_fail].
  destruct (raw_bytes _ _ _) as [raw|] eqn:Er; [|apply proves_fail].
  reject as Ec. apply proves_done. intros tr _. bool_split.
  split; [done|]. split; [done|]. by exists raw.
Qed.
Lemma downloadVerify_proves key x : proves (downloadVerify gunzip key x) (fun _ => fetched key x).
Proof.
  unfold downloadVerify. apply proves_bind; [by apply reads_local|]. intros [e|]; [apply proves_fail|].
  eapply proves_bindE; [|by apply proves_call|]; [intros a; apply stable_elem|]. intros b.
  eapply proves_mono; [|apply verifyFile_proves]. intros [] tr Hm Hin. by exists b.
Qed.
Lemma verifyPayload_proves c : proves (verifyPayload gunzip r c) (fun _ => payload_fetched c).
Proof.
  unfold verifyPayload. eapply proves_bindE; [|apply downloadVerify_proves|]; [intros []; apply fetched_stable|]. intros [].
  eapply proves_mono; [|apply (proves_visit_all _ _ (fun a => fetched (artifact r c a) (expect_artifact a)))].
  - intros [] tr Hl Hm. by split.
  - intros a. apply fetched_stable.
  - intros a _. apply downloadVerify_proves.
Qed.
Lemma parent_proves c : proves (parent gunzip r c) (fun _ => parent_fetched c).
Proof.
  unfold parent. destruct (c_Kind c ==? "full") eqn:Ek; bool_split; [apply proves_done; intros tr; by left|].
  eapply proves_bindE; [|apply readParent_proves|]; [intros p; apply parent_read_stable|]. intros p.
  eapply proves_mono; [|apply verifyPayload_proves]. intros [] tr Hp Hr. right. by exists p.
Qed.
Lemma verifyWinner_proves c b : proves (verifyWinner gunzip r c b) (fun _ => usable c).
Proof.
  unfold verifyWinner. eapply proves_bindE; [|apply live_proves|]; [intros []; apply not_retired_stable|]. intros [].
  eapply proves_bindE; [|apply requestFor_proves|]; [intros req; apply requested_stable|]. intros req.
  eapply proves_bindE; [|apply parent_proves|]; [intros []; apply parent_fetched_stable|]. intros [].
  eapply proves_mono; [|apply verifyPayload_proves]. intros [] tr H1 H2 H3 H4. split_and!; eauto.
Qed.

(** What the catalog verifies of a live commit: its manifest's bytes, its artifacts' sizes. *)
Definition headed (key : string) (size : Z) (tr : trace) : Prop :=
  exists i, Act (Head key) (Ok i) ∈ tr /\ i_Size i = size.
Definition metadata_fetched (c : Commit) (tr : trace) : Prop :=
  fetched (manifest_key r c) (expect_manifest c) tr
  /\ Forall (fun a => headed (artifact r c a) (ar_StoredBytes a) tr) (c_Artifacts c).
Definition parent_metadata_fetched (c : Commit) (tr : trace) : Prop :=
  c_Kind c = "full" \/ exists p, parent_read r c p tr /\ metadata_fetched p tr.

Lemma headed_stable key size : stable (headed key size).
Proof. intros tr tr' He (i & H1 & H2). exists i. split; [by eapply extends_elem|done]. Qed.
Lemma metadata_fetched_stable c : stable (metadata_fetched c).
Proof.
  intros tr tr' He [H1 H2]. split; [by eapply fetched_stable|]. eapply Forall_impl; [exact H2|].
  intros a Ha. by eapply headed_stable.
Qed.
Lemma parent_metadata_stable c : stable (parent_metadata_fetched c).
Proof.
  intros tr tr' He [H|(p & H1 & H2)]; [by left|]. right. exists p.
  split; [by eapply parent_read_stable|by eapply metadata_fetched_stable].
Qed.
Lemma payloadMetadata_proves c : proves (payloadMetadata gunzip r c) (fun _ => metadata_fetched c).
Proof.
  unfold payloadMetadata. eapply proves_bindE; [|apply downloadVerify_proves|]; [intros []; apply fetched_stable|]. intros [].
  eapply proves_mono; [|apply (proves_visit_all _ _ (fun a => headed (artifact r c a) (ar_StoredBytes a)))].
  - intros [] tr Hl Hm. by split.
  - intros a. apply headed_stable.
  - intros a _. seen (proves_call (Head (artifact r c a)) eq_refl) with stable_elem. intros i.
    reject as E. apply proves_done. intros tr H. bool_split. by exists i.
Qed.
Lemma parentMetadata_proves c : proves (parentMetadata gunzip r c) (fun _ => parent_metadata_fetched c).
Proof.
  unfold parentMetadata. destruct (c_Kind c ==? "full") eqn:Ek; bool_split; [apply proves_done; intros tr; by left|].
  seen readParent_proves with parent_read_stable. intros p.
  eapply proves_mono; [|apply payloadMetadata_proves]. intros [] tr Hp Hr. right. by exists p.
Qed.
End Evidence.
