(* ===== verification/Memory.v ===== *)
(** * A concrete storage

    An in-memory bucket that answers every call of a [prog]: objects with ETags, multipart uploads, a
    clock and a source of identifiers.  It is used to run the programs on concrete repositories. *)

From S2P Require Import Prelude GoStrings GoTime Sha256 Errors Schema Prog Store Json Documents Repository Gate Transfer.

Record object := mkObject { ob_body : string; ob_info : Info }.
Record memory := mkMemory { me_objects : list (string * object); me_next : Z; me_now : Time; me_uploads : list Upload }.

Fixpoint find_object (key : string) (l : list (string * object)) : option object :=
  match l with [] => None | (k, o) :: l => if k ==? key then Some o else find_object key l end.
Definition remove_object (key : string) (l : list (string * object)) : list (string * object) :=
  List.filter (fun '(k, _) => k !=? key) l.
Definition less_key (a b : string * object) : bool := String.ltb a.1 b.1.
Definition store_object (m : memory) (key body : string) (metadata : gmap string string) : Info * memory :=
  let i := mkInfo key (FormatUint (me_next m)) (len body) (me_now m) metadata in
  (i, mkMemory ((key, mkObject body i) :: remove_object key (me_objects m)) (me_next m + 1) (me_now m) (me_uploads m)).
Definition memory_uuid (n : Z) : string := "00000000-0000-4000-8000-" +:+ pad 12 (fmt_uint false 16 n).

Definition memory_handler : handler memory := fun X e m =>
  match e in event X return X * memory with
  | UUID => (memory_uuid (me_next m), mkMemory (me_objects m) (me_next m + 1) (me_now m) (me_uploads m))
  | Now => (me_now m, m)
  | CtxErr => (None, m)
  | Sleep _ => (None, m)
  | Local _ => (None, m)
  | Disk _ => (None, m)
  | CheckBucketSafety => (Ok (), m)
  | CheckConditions _ => (Ok (), m)
  | Head key =>
      (match find_object key (me_objects m) with Some o => Ok (ob_info o) | None => Err (S3 HeadMissing false) end, m)
  | Read key limit =>
      (match find_object key (me_objects m) with
       | Some o => if limit <? len (ob_body o) then Err (S3 Limit false) else Ok (ob_body o, ob_info o)
       | None => Err (S3 NotFound false)
       end, m)
  | PutFile key body _ c metadata =>
      let allowed := match c, find_object key (me_objects m) with
                     | Create, None => true
                     | Match etag, Some o => i_ETag (ob_info o) ==? etag
                     | _, _ => false
                     end in
      if allowed then let '(i, m) := store_object m key body metadata in (Ok i, m) else (Err (S3 Precondition false), m)
  | UploadFile key body _ metadata => let '(i, m) := store_object m key body metadata in (Ok i, m)
  | Download key _ =>
      (match find_object key (me_objects m) with Some o => Ok (ob_body o) | None => Err (S3 NotFound false) end, m)
  | DownloadWAL key _ =>
      (match find_object key (me_objects m) with Some o => Ok (ob_body o, ob_info o) | None => Err (S3 NotFound false) end, m)
  | ListObjects prefix _ =>
      ((fun x => ob_info x.2) <$> sort_slice less_key (List.filter (fun x => HasPrefix x.1 prefix) (me_objects m)), Ok (), m)
  | Delete key => (Ok (), mkMemory (remove_object key (me_objects m)) (me_next m) (me_now m) (me_uploads m))
  | AbortUpload u => (Ok (), mkMemory (me_objects m) (me_next m) (me_now m)
                               (List.filter (fun x => negb ((up_Key x ==? up_Key u) && (up_ID x ==? up_ID u))) (me_uploads m)))
  | ListUploads prefix _ => (List.filter (fun x => HasPrefix (up_Key x) prefix) (me_uploads m), Ok (), m)
  | Caller _ _ => (Ok (), m)
  end.

Definition memory_of (now : Time) (objects : list (string * string)) : memory :=
  foldl (fun m '(k, b) => (store_object m k b ∅).2) (mkMemory [] 1 now []) objects.

(** ** A repository with one full backup *)
Definition demo_process : string := "bbbbbbbb-bbbb-4bbb-8bbb-bbbbbbbbbbbb".
Definition demo : Repository := mkRepository ex_identity (root_of (id_RepositoryID ex_identity)) demo_process.
Definition demo_uid : string := c_BackupUID ex_commit.
Definition demo_request : Request :=
  mkRequest 1 (id_RepositoryID ex_identity) demo_uid (id_WriterClusterUID ex_identity) "full" None ex_hash.
Definition demo_claim : Claim :=
  mkClaim 1 (id_RepositoryID ex_identity) demo_uid (c_AttemptID ex_commit) demo_process (digest (Marshal demo_request)).
(** Every file of the backup is the three bytes whose digest is [ex_hash]. *)
Definition demo_file : string := "abc".
Definition demo_artifact (i : Z) (role : string) : Artifact := mkArtifact i role None "none" 3 3 ex_hash ex_hash.
Definition demo_commit : Commit :=
  mkCommit 1 (id_RepositoryID ex_identity) demo_uid (c_AttemptID ex_commit) (digest (Marshal demo_request)) "full" None demo_uid
    (id_SystemIdentifier ex_identity) 18 "18.6" 1 1 (c_CaptureInstanceUID ex_commit)
    "2024-05-01T10:30:00Z" "2024-05-01T11:00:00Z" "2024-05-01T11:05:00Z"
    "0/2000028" "0/2000100" "0/2000028" "0/2000000" "0/2000100"
    [mkWALRange 1 "0/2000000" "0/2000100"] "START WAL LOCATION: 0/2000028" "" None 3 ex_hash
    (Some []) [demo_artifact 0 "base"; demo_artifact 1 "wal"].
Definition demo_gate : Gate :=
  mkGate 1 (id_RepositoryID ex_identity) "7" "99999999-9999-4999-8999-999999999999" None (Some []).
Definition demo_now : Time := 1714562000 * second.
Definition demo_objects : list (string * string) :=
  [(r_root demo +:+ "repository.json", Marshal ex_identity);
   (r_root demo +:+ "gate.json", Marshal demo_gate);
   (backup demo demo_uid +:+ "request.json", Marshal demo_request);
   (attempt demo demo_uid (c_AttemptID ex_commit) +:+ "claim.json", Marshal demo_claim);
   (attempt demo demo_uid (c_AttemptID ex_commit) +:+ "manifest.pg.json", demo_file);
   (attempt demo demo_uid (c_AttemptID ex_commit) +:+ "data/0.tar", demo_file);
   (attempt demo demo_uid (c_AttemptID ex_commit) +:+ "data/1.tar", demo_file);
   (backup demo demo_uid +:+ "commit.json", Marshal demo_commit)].
Definition demo_memory : memory := memory_of demo_now demo_objects.
Definition no_gunzip (_ : string) : option (string * string) := None.
