(* ===== verification/Catalog.v ===== *)
(** * The protected catalog (internal/repository/catalog.go, backup_history.go)

    [spoolCatalog] lists every object under backups/, checks every key and every
    permanent document, and spools one entry per commit to a private file; [scanEntries]
    replays the file.  The private file is the list of the entries encoded into it. *)

From S2P Require Import Prelude GoStrings GoTime Sha256 Errors Schema Prog Store Json Documents Repository Gate Transfer Memory.

Record CatalogLimits := mkLimits { l_MaxRecords : Z; l_MaxSpoolBytes : Z }.
Definition CatalogLimits_validate (l : CatalogLimits) : res () :=
  if (l_MaxRecords l <? 1) || (MaxCatalogRecords <? l_MaxRecords l) || (l_MaxSpoolBytes l <? commitLimit)
     || (Z.shiftl 1 40 <? l_MaxSpoolBytes l)
  then Err ErrCapacity else Ok ().

Record Entry := mkEntry { en_Commit : Commit; en_CommitSHA256 : string; en_PublishedAt : Time; en_Retired : bool }.

(** [json.Marshal(entry)]: the struct has no tags; a time outside the years 0..9999 is refused. *)
Definition year_of (t : Time) : Z := (civil_from_days (t / second / 86400)).1.1.
Definition marshal_entry (en : Entry) : res string :=
  let y := year_of (en_PublishedAt en) in
  if (y <? 0) || (9999 <? y) then Err ErrOther else
  Ok (print (JObject [("Commit", to_json (en_Commit en)); ("CommitSHA256", JText (en_CommitSHA256 en));
                      ("PublishedAt", JText (format_rfc3339nano (en_PublishedAt en))); ("Retired", JBool (en_Retired en))])).

Section Catalog.
Context (gunzip : string -> option (string * string)) (r : Repository).

(** The visitor's state: live commits counted, bytes spooled, entries written. *)
Record spool := mkSpool { sp_count : Z; sp_size : Z; sp_entries : list Entry }.

Definition spool_entry (l : CatalogLimits) (st : spool) (count : Z) (en : Entry) : prog (res spool) :=
  match marshal_entry en with
  | Err e => fail e
  | Ok eb =>
      let size := sp_size st + (len eb + 1) in
      if l_MaxSpoolBytes l <? size then fail ErrCapacity else
      let! w := call (Local "encode") in
      match w with Some e => fail e | None => done (mkSpool count size (sp_entries st ++ [en])) end
  end.

Definition spool_visit (l : CatalogLimits) (st : spool) (i : Info) : prog (res spool) :=
  match catalogKey (r_root r) (i_Key i) with
  | None => fail ErrCorrupt
  | Some (uid, kind) =>
      if kind !=? "commit" then validateListedMetadata r (i_Key i) ;;* done st else
      let* (c, b, info) := readCommit r uid in
      requestFor r c ;;*
      let! lv := live r c b in
      match lv with
      | Ok () =>
          let count := sp_count st + 1 in
          if l_MaxRecords l <? count then fail ErrCapacity else
          parentMetadata gunzip r c ;;*
          payloadMetadata gunzip r c ;;*
          spool_entry l st count (mkEntry c (digest b) (i_Modified info) false)
      | Err ErrRetired => spool_entry l st (sp_count st) (mkEntry c (digest b) (i_Modified info) true)
      | Err e => fail e
      end
  end.

Definition spoolCatalog (l : CatalogLimits) : prog (res (list Entry)) :=
  let! t := call (Local "temp") in
  match t with
  | Some e => fail e
  | None =>
      let* st := List (r_root r +:+ "backups/") MaxCatalogRecords (mkSpool 0 0 []) (spool_visit l) in
      let! s := call (Local "sync") in
      match s with
      | Some e => fail e
      | None => let! k := call (Local "seek") in match k with Some e => fail e | None => done (sp_entries st) end
      end
  end.

(** Replay: the context is also checked after the last entry. *)
Fixpoint scan_go {B} (entries : list Entry) (acc : B) (visit : B -> Entry -> prog (res B)) : prog (res B) :=
  check_ctx ;;*
  let! d := call (Local "decode") in
  match d with
  | Some e => fail e
  | None =>
      match entries with
      | [] => done acc
      | en :: entries => let* acc := visit acc en in scan_go entries acc visit
      end
  end.
Definition scanEntries {B} (entries : list Entry) (acc : B) (visit : B -> Entry -> prog (res B)) : prog (res B) :=
  let! s := call (Local "seek") in
  match s with Some e => fail e | None => scan_go entries acc visit end.

(** ** The catalog of a hold *)
Record Catalog := mkCatalog { ct_hold : Holder; ct_file : list Entry; ct_closed : bool }.
Definition Hold_Catalog (h : Hold) (limits : CatalogLimits) : prog (res Catalog) :=
  Hold_check r h ;;*
  match CatalogLimits_validate limits with
  | Err e => fail e
  | Ok () => let* f := spoolCatalog limits in done (mkCatalog (h_holder h) f false)
  end.
Definition Catalog_Visit {B} (h : Hold) (c : Catalog) (acc : B) (visit : B -> Entry -> prog (res B)) : prog (res B) :=
  if ct_closed c then fail ErrClosed else
  Hold_check r h ;;* scanEntries (ct_file c) acc visit.
Definition Catalog_Close (c : Catalog) : prog (Catalog * res ()) :=
  if ct_closed c then Ret (c, Ok ()) else
  let c := mkCatalog (ct_hold c) (ct_file c) true in
  let! e := call (Local "close") in
  let! re := call (Local "remove") in
  Ret (c, match e with Some e => Err e | None => lift re end).
End Catalog.

(** ** Publication history *)
Record BackupHistory := mkBackupHistory { bh_Full : Time; bh_Differential : Time }.

Definition history_visit (r : Repository) (acc : BackupHistory) (i : Info) : prog (res BackupHistory) :=
  check_ctx ;;*
  match catalogKey (r_root r) (i_Key i) with
  | None => fail ErrCorrupt
  | Some (uid, kind) =>
      if kind !=? "commit" then validateListedMetadata r (i_Key i) ;;* done acc else
      let* (c, _, published) := readCommit r uid in
      requestFor r c ;;*
      (if c_Kind c ==? "differential" then
         let* (p, _, _) := readCommit r (c_RootBackupUID c) in Ret (validateParent c p)
       else done ()) ;;*
      if IsZero (i_Modified published) || (i_Modified published / second <=? 0) then fail ErrCorrupt else
      done (if c_Kind c ==? "differential"
            then mkBackupHistory (bh_Full acc)
                   (if After (i_Modified published) (bh_Differential acc) then i_Modified published else bh_Differential acc)
            else mkBackupHistory
                   (if After (i_Modified published) (bh_Full acc) then i_Modified published else bh_Full acc)
                   (bh_Differential acc))
  end.

Definition ReadBackupHistory (repositoryID writerUID : string) : prog (res BackupHistory) :=
  if negb (validID repositoryID) || negb (validID writerUID) then fail ErrInvalid else
  let root := root_of repositoryID in
  let* (b, _) := call (Read (root +:+ "repository.json") smallLimit) in
  match strict b smallLimit with
  | Err _ => fail ErrIdentity
  | Ok id =>
      if is_err (Identity_Validate id) || (id_RepositoryID id !=? repositoryID) || (id_WriterClusterUID id !=? writerUID)
      then fail ErrIdentity else
      let r := mkRepository id root "" in
      let* acc := List (root +:+ "backups/") MaxCatalogRecords (mkBackupHistory zero_time zero_time) (history_visit r) in
      check_ctx ;;* done acc
  end.

(** ** The catalog is complete *)
Section Complete.
Context (gunzip : string -> option (string * string)) (r : Repository).

Definition commit_uid (i : Info) : option string :=
  match catalogKey (r_root r) (i_Key i) with Some (uid, kind) => if kind ==? "commit" then Some uid else None | None => None end.
Definition recognized (i : Info) : Prop := is_Some (catalogKey (r_root r) (i_Key i)).
(** An entry is what was read: the commit, its digest and publication time, its frozen request; a live
    entry was not retired, and its own and its parent's manifest and artifacts were found. *)
Definition entry_seen (en : Entry) (tr : trace) : Prop :=
  exists b i req, commit_read r (c_BackupUID (en_Commit en)) (en_Commit en, b, i) tr
  /\ en_CommitSHA256 en = digest b /\ en_PublishedAt en = i_Modified i
  /\ requested r (en_Commit en) req tr
  /\ (en_Retired en = false -> not_retired r (c_BackupUID (en_Commit en)) tr
      /\ parent_metadata_fetched gunzip r (en_Commit en) tr /\ metadata_fetched gunzip r (en_Commit en) tr).
Definition spool_inv (items : list Info) (st : spool) (tr : trace) : Prop :=
  Forall recognized items /\ (fun en => c_BackupUID (en_Commit en)) <$> sp_entries st = omap commit_uid items
  /\ Forall (fun en => entry_seen en tr) (sp_entries st).

Lemma entry_seen_stable en : stable (entry_seen en).
Proof.
  intros tr tr' He (b & i & req & H1 & H2 & H3 & H4 & H5). exists b, i, req.
  split_and!; [by eapply commit_read_stable|done|done|by eapply requested_stable|]. intros Hr.
  destruct (H5 Hr) as (H6 & H7 & H8).
  split_and!; [by eapply not_retired_stable|by eapply parent_metadata_stable|by eapply metadata_fetched_stable].
Qed.
Lemma spool_inv_stable items st : stable (spool_inv items st).
Proof.
  intros tr tr' He (H1 & H2 & H3). split_and!; [done|done|]. eapply Forall_impl; [exact H3|].
  intros en Hen. by eapply entry_seen_stable.
Qed.

Lemma spool_entry_proves l st count en items i : recognized i ->
  proves (spool_entry l st count en)
    (fun st' tr => commit_uid i = Some (c_BackupUID (en_Commit en)) -> entry_seen en tr ->
                   spool_inv items st tr -> spool_inv (items ++ [i]) st' tr).
Proof.
  intros Hr. unfold spool_entry. destruct (marshal_entry en) as [eb|]; [|apply proves_fail]. reject as Es.
  apply proves_bind; [by apply reads_local|]. intros [e|]; [apply proves_fail|]. apply proves_done.
  intros tr Hi Hen (H1 & H2 & H3). unfold spool_inv. cbn. split_and!.
  - apply Forall_app. split; [done|by apply Forall_singleton].
  - rewrite fmap_app, omap_app, H2. cbn. by rewrite Hi.
  - apply Forall_app. split; [done|by apply Forall_singleton].
Qed.

Lemma spool_visit_proves l items st i :
  proves (spool_visit gunzip r l st i) (fun st' tr => spool_inv items st tr -> spool_inv (items ++ [i]) st' tr).
Proof.
  unfold spool_visit. destruct (catalogKey (r_root r) (i_Key i)) as [[uid kind]|] eqn:Ek; [|apply proves_fail].
  assert (recognized i) as Hrec by (by exists (uid, kind)).
  destruct (kind !=? "commit") eqn:Ekind; bool_split.
  { eapply (proves_bindE _ _ (fun _ _ => True)); [done|apply validateListedMetadata_reads|]. intros [].
    apply proves_done. intros tr _ (H1 & H2 & H3). split_and!; [apply Forall_app; split; [done|by apply Forall_singleton]| |done].
    rewrite omap_app, H2. cbn. unfold commit_uid. rewrite Ek. rewrite bool_decide_eq_false_2 by done. cbn. by rewrite app_nil_r. }
  seen readCommit_proves with commit_read_stable. intros [[c b] info].
  seen requestFor_proves with requested_stable. intros req.
  assert (commit_uid i = Some uid) as Hu by (unfold commit_uid; by rewrite Ek, bool_decide_eq_true_2).
  eapply reads_bind; [apply live_proves|]. intros [[]|e].
  - eapply reads_mono; [|refine (_ : proves _ (fun st' tr' => not_retired r (c_BackupUID c) tr' ->
      requested r c req tr' -> commit_read r uid (c, b, info) tr' -> spool_inv items st tr' -> spool_inv (items ++ [i]) st' tr'))].
    { intros tr' [st'|e]; [|done]. intros H tr Hq Hl H1 H2 H3. apply H; try done.
      eapply not_retired_stable; [by apply quiet_extends|done]. }
    reject as Ec. seen parentMetadata_proves with parent_metadata_stable. intros [].
    seen payloadMetadata_proves with metadata_fetched_stable. intros [].
    eapply proves_mono; [|by apply (spool_entry_proves _ _ _ _ items i)]. intros st' tr H Hm Hp Hl Hreq Hc.
    assert (c_BackupUID c = uid) as <- by apply Hc. apply H; [done|]. by exists b, info, req.
  - destruct e; try by apply reads_ret.
    eapply reads_mono; [|by apply (spool_entry_proves l st (sp_count st) (mkEntry c (digest b) (i_Modified info) true) items i)].
    intros tr' [st'|e]; [|done]. intros H tr Hq _ H1 H2 H3.
    assert (c_BackupUID c = uid) as <- by apply H2. apply H; [done| |done]. by exists b, info, req.
Qed.

Lemma spoolCatalog_proves l :
  proves (spoolCatalog gunzip r l) (fun entries tr =>
    exists items, Act (ListObjects (r_root r +:+ "backups/") MaxCatalogRecords) (items, Ok ()) ∈ tr
    /\ Forall recognized items /\ (fun en => c_BackupUID (en_Commit en)) <$> entries = omap commit_uid items
    /\ Forall (fun en => entry_seen en tr) entries).
Proof.
  unfold spoolCatalog. apply proves_bind; [by apply reads_local|]. intros [e|]; [apply proves_fail|].
  eapply (proves_bindE _ _ (fun st tr => exists items,
    Act (ListObjects (r_root r +:+ "backups/") MaxCatalogRecords) (items, Ok ()) ∈ tr /\ spool_inv items st tr)).
  - intros st tr tr' He (items & H1 & H2). exists items. split; [by eapply extends_elem|by eapply spool_inv_stable].
  - apply proves_List; [apply spool_inv_stable| |apply spool_visit_proves]. intros tr. by split_and!.
  - intros st. apply proves_bind; [by apply reads_local|]. intros [e|]; [apply proves_fail|].
    apply proves_bind; [by apply reads_local|]. intros [e|]; [apply proves_fail|].
    apply proves_done. intros tr (items & H1 & H2 & H3 & H4). by exists items.
Qed.
End Complete.

(** The catalog is complete and honest.  When [spoolCatalog] succeeds, its run contains a listing of
    the whole backups/ prefix that ended without error, every listed key was one the repository writes, and
    the entries are exactly the listed commits, in order: each is the strictly decoded and valid content
    of its commit.json with the digest and time of that read, tied to its frozen request and claim; an
    entry not marked retired had no retirement marker, and the manifests and artifacts of it and of its parent were found. *)
Theorem catalog_complete gunzip r l tr tr' entries :
  runs (spoolCatalog gunzip r l) tr tr' (Ok entries) ->
  exists items, Act (ListObjects (r_root r +:+ "backups/") MaxCatalogRecords) (items, Ok ()) ∈ tr'
  /\ Forall (recognized r) items /\ (fun en => c_BackupUID (en_Commit en)) <$> entries = omap (commit_uid r) items
  /\ Forall (fun en => entry_seen gunzip r en tr') entries.
Proof.
  intros Hr. pose proof (spoolCatalog_proves gunzip r l (fun _ _ _ => True) tr) as H.
  eapply wp_runs in H; [|done|exact Hr]. by destruct H as [_ H].
Qed.

(** The catalog of a repository with one full backup. *)
Definition demo_limits : CatalogLimits := mkLimits 10 commitLimit.
Definition demo_entries : list Entry := [mkEntry demo_commit (digest (Marshal demo_commit)) demo_now false].
Lemma demo_catalog : (run memory_handler (spoolCatalog no_gunzip demo demo_limits) demo_memory).1 = Ok demo_entries.
Proof. vm_compute. reflexivity. Qed.
Lemma catalog_complete_witness : exists tr' items,
  Act (ListObjects (r_root demo +:+ "backups/") MaxCatalogRecords) (items, Ok ()) ∈ tr'
  /\ Forall (recognized demo) items /\ omap (commit_uid demo) items = [demo_uid]
  /\ Forall (fun en => entry_seen no_gunzip demo en tr') demo_entries.
Proof.
  destruct (run_runs memory_handler (spoolCatalog no_gunzip demo demo_limits) demo_memory []) as [tr' Hr].
  rewrite demo_catalog in Hr. exists tr'.
  destruct (catalog_complete no_gunzip demo demo_limits [] tr' demo_entries Hr) as (items & H1 & H2 & H3 & H4).
  exists items. by split_and!.
Defined.
