(* ===== verification/Publication.v ===== *)
(** * Publication (internal/repository/publication.go, differential.go)

    [begin] freezes the request and claims an attempt, or replays a winner; [publish] uploads and
    verifies every byte before it creates commit.json and then reads the winner back.  An
    ambiguous answer to a mutation latches the hold as uncertain. *)

From S2P Require Import Prelude GoStrings GoTime Sha256 Errors Schema Prog Store Json Documents Repository Gate Transfer.
From S2P Require Import Memory RecoveryPlan Catalog.

Record Result := mkResult { rs_Commit : Commit; rs_Bytes : string; rs_PublishedAt : Time }.
(** The hold of an attempt is passed beside it. *)
Record Attempt := mkAttempt { at_request : Request; at_claim : Claim; at_used : bool }.
Inductive Begun := Fresh (a : Attempt) | Winner (w : Result).

(** [if ambiguous(e) { h.uncertain = true }] *)
Definition latch (h : Hold) (e : error) : Hold :=
  if ambiguous e then mkHold (h_holder h) (h_closed h) true else h.
Definition latch_res {A} (h : Hold) (x : res A) : Hold := match x with Ok _ => h | Err e => latch h e end.
(** A step that leaves the hold as it is; its error ends the call. *)
Definition stepH {A B} (h : Hold) (p : prog (res A)) (k : A -> prog (Hold * res B)) : prog (Hold * res B) :=
  bind p (fun x => match x with Ok a => k a | Err e => Ret (h, Err e) end).
Definition failH {B} (h : Hold) (e : error) : prog (Hold * res B) := Ret (h, Err e).
Notation "'let@' h x := p 'in' k" := (stepH h p (fun x => k))
  (at level 10, h at level 9, x pattern, p at level 100, k at level 200) : prog_scope.

Section Publication.
Context (gunzip : string -> option (string * string)) (r : Repository).

(** ** Begin *)
(** After the request is frozen: replay the winner, or claim a fresh attempt. *)
Definition claim_attempt (h : Hold) (req : Request) (rb : string) : prog (Hold * res Begun) :=
  let! att := call UUID in
  let cl := mkClaim 1 (id_RepositoryID (r_id r)) (rq_BackupUID req) att (r_process r) (digest rb) in
  let! w := put (attempt r (rq_BackupUID req) att +:+ "claim.json") (Marshal cl) Create ∅ in
  match w with
  | Err e => Ret (latch h e, Err e)
  | Ok _ => Ret (h, Ok (Fresh (mkAttempt req cl false)))
  end.
Definition begin_root (h : Hold) (req : Request) (rb : string) : prog (Hold * res Begun) :=
  match rq_RootBackupUID req with
  | None => claim_attempt h req rb
  | Some root =>
      let@ h (p, pb, _) := readCommit r root in
      if c_Kind p !=? "full" then failH h ErrCorrupt else
      let@ h _ := verifyWinner gunzip r p pb in
      claim_attempt h req rb
  end.
Definition begin_commit (h : Hold) (req : Request) (rb : string) : prog (Hold * res Begun) :=
  let! x := readCommit r (rq_BackupUID req) in
  match x with
  | Ok (c, cb, info) =>
      if c_RequestSHA256 c !=? digest rb then failH h ErrIdentity else
      let@ h _ := verifyWinner gunzip r c cb in
      Ret (h, Ok (Winner (mkResult c cb (i_Modified info))))
  | Err e =>
      if negb (Is e NotFound) then failH h e else
      if h_uncertain h then failH h ErrUncertain else
      begin_root h req rb
  end.
(** The request is created, or an existing one is exactly the same document. *)
Definition freeze_request (h : Hold) (req : Request) (rb : string) (k : Hold -> prog (Hold * res Begun))
  : prog (Hold * res Begun) :=
  let key := backup r (rq_BackupUID req) +:+ "request.json" in
  let! w := put key rb Create ∅ in
  let h := latch_res h w in
  match w with
  | Ok _ => k h
  | Err e =>
      let! got := call (Read key smallLimit) in
      match got with
      | Err _ => failH h e
      | Ok (got, _) =>
          if is_err (strict got smallLimit : res Request) || (digest got !=? digest rb) then failH h ErrIdentity else k h
      end
  end.
Definition begin (h : Hold) (req : Request) : prog (Hold * res Begun) :=
  let@ h _ := Hold_check r h in
  if (ho_Kind (h_holder h) !=? "backup") || (rq_BackupUID req !=? ho_OperationID (h_holder h)) then failH h ErrIdentity else
  match Request_validate req (r_id r) with
  | Err e => failH h e
  | Ok () => let rb := Marshal req in freeze_request h req rb (fun h => begin_commit h req rb)
  end.

(** ** Publish *)
(** [UploadFile] of the manifest or of one artifact *)
Definition body_of (f : option File) : string := from_option f_bytes "" f.
Definition upload {B} (h : Hold) (key : string) (f : option File) (x : Expect) (k : prog (Hold * res B)) : prog (Hold * res B) :=
  let! u := call (UploadFile key (body_of f) (stored_integrity x) ∅) in
  match u with Err e => Ret (latch h e, Err e) | Ok _ => k end.
Fixpoint upload_all {B} (h : Hold) (c : Commit) (l : list (Artifact * option File)) (k : prog (Hold * res B)) : prog (Hold * res B) :=
  match l with
  | [] => k
  | (a, f) :: l => upload h (artifact r c a) f (expect_artifact a) (upload_all h c l k)
  end.
Definition verify_all (l : list (Artifact * option File)) : prog (res ()) :=
  visit_all l () (fun _ '(a, f) => verifyFile gunzip f (expect_artifact a)).

(** Dispatch of commit.json and the read of the winner. *)
Definition read_winner (h : Hold) (c : Commit) (w : res Info) : prog (Hold * res Result) :=
  let! x := readCommit r (c_BackupUID c) in
  match x with
  | Err re => failH h (match w with Err e => e | Ok _ => re end)
  | Ok (winner, wb, wi) =>
      if c_RequestSHA256 winner !=? c_RequestSHA256 c then failH h ErrIdentity else
      let@ h _ := verifyWinner gunzip r winner wb in
      Ret (h, Ok (mkResult winner wb (i_Modified wi)))
  end.
Definition dispatch_commit (h : Hold) (c : Commit) : prog (Hold * res Result) :=
  let b := Marshal c in
  if commitLimit <? len b then failH h ErrCapacity else
  let! w := put (backup r (c_BackupUID c) +:+ "commit.json") b Create ∅ in
  read_winner (latch_res h w) c w.
(** After the uploads: the remote payload, the parent again, the caller's check, the context. *)
Definition recheck (h : Hold) (c : Commit) (check : bool) : prog (Hold * res Result) :=
  let@ h _ := verifyPayload gunzip r c in
  let@ h _ := parent gunzip r c in
  let@ h _ := (if check then call (Caller "check" None) else done ()) in
  let@ h _ := check_ctx in
  dispatch_commit h c.
Definition files_of (c : Commit) (files : list (option File)) : list (Artifact * option File) := zip (c_Artifacts c) files.
Definition publish (h : Hold) (a : Attempt) (c : Commit) (manifest : option File) (files : list (option File)) (check : bool)
  : prog (Hold * Attempt * res Result) :=
  let! x := Hold_check r h in
  match x with
  | Err e => Ret (h, a, Err e)
  | Ok () =>
      if at_used a then Ret (h, a, Err ErrClosed) else
      let a := mkAttempt (at_request a) (at_claim a) true in
      let! (h, x) :=
        match Commit_validate c (r_id r) with
        | Err e => failH h e
        | Ok () =>
            if (c_BackupUID c !=? cl_BackupUID (at_claim a)) || (c_AttemptID c !=? cl_AttemptID (at_claim a))
               || (c_RequestSHA256 c !=? cl_RequestSHA256 (at_claim a)) || (c_Kind c !=? rq_RequestedKind (at_request a))
               || negb (Z.of_nat (length files) =? Z.of_nat (length (c_Artifacts c)))
            then failH h ErrIdentity else
            if (c_Kind c ==? "differential") && (rq_RootBackupUID (at_request a) !=? Some (c_RootBackupUID c))
            then failH h ErrIdentity else
            let@ h _ := parent gunzip r c in
            let@ h _ := verifyFile gunzip manifest (expect_manifest c) in
            let@ h _ := verify_all (files_of c files) in
            upload h (manifest_key r c) manifest (expect_manifest c)
              (upload_all h c (files_of c files) (recheck h c check))
        end in
      Ret (h, a, x)
  end.

(** ** Reading an input *)
Definition DownloadInput (h : Hold) (uid : string) (index : Z) : prog (res string) :=
  Hold_check r h ;;*
  let* (c, b, _) := readCommit r uid in
  live r c b ;;*
  requestFor r c ;;*
  (if c_Kind c ==? "differential" then readParent r c ;;* done () else done ()) ;;*
  let input (key : string) (x : Expect) : prog (res string) :=
    let* b := call (Download key (stored_integrity x)) in
    verifyFile gunzip (Some (mkFile b true)) x ;;* done b in
  if 0 <=? index then
    match c_Artifacts c !! Z.to_nat index with
    | None => fail ErrInvalid
    | Some a => input (artifact r c a) (expect_artifact a)
    end
  else if negb (index =? -1) then fail ErrInvalid
  else input (manifest_key r c) (expect_manifest c).

(** ** Differentials *)
Definition select_full (selected : option Commit) (en : Entry) : prog (res (option Commit)) :=
  let c := en_Commit en in
  let! ok := (if negb (en_Retired en) && (c_Kind c ==? "full") then let! e := call (Caller "eligible" (Some c)) in Ret (negb (is_err e)) else Ret false) in
  let selected := if ok && match selected with None => true | Some s => newer c s end then Some c else selected in
  check_ctx ;;* done selected.
Definition with_root (req : Request) (root : option string) : Request :=
  mkRequest (rq_Schema req) (rq_RepositoryID req) (rq_BackupUID req) (rq_WriterClusterUID req) (rq_RequestedKind req)
    root (rq_ConfigSHA256 req).
(** The root: the frozen request's, or the newest eligible live full for a new request. *)
Definition differential_root (req : Request) : prog (res Request) :=
  let! x := call (Read (backup r (rq_BackupUID req) +:+ "request.json") smallLimit) in
  match x with
  | Ok (b, _) =>
      match strict b smallLimit with
      | Err _ => fail ErrIdentity
      | Ok frozen =>
          if is_err (Request_validate frozen (r_id r)) || (rq_RequestedKind frozen !=? "differential")
          then fail ErrIdentity else done (with_root req (rq_RootBackupUID frozen))
      end
  | Err e =>
      if Is e NotFound then
        let* f := spoolCatalog gunzip r (mkLimits MaxCatalogRecords (Z.shiftl 256 20)) in
        let* selected := scanEntries f None select_full in
        match selected with
        | None => fail ErrBlocked
        | Some s => done (with_root req (Some (c_BackupUID s)))
        end
      else fail e
  end.
Definition BeginDifferential (h : Hold) (req : Request)
  : prog (Hold * res (Begun * option Commit)) :=
  let@ h _ := Hold_check r h in
  if (rq_RequestedKind req !=? "differential") || negb (validID (rq_BackupUID req))
     || (ho_Kind (h_holder h) !=? "backup") || (rq_BackupUID req !=? ho_OperationID (h_holder h))
  then failH h ErrInvalid else
  let@ h req := differential_root req in
  let! (h, x) := begin h req in
  match x with
  | Err e => failH h e
  | Ok (Winner w) => Ret (h, Ok (Winner w, None))
  | Ok (Fresh a) =>
      (* an attempt returned beside an error is not used *)
      match rq_RootBackupUID req with
      | None => failH h Panic
      | Some root =>
          let! p := readCommit r root in
          match p with
          | Ok (p, _, _) => Ret (h, Ok (Fresh a, Some p))
          | Err e => failH h e
          end
      end
  end.
End Publication.

(** ** Rules *)
Lemma Ok_inj {A} (a b : A) : (Ok a : res A) = Ok b -> a = b.
Proof. congruence. Qed.
Lemma wp_stepH {A B} G h (p : prog (res A)) (k : A -> prog (Hold * res B)) P (Q : trace -> Hold * res B -> Prop) tr :
  allows_reads G -> proves p P -> (forall tr' e, quiet tr tr' -> Q tr' (h, Err e)) ->
  (forall tr' a, quiet tr tr' -> P a tr' -> wp G Q (k a) tr') -> wp G Q (stepH h p k) tr.
Proof.
  intros HG Hp He Hk. eapply wp_reads; [done|exact Hp|]. intros tr' [a|e] Hq HP; [by apply Hk|cbn; by apply He].
Qed.
Lemma wp_put {B} G key b c m (k : res Info -> prog B) (Q : trace -> B -> Prop) tr :
  allows_reads G ->
  (forall tr', quiet tr tr' -> wp G Q (k (Err (S3 LocalIO false))) tr') ->
  (forall tr', quiet tr tr' -> G tr' _ (PutFile key b (mkIntegrity (len b) (digest b)) c m)
    /\ forall x, wp G Q (k x) (Act (PutFile key b (mkIntegrity (len b) (digest b)) c m) x :: tr')) ->
  wp G Q (bind (put key b c m) k) tr.
Proof.
  intros HG He Hk. cbn. split; [by apply HG|]. intros [e|]; [apply He; by apply quiet_cons|].
  cbn. split; [by apply HG|]. intros [e|]; cbn.
  - apply He. by apply quiet_step, quiet_cons.
  - destruct (Hk (Act (Local "write") None :: Act (Local "temp") None :: tr)) as [H1 H2].
    { by apply quiet_step, quiet_cons. }
    split; [done|]. apply H2.
Qed.
Lemma Hold_check_proves r h : proves (Hold_check r h) (fun _ tr => exists g b i,
  Act (Read (gate_key r) gateLimit) (Ok (b, i)) ∈ tr /\ strict b gateLimit = Ok g /\ gate_ok (r_id r) g /\ admitted h g = true).
Proof.
  unfold Hold_check, readGate. destruct (h_closed h); [apply proves_fail|]. destruct (h_uncertain h); [apply proves_fail|].
  eapply (proves_bindE _ _ (fun x tr => exists b i, Act (Read (gate_key r) gateLimit) (Ok (b, i)) ∈ tr
    /\ strict b gateLimit = Ok x.1 /\ gate_ok (r_id r) x.1)).
  - intros x tr tr' He (b & i & H1 & H2). exists b, i. split; [by eapply extends_elem|done].
  - seen (proves_call (Read (gate_key r) gateLimit) eq_refl) with stable_elem. intros [b i].
    destruct (strict b gateLimit) as [g|] eqn:Es; [|apply proves_fail].
    destruct (Gate_validate g (r_id r)) as [[]|] eqn:Ev; [|apply proves_fail]. apply proves_done.
    intros tr H. exists b, i. split_and!; [done|done|by apply Gate_validate_spec].
  - intros [g i]. destruct (admitted h g) eqn:Ea; [|apply proves_fail]. apply proves_done.
    intros tr (b & i' & H1 & H2 & H3). by exists g, b, i'.
Qed.

(** ** The publication protocol *)
Section Protocol.
Context (gunzip : string -> option (string * string)) (r : Repository).

Definition admitted_seen (h : Hold) (tr : trace) : Prop := exists g b i,
  Act (Read (gate_key r) gateLimit) (Ok (b, i)) ∈ tr /\ strict b gateLimit = Ok g /\ gate_ok (r_id r) g /\ admitted h g = true.
Definition uploaded (key : string) (x : Expect) (tr : trace) : Prop :=
  exists b i, Act (UploadFile key b (stored_integrity x) ∅) (Ok i) ∈ tr /\ matches gunzip x b.
Definition payload_uploaded (c : Commit) (tr : trace) : Prop :=
  uploaded (manifest_key r c) (expect_manifest c) tr
  /\ Forall (fun a => uploaded (artifact r c a) (expect_artifact a) tr) (c_Artifacts c).
(** The caller's own check passed after everything was uploaded and read back. *)
Definition checked_last (c : Commit) (tr : trace) : Prop := exists later earlier,
  tr = later ++ Act (Caller "check" None) (Ok ()) :: earlier
  /\ payload_uploaded c earlier /\ payload_fetched gunzip r c earlier /\ parent_fetched gunzip r c earlier.
(** What must have happened before commit.json is created. *)
Definition commit_guard (h : Hold) (c : Commit) (check : bool) (tr : trace) : Prop :=
  Commit_validate c (r_id r) = Ok () /\ admitted_seen h tr
  /\ payload_uploaded c tr /\ payload_fetched gunzip r c tr /\ parent_fetched gunzip r c tr
  /\ (check = true -> checked_last c tr).
Definition publish_guard (h : Hold) (c : Commit) (check : bool) (tr : trace) X (e : event X) : Prop :=
  match e with
  | PutFile key b _ cond _ =>
      key = backup r (c_BackupUID c) +:+ "commit.json" /\ b = Marshal c /\ cond = Create /\ commit_guard h c check tr
  | Delete _ | AbortUpload _ => False
  | _ => True
  end.
(** What a publication that returns a result has established. *)
Definition published (c : Commit) (res : Result) (tr : trace) : Prop :=
  c_RequestSHA256 (rs_Commit res) = c_RequestSHA256 c
  /\ (exists i, commit_read r (c_BackupUID c) (rs_Commit res, rs_Bytes res, i) tr /\ rs_PublishedAt res = i_Modified i)
  /\ usable gunzip r (rs_Commit res) tr.
Definition publish_post (h : Hold) (c : Commit) (tr : trace) (y : Hold * res Result) : Prop :=
  h_holder y.1 = h_holder h /\ h_closed y.1 = h_closed h
  /\ (settled tr \/ h_uncertain y.1 = true)
  /\ (forall res, y.2 = Ok res -> published c res tr).

Lemma uploaded_stable key x : stable (uploaded key x).
Proof. intros tr tr' He (b & i & H1 & H2). exists b, i. split; [by eapply extends_elem|done]. Qed.
Lemma payload_uploaded_stable c : stable (payload_uploaded c).
Proof.
  intros tr tr' He [H1 H2]. split; [by eapply uploaded_stable|]. eapply Forall_impl; [exact H2|].
  intros a Ha. by eapply uploaded_stable.
Qed.
Lemma admitted_seen_stable h : stable (admitted_seen h).
Proof. intros tr tr' He (g & b & i & H1 & H2). exists g, b, i. split; [by eapply extends_elem|done]. Qed.
Lemma usable_stable c : stable (usable gunzip r c).
Proof.
  intros tr tr' He (H1 & (req & H2) & H3 & H4). split_and!; [by eapply not_retired_stable| |
    by eapply parent_fetched_stable|by eapply payload_fetched_stable].
  exists req. by eapply requested_stable.
Qed.
Lemma publish_guard_reads h c check : allows_reads (publish_guard h c check).
Proof. intros tr X e He. by destruct e. Qed.

Lemma post_error h c tr e : settled tr -> publish_post h c tr (h, Err e).
Proof. intros H. split_and!; [done|done|by left|done]. Qed.
Lemma latch_post h c tr e a : settled tr -> unsettled a = ambiguous e && negb (Is e Precondition) ->
  publish_post h c (a :: tr) (latch h e, Err e).
Proof.
  intros Hs Ha. unfold latch. destruct (ambiguous e) eqn:E; split_and!; try done; [by right|]. left. by constructor.
Qed.

Lemma read_winner_wp h0 h c check w tr :
  h_holder h = h_holder h0 -> h_closed h = h_closed h0 -> settled tr \/ h_uncertain h = true ->
  wp (publish_guard h0 c check) (publish_post h0 c) (read_winner gunzip r h c w) tr.
Proof.
  intros E1 E2 Hs. assert (forall tr' e, quiet tr tr' -> publish_post h0 c tr' (h, Err e)) as Herr.
  { intros tr' e Hq. split_and!; [done|done| |done]. destruct Hs; [left; by eapply quiet_settled|by right]. }
  unfold read_winner. eapply wp_reads; [apply publish_guard_reads|apply readCommit_proves|].
  intros tr1 [[[winner wb] wi]|e] Hq1 H1; [|by apply Herr]. destruct (_ !=? _) eqn:E; [by apply Herr|]. bool_split.
  eapply wp_stepH; [apply publish_guard_reads|apply verifyWinner_proves| |].
  { intros tr2 e Hq2. apply Herr. by eapply quiet_trans. }
  intros tr2 [] Hq2 H2. split_and!; [done|done| |].
  - destruct Hs; [left; eapply quiet_settled; [|done]; by eapply quiet_trans|by right].
  - intros res [= <-]. split_and!; [done| |done]. exists wi. split; [|done].
    eapply commit_read_stable; [by apply quiet_extends|done].
Qed.

Lemma checked_last_stable c : stable (checked_last c).
Proof. intros tr tr' [l ->] (later & earlier & -> & H). exists (l ++ later), earlier. by rewrite app_assoc. Qed.
Lemma commit_guard_stable h c check : stable (commit_guard h c check).
Proof.
  intros tr tr' He (H1 & H2 & H3 & H4 & H5 & H6). split_and!; [done|by eapply admitted_seen_stable|
    by eapply payload_uploaded_stable|by eapply payload_fetched_stable|by eapply parent_fetched_stable|].
  intros Hc. by eapply checked_last_stable; [|apply H6].
Qed.
Lemma latch_res_same h (x : res Info) : h_holder (latch_res h x) = h_holder h /\ h_closed (latch_res h x) = h_closed h.
Proof. unfold latch_res, latch. destruct x as [|e]; [done|]. by destruct (ambiguous e). Qed.

Lemma dispatch_wp h c check tr : settled tr -> commit_guard h c check tr ->
  wp (publish_guard h c check) (publish_post h c) (dispatch_commit gunzip r h c) tr.
Proof.
  intros Hs Hg. unfold dispatch_commit. destruct (commitLimit <? len (Marshal c)); [by apply post_error|].
  apply wp_put; [apply publish_guard_reads| |].
  - intros tr' Hq. apply read_winner_wp; [done|done|]. left. by eapply quiet_settled.
  - intros tr' Hq. assert (settled tr') as Hs' by (by eapply quiet_settled).
    split; [split_and!; try done; eapply commit_guard_stable; [by apply quiet_extends|done]|]. intros x.
    apply read_winner_wp; [apply latch_res_same|apply latch_res_same|].
    destruct x as [i|e]; cbn; [left; by constructor|].
    unfold latch. destruct (ambiguous e) eqn:E; [by right|]. left. constructor; [cbn; by rewrite E|done].
Qed.

Lemma recheck_wp h c check tr : settled tr -> Commit_validate c (r_id r) = Ok () -> admitted_seen h tr ->
  payload_uploaded c tr -> wp (publish_guard h c check) (publish_post h c) (recheck gunzip r h c check) tr.
Proof.
  intros Hs Hv Ha Hu. unfold recheck.
  eapply wp_stepH; [apply publish_guard_reads|apply verifyPayload_proves|intros; apply post_error; by eapply quiet_settled|].
  intros tr1 [] Hq1 H1. assert (settled tr1) as Hs1 by (by eapply quiet_settled).
  eapply wp_stepH; [apply publish_guard_reads|apply parent_proves|intros; apply post_error; by eapply quiet_settled|].
  intros tr2 [] Hq2 H2. assert (settled tr2) as Hs2 by (by eapply quiet_settled).
  assert (extends tr tr2) as He2 by (eapply extends_trans; by apply quiet_extends).
  assert (forall tr3, extends tr2 tr3 -> (check = true -> checked_last c tr3) -> commit_guard h c check tr3) as Hg.
  { intros tr3 He3 Hc. split_and!; [done| | | | |done].
    - eapply admitted_seen_stable; [|done]. by eapply extends_trans.
    - eapply payload_uploaded_stable; [|done]. by eapply extends_trans.
    - eapply payload_fetched_stable; [|done]. eapply extends_trans; [by apply quiet_extends|done].
    - by eapply parent_fetched_stable. }
  assert (forall tr3, settled tr3 -> extends tr2 tr3 -> (check = true -> checked_last c tr3) ->
    wp (publish_guard h c check) (publish_post h c) (stepH h check_ctx (fun _ => dispatch_commit gunzip r h c)) tr3) as Hend.
  { intros tr3 Hs3 He3 Hc. eapply wp_stepH; [apply publish_guard_reads|apply proves_check_ctx|
      intros; apply post_error; by eapply quiet_settled|].
    intros tr4 [] Hq4 _. apply dispatch_wp; [by eapply quiet_settled|]. apply Hg.
    - eapply extends_trans; [done|by apply quiet_extends].
    - intros E. eapply checked_last_stable; [by apply quiet_extends|auto]. }
  destruct check.
  - cbn. split; [done|]. intros [[]|e]; [|apply post_error; by constructor].
    apply Hend; [by constructor|apply extends_cons|]. intros _. exists [], tr2. split_and!; [done|by eapply payload_uploaded_stable| |done].
    eapply payload_fetched_stable; [by apply quiet_extends|done].
  - apply Hend; [done|apply extends_refl|done].
Qed.

Lemma upload_wp h c check key f x (k : prog (Hold * res Result)) tr :
  settled tr -> matches gunzip x (body_of f) ->
  (forall tr', settled tr' -> extends tr tr' -> uploaded key x tr' -> wp (publish_guard h c check) (publish_post h c) k tr') ->
  wp (publish_guard h c check) (publish_post h c) (upload h key f x k) tr.
Proof.
  intros Hs Hm Hk. cbn. split; [done|]. intros [i|e].
  - apply Hk; [by constructor|apply extends_cons|]. exists (body_of f), i. split; [left|done].
  - by apply latch_post.
Qed.
Lemma upload_all_wp h c check l (k : prog (Hold * res Result)) tr :
  settled tr -> Forall (fun '(a, f) => matches gunzip (expect_artifact a) (body_of f)) l ->
  (forall tr', settled tr' -> extends tr tr' ->
     Forall (fun '(a, _) => uploaded (artifact r c a) (expect_artifact a) tr') l ->
     wp (publish_guard h c check) (publish_post h c) k tr') ->
  wp (publish_guard h c check) (publish_post h c) (upload_all r h c l k) tr.
Proof.
  revert tr. induction l as [|[a f] l IH]; intros tr Hs Hm Hk; cbn [upload_all].
  - apply Hk; [done|apply extends_refl|constructor].
  - apply Forall_cons in Hm as [Ha Hm]. apply upload_wp; [done|done|]. intros tr1 Hs1 He1 Hu.
    apply IH; [done|done|]. intros tr2 Hs2 He2 Hl. apply Hk; [done|by eapply extends_trans|].
    constructor; [by eapply uploaded_stable|done].
Qed.

Lemma verify_option_proves f x : proves (verifyFile gunzip f x) (fun _ _ => matches gunzip x (body_of f)).
Proof. destruct f as [f|]; [apply verifyFile_proves|apply proves_fail]. Qed.
Lemma verify_all_proves l : proves (verify_all gunzip l)
  (fun _ _ => Forall (fun '(a, f) => matches gunzip (expect_artifact a) (body_of f)) l).
Proof.
  eapply proves_mono; [|apply (proves_visit_all l (fun '(a, f) => verifyFile gunzip f (expect_artifact a))
    (fun '(a, f) _ => matches gunzip (expect_artifact a) (body_of f)))].
  - intros [] tr H. eapply Forall_impl; [exact H|]. by intros [a f].
  - intros [a f]. by intros tr tr' _.
  - intros [a f] _. apply verify_option_proves.
Qed.

(** The whole of [publish], on a fresh attempt. *)
Definition publish_body (h : Hold) (a : Attempt) (c : Commit) (manifest : option File) (files : list (option File))
    (check : bool) (tr : trace) : Prop :=
  wp (publish_guard h c check)
    (fun tr' y => publish_post h c tr' (y.1.1, y.2) /\ (forall res, y.2 = Ok res -> at_used a = false /\ at_used y.1.2 = true))
    (publish gunzip r h a c manifest files check) tr.
Lemma publish_wp h a c manifest files check : publish_body h a c manifest files check [].
Proof.
  unfold publish_body, publish. eapply wp_reads; [apply publish_guard_reads|apply Hold_check_proves|].
  intros tr0 x Hq0 Hadm. assert (settled tr0) as Hs0 by (eapply quiet_settled; [done|apply List.Forall_nil]).
  destruct x as [[]|e]; [|cbn; split; [by apply post_error|done]].
  destruct (at_used a) eqn:Eu; [cbn; split; [by apply post_error|done]|].
  apply wp_bind. eapply (wp_mono _ (publish_post h c)).
  { intros tr [h' x] H. split; [done|]. by intros res _. }
  destruct (Commit_validate c (r_id r)) as [[]|e] eqn:Ev; [|by apply post_error].
  wp_if as Ei; [by apply post_error|]. wp_if as Ed; [by apply post_error|]. bool_split.
  eapply wp_stepH; [apply publish_guard_reads|apply parent_proves|intros; apply post_error; by eapply quiet_settled|].
  intros tr1 [] Hq1 _. assert (settled tr1) as Hs1 by (by eapply quiet_settled).
  eapply wp_stepH; [apply publish_guard_reads|apply verify_option_proves|intros; apply post_error; by eapply quiet_settled|].
  intros tr2 [] Hq2 Hm. assert (settled tr2) as Hs2 by (by eapply quiet_settled).
  eapply wp_stepH; [apply publish_guard_reads|apply verify_all_proves|intros; apply post_error; by eapply quiet_settled|].
  intros tr3 [] Hq3 Hall. assert (settled tr3) as Hs3 by (by eapply quiet_settled).
  apply upload_wp; [done|done|]. intros tr4 Hs4 He4 Hu4. apply upload_all_wp; [done|done|].
  intros tr5 Hs5 He5 Hu5. apply recheck_wp; [done|done| |].
  - assert (extends tr0 tr5) as He.
    { eapply extends_trans; [by apply quiet_extends|]. eapply extends_trans; [by apply quiet_extends|].
      eapply extends_trans; [by apply quiet_extends|]. by eapply extends_trans. }
    by eapply admitted_seen_stable.
  - split; [by eapply uploaded_stable|].
    assert (c_Artifacts c = (files_of c files).*1) as ->.
    { unfold files_of. rewrite fst_zip; [done|]. lia. }
    apply Forall_fmap. eapply Forall_impl; [exact Hu5|]. by intros [? ?].
Qed.
End Protocol.

(** An input is only read. *)
Lemma proves_past {A B} (p : prog (res A)) (f : A -> prog (res B)) P :
  proves p P -> (forall a, proves (f a) (fun _ _ => True)) -> proves (bindE p f) (fun _ _ => True).
Proof.
  intros Hp Hf. eapply (proves_bindE _ _ (fun _ _ => True)); [done|by eapply proves_mono; [|exact Hp]|]. intros a. by eapply proves_mono; [|apply Hf].
Qed.
Lemma DownloadInput_proves gunzip r h uid index : proves (DownloadInput gunzip r h uid index) (fun _ _ => True).
Proof.
  assert (forall key x, proves (let* b := call (Download key (stored_integrity x)) in verifyFile gunzip (Some (mkFile b true)) x ;;* done b) (fun _ _ => True)) as Hin.
  { intros key x. eapply proves_past; [by apply proves_call|]. intros b. eapply proves_past; [apply verifyFile_proves|]. intros []. by apply proves_done. }
  unfold DownloadInput. eapply proves_past; [apply Hold_check_proves|]. intros []. eapply proves_past; [apply readCommit_proves|]. intros [[c b] i].
  eapply proves_past; [apply live_proves|]. intros []. eapply proves_past; [apply requestFor_proves|]. intros req. eapply (proves_past _ _ (fun _ _ => True)).
  { destruct (c_Kind c ==? "differential"); [|by apply proves_done]. eapply proves_past; [apply readParent_proves|]. intros p. by apply proves_done. }
  intros []. cbv zeta. destruct (0 <=? index); [destruct (c_Artifacts c !! Z.to_nat index); [apply Hin|apply proves_fail]|].
  destruct (negb (index =? -1)); [apply proves_fail|apply Hin].
Qed.

(** ** Begin *)
Section Begin.
Context (gunzip : string -> option (string * string)) (r : Repository).

(** [begin] writes only the request and a claim of its own backup. *)
Definition begin_guard (req : Request) (tr : trace) X (e : event X) : Prop :=
  match e with
  | PutFile key b _ cond _ => cond = Create
      /\ ((key = backup r (rq_BackupUID req) +:+ "request.json" /\ b = Marshal req)
          \/ exists att, key = attempt r (rq_BackupUID req) att +:+ "claim.json")
  | UploadFile _ _ _ _ | Delete _ | AbortUpload _ => False
  | _ => True
  end.
Definition begun (req : Request) (x : Begun) (tr : trace) : Prop :=
  match x with
  | Winner w => c_RequestSHA256 (rs_Commit w) = digest (Marshal req)
      /\ (exists i, commit_read r (rq_BackupUID req) (rs_Commit w, rs_Bytes w, i) tr /\ rs_PublishedAt w = i_Modified i)
      /\ usable gunzip r (rs_Commit w) tr
  | Fresh a => at_used a = false /\ at_request a = req
      /\ cl_BackupUID (at_claim a) = rq_BackupUID req /\ cl_RequestSHA256 (at_claim a) = digest (Marshal req)
      /\ (exists i b, Act (PutFile (attempt r (rq_BackupUID req) (cl_AttemptID (at_claim a)) +:+ "claim.json")
            (Marshal (at_claim a)) b Create ∅) (Ok i) ∈ tr)
      /\ (forall root, rq_RootBackupUID req = Some root -> exists p b i,
            commit_read r root (p, b, i) tr /\ c_Kind p = "full" /\ usable gunzip r p tr)
  end.
Definition begin_post (h : Hold) (req : Request) (tr : trace) (y : Hold * res Begun) : Prop :=
  h_holder y.1 = h_holder h /\ h_closed y.1 = h_closed h /\ (settled tr \/ h_uncertain y.1 = true)
  /\ (forall x, y.2 = Ok x -> begun req x tr).

Lemma begin_guard_reads req : allows_reads (begin_guard req).
Proof. intros tr X e He. by destruct e. Qed.
Lemma begin_error h0 h req tr e : h_holder h = h_holder h0 -> h_closed h = h_closed h0 ->
  settled tr \/ h_uncertain h = true -> begin_post h0 req tr (h, Err e).
Proof. intros. by split_and!. Qed.

Lemma claim_wp h req tr : settled tr ->
  (forall tr', extends tr tr' -> forall root, rq_RootBackupUID req = Some root -> exists p b i,
     commit_read r root (p, b, i) tr' /\ c_Kind p = "full" /\ usable gunzip r p tr') ->
  wp (begin_guard req) (begin_post h req) (claim_attempt r h req (Marshal req)) tr.
Proof.
  intros Hs Hroot. unfold claim_attempt. split; [done|]. intros att. apply wp_put; [apply begin_guard_reads| |].
  - intros tr' Hq. apply begin_error; [done|done|]. left. eapply quiet_settled; [done|]. by constructor.
  - intros tr' Hq. assert (settled tr') as Hs' by (eapply quiet_settled; [done|by constructor]).
    split; [split; [done|right; by exists att]|]. intros [i|e]; cbn.
    + split_and!; [reflexivity|reflexivity|left; by constructor|]. intros x Hx. cbn [snd] in Hx. apply Ok_inj in Hx. subst x. unfold begun.
      do 4 (split; [reflexivity|]). split.
      * eexists i, _. left.
      * apply Hroot. eapply extends_trans; [|apply extends_cons].
        eapply extends_trans; [apply extends_cons|by apply quiet_extends].
    + unfold latch. destruct (ambiguous e) eqn:E; apply begin_error; try done; [by right|]. left.
      constructor; [cbn; by rewrite E|done].
Qed.

Lemma begin_root_wp h req tr : settled tr ->
  wp (begin_guard req) (begin_post h req) (begin_root gunzip r h req (Marshal req)) tr.
Proof.
  intros Hs. unfold begin_root. destruct (rq_RootBackupUID req) as [root|] eqn:Er.
  2: { apply claim_wp; [done|]. intros tr' _ root. by rewrite Er. }
  assert (forall tr' e, quiet tr tr' -> begin_post h req tr' (h, Err e)) as Herr.
  { intros tr' e Hq. apply begin_error; [done|done|]. left. by eapply quiet_settled. }
  eapply wp_stepH; [apply begin_guard_reads|apply readCommit_proves|by apply Herr|]. intros tr1 [[p pb] i] Hq1 H1.
  wp_if as Ek; [by apply Herr|]. bool_split.
  eapply wp_stepH; [apply begin_guard_reads|apply verifyWinner_proves|intros; apply Herr; by eapply quiet_trans|].
  intros tr2 [] Hq2 H2. apply claim_wp; [eapply quiet_settled; [|done]; by eapply quiet_trans|].
  intros tr3 He root' E. rewrite E in Er. injection Er as ->. exists p, pb, i.
  split_and!; [|done|by eapply usable_stable]. eapply commit_read_stable; [|exact H1].
  eapply extends_trans; [by apply quiet_extends|done].
Qed.

Lemma begin_commit_wp h0 h req tr : h_holder h = h_holder h0 -> h_closed h = h_closed h0 ->
  settled tr \/ h_uncertain h = true ->
  wp (begin_guard req) (begin_post h0 req) (begin_commit gunzip r h req (Marshal req)) tr.
Proof.
  intros E1 E2 Hs. assert (forall tr' e, quiet tr tr' -> begin_post h0 req tr' (h, Err e)) as Herr.
  { intros tr' e Hq. apply begin_error; [done|done|]. destruct Hs; [left; by eapply quiet_settled|by right]. }
  unfold begin_commit. eapply wp_reads; [apply begin_guard_reads|apply readCommit_proves|].
  intros tr1 [[[c cb] info]|e] Hq1 H1.
  - wp_if as Eh; [by apply Herr|]. bool_split.
    eapply wp_stepH; [apply begin_guard_reads|apply verifyWinner_proves|intros; apply Herr; by eapply quiet_trans|].
    intros tr2 [] Hq2 H2. split_and!; [done|done| |].
    + destruct Hs; [left; eapply quiet_settled; [|done]; by eapply quiet_trans|by right].
    + intros x [= <-]. unfold begun. cbn [rs_Commit rs_Bytes rs_PublishedAt]. split_and!; [done| |done]. exists info. split; [|done].
      eapply commit_read_stable; [by apply quiet_extends|done].
  - wp_if as En; [by apply Herr|]. wp_if as Eu; [by apply Herr|].
    eapply wp_mono; [|apply begin_root_wp].
    + intros tr' y (H2 & H3 & H4 & H5). split_and!; [by rewrite H2|by rewrite H3|done|done].
    + destruct Hs as [Hs|Hs]; [by eapply quiet_settled|congruence].
Qed.

Lemma begin_wp h req : wp (begin_guard req) (begin_post h req) (begin gunzip r h req) [].
Proof.
  assert (forall tr' e, quiet [] tr' -> begin_post h req tr' (h, Err e)) as Herr.
  { intros tr' e Hq. apply begin_error; [done|done|]. left. eapply quiet_settled; [done|apply List.Forall_nil]. }
  unfold begin. eapply wp_stepH; [apply begin_guard_reads|apply Hold_check_proves|by apply Herr|].
  intros tr1 [] Hq1 _. wp_if as Ei; [by apply Herr|]. destruct (Request_validate req (r_id r)) as [[]|e]; [|by apply Herr].
  assert (settled tr1) as Hs1 by (eapply quiet_settled; [done|apply List.Forall_nil]).
  unfold freeze_request. apply wp_put; [apply begin_guard_reads| |].
  - intros tr2 Hq2. assert (settled tr2) as Hs2 by (by eapply quiet_settled). cbn. split; [done|].
    intros [[got i]|e']; [|apply begin_error; [done|done|left; by constructor]].
    wp_if as Eg; [apply begin_error; [done|done|left; by constructor]|].
    apply begin_commit_wp; [done|done|left; by constructor].
  - intros tr2 Hq2. assert (settled tr2) as Hs2 by (by eapply quiet_settled).
    split; [split; [done|by left]|]. intros w. destruct (latch_res_same h w) as [L1 L2].
    match goal with |- wp _ _ _ (?a :: _) => assert (settled (a :: tr2) \/ h_uncertain (latch_res h w) = true) as Hl end.
    { destruct w as [i|e]; cbn; [left; by constructor|]. unfold latch.
      destruct (ambiguous e) eqn:E; [by right|]. left. constructor; [cbn; by rewrite E|done]. }
    destruct w as [i|e]; [by apply begin_commit_wp|]. cbn [bind call wp]. split; [done|].
    assert (forall x, settled (Act (Read (backup r (rq_BackupUID req) +:+ "request.json") smallLimit) x ::
      Act (PutFile (backup r (rq_BackupUID req) +:+ "request.json") (Marshal req)
        (mkIntegrity (len (Marshal req)) (digest (Marshal req))) Create ∅) (Err e) :: tr2)
      \/ h_uncertain (latch_res h (Err e : res Info)) = true) as Hl'.
    { intros x. destruct Hl; [left; by constructor|by right]. }
    intros [[got i]|e']; [|by apply begin_error].
    wp_if as Eg; [by apply begin_error|]. by apply begin_commit_wp.
Qed.
End Begin.

(** ** The properties of publication *)
(** C3: commit.json is created last and only when everything it names is safely stored.  Whatever storage
    answers, the only object [publish] ever PUTs is commit.json of its own backup, with create-only
    semantics and the bytes of the caller's validated commit; before that call the hold was found admitted in
    a valid gate, the manifest and every artifact were uploaded with an acknowledged result and bytes that match their
    digests, every one of them was downloaded again and verified raw and stored, the full parent of a
    differential was read live and its payload verified, and after all of that the caller's own check (if any) passed. *)
Theorem publish_commit_guarded gunzip r h a c manifest files check pre key b ig cond md :
  emits (publish gunzip r h a c manifest files check) [] pre _ (PutFile key b ig cond md) ->
  key = backup r (c_BackupUID c) +:+ "commit.json" /\ b = Marshal c /\ cond = Create
  /\ Commit_validate c (r_id r) = Ok () /\ admitted_seen r h pre
  /\ payload_uploaded gunzip r c pre /\ payload_fetched gunzip r c pre /\ parent_fetched gunzip r c pre
  /\ (check = true -> checked_last gunzip r c pre).
Proof.
  intros He. pose proof (wp_emits _ _ _ _ _ _ _ (publish_wp gunzip r h a c manifest files check) He) as H. exact H.
Qed.

(** The result of a publication is the verified winner, never the candidate.  When [publish] returns a
    result, its commit was strictly decoded from the bytes read back from commit.json after the
    dispatch, is valid, answers the same frozen request, and was usable in full: not retired, request and
    claim intact, every payload byte downloaded and verified, parent included.  The attempt is consumed. *)
Theorem publish_result_verified gunzip r h a c manifest files check tr h' a' res :
  runs (publish gunzip r h a c manifest files check) [] tr (h', a', Ok res) ->
  c_RequestSHA256 (rs_Commit res) = c_RequestSHA256 c
  /\ (exists i, commit_read r (c_BackupUID c) (rs_Commit res, rs_Bytes res, i) tr /\ rs_PublishedAt res = i_Modified i)
  /\ usable gunzip r (rs_Commit res) tr /\ at_used a = false /\ at_used a' = true.
Proof.
  intros Hr. pose proof (wp_runs _ _ _ _ _ _ (publish_wp gunzip r h a c manifest files check) Hr) as [(_ & _ & _ & Hp) Hu].
  destruct (Hp res eq_refl) as (H1 & H2 & H3). destruct (Hu res eq_refl) as [H4 H5]. done.
Qed.

(** An unsettled mutation can never be followed by a release of the hold.  If any PUT or multipart upload
    of a publication was answered ambiguously, then [Close] of the hold it leaves behind returns
    ErrUncertain without a single call, so the holder stays in the gate and keeps blocking garbage collection. *)
Theorem publish_unsettled_keeps_hold gunzip r h a c manifest files check tr h' a' x act :
  runs (publish gunzip r h a c manifest files check) [] tr (h', a', x) -> act ∈ tr -> unsettled act = true ->
  h_holder h' = h_holder h /\ Hold_Close r h' = Ret (mkHold (h_holder h) true true, Err ErrUncertain).
Proof.
  intros Hr Hin Ha. pose proof (wp_runs _ _ _ _ _ _ (publish_wp gunzip r h a c manifest files check) Hr) as [(H1 & _ & Hs & _) _].
  cbn in H1, Hs. split; [done|]. destruct Hs as [Hs|Hs].
  - unfold settled in Hs. rewrite Forall_forall in Hs. specialize (Hs act Hin). congruence.
  - unfold Hold_Close. cbn. by rewrite Hs, H1.
Qed.

(** [begin] either replays a fully verified winner of exactly this request, or claims a fresh attempt whose claim
    was acknowledged and, for a differential, whose root is a live full with a verified payload.  It
    writes nothing but the request and that claim, and an ambiguous answer leaves the hold uncertain. *)
Theorem begin_outcomes gunzip r h req tr h' x :
  runs (begin gunzip r h req) [] tr (h', x) ->
  (forall y, x = Ok y -> begun gunzip r req y tr)
  /\ (forall act, act ∈ tr -> unsettled act = true -> h_uncertain h' = true) /\ h_holder h' = h_holder h.
Proof.
  intros Hr. pose proof (wp_runs _ _ _ _ _ _ (begin_wp gunzip r h req) Hr) as (H1 & _ & H3 & H4). cbn in *.
  split_and!; [done| |done]. intros act Hin Ha. destruct H3 as [H3|H3]; [|done].
  unfold settled in H3. rewrite Forall_forall in H3. specialize (H3 act Hin). congruence.
Qed.

(** ** A concrete publication *)
Definition demo_holder : Holder :=
  mkHolder "dddddddd-dddd-4ddd-8ddd-dddddddddddd" "backup" (id_WriterClusterUID ex_identity) demo_uid (Some demo_process).
Definition demo_hold : Hold := mkHold demo_holder false false.
Definition demo_attempt : Attempt := mkAttempt demo_request demo_claim false.
Definition demo_files : list (option File) := [Some (mkFile demo_file true); Some (mkFile demo_file true)].
(** The repository before the publication: the holder is admitted, request and claim are frozen. *)
Definition demo_admitted : list (string * string) :=
  [(r_root demo +:+ "repository.json", Marshal ex_identity);
   (r_root demo +:+ "gate.json", Marshal (with_holders demo_gate [demo_holder]));
   (backup demo demo_uid +:+ "request.json", Marshal demo_request);
   (attempt demo demo_uid (c_AttemptID ex_commit) +:+ "claim.json", Marshal demo_claim)].
Definition demo_publish : prog (Hold * Attempt * res Result) :=
  publish no_gunzip demo demo_hold demo_attempt demo_commit (Some (mkFile demo_file true)) demo_files true.
Definition demo_result : Result := mkResult demo_commit (Marshal demo_commit) demo_now.
Definition demo_before : memory := memory_of demo_now demo_admitted.
Lemma demo_published : (run memory_handler demo_publish demo_before).1
  = (demo_hold, mkAttempt demo_request demo_claim true, Ok demo_result).
Proof. vm_compute. reflexivity. Qed.

Definition is_put (X : Type) (e : event X) : bool := match e with PutFile _ _ _ _ _ => true | _ => false end.
Lemma publish_commit_guarded_witness : exists pre b,
  b = Marshal demo_commit /\ payload_uploaded no_gunzip demo demo_commit pre /\ payload_fetched no_gunzip demo demo_commit pre.
Proof.
  destruct (run_emits memory_handler is_put demo_publish demo_before []) as (pre & X & e & Hp & He).
  - reflexivity.
  - vm_compute. reflexivity.
  - destruct e; try discriminate Hp. unfold demo_publish in He.
    destruct (publish_commit_guarded no_gunzip demo demo_hold demo_attempt demo_commit (Some (mkFile demo_file true)) demo_files true pre _ _ _ _ _ He)
      as (_ & H1 & _ & _ & _ & H2 & H3 & _).
    exists pre. eexists. split; [exact H1|]. exact (conj H2 H3).
Defined.
Definition demo_trace : trace := run_trace memory_handler demo_publish demo_before [].
Lemma demo_runs : runs demo_publish [] demo_trace (demo_hold, mkAttempt demo_request demo_claim true, Ok demo_result).
Proof.
  pose proof (run_trace_runs memory_handler demo_publish demo_before []) as H. rewrite demo_published in H. exact H.
Qed.
Lemma publish_result_verified_witness :
  usable no_gunzip demo (rs_Commit demo_result) demo_trace.
Proof.
  pose proof demo_runs as Hr. unfold demo_publish in Hr.
  destruct (publish_result_verified no_gunzip demo demo_hold demo_attempt demo_commit (Some (mkFile demo_file true)) demo_files
    true demo_trace demo_hold (mkAttempt demo_request demo_claim true) demo_result Hr) as (_ & _ & H & _).
  exact H.
Defined.

(** Storage that loses the answer to every upload. *)
Definition lossy : handler memory := fun X e m =>
  match e in event X return X * memory with
  | UploadFile key body i metadata =>
      (Err (S3 Unknown true), (store_object m key body metadata).2)
  | e => memory_handler _ e m
  end.
Definition demo_lost : trace := run_trace lossy demo_publish demo_before [].
Lemma demo_lost_result : (run lossy demo_publish demo_before).1
  = (mkHold demo_holder false true, mkAttempt demo_request demo_claim true, Err (S3 Unknown true)).
Proof. vm_compute. reflexivity. Qed.
Lemma publish_unsettled_keeps_hold_witness :
  Hold_Close demo (mkHold demo_holder false true) = Ret (mkHold demo_holder true true, Err ErrUncertain).
Proof.
  assert (exists act, act ∈ demo_lost /\ unsettled act = true) as (act & Hin & Ha).
  { assert (existsb unsettled demo_lost = true) as H by (vm_compute; reflexivity).
    apply existsb_exists in H as (act & Hin & Ha). exists act. split; [by apply list_elem_of_In|done]. }
  pose proof (run_trace_runs lossy demo_publish demo_before []) as Hr. rewrite demo_lost_result in Hr.
  unfold demo_publish in Hr at 1.
  exact (proj2 (publish_unsettled_keeps_hold no_gunzip demo demo_hold demo_attempt demo_commit (Some (mkFile demo_file true))
    demo_files true demo_lost _ _ _ act Hr Hin Ha)).
Defined.

Definition demo_begin : prog (Hold * res Begun) := begin no_gunzip demo demo_hold demo_request.
Definition demo_fresh : Attempt :=
  mkAttempt demo_request (mkClaim 1 (id_RepositoryID ex_identity) demo_uid (memory_uuid 5) demo_process (digest (Marshal demo_request))) false.
Lemma demo_begun : (run memory_handler demo_begin demo_before).1 = (demo_hold, Ok (Fresh demo_fresh)).
Proof. vm_compute. reflexivity. Qed.
Lemma begin_outcomes_witness : begun no_gunzip demo demo_request (Fresh demo_fresh)
  (run_trace memory_handler demo_begin demo_before []).
Proof.
  pose proof (run_trace_runs memory_handler demo_begin demo_before []) as Hr. rewrite demo_begun in Hr.
  unfold demo_begin in Hr at 1. exact (proj1 (begin_outcomes no_gunzip demo demo_hold demo_request _ _ _ Hr) _ eq_refl).
Defined.
