(* ===== verification/Gc.v ===== *)
(** * Garbage collection (internal/repository/gc.go, retention_inventory.go)

    The admitted owner: acquisition and release of the gate, the protected inventories, the
    validation of a whole deletion plan and its bounded execution.  A [GCOwner] is
    passed explicitly; [gcNotBefore] of the repository is a parameter of [AcquireGC] and a result of [Close]. *)

From S2P Require Import Prelude GoStrings GoTime Sha256 Errors Schema WalNames Prog Store Json Documents Repository Gate.
From S2P Require Import Transfer Memory Catalog.

Definition GCCatalogBytes : Z := Z.shiftl 256 20.

Record Policy := mkPolicy { po_WindowSeconds : Z; po_MinimumFulls : Z }.
Record Victim := mkVictim {
  v_Kind : string; v_BackupUID : option string; v_AttemptID : option string; v_Index : option Z;
  v_Compression : option string; v_UploadID : option string; v_WALName : option string;
  v_ExpectedETag : option string; v_SHA256 : string; v_RawBytes : Z }.
Record GCPlan := mkGCPlan {
  gp_Schema : Z; gp_RepositoryID : string; gp_OperationID : string; gp_ProcessID : string; gp_Cutoff : string;
  gp_Policy : Policy; gp_Victims : list Victim }.
Record WALRetirement := mkWALRetirement {
  wt_Schema : Z; wt_State : string; wt_RepositoryID : string; wt_Name : string; wt_RawBytes : Z;
  wt_RawSHA256 : string; wt_GCOperationID : string }.
Record WALObject := mkWALObject { wo_Name : string; wo_ETag : string; wo_SHA256 : string; wo_RawBytes : Z; wo_Retired : bool }.

#[export] Instance json_Policy : Json Policy := mkJson Policy
  (fun x => JObject [
     ("window_seconds", @to_json _ int64 (po_WindowSeconds x));
     ("minimum_fulls", @to_json _ int64 (po_MinimumFulls x))])
  (fun j => fields ["window_seconds"; "minimum_fulls"] of j as l in
     windowseconds_ ← field int64 "window_seconds" l; minimumfulls_ ← field int64 "minimum_fulls" l;
     Some (mkPolicy windowseconds_ minimumfulls_)).

#[export] Instance json_Victim : Json Victim := mkJson Victim
  (fun x => JObject [
     ("kind", @to_json _ json_string (v_Kind x));
     ("backup_uid", @to_json _ (json_ptr json_string) (v_BackupUID x));
     ("attempt_id", @to_json _ (json_ptr json_string) (v_AttemptID x));
     ("index", @to_json _ (json_ptr int64) (v_Index x));
     ("compression", @to_json _ (json_ptr json_string) (v_Compression x));
     ("upload_id", @to_json _ (json_ptr json_string) (v_UploadID x));
     ("wal_name", @to_json _ (json_ptr json_string) (v_WALName x));
     ("expected_etag", @to_json _ (json_ptr json_string) (v_ExpectedETag x));
     ("sha256", @to_json _ json_string (v_SHA256 x)); ("raw_bytes", @to_json _ int64 (v_RawBytes x))])
  (fun j => fields ["kind"; "backup_uid"; "attempt_id"; "index"; "compression"; "upload_id"; "wal_name";
                    "expected_etag"; "sha256"; "raw_bytes"] of j as l in
     kind_ ← field json_string "kind" l; backupuid_ ← field (json_ptr json_string) "backup_uid" l;
     attemptid_ ← field (json_ptr json_string) "attempt_id" l; index_ ← field (json_ptr int64) "index" l;
     compression_ ← field (json_ptr json_string) "compression" l;
     uploadid_ ← field (json_ptr json_string) "upload_id" l;
     walname_ ← field (json_ptr json_string) "wal_name" l;
     expectedetag_ ← field (json_ptr json_string) "expected_etag" l; sha256_ ← field json_string "sha256" l;
     rawbytes_ ← field int64 "raw_bytes" l;
     Some (mkVictim kind_ backupuid_ attemptid_ index_ compression_ uploadid_ walname_ expectedetag_ sha256_ rawbytes_)).

#[export] Instance json_GCPlan : Json GCPlan := mkJson GCPlan
  (fun x => JObject [
     ("schema", @to_json _ int64 (gp_Schema x)); ("repository_id", @to_json _ json_string (gp_RepositoryID x));
     ("operation_id", @to_json _ json_string (gp_OperationID x));
     ("process_id", @to_json _ json_string (gp_ProcessID x)); ("cutoff", @to_json _ json_string (gp_Cutoff x));
     ("policy", @to_json _ json_Policy (gp_Policy x));
     ("victims", @to_json _ (json_list json_Victim) (gp_Victims x))])
  (fun j => fields ["schema"; "repository_id"; "operation_id"; "process_id"; "cutoff"; "policy"; "victims"] of j as l in
     schema_ ← field int64 "schema" l; repositoryid_ ← field json_string "repository_id" l;
     operationid_ ← field json_string "operation_id" l; processid_ ← field json_string "process_id" l;
     cutoff_ ← field json_string "cutoff" l; policy_ ← field json_Policy "policy" l;
     victims_ ← field (json_list json_Victim) "victims" l;
     Some (mkGCPlan schema_ repositoryid_ operationid_ processid_ cutoff_ policy_ victims_)).

#[export] Instance json_WALRetirement : Json WALRetirement := mkJson WALRetirement
  (fun x => JObject [
     ("schema", @to_json _ int64 (wt_Schema x)); ("state", @to_json _ json_string (wt_State x));
     ("repository_id", @to_json _ json_string (wt_RepositoryID x));
     ("name", @to_json _ json_string (wt_Name x)); ("raw_bytes", @to_json _ int64 (wt_RawBytes x));
     ("raw_sha256", @to_json _ json_string (wt_RawSHA256 x));
     ("gc_operation_id", @to_json _ json_string (wt_GCOperationID x))])
  (fun j => fields ["schema"; "state"; "repository_id"; "name"; "raw_bytes"; "raw_sha256"; "gc_operation_id"] of j as l in
     schema_ ← field int64 "schema" l; state_ ← field json_string "state" l;
     repositoryid_ ← field json_string "repository_id" l; name_ ← field json_string "name" l;
     rawbytes_ ← field int64 "raw_bytes" l; rawsha256_ ← field json_string "raw_sha256" l;
     gcoperationid_ ← field json_string "gc_operation_id" l;
     Some (mkWALRetirement schema_ state_ repositoryid_ name_ rawbytes_ rawsha256_ gcoperationid_)).

Record GCOwner := mkGCOwner {
  go_owner : Owner; go_started : Time; go_catalog : option (list Entry); go_requests : Z;
  go_closed : bool; go_uncertain : bool; go_executed : bool }.
Definition set_executed (g : GCOwner) : GCOwner :=
  mkGCOwner (go_owner g) (go_started g) (go_catalog g) (go_requests g) (go_closed g) (go_uncertain g) true.
Definition set_catalog (g : GCOwner) (f : option (list Entry)) : GCOwner :=
  mkGCOwner (go_owner g) (go_started g) f (go_requests g) (go_closed g) (go_uncertain g) (go_executed g).
Definition set_uncertain (g : GCOwner) : GCOwner :=
  mkGCOwner (go_owner g) (go_started g) (go_catalog g) (go_requests g) (go_closed g) true (go_executed g).
Definition set_closed (g : GCOwner) : GCOwner :=
  mkGCOwner (go_owner g) (go_started g) None (go_requests g) true (go_uncertain g) (go_executed g).
Definition set_started (g : GCOwner) (t : Time) : GCOwner :=
  mkGCOwner (go_owner g) t (go_catalog g) (go_requests g) (go_closed g) (go_uncertain g) (go_executed g).
Definition count_request (g : GCOwner) : GCOwner :=
  mkGCOwner (go_owner g) (go_started g) (go_catalog g) (go_requests g + 1) (go_closed g) (go_uncertain g) (go_executed g).
Definition latch_owner (g : GCOwner) (e : error) : GCOwner := if ambiguous e then set_uncertain g else g.

Definition present {A} (o : option A) : bool := match o with Some _ => true | None => false end.
Definition meta (i : Info) (k : string) : string := default "" (i_Metadata i !! k).

Section Gc.
Context (gunzip : string -> option (string * string)) (r : Repository).
Abbreviation segment_bytes := (id_WALSegmentBytes (r_id r)).

(** ** Admission *)
Definition AcquireGC (notBefore : Time) : prog (res GCOwner) :=
  call CheckBucketSafety ;;*
  let! now := call Now in
  (if now <? notBefore then let! e := call (Sleep (notBefore - now)) in Ret (lift e) else done ()) ;;*
  let! operation := call UUID in
  let o := mkOwner operation (r_process r) "gc" in
  changeGate r (acquire_change o) ;;*
  done (mkGCOwner o zero_time None 0 false false false).

Definition GCOwner_check (g : GCOwner) : prog (res ()) :=
  check_ctx ;;*
  if go_closed g then fail ErrClosed else
  if go_uncertain g then fail ErrUncertain else
  let* (gate, _) := readGate r in
  if g_Owner gate !=? Some (go_owner g) then fail ErrBlocked else done ().

(** ** Inventories *)
Definition GCOwner_Inventory {B} (g : GCOwner) (l : CatalogLimits) (acc : B) (visit : B -> Entry -> prog (res B))
  : prog (GCOwner * res B) :=
  let! x := (GCOwner_check g ;;* Ret (CatalogLimits_validate l)) in
  match x with
  | Err e => Ret (g, Err e)
  | Ok () =>
      if go_executed g || present (go_catalog g) then Ret (g, Err ErrInvalid) else
      if GCCatalogBytes <? l_MaxSpoolBytes l then Ret (g, Err ErrCapacity) else
      let! f := spoolCatalog gunzip r l in
      match f with
      | Err e => Ret (g, Err e)
      | Ok f =>
          let! y := scanEntries f acc visit in
          match y with
          | Err e => Ret (g, Err e)
          | Ok acc => Ret (set_catalog g (Some f), Ok acc)
          end
      end
  end.

Definition retired_object (name : string) (i : Info) (b : string) : res WALObject :=
  match strict b smallLimit with
  | Err _ => Err ErrCorrupt
  | Ok ret =>
      if (wt_Schema ret !=? 1) || (wt_State ret !=? "retired") || (wt_RepositoryID ret !=? id_RepositoryID (r_id r))
         || (wt_Name ret !=? name) || negb (String.length name =? 24)%nat || (wt_RawBytes ret !=? segment_bytes)
         || negb (hashRE (wt_RawSHA256 ret)) || negb (validID (wt_GCOperationID ret))
      then Err ErrCorrupt else Ok (mkWALObject name (i_ETag i) (wt_RawSHA256 ret) (wt_RawBytes ret) true)
  end.
Definition segment_sized (name : string) : bool := (String.length name =? 24)%nat || HasSuffix name ".partial".
Definition live_object (name : string) (i : Info) : res WALObject :=
  let segment := segment_sized name in
  let max := if segment then segment_bytes else Z.shiftl 1 20 in
  match positive_int64 (meta i "cnpg-raw-bytes") with
  | None => Err ErrCorrupt
  | Some raw =>
      if (max <? raw) || (segment && (raw !=? max)) || (i_Size i <? 1) || (max + Z.shiftl 1 20 <? i_Size i)
         || (meta i "cnpg-format" !=? "wal-v1") || (meta i "cnpg-system-id" !=? id_SystemIdentifier (r_id r))
         || negb (hashRE (meta i "cnpg-raw-sha256")) || negb (hashRE (meta i "cnpg-stored-sha256"))
         || ((meta i "cnpg-compression" !=? "none") && (meta i "cnpg-compression" !=? "gzip"))
      then Err ErrCorrupt else
      if (meta i "cnpg-compression" ==? "none") && (i_Size i !=? raw) then Err ErrCorrupt else
      Ok (mkWALObject name (i_ETag i) (meta i "cnpg-raw-sha256") raw false)
  end.
Definition archive_visit {B} (visit : B -> WALObject -> prog (res B)) (acc : B) (i : Info) : prog (res B) :=
  let prefix := r_root r +:+ "wal/" in
  match Split "/" (TrimPrefix (i_Key i) prefix) with
  | [_; name] =>
      if negb (HasPrefix (i_Key i) prefix) then fail ErrCorrupt else
      match WALKey (r_root r) segment_bytes name with
      | Err _ => fail ErrCorrupt
      | Ok key =>
          if key !=? i_Key i then fail ErrCorrupt else
          let* info := call (Head key) in
          if (i_ETag info ==? "") || (256 <? len (i_ETag info)) then fail ErrCorrupt else
          if meta info "cnpg-format" ==? "wal-retired-v1" then
            let* (b, _) := call (Read key smallLimit) in
            match retired_object name info b with Err e => fail e | Ok o => visit acc o end
          else match live_object name info with Err e => fail e | Ok o => visit acc o end
      end
  | _ => fail ErrCorrupt
  end.
Definition ArchiveInventory {B} (g : GCOwner) (acc : B) (visit : B -> WALObject -> prog (res B)) : prog (res B) :=
  GCOwner_check g ;;* List (r_root r +:+ "wal/") MaxCatalogRecords acc (archive_visit visit).

(** ** Victims *)
Definition validate_wal (v : Victim) : prog (res ()) :=
  match v_WALName v, v_ExpectedETag v with
  | Some name, Some etag =>
      if (etag ==? "") || (256 <? len etag) || present (v_BackupUID v) || present (v_AttemptID v)
         || present (v_Index v) || present (v_Compression v) || present (v_UploadID v) then fail ErrInvalid else
      if negb (String.length name =? 24)%nat || (v_RawBytes v !=? segment_bytes) then fail ErrInvalid else
      match WALKey (r_root r) segment_bytes name with
      | Err e => fail e
      | Ok key =>
          let* info := call (Head key) in
          if (i_ETag info !=? etag) || (meta info "cnpg-format" !=? "wal-v1")
             || (meta info "cnpg-system-id" !=? id_SystemIdentifier (r_id r))
             || (meta info "cnpg-raw-sha256" !=? v_SHA256 v) || (meta info "cnpg-raw-bytes" !=? FormatInt (v_RawBytes v))
          then fail ErrIdentity else done ()
      end
  | _, _ => fail ErrInvalid
  end.
(** The fields each kind of payload victim carries. *)
Definition victim_shape (v : Victim) : bool :=
  let upload := match v_UploadID v with Some u => validText u 2048 | None => false end in
  if v_Kind v ==? "delete-manifest" then
    negb (present (v_Index v) || present (v_Compression v) || present (v_UploadID v))
  else if (v_Kind v ==? "delete-artifact") || (v_Kind v ==? "abort-artifact") then
    match v_Index v, v_Compression v with
    | Some i, Some c =>
        (0 <=? i) && (i <? 66) && ((c ==? "none") || (c ==? "gzip"))
        && (if v_Kind v ==? "abort-artifact" then upload else negb (present (v_UploadID v)))
    | _, _ => false
    end
  else if v_Kind v ==? "abort-manifest" then negb (present (v_Index v) || present (v_Compression v)) && upload
  else false.
(** The attempt is not the winner of its backup, or the backup is retired, here or earlier in the plan. *)
Definition may_delete (retired : gset string) (uid att : string) (x : res (Commit * string * Info)) : prog (res ()) :=
  match x with
  | Ok (c, b, _) =>
      if c_AttemptID c ==? att then
        let! le := live r c b in
        match le with
        | Err ErrRetired => done ()
        | Err e => fail e
        | Ok () => if bool_decide (uid ∈ retired) then done () else fail ErrBlocked
        end
      else done ()
  | Err e => if Is e NotFound then done () else fail e
  end.
Definition validateVictim (v : Victim) (retired : gset string) : prog (res ()) :=
  if negb (hashRE (v_SHA256 v)) || (v_RawBytes v <? 0) then fail ErrInvalid else
  if v_Kind v ==? "retire-wal" then validate_wal v else
  match v_BackupUID v with
  | None => fail ErrInvalid
  | Some uid =>
      if negb (validID uid) || present (v_WALName v) || present (v_ExpectedETag v) then fail ErrInvalid else
      let! x := readCommit r uid in
      if v_Kind v ==? "retire-backup" then
        if present (v_AttemptID v) || present (v_Index v) || present (v_Compression v) || present (v_UploadID v)
        then fail ErrInvalid else
        match x with
        | Err e => fail e
        | Ok (_, b, _) => if digest b !=? v_SHA256 v then fail ErrIdentity else done ()
        end
      else
        match v_AttemptID v with
        | None => fail ErrInvalid
        | Some att =>
            if negb (validID att) then fail ErrInvalid else
            may_delete retired uid att x ;;*
            readClaim r uid att ;;*
            if victim_shape v then done () else fail ErrInvalid
        end
  end.

(** A retirement is refused while a live differential of the catalog depends on the backup. *)
Definition dependants (uid : string) (retired : gset string) (_ : ()) (en : Entry) : prog (res ()) :=
  if negb (en_Retired en) && (c_ParentBackupUID (en_Commit en) ==? Some uid)
     && negb (bool_decide (c_BackupUID (en_Commit en) ∈ retired))
  then fail ErrBlocked else done ().
Fixpoint validate_victims (catalog : list Entry) (retired : gset string) (wal : bool) (l : list Victim) : prog (res ()) :=
  match l with
  | [] => done ()
  | v :: l =>
      let wal := wal || (v_Kind v ==? "retire-wal") in
      if (v_Kind v ==? "retire-backup") && wal then fail ErrInvalid else
      validateVictim v retired ;;*
      if v_Kind v ==? "retire-backup" then
        match v_BackupUID v with
        | None => fail Panic
        | Some uid =>
            scanEntries catalog () (dependants uid retired) ;;*
            validate_victims catalog ({[uid]} ∪ retired) wal l
        end
      else validate_victims catalog retired wal l
  end.

(** ** Destruction *)
Definition retire_backup (g : GCOwner) (v : Victim) (uid : string) : prog (res ()) :=
  let key := backup r uid +:+ "retired.json" in
  let ret := mkRetirement 1 (id_RepositoryID (r_id r)) uid (v_SHA256 v) (ow_OperationID (go_owner g)) in
  let! w := put key (Marshal ret) Create ∅ in
  match w with
  | Ok _ => done ()
  | Err e =>
      if Is e Precondition then
        let* (old, _) := call (Read key smallLimit) in
        match strict old smallLimit with
        | Err _ => fail ErrCorrupt
        | Ok got => Ret (Retirement_validate got (r_id r) uid (v_SHA256 v))
        end
      else fail e
  end.
Definition retire_wal (g : GCOwner) (v : Victim) (name etag : string) : prog (res ()) :=
  match WALKey (r_root r) segment_bytes name with
  | Err e => fail e
  | Ok key =>
      let ret := mkWALRetirement 1 "retired" (id_RepositoryID (r_id r)) name (v_RawBytes v) (v_SHA256 v)
                   (ow_OperationID (go_owner g)) in
      put key (Marshal ret) (Match etag) {["cnpg-format" := "wal-retired-v1"]} ;;* done ()
  end.
Definition payload_key (v : Victim) (uid att : string) : res string :=
  match v_Index v with
  | None => Ok (attempt r uid att +:+ "manifest.pg.json")
  | Some i => match v_Compression v with Some c => Ok (artifact_key r uid att i c) | None => Err Panic end
  end.
Definition destroy (g : GCOwner) (v : Victim) : prog (res ()) :=
  if v_Kind v ==? "retire-backup" then
    match v_BackupUID v with Some uid => retire_backup g v uid | None => fail Panic end
  else if v_Kind v ==? "retire-wal" then
    match v_WALName v, v_ExpectedETag v with Some name, Some etag => retire_wal g v name etag | _, _ => fail Panic end
  else
    match v_BackupUID v, v_AttemptID v with
    | Some uid, Some att =>
        match payload_key v uid att with
        | Err e => fail e
        | Ok key =>
            if HasPrefix (v_Kind v) "abort-" then
              match v_UploadID v with Some u => call (AbortUpload (mkUpload key u)) | None => fail Panic end
            else call (Delete key)
        end
    | _, _ => fail Panic
    end.

(** The destructive phase: at most 128 requests and 30 seconds from the first. *)
Definition start_budget (g : GCOwner) : prog (res GCOwner) :=
  let! now := call Now in
  if IsZero (go_started g) then done (set_started g now)
  else if 30 * second <=? now - go_started g then fail ErrCapacity else done g.
Fixpoint destroy_all (g : GCOwner) (l : list Victim) : prog (GCOwner * res ()) :=
  match l with
  | [] => Ret (g, Ok ())
  | v :: l =>
      if 128 <=? go_requests g then Ret (g, Err ErrCapacity) else
      let! c := (GCOwner_check g ;;* start_budget g) in
      match c with
      | Err e => Ret (g, Err e)
      | Ok g =>
          let g := count_request g in
          let! x := destroy g v in
          match x with
          | Err e => Ret (latch_owner g e, Err e)
          | Ok () => destroy_all g l
          end
      end
  end.

Definition GCPlan_bad (g : GCOwner) (p : GCPlan) : bool :=
  (gp_Schema p !=? 1) || (gp_RepositoryID p !=? id_RepositoryID (r_id r)) || (gp_OperationID p !=? ow_OperationID (go_owner g))
  || (gp_ProcessID p !=? ow_ProcessID (go_owner g)) || (Z.of_nat (length (gp_Victims p)) <? 1)
  || (128 <? Z.of_nat (length (gp_Victims p)))
  || negb (present (stamp (gp_Cutoff p)))
  || (po_WindowSeconds (gp_Policy p) <? 3600) || (3650 * 86400 <? po_WindowSeconds (gp_Policy p))
  || (po_MinimumFulls (gp_Policy p) <? 1) || (100 <? po_MinimumFulls (gp_Policy p)).
Definition plan_key (p : GCPlan) : string := r_root r +:+ "gc/" +:+ gp_OperationID p +:+ ".json".
(** The plan is validated as a whole, then persisted, then executed. *)
Definition execute_plan (g : GCOwner) (p : GCPlan) (catalog : list Entry) : prog (GCOwner * res ()) :=
  let! x := validate_victims catalog ∅ false (gp_Victims p) in
  match x with
  | Err e => Ret (g, Err e)
  | Ok () =>
      let b := Marshal p in
      if commitLimit <? len b then Ret (g, Err ErrCapacity) else
      let! w := put (plan_key p) b Create ∅ in
      match w with
      | Err e => Ret (latch_owner g e, Err e)
      | Ok _ => destroy_all g (gp_Victims p)
      end
  end.
Definition Execute (g : GCOwner) (p : GCPlan) : prog (GCOwner * res ()) :=
  let! c := GCOwner_check g in
  match c with
  | Err e => Ret (g, Err e)
  | Ok () =>
      if go_executed g then Ret (g, Err ErrClosed) else
      let g := set_executed g in
      if GCPlan_bad g p then Ret (g, Err ErrInvalid) else
      match go_catalog g with
      | Some catalog => execute_plan g p catalog
      | None =>
          let! f := spoolCatalog gunzip r (mkLimits MaxCatalogRecords GCCatalogBytes) in
          match f with
          | Err e => Ret (g, Err e)
          | Ok catalog => execute_plan (set_catalog g (Some catalog)) p catalog
          end
      end
  end.

(** Release: irrevocable, refused when an outcome is unknown. The third result is the new [gcNotBefore]. *)
Definition GCOwner_Close (g : GCOwner) : prog (GCOwner * res () * Time) :=
  let g := set_closed g in
  let! now := call Now in
  let notBefore := now + second in
  if go_uncertain g then Ret (g, Err ErrUncertain, notBefore) else
  let! x := (changeGate r (release_change (go_owner g)) ;;* let! e := call (Sleep second) in Ret (lift e)) in
  Ret (g, x, notBefore).

Definition GCOwner_Plan (g : GCOwner) (cutoff : string) (policy : Policy) (victims : list Victim) : GCPlan :=
  mkGCPlan 1 (id_RepositoryID (r_id r)) (ow_OperationID (go_owner g)) (ow_ProcessID (go_owner g)) cutoff policy victims.

(** ** Discovery of abandoned payloads *)
Definition cleanup_eligible (uid att : string) : prog (res bool) :=
  let! x := readCommit r uid in
  match x with
  | Err e => if Is e NotFound then done true else fail e
  | Ok (c, b, _) =>
      let! le := live r c b in
      match le with
      | Err ErrRetired => done true
      | Err e => fail e
      | Ok () => done (c_AttemptID c !=? att)
      end
  end.
Definition payload_victim (uid att hash : string) (rest : list string) : option Victim :=
  let victim kind index comp := mkVictim kind (Some uid) (Some att) index comp None None None hash 0 in
  match rest with
  | name :: more =>
      if name ==? "manifest.pg.json" then Some (victim "delete-manifest" None None) else
      match more with
      | [file] =>
          if name ==? "data" then
            let gz := HasSuffix file ".gz" in
            let base := if gz then TrimSuffix file ".gz" else file in
            match decimal (TrimSuffix base ".tar") with
            | Some n => if n <? 66 then Some (victim "delete-artifact" (Some n) (Some (if gz then "gzip" else "none"))) else None
            | None => None
            end
          else None
      | _ => None
      end
  | [] => None
  end.
(** [strings.Replace(v.Kind, "delete-", "abort-", 1)] on the two kinds above *)
Definition abort_of (v : Victim) (upload : string) : Victim :=
  mkVictim ("abort-" +:+ TrimPrefix (v_Kind v) "delete-") (v_BackupUID v) (v_AttemptID v) (v_Index v) (v_Compression v)
    (Some upload) (v_WALName v) (v_ExpectedETag v) (v_SHA256 v) (v_RawBytes v).
Definition candidate (limit : Z) (victims : list Victim) (key upload : string) : prog (res (list Victim)) :=
  match catalogKey (r_root r) key with
  | None => fail ErrCorrupt
  | Some (uid, _) =>
      validateListedMetadata r key ;;*
      match Split "/" (TrimPrefix key (r_root r +:+ "backups/")) with
      | _ :: _ :: att :: ((_ :: _) as rest) =>
          let* yes := cleanup_eligible uid att in
          if negb yes then done victims else
          let* cl := readClaim r uid att in
          match payload_victim uid att (cl_RequestSHA256 cl) rest with
          | None => fail ErrCorrupt
          | Some v =>
              let v := if upload !=? "" then abort_of v upload else v in
              validateVictim v ∅ ;;*
              done (if Z.of_nat (length victims) <? limit then victims ++ [v] else victims)
          end
      | _ => fail ErrCorrupt
      end
  end.
Definition cleanup_object (limit : Z) (victims : list Victim) (i : Info) : prog (res (list Victim)) :=
  match catalogKey (r_root r) (i_Key i) with
  | None => fail ErrCorrupt
  | Some _ =>
      if HasSuffix (i_Key i) "/manifest.pg.json" || Contains (i_Key i) "/data/"
      then candidate limit victims (i_Key i) "" else done victims
  end.
Definition cleanup_upload (limit : Z) (victims : list Victim) (u : Upload) : prog (res (list Victim)) :=
  if negb (validText (up_ID u) 2048) then fail ErrCorrupt else candidate limit victims (up_Key u) (up_ID u).
Definition Cleanup (g : GCOwner) (limit : Z) : prog (res (list Victim)) :=
  GCOwner_check g ;;*
  if (limit <? 1) || (128 <? limit) then fail ErrInvalid else
  let* victims := List (r_root r +:+ "backups/") MaxCatalogRecords [] (cleanup_object limit) in
  ListU (r_root r +:+ "backups/") MaxCatalogRecords victims (cleanup_upload limit).
End Gc.
