(* ===== verification/GcSafety.v ===== *)
(** * Safety of garbage collection (internal/repository/gc.go)

    What every destructive request of [Execute] is preceded by, whatever storage answers. *)

From S2P Require Import Prelude GoStrings GoTime Sha256 Errors Schema WalNames Prog Store Json Documents Repository Gate.
From S2P Require Import ProgRules Transfer Memory Catalog Publication Gc.

Section Safety.
Context (gunzip : string -> option (string * string)) (r : Repository).

(** ** Evidence *)
Definition owner_seen (o : Owner) (tr : trace) : Prop := exists gate b i,
  Act (Read (gate_key r) gateLimit) (Ok (b, i)) ∈ tr /\ strict b gateLimit = Ok gate /\ gate_ok (r_id r) gate
  /\ g_Owner gate = Some o.
Definition retired_key (uid : string) : string := backup r uid +:+ "retired.json".
(** A retirement marker of the backup was read, or its creation was acknowledged. *)
Definition retired_seen (uid : string) (tr : trace) : Prop :=
  (exists b i ret, Act (Read (retired_key uid) smallLimit) (Ok (b, i)) ∈ tr /\ strict b smallLimit = Ok ret
     /\ rt_BackupUID ret = uid)
  \/ (exists b ig i, Act (PutFile (retired_key uid) b ig Create ∅) (Ok i) ∈ tr).
(** The attempt did not win its backup: there is no commit, or the commit names another attempt. *)
Definition not_winner (uid att : string) (tr : trace) : Prop :=
  (exists e, Act (Read (backup r uid +:+ "commit.json") commitLimit) (Err e) ∈ tr /\ Is e NotFound = true)
  \/ (exists c b i, commit_read r uid (c, b, i) tr /\ c_AttemptID c <> att).
(** Storage answered a read with an error that only the repository itself makes. *)
Definition foreign (uid : string) (tr : trace) : Prop :=
  Act (Read (retired_key uid) smallLimit) (Err ErrRetired) ∈ tr.
Definition deletable (uid att : string) (tr : trace) : Prop :=
  not_winner uid att tr \/ retired_seen uid tr \/ foreign uid tr.

Lemma owner_seen_stable o : stable (owner_seen o).
Proof. intros tr tr' He (g & b & i & H1 & H2). exists g, b, i. split; [by eapply extends_elem|done]. Qed.
Lemma retired_seen_stable uid : stable (retired_seen uid).
Proof.
  intros tr tr' He [(b & i & ret & H1 & H2)|(b & ig & i & H1)].
  - left. exists b, i, ret. split; [by eapply extends_elem|done].
  - right. exists b, ig, i. by eapply extends_elem.
Qed.
Lemma not_winner_stable uid att : stable (not_winner uid att).
Proof.
  intros tr tr' He [(e & H1 & H2)|(c & b & i & H1 & H2)].
  - left. exists e. split; [by eapply extends_elem|done].
  - right. exists c, b, i. split; [by eapply commit_read_stable|done].
Qed.
Lemma deletable_stable uid att : stable (deletable uid att).
Proof.
  intros tr tr' He [H|[H|H]]; [left; by eapply not_winner_stable|right; left; by eapply retired_seen_stable|].
  right. right. by eapply extends_elem.
Qed.

Lemma readGate_proves : proves (readGate r) (fun x tr => exists b i,
  Act (Read (gate_key r) gateLimit) (Ok (b, i)) ∈ tr /\ strict b gateLimit = Ok x.1 /\ gate_ok (r_id r) x.1).
Proof.
  unfold readGate. seen (proves_call (Read (gate_key r) gateLimit) eq_refl) with stable_elem. intros [b i].
  destruct (strict b gateLimit) as [g|] eqn:Es; [|apply proves_fail].
  destruct (Gate_validate g (r_id r)) as [[]|] eqn:Ev; [|apply proves_fail]. apply proves_done.
  intros tr H. exists b, i. split_and!; [done|done|by apply Gate_validate_spec].
Qed.
Lemma GCOwner_check_proves g : proves (GCOwner_check r g) (fun _ => owner_seen (go_owner g)).
Proof.
  unfold GCOwner_check. eapply (proves_bindE _ _ (fun _ _ => True)); [done|apply proves_check_ctx|]. intros [].
  reject as Ec. reject as Eu. eapply proves_bindE; [|apply readGate_proves|].
  { intros x tr tr' He (b & i & H1 & H2). exists b, i. split; [by eapply extends_elem|done]. }
  intros [gate i]. reject as Eo. apply proves_done. intros tr (b & i' & H1 & H2 & H3) _. bool_split.
  by exists gate, b, i'.
Qed.

Lemma Retirement_validate_uid ret id uid hash : Retirement_validate ret id uid hash = Ok () -> rt_BackupUID ret = uid.
Proof.
  unfold Retirement_validate. destruct (_ || _) eqn:Er; [done|]. intros _.
  apply orb_false_iff in Er as [Er _]. apply orb_false_iff in Er as [Er _]. apply orb_false_iff in Er as [_ Er]. by bool_split.
Qed.
(** [live] with the reason of its error. *)
Lemma live_reads c b : reads (live r c b) (fun tr x => match x with
  | Ok () => not_retired r (c_BackupUID c) tr
  | Err ErrRetired => retired_seen (c_BackupUID c) tr \/ foreign (c_BackupUID c) tr
  | Err _ => True
  end).
Proof.
  unfold live. eapply reads_bind; [by apply reads_call|]. intros [[rb i]|e].
  - destruct (strict rb smallLimit) as [ret|] eqn:Es; [|by apply reads_ret].
    destruct (is_err _) eqn:Ev; apply reads_ret; [done|]. intros tr' tr Hq H. left. left.
    exists rb, i, ret. split; [eapply extends_elem; [by apply quiet_extends|done]|]. split; [done|].
    unfold is_err in Ev. destruct (Retirement_validate _ _ _ _) as [[]|] eqn:Er; [|done]. by eapply Retirement_validate_uid.
  - destruct (Is e NotFound) eqn:E; apply reads_ret.
    + intros tr' tr Hq H. exists e. split; [|done]. eapply extends_elem; [by apply quiet_extends|done].
    + intros tr' tr Hq H. destruct e; try done. right. eapply extends_elem; [by apply quiet_extends|done].
Qed.

(** ** Victims *)
Definition is_retirement (v : Victim) : bool := v_Kind v ==? "retire-backup".
Definition is_wal (v : Victim) : bool := v_Kind v ==? "retire-wal".
(** What the validation of one victim establishes; [retired] are the backups retired earlier in the plan. *)
Definition victim_ok (retired : gset string) (v : Victim) (tr : trace) : Prop :=
  if is_retirement v then exists uid c b i, v_BackupUID v = Some uid /\ commit_read r uid (c, b, i) tr /\ digest b = v_SHA256 v
  else if is_wal v then exists name etag key i, v_WALName v = Some name /\ v_ExpectedETag v = Some etag
    /\ WALKey (r_root r) (id_WALSegmentBytes (r_id r)) name = Ok key /\ Act (Head key) (Ok i) ∈ tr /\ i_ETag i = etag
    /\ String.length name = 24%nat
  else exists uid att cl, v_BackupUID v = Some uid /\ v_AttemptID v = Some att /\ claim_read r uid att cl tr
    /\ (deletable uid att tr \/ uid ∈ retired) /\ victim_shape v = true.
Definition retires (retired : gset string) (v : Victim) : gset string :=
  if is_retirement v then match v_BackupUID v with Some uid => {[uid]} ∪ retired | None => retired end else retired.
Fixpoint victims_ok (retired : gset string) (l : list Victim) (tr : trace) : Prop :=
  match l with
  | [] => True
  | v :: l => victim_ok retired v tr /\ victims_ok (retires retired v) l tr
  end.

Lemma victim_ok_stable retired v : stable (victim_ok retired v).
Proof.
  intros tr tr' He. unfold victim_ok. destruct (is_retirement v); [|destruct (is_wal v)].
  - intros (uid & c & b & i & H1 & H2 & H3). exists uid, c, b, i. split_and!; [done|by eapply commit_read_stable|done].
  - intros (name & etag & key & i & H1 & H2 & H3 & H4 & H5). exists name, etag, key, i.
    split_and!; try done; [by eapply extends_elem|apply H5|apply H5].
  - intros (uid & att & cl & H1 & H2 & H3 & H4 & H5). exists uid, att, cl.
    split_and!; try done; [by eapply claim_read_stable|]. destruct H4; [left; by eapply deletable_stable|by right].
Qed.
Lemma victims_ok_stable l : forall retired, stable (victims_ok retired l).
Proof.
  induction l as [|v l IH]; intros retired tr tr' He; cbn; [done|]. intros [H1 H2].
  split; [by eapply victim_ok_stable|by eapply IH].
Qed.

Lemma validate_wal_proves v retired : is_retirement v = false -> is_wal v = true ->
  proves (validate_wal r v) (fun _ => victim_ok retired v).
Proof.
  intros Hb Hw. unfold validate_wal, victim_ok. rewrite Hb, Hw.
  destruct (v_WALName v) as [name|]; [|apply proves_fail]. destruct (v_ExpectedETag v) as [etag|]; [|apply proves_fail].
  reject as E1. reject as E2. destruct (WALKey _ _ _) as [key|] eqn:Ek; [|apply proves_fail].
  seen (proves_call (Head key) eq_refl) with stable_elem. intros i. reject as E3. apply proves_done.
  intros tr Hin. exists name, etag, key, i. apply orb_false_iff in E2 as [E2 _].
  apply negb_false_iff, Nat.eqb_eq in E2. bool_split. done.
Qed.

Lemma may_delete_proves retired uid att x :
  reads (may_delete r retired uid att x) (fun tr y => match y with
    | Ok () => match x with
               | Ok (c, b, _) => c_AttemptID c <> att \/ retired_seen (c_BackupUID c) tr \/ foreign (c_BackupUID c) tr \/ uid ∈ retired
               | Err e => Is e NotFound = true
               end
    | Err _ => True
    end).
Proof.
  destruct x as [[[c b] i]|e]; cbn [may_delete].
  - destruct (c_AttemptID c ==? att) eqn:Ea; bool_split; [|apply reads_ret; intros tr; by left].
    eapply reads_bind; [apply live_reads|]. intros [[]|e].
    + case_bool_decide; apply reads_ret; [|done]. intros tr' tr Hq _. auto.
    + destruct e; apply reads_ret; try done. intros tr' tr Hq [H|H]; right.
      * left. eapply retired_seen_stable; [by apply quiet_extends|done].
      * right. left. eapply extends_elem; [by apply quiet_extends|done].
  - destruct (Is e NotFound) eqn:E; by apply reads_ret.
Qed.

Lemma validateVictim_proves v retired : proves (validateVictim r v retired) (fun _ => victim_ok retired v).
Proof.
  unfold validateVictim. reject as E0.
  destruct (v_Kind v ==? "retire-wal") eqn:Ew.
  { apply validate_wal_proves; [|done]. unfold is_retirement. bool_split. rewrite Ew. reflexivity. }
  destruct (v_BackupUID v) as [uid|] eqn:Eu; [|apply proves_fail]. reject as E1.
  eapply reads_bind; [apply (readCommit_reads r uid)|]. intros x.
  destruct (v_Kind v ==? "retire-backup") eqn:Er.
  { reject as Es. destruct x as [[[c b] i]|e]; [|by apply reads_ret].
    reject as Ed. apply reads_ret. intros tr' tr Hq H. bool_split.
    unfold victim_ok, is_retirement. rewrite bool_decide_eq_true_2 by done. exists uid, c, b, i.
    split_and!; [done|eapply commit_read_stable; [by apply quiet_extends|done]|done]. }
  destruct (v_AttemptID v) as [att|] eqn:Ea; [|by apply reads_ret].
  reject as Ev.
  eapply reads_bind; [apply may_delete_proves|]. intros [[]|e]; [|by apply reads_ret].
  eapply reads_mono; [|refine (_ : proves _ (fun _ tr' => (exists cl, claim_read r uid att cl tr') /\ victim_shape v = true))].
  - intros tr3 [[]|e]; [|done]. intros [(cl & Hcl) Hs] tr2 Hq2 Hm tr1 Hq1 Hx.
    unfold victim_ok, is_retirement, is_wal. rewrite Er, Ew. exists uid, att, cl. split_and!; try done.
    destruct x as [[[c b] i]|e]; cbn in Hm.
    + assert (c_BackupUID c = uid) as Ec by apply Hx. rewrite Ec in Hm. destruct Hm as [Hm|[Hm|[Hm|Hm]]].
      * left. left. right. exists c, b, i. split; [|done]. eapply commit_read_stable; [|exact Hx].
        by apply quiet_extends.
      * left. right. left. eapply retired_seen_stable; [|exact Hm]. by apply quiet_extends.
      * left. right. right. eapply extends_elem; [|exact Hm]. by apply quiet_extends.
      * by right.
    + left. left. left. destruct Hx as [Hx|Hx].
      * exists e. split; [|done]. eapply extends_elem; [|exact Hx]. by apply quiet_extends.
      * destruct e; try discriminate Hm. by destruct Hx.
  - seen readClaim_proves with claim_read_stable. intros cl.
    destruct (victim_shape v); [|apply proves_fail]. apply proves_done. intros tr H. split; [by exists cl|done].
Qed.

(** ** The whole plan *)
Definition blocks (uid : string) (retired : gset string) (en : Entry) : bool :=
  negb (en_Retired en) && (c_ParentBackupUID (en_Commit en) ==? Some uid)
  && negb (bool_decide (c_BackupUID (en_Commit en) ∈ retired)).
(** A full is retired only after every live differential of the catalog that depends on it. *)
Fixpoint dependants_first (catalog : list Entry) (retired : gset string) (l : list Victim) : Prop :=
  match l with
  | [] => True
  | v :: l =>
      (is_retirement v = true -> forall uid, v_BackupUID v = Some uid -> Forall (fun en => blocks uid retired en = false) catalog)
      /\ dependants_first catalog (retires retired v) l
  end.
(** No backup is retired after the first segment. *)
Fixpoint wal_last (wal : bool) (l : list Victim) : Prop :=
  match l with
  | [] => True
  | v :: l => (is_retirement v = true -> wal = false) /\ wal_last (wal || is_wal v) l
  end.

Lemma scan_dependants uid retired entries :
  proves (scanEntries entries () (dependants uid retired)) (fun _ _ => Forall (fun en => blocks uid retired en = false) entries).
Proof.
  unfold scanEntries. apply proves_bind; [by apply reads_local|]. intros [e|]; [apply proves_fail|].
  induction entries as [|en l IH]; cbn [scan_go].
  - eapply (proves_bindE _ _ (fun _ _ => True)); [done|apply proves_check_ctx|]. intros [].
    apply proves_bind; [by apply reads_local|]. intros [e|]; [apply proves_fail|]. apply proves_done. constructor.
  - eapply (proves_bindE _ _ (fun _ _ => True)); [done|apply proves_check_ctx|]. intros [].
    apply proves_bind; [by apply reads_local|]. intros [e|]; [apply proves_fail|].
    eapply (proves_bindE _ _ (fun _ _ => blocks uid retired en = false)).
    + intros ? tr tr' ? H. exact H.
    + unfold dependants, blocks. reject as Eb. by apply proves_done.
    + intros []. eapply proves_mono; [|exact IH]. intros [] tr H Hen ?. by constructor.
Qed.

Lemma validate_victims_proves catalog l : forall retired wal,
  proves (validate_victims r catalog retired wal l) (fun _ tr =>
    victims_ok retired l tr /\ dependants_first catalog retired l /\ wal_last wal l).
Proof.
  induction l as [|v l IH]; intros retired wal; cbn [validate_victims]; [by apply proves_done|].
  reject as Eo. seen validateVictim_proves with victim_ok_stable. intros [].
  destruct (v_Kind v ==? "retire-backup") eqn:Er.
  - destruct (v_BackupUID v) as [uid|] eqn:Eu; [|apply proves_fail].
    eapply (proves_bindE _ _ (fun _ _ => Forall (fun en => blocks uid retired en = false) catalog));
      [intros ? tr tr' ? H; exact H|apply scan_dependants|]. intros [].
    assert (is_retirement v = true) as Hr by done.
    assert (retires retired v = {[uid]} ∪ retired) as Ert by (unfold retires; by rewrite Hr, Eu).
    eapply proves_mono; [|apply IH]. intros [] tr (H1 & H2 & H3) Hb Hv. cbn. rewrite Ert. split_and!; try done.
    + intros _ uid' Eu'. rewrite Eu in Eu'. by injection Eu' as <-.
    + intros _. cbn in Eo. by apply orb_false_iff in Eo as [? _].
  - assert (is_retirement v = false) as Hr by done.
    assert (retires retired v = retired) as Ert by (unfold retires; by rewrite Hr).
    eapply proves_mono; [|apply IH]. intros [] tr (H1 & H2 & H3) Hv. cbn. rewrite Ert, Hr. by split_and!.
Qed.

(** ** The catalog

    The entries are those of a complete, recognized listing, each read and verified. *)
Definition catalog_seen (entries : list Entry) (tr : trace) : Prop := exists items,
  Act (ListObjects (r_root r +:+ "backups/") MaxCatalogRecords) (items, Ok ()) ∈ tr /\ Forall (recognized r) items
  /\ (fun en => c_BackupUID (en_Commit en)) <$> entries = omap (commit_uid r) items
  /\ Forall (fun en => entry_seen gunzip r en tr) entries.
Lemma catalog_seen_stable entries : stable (catalog_seen entries).
Proof.
  intros tr tr' He (items & H1 & H2 & H3 & H4). exists items. split_and!; [by eapply extends_elem|done|done|].
  eapply Forall_impl; [exact H4|]. intros en Hen. by eapply entry_seen_stable.
Qed.
(** ** Execution *)
Section Execution.
Context (p : GCPlan) (o : Owner).

(** The validated plan was stored and acknowledged. *)
Definition planned (tr : trace) : Prop :=
  exists ig i, Act (PutFile (plan_key r p) (Marshal p) ig Create ∅) (Ok i) ∈ tr.
(** A payload victim may be destroyed: its attempt is claimed, and did not win or its backup is retired. *)
Definition payload_ok (v : Victim) (key : string) (tr : trace) : Prop :=
  exists uid att cl, v ∈ gp_Victims p /\ v_BackupUID v = Some uid /\ v_AttemptID v = Some att
  /\ payload_key r v uid att = Ok key /\ claim_read r uid att cl tr /\ deletable uid att tr.
(** A marker of this operation: of a backup whose commit was read with the planned digest, created; or of a segment seen under the planned version, over it. *)
Definition retirement_ok (key b : string) (cond : Condition) (tr : trace) : Prop := exists v,
  v ∈ gp_Victims p /\
  ((exists uid c cb i, is_retirement v = true /\ v_BackupUID v = Some uid /\ key = retired_key uid /\ cond = Create
      /\ b = Marshal (mkRetirement 1 (id_RepositoryID (r_id r)) uid (v_SHA256 v) (ow_OperationID o))
      /\ commit_read r uid (c, cb, i) tr /\ digest cb = v_SHA256 v)
   \/ (exists name etag i, is_wal v = true /\ v_WALName v = Some name /\ v_ExpectedETag v = Some etag
      /\ WALKey (r_root r) (id_WALSegmentBytes (r_id r)) name = Ok key /\ cond = Match etag
      /\ b = Marshal (mkWALRetirement 1 "retired" (id_RepositoryID (r_id r)) name (v_RawBytes v) (v_SHA256 v) (ow_OperationID o))
      /\ Act (Head key) (Ok i) ∈ tr /\ i_ETag i = etag)).
Definition execute_guard (tr : trace) X (e : event X) : Prop :=
  match e with
  | Delete key => planned tr /\ owner_seen o tr /\ exists v, payload_ok v key tr
  | AbortUpload u => planned tr /\ owner_seen o tr /\ exists v, payload_ok v (up_Key u) tr /\ v_UploadID v = Some (up_ID u)
  | PutFile key b _ cond _ =>
      (key = plan_key r p /\ b = Marshal p /\ cond = Create /\ victims_ok ∅ (gp_Victims p) tr)
      \/ (planned tr /\ owner_seen o tr /\ retirement_ok key b cond tr)
  | UploadFile _ _ _ _ | CheckConditions _ | Caller _ _ => False
  | _ => True
  end.
Definition mutations (tr : trace) : nat := length (List.filter act_mutating tr).

Lemma execute_guard_reads : allows_reads execute_guard.
Proof. intros tr X e He. by destruct e. Qed.
Lemma planned_stable : stable planned.
Proof. intros tr tr' He (ig & i & H). exists ig, i. by eapply extends_elem. Qed.
Lemma quiet_mutations tr tr' : quiet tr tr' -> mutations tr' = mutations tr.
Proof.
  intros (l & -> & Hl). unfold mutations. rewrite List.filter_app, length_app.
  enough (List.filter act_mutating l = []) as -> by done.
  induction Hl as [|a l Ha _ IH]; [done|]. cbn. by rewrite Ha.
Qed.

(** The state of one destroying call: what it leaves in the trace. *)
Definition destroyed (v : Victim) (tr tr' : trace) (x : res ()) : Prop :=
  extends tr tr' /\ (mutations tr' <= S (mutations tr))%nat
  /\ (settled tr' \/ exists e, x = Err e /\ ambiguous e = true)
  /\ (x = Ok () -> is_retirement v = true -> forall uid, v_BackupUID v = Some uid -> retired_seen uid tr').

Lemma put_destroys {B} key b cond m (k : res Info -> prog B) (Q : trace -> B -> Prop) tr :
  (forall tr', quiet tr tr' -> execute_guard tr' _ (PutFile key b (mkIntegrity (len b) (digest b)) cond m)) ->
  (forall tr', quiet tr tr' -> wp execute_guard Q (k (Err (S3 LocalIO false))) tr') ->
  (forall tr' x, quiet tr tr' ->
     wp execute_guard Q (k x) (Act (PutFile key b (mkIntegrity (len b) (digest b)) cond m) x :: tr')) ->
  wp execute_guard Q (bind (put key b cond m) k) tr.
Proof.
  intros Hg He Hk. apply wp_put; [apply execute_guard_reads|done|]. intros tr' Hq. split; [by apply Hg|].
  intros x. by apply Hk.
Qed.
Lemma quiet_after {X} (e : event X) x tr tr1 : quiet tr tr1 -> extends tr (Act e x :: tr1).
Proof. intros Hq. eapply extends_trans; [by apply quiet_extends|apply extends_cons]. Qed.
Lemma mutations_step {X} (e : event X) x tr tr1 : quiet tr tr1 ->
  (mutations (Act e x :: tr1) <= S (mutations tr))%nat.
Proof.
  intros Hq. rewrite <- (quiet_mutations _ _ Hq). unfold mutations. cbn. destruct (mutating e); cbn; lia.
Qed.

Lemma retire_backup_wp g v uid tr : go_owner g = o -> settled tr -> planned tr -> owner_seen o tr -> v ∈ gp_Victims p ->
  is_retirement v = true -> v_BackupUID v = Some uid ->
  (exists c b i, commit_read r uid (c, b, i) tr /\ digest b = v_SHA256 v) ->
  wp execute_guard (destroyed v tr) (retire_backup r g v uid) tr.
Proof.
  intros Hgo Hs Hp Ho Hin Hr Hu (c & b & i & Hc & Hd). unfold retire_backup. rewrite Hgo. apply put_destroys.
  - intros tr1 Hq. right. split_and!; [eapply planned_stable; [by apply quiet_extends|done]|
      eapply owner_seen_stable; [by apply quiet_extends|done]|]. exists v. split; [done|]. left. exists uid, c, b, i.
    split_and!; try done. eapply commit_read_stable; [by apply quiet_extends|done].
  - intros tr1 Hq. cbn. split_and!; [by apply quiet_extends|rewrite (quiet_mutations _ _ Hq); lia| |done].
    left. by eapply quiet_settled.
  - intros tr1 x Hq. assert (settled tr1) as Hs1 by (by eapply quiet_settled). destruct x as [w|e].
    + cbn. split_and!; [by apply quiet_after|by apply mutations_step|left; by constructor|].
      intros _ _ uid' Eu. rewrite Hu in Eu. injection Eu as <-. right. eexists _, _, w. left.
    + match goal with |- wp _ _ _ (?a :: tr1) => set (sent := a) end.
      assert (extends tr (sent :: tr1)) as He by (by apply quiet_after).
      assert (mutations (sent :: tr1) <= S (mutations tr))%nat as Hm by (by apply mutations_step).
      destruct (Is e Precondition) eqn:Ep.
      * assert (settled (sent :: tr1)) as Hs2 by (constructor; [cbn; by rewrite Ep, andb_false_r|done]).
        cbn [bind call bindE wp]. split; [done|]. intros y.
        match goal with |- wp _ _ _ (?a :: _) => set (got := a) end.
        assert (extends tr (got :: sent :: tr1)) as He' by (eapply extends_trans; [exact He|apply extends_cons]).
        assert (mutations (got :: sent :: tr1) <= S (mutations tr))%nat as Hm' by exact Hm.
        assert (settled (got :: sent :: tr1)) as Hs3 by (by constructor).
        destruct y as [[old i']|e']; [|by split_and!; auto].
        cbn [bind]. destruct (strict old smallLimit) as [ret|] eqn:Eg; [|by split_and!; auto].
        split_and!; [done|done|by left|]. intros Hok _ uid' Eu. rewrite Hu in Eu. injection Eu as <-.
        left. exists old, i', ret. split; [left|]. split; [done|]. by eapply Retirement_validate_uid.
      * split_and!; [done|done| |done].
        destruct (ambiguous e) eqn:Ea; [right; by exists e|]. left. constructor; [cbn; by rewrite Ea|done].
Qed.

Lemma call_destroys v (e : event (res ())) tr : execute_guard tr _ e -> settled tr -> is_retirement v = false ->
  (forall x, unsettled (Act e x) = open_answer x) -> wp execute_guard (destroyed v tr) (call e) tr.
Proof.
  intros Hg Hs Hr He. cbn. split; [done|]. intros x.
  split_and!; [apply extends_cons|by apply mutations_step, quiet_refl| |congruence].
  destruct x as [[]|e']; [left; constructor; [by rewrite He|done]|].
  destruct (ambiguous e') eqn:Ea; [right; by exists e'|]. left. constructor; [rewrite He; cbn; by rewrite Ea|done].
Qed.

Lemma destroy_error v tr e : settled tr -> destroyed v tr tr (Err e).
Proof. intros Hs. split_and!; [apply extends_refl|lia|by left|done]. Qed.

Lemma retire_wal_wp g v name etag tr : go_owner g = o -> settled tr -> planned tr -> owner_seen o tr -> v ∈ gp_Victims p ->
  is_wal v = true -> is_retirement v = false -> v_WALName v = Some name -> v_ExpectedETag v = Some etag ->
  (forall key, WALKey (r_root r) (id_WALSegmentBytes (r_id r)) name = Ok key ->
     exists i, Act (Head key) (Ok i) ∈ tr /\ i_ETag i = etag) ->
  wp execute_guard (destroyed v tr) (retire_wal r g v name etag) tr.
Proof.
  intros Hgo Hs Hp Ho Hin Hw Hr Hn He Hh. unfold retire_wal. rewrite Hgo. destruct (WALKey _ _ _) as [key|e] eqn:Ek; [|by apply destroy_error].
  destruct (Hh key eq_refl) as (i & Hi & Ei). unfold bindE. apply put_destroys.
  - intros tr1 Hq. right. split_and!; [eapply planned_stable; [by apply quiet_extends|done]|
      eapply owner_seen_stable; [by apply quiet_extends|done]|]. exists v. split; [done|]. right. exists name, etag, i.
    split_and!; try done. eapply extends_elem; [by apply quiet_extends|done].
  - intros tr1 Hq. cbn. split_and!; [by apply quiet_extends|rewrite (quiet_mutations _ _ Hq); lia| |done].
    left. by eapply quiet_settled.
  - intros tr1 x Hq. assert (settled tr1) as Hs1 by (by eapply quiet_settled). destruct x as [w|e]; cbn.
    + split_and!; [by apply quiet_after|by apply mutations_step|left; by constructor|congruence].
    + split_and!; [by apply quiet_after|by apply mutations_step| |done].
      destruct (ambiguous e) eqn:Ea; [right; by exists e|]. left. constructor; [cbn; by rewrite Ea|done].
Qed.

Lemma destroy_wp g v retired tr : go_owner g = o -> settled tr -> planned tr -> owner_seen o tr -> v ∈ gp_Victims p ->
  victim_ok retired v tr -> (forall uid, uid ∈ retired -> retired_seen uid tr) ->
  wp execute_guard (destroyed v tr) (destroy r g v) tr.
Proof.
  intros Hgo Hs Hp Ho Hin Hv Hret. unfold destroy, victim_ok in *. fold (is_retirement v) (is_wal v).
  destruct (is_retirement v) eqn:Er.
  { destruct Hv as (uid & c & b & i & Hu & Hc & Hd). rewrite Hu. apply retire_backup_wp; try done. by exists c, b, i. }
  destruct (is_wal v) eqn:Ew.
  { destruct Hv as (name & etag & key & i & Hn & Het & Ek & Hi & Ei & _). rewrite Hn, Het. apply retire_wal_wp; try done.
    intros key' Ek'. rewrite Ek in Ek'. injection Ek' as <-. by exists i. }
  destruct Hv as (uid & att & cl & Hu & Ha & Hcl & Hdel & Hsh). rewrite Hu, Ha.
  destruct (payload_key r v uid att) as [key|e] eqn:Ek; [|by apply destroy_error].
  assert (payload_ok v key tr) as Hok.
  { exists uid, att, cl. split_and!; try done. destruct Hdel as [Hd|Hd]; [done|]. right. left. auto. }
  wp_if as Eab.
  - destruct (v_UploadID v) as [u|] eqn:Eup; [|by apply destroy_error].
    apply call_destroys; try done. split_and!; [done|done|]. by exists v.
  - apply call_destroys; try done. split_and!; [done|done|]. by exists v.
Qed.

(** What a destructive phase over [l] leaves behind. *)
Definition phase_post (tr : trace) (n : nat) (tr' : trace) (y : GCOwner * res ()) : Prop :=
  go_owner y.1 = o /\ (settled tr' \/ go_uncertain y.1 = true) /\ (mutations tr' <= mutations tr + n)%nat.

Lemma destroy_all_wp l : forall g retired tr, go_owner g = o -> settled tr -> planned tr ->
  (forall v, v ∈ l -> v ∈ gp_Victims p) -> victims_ok retired l tr -> (forall uid, uid ∈ retired -> retired_seen uid tr) ->
  wp execute_guard (phase_post tr (length l)) (destroy_all r g l) tr.
Proof.
  induction l as [|v l IH]; intros g retired tr Hg Hs Hp Hin Hv Hret; cbn [destroy_all].
  { split_and!; [done|by left|cbn; lia]. }
  assert (forall tr' x, quiet tr tr' -> phase_post tr (length (v :: l)) tr' (g, x)) as Hstop.
  { intros tr' x Hq. split_and!; [done|left; by eapply quiet_settled|]. rewrite (quiet_mutations _ _ Hq). lia. }
  wp_if as Er; [by apply Hstop, quiet_refl|].
  assert (proves (GCOwner_check r g ;;* start_budget g) (fun g' tr' => owner_seen o tr' /\ go_owner g' = o)) as Hc.
  { seen GCOwner_check_proves with owner_seen_stable. intros []. unfold start_budget.
    apply proves_bind; [by apply reads_local|]. intros now. destruct (IsZero (go_started g)).
    - apply proves_done. intros tr' H. rewrite <- Hg. by split.
    - reject as Et. apply proves_done. intros tr' H. rewrite <- Hg. by split. }
  eapply wp_reads; [apply execute_guard_reads|exact Hc|]. intros tr1 [g1|e] Hq1 H1; [|by apply Hstop].
  destruct H1 as [Ho1 Hg1]. destruct Hv as [Hv1 Hv2].
  assert (extends tr tr1) as He1 by (by apply quiet_extends).
  apply wp_bind. eapply wp_mono; [|apply (destroy_wp _ v retired)].
  - intros tr2 [[]|e] (He & Hm & Hset & Hr); rewrite (quiet_mutations _ _ Hq1) in Hm; cbn [length].
    + destruct Hset as [Hset|(e & [=] & _)]. eapply wp_mono; [|apply (IH _ (retires retired v))]; try done.
      * intros tr3 y (P1 & P2 & P3). split_and!; [done|done|lia].
      * eapply planned_stable; [|done]. by eapply extends_trans.
      * intros x Hx. apply Hin. by right.
      * eapply victims_ok_stable; [|done]. by eapply extends_trans.
      * intros uid Huid. unfold retires in Huid. destruct (is_retirement v) eqn:Eret.
        -- destruct (v_BackupUID v) as [u|] eqn:Eu.
           ++ apply elem_of_union in Huid as [->%elem_of_singleton|Huid]; [by apply Hr|].
              eapply retired_seen_stable; [|by apply Hret]. by eapply extends_trans.
           ++ eapply retired_seen_stable; [|by apply Hret]. by eapply extends_trans.
        -- eapply retired_seen_stable; [|by apply Hret]. by eapply extends_trans.
    + split_and!; [unfold latch_owner; by destruct (ambiguous e)| |lia].
      destruct Hset as [Hset|(e' & [= <-] & Ha)]; [by left|]. right. unfold latch_owner. by rewrite Ha.
  - done.
  - by eapply quiet_settled.
  - by eapply planned_stable.
  - done.
  - apply Hin. left.
  - by eapply victim_ok_stable.
  - intros uid Hu. eapply retired_seen_stable; [done|]. by apply Hret.
Qed.

(** The order of the whole plan, checked before anything is written. *)
Definition ordered (catalog : list Entry) : Prop :=
  dependants_first catalog ∅ (gp_Victims p) /\ wal_last false (gp_Victims p).
Definition ordered_guard (catalog : list Entry) (tr : trace) X (e : event X) : Prop :=
  execute_guard tr X e /\ (mutating e = true -> ordered catalog).
Lemma ordered_guard_reads catalog : allows_reads (ordered_guard catalog).
Proof. intros tr X e He. split; [by apply execute_guard_reads|congruence]. Qed.
Lemma wp_ordered {A} catalog (Q : trace -> A -> Prop) q tr : ordered catalog -> wp execute_guard Q q tr -> wp (ordered_guard catalog) Q q tr.
Proof. intros Ho. apply wp_G_mono. by split. Qed.

Lemma execute_plan_wp g catalog tr : go_owner g = o -> settled tr -> Z.of_nat (length (gp_Victims p)) <= 128 ->
  wp (ordered_guard catalog) (phase_post tr 129) (execute_plan r g p catalog) tr.
Proof.
  intros Hg Hs Hlen. unfold execute_plan.
  eapply wp_reads; [apply ordered_guard_reads|apply validate_victims_proves|]. intros tr1 x Hq1 H1.
  assert (settled tr1) as Hs1 by (by eapply quiet_settled).
  assert (forall tr2 y, quiet tr1 tr2 -> phase_post tr 129 tr2 (g, y)) as Hstop.
  { intros tr2 y Hq. split_and!; [done|left; by eapply quiet_settled|].
    rewrite (quiet_mutations _ _ Hq), (quiet_mutations _ _ Hq1). lia. }
  destruct x as [[]|e]; [|by apply Hstop, quiet_refl]. destruct H1 as (Hv & Hd & Hw).
  apply wp_ordered; [by split|]. wp_if as Ec; [by apply Hstop, quiet_refl|]. apply put_destroys.
  - intros tr2 Hq2. left. split_and!; try done. eapply victims_ok_stable; [by apply quiet_extends|done].
  - intros tr2 Hq2. by apply Hstop.
  - intros tr2 x Hq2. assert (settled tr2) as Hs2 by (by eapply quiet_settled).
    match goal with |- wp _ _ _ (?a :: _) => set (sent := a) end.
    assert (mutations (sent :: tr2) <= S (mutations tr))%nat as Hm.
    { rewrite <- (quiet_mutations _ _ Hq1). by apply mutations_step. }
    destruct x as [w|e].
    + eapply wp_mono; [|apply (destroy_all_wp _ g ∅)]; try done.
      * intros tr3 y (P1 & P2 & P3). split_and!; [done|done|lia].
      * by constructor.
      * eexists _, w. left.
      * eapply victims_ok_stable; [|exact Hv]. eapply extends_trans; [by apply quiet_extends|apply extends_cons].
    + split_and!; [unfold latch_owner; by destruct (ambiguous e)| |lia]. unfold latch_owner.
      destruct (ambiguous e) eqn:Ea; [by right|]. left. constructor; [cbn; by rewrite Ea|done].
Qed.
End Execution.

(** The plan is one of this owner, of at most 128 victims. *)
Definition plan_of (o : Owner) (p : GCPlan) : Prop :=
  gp_RepositoryID p = id_RepositoryID (r_id r) /\ gp_OperationID p = ow_OperationID o /\ gp_ProcessID p = ow_ProcessID o
  /\ 1 <= Z.of_nat (length (gp_Victims p)) <= 128.
Lemma GCPlan_bad_false g p : GCPlan_bad r g p = false -> plan_of (go_owner g) p.
Proof. unfold GCPlan_bad, plan_of. intros H. bool_split. split_and!; try done; lia. Qed.
(** The catalog the order is checked against: the one the owner holds, or else one it lists itself. *)
Definition catalog_of (g : GCOwner) (catalog : list Entry) (tr : trace) : Prop :=
  go_catalog g = Some catalog \/ (go_catalog g = None /\ catalog_seen catalog tr).
(** The whole of [Execute]. *)
Lemma execute_wp g p :
  wp (fun tr X e => execute_guard p (go_owner g) tr X e
        /\ (mutating e = true -> plan_of (go_owner g) p /\ exists catalog, catalog_of g catalog tr /\ ordered p catalog))
     (phase_post (go_owner g) [] 129) (Execute gunzip r g p) [].
Proof.
  set (G := fun tr X (e : event X) => _). assert (allows_reads G) as HG.
  { intros tr X e He. split; [by apply execute_guard_reads|congruence]. }
  assert (forall tr g' x, quiet [] tr -> go_owner g' = go_owner g -> phase_post (go_owner g) [] 129 tr (g', x)) as Hstop.
  { intros tr g' x Hq E. split_and!; [done|left; eapply quiet_settled; [done|apply List.Forall_nil]|].
    rewrite (quiet_mutations _ _ Hq). cbn. lia. }
  unfold Execute. eapply wp_reads; [exact HG|apply GCOwner_check_proves|]. intros tr1 [[]|e] Hq1 _; [|by apply Hstop].
  wp_if as Ee; [by apply Hstop|]. cbv zeta. wp_if as Eb; [by apply Hstop|]. apply GCPlan_bad_false in Eb. cbn in Eb.
  assert (settled tr1) as Hs1 by (eapply quiet_settled; [done|apply List.Forall_nil]).
  assert (forall g' catalog tr, go_owner g' = go_owner g -> quiet [] tr -> settled tr -> catalog_of g catalog tr ->
    wp G (phase_post (go_owner g) [] 129) (execute_plan r g' p catalog) tr) as Hrun.
  { intros g' catalog tr Hg Hq Hs Hcat. pose proof Eb as (_ & _ & _ & _ & Hlen).
    eapply wp_G_mono; [|eapply wp_mono; [|exact (wp_since _ _ _ _ (execute_plan_wp p (go_owner g) g' catalog tr Hg Hs Hlen))]].
    - intros tr' X e [Hx [H1 H2]]. split; [done|]. intros Hm. split; [done|]. exists catalog. split; [|by auto].
      destruct Hcat as [Hcat|[Hn Hcat]]; [by left|right]. split; [done|]. by eapply catalog_seen_stable.
    - intros tr' y (P1 & P2 & P3). split_and!; [done|done|]. by rewrite (quiet_mutations _ _ Hq) in P3. }
  destruct (go_catalog (set_executed g)) as [catalog|] eqn:Ec; cbn in Ec; [apply Hrun; try done; by left|].
  eapply wp_reads; [exact HG|apply spoolCatalog_proves|]. intros tr2 [f|e] Hq2 Hf; [|apply Hstop; [by eapply quiet_trans|done]].
  apply Hrun; [done|by eapply quiet_trans|by eapply quiet_settled|]. by right.
Qed.
End Safety.

(** ** The properties *)
(** The object a payload request destroys. *)
Definition payload_target {X} (e : event X) : option string :=
  match e with Delete key => Some key | AbortUpload u => Some (up_Key u) | _ => None end.

(** C5: Garbage collection never destroys the payload of a usable backup.  Every DELETE or multipart abort that
    [Execute] sends names an object derived from a victim of the plan, in a claimed attempt; and
    before it is sent, storage showed that the attempt did not win its backup (no commit, or a commit of
    another attempt), or the permanent retirement marker of the backup was read or acknowledged.  (Storage
    never answers with the repository's own ErrRetired.) *)
Theorem gc_never_deletes_live gunzip r g p pre X (e : event X) key :
  emits (Execute gunzip r g p) [] pre X e -> payload_target e = Some key -> (forall uid, ~ foreign r uid pre) ->
  exists v uid att cl, v ∈ gp_Victims p /\ v_BackupUID v = Some uid /\ v_AttemptID v = Some att
  /\ payload_key r v uid att = Ok key /\ claim_read r uid att cl pre
  /\ (not_winner r uid att pre \/ retired_seen r uid pre).
Proof.
  intros He Ht Hf. pose proof (wp_emits _ _ _ _ _ _ _ (execute_wp gunzip r g p) He) as [Hg _].
  assert (exists v, payload_ok r p v key pre) as (v & uid & att & cl & H1 & H2 & H3 & H4 & H5 & H6).
  { destruct e; try discriminate Ht; cbn in Ht; injection Ht as <-; destruct Hg as (_ & _ & v & Hv);
      [by exists v|exists v; by apply Hv]. }
  exists v, uid, att, cl. split_and!; try done. destruct H6 as [?|[?|H6]]; [by left|by right|]. by apply Hf in H6.
Qed.

(** C12: The plan comes first.  When [Execute] sends any mutation, whether the owner holds a catalog or spools its own,
    the plan is one of this owner's operation, and the whole plan has been validated
    against storage in its order (for the first mutation, the creation of the plan document) or that document was
    acknowledged and the owner was seen in a valid gate (for every DELETE, abort and retirement); and
    over the catalog the owner holds, or else the complete listing of verified entries that [Execute] reads itself, no
    backup is retired after a segment, and no full before the live differentials that need it. *)
Theorem gc_plan_before_effects gunzip r g p pre X (e : event X) :
  emits (Execute gunzip r g p) [] pre X e -> mutating e = true ->
  (match e with
   | PutFile key b _ cond _ =>
       (key = plan_key r p /\ b = Marshal p /\ cond = Create /\ victims_ok r ∅ (gp_Victims p) pre)
       \/ (planned r p pre /\ owner_seen r (go_owner g) pre /\ retirement_ok r p (go_owner g) key b cond pre)
   | _ => planned r p pre /\ owner_seen r (go_owner g) pre
   end)
  /\ plan_of r (go_owner g) p
  /\ exists catalog, (go_catalog g = Some catalog \/ (go_catalog g = None /\ catalog_seen gunzip r catalog pre))
     /\ dependants_first catalog ∅ (gp_Victims p) /\ wal_last false (gp_Victims p).
Proof.
  intros He Hm. pose proof (wp_emits _ _ _ _ _ _ _ (execute_wp gunzip r g p) He) as [Hg Ho].
  split; [|by apply Ho]. destruct e; try discriminate Hm; cbn in Hg; try done; by destruct Hg as (? & ? & _).
Qed.

(** C25: The destructive phase is bounded: one execution sends at most 129 mutations, the plan and one
    for each of at most 128 victims, whatever storage answers. *)
Theorem gc_bounded_mutations gunzip r g p tr g' x :
  runs (Execute gunzip r g p) [] tr (g', x) -> (mutations tr <= 129)%nat.
Proof.
  intros Hr. pose proof (wp_runs _ _ _ _ _ _ (execute_wp gunzip r g p) Hr) as (_ & _ & H). exact H.
Qed.

(** A collection with an unknown outcome never gives the gate back.  If any mutation of [Execute] was answered
    ambiguously, [Close] of the owner it leaves behind reports ErrUncertain and reads the clock, nothing
    else: the gate keeps its owner, so no later holder is admitted over a half-applied plan. *)
Theorem gc_unsettled_keeps_gate gunzip r g p tr g' x act :
  runs (Execute gunzip r g p) [] tr (g', x) -> act ∈ tr -> unsettled act = true ->
  go_owner g' = go_owner g
  /\ forall tr' y, runs (GCOwner_Close r g') [] tr' y ->
     exists now, tr' = [Act Now now] /\ y = (set_closed g', Err ErrUncertain, now + second).
Proof.
  intros Hr Hin Ha. pose proof (wp_runs _ _ _ _ _ _ (execute_wp gunzip r g p) Hr) as (H1 & Hs & _). cbn in H1, Hs.
  assert (go_uncertain g' = true) as Hu.
  { destruct Hs as [Hs|Hs]; [|done]. unfold settled in Hs. rewrite Forall_forall in Hs. specialize (Hs act Hin). congruence. }
  split; [done|]. intros tr' y H.
  apply (wp_runs (fun _ _ _ => True)
    (fun tr' y => exists now, tr' = [Act Now now] /\ y = (set_closed g', Err ErrUncertain, now + second))) in H; [done|].
  unfold GCOwner_Close. cbn [bind call go_uncertain set_closed]. rewrite Hu. cbn. split; [done|]. intros t. by exists t.
Qed.

(** ** A concrete collection *)
Definition demo_owner : Owner := mkOwner "eeeeeeee-eeee-4eee-8eee-eeeeeeeeeeee" demo_process "gc".
Definition demo_loser : string := "ffffffff-ffff-4fff-8fff-ffffffffffff".
(** A second attempt at the published backup left a manifest behind. *)
Definition demo_garbage : list (string * string) :=
  demo_objects ++
  [(attempt demo demo_uid demo_loser +:+ "claim.json",
    Marshal (mkClaim 1 (id_RepositoryID ex_identity) demo_uid demo_loser demo_process (digest (Marshal demo_request))));
   (attempt demo demo_uid demo_loser +:+ "manifest.pg.json", demo_file)].
Definition demo_owned : Gate :=
  mkGate 1 (id_RepositoryID ex_identity) "8" "99999999-9999-4999-8999-999999999999" (Some demo_owner) (Some []).
Definition demo_collecting : memory :=
  let m := memory_of demo_now demo_garbage in
  mkMemory (me_objects (store_object m (r_root demo +:+ "gate.json") (Marshal demo_owned) ∅).2) (me_next m) (me_now m) [].
Definition demo_victim : Victim :=
  mkVictim "delete-manifest" (Some demo_uid) (Some demo_loser) None None None None None (digest (Marshal demo_request)) 0.
Definition demo_retire : Victim :=
  mkVictim "retire-backup" (Some demo_uid) None None None None None None (digest (Marshal demo_commit)) 0.
Definition demo_gc : GCOwner := mkGCOwner demo_owner zero_time (Some [mkEntry demo_commit (digest (Marshal demo_commit)) demo_now false]) 0 false false false.
Definition demo_plan : GCPlan :=
  GCOwner_Plan demo demo_gc "2024-05-01T11:05:00Z" (mkPolicy 3600 1) [demo_victim; demo_retire].
Definition demo_collect : prog (GCOwner * res ()) := Execute no_gunzip demo demo_gc demo_plan.
Definition demo_collected : memory := (run memory_handler demo_collect demo_collecting).2.

Lemma run_emits_within {S A} (h : handler S) (P : forall X, event X -> bool) (p : prog A) s tr :
  existsb (act_is P) tr = false -> existsb (act_is P) (run_trace h p s tr) = true ->
  exists pre X (e : event X), P X e = true /\ emits p tr pre X e /\ extends pre (run_trace h p s tr).
Proof.
  revert s tr. induction p as [a|X e k IH]; intros s tr H0 H; cbn in *; [congruence|].
  destruct (h X e s) as [x s'] eqn:Eh. destruct (P X e) eqn:EP.
  - exists tr, X, e. split; [done|]. split; [constructor|]. clear -h. assert (extends tr (Act e x :: tr)) as He by apply extends_cons.
    revert He. generalize (Act e x :: tr) as tr0, (k x) as q. intros tr0 q. revert s' tr0.
    induction q as [a|Y f k' IH]; intros s' tr0 He; cbn; [done|]. destruct (h Y f s') as [y s2]. apply IH.
    eapply extends_trans; [exact He|apply extends_cons].
  - destruct (IH x s' (Act e x :: tr)) as (pre & Y & f & Hf & He & Hx); [cbn; by rewrite EP|done|].
    exists pre, Y, f. split; [done|]. split; [by constructor 2 with x|done].
Qed.
(** A read answered with the repository's own error. *)
Definition answers_retired (a : action) : bool :=
  match a with
  | Act e x => match e in event X return X -> bool with
               | Read _ _ => fun x => match x with Err ErrRetired => true | _ => false end
               | _ => fun _ => false
               end x
  end.
Definition is_delete (X : Type) (e : event X) : bool := match e with Delete _ => true | _ => false end.
Definition demo_gc_trace : trace := run_trace memory_handler demo_collect demo_collecting [].
Lemma demo_not_foreign pre uid : extends pre demo_gc_trace -> ~ foreign demo uid pre.
Proof.
  intros He H. unfold foreign in H. apply (extends_elem _ _ _ He), list_elem_of_In in H.
  assert (existsb answers_retired demo_gc_trace = false) as Hb by (vm_compute; reflexivity).
  assert (existsb answers_retired demo_gc_trace = true) as Ht.
  { apply existsb_exists. eexists. split; [exact H|]. reflexivity. }
  exact (diff_true_false (eq_trans (eq_sym Ht) Hb)).
Qed.
Lemma gc_never_deletes_live_witness : exists pre v,
  v ∈ gp_Victims demo_plan /\ (exists uid att, v_BackupUID v = Some uid /\ v_AttemptID v = Some att
    /\ (not_winner demo uid att pre \/ retired_seen demo uid pre)).
Proof.
  destruct (run_emits_within memory_handler is_delete demo_collect demo_collecting []) as (pre & X & e & Hp & He & Hx).
  - reflexivity.
  - vm_compute. reflexivity.
  - destruct e; try discriminate Hp. unfold demo_collect in He.
    destruct (gc_never_deletes_live no_gunzip demo demo_gc demo_plan pre _ _ _ He eq_refl
      (fun uid => demo_not_foreign pre uid Hx)) as (v & uid & att & cl & H1 & H2 & H3 & _ & _ & H4).
    exists pre, v. split; [exact H1|]. exists uid, att. exact (conj H2 (conj H3 H4)).
Defined.
(** The same collection by an owner that has not inventoried: [Execute] lists the backups itself. *)
Definition demo_spooling : GCOwner := set_catalog demo_gc None.
Definition demo_spooled : prog (GCOwner * res ()) := Execute no_gunzip demo demo_spooling demo_plan.
Lemma gc_plan_before_effects_witness : exists pre, (planned demo demo_plan pre /\ owner_seen demo demo_owner pre) /\ plan_of demo demo_owner demo_plan
  /\ exists catalog, (None = Some catalog \/ (go_catalog demo_spooling = None /\ catalog_seen no_gunzip demo catalog pre))
     /\ dependants_first catalog ∅ (gp_Victims demo_plan) /\ wal_last false (gp_Victims demo_plan).
Proof.
  destruct (run_emits_within memory_handler is_delete demo_spooled demo_collecting []) as (pre & X & e & Hp & He & Hx).
  - reflexivity.
  - vm_compute. reflexivity.
  - destruct e; try discriminate Hp. unfold demo_spooled in He. exists pre.
    exact (gc_plan_before_effects no_gunzip demo demo_spooling demo_plan pre _ _ He eq_refl).
Defined.
Lemma gc_bounded_mutations_witness : mutations demo_gc_trace = 3%nat /\ (mutations demo_gc_trace <= 129)%nat.
Proof.
  split; [vm_compute; reflexivity|].
  pose proof (run_trace_runs memory_handler demo_collect demo_collecting []) as Hr. unfold demo_collect in Hr at 1.
  destruct (run memory_handler demo_collect demo_collecting).1 as [g' x].
  exact (gc_bounded_mutations no_gunzip demo demo_gc demo_plan demo_gc_trace g' x Hr).
Defined.

(** Storage that loses the answer to every DELETE. *)
Definition lossy_delete : handler memory := fun X e m =>
  match e in event X return X * memory with
  | Delete key => (Err (S3 Unknown true), (memory_handler _ (Delete key) m).2)
  | e => memory_handler _ e m
  end.
Definition demo_gc_lost : trace := run_trace lossy_delete demo_collect demo_collecting [].
Lemma gc_unsettled_keeps_gate_witness : exists g', go_owner g' = demo_owner
  /\ forall tr' y, runs (GCOwner_Close demo g') [] tr' y ->
     exists now, tr' = [Act Now now] /\ y = (set_closed g', Err ErrUncertain, now + second).
Proof.
  assert (exists act, act ∈ demo_gc_lost /\ unsettled act = true) as (act & Hin & Ha).
  { assert (existsb unsettled demo_gc_lost = true) as H by (vm_compute; reflexivity).
    apply existsb_exists in H as (act & Hin & Ha). exists act. split; [by apply list_elem_of_In|done]. }
  pose proof (run_trace_runs lossy_delete demo_collect demo_collecting []) as Hr. unfold demo_collect in Hr at 1.
  destruct (run lossy_delete demo_collect demo_collecting).1 as [g' x].
  exists g'. exact (gc_unsettled_keeps_gate no_gunzip demo demo_gc demo_plan demo_gc_lost g' x act Hr Hin Ha).
Defined.
