(* ===== verification/Lifecycle.v ===== *)
(** * Opening and initializing a repository (internal/repository/repository.go, writer.go)

    A [Repository] value exists only for a stored identity with a valid gate.  First initialization
    writes the identity and then the gate, each only over a complete inventory without data. *)

From S2P Require Import Prelude GoStrings GoTime Sha256 Errors Schema Prog Store Json Documents Repository Gate.
From S2P Require Import Memory Catalog Publication Gc GcSafety.

Definition identity_key (repositoryID : string) : string := root_of repositoryID +:+ "repository.json".
Definition with_created (id : Identity) (t : string) : Identity :=
  mkIdentity (id_Schema id) (id_RepositoryID id) (id_PostgresMajor id) (id_SystemIdentifier id) (id_WALSegmentBytes id)
    (id_WriterClusterUID id) t.

(** ** Opening *)
Definition Open (id : Identity) (workspace : string) : prog (res Repository) :=
  if is_err (Identity_Validate id) || negb (HasPrefix workspace "/") then fail ErrInvalid else
  let! st := call (Local "stat") in
  match st with
  | Some _ => fail ErrInvalid
  | None =>
      let! process := call UUID in
      let r := mkRepository id (root_of (id_RepositoryID id)) process in
      let* (b, _) := call (Read (r_root r +:+ "repository.json") smallLimit) in
      match strict b smallLimit with
      | Err _ => fail ErrIdentity
      | Ok got => if got !=? id then fail ErrIdentity else readGate r ;;* done r
      end
  end.
Definition OpenSource (repositoryID workspace : string) : prog (res Repository) :=
  if negb (validID repositoryID) then fail ErrInvalid else
  let* (b, _) := call (Read (identity_key repositoryID) smallLimit) in
  match strict b smallLimit with
  | Err e => fail e
  | Ok id => if is_err (Identity_Validate id) || (id_RepositoryID id !=? repositoryID) then fail ErrIdentity else Open id workspace
  end.

(** ** Initialization *)
Definition probe_visit (root : string) (_ : ()) (i : Info) : prog (res ()) :=
  if HasPrefix (i_Key i) (root +:+ "probes/") then done () else fail ErrIdentity.
Definition empty_visit (root : string) (_ : ()) (i : Info) : prog (res ()) :=
  if (i_Key i ==? root +:+ "repository.json") || HasPrefix (i_Key i) (root +:+ "probes/") then done () else fail ErrCorrupt.
Definition first_gate (id : Identity) (nonce : string) : Gate := mkGate 1 (id_RepositoryID id) "0" nonce None (Some []).
Definition create_gate (r : Repository) : prog (res ()) :=
  List (r_root r) MaxCatalogRecords () (empty_visit (r_root r)) ;;*
  let! nonce := call UUID in
  let! w := put (r_root r +:+ "gate.json") (Marshal (first_gate (r_id r) nonce)) Create ∅ in
  match w with
  | Ok _ => done ()
  | Err e => let! g := readGate r in match g with Ok _ => done () | Err _ => fail e end
  end.
Definition initialize (id : Identity) : prog (res ()) :=
  if is_err (Identity_Validate id) then fail ErrInvalid else
  let! process := call UUID in
  let r := mkRepository id (root_of (id_RepositoryID id)) process in
  let! read := call (Read (r_root r +:+ "repository.json") smallLimit) in
  match read with
  | Err e => if Is e NotFound then List (r_root r) MaxCatalogRecords () (probe_visit (r_root r)) else fail e
  | Ok _ => done ()
  end ;;*
  createExact (r_root r +:+ "repository.json") (Marshal id) smallLimit ;;*
  let! g := readGate r in
  match g with
  | Ok _ => done ()
  | Err e => if Is e NotFound then create_gate r else fail e
  end.
Definition Initialize (id : Identity) (workspace : string) : prog (res Repository) :=
  if is_err (Identity_Validate id) then fail ErrInvalid else
  call CheckBucketSafety ;;*
  let! probe := call UUID in
  call (CheckConditions (root_of (id_RepositoryID id) +:+ "probes/" +:+ probe)) ;;*
  initialize id ;;*
  Open id workspace.

(** ** The writer *)
Definition open_writer (expected : Identity) (workspace : string) : prog (res Repository) :=
  let* r := OpenSource (id_RepositoryID expected) workspace in
  if with_created expected (id_CreatedAt (r_id r)) !=? r_id r then fail ErrIdentity else done r.
(** The creation time: the stored one, or now for a new repository. *)
Definition creation_time (expected : Identity) : prog (res Identity) :=
  let! now := call Now in
  let fresh := with_created expected (format_rfc3339nano now) in
  let! read := call (Read (identity_key (id_RepositoryID expected)) smallLimit) in
  match read with
  | Ok (b, _) =>
      match strict b smallLimit with
      | Err _ => fail ErrCorrupt
      | Ok existing =>
          if is_err (Identity_Validate existing) then fail ErrCorrupt else
          let expected := with_created fresh (id_CreatedAt existing) in
          if expected !=? existing then fail ErrIdentity else done expected
      end
  | Err e => if Is e NotFound then done fresh else fail e
  end.
Definition OpenWriter (expected : Identity) (workspace : string) : prog (res Repository) :=
  let! x := open_writer expected workspace in
  match x with
  | Ok r => done r
  | Err e =>
      if negb (Is e NotFound) then fail e else
      let* id := creation_time expected in
      let! y := Initialize id workspace in
      match y with
      | Ok r => done r
      | Err e =>
          let! z := open_writer id workspace in
          match z with Ok r => done r | Err _ => fail e end
      end
  end.

(** ** Evidence *)
(** A complete inventory below the root with nothing but what [ok] accepts. *)
Definition inventory_of (root : string) (ok : string -> bool) (tr : trace) : Prop := exists items,
  Act (ListObjects root MaxCatalogRecords) (items, Ok ()) ∈ tr /\ Forall (fun i => ok (i_Key i) = true) items.
Definition is_probe (root key : string) : bool := HasPrefix key (root +:+ "probes/").
Definition is_bare (root key : string) : bool := (key ==? root +:+ "repository.json") || is_probe root key.
Definition missing (key : string) (limit : Z) (tr : trace) : Prop :=
  exists e, Act (Read key limit) (Err e) ∈ tr /\ Is e NotFound = true.
(** The stored identity is byte for byte this one: its creation was acknowledged or it was read back. *)
Definition identity_stored (id : Identity) (tr : trace) : Prop :=
  (exists ig i, Act (PutFile (identity_key (id_RepositoryID id)) (Marshal id) ig Create ∅) (Ok i) ∈ tr)
  \/ (exists i, Act (Read (identity_key (id_RepositoryID id)) smallLimit) (Ok (Marshal id, i)) ∈ tr).
Definition gate_valid_seen (r : Repository) (tr : trace) : Prop := exists g b i,
  Act (Read (gate_key r) gateLimit) (Ok (b, i)) ∈ tr /\ strict b gateLimit = Ok g /\ gate_ok (r_id r) g.
(** What every opened repository rests on. *)
Definition opened (r : Repository) (tr : trace) : Prop :=
  r_root r = root_of (id_RepositoryID (r_id r)) /\ Identity_Validate (r_id r) = Ok () /\ Act UUID (r_process r) ∈ tr
  /\ (exists b i, Act (Read (identity_key (id_RepositoryID (r_id r))) smallLimit) (Ok (b, i)) ∈ tr /\ strict b smallLimit = Ok (r_id r))
  /\ gate_valid_seen r tr.

Lemma inventory_of_stable root ok : stable (inventory_of root ok).
Proof. intros tr tr' He (items & H1 & H2). exists items. split; [by eapply extends_elem|done]. Qed.
Lemma missing_stable key limit : stable (missing key limit).
Proof. intros tr tr' He (e & H1 & H2). exists e. split; [by eapply extends_elem|done]. Qed.
Lemma identity_stored_stable id : stable (identity_stored id).
Proof.
  intros tr tr' He [(ig & i & H)|(i & H)]; [left; exists ig, i|right; exists i]; by eapply extends_elem.
Qed.
Lemma gate_valid_seen_stable r : stable (gate_valid_seen r).
Proof. intros tr tr' He (g & b & i & H1 & H2). exists g, b, i. split; [by eapply extends_elem|done]. Qed.
Lemma opened_stable r : stable (opened r).
Proof.
  intros tr tr' He (H1 & H2 & H3 & (b & i & H4 & H5) & H6).
  split_and!; [done|done|by eapply extends_elem| |by eapply gate_valid_seen_stable].
  exists b, i. split; [by eapply extends_elem|done].
Qed.

Lemma is_err_false {A} (x : res A) : is_err x = false -> exists a, x = Ok a.
Proof. destruct x as [a|e]; [by exists a|done]. Qed.
Lemma Open_proves id workspace : proves (Open id workspace) (fun r tr => r_id r = id /\ opened r tr).
Proof.
  unfold Open. reject as Ev. apply orb_false_iff in Ev as [Ev _]. apply is_err_false in Ev as [[] Ev].
  apply proves_bind; [by apply reads_local|]. intros [e|]; [apply proves_fail|].
  eapply reads_bind; [by apply (reads_call UUID)|]. intros process. cbv zeta.
  eapply reads_mono; [|refine (_ : proves _ (fun r tr => r_id r = id /\ r_root r = root_of (id_RepositoryID id) /\ r_process r = process
    /\ (exists b i, Act (Read (identity_key (id_RepositoryID id)) smallLimit) (Ok (b, i)) ∈ tr /\ strict b smallLimit = Ok id)
    /\ gate_valid_seen r tr))].
  - intros tr' [r|e]; [|done]. intros (H1 & H2 & H3 & H4 & H5) tr Hq Hu. split; [done|]. unfold opened. rewrite H1, H3.
    split_and!; try done. eapply extends_elem; [by apply quiet_extends|done].
  - seen (proves_call (Read (root_of (id_RepositoryID id) +:+ "repository.json") smallLimit) eq_refl) with stable_elem.
    intros [b i]. destruct (strict b smallLimit) as [got|] eqn:Es; [|apply proves_fail]. reject as Eg. bool_split. subst got.
    eapply proves_bindE; [|apply readGate_proves|].
    + intros x tr tr' He (b' & i' & H1 & H2). exists b', i'. split; [by eapply extends_elem|done].
    + intros [g gi]. apply proves_done. intros tr (b' & i' & H1 & H2) Hb. cbn in *.
      split_and!; try done; [by exists b, i|by exists g, b', i'].
Qed.
Lemma OpenSource_proves repositoryID workspace :
  proves (OpenSource repositoryID workspace) (fun r tr => id_RepositoryID (r_id r) = repositoryID /\ opened r tr).
Proof.
  unfold OpenSource. reject as Ev. eapply (proves_bindE _ _ (fun _ _ => True)); [done| |].
  { eapply proves_mono; [|by apply (proves_call (Read (identity_key repositoryID) smallLimit))]. done. }
  intros [b i]. destruct (strict b smallLimit) as [id|]; [|apply proves_fail]. reject as Ei.
  apply orb_false_iff in Ei as [_ Ei]. bool_split. eapply proves_mono; [|apply Open_proves]. by intros r tr [-> H] _.
Qed.
Lemma open_writer_proves expected workspace : proves (open_writer expected workspace)
  (fun r tr => (exists t, r_id r = with_created expected t) /\ opened r tr).
Proof.
  unfold open_writer. eapply (proves_bindE _ _ (fun r tr => opened r tr)); [apply opened_stable| |].
  - eapply proves_mono; [|apply OpenSource_proves]. by intros r tr [_ H].
  - intros r. reject as Ei. bool_split. apply proves_done. intros tr H. split; [|done]. by exists (id_CreatedAt (r_id r)).
Qed.
Lemma creation_time_proves expected : proves (creation_time expected) (fun id _ => exists t, id = with_created expected t).
Proof.
  unfold creation_time. apply proves_bind; [by apply reads_local|]. intros now. cbv zeta.
  apply proves_bind; [by apply reads_local|]. intros [[b i]|e].
  - destruct (strict b smallLimit) as [existing|]; [|apply proves_fail]. reject as Ev. reject as Ee. apply proves_done.
    intros _. by eexists.
  - destruct (Is e NotFound); [|apply proves_fail]. apply proves_done. intros _. by eexists.
Qed.
Lemma List_filter root ok (visit : () -> Info -> prog (res ())) :
  (forall i, proves (visit () i) (fun _ _ => ok (i_Key i) = true)) ->
  proves (List root MaxCatalogRecords () visit) (fun _ => inventory_of root ok).
Proof.
  intros Hv. eapply proves_mono; [|apply (proves_List _ _ _ _ (fun items _ _ => Forall (fun i => ok (i_Key i) = true) items))].
  - intros [] tr (items & H1 & H2). by exists items.
  - by intros pre [] tr tr'.
  - done.
  - intros pre [] i. eapply proves_mono; [|apply Hv]. intros [] tr H Hpre. apply Forall_app. split; [done|]. by constructor.
Qed.

(** ** What initialization writes *)
Section Guard.
Context (expected : Identity).

(** The identity is first written over an inventory of probes, and rewritten only where one was read. *)
Definition identity_write_ok (id : Identity) (tr : trace) : Prop :=
  (exists b i, Act (Read (identity_key (id_RepositoryID id)) smallLimit) (Ok (b, i)) ∈ tr)
  \/ (missing (identity_key (id_RepositoryID id)) smallLimit tr
      /\ inventory_of (root_of (id_RepositoryID id)) (is_probe (root_of (id_RepositoryID id))) tr).
(** The gate is created only where it was missing, beside the exact identity and no data at all. *)
Definition gate_write_ok (id : Identity) (tr : trace) : Prop :=
  identity_stored id tr /\ missing (root_of (id_RepositoryID id) +:+ "gate.json") gateLimit tr
  /\ inventory_of (root_of (id_RepositoryID id)) (is_bare (root_of (id_RepositoryID id))) tr.
Definition init_guard (tr : trace) X (e : event X) : Prop :=
  match e with
  | PutFile key b _ cond md => cond = Create /\ md = ∅ /\ exists t, let id := with_created expected t in
      Identity_Validate id = Ok () /\
      ((key = identity_key (id_RepositoryID id) /\ b = Marshal id /\ identity_write_ok id tr)
       \/ (key = root_of (id_RepositoryID id) +:+ "gate.json" /\ (exists nonce, b = Marshal (first_gate id nonce)) /\ gate_write_ok id tr))
  | CheckConditions prefix => HasPrefix prefix (root_of (id_RepositoryID expected) +:+ "probes/") = true /\ Act CheckBucketSafety (Ok ()) ∈ tr
  | UploadFile _ _ _ _ | Delete _ | AbortUpload _ | Caller _ _ => False
  | _ => True
  end.
Lemma init_guard_reads : allows_reads init_guard.
Proof. intros tr X e He. by destruct e. Qed.

Lemma identity_write_ok_stable id : stable (identity_write_ok id).
Proof.
  intros tr tr' He [(b & i & H)|[H1 H2]]; [left; exists b, i; by eapply extends_elem|].
  right. split; [by eapply missing_stable|by eapply inventory_of_stable].
Qed.
Lemma gate_write_ok_stable id : stable (gate_write_ok id).
Proof.
  intros tr tr' He (H1 & H2 & H3).
  split_and!; [by eapply identity_stored_stable|by eapply missing_stable|by eapply inventory_of_stable].
Qed.

Lemma createExact_wp {B} id tr (k : res Info -> prog (res B)) Q : (exists t, id = with_created expected t) -> Identity_Validate id = Ok () ->
  identity_write_ok id tr ->
  (forall tr' e, extends tr tr' -> wp init_guard Q (k (Err e)) tr') ->
  (forall tr' i, extends tr tr' -> identity_stored id tr' -> wp init_guard Q (k (Ok i)) tr') ->
  wp init_guard Q (bind (createExact (identity_key (id_RepositoryID id)) (Marshal id) smallLimit) k) tr.
Proof.
  intros (t & Hid) Hv Hw He Hk. apply wp_bind. unfold createExact.
  assert (forall tr1 e, extends tr tr1 -> wp init_guard (fun tr' a => wp init_guard Q (k a) tr')
    (let! got := call (Read (identity_key (id_RepositoryID id)) smallLimit) in
     match got with
     | Err _ => fail e
     | Ok (got, i) => if negb (got ==? Marshal id) then fail ErrIdentity else done i
     end) tr1) as Hre.
  { intros tr1 e Hx. split; [done|]. intros x.
    assert (extends tr (Act (Read (identity_key (id_RepositoryID id)) smallLimit) x :: tr1)) as Hx1
      by (eapply extends_trans; [done|apply extends_cons]).
    destruct x as [[got i]|e']; [|by apply He]. cbn [bind].
    destruct (got ==? Marshal id) eqn:Eg; [|by apply He]. cbn [negb]. apply Hk; [done|]. right. exists i.
    apply bool_decide_eq_true in Eg. rewrite Eg. left. }
  apply wp_put; [apply init_guard_reads| |].
  - intros tr1 Hq. apply Hre. by apply quiet_extends.
  - intros tr1 Hq. split.
    + split; [done|]. split; [done|]. exists t. cbv zeta. rewrite <- Hid. split; [done|]. left. split_and!; try done.
      eapply identity_write_ok_stable; [by apply quiet_extends|done].
    + intros x.
      match goal with |- wp _ _ _ (?a :: _) => assert (extends tr (a :: tr1)) as Hx
        by (eapply extends_trans; [by apply quiet_extends|apply extends_cons]) end.
      destruct x as [i|e]; [|by apply Hre]. apply Hk; [done|]. left. eexists _, i. left.
Qed.

Lemma create_gate_wp r tr : (exists t, r_id r = with_created expected t) -> Identity_Validate (r_id r) = Ok () ->
  r_root r = root_of (id_RepositoryID (r_id r)) ->
  identity_stored (r_id r) tr -> missing (root_of (id_RepositoryID (r_id r)) +:+ "gate.json") gateLimit tr ->
  wp init_guard (fun _ _ => True) (create_gate r) tr.
Proof.
  intros (t & Hid) Hv Hroot Hs Hm. unfold create_gate. eapply wp_readsE; [apply init_guard_reads| |done|].
  { apply (List_filter _ (is_bare (r_root r))). intros i. unfold empty_visit. fold (is_probe (r_root r) (i_Key i)).
    fold (is_bare (r_root r) (i_Key i)). destruct (is_bare (r_root r) (i_Key i)) eqn:E; [by apply proves_done|apply proves_fail]. }
  intros tr1 [] Hq1 Hinv. split; [done|]. intros nonce. apply wp_put; [apply init_guard_reads| |].
  - intros tr2 Hq2. eapply wp_reads; [apply init_guard_reads|apply readGate_proves|]. by intros tr3 [[]|].
  - intros tr2 Hq2. split.
    + split; [done|]. split; [done|]. exists t. cbv zeta. rewrite <- Hid. split; [done|]. right.
      rewrite Hroot in *. split_and!; [done|by exists nonce|].
      assert (extends tr1 tr2) as Hx by (eapply extends_trans; [apply extends_cons|by apply quiet_extends]).
      eapply gate_write_ok_stable; [exact Hx|].
      split_and!; [eapply identity_stored_stable; [by apply quiet_extends|done]|
        eapply missing_stable; [by apply quiet_extends|done]|done].
    + intros [i|e]; [done|]. eapply wp_reads; [apply init_guard_reads|apply readGate_proves|]. by intros tr3 [[]|].
Qed.

Lemma Gate_validate_schema_only g id : schema_only (Gate_validate g id).
Proof. unfold Gate_validate, holder_step. repeat schema_step. Qed.
(** A gate that could not be read: NotFound comes from storage. *)
Lemma readGate_reads r : reads (readGate r) (fun tr x => match x with
  | Ok _ => True
  | Err e => Is e NotFound = true -> missing (r_root r +:+ "gate.json") gateLimit tr
  end).
Proof.
  unfold readGate. eapply reads_bind; [by apply reads_call|]. intros [[b i]|e].
  - destruct (strict b gateLimit) as [g|e] eqn:Es.
    + destruct (Gate_validate g (r_id r)) as [[]|e] eqn:Ev; [by apply reads_ret|]. apply reads_ret.
      intros tr tr0 _ _ Hn. pose proof (Gate_validate_schema_only g (r_id r)) as Hs. rewrite Ev in Hs. by destruct e.
    + apply reads_ret. intros tr tr0 _ _ Hn. apply strict_error in Es. destruct Es as [-> | ->]; discriminate Hn.
  - apply reads_ret. intros tr tr0 Hq H Hn. exists e. split; [|done]. eapply extends_elem; [by apply quiet_extends|done].
Qed.

Lemma initialize_wp id tr : (exists t, id = with_created expected t) -> wp init_guard (fun _ _ => True) (initialize id) tr.
Proof.
  intros Hid. unfold initialize. destruct (is_err (Identity_Validate id)) eqn:Ev; [done|].
  apply is_err_false in Ev as [[] Ev]. split; [done|]. intros process. cbv zeta. cbn [r_root].
  set (r := mkRepository id (root_of (id_RepositoryID id)) process).
  assert (reads (let! read := call (Read (identity_key (id_RepositoryID id)) smallLimit) in
    match read with
    | Err e => if Is e NotFound then List (root_of (id_RepositoryID id)) MaxCatalogRecords () (probe_visit (root_of (id_RepositoryID id))) else fail e
    | Ok _ => done ()
    end) (fun tr x => match x with Ok () => identity_write_ok id tr | Err _ => True end)) as Hread.
  { eapply reads_bind; [by apply reads_call|]. intros [[b i]|e].
    - apply reads_ret. intros tr1 tr2 Hq H. left. exists b, i. eapply extends_elem; [by apply quiet_extends|done].
    - destruct (Is e NotFound) eqn:En; [|by apply reads_ret].
      eapply reads_mono; [|apply (List_filter _ (is_probe (root_of (id_RepositoryID id))))].
      + intros tr1 [[]|e1]; [|done]. intros Hinv tr2 Hq H. right. split; [|done]. exists e. split; [|done].
        eapply extends_elem; [by apply quiet_extends|done].
      + intros i. unfold probe_visit. fold (is_probe (root_of (id_RepositoryID id)) (i_Key i)).
        destruct (is_probe _ _); [by apply proves_done|apply proves_fail]. }
  cbn [bind call]. eapply (wp_readsE _ _ _ _ _ _ init_guard_reads Hread); [done|]. intros tr1 [] Hq1 Hw.
  apply createExact_wp; try done. intros tr2 i Hx Hs.
  eapply wp_reads; [apply init_guard_reads|apply (readGate_reads r)|]. intros tr3 [g|e] Hq3 Hg; [done|].
  destruct (Is e NotFound) eqn:En; [|done]. apply create_gate_wp; try done.
  - eapply identity_stored_stable; [by apply quiet_extends|done].
  - by apply Hg.
Qed.

Definition writer_post (tr : trace) (x : res Repository) : Prop :=
  match x with Ok r => (exists t, r_id r = with_created expected t) /\ opened r tr | Err _ => True end.
Lemma with_created_twice id t t' : with_created (with_created id t) t' = with_created id t'.
Proof. reflexivity. Qed.
Lemma Initialize_wp id workspace tr : (exists t, id = with_created expected t) ->
  wp init_guard writer_post (Initialize id workspace) tr.
Proof.
  intros [t Hid]. unfold Initialize. destruct (is_err (Identity_Validate id)); [done|].
  eapply wp_readsE; [apply init_guard_reads|by apply (reads_call CheckBucketSafety)|done|]. intros tr1 [] Hq1 Hs.
  split; [done|]. intros probe. split.
  { split; [|by apply list_elem_of_further]. subst id. cbn [id_RepositoryID with_created].
    rewrite <- append_assoc. apply HasPrefix_append. }
  intros [[]|e]; [|done]. cbn. apply wp_bindE. eapply wp_mono; [|apply initialize_wp; by exists t].
  intros tr2 [[]|e] _; [|done]. eapply wp_mono; [|apply Open_proves; apply init_guard_reads].
  intros tr3 [r|e] [_ H]; [|done]. destruct H as [H1 H2]. split; [exists t; by rewrite H1|done].
Qed.
Lemma OpenWriter_wp workspace tr : wp init_guard writer_post (OpenWriter expected workspace) tr.
Proof.
  unfold OpenWriter. eapply wp_reads; [apply init_guard_reads|apply open_writer_proves|]. intros tr1 [r|e] Hq1 H1; [done|].
  wp_if as En; [done|].
  eapply wp_readsE; [apply init_guard_reads|apply creation_time_proves|done|]. intros tr2 id Hq2 [t Hid].
  apply wp_bind. eapply wp_mono; [|apply Initialize_wp; by exists t]. intros tr3 [r|e'] H3; [done|].
  eapply wp_reads; [apply init_guard_reads|apply open_writer_proves|]. intros tr4 [r|e4] Hq4 H4; [|done].
  destruct H4 as [[t' Ht'] H4]. split; [|done]. exists t'. by rewrite Ht', Hid.
Qed.
End Guard.

(** ** The properties *)
(** C13: Initialization never writes over a used repository and never adopts foreign lineage.  Every PUT of
    [OpenWriter] is create-only; it is the identity of the expected lineage, over a stored identity or over a
    complete inventory that holds only probes, or it is a fresh ownerless gate of generation 0, and then the exact
    identity is stored, the gate was read as missing, and a complete inventory held nothing but the identity and probes. *)
Theorem initialize_only_empty expected workspace pre key b ig cond md :
  emits (OpenWriter expected workspace) [] pre _ (PutFile key b ig cond md) ->
  cond = Create /\ exists t, let id := with_created expected t in Identity_Validate id = Ok () /\
    ((key = identity_key (id_RepositoryID id) /\ b = Marshal id /\ identity_write_ok id pre)
     \/ (key = root_of (id_RepositoryID id) +:+ "gate.json" /\ (exists nonce, b = Marshal (first_gate id nonce)) /\ gate_write_ok id pre)).
Proof.
  intros He. pose proof (wp_emits _ _ _ _ _ _ _ (OpenWriter_wp expected workspace []) He) as (H1 & _ & H2). by split.
Qed.

(** A writer is bound to its own lineage.  A repository that [OpenWriter] returns agrees with the expected identity in
    every field but the creation time, that identity was strictly decoded from the stored document, a valid gate
    of it was read, and its process identifier was drawn for this incarnation. *)
Theorem open_writer_binds_lineage expected workspace tr r :
  runs (OpenWriter expected workspace) [] tr (Ok r) -> (exists t, r_id r = with_created expected t) /\ opened r tr.
Proof. intros Hr. exact (wp_runs _ _ _ _ _ _ (OpenWriter_wp expected workspace []) Hr). Qed.

(** The first writer of an empty bucket. *)
Definition demo_open : prog (res Repository) := OpenWriter ex_identity "/work".
Definition demo_empty : memory := memory_of demo_now [].
Definition demo_writer : Repository :=
  mkRepository (with_created ex_identity (format_rfc3339nano demo_now)) (root_of (id_RepositoryID ex_identity)) (memory_uuid 6).
Example demo_open_result : (run memory_handler demo_open demo_empty).1 = Ok demo_writer.
Proof. vm_compute. reflexivity. Qed.
Definition is_gate_put (X : Type) (e : event X) : bool :=
  match e with PutFile key _ _ _ _ => key ==? root_of (id_RepositoryID ex_identity) +:+ "gate.json" | _ => false end.
Lemma initialize_only_empty_witness : exists pre t, gate_write_ok (with_created ex_identity t) pre.
Proof.
  destruct (run_emits memory_handler is_gate_put demo_open demo_empty []) as (pre & X & e & Hp & He).
  - reflexivity.
  - vm_compute. reflexivity.
  - destruct e; try discriminate Hp. unfold demo_open in He.
    destruct (initialize_only_empty ex_identity "/work" pre _ _ _ _ _ He) as (_ & t & _ & [(Hk & _)|(_ & _ & H)]).
    + exfalso. cbn [is_gate_put] in Hp. apply bool_decide_eq_true in Hp. rewrite Hk in Hp. vm_compute in Hp. discriminate Hp.
    + exists pre, t. exact H.
Defined.
Lemma open_writer_binds_lineage_witness : opened demo_writer (run_trace memory_handler demo_open demo_empty []).
Proof.
  pose proof (run_trace_runs memory_handler demo_open demo_empty []) as Hr. rewrite demo_open_result in Hr.
  unfold demo_open in Hr at 1. exact (proj2 (open_writer_binds_lineage ex_identity "/work" _ demo_writer Hr)).
Defined.
