(* ===== verification/Restore.v ===== *)
(** * Restore planning (internal/repository/recovery.go, plan.go)

    The operations of a restore reader: the archive inventory, the resolution of a target into a
    frozen plan, the selection and revalidation of its backups, and the plan file kept beside the data
    directory.  The native byte budget ([checkInput]) and the authenticated history reader are the caller's. *)

From S2P Require Import Prelude GoStrings GoTime Sha256 Errors Schema WalNames RecoveryPlan Prog Store Json Documents.
From S2P Require Import ProgRules Disk Repository Gate Transfer Memory Catalog Publication Gc GcSafety Lifecycle.

#[export] Instance json_Target : Json Target := mkJson Target
  (fun v => JObject [
     ("kind", @to_json _ json_string (tg_Kind v)); ("value", @to_json _ json_string (tg_Value v));
     ("exclusive", @to_json _ json_bool (tg_Exclusive v));
     ("backup_uid", @to_json _ (json_ptr json_string) (tg_BackupUID v));
     ("timeline", @to_json _ uint32 (tg_Timeline v))])
  (fun j => fields ["kind"; "value"; "exclusive"; "backup_uid"; "timeline"] of j as l in
     kind_ ← field json_string "kind" l; value_ ← field json_string "value" l;
     exclusive_ ← field json_bool "exclusive" l; backupuid_ ← field (json_ptr json_string) "backup_uid" l;
     timeline_ ← field uint32 "timeline" l;
     Some (mkTarget kind_ value_ exclusive_ backupuid_ timeline_)).

#[export] Instance json_Timeline : Json Timeline := mkJson Timeline
  (fun v => JObject [
     ("id", @to_json _ uint32 (tl_ID v)); ("fork_lsn", @to_json _ (json_ptr json_string) (tl_ForkLSN v))])
  (fun j => fields ["id"; "fork_lsn"] of j as l in
     id_ ← field uint32 "id" l; forklsn_ ← field (json_ptr json_string) "fork_lsn" l;
     Some (mkTimeline id_ forklsn_)).

#[export] Instance json_Plan : Json Plan := mkJson Plan
  (fun v => JObject [
     ("schema", @to_json _ int64 (p_Schema v)); ("source", @to_json _ json_Identity (p_Source v));
     ("destination_repository_id", @to_json _ json_string (p_DestinationRepositoryID v));
     ("target_cluster_uid", @to_json _ json_string (p_TargetClusterUID v));
     ("bootstrap_sha256", @to_json _ json_string (p_BootstrapSHA256 v));
     ("operation_id", @to_json _ json_string (p_OperationID v));
     ("lifetime_hold_id", @to_json _ json_string (p_LifetimeHoldID v));
     ("reader_hold_id", @to_json _ json_string (p_ReaderHoldID v));
     ("target", @to_json _ json_Target (p_Target v)); ("path", @to_json _ (json_list json_Timeline) (p_Path v));
     ("chain", @to_json _ (json_list json_Commit) (p_Chain v));
     ("required_archive", @to_json _ (json_slice json_WALRange) (p_RequiredArchive v))])
  (fun j => fields ["schema"; "source"; "destination_repository_id"; "target_cluster_uid"; "bootstrap_sha256";
                    "operation_id"; "lifetime_hold_id"; "reader_hold_id"; "target"; "path"; "chain";
                    "required_archive"] of j as l in
     schema_ ← field int64 "schema" l; source_ ← field json_Identity "source" l;
     destinationrepositoryid_ ← field json_string "destination_repository_id" l;
     targetclusteruid_ ← field json_string "target_cluster_uid" l;
     bootstrapsha256_ ← field json_string "bootstrap_sha256" l;
     operationid_ ← field json_string "operation_id" l;
     lifetimeholdid_ ← field json_string "lifetime_hold_id" l;
     readerholdid_ ← field json_string "reader_hold_id" l; target_ ← field json_Target "target" l;
     path_ ← field (json_list json_Timeline) "path" l; chain_ ← field (json_list json_Commit) "chain" l;
     requiredarchive_ ← field (json_slice json_WALRange) "required_archive" l;
     Some (mkPlan schema_ source_ destinationrepositoryid_ targetclusteruid_ bootstrapsha256_ operationid_
         lifetimeholdid_ readerholdid_ target_ path_ chain_ requiredarchive_)).

Section Restore.
Context (gunzip : string -> option (string * string)) (r : Repository).
Abbreviation segment_bytes := (id_WALSegmentBytes (r_id r)).

(** ** Reading under a restore hold *)
Definition ReadSource {A} (h : Hold) (fn : prog (res A)) : prog (res A) :=
  if ho_Kind (h_holder h) !=? "restore-reader" then fail ErrIdentity else
  Hold_check r h ;;* fn.

Definition archive_name (names : list string) (i : Info) : prog (res (list string)) :=
  let prefix := r_root r +:+ "wal/" in
  match Split "/" (TrimPrefix (i_Key i) prefix) with
  | [dir; name] =>
      if negb (HasPrefix (i_Key i) prefix) || negb (String.length dir =? 8)%nat
         || (MaxCatalogRecords <=? Z.of_nat (length names)) then fail ErrCorrupt else
      match walTimeline name segment_bytes with
      | Err _ => fail ErrCorrupt
      | Ok t => if dir !=? sprintf_08X t then fail ErrCorrupt else done (names ++ [name])
      end
  | _ => fail ErrCorrupt
  end.
Definition ArchiveNames (h : Hold) : prog (res (list string)) :=
  ReadSource h (List (r_root r +:+ "wal/") MaxCatalogRecords [] archive_name).

(** ** Selection *)
Definition bad_shape (path : list Timeline) : bool :=
  existsb (fun '(i, t) => (tl_ID t =? 0)
    || match (i : nat), tl_ForkLSN t with O, Some _ => true | S _, None => true | _, _ => false end) (imap pair path).
Definition choose_visit (t : Target) (path : list Timeline) (chosen : option Commit) (en : Entry) : prog (res (option Commit)) :=
  done (choose_step t path chosen (en_Commit en, en_Retired en)).
(** The chain: the winner, after its full parent when it is a differential. *)
Definition chain_of (c : Commit) : prog (res (list Commit)) :=
  if c_Kind c ==? "differential" then
    match c_ParentBackupUID c with
    | None => fail Panic
    | Some uid => let* (p, _, _) := readCommit r uid in done [p; c]
    end
  else done [c].
Definition bind_plan (h : Hold) (template : Plan) (chain : list Commit) : Plan :=
  mkPlan 1 (r_id r) (p_DestinationRepositoryID template) (ho_TargetClusterUID (h_holder h)) (p_BootstrapSHA256 template)
    (ho_OperationID (h_holder h)) (ho_OperationID (h_holder h)) (ho_ID (h_holder h)) (p_Target template) (p_Path template)
    chain (p_RequiredArchive template).
Definition Select (h : Hold) (catalog : Catalog) (template : Plan) : prog (res Plan) :=
  if (ct_hold catalog !=? h_holder h) || (ho_Kind (h_holder h) !=? "restore-reader") then fail ErrIdentity else
  if is_err (Target_validate (p_Target template)) then fail ErrInvalid else
  if (Z.of_nat (length (p_Path template)) =? 0) || (1024 <? Z.of_nat (length (p_Path template)))
     || bad_shape (p_Path template) then fail ErrInvalid else
  let* chosen := Catalog_Visit r h catalog None (choose_visit (p_Target template) (p_Path template)) in
  match chosen with
  | None => fail ErrBlocked
  | Some chosen =>
      Hold_check r h ;;*
      let* (c, b, _) := readCommit r (c_BackupUID chosen) in
      verifyWinner gunzip r c b ;;*
      let* chain := chain_of c in
      let p := bind_plan h template chain in
      match Plan_Validate p with Err e => fail e | Ok () => done p end
  end.

(** ** Revalidation under a fresh reader *)
Definition revalidate (c : Commit) : prog (res ()) :=
  let* (got, b, _) := readCommit r (c_BackupUID c) in
  if digest (Marshal c) !=? digest (Marshal got) then fail ErrIdentity else verifyWinner gunzip r got b.
Definition with_reader (p : Plan) (id : string) : Plan :=
  mkPlan (p_Schema p) (p_Source p) (p_DestinationRepositoryID p) (p_TargetClusterUID p) (p_BootstrapSHA256 p) (p_OperationID p)
    (p_LifetimeHoldID p) id (p_Target p) (p_Path p) (p_Chain p) (p_RequiredArchive p).
Definition ValidatePlan (h : Hold) (p : Plan) : prog (res Plan) :=
  Hold_check r h ;;*
  if (ho_Kind (h_holder h) !=? "restore-reader") || is_err (Plan_Validate p) || (p_Source p !=? r_id r)
     || (p_TargetClusterUID p !=? ho_TargetClusterUID (h_holder h)) || (p_OperationID p !=? ho_OperationID (h_holder h))
  then fail ErrIdentity else
  visit_all (p_Chain p) () (fun _ => revalidate) ;;*
  done (with_reader p (ho_ID (h_holder h))).

(** ** Resolution *)
Section Resolve.
Context (checkInput : Commit -> res ()) (readHistory : string -> prog (res string)).

Fixpoint read_histories (histories : gset Z) (acc : gmap Z (list Timeline) * gset Z) (ids : list Z)
  : prog (res (gmap Z (list Timeline) * gset Z)) :=
  match ids with
  | [] => done acc
  | t :: ids =>
      if t =? 1 then read_histories histories acc ids else
      if negb (bool_decide (t ∈ histories)) then fail ErrCorrupt else
      let* b := readHistory (sprintf_08X t +:+ ".history") in
      match history_step histories acc t b with
      | Err e => fail e
      | Ok acc => read_histories histories acc ids
      end
  end.
Definition check_budget (h : Hold) (selected : Commit) : prog (res ()) :=
  match checkInput selected with
  | Err e => fail e
  | Ok () =>
      if c_Kind selected ==? "differential"
      then ReadSource h (let* parent := readParent r selected in Ret (checkInput parent)) else done ()
  end.
Definition with_target (t : Target) (timeline : Z) : Target :=
  mkTarget (tg_Kind t) (tg_Value t) (tg_Exclusive t) (tg_BackupUID t) timeline.
Definition with_coverage (p : Plan) (t : Target) (path : list Timeline) (ranges : list WALRange) : Plan :=
  mkPlan (p_Schema p) (p_Source p) (p_DestinationRepositoryID p) (p_TargetClusterUID p) (p_BootstrapSHA256 p) (p_OperationID p)
    (p_LifetimeHoldID p) (p_ReaderHoldID p) t path (p_Chain p) (Some ranges).
(** From the resolved path on: choose, check the budget, freeze the coverage, select. *)
Definition resolve_path (h : Hold) (catalog : Catalog) (template : Plan) (st : archive_state) (t : Target) (path : list Timeline)
  : prog (res Plan) :=
  if (Z.of_nat (length path) =? 0) || is_err (Target_validate t) then fail ErrInvalid else
  let* selected := Catalog_Visit r h catalog None (choose_visit t path) in
  match selected with
  | None => fail ErrBlocked
  | Some selected =>
      check_budget h selected ;;*
      match required_archive segment_bytes (av_segments st) t path selected with
      | Err e => fail e
      | Ok ranges => Select h catalog (with_coverage template t path ranges)
      end
  end.
Definition timeline_visit (s : gset Z) (en : Entry) : prog (res (gset Z)) :=
  done (if en_Retired en then s else {[c_Timeline (en_Commit en)]} ∪ s).
Definition Resolve (h : Hold) (catalog : Catalog) (template : Plan) (names : list string) : prog (res Plan) :=
  if (ct_hold catalog !=? h_holder h) || (MaxCatalogRecords <? Z.of_nat (length names)) then fail ErrInvalid else
  match resolve_names segment_bytes names with
  | Err e => fail e
  | Ok st =>
      let* commits := Catalog_Visit r h catalog (av_timelines st) timeline_visit in
      let target := tg_Timeline (p_Target template) in
      let ids := known_timelines commits target in
      if (Z.of_nat (length ids) =? 0) || (1024 <? Z.of_nat (length ids)) then fail ErrCapacity else
      let* (paths, anc) := read_histories (av_histories st) initial_paths ids in
      match target_timeline ids anc target with
      | Err e => fail e
      | Ok timeline =>
          resolve_path h catalog template st (with_target (p_Target template) timeline) (default [] (paths !! timeline))
      end
  end.
End Resolve.
End Restore.

(** ** The plan file

    A plan is written aside in the directory, synced, closed and renamed over recovery.json, and then the directory is synced; the
    name aside is removed at the end, whatever happened. *)
Definition local {A} (what : string) (k : prog (res A)) : prog (res A) :=
  let! e := call (Local what) in match e with Some e => fail e | None => k end.
Definition on_disk {A} (op : disk_op) (k : prog (res A)) : prog (res A) :=
  let! e := call (Disk op) in match e with Some e => fail e | None => k end.
Definition plan_file : string := "recovery.json".
Definition plan_aside (id : string) : string := "recovery-" +:+ id +:+ ".json".
Definition write_plan (name b : string) : prog (res ()) :=
  let! w := on_disk (DWrite name b) (on_disk (DSync name) (done ())) in
  let! ce := call (Disk (DClose name)) in
  match w with
  | Err e => fail e
  | Ok () =>
      match ce with
      | Some e => fail e
      | None => on_disk (DRename name plan_file) (local "open dir" (on_disk DSyncDir (done ())))
      end
  end.
Definition SavePlan (directory : string) (p : Plan) : prog (res ()) :=
  if is_err (Plan_Validate p) || negb (HasPrefix directory "/") then fail ErrInvalid else
  let b := Marshal p in
  if commitLimit <? len b then fail ErrCapacity else
  local "open root" (
  let! id := call UUID in
  let name := plan_aside id in
  on_disk (DCreate name) (
  let! x := write_plan name b in
  let! _ := call (Disk (DRemove name)) in
  Ret x)).
(** [file]: the bytes under the name recovery.json, if it exists. *)
Definition ReadPlan (file : option string) : prog (res Plan) :=
  local "open root" (
  match file with
  | None => fail ErrOther
  | Some b =>
      local "open" (
      let! st := call (Local "stat") in
      if match st with Some _ => true | None => commitLimit <? len b end then fail ErrCapacity else
      local "read" (
      if negb (ValidString b) then fail ErrInvalid else
      match strict b commitLimit with
      | Err e => fail e
      | Ok p => match Plan_Validate p with Err e => fail e | Ok () => done p end
      end))
  end).
Definition any_bool (_ : bool) : Prop := True.
Lemma lawful_any_bool : lawful json_bool any_bool.
Proof. by intros v H. Qed.
#[local] Hint Resolve lawful_any_bool : lawful.
Definition target_plain (v : Target) : Prop :=
  is_text (tg_Kind v) /\ is_text (tg_Value v) /\ any_bool (tg_Exclusive v) /\
  opt_ok is_text (tg_BackupUID v) /\ is_uint32 (tg_Timeline v).
Lemma lawful_Target : lawful json_Target target_plain.
Proof. lawful_struct json_Target. Qed.
#[export] Hint Resolve lawful_Target : lawful.

Definition timeline_plain (v : Timeline) : Prop :=
  is_uint32 (tl_ID v) /\ opt_ok is_text (tl_ForkLSN v).
Lemma lawful_Timeline : lawful json_Timeline timeline_plain.
Proof. lawful_struct json_Timeline. Qed.
#[export] Hint Resolve lawful_Timeline : lawful.

Definition plan_plain (v : Plan) : Prop :=
  is_int64 (p_Schema v) /\ identity_plain (p_Source v) /\ is_text (p_DestinationRepositoryID v) /\
  is_text (p_TargetClusterUID v) /\ is_text (p_BootstrapSHA256 v) /\ is_text (p_OperationID v) /\
  is_text (p_LifetimeHoldID v) /\ is_text (p_ReaderHoldID v) /\ target_plain (p_Target v) /\
  Forall timeline_plain (p_Path v) /\ Forall commit_plain (p_Chain v) /\
  slice_ok walrange_plain (p_RequiredArchive v).
Lemma lawful_Plan : lawful json_Plan plan_plain.
Proof. lawful_struct json_Plan. Qed.
#[export] Hint Resolve lawful_Plan : lawful.
#[export] Instance laws_Plan : JsonLaws Plan := lawful_JsonLaws lawful_Plan.

(** ** What a resolved plan rests on *)
Section Evidence.
Context (gunzip : string -> option (string * string)) (r : Repository).

Lemma proves_local {A} what (k : prog (res A)) P : proves k P -> proves (local what k) P.
Proof. intros H. apply proves_bind; [by apply reads_local|]. intros [e|]; [apply proves_fail|done]. Qed.

(** A replay whose visitor only folds. *)
Lemma scan_pure {B} (f : B -> Entry -> B) entries : forall acc,
  proves (scanEntries entries acc (fun b en => done (f b en))) (fun b _ => b = foldl f acc entries).
Proof.
  intros acc. unfold scanEntries. apply proves_bind; [by apply reads_local|]. intros [e|]; [apply proves_fail|].
  revert acc. induction entries as [|en l IH]; intros acc; cbn [scan_go].
  - eapply (proves_bindE _ _ (fun _ _ => True)); [done|apply proves_check_ctx|]. intros [].
    apply proves_bind; [by apply reads_local|]. intros [e|]; [apply proves_fail|]. by apply proves_done.
  - eapply (proves_bindE _ _ (fun _ _ => True)); [done|apply proves_check_ctx|]. intros [].
    apply proves_bind; [by apply reads_local|]. intros [e|]; [apply proves_fail|].
    eapply proves_mono; [|apply IH]. by intros b tr H _.
Qed.
Definition entry_pairs (c : Catalog) : list (Commit * bool) := (fun en => (en_Commit en, en_Retired en)) <$> ct_file c.
Lemma foldl_fmap_pairs {B C D} (f : B -> D -> B) (g : C -> D) l : forall acc, foldl f acc (g <$> l) = foldl (fun b x => f b (g x)) acc l.
Proof. induction l as [|x l IH]; intros acc; [done|]. apply IH. Qed.

Lemma Visit_pure {B} h catalog (acc : B) f :
  proves (Catalog_Visit r h catalog acc (fun b en => done (f b en))) (fun b _ => b = foldl f acc (ct_file catalog)).
Proof.
  unfold Catalog_Visit. reject as Ec. seen Hold_check_proves with admitted_seen_stable. intros [].
  eapply proves_mono; [|apply scan_pure]. by intros b tr H _.
Qed.
Lemma Visit_choose h catalog t path :
  proves (Catalog_Visit r h catalog None (choose_visit t path)) (fun x _ => x = choose t path (entry_pairs catalog)).
Proof.
  eapply proves_mono; [|apply Visit_pure]. intros x tr ->. unfold choose, entry_pairs. by rewrite foldl_fmap_pairs.
Qed.

(** The selected backup: the catalog's choice, read again under its identifier and fully usable. *)
Definition selected (t : Target) (path : list Timeline) (catalog : Catalog) (chain : list Commit) (tr : trace) : Prop :=
  exists chosen c b i, choose t path (entry_pairs catalog) = Some chosen /\ last chain = Some c
  /\ commit_read r (c_BackupUID chosen) (c, b, i) tr /\ usable gunzip r c tr
  /\ Forall (fun p => exists b i, commit_read r (c_BackupUID p) (p, b, i) tr) chain.
Lemma chain_of_proves c : proves (chain_of r c) (fun chain tr => last chain = Some c
  /\ Forall (fun p => p = c \/ exists b i, commit_read r (c_BackupUID p) (p, b, i) tr) chain).
Proof.
  unfold chain_of. destruct (c_Kind c ==? "differential").
  - destruct (c_ParentBackupUID c) as [uid|]; [|apply proves_fail].
    seen readCommit_proves with commit_read_stable. intros [[p b] i]. apply proves_done. intros tr H.
    split; [done|]. assert (c_BackupUID p = uid) as Eu by apply H. constructor; [right; exists b, i; by rewrite Eu|].
    constructor; [by left|done].
  - apply proves_done. intros tr. split; [done|]. constructor; [by left|done].
Qed.
Lemma Select_proves h catalog template : proves (Select gunzip r h catalog template) (fun p tr =>
  exists chain, p = bind_plan r h template chain /\ Plan_Validate p = Ok () /\ admitted_seen r h tr
    /\ selected (p_Target template) (p_Path template) catalog chain tr).
Proof.
  unfold Select. reject as E1. reject as E2. reject as E3.
  eapply proves_bindE; [|apply Visit_choose|]; [by intros ? ? ? ? H|].
  intros [chosen|]; [|apply proves_fail]. seen Hold_check_proves with admitted_seen_stable. intros [].
  seen readCommit_proves with commit_read_stable. intros [[c b] i]. seen verifyWinner_proves with usable_stable. intros [].
  eapply proves_bindE; [|apply chain_of_proves|].
  { intros chain tr tr' He [H1 H2]. split; [done|]. eapply Forall_impl; [exact H2|].
    intros p [->|(b' & i' & H)]; [by left|right; exists b', i'; by eapply commit_read_stable]. }
  intros chain. cbv zeta. destruct (Plan_Validate _) as [[]|] eqn:Ev; [|apply proves_fail]. apply proves_done.
  intros tr [Hl Hf] Hu Hc Ha Hch. exists chain. split_and!; try done. exists chosen, c, b, i. split_and!; try done.
  eapply Forall_impl; [exact Hf|]. intros p [->|?]; [|done]. exists b, i.
  assert (c_BackupUID c = c_BackupUID chosen) as -> by apply Hc. done.
Qed.

Section Histories.
Context (authentic : string -> string -> trace -> Prop) (authentic_stable : forall n b, stable (authentic n b)).
Context (checkInput : Commit -> res ()) (readHistory : string -> prog (res string)).
Context (readHistory_authentic : forall n, proves (readHistory n) (authentic n)).

(** A path is the first timeline's, or was parsed from an authenticated history. *)
Definition path_known (t : Z) (path : list Timeline) (tr : trace) : Prop :=
  (t = 1 /\ path = [mkTimeline 1 None])
  \/ exists b, authentic (sprintf_08X t +:+ ".history") b tr /\ ParseHistory t b = Ok path.
Definition paths_known (paths : gmap Z (list Timeline)) (tr : trace) : Prop :=
  forall t path, paths !! t = Some path -> path_known t path tr.
Lemma path_known_stable t path : stable (path_known t path).
Proof. intros tr tr' He [H|(b & H1 & H2)]; [by left|]. right. exists b. split; [by eapply authentic_stable|done]. Qed.
Lemma paths_known_stable paths : stable (paths_known paths).
Proof. intros tr tr' He H t path Hp. eapply path_known_stable; [exact He|]. by apply H. Qed.

Lemma initial_known tr : paths_known initial_paths.1 tr.
Proof.
  intros t path Hp. left. change (({[1 := [mkTimeline 1 None]]} : gmap Z (list Timeline)) !! t = Some path) in Hp.
  by apply lookup_singleton_Some in Hp as [<- <-].
Qed.
Lemma read_histories_proves histories ids : forall acc,
  proves (read_histories readHistory histories acc ids) (fun x tr => paths_known acc.1 tr -> paths_known x.1 tr).
Proof.
  induction ids as [|t ids IH]; intros acc; cbn [read_histories]; [by apply proves_done|].
  destruct (t =? 1); [apply IH|]. reject as Eh.
  eapply proves_bindE; [|apply readHistory_authentic|]; [intros b; apply authentic_stable|]. intros b.
  unfold history_step. destruct acc as [paths anc]. destruct (ParseHistory t b) as [p|] eqn:Ep; cbn [res_bind]; [|apply proves_fail].
  destruct (forM _ _ _) as [anc'|]; cbn [res_bind]; [|apply proves_fail].
  eapply proves_mono; [|apply IH]. intros x tr H Hb Hk. apply H. cbn in *. intros t' path.
  destruct (decide (t' = t)) as [->|Hne].
  - rewrite lookup_insert_eq. intros [= <-]. right. by exists b.
  - rewrite lookup_insert_ne by done. apply Hk.
Qed.

Lemma check_budget_proves h c : proves (check_budget r checkInput h c) (fun _ _ => checkInput c = Ok ()).
Proof.
  unfold check_budget. destruct (checkInput c) as [[]|]; [|apply proves_fail].
  destruct (c_Kind c ==? "differential"); [|by apply proves_done]. unfold ReadSource. reject as Ek.
  seen Hold_check_proves with admitted_seen_stable. intros []. seen readParent_proves with parent_read_stable. intros p.
  destruct (checkInput p) as [[]|]; [by apply proves_done|apply proves_fail].
Qed.
Definition resolved (h : Hold) (catalog : Catalog) (template : Plan) (segs : gset (Z * Z)) (p : Plan) (tr : trace) : Prop :=
  exists timeline path chosen ranges chain,
    p = bind_plan r h (with_coverage template (with_target (p_Target template) timeline) path ranges) chain
    /\ Plan_Validate p = Ok () /\ admitted_seen r h tr /\ path_known timeline path tr
    /\ choose (p_Target p) path (entry_pairs catalog) = Some chosen /\ checkInput chosen = Ok ()
    /\ required_archive (id_WALSegmentBytes (r_id r)) segs (p_Target p) path chosen = Ok ranges
    /\ selected (p_Target p) path catalog chain tr.
Lemma Resolve_proves h catalog template names :
  proves (Resolve gunzip r checkInput readHistory h catalog template names) (fun p tr =>
    exists st, resolve_names (id_WALSegmentBytes (r_id r)) names = Ok st /\ resolved h catalog template (av_segments st) p tr).
Proof.
  unfold Resolve. reject as E1. destruct (resolve_names _ _) as [st|] eqn:En; [|apply proves_fail].
  eapply (proves_bindE _ _ (fun _ _ => True)); [done| |].
  { eapply proves_mono; [|apply (Visit_pure h catalog (av_timelines st))]. done. }
  intros commits. cbv zeta. reject as E2.
  eapply proves_bindE; [|apply read_histories_proves|].
  { intros x tr tr' He H _. eapply paths_known_stable; [exact He|]. apply H, initial_known. }
  intros [paths anc]. destruct (target_timeline _ _ _) as [timeline|]; [|apply proves_fail].
  unfold resolve_path. reject as E3.
  eapply proves_bindE; [|apply Visit_choose|]; [by intros ? ? ? ? H|].
  intros [chosen|]; [|apply proves_fail].
  eapply proves_bindE; [|apply check_budget_proves|]; [by intros ? ? ? ? H|]. intros [].
  destruct (required_archive _ _ _ _ _) as [ranges|] eqn:Er; [|apply proves_fail].
  eapply proves_mono; [|apply Select_proves]. intros p tr (chain & Hp & Hv & Ha & Hs) Hci Hch Hk _. exists st. split; [done|].
  exists timeline, (default [] (paths !! timeline)), chosen, ranges, chain. subst p. split_and!; try done.
  destruct (paths !! timeline) as [path|] eqn:Ep; [|by cbn in E3]. by apply Hk; [apply initial_known|].
Qed.
End Histories.
End Evidence.

(** ** The properties *)
Lemma proves_runs {A} (p : prog (res A)) P tr tr' a : proves p P -> runs p tr tr' (Ok a) -> P a tr'.
Proof. intros Hp Hr. by destruct (wp_runs (fun _ _ _ => True) _ _ _ _ _ (Hp _ tr (fun _ _ _ _ => I)) Hr). Qed.

(** C26: A resolved recovery plan is executable and verified.  For a caller whose history reader authenticates what it
    returns, a plan returned by [Resolve] passes [Plan.Validate], names this repository and this
    admitted reader, follows a path that is the first timeline or was parsed from an authenticated history, ends
    in the newest live eligible backup of the catalog, within the caller's byte budget, which was read
    again and found usable in every payload byte (with its parent), and every complete segment that [Coverage]
    calls remote-required is a name of the archive inventory. *)
Theorem resolve_plan_sound gunzip r (authentic : string -> string -> trace -> Prop) checkInput readHistory h catalog template names tr p :
  (forall n b, stable (authentic n b)) -> (forall n, proves (readHistory n) (authentic n)) ->
  runs (Resolve gunzip r checkInput readHistory h catalog template names) [] tr (Ok p) ->
  Plan_Validate p = Ok () /\ p_Source p = r_id r /\ p_OperationID p = ho_OperationID (h_holder h)
  /\ p_ReaderHoldID p = ho_ID (h_holder h) /\ admitted_seen r h tr
  /\ path_known authentic (tg_Timeline (p_Target p)) (p_Path p) tr
  /\ (exists chosen c b i, (chosen, false) ∈ entry_pairs catalog /\ eligible chosen (p_Target p) (p_Path p) = true
        /\ (forall x, (x, false) ∈ entry_pairs catalog -> eligible x (p_Target p) (p_Path p) = true -> newer x chosen = false)
        /\ checkInput chosen = Ok () /\ last (p_Chain p) = Some c
        /\ commit_read r (c_BackupUID chosen) (c, b, i) tr /\ usable gunzip r c tr)
  /\ (forall name bundle, String.length name = 24%nat -> Coverage p name = Ok (bundle, true) -> name ∈ names).
Proof.
  intros Hst Hh Hr. pose proof (proves_runs _ _ _ _ _ (Resolve_proves gunzip r authentic Hst checkInput readHistory Hh _ _ _ _) Hr)
    as (st & Hn & timeline & path & chosen & ranges & chain & Hp & Hv & Ha & Hk & Hc & Hb & Hq & Hs).
  assert (p_Path p = path) as Epath by (by rewrite Hp). assert (tg_Timeline (p_Target p) = timeline) as Et by (by rewrite Hp).
  assert (p_Chain p = chain) as Ech by (by rewrite Hp). assert (p_RequiredArchive p = Some ranges) as Er by (by rewrite Hp).
  assert (p_Source p = r_id r) as Es by (by rewrite Hp). rewrite Epath, Et, Ech. split_and!; try done; try by rewrite Hp.
  - destruct Hs as (chosen' & c & b & i & Hc' & Hl & Hcr & Hu & _). rewrite Hc in Hc'. injection Hc' as <-.
    pose proof (choose_spec (p_Target p) path (entry_pairs catalog)) as Hnew. rewrite Hc in Hnew. destruct Hnew as (N1 & N2 & N3).
    exists chosen, c, b, i. by split_and!.
  - intros name bundle Hlen Hcov. eapply coverage_archived; [exact Hn|exact Hq|exact Er| |exact Hlen|exact Hcov]. by rewrite Es.
Qed.

(** The backup was read again with the same content and every payload byte of it verified. *)
Definition revalidated gunzip r (c : Commit) (tr : trace) : Prop := exists got b i,
  commit_read r (c_BackupUID c) (got, b, i) tr /\ digest (Marshal c) = digest (Marshal got) /\ usable gunzip r got tr.
Lemma revalidated_stable gunzip r c : stable (revalidated gunzip r c).
Proof.
  intros tr1 tr2 He (got & b & i & H1 & H2 & H3). exists got, b, i.
  split_and!; [by eapply commit_read_stable|exact H2|by eapply usable_stable].
Qed.
Lemma revalidate_proves gunzip r c : proves (revalidate gunzip r c) (fun _ => revalidated gunzip r c).
Proof.
  unfold revalidate. seen readCommit_proves with commit_read_stable. intros [[got b] i]. reject as Ed.
  eapply proves_mono; [|apply verifyWinner_proves]. intros [] tr Hu Hc. exists got, b, i. split_and!; [done| |done].
  apply negb_false_iff, bool_decide_eq_true in Ed. exact Ed.
Qed.
Definition plan_kept gunzip r (h : Hold) (p p' : Plan) (tr : trace) : Prop :=
  p' = with_reader p (ho_ID (h_holder h)) /\ admitted_seen r h tr /\ Plan_Validate p = Ok () /\ p_Source p = r_id r
  /\ p_TargetClusterUID p = ho_TargetClusterUID (h_holder h) /\ p_OperationID p = ho_OperationID (h_holder h)
  /\ Forall (fun c => revalidated gunzip r c tr) (p_Chain p).
Lemma ValidatePlan_proves gunzip r h p : proves (ValidatePlan gunzip r h p) (plan_kept gunzip r h p).
Proof.
  unfold ValidatePlan. seen Hold_check_proves with admitted_seen_stable. intros []. reject as Eg.
  apply orb_false_iff in Eg as [Eg E5]. apply orb_false_iff in Eg as [Eg E4]. apply orb_false_iff in Eg as [Eg E3].
  apply orb_false_iff in Eg as [E1 E2]. bool_split. destruct (Plan_Validate p) as [[]|] eqn:Ev; [|done].
  eapply (proves_bindE _ _ (fun _ tr => Forall (fun c => revalidated gunzip r c tr) (p_Chain p))).
  - intros [] tr1 tr2 He Hl. eapply Forall_impl; [exact Hl|]. intros c Hc. by eapply revalidated_stable.
  - apply (proves_visit_all _ (revalidate gunzip r)); [apply revalidated_stable|intros c _; apply revalidate_proves].
  - intros []. apply proves_done. intros tr Hl Ha. by split_and!.
Qed.
(** A restarted restore keeps its backups.  [ValidatePlan] under a fresh reader returns the saved plan with only the reader
    replaced, and only after every backup of its chain was read again with the same digest and
    verified in every payload byte; the plan is valid and belongs to this repository, target and operation. *)
Theorem validate_plan_keeps_chain gunzip r h p tr p' :
  runs (ValidatePlan gunzip r h p) [] tr (Ok p') -> plan_kept gunzip r h p p' tr.
Proof. apply proves_runs, ValidatePlan_proves. Qed.

(** Reading a plan file back: the plan, or a local fault. *)
Definition local_fault (tr : trace) : Prop := exists what e, Act (Local what) (Some e) ∈ tr.
Lemma local_wp {A} what (k : prog (res A)) (Q : trace -> res A -> Prop) tr :
  (forall e, Q (Act (Local what) (Some e) :: tr) (Err e)) -> wp (fun _ _ _ => True) Q k (Act (Local what) None :: tr) ->
  wp (fun _ _ _ => True) Q (local what k) tr.
Proof. intros He Hk. split; [done|]. intros [e|]; [apply He|apply Hk]. Qed.
Lemma ReadPlan_wp p tr : Plan_Validate p = Ok () -> plan_plain p -> len (Marshal p) <= commitLimit ->
  wp (fun _ _ _ => True) (fun tr x => x = Ok p \/ local_fault tr) (ReadPlan (Some (Marshal p))) tr.
Proof.
  intros Hv Hp Hl. assert (forall what (e : error) (tr' : trace) (x : res Plan), x = Ok p \/ local_fault (Act (Local what) (Some e) :: tr')) as Hf.
  { intros what e tr' x. right. exists what, e. left. }
  unfold ReadPlan. apply local_wp; [intros; apply Hf|]. apply local_wp; [intros; apply Hf|]. split; [done|].
  intros [e|]; [apply Hf|]. cbn [bind]. rewrite (proj2 (Z.ltb_ge _ _) Hl). apply local_wp; [intros; apply Hf|].
  pose proof (strict_marshal (L := laws_Plan) p commitLimit Hp Hl) as Hs.
  assert (ValidString (Marshal p) = true) as ->.
  { destruct (ValidString (Marshal p)) eqn:E; [done|]. unfold strict in Hs. rewrite E in Hs.
    rewrite (proj2 (Z.ltb_ge _ _) Hl) in Hs. discriminate Hs. }
  rewrite Hs, Hv. left. reflexivity.
Qed.
Lemma wp_true {A} (p : prog A) tr : wp (fun _ _ _ => True) (fun _ _ => True) p tr.
Proof. revert tr. induction p as [a|X e k IH]; intros tr; [done|]. split; [done|]. intros x. apply IH. Qed.
Section Saving.
Context (d0 : disk) (b : string).
Let whole := old_or_whole plan_file b d0.
(** The name aside has [f]; the plan is as it was. *)
Definition aside (name : string) (f : dfile) (d : disk) : Prop := untouched plan_file d0 d /\ dk_names d !! name = Some f.
Lemma aside_name id : plan_aside id <> plan_file.
Proof. done. Qed.
Definition saved (x : res ()) (d : disk) : Prop := whole d /\ (x = Ok () -> persisted plan_file b d).
Lemma saved_error e d : untouched plan_file d0 d -> saved (Err e) d.
Proof. intros H. split; [by apply untouched_whole|done]. Qed.
Lemma rename_does name : name <> plan_file -> does whole (aside name (mkDFile b true))
  (on_disk (DRename name plan_file) (local "open dir" (on_disk DSyncDir (done ())))) saved.
Proof.
  intros Hn.
  apply (does_disk _ _ (fun d => visible plan_file b d /\ dk_durable d !! plan_file = dk_durable d0 !! plan_file) whole).
  - intros d [H _]. by apply untouched_whole.
  - intros d d' [[H1 H2] H3] ->. destruct (renamed_at d name plan_file _ H3) as [H4 H5]. split; [done|]. by rewrite H5.
  - intros d d' e [[H1 H2] H3] [-> | ->]; [by apply untouched_whole|]. destruct (renamed_at d name plan_file _ H3) as [H4 H5].
    split; [by right|left]. by rewrite H5.
  - assert (forall d, visible plan_file b d /\ dk_durable d !! plan_file = dk_durable d0 !! plan_file -> whole d) as Hw by (intros d [H1 H2]; split; [by right|by left]).
    apply does_call; [done|done|]. intros [e|]; [intros d Hd; split; [auto|done]|].
    apply (does_disk _ _ (persisted plan_file b) whole); [done| | | |].
    + intros d d' [H1 _] ->. by split.
    + intros d d' e [H1 H2] [-> | ->]; [by apply Hw|]. split; by right.
    + intros d Hd. split; [by apply persisted_whole|done].
    + intros e d Hd. by split.
  - intros e d Hd. by split.
Qed.
Lemma write_plan_does name : name <> plan_file -> does whole (aside name empty_file) (write_plan name b) saved.
Proof.
  intros Hn. assert (forall op x d d', spares plan_file op -> untouched plan_file d0 d -> disk_step op x d d' -> untouched plan_file d0 d') as Hs
    by (intros; by eapply spares_untouched).
  unfold write_plan. apply (does_bind _ _ _ _ (fun w d => match w with Ok _ => aside name (mkDFile b true) d | Err _ => untouched plan_file d0 d end)).
  - apply (does_disk _ _ (aside name (mkDFile b false)) (untouched plan_file d0)).
    + intros d [H _]. by apply untouched_whole.
    + intros d d' [H1 H2] Hd. split; [by eapply (Hs (DWrite name b) None)|]. cbn in Hd. subst d'. cbn. rewrite lookup_insert, decide_True by done. unfold file_at. by rewrite H2.
    + intros d d' e [H1 H2] Hd. by eapply (Hs (DWrite name b) (Some e)).
    + apply (does_disk _ _ (aside name (mkDFile b true)) (untouched plan_file d0)).
      * intros d [H _]. by apply untouched_whole.
      * intros d d' [H1 H2] Hd. split; [by eapply (Hs (DSync name) None)|]. cbn in Hd. subst d'. cbn. rewrite lookup_insert, decide_True by done. unfold file_at. by rewrite H2.
      * intros d d' e [H1 H2] Hd. by eapply (Hs (DSync name) (Some e)).
      * by intros d H.
      * by intros e d H.
    + by intros e d H.
  - intros [[]|e].
    + apply (does_disk _ _ (aside name (mkDFile b true)) (aside name (mkDFile b true))).
      * intros d [H _]. by apply untouched_whole.
      * by intros d d' H ->.
      * by intros d d' e H ->.
      * by apply rename_does.
      * intros e d [H _]. by apply saved_error.
    + apply (does_disk _ _ (untouched plan_file d0) (untouched plan_file d0)).
      * intros d H. by apply untouched_whole.
      * by intros d d' H ->.
      * by intros d d' e' H ->.
      * intros d H. by apply saved_error.
      * intros e' d H. by apply saved_error.
Qed.
End Saving.
Lemma removed_saved d0 b name x d d' (ans : option error) : name <> plan_file -> saved d0 b x d -> disk_step (DRemove name) ans d d' -> saved d0 b x d'.
Proof.
  intros Hn Hs Hd. assert (dk_names d' !! plan_file = dk_names d !! plan_file /\ dk_durable d' = dk_durable d) as [E1 E2].
  { destruct ans; cbn in Hd; [destruct Hd as [-> | ->]|subst d']; try done; split; try done; cbn; by rewrite lookup_delete_ne. }
  unfold saved, old_or_whole, persisted, visible in *. by rewrite E1, E2.
Qed.
Lemma SavePlan_does directory p d0 : does (old_or_whole plan_file (Marshal p) d0) (eq d0) (SavePlan directory p) (saved d0 (Marshal p)).
Proof.
  assert (forall d, d0 = d -> old_or_whole plan_file (Marshal p) d0 d) as H0 by (intros d <-; apply untouched_whole; done).
  assert (forall e d, d0 = d -> saved d0 (Marshal p) (Err e) d) as He by (intros e d <-; by apply saved_error).
  unfold SavePlan. destruct (_ || _); [exact (He _)|]. cbv zeta. destruct (commitLimit <? len (Marshal p)); [exact (He _)|].
  apply does_call; [done|done|]. intros [e|]; [exact (He _)|]. apply does_call; [done|done|]. intros id. pose proof (aside_name id) as Hn.
  apply (does_disk _ _ (aside d0 (plan_aside id) empty_file) (untouched plan_file d0)); [done| | | |].
  - intros d d' <- Hd. split; [by eapply (spares_untouched _ (DCreate (plan_aside id)) None)|]. cbn in Hd. subst d'. cbn. by rewrite lookup_insert, decide_True.
  - intros d d' e <- Hd. by eapply (spares_untouched _ (DCreate (plan_aside id)) (Some e)).
  - eapply does_bind; [by apply write_plan_does|]. intros x.
    apply (does_disk _ _ (saved d0 (Marshal p) x) (saved d0 (Marshal p) x)); [by intros d [H _]|intros; by eapply removed_saved|intros; by eapply removed_saved|by intros d H|by intros e d H].
  - intros e d H. by apply saved_error.
Qed.
Lemma SavePlan_valid directory p tr : wp (fun _ _ _ => True) (fun _ x => x = Ok () -> Plan_Validate p = Ok () /\ len (Marshal p) <= commitLimit) (SavePlan directory p) tr.
Proof.
  unfold SavePlan. wp_if as E0; [done|]. apply orb_false_iff in E0 as [E0 _]. apply is_err_false in E0 as [[] Ev].
  cbv zeta. wp_if as El; [done|]. apply Z.ltb_ge in El. eapply wp_mono; [|apply wp_true]. by intros.
Qed.

(** C27: The plan file is replaced atomically, durably, and read back exactly.  Over every initial directory, every answer of the file system and
    every partial effect a failed operation may leave: at each call of [SavePlan], as at its end, the name recovery.json is what it was or
    has exactly the whole synced document, both now and after a crash; when [SavePlan] returns success the document is the plan's, survives a
    crash, and [ReadPlan] of it returns exactly the saved plan unless a local operation of the read fails. *)
Theorem save_plan_roundtrip directory p d0 :
  (forall pre X (e : event X) d, emits (SavePlan directory p) [] pre X e -> replays d0 pre d -> old_or_whole plan_file (Marshal p) d0 d)
  /\ forall tr x d, runs (SavePlan directory p) [] tr x -> replays d0 tr d -> old_or_whole plan_file (Marshal p) d0 d
     /\ (x = Ok () -> persisted plan_file (Marshal p) d /\ Plan_Validate p = Ok ()
         /\ (plan_plain p -> forall tr' y, runs (ReadPlan (df_bytes <$> dk_names d !! plan_file)) [] tr' y -> y = Ok p \/ local_fault tr')).
Proof.
  pose proof (SavePlan_does directory p d0) as Hd. split.
  - intros pre X e d He Hr. destruct (does_emits _ _ _ _ _ _ _ _ Hd He) as (l & -> & Hl). rewrite app_nil_r in Hr. by eapply Hl.
  - intros tr x d Hx Hr. destruct (does_runs _ _ _ _ _ _ _ Hd Hx) as (l & -> & Hl). rewrite app_nil_r in Hr.
    destruct (Hl d0 d eq_refl Hr) as [H1 H2]. split; [done|]. intros Hok. specialize (H2 Hok).
    destruct (wp_runs _ _ _ _ _ _ (SavePlan_valid directory p []) Hx Hok) as [Hv Hlen]. split; [done|]. split; [done|].
    intros Hp tr' y Hy. destruct H2 as [H2 _]. unfold visible in H2. rewrite H2 in Hy. exact (wp_runs _ _ _ _ _ _ (ReadPlan_wp p [] Hv Hp Hlen) Hy).
Qed.

(** ** A concrete restore

    The demo backup recovered to the end of a second timeline that forked off at 0/3000000. *)
Definition demo_cluster : string := "66666666-6666-4666-8666-666666666666".
Definition demo_operation : string := match RestoreOperationID demo_cluster ex_hash with Ok op => op | Err _ => "" end.
Definition demo_reader : Holder :=
  mkHolder "dddddddd-dddd-4ddd-8ddd-dddddddddddd" "restore-reader" demo_cluster demo_operation (Some demo_process).
Definition demo_restore_hold : Hold := mkHold demo_reader false false.
Definition history_key (name : string) : string := r_root demo +:+ "wal/00000002/" +:+ name.
Definition demo_history : string := "1 0/3000000 promoted".
Definition demo_restoring : memory :=
  memory_of demo_now (demo_objects ++ [(history_key "00000002.history", demo_history)]).
Definition demo_restore_memory : memory :=
  let g := with_holders demo_gate (sort_slice less_holder [lifetime_holder demo_cluster demo_operation; demo_reader]) in
  (store_object demo_restoring (r_root demo +:+ "gate.json") (Marshal g) ∅).2.
Definition demo_read_history (name : string) : prog (res string) := let* (b, _) := call (Read (history_key name) (Z.shiftl 1 20)) in done b.
Definition demo_authentic (name b : string) (tr : trace) : Prop := exists i, Act (Read (history_key name) (Z.shiftl 1 20)) (Ok (b, i)) ∈ tr.
Definition demo_template : Plan :=
  mkPlan 0 ex_identity "77777777-7777-4777-8777-777777777777" "" ex_hash "" "" "" (mkTarget "latest" "" false None 0) [] [] None.
Definition demo_names : list string := ["000000010000000000000002"; "00000002.history"; "000000020000000000000003"].
Definition demo_open_catalog : Catalog := mkCatalog demo_reader demo_entries false.
Definition demo_resolve : prog (res Plan) :=
  Resolve no_gunzip demo (fun _ => Ok ()) demo_read_history demo_restore_hold demo_open_catalog demo_template demo_names.
Definition demo_plan_target : Target := mkTarget "latest" "" false None 2.
Definition demo_resolved : Plan :=
  mkPlan 1 ex_identity "77777777-7777-4777-8777-777777777777" demo_cluster ex_hash demo_operation demo_operation (ho_ID demo_reader)
    demo_plan_target [mkTimeline 1 None; mkTimeline 2 (Some "0/3000000")] [demo_commit]
    (Some [mkWALRange 1 "0/2000100" "0/3000000"; mkWALRange 2 "0/3000000" "0/4000000"]).
Example demo_resolve_result : (run memory_handler demo_resolve demo_restore_memory).1 = Ok demo_resolved.
Proof. vm_compute. reflexivity. Qed.
Lemma demo_authentic_stable n b : stable (demo_authentic n b).
Proof. intros tr tr' He (i & H). exists i. by eapply extends_elem. Qed.
Lemma demo_read_history_proves n : proves (demo_read_history n) (demo_authentic n).
Proof.
  unfold demo_read_history. seen (proves_call (Read (history_key n) (Z.shiftl 1 20)) eq_refl) with stable_elem.
  intros [b i]. apply proves_done. intros tr H. by exists i.
Qed.
Definition demo_resolve_trace : trace := run_trace memory_handler demo_resolve demo_restore_memory [].
Lemma resolve_plan_sound_witness : Plan_Validate demo_resolved = Ok ()
  /\ path_known demo_authentic 2 (p_Path demo_resolved) demo_resolve_trace
  /\ (Coverage demo_resolved "000000020000000000000003" = Ok (false, true) -> "000000020000000000000003" ∈ demo_names).
Proof.
  pose proof (run_trace_runs memory_handler demo_resolve demo_restore_memory []) as Hr. rewrite demo_resolve_result in Hr.
  unfold demo_resolve in Hr at 1.
  destruct (resolve_plan_sound no_gunzip demo demo_authentic (fun _ => Ok ()) demo_read_history demo_restore_hold
    demo_open_catalog demo_template demo_names demo_resolve_trace demo_resolved demo_authentic_stable demo_read_history_proves Hr)
    as (H1 & _ & _ & _ & _ & H2 & _ & H3).
  split; [exact H1|]. split; [exact H2|]. exact (H3 "000000020000000000000003" false eq_refl).
Defined.

Definition demo_revalidate : prog (res Plan) := ValidatePlan no_gunzip demo demo_restore_hold demo_resolved.
Example demo_revalidate_result : (run memory_handler demo_revalidate demo_restore_memory).1 = Ok demo_resolved.
Proof. vm_compute. reflexivity. Qed.
Lemma validate_plan_keeps_chain_witness :
  plan_kept no_gunzip demo demo_restore_hold demo_resolved demo_resolved (run_trace memory_handler demo_revalidate demo_restore_memory []).
Proof.
  pose proof (run_trace_runs memory_handler demo_revalidate demo_restore_memory []) as Hr. rewrite demo_revalidate_result in Hr.
  unfold demo_revalidate in Hr at 1. exact (validate_plan_keeps_chain no_gunzip demo demo_restore_hold demo_resolved _ _ Hr).
Defined.

Lemma demo_resolved_plain : plan_plain demo_resolved.
Proof. unfold plan_plain. split_and!; repeat constructor; try done; by vm_compute. Qed.
Definition demo_save : prog (res ()) := SavePlan "/state" demo_resolved.
Example demo_save_result : (run memory_handler demo_save demo_restore_memory).1 = Ok ().
Proof. vm_compute. reflexivity. Qed.
Definition demo_save_trace : trace := run_trace memory_handler demo_save demo_restore_memory [].
(** A directory with an older plan; the new one takes its place for good. *)
Definition demo_state : disk := let m := {[plan_file := mkDFile "older" true]} in mkDisk m m.
Lemma save_plan_roundtrip_witness : exists d, replays demo_state demo_save_trace d /\ persisted plan_file (Marshal demo_resolved) d
  /\ forall tr' y, runs (ReadPlan (df_bytes <$> dk_names d !! plan_file)) [] tr' y -> y = Ok demo_resolved \/ local_fault tr'.
Proof.
  pose proof (run_trace_runs memory_handler demo_save demo_restore_memory []) as Hr. rewrite demo_save_result in Hr. unfold demo_save in Hr at 1.
  destruct (replays_total demo_state demo_save_trace) as [d Hd]. exists d. split; [exact Hd|].
  destruct (save_plan_roundtrip "/state" demo_resolved demo_state) as [_ H]. destruct (H _ _ _ Hr Hd) as [_ H'].
  destruct (H' eq_refl) as (H1 & _ & H2). split; [exact H1|]. exact (H2 demo_resolved_plain).
Defined.
