(* ===== verification/WalArchive.v ===== *)
(** * The WAL archive (internal/wal/wal.go)

    Publication, retrieval and local restore of single archive files.  [gzip] and [gunzip] are the
    compressor and the decoder of one member (with what follows it), [gzip_header] whether the
    decoder accepts the header.  Files on disk are byte strings; each local operation can fail. *)

From S2P Require Import Prelude GoStrings GoTime Sha256 Errors Schema WalNames Prog Store Json Documents Repository Gate.
From S2P Require Import ProgRules Disk Transfer Memory Catalog Publication Gc GcSafety Lifecycle RecoveryPlan Restore.

(** An open source file: the first [Stat], the bytes the copy then delivered, the second [Stat]. *)
Record Source := mkSource { so_regular : bool; so_size : Z; so_read : string; so_after : Z; so_unmodified : bool }.

Section Wal.
Context (gzip : string -> string) (gunzip : string -> option (string * string)) (gzip_header : string -> bool).
Context (r : Repository) (compression : string).

Definition Limits (name : string) : res (string * Z) :=
  if (compression !=? "none") && (compression !=? "gzip") then Err WalInvalid else
  match WALKey (r_root r) (id_WALSegmentBytes (r_id r)) name with
  | Err _ => Err WalInvalid
  | Ok key => Ok (key, if segment_sized name then id_WALSegmentBytes (r_id r) else Z.shiftl 1 20)
  end.

(** [hex.DecodeString] of 32 bytes that [hex.EncodeToString] gives back *)
Definition hashValid (v : string) : bool := hashRE v.
Definition metadata (name : string) (info : Info) : res Integrity :=
  let? (_, max) := Limits name in
  if meta info "cnpg-format" ==? "wal-retired-v1" then Err WalExpired else
  match positive_int64 (meta info "cnpg-raw-bytes") with
  | None => Err WalCorrupt
  | Some raw =>
      if (max <? raw) || (segment_sized name && (raw !=? max)) || (i_Size info <? 1) || (max + Z.shiftl 1 20 <? i_Size info)
         || (meta info "cnpg-format" !=? "wal-v1") || (meta info "cnpg-system-id" !=? id_SystemIdentifier (r_id r))
         || negb (hashValid (meta info "cnpg-raw-sha256")) || negb (hashValid (meta info "cnpg-stored-sha256"))
         || ((meta info "cnpg-compression" !=? "none") && (meta info "cnpg-compression" !=? "gzip"))
      then Err WalCorrupt else Ok (mkIntegrity raw (meta info "cnpg-raw-sha256"))
  end.

(** A local operation whose failure is reported as [e]. *)
Definition local_or {A} (what : string) (e : error) (k : prog (res A)) : prog (res A) :=
  let! x := call (Local what) in match x with Some _ => fail e | None => k end.
Definition disk_or {A} (op : disk_op) (e : error) (k : prog (res A)) : prog (res A) :=
  let! x := call (Disk op) in match x with Some _ => fail e | None => k end.
(** What [copyBounded] delivers of a stored file. *)
Definition decoded (compression stored : string) : option string := raw_bytes gunzip compression stored.

(** What the copy writes to the output file: everything, or some bytes before a decoding error or up to the bound. *)
Definition delivered (file : string) (raw : Integrity) (content : option string) : disk_op :=
  match content with
  | Some out => if ig_Size raw <? len out then DWriteSome file else DWrite file out
  | None => DWriteSome file
  end.
(** The verified copy into the output file: its bytes are the result. *)
Definition copy_verified (file : string) (raw : Integrity) (compression input : string) : prog (res (Integrity * string)) :=
  let! c := call CtxErr in
  match c with
  | Some _ => fail WalCorrupt
  | None =>
      disk_or (delivered file raw (decoded compression input)) WalLocal (
      match decoded compression input with
      | None => fail WalCorrupt
      | Some out =>
          if (len out !=? ig_Size raw) || (digest out !=? ig_SHA256 raw) then fail WalCorrupt else
          check_ctx ;;* disk_or (DSync file) WalLocal (done (raw, out))
      end)
  end.
Definition same_version (raw gotRaw : Integrity) (info got : Info) : bool :=
  (ig_Size gotRaw =? ig_Size raw) && (ig_SHA256 gotRaw ==? ig_SHA256 raw)
  && (meta got "cnpg-compression" ==? meta info "cnpg-compression")
  && (meta got "cnpg-stored-sha256" ==? meta info "cnpg-stored-sha256").
(** [file]: the open file that receives the bytes. *)
Definition Retrieve (file name : string) : prog (res (Integrity * string)) :=
  match Limits name with
  | Err e => fail e
  | Ok (key, _) =>
      let! h := call (Head key) in
      match h with
      | Err e =>
          if negb (Is e HeadMissing) then fail e else
          let! g := call (Read key (Z.shiftl 64 10)) in
          match g with Err getErr => fail getErr | Ok _ => fail e end
      | Ok info =>
          match metadata name info with
          | Err e => fail e
          | Ok raw =>
              local_or "spool" WalLocal (
              let* (b, got) := call (DownloadWAL key (mkIntegrity (i_Size info) (meta info "cnpg-stored-sha256"))) in
              match metadata name got with
              | Err e => fail e
              | Ok gotRaw =>
                  if negb (same_version raw gotRaw info got) then fail WalCorrupt else
                  let input := String.substring 0 (Z.to_nat (i_Size info)) b in
                  if (meta info "cnpg-compression" ==? "gzip") && negb (gzip_header input) then fail WalCorrupt else
                  disk_or (DTruncate file) WalLocal (local_or "seek" WalLocal (
                  copy_verified file raw (meta info "cnpg-compression") input))
              end)
          end
      end
  end.

(** ** Archiving *)
Definition wal_metadata (raw stored : string) : gmap string string :=
  {["cnpg-format" := "wal-v1"; "cnpg-system-id" := id_SystemIdentifier (r_id r); "cnpg-raw-bytes" := FormatInt (len raw);
    "cnpg-raw-sha256" := digest raw; "cnpg-stored-sha256" := digest stored; "cnpg-compression" := compression]}.
Definition stored_form (raw : string) : string := if compression ==? "gzip" then gzip raw else raw.
(** After the PUT: the actual stored object is read back and compared. *)
Definition confirm (name raw : string) (putErr : option error) : prog (res ()) :=
  local_or "verify spool" WalLocal (
  let! x := Retrieve "wal-verify" name in
  match x with
  | Err e => match putErr with
             | Some pe => if Is e NotFound then fail pe else fail e
             | None => fail e
             end
  | Ok (got, _) => if (ig_Size got !=? len raw) || (ig_SHA256 got !=? digest raw) then fail WalConflict else done ()
  end).
Definition publish_wal (name key raw : string) : prog (res ()) :=
  let stored := stored_form raw in
  let! w := call (PutFile key stored (mkIntegrity (len stored) (digest stored)) Create (wal_metadata raw stored)) in
  match w with
  | Ok _ => confirm name raw None
  | Err e =>
      if negb (Is e Precondition) && negb (Is e Conflict) && negb (ambiguous e) then fail e
      else confirm name raw (Some e)
  end.
Definition Archive (name : string) (source : option Source) : prog (res ()) :=
  match Limits name with
  | Err e => fail e
  | Ok (key, max) =>
      match source with
      | None => fail WalInvalid
      | Some s =>
          local_or "stat" WalLocal (
          if negb (so_regular s) || (so_size s <? 1) || (max <? so_size s) || (segment_sized name && (so_size s !=? max))
          then fail WalInvalid else
          local_or "spool" WalLocal (
          let! c := call CtxErr in
          match c with
          | Some _ => fail WalLocal
          | None =>
              local_or "copy" WalLocal (
              local_or "stat again" WalInvalid (
              if (len (so_read s) !=? so_size s) || (so_after s !=? so_size s) || negb (so_unmodified s) then fail WalInvalid else
              local_or "stat spool" WalLocal (
              if max + Z.shiftl 1 20 <? len (stored_form (so_read s)) then fail WalLocal else
              local_or "sync" WalLocal (publish_wal name key (so_read s)))))
          end))
      end
  end.

(** ** Restoring into the physical WAL directory

    The temporary has one fixed name below the locked directory.  The result is what the destination holds afterwards: unchanged, or the
    retrieved bytes. *)
Definition restore_temp : string := ".cnpg-wal-restore".
Definition publish_retrieved (name destination : string) : prog (res string) :=
  let* (_, out) := Retrieve restore_temp name in
  disk_or (DClose restore_temp) WalLocal (check_ctx ;;* disk_or (DRename restore_temp destination) WalLocal (done out)).
Definition Restore (name destination : string) : prog (option string * res ()) :=
  match Limits name with
  | Err e => Ret (None, Err e)
  | Ok _ =>
      if (destination !=? name) && (destination !=? "RECOVERYXLOG") && (destination !=? "RECOVERYHISTORY")
      then Ret (None, Err WalInvalid) else
      let! x := local_or "open dir" WalLocal (local_or "flock" WalLocal (disk_or (DRemove restore_temp) WalLocal (
                disk_or (DCreate restore_temp) WalLocal (done ())))) in
      match x with
      | Err e => Ret (None, Err e)
      | Ok () =>
          let! y := publish_retrieved name destination in
          let! z := match y with
                    | Err e => Ret (None, Err e)
                    | Ok out => let! s := disk_or DSyncDir WalLocal (done ()) in Ret (Some out, s)
                    end in
          let! _ := call (Disk (DRemove restore_temp)) in
          Ret z
      end
  end.
End Wal.

(** ** Evidence *)
Section Evidence.
Context (gzip : string -> string) (gunzip : string -> option (string * string)) (gzip_header : string -> bool).
Context (r : Repository) (compression : string).

(** The object was found, downloaded as one version and decoded to exactly the bytes its metadata promise. *)
Definition retrieved (name : string) (raw : Integrity) (out : string) (tr : trace) : Prop := exists key max info got b,
  Limits r compression name = Ok (key, max) /\ Act (Head key) (Ok info) ∈ tr
  /\ Act (DownloadWAL key (mkIntegrity (i_Size info) (meta info "cnpg-stored-sha256"))) (Ok (b, got)) ∈ tr
  /\ metadata r compression name info = Ok raw
  /\ decoded gunzip (meta info "cnpg-compression") (String.substring 0 (Z.to_nat (i_Size info)) b) = Some out
  /\ len out = ig_Size raw /\ digest out = ig_SHA256 raw.
Lemma retrieved_stable name raw out : stable (retrieved name raw out).
Proof.
  intros tr tr' He (key & max & info & got & b & H1 & H2 & H3 & H4). exists key, max, info, got, b.
  split_and!; [done|by eapply extends_elem|by eapply extends_elem|apply H4..].
Qed.

Lemma proves_local_or {A} what e (k : prog (res A)) P : proves k P -> proves (local_or what e k) P.
Proof. intros H. apply proves_bind; [by apply reads_local|]. intros [x|]; [apply proves_fail|done]. Qed.
Lemma proves_disk_or {A} op e (k : prog (res A)) P : proves k P -> proves (disk_or op e k) P.
Proof. intros H. apply proves_bind; [by apply reads_local|]. intros [x|]; [apply proves_fail|done]. Qed.
Lemma copy_verified_proves file raw comp input : proves (copy_verified gunzip file raw comp input) (fun x _ =>
  x.1 = raw /\ decoded gunzip comp input = Some x.2 /\ len x.2 = ig_Size raw /\ digest x.2 = ig_SHA256 raw).
Proof.
  unfold copy_verified. apply proves_bind; [by apply reads_local|]. intros [c|]; [apply proves_fail|].
  apply proves_disk_or. destruct (decoded gunzip comp input) as [out|]; [|apply proves_fail]. reject as Ed. bool_split.
  eapply (proves_bindE _ _ (fun _ _ => True)); [done|apply proves_check_ctx|]. intros [].
  apply proves_disk_or, proves_done. done.
Qed.
Lemma Retrieve_proves file name : proves (Retrieve gunzip gzip_header r compression file name) (fun x tr => retrieved name x.1 x.2 tr).
Proof.
  unfold Retrieve. destruct (Limits r compression name) as [[key max]|] eqn:El; [|apply proves_fail].
  eapply reads_bind; [by apply reads_call|]. intros [info|e].
  - eapply reads_mono; [|refine (_ : proves _ (fun x tr' => Act (Head key) (Ok info) ∈ tr' -> retrieved name x.1 x.2 tr'))].
    { intros tr' [x|e]; [|done]. intros H tr Hq Hh. apply H. eapply extends_elem; [by apply quiet_extends|done]. }
    destruct (metadata r compression name info) as [raw|] eqn:Em; [|apply proves_fail]. apply proves_local_or.
    seen (proves_call (DownloadWAL key (mkIntegrity (i_Size info) (meta info "cnpg-stored-sha256"))) eq_refl) with stable_elem.
    intros [b got]. destruct (metadata r compression name got) as [gotRaw|]; [|apply proves_fail].
    reject as Es. cbv zeta. reject as Eh. apply proves_disk_or, proves_local_or.
    eapply proves_mono; [|apply copy_verified_proves]. intros [raw' out] tr (H1 & H2 & H3 & H4) Hd Hh. cbn in *. subst raw'.
    by exists key, max, info, got, b.
  - destruct (negb (Is e HeadMissing)); [by apply reads_ret|].
    eapply reads_bind; [by apply reads_local|]. intros [x|e']; by apply reads_ret.
Qed.

(** An ordinary miss comes from storage: the reason of every NotFound. *)
Definition absent (name : string) (tr : trace) : Prop := exists key max e, Limits r compression name = Ok (key, max) /\ Is e NotFound = true
  /\ (Act (Head key) (Err e) ∈ tr
      \/ (exists h, Act (Head key) (Err h) ∈ tr /\ Is h HeadMissing = true /\ Act (Read key (Z.shiftl 64 10)) (Err e) ∈ tr)
      \/ (exists ig, Act (DownloadWAL key ig) (Err e) ∈ tr) \/ Act CtxErr (Some e) ∈ tr).
Lemma Limits_error name e : Limits r compression name = Err e -> e = WalInvalid.
Proof. unfold Limits. destruct (_ && _); [congruence|]. destruct (WALKey _ _ _); congruence. Qed.
Lemma metadata_error name info e : metadata r compression name info = Err e -> Is e NotFound = false.
Proof.
  unfold metadata. destruct (Limits r compression name) as [[key max]|e'] eqn:El; cbn [res_bind].
  - destruct (_ ==? _); [by intros [= <-]|]. destruct (positive_int64 _); [|by intros [= <-]]. destruct (_ || _); by intros [= <-].
  - intros [= <-]. by rewrite (Limits_error _ _ El).
Qed.

(** Programs whose every NotFound error has a reason. *)
Definition explains {A} (p : prog (res A)) (N : trace -> Prop) : Prop :=
  reads p (fun tr x => match x with Err e => Is e NotFound = true -> N tr | Ok _ => True end).
Lemma explains_fail {A} e N : Is e NotFound = false -> explains (fail e : prog (res A)) N.
Proof. intros H. apply reads_ret. congruence. Qed.
Lemma explains_local_or {A} what e (k : prog (res A)) N : Is e NotFound = false -> explains k N -> explains (local_or what e k) N.
Proof.
  intros He Hk. eapply reads_bind; [by apply reads_local|]. intros [x|]; [apply reads_ret; intros; congruence|].
  eapply reads_mono; [|exact Hk]. by intros tr' y H tr _ _.
Qed.
Lemma explains_disk_or {A} op e (k : prog (res A)) N : Is e NotFound = false -> explains k N -> explains (disk_or op e k) N.
Proof.
  intros He Hk. eapply reads_bind; [by apply reads_local|]. intros [x|]; [apply reads_ret; intros; congruence|].
  eapply reads_mono; [|exact Hk]. by intros tr' y H tr _ _.
Qed.
Lemma explains_call {A B} (ev : event A) (k : A -> prog (res B)) N : mutating ev = false ->
  (forall a, explains (k a) (fun tr => Act ev a ∈ tr -> N tr)) -> explains (bind (call ev) k) N.
Proof.
  intros Hm Hk. eapply reads_bind; [by apply reads_call|]. intros a. eapply reads_mono; [|exact (Hk a)].
  intros tr' [x|e] H tr Hq Hin; [done|]. intros Hn. apply H; [done|]. eapply extends_elem; [by apply quiet_extends|done].
Qed.
Lemma explains_answer {A} e (N : trace -> Prop) : (forall tr, Is e NotFound = true -> N tr) -> explains (fail e : prog (res A)) N.
Proof. intros H. apply reads_ret. auto. Qed.
Lemma Retrieve_explains file name : explains (Retrieve gunzip gzip_header r compression file name) (absent name).
Proof.
  unfold Retrieve. destruct (Limits r compression name) as [[key max]|e] eqn:El; [|apply explains_fail; by rewrite (Limits_error _ _ El)].
  apply explains_call; [done|]. intros [info|e].
  - destruct (metadata r compression name info) as [raw|e] eqn:Em; [|apply explains_fail; by eapply metadata_error].
    apply explains_local_or; [done|]. apply explains_call; [done|]. intros [[b got]|e].
    2: { apply explains_answer. intros tr Hn Hd Hh. exists key, max, e. split; [done|]. split; [done|]. right. right. left. by eexists. }
    destruct (metadata r compression name got) as [gotRaw|e] eqn:Eg; [|apply explains_fail; by eapply metadata_error].
    destruct (negb _); [by apply explains_fail|]. cbv zeta. destruct (_ && _); [by apply explains_fail|].
    apply explains_disk_or; [done|]. apply explains_local_or; [done|]. apply explains_call; [done|]. intros [c|]; [by apply explains_fail|].
    apply explains_disk_or; [done|]. destruct (decoded _ _ _) as [out|]; [|by apply explains_fail].
    destruct (_ || _); [by apply explains_fail|]. apply explains_call; [done|]. intros [e|]; cbn [lift].
    + apply explains_answer. intros tr Hn Hc _ _ _. exists key, max, e. split; [done|]. split; [done|]. right. right. by right.
    + apply explains_disk_or; [done|]. by apply reads_ret.
  - destruct (Is e HeadMissing) eqn:Eh; cbn [negb].
    + apply explains_call; [done|]. intros [x|e'].
      * apply explains_fail. destruct e; try done. cbn in Eh |- *. apply bool_decide_eq_true in Eh as ->. done.
      * apply explains_answer. intros tr Hn Hr Hh. exists key, max, e'. split; [done|]. split; [done|]. right. left. by exists e.
    + apply explains_answer. intros tr Hn Hh. exists key, max, e. split; [done|]. split; [done|]. by left.
Qed.

(** *** Publication *)
Definition source_stable (s : Source) : Prop :=
  so_regular s = true /\ so_unmodified s = true /\ len (so_read s) = so_size s /\ so_after s = so_size s /\ 1 <= so_size s.
Definition archive_guard (name : string) (s : Source) (tr : trace) X (e : event X) : Prop :=
  match e with
  | PutFile key b ig cond md => (exists max, Limits r compression name = Ok (key, max) /\ so_size s <= max) /\ source_stable s
      /\ cond = Create /\ b = stored_form gzip compression (so_read s) /\ ig = mkIntegrity (len b) (digest b)
      /\ md = wal_metadata r compression (so_read s) b
  | UploadFile _ _ _ _ | Delete _ | AbortUpload _ | CheckConditions _ | Caller _ _ => False
  | _ => True
  end.
Lemma archive_guard_reads name s : allows_reads (archive_guard name s).
Proof. intros tr X e He. by destruct e. Qed.
(** The object in the archive holds bytes of this length and digest. *)
Definition archived (name raw : string) (tr : trace) : Prop := exists ig out,
  retrieved name ig out tr /\ len out = len raw /\ digest out = digest raw.
Definition archive_post (name : string) (s : Source) (tr : trace) (x : res ()) : Prop :=
  x = Ok () -> source_stable s /\ archived name (so_read s) tr.

Lemma local_or_wp {A} (G : trace -> forall X, event X -> Prop) what e (k : prog (res A)) (Q : trace -> res A -> Prop) tr : allows_reads G ->
  (forall tr', Q tr' (Err e)) -> (forall tr', quiet tr tr' -> wp G Q k tr') -> wp G Q (local_or what e k) tr.
Proof. intros HG He Hk. split; [by apply HG|]. intros [x|]; [apply He|]. apply Hk. by apply quiet_cons. Qed.
Lemma confirm_wp name s pe tr : source_stable s ->
  wp (archive_guard name s) (archive_post name s) (confirm gunzip gzip_header r compression name (so_read s) pe) tr.
Proof.
  intros Hs. unfold confirm. apply local_or_wp; [apply archive_guard_reads|done|]. intros tr1 Hq.
  eapply wp_reads; [apply archive_guard_reads|apply Retrieve_proves|]. intros tr2 [[got out]|e] Hq2 H.
  - cbn in H. wp_if as Ec; [done|]. bool_split. intros _. split; [done|]. exists got, out. split; [done|].
    destruct H as (? & ? & ? & ? & ? & _ & _ & _ & _ & _ & L1 & L2). by rewrite L1, L2.
  - destruct pe as [pe|]; [|done]. by destruct (Is e NotFound).
Qed.
Lemma Archive_wp name s tr :
  wp (archive_guard name s) (archive_post name s) (Archive gzip gunzip gzip_header r compression name (Some s)) tr.
Proof.
  pose proof (archive_guard_reads name s) as HG. unfold Archive.
  destruct (Limits r compression name) as [[key max]|e] eqn:El; [|done].
  apply local_or_wp; [done|done|]. intros tr1 _. wp_if as E1; [done|]. apply local_or_wp; [done|done|]. intros tr2 _.
  split; [done|]. intros [c|]; [done|]. apply local_or_wp; [done|done|]. intros tr3 _. apply local_or_wp; [done|done|]. intros tr4 _.
  wp_if as E2; [done|]. apply local_or_wp; [done|done|]. intros tr5 _. wp_if as E3; [done|].
  apply local_or_wp; [done|done|]. intros tr6 _. apply orb_false_iff in E1 as [E1 _]. bool_split.
  assert (source_stable s) as Hs by (by split_and!; try lia). unfold publish_wal. cbv zeta. split.
  - split; [exists max; split; [done|lia]|]. by split_and!.
  - intros [w|e]; [by apply confirm_wp|]. cbn [bind]. wp_if as Ee; [done|]. by apply confirm_wp.
Qed.

(** *** Restore *)
Lemma destinations name destination : (destination !=? name) && (destination !=? "RECOVERYXLOG") && (destination !=? "RECOVERYHISTORY") = false ->
  destination = name \/ destination = "RECOVERYXLOG" \/ destination = "RECOVERYHISTORY".
Proof.
  intros Ed. destruct (decide (destination = name)); [by left|]. destruct (decide (destination = "RECOVERYXLOG")); [by right; left|].
  destruct (decide (destination = "RECOVERYHISTORY")); [by right; right|]. rewrite !bool_decide_eq_false_2 in Ed by done. discriminate Ed.
Qed.
Lemma publish_retrieved_proves name destination :
  proves (publish_retrieved gunzip gzip_header r compression name destination) (fun out tr => exists ig, retrieved name ig out tr).
Proof.
  unfold publish_retrieved. eapply proves_bindE; [|apply Retrieve_proves|]; [intros x; apply retrieved_stable|].
  intros [ig out]. apply proves_disk_or. eapply (proves_bindE _ _ (fun _ _ => True)); [done|apply proves_check_ctx|]. intros [].
  apply proves_disk_or, proves_done. intros tr' _ H. by exists ig.
Qed.
Lemma Restore_evidence name destination tr : wp (fun _ _ _ => True) (fun tr x =>
  match x.1 with
  | Some out => (destination = name \/ destination = "RECOVERYXLOG" \/ destination = "RECOVERYHISTORY") /\ exists ig, retrieved name ig out tr
  | None => x.2 <> Ok ()
  end) (Restore gunzip gzip_header r compression name destination) tr.
Proof.
  unfold Restore. destruct (Limits r compression name) as [[key max]|e]; [|done]. wp_if as Ed; [done|]. apply destinations in Ed.
  apply wp_bind. eapply wp_mono; [|apply wp_true]. intros tr0 [[]|e] _; [|done].
  eapply wp_reads; [done|apply publish_retrieved_proves|]. intros tr1 [out|e] Hq H.
  - apply wp_bind, wp_bind. apply (wp_mono _ (fun tr _ => exists ig, retrieved name ig out tr)).
    + intros tr2 s [ig Hs]. split; [done|]. intros x. cbn. split; [done|]. exists ig. eapply retrieved_stable; [apply extends_cons|exact Hs].
    + destruct H as [ig H]. split; [done|]. intros [e|]; cbn; exists ig; (eapply retrieved_stable; [apply extends_cons|exact H]).
  - cbn [bind]. by split.
Qed.

(** *** The directory *)
Abbreviation everywhere := (fun _ : disk => True).
Lemma does_local_or {A} I S what e (k : prog (res A)) Q : (forall d, S d -> I d) -> (forall d, S d -> Q (Err e) d) -> does I S k Q -> does I S (local_or what e k) Q.
Proof. intros HI He Hk. apply does_call; [done|done|]. by intros [x|]. Qed.
(** A file operation below anything that keeps no promise about failures. *)
Lemma does_disk_or {A} (S S1 : disk -> Prop) op e (k : prog (res A)) (Q : res A -> disk -> Prop) : (forall d d', S d -> disk_step op None d d' -> S1 d') ->
  (forall d, Q (Err e) d) -> does everywhere S1 k Q -> does everywhere S (disk_or op e k) Q.
Proof. intros H1 He Hk. apply (does_disk _ _ S1 everywhere); try done. intros x d _. apply He. Qed.
Lemma does_any {A} (S : disk -> Prop) (p : prog A) : does everywhere S p (fun _ => everywhere).
Proof. revert S. induction p as [a|X e k IH]; intros S; cbn; [done|]. split; [done|]. intros x. apply IH. Qed.
Lemma does_check_ctx {A} (S : disk -> Prop) (k : prog (res A)) (Q : res A -> disk -> Prop) : (forall e d, Q (Err e) d) ->
  does everywhere S k Q -> does everywhere S (check_ctx ;;* k) Q.
Proof. intros He Hk. apply (does_call _ _ CtxErr); [done|done|]. intros [e|]; [intros d _; apply He|exact Hk]. Qed.
Definition holds_out (file : string) (x : res (Integrity * string)) (d : disk) : Prop :=
  match x with Ok (_, out) => dk_names d !! file = Some (mkDFile out true) | Err _ => True end.
Lemma copy_does file raw comp input : does everywhere (fun d => dk_names d !! file = Some empty_file) (copy_verified gunzip file raw comp input) (holds_out file).
Proof.
  unfold copy_verified. apply does_call; [done|done|]. intros [c|]; [done|].
  apply (does_disk_or _ (fun d => forall out, decoded gunzip comp input = Some out -> len out <= ig_Size raw -> dk_names d !! file = Some (mkDFile out false))); [|done|].
  - intros d d' Hd Hs out Eo Hl. rewrite Eo in Hs. unfold delivered in Hs. rewrite (proj2 (Z.ltb_ge _ _) Hl) in Hs. cbn in Hs. subst d'.
    cbn. rewrite lookup_insert, decide_True by done. unfold file_at. by rewrite Hd.
  - destruct (decoded gunzip comp input) as [out|] eqn:Eo; [|done]. destruct (_ || _) eqn:Ec; [done|]. bool_split.
    apply does_check_ctx; [done|]. apply (does_disk_or _ (fun d => dk_names d !! file = Some (mkDFile out true))); [|done|by intros d Hd].
    intros d d' Hd ->. cbn. rewrite lookup_insert, decide_True by done. unfold file_at. rewrite (Hd out); [done|done|lia].
Qed.
Lemma Retrieve_does file name : does everywhere everywhere (Retrieve gunzip gzip_header r compression file name) (holds_out file).
Proof.
  unfold Retrieve. destruct (Limits r compression name) as [[key max]|]; [|done]. apply does_call; [done|done|]. intros [info|e].
  - destruct (metadata r compression name info) as [raw|]; [|done]. apply does_local_or; [done|done|].
    apply (does_call _ _ (DownloadWAL _ _)); [done|done|]. intros [[b got]|e]; [|done]. destruct (metadata r compression name got); [|done].
    destruct (negb _); [done|]. cbv zeta. destruct (_ && _); [done|].
    apply (does_disk_or _ (fun d => dk_names d !! file = Some empty_file)); [|done|].
    + intros d d' _ ->. cbn. by rewrite lookup_insert, decide_True.
    + apply does_local_or; [done|done|]. apply copy_does.
  - destruct (negb _); [done|]. apply does_call; [done|done|]. by intros [x|e'].
Qed.
Lemma publish_retrieved_does name destination :
  does everywhere everywhere (publish_retrieved gunzip gzip_header r compression name destination)
    (fun x d => match x with Ok out => visible destination out d | Err _ => True end).
Proof.
  unfold publish_retrieved. eapply does_bind; [apply Retrieve_does|]. intros [[raw out]|e]; [|done].
  apply (does_disk_or _ (fun d => dk_names d !! restore_temp = Some (mkDFile out true))); [by intros d d' H ->|done|].
  apply does_check_ctx; [done|]. apply (does_disk_or _ (visible destination out)); [|done|by intros d H].
  intros d d' H ->. by apply renamed_at.
Qed.
Lemma temp_invalid : Limits r compression restore_temp = Err WalInvalid.
Proof. unfold Limits, WALKey, walTimeline. destruct (_ && _); [done|]. by destruct (bad_segment_bytes _). Qed.
(** When [Restore] succeeds, the destination has the retrieved bytes, now and after a crash. *)
Lemma Restore_does name destination : does everywhere everywhere (Restore gunzip gzip_header r compression name destination)
  (fun x d => forall out, x = (Some out, Ok ()) -> persisted destination out d).
Proof.
  unfold Restore. pose proof temp_invalid as Ht. destruct (Limits r compression name) as [[key max]|e] eqn:El; [|done]. destruct (_ && _) eqn:Ed; [done|].
  assert (restore_temp <> destination) as Hn.
  { apply destinations in Ed as [-> |[-> | ->]]; [|done|done]. intros <-. congruence. }
  eapply does_bind; [apply does_any|]. intros [[]|e]; [|done]. eapply does_bind; [apply publish_retrieved_does|]. intros y.
  apply (does_bind _ _ _ _ (fun z d => forall out, z = (Some out, Ok ()) -> persisted destination out d)).
  - destruct y as [out|e]; [|done]. apply (does_bind _ _ _ _ (fun s d => s = Ok () -> persisted destination out d)).
    + apply (does_disk_or _ (persisted destination out)); [|done|by intros d H _]. intros d d' H ->. by split.
    + intros s d H out' [= <- ->]. by apply H.
  - intros z. split; [done|]. intros x d (d1 & H1 & H2) out ->. specialize (H1 out eq_refl).
    assert (dk_names d !! destination = dk_names d1 !! destination /\ dk_durable d = dk_durable d1) as [E1 E2].
    { destruct x; cbn in H2; [destruct H2 as [-> | ->]|subst d]; try done; split; try done; cbn; by rewrite lookup_delete_ne. }
    unfold persisted, visible in *. by rewrite E1, E2.
Qed.
Lemma Restore_wp name destination tr : wp (fun _ _ _ => True) (fun tr x =>
  match x.1 with
  | Some out => (destination = name \/ destination = "RECOVERYXLOG" \/ destination = "RECOVERYHISTORY")
      /\ (exists ig, retrieved name ig out tr) /\ (x.2 = Ok () -> leaves (persisted destination out) tr)
  | None => x.2 <> Ok ()
  end) (Restore gunzip gzip_header r compression name destination) tr.
Proof.
  eapply wp_mono; [|apply (wp_also _ _ _ _ _ (Restore_evidence name destination tr) (does_leaves _ _ tr (Restore_does name destination)))].
  intros tr' [[out|] x] [H1 (after & l & base & -> & H2)]; cbn in *; [|done]. destruct H1 as [H1 H3]. split; [done|]. split; [done|]. intros ->.
  exists after, l, base. split; [done|]. intros d0 d Hd. by eapply H2.
Qed.
End Evidence.

(** ** The properties *)
(** A segment is acknowledged only when the archive really holds it.  If [Archive] returns success, the source did not
    change while it was read, and the object of exactly this name was found, downloaded as one version, decoded, and had
    the length and digest of the source.  The only mutation [Archive] ever sends is one create-only PUT of the
    source's stored form with its digests, so an existing object is never replaced. *)
Theorem archive_ack_verified gzip gunzip gzip_header r compression name s :
  (forall tr, runs (Archive gzip gunzip gzip_header r compression name (Some s)) [] tr (Ok ()) ->
     source_stable s /\ archived gunzip r compression name (so_read s) tr)
  /\ (forall pre X (e : event X), emits (Archive gzip gunzip gzip_header r compression name (Some s)) [] pre X e ->
     archive_guard gzip r compression name s pre X e).
Proof.
  split.
  - intros tr Hr. exact (wp_runs _ _ _ _ _ _ (Archive_wp gzip gunzip gzip_header r compression name s []) Hr eq_refl).
  - intros pre X e He. exact (wp_emits _ _ _ _ _ _ _ (Archive_wp gzip gunzip gzip_header r compression name s []) He).
Qed.

(** The end of the archive is never invented.  If [Retrieve] reports NotFound (what PostgreSQL takes for the end of WAL),
    storage itself reported it for this very object: HEAD did, or the authenticated GET after a missing HEAD, or the
    download.  No local fault, bad metadata, expired slot or digest mismatch can look like absence.
    (Context errors are not storage errors.) *)
Theorem retrieve_absence_authentic gunzip gzip_header r compression file name tr e :
  runs (Retrieve gunzip gzip_header r compression file name) [] tr (Err e) -> Is e NotFound = true ->
  (forall c, Act CtxErr (Some c) ∈ tr -> Is c NotFound = false) ->
  exists key max e', Limits r compression name = Ok (key, max) /\ Is e' NotFound = true
  /\ (Act (Head key) (Err e') ∈ tr
      \/ (exists h, Act (Head key) (Err h) ∈ tr /\ Is h HeadMissing = true /\ Act (Read key (Z.shiftl 64 10)) (Err e') ∈ tr)
      \/ (exists ig, Act (DownloadWAL key ig) (Err e') ∈ tr)).
Proof.
  intros Hr Hn Hc. destruct (wp_runs (fun _ _ _ => True) _ _ _ _ _ (Retrieve_explains gunzip gzip_header r compression file name _ [] (fun _ _ _ _ => I)) Hr)
    as [_ H]. destruct (H Hn) as (key & max & e' & H1 & H2 & [H3|[H3|[H3|H3]]]); exists key, max, e'; split_and!; try done; try tauto.
  by rewrite (Hc _ H3) in H2.
Qed.

(** PostgreSQL is only ever handed verified WAL.  When [Restore] changes the destination, which is the requested name or one of
    PostgreSQL's two recovery names, the bytes were retrieved and verified against the object's metadata, and on success every directory
    the run's file operations leave has exactly them under that name, also after a crash; success without that change is impossible. *)
Theorem restore_publishes_verified gunzip gzip_header r compression name destination tr file x :
  runs (Restore gunzip gzip_header r compression name destination) [] tr (file, x) ->
  match file with
  | Some out => (destination = name \/ destination = "RECOVERYXLOG" \/ destination = "RECOVERYHISTORY")
      /\ (exists ig, retrieved gunzip r compression name ig out tr) /\ (x = Ok () -> leaves (persisted destination out) tr)
  | None => x <> Ok ()
  end.
Proof. intros Hr. exact (wp_runs _ _ _ _ _ _ (Restore_wp gunzip gzip_header r compression name destination []) Hr). Qed.

(** ** Archiving and retrieving over a real store *)
Section Roundtrip.
Context (gzip : string -> string) (gunzip : string -> option (string * string)) (gzip_header : string -> bool).
Context (gunzip_gzip : forall b, gunzip (gzip b) = Some (b, "")) (gzip_has_header : forall b, gzip_header (gzip b) = true).
Context (r : Repository) (compression : string).

Lemma substring_all s : String.substring 0 (Z.to_nat (len s)) s = s.
Proof. unfold len. rewrite Nat2Z.id. rewrite <- (append_nil_r s) at 2. apply substring_append. Qed.
Lemma decoded_stored raw : decoded gunzip compression (stored_form gzip compression raw) = Some raw.
Proof. unfold decoded, raw_bytes, stored_form. destruct (compression ==? "gzip"); [|done]. by rewrite gunzip_gzip. Qed.
Lemma stored_header raw : (compression ==? "gzip") && negb (gzip_header (stored_form gzip compression raw)) = false.
Proof. unfold stored_form. destruct (compression ==? "gzip"); [|done]. by rewrite gzip_has_header. Qed.

(** What [Head] and [DownloadWAL] answer for the stored object. *)
Definition stored_info (m : memory) (key raw : string) : Info :=
  (store_object m key (stored_form gzip compression raw) (wal_metadata r compression raw (stored_form gzip compression raw))).1.
Lemma stored_meta m key raw :
  meta (stored_info m key raw) "cnpg-format" = "wal-v1" /\ meta (stored_info m key raw) "cnpg-system-id" = id_SystemIdentifier (r_id r)
  /\ meta (stored_info m key raw) "cnpg-raw-bytes" = FormatInt (len raw) /\ meta (stored_info m key raw) "cnpg-raw-sha256" = digest raw
  /\ meta (stored_info m key raw) "cnpg-stored-sha256" = digest (stored_form gzip compression raw)
  /\ meta (stored_info m key raw) "cnpg-compression" = compression.
Proof.
  unfold meta, stored_info, store_object, wal_metadata. cbn [i_Metadata fst].
  generalize (digest raw), (digest (stored_form gzip compression raw)), (FormatInt (len raw)), (id_SystemIdentifier (r_id r)). done.
Qed.
Definition fits (name raw : string) (max : Z) : Prop :=
  1 <= len raw <= max /\ (segment_sized name = true -> len raw = max) /\ max < 2 ^ 62
  /\ 1 <= len (stored_form gzip compression raw) <= max + Z.shiftl 1 20.
Lemma positive_int64_FormatInt n : 1 <= n < 2 ^ 63 -> positive_int64 (FormatInt n) = Some n.
Proof.
  intros Hn. unfold positive_int64, FormatInt. destruct (Z.ltb_spec n 0); [lia|].
  rewrite decimal_FormatUint by (unfold is_u64, u64_max; lia).
  destruct (Z.leb_spec 1 n), (Z.ltb_spec n (2 ^ 63)); try lia. done.
Qed.
Lemma stored_accepted m name key max raw : Limits r compression name = Ok (key, max) -> fits name raw max ->
  metadata r compression name (stored_info m key raw) = Ok (mkIntegrity (len raw) (digest raw)).
Proof.
  intros Hl (Hn & Hseg & Hmax & Hs). destruct (stored_meta m key raw) as (M1 & M2 & M3 & M4 & M5 & M6).
  assert (i_Size (stored_info m key raw) = len (stored_form gzip compression raw)) as Hsz by reflexivity.
  assert ((compression !=? "none") && (compression !=? "gzip") = false) as Hcomp.
  { unfold Limits in Hl. destruct (_ && _); [discriminate Hl|done]. }
  unfold metadata. rewrite Hl. cbn [res_bind]. rewrite M1, M2, M3, M4, M5, M6, Hsz, positive_int64_FormatInt by lia.
  unfold hashValid, hashRE. rewrite !digest_form, Hcomp.
  assert (forall x : string, (x !=? x) = false) as Hself by (intros x; by rewrite bool_decide_eq_true_2).
  rewrite !Hself.
  destruct (Z.ltb_spec max (len raw)); [lia|]. destruct (Z.ltb_spec (len (stored_form gzip compression raw)) 1); [lia|].
  destruct (Z.ltb_spec (max + Z.shiftl 1 20) (len (stored_form gzip compression raw))); [lia|].
  destruct (segment_sized name); [|reflexivity]. rewrite (Hseg eq_refl). rewrite (bool_decide_eq_true_2 (max = max)) by reflexivity. reflexivity.
Qed.

Definition after_put_memory (m : memory) (key raw : string) : memory :=
  (store_object m key (stored_form gzip compression raw) (wal_metadata r compression raw (stored_form gzip compression raw))).2.
Lemma find_stored m key raw : find_object key (me_objects (after_put_memory m key raw))
  = Some (mkObject (stored_form gzip compression raw) (stored_info m key raw)).
Proof. cbn. by rewrite bool_decide_eq_true_2. Qed.
Lemma run_local_or {A} what e (k : prog (res A)) m : run memory_handler (local_or what e k) m = run memory_handler k m.
Proof. reflexivity. Qed.
Lemma run_disk_or {A} op e (k : prog (res A)) m : run memory_handler (disk_or op e k) m = run memory_handler k m.
Proof. reflexivity. Qed.
Lemma run_bind {S A B} (h : handler S) (p : prog A) (f : A -> prog B) s :
  run h (bind p f) s = let '(a, s') := run h p s in run h (f a) s'.
Proof. revert s. induction p as [a|X e k IH]; intros s; cbn; [done|]. destruct (h X e s). apply IH. Qed.

Lemma retrieve_stored m file name key max raw : Limits r compression name = Ok (key, max) -> fits name raw max ->
  run memory_handler (Retrieve gunzip gzip_header r compression file name) (after_put_memory m key raw)
  = (Ok (mkIntegrity (len raw) (digest raw), raw), after_put_memory m key raw).
Proof.
  intros Hl Hf. pose proof (stored_accepted m name key max raw Hl Hf) as Hm. pose proof (find_stored m key raw) as Hfind.
  destruct (stored_meta m key raw) as (_ & _ & _ & _ & _ & M6).
  set (m' := after_put_memory m key raw) in *. clearbody m'. unfold Retrieve. rewrite Hl. rewrite run_bind.
  assert (run memory_handler (call (Head key)) m' = (Ok (stored_info m key raw), m')) as -> by (cbn; by rewrite Hfind).
  rewrite Hm, run_local_or. unfold bindE at 1. rewrite run_bind.
  match goal with |- context [run memory_handler (call ?e) m'] =>
    assert (run memory_handler (call e) m' = (Ok (stored_form gzip compression raw, stored_info m key raw), m')) as -> by (cbn; by rewrite Hfind) end.
  rewrite Hm. unfold same_version. rewrite Z.eqb_refl, !bool_decide_eq_true_2 by reflexivity. cbn [andb negb].
  rewrite M6. change (i_Size (stored_info m key raw)) with (len (stored_form gzip compression raw)).
  rewrite substring_all. cbv zeta. rewrite stored_header, run_disk_or, run_local_or. unfold copy_verified. rewrite run_bind.
  change (run memory_handler (call CtxErr) m') with (None : option error, m'). cbv beta iota. rewrite run_disk_or, decoded_stored.
  cbn [ig_Size ig_SHA256]. rewrite !bool_decide_eq_true_2 by reflexivity. cbn [negb orb]. reflexivity.
Qed.

(** C30: What is archived can be retrieved, byte for byte.  Over a store that works, for a free slot, a valid name and a
    stable source within the limits, and any compressor whose decoder inverts it, [Archive] succeeds, [Retrieve] then returns
    exactly the source bytes with their length and digest, and archiving the same file again also succeeds. *)
Theorem archive_retrieve_roundtrip m file name key max s :
  Limits r compression name = Ok (key, max) -> fits name (so_read s) max -> source_stable s ->
  find_object key (me_objects m) = None ->
  let m' := (run memory_handler (Archive gzip gunzip gzip_header r compression name (Some s)) m).2 in
  (run memory_handler (Archive gzip gunzip gzip_header r compression name (Some s)) m).1 = Ok ()
  /\ (run memory_handler (Retrieve gunzip gzip_header r compression file name) m').1
     = Ok (mkIntegrity (len (so_read s)) (digest (so_read s)), so_read s)
  /\ (run memory_handler (Archive gzip gunzip gzip_header r compression name (Some s)) m').1 = Ok ().
Proof.
  intros Hl Hf Hs Hfree. set (raw := so_read s) in *. set (m1 := after_put_memory m key raw).
  pose proof (fun file => retrieve_stored m file name key max raw Hl Hf) as Hret. fold m1 in Hret.
  assert (forall pe, run memory_handler (confirm gunzip gzip_header r compression name raw pe) m1 = (Ok (), m1)) as Hconf.
  { intros pe. unfold confirm. rewrite run_local_or, run_bind, Hret. cbn [ig_Size ig_SHA256].
    rewrite !bool_decide_eq_true_2 by reflexivity. reflexivity. }
  assert (forall m0, run memory_handler (Archive gzip gunzip gzip_header r compression name (Some s)) m0
    = run memory_handler (publish_wal gzip gunzip gzip_header r compression name key raw) m0) as Harch.
  { intros m0. destruct Hs as (S1 & S2 & S3 & S4 & S5). destruct Hf as ([F1 F2] & F3 & F4 & F5 & F6). fold raw in S3.
    unfold Archive. rewrite Hl, S1. rewrite run_local_or. cbn [negb orb].
    destruct (Z.ltb_spec (so_size s) 1); [lia|]. destruct (Z.ltb_spec max (so_size s)); [lia|]. cbn [orb].
    assert (segment_sized name && (so_size s !=? max) = false) as ->.
    { destruct (segment_sized name); [|done]. rewrite <- S3, (F3 eq_refl). by rewrite bool_decide_eq_true_2. }
    rewrite run_local_or, run_bind. change (run memory_handler (call CtxErr) m0) with (None : option error, m0). cbv beta iota.
    rewrite !run_local_or. fold raw. rewrite S3, S4, S2, !bool_decide_eq_true_2 by reflexivity. cbn [negb orb].
    rewrite run_local_or. destruct (Z.ltb_spec (max + Z.shiftl 1 20) (len (stored_form gzip compression raw))); [lia|].
    by rewrite run_local_or. }
  assert (run memory_handler (Archive gzip gunzip gzip_header r compression name (Some s)) m = (Ok (), m1)) as H1.
  { rewrite Harch. unfold publish_wal. cbv zeta. rewrite run_bind.
    match goal with |- context [run memory_handler (call ?e) m] =>
      assert (run memory_handler (call e) m = (Ok (stored_info m key raw), m1)) as -> by (cbn [run call memory_handler]; by rewrite Hfree) end.
    apply Hconf. }
  cbv zeta. rewrite H1. cbn [fst snd]. split; [done|]. split; [by rewrite Hret|].
  rewrite Harch. unfold publish_wal. cbv zeta. rewrite run_bind.
  match goal with |- context [run memory_handler (call ?e) m1] =>
    assert (run memory_handler (call e) m1 = (Err (S3 Precondition false), m1)) as ->
      by (cbn [run call memory_handler]; unfold m1; by rewrite find_stored) end.
  cbv beta iota. cbn [Is ambiguous]. rewrite bool_decide_eq_true_2 by reflexivity. cbn [negb andb]. by rewrite Hconf.
Qed.
End Roundtrip.

(** A history file through a store with a simple tagging compressor. *)
Definition tag_gzip (b : string) : string := "z" +:+ b.
Definition tag_gunzip (b : string) : option (string * string) := match b with String _ b => Some (b, "") | EmptyString => None end.
Definition tag_header (b : string) : bool := HasPrefix b "z".
Definition demo_source : Source := mkSource true (len demo_history) demo_history (len demo_history) true.
Definition demo_wal_key : string := r_root demo +:+ "wal/00000002/00000002.history".
Lemma archive_retrieve_roundtrip_witness :
  (run memory_handler (Retrieve tag_gunzip tag_header demo "gzip" "out" "00000002.history")
     (run memory_handler (Archive tag_gzip tag_gunzip tag_header demo "gzip" "00000002.history" (Some demo_source)) demo_memory).2).1
  = Ok (mkIntegrity (len demo_history) (digest demo_history), demo_history).
Proof.
  apply (archive_retrieve_roundtrip tag_gzip tag_gunzip tag_header (fun b => eq_refl) (fun b => proj1 (HasPrefix_append "z" b)) demo "gzip" demo_memory
    "out" "00000002.history" demo_wal_key (Z.shiftl 1 20) demo_source); [vm_compute; reflexivity| | |vm_compute; reflexivity].
  - vm_compute. intuition congruence.
  - vm_compute. intuition congruence.
Defined.
Definition demo_fetch : prog (res (Integrity * string)) := Retrieve tag_gunzip tag_header demo "gzip" "out" "00000003.history".
Lemma retrieve_absence_authentic_witness : exists key max e', Limits demo "gzip" "00000003.history" = Ok (key, max) /\ Is e' NotFound = true
  /\ exists tr : trace, (Act (Head key) (Err e') ∈ tr
      \/ (exists h, Act (Head key) (Err h) ∈ tr /\ Is h HeadMissing = true /\ Act (Read key (Z.shiftl 64 10)) (Err e') ∈ tr)
      \/ (exists ig, Act (DownloadWAL key ig) (Err e') ∈ tr)).
Proof.
  pose proof (run_trace_runs memory_handler demo_fetch demo_memory []) as Hr.
  assert ((run memory_handler demo_fetch demo_memory).1 = Err (S3 NotFound false)) as E by (vm_compute; reflexivity).
  rewrite E in Hr. unfold demo_fetch in Hr at 1.
  assert (forall c, Act CtxErr (Some c) ∈ run_trace memory_handler demo_fetch demo_memory [] -> Is c NotFound = false) as Hc.
  { intros c Hin. exfalso. apply list_elem_of_In in Hin.
    assert (existsb (act_is (fun _ e => match e with CtxErr => true | _ => false end)) (run_trace memory_handler demo_fetch demo_memory []) = false) as Hb
      by (vm_compute; reflexivity).
    rewrite (proj2 (existsb_exists _ _)) in Hb; [discriminate Hb|]. eexists. split; [exact Hin|reflexivity]. }
  destruct (retrieve_absence_authentic tag_gunzip tag_header demo "gzip" "out" "00000003.history" _ _ Hr eq_refl Hc) as (key & max & e' & H1 & H2 & H3).
  exists key, max, e'. split; [exact H1|]. split; [exact H2|]. eexists. exact H3.
Defined.
Definition demo_restore_wal : prog (option string * res ()) :=
  Restore tag_gunzip tag_header demo "gzip" "00000002.history" "RECOVERYHISTORY".
Definition demo_archived : memory :=
  (run memory_handler (Archive tag_gzip tag_gunzip tag_header demo "gzip" "00000002.history" (Some demo_source)) demo_memory).2.
Lemma restore_publishes_verified_witness :
  (exists ig, retrieved tag_gunzip demo "gzip" "00000002.history" ig demo_history (run_trace memory_handler demo_restore_wal demo_archived []))
  /\ leaves (persisted "RECOVERYHISTORY" demo_history) (run_trace memory_handler demo_restore_wal demo_archived []).
Proof.
  pose proof (run_trace_runs memory_handler demo_restore_wal demo_archived []) as Hr.
  assert ((run memory_handler demo_restore_wal demo_archived).1 = (Some demo_history, Ok ())) as E by (vm_compute; reflexivity).
  rewrite E in Hr. unfold demo_restore_wal in Hr at 1.
  destruct (restore_publishes_verified tag_gunzip tag_header demo "gzip" "00000002.history" "RECOVERYHISTORY" _ _ _ Hr) as (_ & H1 & H2).
  split; [exact H1|exact (H2 eq_refl)].
Defined.
