(* ===== verification/RetentionRun.v ===== *)
(** * The retention run (internal/retention/run.go)

    One bounded batch: admission, the complete inventories, the planner's decision, the discovery of abandoned
    payloads, the choice of at most 128 victims, their execution and the release of the gate. *)

From S2P Require Import Prelude GoStrings GoTime Sha256 Errors Schema WalNames Prog ProgRules Store Json Documents Repository Gate.
From S2P Require Import Transfer Memory Catalog Publication Gc GcSafety Lifecycle RecoveryPlan Restore WalArchive Retention.

Record Options := mkOptions {
  op_Enabled : bool; op_DryRun : bool; op_Window : Z; op_MinimumFulls : Z; op_FirstRequired : option FirstRequired }.
Record Result := mkRunResult { re_Decision : Decision; re_Planned : Z; re_Executed : bool; re_OperationID : string }.
Definition no_decision : Decision := mkDecision ∅ [] 0 0 false.
Definition empty_result : Result := mkRunResult no_decision 0 false "".

(** The facts collected for the planner, and the budget they take. *)
Record facts := mkFacts {
  fa_backups : list Backup; fa_hashes : gmap string string; fa_timelines : gset Z; fa_budget : Z;
  fa_segments : list Segment; fa_objects : list WALObject; fa_histories : gmap Z string }.
Definition initial_facts : facts := mkFacts [] ∅ {[1]} 0 [] [] ∅.
Definition reserve (budget n : Z) : res Z :=
  let budget := budget + n in if Z.shiftl 256 20 <? budget then Err ErrCapacity else Ok budget.
Definition backup_of (c : Commit) : Backup :=
  mkBackup (c_BackupUID c) (default "" (c_ParentBackupUID c)) (c_Timeline c)
    (match parse_rfc3339nano (c_StoppedAt c) with Some (t, _) => t | None => zero_time end)
    (lsn (c_StartLSN c)) (lsn (c_RedoLSN c)) (lsn (c_BundledWALEndLSN c)).
Definition entry_fact (f : facts) (en : Entry) : res facts :=
  if en_Retired en then Ok f else
  let? budget := reserve (fa_budget f) 1024 in
  let c := en_Commit en in
  Ok (mkFacts (fa_backups f ++ [backup_of c]) (<[c_BackupUID c := en_CommitSHA256 en]> (fa_hashes f))
        ({[c_Timeline c]} ∪ fa_timelines f) budget (fa_segments f) (fa_objects f) (fa_histories f)).
Definition object_fact (size : Z) (f : facts) (ob : WALObject) : res facts :=
  let? budget := reserve (fa_budget f) 1024 in
  let? (observed, _) := ArchivePosition (slice 0 8 (wo_Name ob) +:+ "0000000000000000") size in
  let timelines := {[observed]} ∪ fa_timelines f in
  if (String.length (wo_Name ob) =? 24)%nat then
    let? (t, start) := ArchivePosition (wo_Name ob) size in
    Ok (mkFacts (fa_backups f) (fa_hashes f) timelines budget (fa_segments f ++ [mkSegment t start (negb (wo_Retired ob))])
          (fa_objects f ++ [ob]) (fa_histories f))
  else
    Ok (mkFacts (fa_backups f) (fa_hashes f) timelines budget (fa_segments f) (fa_objects f)
          (if HasSuffix (wo_Name ob) ".history" then <[observed := wo_Name ob]> (fa_histories f) else fa_histories f)).

(** ** The batch *)
Definition retire_backup_victim (hashes : gmap string string) (id : string) : Victim :=
  mkVictim "retire-backup" (Some id) None None None None None None (default "" (hashes !! id)) 0.
Definition retire_wal_victim (ob : WALObject) : Victim :=
  mkVictim "retire-wal" None None None None None (Some (wo_Name ob)) (Some (wo_ETag ob)) (wo_SHA256 ob) (wo_RawBytes ob).
Definition expired_segment (d : Decision) (s : Segment) : bool :=
  s_Live s && (s_Timeline s =? d_Current d) && (s_Start s <? d_WALFloor d).
(** [for ... { if len(victims) == 128 { break }; victims = append(victims, v) }] *)
Definition fill (victims more : list Victim) : list Victim := victims ++ take (128 - length victims) more.
Definition batch (d : Decision) (f : facts) (cleanup : list Victim) : list Victim :=
  let victims := fill (fill [] (retire_backup_victim (fa_hashes f) <$> d_Expire d)) cleanup in
  if (Z.of_nat (length (d_Expire d)) <=? 128) && (Z.of_nat (length victims) <? 128) then
    fill victims (omap (fun '(s, ob) => if expired_segment d s then Some (retire_wal_victim ob) else None)
                    (zip (fa_segments f) (fa_objects f)))
  else victims.

Section Run.
Context (gunzip : string -> option (string * string)) (gzip_header : string -> bool).
Context (r : Repository) (compression : string) (o : Retention.order).
Abbreviation segment_bytes := (id_WALSegmentBytes (r_id r)).

(** ** Paths *)
Definition convert (path : list RecoveryPlan.Timeline) : list Timeline :=
  (fun t => mkTimeline (tl_ID t) (match tl_ForkLSN t with Some f => lsn f | None => 0 end)) <$> path.
Definition read_path (histories : gmap Z string) (id : Z) : prog (res (list Timeline)) :=
  if id =? 1 then done [mkTimeline 1 0] else
  match histories !! id with
  | None => fail ErrCoverage
  | Some name =>
      local "temp" (
      let* (_, b) := Retrieve gunzip gzip_header r compression "retention-history" name in
      local "read file" (
      match ParseHistory id b with Err e => fail e | Ok path => done (convert path) end))
  end.
Fixpoint read_paths (histories : gmap Z string) (ids : list Z) : prog (res (list (list Timeline))) :=
  match ids with
  | [] => done []
  | id :: ids =>
      let* path := read_path histories id in
      let* paths := read_paths histories ids in done (path :: paths)
  end.
Definition inventory_of_facts (f : facts) (paths : list (list Timeline)) : Inventory :=
  mkInventory (fa_backups f) paths (fa_segments f) segment_bytes.
Definition decide_batch (f : facts) (paths : list (list Timeline)) (cutoff : Time) (op : Options) : res Decision :=
  if (Z.of_nat (length (fa_backups f)) =? 0) then Ok (mkDecision ∅ [] 0 0 true)
  else Retention.Plan o (inventory_of_facts f paths) cutoff (op_MinimumFulls op) (op_FirstRequired op).

(** ** The work under the gate: the owner it leaves, the result and the error *)
Definition execute_batch (g : GCOwner) (d : Decision) (f : facts) (now : Time) (op : Options) (cleanup : list Victim)
  : prog (GCOwner * Result * res ()) :=
  let victims := batch d f cleanup in
  let result executed := mkRunResult d (Z.of_nat (length victims)) executed (ow_OperationID (go_owner g)) in
  if op_DryRun op || (Z.of_nat (length victims) =? 0) then Ret (g, result false, Ok ()) else
  let plan := GCOwner_Plan r g (format_rfc3339nano (now - op_Window op))
                (mkPolicy (op_Window op / second) (op_MinimumFulls op)) victims in
  let! (g, e) := Execute gunzip r g plan in
  Ret (g, result (is_ok e), e).
Definition plan_batch (f : facts) (now : Time) (op : Options) : prog (res Decision) :=
  let* paths := read_paths (fa_histories f) (sort_slice Z.ltb (elements (fa_timelines f))) in
  Ret (decide_batch f paths (now - op_Window op) op).
Definition work (g : GCOwner) (now : Time) (op : Options) : prog (GCOwner * Result * res ()) :=
  let failed g e := Ret (g, mkRunResult no_decision 0 false (ow_OperationID (go_owner g)), Err e) in
  let! (g, x) := GCOwner_Inventory gunzip r g (mkLimits MaxCatalogRecords GCCatalogBytes) initial_facts
                   (fun f en => Ret (entry_fact f en)) in
  match x with
  | Err e => failed g e
  | Ok f =>
      let! y := ArchiveInventory r g f (fun f ob => Ret (object_fact segment_bytes f ob)) in
      match y with
      | Err e => failed g e
      | Ok f =>
          let! z := plan_batch f now op in
          match z with
          | Err e => failed g e
          | Ok d =>
              let! cleanup := Cleanup r g 128 in
              match cleanup with
              | Err e => Ret (g, mkRunResult d 0 false (ow_OperationID (go_owner g)), Err e)
              | Ok cleanup => execute_batch g d f now op cleanup
              end
          end
      end
  end.
(** [errors.Join]: the errors that are not nil. *)
Definition join (a b : res ()) : list error :=
  (match a with Err e => [e] | Ok _ => [] end) ++ (match b with Err e => [e] | Ok _ => [] end).
(** The result, the joined errors ([nil] is no error) and the new [gcNotBefore]. *)
Definition Run (notBefore now : Time) (op : Options) : prog (Result * list error * Time) :=
  if negb (op_Enabled op) then Ret (empty_result, [], notBefore) else
  if (op_Window op <? 3600 * second) || (3650 * 24 * 3600 * second <? op_Window op) || (op_MinimumFulls op <? 1)
     || (100 <? op_MinimumFulls op) then Ret (empty_result, [ErrInvalid], notBefore) else
  let! a := AcquireGC r notBefore in
  match a with
  | Err e => Ret (empty_result, [e], notBefore)
  | Ok g =>
      let! (g, result, err) := work g now op in
      let! (_, close, notBefore) := GCOwner_Close r g in
      Ret (result, join err close, notBefore)
  end.
End Run.

(** ** The collected facts *)
(** What the visitors build: parallel lists of segments and objects, positions of their names. *)
Definition facts_ok (size : Z) (f : facts) : Prop :=
  Forall2 (fun s ob => String.length (wo_Name ob) = 24%nat /\ ArchivePosition (wo_Name ob) size = Ok (s_Timeline s, s_Start s)
    /\ s_Live s = negb (wo_Retired ob)) (fa_segments f) (fa_objects f)
  /\ Forall (fun b => is_u64 (b_Start b) /\ is_u64 (b_Redo b) /\ is_u64 (b_End b)) (fa_backups f).
Lemma entry_fact_ok size f en f' : facts_ok size f -> entry_fact f en = Ok f' ->
  facts_ok size f' /\ fa_backups f' = fa_backups f ++ (if en_Retired en then [] else [backup_of (en_Commit en)]).
Proof.
  intros [H1 H2]. unfold entry_fact. destruct (en_Retired en); [intros [= <-]; rewrite app_nil_r; done|].
  intros (budget & _ & [= <-])%res_bind_ok. split; [|done]. split; [done|]. apply Forall_app. split; [done|].
  constructor; [|done]. cbn. split_and!; apply lsn_u64.
Qed.
Lemma object_fact_ok size f ob f' : facts_ok size f -> object_fact size f ob = Ok f' ->
  facts_ok size f' /\ fa_backups f' = fa_backups f.
Proof.
  intros [H1 H2]. unfold object_fact. intros (budget & _ & H)%res_bind_ok. apply res_bind_ok in H as ([observed x] & _ & H).
  cbv zeta in H. destruct (String.length (wo_Name ob) =? 24)%nat eqn:El; [|injection H as <-; done].
  apply res_bind_ok in H as ([t start] & Hp & [= <-]). split; [|done]. split; [|done].
  apply Forall2_app; [done|]. constructor; [|done]. by apply Nat.eqb_eq in El.
Qed.
Lemma entries_facts size entries f0 f : facts_ok size f0 -> forM entries f0 entry_fact = Ok f ->
  facts_ok size f /\ fa_backups f = fa_backups f0 ++ (backup_of ∘ en_Commit <$> List.filter (fun en => negb (en_Retired en)) entries).
Proof.
  intros H0. apply (forM_inv (fun pre f => facts_ok size f /\ fa_backups f = fa_backups f0 ++ (backup_of ∘ en_Commit <$> List.filter (fun en => negb (en_Retired en)) pre))).
  - split; [done|]. by rewrite app_nil_r.
  - intros pre en post a a' _ [Ha Hb] Hs. destruct (entry_fact_ok size a en a' Ha Hs) as [H1 ->]. split; [done|].
    rewrite Hb, List.filter_app, fmap_app, app_assoc. cbn. by destruct (en_Retired en).
Qed.
Lemma objects_facts size objs f0 f : facts_ok size f0 -> forM objs f0 (object_fact size) = Ok f ->
  facts_ok size f /\ fa_backups f = fa_backups f0.
Proof.
  intros H0. apply (forM_inv (fun _ f => facts_ok size f /\ fa_backups f = fa_backups f0)); [done|].
  intros pre ob post a a' _ [Ha Hb] Hs. destruct (object_fact_ok size a ob a' Ha Hs) as [H1 ->]. done.
Qed.

(** ** The batch *)
Definition payload_kind (v : Victim) : Prop := is_retirement v = false /\ is_wal v = false.
Lemma fill_bound l more : (length l <= 128)%nat -> (length (fill l more) <= 128)%nat.
Proof. intros H. unfold fill. rewrite length_app, length_take. lia. Qed.
Lemma fill_elem l more v : v ∈ fill l more -> v ∈ l \/ v ∈ more.
Proof. unfold fill. intros [H|H]%elem_of_app; [by left|right]. by apply elem_of_take in H as (i & H & _); eapply list_elem_of_lookup_2. Qed.
Lemma fill_all l more : (length l + length more <= 128)%nat -> fill l more = l ++ more.
Proof. intros H. unfold fill. f_equal. apply take_ge. lia. Qed.

(** Where each victim of the batch comes from. *)
Definition from_decision (d : Decision) (f : facts) (victims : list Victim) (v : Victim) : Prop :=
  (is_retirement v = true -> exists uid, v_BackupUID v = Some uid /\ uid ∈ d_Expire d)
  /\ (is_wal v = true -> (forall uid, uid ∈ d_Expire d -> retire_backup_victim (fa_hashes f) uid ∈ victims)
      /\ exists s ob, (s, ob) ∈ zip (fa_segments f) (fa_objects f) /\ expired_segment d s = true /\ v_WALName v = Some (wo_Name ob)
         /\ v_ExpectedETag v = Some (wo_ETag ob)).
Lemma batch_spec d f cleanup : Forall payload_kind cleanup ->
  (length (batch d f cleanup) <= 128)%nat /\ Forall (from_decision d f (batch d f cleanup)) (batch d f cleanup).
Proof.
  intros Hc. rewrite Forall_forall in Hc. set (first := fill [] (retire_backup_victim (fa_hashes f) <$> d_Expire d)).
  assert (length (fill first cleanup) <= 128)%nat as Hlen by (do 2 apply fill_bound; cbn; lia).
  assert (forall v vs, v ∈ fill first cleanup -> from_decision d f vs v) as Hbase.
  { intros v vs [Hv|Hv]%fill_elem.
    - apply fill_elem in Hv as [Hv|Hv]; [by apply elem_of_nil in Hv|]. apply list_elem_of_fmap in Hv as (uid & -> & Hu).
      split; [intros _; by exists uid|]. done.
    - destruct (Hc v Hv) as [H1 H2]. split; congruence. }
  unfold batch. fold first. cbv zeta. destruct (_ && _) eqn:Eg; [|split; [done|]; apply Forall_forall; auto].
  apply andb_true_iff in Eg as [Eg _]. apply Z.leb_le in Eg. split; [by apply fill_bound|]. apply Forall_forall.
  intros v [Hv|Hv]%fill_elem; [by apply Hbase|]. apply list_elem_of_omap in Hv as ([s ob] & Hin & Hs).
  destruct (expired_segment d s) eqn:Ee; [|done]. injection Hs as <-. split; [done|]. intros _. split.
  - intros uid Hu. unfold fill at 1. apply elem_of_app. left. unfold fill at 1. apply elem_of_app. left.
    unfold first. rewrite fill_all by (rewrite length_fmap; cbn; lia). cbn. apply list_elem_of_fmap. by exists uid.
  - by exists s, ob.
Qed.

(** ** What the inventories show *)
Section Evidence.
Context (gunzip : string -> option (string * string)) (gzip_header : string -> bool).
Context (r : Repository) (compression : string) (o : Retention.order).
Abbreviation segment_bytes := (id_WALSegmentBytes (r_id r)).

Lemma scan_fold {B} (f : B -> Entry -> res B) entries : forall acc,
  proves (scanEntries entries acc (fun b en => Ret (f b en))) (fun b _ => forM entries acc f = Ok b).
Proof.
  intros acc. unfold scanEntries. apply proves_bind; [by apply reads_local|]. intros [e|]; [apply proves_fail|].
  revert acc. induction entries as [|en l IH]; intros acc; cbn [scan_go];
    (eapply (proves_bindE _ _ (fun _ _ => True)); [done|apply proves_check_ctx|]; intros []);
    (apply proves_bind; [by apply reads_local|]; intros [e|]; [apply proves_fail|]).
  - by apply proves_done.
  - cbn [bindE bind forM]. destruct (f acc en) as [b|]; [|apply proves_fail].
    eapply proves_mono; [|apply (IH b)]. by intros b' tr H _.
Qed.
Lemma Inventory_reads g l : reads (GCOwner_Inventory gunzip r g l initial_facts (fun f en => Ret (entry_fact f en))) (fun tr x =>
  go_owner x.1 = go_owner g /\ match x.2 with
  | Ok f => exists entries, catalog_seen gunzip r entries tr /\ forM entries initial_facts entry_fact = Ok f /\ go_catalog x.1 = Some entries
  | Err _ => True
  end).
Proof.
  unfold GCOwner_Inventory.
  assert (reads (GCOwner_check r g ;;* Ret (CatalogLimits_validate l)) (fun _ _ => True)) as Hc.
  { eapply reads_bind; [apply GCOwner_check_proves|]. intros [[]|e]; by apply reads_ret. }
  eapply reads_bind; [exact Hc|]. intros [[]|e]; [|by apply reads_ret].
  destruct (_ || _); [by apply reads_ret|]. destruct (_ <? _); [by apply reads_ret|].
  eapply reads_bind; [apply spoolCatalog_proves|]. intros [entries|e]; [|by apply reads_ret].
  eapply reads_bind; [apply scan_fold|]. intros [f|e]; [|by apply reads_ret]. apply reads_ret.
  intros tr tr1 Hq1 Hf tr2 Hq2 Hs tr3 Hq3 _. split; [done|]. exists entries. split_and!; [|done|done].
  eapply catalog_seen_stable; [|exact Hs]. by apply quiet_extends.
Qed.

(** One archive object: listed, and its slot's state read from its HEAD. *)
Definition object_seen (tr : trace) (i : Info) (ob : WALObject) : Prop :=
  WALKey (r_root r) segment_bytes (wo_Name ob) = Ok (i_Key i)
  /\ exists info, Act (Head (i_Key i)) (Ok info) ∈ tr /\ wo_ETag ob = i_ETag info
     /\ wo_Retired ob = (meta info "cnpg-format" ==? "wal-retired-v1").
Definition archive_seen (objs : list WALObject) (tr : trace) : Prop := exists items,
  Act (ListObjects (r_root r +:+ "wal/") MaxCatalogRecords) (items, Ok ()) ∈ tr /\ Forall2 (object_seen tr) items objs.
Lemma object_seen_stable i ob tr tr' : extends tr tr' -> object_seen tr i ob -> object_seen tr' i ob.
Proof. intros He (H1 & info & H2 & H3). split; [done|]. exists info. split; [by eapply extends_elem|done]. Qed.
Lemma archive_seen_stable objs : stable (archive_seen objs).
Proof.
  intros tr tr' He (items & H1 & H2). exists items. split; [by eapply extends_elem|].
  eapply Forall2_impl; [exact H2|]. intros i ob. by apply object_seen_stable.
Qed.
Lemma retired_object_ok name i b ob : retired_object r name i b = Ok ob ->
  wo_Name ob = name /\ wo_ETag ob = i_ETag i /\ wo_Retired ob = true.
Proof. unfold retired_object. destruct (strict b smallLimit); [|done]. destruct (_ || _); [done|]. by intros [= <-]. Qed.
Lemma live_object_ok name i ob : live_object r name i = Ok ob ->
  wo_Name ob = name /\ wo_ETag ob = i_ETag i /\ wo_Retired ob = false.
Proof.
  unfold live_object. destruct (positive_int64 _); [|done]. destruct (_ || _); [done|].
  destruct (_ && _); [done|]. by intros [= <-].
Qed.
Lemma archive_visit_proves {B} (f : B -> WALObject -> res B) acc i :
  proves (archive_visit r (fun b ob => Ret (f b ob)) acc i) (fun b tr => exists ob, object_seen tr i ob /\ f acc ob = Ok b).
Proof.
  unfold archive_visit. destruct (Split _ _) as [|x [|name [|]]]; try apply proves_fail. reject as E1.
  destruct (WALKey _ _ _) as [key|] eqn:Ek; [|apply proves_fail]. reject as E2. bool_split. subst key.
  seen (proves_call (Head (i_Key i)) eq_refl) with stable_elem. intros info. reject as E3.
  destruct (meta info "cnpg-format" ==? "wal-retired-v1") eqn:Ef.
  - eapply (proves_bindE _ _ (fun _ _ => True)); [done| |].
    { eapply proves_mono; [|by apply (proves_call (Read (i_Key i) smallLimit))]. done. }
    intros [b i']. destruct (retired_object r name info b) as [ob|] eqn:Eo; [|apply proves_fail].
    apply retired_object_ok in Eo as (N1 & N2 & N3). destruct (f acc ob) as [x'|] eqn:Efa; [|apply proves_fail].
    apply proves_done. intros tr _ Hh. exists ob. split; [|done]. split; [by rewrite N1|]. exists info. by rewrite Ef.
  - destruct (live_object r name info) as [ob|] eqn:Eo; [|apply proves_fail].
    apply live_object_ok in Eo as (N1 & N2 & N3). destruct (f acc ob) as [x'|] eqn:Efa; [|apply proves_fail].
    apply proves_done. intros tr Hh. exists ob. split; [|done]. split; [by rewrite N1|]. exists info. by rewrite Ef.
Qed.
Lemma ArchiveInventory_proves g f0 : proves (ArchiveInventory r g f0 (fun f ob => Ret (object_fact segment_bytes f ob))) (fun f tr =>
  exists objs, archive_seen objs tr /\ forM objs f0 (object_fact segment_bytes) = Ok f).
Proof.
  unfold ArchiveInventory. seen GCOwner_check_proves with owner_seen_stable. intros [].
  eapply proves_mono; [|apply (proves_List _ _ _ _ (fun items f tr => exists objs, Forall2 (object_seen tr) items objs
    /\ forM objs f0 (object_fact segment_bytes) = Ok f))].
  - intros f tr (items & H1 & objs & H2 & H3) _. exists objs. split; [by exists items|done].
  - intros items f tr tr' He (objs & H1 & H2). exists objs. split; [|done]. eapply Forall2_impl; [exact H1|].
    intros i ob. by apply object_seen_stable.
  - intros tr. exists []. by split.
  - intros items f i. eapply proves_mono; [|apply archive_visit_proves]. intros f' tr (ob & H1 & H2) (objs & H3 & H4).
    exists (objs ++ [ob]). split; [by apply Forall2_app; [|constructor]|]. rewrite forM_app, H4. cbn. by rewrite H2.
Qed.

(** *** Paths *)
Definition path_authentic (histories : gmap Z string) (tr : trace) (id : Z) (path : list Timeline) : Prop :=
  (id = 1 /\ path = [mkTimeline 1 0])
  \/ exists name ig b p, histories !! id = Some name /\ retrieved gunzip r compression name ig b tr
     /\ ParseHistory id b = Ok p /\ path = convert p.
Lemma path_authentic_stable histories id path : stable (fun tr => path_authentic histories tr id path).
Proof.
  intros tr tr' He [H|(name & ig & b & p & H1 & H2 & H3)]; [by left|]. right. exists name, ig, b, p.
  split_and!; [done|by eapply retrieved_stable|apply H3..].
Qed.
Lemma read_path_proves histories id :
  proves (read_path gunzip gzip_header r compression histories id) (fun path tr => path_authentic histories tr id path).
Proof.
  unfold read_path. destruct (Z.eqb_spec id 1); [apply proves_done; intros; by left|].
  destruct (histories !! id) as [name|] eqn:Eh; [|apply proves_fail]. apply proves_local.
  eapply proves_bindE; [|apply Retrieve_proves|]; [intros x; apply retrieved_stable|]. intros [ig b]. apply proves_local.
  destruct (ParseHistory id b) as [p|] eqn:Ep; [|apply proves_fail]. apply proves_done. intros tr H. right. by exists name, ig, b, p.
Qed.
Lemma read_paths_proves histories ids : proves (read_paths gunzip gzip_header r compression histories ids)
  (fun paths tr => Forall2 (path_authentic histories tr) ids paths).
Proof.
  induction ids as [|id ids IH]; cbn [read_paths]; [apply proves_done; constructor|].
  eapply proves_bindE; [|apply read_path_proves|]; [intros x; apply path_authentic_stable|]. intros path.
  eapply proves_bindE; [|exact IH|].
  { intros paths tr tr' He H. eapply Forall2_impl; [exact H|]. intros x y. by apply path_authentic_stable. }
  intros paths. apply proves_done. intros tr H1 H2. by constructor.
Qed.
Lemma paths_u64 histories tr ids paths : Forall2 (path_authentic histories tr) ids paths ->
  Forall (Forall (fun t => is_u64 (t_Fork t))) paths.
Proof.
  induction 1 as [|id path ids paths H _ IH]; [done|]. constructor; [|done].
  destruct H as [[_ ->]|(_ & _ & _ & p & _ & _ & _ & ->)]; [by repeat constructor|].
  apply Forall_fmap, Forall_forall. intros t _. cbn. destruct (tl_ForkLSN t); [apply lsn_u64|done].
Qed.

(** *** The decision *)
(** No kept backup replays a byte of the segment, on any path of the inventory. *)
Definition unneeded (in_ : Inventory) (d : Decision) (tl start : Z) : Prop :=
  forall b path t lo hi, b ∈ in_Backups in_ -> kept d b -> path ∈ in_Paths in_ -> reachable b path = true ->
  (t, lo, hi) ∈ wal_needed (frontier_of in_) (b_End b) (from_timeline (b_Timeline b) path) -> t_ID t = tl ->
  ~ (lo < start + in_SegmentBytes in_ /\ start < hi /\ lo < hi) /\ start < (if b_Timeline b =? tl then b_Redo b else t_Fork t).
Lemma decision_safe f paths cutoff op d : order_ok o -> facts_ok segment_bytes f ->
  Forall (Forall (fun t => is_u64 (t_Fork t))) paths -> decide_batch r o f paths cutoff op = Ok d ->
  (forall uid, uid ∈ d_Expire d -> exists b, b ∈ fa_backups f /\ b_ID b = uid /\ ~ kept d b)
  /\ (forall s ob, (s, ob) ∈ zip (fa_segments f) (fa_objects f) -> expired_segment d s = true ->
       String.length (wo_Name ob) = 24%nat /\ wo_Retired ob = false
       /\ ArchivePosition (wo_Name ob) segment_bytes = Ok (d_Current d, s_Start s) /\ s_Start s < d_WALFloor d
       /\ unneeded (inventory_of_facts r f paths) d (d_Current d) (s_Start s)).
Proof.
  intros Ho [Hseg Hb] Hp. assert (forall s ob, (s, ob) ∈ zip (fa_segments f) (fa_objects f) ->
    String.length (wo_Name ob) = 24%nat /\ ArchivePosition (wo_Name ob) segment_bytes = Ok (s_Timeline s, s_Start s)
    /\ s_Live s = negb (wo_Retired ob)) as Hz.
  { intros s ob Hin. apply list_elem_of_lookup_1 in Hin as [k Hin]. apply lookup_zip_with_Some in Hin as (x & y & [= <- <-] & H1 & H2).
    exact (Forall2_lookup_lr _ _ _ _ _ _ Hseg H1 H2). }
  unfold decide_batch. destruct (Z.eqb_spec (Z.of_nat (length (fa_backups f))) 0) as [E|E].
  - intros [= <-]. split; [intros uid Hu; by apply elem_of_nil in Hu|]. intros s ob Hin He. exfalso.
    destruct (Hz s ob Hin) as (_ & Hpos & _). apply ArchivePosition_bounds in Hpos as (_ & _ & Hs & _).
    unfold expired_segment in He. cbn in He. bool_split. lia.
  - intros HP. split.
    + intros uid Hu. destruct (plan_partitions o _ _ _ _ _ Ho HP) as (_ & H1 & H2).
      destruct (proj1 (H2 uid) (or_intror Hu)) as (b & Hin & Hid). exists b. split_and!; [done|done|].
      intros Hk. apply (proj1 (H1 b Hin) Hk). by rewrite Hid.
    + intros s ob Hin He. destruct (Hz s ob Hin) as (Hl & Hpos & Hlv). unfold expired_segment in He. bool_split.
      match goal with H : s_Live s = true |- _ => rewrite H in Hlv end.
      match goal with H : s_Timeline s = d_Current d |- _ => rewrite H in Hpos end.
      split_and!; [done|by destruct (wo_Retired ob)|done|lia|].
      apply ArchivePosition_bounds in Hpos as (_ & Hal & _).
      intros b path t lo hi Hbi Hk Hpi Hr Hn Ht.
      destruct (covers_kept o (inventory_of_facts r f paths) cutoff (op_MinimumFulls op) (op_FirstRequired op) d b path t lo hi Ho) as (C1 & C2 & C3); try done.
      { split_and!; [done|done|]. apply Forall_forall. intros x Hx. apply list_elem_of_lookup_1 in Hx as [k Hx].
        destruct (Forall2_lookup_l _ _ _ _ _ Hseg Hx) as (y & _ & _ & Hy & _).
        pose proof Hy as (Hsz%bad_segment_bytes_false & _)%ArchivePosition_inv. apply ArchivePosition_bounds in Hy as (_ & _ & Hy1 & Hy2).
        unfold is_u64, u64_max. lia. }
      split; [|specialize (C3 Ht); rewrite Ht in *; lia].
      intros (A1 & A2 & A3). destruct (C2 A3 (s_Start s) Hal A1 A2) as [_ C4]. specialize (C4 Ht). lia.
Qed.

(** *** Discovery *)
Lemma payload_victim_kind uid att hash rest v : payload_victim uid att hash rest = Some v ->
  v_Kind v = "delete-manifest" \/ v_Kind v = "delete-artifact".
Proof.
  unfold payload_victim. destruct rest as [|name more]; [done|]. destruct (name ==? _); [intros [= <-]; by left|].
  destruct more as [|file [|]]; try done. destruct (name ==? _); [|done]. cbv zeta. destruct (decimal _); [|done].
  destruct (_ <? _); [|done]. intros [= <-]. by right.
Qed.
Lemma payload_kinds v : v_Kind v = "delete-manifest" \/ v_Kind v = "delete-artifact" ->
  payload_kind v /\ forall u, payload_kind (abort_of v u).
Proof.
  intros H. unfold payload_kind, is_retirement, is_wal, abort_of. cbn. destruct H as [-> | ->]; split; [|intros u| |intros u]; split; reflexivity.
Qed.
Lemma candidate_proves limit victims key upload :
  proves (candidate r limit victims key upload) (fun vs _ => Forall payload_kind victims -> Forall payload_kind vs).
Proof.
  unfold candidate. destruct (catalogKey _ _) as [[uid kind]|]; [|apply proves_fail].
  eapply (proves_bindE _ _ (fun _ _ => True)); [done|apply validateListedMetadata_reads|]. intros [].
  destruct (Split _ _) as [|x1 [|x2 [|att [|x3 rest]]]]; try apply proves_fail.
  apply (proves_bindE _ _ (fun _ _ => True)); [done| |].
  { unfold cleanup_eligible. eapply reads_bind; [apply (readCommit_reads r uid)|]. intros [[[c b] i]|e].
    - eapply reads_bind; [apply live_reads|]. intros [[]|[]]; by apply reads_ret.
    - destruct (Is e NotFound); by apply reads_ret. }
  intros [|]; cbn [negb]; [|by apply proves_done].
  eapply (proves_bindE _ _ (fun _ _ => True)); [done|eapply proves_mono; [|apply readClaim_proves]; done|]. intros cl.
  destruct (payload_victim _ _ _ _) as [v|] eqn:Ev; [|apply proves_fail]. cbv zeta.
  eapply (proves_bindE _ _ (fun _ _ => True)); [done|eapply proves_mono; [|apply validateVictim_proves]; done|]. intros [].
  apply proves_done. intros tr _ _ _ _ Hv. apply payload_victim_kind, payload_kinds in Ev as [K1 K2].
  destruct (_ <? limit); [|done]. apply Forall_app. split; [done|]. constructor; [|done]. by destruct (upload !=? "").
Qed.
Lemma proves_ListU {B} prefix max (acc : B) visit (I : B -> Prop) :
  (forall b x, proves (visit b x) (fun b' _ => I b -> I b')) -> proves (ListU prefix max acc visit) (fun b _ => I acc -> I b).
Proof.
  intros Hv. unfold ListU. eapply reads_bind; [by apply (reads_local (ListUploads prefix max))|]. intros [items status].
  assert (forall acc, proves (visit_all items acc visit) (fun b _ => I acc -> I b)) as Hall.
  { induction items as [|x items IH]; intros acc'; cbn [visit_all]; [by apply proves_done|].
    eapply (proves_bindE _ _ (fun b _ => I acc' -> I b)); [by intros ? ? ? ? H|by apply Hv|].
    intros b. eapply proves_mono; [|apply (IH b)]. auto. }
  eapply reads_bind; [apply Hall|]. intros [b|e]; [|by apply reads_ret]. destruct status as [[]|]; apply reads_ret; auto.
Qed.
Lemma Cleanup_proves g limit : proves (Cleanup r g limit) (fun vs _ => Forall payload_kind vs).
Proof.
  unfold Cleanup. seen GCOwner_check_proves with owner_seen_stable. intros []. reject as El.
  eapply (proves_bindE _ _ (fun vs _ => Forall payload_kind vs)); [by intros ? ? ? ? H| |].
  - eapply proves_mono; [|apply (proves_List _ _ _ _ (fun _ vs _ => Forall payload_kind vs))].
    + by intros vs tr (items & _ & H).
    + by intros pre b tr tr' _ H.
    + done.
    + intros pre vs i. unfold cleanup_object. destruct (catalogKey _ _) as [x|]; [|apply proves_fail].
      destruct (HasSuffix _ _ || Contains _ _); [apply candidate_proves|by apply proves_done].
  - intros vs. eapply proves_mono; [|apply (proves_ListU _ _ _ _ (Forall payload_kind))].
    + intros vs' tr H1 H2 _. auto.
    + intros vs' u. unfold cleanup_upload. reject as Eu. apply candidate_proves.
Qed.

(** *** The gate *)
(** A valid gate written over the version that was read. *)
Definition gate_put (pre : trace) {X} (e : event X) : Prop :=
  match e with
  | PutFile key body _ c _ => key = gate_key r /\ (exists g, body = Marshal g /\ Gate_validate g (r_id r) = Ok ())
      /\ exists b i, Act (Read (gate_key r) gateLimit) (Ok (b, i)) ∈ pre /\ c = Match (i_ETag i)
  | _ => False
  end.
Lemma readGate_version : proves (readGate r) (fun x tr => exists b, Act (Read (gate_key r) gateLimit) (Ok (b, x.2)) ∈ tr).
Proof.
  unfold readGate. seen (proves_call (Read (gate_key r) gateLimit) eq_refl) with stable_elem. intros [b i].
  destruct (strict b gateLimit) as [g|]; [|apply proves_fail]. destruct (Gate_validate g (r_id r)) as [[]|]; [|apply proves_fail].
  apply proves_done. intros tr H. by exists b.
Qed.
Lemma changeGate_wp (G : trace -> forall X, event X -> Prop) f tr : allows_reads G ->
  (forall tr X (e : event X), gate_put tr e -> G tr X e) -> wp G (fun _ _ => True) (changeGate r f) tr.
Proof.
  intros HG Hput. unfold changeGate. generalize 10%nat as rounds, false as barrier. intros rounds.
  revert tr. induction rounds as [|rounds IH]; intros tr barrier; cbn [changeGate_loop]; [done|].
  unfold change_round. eapply wp_reads; [exact HG|apply readGate_version|]. intros tr1 [[g i]|e] Hq1 Hr; [|done]. destruct Hr as [b Hr].
  destruct (plan_round barrier f g) as [x|g' n]; [done|]. split; [by apply HG|]. intros nonce. cbn [bind]. unfold write_gate. cbv zeta.
  destruct (Gate_validate (next_gate g' n nonce) (r_id r)) as [[]|e] eqn:Ev; [|done]. wp_if as El; [done|].
  assert (forall w tr2, wp G (fun _ _ => True) (after_put (fun barrier => changeGate_loop r rounds barrier f) barrier w) tr2) as Hafter.
  { intros [w|e] tr2; cbn [after_put]; [destruct barrier; [apply IH|done]|].
    destruct (ambiguous e); [apply IH|]. destruct (_ || _); [apply IH|done]. }
  apply wp_put; [exact HG|by intros; apply Hafter|]. intros tr2 Hq2. split; [|intros x; apply Hafter].
  apply Hput. split_and!; [done|by eexists|]. exists b, i. split; [|done]. eapply extends_elem; [by eapply quiet_extends|]. by right.
Qed.

(** *** The run *)
Definition inventory_seen (entries : list Entry) (f : facts) (paths : list (list Timeline)) (tr : trace) : Prop :=
  exists objs f1, catalog_seen gunzip r entries tr /\ archive_seen objs tr
  /\ forM entries initial_facts entry_fact = Ok f1 /\ forM objs f1 (object_fact segment_bytes) = Ok f
  /\ Forall2 (path_authentic (fa_histories f) tr) (sort_slice Z.ltb (elements (fa_timelines f))) paths.
Lemma inventory_facts entries f paths tr : inventory_seen entries f paths tr ->
  facts_ok segment_bytes f /\ Forall (Forall (fun t => is_u64 (t_Fork t))) paths
  /\ fa_backups f = backup_of ∘ en_Commit <$> List.filter (fun en => negb (en_Retired en)) entries.
Proof.
  intros (objs & f1 & _ & _ & H1 & H2 & H3). destruct (entries_facts segment_bytes entries initial_facts f1) as [K1 K2]; [by split|done|].
  destruct (objects_facts segment_bytes objs f1 f K1 H2) as [K3 K4]. split; [done|]. split; [by eapply paths_u64|]. by rewrite K4, K2.
Qed.

Section Guard.
Context (now : Time) (op : Options).
(** A mutation of the execution: what was inventoried before, what the planner decided, and the guard of [Execute]. *)
Definition batch_guard (pre : trace) X (e : event X) : Prop := exists entries f paths d cleanup p owner l before,
  pre = l ++ before /\ inventory_seen entries f paths before /\ decide_batch r o f paths (now - op_Window op) op = Ok d
  /\ Forall payload_kind cleanup /\ gp_Victims p = batch d f cleanup
  /\ execute_guard r p owner l X e /\ dependants_first entries ∅ (gp_Victims p) /\ op_DryRun op = false /\ plan_of r owner p.
Definition run_guard (pre : trace) X (e : event X) : Prop := mutating e = true -> gate_put pre e \/ batch_guard pre X e.
Lemma run_guard_reads : allows_reads run_guard.
Proof. intros tr X e He Hm. congruence. Qed.
Lemma run_guard_gate tr X (e : event X) : gate_put tr e -> run_guard tr X e.
Proof. intros H _. by left. Qed.

Lemma execute_batch_wp g entries f paths d cleanup tr : inventory_seen entries f paths tr ->
  decide_batch r o f paths (now - op_Window op) op = Ok d -> Forall payload_kind cleanup -> go_catalog g = Some entries ->
  wp run_guard (fun _ _ => True) (execute_batch gunzip r g d f now op cleanup) tr.
Proof.
  intros Hi Hd Hc Hg. unfold execute_batch. cbv zeta. wp_if as Ed; [done|]. apply orb_false_iff in Ed as [Ed _]. apply wp_bind.
  set (p := GCOwner_Plan _ _ _ _ _). pose proof (wp_frame _ _ _ [] tr (execute_wp gunzip r g p)) as Hx.
  eapply wp_mono; [|eapply wp_G_mono; [|exact Hx]].
  - by intros tr' [g' e] _.
  - intros tr' X e (l & -> & He & Ho) Hm. right.
    exists entries, f, paths, d, cleanup, p, (go_owner g), l, tr. destruct (Ho Hm) as (Hpl & _). split_and!; try done. by destruct (Ho Hm) as (_ & c & [Hcat|[Hcat _]] & H & _); rewrite Hg in Hcat; [injection Hcat as <-|discriminate].
Qed.
Lemma work_wp g tr : wp run_guard (fun _ _ => True) (work gunzip gzip_header r compression o g now op) tr.
Proof.
  pose proof run_guard_reads as HG. unfold work. cbv zeta.
  eapply wp_reads; [exact HG|apply Inventory_reads|]. intros tr1 [g1 [f1|e]] Hq1 [_ H1]; [|done].
  destruct H1 as (entries & Hcat & Hf1 & Hgc). cbn in Hgc.
  eapply wp_reads; [exact HG|apply ArchiveInventory_proves|]. intros tr2 [f|e] Hq2 H2; [|done]. destruct H2 as (objs & Harch & Hf).
  assert (proves (plan_batch gunzip gzip_header r compression o f now op) (fun d tr => exists paths,
    Forall2 (path_authentic (fa_histories f) tr) (sort_slice Z.ltb (elements (fa_timelines f))) paths
    /\ decide_batch r o f paths (now - op_Window op) op = Ok d)) as Hplan.
  { unfold plan_batch. eapply proves_bindE; [|apply read_paths_proves|].
    { intros paths t t' He H. eapply Forall2_impl; [exact H|]. intros x y. by apply path_authentic_stable. }
    intros paths. destruct (decide_batch _ _ _ _ _ _) as [d|] eqn:Ed; [|apply proves_fail]. apply proves_done. intros t H. by exists paths. }
  eapply wp_reads; [exact HG|exact Hplan|]. intros tr3 [d|e] Hq3 H3; [|done]. destruct H3 as (paths & Hpaths & Hd).
  eapply wp_reads; [exact HG|apply Cleanup_proves|]. intros tr4 [cleanup|e] Hq4 H4; [|done].
  apply (execute_batch_wp g1 entries f paths); try done. exists objs, f1.
  apply quiet_extends in Hq1, Hq2, Hq3, Hq4. split_and!; [| |done|done|].
  - eapply catalog_seen_stable; [|exact Hcat]. eapply extends_trans; [exact Hq2|]. by eapply extends_trans.
  - eapply archive_seen_stable; [|exact Harch]. by eapply extends_trans.
  - eapply Forall2_impl; [exact Hpaths|]. intros x y. by apply path_authentic_stable.
Qed.
Lemma Run_wp notBefore tr : wp run_guard (fun _ _ => True) (Run gunzip gzip_header r compression o notBefore now op) tr.
Proof.
  pose proof run_guard_reads as HG. unfold Run. wp_if as Ee; [done|]. wp_if as Eo; [done|].
  apply wp_bind. apply (wp_mono _ (fun _ _ => True)).
  - intros tr1 [g|e] _; [|done]. apply wp_bind. eapply wp_mono; [|apply work_wp]. intros tr2 [[g2 result] err] _.
    apply wp_bind. apply (wp_mono _ (fun _ _ => True)); [by intros tr3 [[g3 close] nb]|].
    unfold GCOwner_Close. cbv zeta. split; [done|]. intros t. cbn [bind]. wp_if as Eu; [done|].
    apply wp_bind. apply (wp_mono _ (fun _ _ => True)); [done|]. apply wp_bindE. eapply wp_mono; [|apply changeGate_wp; [exact HG|apply run_guard_gate]].
    intros tr3 [[]|e] _; [|done]. split; [done|]. done.
  - unfold AcquireGC. eapply wp_readsE; [exact HG|by apply (reads_call CheckBucketSafety)|done|]. intros tr1 [] _ _.
    split; [done|]. intros t. cbn [bind].
    eapply wp_readsE; [exact HG| |done|]; [instantiate (1 := fun _ _ => True); destruct (t <? notBefore)|].
    { eapply reads_bind; [by apply (reads_local (Sleep _))|]. intros x. by apply reads_ret. }
    { by apply reads_ret. }
    intros tr2 [] _ _. split; [done|]. intros operation. cbn [bind]. cbv zeta. apply wp_bindE.
    eapply wp_mono; [|apply changeGate_wp; [exact HG|apply run_guard_gate]]. by intros tr3 [[]|e] _.
Qed.
End Guard.
End Evidence.

(** ** The property *)
(** A victim the decision entitles: an expired backup, or a listed segment nothing kept needs, together with all expired backups. *)
Definition victim_safe (in_ : Inventory) (f : facts) (d : Decision) (victims : list Victim) (v : Victim) : Prop :=
  (is_retirement v = true -> exists b, b ∈ in_Backups in_ /\ v_BackupUID v = Some (b_ID b) /\ b_ID b ∈ d_Expire d /\ ~ kept d b)
  /\ (is_wal v = true -> exists s ob, (s, ob) ∈ zip (fa_segments f) (fa_objects f) /\ v_WALName v = Some (wo_Name ob)
      /\ v_ExpectedETag v = Some (wo_ETag ob) /\ wo_Retired ob = false
      /\ ArchivePosition (wo_Name ob) (in_SegmentBytes in_) = Ok (d_Current d, s_Start s) /\ s_Start s < d_WALFloor d
      /\ unneeded in_ d (d_Current d) (s_Start s)
      /\ forall uid, uid ∈ d_Expire d -> exists x, x ∈ victims /\ is_retirement x = true /\ v_BackupUID x = Some uid).

(** What a call of a run of [op] at [now] is entitled to, with the calls of the run before it: [d] is the planner's own decision. *)
Definition entitled_effect (gunzip : string -> option (string * string)) (r : Repository) (compression : string) (o : Retention.order) (now : Time)
    (op : Options) (pre : trace) X (e : event X) : Prop :=
  gate_put r pre e \/ exists entries f paths d cleanup p owner l before,
    pre = l ++ before /\ inventory_seen gunzip r compression entries f paths before
    /\ fa_backups f = backup_of ∘ en_Commit <$> List.filter (fun en => negb (en_Retired en)) entries
    /\ decide_batch r o f paths (now - op_Window op) op = Ok d /\ op_DryRun op = false
    /\ Forall payload_kind cleanup /\ gp_Victims p = batch d f cleanup /\ (length (gp_Victims p) <= 128)%nat
    /\ execute_guard r p owner l X e /\ plan_of r owner p /\ dependants_first entries ∅ (gp_Victims p)
    /\ Forall (victim_safe (inventory_of_facts r f paths) f d (gp_Victims p)) (gp_Victims p).
Lemma run_entitled gunzip gzip_header r compression o notBefore now op pre X (e : event X) :
  order_ok o -> emits (Run gunzip gzip_header r compression o notBefore now op) [] pre X e -> mutating e = true ->
  entitled_effect gunzip r compression o now op pre X e.
Proof.
  intros Ho He Hm. destruct (wp_emits _ _ _ _ _ _ _ (Run_wp gunzip gzip_header r compression o now op notBefore []) He Hm) as [H|H]; [by left|].
  right. destruct H as (entries & f & paths & d & cleanup & p & owner & l & before & H1 & H2 & H3 & H4 & H5 & H6 & H7 & H8 & H9).
  exists entries, f, paths, d, cleanup, p, owner, l, before. destruct (inventory_facts _ _ _ _ _ _ _ H2) as (F1 & F2 & F3).
  destruct (batch_spec d f cleanup H4) as [B1 B2]. rewrite H5 in *.
  destruct (decision_safe r o f paths _ op d Ho F1 F2 H3) as [D1 D2]. split_and!; try done.
  eapply Forall_impl; [exact B2|]. intros v [V1 V2]. split.
  - intros Hr. destruct (V1 Hr) as (uid & Hu & Hin). destruct (D1 uid Hin) as (b & Hb & <- & Hk). by exists b.
  - intros Hw. destruct (V2 Hw) as [W1 (s & ob & Hz & Hx & Hn & Ht)]. destruct (D2 s ob Hz Hx) as (_ & P0 & P1 & P2 & P3).
    exists s, ob. split_and!; try done. intros uid Hu. eexists. split; [by apply W1|]. done.
Qed.

(** C4: Retention as a whole destroys only what no kept backup needs.  Every mutation of a [Run], whatever storage answers, is
    a valid gate written over the version of it that was read, or it satisfies the guard of [Execute] for the batch, of at most
    128 victims and not of a dry run, that the planner's own decision gives: [Plan] over the inventories read before it, for the
    window of the options before now.  In these inventories the backups are exactly the live commits of a complete
    listing, the segments the listed archive, the paths parsed from verified histories.  In the batch every
    retired backup is one the planner expired and does not keep; every retired segment is a live listed object under the version listed,
    lies on the current timeline below the floor, and no kept backup replays a byte of it on any path; it comes with the
    retirement of all expired backups; and no full is retired before the live differentials that depend on it. *)
Theorem retention_run_safe gunzip gzip_header r compression o notBefore now op pre X (e : event X) :
  order_ok o -> emits (Run gunzip gzip_header r compression o notBefore now op) [] pre X e -> mutating e = true ->
  gate_put r pre e \/ exists entries f paths d cleanup p owner l before,
    pre = l ++ before /\ inventory_seen gunzip r compression entries f paths before
    /\ fa_backups f = backup_of ∘ en_Commit <$> List.filter (fun en => negb (en_Retired en)) entries
    /\ decide_batch r o f paths (now - op_Window op) op = Ok d /\ op_DryRun op = false
    /\ Forall payload_kind cleanup /\ gp_Victims p = batch d f cleanup /\ (length (gp_Victims p) <= 128)%nat
    /\ execute_guard r p owner l X e /\ plan_of r owner p /\ dependants_first entries ∅ (gp_Victims p)
    /\ Forall (victim_safe (inventory_of_facts r f paths) f d (gp_Victims p)) (gp_Victims p).
Proof. intros Ho He Hm. by destruct (run_entitled _ _ _ _ _ _ _ _ _ _ _ Ho He Hm) as [H|H]; [left|right]. Qed.

Definition demo_options : Options := mkOptions true false (3600 * second) 1 None.
Definition demo_run : prog (Result * list error * Time) :=
  Run no_gunzip (fun _ => true) demo "none" tree_order zero_time demo_now demo_options.
Definition demo_run_memory : memory := memory_of demo_now demo_garbage.
(** The abandoned manifest is collected and the gate released. *)
Example demo_run_result :
  let '(result, errors, _) := (run memory_handler demo_run demo_run_memory).1 in
  re_Planned result = 1 /\ re_Executed result = true /\ errors = [].
Proof. vm_compute. done. Qed.
Lemma retention_run_safe_witness : exists pre key, gate_put demo pre (Delete key) \/ exists entries f paths d cleanup p owner l before,
    pre = l ++ before /\ inventory_seen no_gunzip demo "none" entries f paths before
    /\ fa_backups f = backup_of ∘ en_Commit <$> List.filter (fun en => negb (en_Retired en)) entries
    /\ decide_batch demo tree_order f paths (demo_now - op_Window demo_options) demo_options = Ok d /\ op_DryRun demo_options = false
    /\ Forall payload_kind cleanup /\ gp_Victims p = batch d f cleanup /\ (length (gp_Victims p) <= 128)%nat
    /\ execute_guard demo p owner l _ (Delete key) /\ plan_of demo owner p /\ dependants_first entries ∅ (gp_Victims p)
    /\ Forall (victim_safe (inventory_of_facts demo f paths) f d (gp_Victims p)) (gp_Victims p).
Proof.
  destruct (run_emits memory_handler is_delete demo_run demo_run_memory []) as (pre & X & e & Hp & He).
  - reflexivity.
  - vm_compute. reflexivity.
  - destruct e; try discriminate Hp. unfold demo_run in He. exists pre. eexists.
    exact (retention_run_safe no_gunzip (fun _ => true) demo "none" tree_order zero_time demo_now demo_options pre _ _ tree_order_ok He eq_refl).
Defined.
