(* ===== verification/LooseJson.v ===== *)
(** * The lenient decoder (encoding/json's Decoder with DisallowUnknownFields)

    What [json.Decoder.Decode] into a struct accepts beyond the strict decoder of Json.v: missing and repeated
    members, member names that match a field up to case, null for any value, and text that is not valid
    Unicode, which is replaced.  A repeated member is decoded into the value the first one left, and a
    slice reuses the elements its memory still holds. *)

From S2P Require Import Prelude GoStrings Errors Json.

(** ** Unicode replacement

    The decoder replaces an invalid byte of a string and an unpaired surrogate escape by U+FFFD; [sanitize] does
    the same to the text of the document.  [keep] counts the bytes of the current UTF-8 sequence still to
    be copied. *)
Definition replacement : string := utf8_encode 0xFFFD "".
Definition escape4 (a b c d : ascii) (s : string) : string :=
  String backslash (String "u" (String a (String b (String c (String d s))))).
Fixpoint sanitize (inside : bool) (keep : nat) (s : string) : string :=
  match s with
  | EmptyString => ""
  | String x t =>
      match keep with
      | S k => String x (sanitize inside k t)
      | O =>
          if x ==? quote then String x (sanitize (negb inside) 0 t)
          else if negb inside then String x (sanitize inside 0 t)
          else if x ==? backslash then
            match t with
            | EmptyString => String x ""
            | String e t =>
                if negb (e ==? "u"%char) then String x (String e (sanitize inside 0 t)) else
                match t with
                | String a (String b (String c (String d t))) =>
                    match hex4 a b c d with
                    | None => escape4 a b c d (sanitize inside 0 t)
                    | Some n =>
                        if low_surrogate n then "\ufffd" +:+ sanitize inside 0 t
                        else if high_surrogate n then
                          match t with
                          | String y (String z (String a' (String b' (String c' (String d' u))))) =>
                              if (y ==? backslash) && (z ==? "u"%char)
                                 && match hex4 a' b' c' d' with Some low => low_surrogate low | None => false end
                              then escape4 a b c d (escape4 a' b' c' d' (sanitize inside 0 u))
                              else "\ufffd" +:+ sanitize inside 0 t
                          | _ => "\ufffd" +:+ sanitize inside 0 t
                          end
                        else escape4 a b c d (sanitize inside 0 t)
                    end
                | _ => String x (String e (sanitize inside 0 t))
                end
            end
          else match rune_width s with
               | O => replacement +:+ sanitize inside 0 t
               | S k => String x (sanitize inside k t)
               end
      end
  end.

(** ** Field names, up to case

    ASCII letters, the long s and the Kelvin sign fold to ASCII capitals. *)
Definition upper_byte (c : ascii) : ascii := if in_range "a" "z" c then byte (byte_val c - 32) else c.
Definition long_s : string := utf8_encode 0x17F "".
Definition kelvin : string := utf8_encode 0x212A "".
Fixpoint fold_name (skip : nat) (s : string) : string :=
  match s with
  | EmptyString => ""
  | String c t =>
      match skip with
      | S k => fold_name k t
      | O => if HasPrefix s long_s then String "S" (fold_name 1 t)
             else if HasPrefix s kelvin then String "K" (fold_name 2 t)
             else String (upper_byte c) (fold_name 0 t)
      end
  end.

(** ** Decoding into a value *)
Class Loose (A : Type) := mkLoose { zero : A; into : A -> json -> option A }.

#[export] Instance loose_string : Loose string :=
  mkLoose string "" (fun v j => match j with JNull => Some v | JText s => Some s | _ => None end).

(** The decoders of the fields of a struct, by name. *)
Abbreviation field_table A := (list (string * (A -> json -> option A))).
Fixpoint find_field {A} (eq : string -> bool) (table : field_table A) : option (A -> json -> option A) :=
  match table with [] => None | (n, f) :: table => if eq n then Some f else find_field eq table end.
Definition field_of {A} (table : field_table A) (k : string) : option (A -> json -> option A) :=
  match find_field (fun n => n ==? k) table with
  | Some f => Some f
  | None => find_field (fun n => fold_name 0 n ==? fold_name 0 k) table
  end.
Fixpoint into_members {A} (table : field_table A) (v : A) (l : list (string * json)) : option A :=
  match l with
  | [] => Some v
  | (k, j) :: l =>
      match field_of table k with
      | None => None
      | Some f => match f v j with Some v => into_members table v l | None => None end
      end
  end.
Definition into_struct {A} (table : field_table A) (v : A) (j : json) : option A :=
  match j with JNull => Some v | JObject l => into_members table v l | _ => None end.
(** A field of type [B] of the struct [A]. *)
Definition on_field {A B} {L : Loose B} (get : A -> B) (set : A -> B -> A) : A -> json -> option A :=
  fun v j => set v <$> into (get v) j.

(** A slice: the elements its memory holds and how many of them it has. *)
Record slice_of (A : Type) := mkSlice { sl_mem : list A; sl_len : nat }.
Arguments mkSlice {A} _ _.
Arguments sl_mem {A} _.
Arguments sl_len {A} _.
Definition elements_of {A} (s : slice_of A) : list A := take (sl_len s) (sl_mem s).
Fixpoint into_elements {A} {L : Loose A} (i : nat) (mem : list A) (l : list json) : option (list A) :=
  match l with
  | [] => Some mem
  | j :: l =>
      match into (default zero (mem !! i)) j with
      | None => None
      | Some v => into_elements (S i) (if (i <? length mem)%nat then <[i := v]> mem else mem ++ [v]) l
      end
  end.
#[export] Instance loose_slice {A} {L : Loose A} : Loose (slice_of A) :=
  mkLoose (slice_of A) (mkSlice [] 0) (fun s j =>
    match j with
    | JNull | JArray [] => Some (mkSlice [] 0)
    | JArray l => (fun mem => mkSlice mem (length l)) <$> into_elements 0 (sl_mem s) l
    | _ => None
    end).

(** [Decode] followed by a second one that must report the end of the input. *)
Definition decode_only {A} {L : Loose A} (data : string) : option A :=
  match parse_document (sanitize false 0 data) with
  | Some j => into zero j
  | None => None
  end.

(** ** What the encoder writes is read back *)
Lemma sanitize_clean n s inside : (String.length s <= n)%nat -> ascii_text s = true -> unicode_go inside s = true ->
  sanitize inside 0 s = s.
Proof.
  revert s inside. induction n as [|n IH]; intros s inside Hn Ha Hu; [by destruct s; [|cbn in Hn; lia]|].
  destruct s as [|x t]; [done|]. cbn [String.length] in Hn. cbn in Ha. apply andb_true_iff in Ha as [Hx Ha].
  cbn [sanitize unicode_go] in *. destruct (x ==? quote); [by rewrite IH by (done || lia)|].
  destruct inside; cbn [negb orb] in *; [|by rewrite IH by (done || lia)].
  destruct (x ==? backslash) eqn:Eb; cbn [negb] in Hu.
  - destruct t as [|e t]; [done|]. cbn [String.length] in Hn. cbn in Ha. apply andb_true_iff in Ha as [_ Ha].
    destruct (negb (e ==? "u"%char)) eqn:Ee; [by rewrite IH by (done || lia)|].
    apply negb_false_iff, bool_decide_eq_true in Ee. apply bool_decide_eq_true in Eb. subst x e.
    destruct t as [|a [|b [|c [|d t]]]]; try done. cbn [String.length] in Hn. cbn in Ha. bool_split.
    destruct (hex4 a b c d) as [m|]; [|done]. destruct (low_surrogate m); [done|].
    destruct (high_surrogate m); [|unfold escape4; by rewrite IH by (done || lia)].
    destruct t as [|y [|z [|a' [|b' [|c' [|d' u]]]]]]; try done. cbn [String.length] in Hn.
    match goal with H : all_chars _ _ = true |- _ => cbn in H end. bool_split.
    destruct (negb (y ==? backslash) || negb (z ==? "u"%char)) eqn:Eyz; [done|]. apply orb_false_iff in Eyz as [E1 E2].
    apply negb_false_iff, bool_decide_eq_true in E1, E2. subst y z. cbn [andb bool_decide].
    destruct (hex4 a' b' c' d') as [low|]; [|done]. destruct (low_surrogate low); [|done].
    rewrite !bool_decide_eq_true_2 by done. cbn [andb]. unfold escape4. by rewrite IH by (done || lia).
  - rewrite ascii_rune by done. by rewrite IH by (done || lia).
Qed.

Lemma decode_only_print {A} {L : Loose A} (v : A) j : plain_tree j -> into zero j = Some v -> decode_only (print j) = Some v.
Proof.
  intros Hp Hj. unfold decode_only. destruct (print_clean _ j (Nat.le_refl _) Hp) as [[Ha Hu] _].
  specialize (Hu ""). rewrite append_nil_r in Hu. rewrite (sanitize_clean _ _ _ (Nat.le_refl _)) by done.
  by rewrite parse_document_print.
Qed.

Lemma into_elements_fresh {A} {L : Loose A} (f : A -> json) pre l :
  Forall (fun v => into zero (f v) = Some v) l -> into_elements (length pre) pre (map f l) = Some (pre ++ l).
Proof.
  intros H. revert pre. induction H as [|v l Hv _ IH]; intros pre; cbn [map into_elements]; [by rewrite app_nil_r|].
  rewrite lookup_ge_None_2 by done. cbn [default]. rewrite Hv, Nat.ltb_irrefl. specialize (IH (pre ++ [v])).
  rewrite length_app in IH. cbn in IH. rewrite Nat.add_1_r in IH. by rewrite IH, <- app_assoc.
Qed.
Lemma into_slice_fresh {A} {L : Loose A} (f : A -> json) l :
  Forall (fun v => into zero (f v) = Some v) l ->
  into (zero (A := slice_of A)) (JArray (map f l)) = Some (mkSlice l (length l)).
Proof.
  intros H. pose proof (into_elements_fresh f [] l H) as E. cbn [length app] in E. cbn [into loose_slice zero sl_mem].
  destruct l as [|x l]; [done|]. cbn [map] in *. rewrite E. cbn. by rewrite length_map.
Qed.
Lemma elements_of_all {A} (l : list A) : elements_of (mkSlice l (length l)) = l.
Proof. unfold elements_of. cbn. by rewrite firstn_all. Qed.
