(* ===== verification/GuardConfig.v ===== *)
(** * The recovery guard's documents and command line (internal/recoveryguard/config.go)

    The lifecycle projection that names the target volumes, the identities of one recovery, the lenient
    decoder of local control documents, and the exact command line the guard agrees to supervise. *)

From S2P Require Import Prelude GoStrings Sha256 Errors Schema Json LooseJson.

(** [errors.New] and [status.Error] values are their text; two sentinels are compared. *)
Inductive guard_error := ErrBusy | ErrUncertain | ErrText (msg : string).
#[export] Instance guard_error_eq_dec : EqDecision guard_error.
Proof. solve_decision. Defined.
Abbreviation gres := (result guard_error).

Definition HelperPath : string := "/cnpg-backup/bin/cnpg-backup".
Definition maxMessage : Z := Z.shiftl 32 10.
Definition data_mount : string := "/var/lib/postgresql/data".
Definition wal_mount : string := "/var/lib/postgresql/wal".

Record Target := mkTarget { tg_PVCUID : string; tg_Mount : string }.
#[export] Instance Target_eq_dec : EqDecision Target.
Proof. solve_decision. Defined.
Record Config := mkConfig { cf_ClusterUID : string; cf_OperationUID : string; cf_Targets : list Target }.
Record Owner := mkOwner { ow_ClusterUID : string; ow_OperationUID : string; ow_PodUID : string; ow_GuardUID : string }.
#[export] Instance Owner_eq_dec : EqDecision Owner.
Proof. solve_decision. Defined.
Record Tuple := mkTuple { tu_Owner : Owner; tu_SidecarUID : string }.
#[export] Instance Tuple_eq_dec : EqDecision Tuple.
Proof. solve_decision. Defined.

(** ** Patterns *)
Definition uuidPattern (s : string) : bool := uuidRE s.
Definition is_letter (c : ascii) : bool := in_range "a" "z" c || in_range "A" "Z" c.
(** [[a-zA-Z_][a-zA-Z0-9_$]{0,62}] *)
Definition identifier (s : string) : bool :=
  match s with
  | EmptyString => false
  | String c t => (is_letter c || (c ==? "_"%char)) && (String.length t <=? 62)%nat
                  && all_chars (fun c => is_letter c || is_digit c || (c ==? "_"%char) || (c ==? "$"%char)) t
  end.
Definition tablespacePattern (s : string) : bool :=
  HasPrefix s "/var/lib/postgresql/tablespaces/" && identifier (TrimPrefix s "/var/lib/postgresql/tablespaces/").
(** [^[a-zA-Z][a-zA-Z0-9_.-]{0,63}$] *)
Definition log_field (s : string) : bool :=
  match s with
  | EmptyString => false
  | String c t => is_letter c && (String.length t <=? 63)%nat
                  && all_chars (fun c => is_letter c || is_digit c || (c ==? "_"%char) || (c ==? "."%char) || (c ==? "-"%char)) t
  end.

Definition Tuple_Validate (t : Tuple) : gres () :=
  let o := tu_Owner t in
  forM [ow_ClusterUID o; ow_OperationUID o; ow_PodUID o; ow_GuardUID o; tu_SidecarUID t] ()
    (fun _ id => if negb (uuidPattern id) then Err (ErrText "invalid recovery tuple") else Ok ()).

(** [NewUUID] of sixteen random bytes. *)
Definition NewUUID (b : list Z) : string := uuid_text 0x40 b.

(** ** Configuration *)
Definition allowed_mount (m : string) : bool := (m ==? data_mount) || (m ==? wal_mount) || tablespacePattern m.
Definition target_step (acc : gset string * gset string) (t : Target) : gres (gset string * gset string) :=
  let '(uids, mounts) := acc in
  if negb (uuidPattern (tg_PVCUID t)) || bool_decide (tg_PVCUID t ∈ uids) || bool_decide (tg_Mount t ∈ mounts)
  then Err (ErrText "duplicate or invalid target") else
  if negb (allowed_mount (tg_Mount t)) then Err (ErrText "unsupported target mount") else
  Ok ({[tg_PVCUID t]} ∪ uids, {[tg_Mount t]} ∪ mounts).
Definition Config_Validate (c : Config) : gres () :=
  if negb (uuidPattern (cf_ClusterUID c)) || negb (uuidPattern (cf_OperationUID c))
     || (Z.of_nat (length (cf_Targets c)) <? 1) || (66 <? Z.of_nat (length (cf_Targets c)))
  then Err (ErrText "invalid recovery identity or target count") else
  let? (_, mounts) := forM (cf_Targets c) (∅, ∅) target_step in
  if negb (bool_decide (data_mount ∈ mounts)) then Err (ErrText "PGDATA target missing") else Ok ().
Definition Config_owner (c : Config) (pod guard : string) : gres Owner :=
  let? _ := Config_Validate c in
  if negb (uuidPattern pod) || negb (uuidPattern guard) then Err (ErrText "invalid Pod or guard identity") else
  Ok (mkOwner (cf_ClusterUID c) (cf_OperationUID c) pod guard).
Definition sortedTargets (c : Config) : list Target :=
  sort_slice (fun a b => String.ltb (tg_PVCUID a) (tg_PVCUID b)) (cf_Targets c).

(** ** Documents *)
#[export] Instance loose_Owner : Loose Owner := mkLoose Owner (mkOwner "" "" "" "") (into_struct [
  ("clusterUID", on_field ow_ClusterUID (fun v x => mkOwner x (ow_OperationUID v) (ow_PodUID v) (ow_GuardUID v)));
  ("operationUID", on_field ow_OperationUID (fun v x => mkOwner (ow_ClusterUID v) x (ow_PodUID v) (ow_GuardUID v)));
  ("podUID", on_field ow_PodUID (fun v x => mkOwner (ow_ClusterUID v) (ow_OperationUID v) x (ow_GuardUID v)));
  ("guardUID", on_field ow_GuardUID (fun v x => mkOwner (ow_ClusterUID v) (ow_OperationUID v) (ow_PodUID v) x))]).
#[export] Instance loose_Target : Loose Target := mkLoose Target (mkTarget "" "") (into_struct [
  ("pvcUID", on_field tg_PVCUID (fun v x => mkTarget x (tg_Mount v)));
  ("mount", on_field tg_Mount (fun v x => mkTarget (tg_PVCUID v) x))]).
#[export] Instance loose_Tuple : Loose Tuple := mkLoose Tuple (mkTuple zero "") (into_struct [
  ("owner", on_field tu_Owner (fun v x => mkTuple x (tu_SidecarUID v)));
  ("sidecarUID", on_field tu_SidecarUID (fun v x => mkTuple (tu_Owner v) x))]).

Definition Decode {A} {L : Loose A} (data : string) : gres A :=
  if maxMessage <? len data then Err (ErrText "local control document too large") else
  match decode_only data with Some v => Ok v | None => Err (ErrText "invalid or trailing local control document") end.

(** A configuration while it is decoded. *)
Record raw_config := mkRawConfig { rc_ClusterUID : string; rc_OperationUID : string; rc_Targets : slice_of Target }.
#[export] Instance loose_raw_config : Loose raw_config := mkLoose raw_config (mkRawConfig "" "" zero) (into_struct [
  ("clusterUID", on_field rc_ClusterUID (fun v x => mkRawConfig x (rc_OperationUID v) (rc_Targets v)));
  ("operationUID", on_field rc_OperationUID (fun v x => mkRawConfig (rc_ClusterUID v) x (rc_Targets v)));
  ("targets", on_field rc_Targets (fun v x => mkRawConfig (rc_ClusterUID v) (rc_OperationUID v) x))]).
(** The bytes read from the file are cut at one more than the limit. *)
Definition LoadConfig (file : gres string) : gres Config :=
  let? b := file in
  let? v := Decode (A := raw_config) (slice 0 (Z.to_nat (maxMessage + 1)) b) in
  let c := mkConfig (rc_ClusterUID v) (rc_OperationUID v) (elements_of (rc_Targets v)) in
  let? _ := Config_Validate c in Ok c.

(** ** The command line *)
Definition expected_argv (separateWAL : bool) : list string :=
  ["/controller/manager"; "instance"; "restore"]
  ++ if separateWAL then ["--pg-wal"; "/var/lib/postgresql/wal/pg_wal"] else [].
Definition flag_step (remaining : list string) (flag : string) : gres (list string) :=
  match remaining with
  | [] => Ok remaining
  | first :: rest =>
      if negb (HasPrefix first flag) then Ok remaining else
      let value := TrimPrefix first flag in
      if flag ==? "--log-level=" then
        if negb (bool_decide (value ∈ ["error"; "warning"; "info"; "debug"; "trace"]))
        then Err (ErrText "unexpected CNPG log level") else Ok rest
      else if negb (log_field value) then Err (ErrText "unsupported CNPG log field") else Ok rest
  end.
Definition log_flags : list string := ["--log-level="; "--log-field-level="; "--log-field-timestamp="].
Definition WrapArgv (command args : list string) (separateWAL : bool) : gres (list string) :=
  let original := command ++ args in
  let expected := expected_argv separateWAL in
  if (length original <? length expected)%nat || (take (length expected) original !=? expected)
  then Err (ErrText "unexpected CNPG recovery argv") else
  let? remaining := forM log_flags (drop (length expected) original) flag_step in
  if negb (length remaining =? 0)%nat then Err (ErrText "unexpected CNPG recovery flags") else
  Ok ([HelperPath; "recovery-guard"; "--"] ++ original).
Definition ValidateArgv (c : Config) (argv : list string) : gres () :=
  let wal := existsb (fun t => tg_Mount t ==? wal_mount) (cf_Targets c) in
  let? _ := WrapArgv argv [] wal in Ok ().

(** ** What validation means *)
Record config_ok (c : Config) : Prop := mkConfigOk {
  co_uids : NoDup (tg_PVCUID <$> cf_Targets c);
  co_mounts : NoDup (tg_Mount <$> cf_Targets c);
  co_allowed : Forall (fun t => uuidPattern (tg_PVCUID t) = true /\ allowed_mount (tg_Mount t) = true) (cf_Targets c);
  co_data : data_mount ∈ tg_Mount <$> cf_Targets c;
  co_bound : (length (cf_Targets c) <= 66)%nat }.
Definition targets_seen (pre : list Target) (acc : gset string * gset string) : Prop :=
  (forall x, x ∈ acc.1 <-> x ∈ tg_PVCUID <$> pre) /\ (forall x, x ∈ acc.2 <-> x ∈ tg_Mount <$> pre)
  /\ NoDup (tg_PVCUID <$> pre) /\ NoDup (tg_Mount <$> pre)
  /\ Forall (fun t => uuidPattern (tg_PVCUID t) = true /\ allowed_mount (tg_Mount t) = true) pre.
Lemma target_step_seen pre x acc acc' : targets_seen pre acc -> target_step acc x = Ok acc' -> targets_seen (pre ++ [x]) acc'.
Proof.
  destruct acc as [u m]. intros (Hu & Hm & Hnu & Hnm & Hall) Hs. cbn in Hu, Hm. unfold target_step in Hs. res_inv. bool_split.
  unfold targets_seen. rewrite !fmap_app. cbn. split_and!.
  - intros y. rewrite elem_of_union, elem_of_singleton, Hu, elem_of_app, list_elem_of_singleton. tauto.
  - intros y. rewrite elem_of_union, elem_of_singleton, Hm, elem_of_app, list_elem_of_singleton. tauto.
  - apply NoDup_app. split_and!; [done| |apply NoDup_singleton]. intros y Hy ->%list_elem_of_singleton. by apply Hu in Hy.
  - apply NoDup_app. split_and!; [done| |apply NoDup_singleton]. intros y Hy ->%list_elem_of_singleton. by apply Hm in Hy.
  - apply Forall_app. split; [done|]. by apply Forall_singleton.
Qed.
Lemma Config_Validate_ok c : Config_Validate c = Ok () -> config_ok c.
Proof.
  unfold Config_Validate. intros H. res_inv. destruct a as [uids mounts]. res_inv. bool_split.
  assert (targets_seen (cf_Targets c) (uids, mounts)) as (Hu & Hm & Hnu & Hnm & Hall).
  { eapply forM_inv; [| |exact E0].
    - split_and!; cbn; try set_solver; constructor.
    - intros. by eapply target_step_seen. }
  split; [done|done|done|by apply Hm|lia].
Qed.
Lemma sortedTargets_perm c : sortedTargets c ≡ₚ cf_Targets c.
Proof. apply sort_slice_perm. Qed.

(** ** The supervised command *)
Definition valid_flag (flag x : string) : Prop := exists value, x = flag +:+ value
  /\ if flag ==? "--log-level=" then value ∈ ["error"; "warning"; "info"; "debug"; "trace"] else log_field value = true.
Definition optional (P : string -> Prop) (l : list string) : Prop := l = [] \/ exists x, l = [x] /\ P x.
Definition starts (flag : string) (l : list string) : bool :=
  match l with [] => false | x :: _ => HasPrefix x flag end.

Lemma flag_step_Ok flag o rest : optional (valid_flag flag) o -> (o = [] -> starts flag rest = false) ->
  flag_step (o ++ rest) flag = Ok rest.
Proof.
  intros [->|(x & -> & value & -> & Hv)] Hs; cbn [app].
  - specialize (Hs eq_refl). destruct rest as [|y rest]; [done|]. cbn in Hs |- *. by rewrite Hs.
  - destruct (HasPrefix_append flag value) as [Hp Ht]. cbn. rewrite Hp, Ht. cbn.
    destruct (flag ==? "--log-level="); [by rewrite bool_decide_eq_true_2|by rewrite Hv].
Qed.
Lemma flag_step_inv flag l rest : flag_step l flag = Ok rest -> exists o, l = o ++ rest /\ optional (valid_flag flag) o.
Proof.
  destruct l as [|x l]; cbn; [intros [= <-]; exists []; split; [done|by left]|].
  destruct (HasPrefix x flag) eqn:Hp; cbn; [|intros [= <-]; exists []; split; [done|by left]].
  pose proof (HasPrefix_inv _ _ Hp) as Hx. intros H. exists [x]. split.
  - cbn. f_equal. destruct (flag ==? _); res_inv; done.
  - right. exists x. split; [done|]. exists (TrimPrefix x flag). split; [done|].
    destruct (flag ==? _); res_inv; bool_split; done.
Qed.
(** A flag does not start with the name of another one. *)
Lemma starts_other flag flag' o rest : optional (valid_flag flag') o ->
  (forall value, HasPrefix (flag' +:+ value) flag = false) -> starts flag rest = false -> starts flag (o ++ rest) = false.
Proof. by intros [->|(x & -> & value & -> & _)] H Hr; [|apply H]. Qed.

(** The guard supervises one command only.  [WrapArgv] accepts a container's command line exactly when it is
    CloudNativePG's recovery command (with the WAL directory option exactly when there is a WAL volume), followed by at most
    one well-formed flag of each of the three logging kinds in the generator's order; the result is the
    helper in front of the unchanged original bytes. *)
Theorem wrap_argv_exact command args wal r :
  WrapArgv command args wal = Ok r <->
  exists level field stamp, command ++ args = expected_argv wal ++ level ++ field ++ stamp
    /\ optional (valid_flag "--log-level=") level /\ optional (valid_flag "--log-field-level=") field
    /\ optional (valid_flag "--log-field-timestamp=") stamp
    /\ r = [HelperPath; "recovery-guard"; "--"] ++ command ++ args.
Proof.
  unfold WrapArgv, log_flags. split.
  - intros H. res_inv. bool_split. cbn [forM] in E0. res_inv.
    destruct (flag_step_inv _ _ _ E) as (level & Hl & ?), (flag_step_inv _ _ _ E2) as (field & Hf & ?),
      (flag_step_inv _ _ _ E3) as (stamp & Hs & ?).
    match goal with H : (length a =? 0)%nat = true |- _ => apply Nat.eqb_eq, nil_length_inv in H; subst a end.
    rewrite app_nil_r in Hs. exists level, field, stamp. split_and!; try done.
    rewrite <- Hs, <- Hf, <- Hl, <- H0 at 1. by rewrite take_drop.
  - intros (level & field & stamp & E & Hl & Hf & Hs & ->). rewrite E, length_app.
    replace (_ <? _)%nat with false by (symmetry; apply Nat.ltb_ge; lia).
    rewrite take_app_length, drop_app_length, (bool_decide_eq_true_2 (expected_argv wal = _)) by done. cbn [negb orb forM].
    rewrite flag_step_Ok by (done || (intros ->; eapply starts_other; [done|done|]; rewrite <- (app_nil_r stamp); by eapply starts_other)).
    cbn [res_bind]. rewrite flag_step_Ok by (done || (intros ->; rewrite <- (app_nil_r stamp); by eapply starts_other)).
    cbn [res_bind]. rewrite <- (app_nil_r stamp). rewrite flag_step_Ok by done. cbn. by rewrite app_nil_r.
Qed.
