(* ===== verification/Admission.v ===== *)
(** * The sidecar's terminal admission gate (internal/recoveryguard/session.go)

    One process incarnation admits recovery work between Begin and Drain.  Every method runs under the mutex, so
    a concurrent execution is a sequence of the operations below; [begin] holds the mutex while it verifies the
    target owner and is therefore split into its check and its commit. *)

From S2P Require Import Prelude GoStrings Schema GuardConfig.

Record Admission := mkAdmission {
  ad_config : Config; ad_pod : string; ad_process : string; ad_tuple : Tuple;
  ad_started : bool; ad_closed : bool; ad_active : Z;
  ad_drained : nat;                 (* how often the channel was closed; a second time panics *)
  ad_cancelled : bool;              (* the context of the tasks *)
  ad_afterDrain : bool }.           (* a drain callback is installed *)

Definition no_tuple : Tuple := mkTuple (mkOwner "" "" "" "") "".
Definition newAdmission (c : Config) (pod process : string) : Admission :=
  mkAdmission (mkConfig (cf_ClusterUID c) (cf_OperationUID c) (sortedTargets c)) pod process no_tuple false false 0 0 false false.
Definition NewAdmission (c : Config) (pod guard process : string) : gres Admission :=
  let? _ := Config_owner c pod guard in Ok (newAdmission c pod process).

Definition set_started (a : Admission) (t : Tuple) : Admission :=
  mkAdmission (ad_config a) (ad_pod a) (ad_process a) t true (ad_closed a) (ad_active a) (ad_drained a) (ad_cancelled a) (ad_afterDrain a).
Definition set_active (a : Admission) (n : Z) : Admission :=
  mkAdmission (ad_config a) (ad_pod a) (ad_process a) (ad_tuple a) (ad_started a) (ad_closed a) n (ad_drained a) (ad_cancelled a) (ad_afterDrain a).
Definition set_closed (a : Admission) : Admission :=
  mkAdmission (ad_config a) (ad_pod a) (ad_process a) (ad_tuple a) (ad_started a) true (ad_active a) (ad_drained a) true (ad_afterDrain a).
Definition close_drained (a : Admission) : Admission :=
  mkAdmission (ad_config a) (ad_pod a) (ad_process a) (ad_tuple a) (ad_started a) (ad_closed a) (ad_active a) (S (ad_drained a))
    (ad_cancelled a) (ad_afterDrain a).
Definition set_afterDrain (a : Admission) : Admission :=
  mkAdmission (ad_config a) (ad_pod a) (ad_process a) (ad_tuple a) (ad_started a) (ad_closed a) (ad_active a) (ad_drained a)
    (ad_cancelled a) true.

(** [begin] before and after [verifyOwner]. *)
Definition begin_check (a : Admission) (owner : Owner) : gres () :=
  let expected := mkOwner (cf_ClusterUID (ad_config a)) (cf_OperationUID (ad_config a)) (ad_pod a) (ow_GuardUID owner) in
  if negb (uuidPattern (ow_GuardUID owner)) || (owner !=? expected) then Err (ErrText "recovery identity mismatch") else
  if ad_started a || ad_closed a then Err (ErrText "recovery admission is terminal") else Ok ().
Definition begin_commit (a : Admission) (owner : Owner) : Tuple * Admission :=
  let t := mkTuple owner (ad_process a) in (t, set_started a t).

Definition Admit (a : Admission) (tuple : Tuple) : gres () * Admission :=
  if negb (ad_started a) || ad_closed a || (tuple !=? ad_tuple a) then (Err (ErrText "no active recovery session"), a) else
  if 4 <=? ad_active a then (Err (ErrText "local recovery task limit"), a) else
  (Ok (), set_active a (ad_active a + 1)).
Definition ActiveTuple (a : Admission) : gres Tuple :=
  if negb (ad_started a) || ad_closed a then Err (ErrText "no active recovery session") else Ok (ad_tuple a).
(** The body that [Task.Done] runs once. *)
Definition Task_Done (a : Admission) : Admission :=
  let a := set_active a (ad_active a - 1) in
  if ad_closed a && (ad_active a =? 0) then close_drained a else a.
Definition Close (a : Admission) : Admission :=
  if ad_closed a then a else
  let a := set_closed a in if ad_active a =? 0 then close_drained a else a.
Definition AfterDrain (a : Admission) (fn : bool) : gres () * Admission :=
  if ad_started a || ad_closed a || ad_afterDrain a || negb fn then (Err (ErrText "drain callback already bound"), a)
  else (Ok (), set_afterDrain a).
(** The first critical section of [drain]. *)
Definition drain_valid (a : Admission) (tuple : Tuple) : bool :=
  ad_started a && negb (ad_closed a) && (tuple ==? ad_tuple a).

(** ** Concurrent executions

    [tk_tasks] are the tasks handed out, with whether their [once] has fired. *)
Record gate := mkGate { tk_adm : Admission; tk_tasks : gmap nat bool }.
Inductive gate_step : gate -> gate -> Prop :=
| gate_begin a ts owner : begin_check a owner = Ok () -> gate_step (mkGate a ts) (mkGate (begin_commit a owner).2 ts)
| gate_admit a ts tuple a' i : Admit a tuple = (Ok (), a') -> ts !! i = None ->
    gate_step (mkGate a ts) (mkGate a' (<[i := false]> ts))
| gate_done a ts i : ts !! i = Some false -> gate_step (mkGate a ts) (mkGate (Task_Done a) (<[i := true]> ts))
| gate_done_again a ts i : ts !! i = Some true -> gate_step (mkGate a ts) (mkGate a ts)
| gate_close a ts : gate_step (mkGate a ts) (mkGate (Close a) ts)
| gate_after a ts fn x a' : AfterDrain a fn = (x, a') -> gate_step (mkGate a ts) (mkGate a' ts).

Definition live (ts : gmap nat bool) : gmap nat bool := filter (fun kv => kv.2 = false) ts.
Record gate_ok (g : gate) : Prop := mkGateOk {
  go_active : ad_active (tk_adm g) = Z.of_nat (size (live (tk_tasks g)));
  go_limit : ad_active (tk_adm g) <= 4;
  go_drained : ad_drained (tk_adm g) = if ad_closed (tk_adm g) && (ad_active (tk_adm g) =? 0) then 1%nat else 0%nat;
  go_started : ad_started (tk_adm g) = false -> ad_active (tk_adm g) = 0 }.

Lemma live_insert_true ts i : ts !! i = Some false -> live (<[i := true]> ts) = delete i (live ts).
Proof. intros H. unfold live. rewrite map_filter_insert_False by done. by rewrite map_filter_delete. Qed.
Lemma live_insert_false ts i : ts !! i = None -> live (<[i := false]> ts) = <[i := false]> (live ts).
Proof. intros H. unfold live. by rewrite map_filter_insert_True. Qed.
Lemma live_lookup ts i : live ts !! i = Some false <-> ts !! i = Some false.
Proof. unfold live. rewrite map_lookup_filter_Some. naive_solver. Qed.

Lemma gate_step_ok g g' : gate_ok g -> gate_step g g' -> gate_ok g'.
Proof.
  intros [Ha Hl Hd Hs] Hstep. destruct Hstep as [a ts owner H|a ts tuple a' i H Hi|a ts i Hi| |a ts|a ts fn x a' H];
    cbn [tk_adm tk_tasks] in *.
  - unfold begin_check in H. destruct (_ || _) in H; [done|]. destruct (ad_started a) eqn:Es; [done|]. destruct (ad_closed a) eqn:Ec; [done|].
    split; cbn; [done|done|by rewrite Ec|done].
  - unfold Admit in H. destruct (_ || _) eqn:E in H; [done|]. apply orb_false_iff in E as [E _]. apply orb_false_iff in E as [Es Ec].
    apply negb_false_iff in Es. destruct (Z.leb_spec 4 (ad_active a)); [done|]. injection H as <-.
    split; cbn; [|lia|by rewrite Ec in *|congruence]. rewrite live_insert_false, map_size_insert_None by (try done; by apply map_lookup_filter_None_2; left). lia.
  - pose proof (proj2 (live_lookup ts i) Hi) as Hin.
    assert (size (live (<[i := true]> ts)) = pred (size (live ts)) /\ 0 < size (live ts))%nat as [Hsz Hp].
    { rewrite live_insert_true by done. rewrite map_size_delete_Some by (by exists false). split; [done|].
      apply Nat.neq_0_lt_0, map_size_non_empty_iff. intros E. by rewrite E, lookup_empty in Hin. }
    unfold Task_Done. cbn [set_active ad_closed ad_active]. destruct (ad_closed a) eqn:Ec; cbn [andb] in *.
    + destruct (Z.eqb_spec (ad_active a) 0); [lia|].
      destruct (Z.eqb_spec (ad_active a - 1) 0) as [E|E]; split; cbn; rewrite ?Ec; cbn; try lia; try (intros H; specialize (Hs H); lia).
      * rewrite E. cbn. by rewrite Hd.
      * destruct (Z.eqb_spec (ad_active a - 1) 0); [lia|done].
    + split; cbn; rewrite ?Ec; cbn; try lia. intros H; specialize (Hs H); lia.
  - by split.
  - unfold Close. destruct (ad_closed a) eqn:Ec; [split; cbn; rewrite ?Ec; done|]. cbn [set_closed ad_active].
    destruct (Z.eqb_spec (ad_active a) 0) as [E|E]; split; cbn in *; try done; try lia.
    + rewrite E. cbn. by rewrite Hd.
    + rewrite Hd. by destruct (Z.eqb_spec (ad_active a) 0).
  - unfold AfterDrain in H. destruct (_ || _) in H; injection H as <- <-; by split.
Qed.

Definition reachable (a : Admission) (g : gate) : Prop := rtc gate_step (mkGate a ∅) g.
Lemma reachable_ok c pod process g : reachable (newAdmission c pod process) g -> gate_ok g.
Proof.
  intros H. apply (rtc_ind_r (fun g => gate_ok g)) with (3 := H); [|intros y z _ Hs Hy; by eapply gate_step_ok].
  by split.
Qed.
(** A drained gate: closed, and every task has completed. *)
Definition drained (a : Admission) : Prop := ad_closed a = true /\ ad_active a = 0.
Lemma gate_step_closed g g' : gate_step g g' -> ad_closed (tk_adm g) = true ->
  ad_closed (tk_adm g') = true /\ ad_tuple (tk_adm g') = ad_tuple (tk_adm g) /\ ad_active (tk_adm g') <= ad_active (tk_adm g).
Proof.
  intros Hs Hc. destruct Hs as [a ts owner H|a ts tuple a' i H Hi|a ts i Hi| |a ts|a ts fn x a' H]; cbn in *.
  - unfold begin_check in H. rewrite Hc, orb_true_r in H. by destruct (_ || _) in H.
  - unfold Admit in H. rewrite Hc, orb_true_r in H. done.
  - unfold Task_Done. cbn. rewrite Hc. destruct (_ && _); cbn; split_and!; try done; lia.
  - split_and!; [done|done|lia].
  - unfold Close. rewrite Hc. split_and!; [done|done|lia].
  - unfold AfterDrain in H. rewrite Hc, orb_true_r in H. injection H as <- <-. split_and!; [done|done|lia].
Qed.
Lemma gate_step_drained g g' : gate_ok g -> gate_step g g' -> drained (tk_adm g) ->
  drained (tk_adm g') /\ ad_tuple (tk_adm g') = ad_tuple (tk_adm g).
Proof.
  intros Hok Hs [Hc Ha]. destruct (gate_step_closed _ _ Hs Hc) as (Hc' & Ht & Hle).
  destruct (gate_step_ok _ _ Hok Hs) as [Ha' _ _ _]. split; [|done]. split; [done|lia].
Qed.
Lemma gate_steps_drained g g' : gate_ok g -> rtc gate_step g g' -> drained (tk_adm g) -> gate_ok g' /\ drained (tk_adm g').
Proof.
  intros Hok Hs. induction Hs as [g|g g1 g' H1 _ IH]; intros Hd; [done|].
  apply IH; [by eapply gate_step_ok|]. by eapply gate_step_drained.
Qed.
Lemma drained_no_task g : gate_ok g -> drained (tk_adm g) -> forall i, tk_tasks g !! i <> Some false.
Proof.
  intros [Ha _ _ _] [_ H0] i Hi. apply live_lookup in Hi. rewrite H0 in Ha.
  assert (live (tk_tasks g) = ∅) as E by (apply map_size_empty_inv; lia). by rewrite E, lookup_empty in Hi.
Qed.

(** C35: Drain is terminal and means that the work has really stopped.  In every interleaving of Begin, Admit, Done, Close and AfterDrain
    on a new gate, at most four tasks run at a time and the drained channel is closed at most once (a second close would
    panic).  Once it is closed (what [drain] waits for), no admitted task is unfinished, then or at any later time, no new
    task is ever admitted, and no session can begin again. *)
Theorem admission_drain_terminal c pod process g :
  reachable (newAdmission c pod process) g ->
  ad_active (tk_adm g) <= 4 /\ (ad_drained (tk_adm g) <= 1)%nat
  /\ (ad_drained (tk_adm g) = 1%nat ->
      forall g', rtc gate_step g g' ->
        ad_drained (tk_adm g') = 1%nat /\ (forall i, tk_tasks g' !! i <> Some false)
        /\ (forall tuple, is_err (Admit (tk_adm g') tuple).1 = true) /\ (forall owner, is_err (begin_check (tk_adm g') owner) = true)).
Proof.
  intros Hr. pose proof (reachable_ok _ _ _ _ Hr) as Hok. split_and!; [apply Hok|rewrite (go_drained _ Hok); case_match; lia|].
  intros Hd g' Hs. assert (drained (tk_adm g)) as Hdr.
  { rewrite (go_drained _ Hok) in Hd. destruct (_ && _) eqn:E; [|done]. by apply andb_true_iff in E as [? ?%Z.eqb_eq]. }
  destruct (gate_steps_drained _ _ Hok Hs Hdr) as [Hok' Hdr']. pose proof Hdr' as [Hc' Ha']. split_and!.
  - by rewrite (go_drained _ Hok'), Hc', Ha'.
  - by apply drained_no_task.
  - intros tuple. unfold Admit. by rewrite Hc', orb_true_r.
  - intros owner. unfold begin_check. rewrite Hc', orb_true_r. by case_match.
Qed.

Definition ex_config : Config := mkConfig "11111111-1111-4111-8111-111111111111" "22222222-2222-4222-8222-222222222222"
  [mkTarget "44444444-4444-4444-8444-444444444444" wal_mount; mkTarget "33333333-3333-4333-8333-333333333333" data_mount].
Definition ex_pod : string := "55555555-5555-4555-8555-555555555555".
Definition ex_guard : string := "66666666-6666-4666-8666-666666666666".
Definition ex_process : string := "77777777-7777-4777-8777-777777777777".
Definition ex_owner : Owner := mkOwner (cf_ClusterUID ex_config) (cf_OperationUID ex_config) ex_pod ex_guard.
Definition ex_gate0 : gate := mkGate (newAdmission ex_config ex_pod ex_process) ∅.
Definition ex_gate1 : gate := mkGate (begin_commit (tk_adm ex_gate0) ex_owner).2 ∅.
Definition ex_gate2 : gate := mkGate (Admit (tk_adm ex_gate1) (mkTuple ex_owner ex_process)).2 (<[0%nat := false]> ∅).
Definition ex_gate3 : gate := mkGate (Close (tk_adm ex_gate2)) (tk_tasks ex_gate2).
Definition ex_gate4 : gate := mkGate (Task_Done (tk_adm ex_gate3)) (<[0%nat := true]> (tk_tasks ex_gate3)).
(** One task outlives the close; the gate drains when it is done. *)
Lemma admission_drain_terminal_witness :
  ad_drained (tk_adm ex_gate3) = 0%nat /\ ad_drained (tk_adm ex_gate4) = 1%nat
  /\ is_err (Admit (tk_adm ex_gate4) (mkTuple ex_owner ex_process)).1 = true.
Proof.
  split; [reflexivity|]. split; [reflexivity|].
  apply (admission_drain_terminal ex_config ex_pod ex_process ex_gate4); [|reflexivity|apply rtc_refl].
  eapply rtc_l; [apply gate_begin with (owner := ex_owner); vm_compute; reflexivity|].
  eapply rtc_l; [apply gate_admit with (i := 0%nat) (tuple := mkTuple ex_owner ex_process); vm_compute; reflexivity|].
  eapply rtc_l; [apply gate_close|]. eapply rtc_l; [apply gate_done with (i := 0%nat); vm_compute; reflexivity|]. apply rtc_refl.
Defined.
