(* ===== verification/Guard.v ===== *)
(** * The target fence (internal/recoveryguard/locks_linux.go, guard_linux.go, session.go)

    The guard locks every target volume, publishes its ownership as a marker file on each, supervises the recovery and
    removes the markers only when everything has drained; the sidecar verifies the owner before it admits work.  The
    code is a program over [sys]: system calls on the volume mounted at a path, the control stream, child processes
    and the sidecar's gate.  Descriptors that carry no lock are not closed explicitly. *)

From S2P Require Import Prelude GoStrings Sha256 Errors Schema Json LooseJson GuardConfig Admission Prog.

Inductive errno := EEXIST | EWOULDBLOCK | ENOENT | ESRCH | EIO.
#[export] Instance errno_eq_dec : EqDecision errno.
Proof. solve_decision. Defined.
Inductive place := PRoot | PDir | PLock | PMarker.
(** What the code reads of a [Stat_t]; [st_mine] is whether the file belongs to the effective user. *)
Record stat := mkStat { st_regular : bool; st_nlink : Z; st_mine : bool; st_mode : Z }.
Record controlMessage := mkMessage { cm_Kind : string; cm_Tuple : Tuple }.
#[export] Instance controlMessage_eq_dec : EqDecision controlMessage.
Proof. solve_decision. Defined.
Inductive status := Exited (code : Z) | Signaled (signal : Z).
(** What [wait4] reports: a child, no children left, another error. *)
Inductive reap := Child (pid : Z) (s : status) | ECHILD | WaitError.
(** The case a [select] of the supervision loop takes. *)
Inductive input := CtxDone | SessionDone | KillAfter | ReapDeadline | Reaped (r : reap).

Inductive sys : Type -> Type :=
| Open (mount : string) (p : place) : sys (option errno)
| Mkdirat (mount : string) : sys (option errno)
| Fstat (mount : string) (p : place) : sys (result errno stat)
| Fsync (mount : string) (p : place) : sys (option errno)
| Flock (mount : string) : sys (option errno)
| Fstatat (mount : string) : sys (option errno)
| CreateMarker (mount : string) : sys (option errno)
| WriteMarker (mount data : string) : sys (option errno)
| CloseMarker (mount : string) : sys (option errno)
| ReadMarker (mount : string) : sys (result errno string)
| Unlinkat (mount : string) : sys (option errno)
| CloseVolume (mount : string) : sys ()
(* the guard's control stream and children *)
| Connect : sys bool
| SendFrame (frame : string) : sys bool
| RecvFrame : sys (option string)
| TimerFired : sys bool
| CtxErr : sys bool
| StartProcess (argv : list string) : sys (option Z)
| Kill (signal : string) : sys (option errno)
| Select : sys input
(* the sidecar's gate, for the handler of one stream *)
| BeginCheck (owner : Owner) : sys (gres ())
| BeginAbort : sys ()
| BeginCommit (owner : Owner) : sys Tuple
| DrainValid (t : Tuple) : sys bool
| CloseGate : sys ()
| WaitDrained : sys bool
| RunAfterDrain : sys bool.
Abbreviation prog := (Prog.prog sys).
Abbreviation call e := (@Prog.call sys _ e).

(** ** Control documents *)
Record marker := mkMarker { mk_Owner : Owner; mk_Targets : list Target }.
#[export] Instance marker_eq_dec : EqDecision marker.
Proof. solve_decision. Defined.
Definition owner_json (o : Owner) : json := JObject [
  ("clusterUID", JText (ow_ClusterUID o)); ("operationUID", JText (ow_OperationUID o));
  ("podUID", JText (ow_PodUID o)); ("guardUID", JText (ow_GuardUID o))].
Definition target_json (t : Target) : json := JObject [("pvcUID", JText (tg_PVCUID t)); ("mount", JText (tg_Mount t))].
Definition tuple_json (t : Tuple) : json :=
  JObject [("owner", owner_json (tu_Owner t)); ("sidecarUID", JText (tu_SidecarUID t))].
Definition marker_bytes (m : marker) : string :=
  print (JObject [("owner", owner_json (mk_Owner m)); ("targets", JArray (map target_json (mk_Targets m)))]).
Definition message_bytes (m : controlMessage) : string :=
  print (JObject [("kind", JText (cm_Kind m)); ("tuple", tuple_json (cm_Tuple m))]).

(** A marker while it is decoded. *)
Record raw_marker := mkRawMarker { rm_Owner : Owner; rm_Targets : slice_of Target }.
#[export] Instance loose_raw_marker : Loose raw_marker := mkLoose raw_marker (mkRawMarker zero zero) (into_struct [
  ("owner", on_field rm_Owner (fun v x => mkRawMarker x (rm_Targets v)));
  ("targets", on_field rm_Targets (fun v x => mkRawMarker (rm_Owner v) x))]).
#[export] Instance loose_controlMessage : Loose controlMessage := mkLoose controlMessage (mkMessage "" zero) (into_struct [
  ("kind", on_field cm_Kind (fun v x => mkMessage x (cm_Tuple v)));
  ("tuple", on_field cm_Tuple (fun v x => mkMessage (cm_Kind v) x))]).

(** ** Volumes *)
Definition sys_err : guard_error := ErrText "system call failed".
Definition sys_ok (e : option errno) : gres () := match e with None => Ok () | Some _ => Err sys_err end.
Definition syscall (e : sys (option errno)) : prog (gres ()) := let! x := call e in Ret (sys_ok x).
Definition others (mode : Z) : bool := negb (Z.land mode 0x3F =? 0).      (* mode & 0077 *)
Definition privateRegular (mount : string) (p : place) : prog (gres ()) :=
  let! s := call (Fstat mount p) in
  match s with
  | Err _ => fail sys_err
  | Ok s => if negb (st_regular s) || negb (st_nlink s =? 1) || negb (st_mine s) || others (st_mode s)
            then fail ErrUncertain else done ()
  end.
Definition openVolume (mount : string) : prog (gres ()) :=
  syscall (Open mount PRoot) ;;*
  let! e := call (Mkdirat mount) in
  if (e !=? None) && (e !=? Some EEXIST) then fail sys_err else
  syscall (Open mount PDir) ;;*
  let! s := call (Fstat mount PDir) in
  match s with
  | Err _ => fail sys_err
  | Ok s =>
      if negb (st_mine s) || others (st_mode s) then fail ErrUncertain else
      syscall (Fsync mount PRoot) ;;*
      syscall (Open mount PLock) ;;*
      privateRegular mount PLock
  end.
Definition readMarker (mount : string) : prog (gres marker) :=
  let! e := call (Open mount PMarker) in
  if e !=? None then fail ErrUncertain else
  privateRegular mount PMarker ;;*
  let! b := call (ReadMarker mount) in
  match b with
  | Err _ => fail sys_err
  | Ok b => Ret (let? m := Decode (A := raw_marker) (slice 0 (Z.to_nat (maxMessage + 1)) b) in
                 Ok (mkMarker (rm_Owner m) (elements_of (rm_Targets m))))
  end.

(** ** Ownership *)
Fixpoint close_all (volumes : list string) : prog () :=
  match volumes with
  | [] => Ret ()
  | v :: volumes => let! _ := call (CloseVolume v) in close_all volumes
  end.
(** [held] are the volumes opened so far; [acquire] closes them when it fails. *)
Fixpoint lock_all (held : list string) (targets : list Target) : prog (list string * gres ()) :=
  match targets with
  | [] => Ret (held, Ok ())
  | t :: targets =>
      let! x := openVolume (tg_Mount t) in
      match x with
      | Err e => Ret (held, Err e)
      | Ok () =>
          let held := held ++ [tg_Mount t] in
          let! e := call (Flock (tg_Mount t)) in
          match e with
          | Some EWOULDBLOCK => Ret (held, Err ErrBusy)
          | Some _ => Ret (held, Err sys_err)
          | None => lock_all held targets
          end
      end
  end.
Definition no_marker (mount : string) : prog (gres ()) :=
  let! e := call (Fstatat mount) in
  match e with
  | None => fail ErrUncertain
  | Some ENOENT => done ()
  | Some _ => fail sys_err
  end.
Definition write_marker (data mount : string) : prog (gres ()) :=
  let! e := call (CreateMarker mount) in
  if e !=? None then fail ErrUncertain else
  let! werr := call (WriteMarker mount data) in
  let! serr := call (Fsync mount PMarker) in
  let! cerr := call (CloseMarker mount) in
  let! derr := call (Fsync mount PDir) in
  if negb ((werr ==? None) && (serr ==? None) && (cerr ==? None) && (derr ==? None)) then fail ErrUncertain else done ().
Definition each (l : list string) (f : string -> prog (gres ())) : prog (gres ()) := visit_all l () (fun _ => f).
Definition expected_marker (c : Config) (owner : Owner) : marker := mkMarker owner (sortedTargets c).
Definition acquire (c : Config) (owner : Owner) : prog (gres (list string)) :=
  let m := expected_marker c owner in
  let! (held, x) := lock_all [] (mk_Targets m) in
  let! y := (match x with
             | Err e => fail e
             | Ok () => each held no_marker ;;* each held (write_marker (marker_bytes m))
             end) in
  match y with
  | Ok () => done held
  | Err e => let! _ := close_all held in fail e
  end.
Definition verify_target (expected : marker) (t : Target) : prog (gres ()) :=
  let mount := tg_Mount t in
  let! o := openVolume mount in
  match o with
  | Err _ => fail ErrUncertain
  | Ok () =>
      let! m := readMarker mount in
      let! x := (match m with
                 | Err e => fail e
                 | Ok m =>
                     if m !=? expected then fail ErrUncertain else
                     let! e := call (Flock mount) in
                     if e !=? Some EWOULDBLOCK then fail ErrUncertain else done ()
                 end) in
      let! _ := call (CloseVolume mount) in Ret x
  end.
Definition verifyOwner (c : Config) (owner : Owner) : prog (gres ()) :=
  let expected := expected_marker c owner in
  visit_all (mk_Targets expected) () (fun _ => verify_target expected).
Definition check_marker (m : marker) (mount : string) : prog (gres ()) :=
  let! x := readMarker mount in
  match x with
  | Err _ => fail ErrUncertain
  | Ok got => if got !=? m then fail ErrUncertain else done ()
  end.
Definition remove_marker (mount : string) : prog (gres ()) :=
  let! e := call (Unlinkat mount) in
  if e !=? None then fail ErrUncertain else
  let! s := call (Fsync mount PDir) in
  if s !=? None then fail ErrUncertain else done ().
Definition release (m : marker) (volumes : list string) : prog (gres ()) :=
  each volumes (check_marker m) ;;* each volumes remove_marker.

(** ** The control stream *)
Definition receive : prog (gres controlMessage) :=
  let! f := call RecvFrame in
  match f with
  | None => fail (ErrText "stream error")
  | Some b => Ret (match Decode b with Ok m => Ok m | Err _ => Err (ErrText "invalid recovery control message") end)
  end.
Definition send (m : controlMessage) : prog (gres ()) :=
  let! ok := call (SendFrame (message_bytes m)) in if ok then done () else fail (ErrText "stream error").

(** [Admission.session]: one stream.  [begin] takes the gate's mutex when its check succeeds and holds it over
    [verifyOwner]; from then on every path closes the gate. *)
Definition begin_ (c : Config) (owner : Owner) : prog (gres Tuple) :=
  let! x := call (BeginCheck owner) in
  match x with
  | Err e => fail e
  | Ok () =>
      let! v := verifyOwner c owner in
      match v with
      | Err _ => let! _ := call BeginAbort in fail (ErrText "target owner not established")
      | Ok () => let! t := call (BeginCommit owner) in done t
      end
  end.
Definition drain (afterDrain : bool) (t : Tuple) : prog (gres ()) :=
  let! valid := call (DrainValid t) in
  if negb valid then fail (ErrText "invalid drain identity or terminal session") else
  let! _ := call CloseGate in
  let! d := call WaitDrained in
  if negb d then fail (ErrText "context") else
  if afterDrain then let! ok := call RunAfterDrain in if ok then done () else fail (ErrText "drain callback") else done ().
Definition session_body (afterDrain : bool) (tuple : Tuple) : prog (gres ()) :=
  send (mkMessage "begun" tuple) ;;*
  let* msg := receive in
  if (cm_Kind msg !=? "drain") || (cm_Tuple msg !=? tuple) then fail (ErrText "expected same-session Drain") else
  drain afterDrain tuple ;;*
  send (mkMessage "drained" tuple).
Definition session (c : Config) (afterDrain : bool) : prog (gres ()) :=
  let* msg := receive in
  if (cm_Kind msg !=? "begin") || (tu_SidecarUID (cm_Tuple msg) !=? "") then fail (ErrText "expected Begin") else
  let* tuple := begin_ c (tu_Owner (cm_Tuple msg)) in
  let! x := session_body afterDrain tuple in
  let! _ := call CloseGate in Ret x.

(** The guard's end: [Begin], and [Session.drain] with the goroutine that receives the acknowledgment. *)
Definition Begin (owner : Owner) : prog (gres Tuple) :=
  let! c := call Connect in
  if negb c then fail (ErrText "connect") else
  send (mkMessage "begin" (mkTuple owner "")) ;;*
  let! m := receive in
  match m with
  | Err _ => fail (ErrText "Begin was not acknowledged by the configured sidecar")
  | Ok msg =>
      if (cm_Kind msg !=? "begun") || (tu_Owner (cm_Tuple msg) !=? owner) || negb (uuidPattern (tu_SidecarUID (cm_Tuple msg)))
      then fail (ErrText "Begin was not acknowledged by the configured sidecar") else done (cm_Tuple msg)
  end.
Definition Session_drain (t : Tuple) : prog (gres ()) :=
  send (mkMessage "drain" t) ;;*
  let* msg := receive in
  if (cm_Kind msg !=? "drained") || (cm_Tuple msg !=? t) then fail (ErrText "invalid Drain acknowledgment") else done ().

(** ** Supervision *)
Record supervision := mkSup {
  su_exit : Z; su_mainExited : bool; su_stopping : bool; su_uncertain : bool;
  su_ctx : bool; su_session : bool; su_kill : bool }.   (* channels that are not nil *)
Definition exit_code (s : status) : Z := match s with Exited code => code | Signaled signal => 128 + signal end.
Definition signal_failed (e : option errno) : bool := negb (e ==? None) && negb (e ==? Some ESRCH).
Definition terminate (s : supervision) : prog supervision :=
  if su_stopping s then Ret s else
  let! e := call (Kill "SIGTERM") in
  Ret (mkSup (su_exit s) (su_mainExited s) true (su_uncertain s || signal_failed e) (su_ctx s) (su_session s) true).
(** What [Run] returns: the exit code and the error, or that the loop is still running. *)
Inductive outcome := Running | Return (code : Z) (err : option guard_error).
Definition finish (m : marker) (held : list string) (t : Tuple) (s : supervision) : prog outcome :=
  if negb (su_mainExited s) || su_uncertain s then Ret (Return 2 (Some ErrUncertain)) else
  let! c := call CtxErr in
  if c then Ret (Return 2 (Some ErrUncertain)) else
  let! d := Session_drain t in
  let! c := call CtxErr in
  if is_err d || c then Ret (Return 2 (Some ErrUncertain)) else
  let! r := release m held in
  match r with Err e => Ret (Return 2 (Some e)) | Ok () => Ret (Return (su_exit s) None) end.
(** [fuel] bounds the rounds of the loop that are looked at, not the loop. *)
Fixpoint supervise (fuel : nat) (m : marker) (held : list string) (t : Tuple) (pid : Z) (s : supervision) : prog outcome :=
  match fuel with
  | O => Ret Running
  | S fuel =>
      let next := supervise fuel m held t pid in
      let! i := call Select in
      match i with
      | CtxDone => if negb (su_ctx s) then next s else
          let! s := terminate (mkSup (su_exit s) (su_mainExited s) (su_stopping s) true false (su_session s) (su_kill s)) in next s
      | SessionDone => if negb (su_session s) then next s else
          let! s := terminate (mkSup (su_exit s) (su_mainExited s) (su_stopping s) true (su_ctx s) false (su_kill s)) in next s
      | KillAfter => if negb (su_kill s) then next s else
          let! e := call (Kill "SIGKILL") in
          next (mkSup (su_exit s) (su_mainExited s) (su_stopping s) (su_uncertain s || signal_failed e) (su_ctx s) (su_session s) false)
      | ReapDeadline => if negb (su_stopping s) then next s else Ret (Return 2 (Some ErrUncertain))
      | Reaped ECHILD => finish m held t s
      | Reaped WaitError => Ret (Return 2 (Some ErrUncertain))
      | Reaped (Child p st) =>
          if p =? pid then
            let! s := terminate (mkSup (exit_code st) true (su_stopping s) (su_uncertain s) (su_ctx s) (su_session s) (su_kill s)) in next s
          else next s
      end
  end.
Definition run_held (fuel : nat) (m : marker) (held argv : list string) : prog outcome :=
  let! b := Begin (mk_Owner m) in
  let! fired := call TimerFired in
  let! c := call CtxErr in
  match b with
  | Err _ => Ret (Return 2 (Some ErrUncertain))
  | Ok t =>
      if fired || c then Ret (Return 2 (Some ErrUncertain)) else
      let! p := call (StartProcess argv) in
      match p with
      | None => Ret (Return 2 (Some ErrUncertain))
      | Some pid => supervise fuel m held t pid (mkSup 2 false false false true true false)
      end
  end.
Definition Run (fuel : nat) (getpid : Z) (c : Config) (pod guard : string) (argv : list string) : prog outcome :=
  if negb (getpid =? 1) then Ret (Return 2 (Some (ErrText "recovery-guard requires PID1 in a private PID namespace"))) else
  match Config_owner c pod guard with
  | Err e => Ret (Return 2 (Some e))
  | Ok owner =>
      match ValidateArgv c argv with
      | Err e => Ret (Return 2 (Some e))
      | Ok () =>
          let! h := acquire c owner in
          match h with
          | Err e => Ret (Return 2 (Some e))
          | Ok held =>
              let! o := run_held fuel (expected_marker c owner) held argv in
              match o with
              | Running => Ret Running
              | Return code err => let! _ := close_all held in Ret (Return code err)
              end
          end
      end
  end.
