(* ===== verification/GuardSafety.v ===== *)
(** * Safety of the target fence (internal/recoveryguard)

    Any number of guards and sidecars over shared volumes: every process runs its program of Guard.v call by call, may
    stop at any call, and every system call may fail.  A volume has one lock and one marker; a message that a guard
    receives was sent by some sidecar. *)

From S2P Require Import Prelude GoStrings Sha256 Errors Schema Json LooseJson GuardConfig Admission Prog Guard.

Abbreviation trace := (list (action sys)).

(** ** Control documents survive encoding *)
Definition tuple_text (t : Tuple) : Prop :=
  is_text (ow_ClusterUID (tu_Owner t)) /\ is_text (ow_OperationUID (tu_Owner t)) /\ is_text (ow_PodUID (tu_Owner t))
  /\ is_text (ow_GuardUID (tu_Owner t)) /\ is_text (tu_SidecarUID t).
Lemma message_back kind t m : is_text kind -> tuple_text t -> Decode (message_bytes (mkMessage kind t)) = Ok m -> m = mkMessage kind t.
Proof.
  intros Hk (H1 & H2 & H3 & H4 & H5). unfold Decode, message_bytes. destruct (_ <? _); [done|].
  rewrite (decode_only_print (mkMessage kind t)); [by intros [= <-]| |by destruct t as [[]]].
  cbn. done.
Qed.
Lemma uuid_text_ascii s : uuidPattern s = true -> is_text s.
Proof.
  unfold uuidPattern, uuidRE, is_text, ascii_text. intros H. rewrite <- (join_Split "-" s).
  assert (forall n x, class_n is_hex_lower n x = true -> all_chars is_ascii x = true) as Hc.
  { unfold class_n. intros n x Hx. apply andb_true_iff in Hx as [_ Hx]. revert Hx. apply all_chars_impl.
    intros c. by destruct c as [[] [] [] [] [] [] [] []]. }
  destruct (Split "-" s) as [|a [|b [|c [|d [|e []]]]]]; try done. bool_split. cbn [join].
  repeat (rewrite all_chars_append || cbn [all_chars]).
  rewrite !(Hc _ a), !(Hc _ b), !(Hc _ c), !(Hc _ d), !(Hc _ e) by eassumption. done.
Qed.

(** ** What one process does, by its own calls *)
Definition created (m : string) (tr : trace) : Prop := Act (CreateMarker m) None ∈ tr.
Definition removed (m : string) (tr : trace) : Prop := exists x, Act (Unlinkat m) x ∈ tr.
Definition owns (m : string) (tr : trace) : Prop := created m tr /\ ~ removed m tr.
(** Everything has ended: the supervised command and every descendant were reaped, and the sidecar acknowledged the drain. *)
Definition all_ended (owner : Owner) (tr : trace) : Prop :=
  (exists argv pid st, Act (StartProcess argv) (Some pid) ∈ tr /\ Act Select (Reaped (Child pid st)) ∈ tr)
  /\ Act Select (Reaped ECHILD) ∈ tr
  /\ exists f t, Act RecvFrame (Some f) ∈ tr /\ Decode f = Ok (mkMessage "drained" t) /\ tu_Owner t = owner.
Definition guard_calls (c : Config) (owner : Owner) (tr : trace) X (e : sys X) : Prop :=
  match e with
  | StartProcess _ => Forall (fun t => owns (tg_Mount t) tr) (cf_Targets c)
  | WriteMarker m _ => owns m tr
  | Unlinkat m => owns m tr /\ all_ended owner tr
  | _ => True
  end.
Definition handler_calls (tr : trace) X (e : sys X) : Prop :=
  match e with
  | CreateMarker _ | WriteMarker _ _ | Unlinkat _ | StartProcess _ => False
  | SendFrame f => exists kind t o, f = message_bytes (mkMessage kind t) /\ Act (BeginCommit o) t ∈ tr
      /\ (kind = "begun" \/ kind = "drained" /\ Act WaitDrained true ∈ tr)
  | _ => True
  end.

(** Calls that neither touch a marker nor start a command. *)
Definition neutral {X} (e : sys X) : bool :=
  match e with CreateMarker _ | WriteMarker _ _ | Unlinkat _ | StartProcess _ | SendFrame _ => false | _ => true end.
Definition tame {X} (e : sys X) : bool := match e with Unlinkat _ => false | _ => true end.
Definition grows (ok : forall X, sys X -> bool) (tr tr' : trace) : Prop :=
  exists l, tr' = l ++ tr /\ Forall (fun a => act_is ok a = true) l.
Lemma grows_refl ok tr : grows ok tr tr.
Proof. by exists []. Qed.
Lemma grows_trans ok a b c : grows ok a b -> grows ok b c -> grows ok a c.
Proof. intros (l & -> & Hl) (m & -> & Hm). exists (m ++ l). rewrite app_assoc. split; [done|]. by apply Forall_app. Qed.
Lemma grows_cons ok {X} (e : sys X) x tr : ok X e = true -> grows ok tr (Act e x :: tr).
Proof. intros H. exists [Act e x]. split; [done|]. by apply Forall_singleton. Qed.
Lemma grows_extends ok a b : grows ok a b -> extends a b.
Proof. intros (l & -> & _). by exists l. Qed.
Lemma grows_mono (ok ok' : forall X, sys X -> bool) a b :
  (forall X (e : sys X), ok X e = true -> ok' X e = true) -> grows ok a b -> grows ok' a b.
Proof. intros H (l & -> & Hl). exists l. split; [done|]. eapply Forall_impl; [exact Hl|]. intros [X e x]. apply H. Qed.
Lemma owns_tame m tr tr' : grows (@tame) tr tr' -> owns m tr -> owns m tr'.
Proof.
  intros (l & -> & Hl) [Hc Hr]. split; [apply elem_of_app; by right|]. intros [x [H|H]%elem_of_app].
  - rewrite Forall_forall in Hl. by specialize (Hl _ H).
  - apply Hr. by exists x.
Qed.
#[local] Hint Resolve grows_refl grows_cons grows_extends : trace.

(** [calm G p]: [p] makes only neutral calls (and, where [G] allows it, sends). *)
Definition calm (G : trace -> forall X, sys X -> Prop) {A} (p : prog A) (Q : trace -> A -> Prop) : Prop :=
  forall tr, wp G (fun tr' a => grows (@neutral) tr tr' /\ Q tr' a) p tr.
Definition lets_neutral (G : trace -> forall X, sys X -> Prop) : Prop := forall tr X (e : sys X), neutral e = true -> G tr X e.
Section Calm.
Context (G : trace -> forall X, sys X -> Prop) (HG : lets_neutral G).
Lemma calm_ret {A} (a : A) (Q : trace -> A -> Prop) : (forall tr, Q tr a) -> calm G (Ret a) Q.
Proof. intros H tr. cbn. auto with trace. Qed.
Lemma calm_bind {A B} (p : prog A) (f : A -> prog B) Q1 (Q : trace -> B -> Prop) :
  calm G p Q1 -> (forall a, calm G (f a) (fun tr' b => forall tr, grows (@neutral) tr tr' -> Q1 tr a -> Q tr' b)) -> calm G (bind p f) Q.
Proof.
  intros Hp Hf tr. apply wp_bind. eapply wp_mono; [|apply Hp]. intros tr1 a [Hg H1].
  eapply wp_mono; [|apply Hf]. intros tr2 b [Hg2 H2]. split; [by eapply grows_trans|]. by eapply H2.
Qed.
Lemma calm_call {X} (e : sys X) : neutral e = true -> calm G (call e) (fun tr x => Act e x ∈ tr).
Proof. intros H tr. cbn. split; [by apply HG|]. intros x. split; [by apply grows_cons|]. by left. Qed.
Lemma calm_any {A} (p : prog A) (Q : trace -> A -> Prop) : calm G p Q -> calm G p (fun _ _ => True).
Proof. intros H tr. eapply wp_mono; [|apply H]. by intros tr' a [? _]. Qed.
Lemma calm_then {A B} (p : prog A) (f : A -> prog B) :
  calm G p (fun _ _ => True) -> (forall a, calm G (f a) (fun _ _ => True)) -> calm G (bind p f) (fun _ _ => True).
Proof.
  intros Hp Hf. eapply calm_bind; [exact Hp|]. intros a tr. eapply wp_mono; [|apply Hf]. by intros tr' b [? _].
Qed.
Lemma calm_thenE {Er A B} (p : prog (result Er A)) (f : A -> prog (result Er B)) :
  calm G p (fun _ _ => True) -> (forall a, calm G (f a) (fun _ _ => True)) -> calm G (bindE p f) (fun _ _ => True).
Proof. intros Hp Hf. apply calm_then; [done|]. intros [a|e]; [apply Hf|by apply calm_ret]. Qed.
Lemma calm_event {X} (e : sys X) : neutral e = true -> calm G (call e) (fun _ _ => True).
Proof. intros H. eapply calm_any, calm_call, H. Qed.
Lemma calm_visit {A} (l : list A) (f : A -> prog (gres ())) :
  (forall a, calm G (f a) (fun _ _ => True)) -> calm G (visit_all l () (fun _ => f)) (fun _ _ => True).
Proof. intros H. induction l as [|a l IH]; cbn [visit_all]; [by apply calm_ret|]. apply calm_thenE; [apply H|by intros []]. Qed.
(** A calm part of a larger program, and a single call. *)
Lemma wp_calm {A B} (p : prog A) (f : A -> prog B) Q1 (Q : trace -> B -> Prop) tr :
  calm G p Q1 -> (forall tr' a, grows (@neutral) tr tr' -> Q1 tr' a -> wp G Q (f a) tr') -> wp G Q (bind p f) tr.
Proof. intros Hp Hf. apply wp_bind. eapply wp_mono; [|apply Hp]. intros tr' a [? ?]. by apply Hf. Qed.
Lemma wp_event {X B} (e : sys X) (f : X -> prog B) (Q : trace -> B -> Prop) tr :
  G tr X e -> (forall x, wp G Q (f x) (Act e x :: tr)) -> wp G Q (bind (call e) f) tr.
Proof. intros Hg Hf. apply wp_bind. cbn. split; [done|]. exact Hf. Qed.
End Calm.
(** Walks through a program whose calls are all neutral. *)
Ltac calm :=
  repeat (intros; cbv zeta; first
    [ done
    | match goal with |- calm _ (match ?b with _ => _ end) _ => destruct b eqn:? end
    | apply calm_ret | apply calm_event | apply calm_thenE | apply calm_then ]).
Lemma openVolume_calm G m : lets_neutral G -> calm G (openVolume m) (fun _ _ => True).
Proof. intros HG. unfold openVolume, privateRegular, syscall. calm. Qed.
Lemma readMarker_calm G m : lets_neutral G -> calm G (readMarker m) (fun _ _ => True).
Proof. intros HG. unfold readMarker, privateRegular. calm. Qed.
Lemma close_all_calm G l : lets_neutral G -> calm G (close_all l) (fun _ _ => True).
Proof. intros HG. induction l; cbn [close_all]; calm. Qed.
Lemma verifyOwner_calm G c o : lets_neutral G -> calm G (verifyOwner c o) (fun _ _ => True).
Proof.
  intros HG. unfold verifyOwner. cbv zeta. apply calm_visit. intros t. unfold verify_target. cbv zeta.
  apply calm_then; [by apply openVolume_calm|]. intros [[]|e]; [|by apply calm_ret].
  apply calm_then; [by apply readMarker_calm|]. calm.
Qed.
Lemma receive_calm G : lets_neutral G ->
  calm G receive (fun tr x => match x with Ok m => exists f, Act RecvFrame (Some f) ∈ tr /\ Decode f = Ok m | Err _ => True end).
Proof.
  intros HG. unfold receive. eapply calm_bind; [by apply calm_call|]. intros [f|]; [|by apply calm_ret].
  apply calm_ret. intros tr'. destruct (Decode f) as [m|] eqn:E; [|done]. intros tr Hg Hin. exists f. split; [|done].
  eapply extends_elem; [by eapply grows_extends|done].
Qed.

(** ** The guard *)
Section GuardRun.
Context (c : Config) (owner : Owner).
Abbreviation G := (guard_calls c owner).
Lemma guard_neutral : lets_neutral G.
Proof. intros tr X e H. by destruct e. Qed.
#[local] Hint Resolve guard_neutral : core.

Lemma neutral_tame a b : grows (@neutral) a b -> grows (@tame) a b.
Proof. apply grows_mono. intros X e H. by destruct e. Qed.
#[local] Hint Resolve neutral_tame : trace.
Lemma lock_all_wp held targets tr :
  wp G (fun tr' r => grows (@neutral) tr tr' /\ (r.2 = Ok () -> r.1 = held ++ (tg_Mount <$> targets))) (lock_all held targets) tr.
Proof.
  revert held tr. induction targets as [|t targets IH]; intros held tr; cbn [lock_all].
  - cbn. split; [by apply grows_refl|]. by rewrite app_nil_r.
  - eapply wp_calm; [by apply openVolume_calm|]. intros tr1 [[]|e] Hg1 _; [|done]. cbv zeta.
    apply wp_event; [done|]. intros x.
    assert (grows (@neutral) tr (Act (Flock (tg_Mount t)) x :: tr1)) as Hg by (eapply grows_trans; [done|by apply grows_cons]).
    destruct x as [[]|]; try (split; [exact Hg|done]).
    eapply wp_mono; [|apply IH]. intros tr2 [h r] [Hg2 Hr]. split; [by eapply grows_trans|].
    intros E. rewrite (Hr E). cbn. by rewrite <- app_assoc.
Qed.

Definition untouched (tr : trace) : Prop := forall m, ~ removed m tr.
Lemma untouched_tame tr tr' : grows (@tame) tr tr' -> untouched tr -> untouched tr'.
Proof.
  intros (l & -> & Hl) Hu m [x [H|H]%elem_of_app]; [|by apply (Hu m); exists x].
  rewrite Forall_forall in Hl. by specialize (Hl _ H).
Qed.
Lemma write_marker_wp data m tr : untouched tr ->
  wp G (fun tr' x => grows (@tame) tr tr' /\ (x = Ok () -> created m tr')) (write_marker data m) tr.
Proof.
  intros Hu. unfold write_marker. apply wp_event; [done|]. intros e1. wp_if as E1; [split; [by apply grows_cons|done]|].
  apply negb_false_iff, bool_decide_eq_true in E1. subst e1.
  apply wp_event; [split; [by left|]; intros Hr; by eapply (untouched_tame tr), Hr; [apply grows_cons|]|]. intros e2.
  apply wp_event; [done|]. intros e3. apply wp_event; [done|]. intros e4. apply wp_event; [done|]. intros e5.
  assert (forall X (y : gres X), wp G (fun tr' x => grows (@tame) tr tr' /\ (x = y -> created m tr')) (Ret y)
    (Act (Fsync m PDir) e5 :: Act (CloseMarker m) e4 :: Act (Fsync m PMarker) e3 :: Act (WriteMarker m data) e2 :: Act (CreateMarker m) None :: tr)) as H.
  { intros X y. split; [|intros _; unfold created; set_solver]. repeat (eapply grows_trans; [|by apply grows_cons]). apply grows_refl. }
  wp_if as E2; [|apply H]. split; [|done]. apply (H _ (Ok ())).
Qed.
Lemma write_all_wp data l tr : untouched tr ->
  wp G (fun tr' x => grows (@tame) tr tr' /\ (x = Ok () -> Forall (fun m => created m tr') l)) (each l (write_marker data)) tr.
Proof.
  unfold each. revert tr. induction l as [|m l IH]; intros tr Hu; cbn [visit_all]; [split; [apply grows_refl|constructor]|].
  apply wp_bindE. eapply wp_mono; [|by apply write_marker_wp]. intros tr1 [[]|e] [Hg Hc]; [|done].
  eapply wp_mono; [|by apply IH; eapply untouched_tame]. intros tr2 x [Hg2 Hl]. split; [by eapply grows_trans|].
  intros ->. constructor; [|by apply Hl]. eapply extends_elem; [by eapply grows_extends|]. by apply Hc.
Qed.

Definition owned_all (held : list string) (tr : trace) : Prop := Forall (fun m => owns m tr) held.
Lemma owned_tame held tr tr' : grows (@tame) tr tr' -> owned_all held tr -> owned_all held tr'.
Proof. intros Hg H. eapply Forall_impl; [exact H|]. intros m. by apply owns_tame. Qed.
Lemma acquire_wp : wp G (fun tr' x => match x with
    | Ok held => held = tg_Mount <$> sortedTargets c /\ owned_all held tr'
    | Err _ => True end) (acquire c owner) [].
Proof.
  unfold acquire. cbv zeta. apply wp_bind. eapply wp_mono; [|apply lock_all_wp]. intros tr1 [held x] [Hg1 Hh]. cbn [fst snd] in *.
  apply wp_bind. destruct x as [[]|e]; [|cbn; apply wp_bind; eapply wp_mono; [|by apply close_all_calm]; by intros].
  specialize (Hh eq_refl). cbn [app mk_Targets expected_marker] in Hh.
  apply wp_bindE. eapply wp_mono; [|apply calm_visit; unfold no_marker; calm]. intros tr2 [[]|e] [Hg2 _];
    [|apply wp_bind; eapply wp_mono; [|by apply close_all_calm]; by intros].
  assert (untouched tr2) as Hu.
  { eapply untouched_tame; [apply neutral_tame; eapply grows_trans; [exact Hg1|exact Hg2]|]. intros m [x Hx]. by apply not_elem_of_nil in Hx. }
  eapply wp_mono; [|by apply write_all_wp]. intros tr3 [[]|e] [Hg3 Hc]; cbn;
    [|apply wp_bind; eapply wp_mono; [|by apply close_all_calm]; by intros].
  split; [done|]. specialize (Hc eq_refl). eapply Forall_impl; [exact Hc|]. intros m Hm. split; [done|]. by eapply untouched_tame.
Qed.

Lemma send_tame {A} m (f : gres () -> prog A) (Q : trace -> A -> Prop) tr :
  (forall tr' x, grows (@tame) tr tr' -> wp G Q (f x) tr') -> wp G Q (bind (send m) f) tr.
Proof.
  intros H. apply wp_bind. unfold send. apply wp_event; [done|]. intros x.
  destruct x; cbn; apply H; by apply grows_cons.
Qed.
Lemma Begin_wp o tr : wp G (fun tr' x => grows (@tame) tr tr' /\ match x with Ok t => tu_Owner t = o | Err _ => True end) (Begin o) tr.
Proof.
  unfold Begin. apply wp_event; [done|]. intros x. wp_if as E; [split; [by apply grows_cons|done]|].
  unfold bindE. apply send_tame. intros tr1 y Hg1.
  assert (grows (@tame) tr tr1) as Hg by (by eapply grows_trans, Hg1; apply grows_cons).
  destruct y as [[]|e]; [|done]. eapply wp_calm; [by apply receive_calm|]. intros tr2 m Hg2 _.
  assert (grows (@tame) tr tr2) as Hg' by (eapply grows_trans; [done|by apply neutral_tame]).
  destruct m as [m|e]; [|done]. wp_if as Em; [done|]. cbn. split; [done|]. bool_split. done.
Qed.
Lemma Session_drain_wp t tr : wp G (fun tr' x => grows (@tame) tr tr' /\
    match x with Ok () => exists f, Act RecvFrame (Some f) ∈ tr' /\ Decode f = Ok (mkMessage "drained" t) | Err _ => True end)
  (Session_drain t) tr.
Proof.
  unfold Session_drain, bindE. apply send_tame. intros tr1 y Hg1. destruct y as [[]|e]; [|done].
  eapply wp_calm; [by apply receive_calm|]. intros tr2 m Hg2 Hm.
  assert (grows (@tame) tr tr2) as Hg by (eapply grows_trans; [done|by apply neutral_tame]).
  destruct m as [m|e]; [|done]. wp_if as Em; [done|]. split; [done|]. destruct Hm as (f & Hf & Hd). exists f. split; [done|].
  apply orb_false_iff in Em as [E1 E2]. apply negb_false_iff, bool_decide_eq_true in E1, E2. destruct m as [k t']. cbn in *. by subst.
Qed.

Lemma all_ended_stable : stable (all_ended owner).
Proof.
  intros tr tr' He ((argv & pid & st & H1 & H2) & H3 & f & t & H4 & H5 & H6). pose proof (extends_elem tr tr') as Hx.
  split_and!; [exists argv, pid, st; split; by apply Hx|by apply Hx|exists f, t; split_and!; [by apply Hx|done|done]].
Qed.
Lemma owns_other m m' x tr : m <> m' -> owns m tr -> owns m (Act (Unlinkat m') x :: tr).
Proof.
  intros Hm [Hc Hr]. split; [by right|]. intros [y [Hy|Hy]%elem_of_cons]; [|by apply Hr; exists y].
  by inversion Hy.
Qed.
Lemma remove_all_wp l tr : NoDup l -> owned_all l tr -> all_ended owner tr ->
  wp G (fun _ _ => True) (each l remove_marker) tr.
Proof.
  unfold each. revert tr. induction l as [|m l IH]; intros tr Hn Ho He; cbn [visit_all]; [done|].
  apply NoDup_cons in Hn as [Hm Hn]. apply Forall_cons in Ho as [Hom Ho]. apply wp_bindE. unfold remove_marker.
  apply wp_event; [done|]. intros x. wp_if as E; [done|]. apply wp_event; [done|]. intros y. wp_if as E2; [done|]. cbn.
  apply IH; [done| |].
  - eapply owned_tame; [by apply grows_cons|]. apply Forall_forall. intros m' Hm'. apply owns_other; [by intros ->|].
    by apply (proj1 (Forall_forall _ _) Ho).
  - eapply all_ended_stable; [|exact He]. by exists [Act (Fsync m PDir) y; Act (Unlinkat m) x].
Qed.

(** The state of the loop, as the calls so far show it. *)
Definition supervised (argv held : list string) (pid : Z) (s : supervision) (tr : trace) : Prop :=
  NoDup held /\ owned_all held tr /\ Act (StartProcess argv) (Some pid) ∈ tr
  /\ (su_mainExited s = true -> exists st, Act Select (Reaped (Child pid st)) ∈ tr).
Lemma supervised_tame argv held pid s tr tr' : grows (@tame) tr tr' -> supervised argv held pid s tr -> supervised argv held pid s tr'.
Proof.
  intros Hg (Hn & Ho & Hs & Hm). pose proof (extends_elem _ _ (Act (StartProcess argv) (Some pid)) (grows_extends _ _ _ Hg)) as Hx.
  split_and!; [done|by eapply owned_tame|by apply Hx|]. intros E. destruct (Hm E) as [st H]. exists st.
  eapply extends_elem; [by eapply grows_extends|done].
Qed.
Lemma finish_wp argv held pid t s tr : tu_Owner t = owner -> supervised argv held pid s tr -> Act Select (Reaped ECHILD) ∈ tr ->
  wp G (fun _ _ => True) (finish (expected_marker c owner) held t s) tr.
Proof.
  intros Ht Hsup He. unfold finish. wp_if as E1; [done|]. apply orb_false_iff in E1 as [Em _]. apply negb_false_iff in Em.
  apply wp_event; [done|]. intros x. wp_if as E2; [done|]. apply wp_bind. eapply wp_mono; [|apply Session_drain_wp].
  intros tr1 d [Hg1 Hd]. apply wp_event; [done|]. intros y. wp_if as E3; [done|]. apply orb_false_iff in E3 as [E3 _].
  destruct d as [[]|e]; [|done]. destruct Hd as (f & Hf & Hdec).
  assert (grows (@tame) tr (Act CtxErr y :: tr1)) as Hg.
  { eapply grows_trans; [|by apply grows_cons]. eapply grows_trans; [|exact Hg1]. by apply grows_cons. }
  destruct (supervised_tame _ _ _ _ _ _ Hg Hsup) as (Hn & Ho & Hs & Hm). destruct (Hm Em) as [st Hst].
  assert (all_ended owner (Act CtxErr y :: tr1)) as Hend.
  { split_and!; [by exists argv, pid, st|by eapply extends_elem, He; eapply grows_extends|].
    exists f, t. split_and!; [by right|done|done]. }
  apply wp_bind. unfold release. apply wp_bindE. eapply wp_mono; [|apply calm_visit; intros m; unfold check_marker].
  - intros tr2 [[]|e] [Hg2 _]; [|done]. eapply wp_mono; [|apply remove_all_wp; [done| |]].
    + by intros tr3 [[]|e] _.
    + eapply owned_tame; [by apply neutral_tame|done].
    + eapply all_ended_stable; [by eapply grows_extends|done].
  - apply calm_then; [by apply readMarker_calm|]. calm.
Qed.
Lemma terminate_wp argv held pid s (f : supervision -> prog outcome) tr :
  supervised argv held pid s tr ->
  (forall tr' s', supervised argv held pid s' tr' -> wp G (fun _ _ => True) (f s') tr') ->
  wp G (fun _ _ => True) (bind (terminate s) f) tr.
Proof.
  intros Hs Hf. unfold terminate. destruct (su_stopping s); [by apply Hf|]. apply wp_bind, wp_event; [done|]. intros e. apply Hf.
  by eapply supervised_tame, Hs; apply grows_cons.
Qed.
Lemma supervise_wp fuel argv held t pid s tr : tu_Owner t = owner -> supervised argv held pid s tr ->
  wp G (fun _ _ => True) (supervise fuel (expected_marker c owner) held t pid s) tr.
Proof.
  intros Ht. revert s tr. induction fuel as [|fuel IH]; intros s tr Hs; cbn [supervise]; [done|]. cbv zeta.
  apply wp_event; [done|]. intros i.
  assert (supervised argv held pid s (Act Select i :: tr)) as Hs' by (by eapply supervised_tame, Hs; apply grows_cons).
  destruct i as [| | | |r]; [| | | |destruct r as [p st| |]].
  - wp_if as E; [by apply IH|]. eapply terminate_wp; [exact Hs'|]. intros tr' s'. apply IH.
  - wp_if as E; [by apply IH|]. eapply terminate_wp; [exact Hs'|]. intros tr' s'. apply IH.
  - wp_if as E; [by apply IH|]. apply wp_event; [done|]. intros e. apply IH. by eapply supervised_tame, Hs'; apply grows_cons.
  - wp_if as E; [by apply IH|done].
  - wp_if as E; [|by apply IH]. apply Z.eqb_eq in E. subst p. eapply terminate_wp; [|intros tr' s'; apply IH].
    destruct Hs' as (Hn & Ho & Hst & _). split_and!; [done|done|done|]. intros _. exists st. by left.
  - eapply finish_wp; [done|exact Hs'|by left].
  - done.
Qed.
End GuardRun.

(** What the calls of a guard satisfy, whatever its environment answers. *)
Lemma guard_run_wp fuel getpid c pod guard argv :
  wp (guard_calls c (mkOwner (cf_ClusterUID c) (cf_OperationUID c) pod guard)) (fun _ _ => True) (Run fuel getpid c pod guard argv) [].
Proof.
  unfold Run. wp_if as E1; [done|]. destruct (Config_owner c pod guard) as [o|e] eqn:Eo; [|done].
  unfold Config_owner in Eo. res_inv. destruct (ValidateArgv c argv) as [[]|e]; [|done].
  assert (config_ok c) as Hc by (by apply Config_Validate_ok; destruct a).
  set (o := mkOwner _ _ _ _). apply wp_bind. eapply wp_mono; [|apply (acquire_wp c o)]. intros tr1 [held|e] H; [|done].
  destruct H as [-> Ho]. set (held := tg_Mount <$> sortedTargets c) in *.
  assert (held ≡ₚ tg_Mount <$> cf_Targets c) as Hp by (unfold held; by rewrite sortedTargets_perm).
  assert (NoDup held) as Hn by (rewrite Hp; apply (co_mounts _ Hc)).
  apply wp_bind. eapply (wp_mono _ (fun _ _ => True)).
  { intros tr2 [|code err] _; [done|]. apply wp_bind. eapply wp_mono; [|apply close_all_calm, guard_neutral]. done. }
  unfold run_held. apply wp_bind. eapply wp_mono; [|apply Begin_wp]. intros tr2 b [Hg2 Hb]. cbn [mk_Owner expected_marker] in Hb.
  apply wp_event; [done|]. intros fired. apply wp_event; [done|]. intros ctx. destruct b as [t|e]; [|done].
  wp_if as E2; [done|]. assert (owned_all held (Act CtxErr ctx :: Act TimerFired fired :: tr2)) as Ho2.
  { eapply owned_tame, Ho. eapply grows_trans; [exact Hg2|]. exists [Act CtxErr ctx; Act TimerFired fired]. split; [done|]. by repeat constructor. }
  apply wp_event.
  { unfold owned_all in Ho2. cbn. rewrite <- sortedTargets_perm. by apply Forall_fmap in Ho2. }
  intros [pid|]; [|done]. apply (supervise_wp c o fuel argv held t pid); [done|].
  split_and!; [done|by eapply owned_tame, Ho2; apply grows_cons|by left|done].
Qed.

(** ** The handler of a stream *)
Lemma handler_neutral : lets_neutral handler_calls.
Proof. intros tr X e H. by destruct e. Qed.
Lemma send_wp {A} m (f : gres () -> prog A) (Q : trace -> A -> Prop) tr :
  handler_calls tr _ (SendFrame (message_bytes m)) -> (forall tr' x, extends tr tr' -> wp handler_calls Q (f x) tr') ->
  wp handler_calls Q (bind (send m) f) tr.
Proof.
  intros Hm H. apply wp_bind. unfold send. apply wp_event; [exact Hm|]. intros x. destruct x; apply H; apply extends_cons.
Qed.
Lemma drain_wp afterDrain t tr : wp handler_calls (fun tr' x => extends tr tr' /\
    match x with Ok () => Act WaitDrained true ∈ tr' | Err _ => True end) (drain afterDrain t) tr.
Proof.
  unfold drain. apply wp_event; [done|]. intros valid. wp_if as E1; [split; [apply extends_cons|done]|].
  apply wp_event; [done|]. intros []. apply wp_event; [done|]. intros d. wp_if as E2.
  { split; [by exists [Act WaitDrained d; Act CloseGate (); Act (DrainValid t) valid]|done]. }
  apply negb_false_iff in E2. subst d. set (tr3 := Act WaitDrained true :: _).
  assert (extends tr tr3) as He by (by exists [Act WaitDrained true; Act CloseGate (); Act (DrainValid t) valid]).
  wp_if as E3; [|split; [done|by left]]. apply wp_event; [done|]. intros ok.
  assert (extends tr (Act RunAfterDrain ok :: tr3)) by (by eapply extends_trans, extends_cons).
  wp_if as E4; (split; [done|]); [by right; left|done].
Qed.
Lemma session_body_wp afterDrain t o tr : Act (BeginCommit o) t ∈ tr ->
  wp handler_calls (fun _ _ => True) (session_body afterDrain t) tr.
Proof.
  intros Hc. pose proof handler_neutral as HG. unfold session_body, bindE. apply send_wp.
  { exists "begun", t, o. split_and!; [done|done|by left]. }
  intros tr1 [[]|e] He1; [|done]. eapply wp_calm; [by apply receive_calm|]. intros tr2 [msg|e] Hg2 _; [|done].
  wp_if as E; [done|]. apply wp_bind. eapply wp_mono; [|apply drain_wp]. intros tr3 [[]|e] [He3 Hd]; [|done].
  unfold send. apply wp_event; [|by intros []]. exists "drained", t, o. split_and!; [done| |by right].
  eapply extends_elem, Hc. eapply extends_trans; [exact He1|]. eapply extends_trans; [by eapply grows_extends|exact He3].
Qed.
Lemma session_wp c afterDrain : wp handler_calls (fun _ _ => True) (session c afterDrain) [].
Proof.
  pose proof handler_neutral as HG. unfold session, bindE. eapply wp_calm; [by apply receive_calm|]. intros tr1 [msg|e] _ _; [|done].
  wp_if as E1; [done|]. apply wp_bind. unfold begin_. apply wp_event; [done|]. intros [[]|e]; [|done].
  eapply wp_calm; [by apply verifyOwner_calm|]. intros tr2 [[]|e] _ _; [|by apply wp_event].
  apply wp_event; [done|]. intros t. cbn [wp done]. apply wp_bind. eapply wp_mono; [|eapply session_body_wp; by left].
  intros tr3 x _. by apply wp_event.
Qed.

(** ** The world *)
Inductive kind := IsGuard (c : Config) (owner : Owner) | IsHandler (sidecar : string).
(** [pr_ns] is the volume that is mounted at each path of the process. *)
Record proc := mkProc { pr_kind : kind; pr_ns : string -> string; pr_alive : bool; pr_prog : prog (); pr_trace : trace }.
Definition calls_of (k : kind) : trace -> forall X, sys X -> Prop :=
  match k with IsGuard c o => guard_calls c o | IsHandler _ => handler_calls end.
(** Locks by volume with the process and path that hold them, marker files by volume, the sidecars' gates by process identity
    with the handler that holds the mutex inside [begin], and the messages sidecars have sent. *)
Record shared := mkShared {
  sh_lock : gmap string (nat * string); sh_marker : gmap string string; sh_gate : gmap string gate;
  sh_mutex : gmap string (nat * Owner); sh_sent : list string }.
Record world := mkWorld { w_sh : shared; w_procs : gmap nat proc }.

Definition set_lock (s : shared) l := mkShared l (sh_marker s) (sh_gate s) (sh_mutex s) (sh_sent s).
Definition set_marker (s : shared) m := mkShared (sh_lock s) m (sh_gate s) (sh_mutex s) (sh_sent s).
Definition set_gate (s : shared) g := mkShared (sh_lock s) (sh_marker s) g (sh_mutex s) (sh_sent s).
Definition set_mutex (s : shared) m := mkShared (sh_lock s) (sh_marker s) (sh_gate s) m (sh_sent s).
Definition set_sent (s : shared) l := mkShared (sh_lock s) (sh_marker s) (sh_gate s) (sh_mutex s) l.

(** A call on the gate of the handler's sidecar, while nobody holds its mutex. *)
Definition on_gate (k : kind) (s : shared) (f : string -> gate -> Prop) : Prop :=
  match k with
  | IsHandler sid => exists g, sh_gate s !! sid = Some g /\ sh_mutex s !! sid = None /\ f sid g
  | IsGuard _ _ => False
  end.
(** The possible answers of a call of process [p], with their effect. *)
Definition answers (p : nat) (k : kind) (ns : string -> string) (s : shared) {X} (e : sys X) : X -> shared -> Prop :=
  match e in sys X return X -> shared -> Prop with
  | Flock m => fun x s' =>
      match sh_lock s !! ns m with
      | None => x = None /\ s' = set_lock s (<[ns m := (p, m)]> (sh_lock s)) \/ x = Some EIO /\ s' = s
      | Some h => (x = Some EIO \/ x = if bool_decide (h = (p, m)) then None else Some EWOULDBLOCK) /\ s' = s
      end
  | CloseVolume m => fun _ s' =>
      s' = if bool_decide (sh_lock s !! ns m = Some (p, m)) then set_lock s (delete (ns m) (sh_lock s)) else s
  | Fstatat m => fun x s' => s' = s /\ (x = Some EIO \/ x = match sh_marker s !! ns m with Some _ => None | None => Some ENOENT end)
  | CreateMarker m => fun x s' =>
      match sh_marker s !! ns m with
      | Some _ => x <> None /\ s' = s
      | None => s' = set_marker s (<[ns m := ""]> (sh_marker s)) \/ x <> None /\ s' = s
      end
  | WriteMarker m data => fun x s' =>
      match sh_marker s !! ns m with
      | Some _ => exists content, (x = None -> content = data) /\ s' = set_marker s (<[ns m := content]> (sh_marker s))
      | None => s' = s
      end
  | ReadMarker m => fun x s' => s' = s /\ match x with Ok b => sh_marker s !! ns m = Some b | Err _ => True end
  | Unlinkat m => fun x s' =>
      match sh_marker s !! ns m with
      | Some _ => s' = set_marker s (delete (ns m) (sh_marker s)) \/ x <> None /\ s' = s
      | None => x <> None /\ s' = s
      end
  | SendFrame f => fun ok s' =>
      match k with
      | IsHandler _ => s' = set_sent s (f :: sh_sent s) \/ ok = false /\ s' = s
      | IsGuard _ _ => s' = s
      end
  | RecvFrame => fun x s' => s' = s /\ match k, x with IsGuard _ _, Some f => f ∈ sh_sent s | _, _ => True end
  | BeginCheck o => fun x s' => on_gate k s (fun sid g => x = begin_check (tk_adm g) o
      /\ s' = match x with Ok _ => set_mutex s (<[sid := (p, o)]> (sh_mutex s)) | Err _ => s end)
  | BeginAbort => fun _ s' =>
      match k with IsHandler sid => exists o, sh_mutex s !! sid = Some (p, o) /\ s' = set_mutex s (delete sid (sh_mutex s)) | _ => False end
  | BeginCommit o => fun t s' =>
      match k with
      | IsHandler sid => exists g, sh_gate s !! sid = Some g /\ sh_mutex s !! sid = Some (p, o)
          /\ t = (begin_commit (tk_adm g) o).1
          /\ s' = set_mutex (set_gate s (<[sid := mkGate (begin_commit (tk_adm g) o).2 (tk_tasks g)]> (sh_gate s))) (delete sid (sh_mutex s))
      | _ => False
      end
  | DrainValid t => fun x s' => on_gate k s (fun _ g => x = drain_valid (tk_adm g) t /\ s' = s)
  | CloseGate => fun _ s' => on_gate k s (fun sid g =>
      s' = set_gate s (<[sid := mkGate (Close (tk_adm g)) (tk_tasks g)]> (sh_gate s)))
  | WaitDrained => fun x s' =>
      match k with
      | IsHandler sid => exists g, sh_gate s !! sid = Some g /\ (x = true -> ad_drained (tk_adm g) <> 0%nat) /\ s' = s
      | _ => False
      end
  | _ => fun _ s' => s' = s
  end.

Inductive step : world -> world -> Prop :=
| step_call w p pr X (e : sys X) k x s' : w_procs w !! p = Some pr -> pr_alive pr = true -> pr_prog pr = Vis e k ->
    answers p (pr_kind pr) (pr_ns pr) (w_sh w) e x s' ->
    step w (mkWorld s' (<[p := mkProc (pr_kind pr) (pr_ns pr) true (k x) (Act e x :: pr_trace pr)]> (w_procs w)))
| step_stop w p pr : w_procs w !! p = Some pr ->
    step w (mkWorld (set_lock (w_sh w) (filter (fun '(_, h) => h.1 <> p) (sh_lock (w_sh w))))
              (<[p := mkProc (pr_kind pr) (pr_ns pr) false (pr_prog pr) (pr_trace pr)]> (w_procs w)))
| step_guard w p ns fuel getpid c pod guard argv : w_procs w !! p = None ->
    step w (mkWorld (w_sh w) (<[p := mkProc (IsGuard c (mkOwner (cf_ClusterUID c) (cf_OperationUID c) pod guard)) ns true
                                       (let! _ := Run fuel getpid c pod guard argv in Ret ()) []]> (w_procs w)))
| step_sidecar w c pod guard sid a : sh_gate (w_sh w) !! sid = None -> uuidPattern sid = true -> NewAdmission c pod guard sid = Ok a ->
    step w (mkWorld (set_gate (w_sh w) (<[sid := mkGate a ∅]> (sh_gate (w_sh w)))) (w_procs w))
| step_handler w p ns sid g afterDrain : w_procs w !! p = None -> sh_gate (w_sh w) !! sid = Some g ->
    step w (mkWorld (w_sh w) (<[p := mkProc (IsHandler sid) ns true
                                       (let! _ := session (ad_config (tk_adm g)) afterDrain in Ret ()) []]> (w_procs w)))
| step_task w sid g g' : sh_gate (w_sh w) !! sid = Some g -> sh_mutex (w_sh w) !! sid = None -> gate_step g g' ->
    ad_started (tk_adm g') = ad_started (tk_adm g) ->
    step w (mkWorld (set_gate (w_sh w) (<[sid := g']> (sh_gate (w_sh w)))) (w_procs w)).
Definition world0 : world := mkWorld (mkShared ∅ ∅ ∅ ∅ []) ∅.
Definition reached (w : world) : Prop := rtc step world0 w.

(** ** The invariant *)
Fixpoint traced (G : trace -> forall X, sys X -> Prop) (tr : trace) : Prop :=
  match tr with [] => True | @Act _ X e x :: tr => G tr X e /\ traced G tr end.
Lemma traced_in G tr (a : action sys) : traced G tr -> a ∈ tr ->
  exists pre, extends pre tr /\ match a with @Act _ X e x => G pre X e end.
Proof.
  induction tr as [|[X e x] tr IH]; intros H Hin; [by apply not_elem_of_nil in Hin|]. destruct H as [Hg Ht].
  apply elem_of_cons in Hin as [->|Hin]; [exists tr; split; [apply extends_cons|done]|].
  destruct (IH Ht Hin) as (pre & He & H). exists pre. split; [eapply extends_trans; [exact He|apply extends_cons]|done].
Qed.
Definition proc_ok (pr : proc) : Prop :=
  wp (calls_of (pr_kind pr)) (fun _ _ => True) (pr_prog pr) (pr_trace pr) /\ traced (calls_of (pr_kind pr)) (pr_trace pr).
Definition gate_text (sid : string) (g : gate) : Prop :=
  gate_ok g /\ ad_process (tk_adm g) = sid /\ is_text sid /\ is_text (ad_pod (tk_adm g))
  /\ is_text (cf_ClusterUID (ad_config (tk_adm g))) /\ is_text (cf_OperationUID (ad_config (tk_adm g))).
Definition committed (s : shared) (sid : string) (t : Tuple) : Prop := tu_SidecarUID t = sid /\ tuple_text t
  /\ exists g, sh_gate s !! sid = Some g /\ ad_started (tk_adm g) = true /\ ad_tuple (tk_adm g) = t.
Definition quiesced (s : shared) (sid : string) : Prop := exists g, sh_gate s !! sid = Some g /\ drained (tk_adm g).
Record inv (w : world) : Prop := mkInv {
  i_proc : forall p pr, w_procs w !! p = Some pr -> proc_ok pr;
  i_present : forall p pr m, w_procs w !! p = Some pr -> owns m (pr_trace pr) -> is_Some (sh_marker (w_sh w) !! pr_ns pr m);
  i_unique : forall p pr m p' pr' m', w_procs w !! p = Some pr -> w_procs w !! p' = Some pr' -> owns m (pr_trace pr) ->
    owns m' (pr_trace pr') -> pr_ns pr m = pr_ns pr' m' -> p = p' /\ m = m';
  i_gate : forall sid g, sh_gate (w_sh w) !! sid = Some g -> gate_text sid g;
  i_commit : forall p pr sid o t, w_procs w !! p = Some pr -> pr_kind pr = IsHandler sid -> Act (BeginCommit o) t ∈ pr_trace pr ->
    committed (w_sh w) sid t;
  i_wait : forall p pr sid, w_procs w !! p = Some pr -> pr_kind pr = IsHandler sid -> Act WaitDrained true ∈ pr_trace pr ->
    quiesced (w_sh w) sid;
  i_sent : forall f, f ∈ sh_sent (w_sh w) -> exists kind t, f = message_bytes (mkMessage kind t)
    /\ committed (w_sh w) (tu_SidecarUID t) t
    /\ (kind = "begun" \/ kind = "drained" /\ quiesced (w_sh w) (tu_SidecarUID t));
  i_mutex : forall sid p o, sh_mutex (w_sh w) !! sid = Some (p, o) ->
    exists g, sh_gate (w_sh w) !! sid = Some g /\ begin_check (tk_adm g) o = Ok ();
  i_recv : forall p pr c o f, w_procs w !! p = Some pr -> pr_kind pr = IsGuard c o -> Act RecvFrame (Some f) ∈ pr_trace pr ->
    f ∈ sh_sent (w_sh w) }.

(** Gates only move along their own steps. *)
Definition gates_grow (s s' : shared) : Prop := forall sid g, sh_gate s !! sid = Some g ->
  exists g', sh_gate s' !! sid = Some g' /\ (g' = g \/ gate_step g g').
Lemma gate_step_started g g' : gate_step g g' -> ad_started (tk_adm g) = true ->
  ad_started (tk_adm g') = true /\ ad_tuple (tk_adm g') = ad_tuple (tk_adm g).
Proof.
  intros Hs Hst. destruct Hs as [a ts owner H|a ts tuple a' i H Hi|a ts i Hi| |a ts|a ts fn x a' H]; cbn in *.
  - unfold begin_check in H. rewrite Hst in H. by destruct (_ || _) in H.
  - unfold Admit in H. repeat case_match; simplify_eq; done.
  - unfold Task_Done. by case_match.
  - done.
  - unfold Close. by repeat case_match.
  - unfold AfterDrain in H. by repeat case_match; simplify_eq.
Qed.
Lemma gate_step_text sid g g' : gate_text sid g -> gate_step g g' -> gate_text sid g'.
Proof.
  intros (Hok & H1 & H2 & H3 & H4 & H5) Hs. split; [by eapply gate_step_ok|].
  assert (ad_process (tk_adm g') = ad_process (tk_adm g) /\ ad_pod (tk_adm g') = ad_pod (tk_adm g)
    /\ ad_config (tk_adm g') = ad_config (tk_adm g)) as (-> & -> & ->); [|done].
  destruct Hs as [a ts owner H|a ts tuple a' i H Hi|a ts i Hi| |a ts|a ts fn x a' H]; cbn in *; try done.
  - unfold Admit in H. by repeat case_match; simplify_eq.
  - unfold Task_Done. by case_match.
  - unfold Close. by repeat case_match.
  - unfold AfterDrain in H. by repeat case_match; simplify_eq.
Qed.
Lemma committed_grow s s' sid t : gates_grow s s' -> committed s sid t -> committed s' sid t.
Proof.
  intros Hg (H1 & H2 & g & H3 & H4 & H5). split_and!; [done|done|]. destruct (Hg _ _ H3) as (g' & Hg' & [->|Hs]); [by exists g|].
  exists g'. destruct (gate_step_started _ _ Hs H4) as [? Ht]. split_and!; [done|done|by rewrite Ht].
Qed.
Lemma quiesced_grow s s' sid : gates_grow s s' -> (forall g, sh_gate s !! sid = Some g -> gate_ok g) -> quiesced s sid -> quiesced s' sid.
Proof.
  intros Hg Hok (g & H3 & H4). destruct (Hg _ _ H3) as (g' & Hg' & [->|Hs]); [by exists g|].
  exists g'. split; [done|]. by eapply gate_step_drained; [apply Hok| |].
Qed.
Lemma gates_grow_same s s' : sh_gate s' = sh_gate s -> gates_grow s s'.
Proof. intros E sid g H. exists g. rewrite E. auto. Qed.
Lemma gates_grow_insert s s' sid g g' : sh_gate s !! sid = Some g -> gate_step g g' -> sh_gate s' = <[sid := g']> (sh_gate s) -> gates_grow s s'.
Proof.
  intros Hg Hs E sid' h Hh. rewrite E. destruct (decide (sid' = sid)) as [->|Hn].
  - exists g'. rewrite lookup_insert_eq. split; [done|]. right. congruence.
  - exists h. rewrite lookup_insert_ne by done. auto.
Qed.

(** What a call adds to a trace. *)
Definition creates (m : string) (a : action sys) : Prop :=
  match a with @Act _ X e x => match e in sys X return X -> Prop with CreateMarker m' => fun x => m' = m /\ x = None | _ => fun _ => False end x end.
Definition commits (o : Owner) (t : Tuple) (a : action sys) : Prop :=
  match a with @Act _ X e x => match e in sys X return X -> Prop with BeginCommit o' => fun t' => o' = o /\ t' = t | _ => fun _ => False end x end.
Definition waits (a : action sys) : Prop :=
  match a with @Act _ X e x => match e in sys X return X -> Prop with WaitDrained => fun x => x = true | _ => fun _ => False end x end.
Definition receives (f : string) (a : action sys) : Prop :=
  match a with @Act _ X e x => match e in sys X return X -> Prop with RecvFrame => fun x => x = Some f | _ => fun _ => False end x end.
Lemma act_view (P : action sys -> Prop) a b tr : P a -> a ∈ b :: tr -> P b \/ a ∈ tr.
Proof. intros Ha [->|H]%elem_of_cons; [by left|by right]. Qed.
Lemma owns_view {X} (e : sys X) x m tr : owns m (Act e x :: tr) -> creates m (Act e x) \/ owns m tr.
Proof.
  intros [Hc Hr]. destruct (act_view (creates m) _ _ _ (conj eq_refl eq_refl : creates m (Act (CreateMarker m) None)) Hc) as [H|H]; [by left|].
  right. split; [done|]. intros [y Hy]. apply Hr. exists y. by right.
Qed.
Lemma removed_not_owns {x} m tr : ~ owns m (Act (Unlinkat m) x :: tr).
Proof. intros [_ H]. apply H. exists x. by left. Qed.

Definition unlinks (m : string) (a : action sys) : Prop :=
  match a with @Act _ X e x => match e with Unlinkat m' => m' = m | _ => False end end.
Definition sends (f : string) (a : action sys) : Prop :=
  match a with @Act _ X e x => match e with SendFrame f' => f' = f | _ => False end end.
(** Opens the possible answers of a call. *)
Ltac open_answer :=
  unfold on_gate in *;
  repeat match goal with
  | H : False |- _ => destruct H
  | H : _ /\ _ |- _ => destruct H
  | H : _ \/ _ |- _ => destruct H
  | H : exists _, _ |- _ => destruct H
  | H : match ?b with _ => _ end |- _ => destruct b eqn:?
  | H : ?s = if ?b then _ else _ |- _ => destruct b eqn:?
  | H : ?s = match ?b with Ok _ => _ | Err _ => _ end |- _ => destruct b eqn:?
  | H : ?s = _ |- _ => is_var s; match type of s with shared => subst s end
  end.
Section Answers.
Context (p : nat) (k : kind) (ns : string -> string) (s s' : shared) {X : Type} (e : sys X) (x : X).
Hypothesis Ha : answers p k ns s e x s'.

Lemma answers_keep v : is_Some (sh_marker s !! v) -> (forall m, unlinks m (Act e x) -> ns m <> v) -> is_Some (sh_marker s' !! v).
Proof.
  intros Hv Hu. revert x s' Ha Hu. destruct e; cbn [answers unlinks]; intros y s2 H2 Hu; open_answer; cbn; try done;
    first [apply lookup_insert_is_Some'; by right | rewrite lookup_delete_ne by auto; done].
Qed.
Lemma answers_create m : creates m (Act e x) -> sh_marker s !! ns m = None /\ is_Some (sh_marker s' !! ns m).
Proof.
  revert x s' Ha. destruct e; cbn; try done. intros y s2 H2 [<- ->]. open_answer; try done.
  split; [done|]. cbn. rewrite lookup_insert_eq. by eexists.
Qed.
Lemma answers_sent f : f ∈ sh_sent s' -> f ∈ sh_sent s \/ sends f (Act e x) /\ exists sid, k = IsHandler sid.
Proof.
  intros Hf. revert x s' Ha Hf. destruct e; cbn [answers sends]; intros y s2 H2 Hf; open_answer; cbn in Hf; try (by left).
  apply elem_of_cons in Hf as [->|Hf]; [right; eauto|by left].
Qed.
Lemma answers_sent_mono f : f ∈ sh_sent s -> f ∈ sh_sent s'.
Proof.
  intros Hf. revert x s' Ha. destruct e; cbn [answers]; intros y s2 H2; open_answer; cbn; try done. by right.
Qed.
(** Every gate moves by at most one of its steps, and only while its mutex invariant holds. *)
Lemma answers_gates : (forall sid p o, sh_mutex s !! sid = Some (p, o) -> exists g, sh_gate s !! sid = Some g /\ begin_check (tk_adm g) o = Ok ()) ->
  sh_gate s' = sh_gate s \/ exists sid g g', k = IsHandler sid /\ sh_gate s !! sid = Some g /\ gate_step g g' /\ sh_gate s' = <[sid := g']> (sh_gate s).
Proof.
  intros Hm. revert x s' Ha. destruct e; cbn [answers]; intros y s2 H2; open_answer; cbn; try (by left).
  - right. match goal with H : sh_mutex s !! ?sid = Some (p, _), H' : sh_gate s !! ?sid = Some ?g |- _ =>
      exists sid, g, (mkGate (begin_commit (tk_adm g) owner).2 (tk_tasks g));
      destruct (Hm _ _ _ H) as (g2 & Hg2 & Hc); assert (g2 = g) as -> by congruence; destruct g as [a ts] end.
    split_and!; [done|done|by apply gate_begin|done].
  - right. match goal with H' : sh_gate s !! ?sid = Some ?g |- _ => exists sid, g, (mkGate (Close (tk_adm g)) (tk_tasks g)); destruct g as [a ts] end.
    split_and!; [done|done|apply gate_close|done].
Qed.
Lemma answers_mutex : (forall sid p o, sh_mutex s !! sid = Some (p, o) -> exists g, sh_gate s !! sid = Some g /\ begin_check (tk_adm g) o = Ok ()) ->
  forall sid p o, sh_mutex s' !! sid = Some (p, o) -> exists g, sh_gate s' !! sid = Some g /\ begin_check (tk_adm g) o = Ok ().
Proof.
  intros Hm. revert x s' Ha. destruct e; cbn [answers]; intros y s2 H2; open_answer; cbn; try done; intros sid q o' Hq.
  - destruct (decide (sid = sidecar)) as [->|Hn]; [|rewrite lookup_insert_ne in Hq by done; by apply (Hm _ q)].
    rewrite lookup_insert_eq in Hq. injection Hq as <- <-. eexists. split; [eassumption|]. destruct a. congruence.
  - destruct (decide (sid = sidecar)) as [->|Hn]; [by rewrite lookup_delete_eq in Hq|]. rewrite lookup_delete_ne in Hq by done. by apply (Hm _ q).
  - destruct (decide (sid = sidecar)) as [->|Hn]; [by rewrite lookup_delete_eq in Hq|]. rewrite lookup_delete_ne in Hq by done.
    rewrite lookup_insert_ne by done. by apply (Hm _ q).
  - destruct (decide (sid = sidecar)) as [->|Hn]; [congruence|]. rewrite lookup_insert_ne by done. by apply (Hm _ q).
Qed.
End Answers.

Lemma calls_unlinks k tr X (e : sys X) x m : calls_of k tr X e -> unlinks m (Act e x) -> owns m tr.
Proof. destruct k, e; cbn; try done. by intros [? _] <-. Qed.
Lemma calls_sends sid tr X (e : sys X) x f : calls_of (IsHandler sid) tr X e -> sends f (Act e x) ->
  exists kind t o, f = message_bytes (mkMessage kind t) /\ Act (BeginCommit o) t ∈ tr /\ (kind = "begun" \/ kind = "drained" /\ Act WaitDrained true ∈ tr).
Proof. destruct e; cbn; try done. by intros H <-. Qed.

Section CallStep.
Context (w : world) (Hi : inv w) (p : nat) (pr : proc) (X : Type) (e : sys X) (k : X -> prog ()) (x : X) (s' : shared).
Hypothesis Hp : w_procs w !! p = Some pr.
Hypothesis Hprog : pr_prog pr = Vis e k.
Hypothesis Ha : answers p (pr_kind pr) (pr_ns pr) (w_sh w) e x s'.
Abbreviation tr' := (Act e x :: pr_trace pr).
Abbreviation w' := (mkWorld s' (<[p := mkProc (pr_kind pr) (pr_ns pr) true (k x) tr']> (w_procs w))).

Lemma call_allowed : calls_of (pr_kind pr) (pr_trace pr) X e /\ wp (calls_of (pr_kind pr)) (fun _ _ => True) (k x) tr'.
Proof. destruct (i_proc _ Hi _ _ Hp) as [Hwp _]. rewrite Hprog in Hwp. cbn in Hwp. destruct Hwp as [Hc Hk]. split; [done|apply Hk]. Qed.
(** A process of the new world, as it was before. *)
Lemma call_lookup q qr : w_procs w' !! q = Some qr ->
  q = p /\ qr = mkProc (pr_kind pr) (pr_ns pr) true (k x) tr' \/ q <> p /\ w_procs w !! q = Some qr.
Proof. cbn. rewrite lookup_insert_Some. naive_solver. Qed.
(** Owners of the new world: those of the old one, or the one that has just created a marker where there was none. *)
Lemma call_owner q qr m : w_procs w' !! q = Some qr -> owns m (pr_trace qr) ->
  exists qr0, w_procs w !! q = Some qr0 /\ pr_ns qr0 = pr_ns qr
  /\ (owns m (pr_trace qr0) /\ (q = p -> ~ unlinks m (Act e x)) \/ q = p /\ creates m (Act e x)).
Proof.
  intros Hq Ho. apply call_lookup in Hq as [[-> ->]|[Hn Hq]]; [|exists qr; split_and!; [done|done|left; split; [done|by intros ->]]].
  exists pr. split_and!; [done|done|]. cbn in Ho. pose proof Ho as Ho'. apply owns_view in Ho as [Hc|Ho]; [by right|left]. split; [done|].
  intros _ Hu. destruct e; try done. cbn in Hu. subst m. by eapply removed_not_owns.
Qed.
Lemma call_kept v q qr m : w_procs w !! q = Some qr -> owns m (pr_trace qr) -> (q = p -> ~ unlinks m (Act e x)) -> pr_ns qr m = v ->
  is_Some (sh_marker s' !! v).
Proof.
  intros Hq Ho Hu <-. destruct call_allowed as [Hc _]. eapply answers_keep; [exact Ha|by eapply (i_present _ Hi)|].
  intros m' Hm' E. pose proof (calls_unlinks _ _ _ _ _ _ Hc Hm') as Ho'.
  destruct (i_unique _ Hi _ _ _ _ _ _ Hp Hq Ho' Ho E) as [-> ->]. by apply Hu.
Qed.
Lemma call_markers :
  (forall q qr m, w_procs w' !! q = Some qr -> owns m (pr_trace qr) -> is_Some (sh_marker s' !! pr_ns qr m))
  /\ (forall q qr m q' qr' m', w_procs w' !! q = Some qr -> w_procs w' !! q' = Some qr' -> owns m (pr_trace qr) ->
       owns m' (pr_trace qr') -> pr_ns qr m = pr_ns qr' m' -> q = q' /\ m = m').
Proof.
  split.
  - intros q qr m Hq Ho. destruct (call_owner _ _ _ Hq Ho) as (qr0 & Hq0 & Hns & [[Ho0 Hu]|[-> Hc]]).
    + eapply call_kept; [done|done|done|]. by rewrite Hns.
    + assert (qr0 = pr) as -> by congruence. rewrite <- Hns. by eapply answers_create.
  - intros q qr m q' qr' m' Hq Hq' Ho Ho' E.
    destruct (call_owner _ _ _ Hq Ho) as (qr0 & Hq0 & Hns & H), (call_owner _ _ _ Hq' Ho') as (qr0' & Hq0' & Hns' & H').
    rewrite <- Hns, <- Hns' in E. destruct H as [[H _]|[-> H]], H' as [[H' _]|[-> H']].
    + by eapply (i_unique _ Hi).
    + assert (qr0' = pr) as -> by congruence. destruct (answers_create _ _ _ _ _ _ _ Ha _ H') as [Hn _].
      destruct (i_present _ Hi _ _ _ Hq0 H) as [c Hc]. rewrite E in Hc. congruence.
    + assert (qr0 = pr) as -> by congruence. destruct (answers_create _ _ _ _ _ _ _ Ha _ H) as [Hn _].
      destruct (i_present _ Hi _ _ _ Hq0' H') as [c Hc]. rewrite <- E in Hc. congruence.
    + split; [done|]. destruct e; try done. cbn in H, H'. naive_solver.
Qed.
Lemma call_gates : gates_grow (w_sh w) s' /\ (forall sid g, sh_gate s' !! sid = Some g -> gate_text sid g).
Proof.
  destruct (answers_gates _ _ _ _ _ _ _ Ha (i_mutex _ Hi)) as [E|(sid & g & g' & _ & Hg & Hs & E)].
  - split; [by apply gates_grow_same|]. intros sid g. rewrite E. apply (i_gate _ Hi).
  - split; [by eapply gates_grow_insert|]. intros sid' h. rewrite E, lookup_insert_Some. intros [[<- <-]|[_ Hh]]; [|by apply (i_gate _ Hi)].
    eapply gate_step_text; [by apply (i_gate _ Hi)|done].
Qed.
Lemma quiesced_kept sid : quiesced (w_sh w) sid -> quiesced s' sid.
Proof. apply quiesced_grow; [apply call_gates|]. intros g Hg. by apply (i_gate _ Hi _ _ Hg). Qed.
Lemma new_commit o t sid : pr_kind pr = IsHandler sid -> commits o t (Act e x) -> committed s' sid t.
Proof.
  intros Hk Hc. destruct e; cbn in Hc; try done. destruct Hc as [<- ->]. cbn in Ha. rewrite Hk in Ha.
  destruct Ha as (g & Hg & Hm & -> & ->). destruct (i_mutex _ Hi _ _ _ Hm) as (g2 & Hg2 & Hb).
  assert (g2 = g) as -> by congruence. destruct (i_gate _ Hi _ _ Hg) as (_ & H1 & H2 & H3 & H4 & H5).
  split_and!; [done| |].
  - unfold begin_check in Hb. destruct (_ || _) eqn:Eb in Hb; [done|]. apply orb_false_iff in Eb as [Eu Eo].
    apply negb_false_iff in Eu. apply negb_false_iff, bool_decide_eq_true in Eo. cbn. rewrite Eo. unfold tuple_text. cbn.
    split_and!; [done|done|done|by apply uuid_text_ascii|by rewrite H1].
  - eexists. cbn. rewrite lookup_insert_eq. done.
Qed.
Lemma new_wait sid : pr_kind pr = IsHandler sid -> waits (Act e x) -> quiesced s' sid.
Proof.
  intros Hk Hw. destruct e; cbn in Hw; try done. subst x. cbn in Ha. rewrite Hk in Ha. destruct Ha as (g & Hg & Hd & ->).
  exists g. split; [done|]. specialize (Hd eq_refl). destruct (i_gate _ Hi _ _ Hg) as [Hok _]. rewrite (go_drained _ Hok) in Hd.
  destruct (_ && _) eqn:E; [|done]. apply andb_true_iff in E as [? ?%Z.eqb_eq]. done.
Qed.
Lemma new_receive c o f : pr_kind pr = IsGuard c o -> receives f (Act e x) -> f ∈ sh_sent s'.
Proof. intros Hk Hr. destruct e; cbn in Hr; try done. subst x. cbn in Ha. rewrite Hk in Ha. by destruct Ha as [-> ?]. Qed.

Lemma guard_call_inv : inv w'.
Proof.
  destruct call_allowed as [Hc Hk], call_markers as [Hm1 Hm2], call_gates as [Hg Hgt].
  split; cbn [w_sh]; [|exact Hm1|exact Hm2|exact Hgt| | | |by eapply answers_mutex, (i_mutex _ Hi)|].
  - intros q qr [[-> ->]|[_ Hq]]%call_lookup; [|by apply (i_proc _ Hi q)]. split; [exact Hk|]. cbn.
    split; [exact Hc|]. by apply (i_proc _ Hi p).
  - intros q qr sid o t [[-> ->]|[_ Hq]]%call_lookup Hkd Hin; cbn in Hkd, Hin;
      [|by eapply committed_grow, (i_commit _ Hi q)].
    destruct (act_view (commits o t) _ _ _ (conj eq_refl eq_refl : commits o t (Act (BeginCommit o) t)) Hin) as [Hn|Hn]; [by eapply new_commit|].
    by eapply committed_grow, (i_commit _ Hi p).
  - intros q qr sid [[-> ->]|[_ Hq]]%call_lookup Hkd Hin; cbn in Hkd, Hin; [|by eapply quiesced_kept, (i_wait _ Hi q)].
    destruct (act_view waits _ _ _ (eq_refl : waits (Act WaitDrained true)) Hin) as [Hn|Hn]; [by eapply new_wait|]. by eapply quiesced_kept, (i_wait _ Hi p).
  - intros f Hf. destruct (answers_sent _ _ _ _ _ _ _ Ha _ Hf) as [Ho|[Hs [sid Hkd]]].
    + destruct (i_sent _ Hi _ Ho) as (kd & t & -> & Hcm & Hq). exists kd, t. split_and!; [done|by eapply committed_grow|].
      destruct Hq as [Hq|[? Hq]]; [by left|right]. split; [done|by apply quiesced_kept].
    + rewrite Hkd in Hc. destruct (calls_sends _ _ _ _ _ _ Hc Hs) as (kd & t & o & -> & Hcm & Hq). exists kd, t.
      pose proof (i_commit _ Hi _ _ _ _ _ Hp Hkd Hcm) as Hco. assert (tu_SidecarUID t = sid) as Et by apply Hco. rewrite Et.
      split_and!; [done|by eapply committed_grow|]. destruct Hq as [Hq|[? Hq]]; [by left|right]. split; [done|].
      by eapply quiesced_kept, (i_wait _ Hi p).
  - intros q qr c o f [[-> ->]|[_ Hq]]%call_lookup Hkd Hin; cbn in Hkd, Hin;
      [|eapply answers_sent_mono; [exact Ha|by eapply (i_recv _ Hi q)]].
    destruct (act_view (receives f) _ _ _ (eq_refl : receives f (Act RecvFrame (Some f))) Hin) as [Hn|Hn]; [by eapply new_receive|].
    eapply answers_sent_mono; [exact Ha|by eapply (i_recv _ Hi p)].
Qed.
End CallStep.

(** Steps that extend no trace. *)
Lemma inv_frame w w' : inv w -> sh_marker (w_sh w') = sh_marker (w_sh w) -> sh_sent (w_sh w') = sh_sent (w_sh w) ->
  gates_grow (w_sh w) (w_sh w') -> (forall sid g, sh_gate (w_sh w') !! sid = Some g -> gate_text sid g) ->
  (forall sid p o, sh_mutex (w_sh w') !! sid = Some (p, o) -> exists g, sh_gate (w_sh w') !! sid = Some g /\ begin_check (tk_adm g) o = Ok ()) ->
  (forall q qr, w_procs w' !! q = Some qr -> proc_ok qr /\ (pr_trace qr = [] \/ exists qr0, w_procs w !! q = Some qr0
     /\ pr_trace qr0 = pr_trace qr /\ pr_ns qr0 = pr_ns qr /\ pr_kind qr0 = pr_kind qr)) ->
  inv w'.
Proof.
  intros Hi Em Es Hg Hgt Hm Hp.
  assert (forall q qr (a : action sys), w_procs w' !! q = Some qr -> a ∈ pr_trace qr -> exists qr0, w_procs w !! q = Some qr0
     /\ pr_trace qr0 = pr_trace qr /\ pr_ns qr0 = pr_ns qr /\ pr_kind qr0 = pr_kind qr) as Hold.
  { intros q qr a Hq Ha. destruct (Hp _ _ Hq) as [_ [E|H]]; [|done]. rewrite E in Ha. by apply not_elem_of_nil in Ha. }
  assert (forall sid, quiesced (w_sh w) sid -> quiesced (w_sh w') sid) as Hqs.
  { intros sid. apply quiesced_grow; [done|]. intros g Hg'. by apply (i_gate _ Hi _ _ Hg'). }
  split.
  - intros q qr Hq. by apply (Hp q).
  - intros q qr m Hq Ho. destruct (Hold _ _ _ Hq (proj1 Ho)) as (qr0 & Hq0 & Et & En & _). rewrite Em, <- En.
    apply (i_present _ Hi q); [done|]. by rewrite Et.
  - intros q qr m q' qr' m' Hq Hq' Ho Ho' E. destruct (Hold _ _ _ Hq (proj1 Ho)) as (qr0 & Hq0 & Et & En & _).
    destruct (Hold _ _ _ Hq' (proj1 Ho')) as (qr0' & Hq0' & Et' & En' & _).
    apply (i_unique _ Hi _ _ _ _ _ _ Hq0 Hq0'); by rewrite ?Et, ?Et', ?En, ?En'.
  - done.
  - intros q qr sid o t Hq Hk Hin. destruct (Hold _ _ _ Hq Hin) as (qr0 & Hq0 & Et & _ & Ek).
    eapply committed_grow; [done|]. apply (i_commit _ Hi q qr0 sid o); by rewrite ?Ek, ?Et.
  - intros q qr sid Hq Hk Hin. destruct (Hold _ _ _ Hq Hin) as (qr0 & Hq0 & Et & _ & Ek).
    apply Hqs. apply (i_wait _ Hi q qr0); by rewrite ?Ek, ?Et.
  - intros f. rewrite Es. intros Hf. destruct (i_sent _ Hi _ Hf) as (kd & t & -> & Hc & Hq). exists kd, t.
    split_and!; [done|by eapply committed_grow|]. destruct Hq as [?|[? ?]]; [by left|right; auto].
  - done.
  - intros q qr c o f Hq Hk Hin. destruct (Hold _ _ _ Hq Hin) as (qr0 & Hq0 & Et & _ & Ek).
    rewrite Es. apply (i_recv _ Hi q qr0 c o); by rewrite ?Ek, ?Et.
Qed.
Lemma proc_frame w p pr' q qr : inv w -> <[p := pr']> (w_procs w) !! q = Some qr -> proc_ok pr' ->
  (pr_trace pr' = [] \/ exists qr0, w_procs w !! p = Some qr0
     /\ pr_trace qr0 = pr_trace pr' /\ pr_ns qr0 = pr_ns pr' /\ pr_kind qr0 = pr_kind pr') ->
  proc_ok qr /\ (pr_trace qr = [] \/ exists qr0, w_procs w !! q = Some qr0
     /\ pr_trace qr0 = pr_trace qr /\ pr_ns qr0 = pr_ns qr /\ pr_kind qr0 = pr_kind qr).
Proof.
  intros Hi [[<- <-]|[_ Hq]]%lookup_insert_Some Hok Ho; [done|]. split; [by apply (i_proc _ Hi q)|]. right. by exists qr.
Qed.
Lemma wp_unit {A} G (p : prog A) tr : wp G (fun _ _ => True) p tr -> wp G (fun _ _ => True) (let! _ := p in Ret ()) tr.
Proof. intros H. apply wp_bind. eapply wp_mono; [|exact H]. done. Qed.
Lemma NewAdmission_text c pod guard sid a : uuidPattern sid = true -> NewAdmission c pod guard sid = Ok a -> gate_text sid (mkGate a ∅).
Proof.
  intros Hs H. unfold NewAdmission, Config_owner, Config_Validate in H. res_inv. repeat match goal with H : (let '(_, _) := ?y in _) = Ok _ |- _ => destruct y end. res_inv. bool_split.
  split; [eapply (reachable_ok c pod sid), rtc_refl|]. split_and!; [done|by apply uuid_text_ascii..].
Qed.
Lemma guard_step_inv w w' : inv w -> step w w' -> inv w'.
Proof.
  intros Hi Hs. destruct Hs as [w p pr X e k x s' Hp _ Hk Ha|w p pr Hp|w p ns fuel getpid c pod guard argv Hp
    |w c pod guard sid a Hg Hu Ha|w p ns sid g ad Hp Hg|w sid g g' Hg Hm Hst _].
  - by eapply guard_call_inv.
  - apply (inv_frame w); [done|done|done|by apply gates_grow_same|apply (i_gate _ Hi)|apply (i_mutex _ Hi)|].
    intros q qr Hq. eapply proc_frame; [done|exact Hq| |right; by exists pr]. exact (i_proc _ Hi p pr Hp).
  - apply (inv_frame w); [done|done|done|by apply gates_grow_same|apply (i_gate _ Hi)|apply (i_mutex _ Hi)|].
    intros q qr Hq. eapply proc_frame; [done|exact Hq| |by left]. split; [apply wp_unit, guard_run_wp|done].
  - apply (inv_frame w); [done|done|done| | | |intros q qr Hq; split; [by apply (i_proc _ Hi q)|right; by exists qr]]; cbn.
    + intros sid' h Hh. exists h. split; [|by left]. cbn. rewrite lookup_insert_ne; [done|congruence].
    + intros sid' h [[<- <-]|[_ Hh]]%lookup_insert_Some; [by eapply NewAdmission_text|by apply (i_gate _ Hi)].
    + intros sid' q o Hq. destruct (i_mutex _ Hi _ _ _ Hq) as (h & Hh & Hb). exists h. split; [|done].
      rewrite lookup_insert_ne; [done|congruence].
  - apply (inv_frame w); [done|done|done|by apply gates_grow_same|apply (i_gate _ Hi)|apply (i_mutex _ Hi)|].
    intros q qr Hq. eapply proc_frame; [done|exact Hq| |by left]. split; [apply wp_unit, session_wp|done].
  - apply (inv_frame w); [done|done|done|by eapply gates_grow_insert| | |intros q qr Hq; split; [by apply (i_proc _ Hi q)|right; by exists qr]]; cbn.
    + intros sid' h [[<- <-]|[_ Hh]]%lookup_insert_Some; [eapply gate_step_text; [by apply (i_gate _ Hi)|done]|by apply (i_gate _ Hi)].
    + intros sid' q o Hq. destruct (i_mutex _ Hi _ _ _ Hq) as (h & Hh & Hb). exists h. split; [|done].
      rewrite lookup_insert_ne; [done|congruence].
Qed.
Lemma reached_inv w : reached w -> inv w.
Proof.
  intros H. apply (rtc_ind_r inv world0) with (3 := H); [|intros y z _ Hs Hy; by eapply guard_step_inv].
  split; cbn; try (intros *; by rewrite lookup_empty); try done. intros f Hf. by apply not_elem_of_nil in Hf.
Qed.

(** ** The theorems *)
Definition started (tr : trace) : Prop := exists argv x, Act (StartProcess argv) x ∈ tr.
Lemma started_owned w p pr c o t : inv w -> w_procs w !! p = Some pr -> pr_kind pr = IsGuard c o -> started (pr_trace pr) ->
  t ∈ cf_Targets c -> ~ removed (tg_Mount t) (pr_trace pr) -> owns (tg_Mount t) (pr_trace pr).
Proof.
  intros Hi Hp Hk (argv & x & Hin) Ht Hr. destruct (i_proc _ Hi _ _ Hp) as [_ Htr]. rewrite Hk in Htr.
  destruct (traced_in _ _ _ Htr Hin) as (pre & He & Ho). cbn in Ho. rewrite Forall_forall in Ho.
  destruct (Ho t Ht) as [Hc _]. split; [by eapply extends_elem|done].
Qed.

(** C21: A target volume has one recovery at a time, for ever.  In every reachable state of any number of guards and sidecars, crashes
    and failing system calls included: if two different guards have ever started a recovery command and their targets share a
    volume, then one of them has gone on to remove its marker there.  In particular a guard that crashed or lost
    certainty blocks its volumes for good. *)
Theorem guard_exclusive w p pr c o p' pr' c' o' t t' :
  reached w -> p <> p' ->
  w_procs w !! p = Some pr -> pr_kind pr = IsGuard c o -> t ∈ cf_Targets c -> started (pr_trace pr) ->
  w_procs w !! p' = Some pr' -> pr_kind pr' = IsGuard c' o' -> t' ∈ cf_Targets c' -> started (pr_trace pr') ->
  pr_ns pr (tg_Mount t) = pr_ns pr' (tg_Mount t') ->
  ~ (~ removed (tg_Mount t) (pr_trace pr) /\ ~ removed (tg_Mount t') (pr_trace pr')).
Proof.
  intros Hw Hne Hp Hk Ht Hs Hp' Hk' Ht' Hs' E [Hr Hr']. pose proof (reached_inv _ Hw) as Hi.
  pose proof (started_owned _ _ _ _ _ _ Hi Hp Hk Hs Ht Hr) as Ho. pose proof (started_owned _ _ _ _ _ _ Hi Hp' Hk' Hs' Ht' Hr') as Ho'.
  by destruct (i_unique _ Hi _ _ _ _ _ _ Hp Hp' Ho Ho' E).
Qed.

(** C22: A marker is removed only when everything has ended.  When a guard has called unlink on one of its markers, the command it
    started and every descendant were reaped before, and the gate of the sidecar that acknowledged the drain for exactly this
    guard is closed with no unfinished task, now and (see the admission theorem) for ever. *)
Theorem guard_release_drained w p pr c o m x :
  reached w -> w_procs w !! p = Some pr -> pr_kind pr = IsGuard c o -> Act (Unlinkat m) x ∈ pr_trace pr ->
  (exists argv pid st, Act (StartProcess argv) (Some pid) ∈ pr_trace pr /\ Act Select (Reaped (Child pid st)) ∈ pr_trace pr)
  /\ Act Select (Reaped ECHILD) ∈ pr_trace pr
  /\ exists t g, tu_Owner t = o /\ sh_gate (w_sh w) !! tu_SidecarUID t = Some g /\ ad_tuple (tk_adm g) = t
     /\ drained (tk_adm g) /\ forall i, tk_tasks g !! i <> Some false.
Proof.
  intros Hw Hp Hk Hin. pose proof (reached_inv _ Hw) as Hi. destruct (i_proc _ Hi _ _ Hp) as [_ Htr]. rewrite Hk in Htr.
  destruct (traced_in _ _ _ Htr Hin) as (pre & He & _ & Hend). destruct (all_ended_stable _ _ _ He Hend) as (H1 & H2 & f & t & H3 & H4 & H5).
  split_and!; [exact H1|exact H2|]. destruct (i_sent _ Hi _ (i_recv _ Hi _ _ _ _ _ Hp Hk H3)) as (kd & t' & -> & Hc & Hq).
  assert (is_text kd) as Hkd by (by destruct Hq as [->|[-> _]]). pose proof Hc as (_ & Htx & g' & Hg' & _ & Etg).
  pose proof (message_back _ _ _ Hkd Htx H4) as Em. injection Em as <- <-. destruct Hq as [Hq|[_ Hq]]; [by inversion Hq|].
  destruct Hq as (g & Hg & Hd). assert (g' = g) as -> by congruence. exists t, g.
  split_and!; [done|done|done|done|]. apply drained_no_task; [by apply (i_gate _ Hi _ _ Hg)|done].
Qed.

(** ** A concrete recovery, twice *)
Definition ex_argv : list string := ["/controller/manager"; "instance"; "restore"; "--pg-wal"; "/var/lib/postgresql/wal/pg_wal"].
Definition ex_ns (mount : string) : string := "volume:" +:+ mount.
Definition count (f : action sys -> bool) (tr : trace) : nat := length (List.filter f tr).
Definition is_select (a : action sys) : bool := match a with Act Select _ => true | _ => false end.
Definition is_recv (a : action sys) : bool := match a with Act RecvFrame _ => true | _ => false end.
(** One possible answer of every call: system calls succeed, the command exits, then no child is left. *)
Definition pick (o : Owner) (tr : trace) (p : nat) (k : kind) (ns : string -> string) (s : shared) {X} (e : sys X) : option (X * shared) :=
  match e in sys X return option (X * shared) with
  | Open _ _ | Mkdirat _ | Fsync _ _ | CloseMarker _ | Kill _ => Some (None, s)
  | Fstat _ _ => Some (Ok (mkStat true 1 true 0), s)
  | Flock m => match sh_lock s !! ns m with
               | None => Some (None, set_lock s (<[ns m := (p, m)]> (sh_lock s)))
               | Some h => Some (if bool_decide (h = (p, m)) then None else Some EWOULDBLOCK, s)
               end
  | CloseVolume m => Some ((), if bool_decide (sh_lock s !! ns m = Some (p, m)) then set_lock s (delete (ns m) (sh_lock s)) else s)
  | Fstatat m => Some (match sh_marker s !! ns m with Some _ => None | None => Some ENOENT end, s)
  | CreateMarker m => match sh_marker s !! ns m with
                      | Some _ => Some (Some EEXIST, s)
                      | None => Some (None, set_marker s (<[ns m := ""]> (sh_marker s)))
                      end
  | WriteMarker m data => match sh_marker s !! ns m with
                          | Some _ => Some (None, set_marker s (<[ns m := data]> (sh_marker s)))
                          | None => Some (None, s)
                          end
  | ReadMarker m => Some (match sh_marker s !! ns m with Some b => Ok b | None => Err EIO end, s)
  | Unlinkat m => match sh_marker s !! ns m with
                  | Some _ => Some (None, set_marker s (delete (ns m) (sh_marker s)))
                  | None => Some (Some ENOENT, s)
                  end
  | Connect | RunAfterDrain => Some (true, s)
  | TimerFired | CtxErr => Some (false, s)
  | StartProcess _ => Some (Some 42, s)
  | Select => Some (Reaped (if (count is_select tr =? 0)%nat then Child 42 (Exited 0) else ECHILD), s)
  | SendFrame f => Some (true, match k with IsHandler _ => set_sent s (f :: sh_sent s) | IsGuard _ _ => s end)
  | RecvFrame =>
      match k with
      | IsGuard _ _ => match sh_sent s with f :: _ => Some (Some f, s) | [] => None end
      | IsHandler sid => Some (Some (message_bytes (if (count is_recv tr =? 0)%nat then mkMessage "begin" (mkTuple o "")
                                                    else mkMessage "drain" (mkTuple o sid))), s)
      end
  | BeginCheck o => match k with
                    | IsHandler sid =>
                        match sh_gate s !! sid, sh_mutex s !! sid with
                        | Some g, None => let x := begin_check (tk_adm g) o in
                            Some (x, match x with Ok _ => set_mutex s (<[sid := (p, o)]> (sh_mutex s)) | Err _ => s end)
                        | _, _ => None
                        end
                    | _ => None
                    end
  | BeginCommit o => match k with
                     | IsHandler sid =>
                         match sh_gate s !! sid with
                         | Some g => if bool_decide (sh_mutex s !! sid = Some (p, o)) then
                             Some ((begin_commit (tk_adm g) o).1, set_mutex (set_gate s (<[sid := mkGate (begin_commit (tk_adm g) o).2 (tk_tasks g)]>
                               (sh_gate s))) (delete sid (sh_mutex s))) else None
                         | None => None
                         end
                     | _ => None
                     end
  | DrainValid t => match k with
                    | IsHandler sid => match sh_gate s !! sid, sh_mutex s !! sid with Some g, None => Some (drain_valid (tk_adm g) t, s) | _, _ => None end
                    | _ => None
                    end
  | CloseGate => match k with
                 | IsHandler sid => match sh_gate s !! sid, sh_mutex s !! sid with
                                    | Some g, None => Some ((), set_gate s (<[sid := mkGate (Close (tk_adm g)) (tk_tasks g)]> (sh_gate s)))
                                    | _, _ => None
                                    end
                 | _ => None
                 end
  | WaitDrained => match k with
                   | IsHandler sid => match sh_gate s !! sid with Some g => Some (negb (ad_drained (tk_adm g) =? 0)%nat, s) | None => None end
                   | _ => None
                   end
  | BeginAbort => None
  end.
Lemma pick_answers o tr p k ns s X (e : sys X) x s' : pick o tr p k ns s e = Some (x, s') -> answers p k ns s e x s'.
Proof.
  revert x s'. destruct e; cbn [pick answers]; intros y s2 H; try discriminate H;
    try (injection H as <- <-; first [reflexivity | done | split; [done|by right]]);
    try (destruct (sh_marker s !! ns mount) eqn:Em; injection H as <- <-; eauto; done).
  - destruct (sh_lock s !! ns mount) eqn:El; injection H as <- <-; [split; [by right|done]|by left].
  - destruct k as [c o'|sid]; injection H as <- <-; [done|by left].
  - destruct k as [c o'|sid]; [|by injection H as <- <-]. destruct (sh_sent s) as [|f l] eqn:E; [done|]. injection H as <- <-.
    split; [done|]. by left.
  - unfold on_gate. destruct k as [|sid]; [done|]. destruct (sh_gate s !! sid) as [g|] eqn:Eg; [|done].
    destruct (sh_mutex s !! sid) eqn:Em; [done|]. injection H as <- <-. by exists g.
  - destruct k as [|sid]; [done|]. destruct (sh_gate s !! sid) as [g|] eqn:Eg; [|done].
    destruct (bool_decide _) eqn:Eb; [|done]. apply bool_decide_eq_true in Eb. injection H as <- <-. by exists g.
  - unfold on_gate. destruct k as [|sid]; [done|]. destruct (sh_gate s !! sid) as [g|] eqn:Eg; [|done].
    destruct (sh_mutex s !! sid) eqn:Em; [done|]. injection H as <- <-. by exists g.
  - unfold on_gate. destruct k as [|sid]; [done|]. destruct (sh_gate s !! sid) as [g|] eqn:Eg; [|done].
    destruct (sh_mutex s !! sid) eqn:Em; [done|]. injection H as <-. by exists g.
  - destruct k as [|sid]; [done|]. destruct (sh_gate s !! sid) as [g|] eqn:Eg; [|done]. injection H as <- <-. exists g.
    split_and!; [done| |done]. intros E. by apply negb_true_iff, Nat.eqb_neq in E.
Qed.
(** At most [n] calls of process [p]. *)
Fixpoint drive (o : Owner) (n : nat) (p : nat) (w : world) : world :=
  match n with
  | O => w
  | S n =>
      match w_procs w !! p with
      | Some (mkProc k ns true (@Vis _ _ X e f) tr) =>
          match pick o tr p k ns (w_sh w) e with
          | Some (x, s') => drive o n p (mkWorld s' (<[p := mkProc k ns true (f x) (Act e x :: tr)]> (w_procs w)))
          | None => w
          end
      | _ => w
      end
  end.
Lemma drive_reached o n p w : reached w -> reached (drive o n p w).
Proof.
  revert w. induction n as [|n IH]; intros w Hw; [done|]. cbn. destruct (w_procs w !! p) as [[k ns [] [|X e f] tr]|] eqn:Hp; try done.
  destruct (pick o tr p k ns (w_sh w) e) as [[x s']|] eqn:E; [|done]. apply IH. eapply rtc_r; [exact Hw|].
  exact (step_call w p _ X e f x s' Hp eq_refl eq_refl (pick_answers _ _ _ _ _ _ _ _ _ _ E)).
Qed.
Definition owner_of (guard : string) : Owner := mkOwner (cf_ClusterUID ex_config) (cf_OperationUID ex_config) ex_pod guard.
Definition add_proc (p : nat) (k : kind) (q : prog ()) (w : world) : world := mkWorld (w_sh w) (<[p := mkProc k ex_ns true q []]> (w_procs w)).
Definition add_sidecar (sid : string) (w : world) : world :=
  mkWorld (set_gate (w_sh w) (<[sid := mkGate (newAdmission ex_config ex_pod sid) ∅]> (sh_gate (w_sh w)))) (w_procs w).
(** Guard [p] with a new sidecar and the handler [h] of its stream. *)
Definition begin_recovery (p h : nat) (sid guard : string) (w : world) : world :=
  let o := owner_of guard in
  let w := drive o 30 p (add_proc p (IsGuard ex_config o) (let! _ := Run 10 1 ex_config ex_pod guard ex_argv in Ret ()) (add_sidecar sid w)) in
  let w := drive o 28 h (add_proc h (IsHandler sid) (let! _ := session (ad_config (newAdmission ex_config ex_pod sid)) false in Ret ()) w) in
  drive o 9 p w.
Definition end_recovery (p h : nat) (guard : string) (w : world) : world :=
  let o := owner_of guard in drive o 100 p (drive o 100 h w).
Lemma begin_recovery_reached p h sid guard w : reached w -> sh_gate (w_sh w) !! sid = None -> uuidPattern sid = true ->
  w_procs w !! p = None -> w_procs (drive (owner_of guard) 30 p (add_proc p (IsGuard ex_config (owner_of guard))
     (let! _ := Run 10 1 ex_config ex_pod guard ex_argv in Ret ()) (add_sidecar sid w))) !! h = None ->
  sh_gate (w_sh (drive (owner_of guard) 30 p (add_proc p (IsGuard ex_config (owner_of guard))
     (let! _ := Run 10 1 ex_config ex_pod guard ex_argv in Ret ()) (add_sidecar sid w)))) !! sid = Some (mkGate (newAdmission ex_config ex_pod sid) ∅) ->
  reached (begin_recovery p h sid guard w).
Proof.
  intros Hw Hs Hu Hp Hh Hg. unfold begin_recovery. cbv zeta. apply drive_reached, drive_reached.
  eapply rtc_r; [|exact (step_handler _ h ex_ns sid _ false Hh Hg)]. apply drive_reached.
  eapply rtc_r; [eapply rtc_r; [exact Hw|exact (step_sidecar w ex_config ex_pod ex_guard sid _ Hs Hu eq_refl)]|].
  exact (step_guard (add_sidecar sid w) p ex_ns 10 1 ex_config ex_pod guard ex_argv Hp).
Qed.
Definition ex_guard2 : string := "88888888-8888-4888-8888-888888888888".
Definition ex_process2 : string := "99999999-9999-4999-8999-999999999999".
Definition ex_first : world := end_recovery 1 2 ex_guard (begin_recovery 1 2 ex_process ex_guard world0).
Definition ex_second : world := begin_recovery 3 4 ex_process2 ex_guard2 ex_first.
Lemma ex_first_reached : reached ex_first.
Proof.
  apply drive_reached, drive_reached, begin_recovery_reached; [apply rtc_refl|..]; vm_compute; reflexivity.
Qed.
Lemma ex_second_reached : reached ex_second.
Proof. apply begin_recovery_reached; [apply ex_first_reached|..]; vm_compute; reflexivity. Qed.
Definition get_proc (p : nat) (w : world) : proc := default (mkProc (IsHandler "") ex_ns false (Ret ()) []) (w_procs w !! p).
Definition has_proc (p : nat) (w : world) : bool := match w_procs w !! p with Some _ => true | None => false end.
Lemma get_proc_lookup p w : has_proc p w = true -> w_procs w !! p = Some (get_proc p w).
Proof. unfold has_proc, get_proc. by destruct (w_procs w !! p). Qed.
Definition is_start (a : action sys) : bool := match a with @Act _ X e x => match e with StartProcess _ => true | _ => false end end.
Definition is_unlink (m : string) (a : action sys) : bool := match a with @Act _ X e x => match e with Unlinkat m' => m' ==? m | _ => false end end.
Lemma started_check tr : existsb is_start tr = true -> started tr.
Proof.
  intros H. apply existsb_exists in H as ([X e x] & Hin & He). apply list_elem_of_In in Hin. destruct e; try done. by eexists _, _.
Qed.
Lemma removed_check m tr : existsb (is_unlink m) tr = true -> removed m tr.
Proof.
  intros H. apply existsb_exists in H as ([X e x] & Hin & He). apply list_elem_of_In in Hin. destruct e; try done.
  apply bool_decide_eq_true in He. subst. by eexists.
Qed.
Definition ex_target : Target := mkTarget "33333333-3333-4333-8333-333333333333" data_mount.
(** The second recovery of the same volumes starts after the first has removed its markers. *)
Lemma guard_exclusive_witness : started (pr_trace (get_proc 1 ex_second)) /\ started (pr_trace (get_proc 3 ex_second))
  /\ ~ (~ removed data_mount (pr_trace (get_proc 1 ex_second)) /\ ~ removed data_mount (pr_trace (get_proc 3 ex_second))).
Proof.
  assert (started (pr_trace (get_proc 1 ex_second))) as H1 by (apply started_check; vm_compute; reflexivity).
  assert (started (pr_trace (get_proc 3 ex_second))) as H3 by (apply started_check; vm_compute; reflexivity).
  split; [exact H1|]. split; [exact H3|].
  apply (guard_exclusive ex_second 1 (get_proc 1 ex_second) ex_config ex_owner 3 (get_proc 3 ex_second) ex_config (owner_of ex_guard2) ex_target ex_target);
    [exact ex_second_reached|lia|apply get_proc_lookup; vm_compute; reflexivity|vm_compute; reflexivity|right; left|exact H1
    |apply get_proc_lookup; vm_compute; reflexivity|vm_compute; reflexivity|right; left|exact H3|vm_compute; reflexivity].
Defined.
Lemma guard_release_drained_witness : exists t g, tu_Owner t = ex_owner /\ sh_gate (w_sh ex_first) !! tu_SidecarUID t = Some g
  /\ ad_tuple (tk_adm g) = t /\ drained (tk_adm g) /\ forall i, tk_tasks g !! i <> Some false.
Proof.
  destruct (removed_check data_mount (pr_trace (get_proc 1 ex_first)) ltac:(vm_compute; reflexivity)) as [x Hx].
  apply (guard_release_drained ex_first 1 (get_proc 1 ex_first) ex_config ex_owner data_mount x);
    [exact ex_first_reached|apply get_proc_lookup; vm_compute; reflexivity|vm_compute; reflexivity|exact Hx].
Defined.
