(* ===== verification/Md5.v ===== *)
(** * MD5 and base64 (crypto/md5, encoding/base64)

    The transport checksum of an upload, [base64.StdEncoding.EncodeToString(md5.Sum(body))].  It is not used as an
    identity of content. *)

From S2P Require Import Prelude GoStrings Sha256.

(** [floor(2^32 * abs(sin(i + 1)))] *)
Definition md5_k : list Z := [
  3614090360; 3905402710; 606105819; 3250441966; 4118548399; 1200080426; 2821735955; 4249261313;
  1770035416; 2336552879; 4294925233; 2304563134; 1804603682; 4254626195; 2792965006; 1236535329;
  4129170786; 3225465664; 643717713; 3921069994; 3593408605; 38016083; 3634488961; 3889429448;
  568446438; 3275163606; 4107603335; 1163531501; 2850285829; 4243563512; 1735328473; 2368359562;
  4294588738; 2272392833; 1839030562; 4259657740; 2763975236; 1272893353; 4139469664; 3200236656;
  681279174; 3936430074; 3572445317; 76029189; 3654602809; 3873151461; 530742520; 3299628645;
  4096336452; 1126891415; 2878612391; 4237533241; 1700485571; 2399980690; 4293915773; 2240044497;
  1873313359; 4264355552; 2734768916; 1309151649; 4149444226; 3174756917; 718787259; 3951481745].
Definition md5_s (i : Z) : Z :=
  nth (Z.to_nat (i mod 4)) (nth (Z.to_nat (i / 16)) [[7; 12; 17; 22]; [5; 9; 14; 20]; [4; 11; 16; 23]; [6; 10; 15; 21]] []) 0.
Definition rotl (x n : Z) : Z := w32 (Z.lor (Z.shiftl x n) (Z.shiftr x (32 - n))).

Definition le_bytes (n : nat) (z : Z) : list Z := rev (be_bytes n z).
Definition md5_padded (s : string) : list Z :=
  let b := bytes_of s in
  let n := Z.of_nat (length b) in
  b ++ [128] ++ repeat 0 (Z.to_nat ((55 - n) mod 64)) ++ le_bytes 8 (8 * n).
Fixpoint le_words (l : list Z) : list Z :=
  match l with
  | a :: b :: c :: d :: l => (a + Z.shiftl b 8 + Z.shiftl c 16 + Z.shiftl d 24) :: le_words l
  | _ => []
  end.
Definition md5_step (m : list Z) (st : Z * Z * Z * Z) (i : Z) : Z * Z * Z * Z :=
  let '(a, b, c, d) := st in
  let '(f, g) :=
    if i <? 16 then (Z.lor (Z.land b c) (Z.land (lnot32 b) d), i)
    else if i <? 32 then (Z.lor (Z.land d b) (Z.land (lnot32 d) c), (5 * i + 1) mod 16)
    else if i <? 48 then (Z.lxor b (Z.lxor c d), (3 * i + 5) mod 16)
    else (Z.lxor c (Z.lor b (lnot32 d)), (7 * i) mod 16) in
  let f := w32 (f + a + nth (Z.to_nat i) md5_k 0 + nth (Z.to_nat g) m 0) in
  (d, w32 (b + rotl f (md5_s i)), b, c).
Definition md5_block (st : Z * Z * Z * Z) (m : list Z) : Z * Z * Z * Z :=
  let '(a, b, c, d) := st in
  let '(a', b', c', d') := foldl (md5_step m) st (seqZ 0 64) in
  (w32 (a + a'), w32 (b + b'), w32 (c + c'), w32 (d + d')).
Fixpoint md5_blocks (fuel : nat) (st : Z * Z * Z * Z) (ws : list Z) : Z * Z * Z * Z :=
  match fuel, ws with
  | S f, _ :: _ => md5_blocks f (md5_block st (take 16 ws)) (drop 16 ws)
  | _, _ => st
  end.
Definition md5_sum (s : string) : list Z :=
  let ws := le_words (md5_padded s) in
  let '(a, b, c, d) := md5_blocks (length ws) (0x67452301, 0xefcdab89, 0x98badcfe, 0x10325476) ws in
  le_bytes 4 a ++ le_bytes 4 b ++ le_bytes 4 c ++ le_bytes 4 d.

Definition base64_alphabet : string := "ABCDEFGHIJKLMNOPQRSTUVWXYZabcdefghijklmnopqrstuvwxyz0123456789+/".
Definition base64_char (z : Z) : ascii := default "="%char (String.get (Z.to_nat z) base64_alphabet).
Fixpoint base64 (l : list Z) : string :=
  match l with
  | [] => ""
  | [a] => String (base64_char (a / 4)) (String (base64_char (a mod 4 * 16)) "==")
  | [a; b] => String (base64_char (a / 4)) (String (base64_char (a mod 4 * 16 + b / 16)) (String (base64_char (b mod 16 * 4)) "="))
  | a :: b :: c :: l =>
      String (base64_char (a / 4)) (String (base64_char (a mod 4 * 16 + b / 16))
        (String (base64_char (b mod 16 * 4 + c / 64)) (String (base64_char (c mod 64)) (base64 l))))
  end.
Definition content_md5 (s : string) : string := base64 (md5_sum s).

Example md5_empty : hex (md5_sum "") = "d41d8cd98f00b204e9800998ecf8427e".
Proof. vm_compute. reflexivity. Qed.
Example md5_two_blocks : hex (md5_sum "12345678901234567890123456789012345678901234567890123456789012345678901234567890")
  = "57edf4a22be3c955ac49da2e2107b67a".
Proof. vm_compute. reflexivity. Qed.
Example content_md5_abc : content_md5 "abc" = "kAFQmDzST7DWlj99KOF/cg==".
Proof. vm_compute. reflexivity. Qed.
