(* ===== verification/S3Keys.v ===== *)
(** * Names and values at the S3 boundary (internal/s3store/store.go, objects.go, list.go, transport.go)

    Which keys, entity tags, digests and metadata the client accepts; the map between the keys of its callers
    and the keys of the bucket; the options of a conditional write. *)

From S2P Require Import Prelude GoStrings GoTime Sha256 Errors Store.

Definition PartSize : Z := 64 * 2 ^ 20.
Definition MaxArtifactSize : Z := 512 * 2 ^ 30.
Definition MaxSingleSize : Z := 2 ^ 30 + 2 ^ 20.
Definition MaxMetadataSize : Z := 4 * 2 ^ 20.
Definition MaxInventory : Z := 1000000.

(** The fields of [*Store] that do not come from the SDK; the slots and timeouts are in the calls. *)
Record S3Store := mkS3Store { s_bucket : string; s_prefix : string; s_workers : nat }.

(** A rune outside 32..126 is a byte outside 32..126 or starts with a byte above 126. *)
Definition plain_char (c : ascii) : bool := (32 <=? byte_val c) && (byte_val c <=? 126).
Definition plain (v : string) : bool := all_chars plain_char v.
Definition validPart (part : string) : bool := (part !=? "") && (part !=? ".") && (part !=? "..").
Definition validPath (v : string) : bool :=
  if (v ==? "") || negb (plain v) || ContainsAny v ["\"; "%"; "?"; "#"]%char then false
  else forallb validPart (Split "/" v).

Definition key (s : S3Store) (k : string) : res string :=
  if (1024 <? len k) || negb (validPath k) then Err (failure Invalid) else
  let k := if s_prefix s !=? "" then s_prefix s +:+ "/" +:+ k else k in
  if 1024 <? len k then Err (failure Invalid) else Ok k.
Definition listPrefix (s : S3Store) (p : string) : res string :=
  if p ==? "" then Ok (if s_prefix s ==? "" then "" else s_prefix s +:+ "/") else
  let trail := HasSuffix p "/" in
  let? k := key s (TrimSuffix p "/") in
  Ok (if trail then k +:+ "/" else k).
Definition relative (s : S3Store) (k : string) : string :=
  if s_prefix s !=? "" then TrimPrefix k (s_prefix s +:+ "/") else k.

Definition hex_char (c : ascii) : bool := is_hex_lower c || is_hex_upper c.
Definition lower_char (c : ascii) : ascii :=
  if in_range "A" "Z" c then ascii_of_N (N_of_ascii c + 32) else c.
(** [strings.ToLower] on ASCII: hexadecimal digits and header names. *)
Fixpoint ToLower (s : string) : string :=
  match s with EmptyString => EmptyString | String c s => String (lower_char c) (ToLower s) end.
(** [hex.DecodeString] of 64 characters fails only on a character that is no hexadecimal digit. *)
Definition validIntegrity (v : Integrity) (max : Z) : bool :=
  if len (ig_SHA256 v) !=? 64 then false
  else (0 <=? ig_Size v) && (ig_Size v <=? max) && all_chars hex_char (ig_SHA256 v) && (ig_SHA256 v ==? ToLower (ig_SHA256 v)).
Definition quote : ascii := ascii_of_nat 34.
Definition validETag (s : string) : bool :=
  (s !=? "") && (len s <=? 256) && plain s && negb (ContainsAny s [quote; ascii_of_nat 13; ascii_of_nat 10]).
Definition validID (s : string) : bool := (s !=? "") && (len s <=? 2048) && plain s.

(** What the SDK says of an object; [oi_UserMetadata] in the order the map is ranged over. *)
Record ObjectInfo := mkObjectInfo {
  oi_Key : string; oi_ETag : string; oi_Size : Z; oi_LastModified : Time; oi_VersionID : string;
  oi_UserMetadata : list (string * string) }.
Definition info (v : ObjectInfo) : Info :=
  mkInfo (oi_Key v) (oi_ETag v) (oi_Size v) (oi_LastModified v)
    (foldl (fun m kv => <[ToLower kv.1 := kv.2]> m) ∅ (oi_UserMetadata v)).
Definition with_key (v : ObjectInfo) (k : string) : ObjectInfo :=
  mkObjectInfo k (oi_ETag v) (oi_Size v) (oi_LastModified v) (oi_VersionID v) (oi_UserMetadata v).

(** ** Options of a write *)
(** The source's [Condition]: two fields, of which exactly one is to be set. *)
Record Cond := mkCond { c_Create : bool; c_Match : string }.
Definition cond_of (c : Condition) : Cond :=
  match c with Create => mkCond true "" | Match e => mkCond false e end.

Record PutObjectOptions := mkOptions {
  po_UserMetadata : gmap string string; po_ContentType : string; po_DisableContentSha256 : bool;
  po_DisableMultipart : bool; po_SendContentMd5 : bool;
  (* the headers If-Match and If-None-Match *)
  po_MatchETag : option string; po_MatchETagExcept : option string }.

(** The loop of [artifactOptions] over the metadata in the order they are ranged over. *)
Definition check_pair (st : Z * gmap string string) (kv : string * string) : res (Z * gmap string string) :=
  let '(size, copy) := st in
  let '(k, v) := kv in
  let size := size + (len k + len v) in
  if 8192 <? size then Err (failure Limit) else
  if negb (HasPrefix k "cnpg-") || negb (plain k) || negb (plain v) || ContainsAny k [":"; " "; "009"]%char
  then Err (failure Invalid) else Ok (size, <[k := v]> copy).
Definition check_metadata (l : list (string * string)) : res (Z * gmap string string) := forM l (0, ∅) check_pair.
Definition artifactOptions (metadata : list (string * string)) : res PutObjectOptions :=
  if 128 <? Z.of_nat (length metadata) then Err (failure Limit) else
  let? (_, copy) := check_metadata metadata in
  let contentType := if copy !! "cnpg-format" ==? Some "wal-retired-v1" then "application/json" else "application/octet-stream" in
  Ok (mkOptions copy contentType true false false None None).
Definition options (c : Cond) (metadata : list (string * string)) : res PutObjectOptions :=
  if (c_Create c ==? (c_Match c !=? "")) || ((c_Match c !=? "") && negb (validETag (c_Match c))) then Err (failure Invalid) else
  let? o := artifactOptions metadata in
  Ok (mkOptions (po_UserMetadata o) (po_ContentType o) (po_DisableContentSha256 o) true true
       (if c_Create c then None else Some (c_Match c)) (if c_Create c then Some "*" else None)).

(** [strings.Trim] of double quotes *)
Fixpoint trim_quotes_left (s : string) : string :=
  match s with String c s' => if c ==? quote then trim_quotes_left s' else s | EmptyString => EmptyString end.
Fixpoint trim_quotes_right (s : string) : string :=
  match s with
  | EmptyString => EmptyString
  | String c s' => let t := trim_quotes_right s' in if (t ==? "") && (c ==? quote) then EmptyString else String c t
  end.
Definition trim_quotes (s : string) : string := trim_quotes_right (trim_quotes_left s).

(** ** Keys stay inside the repository's prefix and come back unchanged *)
Lemma key_form s k b : key s k = Ok b ->
  validPath k = true /\ len k <= 1024 /\ len b <= 1024 /\ b = (if s_prefix s !=? "" then s_prefix s +:+ "/" +:+ k else k).
Proof.
  unfold key. destruct (1024 <? len k) eqn:E1; [done|]. destruct (validPath k); [|done].
  change (false || negb true) with false. cbv beta iota zeta. set (x := if s_prefix s !=? "" then _ else _).
  destruct (1024 <? len x) eqn:E2; [done|]. intros [= <-]. apply Z.ltb_ge in E1, E2. done.
Qed.
Lemma relative_key s k b : key s k = Ok b -> relative s b = k.
Proof.
  intros (_ & _ & _ & ->)%key_form. unfold relative. destruct (s_prefix s !=? "") eqn:E; [|done].
  rewrite <- append_assoc. apply HasPrefix_append.
Qed.
(** A bucket key under the prefix whose relative form is accepted is the key of that form. *)
Lemma key_relative s b p k : listPrefix s p = Ok k -> HasPrefix b k = true -> is_ok (key s (relative s b)) = true ->
  key s (relative s b) = Ok b.
Proof.
  intros Hp Hb Hk. destruct (key s (relative s b)) as [b'|] eqn:E; [|done]. f_equal.
  pose proof (key_form _ _ _ E) as (_ & _ & _ & ->). unfold relative in *. destruct (s_prefix s !=? "") eqn:Es; [|done].
  rewrite <- append_assoc. symmetry. apply HasPrefix_inv. apply HasPrefix_inv in Hb.
  assert (exists t, k = s_prefix s +:+ "/" +:+ t) as [t ->].
  { unfold listPrefix in Hp. destruct (p ==? "") eqn:Ep.
    - destruct (s_prefix s ==? "") eqn:E0; cbn in Es; [done|]. injection Hp as <-. exists "". by rewrite append_nil_r.
    - destruct (key s (TrimSuffix p "/")) as [k'|] eqn:Ek; [|done]. cbn in Hp. injection Hp as <-.
      apply key_form in Ek as (_ & _ & _ & ->). rewrite Es.
      destruct (HasSuffix p "/"); [|by eexists]. rewrite !append_assoc. by eexists. }
  rewrite Hb, !append_assoc. rewrite <- append_assoc. apply HasPrefix_append.
Qed.
(** Different keys of the callers are different keys of the bucket. *)
Lemma key_inj s k1 k2 b : key s k1 = Ok b -> key s k2 = Ok b -> k1 = k2.
Proof. intros H1%relative_key H2%relative_key. congruence. Qed.

Lemma validIntegrity_spec v max : validIntegrity v max = true -> 0 <= ig_Size v <= max /\ len (ig_SHA256 v) = 64.
Proof.
  unfold validIntegrity. case_bool_decide as E; [|done]. cbn. intros H. apply andb_true_iff in H as [H _].
  apply andb_true_iff in H as [H _]. apply andb_true_iff in H as [?%Z.leb_le ?%Z.leb_le]. done.
Qed.

(** A write is conditional on exactly one of absence and a given entity tag. *)
Lemma options_conditional c metadata o : options c metadata = Ok o ->
  po_DisableMultipart o = true /\ po_SendContentMd5 o = true /\
  ((c_Create c = true /\ po_MatchETagExcept o = Some "*" /\ po_MatchETag o = None) \/
   (c_Create c = false /\ validETag (c_Match c) = true /\ po_MatchETag o = Some (c_Match c) /\ po_MatchETagExcept o = None)).
Proof.
  unfold options. destruct ((c_Create c ==? _) || _) eqn:E; [done|]. destruct (artifactOptions metadata) as [o'|]; [|done].
  cbn. intros [= <-]. cbn. split; [done|]. split; [done|]. apply orb_false_iff in E as [E1 E2].
  destruct (c_Create c); cbn in *; [by left|]. right. split; [done|]. destruct (c_Match c !=? ""); cbn in *; [|done].
  split; [|done]. by destruct (validETag (c_Match c)).
Qed.

(** Every refusal above is one of the client's own errors. *)
Definition settled (e : error) : Prop := exists k, e = S3 k false.
Lemma settled_failure k : settled (failure k).
Proof. by exists k. Qed.
Lemma key_settled s k e : key s k = Err e -> settled e.
Proof. unfold key. intros H. repeat case_match; simplify_eq; apply settled_failure. Qed.
Lemma listPrefix_settled s p e : listPrefix s p = Err e -> settled e.
Proof.
  unfold listPrefix. case_match; [done|]. destruct (key s _) eqn:E; [done|]. intros [= <-]. by eapply key_settled.
Qed.
Lemma check_metadata_settled l acc e :
  forM l acc check_pair = Err e -> settled e.
Proof.
  revert acc. induction l as [|[k v] l IH]; intros [size copy]; cbn [forM check_pair]; [done|].
  destruct (8192 <? _); cbn; [intros [= <-]; apply settled_failure|].
  destruct (negb _ || _ || _ || _); cbn; [intros [= <-]; apply settled_failure|apply IH].
Qed.
Lemma artifactOptions_settled m e : artifactOptions m = Err e -> settled e.
Proof.
  unfold artifactOptions. case_match; [intros [= <-]; apply settled_failure|].
  unfold check_metadata. destruct (forM m _ _) as [[]|] eqn:E; [done|]. intros [= <-]. by eapply check_metadata_settled.
Qed.
Lemma options_settled c m e : options c m = Err e -> settled e.
Proof.
  unfold options. case_match; [intros [= <-]; apply settled_failure|].
  destruct (artifactOptions m) eqn:E; [done|]. intros [= <-]. by eapply artifactOptions_settled.
Qed.
