(* ===== verification/S3Config.v ===== *)
(** * Opening a store (internal/s3store/store.go, New)

    The checks and defaults of a complete operation snapshot.  net/url, the SDK's endpoint predicates, encoding/pem and
    crypto/x509 are parameters. *)

From S2P Require Import Prelude GoStrings GoTime Errors Store S3Keys.

Record Config := mkConfig {
  cf_Endpoint : string; cf_Bucket : string; cf_Prefix : string; cf_Signature : string; cf_Addressing : string; cf_Region : string;
  cf_AccessKey : string; cf_SecretKey : string; cf_SessionToken : string; cf_CA : string;
  cf_ConnectTimeout : Z; cf_MetadataTimeout : Z; cf_DataRequestTimeout : Z; cf_OperationTimeout : Z; cf_WALUploadTimeout : Z;
  cf_ArtifactUploads : Z; cf_PartWorkers : Z; cf_WALUploads : Z }.
Record URL := mkURL {
  u_Scheme : string; u_Host : string; u_User : bool; u_RawQuery : string; u_ForceQuery : bool; u_Fragment : string;
  u_Path : string; u_RawPath : string }.
Record Block := mkBlock { bl_Type : string; bl_Headers : Z; bl_Bytes : string }.
(** What [New] hands to the SDK, the transport and the [Store]. *)
Record Opened := mkOpened {
  on_store : S3Store; on_host : string; on_connect : Z; on_metadata : Z; on_data : Z; on_operation : Z; on_wal : Z;
  on_artifacts : Z; on_walslots : Z }.

Section New.
Context (Parse : string -> option URL) (IsS3ExpressBucket : string -> bool)
  (IsAmazonExpressRegional IsAmazonExpressZonal IsAmazonOutposts IsAmazonEndpoint : URL -> bool)
  (CheckValidBucketNameStrict : string -> bool) (SystemCertPool : bool)
  (Decode : string -> option Block * string) (ParseCertificate : string -> option bool) (NewCore : string -> bool).

Definition endpoint_ok (c : Config) (u : URL) : bool :=
  (u_Scheme u ==? "https") && (u_Host u !=? "") && negb (u_User u) && (u_RawQuery u ==? "") && negb (u_ForceQuery u) &&
  (u_Fragment u ==? "") && ((u_Path u ==? "") || (u_Path u ==? "/")) && (u_RawPath u ==? "") && negb (HasSuffix (cf_Endpoint c) "#").
Definition credentials_ok (c : Config) : bool :=
  negb (((cf_Signature c !=? "v2") && (cf_Signature c !=? "v4")) || (cf_Addressing c !=? "path") || (cf_Region c ==? "") ||
    negb (plain (cf_Region c)) || (cf_AccessKey c ==? "") || (cf_SecretKey c ==? "") || negb (plain (cf_AccessKey c)) ||
    negb (plain (cf_SecretKey c)) || negb (plain (cf_SessionToken c)) || ((cf_Signature c ==? "v2") && (cf_SessionToken c !=? ""))).
Definition service_ok (c : Config) (u : URL) : bool :=
  negb (IsS3ExpressBucket (cf_Bucket c) || IsAmazonExpressRegional u || IsAmazonExpressZonal u || IsAmazonOutposts u ||
    ((cf_Signature c ==? "v2") && IsAmazonEndpoint u)).
Definition names_ok (c : Config) : bool :=
  CheckValidBucketNameStrict (cf_Bucket c) && negb (128 <? len (cf_Prefix c)) && ((cf_Prefix c ==? "") || validPath (cf_Prefix c)).

(** One limit: zero selects the default; the value must be within the bounds. *)
Definition limit (v def lo hi : Z) : res Z :=
  let v := if v =? 0 then def else v in
  if (v <? lo) || (hi <? v) then Err (failure Invalid) else Ok v.
(** [for len(bytes.TrimSpace(bundle)) > 0]: every block is a plain CA certificate. *)
Fixpoint bundle_ok (fuel : nat) (bundle : string) : bool :=
  if TrimSpace bundle ==? "" then true else
  match fuel with
  | O => false
  | S fuel =>
      match Decode bundle with
      | (Some bl, rest) =>
          (bl_Type bl ==? "CERTIFICATE") && (bl_Headers bl =? 0) && HasPrefix (TrimSpace bundle) "-----BEGIN CERTIFICATE-----" &&
          bool_decide (ParseCertificate (bl_Bytes bl) = Some true) && bundle_ok fuel rest
      | (None, _) => false
      end
  end.

Definition minute : Z := 60 * second.
Definition New (c : Config) : res Opened :=
  match Parse (cf_Endpoint c) with
  | None => Err (failure Invalid)
  | Some u =>
  if negb (endpoint_ok c u) then Err (failure Invalid) else
  if negb (credentials_ok c) then Err (failure Invalid) else
  if negb (service_ok c u) then Err (failure Invalid) else
  if negb (names_ok c) then Err (failure Invalid) else
  let? connect := limit (cf_ConnectTimeout c) (10 * second) second minute in
  let? metadata := limit (cf_MetadataTimeout c) (30 * second) second (120 * second) in
  let? data := limit (cf_DataRequestTimeout c) (15 * minute) (10 * second) hour_ns in
  let? operation := limit (cf_OperationTimeout c) (24 * hour_ns) minute (7 * 24 * hour_ns) in
  let? wal := limit (cf_WALUploadTimeout c) (120 * second) (10 * second) (15 * minute) in
  let? artifacts := limit (cf_ArtifactUploads c) 2 1 2 in
  let? workers := limit (cf_PartWorkers c) 2 1 2 in
  let? walslots := limit (cf_WALUploads c) 2 1 2 in
  if negb SystemCertPool then Err (failure TLS) else
  if 2 ^ 20 <? len (cf_CA c) then Err (failure Invalid) else
  if negb (bundle_ok (String.length (cf_CA c)) (cf_CA c)) then Err (failure Invalid) else
  if negb (NewCore (u_Host u)) then Err (failure Invalid) else
  Ok (mkOpened (mkS3Store (cf_Bucket c) (cf_Prefix c) (Z.to_nat workers)) (u_Host u) connect metadata data operation wal artifacts walslots)
  end.

Lemma limit_bounds v def lo hi w : limit v def lo hi = Ok w -> lo <= w <= hi.
Proof. unfold limit. case_match eqn:E; [done|]. intros [= <-]. apply orb_false_iff in E as [?%Z.ltb_ge ?%Z.ltb_ge]. lia. Qed.

(** A decoder that consumes input never exhausts the bound on the number of certificates: a larger bound decides the
    same. *)
Lemma bundle_fuel_enough n m bundle :
  (forall b bl rest, Decode b = (Some bl, rest) -> (String.length rest < String.length b)%nat) ->
  (String.length bundle <= n)%nat -> (String.length bundle <= m)%nat -> bundle_ok n bundle = bundle_ok m bundle.
Proof.
  intros Hd. revert m bundle. induction n as [|n IH]; intros m bundle Hn Hm; cbn [bundle_ok].
  - destruct bundle; [|cbn in Hn; lia]. by destruct m.
  - destruct m as [|m]; cbn [bundle_ok].
    + destruct bundle; [done|cbn in Hm; lia].
    + destruct (TrimSpace bundle ==? ""); [done|]. destruct (Decode bundle) as [[bl|] rest] eqn:E; [|done].
      specialize (Hd _ _ _ E). f_equal. apply IH; lia.
Qed.

(** A store that opens has a valid prefix of at most 128 bytes, one or two part workers, and every
    timeout within its documented bounds, also where the configuration left it zero. *)
Theorem new_bounded c o :
  New c = Ok o ->
  (s_prefix (on_store o) = "" \/ validPath (s_prefix (on_store o)) = true) /\ len (s_prefix (on_store o)) <= 128 /\
  (1 <= s_workers (on_store o) <= 2)%nat /\ 1 <= on_artifacts o <= 2 /\ 1 <= on_walslots o <= 2 /\
  second <= on_connect o <= minute /\ second <= on_metadata o <= 120 * second /\ 10 * second <= on_data o <= hour_ns /\
  minute <= on_operation o <= 7 * 24 * hour_ns /\ 10 * second <= on_wal o <= 15 * minute.
Proof.
  unfold New. destruct (Parse _) as [u|]; [|done]. destruct (endpoint_ok c u); [|done]. destruct (credentials_ok c); [|done].
  destruct (service_ok c u); [|done]. destruct (names_ok c) eqn:En; [|done]. cbn [negb]. intros H.
  repeat match type of H with
  | (let? x := ?m in _) = _ => let E := fresh "L" in destruct m as [?v|?] eqn:E; cbn [res_bind] in H; [apply limit_bounds in E|done]
  end.
  destruct SystemCertPool; [|done]. cbn [negb] in H. destruct (_ <? len (cf_CA c)); [done|]. destruct (bundle_ok _ _); [|done].
  destruct (NewCore _); [|done]. cbn [negb] in H. injection H as <-. cbn.
  apply andb_true_iff in En as [En Hp]. apply andb_true_iff in En as [_ Hl]. apply negb_true_iff, Z.ltb_ge in Hl.
  split; [|repeat split; lia]. apply orb_true_iff in Hp as [Hp|Hp]; [left; by apply bool_decide_eq_true in Hp|by right].
Qed.
End New.
