(* ===== verification/S3Client.v ===== *)
(** * The S3 client (internal/s3store/objects.go, multipart.go, list.go, transport.go)

    The operations of [*Store] as programs over the calls of the SDK, the context, the slots and the open file.
    The SDK is not part of the repository: its calls are effects that answer anything of their type.  A deadline
    only makes the context's answers.  A read retries, at most five times and only after a transient failure; a
    mutation is sent once. *)

From S2P Require Import Prelude GoStrings GoTime Sha256 Md5 Errors Prog Store S3Keys.

Inductive slot := LocalWAL | LocalArtifacts | ProcessWAL | ProcessArtifacts.
(** What one [Read] returns: bytes with no error, with [io.EOF], or with another error. *)
Inductive chunk := Full (b : string) | Eof (b : string) | Broken (b : string).
(** A response body: what successive reads of it return ([io.EOF] after the last), and whether [Close] succeeds. *)
Record Body := mkBody { b_reads : list chunk; b_closed : bool }.
Record UploadInfo := mkUploadInfo { ui_Bucket : string; ui_Key : string; ui_ETag : string; ui_VersionID : string }.
Record CompletePart := mkPart { cp_PartNumber : Z; cp_ETag : string }.
Record UploadsPage := mkUploadsPage {
  upg_Uploads : list (string * string); upg_CommonPrefixes : nat; upg_IsTruncated : bool;
  upg_NextKeyMarker : string; upg_NextUploadIDMarker : string }.
Record ObjectPart := mkObjectPart { op_PartNumber : Z; op_Size : Z; op_ETag : string }.
Record PartsPage := mkPartsPage { ppg_ObjectParts : list ObjectPart; ppg_IsTruncated : bool; ppg_Next : Z }.
(** Which ready step of the two upload workers and the sender runs next. *)
Inductive choice := ChSend | ChWork (n : nat) | ChStop.

(** An HTTP request as the transport sees it, and a response before its body is read. *)
Record Request := mkRequest {
  rq_Method : string; rq_Scheme : string; rq_Host : string; rq_Path : string; rq_RawQuery : string;
  rq_Query : list (string * string); rq_ContentLength : Z; rq_IfMatch : string }.
Record Response := mkResponse {
  rs_StatusCode : Z; rs_ETag : string; rs_LastModified : string; rs_ContentEncoding : string; rs_ContentLength : Z;
  rs_Body : Body }.

(** The errors of [http.Transport]: none is one of the client's own or carries a response code. *)
Inductive net_error := NetContext | NetCertificate | NetOther.
Definition of_net (e : net_error) : sdk_error :=
  match e with NetContext => SdkContext | NetCertificate => SdkCertificate | NetOther => SdkResponse "" end.

Abbreviation sdk := (result sdk_error).
Inductive wire : Type -> Type :=
(* the context: is it done; did the timer fire before it was *)
| Done : wire bool
| Jitter (n : Z) : wire Z
| Timer (d : Z) : wire bool
| Acquire (s : slot) : wire bool
| Release (s : slot) : wire ()
| Schedule : wire choice
(* the caller's file; [false] or [None] is an error *)
| Stat : wire (option (bool * Z))
| ReadAt (off n : Z) : wire chunk
| Truncate : wire bool
| Seek : wire bool
| Write (b : string) : wire bool
| Sync : wire bool
(* the SDK *)
| PutObject (bucket k : string) (size : Z) (md5 sha256 : string) (o : PutObjectOptions) : wire (sdk UploadInfo)
| StatObject (bucket k : string) : wire (sdk ObjectInfo)
| GetObject (bucket k : string) : wire (sdk (Body * ObjectInfo))
| RemoveObject (bucket k : string) : wire (sdk ())
| NewMultipartUpload (bucket k : string) (o : PutObjectOptions) : wire (sdk string)
| PutObjectPart (bucket k id : string) (part off size : Z) (md5 : string) : wire (sdk string)
| CompleteMultipartUpload (bucket k id : string) (parts : list CompletePart) (o : PutObjectOptions) : wire (sdk UploadInfo)
| AbortMultipartUpload (bucket k id : string) : wire (sdk ())
| ListObjectsIter (bucket p : string) : wire (list (sdk ObjectInfo))
| ListMultipartUploads (bucket p keyMarker idMarker : string) (max : Z) : wire (sdk UploadsPage)
| ListObjectParts (bucket k id : string) (marker max : Z) : wire (sdk PartsPage)
| GetBucketVersioning (bucket : string) : wire (sdk string)
(* an error comes with the code and the status of [minio.ToErrorResponse]; the answer is the number of rules, or the lock *)
| GetBucketLifecycle (bucket : string) : wire (result (sdk_error * string * Z) (option Z))
| GetObjectLockConfig (bucket : string) : wire (result (sdk_error * string * Z) string)
(* the probe of CheckConditions: random bytes, a file of its own and a write into it *)
| RandRead : wire (option (list Z))
| CreateTemp : wire bool
| WriteAt (b : string) : wire bool
| RemoveTemp : wire ()
(* the transport under the SDK: the page counter, and [base.RoundTrip] within a timeout *)
| CountPage : wire (option Z)
| HttpSlot (timeout : Z) : wire bool
| FreeSlot : wire ()
| Send (r : Request) : wire (result net_error Response).

Abbreviation wprog := (Prog.prog wire).
Definition of_sdk {A} (r : sdk A) (mutation : bool) : res A :=
  match r with Ok a => Ok a | Err e => Err (classify e mutation) end.

Definition acquire (sl : slot) : wprog (res ()) :=
  let! ok := call (Acquire sl) in Ret (if ok : bool then Ok () else Err (failure Canceled)).
Definition acquireData (local global : slot) : wprog (res ()) :=
  acquire local ;;*
  let! r := acquire global in
  match r with
  | Ok _ => done ()
  | Err e => let! _ := call (Release local) in fail e
  end.
(** The body of a function after [defer release()]. *)
Definition holding {A} (local global : slot) (body : wprog (res A)) : wprog (res A) :=
  acquireData local global ;;*
  let! r := body in
  let! _ := call (Release global) in
  let! _ := call (Release local) in
  Ret r.

(** [retryRead]: the attempts left, and the number of those made. *)
Fixpoint retry_loop {A} (tries : nat) (n : nat) (last : res A) (fn : wprog (res A)) : wprog (res A) :=
  match tries with
  | O => Ret last
  | S tries =>
      let! stop := call Done in
      if stop : bool then fail (failure Canceled) else
      let again :=
        let! r := fn in
        match r with
        | Err e => if Is e Transient then retry_loop tries (S n) (Err e) fn else Ret (Err e)
        | Ok _ => Ret r
        end in
      match n with
      | O => again
      | S m =>
          (* in nanoseconds *)
          let d := 200000000 * 2 ^ Z.of_nat m in
          let! j := call (Jitter (d / 2)) in
          let! fired := call (Timer (d + j)) in
          if fired : bool then again else fail (failure Canceled)
      end
  end.
Definition retryRead {A} (fn : wprog (res A)) : wprog (res A) := retry_loop 5 0 (Err (failure Transient)) fn.

(** ** Copies of a section of the file *)
Definition bufSize : Z := 128 * 2 ^ 10.
(** The reads of a [SectionReader]: [n] bytes from [off], a buffer at a time. *)
Fixpoint sections (fuel : nat) (off n : Z) : list (Z * Z) :=
  match fuel with
  | O => []
  | S fuel => if n <=? 0 then [] else (off, Z.min bufSize n) :: sections fuel (off + bufSize) (n - bufSize)
  end.
Definition section_reads (off n : Z) : list (Z * Z) := sections (Z.to_nat (n / bufSize + 1)) off n.
(** [copyContext] of a section into a hash: the bytes read, or nothing when the context or the file stopped it.
    The context is asked before every read, the one that returns [io.EOF] included. *)
Fixpoint copy_section (l : list (Z * Z)) (acc : string) : wprog (option string) :=
  let! stop := call Done in
  if stop : bool then Ret None else
  match l with
  | [] => Ret (Some acc)
  | (off, n) :: l =>
      let! c := call (ReadAt off n) in
      match c with
      | Full b => copy_section l (acc +:+ b)
      | Eof b => Ret (Some (acc +:+ b))
      | Broken _ => Ret None
      end
  end.
Definition classifyLocal {A} : wprog (res A) :=
  let! stop := call Done in fail (failure (if stop : bool then Canceled else LocalIO)).

(** [checkFile] of a file, [open] when the pointer is not nil: its Content-MD5. *)
Definition checkFile (open : bool) (expected : Integrity) : wprog (res string) :=
  if negb open then fail (failure Invalid) else
  let! st := call Stat in
  match st with
  | None => fail (failure LocalIO)
  | Some (regular, size) =>
      if negb regular || (size !=? ig_Size expected) then fail (failure Invalid) else
      let! c := copy_section (section_reads 0 (ig_Size expected)) "" in
      match c with
      | None => classifyLocal
      | Some b =>
          if (len b !=? ig_Size expected) || (digest b !=? ig_SHA256 expected) then fail (failure Corrupt)
          else done (content_md5 b)
      end
  end.

(** ** Single objects *)
Definition PutFile (s : S3Store) (k : string) (open : bool) (expected : Integrity) (c : Cond)
    (metadata : list (string * string)) : wprog (res Info) :=
  let* b := Ret (key s k) in
  let* o := Ret (options c metadata) in
  if negb (validIntegrity expected MaxSingleSize) then fail (failure Invalid) else
  holding LocalWAL ProcessWAL (
    let* md := checkFile open expected in
    let! r := call (PutObject (s_bucket s) b (ig_Size expected) md (ig_SHA256 expected) o) in
    let* v := Ret (of_sdk r true) in
    if negb (validETag (ui_ETag v)) || (ui_VersionID v !=? "") then fail (S3 Corrupt true)
    else done (mkInfo k (ui_ETag v) (ig_Size expected) zero_time ∅)).

Definition Head (s : S3Store) (k : string) : wprog (res Info) :=
  let* b := Ret (key s k) in
  let! r := call (StatObject (s_bucket s) b) in
  let* v := Ret (of_sdk r false) in
  if negb (validETag (oi_ETag v)) || (oi_Size v <? 0) || (oi_VersionID v !=? "") then fail (failure Corrupt)
  else done (info (with_key v k)).

Definition cut (n : Z) (s : string) : string := String.substring 0 (Z.to_nat n) s.
(** [io.ReadAll] of [io.LimitReader(r, rest)]: a read is cut to what the limit leaves; an error behind the cut is
    not reached. *)
Fixpoint read_all (reads : list chunk) (rest : Z) (acc : string) : option string :=
  if rest <=? 0 then Some acc else
  match reads with
  | [] => Some acc
  | Full b :: reads => let c := cut rest b in read_all reads (rest - len c) (acc +:+ c)
  | Eof b :: _ => Some (acc +:+ cut rest b)
  | Broken b :: _ => if rest <? len b then Some (acc +:+ cut rest b) else None
  end.

Definition Read (s : S3Store) (k : string) (max : Z) : wprog (res (string * Info)) :=
  let* b := Ret (key s k) in
  if (max <? 1) || (MaxMetadataSize <? max) then fail (failure Invalid) else
  retryRead (
    let! r := call (GetObject (s_bucket s) b) in
    let* (body, v) := Ret (of_sdk r false) in
    if (oi_Size v <? 0) || (max <? oi_Size v) || negb (validETag (oi_ETag v)) || (oi_VersionID v !=? "") then fail (failure Corrupt) else
    match read_all (b_reads body) (max + 1) "" with
    | None =>
        let! stop := call Done in fail (failure (if stop : bool then Canceled else Transient))
    | Some data =>
        if len data !=? oi_Size v then fail (failure Corrupt) else
        if negb (b_closed body) then fail (failure Transient) else
        done (data, info (with_key v k))
    end).

(** The copy of a body into the file and the hash, at most [rest] bytes of it. *)
Inductive copied := Copied (b : string) | WriteFailed | Interrupted.
Fixpoint copy_body (reads : list chunk) (rest : Z) (acc : string) : wprog copied :=
  let! stop := call Done in
  if stop : bool then Ret Interrupted else
  if rest <=? 0 then Ret (Copied acc) else
  let limit acc := let! stop := call Done in Ret (if stop : bool then Interrupted else Copied acc) in
  let write (b : string) (k : string -> Z -> wprog copied) : wprog copied :=
    let c := cut rest b in
    if c ==? "" then k acc rest else
    let! ok := call (Write c) in
    if ok : bool then k (acc +:+ c) (rest - len c) else Ret WriteFailed in
  match reads with
  | [] => Ret (Copied acc)
  | Full b :: reads => write b (fun acc rest => copy_body reads rest acc)
  | Eof b :: _ => write b (fun acc _ => if rest <? len b then limit acc else Ret (Copied acc))
  | Broken b :: _ => write b (fun acc _ => if rest <? len b then limit acc else Ret Interrupted)
  end.

Definition download (s : S3Store) (k : string) (open : bool) (expected : Integrity) (wal : bool) : wprog (res Info) :=
  let* b := Ret (key s k) in
  if negb open || negb (validIntegrity expected MaxArtifactSize) then fail (failure Invalid) else
  holding (if wal then LocalWAL else LocalArtifacts) (if wal then ProcessWAL else ProcessArtifacts) (retryRead (
    let! t := call Truncate in
    if negb t then fail (failure LocalIO) else
    let! sk := call Seek in
    if negb sk then fail (failure LocalIO) else
    let! r := call (GetObject (s_bucket s) b) in
    let* (body, v) := Ret (of_sdk r false) in
    if (oi_Size v !=? ig_Size expected) || negb (validETag (oi_ETag v)) || (oi_VersionID v !=? "") then fail (failure Corrupt) else
    let! c := copy_body (b_reads body) (ig_Size expected + 1) "" in
    match c with
    | WriteFailed => fail (failure LocalIO)
    | Interrupted => let! stop := call Done in fail (failure (if stop : bool then Canceled else Transient))
    | Copied data =>
        if (len data !=? ig_Size expected) || (digest data !=? ig_SHA256 expected) then fail (failure Corrupt) else
        if negb (b_closed body) then fail (failure Transient) else
        let! y := call Sync in
        if negb y then fail (failure LocalIO) else
        done (info (with_key v k))
    end)).
Definition Download (s : S3Store) (k : string) (open : bool) (expected : Integrity) : wprog (res Info) :=
  download s k open expected false.
Definition DownloadWAL (s : S3Store) (k : string) (open : bool) (expected : Integrity) : wprog (res Info) :=
  if MaxSingleSize <? ig_Size expected then fail (failure Invalid) else download s k open expected true.

Definition Delete (s : S3Store) (k : string) : wprog (res ()) :=
  let* b := Ret (key s k) in
  let! r := call (RemoveObject (s_bucket s) b) in Ret (of_sdk r true).
Definition Abort (s : S3Store) (u : Upload) : wprog (res ()) :=
  let* b := Ret (key s (up_Key u)) in
  if negb (validID (up_ID u)) then fail (failure Invalid) else
  let! r := call (AbortMultipartUpload (s_bucket s) b (up_ID u)) in Ret (of_sdk r true).

(** ** Multipart upload

    The sender hands part numbers to [s.workers] goroutines over an unbuffered channel.  Between two scheduling
    points a worker runs one part: it hashes the section, sends it and records the entity tag or the error. *)
Record pool := mkPool {
  pl_next : nat;                (* the next part to hand out *)
  pl_alive : nat;               (* workers that have not returned *)
  pl_busy : list nat;           (* parts received and not finished *)
  pl_parts : list CompletePart; (* parts[i] *)
  pl_first : option error }.
Definition nparts (size : Z) : nat := Z.to_nat ((size + PartSize - 1) / PartSize).
Definition part_offset (i : nat) : Z := Z.of_nat i * PartSize.
Definition part_size (size : Z) (i : nat) : Z := Z.min PartSize (size - part_offset i).

(** The body of [for i := range jobs]: the entity tag of the part. *)
Definition put_part (s : S3Store) (b id : string) (size : Z) (i : nat) : wprog (res CompletePart) :=
  let off := part_offset i in
  let n := part_size size i in
  let! c := copy_section (section_reads off n) "" in
  match c with
  | None => classifyLocal
  | Some data =>
      let! r := call (PutObjectPart (s_bucket s) b id (Z.of_nat i + 1) off n (content_md5 data)) in
      let* etag := Ret (of_sdk r true) in
      if negb (validETag etag) then fail (S3 Corrupt true) else done (mkPart (Z.of_nat i + 1) etag)
  end.
(** The first error is returned; a later ambiguous one makes it ambiguous. *)
Definition join_error (first : option error) (e : error) : option error :=
  match first with
  | None => Some e
  | Some (S3 k amb) => Some (S3 k (amb || match e with S3 _ a => a | _ => false end))
  | Some f => Some f
  end.
Definition finish_part (p : pool) (i : nat) (r : res CompletePart) : pool :=
  let busy := filter (fun j => j <> i) (pl_busy p) in
  match r with
  | Ok c => mkPool (pl_next p) (pl_alive p) busy (<[i := c]> (pl_parts p)) (pl_first p)
  | Err e => mkPool (pl_next p) (pl_alive p - 1) busy (pl_parts p) (join_error (pl_first p) e)
  end.
Definition send_part (p : pool) : pool :=
  mkPool (S (pl_next p)) (pl_alive p) (pl_next p :: pl_busy p) (pl_parts p) (pl_first p).
Definition can_send (n : nat) (p : pool) : bool := (pl_next p <? n)%nat && (length (pl_busy p) <? pl_alive p)%nat.

(** [close(jobs); wg.Wait()]: the parts in flight finish. *)
Fixpoint drain (s : S3Store) (b id : string) (size : Z) (fuel : nat) (p : pool) : wprog pool :=
  match fuel, pl_busy p with
  | S fuel, i :: l =>
      let! c := call Schedule in
      let j := match c with ChWork k => default i ((i :: l) !! k) | _ => i end in
      let! r := put_part s b id size j in
      drain s b id size fuel (finish_part p j r)
  | _, _ => Ret p
  end.
(** The loop [send:].  The second component says that it was left before every part was handed out. *)
Fixpoint send (s : S3Store) (b id : string) (size : Z) (fuel : nat) (p : pool) : wprog (pool * bool) :=
  match fuel with
  | O => Ret (p, true)
  | S fuel =>
      if (nparts size <=? pl_next p)%nat then Ret (p, false) else
      let! c := call Schedule in
      let work j :=
        let! r := put_part s b id size j in send s b id size fuel (finish_part p j r) in
      match c with
      | ChStop => Ret (p, true)
      | ChSend => if can_send (nparts size) p then send s b id size fuel (send_part p) else
                  match pl_busy p with j :: _ => work j | [] => Ret (p, true) end
      | ChWork k =>
          match pl_busy p !! k with
          | Some j => work j
          | None => if can_send (nparts size) p then send s b id size fuel (send_part p) else
                    match pl_busy p with j :: _ => work j | [] => Ret (p, true) end
          end
      end
  end.

(** [UploadFile].  When the send loop stops early without an error of a worker the operation's context is done. *)
Definition UploadFile (s : S3Store) (k : string) (open : bool) (expected : Integrity) (metadata : list (string * string))
    : wprog (Upload * res Info) :=
  let size := ig_Size expected in
  let no_id (r : wprog (res Info)) : wprog (Upload * res Info) := let! x := r in Ret (mkUpload k "", x) in
  match key s k with
  | Err e => no_id (fail e)
  | Ok b =>
  if negb (validIntegrity expected MaxArtifactSize) || (size =? 0) then no_id (fail (failure Invalid)) else
  match artifactOptions metadata with
  | Err e => no_id (fail e)
  | Ok o =>
  let! slots := acquireData LocalArtifacts ProcessArtifacts in
  match slots with
  | Err e => no_id (fail e)
  | Ok _ =>
  let! r :=
    let! md := checkFile open expected in
    match md with
    | Err e => no_id (fail e)
    | Ok _ =>
    let! r := call (NewMultipartUpload (s_bucket s) b o) in
    match of_sdk r true with
    | Err e => no_id (fail e)
    | Ok id =>
    let u := mkUpload k id in
    if negb (validID id) then Ret (u, Err (S3 Corrupt true)) else
    let p := mkPool 0 (s_workers s) [] (replicate (nparts size) (mkPart 0 "")) None in
    let! (p, stopped) := send s b id size (2 * nparts size + 1) p in
    let! p := drain s b id size (length (pl_busy p)) p in
    match pl_first p with
    | Some e => Ret (u, Err e)
    | None =>
        let! over := (if stopped : bool then Ret true else call Done) in
        if over : bool then Ret (u, Err (failure Canceled)) else
        let! r := call (CompleteMultipartUpload (s_bucket s) b id (pl_parts p) o) in
        match of_sdk r true with
        | Err e => Ret (u, Err e)
        | Ok v =>
            if negb (validETag (ui_ETag v)) || (ui_VersionID v !=? "") || (ui_Bucket v !=? s_bucket s) || (ui_Key v !=? b)
            then Ret (u, Err (S3 Corrupt true))
            else Ret (u, Ok (mkInfo k (ui_ETag v) size zero_time ∅))
        end
    end
    end
    end in
  let! _ := call (Release ProcessArtifacts) in
  let! _ := call (Release LocalArtifacts) in
  Ret r
  end
  end
  end.

(** ** Listings *)
Section Visit.
Context {B : Type}.

(** [List]: the bucket's entries in the order the SDK yields them. *)
Fixpoint list_items (s : S3Store) (p : string) (max : Z) (items : list (sdk ObjectInfo)) (last : string) (count : Z)
    (acc : B) (visit : B -> Info -> wprog (res B)) : wprog (res B) :=
  match items with
  | [] =>
      let! stop := call Done in
      if stop : bool then fail (failure Canceled) else done acc
  | Err e :: _ => fail (classify e false)
  | Ok v :: items =>
      if max <? count + 1 then fail (failure Limit) else
      if negb (HasPrefix (oi_Key v) p) || String.leb (oi_Key v) last || (oi_Size v <? 0) || negb (validETag (oi_ETag v))
      then fail (failure Corrupt) else
      let k := relative s (oi_Key v) in
      if is_err (key s k) then fail (failure Corrupt) else
      let* acc := visit acc (info (with_key v k)) in
      list_items s p max items (oi_Key v) (count + 1) acc visit
  end.
Definition List (s : S3Store) (prefix : string) (max : Z) (acc : B) (visit : B -> Info -> wprog (res B)) : wprog (res B) :=
  let* p := Ret (listPrefix s prefix) in
  if (max <? 1) || (MaxInventory <? max) then fail (failure Invalid) else
  let! items := call (ListObjectsIter (s_bucket s) p) in
  list_items s p max items "" 0 acc visit.

Definition check_upload (s : S3Store) (p : string) (max : Z) (count : Z) (u : string * string) : res Upload :=
  if max <? count + 1 then Err (failure Limit) else
  if negb (HasPrefix u.1 p) || negb (validID u.2) then Err (failure Corrupt) else
  if is_err (key s (relative s u.1)) then Err (failure Corrupt) else Ok (mkUpload (relative s u.1) u.2).
Definition visit_upload (s : S3Store) (p : string) (max : Z) (visit : B -> Upload -> wprog (res B))
    (st : Z * B) (u : string * string) : wprog (res (Z * B)) :=
  let* v := Ret (check_upload s p max st.1 u) in
  let* acc := visit st.2 v in
  done (st.1 + 1, acc).
Fixpoint upload_pages (s : S3Store) (p : string) (max : Z) (pages : nat) (keyMarker idMarker : string) (st : Z * B)
    (visit : B -> Upload -> wprog (res B)) : wprog (res B) :=
  match pages with
  | O => fail (failure Limit)
  | S pages =>
      let! r := call (ListMultipartUploads (s_bucket s) p keyMarker idMarker 1000) in
      let* v := Ret (of_sdk r false) in
      if (1000 <? Z.of_nat (length (upg_Uploads v))) || negb (upg_CommonPrefixes v =? 0)%nat then fail (failure Corrupt) else
      let* st := visit_all (upg_Uploads v) st (visit_upload s p max visit) in
      if negb (upg_IsTruncated v) then done st.2 else
      if (upg_NextKeyMarker v ==? "") || String.ltb (upg_NextKeyMarker v) keyMarker
         || ((upg_NextKeyMarker v ==? keyMarker) && (upg_NextUploadIDMarker v ==? idMarker)) || (upg_NextUploadIDMarker v ==? "")
      then fail (failure Corrupt) else
      upload_pages s p max pages (upg_NextKeyMarker v) (upg_NextUploadIDMarker v) st visit
  end.
Definition ListUploads (s : S3Store) (prefix : string) (max : Z) (acc : B) (visit : B -> Upload -> wprog (res B)) : wprog (res B) :=
  let* p := Ret (listPrefix s prefix) in
  if (max <? 1) || (MaxInventory <? max) then fail (failure Invalid) else
  upload_pages s p max (Z.to_nat 10001) "" "" (0, acc) visit.

Record Part := mkS3Part { pt_Number : Z; pt_Size : Z; pt_ETag : string }.
Definition visit_part (visit : B -> Part -> wprog (res B)) (st : Z * Z * B) (p : ObjectPart) : wprog (res (Z * Z * B)) :=
  let '(last, count, acc) := st in
  let etag := trim_quotes (op_ETag p) in
  if 8192 <? count + 1 then fail (failure Limit) else
  if (op_PartNumber p <=? last) || (op_Size p <? 0) || (PartSize <? op_Size p) || negb (validETag etag) then fail (failure Corrupt) else
  let* acc := visit acc (mkS3Part (op_PartNumber p) (op_Size p) etag) in
  done (op_PartNumber p, count + 1, acc).
Fixpoint part_pages (s : S3Store) (k id : string) (pages : nat) (marker count : Z) (acc : B)
    (visit : B -> Part -> wprog (res B)) : wprog (res B) :=
  match pages with
  | O => fail (failure Limit)
  | S pages =>
      let! r := call (ListObjectParts (s_bucket s) k id marker 1000) in
      let* v := Ret (of_sdk r false) in
      let* (last, count, acc) := visit_all (ppg_ObjectParts v) (marker, count, acc) (visit_part visit) in
      if negb (ppg_IsTruncated v) then done acc else
      if (ppg_Next v <=? marker) || (ppg_Next v !=? last) then fail (failure Corrupt) else
      part_pages s k id pages (ppg_Next v) count acc visit
  end.
Definition ListParts (s : S3Store) (u : Upload) (acc : B) (visit : B -> Part -> wprog (res B)) : wprog (res B) :=
  let* k := Ret (key s (up_Key u)) in
  if negb (validID (up_ID u)) then fail (failure Invalid) else
  part_pages s k (up_ID u) 11 0 0 acc visit.
End Visit.
