(* ===== verification/S3Upload.v ===== *)
(** * Multipart uploads (internal/s3store/multipart.go)

    The workers and the sender of [UploadFile] in any order: every part is a section of the file, is sent at most once
    and the upload is completed only with the entity tags of all of them. *)

From S2P Require Import Prelude GoStrings GoTime Sha256 Md5 Errors Prog Store S3Keys S3Client S3Safety.

(** ** The parts of a file *)
Lemma nparts_spec size : 0 <= size -> (Z.of_nat (nparts size) - 1) * PartSize < size <= Z.of_nat (nparts size) * PartSize \/ size = 0.
Proof.
  intros H. unfold nparts. rewrite Z2Nat.id by (apply Z.div_pos; unfold PartSize; lia).
  pose proof (Z.div_mod (size + PartSize - 1) PartSize ltac:(unfold PartSize; lia)) as Hd.
  pose proof (Z.mod_pos_bound (size + PartSize - 1) PartSize ltac:(unfold PartSize; lia)) as Hb.
  unfold PartSize in *. lia.
Qed.
Lemma nparts_pos size i : (i < nparts size)%nat -> 0 < size.
Proof.
  intros H. destruct (Z_lt_le_dec 0 size) as [|Hs]; [done|]. exfalso. unfold nparts in H.
  assert ((size + PartSize - 1) / PartSize < 1) by (apply Z.div_lt_upper_bound; unfold PartSize; lia). lia.
Qed.

Section Upload.
Context (s : S3Store) (b id : string) (size : Z).

Definition part_event (i : nat) (md : string) : wire (sdk string) :=
  PutObjectPart (s_bucket s) b id (Z.of_nat i + 1) (part_offset i) (part_size size i) md.
(** One request for part [i], with its answer. *)
Definition part_request (i : nat) (a : Prog.action wire) : Prop := exists md ans, a = Act (part_event i md) ans.
(** [sent l ps]: the requests [l] are for the parts [ps], in this order. *)
Definition sent (l : wtrace) (ps : list nat) : Prop := Forall2 (fun a i => part_request i a) l ps.
Definition recorded (l : wtrace) (parts : list CompletePart) (i : nat) : Prop :=
  exists etag md, parts !! i = Some (mkPart (Z.of_nat i + 1) etag) /\ Act (part_event i md) (Ok etag) ∈ l.

Record pool_inv (base l : wtrace) (ps : list nat) (p : pool) (M : wtrace) : Prop := {
  pi_trace : M = l ++ base;
  pi_sent : sent l ps;
  pi_once : NoDup (pl_busy p ++ ps);
  pi_handed : forall i, i ∈ pl_busy p ++ ps -> (i < pl_next p)%nat;
  pi_next : (pl_next p <= nparts size)%nat;
  pi_length : length (pl_parts p) = nparts size;
  pi_alive : (length (pl_busy p) <= pl_alive p)%nat;
  pi_workers : pl_first p = None -> pl_alive p = s_workers s;
  pi_done : pl_first p = None -> forall i, (i < pl_next p)%nat -> i ∉ pl_busy p -> recorded l (pl_parts p) i }.
Definition pool_ok (base : wtrace) (p : pool) (M : wtrace) : Prop := exists l ps, pool_inv base l ps p M.

Lemma pool_send base p M : can_send (nparts size) p = true -> pool_ok base p M -> pool_ok base (send_part p) M.
Proof.
  intros [Hn%Nat.ltb_lt Ha%Nat.ltb_lt]%andb_true_iff (l & ps & [Ht Hs Ho Hh Hx Hl Hal Hw Hd]).
  exists l, ps. split; try done; cbn [send_part pl_busy pl_next pl_parts pl_alive pl_first length].
  - constructor; [|done]. intros Hi. specialize (Hh _ Hi). lia.
  - intros i [->|Hi]%elem_of_cons; [lia|]. specialize (Hh _ Hi). lia.
  - intros Hf i Hi Hb. apply not_elem_of_cons in Hb as [Hne Hb]. apply Hd; [done|lia|done].
Qed.

Lemma busy_remove (p : pool) i : i ∈ pl_busy p -> NoDup (pl_busy p) ->
  i :: filter (fun j => j <> i) (pl_busy p) ≡ₚ pl_busy p.
Proof.
  generalize (pl_busy p) as l. clear. induction l as [|j l IH]; intros Hi Hn; [by apply not_elem_of_nil in Hi|].
  inversion Hn as [|? ? Hj Hn']; subst. rewrite filter_cons. destruct (decide (j <> i)) as [Hne|Heq].
  - apply elem_of_cons in Hi as [->|Hi]; [done|]. rewrite Permutation_swap. by rewrite IH.
  - apply dec_stable in Heq as ->. f_equiv. clear IH Hn Hn' Hi. induction l as [|x l IH]; [done|].
    apply not_elem_of_cons in Hj as [Hx Hj]. rewrite filter_cons_True by done. by rewrite IH.
Qed.
Lemma join_error_some f e : join_error f e <> None.
Proof. by destruct f as [[]|]. Qed.

Lemma pool_finish base p M i M' r :
  pool_ok base p M -> i ∈ pl_busy p ->
  (M' = M /\ is_err r = true \/
   exists md ans, M' = Act (part_event i md) ans :: M /\
     (forall c, r = Ok c -> exists etag, c = mkPart (Z.of_nat i + 1) etag /\ ans = Ok etag)) ->
  pool_ok base (finish_part p i r) M'.
Proof.
  intros (l & ps & [Ht Hs Ho Hh Hx Hl Hal Hw Hd]) Hi Hr.
  apply NoDup_app in Ho as Ho'. destruct Ho' as (Hnb & Hdis & Hni). pose proof (busy_remove p i Hi Hnb) as Hperm.
  set (busy := filter (fun j => j <> i) (pl_busy p)) in *.
  assert (length (pl_busy p) = S (length busy)) as Hlen by (by rewrite <- Hperm).
  assert (forall j, j ∈ busy <-> j <> i /\ j ∈ pl_busy p) as Hbusy by (intros j; unfold busy; by rewrite list_elem_of_filter).
  assert (Hfin : forall l' ps', (l' = l /\ ps' = ps \/ (exists md ans, l' = Act (part_event i md) ans :: l) /\ ps' = i :: ps) ->
    sent l' ps' /\ NoDup (busy ++ ps') /\ (forall j, j ∈ busy ++ ps' -> (j < pl_next p)%nat)).
  { intros l' ps' [[-> ->]|[(md & ans & ->) ->]].
    - split; [done|]. split.
      + apply NoDup_app. split; [by apply NoDup_filter|]. split; [|done]. intros j [_ Hj]%Hbusy. by apply Hdis.
      + intros j [[_ Hj]%Hbusy|Hj]%elem_of_app; apply Hh, elem_of_app; auto.
    - split; [constructor; [by exists md, ans|done]|]. split.
      + rewrite <- Permutation_middle, app_comm_cons, Hperm. done.
      + intros j Hj. apply Hh. rewrite <- Permutation_middle, app_comm_cons, Hperm in Hj. done. }
  assert (forall l', l ⊆ l' -> forall j, j <> i -> recorded l (pl_parts p) j -> forall c, recorded l' (<[i:=c]> (pl_parts p)) j) as Hrec.
  { intros l' Hsub j Hj (etag & md & Hp & Hin) c. exists etag, md. split; [by rewrite list_lookup_insert_ne|by apply Hsub]. }
  destruct Hr as [[-> He]|(md & ans & -> & Hc)].
  - destruct r as [c|e]; [done|]. destruct (Hfin l ps) as (? & ? & ?); [by left|].
    exists l, ps. split; try done; cbn [finish_part pl_busy pl_next pl_parts pl_alive pl_first]; try done.
    + unfold busy in *. lia.
    + intros Hf. by destruct (join_error_some (pl_first p) e).
    + intros Hf. by destruct (join_error_some (pl_first p) e).
  - set (l' := Act (part_event i md) ans :: l) in *. destruct (Hfin l' (i :: ps)) as (? & ? & ?); [right; eauto|].
    exists l', (i :: ps). destruct r as [c|e]; (split; try done; cbn [finish_part pl_busy pl_next pl_parts pl_alive pl_first]; try done).
    + by rewrite Ht.
    + by rewrite length_insert.
    + unfold busy in *. lia.
    + intros Hf j Hj Hjb. destruct (decide (j = i)) as [->|Hne].
      * destruct (Hc c eq_refl) as (etag & -> & ->). exists etag, md.
        split; [|by left]. apply list_lookup_insert_eq. lia.
      * apply Hrec; [by right|done|]. apply Hd; [done|done|]. intros Hjb'. by apply Hjb, Hbusy.
    + by rewrite Ht.
    + unfold busy in *. lia.
    + intros Hf. by destruct (join_error_some (pl_first p) e).
    + intros Hf. by destruct (join_error_some (pl_first p) e).
Qed.

Lemma wp_put_part (G : guard) i tr : (forall tr X e, G tr X e) ->
  wp G (fun tr' r => muts tr' = muts tr /\ is_err r = true \/
    exists md ans, muts tr' = Act (part_event i md) ans :: muts tr /\
      (forall c, r = Ok c -> exists etag, c = mkPart (Z.of_nat i + 1) etag /\ ans = Ok etag))
    (put_part s b id size i) tr.
Proof.
  intros HG. assert (allows_quiet G) as Hq by (intros ????; apply HG). unfold put_part.
  eapply wp_quietly; [done|apply quietly_copy_section|]. intros tr1 [data|] Hm _.
  - cbn. split; [done|]. intros ans.
    assert (muts (Act (part_event i (content_md5 data)) ans :: tr1) = Act (part_event i (content_md5 data)) ans :: muts tr) as Hm'
      by (unfold muts in *; cbn; by rewrite Hm).
    destruct ans as [etag|f]; cbn; [destruct (negb (validETag etag)); cbn|]; right; eexists _, _; (split; [exact Hm'|]); [done| |done].
    intros c [= <-]. eauto.
  - eapply wp_mono; [|apply (quietly_classifyLocal (fun _ => False)); done].
    cbn. intros tr2 [c|e] [Hm2 Hs]; [done|]. left. split; [congruence|done].
Qed.

Context (G : guard) (base : wtrace) (HG : forall tr X e, G tr X e).

(** The bound on the steps of the send loop: a step hands a part out or finishes one. *)
Definition send_steps (p : pool) : nat := 2 * (nparts size - pl_next p) + length (pl_busy p).
(** The send loop stops early only when the context is done or every worker has failed. *)
Definition stopped_for (tr : wtrace) (p : pool) : Prop := head tr = Some (Act Schedule ChStop) \/ pl_alive p = O.
Lemma finish_steps p i r : i ∈ pl_busy p -> NoDup (pl_busy p) ->
  S (send_steps (finish_part p i r)) = send_steps p /\ pl_next (finish_part p i r) = pl_next p.
Proof.
  intros Hi Hn. pose proof (Permutation_length (busy_remove p i Hi Hn)) as Hl. cbn [length] in Hl. unfold send_steps.
  destruct r; cbn [finish_part pl_busy pl_next]; split; lia.
Qed.

Lemma wp_send fuel p tr : (send_steps p < fuel)%nat -> pool_ok base p (muts tr) ->
  wp G (fun tr' '(p', stopped) => pool_ok base p' (muts tr') /\
    (if stopped : bool then stopped_for tr' p' else pl_next p' = nparts size)) (send s b id size fuel p) tr.
Proof.
  revert p tr. induction fuel as [|fuel IH]; intros p tr Hf Hp; [lia|]. cbn [send].
  assert (Hbusy : NoDup (pl_busy p)) by (destruct Hp as (l & ps & [? ? Ho]); by apply NoDup_app in Ho as [? _]).
  wp_if as En.
  { cbn. split; [done|]. destruct Hp as (l & ps & [? ? ? ? Hx]). apply Nat.leb_le in En. lia. }
  cbn. split; [done|]. intros c.
  assert (Hwork : forall j tr', j ∈ pl_busy p -> muts tr' = muts tr ->
    wp G (fun tr' '(p', stopped) => pool_ok base p' (muts tr') /\
      (if stopped : bool then stopped_for tr' p' else pl_next p' = nparts size))
      (let! r := put_part s b id size j in send s b id size fuel (finish_part p j r)) tr').
  { intros j tr' Hj Hm. apply wp_bind. eapply wp_mono; [|by apply (wp_put_part G j tr')]. intros tr2 r Hr.
    apply IH; [destruct (finish_steps p j r Hj Hbusy); lia|]. rewrite Hm in Hr. by eapply pool_finish. }
  apply Nat.leb_gt in En.
  assert (Hsend : forall tr', muts tr' = muts tr ->
    wp G (fun tr' '(p', stopped) => pool_ok base p' (muts tr') /\
      (if stopped : bool then stopped_for tr' p' else pl_next p' = nparts size))
      (if can_send (nparts size) p then send s b id size fuel (send_part p) else
       match pl_busy p with j :: _ => let! r := put_part s b id size j in send s b id size fuel (finish_part p j r) | [] => Ret (p, true) end) tr').
  { intros tr' Hm. wp_if as Ec.
    - apply IH; [unfold send_steps in *; cbn [send_part pl_next pl_busy length]; lia|]. rewrite Hm. by apply pool_send.
    - destruct (pl_busy p) as [|j l] eqn:Eb; [|by apply Hwork; [left|]]. cbn. rewrite Hm. split; [done|]. right.
      unfold can_send in Ec. rewrite Eb in Ec. apply Nat.ltb_lt in En. rewrite En in Ec. cbn in Ec.
      destruct (pl_alive p); [done|discriminate]. }
  destruct c as [|k|].
  - by apply Hsend.
  - destruct (pl_busy p !! k) as [j|] eqn:Ek; [|by apply Hsend]. apply Hwork; [|done]. by eapply list_elem_of_lookup_2.
  - cbn. split; [exact Hp|by left].
Qed.

Lemma wp_drain fuel p tr : (length (pl_busy p) <= fuel)%nat -> pool_ok base p (muts tr) ->
  wp G (fun tr' p' => pool_ok base p' (muts tr') /\ pl_busy p' = [] /\ pl_next p' = pl_next p /\
    (pl_first p' = None -> pl_first p = None)) (drain s b id size fuel p) tr.
Proof.
  revert p tr. induction fuel as [|fuel IH]; intros p tr Hf Hp; cbn [drain].
  { cbn. destruct (pl_busy p) eqn:Eb; cbn in *; [done|lia]. }
  destruct (pl_busy p) as [|i l] eqn:Eb; [done|]. cbn. split; [done|]. intros c. cbn.
  set (j := match c with ChWork k => default i ((i :: l) !! k) | _ => i end).
  assert (Hj : j ∈ pl_busy p).
  { rewrite Eb. unfold j. destruct c; [left| |left]. destruct (_ !! n) eqn:E; cbn; [by eapply list_elem_of_lookup_2|left]. }
  assert (Hn : NoDup (pl_busy p)) by (destruct Hp as (? & ? & [? ? Ho]); by apply NoDup_app in Ho as [? _]).
  apply wp_bind. eapply wp_mono; [|by apply (wp_put_part G j)]. intros tr2 r Hr.
  destruct (finish_steps p j r Hj Hn) as [Hs Hx]. unfold send_steps in Hs. rewrite Hx in Hs.
  eapply wp_mono; [|apply IH].
  - cbn. intros tr3 p' (H1 & H2 & H3 & H4). split; [done|]. split; [done|]. split; [congruence|].
    intros H5. specialize (H4 H5). destruct r; cbn in H4; [done|]. by destruct (join_error_some (pl_first p) e).
  - rewrite Eb in Hs. cbn in Hs, Hf. lia.
  - by eapply pool_finish.
Qed.
End Upload.

(** ** The outcome of an upload *)
Definition whole (s : S3Store) (b id : string) (size : Z) (l : wtrace) (parts : list CompletePart) : Prop :=
  length parts = nparts size /\ forall i, (i < nparts size)%nat -> recorded s b id size l parts i.
Definition upload_outcome (s : S3Store) (k : string) (x : Integrity) (metadata : list (string * string))
    (tr : wtrace) (ur : Upload * res Info) : Prop :=
  let '(u, r) := ur in
  up_Key u = k /\
  ((muts tr = [] /\ up_ID u = "" /\ exists e, r = Err e /\ settled e) \/
   exists b o, key s k = Ok b /\ artifactOptions metadata = Ok o /\
   ((exists f, muts tr = [Act (NewMultipartUpload (s_bucket s) b o) (Err f)] /\ up_ID u = "" /\ r = Err (classify f true)) \/
    exists l ps, sent s b (up_ID u) (ig_Size x) l ps /\ NoDup ps /\ (forall i, i ∈ ps -> (i < nparts (ig_Size x))%nat) /\
    let base := [Act (NewMultipartUpload (s_bucket s) b o) (Ok (up_ID u))] in
    ((muts tr = l ++ base /\ is_err r = true) \/
     exists parts ans,
       muts tr = Act (CompleteMultipartUpload (s_bucket s) b (up_ID u) parts o) ans :: l ++ base /\
       whole s b (up_ID u) (ig_Size x) l parts /\
       match r with
       | Ok i => exists v, ans = Ok v /\ i_ETag i = ui_ETag v /\ ui_Key v = b /\ ui_VersionID v = ""
       | Err e => ambiguous e = false -> exists f kd, ans = Err f /\ e = S3 kd false /\ definitive kd = true
       end))).
Lemma upload_outcome_muts s k x m t t' r : muts t = muts t' -> upload_outcome s k x m t r -> upload_outcome s k x m t' r.
Proof. unfold upload_outcome. by intros ->. Qed.

Lemma UploadFile_outcome s k open x m (G : guard) tr :
  (forall tr X e, G tr X e) -> muts tr = [] ->
  wp G (upload_outcome s k x m) (UploadFile s k open x m) tr.
Proof.
  intros HG H0. assert (allows_quiet G) as Hq by (intros ????; apply HG). unfold UploadFile.
  assert (Hbad : forall tr e, muts tr = [] -> settled e -> upload_outcome s k x m tr (mkUpload k "", Err e)).
  { intros tr' e Hm He. split; [done|]. left. eauto. }
  destruct (key s k) as [b|e] eqn:Ek; [|cbn; apply Hbad; [done|by eapply key_settled]].
  wp_if as Ei; [by cbn; apply Hbad; [|apply settled_failure]|].
  destruct (artifactOptions m) as [o|e] eqn:Eo; [|cbn; apply Hbad; [done|by eapply artifactOptions_settled]].
  eapply wp_quietly; [done|apply quietly_acquireData|]. intros tr1 [[]|e] Hm1 Hs1; [|cbn; apply Hbad; [congruence|done]].
  apply wp_bind.
  assert (Hend : forall t a, upload_outcome s k x m t a ->
    wp G (upload_outcome s k x m) (let! _ := call (Release ProcessArtifacts) in let! _ := call (Release LocalArtifacts) in Ret a) t).
  { intros t a Ha. cbn. split; [done|]. intros []. split; [done|]. intros []. by eapply upload_outcome_muts; [|exact Ha]. }
  eapply wp_mono; [intros t a; apply Hend|]. clear Hend.
  eapply wp_quietly; [done|apply quietly_checkFile|]. intros tr2 [md|e] Hm2 Hs2; [|cbn; apply Hbad; [congruence|done]].
  cbn. split; [done|]. intros [id|f]; cbn.
  2: { split; [done|]. right. exists b, o. split; [done|]. split; [done|]. left. exists f. split; [|done].
       unfold muts in *. cbn. rewrite Hm2, Hm1, H0. done. }
  set (base := [Act (NewMultipartUpload (s_bucket s) b o) (Ok id)]).
  set (tr3 := Act (NewMultipartUpload (s_bucket s) b o) (Ok id) :: tr2).
  assert (Hm3 : muts tr3 = base) by (unfold muts, tr3, base in *; cbn; by rewrite Hm2, Hm1, H0).
  wp_if as Eid.
  { cbn. split; [done|]. right. exists b, o. split; [done|]. split; [done|]. right. exists [], []. split; [constructor|].
    split; [constructor|]. split; [by intros i Hi%not_elem_of_nil|]. by left. }
  apply wp_bind. eapply wp_mono; [|apply (wp_send s b id (ig_Size x) G base HG)].
  2: { unfold send_steps. cbn [pl_next pl_busy length]. lia. }
  2: { rewrite Hm3. exists [], []. split; cbn [pl_busy pl_next pl_parts pl_alive pl_first app length]; try done; try constructor.
       - by intros i Hi%not_elem_of_nil.
       - lia.
       - apply length_replicate.
       - lia.
       - intros _ i Hi. lia. }
  intros tr4 [p stopped] [Hp Hstop]. apply wp_bind. eapply wp_mono; [|by apply (wp_drain s b id (ig_Size x) G base HG)].
  intros tr5 p' (Hp' & Hb' & Hn' & Hf'). destruct Hp' as (l & ps & [Ht Hs Ho Hh Hx Hl Hal Hw Hd]).
  rewrite Hb' in *. cbn [app] in *.
  assert (Hin : forall i, i ∈ ps -> (i < nparts (ig_Size x))%nat) by (intros i Hi; specialize (Hh i Hi); lia).
  assert (Herr : forall t r, muts t = muts tr5 -> is_err r = true -> upload_outcome s k x m t (mkUpload k id, r)).
  { intros t r Hmt Hr. split; [done|]. right. exists b, o. split; [done|]. split; [done|]. right. exists l, ps.
    split; [done|]. split; [done|]. split; [done|]. left. split; [by rewrite Hmt|done]. }
  destruct (pl_first p') as [e|] eqn:Ef; [by apply Herr|].
  assert (Hfin : stopped = false -> forall t, muts t = muts tr5 ->
     wp G (upload_outcome s k x m)
       (let! r := call (CompleteMultipartUpload (s_bucket s) b id (pl_parts p') o) in
        match of_sdk r true with
        | Err e => Ret (mkUpload k id, Err e)
        | Ok v =>
            if negb (validETag (ui_ETag v)) || (ui_VersionID v !=? "") || (ui_Bucket v !=? s_bucket s) || (ui_Key v !=? b)
            then Ret (mkUpload k id, Err (S3 Corrupt true))
            else Ret (mkUpload k id, Ok (mkInfo k (ui_ETag v) (ig_Size x) zero_time ∅))
        end) t).
  { intros -> t Hmt. cbn. split; [done|]. intros ans.
    assert (Hgo : forall r, match r with
       | Ok i => exists v, ans = Ok v /\ i_ETag i = ui_ETag v /\ ui_Key v = b /\ ui_VersionID v = ""
       | Err e => ambiguous e = false -> exists f kd, ans = Err f /\ e = S3 kd false /\ definitive kd = true
       end -> upload_outcome s k x m (Act (CompleteMultipartUpload (s_bucket s) b id (pl_parts p') o) ans :: t) (mkUpload k id, r)).
    { intros r Hr. split; [done|]. right. exists b, o. split; [done|]. split; [done|]. right. exists l, ps.
      split; [done|]. split; [done|]. split; [done|]. right. exists (pl_parts p'), ans.
      split; [unfold muts in *; cbn; by rewrite Hmt, Ht|]. split; [|done]. split; [done|].
      intros i Hi. apply Hd; [done|lia|apply not_elem_of_nil]. }
    destruct ans as [v|f]; cbn.
    - wp_if as Ev; [by apply Hgo|]. apply Hgo. exists v. bool_split. done.
    - apply Hgo. intros Ha. destruct (classify_mutation_ambiguous f Ha) as (kd & -> & Hdef). eauto. }
  destruct stopped; [|cbn; split; [done|]; intros []; [by apply Herr|by apply Hfin]]. cbn. by apply Herr.
Qed.

(** ** The claims *)
(** C23: However the workers are scheduled and whatever is answered: an upload
    initiates at most one multipart upload and returns its identifier also on failure; every part request is a section of the
    file under that identifier and no part is sent twice; nothing is aborted or deleted; the upload is completed only
    with the entity tags answered for every one of the parts, in order. *)
Theorem upload_whole_or_reported s k open x metadata tr u r :
  runs (UploadFile s k open x metadata) [] tr (u, r) -> upload_outcome s k x metadata tr (u, r).
Proof. intros Hr. eapply (wp_runs (fun _ _ _ => True)); [|exact Hr]. by apply UploadFile_outcome. Qed.
Definition demo_uploaded : Upload * res Info := (mkUpload "probe" "upload-1", Ok (mkInfo "probe" "e2" 3 zero_time ∅)).
Lemma upload_whole_or_reported_witness :
  exists tr, runs (UploadFile demo_store "probe" true demo_integrity []) [] tr demo_uploaded /\
    upload_outcome demo_store "probe" demo_integrity [] tr demo_uploaded.
Proof.
  exists (run_trace demo (UploadFile demo_store "probe" true demo_integrity []) () []).
  assert (H : runs (UploadFile demo_store "probe" true demo_integrity []) []
     (run_trace demo (UploadFile demo_store "probe" true demo_integrity []) () []) demo_uploaded).
  { assert (E : (run demo (UploadFile demo_store "probe" true demo_integrity []) ()).1 = demo_uploaded)
      by (vm_compute; reflexivity). rewrite <- E. apply run_trace_runs. }
  split; [exact H|]. apply (upload_whole_or_reported _ _ _ _ _ _ _ _ H).
Defined.

(** The parts of a file of a permitted size partition it: there are at most 8192, each byte is
    in exactly one, each is not empty and at most 64 MiB, and only the last can be shorter. *)
Theorem upload_parts_partition x z :
  validIntegrity x MaxArtifactSize = true -> 0 <= z < ig_Size x ->
  (nparts (ig_Size x) <= Z.to_nat 8192)%nat /\
  (forall i, (i < nparts (ig_Size x))%nat -> 0 < part_size (ig_Size x) i <= PartSize /\
     ((S i < nparts (ig_Size x))%nat -> part_size (ig_Size x) i = PartSize)) /\
  exists i, (i < nparts (ig_Size x))%nat /\ part_offset i <= z < part_offset i + part_size (ig_Size x) i /\
    forall j, (j < nparts (ig_Size x))%nat -> part_offset j <= z < part_offset j + part_size (ig_Size x) j -> j = i.
Proof.
  intros [Hs _]%validIntegrity_spec Hz. destruct (nparts_spec (ig_Size x) ltac:(lia)) as [Hn|]; [|lia].
  set (n := nparts (ig_Size x)) in *. unfold MaxArtifactSize, part_size, part_offset, PartSize in *.
  split; [|split].
  - lia.
  - intros i Hi. lia.
  - exists (Z.to_nat (z / (64 * 2 ^ 20))).
    pose proof (Z.div_mod z (64 * 2 ^ 20) ltac:(lia)) as Hd. pose proof (Z.mod_pos_bound z (64 * 2 ^ 20) ltac:(lia)) as Hb.
    assert (0 <= z / (64 * 2 ^ 20)) by (apply Z.div_pos; lia).
    rewrite Z2Nat.id by done. split; [lia|]. split; [lia|]. intros j Hj Hzj. lia.
Qed.
Lemma upload_parts_partition_witness :
  (nparts (128 * 2 ^ 20 + 1) = 3)%nat /\ (nparts (128 * 2 ^ 20 + 1) <= Z.to_nat 8192)%nat.
Proof.
  split; [vm_compute; reflexivity|].
  apply (upload_parts_partition (mkIntegrity (128 * 2 ^ 20 + 1) (digest "abc")) 7); [vm_compute; reflexivity|cbn; lia].
Defined.
