(* ===== verification/S3List.v ===== *)
(** * Listings (internal/s3store/list.go)

    A listing that succeeds is whole: the caller has been shown every entry the service returned, in order, under names
    that lead back to the same entries; the number of entries and of requests is bounded. *)

From S2P Require Import Prelude GoStrings GoTime Sha256 Md5 Errors Prog Store S3Keys S3Client S3Safety.

(** The visitor that keeps what it is shown. *)
Definition collect {A} (acc : list A) (x : A) : wprog (res (list A)) := done (acc ++ [x]).
Abbreviation anything := (fun (_ : wtrace) (X : Type) (_ : wire X) => True).

(** The sequence of entries of a listing without an error. *)
Definition yielded (vs : list ObjectInfo) : list (sdk ObjectInfo) := map Ok vs.
Definition key_lt (a b : string) : Prop := String.ltb a b = true.
Definition shown (s : S3Store) (v : ObjectInfo) : Info := info (with_key v (relative s (oi_Key v))).
Definition entry_ok (s : S3Store) (p : string) (v : ObjectInfo) : Prop :=
  HasPrefix (oi_Key v) p = true /\ 0 <= oi_Size v /\ validETag (oi_ETag v) = true /\ is_ok (key s (relative s (oi_Key v))) = true.

Lemma wp_list_items s p max items last count acc tr :
  wp anything (fun tr' r => extends tr tr' /\ match r with
    | Ok l => exists vs, items = yielded vs /\ l = acc ++ map (shown s) vs /\ Sorted key_lt (last :: map oi_Key vs) /\
              (vs <> [] -> count + Z.of_nat (length vs) <= max) /\ Forall (entry_ok s p) vs
    | Err _ => True end) (list_items s p max items last count acc collect) tr.
Proof.
  revert last count acc tr. induction items as [|[v|e] items IH]; intros last count acc tr; cbn [list_items].
  - cbn. split; [done|]. intros []; (split; [apply extends_cons|]); [done|].
    exists []. rewrite app_nil_r. repeat split; try done. repeat constructor.
  - wp_if as Ec; [split; [apply extends_refl|done]|]. wp_if as Ev; [split; [apply extends_refl|done]|].
    wp_if as Ek; [split; [apply extends_refl|done]|]. cbn [bindE bind collect done].
    eapply wp_mono; [|apply IH]. intros tr' [l|e] [He H]; [|done]. split; [done|].
    destruct H as (vs & -> & -> & Hs & Hc & Hf). exists (v :: vs). split; [done|].
    apply Z.ltb_ge in Ec. bool_split. split; [by rewrite <- app_assoc|]. split; [|split].
    + constructor; [exact Hs|]. constructor. unfold key_lt. apply not_false_is_true. intros Hl.
      rewrite leb_negb_ltb, Hl in *. done.
    + intros _. destruct vs; cbn [length] in *; [lia|]. specialize (Hc ltac:(done)). lia.
    + constructor; [|done]. repeat split; try done; try lia. unfold is_err in Ek. by apply negb_false_iff in Ek.
  - split; [apply extends_refl|done].
Qed.

(** An inventory that succeeds is whole: it is the whole sequence that the service yielded, with no error in it, strictly
    increasing, within the caller's bound, every entry under the requested prefix, and the name shown for an entry is the
    name under which the client reads and deletes that same entry. *)
Theorem list_whole s prefix max tr l :
  runs (List s prefix max [] collect) [] tr (Ok l) ->
  exists p (vs : list ObjectInfo), listPrefix s prefix = Ok p /\ Act (ListObjectsIter (s_bucket s) p) (yielded vs) ∈ tr /\
    l = map (shown s) vs /\ Sorted key_lt (map oi_Key vs) /\ Z.of_nat (length vs) <= max <= MaxInventory /\
    Forall (fun v => HasPrefix (oi_Key v) p = true /\ key s (i_Key (shown s v)) = Ok (oi_Key v)) vs.
Proof.
  intros Hr. refine (wp_runs anything (fun tr r => match r with Ok l => _ | Err _ => True end) _ [] tr (Ok l) _ Hr).
  unfold List. destruct (listPrefix s prefix) as [p|e] eqn:Ep; [|done]. cbn [bindE bind]. wp_if as Em; [done|].
  bool_split. cbn. split; [done|]. intros items. eapply wp_mono; [|apply wp_list_items].
  intros tr' [l'|e] [He Hl]; [|done]. destruct Hl as (vs & -> & -> & Hs & Hc & Hf). exists p, vs.
  split; [done|]. split; [eapply extends_elem; [exact He|by left]|]. split; [done|].
  split; [by inversion Hs|]. split.
  - split; [|lia]. destruct vs; cbn [length] in *; [lia|]. specialize (Hc ltac:(done)). lia.
  - eapply Forall_impl; [exact Hf|]. intros v (Hp & _ & _ & Hk). split; [done|]. by eapply key_relative.
Qed.
Lemma list_whole_witness :
  exists tr, runs (List demo_store "" 10 [] collect) [] tr (Ok [info (with_key demo_info "probe")]) /\
    exists p (vs : list ObjectInfo), listPrefix demo_store "" = Ok p /\ Act (ListObjectsIter "bucket" p) (yielded vs) ∈ tr.
Proof.
  exists (run_trace demo (List demo_store "" 10 [] collect) () []).
  assert (H : runs (List demo_store "" 10 [] collect) [] (run_trace demo (List demo_store "" 10 [] collect) () [])
     (Ok [info (with_key demo_info "probe")])).
  { assert (E : (run demo (List demo_store "" 10 [] collect) ()).1 = Ok [info (with_key demo_info "probe")])
      by (vm_compute; reflexivity). rewrite <- E. apply run_trace_runs. }
  split; [exact H|]. destruct (list_whole _ _ _ _ _ H) as (p & vs & Hp & Hin & _). exists p, vs. done.
Defined.

(** ** Uploads in progress *)
Section Uploads.
Context (s : S3Store) (p : string).

(** [pages] were answered one after the other from the given markers, and the last one was not truncated. *)
Fixpoint paged (tr : wtrace) (km im : string) (pages : list UploadsPage) : Prop :=
  match pages with
  | [] => False
  | v :: rest =>
      Act (ListMultipartUploads (s_bucket s) p km im 1000) (Ok v) ∈ tr /\
      (if upg_IsTruncated v then String.ltb (upg_NextKeyMarker v) km = false /\ (upg_NextKeyMarker v, upg_NextUploadIDMarker v) <> (km, im) /\
                                 paged tr (upg_NextKeyMarker v) (upg_NextUploadIDMarker v) rest
       else rest = [])
  end.
Lemma paged_extends tr tr' km im pages : extends tr tr' -> paged tr km im pages -> paged tr' km im pages.
Proof.
  intros He. revert km im. induction pages as [|v rest IH]; intros km im; cbn; [done|].
  intros [Hin H]. split; [by eapply extends_elem|]. destruct (upg_IsTruncated v); [|done]. destruct H as (? & ? & ?). auto.
Qed.
Definition is_page (a : Prog.action wire) : bool :=
  match a with Act (ListMultipartUploads _ _ _ _ _) _ => true | _ => false end.
(** The requests for pages in a trace. *)
Definition requests (tr : wtrace) : nat := length (List.filter is_page tr).
Definition shown_upload (u : string * string) : Upload := mkUpload (relative s u.1) u.2.

Lemma wp_visit_uploads max us count acc tr :
  wp anything (fun tr' r => tr' = tr /\ match r with
    | Ok (n, l) => n = count + Z.of_nat (length us) /\ (us <> [] -> n <= max) /\ l = acc ++ (shown_upload <$> us) /\
                   Forall (fun u => HasPrefix u.1 p = true /\ validID u.2 = true /\ is_ok (key s (relative s u.1)) = true) us
    | Err _ => True end) (visit_all us (count, acc) (visit_upload s p max collect)) tr.
Proof.
  revert count acc tr. induction us as [|u us IH]; intros count acc tr; cbn [visit_all].
  - cbn. rewrite app_nil_r. repeat split; try done. lia.
  - unfold visit_upload at 1. cbn [fst snd]. destruct (check_upload s p max count u) as [v|e] eqn:E; [|done].
    cbn [bindE bind done collect fst snd]. eapply wp_mono; [|apply IH]. intros tr' [[n l]|e] [-> H]; [|done]. split; [done|].
    destruct H as (-> & Hn & -> & Hf). unfold check_upload in E. cbn [length]. destruct (max <? count + 1) eqn:Em; [done|].
    destruct (negb _ || _) eqn:Eu; [done|]. destruct (is_err _) eqn:Ek; [done|]. injection E as <-. apply Z.ltb_ge in Em.
    bool_split. split; [lia|]. split; [intros _; destruct us; cbn [length] in *; [lia|apply Hn; done]|].
    split; [by rewrite <- app_assoc|]. constructor; [|done]. repeat split; try done. unfold is_err in Ek. by apply negb_false_iff in Ek.
Qed.

Lemma wp_upload_pages max pages km im count acc tr :
  wp anything (fun tr' r => extends tr tr' /\ (requests tr' <= pages + requests tr)%nat /\ match r with
    | Ok l => exists vs us, paged tr' km im vs /\ us = concat (upg_Uploads <$> vs) /\ l = acc ++ (shown_upload <$> us) /\
                (us <> [] -> count + Z.of_nat (length us) <= max) /\ (length vs <= pages)%nat /\
                Forall (fun u => HasPrefix u.1 p = true /\ validID u.2 = true /\ is_ok (key s (relative s u.1)) = true) us
    | Err _ => True end) (upload_pages s p max pages km im (count, acc) collect) tr.
Proof.
  revert km im count acc tr. induction pages as [|pages IH]; intros km im count acc tr; cbn [upload_pages].
  { split; [apply extends_refl|]. split; [lia|done]. }
  cbn. split; [done|]. intros [v|e]; [|cbn; split; [apply extends_cons|]; split; [unfold requests; cbn; lia|done]]. cbn.
  set (a := Act (ListMultipartUploads (s_bucket s) p km im 1000) (Ok v)).
  assert (Hreq : requests (a :: tr) = S (requests tr)) by done.
  assert (Hbad : forall e, extends tr (a :: tr) /\ (requests (a :: tr) <= S (pages + requests tr))%nat /\
    match @Err error (list Upload) e with Ok l => False | Err _ => True end) by (intros; split; [apply extends_cons|split; [lia|done]]).
  wp_if as Ep; [apply (Hbad (failure Corrupt))|]. apply wp_bindE.
  eapply wp_mono; [|apply wp_visit_uploads]. intros tr1 [[n l]|e] [-> H]; [|apply (Hbad e)].
  destruct H as (Hn & Hmax & -> & Hf). wp_if as Et.
  - split; [apply extends_cons|]. split; [rewrite Hreq; lia|]. apply negb_true_iff in Et. exists [v], (upg_Uploads v).
    split; [cbn; rewrite Et; split; [by left|done]|]. split; [cbn; by rewrite app_nil_r|]. split; [done|].
    split; [subst n; done|]. split; [cbn; lia|done].
  - apply negb_false_iff in Et. wp_if as Emk; [apply (Hbad (failure Corrupt))|].
    eapply wp_mono; [|apply IH]. intros tr2 r (He & Hr & H). split; [eapply extends_trans; [apply extends_cons|exact He]|].
    split; [lia|]. destruct r as [l|e]; [|done]. destruct H as (vs & us & Hp & -> & -> & Hc & Hlen & Hf2).
    exists (v :: vs), (upg_Uploads v ++ concat (upg_Uploads <$> vs)).
    apply orb_false_iff in Emk as [Emk _]. apply orb_false_iff in Emk as [Emk Hm2]. apply orb_false_iff in Emk as [_ Hm1].
    split; [cbn; rewrite Et; split; [eapply extends_elem; [exact He|by left]|]; split; [done|]; split; [|done]|].
    { intros [= Ea Eb]. rewrite Ea, Eb in Hm2. rewrite !bool_decide_eq_true_2 in Hm2; done. }
    split; [done|]. split; [by rewrite fmap_app, app_assoc|]. rewrite length_app. split; [|split; [cbn; lia|by apply Forall_app]].
    intros Hne. destruct (concat (upg_Uploads <$> vs)) eqn:Eus; [|specialize (Hc ltac:(done)); lia].
    rewrite app_nil_r in Hne. cbn [length]. specialize (Hmax Hne). lia.
Qed.
End Uploads.

(** An inventory of unfinished uploads that succeeds is whole: the pages follow each other from the start by advancing markers to one that is
    not truncated, and the caller was shown the uploads of all of them in order, within the bound, each under the name and
    identifier with which it can be aborted.  At most 10001 requests are made, successful or not. *)
Theorem list_uploads_whole s prefix max tr r :
  runs (ListUploads s prefix max [] collect) [] tr r ->
  (requests tr <= Z.to_nat 10001)%nat /\
  forall l, r = Ok l -> exists p vs, listPrefix s prefix = Ok p /\ paged s p tr "" "" vs /\
    l = shown_upload s <$> concat (upg_Uploads <$> vs) /\ Z.of_nat (length l) <= max /\
    forall u, u ∈ concat (upg_Uploads <$> vs) -> key s (up_Key (shown_upload s u)) = Ok u.1 /\ validID u.2 = true.
Proof.
  intros Hr. refine (wp_runs anything (fun tr r => (requests tr <= Z.to_nat 10001)%nat /\ forall l, r = Ok l -> _) _ [] tr r _ Hr).
  unfold ListUploads. destruct (listPrefix s prefix) as [p|e] eqn:Ep; [|cbn; split; [apply Nat.le_0_l|done]].
  cbn [bindE bind]. wp_if as Em; [cbn; split; [apply Nat.le_0_l|done]|]. bool_split.
  eapply wp_mono; [|apply wp_upload_pages]. intros tr' r' (He & Hq & Hr').
  split; [by rewrite Nat.add_0_r in Hq|]. intros l' ->. destruct Hr' as (vs & us & Hp & -> & -> & Hc & Hlen & Hf).
  exists p, vs. split; [done|]. split; [done|]. split; [done|]. split.
  - cbn [app]. rewrite length_fmap. destruct (concat (upg_Uploads <$> vs)) eqn:E; [cbn; lia|]. apply (Hc ltac:(done)).
  - intros u Hu. rewrite Forall_forall in Hf. destruct (Hf u Hu) as (H1 & H2 & H3). split; [by eapply key_relative|done].
Qed.
Lemma list_uploads_whole_witness :
  exists tr, runs (ListUploads demo_store "" 10 [] collect) [] tr (Ok [mkUpload "probe" "upload-1"]) /\
    (requests tr <= Z.to_nat 10001)%nat.
Proof.
  exists (run_trace demo (ListUploads demo_store "" 10 [] collect) () []).
  assert (H : runs (ListUploads demo_store "" 10 [] collect) [] (run_trace demo (ListUploads demo_store "" 10 [] collect) () [])
     (Ok [mkUpload "probe" "upload-1"])).
  { assert (E : (run demo (ListUploads demo_store "" 10 [] collect) ()).1 = Ok [mkUpload "probe" "upload-1"])
      by (vm_compute; reflexivity). rewrite <- E. apply run_trace_runs. }
  split; [exact H|]. apply (list_uploads_whole _ _ _ _ _ H).
Defined.
