(* ===== verification/S3Checks.v ===== *)
(** * Bucket checks (internal/s3store/checks.go)

    [CheckBucketSafety] reads three bucket configurations; [CheckConditions] probes conditional writes in a fresh
    namespace and reports the names it may have used. *)

From S2P Require Import Prelude GoStrings GoTime Sha256 Md5 Errors Prog Store S3Keys S3Client S3Safety.

(** An absent configuration: the code and the status of the answer. *)
Definition absent (code : string) (c : string) (status : Z) : bool := (c ==? code) && (status =? 404).
Definition CheckBucketSafety (s : S3Store) : wprog (res ()) :=
  let! r := call (GetBucketVersioning (s_bucket s)) in
  let* status := Ret (of_sdk r false) in
  if status !=? "" then fail (failure Unsupported) else
  let! lc := call (GetBucketLifecycle (s_bucket s)) in
  let* _ := Ret (match lc with
    | Err (e, code, status) => if absent "NoSuchLifecycleConfiguration" code status then Ok () else Err (classify e false)
    | Ok None => Err (failure Unsupported)
    | Ok (Some rules) => if rules =? 0 then Ok () else Err (failure Unsupported)
    end) in
  let! lock := call (GetObjectLockConfig (s_bucket s)) in
  match lock with
  | Err (e, code, status) => if absent "ObjectLockConfigurationNotFoundError" code status then done () else fail (classify e false)
  | Ok l => if l !=? "" then fail (failure Unsupported) else done ()
  end.

(** [%x-%x-%x-%x-%x] of the token with the version and variant bits of a random UUID. *)
Definition set_bits (token : list Z) : list Z :=
  imap (fun i z => if (i =? 6)%nat then Z.lor (Z.land z 15) 64 else if (i =? 8)%nat then Z.lor (Z.land z 63) 128 else z) token.
Definition probe_base (root : string) (token : list Z) : string :=
  let part i j := hex (take (j - i) (drop i token)) in
  root +:+ "/" +:+ part 0%nat 4%nat +:+ "-" +:+ part 4%nat 6%nat +:+ "-" +:+ part 6%nat 8%nat +:+ "-" +:+ part 8%nat 10%nat +:+ "-"
    +:+ hex (drop 10 token) +:+ "/".
Definition probe_a (token : list Z) : string := "cnpg storage probe original " +:+ hex token.
Definition probe_b (token : list Z) : string := "replacement " +:+ probe_a token.

(** The closure [put]: the data replace the contents of the probe file, which is then written. *)
Definition put (s : S3Store) (k data : string) (c : Cond) : wprog (res Info) :=
  let! t := call Truncate in
  if negb t then fail (failure LocalIO) else
  let! w := call (WriteAt data) in
  if negb w then fail (failure LocalIO) else
  PutFile s k true (mkIntegrity (len data) (digest data)) c [].
(** The closure [unsupported]: the write must have been refused. *)
Definition refused {A} (r : res A) : res () :=
  match r with Ok _ => Err (failure Unsupported) | Err e => if Is e Precondition then Ok () else Err e end.

Definition probe (s : S3Store) (base : string) (token : list Z) : wprog (res ()) :=
  let k0 := base +:+ "conditional" in
  let k1 := base +:+ "missing" in
  let a := probe_a token in
  let b := probe_b token in
  let* original := put s k0 a (mkCond true "") in
  let! r := put s k0 b (mkCond true "") in
  let* _ := Ret (refused r) in
  let* (got, head) := Read s k0 1024 in
  if (got !=? a) || (i_ETag head !=? i_ETag original) then fail (failure Unsupported) else
  let! r := put s k1 b (mkCond false (i_ETag original)) in
  let* _ := Ret (refused r) in
  let* newer := put s k0 b (mkCond false (i_ETag original)) in
  if i_ETag newer ==? i_ETag original then fail (failure Unsupported) else
  let! r := put s k0 a (mkCond false (i_ETag original)) in
  let* _ := Ret (refused r) in
  let* (got, head) := Read s k0 1024 in
  if (got !=? b) || (i_ETag head !=? i_ETag newer) then fail (failure Unsupported) else
  let* stat := Head s k0 in
  if (i_ETag stat !=? i_ETag newer) || (i_Size stat !=? len b) then fail (failure Unsupported) else
  let* count := List s base 10 0 (fun count v =>
    if (i_Key v !=? k0) || (i_ETag v !=? i_ETag newer) then fail (failure Unsupported) else done (count + 1)) in
  if count !=? 1 then fail (failure Unsupported) else done ().

Definition CheckConditions (s : S3Store) (probeRoot : string) : wprog (list string * res ()) :=
  match key s probeRoot with
  | Err e => Ret ([], Err e)
  | Ok _ =>
      let! token := call RandRead in
      match token with
      | None => Ret ([], Err (failure LocalIO))
      | Some token =>
          let token := set_bits token in
          let base := probe_base probeRoot token in
          let keys := [base +:+ "conditional"; base +:+ "missing"] in
          let! f := call CreateTemp in
          if negb f then Ret (keys, Err (failure LocalIO)) else
          let! r := probe s base token in
          let! _ := call RemoveTemp in
          Ret (keys, r)
      end
  end.

(** ** The probe names everything it may have written *)
Definition targets (s : S3Store) (keys : list string) (a : Prog.action wire) : Prop :=
  exists k b size md sha o ans, k ∈ keys /\ key s k = Ok b /\ a = Act (PutObject (s_bucket s) b size md sha o) ans.
Definition confined (s : S3Store) (keys : list string) (tr : wtrace) : Prop := Forall (targets s keys) (muts tr).

Section Confined.
Context (s : S3Store) (keys : list string).
Abbreviation everything := (fun (_ : wtrace) (X : Type) (_ : wire X) => True).
(** [stays p]: the mutations of [p] keep within the probe's names. *)
Definition stays {A} (p : wprog A) : Prop :=
  forall tr, confined s keys tr -> wp everything (fun tr' _ => confined s keys tr') p tr.

Lemma stays_ret {A} (a : A) : stays (Ret a).
Proof. by intros tr H. Qed.
Lemma stays_quietly {A} (p : wprog A) P : quietly p P -> stays p.
Proof.
  intros Hp tr H. eapply wp_mono; [|by apply (Hp everything tr)]. intros tr' a [Hm _]. unfold confined. by rewrite Hm.
Qed.
Lemma stays_bind {A B} (p : wprog A) (f : A -> wprog B) : stays p -> (forall a, stays (f a)) -> stays (bind p f).
Proof. intros Hp Hf tr H. apply wp_bind. eapply wp_mono; [|by apply Hp]. intros tr' a H'. by apply Hf. Qed.
Lemma stays_bindE {A B} (p : wprog (res A)) (f : A -> wprog (res B)) : stays p -> (forall a, stays (f a)) -> stays (bindE p f).
Proof. intros Hp Hf. apply stays_bind; [done|]. intros [a|e]; [apply Hf|apply stays_ret]. Qed.
Lemma stays_call {X} (e : wire X) : mutation e = false -> stays (call e).
Proof. intros He. by eapply stays_quietly, quietly_call. Qed.

Lemma stays_holding {A} l g (body : wprog (res A)) : stays body -> stays (holding l g body).
Proof.
  intros Hb. apply stays_bindE; [eapply stays_quietly, quietly_acquireData|]. intros _.
  apply stays_bind; [done|]. intros r. do 2 (apply stays_bind; [by apply stays_call|]; intros _). apply stays_ret.
Qed.
Lemma stays_PutFile k open x c m : k ∈ keys -> stays (PutFile s k open x c m).
Proof.
  intros Hk. unfold PutFile. destruct (key s k) as [b|e] eqn:Ek; [|apply stays_ret].
  destruct (options c m) as [o|e]; [|apply stays_ret]. unfold bindE at 1 2. cbn [bind].
  destruct (negb _); [apply stays_ret|]. apply stays_holding.
  apply stays_bindE; [eapply stays_quietly, quietly_checkFile|]. intros md. apply stays_bind.
  - intros tr H. cbn. split; [done|]. intros ans. constructor; [|exact H]. by exists k, b, (ig_Size x), md, (ig_SHA256 x), o, ans.
  - intros r. unfold bindE. cbn [bind]. destruct (of_sdk r true) as [v|e]; [|apply stays_ret]. destruct (_ || _); apply stays_ret.
Qed.
Lemma stays_put k data c : k ∈ keys -> stays (put s k data c).
Proof.
  intros Hk. do 2 (apply stays_bind; [by apply stays_call|]; intros []; [|apply stays_ret]). by apply stays_PutFile.
Qed.
Lemma stays_Read k max : stays (Read s k max).
Proof.
  unfold Read. destruct (key s k) as [b|e]; [|apply stays_ret]. cbn [bindE bind]. destruct (_ || _); [apply stays_ret|].
  eapply (stays_quietly _ (fun _ => True)), quietly_retry_loop; [|done|done]. quiet; done.
Qed.
Lemma stays_Head k : stays (Head s k).
Proof.
  unfold Head. destruct (key s k) as [b|e]; [|apply stays_ret]. eapply (stays_quietly _ (fun _ => True)). cbn [bindE bind].
  quiet; done.
Qed.
Lemma stays_List {B} prefix max (acc : B) visit : (forall a v, stays (visit a v)) -> stays (List s prefix max acc visit).
Proof.
  intros Hv. unfold List. destruct (listPrefix s prefix) as [p|e]; [|apply stays_ret]. cbn [bindE bind].
  destruct (_ || _); [apply stays_ret|]. apply stays_bind; [by apply stays_call|]. intros items.
  generalize "" as last, 0 as count. revert acc. induction items as [|[v|e] items IH]; intros acc last count; cbn [list_items].
  - apply stays_bind; [by apply stays_call|]. intros []; apply stays_ret.
  - destruct (max <? count + 1); [apply stays_ret|]. destruct (_ || _); [apply stays_ret|]. destruct (is_err _); [apply stays_ret|].
    apply stays_bindE; [apply Hv|]. intros acc'. apply IH.
  - apply stays_ret.
Qed.
Lemma stays_probe base token : keys = [base +:+ "conditional"; base +:+ "missing"] -> stays (probe s base token).
Proof.
  intros Hkeys. assert (base +:+ "conditional" ∈ keys) by (rewrite Hkeys; left).
  assert (base +:+ "missing" ∈ keys) by (rewrite Hkeys; right; left).
  unfold probe.
  repeat first [ apply stays_ret | apply stays_put; assumption | apply stays_Read | apply stays_Head
               | apply stays_List; intros ? ?; destruct (_ || _); apply stays_ret
               | apply stays_bindE; [|intros ?] | apply stays_bind; [|intros ?]
               | match goal with |- stays (match ?x with _ => _ end) => destruct x end ].
Qed.
End Confined.

(** However the probe ends, every object it may have created or replaced is under one of
    the names it returns, and it deletes nothing; so the owner's later cleanup of those names is complete. *)
Theorem check_conditions_reports s root tr keys r :
  runs (CheckConditions s root) [] tr (keys, r) -> confined s keys tr.
Proof.
  intros Hr. refine (wp_runs (fun _ _ _ => True) (fun tr '(keys, r) => confined s keys tr) _ [] tr (keys, r) _ Hr).
  unfold CheckConditions. destruct (key s root) as [b|e]; [|constructor].
  apply wp_call; [done|]. intros [token|]; [|constructor].
  set (base := probe_base root (set_bits token)). set (names := [base +:+ "conditional"; base +:+ "missing"]).
  apply wp_call; [done|]. intros []; [|constructor]. change (negb true) with false. cbv beta iota. apply wp_bind.
  eapply wp_mono; [|apply (stays_probe s names); [done|constructor]].
  intros tr' r' H. apply wp_call; [done|]. intros []. exact H.
Qed.

(** ** The probe against a bucket that honours conditions, and against one that does not *)
Definition is_some {A} (o : option A) : bool := match o with Some _ => true | None => false end.
Record bucket := mkBucket { bk_objects : gmap string (string * string); bk_file : string; bk_next : nat }.
Definition bucket_info (k : string) (o : string * string) : ObjectInfo := mkObjectInfo k o.2 (len o.1) zero_time "" [].
Definition bucket_put (honest : bool) (k : string) (o : PutObjectOptions) (st : bucket) : sdk UploadInfo * bucket :=
  let old := bk_objects st !! k in
  let blocked :=
    (is_some (po_MatchETagExcept o) && is_some old) ||
    match po_MatchETag o with Some e => negb (bool_decide (snd <$> old = Some e)) | None => false end in
  if honest && blocked then (Err (SdkStore Precondition false), st) else
  let etag := "e" +:+ FormatUint (Z.of_nat (bk_next st)) in
  (Ok (mkUploadInfo "bucket" k etag ""), mkBucket (<[k := (bk_file st, etag)]> (bk_objects st)) (bk_file st) (S (bk_next st))).
Definition bucket_handler (honest : bool) : @Prog.handler wire bucket := fun X e st =>
  match e in wire X return X * bucket with
  | Truncate => (true, mkBucket (bk_objects st) "" (bk_next st))
  | WriteAt b => (true, mkBucket (bk_objects st) b (bk_next st))
  | Stat => (Some (true, len (bk_file st)), st)
  | ReadAt off n => (Full (String.substring (Z.to_nat off) (Z.to_nat n) (bk_file st)), st)
  | PutObject _ k _ _ _ o => bucket_put honest k o st
  | GetObject _ k =>
      (match bk_objects st !! k with
       | Some o => Ok (mkBody [Eof o.1] true, bucket_info k o)
       | None => Err (SdkStore NotFound false)
       end, st)
  | StatObject _ k =>
      (match bk_objects st !! k with Some o => Ok (bucket_info k o) | None => Err (SdkStore HeadMissing false) end, st)
  | ListObjectsIter _ _ => (map (fun ko => Ok (bucket_info ko.1 ko.2)) (map_to_list (bk_objects st)), st)
  | e => (demo_answer e, st)
  end.
Definition probe_keys : list string :=
  let base := probe_base "probes" (set_bits (repeat 7 16)) in [base +:+ "conditional"; base +:+ "missing"].
Definition empty_bucket : bucket := mkBucket ∅ "" 1.

Example conditions_honoured : (run (bucket_handler true) (CheckConditions demo_store "probes") empty_bucket).1 = (probe_keys, Ok ()).
Proof. vm_compute. reflexivity. Qed.
Example conditions_ignored :
  (run (bucket_handler false) (CheckConditions demo_store "probes") empty_bucket).1 = (probe_keys, Err (failure Unsupported)).
Proof. vm_compute. reflexivity. Qed.

Lemma check_conditions_reports_witness :
  exists tr, runs (CheckConditions demo_store "probes") [] tr (probe_keys, Ok ()) /\ confined demo_store probe_keys tr.
Proof.
  exists (run_trace (bucket_handler true) (CheckConditions demo_store "probes") empty_bucket []).
  assert (H : runs (CheckConditions demo_store "probes") []
     (run_trace (bucket_handler true) (CheckConditions demo_store "probes") empty_bucket []) (probe_keys, Ok ())).
  { rewrite <- conditions_honoured. apply run_trace_runs. }
  split; [exact H|]. apply (check_conditions_reports _ _ _ _ _ H).
Defined.
