(* ===== verification/S3Transport.v ===== *)
(** * The HTTP transport under the SDK (internal/s3store/transport.go, store.go)

    [RoundTrip] decides which responses reach the SDK at all.  encoding/xml and http.ParseTime are parameters: the tokens of a
    document, and what [xml.Unmarshal] stores in each of the three structures the transport decodes. *)

From S2P Require Import Prelude GoStrings GoTime Sha256 Md5 Errors Prog Store S3Keys S3Client S3Safety.

Inductive xtoken :=
| StartElement (attrs : list (string * string))
| EndElement | CharData | Comment | Directive
| ProcInst (target inst : string).
(** [XMLName.Local] and the fields the transport reads. *)
Record ErrorDoc := mkErrorDoc { ed_root : string; ed_Code : string }.
Record ListDoc := mkListDoc { ld_root : string; ld_Truncated : option bool; ld_Next : string; ld_Contents : Z; ld_Prefixes : Z }.
Record InitDoc := mkInitDoc { id_root : string; id_Bucket : string; id_Key : string }.

(** ** The declaration [version="1.0" encoding="UTF-8" standalone="yes"] *)
Definition is_ws (c : ascii) : bool := existsb (fun d => c ==? d) [" "; ascii_of_nat 9; ascii_of_nat 13; ascii_of_nat 10]%char.
Fixpoint skip_ws (s : string) : string :=
  match s with String c s' => if is_ws c then skip_ws s' else s | EmptyString => EmptyString end.
Definition after (p s : string) : option string := if HasPrefix s p then Some (TrimPrefix s p) else None.
(** [name ws* = ws*] and one of the values, in double or single quotes. *)
Definition quoted (fold : bool) (values : list string) (s : string) : option string :=
  let f := if fold then ToLower else id in
  let try v q :=
    let lit := String q (v +:+ String q EmptyString) in
    if f (String.substring 0 (String.length lit) s) ==? f lit then Some (drop_bytes (String.length lit) s) else None in
  foldr (fun v k => match try v quote with Some r => Some r | None => match try v "'"%char with Some r => Some r | None => k end end)
    None values.
Definition pseudo_attr (name : string) (fold : bool) (values : list string) (s : string) : option string :=
  s ← after name s; s ← after "=" (skip_ws s); quoted fold values (skip_ws s).
(** An optional attribute after white space. *)
Definition optional_attr (name : string) (fold : bool) (values : list string) (s : string) : option string :=
  if skip_ws s ==? s then Some s
  else if HasPrefix (skip_ws s) name then pseudo_attr name fold values (skip_ws s) else Some s.
Definition xmlDeclaration (inst : string) : bool :=
  match (s ← pseudo_attr "version" false ["1.0"] inst;
         s ← optional_attr "encoding" true ["UTF-8"] s;
         optional_attr "standalone" false ["yes"; "no"] s) with
  | Some rest => skip_ws rest ==? ""
  | None => false
  end.

Section Transport.
Context (tokens : string -> list (xtoken * Z) * bool).
Context (unmarshal_error : string -> option ErrorDoc) (unmarshal_list : string -> option ListDoc)
  (unmarshal_init : string -> option InitDoc) (ParseTime : string -> bool).

Fixpoint has_dup (l : list (string * string)) : bool :=
  match l with [] => false | a :: l => bool_decide (a ∈ l) || has_dup l end.
(** The loop of [validXMLDocument]: the tokens left with the offset after each. *)
Fixpoint xml_loop (b : string) (toks : list (xtoken * Z)) (eof : bool) (offset depth roots : Z) : bool :=
  match toks with
  | [] => eof && (depth =? 0) && (roots =? 1)
  | (t, next) :: toks =>
      match t with
      | StartElement attrs =>
          if has_dup attrs then false else
          let roots := if depth =? 0 then roots + 1 else roots in
          if (depth =? 0) && (1 <? roots) then false else xml_loop b toks eof next (depth + 1) roots
      | EndElement => xml_loop b toks eof next (depth - 1) roots
      | CharData =>
          if (depth =? 0) && negb (all_chars is_ws (slice (Z.to_nat offset) (Z.to_nat next) b)) then false
          else xml_loop b toks eof next depth roots
      | ProcInst target inst =>
          if (ToLower target ==? "xml") && ((target !=? "xml") || negb (offset =? 0) || negb (xmlDeclaration inst)) then false
          else xml_loop b toks eof next depth roots
      | Directive => false
      | Comment => xml_loop b toks eof next depth roots
      end
  end.
Definition validXMLDocument (b : string) : bool :=
  let '(toks, eof) := tokens b in xml_loop b toks eof 0 0 0.

Record Transport := mkTransport { t_endpoint : string; t_metadata : Z; t_data : Z }.
Definition responseLimit : Z := 4 * 2 ^ 20.
Definition query_has (r : Request) (k : string) : bool := existsb (fun kv => kv.1 ==? k) (rq_Query r).
Definition query_get (r : Request) (k : string) : string :=
  match List.find (fun kv => kv.1 ==? k) (rq_Query r) with Some kv => kv.2 | None => "" end.

Definition error_outcome (r : Request) (dataGet : bool) (status : Z) (parsed : bool) (code : string) : option error :=
  if (rq_Method r ==? "HEAD") && (status =? 404) then Some (failure HeadMissing) else
  if (rq_Method r ==? "HEAD") && (status =? 403) then Some (failure Auth) else
  let transient :=
    if (status =? 429) || (500 <=? status) then Some (failure Transient)
    else if negb parsed then Some (failure Unknown) else None in
  if negb parsed then transient else
  if (code ==? "NoSuchKey") && (status =? 404) && dataGet then Some (failure NotFound) else
  if (code ==? "NoSuchKey") && (status =? 404) && (rq_Method r ==? "PUT") && (rq_RawQuery r ==? "") && (rq_IfMatch r !=? "")
  then Some (failure Precondition) else
  if (code ==? "PreconditionFailed") && (status =? 412) then Some (failure Precondition) else
  if status =? 409 then Some (failure Conflict) else
  if (status =? 401) || (status =? 403) then Some (failure Auth) else transient.

(** The root element a successful GET of a sub-resource must have, and whether it is a listing. *)
Definition expected_root (r : Request) : option (string * bool) :=
  if query_get r "list-type" ==? "2" then Some ("ListBucketResult", true) else
  if query_has r "uploads" then Some ("ListMultipartUploadsResult", true) else
  if query_has r "uploadId" then Some ("ListPartsResult", true) else
  if query_has r "versioning" then Some ("VersioningConfiguration", false) else
  if query_has r "lifecycle" then Some ("LifecycleConfiguration", false) else
  if query_has r "object-lock" then Some ("ObjectLockConfiguration", false) else None.
Definition envelope_ok (r : Request) (root : string) (list : bool) (b : string) : bool :=
  match unmarshal_list b with
  | None => false
  | Some p =>
      if (ld_root p !=? root) || (list && bool_decide (ld_Truncated p = None)) then false else
      if (root ==? "ListBucketResult") &&
         ((1000 <? ld_Contents p) || (0 <? ld_Prefixes p) ||
          (default false (ld_Truncated p) && ((ld_Next p ==? "") || (ld_Next p ==? query_get r "continuation-token"))))
      then false else true
  end.
Definition init_ok (r : Request) (b : string) : bool :=
  match unmarshal_init b with
  | None => false
  | Some v => (id_root v ==? "InitiateMultipartUploadResult") && ("/" +:+ id_Bucket v +:+ "/" +:+ id_Key v ==? rq_Path r)
  end.
(** The terminal control response [b] of status [status]: what [once] makes of it. *)
Definition control (r : Request) (dataGet : bool) (resp : Response) (b : string) : res Response :=
  let status := rs_StatusCode resp in
  if responseLimit <? len b then Err (failure Limit) else
  let validXML := validXMLDocument b in
  let doc := unmarshal_error b in
  let parsed := validXML && match doc with Some d => ed_root d ==? "Error" | None => false end in
  let code := match doc with Some d => ed_Code d | None => "" end in
  match (if 400 <=? status then error_outcome r dataGet status parsed code
         else if (len b !=? 0) && negb validXML then Some (failure Corrupt) else None) with
  | Some e => Err e
  | None =>
      if (status =? 200) && (rq_Method r ==? "GET") &&
         match expected_root r with Some (root, list) => negb (envelope_ok r root list b) | None => false end
      then Err (failure Corrupt) else
      if (status =? 200) && (rq_Method r ==? "POST") && query_has r "uploads" && negb (init_ok r b)
      then Err (failure Corrupt) else
      Ok (mkResponse status (rs_ETag resp) (rs_LastModified resp) (rs_ContentEncoding resp) (rs_ContentLength resp)
           (mkBody [Eof b] true))
  end.

(** [once]: [limit] is the timeout of [requestTimeoutKey] when the context has one. *)
Definition once (t : Transport) (r : Request) (dataGet : bool) (limit : option Z) : wprog (res Response) :=
  let timeout :=
    if dataGet || ((rq_Method r ==? "PUT") && ((MaxMetadataSize <? rq_ContentLength r) || query_has r "partNumber"))
    then t_data t else t_metadata t in
  let timeout := match limit with Some d => Z.min timeout d | None => timeout end in
  let! slot := call (HttpSlot timeout) in
  if negb slot then fail (failure Canceled) else
  let! sent := call (Send r) in
  match sent with
  | Err e =>
      let! _ := call FreeSlot in
      let e := classify (of_net e) false in fail (if Is e Unknown then failure Transient else e)
  | Ok resp =>
      let status := rs_StatusCode resp in
      if (300 <=? status) && (status <? 400) then let! _ := call FreeSlot in fail (failure Unsupported) else
      if dataGet && (status <? 300) && negb (status =? 200) then let! _ := call FreeSlot in fail (failure Corrupt) else
      if dataGet && (status =? 200) then
        if (rs_ContentEncoding resp !=? "") || (rs_ContentLength resp <? 0) || negb (validETag (trim_quotes (rs_ETag resp)))
           || negb (ParseTime (rs_LastModified resp))
        then let! _ := call FreeSlot in fail (failure Corrupt)
        else done resp   (* the slot is released when the body is closed *)
      else
        let! _ := call FreeSlot in
        match read_all (b_reads (rs_Body resp)) (responseLimit + 1) "" with
        | None => fail (failure Transient)
        | Some b => if negb (b_closed (rs_Body resp)) then fail (failure Transient) else Ret (control r dataGet resp b)
        end
  end.

Definition count_slashes (s : string) : Z := Z.of_nat (length (Split "/" s)) - 1.
Fixpoint trim_slashes_left (s : string) : string :=
  match s with String c s' => if c ==? "/"%char then trim_slashes_left s' else s | EmptyString => EmptyString end.
Fixpoint trim_slashes_right (s : string) : string :=
  match s with
  | EmptyString => EmptyString
  | String c s' => let t := trim_slashes_right s' in if (t ==? "") && (c ==? "/"%char) then EmptyString else String c t
  end.
Definition is_data_get (r : Request) : bool :=
  (rq_Method r ==? "GET") && (rq_RawQuery r ==? "") && (1 <=? count_slashes (trim_slashes_right (trim_slashes_left (rq_Path r)))).
Definition RoundTrip (t : Transport) (r : Request) (limit : option Z) : wprog (res Response) :=
  if (rq_Scheme r !=? "https") || (rq_Host r !=? t_endpoint t) then fail (failure Unsupported) else
  let! pages := call CountPage in
  if match pages with Some n => 10001 <? n | None => false end then fail (failure Limit) else
  let dataGet := is_data_get r in
  if ((rq_Method r ==? "GET") && negb dataGet) || (rq_Method r ==? "HEAD")
  then retryRead (once t r dataGet limit) else once t r dataGet limit.

(** ** What reaches the SDK *)
(** The requests of a trace. *)
Definition sent_requests (tr : wtrace) : list Request :=
  omap (fun a => match a with Act (Send r) _ => Some r | _ => None end) tr.
(** Authenticated absence: a closed, well-formed error document of code NoSuchKey and status 404 that answers this GET. *)
Definition absence (r : Request) (tr : wtrace) : Prop :=
  exists resp b d, Act (Send r) (Ok resp) ∈ tr /\ is_data_get r = true /\ rs_StatusCode resp = 404 /\
    read_all (b_reads (rs_Body resp)) (responseLimit + 1) "" = Some b /\ b_closed (rs_Body resp) = true /\
    validXMLDocument b = true /\ unmarshal_error b = Some d /\ ed_root d = "Error" /\ ed_Code d = "NoSuchKey".
(** The service itself answered with an error status. *)
Definition answered (r : Request) (tr : wtrace) : Prop :=
  exists resp, Act (Send r) (Ok resp) ∈ tr /\ 400 <= rs_StatusCode resp.
(** A control response is passed on only whole, within the limit, and well-formed or empty below status 400. *)
Definition passed (r : Request) (resp : Response) (tr : wtrace) : Prop :=
  exists resp0, Act (Send r) (Ok resp0) ∈ tr /\ rs_StatusCode resp = rs_StatusCode resp0 /\
    (is_data_get r = true /\ rs_StatusCode resp = 200 /\ resp = resp0 /\ rs_ContentEncoding resp = "" \/
     exists b, rs_Body resp = mkBody [Eof b] true /\ len b <= responseLimit /\
       read_all (b_reads (rs_Body resp0)) (responseLimit + 1) "" = Some b /\ b_closed (rs_Body resp0) = true /\
       (rs_StatusCode resp < 400 -> b = "" \/ validXMLDocument b = true)).
Definition trip_outcome (r : Request) (tr : wtrace) (x : res Response) : Prop :=
  match x with
  | Ok resp => passed r resp tr
  | Err e => (Is e NotFound = true -> absence r tr) /\
             (Is e Precondition = true \/ Is e Auth = true \/ Is e Conflict = true -> answered r tr)
  end.

Lemma error_outcome_cases r dataGet status parsed code e : error_outcome r dataGet status parsed code = Some e ->
  Is e NotFound = true -> dataGet = true /\ status = 404 /\ parsed = true /\ code = "NoSuchKey".
Proof.
  unfold error_outcome. intros H Hn. repeat (case_match; simplify_eq; try done). bool_split. done.
Qed.
Lemma control_cases r dataGet resp b :
  match control r dataGet resp b with
  | Ok resp' => len b <= responseLimit /\ rs_StatusCode resp' = rs_StatusCode resp /\ rs_Body resp' = mkBody [Eof b] true /\
      (rs_StatusCode resp < 400 -> b = "" \/ validXMLDocument b = true)
  | Err e =>
      (Is e NotFound = true -> dataGet = true /\ rs_StatusCode resp = 404 /\ validXMLDocument b = true /\
         exists d, unmarshal_error b = Some d /\ ed_root d = "Error" /\ ed_Code d = "NoSuchKey") /\
      (Is e Precondition = true \/ Is e Auth = true \/ Is e Conflict = true -> 400 <= rs_StatusCode resp)
  end.
Proof.
  unfold control. destruct (responseLimit <? len b) eqn:El; [by split; [|intros [|[]]]|].
  apply Z.ltb_ge in El. set (parsed := validXMLDocument b && _). set (code := match unmarshal_error b with Some d => ed_Code d | None => "" end).
  assert (Hp : parsed = true -> validXMLDocument b = true /\ exists d, unmarshal_error b = Some d /\ ed_root d = "Error" /\ ed_Code d = code).
  { unfold parsed, code. intros [Hv Hd]%andb_true_iff. split; [done|]. destruct (unmarshal_error b) as [d|]; [|done].
    exists d. split; [done|]. split; [by apply bool_decide_eq_true in Hd|done]. }
  destruct (400 <=? rs_StatusCode resp) eqn:Es.
  - apply Z.leb_le in Es. destruct (error_outcome r dataGet _ parsed code) as [e|] eqn:Ee.
    + split; [|done]. intros Hn. destruct (error_outcome_cases _ _ _ _ _ _ Ee Hn) as (-> & Hst & Hpar & Hc).
      destruct (Hp Hpar) as (Hv & d & Hd & Hr & Hcd). split; [done|]. split; [done|]. split; [done|]. exists d. by rewrite Hcd.
    + destruct ((rs_StatusCode resp =? 200) && (rq_Method r ==? "GET") && _); [by split|].
      destruct ((rs_StatusCode resp =? 200) && (rq_Method r ==? "POST") && _ && _); [by split|]. repeat split; try done. lia.
  - destruct ((len b !=? 0) && negb (validXMLDocument b)) eqn:Ex; [by split; [|intros [|[]]]|].
    destruct ((rs_StatusCode resp =? 200) && (rq_Method r ==? "GET") && _); [by split; [|intros [|[]]]|].
    destruct ((rs_StatusCode resp =? 200) && (rq_Method r ==? "POST") && _ && _); [by split; [|intros [|[]]]|].
    repeat split; try done. intros _. destruct (validXMLDocument b); [by right|]. left. rewrite andb_true_r in Ex.
    apply negb_false_iff, bool_decide_eq_true in Ex. destruct b; [done|]. unfold len in Ex. cbn in Ex. lia.
Qed.

Abbreviation anything := (fun (_ : wtrace) (X : Type) (_ : wire X) => True).
Definition trip_post (r : Request) (tries : nat) (tr tr' : wtrace) (x : res Response) : Prop :=
  trip_outcome r tr' x /\ exists n, (n <= tries)%nat /\ sent_requests tr' = repeat r n ++ sent_requests tr.
Lemma once_outcome t r limit tr : wp anything (trip_post r 1 tr) (once t r (is_data_get r) limit) tr.
Proof.
  unfold once. set (timeout := match limit with Some d => _ | None => _ end). apply wp_call; [done|]. intros slot.
  assert (Hplain : forall k tr' n, k <> NotFound -> definitive k = false -> (n <= 1)%nat -> sent_requests tr' = repeat r n ++ sent_requests tr ->
    trip_post r 1 tr tr' (Err (failure k))).
  { intros k tr' n Hk Hd Hn Hs. split; [|by exists n]. split; unfold Is, failure; [by intros H%bool_decide_eq_true|].
    intros H. destruct k; try done; destruct H as [H|[H|H]]; apply bool_decide_eq_true in H; done. }
  destruct slot; cbn [negb]; [|apply (Hplain _ _ O); (done || lia)]. apply wp_call; [done|]. intros [resp|e].
  2: { apply wp_call; [done|]. intros []. destruct e; apply (Hplain _ _ 1%nat); (done || lia). }
  set (tr1 := Act (Send r) (Ok resp) :: _). assert (Hs1 : sent_requests tr1 = repeat r 1 ++ sent_requests tr) by done.
  assert (Hin : Act (Send r) (Ok resp) ∈ tr1) by left.
  assert (Hfree : forall k, k <> NotFound -> definitive k = false ->
     wp anything (trip_post r 1 tr) (let! _ := call FreeSlot in fail (failure k)) tr1).
  { intros k Hk Hd. apply wp_call; [done|]. intros []. apply (Hplain _ _ 1%nat); (done || lia). }
  cbv beta iota zeta. wp_if as E1; [by apply Hfree|]. wp_if as E2; [by apply Hfree|]. wp_if as E3.
  - wp_if as E4; [by apply Hfree|]. apply andb_true_iff in E3 as [Hd Hst%Z.eqb_eq]. split; [|by exists 1%nat].
    exists resp. split; [done|]. split; [done|]. left. repeat split; try done.
    do 3 (apply orb_false_iff in E4 as [E4 _]). by apply negb_false_iff, bool_decide_eq_true in E4.
  - apply wp_call; [done|]. intros []. destruct (read_all _ _ _) as [b|] eqn:Er; [|apply (Hplain _ _ 1%nat); (done || lia)].
    wp_if as Ec; [apply (Hplain _ _ 1%nat); (done || lia)|]. apply negb_false_iff in Ec. split; [|by exists 1%nat].
    assert (Hin2 : Act (Send r) (Ok resp) ∈ Act FreeSlot () :: tr1) by (right; exact Hin).
    pose proof (control_cases r (is_data_get r) resp b) as Hc. destruct (control r (is_data_get r) resp b) as [resp'|e].
    + destruct Hc as (Hl & Hst & Hb & Hx). exists resp. split; [done|]. split; [done|]. right. exists b. rewrite Hst. done.
    + destruct Hc as [Hn Hdf]. split.
      * intros H. destruct (Hn H) as (Hg & Hst & Hv & d & Hd & Hr & Hcd). by exists resp, b, d.
      * intros H. exists resp. split; [done|by apply Hdf].
Qed.

Lemma retry_outcome t r limit tries n last tr :
  (tries = O -> trip_outcome r tr last) ->
  wp anything (trip_post r tries tr) (retry_loop tries n last (once t r (is_data_get r) limit)) tr.
Proof.
  assert (Hq : forall tr' k tries tr, (k = Canceled) -> sent_requests tr' = sent_requests tr -> trip_post r tries tr tr' (Err (failure k))).
  { intros tr' k tries' tr0 -> Hs. split; [split; [done|by intros [|[]]]|]. exists O. split; [lia|done]. }
  revert n last tr. induction tries as [|tries IH]; intros n last tr Hl; cbn [retry_loop].
  { split; [by apply Hl|]. by exists O. }
  apply wp_call; [done|]. intros []; [by apply Hq|].
  assert (Hagain : forall tr1, sent_requests tr1 = sent_requests tr -> wp anything (trip_post r (S tries) tr)
    (let! x := once t r (is_data_get r) limit in
      match x with
      | Err e => if Is e Transient then retry_loop tries (S n) (Err e) (once t r (is_data_get r) limit) else Ret (Err e)
      | Ok _ => Ret x
      end) tr1).
  { intros tr1 Hs1. apply wp_bind. eapply wp_mono; [|apply once_outcome]. intros tr2 x [Ho (m & Hm & Hs2)].
    assert (Hstop : trip_post r (S tries) tr tr2 x).
    { split; [done|]. exists m. split; [lia|]. by rewrite Hs2, Hs1. }
    destruct x as [a|e]; [exact Hstop|]. wp_if as E; [|exact Hstop]. eapply wp_mono; [|by apply IH].
    intros tr3 y [Hy (q & Hq' & Hs3)]. split; [done|]. exists (q + m)%nat. split; [lia|].
    rewrite Hs3, Hs2, Hs1, repeat_app, app_assoc. done. }
  destruct n; [by apply Hagain|]. apply wp_call; [done|]. intros j. apply wp_call; [done|].
  intros []; [by apply Hagain|by apply Hq].
Qed.

(** The transport speaks only to its own endpoint and over https; a request that can change the
    bucket, and a data download, is sent at most once, a control read at most five times, and what is sent is the request
    itself.  [NotFound] is reported only for an authenticated NoSuchKey document that answers a data GET, a definitive refusal
    only for an answer with an error status, and a control response reaches the SDK only after it was read to its
    end within the limit and, when it is a success, is empty or well-formed XML. *)
Theorem transport_faithful t r limit tr x :
  runs (RoundTrip t r limit) [] tr x ->
  trip_outcome r tr x /\
  exists n, sent_requests tr = repeat r n /\ (n <= 5)%nat /\
    (n <> O -> rq_Scheme r = "https" /\ rq_Host r = t_endpoint t) /\
    (rq_Method r <> "HEAD" -> rq_Method r <> "GET" \/ is_data_get r = true -> (n <= 1)%nat).
Proof.
  intros Hr. refine (wp_runs anything (fun tr x => trip_outcome r tr x /\ exists n, sent_requests tr = repeat r n /\ _) _ [] tr x _ Hr).
  assert (Hq : forall tr' k, k = Unsupported \/ k = Limit -> sent_requests tr' = [] -> trip_outcome r tr' (Err (failure k)) /\
    exists n, sent_requests tr' = repeat r n /\ (n <= 5)%nat /\ (n <> O -> rq_Scheme r = "https" /\ rq_Host r = t_endpoint t) /\
    (rq_Method r <> "HEAD" -> rq_Method r <> "GET" \/ is_data_get r = true -> (n <= 1)%nat)).
  { intros tr' k Hk Hs. split; [destruct Hk as [-> | ->]; (split; [done|by intros [|[]]])|]. exists O. split; [done|]. split; [lia|]. split; [done|lia]. }
  unfold RoundTrip. wp_if as Eh; [by apply Hq; [left|]|]. bool_split. apply wp_call; [done|]. intros pages.
  destruct (match pages with Some n => 10001 <? n | None => false end); [by apply Hq; [right|]|]. cbv zeta.
  destruct ((rq_Method r ==? "GET") && negb (is_data_get r) || (rq_Method r ==? "HEAD")) eqn:Em.
  - eapply wp_mono; [|by apply retry_outcome]. intros tr' y [Hy (n & Hn & Hs)]. split; [done|]. exists n.
    rewrite Hs. change (sent_requests [Act CountPage pages]) with (@nil Request). rewrite app_nil_r.
    split; [done|]. split; [done|]. split; [done|]. intros Hh Hd. exfalso.
    apply orb_true_iff in Em as [Em|Em]; [|by apply bool_decide_eq_true in Em].
    apply andb_true_iff in Em as [Eg Ed]. apply bool_decide_eq_true in Eg. destruct Hd as [|Hd]; [done|]. by rewrite Hd in Ed.
  - eapply wp_mono; [|by apply once_outcome]. intros tr' y [Hy (n & Hn & Hs)]. split; [done|]. exists n.
    rewrite Hs. change (sent_requests [Act CountPage pages]) with (@nil Request). rewrite app_nil_r.
    split; [done|]. split; [lia|]. split; [done|]. done.
Qed.
End Transport.

(** ** A GET of a missing object *)
Definition missing_doc : string := "<Error><Code>NoSuchKey</Code></Error>".
Definition demo_tokens (b : string) : list (xtoken * Z) * bool :=
  if b ==? missing_doc then ([(StartElement [], 7); (StartElement [], 13); (CharData, 22); (EndElement, 29); (EndElement, 37)], true)
  else ([], false).
Definition demo_unmarshal_error (b : string) : option ErrorDoc :=
  if b ==? missing_doc then Some (mkErrorDoc "Error" "NoSuchKey") else None.
Definition demo_transport : Transport := mkTransport "s3.example" 30 900.
Definition demo_request : Request := mkRequest "GET" "https" "s3.example" "/bucket/cluster-a/probe" "" [] 0 "".
Definition missing_handler : @Prog.handler wire () := fun X e s =>
  match e in wire X return X * () with
  | Send _ => (Ok (mkResponse 404 "" "" "" 37 (mkBody [Full "<Error><Code>"; Eof "NoSuchKey</Code></Error>"] true)), s)
  | e => (demo_answer e, s)
  end.
Definition demo_trip : wprog (res Response) :=
  RoundTrip demo_tokens demo_unmarshal_error (fun _ => None) (fun _ => None) (fun _ => true) demo_transport demo_request None.
Lemma transport_faithful_witness :
  exists tr, runs demo_trip [] tr (Err (failure NotFound)) /\
    trip_outcome demo_tokens demo_unmarshal_error demo_request tr (Err (failure NotFound)).
Proof.
  exists (run_trace missing_handler demo_trip () []).
  assert (H : runs demo_trip [] (run_trace missing_handler demo_trip () []) (Err (failure NotFound))).
  { assert (E : (run missing_handler demo_trip ()).1 = Err (failure NotFound)) by (vm_compute; reflexivity).
    rewrite <- E. apply run_trace_runs. }
  split; [exact H|]. apply (transport_faithful _ _ _ _ _ _ _ _ _ _ H).
Defined.
Example declaration_accepted : xmlDeclaration "version='1.0' encoding='utf-8'" = true /\ xmlDeclaration "version='1.1'" = false.
Proof. split; vm_compute; reflexivity. Qed.
