(* ===== verification/Configuration.v ===== *)
(** * Repository configuration (internal/configuration/repository.go, store.go)

    The specification of a repository, its validation, the bounded strict decoder and the store that a snapshot opens.
    net/url, time.ParseDuration, resource.Quantity and the Kubernetes name rules are parameters. *)

From S2P Require Import Prelude GoStrings GoTime Errors Schema Json LooseJson Store S3Keys S3Config.

Definition GiB : Z := 2 ^ 30.
Record Selector := mkSelector { sel_Name : string; sel_Key : string }.
Record S3Spec := mkS3Spec {
  s3_Endpoint : string; s3_Bucket : string; s3_Prefix : string; s3_Signature : string; s3_Addressing : string; s3_Region : string;
  s3_AccessKeySecret : Selector; s3_SecretKeySecret : Selector; s3_SessionTokenSecret : option Selector;
  s3_CAConfigMap : option Selector; s3_Encryption : string }.
Record IO := mkIO {
  io_ConnectTimeout : string; io_MetadataTimeout : string; io_DataRequestTimeout : string; io_OperationTimeout : string;
  io_WALUploadTimeout : string; io_ArtifactUploads : Z; io_PartWorkers : Z; io_WALUploads : Z }.
Record RetentionSpec := mkRetentionSpec {
  rt_Enabled : bool; rt_DryRun : bool; rt_Window : string; rt_MinimumFulls : Z; rt_Interval : string }.
Record Workspace := mkWorkspace { ws_StorageClassName : string; ws_Size : string }.
Record Native := mkNative {
  n_MaxBackupBytes : Z; n_MaxBootstrapWALBytes : Z; n_MaxRestoredBytes : Z; n_MaxReferenceAge : string; n_CaptureTimeout : string }.
Record Freshness := mkFreshness { fr_FullMaxAge : string; fr_DifferentialMaxAge : string }.
(** Quantities in units of 10^-9. *)
Record Resources := mkResources { re_Claims : Z; re_Requests : gmap string Z; re_Limits : gmap string Z }.
Record Spec := mkSpec {
  sp_RepositoryID : string; sp_S3 : S3Spec; sp_Compression : string; sp_IO : IO; sp_Retention : RetentionSpec;
  sp_Workspace : Workspace; sp_Native : Native; sp_Resources : Resources; sp_BackupFreshness : Freshness }.

(** ** [path.Clean] *)
Definition clean_step (rooted : bool) (out : list string) (c : string) : list string :=
  if (c ==? "") || (c ==? ".") then out
  else if c ==? ".." then
    match last out with
    | Some l => if l ==? ".." then out ++ [c] else take (length out - 1) out
    | None => if rooted then out else [c]
    end
  else out ++ [c].
Definition path_clean (p : string) : string :=
  if p ==? "" then "." else
  let rooted := HasPrefix p "/" in
  let s := join "/" (foldl (clean_step rooted) [] (Split "/" p)) in
  if rooted then "/" +:+ s else if s ==? "" then "." else s.

Section Validate.
Context (ParseDuration : string -> option Z) (Parse : string -> option URL) (Hostname : URL -> string)
  (IsDNS1123Subdomain IsConfigMapKey : string -> bool) (ParseQuantity : string -> option Z).

Definition duration (value : string) (min max : Z) : bool :=
  match ParseDuration value with Some d => (min <=? d) && (d <=? max) | None => false end.
Definition Selector_validate (s : Selector) : bool :=
  IsDNS1123Subdomain (sel_Name s) && (sel_Name s !=? "") && IsConfigMapKey (sel_Key s) && (sel_Key s !=? "").

Definition endpoint_valid (e : string) : bool :=
  match Parse e with
  | None => false
  | Some u => negb ((u_Scheme u !=? "https") || (u_Host u ==? "") || (Hostname u ==? "") || u_User u || (u_RawQuery u !=? "") ||
      u_ForceQuery u || (u_Fragment u !=? "") || (u_RawPath u !=? "") || ((u_Path u !=? "") && (u_Path u !=? "/")))
  end.
Definition prefix_valid (p : string) : bool :=
  if (p ==? "") || (128 <? len p) || (path_clean p !=? p) || HasPrefix p "/" || ContainsAny p ["\"; "%"; "?"; "#"]%char ||
     (p ==? ".") || (p ==? "..") || HasPrefix p "../"
  then false else all_chars plain_char p.
Definition day : Z := 24 * hour_ns.
Definition duration_bounds (s : Spec) : list (string * Z * Z) :=
  let io := sp_IO s in
  [(io_ConnectTimeout io, second, minute); (io_MetadataTimeout io, second, 2 * minute);
   (io_DataRequestTimeout io, 10 * second, hour_ns); (io_OperationTimeout io, minute, 7 * day);
   (io_WALUploadTimeout io, 10 * second, 15 * minute); (n_MaxReferenceAge (sp_Native s), hour_ns, 30 * day);
   (n_CaptureTimeout (sp_Native s), minute, 6 * hour_ns); (rt_Interval (sp_Retention s), 5 * minute, day)].
Definition native_budgets (n : Native) : bool :=
  negb ((n_MaxBackupBytes n <? 1) || (1024 * GiB <? n_MaxBackupBytes n) || (n_MaxBootstrapWALBytes n <? 1) ||
    (256 * GiB <? n_MaxBootstrapWALBytes n) || (n_MaxBackupBytes n <? n_MaxBootstrapWALBytes n) ||
    (n_MaxRestoredBytes n <? 1) || (1024 * GiB <? n_MaxRestoredBytes n)).
Definition resources_valid (r : Resources) : bool :=
  (re_Claims r =? 0) && (Z.of_nat (size (re_Requests r)) =? 2) && (Z.of_nat (size (re_Limits r)) =? 2) &&
  forallb (fun '(name, max) =>
    match re_Requests r !! name, re_Limits r !! name with
    | Some req, Some lim => (0 <? req) && (0 <? lim) && (req <=? lim) && (lim <=? max)
    | _, _ => false
    end) [("cpu", 2 * 10 ^ 9); ("memory", 3 * GiB * 10 ^ 9)].

(** [Spec.Validate]: [Err] names the field. *)
Definition Spec_validate (s : Spec) : result string () :=
  let s3 := sp_S3 s in
  if negb (uuidRE (sp_RepositoryID s)) then Err "repositoryID" else
  if negb (endpoint_valid (s3_Endpoint s3)) then Err "s3.endpoint" else
  if negb (IsDNS1123Subdomain (s3_Bucket s3)) || (len (s3_Bucket s3) <? 3) || (63 <? len (s3_Bucket s3)) then Err "s3.bucket" else
  if negb (prefix_valid (s3_Prefix s3)) then Err "s3.prefix" else
  if (s3_Signature s3 !=? "v2") && (s3_Signature s3 !=? "v4") then Err "s3.signature" else
  if (s3_Addressing s3 !=? "path") || (s3_Encryption s3 !=? "bucket-default") || (s3_Region s3 ==? "") || (64 <? len (s3_Region s3))
  then Err "s3.addressing/encryption/region" else
  if negb (Selector_validate (s3_AccessKeySecret s3)) || negb (Selector_validate (s3_SecretKeySecret s3))
  then Err "s3 credential references" else
  if match s3_SessionTokenSecret s3 with Some t => (s3_Signature s3 !=? "v4") || negb (Selector_validate t) | None => false end
  then Err "s3.sessionTokenSecret" else
  if match s3_CAConfigMap s3 with Some t => negb (Selector_validate t) | None => false end then Err "s3.caConfigMap" else
  if (sp_Compression s !=? "gzip") && (sp_Compression s !=? "none") then Err "compression" else
  if negb (forallb (fun '(v, lo, hi) => duration v lo hi) (duration_bounds s)) then Err "duration bounds" else
  if negb (forallb (fun n => (1 <=? n) && (n <=? 2)) [io_ArtifactUploads (sp_IO s); io_PartWorkers (sp_IO s); io_WALUploads (sp_IO s)])
  then Err "io concurrency" else
  let r := sp_Retention s in
  if (rt_MinimumFulls r <? 1) || (100 <? rt_MinimumFulls r) || (rt_Enabled r && (rt_Window r ==? "")) ||
     ((rt_Window r !=? "") && negb (duration (rt_Window r) hour_ns (3650 * day)))
  then Err "retention" else
  if negb (forallb (fun v => (v ==? "") || duration v minute (3650 * day))
       [fr_FullMaxAge (sp_BackupFreshness s); fr_DifferentialMaxAge (sp_BackupFreshness s)])
  then Err "backupFreshness" else
  if negb (native_budgets (sp_Native s)) then Err "native byte budgets" else
  let w := sp_Workspace s in
  if match ParseQuantity (ws_Size w) with Some v => (v <? GiB) || (8192 * GiB <? v) | None => true end ||
     (ws_StorageClassName w ==? "") || negb (IsDNS1123Subdomain (ws_StorageClassName w))
  then Err "workspace" else
  if negb (resources_valid (sp_Resources s)) then Err "resources" else Ok ().

Definition SameStorage (s o : Spec) : bool :=
  (sp_RepositoryID s ==? sp_RepositoryID o) && (s3_Endpoint (sp_S3 s) ==? s3_Endpoint (sp_S3 o)) &&
  (s3_Bucket (sp_S3 s) ==? s3_Bucket (sp_S3 o)) && (s3_Prefix (sp_S3 s) ==? s3_Prefix (sp_S3 o)) &&
  (s3_Signature (sp_S3 s) ==? s3_Signature (sp_S3 o)) && (s3_Addressing (sp_S3 s) ==? s3_Addressing (sp_S3 o)) &&
  (s3_Region (sp_S3 s) ==? s3_Region (sp_S3 o)).

(** [Snapshot] and the configuration [Store] passes to [s3store.New]. *)
Record Snapshot := mkSnapshot {
  sn_Spec : Spec; sn_AccessKey : string; sn_SecretKey : string; sn_SessionToken : string; sn_CA : string }.
Definition dur (v : string) : Z := default 0 (ParseDuration v).
Definition store_config (s : Snapshot) : Config :=
  let c := sp_S3 (sn_Spec s) in
  let i := sp_IO (sn_Spec s) in
  mkConfig (s3_Endpoint c) (s3_Bucket c) (s3_Prefix c) (s3_Signature c) (s3_Addressing c) (s3_Region c)
    (sn_AccessKey s) (sn_SecretKey s) (sn_SessionToken s) (sn_CA s)
    (dur (io_ConnectTimeout i)) (dur (io_MetadataTimeout i)) (dur (io_DataRequestTimeout i)) (dur (io_OperationTimeout i))
    (dur (io_WALUploadTimeout i)) (io_ArtifactUploads i) (io_PartWorkers i) (io_WALUploads i).
Definition Snapshot_Store (New : Config -> res Opened) (s : Snapshot) : res Opened :=
  match Spec_validate (sn_Spec s) with Err _ => Err ErrOther | Ok _ => New (store_config s) end.
End Validate.

(** ** The strict decoder *)
Fixpoint json_depth_ok (fuel : nat) (depth : Z) (j : json) : bool :=
  match fuel with
  | O => false
  | S fuel =>
      (depth <=? 32) &&
      match j with
      | JObject l => bool_decide (NoDup l.*1) && forallb (fun kv => json_depth_ok fuel (depth + 1) kv.2) l
      | JArray l => forallb (json_depth_ok fuel (depth + 1)) l
      | _ => true
      end
  end.
(** [StrictJSONLimit]: one document, no repeated member, at most 32 levels, no unknown member.  The fuel is one more than the
    levels the bound allows. *)
Definition StrictJSONInto {A} {L : Loose A} (out : A) (data : string) (maxBytes : Z) : option A :=
  if (maxBytes <=? 0) || (maxBytes <? len data) || negb (ValidString data) then None else
  match parse_document (sanitize false 0 data) with
  | None => None
  | Some j => if json_depth_ok 34 0 j then into out j else None
  end.
Definition StrictJSONLimit {A} {L : Loose A} (data : string) (maxBytes : Z) : option A := StrictJSONInto zero data maxBytes.
Definition StrictJSON {A} {L : Loose A} (data : string) : option A := StrictJSONLimit data (256 * 1024).

(** ** Clean paths *)
Lemma clean_keeps rooted out l : forallb validPart l = true -> foldl (clean_step rooted) out l = out ++ l.
Proof.
  revert out. induction l as [|c l IH]; intros out H; cbn in *; [by rewrite app_nil_r|].
  apply andb_true_iff in H as [Hc Hl]. rewrite IH by done. unfold clean_step, validPart in *.
  apply andb_true_iff in Hc as [Hc H3]. apply andb_true_iff in Hc as [H1 H2].
  apply negb_true_iff in H1, H2, H3. rewrite H1, H2, H3. cbn. by rewrite <- app_assoc.
Qed.
Definition no_slash (c : string) : bool := all_chars (fun c => c !=? "/"%char) c.
Lemma split_no_slash cur s : no_slash cur = true -> forallb no_slash (split_go "/" cur s) = true.
Proof.
  revert cur. induction s as [|c s IH]; intros cur Hc; cbn; [by rewrite Hc|].
  case_bool_decide as E; cbn; [rewrite Hc; by apply IH|]. apply IH. unfold no_slash in *. rewrite all_chars_append, Hc. cbn.
  by rewrite bool_decide_eq_false_2.
Qed.
Lemma Split_join_all l : l <> [] -> forallb no_slash l = true -> Split "/" (join "/" l) = l.
Proof.
  induction l as [|x l IH]; intros Hn H; [done|]. cbn in H. apply andb_true_iff in H as [Hx Hl].
  destruct l as [|y l]; [by apply Split_nosep|]. change (join "/" (x :: y :: l)) with (x +:+ String "/" (join "/" (y :: l))).
  rewrite Split_join by done. by rewrite IH.
Qed.
(** A cleaned relative path is some leading [..] and then proper components. *)
Lemma clean_shape l : forallb no_slash l = true -> exists k rest,
  foldl (clean_step false) [] l = replicate k ".." ++ rest /\ forallb validPart rest = true /\ forallb no_slash rest = true.
Proof.
  assert (H : forall k rest, forallb no_slash l = true -> forallb validPart rest = true -> forallb no_slash rest = true ->
    exists k' rest', foldl (clean_step false) (replicate k ".." ++ rest) l = replicate k' ".." ++ rest' /\
      forallb validPart rest' = true /\ forallb no_slash rest' = true).
  { induction l as [|c l IH]; intros k rest Hl Hv Hn; cbn; [eauto|]. cbn in Hl. apply andb_true_iff in Hl as [Hc Hl].
    assert (exists k' rest', clean_step false (replicate k ".." ++ rest) c = replicate k' ".." ++ rest' /\
      forallb validPart rest' = true /\ forallb no_slash rest' = true) as (k' & rest' & -> & Hv' & Hn'); [|by apply IH].
    unfold clean_step. destruct ((c ==? "") || (c ==? ".")) eqn:E1; [eauto|].
    destruct (decide (c = "..")) as [->|E2]; [rewrite (bool_decide_eq_true_2 (".." = "..")) by done|rewrite (bool_decide_eq_false_2 (c = "..")) by done].
    - destruct rest as [|x rest _] using rev_ind.
      + rewrite app_nil_r. destruct k as [|k]; [by exists 1%nat, []|]. rewrite replicate_S_end, last_snoc.
        exists (S (S k)), []. rewrite app_nil_r. split; [|done].
        by rewrite (replicate_S_end (S k)), (replicate_S_end k).
      + rewrite app_assoc, last_snoc. rewrite forallb_app in Hv, Hn. apply andb_true_iff in Hv as [Hv Hx].
        apply andb_true_iff in Hn as [Hn _]. cbn in Hx. rewrite andb_true_r in Hx. unfold validPart in Hx.
        apply andb_true_iff in Hx as [_ Hx]. apply negb_true_iff in Hx. rewrite Hx.
        exists k, rest. split; [|done]. rewrite length_app. cbn [length].
        rewrite Nat.add_sub. by rewrite take_app_length.
    - exists k, (rest ++ [c]). split; [by rewrite <- app_assoc|]. rewrite !forallb_app, Hv, Hn. cbn. rewrite Hc. split; [|done].
      rewrite !andb_true_r. unfold validPart. apply orb_false_iff in E1 as [E1 E3]. rewrite E1, E3.
      by rewrite (bool_decide_eq_false_2 (c = "..")). }
  intros Hl. by apply (H 0%nat []).
Qed.
Lemma parts_not_rooted p : forallb validPart (Split "/" p) = true -> HasPrefix p "/" = false.
Proof.
  intros H. destruct (HasPrefix p "/") eqn:E; [|done]. apply HasPrefix_inv in E. rewrite E in H.
  change ("/" +:+ ?x) with ("" +:+ String "/" x) in H. rewrite Split_join in H by done. done.
Qed.
Lemma path_clean_proper p : forallb validPart (Split "/" p) = true -> path_clean p = p.
Proof.
  intros H. unfold path_clean. case_bool_decide as E; [by subst p|]. rewrite (parts_not_rooted p H), clean_keeps by done.
  cbn [app]. rewrite join_Split. by rewrite bool_decide_eq_false_2.
Qed.

(** The prefixes [Repository.spec] accepts are exactly the nonempty keys of at most 128 bytes that the
    store accepts, although the two rules are written differently. *)
Theorem prefix_contract p : prefix_valid p = true <-> p <> "" /\ len p <= 128 /\ validPath p = true.
Proof.
  unfold prefix_valid, validPath. split.
  - destruct (_ || HasPrefix p "../") eqn:E; [done|]. intros Hpl. repeat (apply orb_false_iff in E as [E ?]).
    apply bool_decide_eq_false in E, H0, H1. apply negb_false_iff, bool_decide_eq_true in H4. apply Z.ltb_ge in H5.
    split; [done|]. split; [done|]. rewrite bool_decide_eq_false_2 by done. unfold plain. rewrite Hpl, H2. cbn.
    destruct (clean_shape (Split "/" p) (split_no_slash "" p eq_refl)) as (k & rest & Hf & Hv & Hn).
    unfold path_clean in H4. rewrite bool_decide_eq_false_2, H3, Hf in H4 by done.
    destruct k as [|k].
    + cbn [replicate app] in H4. destruct (join "/" rest ==? "") eqn:Ej; [congruence|]. rewrite <- H4.
      rewrite Split_join_all; [done| |done]. intros ->. done.
    + exfalso. destruct (join "/" _ ==? "") eqn:Ej; [congruence|].
      cbn [replicate app] in H4. destruct (replicate k ".." ++ rest) as [|y l] eqn:El.
      * change (join "/" [".."]) with ".." in H4. congruence.
      * change (join "/" (".." :: y :: l)) with ("../" +:+ join "/" (y :: l)) in H4. rewrite <- H4 in H.
        by rewrite (proj1 (HasPrefix_append "../" _)) in H.
  - intros (Hne & Hlen & H). destruct ((p ==? "") || negb (plain p) || ContainsAny p _) eqn:E; [done|].
    apply orb_false_iff in E as [E Hc]. apply orb_false_iff in E as [E Hp]. apply negb_false_iff in Hp.
    rewrite E, Hc, (parts_not_rooted p H), (path_clean_proper p H). rewrite (bool_decide_eq_true_2 (p = p)) by done.
    apply Z.ltb_ge in Hlen as ->. cbn [negb orb].
    rewrite (bool_decide_eq_false_2 (p = ".")) by (intros ->; done).
    rewrite (bool_decide_eq_false_2 (p = "..")) by (intros ->; done). cbn [orb].
    destruct (HasPrefix p "../") eqn:E3; [|exact Hp]. exfalso. apply HasPrefix_inv in E3. rewrite E3 in H.
    change ("../" +:+ ?x) with (".." +:+ String "/" x) in H. rewrite Split_join in H by done. done.
Qed.

Section StoreLimits.
Context (ParseDuration : string -> option Z) (Parse : string -> option URL) (Hostname : URL -> string)
  (IsDNS1123Subdomain IsConfigMapKey : string -> bool) (ParseQuantity : string -> option Z).
Context (IsS3ExpressBucket : string -> bool) (IsAmazonExpressRegional IsAmazonExpressZonal IsAmazonOutposts IsAmazonEndpoint : URL -> bool)
  (CheckValidBucketNameStrict : string -> bool) (SystemCertPool : bool) (Decode : string -> option Block * string)
  (ParseCertificate : string -> option bool) (NewCore : string -> bool).
Let New := S3Config.New Parse IsS3ExpressBucket IsAmazonExpressRegional IsAmazonExpressZonal IsAmazonOutposts IsAmazonEndpoint
  CheckValidBucketNameStrict SystemCertPool Decode ParseCertificate NewCore.

Lemma limit_declared v def lo hi w : limit v def lo hi = Ok w -> 0 < lo -> v <> 0 -> w = v.
Proof. unfold limit. intros H Hlo Hv. apply Z.eqb_neq in Hv. rewrite Hv in H. case_match; congruence. Qed.
Lemma duration_declared v lo hi : duration ParseDuration v lo hi = true -> ParseDuration v = Some (dur ParseDuration v) /\ lo <= dur ParseDuration v <= hi.
Proof.
  unfold duration, dur. destruct (ParseDuration v) as [d|]; [|done]. intros [?%Z.leb_le ?%Z.leb_le]%andb_true_iff. cbn. done.
Qed.

(** A store opened for a snapshot runs under exactly the limits its specification declares; no default
    replaces one, and its prefix satisfies the store's own rule. *)
Theorem store_keeps_limits s o :
  Snapshot_Store ParseDuration Parse Hostname IsDNS1123Subdomain IsConfigMapKey ParseQuantity New s = Ok o ->
  let io := sp_IO (sn_Spec s) in
  ParseDuration (io_ConnectTimeout io) = Some (on_connect o) /\ ParseDuration (io_MetadataTimeout io) = Some (on_metadata o) /\
  ParseDuration (io_DataRequestTimeout io) = Some (on_data o) /\ ParseDuration (io_OperationTimeout io) = Some (on_operation o) /\
  ParseDuration (io_WALUploadTimeout io) = Some (on_wal o) /\
  Z.of_nat (s_workers (on_store o)) = io_PartWorkers io /\ on_artifacts o = io_ArtifactUploads io /\ on_walslots o = io_WALUploads io /\
  s_prefix (on_store o) = s3_Prefix (sp_S3 (sn_Spec s)) /\ validPath (s_prefix (on_store o)) = true.
Proof.
  unfold Snapshot_Store. destruct (Spec_validate _ _ _ _ _ _ (sn_Spec s)) as [[]|] eqn:Ev; [|done].
  unfold Spec_validate in Ev. cbv zeta in Ev.
  repeat match type of Ev with (if ?b then Err _ else _) = _ => let E := fresh "V" in destruct b eqn:E; [done|] end.
  apply negb_false_iff in V2, V9, V10. apply prefix_contract in V2 as (_ & _ & Hp).
  cbn [forallb duration_bounds] in V9, V10.
  repeat match goal with H : (_ && _) = true |- _ => apply andb_true_iff in H as [? H] end.
  repeat match goal with H : duration _ _ _ _ = true |- _ => apply duration_declared in H as [-> ?] end.
  repeat match goal with H : (_ && _) = true |- _ => apply andb_true_iff in H as [?%Z.leb_le H%Z.leb_le] end.
  unfold New, S3Config.New. destruct (Parse _) as [u|]; [|done].
  destruct (negb (endpoint_ok _ _)); [done|]. destruct (negb (credentials_ok _)); [done|].
  destruct (negb (service_ok _ _ _ _ _ _ _)); [done|]. destruct (negb (names_ok _ _)); [done|]. intros Hnew.
  repeat match type of Hnew with
  | (let? x := ?m in _) = _ => let E := fresh "L" in destruct m as [?v|?] eqn:E; cbn [res_bind] in Hnew; [|done]
  end.
  repeat match type of Hnew with (if ?b then Err _ else _) = _ => destruct b; [done|] end.
  injection Hnew as <-.
  cbn [on_connect on_metadata on_data on_operation on_wal on_store on_artifacts on_walslots s_workers s_prefix].
  unfold second, minute, hour_ns, store_config in *.
  cbn [cf_ConnectTimeout cf_MetadataTimeout cf_DataRequestTimeout cf_OperationTimeout cf_WALUploadTimeout cf_ArtifactUploads cf_PartWorkers cf_WALUploads cf_Prefix] in *.
  repeat match goal with L : limit _ _ _ _ = Ok _ |- _ => apply limit_declared in L; [subst|unfold second; lia|unfold second in *; lia] end.
  repeat split; try done. rewrite Z2Nat.id; lia.
Qed.
End StoreLimits.
