(* ===== verification/Capacity.v ===== *)
(** * Filesystem budgets (internal/configuration/capacity.go)

    The kernel's mount inventory, the check that a budget fits a dedicated finite filesystem, and the peak of a capture. *)

From S2P Require Import Prelude GoStrings GoTime Errors Configuration.

Record FilesystemBudget := mkBudget { fb_Mount : string; fb_LimitBytes : Z; fb_RequiredBytes : Z }.
Record mountRecord := mkMount { mr_device : string; mr_root : string; mr_path : string; mr_fs : string; mr_readOnly : bool }.

(** ** /proc/self/mountinfo *)
(** [bufio.ScanLines]: the text after the last newline counts when it is not empty; a final carriage return is dropped. *)
Definition drop_cr (l : string) : string := if HasSuffix l (String "013" "") then TrimSuffix l (String "013" "") else l.
Definition scan_lines (text : string) : list string :=
  let l := Split "010" text in
  if last l ==? Some "" then take (length l - 1) l else l.
(** [strings.NewReplacer(`\040`, " ", `\011`, "\t", `\012`, "\n", `\134`, `\`)] *)
Fixpoint decode_octal (skip : nat) (s : string) : string :=
  match s with
  | EmptyString => EmptyString
  | String c t =>
      match skip with
      | S k => decode_octal k t
      | O =>
          if HasPrefix s "\040" then String " " (decode_octal 3 t)
          else if HasPrefix s "\011" then String "009" (decode_octal 3 t)
          else if HasPrefix s "\012" then String "010" (decode_octal 3 t)
          else if HasPrefix s "\134" then String "\" (decode_octal 3 t)
          else String c (decode_octal 0 t)
      end
  end.
Fixpoint index_of (x : string) (i : Z) (l : list string) : Z :=
  match l with [] => -1 | y :: l => if y ==? x then i else index_of x (i + 1) l end.
Definition read_only (options : string) : bool := Contains ("," +:+ options +:+ ",") ",ro,".
Definition mount_line (line : string) : res mountRecord :=
  let fields := Fields line in
  let separator := index_of "-" 0 fields in
  let nth i := nth (Z.to_nat i) fields "" in
  if (Z.of_nat (length fields) <? 10) || (separator <? 6) || (Z.of_nat (length fields) <=? separator + 3) then Err ErrOther else
  Ok (mkMount (nth 2) (decode_octal 0 (nth 3)) (decode_octal 0 (nth 4)) (nth (separator + 1))
        (read_only (nth 5) || read_only (nth (separator + 3)))).
(** A line of 64 KiB or more stops the scanner with an error. *)
Definition mounts (text : string) : res (list mountRecord) :=
  let text := String.substring 0 (Z.to_nat (2 ^ 20 + 1)) text in
  let? (_, result) := forM (scan_lines text) (0, []) (fun '(total, result) line =>
    if 65536 <=? len line then Err ErrOther else
    let line := drop_cr line in
    let total := total + (len line + 1) in
    if (2 ^ 20 <? total) || (4096 <=? Z.of_nat (length result)) then Err ErrOther else
    let? m := mount_line line in Ok (total, result ++ [m])) in
  Ok result.

Definition finiteMount (inventory : list mountRecord) (path : string) : res mountRecord :=
  match List.filter (fun m => mr_path m ==? path) inventory with
  | [found] =>
      if (mr_root found !=? "/") || ((mr_fs found !=? "ext4") && (mr_fs found !=? "xfs")) || mr_readOnly found ||
         HasPrefix (mr_device found) "0:"
      then Err ErrOther else Ok found
  | _ => Err ErrOther
  end.

(** [unix.Statfs_t]: a signed block size, unsigned counts. *)
Record Statfs := mkStatfs { sf_Type : Z; sf_Bsize : Z; sf_Blocks : Z; sf_Bavail : Z }.
(** [(b.RequiredBytes+st.Bsize-1)/st.Bsize] in int64, as uint64. *)
Definition to_int64 (z : Z) : Z := let w := z mod 2 ^ 64 in if w <? 2 ^ 63 then w else w - 2 ^ 64.
Definition blocks_for (bytes bsize : Z) : Z := wrap64 (Z.quot (to_int64 (bytes + bsize - 1)) bsize).
Definition checkSpace (b : FilesystemBudget) (st : Statfs) : res () :=
  if (fb_LimitBytes b <=? 0) || (8192 * GiB <? fb_LimitBytes b) || (fb_RequiredBytes b <? 0) || (fb_LimitBytes b <? fb_RequiredBytes b) ||
     (sf_Bsize st <=? 0) || (fb_LimitBytes b / sf_Bsize st <? sf_Blocks st)
  then Err ErrOther else
  if (sf_Blocks st <? sf_Bavail st) || (sf_Bavail st <? blocks_for (fb_RequiredBytes b) (sf_Bsize st)) then Err ErrOther else Ok ().

(** What the kernel answers about a mount: where its name leads, and the device and filesystem behind it. *)
Record Kernel := mkKernel {
  k_mountinfo : option string; k_resolve : string -> option string; k_stat : string -> option (string * Statfs) }.
Definition EXT4_SUPER_MAGIC : Z := 0xef53.
Definition XFS_SUPER_MAGIC : Z := 0x58465342.
Definition IsAbs (p : string) : bool := HasPrefix p "/".

Definition check_budget (k : Kernel) (inventory : list mountRecord) (seen : list string) (b : FilesystemBudget) : res (list string) :=
  if negb (IsAbs (fb_Mount b)) || (path_clean (fb_Mount b) !=? fb_Mount b) || (fb_Mount b ==? "/") then Err ErrOther else
  if k_resolve k (fb_Mount b) !=? Some (fb_Mount b) then Err ErrOther else
  let? mount := finiteMount inventory (fb_Mount b) in
  if bool_decide (mr_device mount ∈ seen) then Err ErrOther else
  match k_stat k (fb_Mount b) with
  | None => Err ErrOther
  | Some (device, fs) =>
      if (device !=? mr_device mount) || (negb (sf_Type fs =? EXT4_SUPER_MAGIC) && negb (sf_Type fs =? XFS_SUPER_MAGIC)) then Err ErrOther else
      let? _ := checkSpace b fs in Ok (mr_device mount :: seen)
  end.
Definition CheckCapacity (k : Kernel) (budgets : list FilesystemBudget) : res () :=
  if (Z.of_nat (length budgets) <? 1) || (67 <? Z.of_nat (length budgets)) then Err ErrOther else
  match k_mountinfo k with
  | None => Err ErrOther
  | Some text =>
      let? inventory := mounts text in
      let? _ := forM budgets [] (check_budget k inventory) in Ok ()
  end.

(** ** Peaks *)
Definition CapacityMargin (bytes : Z) : Z := Z.max GiB (Z.quot (bytes + 9) 10).
(** The raw bytes and the allowance for incompressible data. *)
Definition spool_bound (a : Z) : Z := a + Z.max GiB (Z.quot (a + 99) 100).
Definition CaptureCapacity (n : Native) : res Z :=
  if (n_MaxBackupBytes n <? 1) || (1024 * GiB <? n_MaxBackupBytes n) || (n_MaxBootstrapWALBytes n <? 1) ||
     (256 * GiB <? n_MaxBootstrapWALBytes n) || (n_MaxBackupBytes n <? n_MaxBootstrapWALBytes n)
  then Err ErrOther else
  let a := n_MaxBackupBytes n in
  let peak := a + spool_bound a + n_MaxBootstrapWALBytes n + 8192 * 100000 in
  Ok (peak + CapacityMargin peak).

(** ** Reservations *)
Lemma blocks_for_spec bytes bsize : 0 <= bytes <= 8192 * GiB -> 0 < bsize < 2 ^ 62 ->
  bytes <= blocks_for bytes bsize * bsize.
Proof.
  intros Hb Hs. unfold blocks_for, to_int64, wrap64, GiB in *.
  rewrite (Z.mod_small (bytes + bsize - 1)) by lia. destruct (bytes + bsize - 1 <? 2 ^ 63) eqn:E; [|apply Z.ltb_ge in E; lia].
  rewrite Z.quot_div_nonneg by lia. pose proof (Z.div_mod (bytes + bsize - 1) bsize ltac:(lia)) as Hd.
  pose proof (Z.mod_pos_bound (bytes + bsize - 1) bsize ltac:(lia)) as Hm.
  assert (0 <= (bytes + bsize - 1) / bsize <= bytes + bsize - 1) by (split; [apply Z.div_pos; lia|apply Z.div_le_upper_bound; nia]).
  rewrite Z.mod_small by lia. nia.
Qed.
(** A filesystem as the kernel describes it. *)
Definition statfs_ok (fs : Statfs) : Prop := sf_Bsize fs < 2 ^ 62 /\ 0 <= sf_Bavail fs /\ 0 <= sf_Blocks fs.
Definition reserved (k : Kernel) (b : FilesystemBudget) (device : string) : Prop :=
  exists fs, k_stat k (fb_Mount b) = Some (device, fs) /\ (sf_Type fs = EXT4_SUPER_MAGIC \/ sf_Type fs = XFS_SUPER_MAGIC) /\
    k_resolve k (fb_Mount b) = Some (fb_Mount b) /\
    sf_Blocks fs * sf_Bsize fs <= fb_LimitBytes b <= 8192 * GiB /\ fb_RequiredBytes b <= sf_Bavail fs * sf_Bsize fs.
Lemma checkSpace_spec b fs : statfs_ok fs -> checkSpace b fs = Ok () ->
  sf_Blocks fs * sf_Bsize fs <= fb_LimitBytes b <= 8192 * GiB /\ fb_RequiredBytes b <= sf_Bavail fs * sf_Bsize fs.
Proof.
  intros (Hs & Ha & Hbl) H. unfold checkSpace in H. destruct (_ || (_ <? sf_Blocks fs)) eqn:E1; [done|].
  destruct (_ || (sf_Bavail fs <? _)) eqn:E2; [done|].
  repeat match goal with E : (_ || _) = false |- _ => apply orb_false_iff in E as [E ?%Z.ltb_ge] end.
  apply orb_false_iff in E1 as [E1 Hbs%Z.leb_gt].
  repeat match goal with E : (_ || _) = false |- _ => apply orb_false_iff in E as [E ?%Z.ltb_ge] end.
  apply Z.leb_gt in E1. pose proof (blocks_for_spec (fb_RequiredBytes b) (sf_Bsize fs) ltac:(lia) ltac:(lia)).
  pose proof (Z.mul_div_le (fb_LimitBytes b) (sf_Bsize fs) Hbs). split; [split; [nia|lia]|nia].
Qed.
Lemma check_budget_spec k inventory seen b seen' : (forall m d fs, k_stat k m = Some (d, fs) -> statfs_ok fs) ->
  check_budget k inventory seen b = Ok seen' -> exists d, seen' = d :: seen /\ (d ∉ seen) /\ reserved k b d.
Proof.
  intros Hk. unfold check_budget. destruct (negb _ || _ || _); [done|]. destruct (negb _) eqn:Er; [done|].
  apply negb_false_iff, bool_decide_eq_true in Er. destruct (finiteMount _ _) as [m|]; [|done]. cbn.
  case_bool_decide as Es; [done|]. destruct (k_stat k (fb_Mount b)) as [[d fs]|] eqn:Ek; [|done].
  destruct ((d !=? mr_device m) || _) eqn:Ed; [done|]. destruct (checkSpace b fs) as [[]|] eqn:Ec; [|done]. cbn. intros [= <-].
  apply orb_false_iff in Ed as [Ed Et]. apply negb_false_iff, bool_decide_eq_true in Ed. subst d.
  exists (mr_device m). split; [done|]. split; [done|]. exists fs. split; [done|]. split.
  - apply andb_false_iff in Et as [Et|Et]; apply negb_false_iff, Z.eqb_eq in Et; auto.
  - split; [done|]. eapply checkSpace_spec; [by eapply Hk|done].
Qed.

(** When the capacity check passes, every budget has a filesystem of its own: the mounts lead to
    pairwise different devices of type ext4 or xfs, none larger than its declared limit, and on each the required bytes are
    free; so the reservations of a phase never compete for the same blocks. *)
Theorem capacity_reserved k budgets :
  (forall m d fs, k_stat k m = Some (d, fs) -> statfs_ok fs) -> CheckCapacity k budgets = Ok () ->
  exists devices, NoDup devices /\ Forall2 (reserved k) budgets devices.
Proof.
  intros Hk H. unfold CheckCapacity in H. destruct (_ || _); [done|]. destruct (k_mountinfo k) as [text|]; [|done].
  destruct (mounts text) as [inventory|]; [|done]. cbn in H.
  destruct (forM budgets [] (check_budget k inventory)) as [seen|] eqn:E; [|done]. clear H.
  assert (Hgen : forall budgets seen0 seen, NoDup seen0 -> forM budgets seen0 (check_budget k inventory) = Ok seen ->
    exists devices, seen = rev devices ++ seen0 /\ NoDup seen /\ Forall2 (reserved k) budgets devices).
  { clear E seen budgets. induction budgets as [|b l IH]; intros seen0 seen Hn; cbn [forM].
    - intros [= <-]. exists []. done.
    - destruct (check_budget k inventory seen0 b) as [s1|] eqn:Eb; [|done]. cbn. intros Hf.
      destruct (check_budget_spec _ _ _ _ _ Hk Eb) as (d & -> & Hd & Hr).
      destruct (IH (d :: seen0) seen) as (ds & -> & Hn2 & Hf2); [by constructor|done|].
      exists (d :: ds). cbn. rewrite <- app_assoc. split; [done|]. split; [done|by constructor]. }
  destruct (Hgen _ _ _ (NoDup_nil_2) E) as (ds & -> & Hn & Hf). exists ds. split; [|done].
  rewrite app_nil_r in Hn. by rewrite (Permutation_rev ds).
Qed.

(** The reservation of a capture covers, at the same time, the raw archives, their spools with the worst
    allowance for incompressible data, the extracted WAL and the entries' metadata, with at least 10% and 1 GiB to spare, and
    fits the largest volume; no intermediate value exceeds 63 bits. *)
Theorem capture_capacity_covers n peak :
  CaptureCapacity n = Ok peak ->
  let a := n_MaxBackupBytes n in
  let used := a + spool_bound a + n_MaxBootstrapWALBytes n + 8192 * 100000 in
  a + a / 100 <= spool_bound a /\ used + used / 10 <= peak /\ used + GiB <= peak /\ 0 < peak <= 8192 * GiB.
Proof.
  unfold CaptureCapacity. destruct (_ || _) eqn:E; [done|]. intros [= <-].
  repeat match goal with E : (_ || _) = false |- _ => apply orb_false_iff in E as [E ?%Z.ltb_ge] end. apply Z.ltb_ge in E.
  unfold spool_bound, CapacityMargin, GiB in *. rewrite !Z.quot_div_nonneg by (unfold spool_bound in *; try rewrite Z.quot_div_nonneg; lia).
  cbv zeta. Z.to_euclidean_division_equations. lia.
Qed.

(** ** A workspace and a data volume *)
Definition demo_mountinfo : string :=
  "36 25 8:16 / /cnpg-backup/work rw,relatime shared:1 - ext4 /dev/sdb rw" +:+ String "010"
  ("37 25 8:32 / /var/lib/postgresql/data rw,relatime shared:2 - xfs /dev/sdc rw" +:+ String "010" "").
Definition demo_stat (m : string) : option (string * Statfs) :=
  if m ==? "/cnpg-backup/work" then Some ("8:16", mkStatfs EXT4_SUPER_MAGIC 4096 2621440 2000000)
  else if m ==? "/var/lib/postgresql/data" then Some ("8:32", mkStatfs XFS_SUPER_MAGIC 4096 2621440 2621440) else None.
Definition demo_kernel : Kernel := mkKernel (Some demo_mountinfo) Some demo_stat.
Definition demo_budgets : list FilesystemBudget :=
  [mkBudget "/cnpg-backup/work" (10 * GiB) (5 * GiB); mkBudget "/var/lib/postgresql/data" (10 * GiB) GiB].
Lemma capacity_reserved_witness :
  CheckCapacity demo_kernel demo_budgets = Ok () /\ exists devices, NoDup devices /\ Forall2 (reserved demo_kernel) demo_budgets devices.
Proof.
  assert (H : CheckCapacity demo_kernel demo_budgets = Ok ()) by (vm_compute; reflexivity).
  split; [exact H|]. apply (capacity_reserved demo_kernel demo_budgets); [|exact H].
  intros m d fs. change (k_stat demo_kernel m) with (demo_stat m). unfold demo_stat.
  destruct (m ==? "/cnpg-backup/work"); [intros [= <- <-]; unfold statfs_ok; cbn; lia|].
  destruct (m ==? "/var/lib/postgresql/data"); [intros [= <- <-]; unfold statfs_ok; cbn; lia|done].
Defined.
Example tmpfs_refused :
  CheckCapacity (mkKernel (Some ("36 25 0:45 / /cnpg-backup/work rw shared:1 - tmpfs tmpfs rw" +:+ String "010" "")) Some demo_stat)
    [mkBudget "/cnpg-backup/work" (10 * GiB) 0] = Err ErrOther.
Proof. vm_compute. reflexivity. Qed.
