(* ===== verification/NativePath.v ===== *)
(** * Paths inside native archives (path.Dir, internal/postgres/archive.go)

    The names an archive or a manifest may use, and the loop over the directories above a name. *)

From S2P Require Import Prelude GoStrings Configuration S3Keys.

(** The text up to and including the last slash. *)
Fixpoint up_to_slash (s : string) : string :=
  match s with
  | EmptyString => EmptyString
  | String c t =>
      let u := up_to_slash t in
      if u !=? "" then String c u else if c ==? "/"%char then String c EmptyString else EmptyString
  end.
(** [path.Dir] and [filepath.Dir] *)
Definition path_dir (p : string) : string := path_clean (up_to_slash p).

Definition native_bad : list ascii := ["000"; "\"; "013"; "010"]%char.
Definition nativePath (p : string) : bool :=
  if (p ==? "") || (1023 <? len p) || (path_clean p !=? p) || HasPrefix p "/" || ContainsAny p native_bad then false
  else forallb validPart (Split "/" p).

(** [for parent := path.Dir(name); parent != "."; parent = path.Dir(parent)] *)
Fixpoint parents (fuel : nat) (p : string) : list string :=
  match fuel with
  | O => []
  | S fuel => let d := path_dir p in if d ==? "." then [] else d :: parents fuel d
  end.
Definition ancestors (p : string) : list string := parents (String.length p) p.

(** ** Components *)
Definition proper (l : list string) : Prop := forallb validPart l = true /\ forallb no_slash l = true.
Lemma proper_app l k : proper (l ++ k) <-> proper l /\ proper k.
Proof. unfold proper. rewrite !forallb_app, !andb_true_iff. naive_solver. Qed.
Lemma nativePath_proper p : nativePath p = true ->
  p <> "" /\ len p <= 1023 /\ proper (Split "/" p) /\ HasPrefix p "/" = false.
Proof.
  unfold nativePath. destruct (_ || _) eqn:E; [done|]. intros H.
  apply orb_false_iff in E as [E _]. apply orb_false_iff in E as [E Hr]. apply orb_false_iff in E as [E _].
  apply orb_false_iff in E as [E Hl%Z.ltb_ge]. apply bool_decide_eq_false in E. split; [done|]. split; [done|].
  split; [|done]. split; [done|]. by apply split_no_slash.
Qed.

Lemma up_to_slash_nosep s : no_slash s = true -> up_to_slash s = "".
Proof.
  induction s as [|c s IH]; cbn; [done|]. unfold no_slash. cbn. intros [Hc Hs]%andb_true_iff. rewrite (IH Hs). cbn.
  apply negb_true_iff in Hc. by rewrite Hc.
Qed.
Lemma up_to_slash_app a x : no_slash x = true -> up_to_slash (a +:+ String "/" x) = a +:+ "/".
Proof.
  intros Hx. induction a as [|c a IH].
  - change ("" +:+ String "/" x) with (String "/" x). cbn [up_to_slash]. rewrite (up_to_slash_nosep x Hx). done.
  - change (String c a +:+ String "/" x) with (String c (a +:+ String "/" x)). cbn [up_to_slash]. rewrite IH.
    change (String c a +:+ "/") with (String c (a +:+ "/")). by destruct a.
Qed.
Lemma join_snoc l x : l <> [] -> join "/" (l ++ [x]) = join "/" l +:+ String "/" x.
Proof.
  induction l as [|y l IH]; [done|]. intros _. destruct l as [|z l]; [done|].
  change (join "/" ((y :: z :: l) ++ [x])) with (y +:+ String "/" (join "/" ((z :: l) ++ [x]))). rewrite IH by done.
  change (join "/" (y :: z :: l)) with (y +:+ String "/" (join "/" (z :: l))). by rewrite append_assoc.
Qed.
Lemma join_not_rooted l t : proper l -> l <> [] -> HasPrefix (join "/" l +:+ t) "/" = false.
Proof.
  intros [Hv Hn] Hne. destruct l as [|x l]; [done|]. cbn in Hv, Hn. apply andb_true_iff in Hv as [Hx _].
  apply andb_true_iff in Hn as [Hs _]. destruct x as [|c x]; [done|]. unfold no_slash in Hs. cbn in Hs.
  apply andb_true_iff in Hs as [Hc _]. apply negb_true_iff, bool_decide_eq_false in Hc.
  assert (exists u, join "/" (String c x :: l) +:+ t = String c u) as [u ->] by (destruct l; cbn; eauto).
  destruct (HasPrefix (String c u) "/") eqn:E; [|done]. apply HasPrefix_inv in E.
  change ("/" +:+ ?y) with (String "/" y) in E. congruence.
Qed.
Lemma join_nonempty l : proper l -> l <> [] -> join "/" l <> "".
Proof.
  intros [Hv _] Hne. destruct l as [|x l]; [done|]. cbn in Hv. apply andb_true_iff in Hv as [Hx _]. destruct x; [done|].
  by destruct l.
Qed.
Lemma path_dir_join l x : proper l -> proper [x] -> path_dir (join "/" (l ++ [x])) = (if l is [] then "." else join "/" l).
Proof.
  intros Hl Hx. unfold path_dir. destruct Hx as [_ Hx]. cbn in Hx. rewrite andb_true_r in Hx. destruct l as [|y l].
  - cbn [app join]. by rewrite up_to_slash_nosep.
  - rewrite join_snoc, up_to_slash_app by done. set (l' := y :: l) in *. unfold path_clean.
    rewrite bool_decide_eq_false_2 by (intros E; destruct (join "/" l'); done).
    rewrite join_not_rooted by done.
    assert (Split "/" (join "/" l' +:+ "/") = l' ++ [""]) as ->.
    { rewrite <- (join_snoc l' "") by done. apply Split_join_all; [by destruct l'|].
      rewrite forallb_app. destruct Hl as [_ ->]. done. }
    rewrite foldl_app, (clean_keeps false [] l') by apply Hl. cbn [foldl app]. change (clean_step false l' "") with l'.
    rewrite bool_decide_eq_false_2; [done|]. by apply join_nonempty.
Qed.

(** The loop visits exactly the proper prefixes of the components. *)
Lemma parents_join fuel l : proper l -> (length l <= fuel)%nat -> forall q,
  q ∈ parents fuel (join "/" l) <-> exists k, (0 < k < length l)%nat /\ q = join "/" (take k l).
Proof.
  revert l. induction fuel as [|fuel IH]; intros l Hl Hf q.
  { destruct l; [|cbn in Hf; lia]. cbn. split; [by intros H%not_elem_of_nil|]. intros (k & Hk & _). cbn in Hk. lia. }
  cbn [parents]. destruct l as [|x l _] using rev_ind.
  { cbn [join]. change (path_dir "") with ".". cbn. split; [by intros H%not_elem_of_nil|]. intros (k & Hk & _). lia. }
  apply proper_app in Hl as [Hl Hx]. rewrite path_dir_join by done. rewrite length_app in *. cbn [length] in *. destruct l as [|y l].
  - cbn. split; [by intros H%not_elem_of_nil|]. intros (k & Hk & _). lia.
  - set (l' := y :: l) in *. assert (join "/" l' <> ".") as Hd.
    { intros E. assert (Split "/" (join "/" l') = l') as Hs by (apply Split_join_all; [done|apply Hl]).
      rewrite E in Hs. destruct Hl as [Hl _]. rewrite <- Hs in Hl. done. }
    rewrite bool_decide_eq_false_2 by done. rewrite elem_of_cons, IH by (done || lia). split.
    + intros [-> | (k & Hk & ->)].
      * exists (length l'). split; [cbn; lia|]. by rewrite take_app_length.
      * exists k. split; [lia|]. rewrite take_app_le by lia. done.
    + intros (k & Hk & ->). destruct (decide (k = length l')) as [->|Hne]; [left; by rewrite take_app_length|].
      right. exists k. split; [lia|]. rewrite take_app_le by lia. done.
Qed.
Lemma length_split_le p : (length (Split "/" p) <= S (String.length p))%nat.
Proof.
  unfold Split. generalize "" as cur. induction p as [|c p IH]; intros cur; cbn; [lia|].
  case_bool_decide; cbn; [specialize (IH ""); lia|]. specialize (IH (cur +:+ String c "")). lia.
Qed.
Lemma proper_length l : proper l -> (length l <= String.length (join "/" l))%nat.
Proof.
  induction l as [|x l IH]; intros Hl; [done|]. change (x :: l) with ([x] ++ l) in Hl. apply proper_app in Hl as [[Hx _] Hl].
  destruct x as [|c x]; [done|]. specialize (IH Hl). destruct l as [|y l]; [cbn; lia|].
  change (join "/" (String c x :: y :: l)) with (String c x +:+ String "/" (join "/" (y :: l))).
  rewrite length_append. cbn [length String.length] in *. lia.
Qed.
(** The ancestors of a native path are the directories above it. *)
Lemma ancestors_spec p q : nativePath p = true ->
  q ∈ ancestors p <-> exists k, (0 < k < length (Split "/" p))%nat /\ q = join "/" (take k (Split "/" p)).
Proof.
  intros (_ & _ & Hp & _)%nativePath_proper. unfold ancestors. pose proof (proper_length _ Hp) as Hlen. rewrite join_Split in Hlen.
  rewrite <- (join_Split "/" p) at 2. by apply parents_join.
Qed.
(** A native path stays below the directory it is opened in: it has no empty, [.] or [..] component and no leading slash. *)
Lemma nativePath_confined p : nativePath p = true -> Forall (fun c => c <> "" /\ c <> "." /\ c <> "..") (Split "/" p).
Proof.
  intros (_ & _ & [Hv _] & _)%nativePath_proper. apply Forall_forall. intros c Hc. rewrite forallb_forall in Hv.
  specialize (Hv c ltac:(by apply list_elem_of_In)). unfold validPart in Hv.
  apply andb_true_iff in Hv as [Hv H3]. apply andb_true_iff in Hv as [H1 H2].
  apply negb_true_iff, bool_decide_eq_false in H1, H2, H3. done.
Qed.
