(* ===== verification/NativeOps.v ===== *)
(** * The environment of the native operations (internal/postgres)

    Captures and restores run PostgreSQL's tools, read and write files below private directories and the targets, and talk
    to the repository.  [os] lists these calls with the type of their answers; nothing is assumed of the answers.  A file that
    is opened gives its bytes; every pass over them may still fail, or be stopped by the context. *)

From S2P Require Import Prelude GoStrings Errors Schema Prog Store Capacity.

Inductive fsop :=
| Mkdir (p : string) | MkdirAll (p : string) | CreateExcl (p : string) | WriteTo (p bytes : string) | SyncFile (p : string)
| CloseFile (p : string) | SyncDir (p : string) | RemoveFile (p : string) | RemoveAll (p : string) | Symlink (target p : string)
| Chmod (p : string).
Definition fsop_path (op : fsop) : string :=
  match op with
  | Mkdir p | MkdirAll p | CreateExcl p | WriteTo p _ | SyncFile p | CloseFile p | SyncDir p | RemoveFile p | RemoveAll p
  | Symlink _ p | Chmod p => p
  end.
(** Operations that change what is on disk. *)
Definition fsop_writes (op : fsop) : bool :=
  match op with SyncFile _ | CloseFile _ | SyncDir _ => false | _ => true end.
(** [os.IsExist] and [os.IsNotExist] tell two failures from the others. *)
Inductive failure_kind := IsExist | IsNotExist | IsOther.
Inductive file_kind := FRegular | FDir | FLink | FOther.
#[export] Instance failure_kind_eq_dec : EqDecision failure_kind.
Proof. solve_decision. Defined.
#[export] Instance file_kind_eq_dec : EqDecision file_kind.
Proof. solve_decision. Defined.
(** An entry of a walk: its path, kind, size and where a link leads; [None] is an entry that cannot be read. *)
Record walk_entry := mkWalk { we_path : string; we_kind : file_kind; we_size : Z; we_link : option string }.
(** What [Stat] and [Fstat] report: kind, permission bits, links, and whether the effective user owns the file. *)
Record stat_info := mkStat { si_kind : file_kind; si_perm : Z; si_nlink : Z; si_owned : bool }.
(** One round of a monitor's [select]: the operation is over, the context ended, or the ticker fired. *)
Inductive round (A : Type) := RoundDone | RoundCtx | RoundTick (a : A).
Arguments RoundDone {A}.
Arguments RoundCtx {A}.
Arguments RoundTick {A} a.

Inductive os : Type -> Type :=
| Remote {X : Type} (e : Store.event X) : os X
| Fs (op : fsop) : os (option failure_kind)
| MkdirTemp (dir prefix : string) : os (res string)
| CreateTemp (dir prefix : string) : os (res string)
| Open (p : string) : os (result failure_kind string)
| Pass (p : string) : os (option error)
| Tape (p : string) : os (option nat)
| Lstat (p : string) : os (option (file_kind * Z))
| Stat (p : string) : os (result failure_kind stat_info)
| ReadDir (p : string) : os (res (list (string * file_kind)))
| WalkDir (p : string) : os (list (option walk_entry))
| EvalSymlinks (p : string) : os (option string)
| AllocationUnit (p : string) : os (option Z)
| ReadKernel : os Kernel
| Tool (env : list string) (tool : string) (args : list string) : os (res string)
| SpaceRounds : os (list (round Kernel))
| SizeRounds : os (list (round (list (option walk_entry))))
| CaptureRounds : os (list (round (list (option walk_entry) * option Statfs)))
| Projected (name : string) (limit : Z) : os (res string)
| Setup (what : string) : os (res ()).
Abbreviation oprog := (Prog.prog os).
Abbreviation otrace := (list (Prog.action os)).

(** A repository operation runs in the same environment. *)
Fixpoint remote {A} (p : Store.prog A) : oprog A :=
  match p with
  | Ret a => Ret a
  | Vis e k => Vis (Remote e) (fun x => remote (k x))
  end.
Definition check_context : oprog (res ()) := remote check_ctx.
Definition fs (op : fsop) : oprog (res ()) :=
  let! e := call (Fs op) in Ret (match e with None => Ok () | Some _ => Err ErrOther end).
Definition pass (p : string) : oprog (res ()) := let! e := call (Pass p) in Ret (lift e).
Definition open_file (p : string) : oprog (res string) :=
  let! r := call (Open p) in Ret (match r with Ok b => Ok b | Err _ => Err ErrOther end).
(** The path of a name below a root. *)
Definition within (root name : string) : string := root +:+ String "/" name.
