(* ===== verification/NativeArchive.v ===== *)
(** * Native archives (internal/postgres/archive.go, restore_input.go)

    The scan of a tar stream: archive/tar yields the headers, their contents and how the stream ends; every check of
    the code is on what it yields.  The order of a map's keys is a parameter. *)

From S2P Require Import Prelude GoStrings GoTime Sha256 Errors Prog Store S3Keys Configuration NativePath NativeOps.

Definition maxEntries : Z := 100000.
Definition maxFileBytes : Z := 2 ^ 30 + 2 ^ 20.

Inductive typeflag := TypeReg | TypeDir | TypeOther.
Inductive format := FormatUSTAR | FormatUnknown | FormatOther.
(** A header with the bytes of its member; [h_drained] says that the member could be read to its end. *)
Record Header := mkHeader {
  h_Name : string; h_Typeflag : typeflag; h_Format : format; h_PAXRecords : Z; h_Linkname : string; h_Size : Z;
  h_Content : string; h_drained : bool }.
(** The stream: the headers, the bytes the last [Next] read when it reported [io.EOF] ([None]: it reported another
    error), the rest behind the terminator ([None]: unreadable) and what is then left of the limit. *)
Record Tar := mkTar { t_headers : list Header; t_end : option Z; t_tail : option string; t_left : Z }.
#[export] Instance typeflag_eq_dec : EqDecision typeflag.
Proof. solve_decision. Defined.
#[export] Instance format_eq_dec : EqDecision format.
Proof. solve_decision. Defined.

Record archiveInventory := mkInventory { inv_files : gmap string Z; inv_dirs : list string; inv_entries : Z; inv_bytes : Z }.
(** A visitor threads what its closure collects. *)
Abbreviation visitor S := (S -> string -> Z -> string -> oprog (res S)).

Section Scan.
Context {S : Type} (limit : Z) (visit : visitor S) (range : list string -> list string).

(** The name after the normalisation of directories. *)
Definition entry_name (h : Header) : string :=
  if h_Typeflag h ==? TypeDir then
    let name := TrimSuffix (h_Name h) "/" in
    if (name ==? "./pg_wal/archive_status") || (name ==? "./pg_wal/summaries") then TrimPrefix name "./" else name
  else h_Name h.
(** A directory above the name was seen as a file. *)
Definition below_file (seen : gmap string typeflag) (name : string) : bool :=
  existsb (fun p => match seen !! p with Some t => t !=? TypeDir | None => false end) (ancestors name).
Definition header_bad (h : Header) : bool :=
  negb (nativePath (entry_name h)) || ((h_Format h !=? FormatUSTAR) && (h_Format h !=? FormatUnknown)) || negb (h_PAXRecords h =? 0) ||
  (h_Linkname h !=? "") || (h_Size h <? 0) || (maxFileBytes <? h_Size h) || ((h_Typeflag h !=? TypeReg) && (h_Typeflag h !=? TypeDir)).
Record scan_state := mkScan { sc_inv : archiveInventory; sc_seen : gmap string typeflag; sc_padding : Z }.
Definition scan_start : scan_state := mkScan (mkInventory ∅ [] 0 0) ∅ 0.
Definition scan_header (acc : scan_state * S) (h : Header) : oprog (res (scan_state * S)) :=
  let '(st, s) := acc in
  let name := entry_name h in
  if header_bad h then fail ErrInput else
  if bool_decide (is_Some (sc_seen st !! name)) then fail ErrInput else
  let seen := <[name := h_Typeflag h]> (sc_seen st) in
  if below_file seen name then fail ErrInput else
  let inv := sc_inv st in
  let entries := inv_entries inv + 1 in
  let bytes := inv_bytes inv + h_Size h in
  if (maxEntries <? entries) || (limit <? bytes) || ((h_Typeflag h ==? TypeDir) && negb (h_Size h =? 0)) then fail ErrInput else
  let inv :=
    if h_Typeflag h ==? TypeDir then mkInventory (inv_files inv) (inv_dirs inv ++ [name]) entries bytes
    else mkInventory (<[name := h_Size h]> (inv_files inv)) (inv_dirs inv) entries bytes in
  let* s := (if h_Typeflag h ==? TypeReg then visit s name (h_Size h) (h_Content h) else done s) in
  if negb (h_drained h) then fail ErrInput else
  done (mkScan inv seen ((512 - h_Size h mod 512) mod 512), s).

Definition all_zero (s : string) : bool := all_chars (fun c => c ==? "000"%char) s.
Definition scanArchive (t : Tar) (s : S) : oprog (res (archiveInventory * S)) :=
  let* (st, s) := visit_all (t_headers t) (scan_start, s) scan_header in
  match t_end t, t_tail t with
  | Some n, Some tail =>
      if n !=? 1024 + sc_padding st then fail ErrInput else
      if (10240 <? len tail) || negb (all_zero tail) || (t_left t <=? 0) then fail ErrInput else
      visit_all (range (map fst (map_to_list (sc_seen st)))) () (fun _ name =>
        check_context ;;* if below_file (sc_seen st) name then fail ErrInput else done ()) ;;*
      done (sc_inv st, s)
  | _, _ => fail ErrInput
  end.
End Scan.

(** [copyMember] below a root that resolves names inside itself: at most one byte more than the size is written, and then
    the member is refused. *)
Definition copyMember (root name : string) (size : Z) (content : string) : oprog (res ()) :=
  if negb (nativePath name) then fail ErrInput else
  let p := within root name in
  fs (MkdirAll (within root (path_dir name))) ;;*
  fs (CreateExcl p) ;;*
  let body := String.substring 0 (Z.to_nat (size + 1)) content in
  let! w := fs (WriteTo p body) in
  let! e := match w with
            | Err e => fail e
            | Ok _ => if len body !=? size then fail ErrInput else fs (SyncFile p)
            end in
  let! ce := fs (CloseFile p) in
  Ret (match e with Err e => Err e | Ok _ => ce end).

(** ** Directories *)
(** The closure [add]: the path and the directories above it, each counted. *)
Fixpoint add_dirs (fuel : nat) (files : Z) (dirs : gset string) (p : string) : res (gset string) :=
  match fuel with
  | O => Ok dirs
  | S fuel =>
      if p ==? "." then Ok dirs else
      let dirs := {[p]} ∪ dirs in
      if maxEntries <? Z.of_nat (size dirs) + files then Err ErrInput else add_dirs fuel files dirs (path_dir p)
  end.
Definition nativeDirectories (inv : archiveInventory) : res (gset string) :=
  let files := Z.of_nat (size (inv_files inv)) in
  let add dirs p := add_dirs (S (String.length p)) files dirs p in
  let? dirs := forM (inv_dirs inv) ({["."]} : gset string) add in
  forM (map (fun kv => path_dir kv.1) (map_to_list (inv_files inv))) dirs add.

(** ** What a scan establishes *)
(** No entry of the inventory lies below one of its files, and no name is both. *)
Record inventory_ok (limit : Z) (inv : archiveInventory) : Prop := {
  io_file : forall p n, inv_files inv !! p = Some n -> nativePath p = true /\ 0 <= n <= maxFileBytes;
  io_dir : Forall (fun p => nativePath p = true /\ inv_files inv !! p = None) (inv_dirs inv);
  io_dirs_once : NoDup (inv_dirs inv);
  io_count : inv_entries inv = Z.of_nat (size (inv_files inv)) + Z.of_nat (length (inv_dirs inv));
  io_entries : inv_entries inv <= maxEntries;
  io_bytes : inv_bytes inv <= Z.max 0 limit;
  io_below : forall p q, (is_Some (inv_files inv !! p) \/ p ∈ inv_dirs inv) -> q ∈ ancestors p -> inv_files inv !! q = None }.

Definition seen_inv (inv : archiveInventory) (seen : gmap string typeflag) : Prop :=
  (forall p, seen !! p = Some TypeReg <-> is_Some (inv_files inv !! p)) /\
  (forall p, seen !! p = Some TypeDir <-> p ∈ inv_dirs inv) /\
  (forall p, seen !! p <> Some TypeOther).
Record scan_inv (limit : Z) (st : scan_state) : Prop := {
  si_seen : seen_inv (sc_inv st) (sc_seen st);
  si_file : forall p n, inv_files (sc_inv st) !! p = Some n -> nativePath p = true /\ 0 <= n <= maxFileBytes;
  si_dir : Forall (fun p => nativePath p = true) (inv_dirs (sc_inv st));
  si_once : NoDup (inv_dirs (sc_inv st));
  si_count : inv_entries (sc_inv st) = Z.of_nat (size (inv_files (sc_inv st))) + Z.of_nat (length (inv_dirs (sc_inv st)));
  si_entries : inv_entries (sc_inv st) <= maxEntries;
  si_bytes : 0 <= inv_bytes (sc_inv st) <= Z.max 0 limit }.

Lemma scan_start_inv limit : scan_inv limit scan_start.
Proof.
  split; try done; cbn.
  - split; [|split]; intros p; cbn.
    + rewrite lookup_empty. split; [done|]. by intros [? H].
    + rewrite lookup_empty. split; [done|]. by intros H%not_elem_of_nil.
    + by rewrite lookup_empty.
  - constructor.
  - lia.
Qed.

(** The state a header that passed every check leads to. *)
Lemma scan_header_inv limit st h :
  scan_inv limit st -> header_bad h = false -> sc_seen st !! entry_name h = None ->
  (maxEntries <? inv_entries (sc_inv st) + 1) || (limit <? inv_bytes (sc_inv st) + h_Size h) || ((h_Typeflag h ==? TypeDir) && negb (h_Size h =? 0)) = false ->
  let inv := sc_inv st in
  scan_inv limit (mkScan
    (if h_Typeflag h ==? TypeDir then mkInventory (inv_files inv) (inv_dirs inv ++ [entry_name h]) (inv_entries inv + 1) (inv_bytes inv + h_Size h)
     else mkInventory (<[entry_name h := h_Size h]> (inv_files inv)) (inv_dirs inv) (inv_entries inv + 1) (inv_bytes inv + h_Size h))
    (<[entry_name h := h_Typeflag h]> (sc_seen st)) ((512 - h_Size h mod 512) mod 512)).
Proof.
  intros [(S1 & S2 & S3) Hf Hd Ho Hc He Hb] Hh Hn Hlim. set (name := entry_name h) in *. cbv zeta.
  apply orb_false_iff in Hlim as [Hlim _]. apply orb_false_iff in Hlim as [Hl1%Z.ltb_ge Hl2%Z.ltb_ge].
  unfold header_bad in Hh. apply orb_false_iff in Hh as [Hh Ht]. apply orb_false_iff in Hh as [Hh Hs2%Z.ltb_ge].
  apply orb_false_iff in Hh as [Hh Hs1%Z.ltb_ge]. do 3 (apply orb_false_iff in Hh as [Hh _]). apply negb_false_iff in Hh. fold name in Hh.
  assert (Hnf : inv_files (sc_inv st) !! name = None).
  { destruct (inv_files (sc_inv st) !! name) eqn:E; [|done]. assert (sc_seen st !! name = Some TypeReg) by (apply S1; eauto). congruence. }
  assert (Hnd : name ∉ inv_dirs (sc_inv st)) by (intros H%S2; congruence).
  clearbody name.
  destruct (decide (h_Typeflag h = TypeDir)) as [Et|Et]; [rewrite (bool_decide_eq_true_2 _ Et)|rewrite (bool_decide_eq_false_2 _ Et)].
  - rewrite Et. split; cbn [sc_inv sc_seen inv_files inv_dirs inv_entries inv_bytes]; try done; try lia.
    + split; [|split]; intros p; cbn [inv_files inv_dirs]; destruct (decide (p = name)) as [->|Hne];
        rewrite ?lookup_insert_eq, ?lookup_insert_ne by done; rewrite ?elem_of_app, ?elem_of_list_singleton.
      * rewrite Hnf. split; [done|]. by intros [? ?].
      * apply S1.
      * split; [intros _; right; by constructor|done].
      * rewrite S2. split; [by left|]. intros [|H%elem_of_cons]; [done|]. destruct H as [|H%not_elem_of_nil]; done.
      * done.
      * apply S3.
    + apply Forall_app. split; [done|]. by repeat constructor.
    + apply NoDup_app. split; [done|]. split; [|repeat constructor; apply not_elem_of_nil].
      intros x Hx [->|H%not_elem_of_nil]%elem_of_cons; done.
    + rewrite length_app. cbn. lia.
  - assert (Etr : h_Typeflag h = TypeReg) by (destruct (h_Typeflag h); [done|done|cbn in Ht; done]). rewrite Etr.
    split; cbn [sc_inv sc_seen inv_files inv_dirs inv_entries inv_bytes]; try done; try lia.
    + split; [|split]; intros p; cbn [inv_files inv_dirs]; destruct (decide (p = name)) as [->|Hne];
        rewrite ?lookup_insert_eq, ?lookup_insert_ne by done.
      * split; [eauto|done].
      * apply S1.
      * split; [done|]. intros H. by destruct Hnd.
      * apply S2.
      * done.
      * apply S3.
    + intros p n. destruct (decide (p = name)) as [->|Hne]; rewrite ?lookup_insert_eq, ?lookup_insert_ne by done; [|apply Hf].
      intros [= <-]. split; [done|lia].
    + rewrite map_size_insert_None by done. lia.
Qed.

Lemma scan_done limit range st names :
  (forall l, range l ≡ₚ l) -> scan_inv limit st -> names = range (map fst (map_to_list (sc_seen st))) ->
  Forall (fun name => below_file (sc_seen st) name = false) names -> inventory_ok limit (sc_inv st).
Proof.
  intros Hr [(S1 & S2 & S3) Hf Hd Ho Hc He Hb] -> Hall. rewrite Hr in Hall. split; try done; try lia.
  - eapply Forall_impl; [apply Forall_forall; intros x Hx; exact (conj Hx (proj1 (Forall_forall _ _) Hd x Hx))|].
    intros p [Hin Hp]. split; [done|]. destruct (inv_files (sc_inv st) !! p) eqn:E; [|done].
    assert (sc_seen st !! p = Some TypeReg) by (apply S1; eauto). assert (sc_seen st !! p = Some TypeDir) by (by apply S2). congruence.
  - intros p q Hp Hq. assert (is_Some (sc_seen st !! p)) as [t Ht].
    { destruct Hp as [Hp%S1|Hp%S2]; eauto. }
    rewrite Forall_forall in Hall. specialize (Hall p). assert (p ∈ map fst (map_to_list (sc_seen st))) as Hin.
    { apply list_elem_of_fmap. exists (p, t). split; [done|]. by apply elem_of_map_to_list. }
    specialize (Hall Hin). unfold below_file in Hall.
    destruct (inv_files (sc_inv st) !! q) eqn:E; [|done]. exfalso.
    assert (sc_seen st !! q = Some TypeReg) as Eq by (apply S1; eauto).
    rewrite existsb_false_Forall, Forall_forall in Hall. specialize (Hall q Hq). rewrite Eq in Hall. done.
Qed.

Definition listed (inv : archiveInventory) (h : Header) : Prop :=
  match h_Typeflag h with
  | TypeReg => inv_files inv !! entry_name h = Some (h_Size h)
  | TypeDir => entry_name h ∈ inv_dirs inv
  | TypeOther => False
  end.
(** ** The rule for scans *)
(** A visitor that keeps [I], a relation between the files seen and what it has collected, keeps it over the whole scan; [G]
    bounds the calls. *)
Section Rule.
Context {S : Type} (G : otrace -> forall X, os X -> Prop) (I : gmap string Z -> S -> Prop) (limit : Z) (visit : visitor S).
Hypothesis context_allowed : forall tr, G tr _ (Remote CtxErr).
Hypothesis visit_keeps : forall files s name n content tr, I files s -> files !! name = None -> nativePath name = true -> 0 <= n <= maxFileBytes ->
  wp G (fun _ r => match r with Ok s' => I (<[name := n]> files) s' | Err _ => True end) (visit s name n content) tr.

(** A new entry keeps what the inventory already lists, and is listed itself. *)
Lemma listed_kept st h x inv : scan_inv limit st -> sc_seen st !! entry_name h = None -> listed (sc_inv st) x ->
  inv = (if h_Typeflag h ==? TypeDir then mkInventory (inv_files (sc_inv st)) (inv_dirs (sc_inv st) ++ [entry_name h]) (inv_entries (sc_inv st) + 1) (inv_bytes (sc_inv st) + h_Size h)
         else mkInventory (<[entry_name h := h_Size h]> (inv_files (sc_inv st))) (inv_dirs (sc_inv st)) (inv_entries (sc_inv st) + 1) (inv_bytes (sc_inv st) + h_Size h)) ->
  listed inv x.
Proof.
  intros [(S1 & S2 & S3) _ _ _ _ _ _] Hn. unfold listed. intros Hx ->.
  destruct (h_Typeflag h ==? TypeDir) eqn:Et; cbn [inv_files inv_dirs]; destruct (h_Typeflag x); try done.
  - apply elem_of_app. by left.
  - rewrite lookup_insert_ne; [done|]. intros E. rewrite <- E in Hx.
    assert (sc_seen st !! entry_name h = Some TypeReg) by (apply S1; eauto). congruence.
Qed.
Lemma wp_visit_headers hs : forall pre st s tr, scan_inv limit st -> Forall (listed (sc_inv st)) pre -> I (inv_files (sc_inv st)) s ->
  wp G (fun _ r => match r with
    | Ok (st', s') => scan_inv limit st' /\ Forall (listed (sc_inv st')) (pre ++ hs) /\ I (inv_files (sc_inv st')) s'
    | Err _ => True end) (visit_all hs (st, s) (scan_header limit visit)) tr.
Proof.
  induction hs as [|h hs IH]; intros pre st s tr Hi Hp Hs; cbn [visit_all]; [by rewrite app_nil_r|]. apply wp_bindE. unfold scan_header. cbv zeta.
  wp_if as Eb; [done|]. case_bool_decide as Es; [done|]. wp_if as Ef; [done|]. wp_if as El; [done|].
  assert (Hn : sc_seen st !! entry_name h = None) by (destruct (sc_seen st !! entry_name h) eqn:E; [destruct Es; eauto|done]).
  pose proof (scan_header_inv limit st h Hi Eb Hn El) as Hi'. cbv zeta in Hi'.
  pose proof (fun x Hx => listed_kept st h x _ Hi Hn Hx eq_refl) as Hkeep.
  assert (Hfree : inv_files (sc_inv st) !! entry_name h = None).
  { destruct Hi as [(S1 & _ & _) _ _ _ _ _ _]. destruct (inv_files (sc_inv st) !! entry_name h) eqn:E; [|done].
    assert (sc_seen st !! entry_name h = Some TypeReg) by (apply S1; eauto). congruence. }
  unfold header_bad in Eb. apply orb_false_iff in Eb as [Eb Et]. apply orb_false_iff in Eb as [Eb Hmax%Z.ltb_ge].
  apply orb_false_iff in Eb as [Eb Hmin%Z.ltb_ge]. do 3 (apply orb_false_iff in Eb as [Eb _]). apply negb_false_iff in Eb.
  rewrite cons_middle, app_assoc. apply wp_bindE. destruct (h_Typeflag h) eqn:Etf; cbn in Et; [| |done].
  - rewrite (bool_decide_eq_true_2 (TypeReg = TypeReg)) by done. eapply wp_mono; [|by apply visit_keeps; [exact Hs|..]].
    intros tr' [s'|e] H; [|done]. wp_if as Ed; [done|]. rewrite (bool_decide_eq_false_2 (TypeReg = TypeDir)) in * by done.
    apply IH; [exact Hi'| |exact H]. apply Forall_app. split; [by eapply Forall_impl|]. constructor; [|done]. unfold listed. rewrite Etf. apply lookup_insert_eq.
  - rewrite (bool_decide_eq_false_2 (TypeDir = TypeReg)) by done. cbn [wp done]. wp_if as Ed; [done|].
    rewrite (bool_decide_eq_true_2 (TypeDir = TypeDir)) in * by done. apply IH; [exact Hi'| |exact Hs].
    apply Forall_app. split; [by eapply Forall_impl|]. constructor; [|done]. unfold listed. rewrite Etf. apply elem_of_app. right. by left.
Qed.
Lemma wp_scanArchive range t s tr : (forall l, range l ≡ₚ l) -> I ∅ s ->
  wp G (fun _ r => match r with
    | Ok (inv, s') => inventory_ok limit inv /\ Forall (listed inv) (t_headers t) /\ is_Some (t_end t) /\ I (inv_files inv) s'
    | Err _ => True end) (scanArchive limit visit range t s) tr.
Proof.
  intros Hr Hs. unfold scanArchive. apply wp_bindE. eapply wp_mono; [|by apply (wp_visit_headers _ []); [apply scan_start_inv|constructor|exact Hs]].
  intros tr1 [[st s1]|e] H; [|done]. destruct H as (Hi & Hl & Hs1). destruct (t_end t) as [n|]; [|done]. destruct (t_tail t) as [tail|]; [|done].
  wp_if as E1; [done|]. wp_if as E2; [done|]. apply wp_bindE.
  assert (Hn : forall names tr, wp G (fun _ r => match r with Ok _ => Forall (fun n => below_file (sc_seen st) n = false) names | Err _ => True end)
    (visit_all names () (fun _ name => check_context ;;* if below_file (sc_seen st) name then fail ErrInput else done ())) tr).
  { clear -context_allowed. induction names as [|x l IH]; intros tr; cbn [visit_all]; [constructor|]. apply wp_bindE, wp_bindE.
    split; [apply context_allowed|]. intros [e|]; cbn; [done|]. wp_if as E; [done|]. refine (wp_mono _ _ _ _ _ _ (IH _)).
    intros tr2 [[]|e] H; [by constructor|done]. }
  eapply wp_mono; [|apply Hn]. intros tr2 [[]|e] H; [|done]. cbn. split; [by eapply scan_done|]. split; [done|]. split; [by eexists|done].
Qed.
End Rule.

Abbreviation unguarded := (fun (_ : otrace) (X : Type) (_ : os X) => True).
Lemma wp_any {A} (p : oprog A) tr : wp unguarded (fun _ _ => True) p tr.
Proof. revert tr. induction p as [a|X e k IH]; intros tr; cbn; [done|]. auto. Qed.

(** C38: An archive that passes the scan holds only regular files and directories under relative names
    without dots, each once, none below a file, within the limits on entries and bytes, and the inventory lists every
    header, whatever the visitor does and in whatever order the maps are ranged over. *)
Theorem scan_archive_confined {S} limit (visit : visitor S) range t s tr0 tr inv s' :
  (forall l, range l ≡ₚ l) -> runs (scanArchive limit visit range t s) tr0 tr (Ok (inv, s')) ->
  inventory_ok limit inv /\ Forall (listed inv) (t_headers t).
Proof.
  intros Hr Hruns.
  pose proof (wp_scanArchive unguarded (fun _ _ => True) limit visit ltac:(done)
    ltac:(intros; eapply wp_mono; [|apply wp_any]; by intros ? []) range t s tr0 Hr Logic.I) as H.
  eapply wp_runs in H; [|exact Hruns]. cbn in H. tauto.
Qed.

Definition demo_header (name : string) (t : typeflag) (content : string) : Header :=
  mkHeader name t FormatUSTAR 0 "" (len content) content true.
Definition demo_tar : Tar :=
  mkTar [demo_header "./pg_wal/archive_status/" TypeDir ""; demo_header "PG_VERSION" TypeReg "18"; demo_header "base/1/2" TypeReg "xy"]
    (Some 1534) (Some (String "000" "")) 100.
(** An environment in which every local operation succeeds and nothing is found. *)
Definition demo_store {X} (e : Store.event X) : X :=
  match e with
  | CtxErr => None | Sleep _ => None | Local _ => None | Disk _ => None | UUID => "" | Now => 0
  | CheckBucketSafety => Err ErrOther | CheckConditions _ => Err ErrOther | Head _ => Err ErrOther
  | Read _ _ => Err ErrOther | PutFile _ _ _ _ _ => Err ErrOther | UploadFile _ _ _ _ => Err ErrOther
  | Download _ _ => Err ErrOther | ListObjects _ _ => ([], Err ErrOther) | Delete _ => Err ErrOther
  | AbortUpload _ => Err ErrOther | ListUploads _ _ => ([], Err ErrOther) | DownloadWAL _ _ => Err ErrOther
  | Caller _ _ => Err ErrOther
  end.
Definition demo_local : Prog.handler (E := os) () := fun X e s =>
  match e in os X return X * () with
  | Remote e => (demo_store e, s) | Fs _ => (None, s) | MkdirTemp d p => (Ok (within d p), s) | CreateTemp d p => (Ok (within d p), s)
  | Open _ => (Err IsOther, s) | Pass _ => (None, s) | Tape _ => (None, s) | Lstat _ => (None, s) | Stat _ => (Err IsNotExist, s) | ReadDir _ => (Err ErrOther, s)
  | WalkDir _ => ([], s) | EvalSymlinks p => (Some p, s) | AllocationUnit _ => (Some 8192, s)
  | ReadKernel => (Capacity.mkKernel None (fun _ => None) (fun _ => None), s) | Tool _ _ _ => (Err ErrOther, s)
  | SpaceRounds => ([], s) | SizeRounds => ([], s) | CaptureRounds => ([], s) | Projected _ _ => (Err ErrOther, s) | Setup _ => (Ok (), s)
  end.
Definition demo_scan : oprog (res (archiveInventory * ())) :=
  scanArchive 1000 (fun _ name size content => copyMember "/target" name size content) (fun l => l) demo_tar ().
Definition demo_inventory : archiveInventory :=
  mkInventory (<["base/1/2" := 2]> (<["PG_VERSION" := 2]> ∅)) ["pg_wal/archive_status"] 3 4.
Lemma scan_archive_confined_witness :
  exists tr, runs demo_scan [] tr (Ok (demo_inventory, ())) /\ inventory_ok 1000 demo_inventory.
Proof.
  exists (run_trace demo_local demo_scan () []).
  assert (H : runs demo_scan [] (run_trace demo_local demo_scan () []) (Ok (demo_inventory, ()))).
  { assert (E : (run demo_local demo_scan ()).1 = Ok (demo_inventory, ())) by (vm_compute; reflexivity). rewrite <- E. apply run_trace_runs. }
  split; [exact H|]. apply (scan_archive_confined _ _ (fun l => l) _ _ _ _ _ _ (fun l => Permutation_refl l) H).
Defined.
Example escape_refused :
  (run demo_local (scanArchive 1000 (fun _ _ _ _ => done ()) (fun l => l)
     (mkTar [demo_header "base/../../etc/passwd" TypeReg "x"] (Some 1535) (Some "") 100) ()) ()).1 = Err ErrInput.
Proof. vm_compute. reflexivity. Qed.
