(* ===== verification/NativeManifest.v ===== *)
(** * The native backup manifest (internal/postgres/archive.go)

    [scanManifest] reads PostgreSQL's manifest member by member, one file record at a time.  Its outcome depends only on
    the whole document: the model splits the text into the raw members and records the streaming decoder would yield. *)

From S2P Require Import Prelude GoStrings GoTime Errors Schema Json LooseJson WalNames S3Keys Configuration NativePath NativeArchive.

(** [strings.ToLower] is idempotent on hexadecimal digits; [hex.DecodeString] accepts both cases. *)
Definition hexBytes (s : string) : bool := all_chars hex_char s && (Z.of_nat (String.length s) mod 2 =? 0).
Definition hashText (s : string) : bool := hexBytes s && (len s =? 64).
Fixpoint hex_decode (s : string) : option string :=
  match s with
  | EmptyString => Some EmptyString
  | String a (String b t) =>
      match digit_val a, digit_val b, hex_decode t with
      | Some x, Some y, Some u => if (x <? 16) && (y <? 16) then Some (String (byte (16 * x + y)) u) else None
      | _, _, _ => None
      end
  | _ => None
  end.

(** ** Raw members and elements *)
(** The raw text of the value at the head of [s], and what follows it. *)
Definition raw_value (s : string) : option (string * json * string) :=
  let s := skip_space s in
  match parse_value (S (String.length s)) s with
  | Some (j, t) => Some (String.substring 0 (String.length s - String.length t) s, j, t)
  | None => None
  end.
Fixpoint raw_members (fuel : nat) (s : string) : option (list (string * string) * string) :=
  match fuel with
  | O => None
  | S f =>
      match skip_space s with
      | String c t =>
          if negb (c ==? quote) then None else
          match parse_text t with
          | None => None
          | Some (k, t) =>
              match skip_space t with
              | String ":" t =>
                  match raw_value t with
                  | None => None
                  | Some (raw, _, t) =>
                      match skip_space t with
                      | String "}" t => Some ([(k, raw)], t)
                      | String "," t => match raw_members f t with Some (l, t) => Some ((k, raw) :: l, t) | None => None end
                      | _ => None
                      end
                  end
              | _ => None
              end
          end
      | EmptyString => None
      end
  end.
Fixpoint raw_elements (fuel : nat) (s : string) : option (list string * string) :=
  match fuel with
  | O => None
  | S f =>
      match raw_value s with
      | None => None
      | Some (raw, _, t) =>
          match skip_space t with
          | String "]" t => Some ([raw], t)
          | String "," t => match raw_elements f t with Some (l, t) => Some (raw :: l, t) | None => None end
          | _ => None
          end
      end
  end.
(** The members of the object that is the whole of [s], with the text after it. *)
Definition raw_object (s : string) : option (list (string * string) * string) :=
  match skip_space s with
  | String "{" t =>
      match skip_space t with String "}" t => Some ([], t) | _ => raw_members (String.length t) t end
  | _ => None
  end.
Definition raw_array (s : string) : option (list string) :=
  match skip_space s with
  | String "[" t =>
      match skip_space t with
      | String "]" u => if skip_space u ==? "" then Some [] else None
      | _ => match raw_elements (String.length t) t with Some (l, u) => if skip_space u ==? "" then Some l else None | None => None end
      end
  | _ => None
  end.

(** ** Records *)
#[export] Instance loose_int : Loose Z :=
  mkLoose Z 0 (fun v j => match j with JNull => Some v | _ => @of_json Z int64 j end).
Definition loose_uint32 : Loose Z := mkLoose Z 0 (fun v j => match j with JNull => Some v | _ => @of_json Z uint32 j end).
Record manifestFile := mkManifestFile {
  mf_Path : string; mf_EncodedPath : string; mf_Size : Z; mf_LastModified : string; mf_ChecksumAlgorithm : string; mf_Checksum : string }.
#[export] Instance loose_manifestFile : Loose manifestFile :=
  mkLoose manifestFile (mkManifestFile "" "" 0 "" "" "") (into_struct [
    ("Path", on_field mf_Path (fun v x => mkManifestFile x (mf_EncodedPath v) (mf_Size v) (mf_LastModified v) (mf_ChecksumAlgorithm v) (mf_Checksum v)));
    ("Encoded-Path", on_field mf_EncodedPath (fun v x => mkManifestFile (mf_Path v) x (mf_Size v) (mf_LastModified v) (mf_ChecksumAlgorithm v) (mf_Checksum v)));
    ("Size", on_field mf_Size (fun v x => mkManifestFile (mf_Path v) (mf_EncodedPath v) x (mf_LastModified v) (mf_ChecksumAlgorithm v) (mf_Checksum v)));
    ("Last-Modified", on_field mf_LastModified (fun v x => mkManifestFile (mf_Path v) (mf_EncodedPath v) (mf_Size v) x (mf_ChecksumAlgorithm v) (mf_Checksum v)));
    ("Checksum-Algorithm", on_field mf_ChecksumAlgorithm (fun v x => mkManifestFile (mf_Path v) (mf_EncodedPath v) (mf_Size v) (mf_LastModified v) x (mf_Checksum v)));
    ("Checksum", on_field mf_Checksum (fun v x => mkManifestFile (mf_Path v) (mf_EncodedPath v) (mf_Size v) (mf_LastModified v) (mf_ChecksumAlgorithm v) x))]).
#[export] Instance loose_WALRange : Loose WALRange :=
  mkLoose WALRange (mkWALRange 0 "" "") (into_struct [
    ("Timeline", @on_field _ _ loose_uint32 wr_Timeline (fun v x => mkWALRange x (wr_StartLSN v) (wr_EndLSN v)));
    ("Start-LSN", on_field wr_StartLSN (fun v x => mkWALRange (wr_Timeline v) x (wr_EndLSN v)));
    ("End-LSN", on_field wr_EndLSN (fun v x => mkWALRange (wr_Timeline v) (wr_StartLSN v) x))]).

Record NativeManifest := mkNativeManifest { nm_SystemIdentifier : Z; nm_Files : gmap string Z; nm_Ranges : list WALRange }.

Definition wal_file (p : string) : bool := HasPrefix p "pg_wal/" && ValidWALFilename (TrimPrefix p "pg_wal/").
Definition done_file (p : string) (size : Z) : bool :=
  HasPrefix p "pg_wal/archive_status/" && HasSuffix p ".done" && (size =? 0) &&
  ValidWALFilename (TrimSuffix (TrimPrefix p "pg_wal/archive_status/") ".done").
(** The path of a record, decoded. *)
Definition record_path (f : manifestFile) : res string :=
  if mf_EncodedPath f !=? "" then match hex_decode (mf_EncodedPath f) with Some p => Ok p | None => Err ErrInput end
  else Ok (mf_Path f).
Definition scan_file (synthetic : bool) (files : gmap string Z) (raw : string) : res (gmap string Z) :=
  if (16 * 1024 <? len raw) || (maxEntries <=? Z.of_nat (size files)) then Err ErrInput else
  match @StrictJSON manifestFile _ raw with
  | None => Err ErrInput
  | Some f =>
      if ((mf_Path f ==? "") ==? (mf_EncodedPath f ==? "")) || (mf_Size f <? 0) || (maxFileBytes <? mf_Size f) || (mf_LastModified f ==? "")
      then Err ErrInput else
      let? p := record_path f in
      if negb (nativePath p) then Err ErrInput else
      let unchecksummedWAL :=
        synthetic && (wal_file p || done_file p (mf_Size f)) && (mf_ChecksumAlgorithm f ==? "") && (mf_Checksum f ==? "") in
      if negb unchecksummedWAL && ((mf_ChecksumAlgorithm f !=? "SHA256") || negb (hashText (mf_Checksum f))) then Err ErrInput else
      if bool_decide (is_Some (files !! p)) then Err ErrInput else Ok (<[p := mf_Size f]> files)
  end.
Definition scan_ranges (raw : string) : res (list WALRange) :=
  if 4096 <? len raw then Err ErrInput else
  match @StrictJSON (slice_of WALRange) _ raw with
  | None => Err ErrInput
  | Some ranges =>
      match elements_of ranges with
      | [v] =>
          match ParseLSN (wr_StartLSN v), ParseLSN (wr_EndLSN v) with
          | Ok a, Ok b => if (wr_Timeline v =? 0) || (b <=? a) then Err ErrInput else Ok [v]
          | _, _ => Err ErrInput
          end
      | _ => Err ErrInput
      end
  end.
(** [d.Decode] of one value into an integer or a string. *)
Definition decode_as {A} (J : Json A) (raw : string) : option A :=
  match parse_document raw with Some j => of_json j | None => None end.
Definition uint64 : Json Z := json_int 0 u64_max.

Definition scan_member (synthetic : bool) (st : list string * NativeManifest) (kv : string * string) : res (list string * NativeManifest) :=
  let '(seen, m) := st in
  let '(key, raw) := kv in
  if bool_decide (key ∈ seen) then Err ErrInput else
  let seen := key :: seen in
  if key ==? "PostgreSQL-Backup-Manifest-Version" then
    if decode_as int64 raw ==? Some 2 then Ok (seen, m) else Err ErrInput
  else if key ==? "System-Identifier" then
    match decode_as uint64 raw with
    | Some n => if n =? 0 then Err ErrInput else Ok (seen, mkNativeManifest n (nm_Files m) (nm_Ranges m))
    | None => Err ErrInput
    end
  else if key ==? "Manifest-Checksum" then
    match decode_as json_string raw with
    | Some s => if hashText s then Ok (seen, m) else Err ErrInput
    | None => Err ErrInput
    end
  else if key ==? "Files" then
    match raw_array raw with
    | None => Err ErrInput
    | Some l => let? files := forM l (nm_Files m) (scan_file synthetic) in Ok (seen, mkNativeManifest (nm_SystemIdentifier m) files (nm_Ranges m))
    end
  else if key ==? "WAL-Ranges" then
    let? ranges := scan_ranges raw in Ok (seen, mkNativeManifest (nm_SystemIdentifier m) (nm_Files m) (nm_Ranges m ++ ranges))
  else Err ErrInput.

(** Invalid UTF-8 is refused wherever it stands: in a key it is unknown, in a value it is not a digest and in a record it is
    not strict JSON.  Unpaired surrogate escapes are replaced, which keeps every length. *)
Definition scanManifest (b : string) (synthetic : bool) : res NativeManifest :=
  let b := String.substring 0 (Z.to_nat (MaxManifestBytes + 1)) b in
  if negb (ValidString b) then Err ErrInput else
  match raw_object (sanitize false 0 b) with
  | None => Err ErrInput
  | Some (members, rest) =>
      let? (seen, m) := forM members ([], mkNativeManifest 0 ∅ []) (scan_member synthetic) in
      if negb (Z.of_nat (length seen) =? 5) || (Z.of_nat (size (nm_Files m)) =? 0) then Err ErrInput else
      if (skip_space rest !=? "") || (MaxManifestBytes <? len b - len rest) then Err ErrInput else Ok m
  end.
Definition ScanManifest (b : string) : res NativeManifest := scanManifest b false.

(** ** What an accepted manifest says *)
Record manifest_ok (m : NativeManifest) : Prop := {
  mo_system : 0 < nm_SystemIdentifier m < 2 ^ 64;
  mo_files : forall p n, nm_Files m !! p = Some n -> nativePath p = true /\ 0 <= n <= maxFileBytes;
  mo_some : nm_Files m <> ∅;
  mo_count : Z.of_nat (size (nm_Files m)) <= maxEntries;
  mo_range : exists w a b, nm_Ranges m = [w] /\ ParseLSN (wr_StartLSN w) = Ok a /\ ParseLSN (wr_EndLSN w) = Ok b /\ wr_Timeline w <> 0 /\ a < b }.

Definition known_keys : list string :=
  ["PostgreSQL-Backup-Manifest-Version"; "System-Identifier"; "Manifest-Checksum"; "Files"; "WAL-Ranges"].
Definition files_ok (files : gmap string Z) : Prop :=
  (forall p n, files !! p = Some n -> nativePath p = true /\ 0 <= n <= maxFileBytes) /\ Z.of_nat (size files) <= maxEntries.
Definition range_ok (l : list WALRange) : Prop :=
  exists w a b, l = [w] /\ ParseLSN (wr_StartLSN w) = Ok a /\ ParseLSN (wr_EndLSN w) = Ok b /\ wr_Timeline w <> 0 /\ a < b.
Record members_inv (seen : list string) (m : NativeManifest) : Prop := {
  mi_once : NoDup seen;
  mi_known : seen ⊆ known_keys;
  mi_system : "System-Identifier" ∈ seen -> 0 < nm_SystemIdentifier m < 2 ^ 64;
  mi_files : files_ok (nm_Files m);
  mi_none : "WAL-Ranges" ∉ seen -> nm_Ranges m = [];
  mi_range : "WAL-Ranges" ∈ seen -> range_ok (nm_Ranges m) }.

Lemma scan_file_ok synthetic files raw files' : files_ok files -> scan_file synthetic files raw = Ok files' -> files_ok files'.
Proof.
  intros [Hf Hs]. unfold scan_file. destruct (_ || (maxEntries <=? _)) eqn:E1; [done|].
  destruct (StrictJSON raw) as [f|]; [|done]. destruct (_ || (mf_LastModified f ==? "")) eqn:E2; [done|].
  destruct (record_path f) as [p|]; [|done]. cbn [res_bind]. destruct (nativePath p) eqn:En; [|done]. cbn [negb].
  destruct (negb _ && _); [done|].
  destruct (bool_decide (is_Some (files !! p))) eqn:Ei; [done|]. apply bool_decide_eq_false in Ei. intros [= <-].
  apply orb_false_iff in E1 as [_ E1%Z.leb_gt]. apply orb_false_iff in E2 as [E2 _].
  apply orb_false_iff in E2 as [E2 Hmax%Z.ltb_ge]. apply orb_false_iff in E2 as [_ Hmin%Z.ltb_ge].
  assert (files !! p = None) as Hp by (destruct (files !! p) eqn:E; [destruct Ei; eauto|done]).
  split; [|rewrite map_size_insert_None by done; lia].
  intros q n. destruct (decide (q = p)) as [->|Hne]; rewrite ?lookup_insert_eq, ?lookup_insert_ne by done; [|apply Hf].
  intros [= <-]. split; [done|lia].
Qed.
Lemma scan_ranges_ok raw l : scan_ranges raw = Ok l -> range_ok l.
Proof.
  unfold scan_ranges. destruct (_ <? len raw); [done|]. destruct (StrictJSON raw) as [sl|]; [|done].
  destruct (elements_of sl) as [|v [|]]; [done| |done]. destruct (ParseLSN (wr_StartLSN v)) as [a|] eqn:Ea; [|done].
  destruct (ParseLSN (wr_EndLSN v)) as [b|] eqn:Eb; [|done]. destruct (_ || _) eqn:E; [done|]. intros [= <-].
  apply orb_false_iff in E as [Et%Z.eqb_neq Elt%Z.leb_gt]. by exists v, a, b.
Qed.
Lemma decode_uint64_range raw n : decode_as uint64 raw = Some n -> 0 <= n < 2 ^ 64.
Proof.
  unfold decode_as. destruct (parse_document raw) as [j|]; [|done]. destruct j; try done. cbn.
  destruct (ParseUint text 10 64); [|done]. destruct (_ && _) eqn:E; [|done]. intros [= <-].
  apply andb_true_iff in E as [?%Z.leb_le ?%Z.leb_le]. unfold u64_max in *. lia.
Qed.

Lemma scan_member_inv synthetic seen m kv seen' m' :
  members_inv seen m -> scan_member synthetic (seen, m) kv = Ok (seen', m') -> members_inv seen' m'.
Proof.
  intros [H1 H2 H3 H4 H5 H6]. destruct kv as [key raw]. unfold scan_member. case_bool_decide as Hnew; [done|].
  assert (Hadd : forall m', key ∈ known_keys -> nm_SystemIdentifier m' = nm_SystemIdentifier m \/ key = "System-Identifier" ->
    (key = "System-Identifier" -> 0 < nm_SystemIdentifier m' < 2 ^ 64) -> files_ok (nm_Files m') ->
    (key <> "WAL-Ranges" -> nm_Ranges m' = nm_Ranges m) -> (key = "WAL-Ranges" -> range_ok (nm_Ranges m')) ->
    members_inv (key :: seen) m').
  { intros m1 Hk Hs Hs' Hf Hr Hr'. split; [by constructor| |..].
    - intros x [->|Hx]%elem_of_cons; [done|by apply H2].
    - intros [E|Hx]%elem_of_cons; [by apply Hs'|]. destruct Hs as [->|E]; [by apply H3|by apply Hs'].
    - done.
    - intros [Hk1 Hk2]%not_elem_of_cons. rewrite Hr by congruence. by apply H5.
    - intros [E|Hx]%elem_of_cons; [by apply Hr'|]. destruct (decide (key = "WAL-Ranges")) as [E|E]; [by apply Hr'|].
      rewrite Hr by done. by apply H6. }
  destruct (key ==? "PostgreSQL-Backup-Manifest-Version") eqn:E1.
  { apply bool_decide_eq_true in E1 as ->. destruct (_ ==? Some 2); [|done]. intros [= <- <-].
    apply Hadd; try done; [repeat constructor|by left]. }
  destruct (key ==? "System-Identifier") eqn:E2.
  { apply bool_decide_eq_true in E2 as ->. destruct (decode_as uint64 raw) as [n|] eqn:En; [|done].
    destruct (n =? 0) eqn:E0; [done|]. intros [= <- <-]. apply decode_uint64_range in En. apply Z.eqb_neq in E0.
    apply Hadd; try done; [repeat constructor|by right|]. intros _. cbn. lia. }
  destruct (key ==? "Manifest-Checksum") eqn:E3.
  { apply bool_decide_eq_true in E3 as ->. destruct (decode_as json_string raw) as [h|]; [|done]. destruct (hashText h); [|done].
    intros [= <- <-]. apply Hadd; try done; [repeat constructor|by left]. }
  destruct (key ==? "Files") eqn:E4.
  { apply bool_decide_eq_true in E4 as ->. destruct (raw_array raw) as [l|]; [|done].
    destruct (forM l (nm_Files m) (scan_file synthetic)) as [files|] eqn:Ef; [|done]. intros [= <- <-].
    assert (files_ok files) as Hf.
    { revert Ef. generalize (nm_Files m) as f0, H4. clear. induction l as [|x l IH]; intros f0 H; cbn; [by intros [= <-]|].
      destruct (scan_file synthetic f0 x) as [f1|] eqn:E; [|done]. cbn. apply IH. by eapply scan_file_ok. }
    apply Hadd; try done; [repeat constructor|by left]. }
  destruct (key ==? "WAL-Ranges") eqn:E5; [|done]. apply bool_decide_eq_true in E5 as ->.
  destruct (scan_ranges raw) as [l|] eqn:Er; [|done]. intros [= <- <-]. apply Hadd; try done; [repeat constructor|by left|].
  intros _. cbn. rewrite H5 by done. by eapply scan_ranges_ok.
Qed.
Lemma scan_members_inv synthetic l st st' :
  members_inv st.1 st.2 -> forM l st (scan_member synthetic) = Ok st' -> members_inv st'.1 st'.2.
Proof.
  revert st. induction l as [|kv l IH]; intros st H; cbn [forM]; [by intros [= <-]|].
  destruct (scan_member synthetic st kv) as [st1|] eqn:E; [|done]. cbn [res_bind]. apply IH. destruct st, st1. by eapply scan_member_inv.
Qed.

(** *** The records *)
(** One record of the file list: what it decodes to, strictly, and what is known of it. *)
Definition record_ok (synthetic : bool) (raw : string) (entry : string * Z) : Prop := exists f,
  @StrictJSON manifestFile _ raw = Some f /\ record_path f = Ok entry.1 /\ mf_Size f = entry.2
  /\ nativePath entry.1 = true /\ 0 <= entry.2 <= maxFileBytes /\ mf_LastModified f <> ""
  /\ ((mf_ChecksumAlgorithm f = "SHA256" /\ hashText (mf_Checksum f) = true)
      \/ (synthetic = true /\ (wal_file entry.1 = true \/ done_file entry.1 (mf_Size f) = true))).
Lemma scan_file_record synthetic files raw files' : scan_file synthetic files raw = Ok files' ->
  exists p n, record_ok synthetic raw (p, n) /\ files !! p = None /\ files' = <[p := n]> files.
Proof.
  unfold scan_file. destruct (_ || (maxEntries <=? _)); [done|]. destruct (StrictJSON raw) as [f|] eqn:Ef; [|done].
  destruct (_ || (mf_LastModified f ==? "")) eqn:E2; [done|]. destruct (record_path f) as [p|] eqn:Ep; [|done]. cbn [res_bind].
  destruct (nativePath p) eqn:En; [|done]. cbn [negb]. destruct (negb _ && _) eqn:Ec; [done|].
  destruct (bool_decide (is_Some (files !! p))) eqn:Ei; [done|]. apply bool_decide_eq_false in Ei. intros [= <-].
  apply orb_false_iff in E2 as [E2 Hl%bool_decide_eq_false]. apply orb_false_iff in E2 as [E2 Hmax%Z.ltb_ge]. apply orb_false_iff in E2 as [_ Hmin%Z.ltb_ge].
  exists p, (mf_Size f). split; [|split; [by destruct (files !! p); [destruct Ei|]|done]]. exists f. split_and!; try done; try lia. cbn [fst].
  apply andb_false_iff in Ec as [Ec|Ec].
  - apply negb_false_iff in Ec. right. apply andb_true_iff in Ec as [Ec _]. apply andb_true_iff in Ec as [Ec _].
    apply andb_true_iff in Ec as [-> Ec%orb_true_iff]. done.
  - left. apply orb_false_iff in Ec as [E1 E3]. apply negb_false_iff in E3. by apply negb_false_iff, bool_decide_eq_true in E1.
Qed.
(** The records of the list, each with a path of its own, are the files. *)
Definition records_of (synthetic : bool) (records : list string) (files : gmap string Z) : Prop := exists entries,
  Forall2 (record_ok synthetic) records entries /\ NoDup entries.*1 /\ files = list_to_map entries.
Lemma scan_records synthetic l : forall done_ entries files files', Forall2 (record_ok synthetic) done_ entries -> NoDup entries.*1 ->
  files = list_to_map entries -> forM l files (scan_file synthetic) = Ok files' -> records_of synthetic (done_ ++ l) files'.
Proof.
  induction l as [|raw l IH]; intros done_ entries files files' Hd Hn Hf; cbn [forM]; [intros [= <-]; rewrite app_nil_r; by exists entries|].
  destruct (scan_file synthetic files raw) as [files1|] eqn:E; [|done]. cbn [res_bind]. apply scan_file_record in E as (p & n & Hr & Hp & ->).
  rewrite Hf in Hp. apply not_elem_of_list_to_map in Hp. intros H.
  replace (done_ ++ raw :: l) with ((done_ ++ [raw]) ++ l) by (by rewrite <- app_assoc). eapply (IH _ (entries ++ [(p, n)])); [| | |exact H].
  - apply Forall2_app; [done|]. by repeat constructor.
  - rewrite fmap_app. apply NoDup_app. split; [done|]. split; [|apply NoDup_singleton]. intros x Hx Hx'. apply list_elem_of_singleton in Hx'. by subst.
  - rewrite Hf. rewrite (list_to_map_app entries [(p, n)]). cbn. rewrite <- insert_union_r by (by apply not_elem_of_list_to_map). by rewrite map_union_empty.
Qed.
(** What the members so far say of the files. *)
Definition files_from (synthetic : bool) (members : list (string * string)) (seen : list string) (m : NativeManifest) : Prop :=
  members.*1 ≡ₚ seen /\ ("Files" ∉ seen -> nm_Files m = ∅)
  /\ ("Files" ∈ seen -> exists raw records, ("Files", raw) ∈ members /\ raw_array raw = Some records /\ records_of synthetic records (nm_Files m)).
Lemma scan_member_files synthetic seen m key raw seen' m' : scan_member synthetic (seen, m) (key, raw) = Ok (seen', m') ->
  seen' = key :: seen /\ (key <> "Files" -> nm_Files m' = nm_Files m)
  /\ (key = "Files" -> key ∉ seen /\ exists l, raw_array raw = Some l /\ forM l (nm_Files m) (scan_file synthetic) = Ok (nm_Files m')).
Proof.
  unfold scan_member. case_bool_decide as Hnew; [done|]. destruct (key ==? "PostgreSQL-Backup-Manifest-Version") eqn:E1.
  { apply bool_decide_eq_true in E1 as ->. destruct (_ ==? Some 2); [|done]. by intros [= <- <-]. }
  destruct (key ==? "System-Identifier") eqn:E2.
  { apply bool_decide_eq_true in E2 as ->. destruct (decode_as uint64 raw) as [n|]; [|done]. destruct (n =? 0); [done|]. by intros [= <- <-]. }
  destruct (key ==? "Manifest-Checksum") eqn:E3.
  { apply bool_decide_eq_true in E3 as ->. destruct (decode_as json_string raw) as [h|]; [|done]. destruct (hashText h); [|done]. by intros [= <- <-]. }
  destruct (key ==? "Files") eqn:E4.
  { apply bool_decide_eq_true in E4 as ->. destruct (raw_array raw) as [l|]; [|done].
    destruct (forM l (nm_Files m) (scan_file synthetic)) as [files|] eqn:Ef; [|done]. intros [= <- <-]. split; [done|]. split; [done|]. intros _. split; [done|]. by exists l. }
  destruct (key ==? "WAL-Ranges") eqn:E5; [|done]. apply bool_decide_eq_true in E5 as ->. destruct (scan_ranges raw); [|done]. by intros [= <- <-].
Qed.
Lemma scan_members_files synthetic l : forall members seen m st', files_from synthetic members seen m -> forM l (seen, m) (scan_member synthetic) = Ok st' ->
  files_from synthetic (members ++ l) st'.1 st'.2.
Proof.
  induction l as [|[key raw] l IH]; intros members seen m st' (H1 & H2 & H3); cbn [forM]; [intros [= <-]; by rewrite app_nil_r|].
  destruct (scan_member synthetic (seen, m) (key, raw)) as [[seen1 m1]|] eqn:E; [|done]. cbn [res_bind]. apply scan_member_files in E as (-> & Hne & Heq). intros H.
  replace (members ++ (key, raw) :: l) with ((members ++ [(key, raw)]) ++ l) by (by rewrite <- app_assoc). eapply IH; [|exact H]. split_and!.
  - rewrite fmap_app, H1. cbn. by rewrite (Permutation_app_comm seen [key]).
  - intros [Hk Hs]%not_elem_of_cons. rewrite Hne by congruence. by apply H2.
  - intros Hin. destruct (decide (key = "Files")) as [->|Hk].
    + destruct (Heq eq_refl) as (Hs & records & Hr & Hf). exists raw, records. split; [apply elem_of_app; right; by left|]. split; [done|].
      rewrite H2 in Hf by done. by apply (scan_records synthetic records [] [] ∅ (nm_Files m1)); [constructor|apply NoDup_nil_2|..].
    + apply elem_of_cons in Hin as [Hin|Hin]; [congruence|]. destruct (H3 Hin) as (raw' & records & Hm & Hr). exists raw', records.
      split; [apply elem_of_app; by left|]. by rewrite Hne.
Qed.
(** The document of a manifest: its five members, each once, nothing after them, and a file list whose records, strictly decoded, have paths that are
    all different and are together the files. *)
Definition document_says (b : string) (synthetic : bool) (m : NativeManifest) : Prop := exists members rest raw records,
  raw_object (sanitize false 0 (String.substring 0 (Z.to_nat (MaxManifestBytes + 1)) b)) = Some (members, rest) /\ skip_space rest = ""
  /\ members.*1 ≡ₚ known_keys /\ ("Files", raw) ∈ members /\ raw_array raw = Some records /\ records_of synthetic records (nm_Files m).
Lemma scan_manifest_ok b synthetic m : scanManifest b synthetic = Ok m -> manifest_ok m /\ document_says b synthetic m.
Proof.
  unfold scanManifest, document_says. cbv zeta. set (b' := String.substring _ _ b). destruct (ValidString b'); [|done]. cbn [negb].
  destruct (raw_object (sanitize false 0 b')) as [[members rest]|]; [|done].
  destruct (forM members _ _) as [[seen m']|] eqn:E; [|done]. cbn [res_bind].
  destruct (negb (Z.of_nat (length seen) =? 5) || (Z.of_nat (size (nm_Files m')) =? 0)) eqn:E1; [done|].
  destruct ((skip_space rest !=? "") || (MaxManifestBytes <? _)) eqn:E3; [done|]. intros [= <-].
  assert (files_from synthetic [] [] (mkNativeManifest 0 ∅ [])) as H0 by (split; [done|]; split; [done|by intros Hx%elem_of_nil]).
  pose proof (scan_members_files synthetic members [] [] _ _ H0 E) as (F1 & _ & F3). cbn in F1, F3. clear H0.
  apply scan_members_inv in E; cycle 1.
  { split; cbn; [apply NoDup_nil_2|by intros x Hx%elem_of_nil|by intros Hx%elem_of_nil| |done|by intros Hx%elem_of_nil].
    split; [|unfold maxEntries; by rewrite map_size_empty]. intros p n. by rewrite lookup_empty. }
  destruct E as [Ho Hk Hsys [Hf Hc] _ Hr]. cbn in *. apply orb_false_iff in E1 as [E1 E2%Z.eqb_neq].
  apply negb_false_iff, Z.eqb_eq in E1. apply orb_false_iff in E3 as [E3%negb_false_iff%bool_decide_eq_true _].
  assert (Hp : seen ≡ₚ known_keys).
  { apply submseteq_length_Permutation; [|cbn; lia]. apply NoDup_submseteq; [done|]. intros x. apply Hk. }
  split.
  - split; try done.
    + apply Hsys. rewrite Hp. right. by left.
    + intros E. apply E2. by rewrite E, map_size_empty.
    + apply Hr. rewrite Hp. do 4 right. by left.
  - destruct F3 as (raw & records & G1 & G2 & G3); [rewrite Hp; do 3 right; by left|]. exists members, rest, raw, records. split_and!; try done. by rewrite F1.
Qed.

(** C40: A manifest that is accepted names a system, exactly one WAL range that is not empty, on a timeline,
    and at least one and at most 100000 files, under relative paths without dots and of bounded size.  The document has exactly its five members,
    each once, and nothing after them; its file list is a list of records that decode strictly, each with a SHA-256 checksum (but for the WAL of a
    combined backup), no two with the same path, and the files are exactly the paths and sizes of these records. *)
Theorem scan_manifest_sound b synthetic m : scanManifest b synthetic = Ok m -> manifest_ok m /\ document_says b synthetic m.
Proof. apply scan_manifest_ok. Qed.

(** ** A manifest of one checksummed file *)
Definition quoted (s : string) : string := String "034" (s +:+ String "034" "").
Definition demo_hash : string := foldr String.append EmptyString (replicate 32 "ab").
Definition demo_manifest (last : string) : string :=
  "{" +:+ quoted "PostgreSQL-Backup-Manifest-Version" +:+ ": 2, " +:+ quoted "System-Identifier" +:+ ": 7400000000000000001, " +:+
  quoted "Files" +:+ ": [{" +:+ quoted "Path" +:+ ": " +:+ quoted "base/1/1259" +:+ ", " +:+ quoted "Size" +:+ ": 8192, " +:+
  quoted "Last-Modified" +:+ ": " +:+ quoted "2026-01-01 00:00:00 GMT" +:+ ", " +:+ quoted "Checksum-Algorithm" +:+ ": " +:+ quoted "SHA256" +:+ ", " +:+
  quoted "Checksum" +:+ ": " +:+ quoted demo_hash +:+ "}], " +:+ quoted "WAL-Ranges" +:+ ": [{" +:+ quoted "Timeline" +:+ ": 1, " +:+
  quoted "Start-LSN" +:+ ": " +:+ quoted "0/2000028" +:+ ", " +:+ quoted "End-LSN" +:+ ": " +:+ quoted "0/2000120" +:+ "}], " +:+
  quoted last +:+ ": " +:+ quoted demo_hash +:+ "}" +:+ String "010" "".
Definition demo_parsed : NativeManifest :=
  mkNativeManifest 7400000000000000001 {["base/1/1259" := 8192]} [mkWALRange 1 "0/2000028" "0/2000120"].
Lemma scan_manifest_sound_witness :
  ScanManifest (demo_manifest "Manifest-Checksum") = Ok demo_parsed /\ manifest_ok demo_parsed
  /\ document_says (demo_manifest "Manifest-Checksum") false demo_parsed.
Proof.
  assert (H : ScanManifest (demo_manifest "Manifest-Checksum") = Ok demo_parsed) by (vm_compute; reflexivity).
  split; [exact H|exact (scan_manifest_sound _ false _ H)].
Defined.
Example unknown_member_refused : ScanManifest (demo_manifest "Manifest-Signature") = Err ErrInput.
Proof. vm_compute. reflexivity. Qed.
