(* ===== verification/NativeText.v ===== *)
(** * What the native tools print and record (internal/postgres/capture.go, preflight.go, control.go, label_time.go, differential.go)

    The parsers of pg_controldata's output, of backup_label and tablespace_map, the server's state as psql reports it, the
    query that finds the instant of a label, and the rule for the full a differential may rest on. *)

From S2P Require Import Prelude GoStrings GoTime Sha256 Errors Schema Json LooseJson WalNames Configuration Capacity NativeManifest.

(** ** Standard library *)
(** [strings.SplitN(s, sep, 2)]: the two parts, or [None] when there is only one. *)
Fixpoint cut (sep s : string) : option (string * string) :=
  if HasPrefix s sep then Some ("", TrimPrefix s sep) else
  match s with
  | EmptyString => None
  | String c t => match cut sep t with Some (a, b) => Some (String c a, b) | None => None end
  end.
(** [strconv.ParseInt(s, 10, 64)] *)
Definition ParseInt (s : string) : option Z :=
  let signed (neg : bool) (t : string) :=
    match ParseUint t 10 64 with
    | Some n => if neg then if n <=? 2 ^ 63 then Some (- n) else None else if n <? 2 ^ 63 then Some n else None
    | None => None
    end in
  match s with
  | String "-" t => signed true t
  | String "+" t => signed false t
  | _ => signed false s
  end.
(** [m[k]] of a map of strings. *)
Definition at_key (m : gmap string string) (k : string) : string := default "" (m !! k).
Definition at_opt (m : option (gmap string string)) (k : string) : string := match m with Some m => at_key m k | None => "" end.
(** [t.Sub(u)] saturates, [t.Truncate(time.Second)] rounds down. *)
Definition Sub (t u : Time) : Z := Z.max (- 2 ^ 63) (Z.min (2 ^ 63 - 1) (t - u)).
Definition Truncate (t : Time) : Time := t - t mod second.
Definition newline : ascii := "010"%char.
Definition parse_time (s : string) : option Time := fst <$> parse_rfc3339nano s.

(** ** Control data *)
Definition controlFields (output : string) : gmap string string :=
  foldl (fun got line => match cut ":" line with
                            | Some (k, v) => <[TrimSpace k := TrimSpace v]> got
                            | None => got
                            end) ∅ (Split newline output).
Definition validateControl (got : gmap string string) : res () :=
  if negb (forallb (fun nv => at_key got nv.1 ==? nv.2)
             [("Database block size", "8192"); ("Blocks per segment of large relation", "131072"); ("WAL block size", "8192")])
  then Err ErrOther else
  match ParseUint (at_key got "Database system identifier") 10 64 with
  | None => Err ErrOther
  | Some system =>
      if system =? 0 then Err ErrOther else
      match ParseInt (at_key got "Bytes per WAL segment") with
      | None => Err ErrOther
      | Some wal =>
          if (wal <? Z.shiftl 1 20) || (Z.shiftl 1 30 <? wal) || negb (Z.land wal (wal - 1) =? 0) then Err ErrOther else
          let checksum := at_key got "Data page checksum version" in
          if (checksum !=? "0") && (checksum !=? "1") then Err ErrOther else Ok ()
      end
  end.
Record captureControl := mkControl { cc_System : string; cc_Segment : Z; cc_Timeline : Z; cc_Checksum : Z }.
#[export] Instance captureControl_eq_dec : EqDecision captureControl.
Proof. solve_decision. Defined.
Definition parseCaptureControl (output : string) : res captureControl :=
  let got := controlFields output in
  validateControl got ;;?
  if (at_key got "pg_control version number" !=? "1800") || (at_key got "Catalog version number" !=? "202506291") then Err ErrInput else
  match ParseUint (at_key got "Latest checkpoint's TimeLineID") 10 32 with
  | None => Err ErrInput
  | Some t =>
      if t =? 0 then Err ErrInput else
      Ok (mkControl (at_key got "Database system identifier") (default 0 (ParseInt (at_key got "Bytes per WAL segment"))) t
            (default 0 (ParseInt (at_key got "Data page checksum version"))))
  end.
Record Control := mkReadControl { ct_SystemIdentifier : string; ct_WALSegmentBytes : Z }.
(** [ReadControl] after the command answered. *)
Definition readControl (output : string) : res Control :=
  let got := controlFields output in
  validateControl got ;;?
  Ok (mkReadControl (at_key got "Database system identifier") (default 0 (ParseInt (at_key got "Bytes per WAL segment")))).

(** ** WAL file names *)
(** [strings.Repeat] panics on a negative count. *)
Definition leftHex (n : Z) : option string :=
  let s := fmt_uint false 16 n in
  if (8 <? String.length s)%nat then None else Some (zeros (8 - String.length s) +:+ s).
Fixpoint ToUpper (s : string) : string := match s with EmptyString => EmptyString | String c s => String (upper_byte c) (ToUpper s) end.
(** [None] is a panic: a division by zero or a negative count. *)
Definition WALFilename (timeline lsn segmentBytes : Z) : option string :=
  if wrap64 segmentBytes =? 0 then None else
  let n := lsn / wrap64 segmentBytes in
  let per := 2 ^ 32 / wrap64 segmentBytes in
  if per =? 0 then None else
  match leftHex timeline, leftHex (n / per), leftHex (n mod per) with
  | Some a, Some b, Some c => Some (ToUpper (a +:+ b +:+ c))
  | _, _, _ => None
  end.

(** ** backup_label and tablespace_map *)
Definition label_line (got : gmap string string) (line : string) : res (gmap string string) :=
  match cut ": " line with
  | None => Err ErrInput
  | Some (k, v) => if at_key got k !=? "" then Err ErrInput else Ok (<[k := v]> got)
  end.
Definition lsn_or_zero (s : string) : Z := match ParseLSN s with Ok n => n | Err _ => 0 end.
(** A panic of [WALFilename] is an error here; the sizes in use never cause one. *)
Definition parseLabel (c : Commit) (segment : Z) : res string :=
  let? got := forM (Split newline (TrimSuffix (c_BackupLabel c) (String newline ""))) ∅ label_line in
  let lsn := lsn_or_zero (c_StartLSN c) in
  match WALFilename (c_Timeline c) lsn segment with
  | None => Err ErrOther
  | Some file =>
      if (at_key got "START WAL LOCATION" !=? c_StartLSN c +:+ " (file " +:+ file +:+ ")") || (at_key got "BACKUP METHOD" !=? "streamed")
        || (at_key got "BACKUP FROM" !=? "primary") || (at_key got "START TIMELINE" !=? FormatUint (c_Timeline c))
      then Err ErrInput else
      match ParseLSN (at_key got "CHECKPOINT LOCATION") with
      | Err _ => Err ErrInput
      | Ok checkpoint =>
          if (checkpoint <? lsn) || (lsn_or_zero (c_StopLSN c) <=? checkpoint) then Err ErrInput else Ok (at_key got "START TIME")
      end
  end.
Record Connection := mkConnection { cn_Host : string; cn_Tablespaces : option (gmap string string) }.
Definition map_line (expected : gmap string string) (seen : gset string) (line : string) : res (gset string) :=
  match cut " " line with
  | None => Err ErrInput
  | Some (k, v) =>
      if bool_decide (k ∈ seen) || (at_key expected k ==? "") || (at_key expected k !=? v) then Err ErrInput else Ok ({[k]} ∪ seen)
  end.
Definition validateTablespaceMap (text : string) (tables : list Tablespace) (connection : Connection) : res () :=
  let expected := foldl (fun m t => <[FormatUint (ts_OID t) := at_opt (cn_Tablespaces connection) (ts_Name t)]> m) ∅ tables in
  let lines := Split newline (TrimSuffix text (String newline "")) in
  if negb (Z.of_nat (length lines) =? Z.of_nat (size expected)) then Err ErrInput else
  forM lines ∅ (map_line expected) ;;? Ok ().

(** ** The server's state *)
Definition validHost (host : string) : bool :=
  negb ((len host <? 1) || (253 <? len host) || negb (HasSuffix host ".svc")) &&
  all_chars (fun c => in_range "a" "z" c || in_range "0" "9" c || (c ==? "-"%char) || (c ==? "."%char)) host.
Record serverState := mkState {
  ss_Version : Z; ss_Role : string; ss_Primary : bool; ss_BlockSize : Z; ss_SegmentSize : Z; ss_FullPageWrites : string;
  ss_WALLevel : string; ss_SummarizeWAL : string; ss_SummaryMinutes : Z; ss_ArchiveSeconds : Z; ss_ArchiveMode : string;
  ss_Tablespaces : option (gmap string string); ss_TablespaceOIDs : option (gmap string Z); ss_Postmaster : string;
  ss_Clock : string; ss_LogTimezone : string; ss_ConfigLoaded : string; ss_FreeSenders : Z; ss_FreeSlots : Z }.
#[export] Instance serverState_eq_dec : EqDecision serverState.
Proof. solve_decision. Defined.

(** [json.Unmarshal]: members without a field are skipped, a map is filled member by member and [null] makes it nil. *)
Fixpoint open_members {A} (table : field_table A) (v : A) (l : list (string * json)) : option A :=
  match l with
  | [] => Some v
  | (k, j) :: l =>
      match field_of table k with
      | None => open_members table v l
      | Some f => match f v j with Some v => open_members table v l | None => None end
      end
  end.
Definition open_struct {A} (table : field_table A) (v : A) (j : json) : option A :=
  match j with JNull => Some v | JObject l => open_members table v l | _ => None end.
Definition Unmarshal {A} {L : Loose A} (data : string) : option A :=
  match parse_document (sanitize false 0 data) with Some j => into zero j | None => None end.
#[export] Instance loose_bool : Loose bool :=
  mkLoose bool false (fun v j => match j with JNull => Some v | JBool b => Some b | _ => None end).
Fixpoint into_map {A} (L : Loose A) (m : gmap string A) (l : list (string * json)) : option (gmap string A) :=
  match l with
  | [] => Some m
  | (k, j) :: l => match @into A L (@zero A L) j with Some v => into_map L (<[k := v]> m) l | None => None end
  end.
Definition loose_map {A} (L : Loose A) : Loose (option (gmap string A)) :=
  mkLoose (option (gmap string A)) None (fun m j =>
    match j with JNull => Some None | JObject l => Some <$> into_map L (default ∅ m) l | _ => None end).
#[export] Instance loose_texts : Loose (option (gmap string string)) := loose_map loose_string.
#[export] Instance loose_oids : Loose (option (gmap string Z)) := loose_map loose_uint32.
Definition zero_state : serverState := mkState 0 "" false 0 0 "" "" "" 0 0 "" None None "" "" "" "" 0 0.
#[export] Instance loose_serverState : Loose serverState :=
  mkLoose serverState zero_state (open_struct [
    ("version", on_field ss_Version
      (fun s x => mkState x (ss_Role s) (ss_Primary s) (ss_BlockSize s) (ss_SegmentSize s) (ss_FullPageWrites s) (ss_WALLevel s) (ss_SummarizeWAL s) (ss_SummaryMinutes s) (ss_ArchiveSeconds s) (ss_ArchiveMode s) (ss_Tablespaces s) (ss_TablespaceOIDs s) (ss_Postmaster s) (ss_Clock s) (ss_LogTimezone s) (ss_ConfigLoaded s) (ss_FreeSenders s) (ss_FreeSlots s)));
    ("role", on_field ss_Role
      (fun s x => mkState (ss_Version s) x (ss_Primary s) (ss_BlockSize s) (ss_SegmentSize s) (ss_FullPageWrites s) (ss_WALLevel s) (ss_SummarizeWAL s) (ss_SummaryMinutes s) (ss_ArchiveSeconds s) (ss_ArchiveMode s) (ss_Tablespaces s) (ss_TablespaceOIDs s) (ss_Postmaster s) (ss_Clock s) (ss_LogTimezone s) (ss_ConfigLoaded s) (ss_FreeSenders s) (ss_FreeSlots s)));
    ("primary", on_field ss_Primary
      (fun s x => mkState (ss_Version s) (ss_Role s) x (ss_BlockSize s) (ss_SegmentSize s) (ss_FullPageWrites s) (ss_WALLevel s) (ss_SummarizeWAL s) (ss_SummaryMinutes s) (ss_ArchiveSeconds s) (ss_ArchiveMode s) (ss_Tablespaces s) (ss_TablespaceOIDs s) (ss_Postmaster s) (ss_Clock s) (ss_LogTimezone s) (ss_ConfigLoaded s) (ss_FreeSenders s) (ss_FreeSlots s)));
    ("blockSize", on_field ss_BlockSize
      (fun s x => mkState (ss_Version s) (ss_Role s) (ss_Primary s) x (ss_SegmentSize s) (ss_FullPageWrites s) (ss_WALLevel s) (ss_SummarizeWAL s) (ss_SummaryMinutes s) (ss_ArchiveSeconds s) (ss_ArchiveMode s) (ss_Tablespaces s) (ss_TablespaceOIDs s) (ss_Postmaster s) (ss_Clock s) (ss_LogTimezone s) (ss_ConfigLoaded s) (ss_FreeSenders s) (ss_FreeSlots s)));
    ("segmentSize", on_field ss_SegmentSize
      (fun s x => mkState (ss_Version s) (ss_Role s) (ss_Primary s) (ss_BlockSize s) x (ss_FullPageWrites s) (ss_WALLevel s) (ss_SummarizeWAL s) (ss_SummaryMinutes s) (ss_ArchiveSeconds s) (ss_ArchiveMode s) (ss_Tablespaces s) (ss_TablespaceOIDs s) (ss_Postmaster s) (ss_Clock s) (ss_LogTimezone s) (ss_ConfigLoaded s) (ss_FreeSenders s) (ss_FreeSlots s)));
    ("fullPageWrites", on_field ss_FullPageWrites
      (fun s x => mkState (ss_Version s) (ss_Role s) (ss_Primary s) (ss_BlockSize s) (ss_SegmentSize s) x (ss_WALLevel s) (ss_SummarizeWAL s) (ss_SummaryMinutes s) (ss_ArchiveSeconds s) (ss_ArchiveMode s) (ss_Tablespaces s) (ss_TablespaceOIDs s) (ss_Postmaster s) (ss_Clock s) (ss_LogTimezone s) (ss_ConfigLoaded s) (ss_FreeSenders s) (ss_FreeSlots s)));
    ("walLevel", on_field ss_WALLevel
      (fun s x => mkState (ss_Version s) (ss_Role s) (ss_Primary s) (ss_BlockSize s) (ss_SegmentSize s) (ss_FullPageWrites s) x (ss_SummarizeWAL s) (ss_SummaryMinutes s) (ss_ArchiveSeconds s) (ss_ArchiveMode s) (ss_Tablespaces s) (ss_TablespaceOIDs s) (ss_Postmaster s) (ss_Clock s) (ss_LogTimezone s) (ss_ConfigLoaded s) (ss_FreeSenders s) (ss_FreeSlots s)));
    ("summarizeWAL", on_field ss_SummarizeWAL
      (fun s x => mkState (ss_Version s) (ss_Role s) (ss_Primary s) (ss_BlockSize s) (ss_SegmentSize s) (ss_FullPageWrites s) (ss_WALLevel s) x (ss_SummaryMinutes s) (ss_ArchiveSeconds s) (ss_ArchiveMode s) (ss_Tablespaces s) (ss_TablespaceOIDs s) (ss_Postmaster s) (ss_Clock s) (ss_LogTimezone s) (ss_ConfigLoaded s) (ss_FreeSenders s) (ss_FreeSlots s)));
    ("summaryMinutes", on_field ss_SummaryMinutes
      (fun s x => mkState (ss_Version s) (ss_Role s) (ss_Primary s) (ss_BlockSize s) (ss_SegmentSize s) (ss_FullPageWrites s) (ss_WALLevel s) (ss_SummarizeWAL s) x (ss_ArchiveSeconds s) (ss_ArchiveMode s) (ss_Tablespaces s) (ss_TablespaceOIDs s) (ss_Postmaster s) (ss_Clock s) (ss_LogTimezone s) (ss_ConfigLoaded s) (ss_FreeSenders s) (ss_FreeSlots s)));
    ("archiveSeconds", on_field ss_ArchiveSeconds
      (fun s x => mkState (ss_Version s) (ss_Role s) (ss_Primary s) (ss_BlockSize s) (ss_SegmentSize s) (ss_FullPageWrites s) (ss_WALLevel s) (ss_SummarizeWAL s) (ss_SummaryMinutes s) x (ss_ArchiveMode s) (ss_Tablespaces s) (ss_TablespaceOIDs s) (ss_Postmaster s) (ss_Clock s) (ss_LogTimezone s) (ss_ConfigLoaded s) (ss_FreeSenders s) (ss_FreeSlots s)));
    ("archiveMode", on_field ss_ArchiveMode
      (fun s x => mkState (ss_Version s) (ss_Role s) (ss_Primary s) (ss_BlockSize s) (ss_SegmentSize s) (ss_FullPageWrites s) (ss_WALLevel s) (ss_SummarizeWAL s) (ss_SummaryMinutes s) (ss_ArchiveSeconds s) x (ss_Tablespaces s) (ss_TablespaceOIDs s) (ss_Postmaster s) (ss_Clock s) (ss_LogTimezone s) (ss_ConfigLoaded s) (ss_FreeSenders s) (ss_FreeSlots s)));
    ("tablespaces", on_field ss_Tablespaces
      (fun s x => mkState (ss_Version s) (ss_Role s) (ss_Primary s) (ss_BlockSize s) (ss_SegmentSize s) (ss_FullPageWrites s) (ss_WALLevel s) (ss_SummarizeWAL s) (ss_SummaryMinutes s) (ss_ArchiveSeconds s) (ss_ArchiveMode s) x (ss_TablespaceOIDs s) (ss_Postmaster s) (ss_Clock s) (ss_LogTimezone s) (ss_ConfigLoaded s) (ss_FreeSenders s) (ss_FreeSlots s)));
    ("tablespaceOIDs", on_field ss_TablespaceOIDs
      (fun s x => mkState (ss_Version s) (ss_Role s) (ss_Primary s) (ss_BlockSize s) (ss_SegmentSize s) (ss_FullPageWrites s) (ss_WALLevel s) (ss_SummarizeWAL s) (ss_SummaryMinutes s) (ss_ArchiveSeconds s) (ss_ArchiveMode s) (ss_Tablespaces s) x (ss_Postmaster s) (ss_Clock s) (ss_LogTimezone s) (ss_ConfigLoaded s) (ss_FreeSenders s) (ss_FreeSlots s)));
    ("postmaster", on_field ss_Postmaster
      (fun s x => mkState (ss_Version s) (ss_Role s) (ss_Primary s) (ss_BlockSize s) (ss_SegmentSize s) (ss_FullPageWrites s) (ss_WALLevel s) (ss_SummarizeWAL s) (ss_SummaryMinutes s) (ss_ArchiveSeconds s) (ss_ArchiveMode s) (ss_Tablespaces s) (ss_TablespaceOIDs s) x (ss_Clock s) (ss_LogTimezone s) (ss_ConfigLoaded s) (ss_FreeSenders s) (ss_FreeSlots s)));
    ("clock", on_field ss_Clock
      (fun s x => mkState (ss_Version s) (ss_Role s) (ss_Primary s) (ss_BlockSize s) (ss_SegmentSize s) (ss_FullPageWrites s) (ss_WALLevel s) (ss_SummarizeWAL s) (ss_SummaryMinutes s) (ss_ArchiveSeconds s) (ss_ArchiveMode s) (ss_Tablespaces s) (ss_TablespaceOIDs s) (ss_Postmaster s) x (ss_LogTimezone s) (ss_ConfigLoaded s) (ss_FreeSenders s) (ss_FreeSlots s)));
    ("logTimezone", on_field ss_LogTimezone
      (fun s x => mkState (ss_Version s) (ss_Role s) (ss_Primary s) (ss_BlockSize s) (ss_SegmentSize s) (ss_FullPageWrites s) (ss_WALLevel s) (ss_SummarizeWAL s) (ss_SummaryMinutes s) (ss_ArchiveSeconds s) (ss_ArchiveMode s) (ss_Tablespaces s) (ss_TablespaceOIDs s) (ss_Postmaster s) (ss_Clock s) x (ss_ConfigLoaded s) (ss_FreeSenders s) (ss_FreeSlots s)));
    ("configLoaded", on_field ss_ConfigLoaded
      (fun s x => mkState (ss_Version s) (ss_Role s) (ss_Primary s) (ss_BlockSize s) (ss_SegmentSize s) (ss_FullPageWrites s) (ss_WALLevel s) (ss_SummarizeWAL s) (ss_SummaryMinutes s) (ss_ArchiveSeconds s) (ss_ArchiveMode s) (ss_Tablespaces s) (ss_TablespaceOIDs s) (ss_Postmaster s) (ss_Clock s) (ss_LogTimezone s) x (ss_FreeSenders s) (ss_FreeSlots s)));
    ("freeSenders", on_field ss_FreeSenders
      (fun s x => mkState (ss_Version s) (ss_Role s) (ss_Primary s) (ss_BlockSize s) (ss_SegmentSize s) (ss_FullPageWrites s) (ss_WALLevel s) (ss_SummarizeWAL s) (ss_SummaryMinutes s) (ss_ArchiveSeconds s) (ss_ArchiveMode s) (ss_Tablespaces s) (ss_TablespaceOIDs s) (ss_Postmaster s) (ss_Clock s) (ss_LogTimezone s) (ss_ConfigLoaded s) x (ss_FreeSlots s)));
    ("freeSlots", on_field ss_FreeSlots
      (fun s x => mkState (ss_Version s) (ss_Role s) (ss_Primary s) (ss_BlockSize s) (ss_SegmentSize s) (ss_FullPageWrites s) (ss_WALLevel s) (ss_SummarizeWAL s) (ss_SummaryMinutes s) (ss_ArchiveSeconds s) (ss_ArchiveMode s) (ss_Tablespaces s) (ss_TablespaceOIDs s) (ss_Postmaster s) (ss_Clock s) (ss_LogTimezone s) (ss_ConfigLoaded s) (ss_FreeSenders s) x))]).
#[export] Instance loose_Connection : Loose Connection :=
  mkLoose Connection (mkConnection "" None) (into_struct [
    ("host", on_field cn_Host (fun c x => mkConnection x (cn_Tablespaces c)));
    ("tablespaces", on_field cn_Tablespaces (fun c x => mkConnection (cn_Host c) x))]).
(** [connection.json] after the projection was read. *)
Definition decode_connection (data : string) : option Connection :=
  match @StrictJSON Connection _ data with
  | Some c => if negb (validHost (cn_Host c)) || (64 <? Z.of_nat (size (default ∅ (cn_Tablespaces c)))) then None else Some c
  | None => None
  end.

Section Times.
Context (ParseDuration : string -> option Z).
Definition minute : Z := 60 * second.
Definition validateState (state : serverState) (c : Connection) (n : Native) : res () :=
  if negb (ss_Version state =? 180006) || (ss_Role state !=? "streaming_replica") || negb (ss_Primary state) || negb (ss_BlockSize state =? 8192)
     || negb (ss_SegmentSize state =? 2 ^ 30) || (ss_FullPageWrites state !=? "on")
     || ((ss_WALLevel state !=? "replica") && (ss_WALLevel state !=? "logical")) || (ss_SummarizeWAL state !=? "on") then Err ErrOther else
  match ParseDuration (n_MaxReferenceAge n), ParseDuration (n_CaptureTimeout n) with
  | Some age, Some timeout =>
      if (ss_SummaryMinutes state <=? Z.quot (to_int64 (age + timeout + 24 * hour_ns)) minute)
         || (Z.quot (3650 * 24 * hour_ns) minute <? ss_SummaryMinutes state) || (ss_ArchiveSeconds state <? 1) || (60 <? ss_ArchiveSeconds state)
      then Err ErrOther else
      if ss_Tablespaces state !=? cn_Tablespaces c then Err ErrOther else Ok ()
  | _, _ => Err ErrOther
  end.

(** ** The instant of a label *)
Definition labelTimeBounds (began stopped : string) : res (Time * Time) :=
  match parse_time began, parse_time stopped with
  | Some first, Some last =>
      if Before last first || (6 * hour_ns <? Sub last first) then Err ErrInput else Ok (Truncate first, Truncate last)
  | _, _ => Err ErrInput
  end.
(** [hex.EncodeToString] inside an SQL literal. *)
Fixpoint EncodeToString (s : string) : string :=
  match s with EmptyString => EmptyString | String c s => hex2 (byte_val c) +:+ EncodeToString s end.
Definition sql_text (s : string) : string := "convert_from(decode('" +:+ EncodeToString s +:+ "','hex'),'UTF8')".
Definition dq (s : string) : string := String quote (s +:+ String quote "").
Definition utc_format (us : string) : string := "'YYYY-MM-DD" +:+ dq "T" +:+ "HH24:MI:SS" +:+ us +:+ dq "Z" +:+ "'".
Definition nl (s : string) : string := String newline (String " " s).
Definition labelTimeQuery (label began stopped zone loaded : string) : res string :=
  match labelTimeBounds began stopped with
  | Err _ => Err ErrInput
  | Ok (first, last) =>
      if (len label <? 21) || (128 <? len label) || (zone ==? "") || (256 <? len zone) || (loaded ==? "") then Err ErrInput else
      Ok ("WITH settings AS MATERIALIZED (" +:+ nl "SELECT set_config('TimeZone', current_setting('log_timezone'), true) AS zone" +:+
          nl "), matches AS (" +:+ nl "SELECT t FROM settings, generate_series(to_timestamp(" +:+ FormatInt (first / second) +:+ "), to_timestamp(" +:+
          FormatInt (last / second) +:+ "), interval '1 second') AS t" +:+ nl "WHERE to_char(t, CASE WHEN settings.zone = " +:+ sql_text zone +:+
          nl "AND to_char(pg_conf_load_time() AT TIME ZONE 'UTC'," +:+ utc_format ".US" +:+ ") = " +:+ sql_text loaded +:+
          nl "THEN 'YYYY-MM-DD HH24:MI:SS TZ' ELSE NULL END) = " +:+ sql_text label +:+
          nl ") SELECT json_build_object('matches', count(*), 'started'," +:+ nl "to_char(min(t) AT TIME ZONE 'UTC'," +:+ utc_format "" +:+ ")) FROM matches;")
  end.
Record label_match := mkLabelMatch { lm_Matches : Z; lm_Started : string }.
#[export] Instance loose_label_match : Loose label_match :=
  mkLoose label_match (mkLabelMatch 0 "") (open_struct [
    ("matches", on_field lm_Matches (fun m x => mkLabelMatch x (lm_Started m)));
    ("started", on_field lm_Started (fun m x => mkLabelMatch (lm_Matches m) x))]).
Definition normalizedLabelTime (output began stopped : string) : res string :=
  match labelTimeBounds began stopped, @Unmarshal label_match _ output with
  | Ok (first, last), Some result =>
      if negb (lm_Matches result =? 1) then Err ErrInput else
      match parse_time (lm_Started result) with
      | None => Err ErrInput
      | Some started => if Before started first || After started last then Err ErrInput else Ok (format_rfc3339nano started)
      end
  | _, _ => Err ErrInput
  end.

(** ** The full a differential rests on *)
Definition eligibleFullAt (n : Native) (control : captureControl) (postmaster : string) (root : Commit) (podUID clock : string) : res () :=
  match ParseDuration (n_MaxReferenceAge n), parse_time (c_StartedAt root), parse_time (c_StoppedAt root), parse_time clock with
  | Some age, Some start, Some stop, Some now =>
      if (age <=? 0) || (age <? Sub now start) || Before stop start || After stop now || (c_Kind root !=? "full") || negb (c_PostgresMajor root =? 18)
         || (c_ToolVersion root !=? "18.6") || (c_SystemIdentifier root !=? cc_System control) || negb (c_Timeline root =? cc_Timeline control)
         || negb (c_ChecksumVersion root =? cc_Checksum control) || (podUID ==? "") || (c_CaptureInstanceUID root !=? podUID)
         || (c_PostmasterStartedAt root !=? postmaster)
      then Err ErrOther else Ok ()
  | _, _, _, _ => Err ErrOther
  end.
End Times.

(** ** Names and versions *)
Definition artifactName (a : Artifact) : string :=
  if ar_Role a ==? "base" then "base.tar" else if ar_Role a ==? "wal" then "pg_wal.tar"
  else if ar_Role a ==? "tablespace" then match ar_TablespaceOID a with Some oid => FormatUint oid +:+ ".tar" | None => "" end else "".
Definition nativeVersion (b tool : string) : bool :=
  HasPrefix b (tool +:+ " (PostgreSQL) 18.6 ") || (b ==? tool +:+ " (PostgreSQL) 18.6" +:+ String newline "").

(** ** Segment names *)
Lemma upper_digit d : 0 <= d < 16 -> upper_byte (digit_char false d) = digit_char true d.
Proof.
  intros Hd. assert (d = 0 \/ d = 1 \/ d = 2 \/ d = 3 \/ d = 4 \/ d = 5 \/ d = 6 \/ d = 7 \/ d = 8 \/ d = 9 \/ d = 10 \/ d = 11
    \/ d = 12 \/ d = 13 \/ d = 14 \/ d = 15) as H by lia.
  repeat (destruct H as [->|H]; [reflexivity|]). by subst.
Qed.
Lemma ToUpper_app a b : ToUpper (a +:+ b) = ToUpper a +:+ ToUpper b.
Proof. induction a as [|c a IH]; [done|]. change (String (upper_byte c) (ToUpper (a +:+ b)) = String (upper_byte c) (ToUpper a +:+ ToUpper b)). by rewrite IH. Qed.
Lemma ToUpper_zeros n : ToUpper (zeros n) = zeros n.
Proof. induction n as [|n IH]; cbn; [done|]. by rewrite IH. Qed.
Lemma ToUpper_fmt fuel n acc : ToUpper (fmt_digits false fuel 16 n acc) = fmt_digits true fuel 16 n (ToUpper acc).
Proof.
  revert n acc. induction fuel as [|f IH]; intros n acc; cbn [fmt_digits]; [done|].
  pose proof (Z.mod_pos_bound n 16 ltac:(lia)) as Hm.
  destruct (n / 16 =? 0); [|rewrite IH]; cbn; by rewrite upper_digit.
Qed.
Lemma ToUpper_length s : String.length (ToUpper s) = String.length s.
Proof. induction s as [|c s IH]; cbn; [done|]. by rewrite IH. Qed.
Lemma leftHex_spec n : 0 <= n < 2 ^ 32 -> exists s, leftHex n = Some s /\ ToUpper s = sprintf_08X n.
Proof.
  intros Hn. assert (String.length (fmt_uint false 16 n) <= 8)%nat as Hl by exact (fmt_uint_length false n 7 "" ltac:(cbn; lia)).
  unfold leftHex. destruct (Nat.ltb_spec 8 (String.length (fmt_uint false 16 n))); [lia|]. eexists. split; [done|].
  rewrite ToUpper_app, ToUpper_zeros. unfold sprintf_08X, pad, sprintf_X.
  assert (ToUpper (fmt_uint false 16 n) = fmt_uint true 16 n) as <- by apply ToUpper_fmt. by rewrite ToUpper_length.
Qed.
Lemma WALFilename_segment t lsn size : bad_segment_bytes size = false -> 0 <= t < 2 ^ 32 -> is_u64 lsn ->
  WALFilename t lsn size = Some (segment_name t (lsn - lsn mod size) size).
Proof.
  intros Hb Ht Hl. destruct (segment_bytes_facts size Hb) as (Hpos & Hr & Hdiv & _). unfold is_u64 in Hl.
  assert (Hper : 0 < 2 ^ 32 / size) by nia. unfold WALFilename, wrap64. rewrite (Z.mod_small size) by lia.
  destruct (Z.eqb_spec size 0); [lia|]. destruct (Z.eqb_spec (2 ^ 32 / size) 0); [lia|].
  set (per := 2 ^ 32 / size) in *. pose proof (Z.mod_pos_bound lsn size Hpos) as Hm. pose proof (Z.div_mod lsn size ltac:(lia)) as Hdm.
  set (start := lsn - lsn mod size).
  assert (Hn : start = size * (lsn / size)) by (unfold start; lia).
  assert (Hs : 0 <= start < 2 ^ 64) by (pose proof (Z.mod_le lsn size); unfold start; lia).
  assert (Hhi : lsn / size / per = start / 2 ^ 32).
  { rewrite Hn, Z.mul_comm, <- Hdiv, (Z.mul_comm per size), <- Z.div_div, Z.div_mul by lia. done. }
  assert (Hlo : (lsn / size) mod per = start mod 2 ^ 32 / size).
  { rewrite Hn, <- Hdiv, (Z.mul_comm per size), Z.mul_mod_distr_l, Z.mul_comm, Z.div_mul by lia. done. }
  rewrite Hhi, Hlo.
  destruct (leftHex_spec t Ht) as (a & -> & Ea).
  destruct (leftHex_spec (start / 2 ^ 32)) as (b & -> & Eb).
  { split; [apply Z.div_pos; lia|]. apply Z.div_lt_upper_bound; lia. }
  destruct (leftHex_spec (start mod 2 ^ 32 / size)) as (c & -> & Ec).
  { pose proof (Z.mod_pos_bound start (2 ^ 32) ltac:(lia)). split; [apply Z.div_pos; lia|]. apply Z.div_lt_upper_bound; nia. }
  by rewrite !ToUpper_app, Ea, Eb, Ec.
Qed.

(** The file name computed for a position never fails, and reading it back gives the timeline and the start of the
    segment that holds the position; so the label check compares with the file PostgreSQL writes. *)
Theorem wal_filename_position t lsn size : bad_segment_bytes size = false -> 0 < t < 2 ^ 32 -> is_u64 lsn ->
  exists name, WALFilename t lsn size = Some name /\ ArchivePosition name size = Ok (t, lsn - lsn mod size).
Proof.
  intros Hb Ht Hl. exists (segment_name t (lsn - lsn mod size) size). split; [apply WALFilename_segment; [done|lia|done]|].
  destruct (segment_bytes_facts size Hb) as (Hpos & _). pose proof (Z.mod_pos_bound lsn size Hpos).
  pose proof (Z.mod_le lsn size). unfold is_u64 in *. apply ArchivePosition_name; [done|done|unfold is_u64; lia|].
  pose proof (Z.div_mod lsn size ltac:(lia)). replace (lsn - lsn mod size) with (lsn / size * size) by lia. apply Z.mod_mul. lia.
Qed.
Lemma wal_filename_position_witness :
  WALFilename 2 0x1FE000028 (16 * 2 ^ 20) = Some "0000000200000001000000FE" /\
  exists name, WALFilename 2 0x1FE000028 (16 * 2 ^ 20) = Some name /\ ArchivePosition name (16 * 2 ^ 20) = Ok (2, 0x1FE000000).
Proof.
  split; [vm_compute; reflexivity|].
  exact (wal_filename_position 2 0x1FE000028 (16 * 2 ^ 20) eq_refl ltac:(lia) ltac:(unfold is_u64; lia)).
Defined.

(** ** The query *)
Lemma hex2_lower z : 0 <= z < 256 -> all_chars is_hex_lower (hex2 z) = true.
Proof.
  intros Hz. pose proof (Z.div_lt_upper_bound z 16 16 ltac:(lia) ltac:(lia)). pose proof (Z.div_pos z 16 ltac:(lia) ltac:(lia)).
  pose proof (Z.mod_pos_bound z 16 ltac:(lia)).
  assert (H16 : forall d, 0 <= d < 16 -> is_hex_lower (digit_char false d) = true).
  { intros d Hd. assert (d = 0 \/ d = 1 \/ d = 2 \/ d = 3 \/ d = 4 \/ d = 5 \/ d = 6 \/ d = 7 \/ d = 8 \/ d = 9 \/ d = 10 \/ d = 11
      \/ d = 12 \/ d = 13 \/ d = 14 \/ d = 15) as Hc by lia. repeat (destruct Hc as [->|Hc]; [reflexivity|]). by subst. }
  unfold hex2. cbn [all_chars]. by rewrite !H16.
Qed.
Lemma encode_cons c s : EncodeToString (String c s) = hex2 (byte_val c) +:+ EncodeToString s.
Proof. done. Qed.
Lemma encode_lower s : all_chars is_hex_lower (EncodeToString s) = true.
Proof.
  induction s as [|c s IH]; [done|]. rewrite encode_cons, all_chars_append, IH, hex2_lower; [done|]. apply byte_val_range.
Qed.
Lemma encode_decode s : hex_decode (EncodeToString s) = Some s.
Proof.
  induction s as [|c s IH]; [done|]. rewrite encode_cons. pose proof (byte_val_range c) as Hc. set (z := byte_val c) in *.
  pose proof (Z.div_lt_upper_bound z 16 16 ltac:(lia) ltac:(lia)). pose proof (Z.div_pos z 16 ltac:(lia) ltac:(lia)).
  pose proof (Z.mod_pos_bound z 16 ltac:(lia)).
  change (hex2 z +:+ EncodeToString s) with (String (digit_char false (z / 16)) (String (digit_char false (z mod 16)) (EncodeToString s))).
  cbn [hex_decode]. rewrite !digit_val_char by lia. rewrite IH.
  destruct (Z.ltb_spec (z / 16) 16); [|lia]. destruct (Z.ltb_spec (z mod 16) 16); [|lia]. cbn [andb].
  rewrite <- Z.div_mod by lia. do 2 f_equal. apply byte_val_inj. unfold byte, z. rewrite byte_val_ascii; [done|apply byte_val_range].
Qed.

(** The fixed text of the query around the three values, which depends on the two bounds alone. *)
Definition query_frame (first last : Time) : string * string * string * string :=
  ("WITH settings AS MATERIALIZED (" +:+ nl "SELECT set_config('TimeZone', current_setting('log_timezone'), true) AS zone" +:+
   nl "), matches AS (" +:+ nl "SELECT t FROM settings, generate_series(to_timestamp(" +:+ FormatInt (first / second) +:+ "), to_timestamp(" +:+
   FormatInt (last / second) +:+ "), interval '1 second') AS t" +:+ nl "WHERE to_char(t, CASE WHEN settings.zone = convert_from(decode('",
   "','hex'),'UTF8')" +:+ nl "AND to_char(pg_conf_load_time() AT TIME ZONE 'UTC'," +:+ utc_format ".US" +:+ ") = convert_from(decode('",
   "','hex'),'UTF8')" +:+ nl "THEN 'YYYY-MM-DD HH24:MI:SS TZ' ELSE NULL END) = convert_from(decode('",
   "','hex'),'UTF8')" +:+ nl ") SELECT json_build_object('matches', count(*), 'started'," +:+ nl "to_char(min(t) AT TIME ZONE 'UTC'," +:+
   utc_format "" +:+ ")) FROM matches;").

(** Whatever bytes the label, the zone and the load time hold, they enter the SQL text only as lower-case hexadecimal
    digits inside three literals of a fixed frame that depends on the two clock readings alone, and each literal decodes to
    exactly those bytes; no value can end its literal or change the statement. *)
Theorem label_query_inert label began stopped zone loaded q :
  labelTimeQuery label began stopped zone loaded = Ok q ->
  exists first last a b c d z l t, labelTimeBounds began stopped = Ok (first, last) /\ query_frame first last = (a, b, c, d) /\
    q = a +:+ z +:+ b +:+ l +:+ c +:+ t +:+ d /\
    forallb (all_chars is_hex_lower) [z; l; t] = true /\
    hex_decode z = Some zone /\ hex_decode l = Some loaded /\ hex_decode t = Some label.
Proof.
  unfold labelTimeQuery. destruct (labelTimeBounds began stopped) as [[first last]|] eqn:E; [|done].
  destruct (_ || (loaded ==? "")); [done|]. intros [= <-].
  exists first, last. do 4 eexists. exists (EncodeToString zone), (EncodeToString loaded), (EncodeToString label).
  split; [done|]. split; [reflexivity|]. split.
  - unfold sql_text, nl. rewrite !append_assoc.
    repeat (change (String ?c ?s +:+ ?t) with (String c (s +:+ t)) || rewrite append_assoc). reflexivity.
  - cbn [forallb]. by rewrite !encode_lower, !encode_decode.
Qed.
Definition demo_label : string := "2026-01-01 00:00:00 CST'; DROP TABLE t".
Lemma label_query_inert_witness :
  exists q a z, labelTimeQuery demo_label "2026-01-01T06:00:00Z" "2026-01-01T06:00:05Z" "America/Chicago" "2025-12-31T00:00:00Z" = Ok q /\
    q = a +:+ z /\ all_chars is_hex_lower (EncodeToString demo_label) = true.
Proof.
  destruct (labelTimeQuery demo_label "2026-01-01T06:00:00Z" "2026-01-01T06:00:05Z" "America/Chicago" "2025-12-31T00:00:00Z") as [q|e] eqn:E;
    [|vm_compute in E; discriminate E].
  destruct (label_query_inert _ _ _ _ _ _ E) as (first & last & a & b & c & d & z & l & t & _ & _ & -> & _).
  eexists _, a, _. split; [reflexivity|]. split; [reflexivity|vm_compute; reflexivity].
Defined.

(** ** What the parsers establish *)
Lemma ParseUint_range s bits n : ParseUint s 10 bits = Some n -> 0 <= n < 2 ^ bits.
Proof.
  unfold ParseUint. destruct (s ==? ""); [done|]. destruct (parse_digits 10 0 s) as [m|] eqn:E; [|done].
  destruct (Z.ltb_spec m (2 ^ bits)); [|done]. intros [= <-]. split; [|done]. eapply (parse_digits_nonneg 10); [| |exact E]; lia.
Qed.
(** Control data that is accepted describes a cluster the repository can hold: a system identifier, a segment size that is a
    power of two from 1 MiB to 1 GiB, a timeline and a known checksum version. *)
Theorem capture_control_sound output c : parseCaptureControl output = Ok c ->
  bad_segment_bytes (cc_Segment c) = false /\ 0 < cc_Timeline c < 2 ^ 32 /\ (cc_Checksum c = 0 \/ cc_Checksum c = 1) /\
  exists n, ParseUint (cc_System c) 10 64 = Some n /\ 0 < n < 2 ^ 64.
Proof.
  unfold parseCaptureControl, validateControl. cbv zeta. set (got := controlFields output). destruct (negb (forallb _ _)); [done|].
  destruct (ParseUint (at_key got "Database system identifier") 10 64) as [system|] eqn:Es; [|done].
  destruct (Z.eqb_spec system 0); [done|]. destruct (ParseInt (at_key got "Bytes per WAL segment")) as [wal|] eqn:Ew; [|done].
  change (_ || _ || negb (Z.land wal (wal - 1) =? 0)) with (bad_segment_bytes wal). destruct (bad_segment_bytes wal) eqn:Eb; [done|].
  destruct ((at_key got "Data page checksum version" !=? "0") && _) eqn:Ec; [done|]. cbn [res_bind].
  destruct ((_ !=? "1800") || _); [done|]. destruct (ParseUint _ 10 32) as [t|] eqn:Et; [|done]. destruct (Z.eqb_spec t 0); [done|].
  intros [= <-]. cbn. split; [exact Eb|]. apply ParseUint_range in Et. split; [lia|]. split.
  - apply andb_false_iff in Ec as [Ec|Ec]; apply negb_false_iff, bool_decide_eq_true in Ec; rewrite Ec; [by left|by right].
  - exists system. split; [done|]. apply ParseUint_range in Es. lia.
Qed.
(** The start recorded for a backup lies between the two clock readings around it, up to the second the label drops. *)
Theorem label_time_within output began stopped s : normalizedLabelTime output began stopped = Ok s ->
  exists t0 t1 t, parse_time began = Some t0 /\ parse_time stopped = Some t1 /\ s = format_rfc3339nano t /\
    t0 - second < t <= t1 /\ t1 - t0 <= 6 * hour_ns.
Proof.
  unfold normalizedLabelTime, labelTimeBounds. destruct (parse_time began) as [t0|]; [|done]. destruct (parse_time stopped) as [t1|]; [|done].
  destruct (_ || _) eqn:E; [done|]. apply orb_false_iff in E as [Ea%Z.ltb_ge Eb%Z.ltb_ge].
  destruct (Unmarshal output) as [r|]; [|done]. destruct (negb _); [done|]. destruct (parse_time (lm_Started r)) as [t|]; [|done].
  destruct (_ || _) eqn:E2; [done|]. apply orb_false_iff in E2 as [Ec%Z.ltb_ge Ed%Z.ltb_ge]. intros [= <-].
  exists t0, t1, t. unfold Truncate, Sub, hour_ns, second in *.
  pose proof (Z.mod_pos_bound t0 1000000000). pose proof (Z.mod_pos_bound t1 1000000000).
  repeat split; try done; lia.
Qed.
Example control_ex : parseCaptureControl (join newline
    ["pg_control version number:            1800"; "Catalog version number:               202506291";
     "Database system identifier:           7400000000000000001"; "Latest checkpoint's TimeLineID:       3";
     "Database block size:                  8192"; "Blocks per segment of large relation: 131072"; "WAL block size:                       8192";
     "Bytes per WAL segment:                16777216"; "Data page checksum version:           1"; ""])
  = Ok (mkControl "7400000000000000001" 16777216 3 1).
Proof. vm_compute. reflexivity. Qed.
Example map_ex : let c := mkConnection "db-rw.ns.svc" (Some {["fast" := "/var/lib/postgresql/tablespaces/fast/data"]}) in
  (validateTablespaceMap ("16390 /var/lib/postgresql/tablespaces/fast/data" +:+ String newline "") [mkTablespace 16390 "fast"] c,
   validateTablespaceMap ("16390 /etc" +:+ String newline "") [mkTablespace 16390 "fast"] c) = (Ok (), Err ErrInput).
Proof. vm_compute. reflexivity. Qed.
