(* ===== verification/NativeBudget.v ===== *)
(** * Capacity of a restore (internal/postgres/restore_capacity.go, restore_differential.go, restore.go)

    What every filesystem must have free before a restore writes to it: the scratch volume for the downloads, the targets for
    the files of the archives, rounded to the filesystem's allocation unit.  Sums stay below 63 bits (restore_budget_bounded);
    they are written over [Z]. *)

From S2P Require Import Prelude GoStrings GoTime Errors Schema Configuration Capacity NativePath NativeArchive NativeManifest NativeText.

Definition workspace : string := "/cnpg-backup/work".
Definition liveData : string := "/var/lib/postgresql/data/pgdata".
Record RestoreLayout := mkLayout { l_PGDATA : string; l_WALDirectory : string; l_Tablespaces : gmap string string }.
Definition map_values (m : gmap string string) : list string := map snd (map_to_list m).
Definition tables_of (c : Commit) : list Tablespace := default [] (c_Tablespaces c).

(** [^[A-Za-z_][A-Za-z0-9_$]{0,62}$] *)
Definition tablespaceName (s : string) : bool :=
  match s with
  | EmptyString => false
  | String c t =>
      (in_range "A" "Z" c || in_range "a" "z" c || (c ==? "_"%char)) && (len t <=? 62) &&
      all_chars (fun c => in_range "A" "Z" c || in_range "a" "z" c || is_digit c || (c ==? "_"%char) || (c ==? "$"%char)) t
  end.
Definition tablespace_target (name : string) : string := "/var/lib/postgresql/tablespaces/" +:+ name +:+ "/data".
Definition layout_step (l : RestoreLayout) (seen : list Z) (t : Tablespace) : res (list Z) :=
  if negb (tablespaceName (ts_Name t)) || (ts_OID t =? 0) || bool_decide (ts_OID t ∈ seen)
     || (at_key (l_Tablespaces l) (ts_Name t) !=? tablespace_target (ts_Name t))
  then Err ErrInput else Ok (ts_OID t :: seen).
Definition validateRestoreLayout (l : RestoreLayout) (tables : list Tablespace) : res () :=
  if (l_PGDATA l !=? liveData) || ((l_WALDirectory l !=? liveData +:+ "/pg_wal") && (l_WALDirectory l !=? "/var/lib/postgresql/wal/pg_wal"))
     || negb (Z.of_nat (size (l_Tablespaces l)) =? Z.of_nat (length tables)) then Err ErrInput else
  forM tables [] (layout_step l) ;;? Ok ().

Definition wal_apart (l : RestoreLayout) : bool := l_WALDirectory l !=? l_PGDATA l +:+ "/pg_wal".
Definition restoreMounts (l : RestoreLayout) : list string :=
  sort_slice String.ltb ([workspace; path_dir (l_PGDATA l)] ++ (if wal_apart l then [path_dir (l_WALDirectory l)] else []) ++
                         map path_dir (map_values (l_Tablespaces l))).
Definition with_required (b : FilesystemBudget) (n : Z) : FilesystemBudget := mkBudget (fb_Mount b) (fb_LimitBytes b) n.
Definition budget_step (byMount : gmap string FilesystemBudget) (b : FilesystemBudget) : res (gmap string FilesystemBudget) :=
  if (fb_LimitBytes b <=? 0) || (8192 * GiB <? fb_LimitBytes b) then Err ErrInput else
  if bool_decide (is_Some (byMount !! fb_Mount b)) then Err ErrInput else Ok (<[fb_Mount b := with_required b 0]> byMount).
Definition restoreBudgetSet (budgets : list FilesystemBudget) (l : RestoreLayout) : res (gmap string FilesystemBudget) :=
  let expected := restoreMounts l in
  if negb (Z.of_nat (length expected) =? Z.of_nat (length budgets)) then Err ErrInput else
  let? byMount := forM budgets ∅ budget_step in
  if negb (forallb (fun p => bool_decide (is_Some (byMount !! p))) expected) then Err ErrInput else Ok byMount.

Definition need_at (need : gmap string Z) (p : string) : Z := default 0 (need !! p).
Definition add_need (need : gmap string Z) (p : string) (n : Z) : gmap string Z := <[p := need_at need p + n]> need.
Definition less_mount (a b : FilesystemBudget) : bool := String.ltb (fb_Mount a) (fb_Mount b).
Definition finishRestoreBudgets (set : gmap string FilesystemBudget) (need : gmap string Z) : list FilesystemBudget :=
  sort_slice less_mount (map (fun kv => with_required kv.2 (need_at need kv.1 + CapacityMargin (need_at need kv.1))) (map_to_list set)).

(** ** The download *)
Record sums := mkSums { sm_raw : Z; sm_stored : Z; sm_wal : Z }.
Definition sum_step (n : Native) (s : sums) (a : Artifact) : res sums :=
  if (ar_RawBytes a <=? 0) || (n_MaxBackupBytes n <? ar_RawBytes a) || (ar_StoredBytes a <=? 0) || (MaxArtifactBytes <? ar_StoredBytes a)
  then Err ErrInput else
  Ok (mkSums (sm_raw s + ar_RawBytes a) (sm_stored s + ar_StoredBytes a) (if ar_Role a ==? "wal" then sm_wal s + ar_RawBytes a else sm_wal s)).
Definition bad_unit (unit : Z) : bool := (unit <? 8192) || (2 ^ 20 <? unit).
Definition restoreDownloadBudget (c : Commit) (n : Native) (budgets : list FilesystemBudget) (l : RestoreLayout) (unit : Z) : res (list FilesystemBudget) :=
  CaptureCapacity n ;;?
  if (n_MaxRestoredBytes n <? 1) || (1024 * GiB <? n_MaxRestoredBytes n) then Err ErrInput else
  let? set := restoreBudgetSet budgets l in
  let? s := forM (c_Artifacts c) (mkSums (c_ManifestBytes c) (c_ManifestBytes c) 0) (sum_step n) in
  if (n_MaxBackupBytes n <? sm_raw s) || (n_MaxBootstrapWALBytes n <? sm_wal s) || (spool_bound (n_MaxBackupBytes n) <? sm_stored s) then Err ErrInput else
  if bad_unit unit then Err ErrInput else
  Ok (finishRestoreBudgets set {[workspace := sm_raw s + sm_stored s + sm_wal s + unit * (maxEntries + 256)]}).

(** ** The output of a full *)
Definition round_up (n unit : Z) : Z := Z.quot (n + unit - 1) unit * unit.
Definition inventoryAllocation (inv : archiveInventory) (unit : Z) : res (Z * Z) :=
  let? dirs := nativeDirectories inv in
  let nodes := Z.of_nat (size dirs) + Z.of_nat (size (inv_files inv)) in
  Ok (foldl (fun bytes kv => bytes + round_up kv.2 unit) (nodes * unit) (map_to_list (inv_files inv)), nodes).
Record output_state := mkOutput { o_need : gmap string Z; o_nodes : Z; o_total : Z }.
Definition oid_mounts (c : Commit) (l : RestoreLayout) : gmap string string :=
  foldl (fun m ts => <[FormatUint (ts_OID ts) +:+ ".tar" := path_dir (at_key (l_Tablespaces l) (ts_Name ts))]> m) ∅ (tables_of c).
(** The mount an archive's files go to. *)
Definition mount_of (c : Commit) (l : RestoreLayout) (name : string) : string :=
  if (name !=? "base.tar") && (name !=? "pg_wal.tar") then at_key (oid_mounts c l) name else path_dir (l_PGDATA l).
Definition output_step (c : Commit) (l : RestoreLayout) (units : gmap string Z) (st : output_state) (kv : string * archiveInventory) : res output_state :=
  let '(name, inv) := kv in
  let mount := mount_of c l name in
  if mount ==? "" then Err ErrInput else
  let? (bytes, count) := inventoryAllocation inv (need_at units mount) in
  let need := add_need (o_need st) mount bytes in
  let? need :=
    if (name ==? "pg_wal.tar") && wal_apart l then
      let walMount := path_dir (l_WALDirectory l) in
      let unit := need_at units walMount in
      let? (bytes, _) := inventoryAllocation inv unit in
      Ok (add_need need walMount (bytes + 4 * unit))
    else Ok need in
  Ok (mkOutput need (o_nodes st + count) (o_total st + inv_bytes inv)).
(** The scratch volume keeps the reservation of the download. *)
Definition keep_workspace (set : gmap string FilesystemBudget) (initial : list FilesystemBudget) : gmap string FilesystemBudget :=
  foldl (fun s b => if fb_Mount b ==? workspace then <[fb_Mount b := b]> s else s) set initial.
Definition restoreOutputBudget (archives : gmap string archiveInventory) (c : Commit) (n : Native) (budgets : list FilesystemBudget)
    (l : RestoreLayout) (units : gmap string Z) : res (list FilesystemBudget) :=
  if existsb (fun m => bad_unit (need_at units m)) (restoreMounts l) then Err ErrInput else
  let? initial := restoreDownloadBudget c n budgets l (need_at units workspace) in
  let? set := restoreBudgetSet budgets l in
  let set := keep_workspace set initial in
  let? st := forM (map_to_list archives) (mkOutput ∅ 0 (c_ManifestBytes c)) (output_step c l units) in
  if (maxEntries <? o_nodes st) || (n_MaxRestoredBytes n <? o_total st) then Err ErrInput else
  let pgMount := path_dir (l_PGDATA l) in
  let unit := need_at units pgMount in
  let need := add_need (o_need st) pgMount (round_up (c_ManifestBytes c) unit + unit * (Z.of_nat (length (tables_of c)) + 8)) in
  Ok (map (fun b => if fb_Mount b ==? workspace then default b (set !! workspace) else b) (finishRestoreBudgets set need)).

(** ** A full with a differential *)
Definition workspace_sum (b : list FilesystemBudget) : Z :=
  foldl (fun n v => if fb_Mount v ==? workspace then n + fb_RequiredBytes v else n) 0 b.
Definition raw_total (c : Commit) : Z := foldl (fun n a => n + ar_RawBytes a) (c_ManifestBytes c) (c_Artifacts c).
Definition metadata_bytes (unit : Z) : Z := unit * (maxEntries + 256).
Definition chain_step (n : Native) (budgets : list FilesystemBudget) (l : RestoreLayout) (unit : Z) (need : gmap string Z) (c : Commit) : res (gmap string Z) :=
  let? b := restoreDownloadBudget c n budgets l unit in
  Ok (add_need need workspace (workspace_sum b + (raw_total c + metadata_bytes unit))).
Definition differentialRestoreBudget (chain : list Commit) (n : Native) (budgets : list FilesystemBudget) (l : RestoreLayout) (unit : Z) : res (list FilesystemBudget) :=
  match chain with
  | [full; diff] =>
      if (c_Kind full !=? "full") || (c_Kind diff !=? "differential") then Err ErrInput else
      let? set := restoreBudgetSet budgets l in
      let? need := forM chain ∅ (chain_step n budgets l unit) in
      let need := foldl (fun need p => <[path_dir p := n_MaxRestoredBytes n + metadata_bytes unit]> need) need (l_PGDATA l :: map_values (l_Tablespaces l)) in
      let need := if wal_apart l then <[path_dir (l_WALDirectory l) := n_MaxBootstrapWALBytes n + metadata_bytes unit]> need else need in
      let result := finishRestoreBudgets set need in
      if 8192 * GiB <? foldl (fun a b => a + fb_RequiredBytes b) 0 result then Err ErrCapacity else Ok result
  | _ => Err ErrInput
  end.

(** ** The monitor of a restore *)
(** [monitorRestoreSpace]: every tick checks that the margin of each budget is free. *)
Definition margins (budgets : list FilesystemBudget) : list FilesystemBudget :=
  map (fun b => with_required b (CapacityMargin (fb_RequiredBytes b))) budgets.

(** ** What the budgets cover *)
Definition file_bytes (inv : archiveInventory) : Z := foldl (fun s kv => s + kv.2) 0 (map_to_list (inv_files inv)).
Definition sizes_ok (inv : archiveInventory) : Prop := forall p n, inv_files inv !! p = Some n -> 0 <= n.
Definition placed (c : Commit) (l : RestoreLayout) (archives : list (string * archiveInventory)) (p : string) : Z :=
  foldl (fun s kv => if mount_of c l kv.1 ==? p then s + file_bytes kv.2 else s) 0 archives.

Lemma path_dir_nonempty p : path_dir p <> "".
Proof.
  unfold path_dir, path_clean. destruct (up_to_slash p ==? ""); [done|]. destruct (HasPrefix _ _); [done|].
  destruct (join _ _ ==? "") eqn:E; [done|]. by apply bool_decide_eq_false in E.
Qed.
Lemma need_at_add m p n q : need_at (add_need m p n) q = if q ==? p then need_at m p + n else need_at m q.
Proof.
  unfold need_at at 1, add_need. case_bool_decide as E; [subst; by rewrite lookup_insert_eq|by rewrite lookup_insert_ne].
Qed.
Lemma need_at_empty p : need_at ∅ p = 0.
Proof. unfold need_at. by rewrite lookup_empty. Qed.
Lemma round_up_covers n unit : 0 <= n -> 0 < unit -> n <= round_up n unit.
Proof.
  intros Hn Hu. unfold round_up. rewrite Z.quot_div_nonneg by lia.
  pose proof (Z.div_mod (n + unit - 1) unit ltac:(lia)). pose proof (Z.mod_pos_bound (n + unit - 1) unit Hu). lia.
Qed.
Lemma foldl_sum_le {A} (f g : A -> Z) (l : list A) a b : (forall x, x ∈ l -> f x <= g x) -> a <= b ->
  foldl (fun s x => s + f x) a l <= foldl (fun s x => s + g x) b l.
Proof.
  revert a b. induction l as [|x l IH]; intros a b H Hab; cbn; [done|].
  apply IH; [intros y Hy; apply H; by right|]. pose proof (H x ltac:(by left)). lia.
Qed.
Lemma allocation_covers inv unit bytes nodes : sizes_ok inv -> 0 < unit ->
  inventoryAllocation inv unit = Ok (bytes, nodes) -> file_bytes inv <= bytes.
Proof.
  intros Hs Hu. unfold inventoryAllocation. destruct (nativeDirectories inv) as [dirs|]; [|done]. cbn [res_bind]. intros [= <- <-].
  unfold file_bytes. apply (foldl_sum_le (fun kv => kv.2) (fun kv => round_up kv.2 unit)); [|nia].
  intros [p n] Hx%elem_of_map_to_list. apply round_up_covers; [by eapply Hs|done].
Qed.

Lemma placed_shift c l archives p a :
  foldl (fun s kv => if mount_of c l kv.1 ==? p then s + file_bytes kv.2 else s) a archives = a + placed c l archives p.
Proof.
  unfold placed. revert a. induction archives as [|kv r IH]; intros a; cbn; [lia|].
  rewrite IH, (IH (if mount_of c l kv.1 ==? p then 0 + file_bytes kv.2 else 0)). case_bool_decide; lia.
Qed.
Lemma file_bytes_nonneg inv : sizes_ok inv -> 0 <= file_bytes inv.
Proof.
  intros Hs. unfold file_bytes. etransitivity; [|apply (foldl_sum_le (fun _ => 0) (fun kv => kv.2)); [|reflexivity]].
  - generalize (map_to_list (inv_files inv)). intros l. assert (forall a, 0 <= a -> 0 <= foldl (fun (s : Z) (_ : string * Z) => s + 0) a l) as H; [|by apply H].
    induction l as [|x l IH]; intros a Ha; cbn; [done|]. apply IH. lia.
  - intros [p n] Hx%elem_of_map_to_list. by eapply Hs.
Qed.
Lemma output_step_covers c l units st name inv st' p :
  sizes_ok inv -> (forall m, m <> "" -> m ∈ [mount_of c l name] ++ (if wal_apart l then [path_dir (l_WALDirectory l)] else []) -> 0 < need_at units m) ->
  output_step c l units st (name, inv) = Ok st' ->
  need_at (o_need st) p + placed c l [(name, inv)] p <= need_at (o_need st') p /\ o_total st' = o_total st + inv_bytes inv /\
  (name = "pg_wal.tar" -> wal_apart l = true -> p = path_dir (l_WALDirectory l) -> need_at (o_need st) p + file_bytes inv <= need_at (o_need st') p).
Proof.
  intros Hs Hu. unfold output_step. cbv zeta. destruct (mount_of c l name ==? "") eqn:Em; [done|]. apply bool_decide_eq_false in Em.
  destruct (inventoryAllocation inv (need_at units (mount_of c l name))) as [[bytes count]|] eqn:Ea; [|done]. cbn [res_bind].
  assert (Hb : file_bytes inv <= bytes) by (eapply allocation_covers; [done|apply Hu; [done|by left]|done]).
  pose proof (file_bytes_nonneg inv Hs) as Hn. unfold placed. cbn [foldl fst snd].
  destruct ((name ==? "pg_wal.tar") && wal_apart l) eqn:Ew.
  - apply andb_true_iff in Ew as [Ew1%bool_decide_eq_true Ew2].
    destruct (inventoryAllocation inv (need_at units (path_dir (l_WALDirectory l)))) as [[b2 c2]|] eqn:Ea2; [|done]. cbn [res_bind].
    assert (Hu2 : 0 < need_at units (path_dir (l_WALDirectory l))).
    { apply Hu; [apply path_dir_nonempty|]. rewrite Ew2. apply elem_of_app. right. by left. }
    assert (Hb2 : file_bytes inv <= b2) by (by eapply allocation_covers). intros [= <-]. cbn [o_need o_total].
    rewrite !need_at_add. repeat case_bool_decide; subst; repeat split; try lia; intros; try congruence; lia.
  - cbn [res_bind]. intros [= <-]. cbn [o_need o_total]. rewrite !need_at_add. split; [repeat case_bool_decide; subst; try congruence; lia|].
    split; [done|]. intros -> Hw. rewrite bool_decide_eq_true_2, Hw in Ew by done. done.
Qed.
Lemma output_fold_covers c l units p archives st st' :
  Forall (fun kv => sizes_ok kv.2) archives -> (forall m, m <> "" -> 0 < need_at units m \/ m ∉ restoreMounts l) ->
  (forall kv, kv ∈ archives -> mount_of c l kv.1 <> "" -> mount_of c l kv.1 ∈ restoreMounts l) ->
  forM archives st (output_step c l units) = Ok st' ->
  need_at (o_need st) p + placed c l archives p <= need_at (o_need st') p /\
  o_total st' = foldl (fun s kv => s + inv_bytes kv.2) (o_total st) archives /\
  forall inv, ("pg_wal.tar", inv) ∈ archives -> wal_apart l = true -> p = path_dir (l_WALDirectory l) -> need_at (o_need st) p + file_bytes inv <= need_at (o_need st') p.
Proof.
  intros Hs Hu. revert st. induction archives as [|[name inv] r IH]; intros st Hm; cbn [forM].
  { intros [= <-]. split; [unfold placed; cbn; lia|]. split; [done|]. by intros inv H%not_elem_of_nil. }
  destruct (output_step c l units st (name, inv)) as [st1|] eqn:E; [|done]. cbn [res_bind]. intros Hr.
  apply Forall_cons in Hs as [Hs1 Hs2]. cbn in Hs1.
  destruct (IH Hs2 st1 ltac:(intros kv Hk; apply Hm; by right) Hr) as (H1 & H2 & H3). 
  apply (output_step_covers c l units st name inv st1 p) in E as (G1 & G2 & G3); [|done|].
  - assert (0 <= placed c l r p) as Hp.
    { unfold placed. clear -Hs2. assert (forall a, 0 <= a -> 0 <= foldl (fun s kv => if mount_of c l kv.1 ==? p then s + file_bytes kv.2 else s) a r) as H; [|by apply H].
      induction Hs2 as [|kv r Hk _ IH]; intros a Ha; cbn; [done|]. apply IH. pose proof (file_bytes_nonneg _ Hk). case_bool_decide; lia. }
    split; [|split].
    + change (placed c l ((name, inv) :: r) p) with (foldl (fun s kv => if mount_of c l kv.1 ==? p then s + file_bytes kv.2 else s) (placed c l [(name, inv)] p) r).
      rewrite placed_shift. lia.
    + cbn [foldl snd]. by rewrite <- G2.
    + intros i [Hi|Hi]%elem_of_cons Hw Hpw; [injection Hi as <- <-; specialize (G3 eq_refl Hw Hpw); lia|].
      specialize (H3 i Hi Hw Hpw). assert (0 <= placed c l [(name, inv)] p); [|lia].
      unfold placed. cbn. pose proof (file_bytes_nonneg _ Hs1). case_bool_decide; lia.
  - intros m Hne [Hi|Hi]%elem_of_app.
    + apply list_elem_of_singleton in Hi as ->. destruct (Hu _ Hne) as [|Hn]; [done|]. destruct Hn. apply (Hm (name, inv)); [by left|done].
    + destruct (Hu _ Hne) as [|Hn]; [done|]. destruct Hn. destruct (wal_apart l) eqn:Ew; [|by apply not_elem_of_nil in Hi].
      apply list_elem_of_singleton in Hi as ->. unfold restoreMounts. rewrite elem_of_sort_slice, Ew. set_solver.
Qed.

Lemma budget_fold_keys budgets m0 m : (forall p b, m0 !! p = Some b -> fb_Mount b = p) -> forM budgets m0 budget_step = Ok m ->
  forall p b, m !! p = Some b -> fb_Mount b = p.
Proof.
  revert m0. induction budgets as [|x r IH]; intros m0 H0; cbn [forM]; [by intros [= <-]|].
  destruct (budget_step m0 x) as [m1|] eqn:E; [|done]. cbn [res_bind]. apply IH. unfold budget_step in E.
  destruct (_ || _); [done|]. destruct (bool_decide _); [done|]. injection E as <-. intros p b.
  destruct (decide (p = fb_Mount x)) as [->|Hne]; rewrite ?lookup_insert_eq, ?lookup_insert_ne by done; [by intros [= <-]|apply H0].
Qed.
Lemma restoreBudgetSet_spec budgets l set : restoreBudgetSet budgets l = Ok set ->
  (forall p b, set !! p = Some b -> fb_Mount b = p) /\ (forall p, p ∈ restoreMounts l -> is_Some (set !! p)).
Proof.
  unfold restoreBudgetSet. cbv zeta. destruct (negb _); [done|]. destruct (forM budgets ∅ budget_step) as [m|] eqn:E; [|done]. cbn [res_bind].
  destruct (negb _) eqn:Ef; [done|]. intros [= <-]. apply negb_false_iff in Ef. rewrite forallb_forall in Ef. split.
  - eapply budget_fold_keys; [|exact E]. intros p b. by rewrite lookup_empty.
  - intros p Hp%list_elem_of_In. apply Ef in Hp. by apply bool_decide_eq_true in Hp.
Qed.
Lemma finish_elem set need b : b ∈ finishRestoreBudgets set need <->
  exists p b0, set !! p = Some b0 /\ b = with_required b0 (need_at need p + CapacityMargin (need_at need p)).
Proof.
  unfold finishRestoreBudgets. rewrite elem_of_sort_slice, list_elem_of_fmap. split.
  - intros ([p b0] & -> & H%elem_of_map_to_list). eauto.
  - intros (p & b0 & H & ->). exists (p, b0). split; [done|]. by apply elem_of_map_to_list.
Qed.
Lemma workspace_set set initial p : p <> workspace ->
  keep_workspace set initial !! p = set !! p.
Proof.
  intros Hp. revert set. induction initial as [|b r IH]; intros set; [done|]. change (keep_workspace set (b :: r)) with (keep_workspace (if fb_Mount b ==? workspace then <[fb_Mount b := b]> set else set) r). rewrite IH.
  destruct (fb_Mount b ==? workspace) eqn:E; [|done]. apply bool_decide_eq_true in E. by rewrite E, lookup_insert_ne.
Qed.
Lemma workspace_set_some set initial : is_Some (set !! workspace) -> is_Some (keep_workspace set initial !! workspace).
Proof.
  revert set. induction initial as [|b r IH]; intros set H; [done|]. change (keep_workspace set (b :: r)) with (keep_workspace (if fb_Mount b ==? workspace then <[fb_Mount b := b]> set else set) r). apply IH.
  destruct (fb_Mount b ==? workspace) eqn:E; [|done]. apply bool_decide_eq_true in E. rewrite E, lookup_insert_eq. eauto.
Qed.
Lemma CapacityMargin_min n : GiB <= CapacityMargin n.
Proof. unfold CapacityMargin. lia. Qed.
Lemma workspace_keys initial set : (forall p b, set !! p = Some b -> fb_Mount b = p) -> forall p b,
  keep_workspace set initial !! p = Some b -> fb_Mount b = p.
Proof.
  revert set. induction initial as [|x r IH]; intros set H; [done|].
  change (keep_workspace set (x :: r)) with (keep_workspace (if fb_Mount x ==? workspace then <[fb_Mount x := x]> set else set) r). apply IH. intros p b.
  destruct (fb_Mount x ==? workspace) eqn:E; [|apply H].
  destruct (decide (p = fb_Mount x)) as [->|Hne]; rewrite ?lookup_insert_eq, ?lookup_insert_ne by done; [by intros [= <-]|apply H].
Qed.

Lemma layout_tables l tables seen seen' : forM tables seen (layout_step l) = Ok seen' ->
  Forall (fun t => at_key (l_Tablespaces l) (ts_Name t) = tablespace_target (ts_Name t)) tables.
Proof.
  revert seen. induction tables as [|t r IH]; intros seen; cbn [forM]; [constructor|].
  destruct (layout_step l seen t) as [s1|] eqn:E; [|done]. cbn [res_bind]. intros H. constructor; [|by eapply IH].
  unfold layout_step in E. destruct (_ || _) eqn:E2 in E; [done|]. apply orb_false_iff in E2 as [_ E2].
  by apply negb_false_iff, bool_decide_eq_true in E2.
Qed.
Lemma mount_of_layout c l name : validateRestoreLayout l (tables_of c) = Ok () -> mount_of c l name <> "" -> mount_of c l name ∈ restoreMounts l.
Proof.
  unfold validateRestoreLayout. destruct (_ || _); [done|]. destruct (forM _ _ _) as [seen|] eqn:E; [|done]. intros _. apply layout_tables in E.
  unfold mount_of, restoreMounts. rewrite elem_of_sort_slice. destruct (_ && _); [|set_solver].
  assert (H : forall (m : gmap string string) v, (forall k x, m !! k = Some x -> x ∈ map path_dir (map_values (l_Tablespaces l))) ->
    foldl (fun m ts => <[FormatUint (ts_OID ts) +:+ ".tar" := path_dir (at_key (l_Tablespaces l) (ts_Name ts))]> m) m (tables_of c) !! name = Some v ->
    v ∈ map path_dir (map_values (l_Tablespaces l))).
  { induction E as [|t r Ht _ IH]; intros m v Hm; cbn; [apply Hm|]. apply IH. intros k x.
    destruct (decide (k = FormatUint (ts_OID t) +:+ ".tar")) as [->|Hne]; rewrite ?lookup_insert_eq, ?lookup_insert_ne by done; [|apply Hm].
    intros [= <-]. apply list_elem_of_fmap. eexists. split; [reflexivity|]. unfold map_values, at_key in *.
    destruct (l_Tablespaces l !! ts_Name t) as [p|] eqn:El; [|by cbn in Ht]. apply list_elem_of_fmap. exists (ts_Name t, p). split; [done|].
    by apply elem_of_map_to_list. }
  unfold at_key, oid_mounts. destruct (foldl _ _ _ !! name) as [v|] eqn:Ev; [|done]. cbn [default]. intros _.
  apply H in Ev; [set_solver|]. intros k x. by rewrite lookup_empty.
Qed.

(** The budgets for the output of a full cover it: every filesystem of the layout has one, and each filesystem but the
    scratch volume reserves at least the bytes of all files of the archives extracted to it (and of the WAL moved to a
    separate volume) plus a gibibyte; the contents of all archives with the manifest stay within the restore limit. *)
Theorem restore_output_reserved archives c n budgets l units result :
  0 <= c_ManifestBytes c -> (forall name inv, archives !! name = Some inv -> sizes_ok inv) ->
  validateRestoreLayout l (tables_of c) = Ok () ->
  restoreOutputBudget archives c n budgets l units = Ok result ->
  (forall p, p ∈ restoreMounts l -> exists b, b ∈ result /\ fb_Mount b = p) /\
  (forall b, b ∈ result -> fb_Mount b <> workspace ->
     placed c l (map_to_list archives) (fb_Mount b) + GiB <= fb_RequiredBytes b /\
     (wal_apart l = true -> fb_Mount b = path_dir (l_WALDirectory l) -> forall inv, archives !! "pg_wal.tar" = Some inv ->
        file_bytes inv + GiB <= fb_RequiredBytes b)) /\
  foldl (fun s kv => s + inv_bytes kv.2) (c_ManifestBytes c) (map_to_list archives) <= n_MaxRestoredBytes n.
Proof.
  intros Hc Hs Hm. unfold restoreOutputBudget. destruct (existsb _ _) eqn:Eu; [done|]. rewrite existsb_false_Forall, Forall_forall in Eu.
  destruct (restoreDownloadBudget _ _ _ _ _) as [initial|]; [|done]. cbn [res_bind].
  destruct (restoreBudgetSet budgets l) as [set|] eqn:Es; [|done]. cbn [res_bind]. apply restoreBudgetSet_spec in Es as [Hk Hd]. cbv zeta.
  set (set' := keep_workspace set initial).
  destruct (forM _ _ _) as [st|] eqn:Ef; [|done]. cbn [res_bind]. destruct (_ || _) eqn:El; [done|].
  apply orb_false_iff in El as [_ El%Z.ltb_ge]. intros [= <-].
  set (pg := path_dir (l_PGDATA l)). set (unit := need_at units pg).
  assert (Hpg : pg ∈ restoreMounts l) by (unfold restoreMounts; rewrite elem_of_sort_slice; set_solver).
  assert (Hunit : forall m, m ∈ restoreMounts l -> 8192 <= need_at units m).
  { intros m H%Eu. unfold bad_unit in H. apply orb_false_iff in H as [H%Z.ltb_ge _]. done. }
  pose proof (Hunit pg Hpg) as Hu8. fold unit in Hu8.
  assert (A1 : Forall (fun kv => sizes_ok kv.2) (map_to_list archives)).
  { apply Forall_forall. intros [k v] H%elem_of_map_to_list. cbn. by eapply Hs. }
  assert (A2 : forall m, m <> "" -> 0 < need_at units m \/ m ∉ restoreMounts l).
  { intros m Hne. destruct (decide (m ∈ restoreMounts l)) as [H|H]; [left; apply Hunit in H; lia|by right]. }
  pose proof (fun p => output_fold_covers c l units p _ _ _ A1 A2 (fun kv _ => mount_of_layout c l kv.1 Hm) Ef) as Hf.
  split; [|split].
  - intros p Hp. destruct (decide (p = workspace)) as [->|Hne].
    + destruct (workspace_set_some set initial (Hd _ Hp)) as [b Hb]. fold set' in Hb.
      exists b. split; [|by eapply (workspace_keys initial set Hk)]. apply list_elem_of_fmap.
      eexists (with_required b _). split; [|apply finish_elem; eexists workspace, b; split; [done|reflexivity]].
      cbn [fb_Mount with_required]. rewrite (workspace_keys initial set Hk _ _ Hb), bool_decide_eq_true_2 by done. by rewrite Hb.
    + destruct (Hd p Hp) as [b Hb]. pose proof (Hk _ _ Hb) as Hbm. eexists (with_required b _). split; [|exact Hbm]. apply list_elem_of_fmap.
      eexists (with_required b _). split; [|apply finish_elem; eexists p, b; split; [unfold set'; by rewrite workspace_set|reflexivity]].
      cbn [fb_Mount with_required]. by rewrite Hbm, bool_decide_eq_false_2.
  - intros b (b1 & -> & (p & b0 & Hb0 & ->)%finish_elem)%list_elem_of_fmap. cbn [fb_Mount with_required].
    pose proof (workspace_keys initial set Hk _ _ Hb0) as Hbm. rewrite Hbm.
    destruct (p ==? workspace) eqn:Ep.
    + apply bool_decide_eq_true in Ep as ->. fold set' in Hb0. rewrite Hb0. cbn. by rewrite Hbm.
    + intros _. cbn [fb_Mount with_required fb_RequiredBytes].
      destruct (Hf p) as (F1 & _ & F3). cbn [o_need] in F1, F3. rewrite need_at_empty in F1.
      set (need := add_need _ _ _). pose proof (CapacityMargin_min (need_at need p)).
      assert (Hadd : need_at (o_need st) p <= need_at need p).
      { unfold need. rewrite need_at_add. destruct (p ==? pg) eqn:Epg; [|reflexivity]. apply bool_decide_eq_true in Epg as ->. pose proof (round_up_covers (c_ManifestBytes c) unit Hc ltac:(lia)). nia. }
      rewrite Hbm. split; [lia|]. intros Hw Hpw inv Hi. specialize (F3 inv (proj2 (elem_of_map_to_list _ _ _) Hi) Hw Hpw).
      rewrite need_at_empty in F3. lia.
  - destruct (Hf pg) as (_ & F2 & _). cbn [o_total] in F2. by rewrite <- F2.
Qed.

(** The reservation of a download stays far below 63 bits, and so do its parts. *)
Lemma sum_step_bounds n artifacts s s' : n_MaxBackupBytes n <= 1024 * GiB ->
  forM artifacts s (sum_step n) = Ok s' -> 0 <= sm_raw s -> 0 <= sm_stored s -> 0 <= sm_wal s ->
  let k := Z.of_nat (length artifacts) in
  0 <= sm_raw s' <= sm_raw s + k * 2 ^ 40 /\ 0 <= sm_stored s' <= sm_stored s + k * 2 ^ 40 /\ 0 <= sm_wal s' <= sm_wal s + k * 2 ^ 40.
Proof.
  intros Hn. revert s. induction artifacts as [|a r IH]; intros s; cbn [forM]; [intros [= <-]; cbn; lia|].
  destruct (sum_step n s a) as [s1|] eqn:E; [|done]. cbn [res_bind]. intros H H1 H2 H3. unfold sum_step in E.
  destruct (_ || (MaxArtifactBytes <? _)) eqn:Eb; [done|]. injection E as <-.
  repeat match goal with E : (_ || _) = false |- _ => apply orb_false_iff in E as [E ?%Z.ltb_ge] end.
  apply orb_false_iff in Eb as [Eb Hst%Z.leb_gt]. apply orb_false_iff in Eb as [Hr%Z.leb_gt Hb%Z.ltb_ge].
  unfold GiB, MaxArtifactBytes in *. rewrite Z.shiftl_mul_pow2 in * by lia.
  specialize (IH _ H). cbn [sm_raw sm_stored sm_wal] in IH. cbn [length]. rewrite Nat2Z.inj_succ.
  destruct (ar_Role a ==? "wal"); specialize (IH ltac:(lia) ltac:(lia) ltac:(lia)); cbv zeta in *; lia.
Qed.
Theorem restore_download_bounded c n budgets l unit result :
  0 <= c_ManifestBytes c <= MaxManifestBytes -> Z.of_nat (length (c_Artifacts c)) <= 2 ^ 16 ->
  restoreDownloadBudget c n budgets l unit = Ok result ->
  Forall (fun b => GiB <= fb_RequiredBytes b < 2 ^ 42) result /\
  forall pre s, pre `prefix_of` c_Artifacts c -> forM pre (mkSums (c_ManifestBytes c) (c_ManifestBytes c) 0) (sum_step n) = Ok s ->
    0 <= sm_raw s < 2 ^ 58 /\ 0 <= sm_stored s < 2 ^ 58 /\ 0 <= sm_wal s < 2 ^ 58.
Proof.
  intros Hc Hlen. unfold restoreDownloadBudget. destruct (CaptureCapacity n) as [peak|] eqn:Ep; [|done]. cbn [res_bind].
  unfold CaptureCapacity in Ep. destruct (_ || _) eqn:En in Ep; [done|]. clear Ep.
  repeat match goal with E : (_ || _) = false |- _ => apply orb_false_iff in E as [E ?%Z.ltb_ge] end. apply Z.ltb_ge in En.
  destruct (_ || _); [done|]. destruct (restoreBudgetSet _ _) as [set|]; [|done]. cbn [res_bind].
  destruct (forM _ _ _) as [s|] eqn:Ef; [|done]. cbn [res_bind]. destruct (_ || _) eqn:Eo; [done|].
  repeat match goal with E : (_ || _) = false |- _ => apply orb_false_iff in E as [E ?%Z.ltb_ge] end. apply Z.ltb_ge in Eo.
  destruct (bad_unit unit) eqn:Eu; [done|]. apply orb_false_iff in Eu as [Eu1%Z.ltb_ge Eu2%Z.ltb_ge]. intros [= <-].
  pose proof (sum_step_bounds n _ _ _ ltac:(lia) Ef ltac:(cbn; lia) ltac:(cbn; lia) ltac:(cbn; lia)) as Hs. cbv zeta in Hs.
  split.
  - apply Forall_forall. intros b (p & b0 & _ & ->)%finish_elem. cbn [with_required fb_RequiredBytes].
    assert (Hn : 0 <= need_at {[workspace := sm_raw s + sm_stored s + sm_wal s + unit * (maxEntries + 256)]} p < 3 * 2 ^ 40).
    { unfold need_at. destruct (decide (p = workspace)) as [->|Hne]; [rewrite lookup_singleton_eq|rewrite lookup_singleton_ne by done]; cbn; [|lia].
      unfold maxEntries, spool_bound, GiB in *. rewrite Z.quot_div_nonneg in * by lia.
      pose proof (Z.div_le_upper_bound (n_MaxBackupBytes n + 99) 100 (2 ^ 34) ltac:(lia) ltac:(lia)). nia. }
    generalize dependent (need_at {[workspace := sm_raw s + sm_stored s + sm_wal s + unit * (maxEntries + 256)]} p). intros m Hm.
    unfold CapacityMargin. rewrite Z.quot_div_nonneg by lia. pose proof (Z.div_le_upper_bound (m + 9) 10 (2 ^ 39) ltac:(lia) ltac:(lia)).
    unfold GiB. lia.
  - intros pre s' Hpre Hf. apply prefix_length in Hpre.
    pose proof (sum_step_bounds n _ _ _ ltac:(lia) Hf ltac:(cbn; lia) ltac:(cbn; lia) ltac:(cbn; lia)) as Hs'. cbv zeta in Hs'.
    cbn [sm_raw sm_stored sm_wal] in Hs'. unfold MaxManifestBytes in *. rewrite Z.shiftl_mul_pow2 in * by lia. lia.
Qed.

(** ** A full with separate WAL *)
Definition demo_native : Native := mkNative (4 * GiB) GiB (4 * GiB) "192h" "6h".
Definition demo_layout : RestoreLayout := mkLayout liveData "/var/lib/postgresql/wal/pg_wal" {["fast" := tablespace_target "fast"]}.
Definition demo_restore_budgets : list FilesystemBudget :=
  [mkBudget "/var/lib/postgresql/data" (64 * GiB) 0; mkBudget workspace (64 * GiB) 0; mkBudget "/var/lib/postgresql/wal" (8 * GiB) 0;
   mkBudget "/var/lib/postgresql/tablespaces/fast" (8 * GiB) 0].
Definition demo_units : gmap string Z :=
  <["/var/lib/postgresql/data" := 8192]> (<[workspace := 8192]> (<["/var/lib/postgresql/wal" := 8192]> {["/var/lib/postgresql/tablespaces/fast" := 8192]})).
Definition demo_archives : gmap string archiveInventory :=
  <["base.tar" := mkInventory {["base/1/2" := 8193]} ["global"] 2 8193]>
    (<["pg_wal.tar" := mkInventory {["000000010000000000000002" := 16777216]} [] 1 16777216]> ∅).
Lemma restore_output_reserved_witness :
  exists result, restoreOutputBudget demo_archives ex_commit demo_native demo_restore_budgets demo_layout demo_units = Ok result /\
    map fb_Mount result = [workspace; "/var/lib/postgresql/data"; "/var/lib/postgresql/tablespaces/fast"; "/var/lib/postgresql/wal"] /\
    forall b, b ∈ result -> fb_Mount b <> workspace ->
      placed ex_commit demo_layout (map_to_list demo_archives) (fb_Mount b) + GiB <= fb_RequiredBytes b.
Proof.
  destruct (restoreOutputBudget demo_archives ex_commit demo_native demo_restore_budgets demo_layout demo_units) as [result|e] eqn:E;
    [|vm_compute in E; discriminate E].
  exists result. split; [reflexivity|]. split; [vm_compute in E; injection E as <-; reflexivity|].
  refine (fun b Hb Hw => proj1 (proj1 (proj2 (restore_output_reserved demo_archives ex_commit demo_native demo_restore_budgets demo_layout demo_units result _ _ _ E)) b Hb Hw)).
  - vm_compute. discriminate.
  - unfold demo_archives. intros name inv [[<- <-]|[_ [[<- <-]|[_ H]]%lookup_insert_Some]]%lookup_insert_Some;
      [unfold sizes_ok; cbn [inv_files]; intros p n [<- <-]%lookup_singleton_Some; lia..|]. by rewrite lookup_empty in H.
  - vm_compute. reflexivity.
Defined.
