(* ===== verification/NativeInput.v ===== *)
(** * The inputs of a restore (internal/postgres/restore_input.go, command.go)

    A backup's manifest and archives are downloaded into scratch, decoded against their committed digests, scanned against
    the manifest, their metadata compared with the commit, and the native tools run on them, before anything else happens.
    The gzip decoder and the tar reader are parameters: [gunzip] gives the first member and what follows it, [untar] what
    archive/tar yields of a stream under a limit. *)

From S2P Require Import Prelude GoStrings GoTime Sha256 Errors Schema Prog Store Json Documents WalNames Repository Gate Transfer Catalog Publication.
From S2P Require Import Configuration Capacity NativePath NativeOps NativeArchive NativeManifest NativeText NativeBudget.

(** ** Tools *)
Definition native_tools : list string := ["psql"; "pg_controldata"; "pg_basebackup"; "pg_verifybackup"; "pg_waldump"; "pg_combinebackup"].
(** [runTool]: the allowlist in front of the execution. *)
Definition runTool (env : list string) (tool : string) (args : list string) : oprog (res string) :=
  if negb (bool_decide (tool ∈ native_tools)) then fail ErrOther else call (Tool env tool args).
Definition restore_env : list string := ["LANG=C"; "LC_ALL=C"; "HOME=/nonexistent"].
Definition control_env : list string := ["LANG=C"; "LC_ALL=C"].

Record fullInput := mkInput {
  fi_directory : string; fi_manifest : NativeManifest; fi_archives : gmap string archiveInventory; fi_walCheck : string; fi_metadata : string }.

Section Input.
Context (gunzip : string -> option (string * string)) (untar : Z -> string -> Tar) (range : list string -> list string).

(** [fileHash] of an open file: one pass over its bytes. *)
Definition fileHash (p bytes : string) : oprog (res string) := pass p ;;* done (digest bytes).
(** [f.Stat()] whose failure is reported as an invalid input. *)
Definition stat_ok (p : string) : oprog (res ()) :=
  let! e := pass p in Ret (match e with Ok _ => Ok () | Err _ => Err ErrInput end).
(** The headers [scanArchive] gets from an open file: all of them, or those before a read failed. *)
Definition tape (p bytes : string) (limit : Z) : oprog Tar :=
  let! cut := call (Tape p) in
  let t := untar limit bytes in
  Ret (match cut with None => t | Some k => mkTar (take k (t_headers t)) None None 0 end).
Definition scan_file_tar {S} (p bytes : string) (limit : Z) (visit : visitor S) (s : S) : oprog (res (archiveInventory * S)) :=
  let! t := tape p bytes limit in scanArchive limit visit range t s.

(** ** Download *)
Definition decodeOriginal (src dst bytes : string) (stored raw : Integrity) (compression : string) : oprog (res ()) :=
  stat_ok src ;;*
  if len bytes !=? ig_Size stored then fail ErrInput else
  let* hash := fileHash src bytes in
  if hash !=? ig_SHA256 stored then fail ErrInput else
  match (if compression ==? "none" then Some (bytes, "") else if compression ==? "gzip" then gunzip bytes else None) with
  | None => fail ErrInput
  | Some (out, rest) =>
      let body := String.substring 0 (Z.to_nat (ig_Size raw + 1)) out in
      pass src ;;*
      fs (WriteTo dst body) ;;*
      if (len body !=? ig_Size raw) || (digest body !=? ig_SHA256 raw) then fail ErrInput else
      if rest !=? "" then fail ErrInput else
      fs (SyncFile dst)
  end.
Section Download.
Context (r : Repository) (hold : Hold).
Definition download (c : Commit) (scratch dir : string) (index : Z) (name : string) (stored raw : Integrity) (compression : string) : oprog (res ()) :=
  let* f := call (CreateTemp scratch "download-") in
  fs (RemoveFile f) ;;*
  let* bytes := remote (DownloadInput gunzip r hold (c_BackupUID c) index) in
  let dst := within dir name in
  fs (CreateExcl dst) ;;*
  let! e := decodeOriginal f dst bytes stored raw compression in
  let! ce := fs (CloseFile dst) in
  Ret (match e with Err e => Err e | Ok _ => ce end).
Definition artifact_stored (a : Artifact) : Integrity := mkIntegrity (ar_StoredBytes a) (ar_StoredSHA256 a).
Definition artifact_raw (a : Artifact) : Integrity := mkIntegrity (ar_RawBytes a) (ar_RawSHA256 a).
Definition downloadFull (c : Commit) (scratch : string) : oprog (res string) :=
  let dir := within scratch "tar" in
  fs (Mkdir dir) ;;*
  let m := mkIntegrity (c_ManifestBytes c) (c_ManifestSHA256 c) in
  download c scratch dir (-1) "backup_manifest" m m "none" ;;*
  visit_all (imap pair (c_Artifacts c)) () (fun _ ia =>
    let '(i, a) := ia in
    let name := artifactName a in
    if name ==? "" then fail ErrInput else
    download c scratch dir (Z.of_nat i) name (artifact_stored a) (artifact_raw a) (ar_Compression a)) ;;*
  done dir.
End Download.

(** ** Scan *)
Definition archiveBytes (c : Commit) (name : string) : Z :=
  match List.find (fun a => artifactName a ==? name) (c_Artifacts c) with Some a => ar_RawBytes a | None => 0 end.
(** An original file below the scratch directory, with the committed length and digest. *)
Definition open_original (p : string) (size : Z) (sha : string) : oprog (res string) :=
  let* bytes := open_file p in
  stat_ok p ;;*
  if len bytes !=? size then fail ErrInput else
  let! hash := fileHash p bytes in
  match hash with
  | Ok hash => if hash !=? sha then fail ErrInput else done bytes
  | Err _ => fail ErrInput
  end.
Definition done_marker (p : string) : bool := HasPrefix p "archive_status/" && HasSuffix p ".done".
(** Where a member of an archive lies in the cluster. *)
Definition member_path (role name p : string) : string :=
  if role ==? "tablespace" then "pg_tblspc/" +:+ TrimSuffix name ".tar" +:+ "/" +:+ p else p.
Definition scan_visit (role name : string) (segment : Z) (actual : gmap string Z) (p : string) (n : Z) (_ : string) : oprog (res (gmap string Z)) :=
  if role ==? "wal" then
    if done_marker p then
      let base := TrimSuffix (TrimPrefix p "archive_status/") ".done" in
      if negb (n =? 0) || negb (len base =? 24) || negb (ValidWALFilename base) then fail ErrInput else done actual
    else if negb (len p =? 24) || negb (ValidWALFilename p) || negb (n =? segment) then fail ErrInput else done actual
  else
    if (role ==? "base") && (HasPrefix p "pg_tblspc/" || HasPrefix p "pg_wal/") then fail ErrInput else
    let full := member_path role name p in
    if bool_decide (is_Some (actual !! full)) then fail ErrInput else done (<[full := n]> actual).
(** Directories a base may not bring, and the only ones of the WAL archive. *)
Definition dir_bad (role d : string) : bool :=
  ((role ==? "base") && HasPrefix d "pg_tblspc/") ||
  ((role ==? "base") && HasPrefix d "pg_wal/" && (d !=? "pg_wal/archive_status") && (d !=? "pg_wal/summaries")) ||
  ((role ==? "wal") && (d !=? "archive_status") && (d !=? "summaries")).
Record scan_acc := mkAcc { ac_archives : gmap string archiveInventory; ac_actual : gmap string Z; ac_entries : Z; ac_raw : Z }.
Definition scan_artifact (dir : string) (segment : Z) (n : Native) (acc : scan_acc) (a : Artifact) : oprog (res scan_acc) :=
  let name := artifactName a in
  if name ==? "" then fail ErrInput else
  let p := within dir name in
  let* bytes := open_original p (ar_RawBytes a) (ar_RawSHA256 a) in
  let* (inv, actual) := scan_file_tar p bytes (ar_RawBytes a) (scan_visit (ar_Role a) name segment) (ac_actual acc) in
  if existsb (dir_bad (ar_Role a)) (inv_dirs inv) then fail ErrInput else
  let entries := ac_entries acc + inv_entries inv in
  let raw := ac_raw acc + ar_RawBytes a in
  if (maxEntries <? entries) || (n_MaxBackupBytes n <? raw) || ((ar_Role a ==? "wal") && (n_MaxBootstrapWALBytes n <? ar_RawBytes a)) then fail ErrInput else
  match nativeDirectories inv with
  | Err e => fail e
  | Ok _ => done (mkAcc (<[name := inv]> (ac_archives acc)) actual entries raw)
  end.
Definition sanctioned (p : string) : bool := (p ==? "backup_label") || (p ==? "tablespace_map").
(** The archives hold what the manifest lists, and nothing else but the two sanctioned files. *)
Definition inventory_equal (files actual : gmap string Z) : bool :=
  forallb (fun kv => if sanctioned kv.1 then kv.2 <=? 64 * 1024 else bool_decide (files !! kv.1 = Some kv.2)) (map_to_list actual) &&
  forallb (fun kv => bool_decide (actual !! kv.1 = Some kv.2)) (map_to_list files).
Definition metadata_visit (meta : string) (_ : ()) (p : string) (n : Z) (content : string) : oprog (res ()) :=
  if sanctioned p || (p ==? "global/pg_control") then
    if 64 * 1024 <? n then fail ErrInput else copyMember meta p n content
  else done ().
Definition root_of (p : string) : oprog (res ()) := call (Setup ("root " +:+ p)).
Definition extractArchive (c : Commit) (dir name directory : string) : oprog (res ()) :=
  root_of directory ;;*
  let p := within dir name in
  let* bytes := open_file p in
  let* (inv, _) := scan_file_tar p bytes (archiveBytes c name) (fun _ q n content => copyMember directory q n content) () in
  visit_all (inv_dirs inv) () (fun _ d => check_context ;;* fs (MkdirAll (within directory d))).
Definition source_connection (c : Commit) : Connection :=
  mkConnection "" (Some (foldl (fun m t => <[ts_Name t := tablespace_target (ts_Name t)]> m) ∅ (tables_of c))).
Definition scan_metadata (c : Commit) (segment : Z) (metadata : string) : oprog (res ()) :=
  let! label := call (Open (within metadata "backup_label")) in
  match label with
  | Err _ => fail ErrInput
  | Ok label =>
      if label !=? c_BackupLabel c then fail ErrInput else
      match parseLabel c segment with
      | Err e => fail e
      | Ok _ =>
          let! tableMap := call (Open (within metadata "tablespace_map")) in
          match tables_of c with
          | [] =>
              let ok := match tableMap with Ok b => b ==? "" | Err k => k ==? IsNotExist end in
              if negb ok || (c_TablespaceMap c !=? "") then fail ErrInput else done ()
          | _ :: _ =>
              match tableMap with
              | Err _ => fail ErrInput
              | Ok b => if b !=? c_TablespaceMap c then fail ErrInput
                        else Ret (validateTablespaceMap (c_TablespaceMap c) (tables_of c) (source_connection c))
              end
          end
      end
  end.
Definition scan_input (c : Commit) (segment : Z) (n : Native) (dir : string) : oprog (res fullInput) :=
  let* b := open_original (within dir "backup_manifest") (c_ManifestBytes c) (c_ManifestSHA256 c) in
  pass (within dir "backup_manifest") ;;*
  match ScanManifest b with
  | Err e => fail e
  | Ok manifest =>
      if (FormatUint (nm_SystemIdentifier manifest) !=? c_SystemIdentifier c) || (nm_Ranges manifest !=? c_WALRanges c) then fail ErrInput else
      let* acc := visit_all (c_Artifacts c) (mkAcc ∅ ∅ 0 (c_ManifestBytes c)) (scan_artifact dir segment n) in
      if negb (inventory_equal (nm_Files manifest) (ac_actual acc)) then fail ErrInput else
      let metadata := within (path_dir dir) "metadata" in
      let walCheck := within (path_dir dir) "walcheck" in
      fs (Mkdir metadata) ;;*
      fs (Mkdir walCheck) ;;*
      root_of metadata ;;*
      let p := within dir "base.tar" in
      let* bytes := open_file p in
      let* _ := scan_file_tar p bytes (archiveBytes c "base.tar") (metadata_visit metadata) () in
      scan_metadata c segment metadata ;;*
      extractArchive c dir "pg_wal.tar" walCheck ;;*
      done (mkInput dir manifest (ac_archives acc) walCheck metadata)
  end.

(** ** Native verification *)
Definition verifyRestoreWAL (env : list string) (dir : string) (ranges : list WALRange) : oprog (res ()) :=
  match ranges with
  | [w] =>
      match ParseLSN (wr_StartLSN w), ParseLSN (wr_EndLSN w) with
      | Ok a, Ok b =>
          if (wr_Timeline w =? 0) || (b <=? a) then fail ErrInput else
          runTool env "pg_waldump" ["--quiet"; "--path=" +:+ dir; "--timeline=" +:+ FormatUint (wr_Timeline w);
                                    "--start=" +:+ wr_StartLSN w; "--end=" +:+ wr_EndLSN w] ;;* done ()
      | _, _ => fail ErrInput
      end
  | _ => fail ErrInput
  end.
Definition verify_input (c : Commit) (segment : Z) (i : fullInput) : oprog (res ()) :=
  let* out := runTool restore_env "pg_controldata" [fi_metadata i] in
  match parseCaptureControl out with
  | Err e => fail e
  | Ok control =>
      if control !=? mkControl (c_SystemIdentifier c) segment (c_Timeline c) (c_ChecksumVersion c) then fail ErrInput else
      runTool restore_env "pg_verifybackup" ["--exit-on-error"; "--no-parse-wal"; fi_directory i] ;;*
      verifyRestoreWAL restore_env (fi_walCheck i) (nm_Ranges (fi_manifest i))
  end.
End Input.
