(* ===== verification/NativeCommand.v ===== *)
(** * Native processes (internal/postgres/command.go)

    [runNative] owns a tool and everything it forks: a process group of its own, bounded output, and no return before the group is
    killed and reaped.  The kernel and the tool answer anything. *)

From S2P Require Import Prelude GoStrings Errors Prog ProgRules.

(** ** Bounded output *)
Record commandOutput := mkOutput { out_data : string; out_exceeded : bool }.
Definition no_output : commandOutput := mkOutput "" false.
Definition outputLimit : Z := Z.shiftl 1 20.
Definition Write (b : commandOutput) (p : string) : commandOutput :=
  let remaining := outputLimit - len (out_data b) in
  if remaining <? len p then mkOutput (out_data b +:+ slice 0 (Z.to_nat remaining) p) true else mkOutput (out_data b +:+ p) (out_exceeded b).

(** ** Processes *)
Inductive wait_result := Reaped | WaitInterrupted | NoChild | WaitFailed.
#[export] Instance wait_result_eq_dec : EqDecision wait_result.
Proof. solve_decision. Defined.
Inductive child : Type -> Type :=
(** the process became a subreaper, once *)
| Subreaper : child bool
| WorkspaceLock : child bool
(** a new process group: the executable, its arguments and environment, and whether it inherits the workspace lock *)
| Start (executable : string) (args env : list string) (lock : bool) : child (option Z)
(** what the tool wrote to its two streams before [Wait] returned, write by write, and whether [Wait] failed *)
| Wait (pid : Z) : child (list string * list string * bool)
| KillGroup (pid : Z) : child ()
| Wait4 (pid : Z) : child wait_result
| CtxDone : child bool.
Abbreviation nprog := (Prog.prog child).
Abbreviation ntrace := (list (Prog.action child)).

(** The reaping loop; [None] when the children are not all reaped after [fuel] turns. *)
Fixpoint reap (fuel : nat) (pid : Z) : nprog (option bool) :=
  match fuel with
  | O => Ret None
  | S fuel =>
      let! w := call (Wait4 pid) in
      match w with
      | Reaped | WaitInterrupted => reap fuel pid
      | NoChild => Ret (Some true)
      | WaitFailed => Ret (Some false)
      end
  end.
Definition runNative (fuel : nat) (env : list string) (executable : string) (args : list string) : nprog (option (res string)) :=
  let! owner := call Subreaper in
  if negb owner then Ret (Some (Err ErrOther)) else
  let! lock := call WorkspaceLock in
  let! started := call (Start executable args env lock) in
  match started with
  | None => Ret (Some (Err ErrOther))
  | Some pid =>
      let! (stdout, stderr, failed) := call (Wait pid) in
      let out := foldl Write no_output stdout in
      let diagnostic := foldl Write no_output stderr in
      let! _ := call (KillGroup pid) in
      let! reaped := reap fuel pid in
      match reaped with
      | None => Ret None
      | Some false => Ret (Some (Err ErrOther))
      | Some true =>
          let! ended := call CtxDone in
          (* a stream over its limit cancels the context *)
          if ended || out_exceeded out || out_exceeded diagnostic then Ret (Some (Err ErrContext)) else
          if failed || negb (len (out_data diagnostic) =? 0) then Ret (Some (Err ErrOther)) else Ret (Some (Ok (out_data out)))
      end
  end.

(** ** What the streams keep *)
Definition concat_writes (l : list string) : string := foldl String.append "" l.
Lemma substring_0_append n a b :
  String.substring 0 n (a +:+ b) = if (n <=? String.length a)%nat then String.substring 0 n a else a +:+ String.substring 0 (n - String.length a) b.
Proof.
  revert n. induction a as [|x a IH]; intros [|n]; try done; [by destruct b|]. change (String x a +:+ b) with (String x (a +:+ b)).
  cbn [String.substring String.length]. rewrite IH. cbn [Nat.leb Nat.sub]. by destruct (n <=? String.length a)%nat.
Qed.
Lemma substring_short n s : (String.length s <= n)%nat -> String.substring 0 n s = s.
Proof. revert n. induction s as [|x s IH]; intros [|n] H; cbn in *; try done; [lia|]. f_equal. apply IH. lia. Qed.
Lemma substring_length n s : (n <= String.length s)%nat -> String.length (String.substring 0 n s) = n.
Proof. revert n. induction s as [|x s IH]; intros [|n] H; cbn in *; try done; [lia|]. f_equal. apply IH. lia. Qed.
Lemma length_append_nat a b : String.length (a +:+ b) = (String.length a + String.length b)%nat.
Proof. induction a as [|x a IH]; [done|]. change (String x a +:+ b) with (String x (a +:+ b)). cbn. by rewrite IH. Qed.
Lemma append_empty (a : string) : a +:+ "" = a.
Proof. induction a as [|x a IH]; [done|]. change (String x a +:+ "") with (String x (a +:+ "")). by rewrite IH. Qed.
(** A stream keeps exactly the first MiB of what was written, however it was split into writes, and knows whether there was more. *)
Theorem output_prefix l : foldl Write no_output l = mkOutput (String.substring 0 (Z.to_nat outputLimit) (concat_writes l)) (outputLimit <? len (concat_writes l)).
Proof.
  unfold concat_writes. induction l as [|p l IH] using rev_ind; [done|]. rewrite !foldl_app. cbn [foldl]. rewrite IH. set (c := foldl String.append "" l).
  change (String.append c p) with (c +:+ p). unfold Write, slice, len. cbn [out_data out_exceeded]. rewrite length_append_nat, substring_0_append.
  change outputLimit with 1048576. set (L := 1048576) in *. assert (Z.of_nat (Z.to_nat L) = L) as HL by (unfold L; lia). clearbody L.
  destruct (decide (String.length c <= Z.to_nat L)%nat) as [Hc|Hc].
  - rewrite (substring_short _ c) by done. destruct (L - Z.of_nat (String.length c) <? Z.of_nat (String.length p)) eqn:E.
    + apply Z.ltb_lt in E. rewrite (proj2 (Z.ltb_lt _ _)) by lia. f_equal. destruct (Z.to_nat L <=? String.length c)%nat eqn:El.
      * apply Nat.leb_le in El. replace (Z.to_nat (L - Z.of_nat (String.length c)) - 0)%nat with 0%nat by lia. destruct p; apply append_empty.
      * f_equal. f_equal. lia.
    + apply Z.ltb_ge in E. rewrite !(proj2 (Z.ltb_ge _ _)) by lia. f_equal. destruct (Z.to_nat L <=? String.length c)%nat eqn:El.
      * apply Nat.leb_le in El. destruct p; [apply append_empty|cbn in E; lia].
      * f_equal. symmetry. apply substring_short. apply Nat.leb_gt in El. lia.
  - rewrite substring_length by lia. replace (L - Z.of_nat (Z.to_nat L)) with 0 by lia. rewrite (proj2 (Nat.leb_le (Z.to_nat L) (String.length c))) by lia.
    rewrite !(proj2 (Z.ltb_lt L _)) by lia. destruct (0 <? Z.of_nat (String.length p)) eqn:E.
    + f_equal. destruct p; apply append_empty.
    + apply Z.ltb_ge in E. destruct p; [|cbn in E; lia]. f_equal. apply append_empty.
Qed.

(** ** Nothing of a tool survives its run *)
Lemma reap_wp fuel pid tr : wp anything (fun tr' x => extends tr tr' /\ (x = Some true -> Act (Wait4 pid) NoChild ∈ tr'))
  (reap fuel pid) tr.
Proof.
  revert tr. induction fuel as [|fuel IH]; intros tr; cbn [reap]; [split; [apply extends_refl|done]|]. apply wp_call; [done|].
  assert (forall w, extends tr (Act (Wait4 pid) w :: tr)) as He by (intros; apply extends_cons).
  intros w. destruct w; try (eapply wp_mono; [|apply IH]; intros tr' x [H1 H2]; split; [eapply extends_trans; [apply He|exact H1]|exact H2]).
  - split; [apply He|]. intros _. by left.
  - split; [apply He|done].
Qed.
Definition clean (l : list string) : Prop := concat_writes l = "".
(** A tool's output is used only when the tool exited cleanly, wrote nothing to its error stream and at most a MiB to its output, which is
    used whole; by then its group was killed and the kernel has no child of it left. *)
Theorem tool_output_whole fuel env executable args tr data : runs (runNative fuel env executable args) [] tr (Some (Ok data)) ->
  exists pid lock stdout stderr, Act (Start executable args env lock) (Some pid) ∈ tr /\ Act (Wait pid) (stdout, stderr, false) ∈ tr
  /\ data = concat_writes stdout /\ len data <= outputLimit /\ clean stderr /\ Act (KillGroup pid) tt ∈ tr /\ Act (Wait4 pid) NoChild ∈ tr.
Proof.
  intros Hr. refine (wp_runs anything (fun tr x => forall data, x = Some (Ok data) -> exists pid lock stdout stderr,
    Act (Start executable args env lock) (Some pid) ∈ tr /\ Act (Wait pid) (stdout, stderr, false) ∈ tr
    /\ data = concat_writes stdout /\ len data <= outputLimit /\ clean stderr /\ Act (KillGroup pid) tt ∈ tr /\ Act (Wait4 pid) NoChild ∈ tr) _ _ _ _ _ Hr data eq_refl).
  clear Hr tr data. unfold runNative. apply wp_call; [done|]. intros owner. wp_if as Eo; [done|]. apply wp_call; [done|]. intros lock. apply wp_call; [done|].
  intros [pid|]; [|done]. apply wp_call; [done|]. intros [[stdout stderr] failed]. cbv zeta. apply wp_call; [done|]. intros [].
  apply wp_bind. eapply wp_mono; [|apply reap_wp]. intros tr [[|]|] [He Hw]; [|done..]. apply wp_call; [done|]. intros ended. rewrite !output_prefix. cbn [out_data out_exceeded].
  wp_if as E1; [done|]. bool_split. wp_if as E2; [done|]. bool_split. intros data [= <-]. exists pid, lock, stdout, stderr.
  repeat match goal with H : (_ <? _) = false |- _ => apply Z.ltb_ge in H end.
  assert (Hin : forall x, x ∈ Act (KillGroup pid) tt :: Act (Wait pid) (stdout, stderr, failed) :: Act (Start executable args env lock) (Some pid) ::
    Act WorkspaceLock lock :: [Act Subreaper owner] -> x ∈ Act CtxDone ended :: tr) by (intros x Hx; right; by eapply extends_elem).
  rewrite substring_short in * by (unfold len in *; change outputLimit with 1048576 in *; lia).
  split_and!; try done; try (apply Hin; set_solver).
  - unfold clean, len in *. by destruct (concat_writes stderr).
  - right. by apply Hw.
Qed.
(** The process that a call started. *)
Definition started_by (x : Prog.action child) : option Z :=
  match x with Act e x => match e in child X return X -> option Z with Start _ _ _ _ => fun p => p | _ => fun _ => None end x end.
(** A call that returns has either started nothing, or killed the group it started and returns only after the kernel reported that no child of the
    group is left, or else with an error. *)
Theorem tool_group_reaped fuel env executable args tr r : runs (runNative fuel env executable args) [] tr (Some r) ->
  omap started_by tr = [] \/ exists p, p ∈ omap started_by tr /\ Act (KillGroup p) tt ∈ tr /\ (Act (Wait4 p) NoChild ∈ tr \/ r = Err ErrOther).
Proof.
  intros Hr. refine (wp_runs anything (fun tr x => forall r, x = Some r ->
    omap started_by tr = [] \/ exists p, p ∈ omap started_by tr /\ Act (KillGroup p) tt ∈ tr /\ (Act (Wait4 p) NoChild ∈ tr \/ r = Err ErrOther)) _ _ _ _ _ Hr r eq_refl).
  clear Hr tr r. unfold runNative. apply wp_call; [done|]. intros owner. wp_if as Eo; [intros r _; by left|]. apply wp_call; [done|]. intros lock. apply wp_call; [done|].
  intros [pid|]; [|intros r _; by left]. apply wp_call; [done|]. intros [[stdout stderr] failed]. cbv zeta. apply wp_call; [done|]. intros [].
  apply wp_bind. eapply wp_mono; [|apply reap_wp]. set (tr0 := _ :: _). intros tr reaped [He Hw].
  assert (Hs : forall tr', extends tr tr' -> pid ∈ omap started_by tr' /\ Act (KillGroup pid) tt ∈ tr').
  { intros tr' He'. assert (extends tr0 tr') as H by (eapply extends_trans; [exact He|exact He']). split; [|eapply extends_elem; [exact H|by left]].
    apply list_elem_of_omap. exists (Act (Start executable args env lock) (Some pid)). split; [|done]. eapply extends_elem; [exact H|]. right. right. by left. }
  destruct reaped as [[|]|]; [| |done].
  - apply wp_call; [done|]. intros ended. assert (extends tr (Act CtxDone ended :: tr)) as Hx by apply extends_cons. destruct (Hs _ Hx) as [H1 H2].
    assert (Hend : forall r : res string, omap started_by (Act CtxDone ended :: tr) = [] \/ exists p, p ∈ omap started_by (Act CtxDone ended :: tr)
      /\ Act (KillGroup p) tt ∈ Act CtxDone ended :: tr /\ (Act (Wait4 p) NoChild ∈ Act CtxDone ended :: tr \/ r = Err ErrOther)).
    { intros r. right. exists pid. split; [exact H1|]. split; [exact H2|]. left. right. by apply Hw. }
    wp_if as E1; [intros r _; apply Hend|]. wp_if as E2; intros r _; apply Hend.
  - intros r [= <-]. destruct (Hs _ (extends_refl tr)) as [H1 H2]. right. exists pid. split; [exact H1|]. split; [exact H2|]. by right.
Qed.
(** The reaping loop ends: a group has finitely many processes, each is reported once, and an interruption is retried; after the last answer the kernel
    reports that no child is left. *)
Definition kernel : Prog.handler (E := child) (list bool) := fun X e s =>
  match e in child X return X * list bool with
  | Wait4 _ => match s with true :: s => (Reaped, s) | false :: s => (WaitInterrupted, s) | [] => (NoChild, []) end
  | Subreaper => (true, s) | WorkspaceLock => (true, s) | Start _ _ _ _ => (Some 7, s) | Wait _ => ((["a"; "b"], [], false), s)
  | KillGroup _ => (tt, s) | CtxDone => (false, s)
  end.
Theorem reap_terminates pid s fuel : (length s < fuel)%nat -> (run kernel (reap fuel pid) s).1 = Some true.
Proof.
  revert s. induction fuel as [|fuel IH]; intros s H; [lia|]. cbn [reap]. destruct s as [|[] s]; cbn; [done|..]; apply IH; cbn in H; lia.
Qed.
Example tool_runs : (run kernel (runNative 4 [] "/usr/bin/psql" ["-c"]) [true; false; true]).1 = Some (Ok "ab").
Proof. vm_compute. reflexivity. Qed.
