(* ===== verification/NativeRestore.v ===== *)
(** * Restores (internal/postgres/restore.go, restore_materialize.go, restore_differential.go, restore_capacity.go)

    [RestoreFull] downloads and verifies the originals of a plan in scratch, then extracts a full, or combines a full with its
    differential, into the targets.  A monitor runs beside it; the answers of [SpaceRounds] and [SizeRounds] are the rounds of
    its [select], and the model computes its verdict. *)

From S2P Require Import Prelude GoStrings GoTime Sha256 Errors Schema Prog Store WalNames Repository Gate RecoveryPlan.
From S2P Require Import Configuration Capacity NativePath NativeOps NativeArchive NativeManifest NativeText NativeBudget NativeInput.

Definition NativeWorkspace : string := workspace +:+ "/native".

#[export] Instance Integrity_eq_dec : EqDecision Integrity.
Proof. solve_decision. Defined.

(** ** Target directories *)
Definition emptyRestoreRoot (directory : string) : oprog (res ()) :=
  let parent := path_dir directory in
  let! resolved := call (EvalSymlinks parent) in
  if resolved !=? Some parent then fail ErrInput else
  let! e := call (Fs (Mkdir directory)) in
  match e with
  | Some IsNotExist | Some IsOther => fail ErrOther
  | _ =>
      let! st := call (Lstat directory) in
      match st with
      | Some (FDir, _) =>
          let* entries := call (ReadDir directory) in
          match entries with [] => fs (Chmod directory) | _ :: _ => fail ErrInput end
      | _ => fail ErrInput
      end
  end.
(** [filepath.WalkDir] with the context checked at every entry. *)
Definition walk_dirs (acc : list string) (e : option walk_entry) : oprog (res (list string)) :=
  match e with
  | None => fail ErrOther
  | Some e => check_context ;;* done (if we_kind e ==? FDir then acc ++ [we_path e] else acc)
  end.
Definition syncRestoreTree (directory : string) : oprog (res ()) :=
  let! entries := call (WalkDir directory) in
  let* dirs := visit_all entries [] walk_dirs in
  visit_all (rev dirs) () (fun _ d => fs (SyncDir d)) ;;*
  fs (SyncDir (path_dir directory)).

Section Restore.
Context (gunzip : string -> option (string * string)) (untar : Z -> string -> Tar) (range : list string -> list string)
  (ParseDuration : string -> option Z).

(** ** Extraction *)
Definition size_of (inv : archiveInventory) (name : string) : Z := default 0 (inv_files inv !! name).
Definition file_names (inv : archiveInventory) : list string := range (map fst (map_to_list (inv_files inv))).
Definition no_inventory : archiveInventory := mkInventory ∅ [] 0 0.
Definition wal_inventory (i : fullInput) : archiveInventory := default no_inventory (fi_archives i !! "pg_wal.tar").
Definition extractOriginal (i : fullInput) (c : Commit) (l : RestoreLayout) : oprog (res ()) :=
  let targets := sort_slice String.ltb ([l_PGDATA l] ++ (if wal_apart l then [l_WALDirectory l] else []) ++ map_values (l_Tablespaces l)) in
  visit_all targets () (fun _ p => emptyRestoreRoot p) ;;*
  extractArchive untar range c (fi_directory i) "base.tar" (l_PGDATA l) ;;*
  root_of (l_PGDATA l) ;;*
  fs (MkdirAll (within (l_PGDATA l) "pg_wal")) ;;*
  fs (MkdirAll (within (l_PGDATA l) "pg_tblspc")) ;;*
  extractArchive untar range c (fi_directory i) "pg_wal.tar" (l_PGDATA l +:+ "/pg_wal") ;;*
  visit_all (tables_of c) () (fun _ ts =>
    let oid := FormatUint (ts_OID ts) in
    let target := at_key (l_Tablespaces l) (ts_Name ts) in
    extractArchive untar range c (fi_directory i) (oid +:+ ".tar") target ;;*
    fs (Symlink target (within (l_PGDATA l) ("pg_tblspc/" +:+ oid)))) ;;*
  let p := within (fi_directory i) "backup_manifest" in
  let* manifest := open_file p in
  copyMember (l_PGDATA l) "backup_manifest" (c_ManifestBytes c) manifest ;;*
  runTool restore_env "pg_verifybackup" ["--exit-on-error"; "--no-parse-wal"; l_PGDATA l] ;;*
  verifyRestoreWAL restore_env (l_PGDATA l +:+ "/pg_wal") (nm_Ranges (fi_manifest i)).

(** ** The bundle of WAL *)
Definition bundle_step (directory : string) (inv : archiveInventory) (result : gmap string Integrity) (name : string) : oprog (res (gmap string Integrity)) :=
  if negb (len name =? 24) || negb (ValidWALFilename name) then done result else
  let size := size_of inv name in
  let! st := call (Lstat (within directory name)) in
  match st with
  | Some (FRegular, n) =>
      if n !=? size then fail ErrInput else
      let* bytes := open_file (within directory name) in
      let* hash := fileHash (within directory name) bytes in
      done (<[name := mkIntegrity size hash]> result)
  | _ => fail ErrInput
  end.
Definition bundleIntegrity (directory : string) (inv : archiveInventory) : oprog (res (gmap string Integrity)) :=
  root_of directory ;;*
  let* result := visit_all (file_names inv) ∅ (bundle_step directory inv) in
  if Z.of_nat (size result) =? 0 then fail ErrInput else done result.
Definition copy_wal (pg target : string) (inv : archiveInventory) : oprog (res ()) :=
  visit_all (file_names inv) () (fun _ name =>
    let* bytes := open_file (within pg ("pg_wal/" +:+ name)) in
    copyMember target name (size_of inv name) bytes).
Definition relocateRestoreWAL (pg target : string) (inv : archiveInventory) (expected : gmap string Integrity) : oprog (res ()) :=
  root_of target ;;*
  copy_wal pg target inv ;;*
  match nativeDirectories inv with
  | Err e => fail e
  | Ok dirs =>
      visit_all (range (elements ({["archive_status"; "summaries"]} ∪ dirs))) () (fun _ d => fs (MkdirAll (within target d))) ;;*
      let* copied := bundleIntegrity target inv in
      if copied !=? expected then fail ErrInput else
      syncRestoreTree target ;;*
      check_context ;;*
      fs (RemoveAll (within pg "pg_wal")) ;;*
      fs (Symlink target (within pg "pg_wal"))
  end.
Definition finish (i : fullInput) (c : Commit) (l : RestoreLayout) : oprog (res (gmap string Integrity)) :=
  root_of (l_PGDATA l) ;;*
  let! e := call (Fs (RemoveFile (within (l_PGDATA l) "tablespace_map"))) in
  let kept := match e with None => true | Some k => (Z.of_nat (length (tables_of c)) =? 0) && (k ==? IsNotExist) end in
  if negb kept then fail ErrOther else
  let* expected := bundleIntegrity (l_PGDATA l +:+ "/pg_wal") (wal_inventory i) in
  (if wal_apart l then relocateRestoreWAL (l_PGDATA l) (l_WALDirectory l) (wal_inventory i) expected else done ()) ;;*
  visit_all ([l_PGDATA l; l_WALDirectory l] ++ range (map_values (l_Tablespaces l))) () (fun _ p => syncRestoreTree p) ;;*
  let* actual := bundleIntegrity (l_WALDirectory l) (wal_inventory i) in
  if actual !=? expected then fail ErrInput else
  check_context ;;*
  done actual.
Definition materialize (i : fullInput) (c : Commit) (l : RestoreLayout) : oprog (res (gmap string Integrity)) :=
  extractOriginal i c l ;;* finish i c l.

(** ** Combining a full and a differential *)
Definition inputLayout (directory : string) (c : Commit) : RestoreLayout :=
  mkLayout (directory +:+ "/data") (directory +:+ "/data/pg_wal")
    (foldl (fun m ts => <[ts_Name ts := directory +:+ "/ts-" +:+ FormatUint (ts_OID ts)]> m) ∅ (tables_of c)).
(** [strings.ReplaceAll(s, "=", `\=`)] *)
Fixpoint escape_equals (s : string) : string :=
  match s with
  | EmptyString => EmptyString
  | String c s => if c ==? "="%char then String "\" (String "=" (escape_equals s)) else String c (escape_equals s)
  end.
Definition combineArgs (full differential : RestoreLayout) (c : Commit) (output : RestoreLayout) : list string :=
  ["--copy"; "--manifest-checksums=SHA256"; "--output=" +:+ l_PGDATA output] ++
  map (fun ts => "--tablespace-mapping=" +:+ escape_equals (at_key (l_Tablespaces differential) (ts_Name ts)) +:+ "=" +:+
                 escape_equals (at_key (l_Tablespaces output) (ts_Name ts))) (tables_of c) ++
  [l_PGDATA full; l_PGDATA differential].

(** The walk over the synthetic tree: the bytes and nodes so far. *)
Definition link_ok (l : RestoreLayout) (e : walk_entry) : bool :=
  existsb (fun target => (path_dir (we_path e) ==? l_PGDATA l +:+ "/pg_tblspc") && (we_link e ==? Some target)) (map_values (l_Tablespaces l)).
Definition synthetic_step (l : RestoreLayout) (n : Native) (st : Z * Z) (e : option walk_entry) : res (Z * Z) :=
  let '(bytes, nodes) := st in
  match e with
  | None => Err ErrOther
  | Some e =>
      let nodes := nodes + 1 in
      if maxEntries <? nodes then Err ErrInput else
      match we_kind e with
      | FLink => if link_ok l e then Ok (bytes, nodes) else Err ErrInput
      | FDir => Ok (bytes, nodes)
      | FOther => Err ErrInput
      | FRegular =>
          let bytes := bytes + we_size e in
          if (maxFileBytes <? we_size e) || (n_MaxRestoredBytes n <? bytes) then Err ErrOther else Ok (bytes, nodes)
      end
  end.
Definition synthetic_visit (l : RestoreLayout) (n : Native) (st : Z * Z) (e : option walk_entry) : oprog (res (Z * Z)) :=
  match e with
  | None => fail ErrOther
  | Some _ => check_context ;;* Ret (synthetic_step l n st e)
  end.
Definition checkSyntheticSize (l : RestoreLayout) (n : Native) : oprog (res ()) :=
  visit_all ([l_PGDATA l] ++ range (map_values (l_Tablespaces l))) (0, 0) (fun st root =>
    let! entries := call (WalkDir root) in visit_all entries st (synthetic_visit l n)) ;;*
  done ().
(** The verdict of a monitor: the first round that ends it. *)
Fixpoint verdict {A} (check : A -> res ()) (rounds : list (round A)) : res () :=
  match rounds with
  | [] | RoundDone :: _ => Ok ()
  | RoundCtx :: _ => Err ErrContext
  | RoundTick a :: rounds => match check a with Err e => Err e | Ok _ => verdict check rounds end
  end.
Definition runCombine (l : RestoreLayout) (n : Native) (args : list string) : oprog (res ()) :=
  let! e := runTool restore_env "pg_combinebackup" args in
  let! rounds := call SizeRounds in
  match e with
  | Err e => fail e
  | Ok _ => Ret (verdict (fun walk => forM walk (0, 0) (synthetic_step l n) ;;? Ok ()) rounds)
  end.
Definition combineOriginals (inputs : list fullInput) (chain : list Commit) (l : RestoreLayout) (n : Native) : oprog (res (gmap string Integrity)) :=
  match inputs, chain with
  | [i0; i1], [c0; c1] =>
      let l0 := inputLayout (path_dir (fi_directory i0)) c0 in
      let l1 := inputLayout (path_dir (fi_directory i1)) c1 in
      extractOriginal i0 c0 l0 ;;*
      extractOriginal i1 c1 l1 ;;*
      visit_all ([l_PGDATA l; l_WALDirectory l] ++ range (map_values (l_Tablespaces l))) () (fun _ p =>
        if p ==? l_PGDATA l +:+ "/pg_wal" then done () else emptyRestoreRoot p) ;;*
      runCombine l n (combineArgs l0 l1 c1 l) ;;*
      checkSyntheticSize l n ;;*
      let p := l_PGDATA l +:+ "/backup_manifest" in
      let* b := open_file p in
      pass p ;;*
      match scanManifest b true with
      | Err e => fail e
      | Ok m =>
          if (FormatUint (nm_SystemIdentifier m) !=? c_SystemIdentifier c1) || (nm_Ranges m !=? take 1 (c_WALRanges c1)) then fail ErrInput else
          runTool restore_env "pg_verifybackup" ["--exit-on-error"; "--no-parse-wal"; l_PGDATA l] ;;*
          verifyRestoreWAL restore_env (l_PGDATA l +:+ "/pg_wal") (nm_Ranges m) ;;*
          finish i1 c1 l
      end
  | _, _ => fail ErrInput
  end.

(** ** The whole restore *)
Definition check_capacity (budgets : list FilesystemBudget) : oprog (res ()) :=
  let! k := call ReadKernel in Ret (CheckCapacity k budgets).
Definition restoreAllocationUnit (mount : string) : oprog (res Z) :=
  let! bsize := call (AllocationUnit mount) in
  Ret (match bsize with
       | None => Err ErrOther
       | Some b => if (b <=? 0) || (2 ^ 20 <? b) then Err ErrInput else Ok (Z.max 8192 b)
       end).
Definition restoreDownloadCapacity (c : Commit) (n : Native) (budgets : list FilesystemBudget) (l : RestoreLayout) : oprog (res (list FilesystemBudget)) :=
  let* unit := restoreAllocationUnit workspace in Ret (restoreDownloadBudget c n budgets l unit).
Definition restoreOutputCapacity (archives : gmap string archiveInventory) (c : Commit) (n : Native) (budgets : list FilesystemBudget)
    (l : RestoreLayout) : oprog (res (list FilesystemBudget)) :=
  let* units := visit_all (restoreMounts l) (∅ : gmap string Z) (fun units mount =>
    let* unit := restoreAllocationUnit mount in done (<[mount := unit]> units)) in
  Ret (restoreOutputBudget archives c n budgets l units).
(** The budgets of the first phase: of the full alone, or of the whole chain with the largest unit of its mounts. *)
Definition phase_budgets (chain : list Commit) (n : Native) (budgets : list FilesystemBudget) (l : RestoreLayout) : oprog (res (list FilesystemBudget)) :=
  match chain with
  | [] => fail Panic
  | c0 :: _ =>
      let! first := restoreDownloadCapacity c0 n budgets l in
      if Z.of_nat (length chain) =? 2 then
        let* unit := visit_all (restoreMounts l) 0 (fun unit mount => let* a := restoreAllocationUnit mount in done (Z.max unit a)) in
        Ret (differentialRestoreBudget chain n budgets l unit)
      else Ret first
  end.
Definition space_verdict (budgets : list FilesystemBudget) (rounds : list (round Kernel)) : res () :=
  verdict (fun k => CheckCapacity k (margins budgets)) rounds.
(** [monitorRestoreSpace] joined at the end of a phase. *)
Definition join_monitor (budgets : list FilesystemBudget) : oprog (res ()) :=
  let! rounds := call SpaceRounds in Ret (space_verdict budgets rounds).

Section Whole.
Context (r : Repository) (workspaceLocked : bool).
Definition load_input (scratch : string) (segment : Z) (n : Native) (hold : Hold) (inputs : list fullInput) (ic : nat * Commit) : oprog (res (list fullInput)) :=
  let '(i, c) := ic in
  let dir := within scratch (FormatUint (Z.of_nat i)) in
  fs (Mkdir dir) ;;*
  let* tar := downloadFull gunzip r hold c dir in
  let* input := scan_input untar range c segment n tar in
  done (inputs ++ [input]).
Definition first_phase (hold : Hold) (plan : Plan) (n : Native) (budgets phase : list FilesystemBudget) (l : RestoreLayout) (scratch : string)
    : oprog (res (list fullInput * list FilesystemBudget)) :=
  let* inputs := visit_all (imap pair (p_Chain plan)) [] (load_input scratch (id_WALSegmentBytes (p_Source plan)) n hold) in
  let* phase := match inputs, last (p_Chain plan) with
                | [i], Some c => restoreOutputCapacity (fi_archives i) c n budgets l
                | _, _ => done phase
                end in
  check_capacity phase ;;*
  done (inputs, phase).
Definition version_check (tool : string) : oprog (res ()) :=
  let! b := runTool restore_env tool ["--version"] in
  match b with Ok b => if nativeVersion b tool then done () else fail ErrOther | Err _ => fail ErrOther end.
Definition second_phase (plan : Plan) (n : Native) (l : RestoreLayout) (selected : Commit) (inputs : list fullInput) : oprog (res (gmap string Integrity)) :=
  visit_all ["pg_verifybackup"; "pg_waldump"; "pg_controldata"; "pg_combinebackup"] () (fun _ tool => version_check tool) ;;*
  visit_all (zip inputs (p_Chain plan)) () (fun _ ic => verify_input ic.2 (id_WALSegmentBytes (p_Source plan)) ic.1) ;;*
  let* result := match inputs with
                 | [i] => materialize i selected l
                 | [_; _] => combineOriginals inputs (p_Chain plan) l n
                 | _ => fail Panic
                 end in
  check_context ;;* done result.
(** [RestoreFull] from its first check to its deferred cleanups: the scratch directory is removed and the monitor joined on
    every path that created them. *)
Definition RestoreFull (hold : option Hold) (plan : Plan) (n : Native) (budgets : list FilesystemBudget) (l : RestoreLayout) : oprog (res (gmap string Integrity)) :=
  match Plan_Validate plan with
  | Err e => fail e
  | Ok _ =>
      match hold with
      | None => fail ErrOther
      | Some hold =>
          if (ho_ID (h_holder hold) !=? p_ReaderHoldID plan) || negb workspaceLocked then fail ErrOther else
          call (Setup "restore slot") ;;*
          match last (p_Chain plan) with
          | None => fail Panic
          | Some selected =>
              Ret (validateRestoreLayout l (tables_of selected)) ;;*
              let* phase := phase_budgets (p_Chain plan) n budgets l in
              check_capacity phase ;;*
              let! resolved := call (EvalSymlinks NativeWorkspace) in
              if resolved !=? Some NativeWorkspace then fail ErrInput else
              match ParseDuration (n_CaptureTimeout n) with
              | None => fail ErrInput
              | Some d =>
                  if (d <=? 0) || (6 * hour_ns <? d) then fail ErrInput else
                  let! temp := call (MkdirTemp NativeWorkspace "restore-") in
                  match temp with
                  | Err e => let! _ := join_monitor phase in fail e
                  | Ok scratch =>
                      let! loaded := first_phase hold plan n budgets phase l scratch in
                      match loaded with
                      | Err e => let! _ := fs (RemoveAll scratch) in let! _ := join_monitor phase in fail e
                      | Ok (inputs, phase2) =>
                          let! first := join_monitor phase in
                          let! result := match first with Err e => fail e | Ok _ => second_phase plan n l selected inputs end in
                          let! _ := fs (RemoveAll scratch) in
                          let! verdict := join_monitor phase2 in
                          Ret (match result, verdict with Ok _, Err e => Err e | _, _ => result end)
                      end
                  end
              end
          end
      end
  end.
End Whole.
End Restore.
