(* ===== verification/NativeSafety.v ===== *)
(** * What a restore guarantees (internal/postgres/restore*.go)

    Two facts about the inputs and the targets.  An input that passes the scan is exact: the manifest and the archives
    list the same files with the same sizes.  And nothing outside the private scratch directory changes before every original
    of the plan was scanned and natively verified. *)

From S2P Require Import Prelude GoStrings GoTime Sha256 Errors Schema Prog Store Json WalNames Repository Gate Publication RecoveryPlan Memory.
From S2P Require Import S3Keys Configuration Capacity NativePath NativeOps NativeArchive NativeManifest NativeText NativeBudget NativeInput NativeRestore ProgRules.

(** ** Paths below a directory *)
Definition no_dotdot (q : string) : Prop := Forall (fun c => c <> "..") (Split "/" q).
Definition inside (d p : string) : Prop := p = d \/ exists q, p = within d q /\ no_dotdot q.
Lemma split_go_within cur a b : split_go "/" cur (within a b) = split_go "/" cur a ++ Split "/" b.
Proof.
  unfold within. revert cur. induction a as [|c a IH]; intros cur.
  - change (("" +:+ String "/" b)) with (String "/" b). cbn [split_go]. by rewrite bool_decide_eq_true_2.
  - change (String c a +:+ String "/" b) with (String c (a +:+ String "/" b)). cbn [split_go].
    destruct (c ==? "/"%char); [cbn; by rewrite IH|apply IH].
Qed.
Lemma split_within a b : Split "/" (within a b) = Split "/" a ++ Split "/" b.
Proof. apply split_go_within. Qed.
Lemma within_assoc a b c : within (within a b) c = within a (within b c).
Proof. unfold within. by rewrite append_assoc. Qed.
Lemma no_dotdot_within a b : no_dotdot a -> no_dotdot b -> no_dotdot (within a b).
Proof. unfold no_dotdot. rewrite split_within. intros. by apply Forall_app. Qed.
Lemma inside_within d q : no_dotdot q -> inside d (within d q).
Proof. right. eauto. Qed.
Lemma inside_trans a b c : inside a b -> inside b c -> inside a c.
Proof.
  intros [->|(q & -> & Hq)] [->|(p & -> & Hp)]; unfold inside; eauto.
  right. exists (within q p). rewrite within_assoc. split; [done|]. by apply no_dotdot_within.
Qed.
Lemma native_no_dotdot p : nativePath p = true -> no_dotdot p.
Proof. intros H%nativePath_confined. eapply Forall_impl; [exact H|]. intros c (_ & _ & ?). done. Qed.
Lemma native_dir_no_dotdot p : nativePath p = true -> no_dotdot (path_dir p).
Proof.
  intros H. pose proof H as (_ & _ & Hp & _)%nativePath_proper. rewrite <- (join_Split "/" p).
  assert (exists l x, Split "/" p = l ++ [x]) as (l & x & E).
  { destruct (Split "/" p) as [|x l _] eqn:E using rev_ind; [|eauto]. unfold Split in E. destruct (split_go_cons "/" "" p) as (y & r & Hr). congruence. }
  rewrite E in *. apply proper_app in Hp as [Hl Hx]. rewrite path_dir_join by done. destruct l as [|y l].
  - unfold no_dotdot. cbn. by repeat constructor.
  - unfold no_dotdot. rewrite Split_join_all; [|done|apply Hl]. apply nativePath_confined in H. rewrite E in H.
    apply Forall_app in H as [H _]. eapply Forall_impl; [exact H|]. intros c (_ & _ & ?). done.
Qed.
#[export] Hint Resolve inside_within native_no_dotdot native_dir_no_dotdot : native.

Lemma no_dotdot_simple s : no_slash s = true -> s <> ".." -> no_dotdot s.
Proof. intros Hs Hn. unfold no_dotdot. rewrite Split_nosep by done. by constructor. Qed.
Lemma digits_form f n acc : all_chars is_digit acc = true -> all_chars is_digit (fmt_digits false f 10 n acc) = true.
Proof.
  revert n acc. induction f as [|f IH]; intros n acc H; cbn [fmt_digits]; [done|].
  assert (all_chars is_digit (String (digit_char false (n mod 10)) acc) = true).
  { cbn [all_chars]. rewrite H, digit_char_digit; [done|]. apply Z.mod_pos_bound. lia. }
  case_match; [done|by apply IH].
Qed.
Lemma digit_no_slash s : all_chars is_digit s = true -> no_slash s = true.
Proof. apply all_chars_impl. intros c Hc. apply negb_true_iff, bool_decide_eq_false. by intros ->. Qed.
Lemma no_dotdot_number n : no_dotdot (FormatUint n).
Proof.
  assert (H : all_chars is_digit (FormatUint n) = true) by (by apply digits_form).
  apply no_dotdot_simple; [by apply digit_no_slash|]. intros E. by rewrite E in H.
Qed.
Lemma no_dotdot_artifact a : no_dotdot (artifactName a).
Proof.
  unfold artifactName. destruct (ar_Role a ==? "base"); [by repeat constructor|]. destruct (ar_Role a ==? "wal"); [by repeat constructor|].
  destruct (ar_Role a ==? "tablespace"); [|by repeat constructor]. destruct (ar_TablespaceOID a) as [oid|]; [|by repeat constructor].
  assert (H : all_chars is_digit (FormatUint oid) = true) by (by apply digits_form).
  apply no_dotdot_simple.
  - unfold no_slash. rewrite all_chars_append. pose proof (digit_no_slash _ H) as Hs. unfold no_slash in Hs. by rewrite Hs.
  - intros E. apply (f_equal String.length) in E. rewrite length_append in E. cbn in E. lia.
Qed.
#[export] Hint Resolve no_dotdot_number no_dotdot_artifact : native.

(** ** Programs that write where they may *)
(** What changes files: an operation on them, or a run of pg_combinebackup other than the question for its version. *)
Inductive effect := Changes (op : fsop) | Combines (args : list string).
Definition write_of {X} (e : os X) : option effect :=
  match e with
  | Fs op => if fsop_writes op then Some (Changes op) else None
  | Tool _ tool args => if (tool ==? "pg_combinebackup") && (args !=? ["--version"]) then Some (Combines args) else None
  | _ => None
  end.
(** Every effect satisfies [P]; the trace only grows. *)
Definition fs_guard (P : otrace -> effect -> Prop) : otrace -> forall X, os X -> Prop :=
  fun tr X e => forall f, write_of e = Some f -> P tr f.
Definition keeps {A} (P : otrace -> effect -> Prop) (p : oprog A) (tr : otrace) : Prop :=
  wp (fs_guard P) (fun tr' _ => extends tr tr') p tr.
(** A path below [root], or a temporary file created there. *)
Definition private (root : string) (tr : otrace) (p : string) : Prop :=
  inside root p \/ exists d prefix, inside root d /\ Act (CreateTemp d prefix) (Ok p) ∈ tr.
(** [P] allows every operation on private paths of [root], now and later. *)
Definition area (P : otrace -> effect -> Prop) (root : string) (tr : otrace) : Prop :=
  forall tr', extends tr tr' -> forall op, private root tr' (fsop_path op) -> P tr' (Changes op).

Section Keeps.
Context (P : otrace -> effect -> Prop).
Lemma area_extends root tr tr' : extends tr tr' -> area P root tr -> area P root tr'.
Proof. intros He Ha tr2 H2. apply Ha. exact (extends_trans _ _ _ He H2). Qed.
Lemma area_inside root sub tr : inside root sub -> area P root tr -> area P sub tr.
Proof. intros Hi Ha tr' He op Hop. apply Ha; [done|].
  destruct Hop as [Hp|(d & pre & Hd & Hc)]; [left; by apply (inside_trans root sub)|right]. exists d, pre. split; [by apply (inside_trans root sub)|done]. Qed.
Lemma keeps_ret {A} (a : A) tr : keeps P (Ret a) tr.
Proof. apply extends_refl. Qed.
Lemma keeps_bind {A B} (p : oprog A) (f : A -> oprog B) tr :
  keeps P p tr -> (forall tr' a, extends tr tr' -> keeps P (f a) tr') -> keeps P (bind p f) tr.
Proof.
  intros Hp Hf. unfold keeps. apply wp_bind. eapply wp_mono; [|exact Hp]. intros tr' a He. cbn.
  eapply wp_mono; [|exact (Hf tr' a He)]. intros tr2 b H2. exact (extends_trans _ _ _ He H2).
Qed.
Lemma keeps_bindE {A B} (p : oprog (res A)) (f : A -> oprog (res B)) tr :
  keeps P p tr -> (forall tr' a, extends tr tr' -> keeps P (f a) tr') -> keeps P (bindE p f) tr.
Proof. intros Hp Hf. apply keeps_bind; [done|]. intros tr' [a|e] He; [by apply Hf|apply keeps_ret]. Qed.
Lemma keeps_call {X} (e : os X) tr : fs_guard P tr X e -> keeps P (call e) tr.
Proof. intros Hg. split; [done|]. intros x. cbn. apply extends_cons. Qed.
Lemma keeps_answer {X B} (e : os (res X)) (f : X -> oprog (res B)) tr :
  fs_guard P tr _ e -> (forall x, keeps P (f x) (Act e (Ok x) :: tr)) -> keeps P (bindE (call e) f) tr.
Proof.
  intros Hg Hf. unfold keeps. apply wp_bindE. split; [done|]. intros [x|er]; cbn; [|apply extends_cons].
  eapply wp_mono; [|exact (Hf x)]. intros tr' b He. eapply extends_trans; [apply extends_cons|exact He].
Qed.
Lemma keeps_answered {X B} (e : os X) (f : X -> oprog B) tr :
  fs_guard P tr _ e -> (forall x, keeps P (f x) (Act e x :: tr)) -> keeps P (bind (call e) f) tr.
Proof.
  intros Hg Hf. unfold keeps. apply wp_bind. split; [done|]. intros x. cbn.
  eapply wp_mono; [|exact (Hf x)]. intros tr' b He. eapply extends_trans; [apply extends_cons|exact He].
Qed.
Lemma keeps_visit {A B} (l : list A) (acc : B) visit tr :
  (forall tr' b x, extends tr tr' -> x ∈ l -> keeps P (visit b x) tr') -> keeps P (visit_all (Er := error) l acc visit) tr.
Proof.
  revert acc tr. induction l as [|x l IH]; intros acc tr H; cbn [visit_all]; [apply keeps_ret|].
  apply keeps_bindE; [apply H; [apply extends_refl|by left]|]. intros tr' b He. apply IH. intros tr2 c y H2 Hy. apply H; [exact (extends_trans _ _ _ He H2)|by right].
Qed.
Lemma keeps_remote {A} (p : Store.prog A) tr : keeps P (remote p) tr.
Proof.
  unfold keeps. revert tr. induction p as [a|X e k IH]; intros tr; cbn; [apply extends_refl|]. split; [done|].
  intros x. eapply wp_mono; [|apply IH]. intros tr' a He. eapply extends_trans; [|exact He]. apply extends_cons.
Qed.
Lemma fs_allowed op tr : (fsop_writes op = true -> P tr (Changes op)) -> fs_guard P tr _ (Fs op).
Proof. intros H f. cbn. destruct (fsop_writes op); [|done]. intros [= <-]. by apply H. Qed.
Lemma keeps_fs op tr : (fsop_writes op = true -> P tr (Changes op)) -> keeps P (fs op) tr.
Proof. intros H. apply keeps_bind; [by apply keeps_call, fs_allowed|]. intros. apply keeps_ret. Qed.
(** A tool that writes nothing: not pg_combinebackup, or only asked for its version. *)
Lemma keeps_tool env tool args tr : (tool ==? "pg_combinebackup") && (args !=? ["--version"]) = false -> keeps P (call (Tool env tool args)) tr.
Proof. intros H. apply keeps_call. intros f. cbn. by rewrite H. Qed.
Lemma keeps_free {A} (p : oprog A) tr : (forall tr' f, extends tr tr' -> P tr' f) -> keeps P p tr.
Proof.
  unfold keeps. intros H. assert (Hg : forall tr', extends tr tr' -> wp (fs_guard P) (fun tr2 _ => extends tr' tr2) p tr').
  { induction p as [a|X e k IH]; intros tr' He; cbn; [apply extends_refl|]. split.
    - intros f _. by apply H.
    - intros x. eapply wp_mono; [|apply IH; eapply extends_trans; [exact He|apply extends_cons]]. intros tr2 a H2.
      eapply extends_trans; [apply extends_cons|exact H2]. }
  apply Hg, extends_refl.
Qed.
End Keeps.

(** Chains of extensions. *)
Ltac extend := first [assumption|apply extends_refl|match goal with H : extends ?a ?b |- extends ?a _ => apply (extends_trans _ _ _ H); extend end].
(** One step of a program: the areas move along with the trace. *)
Ltac move_areas :=
  repeat match goal with
  | Ha : area _ _ ?tr, He : extends ?tr ?tr' |- _ => apply (area_extends _ _ _ _ He) in Ha
  end.
Ltac keeps_step :=
  match goal with
  | |- keeps _ (bindE _ _) _ => apply keeps_bindE; [|intros ? ? ?; move_areas]
  | |- keeps _ (bind _ _) _ => apply keeps_bind; [|intros ? ? ?; move_areas]
  | |- keeps _ (Ret _) _ => apply keeps_ret
  | |- keeps _ (fail _) _ => apply keeps_ret
  | |- keeps _ (done _) _ => apply keeps_ret
  | |- keeps _ (remote _) _ => apply keeps_remote
  | |- keeps _ check_context _ => apply keeps_remote
  | |- keeps _ (call (Fs _)) _ => apply keeps_call, fs_allowed; intros _
  | |- keeps _ (call (Tool _ _ _)) _ => apply keeps_tool; first [reflexivity|by rewrite andb_false_r]
  | |- keeps _ (call _) _ => apply keeps_call; by intros ?
  | |- keeps _ (fs _) _ => apply keeps_fs; intros _
  | |- keeps _ (pass _) _ => unfold pass
  | |- keeps _ (open_file _) _ => unfold open_file
  | |- keeps _ (root_of _) _ => unfold root_of
  | |- keeps _ (stat_ok _) _ => unfold stat_ok
  | |- keeps _ (fileHash _ _) _ => unfold fileHash
  | |- keeps _ (runTool _ _ _) _ => unfold runTool
  | |- keeps _ (visit_all _ _ _) _ => apply keeps_visit; intros ? ? ? ? ?; move_areas
  | |- keeps _ (if ?b then _ else _) _ => destruct b eqn:?
  | |- keeps _ (match ?x with _ => _ end) _ => destruct x eqn:?
  | |- keeps _ (let '(_, _) := ?x in _) _ => destruct x
  | Ha : area ?P ?root ?tr |- ?P ?tr (Changes ?op) => apply Ha; [apply extends_refl|]; left; cbn [fsop_path]
  end; cbv zeta.
Ltac keeps_steps := repeat keeps_step.

Section Scratch.
Context (P : otrace -> effect -> Prop) (gunzip : string -> option (string * string)) (untar : Z -> string -> Tar) (range : list string -> list string).

Lemma keeps_copyMember root name n content tr : area P root tr -> keeps P (copyMember root name n content) tr.
Proof.
  intros Ha. unfold copyMember. destruct (nativePath name) eqn:En; [|apply keeps_ret]. cbn [negb]. keeps_steps; auto with native.
Qed.
Lemma keeps_scan {S} p bytes limit (visit : visitor S) s tr :
  (forall tr' s name n content, extends tr tr' -> nativePath name = true -> keeps P (visit s name n content) tr') ->
  keeps P (scan_file_tar untar range p bytes limit visit s) tr.
Proof.
  intros Hv. unfold scan_file_tar, tape. apply keeps_bind; [keeps_steps|]. intros tr1 t He1. unfold scanArchive.
  apply keeps_bindE.
  - apply keeps_visit. intros tr2 [st s1] h He2 _. unfold scan_header. cbv zeta. keeps_steps.
    unfold header_bad in *. match goal with H : (_ || _) = false |- _ => do 6 (apply orb_false_iff in H as [H _]); apply negb_false_iff in H end.
    apply Hv; [by apply (extends_trans _ _ _ He1)|done].
  - intros tr2 [st s1] He2. keeps_steps.
Qed.
Lemma keeps_decode root src dst bytes stored raw compression tr :
  area P root tr -> inside root dst -> keeps P (decodeOriginal gunzip src dst bytes stored raw compression) tr.
Proof. intros Ha Hd. unfold decodeOriginal. keeps_steps; done. Qed.
Lemma inside_child root sub q : inside root sub -> no_dotdot q -> inside root (within sub q).
Proof. intros Hi Hq. eapply inside_trans; [exact Hi|by apply inside_within]. Qed.
Lemma keeps_download r hold c scratch dir i name stored raw compression tr :
  area P scratch tr -> inside scratch dir -> no_dotdot name ->
  keeps P (download gunzip r hold c scratch dir i name stored raw compression) tr.
Proof.
  intros Ha Hd Hn. unfold download. apply keeps_answer; [done|]. intros f. apply keeps_bindE.
  - apply keeps_fs. intros _. apply Ha; [apply extends_cons|]. right. exists scratch, "download-". split; [by left|by left].
  - intros tr1 [] He. apply (area_extends P scratch tr tr1) in Ha; [|eapply extends_trans; [apply extends_cons|exact He]].
    keeps_steps; try (by apply inside_child). apply (keeps_decode scratch); [done|by apply inside_child].
Qed.
Lemma keeps_downloadFull r hold c scratch tr : area P scratch tr -> keeps P (downloadFull gunzip r hold c scratch) tr.
Proof.
  intros Ha. assert (Hd : inside scratch (within scratch "tar")) by (apply inside_within; by repeat constructor).
  unfold downloadFull. keeps_steps; try done; apply keeps_download; auto with native.
Qed.
Lemma keeps_original p n sha tr : keeps P (open_original p n sha) tr.
Proof. unfold open_original. keeps_steps. Qed.
Lemma wp_both {A} (G G' : otrace -> forall X, os X -> Prop) (Q Q' : otrace -> A -> Prop) (p : oprog A) tr :
  wp G Q p tr -> wp G' Q' p tr -> wp G (fun tr' a => Q tr' a /\ Q' tr' a) p tr.
Proof.
  revert tr. induction p as [a|X e k IH]; intros tr; cbn; [done|]. intros [Hg Hk] [_ Hk']. split; [done|]. intros x. by apply IH.
Qed.
Lemma keeps_knowing {A B} (p : oprog A) (f : A -> oprog B) (Q : otrace -> A -> Prop) tr :
  keeps P p tr -> wp unguarded Q p tr -> (forall tr' a, extends tr tr' -> Q tr' a -> keeps P (f a) tr') -> keeps P (bind p f) tr.
Proof.
  intros Hp Hq Hf. unfold keeps. apply wp_bind. eapply wp_mono; [|exact (wp_both _ _ _ _ _ _ Hp Hq)]. intros tr' a [He Ha]. cbn.
  eapply wp_mono; [|exact (Hf tr' a He Ha)]. intros tr2 b H2. exact (extends_trans _ _ _ He H2).
Qed.
(** What a run establishes without any guard holds of the guarded run too. *)
Lemma keeps_with {A B} (p : oprog (res A)) (f : A -> oprog (res B)) (Q : otrace -> A -> Prop) tr :
  keeps P p tr -> wp unguarded (fun tr' r => match r with Ok a => Q tr' a | Err _ => True end) p tr ->
  (forall tr' a, extends tr tr' -> Q tr' a -> keeps P (f a) tr') -> keeps P (bindE p f) tr.
Proof.
  intros Hp Hq Hf. apply (keeps_knowing _ _ _ _ Hp Hq). intros tr' [a|e] He Ha; [by apply Hf|apply keeps_ret].
Qed.
Lemma scan_inventory {S} p bytes limit (visit : visitor S) s tr : (forall l, range l ≡ₚ l) ->
  wp unguarded (fun _ r => match r with Ok (inv, _) => inventory_ok limit inv | Err _ => True end) (scan_file_tar untar range p bytes limit visit s) tr.
Proof.
  intros Hr. unfold scan_file_tar, tape. apply wp_bind. split; [done|]. intros cut. cbn.
  eapply wp_mono; [|apply (wp_scanArchive unguarded (fun _ _ => True) limit visit); try done].
  - intros tr' [[inv s']|e] H; [apply H|done].
  - intros. eapply wp_mono; [|apply wp_any]. by intros ? [].
Qed.
Lemma keeps_extractArchive c dir name directory tr : (forall l, range l ≡ₚ l) ->
  area P directory tr -> keeps P (extractArchive untar range c dir name directory) tr.
Proof.
  intros Hr Ha. unfold extractArchive. keeps_step; [keeps_steps|]. keeps_step; [keeps_steps|].
  eapply (keeps_with _ _ (fun _ a => let '(inv, _) := a in inventory_ok (archiveBytes c name) inv)); [|by apply (scan_inventory _ _ _ _ _ _ Hr)|].
  - apply keeps_scan. intros. move_areas. by apply keeps_copyMember.
  - intros tr9 [inv u] He Hi. cbn in Hi. move_areas. keeps_steps. apply inside_within, native_no_dotdot.
    destruct Hi as [_ Hd _ _ _ _ _]. rewrite Forall_forall in Hd. by apply Hd.
Qed.
Lemma keeps_artifact dir segment n acc a tr : keeps P (scan_artifact untar range dir segment n acc a) tr.
Proof.
  unfold scan_artifact. keeps_step; [keeps_steps|]. keeps_step; [apply keeps_original|].
  keeps_step; [apply keeps_scan; intros; unfold scan_visit; keeps_steps|]. keeps_steps.
Qed.
Lemma keeps_metadata c segment metadata tr : keeps P (scan_metadata c segment metadata) tr.
Proof. unfold scan_metadata. keeps_steps. Qed.
Lemma keeps_scan_input c segment n d dir tr : (forall l, range l ≡ₚ l) -> path_dir dir = d ->
  area P d tr -> keeps P (scan_input untar range c segment n dir) tr.
Proof.
  intros Hr Hd Ha. unfold scan_input. rewrite Hd.
  assert (Hm : inside d (within d "metadata")) by (apply inside_within; by repeat constructor).
  assert (Hw : inside d (within d "walcheck")) by (apply inside_within; by repeat constructor).
  keeps_step; [apply keeps_original|]. keeps_step; [keeps_steps|]. keeps_step; [|keeps_steps]. keeps_step; [keeps_steps|].
  keeps_step; [apply keeps_visit; intros; apply keeps_artifact|].
  keeps_step; [keeps_steps|]. keeps_step; [keeps_steps; done|]. keeps_step; [keeps_steps; done|]. do 2 (keeps_step; [keeps_steps|]).
  keeps_step.
  { apply keeps_scan. intros. move_areas. unfold metadata_visit. keeps_steps. apply keeps_copyMember. by eapply area_inside. }
  keeps_step; [apply keeps_metadata|]. keeps_step; [|keeps_steps]. apply keeps_extractArchive; [done|]. by eapply area_inside.
Qed.
End Scratch.

(** ** Clean scratch paths *)
(** A rooted path without superfluous components, as [os.MkdirTemp] returns it. *)
Definition clean_root (s : string) : Prop := exists l, proper l /\ l <> [] /\ s = String "/" (join "/" l).
Lemma clean_root_child s k : clean_root s -> proper [k] -> clean_root (within s k).
Proof.
  intros (l & Hl & Hne & ->) Hk. exists (l ++ [k]). split; [by apply proper_app|]. split; [by destruct l|].
  rewrite join_snoc by done. done.
Qed.
Lemma clean_root_dir s k : clean_root s -> proper [k] -> path_dir (within s k) = s.
Proof.
  intros (l & Hl & Hne & ->) [_ Hk]. cbn in Hk. rewrite andb_true_r in Hk. unfold path_dir, within.
  rewrite up_to_slash_app by done. unfold path_clean.
  change (String "/" (join "/" l) +:+ "/") with (String "/" (join "/" l +:+ "/")).
  rewrite bool_decide_eq_false_2 by done. assert (HasPrefix (String "/" (join "/" l +:+ "/")) "/" = true) as -> by exact (proj1 (HasPrefix_append "/" (join "/" l +:+ "/"))). cbv zeta.
  assert (Split "/" (String "/" (join "/" l +:+ "/")) = "" :: l ++ [""]) as ->.
  { change (Split "/" (String "/" (join "/" l +:+ "/"))) with ("" :: Split "/" (join "/" l +:+ "/")). f_equal.
    rewrite <- (join_snoc l "") by done. apply Split_join_all; [by destruct l|]. rewrite forallb_app. destruct Hl as [_ ->]. done. }
  cbn [foldl]. change (clean_step true [] "") with (@nil string). rewrite foldl_app, (clean_keeps true [] l) by apply Hl.
  cbn [foldl app]. by change (clean_step true l "") with l.
Qed.

(** ** Exact inputs *)
Section Exact.
Context (untar : Z -> string -> Tar) (range : list string -> list string).
Hypothesis range_perm : forall l, range l ≡ₚ l.

(** The files the data archives hold, under their paths in the cluster. *)
Definition collected (l : list (Artifact * archiveInventory)) (actual : gmap string Z) : Prop :=
  forall p n, actual !! p = Some n <->
    exists a inv q, (a, inv) ∈ l /\ ar_Role a <> "wal" /\ inv_files inv !! q = Some n /\ p = member_path (ar_Role a) (artifactName a) q.
(** An archive that was read below [dir] with the committed bytes, whose headers are all in the inventory. *)
Definition archived (dir : string) (tr : otrace) (a : Artifact) (inv : archiveInventory) : Prop :=
  inventory_ok (ar_RawBytes a) inv /\
  exists bytes, Act (Open (within dir (artifactName a))) (Ok bytes) ∈ tr /\ len bytes = ar_RawBytes a /\ digest bytes = ar_RawSHA256 a /\ Forall (listed inv) (t_headers (untar (ar_RawBytes a) bytes)).

Definition visited (role name : string) (actual0 : gmap string Z) (files actual : gmap string Z) : Prop :=
  forall p n, actual !! p = Some n <-> actual0 !! p = Some n \/ role <> "wal" /\ exists q, files !! q = Some n /\ p = member_path role name q.
Lemma scan_visit_visited role name segment actual0 files actual p n content tr :
  visited role name actual0 files actual -> files !! p = None ->
  wp unguarded (fun _ r => match r with Ok actual' => visited role name actual0 (<[p := n]> files) actual' | Err _ => True end)
    (scan_visit role name segment actual p n content) tr.
Proof.
  intros Hv Hp. unfold scan_visit. destruct (role ==? "wal") eqn:Er.
  - assert (Hw : visited role name actual0 (<[p := n]> files) actual).
    { apply bool_decide_eq_true in Er as ->. intros x m. rewrite (Hv x m). naive_solver. }
    repeat case_match; done.
  - apply bool_decide_eq_false in Er. destruct (_ && _); [done|]. cbv zeta. destruct (bool_decide (is_Some _)) eqn:Ei; [done|].
    apply bool_decide_eq_false in Ei. set (full := member_path role name p) in *.
    assert (Hnone : actual !! full = None) by (destruct (actual !! full) eqn:E; [destruct Ei; eauto|done]).
    cbn. intros x m. destruct (decide (x = full)) as [->|Hne].
    + rewrite lookup_insert_eq. split.
      * intros [= <-]. right. split; [done|]. exists p. by rewrite lookup_insert_eq.
      * intros [H0|(_ & q & Hq & Heq)].
        -- assert (actual !! full = Some m) by (apply Hv; by left). congruence.
        -- destruct (decide (q = p)) as [->|Hqp]; [by rewrite lookup_insert_eq in Hq|]. rewrite lookup_insert_ne in Hq by done.
           assert (actual !! full = Some m) by (apply Hv; right; eauto). congruence.
    + rewrite lookup_insert_ne, (Hv x m) by done. split; (intros [H0|(_ & q & Hq & ->)]; [by left|right; split; [done|]; exists q; split; [|done]]).
      * rewrite lookup_insert_ne; [done|]. intros ->. by rewrite Hp in Hq.
      * rewrite lookup_insert_ne in Hq; [done|]. intros ->. by apply Hne.
Qed.
Lemma archived_mono dir tr tr' a inv : tr ⊆ tr' -> archived dir tr a inv -> archived dir tr' a inv.
Proof. intros He (Hi & bytes & Hb & H). split; [done|]. exists bytes. split; [by apply He|done]. Qed.
Lemma extends_subset {E : Type -> Type} (tr tr' : list (Prog.action E)) : extends tr tr' -> tr ⊆ tr'.
Proof. intros He x. by apply extends_elem. Qed.
(** The file at [p] was read with this length and digest. *)
Definition read_exact (p : string) (n : Z) (sha : string) (tr : otrace) (bytes : string) : Prop :=
  Act (Open p) (Ok bytes) ∈ tr /\ len bytes = n /\ digest bytes = sha.
Lemma wp_open_original p n sha tr :
  wp anything (fun tr' x => forall bytes, x = Ok bytes -> read_exact p n sha tr' bytes) (open_original p n sha) tr.
Proof.
  unfold open_original. apply wp_bindE, wp_bind. split; [done|]. intros [bytes|k]; cbn; [|done]. split; [done|]. intros [e|]; cbn; [done|].
  destruct (len bytes ==? n) eqn:En; cbn; [|done]. apply bool_decide_eq_true in En. split; [done|]. intros [e|]; cbn; [done|].
  destruct (digest bytes ==? sha) eqn:Es; cbn; [|done]. apply bool_decide_eq_true in Es. intros b [= <-]. split; [|done]. do 2 right. by left.
Qed.
Lemma wp_scan_artifact dir segment n l acc a tr : collected l (ac_actual acc) ->
  wp anything (fun tr' x => forall acc', x = Ok acc' ->
      exists inv, archived dir tr' a inv /\ collected (l ++ [(a, inv)]) (ac_actual acc') /\ ac_archives acc' = <[artifactName a := inv]> (ac_archives acc))
    (scan_artifact untar range dir segment n acc a) tr.
Proof.
  intros Hc. unfold scan_artifact. cbv zeta. destruct (artifactName a ==? ""); [done|].
  eapply wp_knowsE; [apply wp_open_original|done|]. intros tr1 bytes _ (Hread & Hlen & Hsha). apply wp_bindE.
  unfold scan_file_tar, tape. apply wp_bind. split; [done|]. intros cut. cbn [bind wp]. set (tr2 := _ :: tr1).
  assert (Act (Open (within dir (artifactName a))) (Ok bytes) ∈ tr2) as Hread2 by (by right). clearbody tr2.
  eapply wp_mono; [|apply wp_also; [apply (wp_scanArchive anything (visited (ar_Role a) (artifactName a) (ac_actual acc)) (ar_RawBytes a)); [done| |exact range_perm|]|apply wp_grows]].
  - intros tr3 [[inv actual]|e] [H He]; [|done]. destruct H as (Hi & Hl & Hend & Hv). destruct (existsb _ _); [done|]. destruct (_ || _); [done|].
    destruct (nativeDirectories inv); [|done]. cbn. intros acc' [= <-]. exists inv. split; [split; [done|]|split; [|done]].
    + exists bytes. split; [by eapply extends_elem|]. split; [done|]. split; [done|]. destruct cut; [by destruct Hend|done].
    + intros p m. cbn [ac_actual]. rewrite (Hv p m), (Hc p m). split.
      * intros [(a' & i & q & Hin & H)|(Hr & q & Hq & ->)]; [exists a', i, q; split; [|done]; apply elem_of_app; by left|].
        exists a, inv, q. split; [apply elem_of_app; right; by left|done].
      * intros (a' & i & q & Hin & Hr & Hq & ->). apply elem_of_app in Hin as [Hin|Hin].
        -- left. exists a', i, q. done.
        -- apply list_elem_of_singleton in Hin as [= -> ->]. right. eauto.
  - intros. by apply scan_visit_visited.
  - intros p m. split; [by left|]. intros [H|(_ & q & Hq & _)]; [done|]. by rewrite lookup_empty in Hq.
Qed.
Definition archives_of (l : list (Artifact * archiveInventory)) : gmap string archiveInventory :=
  foldl (fun m ai => <[artifactName ai.1 := ai.2]> m) ∅ l.
(** What the scan of the originals below [dir] establishes: the manifest and the archives it read there are the committed ones, they list the
    same files, and the metadata that was taken out of the base carries the committed label. *)
Record input_ok (c : Commit) (dir : string) (i : fullInput) (l : list (Artifact * archiveInventory)) (tr : otrace) : Prop := {
  in_place : fi_directory i = dir /\ fi_metadata i = within (path_dir dir) "metadata" /\ fi_walCheck i = within (path_dir dir) "walcheck";
  in_committed : exists b, read_exact (within dir "backup_manifest") (c_ManifestBytes c) (c_ManifestSHA256 c) tr b /\ ScanManifest b = Ok (fi_manifest i);
  in_manifest : manifest_ok (fi_manifest i);
  in_system : FormatUint (nm_SystemIdentifier (fi_manifest i)) = c_SystemIdentifier c;
  in_ranges : nm_Ranges (fi_manifest i) = c_WALRanges c;
  in_artifacts : map fst l = c_Artifacts c;
  in_archived : Forall (fun ai => archived dir tr ai.1 ai.2) l;
  in_archives : fi_archives i = archives_of l;
  in_label : Act (Open (within (fi_metadata i) "backup_label")) (Ok (c_BackupLabel c)) ∈ tr;
  in_listed : forall p n, nm_Files (fi_manifest i) !! p = Some n ->
    exists a inv q, (a, inv) ∈ l /\ ar_Role a <> "wal" /\ inv_files inv !! q = Some n /\ p = member_path (ar_Role a) (artifactName a) q;
  in_sanctioned : forall a inv q n, (a, inv) ∈ l -> ar_Role a <> "wal" -> inv_files inv !! q = Some n ->
    let p := member_path (ar_Role a) (artifactName a) q in
    if sanctioned p then n <= 64 * 1024 else nm_Files (fi_manifest i) !! p = Some n }.

Lemma input_ok_mono c dir i l tr tr' : tr ⊆ tr' -> input_ok c dir i l tr -> input_ok c dir i l tr'.
Proof.
  intros He [H1 (b & (Hb & Hb') & Hs) H3 H4 H5 H6 H7 H8 H9 H10 H11]. split; try done.
  - exists b. split; [|done]. split; [by apply He|done].
  - eapply Forall_impl; [exact H7|]. intros ai. by apply archived_mono.
  - by apply He.
Qed.
Lemma wp_scan_artifacts dir segment n todo : forall l acc tr,
  collected l (ac_actual acc) -> Forall (fun ai => archived dir tr ai.1 ai.2) l -> ac_archives acc = archives_of l ->
  wp anything (fun tr' x => forall acc', x = Ok acc' ->
      exists l', map fst l' = map fst l ++ todo /\ collected l' (ac_actual acc') /\ Forall (fun ai => archived dir tr' ai.1 ai.2) l' /\ ac_archives acc' = archives_of l')
    (visit_all todo acc (scan_artifact untar range dir segment n)) tr.
Proof.
  induction todo as [|a todo IH]; intros l acc tr Hc Hf Ha; cbn [visit_all].
  { intros acc' [= <-]. exists l. by rewrite app_nil_r. }
  eapply wp_knowsE; [by apply (wp_scan_artifact dir segment n l acc a)|done|]. intros tr1 acc' He (inv & Hi & Hc' & Ha').
  eapply wp_mono; [|apply (IH (l ++ [(a, inv)]))].
  - intros tr2 x H acc2 Hx. destruct (H acc2 Hx) as (l' & Hm & H'). exists l'. split; [|done]. rewrite Hm, map_app, <- app_assoc. done.
  - done.
  - apply Forall_app. split; [|by constructor]. eapply Forall_impl; [exact Hf|]. intros ai. by apply archived_mono, extends_subset.
  - rewrite Ha', Ha. unfold archives_of. by rewrite foldl_app.
Qed.
Lemma wp_scan_metadata c segment metadata tr :
  wp anything (fun tr' x => forall u, x = Ok u -> Act (Open (within metadata "backup_label")) (Ok (c_BackupLabel c)) ∈ tr') (scan_metadata c segment metadata) tr.
Proof.
  unfold scan_metadata. apply wp_bind. split; [done|]. intros [label|e]; [|done]. cbn [wp]. destruct (label !=? _) eqn:El; [done|].
  apply negb_false_iff, bool_decide_eq_true in El. subst label. destruct (parseLabel _ _); [|done]. apply wp_past. intros tr1 x He.
  eapply wp_mono; [|apply wp_grows]. intros tr2 y He2 u _. eapply extends_elem; [exact He2|]. eapply extends_elem; [exact He|by left].
Qed.
Lemma inventory_equal_spec files actual : inventory_equal files actual = true ->
  (forall p n, actual !! p = Some n -> if sanctioned p then n <= 64 * 1024 else files !! p = Some n) /\
  (forall p n, files !! p = Some n -> actual !! p = Some n).
Proof.
  unfold inventory_equal. intros [H1 H2]%andb_true_iff. rewrite forallb_forall in H1, H2. split; intros p n Hp%elem_of_map_to_list%list_elem_of_In.
  - specialize (H1 _ Hp). cbn [fst snd] in H1. destruct (sanctioned p); [by apply Z.leb_le in H1|by apply bool_decide_eq_true in H1].
  - specialize (H2 _ Hp). cbn [fst snd] in H2. by apply bool_decide_eq_true in H2.
Qed.
Lemma wp_skip {A B} (p : oprog (res A)) (f : A -> oprog (res B)) (Q : otrace -> res B -> Prop) tr :
  (forall tr' e, Q tr' (Err e)) -> (forall tr' a, wp unguarded Q (f a) tr') -> wp unguarded Q (bindE p f) tr.
Proof. intros He Hf. apply wp_bindE. eapply wp_mono; [|apply wp_any]. intros tr' [a|e] _; auto. Qed.

Lemma wp_scan_input c segment n dir tr :
  wp anything (fun tr' x => forall i, x = Ok i -> exists l, input_ok c dir i l tr') (scan_input untar range c segment n dir) tr.
Proof.
  unfold scan_input. eapply wp_knowsE; [apply wp_open_original|done|]. intros tr1 b _ Hb. apply wp_pastE; [done|]. intros tr2 [] He2.
  destruct (ScanManifest b) as [m|] eqn:Em; [|done]. destruct (_ || _) eqn:Eb; [done|].
  apply orb_false_iff in Eb as [Es Er]. apply negb_false_iff, bool_decide_eq_true in Es, Er.
  assert (Hnil : collected [] ∅).
  { intros p k. rewrite lookup_empty. split; [done|]. intros (a & inv & q & H & _). by apply not_elem_of_nil in H. }
  eapply wp_knowsE; [by apply (wp_scan_artifacts dir segment n (c_Artifacts c) [])|done|].
  intros tr3 acc He3 (l & Hl & Hc & Hf & Ha). destruct (inventory_equal _ _) eqn:Ei; [|done]. cbn [negb].
  apply inventory_equal_spec in Ei as [E1 E2].
  do 5 (apply wp_pastE; [done|]; let tr' := fresh "tr" in let He := fresh "He" in intros tr' ? He).
  eapply wp_knowsE; [apply wp_scan_metadata|done|]. intros tr9 [] He9 Hlabel. apply wp_pastE; [done|]. intros tr10 [] He10.
  cbn. intros i [= <-]. exists l. split; cbn [fi_directory fi_metadata fi_walCheck fi_manifest fi_archives]; try done.
  - exists b. split; [|done]. destruct Hb as [Hb Hb']. split; [|done]. eapply extends_elem; [|exact Hb]. extend.
  - by eapply scan_manifest_ok.
  - eapply Forall_impl; [exact Hf|]. intros ai. apply archived_mono, extends_subset. extend.
  - eapply extends_elem; [|exact Hlabel]. done.
  - intros p k Hp%E2. by apply Hc.
  - intros art inv q k Hin Hrole Hq. apply E1, Hc. eauto 10.
Qed.

(** C39: An input that passes the scan is exact: the manifest read below the directory has the committed length and digest, it parses to the
    manifest of the input, with the system identifier and the WAL ranges of the commit; every archive read there has the
    committed length and digest and lists all its headers; every file of the manifest lies in a data archive with its size, and every
    file of a data archive is in the manifest with that size, but for a small label and tablespace map; the label extracted from
    the base is the committed one; and the directories handed to the native tools are this one and its two neighbours. *)
Theorem scan_input_exact c segment n dir tr tr' i :
  runs (scan_input untar range c segment n dir) tr tr' (Ok i) -> exists l, input_ok c dir i l tr'.
Proof. intros Hr. exact (wp_runs _ _ _ _ _ _ (wp_scan_input c segment n dir tr) Hr i eq_refl). Qed.
End Exact.

(** ** Targets *)
Definition clean_rootb (s : string) : bool :=
  match s with String c t => (c ==? "/"%char) && forallb validPart (Split "/" t) | EmptyString => false end.
Lemma clean_rootb_spec s : clean_rootb s = true -> clean_root s.
Proof.
  destruct s as [|c t]; [done|]. cbn. intros [Hc%bool_decide_eq_true Hv]%andb_true_iff. subst c. exists (Split "/" t).
  split; [split; [done|by apply split_no_slash]|]. split; [unfold Split; destruct (split_go_cons "/" "" t) as (x & l & ->); done|]. by rewrite join_Split.
Qed.
Definition verified_original (segment : Z) (c : Commit) (i : fullInput) (tr : otrace) : Prop :=
  (exists out, Act (Tool restore_env "pg_controldata" [fi_metadata i]) (Ok out) ∈ tr /\
     parseCaptureControl out = Ok (mkControl (c_SystemIdentifier c) segment (c_Timeline c) (c_ChecksumVersion c))) /\
  (exists out, Act (Tool restore_env "pg_verifybackup" ["--exit-on-error"; "--no-parse-wal"; fi_directory i]) (Ok out) ∈ tr) /\
  (exists w out, nm_Ranges (fi_manifest i) = [w] /\
     Act (Tool restore_env "pg_waldump" ["--quiet"; "--path=" +:+ fi_walCheck i; "--timeline=" +:+ FormatUint (wr_Timeline w);
       "--start=" +:+ wr_StartLSN w; "--end=" +:+ wr_EndLSN w]) (Ok out) ∈ tr).
Lemma verified_stable segment c i : stable (verified_original segment c i).
Proof.
  intros tr tr' He ((o1 & H1 & Hp) & (o2 & H2) & (w & o3 & Hw & H3)).
  split; [exists o1; split; [by eapply extends_elem|done]|]. split; [exists o2; by eapply extends_elem|].
  exists w, o3. split; [done|]. by eapply extends_elem.
Qed.
Lemma wp_tool {B} env tool args (f : string -> oprog (res B)) (Q : otrace -> res B -> Prop) tr :
  tool ∈ native_tools -> (forall tr' e, Q tr' (Err e)) ->
  (forall out, wp unguarded Q (f out) (Act (Tool env tool args) (Ok out) :: tr)) -> wp unguarded Q (bindE (runTool env tool args) f) tr.
Proof.
  intros Ht He Hf. unfold runTool. rewrite bool_decide_eq_true_2 by done. cbn [negb]. apply wp_bindE. split; [done|]. intros [out|e]; cbn; [apply Hf|apply He].
Qed.
Lemma wp_verify_input c segment i tr :
  wp unguarded (fun tr' r => match r with Ok _ => extends tr tr' /\ verified_original segment c i tr' | Err _ => True end) (verify_input c segment i) tr.
Proof.
  unfold verify_input. apply wp_tool; [repeat constructor|done|]. intros o1.
  destruct (parseCaptureControl o1) as [control|] eqn:Ec; [|done]. destruct (control !=? _) eqn:Ee; [done|].
  apply negb_false_iff, bool_decide_eq_true in Ee. subst control. apply wp_tool; [repeat constructor|done|]. intros o2.
  unfold verifyRestoreWAL. destruct (nm_Ranges (fi_manifest i)) as [|w [|]] eqn:Er; [done| |done].
  destruct (ParseLSN (wr_StartLSN w)); [|done]. destruct (ParseLSN (wr_EndLSN w)); [|done]. destruct (_ || _); [done|].
  apply wp_tool; [repeat constructor|done|]. intros o3. cbn. split; [by eexists [_; _; _]|].
  split; [exists o1; split; [do 2 right; by left|done]|]. split; [exists o2; right; by left|]. exists w, o3. split; [done|by left].
Qed.

Section Targets.
Context (gunzip : string -> option (string * string)) (untar : Z -> string -> Tar) (range : list string -> list string)
  (ParseDuration : string -> option Z) (r : Repository) (locked : bool) (plan : Plan).
Hypothesis range_perm : forall l, range l ≡ₚ l.
Let segment := id_WALSegmentBytes (p_Source plan).

(** The originals of a backup of the chain lie in a directory of its own below scratch. *)
Definition original_dir (scratch : string) (k : nat) : string := within (within scratch (FormatUint (Z.of_nat k))) "tar".
Definition scanned (scratch : string) (inputs : list fullInput) (chain : list Commit) (tr : otrace) : Prop :=
  length inputs = length chain /\
  forall k i c, inputs !! k = Some i -> chain !! k = Some c -> exists l, input_ok untar c (original_dir scratch k) i l tr.
(** The originals of every backup of the chain were scanned below the scratch directory this restore made, and after that the native tools
    accepted each of them. *)
Definition originals_verified (tr : otrace) : Prop :=
  exists later earlier scratch inputs, tr = later ++ earlier /\ Act (MkdirTemp NativeWorkspace "restore-") (Ok scratch) ∈ earlier
    /\ scanned scratch inputs (p_Chain plan) earlier /\ Forall (fun ic => verified_original segment ic.2 ic.1 later) (zip inputs (p_Chain plan)).
(** A file changes below scratch, or after all originals were verified; pg_combinebackup writes only then. *)
Definition target_guard (tr : otrace) (f : effect) : Prop :=
  match f with
  | Changes op =>
      (exists scratch, Act (MkdirTemp NativeWorkspace "restore-") (Ok scratch) ∈ tr /\ (clean_rootb scratch = true -> private scratch tr (fsop_path op)))
      \/ originals_verified tr
  | Combines _ => originals_verified tr
  end.
Lemma originals_extends tr tr' : extends tr tr' -> originals_verified tr -> originals_verified tr'.
Proof.
  intros [l ->] (later & earlier & scratch & inputs & -> & Hm & Hs & Hv). exists (l ++ later), earlier, scratch, inputs.
  rewrite app_assoc. do 3 (split; [done|]). eapply Forall_impl; [exact Hv|]. intros [i c]. apply verified_stable. by exists l.
Qed.
Lemma scanned_mono scratch inputs chain tr tr' : tr ⊆ tr' -> scanned scratch inputs chain tr -> scanned scratch inputs chain tr'.
Proof. intros He [Hl Hs]. split; [done|]. intros k i c Hi Hc. destruct (Hs k i c Hi Hc) as [l H]. exists l. by eapply input_ok_mono. Qed.

(** What came before a restore does not matter to it. *)
Lemma target_guard_after tr base f : target_guard tr f -> target_guard (tr ++ base) f.
Proof.
  assert (Ho : originals_verified tr -> originals_verified (tr ++ base)).
  { intros (later & earlier & scratch & inputs & -> & Hm & Hs & Hv). exists later, (earlier ++ base), scratch, inputs. rewrite <- app_assoc.
    split; [done|]. split; [apply elem_of_app; by left|]. split; [|done]. eapply scanned_mono; [|exact Hs]. intros x Hx. apply elem_of_app. by left. }
  destruct f as [op|args]; [|exact Ho]. intros [(d & H1 & H2)|H]; [left; exists d|right; by apply Ho].
  split; [apply elem_of_app; by left|]. intros Hc. destruct (H2 Hc) as [H|(x & y & Hi & Ha)]; [by left|]. right. exists x, y. split; [done|]. apply elem_of_app. by left.
Qed.
Lemma wp_downloadFull hold c dir tr :
  wp anything (fun _ x => forall tar, x = Ok tar -> tar = within dir "tar") (downloadFull gunzip r hold c dir) tr.
Proof. unfold downloadFull. do 3 (apply wp_pastE; [done|]; intros). by intros ? [= <-]. Qed.
Lemma wp_load_input scratch n hold inputs k c tr :
  wp anything (fun tr' x => forall inputs', x = Ok inputs' -> exists i l, inputs' = inputs ++ [i] /\ input_ok untar c (original_dir scratch k) i l tr')
    (load_input gunzip untar range r scratch segment n hold inputs (k, c)) tr.
Proof.
  unfold load_input. apply wp_pastE; [done|]. intros tr1 [] _. eapply wp_knowsE; [apply wp_downloadFull|done|]. intros tr2 tar _ ->.
  eapply wp_knowsE; [by apply wp_scan_input|done|]. intros tr3 i _ [l Hl]. cbn. intros ? [= <-]. eauto.
Qed.
Lemma wp_load_inputs scratch n hold : forall rest pre inputs tr, scanned scratch inputs pre tr ->
  wp anything (fun tr' x => forall inputs', x = Ok inputs' -> scanned scratch inputs' (pre ++ rest) tr')
    (visit_all (imap (fun k c => (length pre + k, c)%nat) rest) inputs (load_input gunzip untar range r scratch segment n hold)) tr.
Proof.
  induction rest as [|c rest IH]; intros pre inputs tr Hi; cbn [visit_all imap].
  { intros ? [= <-]. by rewrite app_nil_r. }
  eapply wp_knowsE; [apply wp_load_input|done|]. intros tr1 inputs1 He (i & l & -> & Hok). rewrite Nat.add_0_r in *.
  rewrite (cons_middle c pre rest), app_assoc. rewrite (imap_ext _ (fun k d => (length (pre ++ [c]) + k, d)%nat)).
  2: { intros k d _. rewrite length_app. cbn. f_equal. lia. }
  apply IH. destruct (scanned_mono _ _ _ _ _ (extends_subset _ _ He) Hi) as [Hl Hs]. split; [rewrite !length_app; cbn; lia|].
  intros k j d Hj Hd. destruct (decide (k < length pre)%nat) as [Hk|Hk].
  - rewrite lookup_app_l in Hj by lia. rewrite lookup_app_l in Hd by lia. by apply (Hs k).
  - apply lookup_lt_Some in Hd as Hlt. rewrite length_app in Hlt. cbn in Hlt. assert (k = length pre) as -> by lia.
    rewrite list_lookup_middle in Hd by done. rewrite <- Hl, list_lookup_middle in Hj by done. injection Hj as <-. injection Hd as <-. by exists l.
Qed.
Lemma wp_verify_all : forall (l : list (fullInput * Commit)) tr,
  wp anything (fun tr' r => match r with Ok _ => extends tr tr' /\ Forall (fun ic => verified_original segment ic.2 ic.1 tr') l | Err _ => True end)
    (visit_all l () (fun _ ic => verify_input ic.2 segment ic.1)) tr.
Proof.
  induction l as [|[i c] l IH]; intros tr; cbn [visit_all]; [split; [apply extends_refl|constructor]|].
  apply wp_bindE. eapply wp_mono; [|apply wp_verify_input]. intros tr1 [[]|e] H; [|done]. destruct H as [He Hv].
  eapply wp_mono; [|apply IH]. intros tr2 [[]|e] H; [|done]. destruct H as [He2 Hf]. split; [exact (extends_trans _ _ _ He He2)|].
  constructor; [by eapply verified_stable|done].
Qed.
(** A scratch path that is not clean allows every change. *)
Definition confined (scratch : string) (tr : otrace) : Prop := clean_root scratch \/ forall root, area target_guard root tr.
Lemma confined_extends scratch tr tr' : extends tr tr' -> confined scratch tr -> confined scratch tr'.
Proof. intros He [H|H]; [by left|right]. intros root. by eapply area_extends. Qed.
Lemma keeps_load scratch n hold inputs k c tr : confined scratch tr -> area target_guard scratch tr ->
  keeps target_guard (load_input gunzip untar range r scratch segment n hold inputs (k, c)) tr.
Proof.
  intros Hc Ha. unfold load_input. set (dir := within scratch _).
  assert (Hk : proper [FormatUint (Z.of_nat k)]).
  { assert (H : all_chars is_digit (FormatUint (Z.of_nat k)) = true) by (by apply digits_form).
    split; cbn [forallb]; rewrite andb_true_r; [|by apply digit_no_slash].
    assert (Hne : FormatUint (Z.of_nat k) <> "") by (apply fmt_uint_nonempty; lia). unfold validPart. destruct (FormatUint (Z.of_nat k)) as [|d t]; [done|].
    cbn in H. apply andb_true_iff in H as [Hd _].
    assert (Hdot : forall u, String d t <> String "." u) by (intros u E; injection E as E _; rewrite E in Hd; done).
    rewrite !bool_decide_eq_false_2; [done|apply Hdot|apply Hdot|done]. }
  assert (Hi : inside scratch dir) by (apply inside_within; auto with native).
  keeps_step; [keeps_steps; done|]. 
  eapply (keeps_with _ _ _ (fun _ tar => tar = within dir "tar")); [|eapply wp_mono; [|apply wp_downloadFull]|].
  - apply keeps_downloadFull. by eapply area_inside.
  - intros tr9 [tar|e] Htar; [by apply Htar|done].
  - intros tr9 tar He ->. move_areas. keeps_step; [|keeps_steps]. apply (keeps_scan_input _ _ _ _ _ _ _ _ _ range_perm eq_refl).
    destruct Hc as [Hc|Hc]; [|eapply area_extends; [|apply Hc]; extend].
    rewrite clean_root_dir; [by eapply area_inside|by apply clean_root_child|by split].
Qed.
Lemma keeps_verify c i tr : keeps target_guard (verify_input c segment i) tr.
Proof. unfold verify_input, verifyRestoreWAL. keeps_steps. Qed.
Lemma keeps_verified {A} (p : oprog A) tr : originals_verified tr -> keeps target_guard p tr.
Proof. intros Hv. apply keeps_free. intros tr' [op|args] He; [right|]; by eapply originals_extends. Qed.
Lemma wp_verified scratch inputs tr : Act (MkdirTemp NativeWorkspace "restore-") (Ok scratch) ∈ tr -> scanned scratch inputs (p_Chain plan) tr ->
  wp unguarded (fun tr' x => match x with Ok _ => originals_verified tr' | Err _ => True end)
    (visit_all (zip inputs (p_Chain plan)) () (fun _ ic => verify_input ic.2 segment ic.1)) tr.
Proof.
  intros Hm Hs. eapply wp_G_mono; [|eapply wp_mono; [|apply (wp_frame _ _ _ [] tr (wp_verify_all (zip inputs (p_Chain plan)) []))]]; [done|].
  intros tr' [[]|e] (later & -> & H); [|done]. destruct H as [_ H]. by exists later, tr, scratch, inputs.
Qed.
Lemma keeps_second n l selected scratch inputs tr :
  Act (MkdirTemp NativeWorkspace "restore-") (Ok scratch) ∈ tr -> scanned scratch inputs (p_Chain plan) tr ->
  keeps target_guard (second_phase untar range plan n l selected inputs) tr.
Proof.
  intros Hm Hs. unfold second_phase. keeps_step; [keeps_steps; unfold version_check; keeps_steps|].
  eapply (keeps_with _ _ _ (fun tr' _ => originals_verified tr')).
  - apply keeps_visit. intros. apply keeps_verify.
  - apply (wp_verified scratch); [by eapply extends_elem|by eapply scanned_mono, Hs; apply extends_subset].
  - intros tr2 [] He Hv. by apply keeps_verified.
Qed.
Lemma keeps_first hold n budgets phase l scratch tr : confined scratch tr -> area target_guard scratch tr ->
  keeps target_guard (first_phase gunzip untar range r hold plan n budgets phase l scratch) tr.
Proof.
  intros Hc Ha. unfold first_phase. keeps_step.
  - apply keeps_visit. intros tr1 b [k c] He _. move_areas. apply keeps_load; [by eapply confined_extends|done].
  - unfold restoreOutputCapacity, restoreAllocationUnit, check_capacity. keeps_steps.
Qed.
Lemma wp_first hold n budgets phase l scratch tr :
  wp anything (fun tr' x => forall inputs phase2, x = Ok (inputs, phase2) -> scanned scratch inputs (p_Chain plan) tr')
    (first_phase gunzip untar range r hold plan n budgets phase l scratch) tr.
Proof.
  unfold first_phase. eapply wp_knowsE; [apply (wp_load_inputs scratch n hold (p_Chain plan) [] []); done|done|].
  intros tr1 inputs _ Hs. apply wp_pastE; [done|]. intros tr2 phase2 He2. apply wp_pastE; [done|]. intros tr3 [] He3. cbn.
  intros ? ? [= <- <-]. eapply scanned_mono; [|exact Hs]. apply extends_subset. extend.
Qed.
Lemma keeps_RestoreFull hold n budgets l :
  keeps target_guard (RestoreFull gunzip untar range ParseDuration r locked hold plan n budgets l) [].
Proof.
  unfold RestoreFull. destruct (Plan_Validate plan); [|keeps_steps]. destruct hold as [hold|]; [|keeps_steps].
  keeps_step; [keeps_steps|]. keeps_step; [keeps_steps|]. destruct (last (p_Chain plan)) as [selected|]; [|keeps_steps].
  keeps_step; [keeps_steps|].
  keeps_step; [unfold phase_budgets, restoreDownloadCapacity, restoreAllocationUnit; keeps_steps|].
  keeps_step; [unfold check_capacity; keeps_steps|]. keeps_step; [keeps_steps|]. keeps_step; [keeps_steps|].
  destruct (ParseDuration _) as [d|]; [|keeps_steps]. keeps_step; [keeps_steps|].
  apply keeps_answered; [done|]. intros [scratch|e]; [|unfold join_monitor; keeps_steps].
  set (tr1 := _ :: _). assert (Hin : Act (MkdirTemp NativeWorkspace "restore-") (Ok scratch) ∈ tr1) by (by left). clearbody tr1.
  assert (Ha : area target_guard scratch tr1).
  { intros tr2 He op Hp. left. exists scratch. split; [by eapply extends_elem|done]. }
  assert (Hc : confined scratch tr1).
  { destruct (clean_rootb scratch) eqn:Ec; [left; by apply clean_rootb_spec|right]. intros root tr2 He op _. left. exists scratch.
    split; [by eapply extends_elem|by rewrite Ec]. }
  eapply keeps_knowing; [by apply keeps_first|apply wp_first|].
  intros tr2 [[inputs phase2]|e] He Hi; move_areas; [|unfold join_monitor; keeps_steps; by left]. specialize (Hi _ _ eq_refl).
  keeps_step; [unfold join_monitor; keeps_steps|]. keeps_step; [keeps_step; [by apply (keeps_second _ _ _ scratch); [eapply extends_elem; [|exact Hin]; extend|eapply scanned_mono; [|exact Hi]; by apply extends_subset]|keeps_steps]|].
  unfold join_monitor. keeps_steps. by left.
Qed.
End Targets.

(** C20: A restore changes nothing outside its private scratch directory before every original of its plan was verified.  Each operation that
    creates, writes, links or removes a file names a path below scratch, or comes after all of this, and each run of
    pg_combinebackup comes after all of this: the manifest and archives of every backup of the chain were read below that
    scratch directory with their committed bytes and found to list the same files; and later pg_controldata accepted the metadata
    extracted there, pg_verifybackup that directory, and pg_waldump the WAL extracted there. *)
Theorem restore_targets_untouched gunzip untar range ParseDuration r locked plan hold n budgets l pre X (e : os X) f :
  (forall l, range l ≡ₚ l) ->
  emits (RestoreFull gunzip untar range ParseDuration r locked hold plan n budgets l) [] pre X e -> write_of e = Some f ->
  target_guard untar plan pre f.
Proof.
  intros Hr He. exact (wp_emits _ _ _ _ _ _ _ (keeps_RestoreFull gunzip untar range ParseDuration r locked plan Hr hold n budgets l) He f).
Qed.

(** ** A small backup, scanned *)
Definition lines (l : list string) : string := foldr (fun x s => x +:+ String newline s) EmptyString l.
Definition small_label : string :=
  lines ["START WAL LOCATION: 0/2000028 (file 000000010000000000000002)"; "CHECKPOINT LOCATION: 0/2000060"; "BACKUP METHOD: streamed";
         "BACKUP FROM: primary"; "START TIME: 2026-01-01 00:00:00 UTC"; "LABEL: nightly"; "START TIMELINE: 1"].
Definition small_manifest : string :=
  "{" +:+ quoted "PostgreSQL-Backup-Manifest-Version" +:+ ": 2, " +:+ quoted "System-Identifier" +:+ ": 7300000000000000001, " +:+
  quoted "Files" +:+ ": [{" +:+ quoted "Path" +:+ ": " +:+ quoted "PG_VERSION" +:+ ", " +:+ quoted "Size" +:+ ": 3, " +:+
  quoted "Last-Modified" +:+ ": " +:+ quoted "2026-01-01 00:00:00 GMT" +:+ ", " +:+ quoted "Checksum-Algorithm" +:+ ": " +:+ quoted "SHA256" +:+ ", " +:+
  quoted "Checksum" +:+ ": " +:+ quoted demo_hash +:+ "}], " +:+ quoted "WAL-Ranges" +:+ ": [{" +:+ quoted "Timeline" +:+ ": 1, " +:+
  quoted "Start-LSN" +:+ ": " +:+ quoted "0/2000028" +:+ ", " +:+ quoted "End-LSN" +:+ ": " +:+ quoted "0/2000120" +:+ "}], " +:+
  quoted "Manifest-Checksum" +:+ ": " +:+ quoted demo_hash +:+ "}".
Definition small_base : string := foldr String.append EmptyString (replicate 100 "tar ").
Definition small_tar : Tar :=
  mkTar [demo_header "global/" TypeDir ""; demo_header "PG_VERSION" TypeReg "18."; demo_header "backup_label" TypeReg small_label]
    (Some (1024 + (512 - len small_label))) (Some "") 1.
Definition small_untar (limit : Z) (bytes : string) : Tar := if bytes ==? small_base then small_tar else mkTar [] (Some 1024) (Some "") 1.
Definition small_artifact (i : Z) (role bytes : string) : Artifact :=
  mkArtifact i role None "none" (len bytes) (len bytes) (digest bytes) (digest bytes).
Definition small_commit : Commit :=
  mkCommit 1 (id_RepositoryID ex_identity) (c_BackupUID ex_commit) (c_AttemptID ex_commit) ex_hash "full" None (c_BackupUID ex_commit)
    (id_SystemIdentifier ex_identity) 18 "18.6" 1 1 (c_CaptureInstanceUID ex_commit)
    "2024-05-01T10:30:00Z" "2024-05-01T11:00:00Z" "2024-05-01T11:05:00Z"
    "0/2000028" "0/2000120" "0/2000028" "0/2000028" "0/2000120"
    [mkWALRange 1 "0/2000028" "0/2000120"] small_label "" None (len small_manifest) (digest small_manifest)
    (Some []) [small_artifact 0 "base" small_base; small_artifact 1 "wal" "wal"].
Definition small_files (p : string) : result failure_kind string :=
  if HasSuffix p "/backup_manifest" then Ok small_manifest else if HasSuffix p "/base.tar" then Ok small_base
  else if HasSuffix p "/pg_wal.tar" then Ok "wal" else if HasSuffix p "/backup_label" then Ok small_label else Err IsNotExist.
Definition small_handler : Prog.handler (E := os) () := fun X e s =>
  match e in os X return X * () -> X * () with Open p => fun _ => (small_files p, s) | _ => fun d => d end (demo_local X e s).
Definition small_scan : oprog (res fullInput) :=
  scan_input small_untar (fun l => l) small_commit (16 * 2 ^ 20) demo_native "/cnpg-backup/work/native/restore-1/0/tar".
Lemma scan_input_exact_witness :
  exists i tr l, runs small_scan [] tr (Ok i) /\ input_ok small_untar small_commit "/cnpg-backup/work/native/restore-1/0/tar" i l tr
    /\ nm_Files (fi_manifest i) = {["PG_VERSION" := 3]}.
Proof.
  assert (H : match (run small_handler small_scan ()).1 with Ok i => nm_Files (fi_manifest i) = {["PG_VERSION" := 3]} | Err _ => False end)
    by (vm_compute; reflexivity).
  destruct ((run small_handler small_scan ()).1) as [i|e] eqn:E; [|destruct H].
  pose proof (run_trace_runs small_handler small_scan () []) as Hr. rewrite E in Hr.
  destruct (scan_input_exact small_untar (fun l => l) (fun l => Permutation_refl l) _ _ _ _ _ _ _ Hr) as [l Hl].
  exists i, (run_trace small_handler small_scan () []), l. split; [exact Hr|]. split; [exact Hl|exact H].
Defined.

(** ** A restore that starts *)
Definition small_mountinfo : string :=
  lines ["36 25 8:16 / /cnpg-backup/work rw,relatime shared:1 - ext4 /dev/sdb rw"; "37 25 8:32 / /var/lib/postgresql/data rw shared:2 - xfs /dev/sdc rw";
         "38 25 8:48 / /var/lib/postgresql/wal rw shared:3 - xfs /dev/sdd rw"; "39 25 8:64 / /var/lib/postgresql/tablespaces/fast rw shared:4 - xfs /dev/sde rw"].
Definition small_stat (m : string) : option (string * Statfs) :=
  let disk d := Some (d, mkStatfs XFS_SUPER_MAGIC 4096 (2 * 2 ^ 20) (2 * 2 ^ 20)) in
  if m ==? "/cnpg-backup/work" then disk "8:16" else if m ==? "/var/lib/postgresql/data" then disk "8:32"
  else if m ==? "/var/lib/postgresql/wal" then disk "8:48" else disk "8:64".
Definition start_handler : Prog.handler (E := os) () := fun X e s =>
  match e in os X return X * () -> X * () with
  | ReadKernel => fun _ => (Capacity.mkKernel (Some small_mountinfo) Some small_stat, s)
  | MkdirTemp d p => fun _ => (Ok (within d p +:+ "1"), s)
  | _ => fun d => d
  end (demo_local X e s).
Definition start_hold : Hold := mkHold (mkHolder (p_ReaderHoldID ex_plan) "restore-reader" "" "" None) false false.
Definition start_restore : oprog (res (gmap string Integrity)) :=
  RestoreFull no_gunzip small_untar (fun l => l) (fun _ => Some hour_ns) (mkRepository ex_identity "" "") true (Some start_hold) ex_plan demo_native
    demo_restore_budgets demo_layout.
Definition writing (X : Type) (e : os X) : bool := bool_decide (is_Some (write_of e)).
Lemma restore_targets_untouched_witness :
  exists pre X (e : os X) f, emits start_restore [] pre X e /\ write_of e = Some f /\ target_guard small_untar ex_plan pre f.
Proof.
  destruct (run_emits start_handler writing start_restore () []) as (pre & X & e & Hw & He); [reflexivity|vm_compute; reflexivity|].
  apply bool_decide_eq_true in Hw as [f Hf]. exists pre, X, e, f. split; [exact He|]. split; [exact Hf|].
  exact (restore_targets_untouched _ _ _ _ _ _ _ _ _ _ _ _ _ _ _ (fun l => Permutation_refl l) He Hf).
Defined.
