(* ===== verification/NativeMove.v ===== *)
(** * Moving the WAL of a restore to its own volume (internal/postgres/restore_materialize.go)

    The only step of a restore that removes restored data: [relocateRestoreWAL] deletes the copy under the data directory after
    the copy on the WAL volume was read back, compared and synced. *)

From S2P Require Import Prelude GoStrings GoTime Sha256 Errors Schema Prog Store WalNames Repository RecoveryPlan Configuration Capacity.
From S2P Require Import NativePath NativeOps NativeArchive NativeManifest NativeText NativeBudget NativeInput NativeRestore NativeSafety.

Section Move.
Context (range : list string -> list string).

(** The segments of an inventory, and a bundle whose digests were computed from bytes read below a directory. *)
Definition segment_file (inv : archiveInventory) (name : string) : Prop :=
  is_Some (inv_files inv !! name) /\ len name = 24 /\ ValidWALFilename name = true.
Definition read_back (directory : string) (bundle : gmap string Integrity) (tr : otrace) : Prop :=
  forall name i, bundle !! name = Some i -> exists bytes, Act (Open (within directory name)) (Ok bytes) ∈ tr /\ digest bytes = ig_SHA256 i.
Lemma read_back_stable directory bundle : stable (read_back directory bundle).
Proof. intros tr tr' He H name i Hi. destruct (H name i Hi) as (b & Hb & Hd). exists b. split; [by eapply extends_elem|done]. Qed.
Definition covers (l : list string) (bundle : gmap string Integrity) : Prop :=
  forall name, name ∈ l -> len name = 24 -> ValidWALFilename name = true -> is_Some (bundle !! name).

Lemma wp_bundle_step directory inv m name tr : read_back directory m tr ->
  wp unguarded (fun tr' r => match r with Ok m' => read_back directory m' tr' /\ covers [name] m' /\ dom m ⊆ dom m' | Err _ => True end)
    (bundle_step directory inv m name) tr.
Proof.
  intros Hm. unfold bundle_step. destruct (negb (len name =? 24) || negb (ValidWALFilename name)) eqn:Eb.
  - split; [done|]. split; [|done]. intros x ->%list_elem_of_singleton Hl Hv. rewrite Hl, Hv in Eb. done.
  - cbv zeta. apply wp_bind. split; [done|]. intros [[[| | |] k]|]; cbn [wp]; try done. destruct (k !=? _); [done|]. apply wp_bindE.
    split; [done|]. intros [bytes|e]; cbn [wp]; [|done]. apply wp_bindE. unfold fileHash. apply wp_bindE. split; [done|].
    intros [e|]; cbn [wp lift]; [done|]. split; [|split].
    + intros x i. destruct (decide (x = name)) as [->|Hne].
      * rewrite lookup_insert_eq. intros [= <-]. exists bytes. split; [right; by left|done].
      * rewrite lookup_insert_ne by done. intros Hi. eapply read_back_stable; [by eexists [_; _; _]|exact Hm|exact Hi].
    + intros x ->%list_elem_of_singleton _ _. rewrite lookup_insert_eq. eauto.
    + rewrite dom_insert. set_solver.
Qed.
Lemma wp_bundle_all directory inv l m tr : read_back directory m tr ->
  wp unguarded (fun tr' r => match r with Ok m' => read_back directory m' tr' /\ covers l m' /\ dom m ⊆ dom m' | Err _ => True end)
    (visit_all l m (bundle_step directory inv)) tr.
Proof.
  revert m tr. induction l as [|x l IH]; intros m tr Hm; cbn [visit_all].
  - split; [done|]. split; [|done]. intros y H. by apply elem_of_nil in H.
  - apply wp_bindE. eapply wp_mono; [|by apply wp_bundle_step]. intros tr1 [m1|e]; [|done]. intros (H1 & Hc & Hd).
    eapply wp_mono; [|by apply IH]. intros tr2 [m2|e]; [|done]. intros (H2 & Hc2 & Hd2). split; [done|]. split; [|set_solver].
    intros y [->|Hy]%elem_of_cons Hl Hv; [|by apply Hc2]. apply elem_of_dom, Hd2, elem_of_dom. apply Hc; [by left|done|done].
Qed.
Lemma wp_bundle directory inv tr : (forall l, range l ≡ₚ l) ->
  wp unguarded (fun tr' r => match r with Ok m => read_back directory m tr' /\ forall name, segment_file inv name -> is_Some (m !! name) | Err _ => True end)
    (bundleIntegrity range directory inv) tr.
Proof.
  intros Hr. unfold bundleIntegrity. apply wp_bindE. split; [done|]. intros [[]|e]; cbn [wp]; [|done]. apply wp_bindE.
  eapply wp_mono; [|apply wp_bundle_all; intros name i H; by rewrite lookup_empty in H].
  intros tr1 [m|e]; [|done]. intros (Hm & Hc & _). destruct (_ =? 0); [done|]. split; [done|].
  intros name ([n Hn] & Hl & Hv). apply Hc; [|done|done]. unfold file_names. rewrite Hr.
  apply list_elem_of_fmap. exists (name, n). split; [done|]. by apply elem_of_map_to_list.
Qed.
Lemma wp_sync directory tr :
  wp unguarded (fun tr' r => match r with Ok _ => Act (Fs (SyncDir (path_dir directory))) None ∈ tr' | Err _ => True end) (syncRestoreTree directory) tr.
Proof.
  unfold syncRestoreTree. apply wp_bind. eapply wp_mono; [|apply wp_any]. intros tr1 entries _.
  do 2 (apply wp_skip; [done|]; intros). split; [done|]. intros [k|]; cbn [wp]; [done|by left].
Qed.

(** What must have happened before restored WAL is removed. *)
Definition moved (pg target : string) (inv : archiveInventory) (tr : otrace) : Prop :=
  exists expected, read_back (within pg "pg_wal") expected tr /\ read_back target expected tr /\
    (forall name, segment_file inv name -> is_Some (expected !! name)) /\ Act (Fs (SyncDir (path_dir target))) None ∈ tr.
Definition move_guard (pg target : string) (inv : archiveInventory) (tr : otrace) (f : effect) : Prop :=
  match f with Changes (RemoveAll _) => moved pg target inv tr | _ => True end.
Lemma keeps_relocate pg target inv expected tr : (forall l, range l ≡ₚ l) -> read_back (within pg "pg_wal") expected tr ->
  (forall name, segment_file inv name -> is_Some (expected !! name)) ->
  keeps (move_guard pg target inv) (relocateRestoreWAL range pg target inv expected) tr.
Proof.
  intros Hr Hx Hs. unfold relocateRestoreWAL. keeps_step; [keeps_steps|]. keeps_step; [unfold copy_wal, copyMember; keeps_steps; done|].
  destruct (nativeDirectories inv) as [dirs|]; [|keeps_steps]. keeps_step; [keeps_steps; done|].
  eapply keeps_with; [unfold bundleIntegrity, bundle_step; keeps_steps|by apply wp_bundle|]. intros tr1 copied He (Hb & _). cbn beta.
  destruct (copied !=? expected) eqn:Ec; [keeps_steps|]. apply negb_false_iff, bool_decide_eq_true in Ec as ->.
  eapply keeps_with; [unfold syncRestoreTree, walk_dirs; keeps_steps|apply wp_sync|]; [done..|]. intros tr2 [] He2 Hsync. keeps_step; [keeps_steps|].
  keeps_step; [|keeps_steps; done]. apply keeps_fs. intros _. exists expected. split_and!; [..|by eapply extends_elem].
  - eapply read_back_stable; [|exact Hx]. extend.
  - eapply read_back_stable; [|exact Hb]. extend.
  - exact Hs.
Qed.
Lemma keeps_finish i c l tr : (forall l, range l ≡ₚ l) ->
  keeps (move_guard (l_PGDATA l) (l_WALDirectory l) (wal_inventory i)) (finish range i c l) tr.
Proof.
  intros Hr. unfold finish. keeps_step; [keeps_steps|]. keeps_step; [keeps_steps; done|]. cbv zeta. destruct (negb _); [keeps_steps|].
  eapply keeps_with; [unfold bundleIntegrity, bundle_step; keeps_steps|by apply wp_bundle|]. intros tr2 expected He (Hb & Hs). cbn beta.
  keeps_step; [destruct (wal_apart l); [by apply keeps_relocate|keeps_steps]|].
  keeps_step; [unfold syncRestoreTree, walk_dirs; keeps_steps; done|]. unfold bundleIntegrity, bundle_step. keeps_steps.
Qed.
End Move.

(** A restore removes the WAL under its data directory only after every segment of the backup's WAL archive was read from
    there and from the WAL volume with equal digests, and the directory of that volume was synced. *)
Theorem wal_moved_before_removed range i c l pre p : (forall l, range l ≡ₚ l) ->
  emits (finish range i c l) [] pre _ (Fs (RemoveAll p)) -> moved (l_PGDATA l) (l_WALDirectory l) (wal_inventory i) pre.
Proof. intros Hr He. exact (wp_emits _ _ _ _ _ _ _ (keeps_finish range i c l [] Hr) He _ eq_refl). Qed.

(** ** One segment moved *)
Definition one_segment : archiveInventory := mkInventory {["000000010000000000000002" := 3]} [] 1 3.
Definition one_input : fullInput := mkInput "/scratch/0/tar" (mkNativeManifest 1 ∅ []) {["pg_wal.tar" := one_segment]} "" "".
Definition move_handler : Prog.handler (E := os) () := fun X e s =>
  match e in os X return X * () -> X * () with
  | Open _ => fun _ => (Ok "WAL", s) | Lstat _ => fun _ => (Some (FRegular, 3), s)
  | WalkDir p => fun _ => ([Some (mkWalk p FDir 0 None)], s)
  | _ => fun d => d
  end (demo_local X e s).
Definition removal (X : Type) (e : os X) : bool := match e with Fs (RemoveAll _) => true | _ => false end.
Lemma wal_moved_before_removed_witness :
  exists pre p, emits (finish (fun l => l) one_input small_commit demo_layout) [] pre _ (Fs (RemoveAll p)) /\
    moved (l_PGDATA demo_layout) (l_WALDirectory demo_layout) one_segment pre.
Proof.
  destruct (run_emits move_handler removal (finish (fun l => l) one_input small_commit demo_layout) () []) as (pre & X & e & Hw & He);
    [reflexivity|vm_compute; reflexivity|].
  destruct e; try discriminate Hw. destruct op; try discriminate Hw. exists pre, p. split; [exact He|].
  exact (wal_moved_before_removed _ _ _ _ _ _ (fun l => Permutation_refl l) He).
Defined.
