(* ===== verification/ConfigSnapshot.v ===== *)
(** * Projected snapshots (internal/configuration/snapshot.go, native.go, authorize.go, repository.go)

    An operation reads its specification, credentials and trust from one generation of a projected volume.  PEM, X.509 and
    the decoder of Kubernetes resource lists are parameters; the clock is read where the code reads it. *)

From S2P Require Import Prelude GoStrings GoTime Errors Schema Json LooseJson Prog ProgRules Store S3Keys S3Config Configuration Capacity.
From S2P Require Import NativePath NativeOps NativeManifest NativeText.

(** ** Decoding a specification *)
#[export] Instance loose_Selector : Loose Selector := mkLoose Selector (mkSelector "" "") (into_struct [
  ("name", on_field sel_Name (fun v x => mkSelector x (sel_Key v)));
  ("key", on_field sel_Key (fun v x => mkSelector (sel_Name v) x))]).
(** A pointer: [null] clears it, anything else is decoded into the pointed value, a fresh one for nil. *)
#[export] Instance loose_ptr {A} {L : Loose A} : Loose (option A) :=
  mkLoose (option A) None (fun p j => match j with JNull => Some None | _ => Some <$> into (default zero p) j end).
#[export] Instance loose_S3Spec : Loose S3Spec := mkLoose S3Spec (mkS3Spec "" "" "" "" "" "" zero zero None None "") (into_struct [
  ("endpoint", on_field s3_Endpoint (fun v x => mkS3Spec x (s3_Bucket v) (s3_Prefix v) (s3_Signature v) (s3_Addressing v) (s3_Region v) (s3_AccessKeySecret v) (s3_SecretKeySecret v) (s3_SessionTokenSecret v) (s3_CAConfigMap v) (s3_Encryption v)));
  ("bucket", on_field s3_Bucket (fun v x => mkS3Spec (s3_Endpoint v) x (s3_Prefix v) (s3_Signature v) (s3_Addressing v) (s3_Region v) (s3_AccessKeySecret v) (s3_SecretKeySecret v) (s3_SessionTokenSecret v) (s3_CAConfigMap v) (s3_Encryption v)));
  ("prefix", on_field s3_Prefix (fun v x => mkS3Spec (s3_Endpoint v) (s3_Bucket v) x (s3_Signature v) (s3_Addressing v) (s3_Region v) (s3_AccessKeySecret v) (s3_SecretKeySecret v) (s3_SessionTokenSecret v) (s3_CAConfigMap v) (s3_Encryption v)));
  ("signature", on_field s3_Signature (fun v x => mkS3Spec (s3_Endpoint v) (s3_Bucket v) (s3_Prefix v) x (s3_Addressing v) (s3_Region v) (s3_AccessKeySecret v) (s3_SecretKeySecret v) (s3_SessionTokenSecret v) (s3_CAConfigMap v) (s3_Encryption v)));
  ("addressing", on_field s3_Addressing (fun v x => mkS3Spec (s3_Endpoint v) (s3_Bucket v) (s3_Prefix v) (s3_Signature v) x (s3_Region v) (s3_AccessKeySecret v) (s3_SecretKeySecret v) (s3_SessionTokenSecret v) (s3_CAConfigMap v) (s3_Encryption v)));
  ("region", on_field s3_Region (fun v x => mkS3Spec (s3_Endpoint v) (s3_Bucket v) (s3_Prefix v) (s3_Signature v) (s3_Addressing v) x (s3_AccessKeySecret v) (s3_SecretKeySecret v) (s3_SessionTokenSecret v) (s3_CAConfigMap v) (s3_Encryption v)));
  ("accessKeySecret", on_field s3_AccessKeySecret (fun v x => mkS3Spec (s3_Endpoint v) (s3_Bucket v) (s3_Prefix v) (s3_Signature v) (s3_Addressing v) (s3_Region v) x (s3_SecretKeySecret v) (s3_SessionTokenSecret v) (s3_CAConfigMap v) (s3_Encryption v)));
  ("secretKeySecret", on_field s3_SecretKeySecret (fun v x => mkS3Spec (s3_Endpoint v) (s3_Bucket v) (s3_Prefix v) (s3_Signature v) (s3_Addressing v) (s3_Region v) (s3_AccessKeySecret v) x (s3_SessionTokenSecret v) (s3_CAConfigMap v) (s3_Encryption v)));
  ("sessionTokenSecret", on_field s3_SessionTokenSecret (fun v x => mkS3Spec (s3_Endpoint v) (s3_Bucket v) (s3_Prefix v) (s3_Signature v) (s3_Addressing v) (s3_Region v) (s3_AccessKeySecret v) (s3_SecretKeySecret v) x (s3_CAConfigMap v) (s3_Encryption v)));
  ("caConfigMap", on_field s3_CAConfigMap (fun v x => mkS3Spec (s3_Endpoint v) (s3_Bucket v) (s3_Prefix v) (s3_Signature v) (s3_Addressing v) (s3_Region v) (s3_AccessKeySecret v) (s3_SecretKeySecret v) (s3_SessionTokenSecret v) x (s3_Encryption v)));
  ("encryption", on_field s3_Encryption (fun v x => mkS3Spec (s3_Endpoint v) (s3_Bucket v) (s3_Prefix v) (s3_Signature v) (s3_Addressing v) (s3_Region v) (s3_AccessKeySecret v) (s3_SecretKeySecret v) (s3_SessionTokenSecret v) (s3_CAConfigMap v) x))]).
#[export] Instance loose_IO : Loose IO := mkLoose IO (mkIO "" "" "" "" "" 0 0 0) (into_struct [
  ("connectTimeout", on_field io_ConnectTimeout (fun v x => mkIO x (io_MetadataTimeout v) (io_DataRequestTimeout v) (io_OperationTimeout v) (io_WALUploadTimeout v) (io_ArtifactUploads v) (io_PartWorkers v) (io_WALUploads v)));
  ("metadataTimeout", on_field io_MetadataTimeout (fun v x => mkIO (io_ConnectTimeout v) x (io_DataRequestTimeout v) (io_OperationTimeout v) (io_WALUploadTimeout v) (io_ArtifactUploads v) (io_PartWorkers v) (io_WALUploads v)));
  ("dataRequestTimeout", on_field io_DataRequestTimeout (fun v x => mkIO (io_ConnectTimeout v) (io_MetadataTimeout v) x (io_OperationTimeout v) (io_WALUploadTimeout v) (io_ArtifactUploads v) (io_PartWorkers v) (io_WALUploads v)));
  ("operationTimeout", on_field io_OperationTimeout (fun v x => mkIO (io_ConnectTimeout v) (io_MetadataTimeout v) (io_DataRequestTimeout v) x (io_WALUploadTimeout v) (io_ArtifactUploads v) (io_PartWorkers v) (io_WALUploads v)));
  ("walUploadTimeout", on_field io_WALUploadTimeout (fun v x => mkIO (io_ConnectTimeout v) (io_MetadataTimeout v) (io_DataRequestTimeout v) (io_OperationTimeout v) x (io_ArtifactUploads v) (io_PartWorkers v) (io_WALUploads v)));
  ("artifactUploads", on_field io_ArtifactUploads (fun v x => mkIO (io_ConnectTimeout v) (io_MetadataTimeout v) (io_DataRequestTimeout v) (io_OperationTimeout v) (io_WALUploadTimeout v) x (io_PartWorkers v) (io_WALUploads v)));
  ("partWorkers", on_field io_PartWorkers (fun v x => mkIO (io_ConnectTimeout v) (io_MetadataTimeout v) (io_DataRequestTimeout v) (io_OperationTimeout v) (io_WALUploadTimeout v) (io_ArtifactUploads v) x (io_WALUploads v)));
  ("walUploads", on_field io_WALUploads (fun v x => mkIO (io_ConnectTimeout v) (io_MetadataTimeout v) (io_DataRequestTimeout v) (io_OperationTimeout v) (io_WALUploadTimeout v) (io_ArtifactUploads v) (io_PartWorkers v) x))]).
#[export] Instance loose_RetentionSpec : Loose RetentionSpec := mkLoose RetentionSpec (mkRetentionSpec false false "" 0 "") (into_struct [
  ("enabled", on_field rt_Enabled (fun v x => mkRetentionSpec x (rt_DryRun v) (rt_Window v) (rt_MinimumFulls v) (rt_Interval v)));
  ("dryRun", on_field rt_DryRun (fun v x => mkRetentionSpec (rt_Enabled v) x (rt_Window v) (rt_MinimumFulls v) (rt_Interval v)));
  ("window", on_field rt_Window (fun v x => mkRetentionSpec (rt_Enabled v) (rt_DryRun v) x (rt_MinimumFulls v) (rt_Interval v)));
  ("minimumFulls", on_field rt_MinimumFulls (fun v x => mkRetentionSpec (rt_Enabled v) (rt_DryRun v) (rt_Window v) x (rt_Interval v)));
  ("interval", on_field rt_Interval (fun v x => mkRetentionSpec (rt_Enabled v) (rt_DryRun v) (rt_Window v) (rt_MinimumFulls v) x))]).
#[export] Instance loose_Workspace : Loose Workspace := mkLoose Workspace (mkWorkspace "" "") (into_struct [
  ("storageClassName", on_field ws_StorageClassName (fun v x => mkWorkspace x (ws_Size v)));
  ("size", on_field ws_Size (fun v x => mkWorkspace (ws_StorageClassName v) x))]).
#[export] Instance loose_Native : Loose Native := mkLoose Native (mkNative 0 0 0 "" "") (into_struct [
  ("maxBackupBytes", on_field n_MaxBackupBytes (fun v x => mkNative x (n_MaxBootstrapWALBytes v) (n_MaxRestoredBytes v) (n_MaxReferenceAge v) (n_CaptureTimeout v)));
  ("maxBootstrapWALBytes", on_field n_MaxBootstrapWALBytes (fun v x => mkNative (n_MaxBackupBytes v) x (n_MaxRestoredBytes v) (n_MaxReferenceAge v) (n_CaptureTimeout v)));
  ("maxRestoredBytes", on_field n_MaxRestoredBytes (fun v x => mkNative (n_MaxBackupBytes v) (n_MaxBootstrapWALBytes v) x (n_MaxReferenceAge v) (n_CaptureTimeout v)));
  ("maxReferenceAge", on_field n_MaxReferenceAge (fun v x => mkNative (n_MaxBackupBytes v) (n_MaxBootstrapWALBytes v) (n_MaxRestoredBytes v) x (n_CaptureTimeout v)));
  ("captureTimeout", on_field n_CaptureTimeout (fun v x => mkNative (n_MaxBackupBytes v) (n_MaxBootstrapWALBytes v) (n_MaxRestoredBytes v) (n_MaxReferenceAge v) x))]).
#[export] Instance loose_Freshness : Loose Freshness := mkLoose Freshness (mkFreshness "" "") (into_struct [
  ("fullMaxAge", on_field fr_FullMaxAge (fun v x => mkFreshness x (fr_DifferentialMaxAge v)));
  ("differentialMaxAge", on_field fr_DifferentialMaxAge (fun v x => mkFreshness (fr_FullMaxAge v) x))]).
#[export] Instance loose_FilesystemBudget : Loose FilesystemBudget := mkLoose FilesystemBudget (mkBudget "" 0 0) (into_struct [
  ("mount", on_field fb_Mount (fun v x => mkBudget x (fb_LimitBytes v) (fb_RequiredBytes v)));
  ("limitBytes", on_field fb_LimitBytes (fun v x => mkBudget (fb_Mount v) x (fb_RequiredBytes v)));
  ("requiredBytes", on_field fb_RequiredBytes (fun v x => mkBudget (fb_Mount v) (fb_LimitBytes v) x))]).

Definition milli : Z := 1000000.
Definition unit_q : Z := 1000000000.
Definition Defaults : Spec :=
  mkSpec "" (mkS3Spec "" "" "" "v4" "path" "us-east-1" (mkSelector "" "") (mkSelector "" "") None None "bucket-default") "gzip"
    (mkIO "10s" "30s" "15m" "24h" "120s" 2 2 2) (mkRetentionSpec false true "" 2 "1h") (mkWorkspace "" "256Gi")
    (mkNative (32 * GiB) (8 * GiB) (32 * GiB) "192h" "6h")
    (mkResources 0 (<["cpu" := 100 * milli]> {["memory" := 256 * 2 ^ 20 * unit_q]}) (<["cpu" := 2 * unit_q]> {["memory" := 3 * GiB * unit_q]}))
    (mkFreshness "" "").

(** ** One generation *)
Definition Projection (directory : string) : oprog (res string) :=
  let! generation := call (EvalSymlinks (within directory "..data")) in
  match generation with
  | None => fail ErrOther
  | Some g => call (Setup ("root " +:+ g)) ;;* done g
  end.
(** At most one byte more than the limit is read, and then the member is refused. *)
Definition Read (root path : string) (limit : Z) : oprog (res string) :=
  let! r := call (Projected (within root path) limit) in
  match r with
  | Err _ => fail ErrOther
  | Ok b => if limit <? len b then fail ErrOther else done b
  end.

(** ** Trust *)
Record Certificate := mkCertificate { ce_IsCA : bool; ce_NotBefore : Time; ce_NotAfter : Time; ce_CommonName : string; ce_Raw : string }.
Record CaptureSnapshot := mkCaptureSnapshot { cs_Repository : Snapshot; cs_Certificate : string; cs_Key : string; cs_ServerCA : string }.
(** The parts of [tls.Config] that [LoadManagerTLS] sets from what it read. *)
Record ManagerTLS := mkManagerTLS { mt_pair : list string; mt_ClientCAs : list Certificate; mt_clientName : string }.

(** One step of the proof that every call of a native program is of a kind. *)
Ltac os_step :=
  match goal with
  | |- calls _ (bindE _ _) => apply calls_bindE; [|intros ?]
  | |- calls _ (bind _ _) => apply calls_bind; [|intros ?]
  | |- calls _ (Ret _) => apply calls_ret
  | |- calls _ (fail _) => apply calls_ret
  | |- calls _ (done _) => apply calls_ret
  | |- calls _ (call _) => apply calls_call; first [exact Logic.I|cbn; first [exact Logic.I|done|eexists; reflexivity]]
  | |- calls _ (fs _) => unfold fs
  | |- calls _ (pass _) => unfold pass
  | |- calls _ (open_file _) => unfold open_file
  | |- calls _ check_context => unfold check_context, check_ctx, remote, bind, call
  | |- calls _ (visit_all _ _ _) => apply calls_visit; intros ? ?
  | |- calls _ (if ?b then _ else _) => destruct b
  | |- calls _ (match ?x with _ => _ end) => destruct x
  end; cbv zeta.

Section Snapshots.
Context (ParseDuration : string -> option Z) (Parse : string -> option URL) (Hostname : URL -> string)
  (IsDNS1123Subdomain IsConfigMapKey : string -> bool) (ParseQuantity : string -> option Z)
  (into_resources : Resources -> json -> option Resources)
  (pem_decode : string -> option (string * string * string)) (ParseCertificate : string -> option Certificate)
  (X509KeyPair : string -> string -> option (list string))
  (Verify : Time -> Certificate -> list Certificate -> list Certificate -> bool).
Let validate := Spec_validate ParseDuration Parse Hostname IsDNS1123Subdomain IsConfigMapKey ParseQuantity.

#[local] Instance loose_Resources : Loose Resources := mkLoose Resources (mkResources 0 ∅ ∅) into_resources.
#[local] Instance loose_Spec : Loose Spec := mkLoose Spec (mkSpec "" zero "" zero zero zero zero zero zero) (into_struct [
  ("repositoryID", on_field sp_RepositoryID (fun v x => mkSpec x (sp_S3 v) (sp_Compression v) (sp_IO v) (sp_Retention v) (sp_Workspace v) (sp_Native v) (sp_Resources v) (sp_BackupFreshness v)));
  ("s3", on_field sp_S3 (fun v x => mkSpec (sp_RepositoryID v) x (sp_Compression v) (sp_IO v) (sp_Retention v) (sp_Workspace v) (sp_Native v) (sp_Resources v) (sp_BackupFreshness v)));
  ("compression", on_field sp_Compression (fun v x => mkSpec (sp_RepositoryID v) (sp_S3 v) x (sp_IO v) (sp_Retention v) (sp_Workspace v) (sp_Native v) (sp_Resources v) (sp_BackupFreshness v)));
  ("io", on_field sp_IO (fun v x => mkSpec (sp_RepositoryID v) (sp_S3 v) (sp_Compression v) x (sp_Retention v) (sp_Workspace v) (sp_Native v) (sp_Resources v) (sp_BackupFreshness v)));
  ("retention", on_field sp_Retention (fun v x => mkSpec (sp_RepositoryID v) (sp_S3 v) (sp_Compression v) (sp_IO v) x (sp_Workspace v) (sp_Native v) (sp_Resources v) (sp_BackupFreshness v)));
  ("workspace", on_field sp_Workspace (fun v x => mkSpec (sp_RepositoryID v) (sp_S3 v) (sp_Compression v) (sp_IO v) (sp_Retention v) x (sp_Native v) (sp_Resources v) (sp_BackupFreshness v)));
  ("native", on_field sp_Native (fun v x => mkSpec (sp_RepositoryID v) (sp_S3 v) (sp_Compression v) (sp_IO v) (sp_Retention v) (sp_Workspace v) x (sp_Resources v) (sp_BackupFreshness v)));
  ("resources", on_field sp_Resources (fun v x => mkSpec (sp_RepositoryID v) (sp_S3 v) (sp_Compression v) (sp_IO v) (sp_Retention v) (sp_Workspace v) (sp_Native v) x (sp_BackupFreshness v)));
  ("backupFreshness", on_field sp_BackupFreshness (fun v x => mkSpec (sp_RepositoryID v) (sp_S3 v) (sp_Compression v) (sp_IO v) (sp_Retention v) (sp_Workspace v) (sp_Native v) (sp_Resources v) x))]).
Definition DecodeSpec (data : string) : res Spec :=
  match StrictJSONInto Defaults data (256 * 1024) with
  | None => Err ErrOther
  | Some s => match validate s with Ok _ => Ok s | Err _ => Err ErrOther end
  end.

Definition now : oprog Time := call (Remote Now).
(** The validity of a certificate: the second reading of the clock is made only when the first passed. *)
Definition current (c : Certificate) : oprog bool :=
  let! t := now in
  if Before t (ce_NotBefore c) then Ret false else
  let! t := now in Ret (Before t (ce_NotAfter c)).
(** The loop over the PEM blocks.  Every block takes at least one byte, so the length of the data is fuel enough. *)
Fixpoint ca_blocks (fuel : nat) (data : string) (pool : list Certificate) : oprog (res (list Certificate)) :=
  match data, fuel with
  | EmptyString, _ => done pool
  | _, O => fail Panic
  | _, S fuel =>
      match pem_decode data with
      | None => fail ErrOther
      | Some (kind, bytes, rest) =>
          if kind !=? "CERTIFICATE" then fail ErrOther else
          match ParseCertificate bytes with
          | None => fail ErrOther
          | Some cert =>
              if negb (ce_IsCA cert) then fail ErrOther else
              let! ok := current cert in
              if negb ok then fail ErrOther else ca_blocks fuel rest (pool ++ [cert])
          end
      end
  end.
(** [CAPool]: the certificates of the bundle; those of the system, when asked for, come in addition. *)
Definition CAPool (data : string) (system : bool) : oprog (res (list Certificate)) :=
  (if system then call (Setup "system trust") else done ()) ;;*
  let* pool := ca_blocks (String.length data) data [] in
  match pool with [] => fail ErrOther | _ :: _ => done pool end.
Definition VerifyClient (chain roots : list Certificate) (name : string) : oprog (res ()) :=
  match chain with
  | [] => fail ErrOther
  | leaf :: intermediates =>
      if ce_CommonName leaf !=? name then fail ErrOther else
      let! t := now in
      if Verify t leaf roots intermediates then done () else fail ErrOther
  end.

(** ** Snapshots *)
Definition credential (root path : string) : oprog (res string) :=
  let* b := Read root path (64 * 1024) in if len b =? 0 then fail ErrOther else done b.
Definition trust_bundle (root role : string) (spec : Spec) : oprog (res string) :=
  match s3_CAConfigMap (sp_S3 spec) with
  | Some _ => let* data := Read root (role +:+ "/ca.crt") (256 * 1024) in CAPool data true ;;* done data
  | None => call (Setup "system trust") ;;* done ""
  end.
Definition loadRepositorySnapshot (root role : string) : oprog (res Snapshot) :=
  let* data := Read root (role +:+ "/repository.json") (256 * 1024) in
  match DecodeSpec data with
  | Err e => fail e
  | Ok spec =>
      let* access := credential root (role +:+ "/accessKey") in
      let* secret := credential root (role +:+ "/secretKey") in
      let* token := match s3_SessionTokenSecret (sp_S3 spec) with
                    | Some _ => credential root (role +:+ "/sessionToken")
                    | None => done ""
                    end in
      let* ca := trust_bundle root role spec in
      done (mkSnapshot spec access secret token ca)
  end.
Definition role_ok (role : string) : bool := (role ==? "destination") || (role ==? "source").
Definition LoadSnapshot (directory role : string) : oprog (res Snapshot) :=
  if negb (role_ok role) then fail ErrOther else
  let* root := Projection directory in loadRepositorySnapshot root role.
Definition LoadSnapshotFromRoot (root role : string) : oprog (res Snapshot) :=
  if negb (role_ok role) then fail ErrOther else loadRepositorySnapshot root role.

Fixpoint parse_chain (l : list string) : option (list Certificate) :=
  match l with
  | [] => Some []
  | der :: l => match ParseCertificate der with Some c => (c ::.) <$> parse_chain l | None => None end
  end.
Definition LoadCaptureSnapshotFromRoot (root : string) : oprog (res CaptureSnapshot) :=
  let* repo := loadRepositorySnapshot root "destination" in
  let* certificate := Read root "native/tls.crt" (256 * 1024) in
  let* key := Read root "native/tls.key" (64 * 1024) in
  let* serverCA := Read root "native/ca.crt" (256 * 1024) in
  match X509KeyPair certificate key with
  | None => fail ErrOther
  | Some certs =>
      let* clientCA := Read root "native/client-ca.crt" (256 * 1024) in
      let* roots := CAPool clientCA false in
      match parse_chain certs with
      | None => fail ErrOther
      | Some chain =>
          VerifyClient chain roots "streaming_replica" ;;*
          CAPool serverCA false ;;*
          done (mkCaptureSnapshot repo certificate key serverCA)
      end
  end.
Definition LoadCaptureSnapshot (directory : string) : oprog (res CaptureSnapshot) :=
  let* root := Projection directory in LoadCaptureSnapshotFromRoot root.

(** ** The manager's trust *)
Definition overlap (root ca : string) : oprog (res string) :=
  let! st := call (Stat (within root "client-ca-next.crt")) in
  match st with
  | Ok _ =>
      let* next := Read root "client-ca-next.crt" (256 * 1024) in
      CAPool next false ;;*
      done (ca +:+ String newline next)
  | Err IsNotExist => done ca
  | Err _ => fail ErrOther
  end.
Definition LoadManagerTLS (directory clientName : string) : oprog (res ManagerTLS) :=
  let* root := Projection directory in
  let* cert := Read root "tls.crt" (256 * 1024) in
  let* key := Read root "tls.key" (64 * 1024) in
  let* ca := Read root "client-ca.crt" (256 * 1024) in
  match X509KeyPair cert key with
  | None => fail ErrOther
  | Some [] => fail Panic
  | Some (der :: rest) =>
      match ParseCertificate der with
      | None => fail ErrOther
      | Some leaf =>
          let! ok := current leaf in
          if negb ok then fail ErrOther else
          let* ca := overlap root ca in
          let* roots := CAPool ca false in
          if clientName ==? "" then fail ErrOther else
          done (mkManagerTLS (der :: rest) roots clientName)
      end
  end.
(** [ManagerAuthorization]: [peer] is the certificate chain of the TLS transport of the call, if it has one. *)
Definition ManagerAuthorization {A} (directory clientName : string) (peer : option (list Certificate)) (handler : oprog (res A)) : oprog (res A) :=
  let! current := LoadManagerTLS directory clientName in
  match current, peer with
  | Ok current, Some chain =>
      let! v := VerifyClient chain (mt_ClientCAs current) clientName in
      match v with Err _ => fail ErrOther | Ok _ => handler end
  | _, _ => fail ErrOther
  end.

(** ** One generation per operation *)
(** The calls of a snapshot: reads of members of the generation [g], the clock and the system's trust. *)
Definition reads_from (g : string) (X : Type) (e : os X) : Prop :=
  match e with Projected p _ => exists q, p = within g q | Setup _ => True | Remote e => match e with Now => True | _ => False end | _ => False end.
Abbreviation from_root g p := (calls (reads_from g) p).
Lemma from_blocks g fuel : forall data pool, from_root g (ca_blocks fuel data pool).
Proof.
  induction fuel as [|fuel IH]; intros [|c data] pool; cbn [ca_blocks]; try apply calls_ret. unfold current, now. repeat os_step. apply IH.
Qed.
Lemma from_pool g data system : from_root g (CAPool data system).
Proof. unfold CAPool. repeat os_step; apply from_blocks. Qed.
Lemma from_snapshot g role : from_root g (loadRepositorySnapshot g role).
Proof. unfold loadRepositorySnapshot, credential, trust_bundle, Read. repeat os_step. apply from_pool. Qed.
Lemma from_capture g : from_root g (LoadCaptureSnapshotFromRoot g).
Proof.
  unfold LoadCaptureSnapshotFromRoot, VerifyClient, now, Read. os_step; [apply from_snapshot|]. repeat os_step; apply from_pool.
Qed.
End Snapshots.
Abbreviation from_root g p := (calls (reads_from g) p).

(** An invariant that the allowed calls keep holds before each of them. *)
Lemma wp_invariant {A} (S : forall X, os X -> Prop) (I : otrace -> Prop) (p : oprog A) tr :
  (forall tr X (e : os X) x, S X e -> I tr -> I (Act e x :: tr)) -> I tr -> wp (fun _ => S) (fun _ _ => True) p tr ->
  wp (fun tr X e => S X e /\ I tr) (fun _ _ => True) p tr.
Proof.
  intros HI. revert tr. induction p as [a|X e k IH]; intros tr Hi; cbn; [done|]. intros [Hs Hk]. split; [done|].
  intros x. apply IH; [by apply HI|by apply Hk].
Qed.
(** What an action resolved, if it resolved a link. *)
Definition resolved (a : Prog.action os) : option (option string) :=
  match a with Act e x => match e in os X return X -> option (option string) with EvalSymlinks _ => Some | _ => fun _ => None end x end.
(** The generation a trace resolved, and no other. *)
Definition pinned (directory g : string) (tr : otrace) : Prop :=
  Act (EvalSymlinks (within directory "..data")) (Some g) ∈ tr /\ forall a x, a ∈ tr -> resolved a = Some x -> x = Some g.
Definition generation_guard (directory : string) (tr : otrace) (X : Type) (e : os X) : Prop :=
  match e with Projected p _ => exists g q, p = within g q /\ pinned directory g tr | _ => True end.
Lemma pinned_step directory g tr X (e : os X) x : reads_from g X e -> pinned directory g tr -> pinned directory g (Act e x :: tr).
Proof.
  intros He [H1 H2]. split; [by right|]. intros a y [->|H]%elem_of_cons Ha; [|by eapply H2]. by destruct e.
Qed.
Lemma pinned_guard {A} directory g (p : oprog A) tr : pinned directory g tr -> from_root g p -> wp (generation_guard directory) (fun _ _ => True) p tr.
Proof.
  intros Hp Hf. eapply wp_G_mono; [|apply (wp_invariant _ _ _ _ (pinned_step directory g) Hp (Hf tr))]. intros tr' X e [He Hi].
  destruct e; try done. destruct He as [q ->]. by exists g, q.
Qed.
Lemma wp_projected {A} directory (f : string -> oprog (res A)) : (forall g, from_root g (f g)) ->
  wp (generation_guard directory) (fun _ _ => True) (let* root := Projection directory in f root) [].
Proof.
  intros Hf. unfold Projection. do 2 apply wp_bind. split; [done|]. intros [g|]; [|done]. cbn [wp bind]. apply wp_bindE. split; [done|].
  intros [[]|e]; [|done]. cbn [wp bind]. apply (pinned_guard _ g); [|done].
  split; [right; by left|]. intros a x [->|[->|H]%elem_of_cons]%elem_of_cons; [done|by intros [= <-]|by apply elem_of_nil in H].
Qed.

Section Generation.
Context (ParseDuration : string -> option Z) (Parse : string -> option URL) (Hostname : URL -> string)
  (IsDNS1123Subdomain IsConfigMapKey : string -> bool) (ParseQuantity : string -> option Z)
  (into_resources : Resources -> json -> option Resources)
  (pem_decode : string -> option (string * string * string)) (ParseCertificate : string -> option Certificate)
  (X509KeyPair : string -> string -> option (list string))
  (Verify : Time -> Certificate -> list Certificate -> list Certificate -> bool).

(** Rules for a guard that only restricts the handlers of calls. *)
Section Trust.
Context (G : otrace -> forall X, os X -> Prop).
Hypothesis G_reads : forall tr X (e : os X), match e with Remote (Caller _ _) => True | _ => G tr X e end.
Lemma wp_now Q tr : (forall t tr', Act (Remote Now) t ∈ tr' -> Q tr' t) -> wp G Q now tr.
Proof. intros H. split; [exact (G_reads tr _ (Remote Now))|]. intros t. apply H. by left. Qed.
Lemma wp_current c tr : wp G (fun _ _ => True) (current c) tr.
Proof.
  unfold current. apply wp_bind, wp_now. intros t tr' _. destruct (Before t _); [done|]. apply wp_bind, wp_now. done.
Qed.
Lemma wp_blocks fuel : forall data pool tr, Forall (fun c => ce_IsCA c = true) pool ->
  wp G (fun _ r => match r with Ok l => Forall (fun c => ce_IsCA c = true) l | Err _ => True end) (ca_blocks pem_decode ParseCertificate fuel data pool) tr.
Proof.
  induction fuel as [|fuel IH]; intros [|c data] pool tr Hp; cbn [ca_blocks]; try done.
  destruct (pem_decode _) as [[[kind bytes] rest]|]; [|done]. destruct (kind !=? _); [done|].
  destruct (ParseCertificate bytes) as [cert|]; [|done]. destruct (ce_IsCA cert) eqn:Ec; [|done]. cbn [negb].
  apply wp_bind. eapply wp_mono; [|apply wp_current]. intros tr' [|] _; [|done]. apply IH. apply Forall_app. split; [done|by constructor].
Qed.
Lemma wp_pool data system tr :
  wp G (fun _ r => match r with Ok l => l <> [] /\ Forall (fun c => ce_IsCA c = true) l | Err _ => True end) (CAPool pem_decode ParseCertificate data system) tr.
Proof.
  unfold CAPool. apply wp_bindE. assert (H : forall tr', wp G (fun _ r => match r with Ok l => l <> [] /\ Forall (fun c => ce_IsCA c = true) l | Err _ => True end)
    (let* pool := ca_blocks pem_decode ParseCertificate (String.length data) data [] in match pool with [] => fail ErrOther | _ :: _ => done pool end) tr').
  { intros tr'. apply wp_bindE. eapply wp_mono; [|by apply wp_blocks]. by intros tr2 [[|c l]|e]. }
  destruct system; [|apply H]. split; [exact (G_reads tr _ (Setup _))|]. by intros [[]|e]; [apply H|].
Qed.
Lemma wp_read root path limit (Q : otrace -> res string -> Prop) tr : (forall tr' b, Q tr' (Ok b)) -> (forall tr' e, Q tr' (Err e)) -> wp G Q (Read root path limit) tr.
Proof. intros H0 He. split; [exact (G_reads tr _ (Projected _ _))|]. intros [b|e]; cbn [bind wp]; [destruct (_ <? _); [apply He|apply H0]|apply He]. Qed.
Definition trusted (l : list Certificate) : Prop := l <> [] /\ Forall (fun c => ce_IsCA c = true) l.
Lemma wp_overlap root ca tr : wp G (fun _ _ => True) (overlap pem_decode ParseCertificate root ca) tr.
Proof.
  split; [exact (G_reads tr _ (Stat _))|]. intros [st|[]]; try done. cbn [bind wp]. apply wp_bindE, wp_read; [|done]. intros tr' b.
  apply wp_bindE. eapply wp_mono; [|apply wp_pool]. by intros tr2 [l|e].
Qed.
Lemma wp_manager directory name tr :
  wp G (fun _ r => match r with Ok t => trusted (mt_ClientCAs t) | Err _ => True end)
    (LoadManagerTLS pem_decode ParseCertificate X509KeyPair directory name) tr.
Proof.
  unfold LoadManagerTLS, Projection. apply wp_bindE, wp_bind. split; [exact (G_reads tr _ (EvalSymlinks _))|]. intros [g|]; [|done]. cbn [bind wp].
  apply wp_bindE. split; [exact (G_reads _ _ (Setup _))|]. intros [[]|e]; [|done]. cbn [bind wp].
  do 3 (apply wp_bindE, wp_read; [intros ? ?|done]). destruct (X509KeyPair _ _) as [[|der rest]|]; try done.
  destruct (ParseCertificate der) as [leaf|]; [|done]. apply wp_bind. eapply wp_mono; [|apply wp_current]. intros tr2 [|] _; [|done]. cbn [negb].
  apply wp_bindE. eapply wp_mono; [|apply wp_overlap]. intros tr3 [ca|e] _; [|done]. apply wp_bindE. eapply wp_mono; [|apply wp_pool].
  intros tr4 [l|e] Hl; [|done]. by destruct (name ==? "").
Qed.
End Trust.
(** A chain whose leaf has the name and leads to a nonempty set of authorities at an instant read from the clock. *)
Definition authorized (name : string) (peer : option (list Certificate)) (tr : otrace) : Prop :=
  exists leaf intermediates roots t, peer = Some (leaf :: intermediates) /\ ce_CommonName leaf = name /\ trusted roots /\
    Act (Remote Now) t ∈ tr /\ Verify t leaf roots intermediates = true.
Definition handler_guard (name : string) (peer : option (list Certificate)) (tr : otrace) (X : Type) (e : os X) : Prop :=
  match e with Remote (Caller _ _) => authorized name peer tr | _ => True end.
(** A call of the manager reaches its handler only when the chain of its transport leads, under the expected name, to a nonempty set of
    certificate authorities at an instant of this very call. *)
Theorem manager_handler_authorized directory name peer what pre :
  emits (ManagerAuthorization pem_decode ParseCertificate X509KeyPair Verify directory name peer (call (Remote (Caller what None)))) []
    pre _ (Remote (Caller what None)) ->
  authorized name peer pre.
Proof.
  intros He. refine (wp_emits (handler_guard name peer) (fun _ _ => True) _ _ _ _ _ _ He).
  assert (Hg : forall tr X (e : os X), match e with Remote (Caller _ _) => True | _ => handler_guard name peer tr X e end)
    by (intros tr X e; destruct e as [X e| | | | | | | | | | | | | | | | | | |]; try done; by destruct e).
  unfold ManagerAuthorization. apply wp_bind. eapply wp_mono; [|by apply wp_manager]. intros tr [current|e] Hc; [|done].
  destruct peer as [[|leaf inter]|]; try done. unfold VerifyClient. destruct (ce_CommonName leaf !=? name) eqn:En; [done|].
  apply negb_false_iff, bool_decide_eq_true in En. apply wp_bind, wp_bind, wp_now; [done|]. intros t tr' Ht.
  destruct (Verify t leaf _ inter) eqn:Ev; [|done]. split; [|done]. exists leaf, inter, (mt_ClientCAs current), t. done.
Qed.

(** Everything a capture reads from its projected volume comes from the one generation that it resolved: specification,
    repository credentials, replication key and trust are never mixed from two rotations. *)
Theorem snapshot_one_generation directory pre p limit :
  emits (LoadCaptureSnapshot ParseDuration Parse Hostname IsDNS1123Subdomain IsConfigMapKey ParseQuantity into_resources pem_decode
           ParseCertificate X509KeyPair Verify directory) [] pre _ (Projected p limit) ->
  exists g q, p = within g q /\ pinned directory g pre.
Proof.
  intros He. refine (wp_emits (generation_guard directory) (fun _ _ => True) _ _ _ _ _ _ He). apply wp_projected. intros. apply from_capture.
Qed.
End Generation.
