(* ===== verification/NativeCapture.v ===== *)
(** * Captures (internal/postgres/capture.go, preflight.go, differential.go)

    [OpenCapture] reserves space and reads the state of the server, [capture] runs pg_basebackup, scans, verifies and spools
    what it wrote, and binds the commit to it; [Differential] does so from the manifest of a protected full.  gzip is a parameter
    with the chunks its writer produces; the monitor's rounds come from the environment and the model computes its verdict. *)

From S2P Require Import Prelude GoStrings GoTime Sha256 Errors Schema Json LooseJson Prog Store WalNames S3Config Repository Gate Publication RecoveryPlan.
From S2P Require Import Configuration Capacity NativePath NativeOps NativeArchive NativeManifest NativeText NativeBudget NativeInput NativeRestore ConfigSnapshot.

(** ** The query *)
Definition us_format : string := utc_format ".US".
Definition preflightSQL : string :=
  "SELECT json_build_object(" +:+
  nl "'version', current_setting('server_version_num')::int," +:+
  nl "'freeSenders', current_setting('max_wal_senders')::int - (SELECT count(*) FROM pg_stat_replication)," +:+
  nl "'freeSlots', current_setting('max_replication_slots')::int - (SELECT count(*) FROM pg_replication_slots)," +:+
  nl "'postmaster', to_char(pg_postmaster_start_time() AT TIME ZONE 'UTC'," +:+ us_format +:+ ")," +:+
  nl "'clock', to_char(clock_timestamp() AT TIME ZONE 'UTC'," +:+ us_format +:+ ")," +:+
  nl "'logTimezone', current_setting('log_timezone')," +:+
  nl "'configLoaded', to_char(pg_conf_load_time() AT TIME ZONE 'UTC'," +:+ us_format +:+ ")," +:+
  nl "'tablespaceOIDs', COALESCE((SELECT json_object_agg(spcname,oid::bigint) FROM pg_tablespace WHERE spcname NOT IN ('pg_default','pg_global')), '{}'::json)," +:+
  nl "'role', current_user, 'primary', NOT pg_is_in_recovery()," +:+
  nl "'blockSize', current_setting('block_size')::bigint," +:+
  nl "'segmentSize', pg_size_bytes(current_setting('segment_size'))," +:+
  nl "'fullPageWrites', current_setting('full_page_writes')," +:+
  nl "'walLevel', current_setting('wal_level'), 'summarizeWAL', current_setting('summarize_wal')," +:+
  nl "'summaryMinutes', (SELECT setting::bigint FROM pg_settings WHERE name='wal_summary_keep_time')," +:+
  nl "'archiveSeconds', (SELECT setting::bigint FROM pg_settings WHERE name='archive_timeout')," +:+
  nl "'archiveMode', current_setting('archive_mode')," +:+
  nl "'tablespaces', COALESCE((SELECT json_object_agg(spcname,pg_tablespace_location(oid)) FROM pg_tablespace" +:+
  nl "WHERE spcname NOT IN ('pg_default','pg_global')), '{}'::json));".
Definition psql_args (query : string) : list string := ["-X"; "-A"; "-t"; "--no-password"; "-v"; "ON_ERROR_STOP=1"; "-c"; query].
(** [command]: a tool under a deadline of 30 seconds; the deadline is one of the ways the call can fail. *)
Definition command (env : list string) (tool : string) (args : list string) : oprog (res string) := runTool env tool args.
Definition controlAt (directory : string) : oprog (res captureControl) :=
  let* b := command control_env "pg_controldata" [directory] in Ret (parseCaptureControl b).
Definition ReadControl : oprog (res Control) :=
  let* b := command control_env "pg_controldata" [liveData] in Ret (readControl b).

(** ** State *)
Record Capture := mkCapture {
  ca_Snapshot : CaptureSnapshot; ca_Connection : Connection; ca_Directory : string; ca_env : list string;
  ca_before : serverState; ca_control : captureControl; ca_budgets : list FilesystemBudget; ca_peak : Z }.
(** [Captured]: the commit and the open files, by their bytes. *)
Record Captured := mkCaptured { cp_Commit : Commit; cp_Manifest : string; cp_Files : list string }.
Definition ca_native (c : Capture) : Native := sp_Native (sn_Spec (cs_Repository (ca_Snapshot c))).
Definition ca_compression (c : Capture) : string := sp_Compression (sn_Spec (cs_Repository (ca_Snapshot c))).
Definition with_times (s : serverState) (postmaster clock : string) : serverState :=
  mkState (ss_Version s) (ss_Role s) (ss_Primary s) (ss_BlockSize s) (ss_SegmentSize s) (ss_FullPageWrites s) (ss_WALLevel s) (ss_SummarizeWAL s)
    (ss_SummaryMinutes s) (ss_ArchiveSeconds s) (ss_ArchiveMode s) (ss_Tablespaces s) (ss_TablespaceOIDs s) postmaster clock
    (ss_LogTimezone s) (ss_ConfigLoaded s) (ss_FreeSenders s) (ss_FreeSlots s).
Definition with_free (s : serverState) (senders slots : Z) : serverState :=
  mkState (ss_Version s) (ss_Role s) (ss_Primary s) (ss_BlockSize s) (ss_SegmentSize s) (ss_FullPageWrites s) (ss_WALLevel s) (ss_SummarizeWAL s)
    (ss_SummaryMinutes s) (ss_ArchiveSeconds s) (ss_ArchiveMode s) (ss_Tablespaces s) (ss_TablespaceOIDs s) (ss_Postmaster s) (ss_Clock s)
    (ss_LogTimezone s) (ss_ConfigLoaded s) senders slots.
Definition with_primary (s : serverState) : serverState :=
  mkState (ss_Version s) (ss_Role s) true (ss_BlockSize s) (ss_SegmentSize s) (ss_FullPageWrites s) (ss_WALLevel s) (ss_SummarizeWAL s)
    (ss_SummaryMinutes s) (ss_ArchiveSeconds s) (ss_ArchiveMode s) (ss_Tablespaces s) (ss_TablespaceOIDs s) (ss_Postmaster s) (ss_Clock s)
    (ss_LogTimezone s) (ss_ConfigLoaded s) (ss_FreeSenders s) (ss_FreeSlots s).
Definition entries_in {A} (m : option (gmap string A)) : Z := Z.of_nat (size (default ∅ m)).
Definition Identity_of (c : Capture) (repositoryID clusterUID : string) : Identity :=
  mkIdentity 1 repositoryID 18 (cc_System (ca_control c)) (cc_Segment (ca_control c)) clusterUID "".

(** The monitor of a capture: the sizes of the private directory at every tick. *)
Record usage := mkUsage { us_used : Z; us_raw : Z; us_wal : Z; us_spools : Z; us_count : Z }.
Definition relative (directory p : string) : string := TrimPrefix p (directory +:+ "/").
Definition usage_step (directory : string) (u : usage) (e : option walk_entry) : res usage :=
  match e with
  | None => Err ErrOther
  | Some e =>
      let count := us_count u + 1 in
      if maxEntries + 1000 <? count then Err ErrInput else
      match we_kind e with
      | FLink | FOther => Err ErrInput
      | FDir => Ok (mkUsage (us_used u) (us_raw u) (us_wal u) (us_spools u) count)
      | FRegular =>
          let n := we_size e in
          let rel := relative directory (we_path e) in
          Ok (mkUsage (us_used u + n) (if HasPrefix rel "tar/" then us_raw u + n else us_raw u) (if rel ==? "tar/pg_wal.tar" then n else us_wal u)
                (if HasPrefix rel "spool-" then us_spools u + n else us_spools u) count)
      end
  end.
Definition monitor_tick (c : Capture) (w : list (option walk_entry) * option Statfs) : res () :=
  let n := ca_native c in
  match forM w.1 (mkUsage 0 0 0 0 0) (usage_step (ca_Directory c)), w.2 with
  | Ok u, Some st =>
      if (ca_peak c <? us_used u) || (n_MaxBackupBytes n <? us_raw u) || (n_MaxBootstrapWALBytes n <? us_wal u) || (spool_bound (n_MaxBackupBytes n) <? us_spools u)
         || (sf_Bsize st <=? 0) || (sf_Bavail st <? Z.quot GiB (sf_Bsize st)) then Err ErrOther else Ok ()
  | _, _ => Err ErrOther
  end.
Definition monitor (c : Capture) (rounds : list (round (list (option walk_entry) * option Statfs))) : res () := verdict (monitor_tick c) rounds.

Section Capture.
Context (gunzip : string -> option (string * string)) (untar : Z -> string -> Tar) (range : list string -> list string)
  (ParseDuration : string -> option Z) (chunks : bool -> string -> list string).

(** ** Connection *)
Definition service_conf (directory host : string) : string :=
  foldr (fun line s => line +:+ String newline s) EmptyString
    ["[local]"; "host=" +:+ host; "hostaddr=127.0.0.1"; "port=5432"; "user=streaming_replica"; "dbname=postgres"; "sslmode=verify-full";
     "connect_timeout=10"; "sslcert=" +:+ directory +:+ "/client.crt"; "sslkey=" +:+ directory +:+ "/client.key";
     "sslrootcert=" +:+ directory +:+ "/server-ca.crt"].
Definition private_member (s : CaptureSnapshot) (name : string) : string :=
  if name ==? "client.crt" then cs_Certificate s else if name ==? "client.key" then cs_Key s else cs_ServerCA s.
Definition prepareConnection (directory host : string) (s : CaptureSnapshot) (application : string) : oprog (res (list string)) :=
  visit_all (range ["client.crt"; "client.key"; "server-ca.crt"]) () (fun _ name => fs (WriteTo (within directory name) (private_member s name))) ;;*
  fs (WriteTo (within directory "service.conf") (service_conf directory host)) ;;*
  done ["LANG=C"; "LC_ALL=C"; "HOME=/nonexistent"; "PGSERVICE=local"; "PGSERVICEFILE=" +:+ within directory "service.conf";
        "PGPASSFILE=/nonexistent"; "PGOPTIONS=-c search_path=pg_catalog -c statement_timeout=30000"; "PGAPPNAME=" +:+ application].

(** ** The server *)
Definition read_state (env : list string) (conn : Connection) (n : Native) : oprog (res serverState) :=
  let* b := command env "psql" (psql_args preflightSQL) in
  match @Unmarshal serverState _ b with
  | None => fail ErrInput
  | Some s =>
      match validateState ParseDuration s conn n with
      | Err e => fail e
      | Ok _ =>
          match parse_time (ss_Postmaster s), parse_time (ss_Clock s) with
          | Some pm, Some now =>
              if Before now pm || (entries_in (ss_TablespaceOIDs s) !=? entries_in (ss_Tablespaces s)) then fail ErrInput
              else done (with_times s (format_rfc3339nano pm) (format_rfc3339nano now))
          | _, _ => fail ErrInput
          end
      end
  end.
Definition state (c : Capture) : oprog (res serverState) := read_state (ca_env c) (ca_Connection c) (ca_native c).
(** The state with the clock and the free senders and slots of the first one. *)
Definition steady (before s : serverState) : serverState :=
  with_free (with_times s (ss_Postmaster s) (ss_Clock before)) (ss_FreeSenders before) (ss_FreeSlots before).
Definition Postflight (c : Capture) : oprog (res string) :=
  let* s := state c in
  if steady (ca_before c) s !=? ca_before c then fail ErrOther else
  let! control := controlAt liveData in
  match control with
  | Err _ => fail ErrOther
  | Ok control =>
      if control !=? ca_control c then fail ErrOther else
      let before := default zero_time (parse_time (ss_Clock (ca_before c))) in
      let after := default zero_time (parse_time (ss_Clock s)) in
      if Before after before then fail ErrOther else done (ss_Clock s)
  end.

(** ** Spools *)
Record cappedWriter := mkCapped { cw_written : string; cw_left : Z }.
Definition capped_Write (w : cappedWriter) (p : string) : option cappedWriter :=
  if cw_left w <? len p then None else Some (mkCapped (cw_written w +:+ p) (cw_left w - len p)).
(** The writes of a copy: all of them, or those before the first one over the cap. *)
Fixpoint write_chunks (w : cappedWriter) (l : list string) : cappedWriter * bool :=
  match l with
  | [] => (w, true)
  | p :: l => match capped_Write w p with Some w => write_chunks w l | None => (w, false) end
  end.
(** [spool]: [chunks true] are the writes gzip makes of the raw bytes, [chunks false] those of a plain copy. *)
Definition spool_body (f raw_path raw compression : string) (cap : Z) : oprog (res (string * Artifact)) :=
  if (compression !=? "gzip") && (compression !=? "none") then fail ErrInput else
  let '(w, whole) := write_chunks (mkCapped "" cap) (chunks (compression ==? "gzip") raw) in
  pass raw_path ;;*
  fs (WriteTo f (cw_written w)) ;;*
  if negb whole then fail ErrInput else
  fs (SyncFile f) ;;*
  done (cw_written w, mkArtifact 0 "" None compression (cap - cw_left w) (len raw) (digest (cw_written w)) (digest raw)).
Definition spool (raw_path raw dir compression : string) (cap : Z) : oprog (res (string * Artifact)) :=
  let* f := call (CreateTemp dir "spool-") in
  let! r := spool_body f raw_path raw compression cap in
  match r with
  | Err e => let! _ := fs (CloseFile f) in let! _ := fs (RemoveFile f) in fail e
  | Ok r => done r
  end.

(** ** Stages of a capture *)
Definition tar_dir (c : Capture) : string := within (ca_Directory c) "tar".
Definition wal_dir (c : Capture) : string := within (ca_Directory c) "walcheck".
Definition meta_dir (c : Capture) : string := within (ca_Directory c) "metadata".
Definition eligible (c : Capture) (root : Commit) (podUID clock : string) : res () :=
  eligibleFullAt ParseDuration (ca_native c) (ca_control c) (ss_Postmaster (ca_before c)) root podUID clock.
Definition basebackup_args (c : Capture) : list string :=
  ["--no-password"; "--pgdata=" +:+ tar_dir c; "--format=tar"; "--wal-method=stream"; "--checkpoint=spread"; "--manifest-checksums=SHA256"].
(** The clocks around pg_basebackup. *)
Definition run_basebackup (c : Capture) (podUID : string) (reference : option (Commit * string)) : oprog (res (string * string)) :=
  let* began := Postflight c in
  let* args := match reference with
               | None => done (basebackup_args c)
               | Some (root, path) =>
                   match eligible c root podUID began with Err e => fail e | Ok _ => done (basebackup_args c ++ ["--incremental=" +:+ path]) end
               end in
  runTool (ca_env c) "pg_basebackup" args ;;*
  let* stopped := Postflight c in
  done (began, stopped).
Definition read_manifest (c : Capture) : oprog (res (string * NativeManifest * WALRange)) :=
  let p := within (tar_dir c) "backup_manifest" in
  let* bytes := open_file p in
  stat_ok p ;;*
  if MaxManifestBytes <? len bytes then fail ErrInput else
  stat_ok p ;;*
  match ScanManifest bytes with
  | Err _ => fail ErrInput
  | Ok m =>
      if FormatUint (nm_SystemIdentifier m) !=? cc_System (ca_control c) then fail ErrInput else
      match nm_Ranges m with
      | [] => fail Panic
      | r0 :: _ => if wr_Timeline r0 !=? cc_Timeline (ca_control c) then fail ErrInput else done (bytes, m, r0)
      end
  end.
(** The commit as far as it is known: label, map, start and artifacts are filled in at the end. *)
Definition draft (c : Capture) (podUID : string) (reference : option Commit) (m : NativeManifest) (r0 : WALRange) (stopped : string)
    (manifest hash : string) (tables : list Tablespace) (label map started : string) (artifacts : list Artifact) : Commit :=
  mkCommit 1 "" "" "" "" (match reference with Some _ => "differential" | None => "full" end) (c_BackupUID <$> reference)
    (match reference with Some root => c_BackupUID root | None => "" end) (cc_System (ca_control c)) 18 "18.6" (cc_Timeline (ca_control c))
    (cc_Checksum (ca_control c)) podUID (ss_Postmaster (ca_before c)) started stopped (wr_StartLSN r0) (wr_EndLSN r0) (wr_StartLSN r0)
    (wr_StartLSN r0) (wr_EndLSN r0) (nm_Ranges m) label map (c_ManifestSHA256 <$> reference) (len manifest) hash (Some tables) artifacts.
Definition capture_tables (c : Capture) : res (list Tablespace) :=
  let oids := default ∅ (ss_TablespaceOIDs (ca_before c)) in
  let tables := map (fun name => mkTablespace (default 0 (oids !! name)) name) (range (map fst (map_to_list oids))) in
  if existsb (fun t => ts_OID t =? 0) tables then Err ErrInput else Ok (sort_slice (fun a b => ts_OID a <? ts_OID b) tables).
Definition archive_names (tables : list Tablespace) : list string :=
  ["base.tar"; "pg_wal.tar"] ++ map (fun t => FormatUint (ts_OID t) +:+ ".tar") tables.
Definition check_directory (c : Capture) (names : list string) : oprog (res ()) :=
  let! entries := call (ReadDir (tar_dir c)) in
  match entries with
  | Err _ => fail ErrInput
  | Ok entries =>
      if (length entries !=? S (length names)) || existsb (fun e => e.2 !=? FRegular) entries then fail ErrInput else done ()
  end.
Definition make_directories (c : Capture) : oprog (res ()) :=
  let! e := call (Fs (Mkdir (wal_dir c))) in
  if e !=? None then fail ErrInput else
  let! e := call (Fs (Mkdir (meta_dir c))) in
  if e !=? None then fail ErrInput else
  root_of (wal_dir c) ;;* root_of (meta_dir c).

(** ** The scan *)
Definition capture_path (i : nat) (name p : string) : string :=
  if (2 <=? i)%nat then "pg_tblspc/" +:+ TrimSuffix name ".tar" +:+ "/" +:+ p else p.
Definition capture_visit (c : Capture) (i : nat) (name : string) (actual : gmap string Z) (p : string) (n : Z) (content : string) : oprog (res (gmap string Z)) :=
  if (i =? 1)%nat then
    if (p ==? "archive_status") || HasPrefix p "archive_status/" then
      if negb (n =? 0) || negb (HasSuffix p ".done") then fail ErrInput else done actual
    else if negb (ValidWALFilename p) || Contains p "/" || negb (len p =? 24) || negb (n =? cc_Segment (ca_control c)) then fail ErrInput
    else copyMember (wal_dir c) p n content ;;* done actual
  else
    let full := capture_path i name p in
    if bool_decide (is_Some (actual !! full)) then fail ErrInput else
    let actual := <[full := n]> actual in
    if (i =? 0)%nat && (sanctioned p || (p ==? "global/pg_control")) then
      if 64 * 1024 <? n then fail ErrInput else copyMember (meta_dir c) p n content ;;* done actual
    else done actual.
Record capture_acc := mkCaptureAcc { sa_total : Z; sa_entries : Z; sa_actual : gmap string Z }.
Definition capture_archive (c : Capture) (acc : capture_acc) (i_name : nat * string) : oprog (res capture_acc) :=
  let '(i, name) := i_name in
  let p := within (tar_dir c) name in
  let* bytes := open_file p in
  pass p ;;*
  let total := sa_total acc + len bytes in
  if (n_MaxBackupBytes (ca_native c) <? total) || ((i =? 1)%nat && (n_MaxBootstrapWALBytes (ca_native c) <? len bytes)) then fail ErrInput else
  let* (inv, actual) := scan_file_tar untar range p bytes (len bytes) (capture_visit c i name) (sa_actual acc) in
  let entries := sa_entries acc + inv_entries inv in
  if maxEntries <? entries then fail ErrInput else done (mkCaptureAcc total entries actual).
(** The files of the archives and of the manifest agree, but for the two files the manifest never lists. *)
Definition manifest_agrees (files actual : gmap string Z) : bool :=
  forallb (fun kv => sanctioned kv.1 || bool_decide (files !! kv.1 = Some kv.2)) (map_to_list actual) &&
  forallb (fun kv => bool_decide (actual !! kv.1 = Some kv.2)) (map_to_list files).

(** ** Label, map and control *)
Definition read_label (c : Capture) (cm : string -> Commit) (began stopped : string) : oprog (res (string * string)) :=
  let p := within (meta_dir c) "backup_label" in
  let* label := open_file p in
  match parseLabel (cm label) (cc_Segment (ca_control c)) with
  | Err e => fail e
  | Ok labelTime =>
      match labelTimeQuery labelTime began stopped (ss_LogTimezone (ca_before c)) (ss_ConfigLoaded (ca_before c)) with
      | Err e => fail e
      | Ok query =>
          let* output := command (ca_env c) "psql" (psql_args query) in
          match normalizedLabelTime output began stopped with Err e => fail e | Ok started => done (label, started) end
      end
  end.
Definition read_map (c : Capture) (tables : list Tablespace) : oprog (res string) :=
  let! b := call (Open (within (meta_dir c) "tablespace_map")) in
  match tables, b with
  | _ :: _, Err _ => fail ErrOther
  | _ :: _, Ok b => match validateTablespaceMap b tables (ca_Connection c) with Err e => fail e | Ok _ => done b end
  | [], Err IsNotExist => done ""
  | [], Err _ => fail ErrInput
  | [], Ok b => if b !=? "" then fail ErrInput else done ""
  end.
Definition check_control (c : Capture) : oprog (res ()) :=
  let! captured := controlAt (meta_dir c) in
  match captured with
  | Ok control => if control !=? ca_control c then fail ErrOther else done ()
  | Err _ => fail ErrOther
  end.
Definition VerifyWAL (directory : string) (ranges : list WALRange) : oprog (res ()) := verifyRestoreWAL control_env directory ranges.

(** ** Artifacts *)
Definition labelled (i : nat) (tables : list Tablespace) (a : Artifact) : Artifact :=
  mkArtifact (Z.of_nat i) (if (i =? 1)%nat then "wal" else if (2 <=? i)%nat then "tablespace" else "base")
    (if (2 <=? i)%nat then ts_OID <$> tables !! (i - 2)%nat else None)
    (ar_Compression a) (ar_StoredBytes a) (ar_RawBytes a) (ar_StoredSHA256 a) (ar_RawSHA256 a).
Definition spool_archive (c : Capture) (tables : list Tablespace) (acc : list (string * Artifact)) (i_name : nat * string) : oprog (res (list (string * Artifact))) :=
  let '(i, name) := i_name in
  let p := within (tar_dir c) name in
  let* raw := open_file p in
  let* (stored, a) := spool p raw (ca_Directory c) (ca_compression c) (spool_bound (n_MaxBackupBytes (ca_native c))) in
  done (acc ++ [(stored, labelled i tables a)]).
Definition stored_total (l : list (string * Artifact)) : Z := foldl (fun n fa => n + ar_StoredBytes fa.2) 0 l.

(** ** The whole capture *)
Definition capture_body (c : Capture) (podUID : string) (reference : option (Commit * string)) : oprog (res Captured) :=
  let* (began, stopped) := run_basebackup c podUID reference in
  let* (manifest, m, r0) := read_manifest c in
  let* hash := fileHash (within (tar_dir c) "backup_manifest") manifest in
  match capture_tables c with
  | Err e => fail e
  | Ok tables =>
      let cm := draft c podUID (fst <$> reference) m r0 stopped manifest hash tables in
      let names := archive_names tables in
      check_directory c names ;;*
      make_directories c ;;*
      let* acc := visit_all (imap pair names) (mkCaptureAcc (len manifest) 0 ∅) (capture_archive c) in
      if negb (manifest_agrees (nm_Files m) (sa_actual acc)) then fail ErrInput else
      let* (label, started) := read_label c (fun label => cm label "" "" []) began stopped in
      let* tablemap := read_map c tables in
      check_control c ;;*
      runTool (ca_env c) "pg_verifybackup" ["--exit-on-error"; "--no-parse-wal"; tar_dir c] ;;*
      VerifyWAL (wal_dir c) (nm_Ranges m) ;;*
      let* files := visit_all (imap pair names) [] (spool_archive c tables) in
      if spool_bound (n_MaxBackupBytes (ca_native c)) <? stored_total files then fail ErrInput else
      Postflight c ;;*
      done (mkCaptured (cm label tablemap started (map snd files)) manifest (map fst files))
  end.
(** [capture]: the monitor is joined when the body is over, and its verdict replaces a success. *)
Definition capture (c : Capture) (podUID : string) (reference : option (Commit * string)) : oprog (res Captured) :=
  let! result := capture_body c podUID reference in
  let! rounds := call CaptureRounds in
  Ret (match result, monitor c rounds with Ok _, Err e => Err e | _, _ => result end).
Definition Full (c : Capture) (podUID : string) : oprog (res Captured) := capture c podUID None.
Definition EligibleFull (c : Capture) (root : Commit) (podUID : string) : res () := eligible c root podUID (ss_Clock (ca_before c)).
Definition Differential (r : Repository) (c : Capture) (podUID : string) (hold : Hold) (root : Commit) : oprog (res Captured) :=
  match EligibleFull c root podUID with
  | Err e => fail e
  | Ok _ =>
      let p := within (ca_Directory c) "reference_manifest" in
      fs (CreateExcl p) ;;*
      let* bytes := remote (DownloadInput gunzip r hold (c_BackupUID root) (-1)) in
      fs (WriteTo p bytes) ;;*
      let* hash := fileHash p bytes in
      stat_ok p ;;*
      if (len bytes !=? c_ManifestBytes root) || (hash !=? c_ManifestSHA256 root) then fail ErrInput else
      call (Setup "seek") ;;*
      stat_ok p ;;*
      match ScanManifest bytes with
      | Err _ => fail ErrInput
      | Ok m =>
          if (FormatUint (nm_SystemIdentifier m) !=? c_SystemIdentifier root) ||
             (nm_Ranges m !=? [mkWALRange (c_Timeline root) (c_StartLSN root) (c_StopLSN root)]) then fail ErrInput else
          fs (SyncFile p) ;;*
          capture c podUID (Some (root, p))
      end
  end.
End Capture.
