(* ===== verification/NativePreflight.v ===== *)
(** * Before a capture (internal/postgres/capture.go, preflight.go, workspace.go)

    [OpenCapture] reserves the space of a capture and reads the first state of the server; [checkFromRoot] and [CheckWAL] are the
    read-only checks of archiving; [acquireWorkspaceAt] takes the private workspace of the sidecar. *)

From S2P Require Import Prelude GoStrings GoTime Errors Schema Json LooseJson Prog Store WalNames S3Keys S3Config Repository RecoveryPlan.
From S2P Require Import Configuration Capacity NativePath NativeOps NativeArchive NativeManifest NativeText NativeBudget NativeInput NativeRestore NativeSafety.
From S2P Require Import ConfigSnapshot NativeCapture.

(** ** The workspace *)
(** Permission bits 0077 and 0700. *)
Definition private_file (st : stat_info) : bool := (si_kind st ==? FRegular) && (Z.land (si_perm st) 0x3f =? 0).
Definition claim_owner (directory pod : string) : oprog (res ()) :=
  let owner := within directory "native.owner" in
  let! native := call (Stat (within directory "native")) in
  match native with
  | Err IsNotExist =>
      fs (CreateExcl owner) ;;*
      let! e := (fs (WriteTo owner (pod +:+ String newline "")) ;;* fs (SyncFile owner)) in
      let! _ := fs (CloseFile owner) in
      Ret e
  | _ => fail ErrInput
  end.
(** The first 130 bytes of the owner file; reading an empty file is an error. *)
Definition check_owner (directory pod bytes : string) : oprog (res ()) :=
  let owner := within directory "native.owner" in
  let! st := call (Stat owner) in
  match st with
  | Ok st => if (bytes ==? "") || negb (private_file st) || (String.substring 0 130 bytes !=? pod +:+ String newline "") then fail ErrInput else done ()
  | Err _ => fail ErrInput
  end.
Definition acquireWorkspaceAt (directory pod : string) : oprog (res ()) :=
  if (pod ==? "") || (128 <? len pod) then fail ErrInput else
  root_of directory ;;*
  let lock := within directory "native.lock" in
  call (Setup ("open " +:+ lock)) ;;*
  let! st := call (Stat lock) in
  match st with
  | Err _ => fail ErrInput
  | Ok st =>
      if negb (private_file st) || negb (si_nlink st =? 1) || negb (si_owned st) then fail ErrInput else
      call (Setup ("flock " +:+ lock)) ;;*
      let! owner := call (Open (within directory "native.owner")) in
      match owner with
      | Err IsNotExist => claim_owner directory pod
      | Err _ => fail ErrOther
      | Ok bytes => check_owner directory pod bytes
      end ;;*
      let native := within directory "native" in
      let! st := call (Stat native) in
      let usable := match st with Ok st => (si_kind st ==? FDir) && (si_perm st =? 0x1c0) | Err k => k ==? IsNotExist end in
      if negb usable then fail ErrInput else
      fs (RemoveAll native) ;;*
      fs (Mkdir native) ;;*
      fs (SyncDir directory)
  end.

Section Preflight.
Context (untar : Z -> string -> Tar) (range : list string -> list string).
Context (ParseDuration : string -> option Z) (Parse : string -> option URL) (Hostname : URL -> string)
  (IsDNS1123Subdomain IsConfigMapKey : string -> bool) (ParseQuantity : string -> option Z)
  (into_resources : Resources -> json -> option Resources)
  (pem_decode : string -> option (string * string * string)) (ParseCertificate : string -> option Certificate)
  (X509KeyPair : string -> string -> option (list string))
  (Verify : Time -> Certificate -> list Certificate -> list Certificate -> bool).
Let load := LoadCaptureSnapshotFromRoot ParseDuration Parse Hostname IsDNS1123Subdomain IsConfigMapKey ParseQuantity into_resources pem_decode
  ParseCertificate X509KeyPair Verify.

(** ** Opening a capture *)
Definition walVolume : string := "/var/lib/postgresql/wal".
Definition decode_budgets (data : string) : option (list FilesystemBudget) := elements_of <$> @StrictJSON (slice_of FilesystemBudget) _ data.
Definition has_mount (budgets : list FilesystemBudget) (mount : string) : bool := existsb (fun b => fb_Mount b ==? mount) budgets.
Definition required (budgets : list FilesystemBudget) (need : FilesystemBudget -> Z) : list FilesystemBudget :=
  map (fun b => mkBudget (fb_Mount b) (fb_LimitBytes b) (need b)) budgets.
(** The peak of the native work, a readback spool for the publication and six WAL spools. *)
Definition capture_peak (n : Native) (segment : Z) : res Z :=
  let? peak := CaptureCapacity n in
  Ok (peak + spool_bound (n_MaxBackupBytes n) + 6 * (segment + 2 ^ 20) + 16 * 2 ^ 20).
Definition wal_path (budgets : list FilesystemBudget) : string :=
  if has_mount budgets walVolume then walVolume +:+ "/pg_wal" else liveData +:+ "/pg_wal".
Definition check_links (failure : error) (paths : list string) : oprog (res ()) :=
  visit_all paths () (fun _ p => let! actual := call (EvalSymlinks p) in if actual !=? Some p then fail failure else done ()).
Definition check_layout (failure : error) (wal : string) (paths : list string) : oprog (res ()) :=
  let! actual := call (EvalSymlinks (liveData +:+ "/pg_wal")) in
  if actual !=? Some wal then fail failure else check_links failure paths.
Definition capture_tools : list string := ["pg_basebackup"; "pg_verifybackup"; "pg_waldump"; "pg_controldata"; "psql"].
Definition tool_version (env : list string) (tool : string) : oprog (res ()) :=
  let! b := command env tool ["--version"] in
  match b with Ok b => if nativeVersion b tool then done () else fail ErrOther | Err _ => fail ErrOther end.
Definition archiving (s : serverState) : bool := (ss_ArchiveMode s ==? "on") || (ss_ArchiveMode s ==? "always").
(** The part of [OpenCapture] whose failure removes the directory again. *)
Definition open_server (s : CaptureSnapshot) (conn : Connection) (control : captureControl) (directory : string) : oprog (res (list string * serverState)) :=
  let* env := prepareConnection range directory (cn_Host conn) s "cnpg-backup" in
  visit_all capture_tools () (fun _ tool => tool_version env tool) ;;*
  let* before := read_state ParseDuration env conn (sp_Native (sn_Spec (cs_Repository s))) in
  if negb (archiving before) then fail ErrOther else
  if (ss_FreeSenders before <? 2) || (ss_FreeSlots before <? 1) then fail ErrOther else
  let! after := controlAt liveData in
  match after with
  | Ok after => if after !=? control then fail ErrOther else done (env, before)
  | Err _ => fail ErrOther
  end.
Definition OpenCapture (root : string) : oprog (res Capture) :=
  let* s := load root in
  let n := sp_Native (sn_Spec (cs_Repository s)) in
  let* b := Read root "native/connection.json" (64 * 1024) in
  match decode_connection b with
  | None => fail ErrInput
  | Some conn =>
      let* b := Read root "capacity.json" (64 * 1024) in
      match decode_budgets b with
      | None => fail ErrInput
      | Some budgets =>
          let* control := controlAt liveData in
          match capture_peak n (cc_Segment control) with
          | Err e => fail e
          | Ok peak =>
              let wal := wal_path budgets in
              let reserved := required budgets (fun b => if fb_Mount b ==? workspace then peak else 0) in
              if negb (has_mount budgets workspace) then fail ErrInput else
              check_capacity reserved ;;*
              check_layout ErrInput wal ([liveData; wal] ++ range (map_values (default ∅ (cn_Tablespaces conn)))) ;;*
              let* directory := call (MkdirTemp NativeWorkspace "capture-") in
              let! opened := open_server s conn control directory in
              match opened with
              | Err e => let! _ := fs (RemoveAll directory) in fail e
              | Ok (env, before) => done (mkCapture s conn directory env before control reserved peak)
              end
          end
      end
  end.
(** [Close] removes the private directory. *)
Definition Capture_Close (c : Capture) : oprog () :=
  if ca_Directory c ==? "" then Ret () else let! _ := fs (RemoveAll (ca_Directory c)) in Ret ().

(** ** Read-only checks *)
Definition probe_server (wal : bool) (s : CaptureSnapshot) (conn : Connection) (directory : string) : oprog (res ()) :=
  let* env := prepareConnection range directory (cn_Host conn) s "cnpg-backup-preflight" in
  let* output := command env "psql" (psql_args preflightSQL) in
  match @Unmarshal serverState _ output with
  | None => fail ErrOther
  | Some st =>
      if wal && negb (archiving st) then fail ErrOther else
      let st := if wal then with_primary st else st in
      match validateState ParseDuration st conn (sp_Native (sn_Spec (cs_Repository s))) with
      | Err e => fail e
      | Ok _ =>
          let* output := command control_env "pg_controldata" [liveData] in
          Ret (validateControl (controlFields output))
      end
  end.
Definition checkFromRoot (workspaceLocked : bool) (root : string) (wal : bool) : oprog (res ()) :=
  let* s := load root in
  let* b := Read root "native/connection.json" (64 * 1024) in
  match decode_connection b with
  | None => fail ErrOther
  | Some conn =>
      let* b := Read root "capacity.json" (64 * 1024) in
      match decode_budgets b with
      | None => fail ErrOther
      | Some budgets =>
          let reserved := required budgets (fun b => if fb_Mount b ==? workspace then 2 ^ 20 else if wal then 0 else fb_RequiredBytes b) in
          if negb (has_mount budgets workspace) then fail ErrOther else
          check_capacity reserved ;;*
          check_layout ErrOther (wal_path budgets) ([liveData] ++ range (map_values (default ∅ (cn_Tablespaces conn)))) ;;*
          let* directory := call (MkdirTemp (if workspaceLocked then NativeWorkspace else workspace) "native-auth-") in
          let! r := probe_server wal s conn directory in
          let! _ := fs (RemoveAll directory) in
          Ret r
      end
  end.
Definition check_projection (workspaceLocked : bool) (projection : string) (wal : bool) : oprog (res ()) :=
  let* root := Projection projection in checkFromRoot workspaceLocked root wal.
Definition CheckWAL (workspaceLocked : bool) (root : string) : oprog (res Control) :=
  checkFromRoot workspaceLocked root true ;;* ReadControl.
End Preflight.

(** What must be known before the private tree is cleared: the lock is held, and the owner file, written now by a workspace without
    a tree or found private, names this Pod. *)
Definition owned_by (directory pod : string) (tr : otrace) : Prop :=
  Act (Setup ("flock " +:+ within directory "native.lock")) (Ok ()) ∈ tr /\
  ((Act (Fs (WriteTo (within directory "native.owner") (pod +:+ String newline ""))) None ∈ tr /\
    Act (Stat (within directory "native")) (Err IsNotExist) ∈ tr) \/
   exists bytes st, Act (Open (within directory "native.owner")) (Ok bytes) ∈ tr /\ Act (Stat (within directory "native.owner")) (Ok st) ∈ tr /\
     private_file st = true /\ String.substring 0 130 bytes = pod +:+ String newline "").
(** A sidecar clears the private tree of its workspace only while it holds the lock, and only when the owner file names its own Pod: it
    was just written in a workspace that had no tree, or it was found as a private regular file with exactly that content. *)
Theorem workspace_cleared_by_owner directory pod pre p :
  emits (acquireWorkspaceAt directory pod) [] pre _ (Fs (RemoveAll p)) ->
  p = within directory "native" /\ owned_by directory pod pre.
Proof.
  set (G := fun tr (X : Type) (e : os X) => match e with Fs (RemoveAll p) => p = within directory "native" /\ owned_by directory pod tr | _ => True end).
  intros He. refine (wp_emits G (fun _ _ => True) (acquireWorkspaceAt directory pod) [] pre _ _ _ He). unfold acquireWorkspaceAt.
  destruct ((pod ==? "") || _); [done|]. apply wp_bindE. split; [done|]. intros [[]|e]; [|done]. cbn [wp bind]. apply wp_bindE. split; [done|].
  intros [[]|e]; [|done]. cbn [wp bind]. apply wp_bind. split; [done|]. intros [st|k]; [|done]. cbn [wp bind].
  destruct (_ || negb (si_owned st)); [done|]. apply wp_bindE. split; [done|]. intros [[]|e]; [|done]. cbn [wp bind].
  set (tr0 := _ :: _). assert (Hl : Act (Setup ("flock " +:+ within directory "native.lock")) (Ok ()) ∈ tr0) by (by left). clearbody tr0.
  apply wp_bind. split; [done|]. intros owner. cbn [wp bind]. apply wp_bindE.
  eapply (wp_mono _ (fun tr' r => match r with Ok _ => owned_by directory pod tr' | Err _ => True end)).
  { intros tr' [[]|e] Ho; [|done]. split; [done|]. intros st2. cbn [wp bind]. destruct (negb _); [done|].
    apply wp_bindE. split; [split; [done|]|].
    - destruct Ho as [H1 H2]. split; [by right|]. destruct H2 as [[H2 H3]|(b & s2 & H2 & H3 & H4)]; [left; split; by right|].
      right. exists b, s2. split_and!; [by right|by right|apply H4|apply H4].
    - intros [k|]; cbn [wp bind]; [done|]. apply wp_bindE. split; [done|]. intros [k|]; cbn [wp bind]; [done|]. split; [done|]. by intros [k|]. }
  destruct owner as [bytes|[]]; try done.
  - unfold check_owner. apply wp_bind. split; [done|]. intros [st2|k]; [|done]. cbn [wp bind].
    destruct (_ || (String.substring 0 130 bytes !=? _)) eqn:E; [done|]. apply orb_false_iff in E as [E E2]. apply orb_false_iff in E as [_ E].
    apply negb_false_iff in E. apply negb_false_iff, bool_decide_eq_true in E2. split; [do 2 right; done|]. right. exists bytes, st2.
    split_and!; [right; by left|by left|done|done].
  - unfold claim_owner. apply wp_bind. split; [done|]. intros [s2|[]]; try done. cbn [wp bind]. apply wp_bindE. split; [done|].
    intros [k|]; cbn [wp bind]; [done|]. split; [done|]. intros [k|]; cbn [wp bind]; [by split|]. split; [done|]. intros [k|]; cbn [wp bind]; [by split|].
    split; [done|]. intros x. split; [do 6 right; done|]. left. split; [do 2 right; by left|do 4 right; by left].
Qed.

(** ** A workspace taken for the first time and again *)
Definition lock_stat : stat_info := mkStat FRegular 384 1 true.
Definition again_handler : Prog.handler (E := os) () := fun X e s =>
  match e in os X return X * () -> X * () with
  | Stat p => fun _ => ((if HasSuffix p "native" then Ok (mkStat FDir 448 2 true) else Ok lock_stat), s)
  | Open _ => fun _ => (Ok ("pod-1" +:+ String newline ""), s)
  | _ => fun d => d
  end (demo_local X e s).
Definition clearing (X : Type) (e : os X) : bool := match e with Fs (RemoveAll _) => true | _ => false end.
Lemma workspace_cleared_by_owner_witness :
  exists pre p, emits (acquireWorkspaceAt "/cnpg-backup/work" "pod-1") [] pre _ (Fs (RemoveAll p)) /\ owned_by "/cnpg-backup/work" "pod-1" pre.
Proof.
  destruct (run_emits again_handler clearing (acquireWorkspaceAt "/cnpg-backup/work" "pod-1") () []) as (pre & X & e & Hw & He);
    [reflexivity|vm_compute; reflexivity|].
  destruct e; try discriminate Hw. destruct op; try discriminate Hw. exists pre, p. split; [exact He|].
  exact (proj2 (workspace_cleared_by_owner _ _ _ _ He)).
Defined.
Example other_pod_refused : (run again_handler (acquireWorkspaceAt "/cnpg-backup/work" "pod-2") ()).1 = Err ErrInput.
Proof. vm_compute. reflexivity. Qed.
