(* ===== verification/NativeEvidence.v ===== *)
(** * What a finished capture rests on (internal/postgres/capture.go, differential.go)

    A capture that succeeds read the same server before pg_basebackup, right after it and after everything was verified; its commit
    describes the bytes that it read and spooled.  Nothing outside its private directory changes on the way. *)

From S2P Require Import Prelude GoStrings GoTime Sha256 Errors Schema Json LooseJson Prog ProgRules Store WalNames S3Config Repository Gate Publication RecoveryPlan Memory.
From S2P Require Import Configuration Capacity NativePath NativeOps NativeArchive NativeManifest NativeText NativeBudget NativeInput NativeRestore NativeSafety.
From S2P Require Import ConfigSnapshot NativeCapture.

(** ** What a program adds to the trace *)
Definition adds {A} (P : otrace -> A -> Prop) (p : oprog (res A)) : Prop :=
  forall tr, wp unguarded (fun tr' r => match r with Ok a => exists l, tr' = l ++ tr /\ P l a | Err _ => True end) p tr.
Lemma adds_bind {A B} (P : otrace -> A -> Prop) (R : otrace -> B -> Prop) (p : oprog (res A)) (f : A -> oprog (res B)) :
  adds P p -> (forall l a, P l a -> adds (fun l2 b => R (l2 ++ l) b) (f a)) -> adds R (bindE p f).
Proof.
  intros Hp Hf tr. apply wp_bindE. eapply wp_mono; [|apply Hp]. intros tr' [a|e]; [|done]. intros (l & -> & Ha).
  eapply wp_mono; [|apply (Hf l a Ha)]. intros tr2 [b|e]; [|done]. intros (l2 & -> & Hb). exists (l2 ++ l). by rewrite <- app_assoc.
Qed.
Lemma adds_done {A} (R : otrace -> A -> Prop) a : R [] a -> adds R (done a).
Proof. intros H tr. by exists []. Qed.
Lemma adds_fail {A} (R : otrace -> A -> Prop) e : adds R (fail e).
Proof. done. Qed.
Lemma adds_ret {A} (R : otrace -> A -> Prop) r : (forall a, r = Ok a -> R [] a) -> adds R (Ret r).
Proof. intros H tr. destruct r as [a|e]; [|done]. exists []. split; [done|by apply H]. Qed.
Lemma adds_ask {X B} (R : otrace -> B -> Prop) (e : os X) (f : X -> oprog (res B)) :
  (forall x, adds (fun l b => R (l ++ [Act e x]) b) (f x)) -> adds R (bind (call e) f).
Proof.
  intros H tr. split; [done|]. intros x. cbn [bind]. eapply wp_mono; [|apply (H x)]. intros tr' [b|er]; [|done]. intros (l & -> & Hb).
  exists (l ++ [Act e x]). by rewrite <- app_assoc.
Qed.
Lemma adds_call {X} (R : otrace -> X -> Prop) (e : os (res X)) : (forall x, R [Act e (Ok x)] x) -> adds R (call e).
Proof. intros H tr. split; [done|]. intros [x|er]; [|done]. by exists [Act e (Ok x)]. Qed.
Lemma adds_mono {A} (P R : otrace -> A -> Prop) p : (forall l a, P l a -> R l a) -> adds P p -> adds R p.
Proof. intros H Hp tr. eapply wp_mono; [|apply Hp]. intros tr' [a|e]; [|done]. intros (l & -> & Ha). eauto. Qed.
Lemma adds_any {A} (p : oprog (res A)) : adds (fun _ _ => True) p.
Proof.
  intros tr. enough (H : forall t, extends tr t -> wp unguarded (fun tr' _ => extends tr tr') p t).
  { eapply wp_mono; [|apply H, extends_refl]. intros tr' [a|e]; [|done]. intros [l ->]. by exists l. }
  induction p as [a|X e k IH]; intros t He; cbn; [done|]. split; [done|]. intros x. apply IH. eapply extends_trans; [exact He|apply extends_cons].
Qed.
Lemma adds_bind_any {A B} (R : otrace -> B -> Prop) (p : oprog (res A)) (f : A -> oprog (res B)) :
  (forall l a, adds (fun l2 b => R (l2 ++ l) b) (f a)) -> adds R (bindE p f).
Proof. intros H. eapply adds_bind; [apply adds_any|]. eauto. Qed.
Lemma adds_whatever {A B} (R : otrace -> B -> Prop) (p : oprog A) (f : A -> oprog (res B)) :
  (forall l a, adds (fun l2 b => R (l2 ++ l) b) (f a)) -> adds R (bind p f).
Proof.
  intros H. pose proof (adds_bind_any R (bind p (fun a => Ret (Ok a))) f H) as Hb. intros tr. specialize (Hb tr).
  assert (E : forall q : oprog A, wp unguarded (fun tr' r => match r with Ok b => exists l, tr' = l ++ tr /\ R l b | Err _ => True end)
    (bindE (Er := error) (bind q (fun a => Ret (Ok a))) f) tr -> wp unguarded (fun tr' r => match r with Ok b => exists l, tr' = l ++ tr /\ R l b | Err _ => True end) (bind q f) tr);
    [|by apply E].
  clear. generalize tr at 2 4. intros t q. revert t. induction q as [a|X e k IH]; intros t; cbn; [done|]. intros [_ Hk]. split; [done|]. intros x. apply IH, Hk.
Qed.
Lemma adds_visit {A B} (I : otrace -> B -> Prop) (l : list A) visit : forall pre acc,
  I pre acc -> (forall pre b x, x ∈ l -> I pre b -> adds (fun l2 b' => I (l2 ++ pre) b') (visit b x)) ->
  adds (fun l2 b => I (l2 ++ pre) b) (visit_all (Er := error) l acc visit).
Proof.
  induction l as [|x l IH]; intros pre acc HI Hs; cbn [visit_all]; [by apply adds_done|].
  eapply adds_bind; [apply Hs; [by left|exact HI]|]. intros l1 b Hb. cbn in Hb. eapply adds_mono; [|apply (IH (l1 ++ pre) b Hb)].
  - intros l2 b2 H2. cbn in H2 |- *. by rewrite <- app_assoc.
  - intros. apply Hs; [by right|done].
Qed.
Lemma adds_runs {A} (R : otrace -> A -> Prop) p tr a : adds R p -> runs p [] tr (Ok a) -> R tr a.
Proof.
  intros Hp Hr. pose proof (wp_runs _ _ _ _ _ _ (Hp []) Hr) as (l & -> & Hl). by rewrite app_nil_r.
Qed.

(** An action of one of the parts of a trace. *)
Ltac in_trace := rewrite ?elem_of_app, ?elem_of_cons; tauto.

(** ** The server observed *)
Section Evidence.
Context (untar : Z -> string -> Tar) (range : list string -> list string) (ParseDuration : string -> option Z) (chunks : bool -> string -> list string).

(** Within these actions the server reported the state of the start of the capture, at [clock], and its control file was the same. *)
Definition observed (c : Capture) (clock : string) (l : otrace) : Prop :=
  exists b s pm now b2,
    Act (Tool (ca_env c) "psql" (psql_args preflightSQL)) (Ok b) ∈ l /\ @Unmarshal serverState _ b = Some s /\
    parse_time (ss_Postmaster s) = Some pm /\ parse_time (ss_Clock s) = Some now /\ clock = format_rfc3339nano now /\
    validateState ParseDuration s (ca_Connection c) (ca_native c) = Ok () /\
    steady (ca_before c) (with_times s (format_rfc3339nano pm) clock) = ca_before c /\
    Act (Tool control_env "pg_controldata" [liveData]) (Ok b2) ∈ l /\ parseCaptureControl b2 = Ok (ca_control c).
Lemma adds_tool env tool args : adds (fun l out => l = [Act (Tool env tool args) (Ok out)]) (runTool env tool args).
Proof. unfold runTool. destruct (bool_decide _); [|apply adds_fail]. by apply adds_call. Qed.
Lemma adds_state env conn n :
  adds (fun l s => exists b s0 pm now, l = [Act (Tool env "psql" (psql_args preflightSQL)) (Ok b)] /\ @Unmarshal serverState _ b = Some s0 /\
      validateState ParseDuration s0 conn n = Ok () /\ parse_time (ss_Postmaster s0) = Some pm /\ parse_time (ss_Clock s0) = Some now /\
      s = with_times s0 (format_rfc3339nano pm) (format_rfc3339nano now))
    (read_state ParseDuration env conn n).
Proof.
  unfold read_state, command. eapply adds_bind; [apply adds_tool|]. intros l b ->. cbn beta. destruct (Unmarshal b) as [s0|] eqn:Eu; [|apply adds_fail].
  destruct (validateState _ _ _ _) as [[]|] eqn:Ev; [|apply adds_fail]. destruct (parse_time (ss_Postmaster s0)) as [pm|] eqn:Ep; [|apply adds_fail].
  destruct (parse_time (ss_Clock s0)) as [now|] eqn:Ec; [|apply adds_fail]. destruct (_ || _); [apply adds_fail|]. apply adds_done.
  by exists b, s0, pm, now.
Qed.
Lemma adds_control directory :
  adds (fun l c => exists b, l = [Act (Tool control_env "pg_controldata" [directory]) (Ok b)] /\ parseCaptureControl b = Ok c) (controlAt directory).
Proof. unfold controlAt, command. eapply adds_bind; [apply adds_tool|]. intros l b ->. apply adds_ret. intros c Hc. by exists b. Qed.
(** A fallible step whose error is replaced by another. *)
Lemma adds_replace {A B} (P : otrace -> A -> Prop) (R : otrace -> B -> Prop) (p : oprog (res A)) (f : A -> oprog (res B)) e :
  adds P p -> (forall l a, P l a -> adds (fun l2 b => R (l2 ++ l) b) (f a)) ->
  adds R (bind p (fun r => match r with Ok a => f a | Err _ => fail e end)).
Proof.
  intros Hp Hf tr. apply wp_bind. eapply wp_mono; [|apply Hp]. intros tr' [a|er]; [|done]. intros (l & -> & Ha).
  eapply wp_mono; [|apply (Hf l a Ha)]. intros tr2 [b|er]; [|done]. intros (l2 & -> & Hb). exists (l2 ++ l). by rewrite <- app_assoc.
Qed.
Lemma adds_Postflight c : adds (fun l clock => observed c clock l) (Postflight ParseDuration c).
Proof.
  unfold Postflight, state. eapply adds_bind; [apply adds_state|]. intros l s (b & s0 & pm & now & -> & Hu & Hv & Hp & Hn & ->). cbn beta.
  destruct (steady _ _ !=? _) eqn:Es; [apply adds_fail|]. apply negb_false_iff, bool_decide_eq_true in Es.
  eapply adds_replace; [apply adds_control|]. intros l2 control (b2 & -> & Hc). cbn beta.
  destruct (control !=? _) eqn:Ec; [apply adds_fail|]. apply negb_false_iff, bool_decide_eq_true in Ec as ->. cbv zeta.
  destruct (Before _ _); [apply adds_fail|]. apply adds_done. exists b, s0, pm, now, b2. cbn [app].
  split_and!; try done; [right; by left|by left].
Qed.

(** ** The base backup and its manifest *)
Definition incremental (reference : option (Commit * string)) : list string :=
  match reference with None => [] | Some (_, path) => ["--incremental=" +:+ path] end.
Definition taken (c : Capture) (podUID : string) (reference : option (Commit * string)) (began stopped : string) (l : otrace) : Prop :=
  exists l1 l3 out, l = l3 ++ [Act (Tool (ca_env c) "pg_basebackup" (basebackup_args c ++ incremental reference)) (Ok out)] ++ l1 /\
    observed c began l1 /\ observed c stopped l3 /\
    match reference with None => True | Some (root, _) => eligible ParseDuration c root podUID began = Ok () end.
Lemma adds_basebackup c podUID reference :
  adds (fun l bs => taken c podUID reference bs.1 bs.2 l) (run_basebackup ParseDuration c podUID reference).
Proof.
  unfold run_basebackup. eapply adds_bind; [apply adds_Postflight|]. intros l1 began Hb. cbn beta.
  eapply (adds_bind (fun l args => l = [] /\ args = basebackup_args c ++ incremental reference /\
    match reference with None => True | Some (root, _) => eligible ParseDuration c root podUID began = Ok () end)).
  - destruct reference as [[root path]|]; [destruct (eligible _ _ _ _ _) as [[]|] eqn:Ee; [|apply adds_fail]|]; apply adds_done.
    + done.
    + by rewrite app_nil_r.
  - intros l2 args (-> & -> & He). cbn beta. eapply adds_bind; [apply adds_tool|]. intros l3 out ->. cbn beta.
    eapply adds_bind; [apply adds_Postflight|]. intros l4 stopped Hs. apply adds_done. exists l1, l4, out. split_and!; [|done..]. cbn [app]. by rewrite <- !app_assoc.
Qed.
Lemma adds_open p : adds (fun l b => l = [Act (Open p) (Ok b)]) (open_file p).
Proof. unfold open_file. apply adds_ask. intros [b|k]; [|apply adds_fail]. by apply adds_done. Qed.
Lemma adds_manifest c :
  adds (fun l x => let '(bytes, m, r0) := x in Act (Open (within (tar_dir c) "backup_manifest")) (Ok bytes) ∈ l /\ ScanManifest bytes = Ok m /\
      FormatUint (nm_SystemIdentifier m) = cc_System (ca_control c) /\ head (nm_Ranges m) = Some r0 /\ wr_Timeline r0 = cc_Timeline (ca_control c))
    (read_manifest c).
Proof.
  unfold read_manifest. eapply adds_bind; [apply adds_open|]. intros l bytes ->. cbn beta. apply adds_bind_any. intros l2 _.
  destruct (_ <? _); [apply adds_fail|]. apply adds_bind_any. intros l3 _. destruct (ScanManifest bytes) as [m|] eqn:Em; [|apply adds_fail].
  destruct (_ !=? _) eqn:E1; [apply adds_fail|]. apply negb_false_iff, bool_decide_eq_true in E1.
  destruct (nm_Ranges m) as [|r0 rs] eqn:Er; [apply adds_fail|]. destruct (wr_Timeline r0 !=? _) eqn:E2; [apply adds_fail|].
  apply negb_false_iff, bool_decide_eq_true in E2. apply adds_done. split_and!; [in_trace|done|done|by rewrite ?Er|done].
Qed.

(** ** Spools *)
Definition joined (l : list string) : string := foldr String.append EmptyString l.
Lemma write_chunks_spec l : forall w w', write_chunks w l = (w', true) ->
  cw_written w' = cw_written w +:+ joined l /\ cw_left w' = cw_left w - len (joined l).
Proof.
  induction l as [|p l IH]; intros w w'; cbn [write_chunks joined foldr].
  - intros [= <-]. rewrite append_nil_r. split; [done|]. change (len EmptyString) with 0. lia.
  - unfold capped_Write. destruct (_ <? _); [done|]. intros H. destruct (IH _ _ H) as [-> ->]. cbn [cw_written cw_left].
    rewrite append_assoc. split; [done|]. unfold len. rewrite length_append. fold (joined l). lia.
Qed.
Definition spooled (c : Capture) (file : string) (a : Artifact) (l : otrace) : Prop :=
  exists raw, Act (Open (within (tar_dir c) (artifactName a))) (Ok raw) ∈ l /\ ar_RawBytes a = len raw /\ ar_RawSHA256 a = digest raw /\
    ar_StoredBytes a = len file /\ ar_StoredSHA256 a = digest file /\ ar_Compression a = ca_compression c /\
    file = joined (chunks (ca_compression c ==? "gzip") raw) /\ len file <= Z.max 0 (spool_bound (n_MaxBackupBytes (ca_native c))).
Lemma adds_fs op : adds (fun l _ => l = [Act (Fs op) None]) (fs op).
Proof. unfold fs. apply adds_ask. intros [k|]; [apply adds_fail|]. by apply adds_done. Qed.
Lemma write_chunks_fits l : forall w w' b, write_chunks w l = (w', b) -> Z.min 0 (cw_left w) <= cw_left w'.
Proof.
  induction l as [|p l IH]; intros w w' b; cbn [write_chunks]; [intros [= <- _]; lia|]. unfold capped_Write.
  destruct (cw_left w <? len p) eqn:E; [intros [= <- _]; lia|]. intros H%IH. cbn [cw_left] in H. apply Z.ltb_ge in E. lia.
Qed.
Lemma adds_spool p raw dir compression cap :
  adds (fun _ fa => fa.1 = joined (chunks (compression ==? "gzip") raw) /\ len fa.1 <= Z.max 0 cap /\
      fa.2 = mkArtifact 0 "" None compression (len fa.1) (len raw) (digest fa.1) (digest raw))
    (spool chunks p raw dir compression cap).
Proof.
  unfold spool. apply adds_bind_any. intros l f.
  assert (H : adds (fun _ fa => fa.1 = joined (chunks (compression ==? "gzip") raw) /\ len fa.1 <= Z.max 0 cap /\
    fa.2 = mkArtifact 0 "" None compression (len fa.1) (len raw) (digest fa.1) (digest raw)) (spool_body chunks f p raw compression cap)).
  { unfold spool_body. destruct (_ && _); [apply adds_fail|]. destruct (write_chunks _ _) as [w whole] eqn:Ew. do 2 (apply adds_bind_any; intros ? ?).
    destruct whole; [|apply adds_fail]. apply adds_bind_any. intros ? ?. apply adds_done. cbn [fst snd].
    pose proof (write_chunks_fits _ _ _ _ Ew) as Hf. cbn [cw_left] in Hf. apply write_chunks_spec in Ew as [E1 E2]. cbn [cw_written cw_left] in E1, E2.
    change (EmptyString +:+ joined (chunks (compression ==? "gzip") raw)) with (joined (chunks (compression ==? "gzip") raw)) in E1.
    split; [exact E1|]. rewrite E1, E2 in *. split; [lia|]. f_equal. lia. }
  intros tr. apply wp_bind. eapply wp_mono; [|apply H]. intros tr' [fa|e].
  - intros (l2 & -> & Hfa). by exists l2.
  - intros _. do 2 (apply wp_bind; eapply wp_mono; [|apply wp_any]; intros ? ? _). done.
Qed.
Lemma labelled_name tables i name a : archive_names tables !! i = Some name -> artifactName (labelled i tables a) = name.
Proof.
  destruct i as [|[|i]]; [by intros [= <-]|by intros [= <-]|]. intros H.
  assert (H2 : ((fun t => FormatUint (ts_OID t) +:+ ".tar") <$> tables) !! i = Some name) by exact H. rewrite list_lookup_fmap in H2.
  unfold labelled, artifactName. cbn [ar_Role ar_TablespaceOID]. replace (S (S i) - 2)%nat with i by lia.
  destruct (tables !! i) as [t|]; [|done]. by injection H2 as <-.
Qed.
Lemma spooled_mono c file a l l2 : spooled c file a l -> spooled c file a (l2 ++ l).
Proof. intros (raw & H & Hr). exists raw. split; [in_trace|exact Hr]. Qed.
Lemma adds_spool_archive c tables acc i name : archive_names tables !! i = Some name ->
  adds (fun l files => exists file a, files = acc ++ [(file, a)] /\ artifactName a = name /\ spooled c file a l) (spool_archive chunks c tables acc (i, name)).
Proof.
  intros Hi. unfold spool_archive. eapply adds_bind; [apply adds_open|]. intros l raw ->. cbn beta. eapply adds_bind; [apply adds_spool|].
  intros l2 [file a] (Hf & Hl & Ha). cbn [fst snd] in *. apply adds_done. exists file, (labelled i tables a).
  pose proof (labelled_name tables i name a Hi) as En. split; [done|]. split; [done|]. exists raw. rewrite En. subst a. split; [in_trace|]. done.
Qed.
Lemma adds_spool_all c tables : forall todo acc pre, (forall i name, (i, name) ∈ todo -> archive_names tables !! i = Some name) ->
  Forall (fun fa => spooled c fa.1 fa.2 pre) acc ->
  adds (fun l files => Forall (fun fa => spooled c fa.1 fa.2 (l ++ pre)) files /\
      map (fun fa => artifactName fa.2) files = map (fun fa => artifactName fa.2) acc ++ map snd todo)
    (visit_all todo acc (spool_archive chunks c tables)).
Proof.
  induction todo as [|[i name] todo IH]; intros acc pre Ht Hp; cbn [visit_all].
  - apply adds_done. split; [done|]. by rewrite app_nil_r.
  - eapply adds_bind; [apply adds_spool_archive, Ht; by left|]. intros l files (file & a & -> & Hn & Hs). cbn beta.
    eapply adds_mono; [|apply (IH (acc ++ [(file, a)]) (l ++ pre))].
    + intros l2 files [H1 H2]. rewrite <- app_assoc. split; [done|]. rewrite H2, map_app, <- app_assoc. cbn [map app snd]. by rewrite Hn.
    + intros j n Hj. apply Ht. by right.
    + apply Forall_app. split.
      * eapply Forall_impl; [exact Hp|]. intros fa. apply spooled_mono.
      * constructor; [|done]. destruct Hs as (raw & H & Hr). exists raw. split; [in_trace|exact Hr].
Qed.

(** ** Native verification *)
Definition native_checked (c : Capture) (ranges : list WALRange) (l : otrace) : Prop :=
  (exists out, Act (Tool control_env "pg_controldata" [meta_dir c]) (Ok out) ∈ l /\ parseCaptureControl out = Ok (ca_control c)) /\
  (exists out, Act (Tool (ca_env c) "pg_verifybackup" ["--exit-on-error"; "--no-parse-wal"; tar_dir c]) (Ok out) ∈ l) /\
  (exists w out, ranges = [w] /\
     Act (Tool control_env "pg_waldump" ["--quiet"; "--path=" +:+ wal_dir c; "--timeline=" +:+ FormatUint (wr_Timeline w);
       "--start=" +:+ wr_StartLSN w; "--end=" +:+ wr_EndLSN w]) (Ok out) ∈ l).
Lemma adds_check_control c :
  adds (fun l _ => exists out, Act (Tool control_env "pg_controldata" [meta_dir c]) (Ok out) ∈ l /\ parseCaptureControl out = Ok (ca_control c)) (check_control c).
Proof.
  unfold check_control. eapply adds_replace; [apply adds_control|]. intros l control (b & -> & Hc). cbn beta.
  destruct (control !=? _) eqn:E; [apply adds_fail|]. apply negb_false_iff, bool_decide_eq_true in E as ->. apply adds_done. exists b. split; [by left|done].
Qed.
Lemma adds_waldump dir ranges :
  adds (fun l _ => exists w out, ranges = [w] /\ Act (Tool control_env "pg_waldump" ["--quiet"; "--path=" +:+ dir; "--timeline=" +:+ FormatUint (wr_Timeline w);
       "--start=" +:+ wr_StartLSN w; "--end=" +:+ wr_EndLSN w]) (Ok out) ∈ l) (VerifyWAL dir ranges).
Proof.
  unfold VerifyWAL, verifyRestoreWAL. destruct ranges as [|w [|]]; try apply adds_fail. destruct (ParseLSN (wr_StartLSN w)), (ParseLSN (wr_EndLSN w)); try apply adds_fail.
  destruct (_ || _); [apply adds_fail|]. eapply adds_bind; [apply adds_tool|]. intros l out ->. apply adds_done. exists w, out. split; [done|by left].
Qed.
Lemma adds_label c cm began stopped :
  adds (fun l ls => Act (Open (within (meta_dir c) "backup_label")) (Ok ls.1) ∈ l /\ exists output, normalizedLabelTime output began stopped = Ok ls.2)
    (read_label c cm began stopped).
Proof.
  unfold read_label, command. eapply adds_bind; [apply adds_open|]. intros l label ->. cbn beta. destruct (parseLabel _ _) as [t|]; [|apply adds_fail].
  destruct (labelTimeQuery _ _ _ _ _) as [q|]; [|apply adds_fail]. apply adds_bind_any. intros l2 out. destruct (normalizedLabelTime _ _ _) as [st|] eqn:En; [|apply adds_fail].
  apply adds_done. split; [in_trace|by exists out].
Qed.

(** The commit is the one of the manifest that was read, of the server that was observed and of the files that were spooled. *)
Record bound_to (c : Capture) (podUID : string) (reference : option Commit) (began stopped : string) (cp : Captured) (l : otrace) : Prop := {
  bt_commit : exists m r0 tables label tmap started,
    cp_Commit cp = draft c podUID reference m r0 stopped (cp_Manifest cp) (digest (cp_Manifest cp)) tables label tmap started (c_Artifacts (cp_Commit cp)) /\
    ScanManifest (cp_Manifest cp) = Ok m /\ FormatUint (nm_SystemIdentifier m) = cc_System (ca_control c) /\ head (nm_Ranges m) = Some r0 /\
    wr_Timeline r0 = cc_Timeline (ca_control c) /\ capture_tables range c = Ok tables /\
    map artifactName (c_Artifacts (cp_Commit cp)) = archive_names tables /\ (exists output, normalizedLabelTime output began stopped = Ok started);
  bt_manifest : Act (Open (within (tar_dir c) "backup_manifest")) (Ok (cp_Manifest cp)) ∈ l;
  bt_native : native_checked c (c_WALRanges (cp_Commit cp)) l;
  bt_files : Forall2 (fun file a => spooled c file a l) (cp_Files cp) (c_Artifacts (cp_Commit cp)) }.
Definition evidence (c : Capture) (podUID : string) (reference : option (Commit * string)) (cp : Captured) (tr : otrace) : Prop :=
  exists began stopped final l1 l2 l3 rounds, tr = Act CaptureRounds rounds :: l3 ++ l2 ++ l1 /\
    taken c podUID reference began stopped l1 /\ bound_to c podUID (fst <$> reference) began stopped cp l2 /\ observed c final l3 /\ monitor c rounds = Ok ().

Lemma imap_pair_snd (l : list string) : map snd (imap pair l) = l.
Proof.
  assert (H : forall f : nat -> nat, map snd (imap (fun i x => (f i, x)) l) = l); [|apply (H id)].
  induction l as [|x l IH]; intros f; cbn; [done|]. f_equal. apply (IH (fun i => f (S i))).
Qed.
Lemma adds_body c podUID reference :
  adds (fun l cp => exists began stopped final l1 l2 l3, l = l3 ++ l2 ++ l1 /\ taken c podUID reference began stopped l1 /\
      bound_to c podUID (fst <$> reference) began stopped cp l2 /\ observed c final l3)
    (capture_body untar range ParseDuration chunks c podUID reference).
Proof.
  unfold capture_body. eapply adds_bind; [apply adds_basebackup|]. intros l1 [began stopped] Ht. cbn [fst snd] in Ht.
  eapply adds_bind; [apply adds_manifest|]. intros lm [[manifest m] r0] (Hm & Hs & Hid & Hr0 & Htl). cbn beta.
  eapply (adds_bind (fun _ hash => hash = digest manifest)); [unfold fileHash; apply adds_bind_any; intros; by apply adds_done|]. intros lh hash ->. cbn beta.
  destruct (capture_tables range c) as [tables|] eqn:Etab; [|apply adds_fail]. cbv zeta. apply adds_bind_any. intros ld [].
  apply adds_bind_any. intros lk []. apply adds_bind_any. intros la acc. destruct (negb _); [apply adds_fail|].
  eapply adds_bind; [apply adds_label|]. intros ll [label started] (Hl & Hst). cbn [fst snd] in Hl, Hst. apply adds_bind_any. intros lmap tmap.
  eapply adds_bind; [apply adds_check_control|]. intros lc [] (oc & Hc & Hcc). eapply adds_bind; [apply adds_tool|]. intros lv out ->.
  eapply adds_bind; [apply adds_waldump|]. intros lw [] (w & ow & Hw & Hwo).
  eapply adds_bind; [apply (adds_spool_all c tables _ [] []); [|constructor]|].
  { intros i name Hin. apply elem_of_lookup_imap in Hin as (j & x & [= -> ->] & Hj). exact Hj. }
  intros lf files (Hf & Hn). rewrite app_nil_r in Hf. cbn beta. destruct (_ <? _); [apply adds_fail|].
  eapply adds_bind; [apply adds_Postflight|]. intros lp final Hp. apply adds_done.
  set (lt := Act (Tool _ "pg_verifybackup" _) _).
  exists began, stopped, final, l1, (lf ++ lw ++ [lt] ++ lc ++ lmap ++ ll ++ la ++ lk ++ ld ++ lh ++ lm), lp.
  split; [rewrite <- !app_assoc; cbn [app]; rewrite <- ?app_assoc; reflexivity|]. split_and!; [done| |done]. split; cbn [cp_Commit cp_Manifest cp_Files draft c_Artifacts c_WALRanges].
  - exists m, r0, tables, label, tmap, started. split_and!; try done. rewrite map_map. cbn [app map] in Hn. rewrite Hn. apply imap_pair_snd.
  - in_trace.
  - split_and!; [exists oc; split; [in_trace|done]|exists out; unfold lt; in_trace|exists w, ow; split; [done|in_trace]].
  - apply Forall2_fmap, Forall_Forall2_diag. eapply Forall_impl; [exact Hf|]. intros fa (raw & Hr & Hx). exists raw. split; [in_trace|exact Hx].
Qed.
End Evidence.

(** C15: A capture that succeeds saw one and the same server, by its settings, tablespaces, postmaster start and control file, before
    pg_basebackup, right after it and after everything else; in between pg_verifybackup accepted the archives, pg_waldump the WAL range
    and pg_controldata the captured control file; and its commit describes the manifest it read and the files it spooled, each
    with the length and digest of its raw and stored bytes. *)
Theorem capture_verified untar range ParseDuration chunks c podUID reference tr cp :
  runs (capture untar range ParseDuration chunks c podUID reference) [] tr (Ok cp) ->
  evidence range ParseDuration chunks c podUID reference cp tr.
Proof.
  intros Hr. refine (wp_runs unguarded (fun tr r => match r with Ok cp => evidence range ParseDuration chunks c podUID reference cp tr | Err _ => True end) _ _ _ _ _ Hr).
  unfold capture. apply wp_bind. eapply wp_mono; [|apply (adds_body untar range ParseDuration chunks c podUID reference)].
  intros tr1 r H. split; [done|]. intros rounds. cbn [bind wp]. destruct r as [cp'|e]; [|done].
  destruct (monitor c rounds) as [[]|] eqn:Em; [|done]. destruct H as (l & -> & began & stopped & final & l1 & l2 & l3 & -> & H1 & H2 & H3).
  exists began, stopped, final, l1, l2, l3, rounds. by rewrite app_nil_r.
Qed.

(** ** The source is only read *)
Section Untouched.
Context (untar : Z -> string -> Tar) (range : list string -> list string) (ParseDuration : string -> option Z) (chunks : bool -> string -> list string) (c : Capture).
Definition private_guard (tr : otrace) (f : effect) : Prop :=
  match f with Changes op => private (ca_Directory c) tr (fsop_path op) | Combines _ => False end.
Lemma own_area tr : area private_guard (ca_Directory c) tr.
Proof. intros tr' _ op Hp. exact Hp. Qed.
Lemma sub_area name tr : no_dotdot name -> area private_guard (within (ca_Directory c) name) tr.
Proof. intros Hn. eapply area_inside; [apply inside_within, Hn|apply own_area]. Qed.
Lemma keeps_Postflight tr : keeps private_guard (Postflight ParseDuration c) tr.
Proof. unfold Postflight, state, read_state, controlAt, command. keeps_steps. Qed.
Lemma keeps_capture_archive acc i_name tr : keeps private_guard (capture_archive untar range c acc i_name) tr.
Proof.
  unfold capture_archive. destruct i_name as [i name]. keeps_step; [keeps_steps|]. keeps_step; [keeps_steps|]. keeps_step; [keeps_steps|].
  keeps_step; [|keeps_steps]. apply keeps_scan. intros tr2 s p n content He Hp. unfold capture_visit.
  keeps_steps; apply keeps_copyMember, sub_area; by repeat constructor.
Qed.
Lemma keeps_spool p raw compression cap tr : keeps private_guard (spool chunks p raw (ca_Directory c) compression cap) tr.
Proof.
  unfold spool. apply keeps_answer; [done|]. intros f. set (tr1 := _ :: tr).
  assert (Hf : forall tr2 op, extends tr1 tr2 -> fsop_path op = f -> private_guard tr2 (Changes op)).
  { intros tr2 op He Ho. right. exists (ca_Directory c), "spool-". split; [by left|]. rewrite Ho. eapply extends_elem; [exact He|by left]. }
  clearbody tr1. keeps_step.
  - unfold spool_body. destruct (_ && _); [apply keeps_ret|]. destruct (write_chunks _ _). keeps_steps; (apply Hf; [|done]); extend.
  - keeps_steps; (apply Hf; [|done]); extend.
Qed.
Lemma keeps_capture podUID reference tr : keeps private_guard (capture untar range ParseDuration chunks c podUID reference) tr.
Proof.
  unfold capture. keeps_step; [|keeps_steps]. unfold capture_body. keeps_step; [unfold run_basebackup; repeat first [apply keeps_Postflight|keeps_step]|].
  keeps_step. keeps_step; [unfold read_manifest; keeps_steps|]. do 2 keeps_step. keeps_step; [keeps_steps|].
  destruct (capture_tables range c); [|keeps_steps]. cbv zeta. keeps_step; [unfold check_directory; keeps_steps|].
  keeps_step; [unfold make_directories; keeps_steps; left; apply inside_within; by repeat constructor|].
  keeps_step; [apply keeps_visit; intros; apply keeps_capture_archive|]. keeps_step; [keeps_steps|].
  keeps_step; [unfold read_label, command; keeps_steps|]. keeps_step. keeps_step; [unfold read_map; keeps_steps|].
  keeps_step; [unfold check_control, controlAt, command; keeps_steps|]. keeps_step; [keeps_steps|].
  keeps_step; [unfold VerifyWAL, verifyRestoreWAL; keeps_steps|].
  keeps_step; [apply keeps_visit; intros tr2 b [i name] _ _; unfold spool_archive; keeps_step; [keeps_steps|]; keeps_step; [apply keeps_spool|keeps_steps]|].
  keeps_step; [keeps_steps|]. keeps_step; [apply keeps_Postflight|keeps_steps].
Qed.
End Untouched.

(** A capture changes nothing but files below its private directory, temporary files created there included: the data directory,
    the WAL and the tablespaces of the running server are only read. *)
Theorem capture_source_untouched untar range ParseDuration chunks c podUID reference pre X (e : os X) f :
  emits (capture untar range ParseDuration chunks c podUID reference) [] pre X e -> write_of e = Some f ->
  private_guard c pre f.
Proof. intros He. exact (wp_emits _ _ _ _ _ _ _ (keeps_capture untar range ParseDuration chunks c podUID reference []) He f). Qed.

(** ** The reference of a differential *)
(** pg_basebackup runs only with these arguments, and the repository is only read. *)
Definition basebackup_only (args0 : list string) (X : Type) (e : os X) : Prop :=
  match e with Tool _ tool args => tool = "pg_basebackup" -> args = args0 | Remote e => mutating e = false | _ => True end.
Section Reference.
Context (untar : Z -> string -> Tar) (range : list string -> list string)
  (ParseDuration : string -> option Z) (chunks : bool -> string -> list string) (c : Capture) (args0 : list string).
Lemma tool_only env tool args : (tool = "pg_basebackup" -> args = args0) -> calls (basebackup_only args0) (runTool env tool args).
Proof. intros H. unfold runTool. destruct (negb _); [apply calls_ret|]. by apply calls_call. Qed.
Ltac only_step := first [os_step|apply tool_only; done|unfold stat_ok, root_of, fileHash].
Lemma only_scan {S} p bytes limit (visit : visitor S) s :
  (forall s name n content, calls (basebackup_only args0) (visit s name n content)) -> calls (basebackup_only args0) (scan_file_tar untar range p bytes limit visit s).
Proof.
  intros Hv. unfold scan_file_tar, tape, scanArchive. os_step; [repeat only_step|]. os_step.
  - apply calls_visit. intros [st s1] h. unfold scan_header. repeat only_step; try apply Hv; by apply calls_call.
  - repeat only_step; by apply calls_call.
Qed.
Lemma only_Postflight : calls (basebackup_only args0) (Postflight ParseDuration c).
Proof. unfold Postflight, state, read_state, controlAt, command. repeat only_step. Qed.
Lemma only_copy root name n content : calls (basebackup_only args0) (copyMember root name n content).
Proof. unfold copyMember. repeat only_step. Qed.
Lemma only_basebackup podUID reference : args0 = basebackup_args c ++ incremental reference ->
  calls (basebackup_only args0) (run_basebackup ParseDuration c podUID reference).
Proof.
  intros Ha. unfold run_basebackup. os_step; [apply only_Postflight|]. destruct reference as [[root path]|].
  - destruct (eligible _ _ _ _ _); [|apply calls_ret]. cbn [bindE bind done]. os_step; [by apply tool_only|]. os_step; [apply only_Postflight|apply calls_ret].
  - cbn [bindE bind done]. os_step; [apply tool_only; by rewrite Ha, app_nil_r|]. os_step; [apply only_Postflight|apply calls_ret].
Qed.
Lemma only_capture podUID reference : args0 = basebackup_args c ++ incremental reference ->
  calls (basebackup_only args0) (capture untar range ParseDuration chunks c podUID reference).
Proof.
  intros Ha. unfold capture, capture_body. os_step; [|repeat only_step]. os_step; [by apply only_basebackup|]. os_step.
  os_step; [unfold read_manifest; repeat only_step|]. do 2 os_step. os_step; [repeat only_step|].
  destruct (capture_tables range c); [|apply calls_ret]. cbv zeta. os_step; [unfold check_directory; repeat only_step|].
  os_step; [unfold make_directories; repeat only_step|].
  os_step; [apply calls_visit; intros acc [i name]; unfold capture_archive; repeat first [apply only_scan; intros; unfold capture_visit; repeat first [apply only_copy|only_step]|only_step]|].
  os_step; [apply calls_ret|]. os_step; [unfold read_label, command; repeat only_step|]. os_step.
  os_step; [unfold read_map; repeat only_step|]. os_step; [unfold check_control, controlAt, command; repeat only_step|].
  os_step; [by apply tool_only|]. os_step; [unfold VerifyWAL, verifyRestoreWAL; repeat only_step|].
  os_step; [apply calls_visit; intros acc [i name]; unfold spool_archive, spool, spool_body; repeat only_step|].
  os_step; [apply calls_ret|]. os_step; [apply only_Postflight|apply calls_ret].
Qed.
End Reference.

(** The manifest of the root, byte for byte, lies at the path pg_basebackup is given. *)
Definition reference_ready (c : Capture) (root : Commit) (tr : otrace) : Prop :=
  exists bytes m, Act (Fs (WriteTo (within (ca_Directory c) "reference_manifest") bytes)) None ∈ tr /\
    len bytes = c_ManifestBytes root /\ digest bytes = c_ManifestSHA256 root /\ ScanManifest bytes = Ok m /\
    FormatUint (nm_SystemIdentifier m) = c_SystemIdentifier root /\ nm_Ranges m = [mkWALRange (c_Timeline root) (c_StartLSN root) (c_StopLSN root)].
Definition reference_guard (c : Capture) (root : Commit) (tr : otrace) (X : Type) (e : os X) : Prop :=
  match e with
  | Tool _ tool args => tool = "pg_basebackup" ->
      args = basebackup_args c ++ ["--incremental=" +:+ within (ca_Directory c) "reference_manifest"] /\ reference_ready c root tr
  | _ => True
  end.
Lemma wp_differential gunzip untar range ParseDuration chunks r c podUID hold root :
  wp (reference_guard c root) (fun _ _ => True) (Differential gunzip untar range ParseDuration chunks r c podUID hold root) [].
Proof.
  assert (Hremote : forall {A} (p : Store.prog A) tr (Q : otrace -> A -> Prop), (forall tr' a, Q tr' a) -> wp (reference_guard c root) Q (remote p) tr).
  { intros A p. induction p as [a|X e k IH]; intros tr Q HQ; cbn; [done|]. split; [done|]. intros x. by apply IH. }
  unfold Differential. destruct (EligibleFull _ _ _ _) as [[]|]; [|done]. apply wp_bindE. split; [done|]. intros [k|]; cbn [wp bind]; [done|].
  apply wp_bindE, Hremote. intros tr1 [bytes|e]; [|done]. apply wp_bindE. split; [done|]. intros [k|]; cbn [wp bind]; [done|].
  set (tr2 := _ :: tr1). assert (Hw : Act (Fs (WriteTo (within (ca_Directory c) "reference_manifest") bytes)) None ∈ tr2) by (by left). clearbody tr2.
  unfold fileHash, stat_ok, pass. do 2 apply wp_bindE. split; [done|]. intros [e|]; cbn [wp bind lift]; [done|].
  split; [done|]. intros [e|]; cbn [wp bind lift]; [done|]. destruct (_ || _) eqn:E1; [done|].
  apply orb_false_iff in E1 as [El Eh]. apply negb_false_iff, bool_decide_eq_true in El, Eh. apply wp_bindE. split; [done|]. intros [[]|e]; cbn [wp bind]; [|done].
  split; [done|]. intros [e|]; cbn [wp bind lift]; [done|]. destruct (ScanManifest bytes) as [m|] eqn:Em; [|done].
  destruct (_ || _) eqn:E2; [done|]. apply orb_false_iff in E2 as [Es Er]. apply negb_false_iff, bool_decide_eq_true in Es, Er.
  apply wp_bindE. split; [done|]. intros [k|]; cbn [wp bind]; [done|].
  set (args0 := basebackup_args c ++ incremental (Some (root, within (ca_Directory c) "reference_manifest"))).
  eapply wp_G_mono; [|apply (wp_invariant (basebackup_only args0) (fun tr => Act (Fs (WriteTo (within (ca_Directory c) "reference_manifest") bytes)) None ∈ tr));
    [intros; by right|do 5 right; exact Hw|by apply only_capture]].
  intros tr3 X e [Ho Hi]. destruct e; try done. intros Ht. split; [by apply Ho|]. by exists bytes, m.
Qed.
(** A differential is taken against the manifest of its full, byte for byte: pg_basebackup starts only with a file that
    was written with bytes of the committed length and digest, whose manifest names the same system and the range of the full. *)
Theorem differential_reference_exact gunzip untar range ParseDuration chunks r c podUID hold root pre env args :
  emits (Differential gunzip untar range ParseDuration chunks r c podUID hold root) [] pre _ (Tool env "pg_basebackup" args) ->
  args = basebackup_args c ++ ["--incremental=" +:+ within (ca_Directory c) "reference_manifest"] /\ reference_ready c root pre.
Proof. intros He. by apply (wp_emits _ _ _ _ _ _ _ (wp_differential gunzip untar range ParseDuration chunks r c podUID hold root) He). Qed.

(** ** Members the two scans treat differently *)
(** A timeline history beside the segments ends a capture. *)
Example history_member_refused c content n :
  capture_visit c 1 "pg_wal.tar" ∅ "00000002.history" n content = fail ErrInput.
Proof. reflexivity. Qed.
(** The marker of an archived history passes the capture and not the restore. *)
Example history_marker_diverges c segment :
  capture_visit c 1 "pg_wal.tar" ∅ "archive_status/00000002.history.done" 0 "" = done ∅ /\
  scan_visit "wal" "pg_wal.tar" segment ∅ "archive_status/00000002.history.done" 0 "" = fail ErrInput.
Proof. split; reflexivity. Qed.

(** ** A small capture *)
Definition member_of (k v : string) : string := quoted k +:+ ":" +:+ v.
Definition object_of (l : list string) : string := "{" +:+ join "," l +:+ "}".
Definition small_state (clock : string) : string := object_of
  [member_of "version" "180006"; member_of "role" (quoted "streaming_replica"); member_of "primary" "true"; member_of "blockSize" "8192";
   member_of "segmentSize" "1073741824"; member_of "fullPageWrites" (quoted "on"); member_of "walLevel" (quoted "replica");
   member_of "summarizeWAL" (quoted "on"); member_of "summaryMinutes" "20000"; member_of "archiveSeconds" "60";
   member_of "archiveMode" (quoted "on"); member_of "tablespaces" "{}"; member_of "tablespaceOIDs" "{}";
   member_of "postmaster" (quoted "2025-12-31T00:00:00.000000Z"); member_of "clock" (quoted clock);
   member_of "logTimezone" (quoted "UTC"); member_of "configLoaded" (quoted "2025-12-31T00:00:00.000000Z");
   member_of "freeSenders" "8"; member_of "freeSlots" "4"].
Definition small_control : string := lines
  ["pg_control version number:            1800"; "Catalog version number:               202506291";
   "Database system identifier:           7300000000000000001"; "Latest checkpoint's TimeLineID:       1";
   "Database block size:                  8192"; "Blocks per segment of large relation: 131072"; "WAL block size:                       8192";
   "Bytes per WAL segment:                16777216"; "Data page checksum version:           1"].
Definition small_clock : string := "2026-01-01T00:00:00.000000Z".
Definition small_duration (s : string) : option Z := if s ==? "192h" then Some (192 * hour_ns) else Some (6 * hour_ns).
Definition small_tool (tool : string) (args : list string) : res string :=
  if tool ==? "pg_controldata" then Ok small_control
  else if tool ==? "psql" then
    if bool_decide (preflightSQL ∈ args) then Ok (small_state small_clock)
    else Ok (object_of [member_of "matches" "1"; member_of "started" (quoted "2026-01-01T00:00:00Z")])
  else Ok "".
Definition small_capture : Capture :=
  mkCapture (mkCaptureSnapshot (mkSnapshot Defaults "key" "secret" "" "") "" "" "") (mkConnection "db-rw.ns.svc" (Some ∅))
    "/cnpg-backup/work/native/capture-1" ["PGSERVICE=local"]
    (with_times (default zero_state (@Unmarshal serverState _ (small_state small_clock))) "2025-12-31T00:00:00Z" "2026-01-01T00:00:00Z")
    (mkControl "7300000000000000001" (16 * 2 ^ 20) 1 1) [] (64 * GiB).
Definition capture_handler : Prog.handler (E := os) () := fun X e s =>
  match e in os X return X * () -> X * () with
  | Open p => fun _ => (small_files p, s)
  | Tool _ tool args => fun _ => (small_tool tool args, s)
  | ReadDir _ => fun _ => (Ok [("backup_manifest", FRegular); ("base.tar", FRegular); ("pg_wal.tar", FRegular)], s)
  | _ => fun d => d
  end (demo_local X e s).
Definition plain_chunks (gzip : bool) (raw : string) : list string := [raw].
Definition small_run : oprog (res Captured) := capture small_untar (fun l => l) small_duration plain_chunks small_capture "pod-1" None.
Lemma capture_verified_witness : exists tr cp, runs small_run [] tr (Ok cp) /\ evidence (fun l => l) small_duration plain_chunks small_capture "pod-1" None cp tr /\
  map artifactName (c_Artifacts (cp_Commit cp)) = ["base.tar"; "pg_wal.tar"].
Proof.
  assert (H : match (run capture_handler small_run ()).1 with Ok cp => map artifactName (c_Artifacts (cp_Commit cp)) = ["base.tar"; "pg_wal.tar"] | Err _ => False end)
    by (vm_compute; reflexivity).
  destruct ((run capture_handler small_run ()).1) as [cp|e] eqn:E; [|destruct H].
  pose proof (run_trace_runs capture_handler small_run () []) as Hr. rewrite E in Hr.
  exists (run_trace capture_handler small_run () []), cp. split; [exact Hr|]. split; [exact (capture_verified small_untar (fun l => l) small_duration plain_chunks small_capture "pod-1" None _ _ Hr)|exact H].
Defined.
Lemma capture_source_untouched_witness :
  exists pre X (e : os X) f, emits small_run [] pre X e /\ write_of e = Some f /\ private_guard small_capture pre f.
Proof.
  destruct (run_emits capture_handler writing small_run () []) as (pre & X & e & Hw & He); [reflexivity|vm_compute; reflexivity|].
  apply bool_decide_eq_true in Hw as [f Hf]. exists pre, X, e, f. split; [exact He|]. split; [exact Hf|].
  exact (capture_source_untouched small_untar (fun l => l) small_duration plain_chunks small_capture "pod-1" None _ _ _ _ He Hf).
Defined.
