(* ===== verification/CnpgCluster.v ===== *)
(** * Cluster definitions and recovery documents (internal/cnpgi/cluster.go, capacity.go, recovery_plan.go, wal.go)

    What the plugin reads from a CNPG Cluster, and the rules it checks before any callback touches a disk, a server or storage.
    The decoder of the Kubernetes object is a parameter: [unmarshal] gives the entries the plugin uses. *)

From S2P Require Import Prelude GoStrings GoTime Sha256 Errors Schema Json LooseJson Prog Store WalNames GuardConfig Repository RecoveryPlan Restore.
From S2P Require Import S3Config Configuration Capacity NativePath NativeManifest NativeText NativeBudget NativeRestore.

Definition PluginName : string := "cnpg-backup.djosh34.github.io".
Definition pgdataPath : string := "/var/lib/postgresql/data/pgdata".
Definition walPath : string := "/var/lib/postgresql/wal/pg_wal".
Definition projectionPath : string := "/cnpg-backup/projection".
Definition helperPlanPath : string := "/cnpg-backup/state/recovery.json".
Definition recoveryPlanLimit : Z := 16 * 2 ^ 20.
Definition DatabaseDigest : string := "sha256:de8dc8b70c7f26b6d353cc64b67d38037b9a94592ba8b789ca4d6f44762d6fa4".

Record Plugin := mkPlugin { pl_Name : string; pl_IsWALArchiver : bool; pl_Parameters : option (gmap string string) }.
(** [Bootstrap.Recovery]: the source and the target as decoded, a map from names to values. *)
Record Recovery := mkRecovery { rv_Source : string; rv_Target : option (gmap string json) }.
Record Certificates := mkCertificates { ct_Replication : string; ct_ServerCA : string; ct_ClientCA : string }.
Record ClusterSpec := mkClusterSpec {
  sc_ImageName : string; sc_StorageSize : string; sc_Parameters : option (gmap string string); sc_PostgresUID : Z; sc_PostgresGID : Z;
  sc_Plugins : list Plugin; sc_Replica : string; sc_WALStorage : string; sc_Tablespaces : list (string * string);
  sc_Recovery : option Recovery; sc_External : list (string * option Plugin); sc_Certificates : Certificates }.
Record Cluster := mkCluster {
  cl_APIVersion : string; cl_Kind : string; cl_Name : string; cl_Namespace : string; cl_UID : string;
  cl_Annotations : option (gmap string string); cl_Spec : ClusterSpec }.
#[export] Instance Plugin_eq_dec : EqDecision Plugin.
Proof. solve_decision. Defined.
#[export] Instance Certificates_eq_dec : EqDecision Certificates.
Proof. solve_decision. Defined.

Definition params (m : option (gmap string string)) (k : string) : string := at_opt m k.
Definition params_len (m : option (gmap string string)) : Z := Z.of_nat (size (default ∅ m)).
(** A raw message that is present and not null. *)
Definition present (raw : string) : bool := (0 <? len raw) && (raw !=? "null").

(** ** Tablespaces *)
Definition ident_start (c : ascii) : bool := in_range "A" "Z" c || in_range "a" "z" c || (c ==? "_"%char).
Definition ident_char (c : ascii) : bool := ident_start c || in_range "0" "9" c || (c ==? "$"%char).
Definition tablespace_name (s : string) : bool :=
  match s with String c t => ident_start c && (len t <=? 62) && all_chars ident_char t | EmptyString => false end.
Definition dashed (c : ascii) : ascii := if (c ==? "_"%char) || (c ==? "$"%char) then "-"%char else if in_range "A" "Z" c then ascii_of_nat (nat_of_ascii c + 32) else c.
Fixpoint map_chars (f : ascii -> ascii) (s : string) : string := match s with EmptyString => EmptyString | String c s => String (f c) (map_chars f s) end.
Definition tablespaceVolume (name : string) : string :=
  "tbs-" +:+ map_chars dashed (match name with String c t => if c ==? "_"%char then String "1" t else name | EmptyString => name end).
Definition tablespace_volume_step (seen : list string) (t : string * string) : res (list string) :=
  let name := tablespaceVolume t.1 in
  if negb (tablespace_name t.1) || bool_decide (name ∈ seen) then Err ErrOther else Ok (name :: seen).

(** ** Recovery targets *)
Definition kind_of (k : string) : string :=
  if k ==? "targetTime" then "time" else if k ==? "targetLSN" then "lsn" else if k ==? "targetName" then "name" else "xid".
Definition value_key (k : string) : bool := (k ==? "targetTime") || (k ==? "targetLSN") || (k ==? "targetName") || (k ==? "targetXID").
Definition target_field (t : Target) (kv : string * json) : res Target :=
  let '(k, v) := kv in
  if k ==? "exclusive" then
    match v with JBool b => Ok (mkTarget (tg_Kind t) (tg_Value t) b (tg_BackupUID t) (tg_Timeline t)) | _ => Err ErrInvalid end
  else if k ==? "backupID" then
    match v with
    | JText s => if s ==? "" then Err ErrInvalid else Ok (mkTarget (tg_Kind t) (tg_Value t) (tg_Exclusive t) (Some s) (tg_Timeline t))
    | _ => Err ErrInvalid
    end
  else if k ==? "targetTLI" then
    match v with
    | JText s =>
        match ParseUint s 10 32 with
        | Some n => if (n =? 0) || (FormatUint n !=? s) then Err ErrInvalid
                    else Ok (mkTarget (tg_Kind t) (tg_Value t) (tg_Exclusive t) (tg_BackupUID t) n)
        | None => Err ErrInvalid
        end
    | _ => Err ErrInvalid
    end
  else if value_key k then
    match v with
    | JText s => if (s ==? "") || (tg_Kind t !=? "latest") then Err ErrInvalid
                 else Ok (mkTarget (kind_of k) s (tg_Exclusive t) (tg_BackupUID t) (tg_Timeline t))
    | _ => Err ErrInvalid
    end
  else if k ==? "targetImmediate" then
    match v with
    | JBool true => if tg_Kind t !=? "latest" then Err ErrInvalid
                    else Ok (mkTarget "immediate" (tg_Value t) (tg_Exclusive t) (tg_BackupUID t) (tg_Timeline t))
    | JBool false => Ok t
    | _ => Err ErrInvalid
    end
  else Err ErrInvalid.
Definition timeline_or (t : Target) (n : Z) : Target :=
  if tg_Timeline t =? 0 then mkTarget (tg_Kind t) (tg_Value t) (tg_Exclusive t) (tg_BackupUID t) n else t.
(** [recoveryTarget] over the entries in the order Go ranges over them. *)
Definition target_of (entries : list (string * json)) : res Target :=
  let? t := forM entries (mkTarget "latest" "" false None 0) target_field in
  Target_validate (timeline_or t 1) ;;? Ok t.

(** ** Data of a recovery *)
#[export] Instance Target_eq_dec : EqDecision Target.
Proof. solve_decision. Defined.
Record RecoveryPlan := mkRecoveryPlan {
  rp_Plan : Plan; rp_Tuple : Tuple; rp_ClusterDefinition : string; rp_Bundled : gmap string Integrity; rp_Materialized : bool }.
Record RecoveryPlacement := mkRecoveryPlacement {
  rl_ClusterUID : string; rl_Namespace : string; rl_Cluster : string; rl_OperationID : string; rl_BootstrapSHA256 : string;
  rl_Source : string; rl_Destination : string; rl_SourceConfigSHA256 : string; rl_DestinationConfigSHA256 : string }.
#[export] Instance RecoveryPlacement_eq_dec : EqDecision RecoveryPlacement.
Proof. solve_decision. Defined.
Definition recoveryDirectory (operation : string) : string := "/var/lib/postgresql/data/.cnpg-backup/" +:+ operation.
(** [fmt.Sprintf] of the recovery settings: the only variable part is the timeline. *)
Definition restoreConfig (timeline : Z) : string :=
  "restore_command = 'exec /cnpg-backup/bin/cnpg-backup wal-fetch --plan /cnpg-backup/state/recovery.json -- " +:+ dq "%f" +:+ " " +:+ dq "%p" +:+ "'"
  +:+ String newline ("recovery_target_action = 'promote'" +:+ String newline ("recovery_target_timeline = '" +:+ FormatUint timeline +:+ "'" +:+ String newline "")).
(** [filepath.Base] *)
Fixpoint after_slash (s : string) : string :=
  match s with
  | EmptyString => EmptyString
  | String c t => let u := up_to_slash s in if u ==? "" then s else after_slash t
  end.
Fixpoint strip_slashes (s : string) : string :=
  match s with
  | EmptyString => EmptyString
  | String c t => let u := strip_slashes t in if (u ==? "") && (c ==? "/"%char) then EmptyString else String c u
  end.
Definition path_base (p : string) : string :=
  if p ==? "" then "." else let p := strip_slashes p in if p ==? "" then "/" else after_slash p.

Section Clusters.
Context (range : list string -> list string) (IsDNS1123Subdomain : string -> bool) (unmarshal : string -> option Cluster)
  (marshal : Cluster -> string) (ParseQuantity : string -> option Z) (wal_size : string -> option string).

Definition fields_of (m : option (gmap string json)) : list (string * json) :=
  let m := default ∅ m in
  foldr (fun k l => match m !! k with Some v => (k, v) :: l | None => l end) [] (range (map fst (map_to_list m))).
Definition recoveryTarget (entries : option (gmap string json)) : res Target := target_of (fields_of entries).

(** ** Definitions *)
Definition default_ids (s : ClusterSpec) : ClusterSpec :=
  mkClusterSpec (sc_ImageName s) (sc_StorageSize s) (sc_Parameters s) (if sc_PostgresUID s =? 0 then 26 else sc_PostgresUID s)
    (if sc_PostgresGID s =? 0 then 26 else sc_PostgresGID s) (sc_Plugins s) (sc_Replica s) (sc_WALStorage s) (sc_Tablespaces s) (sc_Recovery s)
    (sc_External s) (sc_Certificates s).
Definition ParseCluster (data : string) : res Cluster :=
  if 2 ^ 20 <? len data then Err ErrOther else
  match unmarshal data with
  | None => Err ErrOther
  | Some c =>
      if (cl_APIVersion c !=? "postgresql.cnpg.io/v1") || (cl_Kind c !=? "Cluster") || negb (IsDNS1123Subdomain (cl_Name c)) || (cl_Name c ==? "")
         || (cl_Namespace c ==? "") then Err ErrOther
      else Ok (mkCluster (cl_APIVersion c) (cl_Kind c) (cl_Name c) (cl_Namespace c) (cl_UID c) (cl_Annotations c) (default_ids (cl_Spec c)))
  end.
Definition setting_bad (p : option (gmap string string)) (k : string) (allowed : list string) : bool :=
  (params p k !=? "") && negb (bool_decide (params p k ∈ allowed)).
Definition plugin_step (destination : string) (p : Plugin) : res string :=
  if pl_Name p !=? PluginName then if pl_IsWALArchiver p then Err ErrOther else Ok destination else
  if (destination !=? "") || negb (params_len (pl_Parameters p) =? 1) || (params (pl_Parameters p) "repository" ==? "") then Err ErrOther
  else Ok (params (pl_Parameters p) "repository").
Definition external_step (wanted source : string) (e : string * option Plugin) : res string :=
  match e with
  | (name, Some p) =>
      if (name ==? wanted) && (pl_Name p ==? PluginName) then
        if (source !=? "") || negb (params_len (pl_Parameters p) =? 1) then Err ErrOther else Ok (params (pl_Parameters p) "repository")
      else Ok source
  | (_, None) => Ok source
  end.
Definition recovery_source (s : ClusterSpec) (destination : string) : res string :=
  match sc_Recovery s with
  | None => Ok ""
  | Some recovery =>
      let? source := forM (sc_External s) "" (external_step (rv_Source recovery)) in
      if (source ==? "") || (source ==? destination) then Err ErrOther else
      match recoveryTarget (rv_Target recovery) with Ok _ => Ok source | Err _ => Err ErrOther end
  end.
(** [Repositories]: the destination and, for a recovery, the source. *)
Definition Repositories (c : Cluster) : res (string * string) :=
  let s := cl_Spec c in
  if (sc_PostgresUID s <=? 0) || (sc_PostgresGID s <=? 0) || (64 <? Z.of_nat (length (sc_Tablespaces s))) || present (sc_Replica s) then Err ErrOther else
  if negb (HasSuffix (sc_ImageName s) ("@" +:+ DatabaseDigest)) then Err ErrOther else
  let? _ := forM (sc_Tablespaces s) [] tablespace_volume_step in
  if setting_bad (sc_Parameters s) "wal_level" ["replica"; "logical"] || setting_bad (sc_Parameters s) "full_page_writes" ["on"]
     || setting_bad (sc_Parameters s) "summarize_wal" ["on"] then Err ErrOther else
  let? destination := forM (sc_Plugins s) "" plugin_step in
  if destination ==? "" then Err ErrOther else
  let? source := recovery_source s destination in
  if negb (IsDNS1123Subdomain destination) || ((source !=? "") && negb (IsDNS1123Subdomain source)) then Err ErrOther else
  if params (cl_Annotations c) "cnpg.io/skipEmptyWalArchiveCheck" !=? "" then Err ErrOther else Ok (destination, source).

(** ** Identity of a recovery *)
(** [json.Marshal] of the bootstrap section: the members of a map in the order of their names. *)
Definition sorted_fields (m : gmap string json) : list (string * json) := sort_slice (fun a b => String.ltb a.1 b.1) (map_to_list m).
Definition bootstrap_json (r : option Recovery) : json :=
  match r with
  | None => JObject []
  | Some r => JObject [("recovery", JObject [("source", JText (rv_Source r));
      ("recoveryTarget", match rv_Target r with None => JNull | Some m => JObject (sorted_fields m) end)])]
  end.
Definition BootstrapFingerprint (c : Cluster) : string := digest (print (bootstrap_json (sc_Recovery (cl_Spec c)))).
Definition OperationUID (c : Cluster) : string := match RestoreOperationID (cl_UID c) (BootstrapFingerprint c) with Ok id => id | Err _ => "" end.
Definition ValidateBackup (target : string) (parameters : option (gmap string string)) : res () :=
  if (target !=? "primary") || negb (params_len parameters =? 1) || negb (bool_decide (params parameters "backupType" ∈ ["full"; "differential"]))
  then Err ErrOther else Ok ().

(** ** Declared limits *)
Definition placement_limit (path size : string) : res FilesystemBudget :=
  match ParseQuantity size with
  | None => Err ErrOther
  | Some q => if (q <? GiB) || (8192 * GiB <? q) then Err ErrOther else Ok (mkBudget path q 0)
  end.
Definition placementCapacity (c : Cluster) (s : Spec) : res (list FilesystemBudget) :=
  let? work := placement_limit workspace (ws_Size (sp_Workspace s)) in
  let? data := placement_limit "/var/lib/postgresql/data" (sc_StorageSize (cl_Spec c)) in
  let? wal := if present (sc_WALStorage (cl_Spec c)) then
                match wal_size (sc_WALStorage (cl_Spec c)) with
                | None => Err ErrOther
                | Some size => let? b := placement_limit "/var/lib/postgresql/wal" size in Ok [b]
                end
              else Ok [] in
  let? spaces := forM (sc_Tablespaces (cl_Spec c)) [] (fun l t =>
    let? b := placement_limit ("/var/lib/postgresql/tablespaces/" +:+ t.1) t.2 in Ok (l ++ [b])) in
  Ok ([work; data] ++ wal ++ spaces).
(** ** Paths of a callback *)
Definition physicalWAL (c : Cluster) : string := if present (sc_WALStorage (cl_Spec c)) then walPath else pgdataPath +:+ "/pg_wal".
Definition walBasename (path directory : string) : res string :=
  if negb (IsAbs path) || (path_clean path !=? path) then Err WalInvalid else
  if (path_dir path !=? pgdataPath +:+ "/pg_wal") && (path_dir path !=? directory) then Err WalInvalid else
  if (directory !=? pgdataPath +:+ "/pg_wal") && (directory !=? walPath) then Err WalInvalid else Ok (path_base path).
Definition validateWALPaths (definition path source : string) (restore : bool) : res () :=
  match ParseCluster definition with
  | Err _ => Err WalInvalid
  | Ok c =>
      match Repositories c with
      | Err _ => Err WalInvalid
      | Ok _ =>
          let? name := walBasename path (physicalWAL c) in
          let source := if restore then source else name in
          if negb (ValidWALFilename source) then Err WalInvalid else
          if restore && (name !=? source) && (name !=? "RECOVERYXLOG") && (name !=? "RECOVERYHISTORY") then Err WalInvalid else Ok ()
      end
  end.
Definition recoveryDestination (c : Cluster) (name destination : string) : res string :=
  if negb (ValidWALFilename name) then Err ErrInvalid else
  let destination := if HasPrefix destination "pg_wal/" then pgdataPath +:+ "/" +:+ destination else destination in
  validateWALPaths (marshal c) destination name true ;;? Ok (path_base destination).

(** ** The document of a recovery *)
(** The same Cluster without annotations, foreign plugins, settings and secrets. *)
Definition own_plugin (p : Plugin) : bool := pl_Name p ==? PluginName.
Definition own_source (recovery : option Recovery) (e : string * option Plugin) : bool :=
  match recovery, e.2 with Some r, Some p => (e.1 ==? rv_Source r) && own_plugin p | _, _ => false end.
Definition recoveryCluster (c : Cluster) : Cluster :=
  let s := cl_Spec c in
  mkCluster (cl_APIVersion c) (cl_Kind c) (cl_Name c) (cl_Namespace c) (cl_UID c) None
    (mkClusterSpec ("ghcr.io/cloudnative-pg/postgresql@" +:+ DatabaseDigest) (sc_StorageSize s) None (sc_PostgresUID s) (sc_PostgresGID s)
       (List.filter own_plugin (sc_Plugins s)) (sc_Replica s) (if present (sc_WALStorage s) then "{}" else sc_WALStorage s) (sc_Tablespaces s)
       (sc_Recovery s) (List.filter (own_source (sc_Recovery s)) (sc_External s)) (mkCertificates "" "" "")).
Definition with_timeline (t : Target) (n : Z) : Target := timeline_or t n.
Definition bundled_ok (p : Plan) (kv : string * Integrity) : bool :=
  is_ok (Coverage p kv.1) && (len kv.1 =? 24) && (ig_Size kv.2 =? id_WALSegmentBytes (p_Source p)) && hashRE (ig_SHA256 kv.2).
Definition RecoveryPlan_validate (p : RecoveryPlan) : res () :=
  let plan := rp_Plan p in
  if is_err (Plan_Validate plan) then Err ErrInvalid else
  let? c := ParseCluster (rp_ClusterDefinition p) in
  if marshal (recoveryCluster c) !=? rp_ClusterDefinition p then Err ErrInvalid else
  match Repositories c, sc_Recovery (cl_Spec c) with
  | Ok (dst, src), Some recovery =>
      if (dst ==? src) || (cl_UID c !=? p_TargetClusterUID plan) || (OperationUID c !=? p_OperationID plan)
         || (BootstrapFingerprint c !=? p_BootstrapSHA256 plan) then Err ErrIdentity else
      let? t := recoveryTarget (rv_Target recovery) in
      if with_timeline t (tg_Timeline (p_Target plan)) !=? p_Target plan then Err ErrIdentity else
      let owner := tu_Owner (rp_Tuple p) in
      if is_err (Tuple_Validate (rp_Tuple p)) || (ow_ClusterUID owner !=? p_TargetClusterUID plan)
         || (ow_OperationUID owner !=? p_OperationID plan) then Err ErrIdentity else
      if 262144 <? Z.of_nat (size (rp_Bundled p)) then Err ErrCapacity else
      if rp_Materialized p && (size (rp_Bundled p) =? 0)%nat then Err ErrCorrupt else
      if forallb (bundled_ok plan) (map_to_list (rp_Bundled p)) then Ok () else Err ErrCorrupt
  | _, _ => Err ErrIdentity
  end.
End Clusters.

(** ** The order of Go's maps does not matter *)
(** What one field does to the target. *)
Inductive target_effect := Exclusive (b : bool) | OfBackup (s : string) | OnTimeline (n : Z) | Towards (kind : string) (value : option string) | Nothing | Bad.
Definition effect_of (kv : string * json) : target_effect :=
  let '(k, v) := kv in
  if k ==? "exclusive" then match v with JBool b => Exclusive b | _ => Bad end
  else if k ==? "backupID" then match v with JText s => if s ==? "" then Bad else OfBackup s | _ => Bad end
  else if k ==? "targetTLI" then
    match v with
    | JText s => match ParseUint s 10 32 with Some n => if (n =? 0) || (FormatUint n !=? s) then Bad else OnTimeline n | None => Bad end
    | _ => Bad
    end
  else if value_key k then match v with JText s => if s ==? "" then Bad else Towards (kind_of k) (Some s) | _ => Bad end
  else if k ==? "targetImmediate" then match v with JBool true => Towards "immediate" None | JBool false => Nothing | _ => Bad end
  else Bad.
Definition apply_effect (t : Target) (e : target_effect) : res Target :=
  match e with
  | Exclusive b => Ok (mkTarget (tg_Kind t) (tg_Value t) b (tg_BackupUID t) (tg_Timeline t))
  | OfBackup s => Ok (mkTarget (tg_Kind t) (tg_Value t) (tg_Exclusive t) (Some s) (tg_Timeline t))
  | OnTimeline n => Ok (mkTarget (tg_Kind t) (tg_Value t) (tg_Exclusive t) (tg_BackupUID t) n)
  | Towards kind value => if tg_Kind t !=? "latest" then Err ErrInvalid
                          else Ok (mkTarget kind (default (tg_Value t) value) (tg_Exclusive t) (tg_BackupUID t) (tg_Timeline t))
  | Nothing => Ok t
  | Bad => Err ErrInvalid
  end.
Lemma field_effect t kv : target_field t kv = apply_effect t (effect_of kv).
Proof.
  destruct kv as [k v]. unfold target_field, effect_of. destruct (k ==? "exclusive"); [by destruct v|].
  destruct (k ==? "backupID"); [destruct v; try done; by destruct (s ==? "")|]. destruct (k ==? "targetTLI").
  { destruct v; try done. destruct (ParseUint s 10 32) as [n|]; [|done]. by destruct (_ || _). }
  destruct (value_key k); [destruct v; try done; by destruct (s ==? "")|]. destruct (k ==? "targetImmediate"); [|done].
  destruct v as [| [|] | | | |]; done.
Qed.
(** The fields of the same kind come from the same key; two targets are never reconciled. *)
Definition clash (a b : target_effect) : Prop :=
  match a, b with Exclusive _, Exclusive _ | OfBackup _, OfBackup _ | OnTimeline _, OnTimeline _ => True | _, _ => False end.
Lemma effects_clash a b : clash (effect_of a) (effect_of b) -> a.1 = b.1.
Proof.
  destruct a as [k v], b as [k' v']. unfold effect_of. cbn [fst].
  destruct (k ==? "exclusive") eqn:E1, (k' ==? "exclusive") eqn:E1'; [apply bool_decide_eq_true in E1, E1'; congruence|repeat case_match; done..|].
  destruct (k ==? "backupID") eqn:E2, (k' ==? "backupID") eqn:E2'; [apply bool_decide_eq_true in E2, E2'; congruence|repeat case_match; done..|].
  destruct (k ==? "targetTLI") eqn:E3, (k' ==? "targetTLI") eqn:E3'; [apply bool_decide_eq_true in E3, E3'; congruence|repeat case_match; done..].
Qed.
Definition towards (e : target_effect) : Prop := match e with Towards kind _ => kind <> "latest" | _ => True end.
Lemma effect_towards kv : towards (effect_of kv).
Proof.
  destruct kv as [k v]. unfold effect_of, kind_of. repeat case_match; subst; try done.
Qed.
Lemma apply_swap t a b : ~ clash a b -> towards a -> towards b ->
  (let? t := apply_effect t a in apply_effect t b) = (let? t := apply_effect t b in apply_effect t a).
Proof.
  assert (H : forall k : string, k <> "latest" -> (k !=? "latest") = true) by (intros k Hk; by rewrite bool_decide_eq_false_2).
  intros Hc Ha Hb. destruct a, b; cbn in *; try done; try (by destruct (tg_Kind t !=? "latest"));
    try (destruct (tg_Kind t !=? "latest"); cbn; [done|]; by rewrite ?H by done).
Qed.
Lemma forM_swap t a b l : a.1 <> b.1 -> forM (a :: b :: l) t target_field = forM (b :: a :: l) t target_field.
Proof.
  intros Hne. cbn [forM]. rewrite !field_effect. pose proof (apply_swap t (effect_of a) (effect_of b)) as H.
  assert (Hc : ~ clash (effect_of a) (effect_of b)) by (intros Hc; by apply Hne, effects_clash).
  specialize (H Hc (effect_towards a) (effect_towards b)).
  destruct (apply_effect t (effect_of a)) as [ta|ea], (apply_effect t (effect_of b)) as [tb|eb]; cbn [res_bind] in *; rewrite ?field_effect; rewrite ?H; try done;
    by rewrite <- ?H.
Qed.
Lemma forM_perm l l' : l ≡ₚ l' -> NoDup l.*1 -> forall t, forM l t target_field = forM l' t target_field.
Proof.
  induction 1 as [|x l l' _ IH|x y l|l1 l2 l3 H1 IH1 _ IH2]; intros Hn t; [done| | |].
  - cbn [forM]. apply NoDup_cons in Hn as [_ Hn]. destruct (target_field t x); [|done]. cbn. by apply IH.
  - apply forM_swap. intros E. cbn in Hn. rewrite E in Hn. apply NoDup_cons in Hn as [Hn _]. apply Hn. by left.
  - rewrite IH1 by done. apply IH2. by rewrite <- H1.
Qed.
(** The recovery target does not depend on the order in which Go ranges over the fields of the Cluster. *)
Theorem recovery_target_deterministic range range' entries :
  (forall l, range l ≡ₚ l) -> (forall l, range' l ≡ₚ l) -> recoveryTarget range entries = recoveryTarget range' entries.
Proof.
  intros H1 H2. unfold recoveryTarget, target_of, fields_of. set (m := default ∅ entries).
  set (pick := fun k l => match m !! k with Some v => (k, v) :: l | None => l end).
  assert (Hp : forall l l' : list string, l ≡ₚ l' -> foldr pick [] l ≡ₚ foldr pick [] l').
  { intros l l' Hl. induction Hl as [|x l l' _ IH|x y l|l1 l2 l3 _ IH1 _ IH2]; cbn [foldr]; [done| | |by etrans].
    - unfold pick at 1 3. destruct (m !! x); [by constructor|done].
    - unfold pick at 1 2 4 5. destruct (m !! x), (m !! y); try done. apply Permutation_swap. }
  assert (Hk : forall l, (foldr pick [] l).*1 `sublist_of` l).
  { induction l as [|x l IH]; cbn [foldr]; [done|]. unfold pick at 1. destruct (m !! x); cbn; [by apply sublist_skip|by apply sublist_cons]. }
  rewrite (forM_perm (foldr pick [] (range (map fst (map_to_list m)))) (foldr pick [] (range' (map fst (map_to_list m))))); [done| |].
  - apply Hp. by rewrite H1, H2.
  - eapply sublist_NoDup; [|apply Hk]. rewrite H1. apply NoDup_fst_map_to_list.
Qed.

(** ** What the recovery document keeps *)
Lemma forM_filter {A B} (keep : A -> bool) (f : B -> A -> res B) l acc b :
  (forall acc x b, keep x = false -> f acc x = Ok b -> b = acc) ->
  forM l acc f = Ok b -> forM (List.filter keep l) acc f = Ok b.
Proof.
  intros Hf. revert acc. induction l as [|x l IH]; intros acc; cbn [forM List.filter]; [done|].
  intros H. apply res_bind_ok in H as (acc' & Hx & H). destruct (keep x) eqn:Ek; cbn [forM].
  - rewrite Hx. cbn [res_bind]. by apply IH.
  - rewrite <- (Hf _ _ _ Ek Hx). by apply IH.
Qed.
Lemma plugin_step_foreign acc p b : own_plugin p = false -> plugin_step acc p = Ok b -> b = acc.
Proof.
  unfold own_plugin, plugin_step. intros ->. cbn [negb]. destruct (pl_IsWALArchiver p); [done|]. by intros [= <-].
Qed.
Lemma external_step_foreign r acc e b : own_source (Some r) e = false -> external_step (rv_Source r) acc e = Ok b -> b = acc.
Proof.
  destruct e as [name [p|]]; cbn; unfold own_plugin; [|by intros _ [= <-]]. intros ->. by intros [= <-].
Qed.
(** The recovery document speaks for the same Cluster and tells nothing else.  When a Cluster is supported, the document written for the
    restore helper names the same repositories, fingerprint, operation and physical WAL directory, is its own document, and holds no
    annotation, no PostgreSQL setting, no name of a TLS secret, no plugin and no external cluster of anybody else. *)
Theorem recovery_cluster_faithful range dns c ds :
  Repositories range dns c = Ok ds ->
  let d := recoveryCluster c in
  Repositories range dns d = Ok ds /\ BootstrapFingerprint d = BootstrapFingerprint c /\ OperationUID d = OperationUID c
  /\ physicalWAL d = physicalWAL c /\ recoveryCluster d = d
  /\ cl_Annotations d = None /\ sc_Parameters (cl_Spec d) = None /\ sc_Certificates (cl_Spec d) = mkCertificates "" "" ""
  /\ Forall (fun p => pl_Name p = PluginName) (sc_Plugins (cl_Spec d))
  /\ Forall (fun e => exists p r, e.2 = Some p /\ pl_Name p = PluginName /\ sc_Recovery (cl_Spec c) = Some r /\ e.1 = rv_Source r) (sc_External (cl_Spec d)).
Proof.
  intros H. cbv zeta. split_and!; try done.
  - unfold Repositories in *. cbn [recoveryCluster cl_Spec sc_PostgresUID sc_PostgresGID sc_Tablespaces sc_Replica sc_ImageName sc_Parameters sc_Plugins cl_Annotations].
    destruct ((sc_PostgresUID (cl_Spec c) <=? 0) || _ || _ || _); [done|]. destruct (HasSuffix (sc_ImageName (cl_Spec c)) _); cbn [negb] in H; [|done].
    apply res_bind_ok in H as (spaces & Hs & H). destruct (_ || _ || _) in H; [done|]. apply res_bind_ok in H as (dst & Hd & H).
    destruct (dst ==? "") eqn:Ed; [done|]. apply res_bind_ok in H as (src & Hr & H). destruct (_ || _) eqn:En in H; [done|].
    destruct (params (cl_Annotations c) _ !=? ""); [done|].
    change (HasSuffix ("ghcr.io/cloudnative-pg/postgresql@" +:+ DatabaseDigest) ("@" +:+ DatabaseDigest)) with true. cbn [negb]. rewrite Hs. cbn [res_bind].
    change (setting_bad None "wal_level" ["replica"; "logical"] || setting_bad None "full_page_writes" ["on"] || setting_bad None "summarize_wal" ["on"]) with false.
    cbn iota. rewrite (forM_filter own_plugin _ _ _ _ plugin_step_foreign Hd). cbn [res_bind]. rewrite Ed.
    assert (recovery_source range (cl_Spec (recoveryCluster c)) dst = Ok src) as Hr'.
    { unfold recovery_source in *. cbn [recoveryCluster cl_Spec sc_Recovery sc_External]. destruct (sc_Recovery (cl_Spec c)) as [r|]; [|done].
      apply res_bind_ok in Hr as (s & Hs' & Hr). rewrite (forM_filter _ _ _ _ _ (external_step_foreign r) Hs'). exact Hr. }
    unfold recoveryCluster in Hr'. cbn [cl_Spec] in Hr'. rewrite Hr'. cbn [res_bind]. rewrite En. exact H.
  - unfold physicalWAL. cbn. destruct (present (sc_WALStorage (cl_Spec c))) eqn:E; [done|]. by rewrite E.
  - unfold recoveryCluster. cbn. f_equal. f_equal; [|by destruct (present (sc_WALStorage (cl_Spec c))) eqn:E; [|rewrite E]|].
    + induction (sc_Plugins (cl_Spec c)) as [|p l IH]; [done|]. cbn. destruct (own_plugin p) eqn:E; [|done]. cbn. by rewrite E, IH.
    + induction (sc_External (cl_Spec c)) as [|p l IH]; [done|]. cbn. destruct (own_source _ p) eqn:E; [|done]. cbn. by rewrite E, IH.
  - cbn. apply Forall_forall. intros p Hp. apply list_elem_of_In, filter_In in Hp as [_ Hp]. by apply bool_decide_eq_true in Hp.
  - cbn. apply Forall_forall. intros e He. apply list_elem_of_In, filter_In in He as [_ He]. unfold own_source in He.
    destruct (sc_Recovery (cl_Spec c)) as [r|]; [|done]. destruct (e.2) as [p|]; [|done]. apply andb_true_iff in He as [H1 H2].
    apply bool_decide_eq_true in H1, H2. by exists p, r.
Qed.
