(* ===== verification/CnpgOps.v ===== *)
(** * The environment of the plugin's callbacks (internal/cnpgi)

    A callback of the sidecar runs native operations, reads and writes the repository of its Cluster and, during a recovery, the repository
    it will own afterwards.  It shares bounded slots with the other callbacks, the recovery admission with the guard, and the recovery
    service's fields with the other recovery callbacks.  [cn] lists these calls; as everywhere, nothing is assumed of the answers. *)

From S2P Require Import ProgRules.
From S2P Require Import Prelude GoStrings GoTime Sha256 Errors Schema Json LooseJson Prog Store WalNames GuardConfig Gate Repository RecoveryPlan WalArchive.
From S2P Require Import S3Config Configuration Capacity NativeOps NativeArchive NativeText NativeBudget ConfigSnapshot CnpgCluster.

(** The functions of other packages that the plugin calls: each is a parameter of the model. *)
Record Libraries := mkLibraries {
  lb_range : list string -> list string;
  lb_IsDNS1123Subdomain : string -> bool; lb_IsConfigMapKey : string -> bool; lb_ParseQuantity : string -> option Z;
  lb_ParseDuration : string -> option Z; lb_Parse : string -> option URL; lb_Hostname : URL -> string;
  lb_into_resources : Resources -> json -> option Resources;
  lb_pem_decode : string -> option (string * string * string); lb_ParseCertificate : string -> option Certificate;
  lb_X509KeyPair : string -> string -> option (list string);
  lb_Verify : Time -> Certificate -> list Certificate -> list Certificate -> bool;
  lb_New : Config -> res Opened;
  lb_unmarshal : string -> option Cluster; lb_marshal : Cluster -> string; lb_wal_size : string -> option string;
  lb_decode_plan : string -> option RecoveryPlan; lb_encode_plan : RecoveryPlan -> string;
  lb_gzip : string -> string; lb_gunzip : string -> option (string * string); lb_gzip_header : string -> bool;
  lb_untar : Z -> string -> Tar;
  (** values of the wire enumeration *)
  lb_MODE_UNSPECIFIED : Z; lb_MODE_RECOVERY : Z; lb_MODE_REWIND : Z }.

(** What a repository reader needs: [files.Files] without the store and the workspace. *)
Record Files := mkFiles { fl_Repository : Repository; fl_Compression : string }.
(** The fields of [RecoveryService]; all of them are read and written under its mutex. *)
Record Service := mkService {
  sv_attempted : bool; sv_ready : bool; sv_closed : bool; sv_plan : RecoveryPlan; sv_hold : option Hold; sv_store : bool;
  sv_files : option Files; sv_budgets : list FilesystemBudget }.

Inductive cn : Type -> Type :=
| Native {X : Type} (e : os X) : cn X
(** the repository of the recovered Cluster *)
| Destination {X : Type} (e : Store.event X) : cn X
(** an open file as [Archive] and [verifyLocalBundle] see it *)
| OpenSource (p : string) : cn (result failure_kind Source)
| Rename (from to : string) : cn (option failure_kind)
(** a slot of a bounded channel; [false] when the context ended first *)
| Acquire (slot : string) : cn bool
| Release (slot : string) : cn ()
(** the recovery admission *)
| ActiveTuple : cn (gres Tuple)
| AdmitTask (t : Tuple) : cn (gres ())
| TaskDone : cn ()
| CloseAdmission : cn ()
(** the mutex of the recovery service, with the fields it protects *)
| Lock : cn Service
| Unlock (s : Service) : cn ()
| Hostname : cn (option string)
| Getenv (name : string) : cn string.
Abbreviation cprog := (Prog.prog cn).
Abbreviation ctrace := (list (Prog.action cn)).

Fixpoint native {A} (p : oprog A) : cprog A :=
  match p with Ret a => Ret a | Vis e k => Vis (Native e) (fun x => native (k x)) end.
Fixpoint destination {A} (p : Store.prog A) : cprog A :=
  match p with Ret a => Ret a | Vis e k => Vis (Destination e) (fun x => destination (k x)) end.
Definition source_store {A} (p : Store.prog A) : cprog A := native (remote p).

(** ** What a part of a trace says *)
Definition store_action (a : Prog.action os) : option Store.action :=
  match a with @Act _ X e x => match e in os Y return Y -> option Store.action with Remote e => fun x => Some (Act e x) | _ => fun _ => None end x end.
Definition stores (tr : otrace) : Store.trace := omap store_action tr.
Definition native_action (a : Prog.action cn) : option (Prog.action os) :=
  match a with @Act _ X e x => match e in cn Y return Y -> option (Prog.action os) with Native e => fun x => Some (Act e x) | _ => fun _ => None end x end.
Definition natives (tr : ctrace) : otrace := omap native_action tr.
Definition remote_trace (tr : ctrace) : Store.trace := stores (natives tr).

Definition remote_guard (G : Store.trace -> forall X, Store.event X -> Prop) (tr : otrace) X (e : os X) : Prop :=
  match e in os Y return Prop with @Remote Y e => G (stores tr) Y e | _ => True end.
Definition native_guard (G : otrace -> forall X, os X -> Prop) (tr : ctrace) X (e : cn X) : Prop :=
  match e in cn Y return Prop with @Native Y e => G (natives tr) Y e | _ => True end.
(** A specification of a repository program holds where it runs. *)
Lemma wp_remote {A} G (Q : Store.trace -> A -> Prop) (p : Store.prog A) tr :
  wp G Q p (stores tr) -> wp (remote_guard G) (fun tr a => Q (stores tr) a) (remote p) tr.
Proof.
  revert tr. induction p as [a|X e k IH]; intros tr; cbn; [done|]. intros [Hg Hk]. split; [done|]. intros x. apply IH, Hk.
Qed.
Lemma wp_native {A} G (Q : otrace -> A -> Prop) (p : oprog A) tr :
  wp G Q p (natives tr) -> wp (native_guard G) (fun tr a => Q (natives tr) a) (native p) tr.
Proof.
  revert tr. induction p as [a|X e k IH]; intros tr; cbn; [done|]. intros [Hg Hk]. split; [done|]. intros x. apply IH, Hk.
Qed.
(** A repository program keeps its specification below the plugin. *)
Lemma wp_source {A} (Q : Store.trace -> A -> Prop) (p : Store.prog A) tr :
  (forall str, wp (fun _ _ _ => True) Q p str) -> wp anything (fun tr a => Q (remote_trace tr) a) (source_store p) tr.
Proof.
  intros H. eapply wp_G_mono; [|apply (wp_native (fun _ _ _ => True) (fun tr a => Q (stores tr) a))]; [done|].
  eapply wp_G_mono; [|apply wp_remote, H]. done.
Qed.
Lemma extends_omap {E F : Type -> Type} (f : Prog.action E -> option (Prog.action F)) tr tr' : extends tr tr' -> extends (omap f tr) (omap f tr').
Proof. intros (l & ->). exists (omap f l). apply omap_app. Qed.
Lemma natives_extends tr tr' : extends tr tr' -> extends (natives tr) (natives tr').
Proof. apply extends_omap. Qed.
Lemma remote_extends tr tr' : extends tr tr' -> extends (remote_trace tr) (remote_trace tr').
Proof. intros H. by apply extends_omap, natives_extends. Qed.
