(* ===== verification/CnpgWal.v ===== *)
(** * WAL callbacks (internal/cnpgi/wal.go, recovery_wal.go, wal_fetch.go, recovery_plan.go)

    PostgreSQL's archive and restore requests as the sidecar serves them, from the checks of the request to the status code, and the
    helper that turns the status of a recovery request into PostgreSQL's exit code. *)

From S2P Require Import Guard.
From S2P Require Import Prelude GoStrings GoTime Sha256 Errors Schema Json LooseJson Prog Store WalNames GuardConfig Gate Repository RecoveryPlan Lifecycle Restore WalArchive.
From S2P Require Import S3Config Configuration Capacity NativePath NativeOps NativeText NativeBudget NativeRestore ConfigSnapshot NativeCapture NativePreflight CnpgCluster CnpgOps.

(** gRPC status codes.  One error stands for both ends of a context, so one code stands for [DeadlineExceeded] and the [Canceled] of a
    context; [CPanic] is a handler that panics. *)
Inductive code :=
| CNotFound | CInvalidArgument | CAlreadyExists | CDataLoss | CPermissionDenied | CContext | CCanceled | CUnavailable
| CResourceExhausted | CFailedPrecondition | CUnknown | CPanic.
#[export] Instance code_eq_dec : EqDecision code.
Proof. solve_decision. Defined.
Abbreviation cres := (result code).

Definition walError (e : error) : code :=
  if Is e NotFound then CNotFound
  else if e ==? WalInvalid then CInvalidArgument
  else if e ==? WalConflict then CAlreadyExists
  else if (e ==? WalCorrupt) || Is e Corrupt then CDataLoss
  else if Is e Auth then CPermissionDenied
  else if e ==? ErrContext then CContext
  else if Is e Canceled then CCanceled
  else if Is e Transient || Is e TLS || Is e Unknown then CUnavailable
  else if (e ==? WalLocal) || Is e LocalIO then CResourceExhausted
  else CFailedPrecondition.
Definition wal_status {A} (r : res A) : cres A := match r with Ok a => Ok a | Err e => Err (walError e) end.

Record WALPlacement := mkWALPlacement {
  wp_ClusterUID : string; wp_Namespace : string; wp_Cluster : string; wp_Repository : string; wp_WALDirectory : string }.
#[export] Instance loose_WALPlacement : Loose WALPlacement := mkLoose WALPlacement (mkWALPlacement "" "" "" "" "") (into_struct [
  ("clusterUID", on_field wp_ClusterUID (fun v x => mkWALPlacement x (wp_Namespace v) (wp_Cluster v) (wp_Repository v) (wp_WALDirectory v)));
  ("namespace", on_field wp_Namespace (fun v x => mkWALPlacement (wp_ClusterUID v) x (wp_Cluster v) (wp_Repository v) (wp_WALDirectory v)));
  ("cluster", on_field wp_Cluster (fun v x => mkWALPlacement (wp_ClusterUID v) (wp_Namespace v) x (wp_Repository v) (wp_WALDirectory v)));
  ("repository", on_field wp_Repository (fun v x => mkWALPlacement (wp_ClusterUID v) (wp_Namespace v) (wp_Cluster v) x (wp_WALDirectory v)));
  ("walDirectory", on_field wp_WALDirectory (fun v x => mkWALPlacement (wp_ClusterUID v) (wp_Namespace v) (wp_Cluster v) (wp_Repository v) x))]).

Record ArchiveRequest := mkArchiveRequest { aq_ClusterDefinition : string; aq_SourceFileName : string; aq_Parameters : option (gmap string string) }.
Record RestoreRequest := mkRestoreRequest {
  rq_Definition : string; rq_SourceWalName : string; rq_DestinationFileName : string; rq_Mode : Z; rq_Parameters : option (gmap string string) }.
Record walOperation := mkOperation { wo_files : Files; wo_placement : WALPlacement; wo_single : bool }.

(** ** Space *)
Definition wal_volume (directory mount : string) : bool :=
  (mount ==? path_dir directory) || ((directory ==? pgdataPath +:+ "/pg_wal") && (mount ==? path_dir pgdataPath)).
Definition wal_need (directory : string) (segment : Z) (archive : bool) (b : FilesystemBudget) : Z :=
  if wal_volume directory (fb_Mount b) && negb archive then 2 * segment + 16 * 2 ^ 20
  else if fb_Mount b ==? workspace then 6 * (segment + 2 ^ 20) + 16 * 2 ^ 20 else 0.
Definition walCapacity (budgets : list FilesystemBudget) (directory : string) (segment : Z) (archive : bool) : res (list FilesystemBudget) :=
  if negb (has_mount budgets workspace) || negb (existsb (fun b => wal_volume directory (fb_Mount b)) budgets) then Err WalInvalid
  else Ok (required budgets (wal_need directory segment archive)).

(** A slot held around a body. *)
Definition with_slot {A} (slot : string) (refused : A) (body : cprog A) : cprog A :=
  let! x := call (Acquire slot) in
  if negb x then Ret refused else let! a := body in let! _ := call (Release slot) in Ret a.

(** ** Missing segments a recovery may do without *)
Definition future_frontier (p : Plan) : Z :=
  match last (default [] (p_RequiredArchive p)) with
  | Some w => lsn (wr_EndLSN w)
  | None => match last (p_Chain p) with Some c => lsn (c_BundledWALEndLSN c) | None => 0 end
  end.
(** The name passed [Coverage]: its digits are hexadecimal and the plan has a chain, so the frontier of an empty one is never asked for. *)
Definition optionalFuture (p : Plan) (name : string) : bool :=
  if HasSuffix name ".history" then true else
  if negb (len name =? 24) then false else
  if parse_hex (slice 0 8 name) !=? tg_Timeline (p_Target p) then false
  else future_frontier p <=? segment_start name (id_WALSegmentBytes (p_Source p)).
Definition verifyLocalBundle (root name : string) (expected : Integrity) : cprog (res ()) :=
  let! f := call (OpenSource (within root name)) in
  match f with
  | Err _ => fail WalCorrupt
  | Ok s =>
      let! st := native (call (Setup ("stat " +:+ within root name))) in
      if is_err st || negb (so_regular s) || (so_size s !=? ig_Size expected) then fail WalCorrupt else
      native check_context ;;*
      let! e := native (call (Pass (within root name))) in
      if ig_Size expected <? len (so_read s) then fail WalCorrupt else
      if e !=? None then fail WalLocal else
      let! st := native (call (Setup ("stat " +:+ within root name))) in
      if is_err st || (len (so_read s) !=? ig_Size expected) || (so_after s !=? so_size s) || negb (so_unmodified s)
         || (digest (so_read s) !=? ig_SHA256 expected) then fail WalCorrupt else done ()
  end.

Section Callbacks.
Context (L : Libraries) (workspaceLocked : bool).
Let repositories := Repositories (lb_range L) (lb_IsDNS1123Subdomain L).
Let parse_cluster := ParseCluster (lb_IsDNS1123Subdomain L) (lb_unmarshal L).
Let valid_paths := validateWALPaths (lb_range L) (lb_IsDNS1123Subdomain L) (lb_unmarshal L).
Let target_name := recoveryDestination (lb_range L) (lb_IsDNS1123Subdomain L) (lb_unmarshal L) (lb_marshal L).
Let valid_plan := RecoveryPlan_validate (lb_range L) (lb_IsDNS1123Subdomain L) (lb_unmarshal L) (lb_marshal L).
Let load := LoadCaptureSnapshotFromRoot (lb_ParseDuration L) (lb_Parse L) (lb_Hostname L) (lb_IsDNS1123Subdomain L) (lb_IsConfigMapKey L)
  (lb_ParseQuantity L) (lb_into_resources L) (lb_pem_decode L) (lb_ParseCertificate L) (lb_X509KeyPair L) (lb_Verify L).
Let check_wal := CheckWAL (lb_range L) (lb_ParseDuration L) (lb_Parse L) (lb_Hostname L) (lb_IsDNS1123Subdomain L) (lb_IsConfigMapKey L)
  (lb_ParseQuantity L) (lb_into_resources L) (lb_pem_decode L) (lb_ParseCertificate L) (lb_X509KeyPair L) (lb_Verify L) workspaceLocked.
Definition open_store (s : Snapshot) : res () :=
  Snapshot_Store (lb_ParseDuration L) (lb_Parse L) (lb_Hostname L) (lb_IsDNS1123Subdomain L) (lb_IsConfigMapKey L) (lb_ParseQuantity L) (lb_New L) s ;;? Ok ().

Definition validateWALRequest (c : Cluster) (p : WALPlacement) : res () :=
  match repositories c with
  | Err _ => Err WalInvalid
  | Ok (dst, _) =>
      if (cl_UID c !=? wp_ClusterUID p) || (cl_Namespace c !=? wp_Namespace p) || (cl_Name c !=? wp_Cluster p) || (dst !=? wp_Repository p)
      then Err WalInvalid else Ok ()
  end.

(** ** Opening an ordinary operation *)
Definition ordinary_identity (spec : Spec) (control : Control) (writer : string) : Identity :=
  mkIdentity 1 (sp_RepositoryID spec) 18 (ct_SystemIdentifier control) (ct_WALSegmentBytes control) writer "".
Definition with_creation (id : Identity) (t : string) : Identity :=
  mkIdentity (id_Schema id) (id_RepositoryID id) (id_PostgresMajor id) (id_SystemIdentifier id) (id_WALSegmentBytes id) (id_WriterClusterUID id) t.
(** A missing repository or gate is not an absent WAL file. *)
Definition not_a_miss {A} (r : res A) : res A := match r with Err e => Err (if Is e NotFound then ErrIdentity else e) | Ok a => Ok a end.
Definition openWAL (cluster : string) (archive : bool) : cprog (res walOperation) :=
  let* root := native (Projection projectionPath) in
  let* b := native (ConfigSnapshot.Read root "wal.json" (64 * 1024)) in
  match @StrictJSON WALPlacement _ b with
  | None => fail WalInvalid
  | Some p =>
  match parse_cluster cluster with
  | Err e => fail e
  | Ok c =>
  match validateWALRequest c p with
  | Err e => fail e
  | Ok _ =>
      let* snap := native (load root) in
      let* control := native (if archive then check_wal root else ReadControl) in
      let* b := native (ConfigSnapshot.Read root "capacity.json" (64 * 1024)) in
      match decode_budgets b with
      | None => fail WalInvalid
      | Some budgets =>
          let* reserved := Ret (walCapacity budgets (wp_WALDirectory p) (ct_WALSegmentBytes control) archive) in
          native (check_capacity reserved) ;;*
          let! actual := native (call (EvalSymlinks (pgdataPath +:+ "/pg_wal"))) in
          if actual !=? Some (wp_WALDirectory p) then fail WalInvalid else
          let! physical := native (call (EvalSymlinks (wp_WALDirectory p))) in
          if physical !=? Some (wp_WALDirectory p) then fail WalInvalid else
          let! local := native (call (Setup ("root " +:+ wp_WALDirectory p))) in
          match local with
          | Err _ => fail WalLocal
          | Ok _ =>
              let spec := sn_Spec (cs_Repository snap) in
              Ret (open_store (cs_Repository snap)) ;;*
              let id := ordinary_identity spec control (wp_ClusterUID p) in
              let* repo := (if archive then
                              source_store (call CheckBucketSafety) ;;*
                              let! r := source_store (OpenWriter id workspace) in Ret (not_a_miss r)
                            else
                              let! r := source_store (Lifecycle.OpenSource (id_RepositoryID id) workspace) in
                              Ret (match r with
                                   | Ok r => if with_creation id (id_CreatedAt (r_id r)) !=? r_id r then Err ErrIdentity else Ok r
                                   | Err e => not_a_miss (Err e)
                                   end)) in
              done (mkOperation (mkFiles repo (sp_Compression spec)) p (io_WALUploads (sp_IO spec) =? 1))
          end
      end
  end end end.
Definition data_slot {A} (o : walOperation) (body : cprog (res A)) : cprog (res A) :=
  if wo_single o then with_slot "singleWALData" (Err ErrContext) body else body.

(** ** Ordinary callbacks *)
Definition refuse {A} (e : error) : cprog (cres A) := Ret (Err (walError e)).
Definition archive_body (r : ArchiveRequest) : cprog (res ()) :=
  let* o := openWAL (aq_ClusterDefinition r) true in
  data_slot o (
    let f := wo_files o in
    let* name := Ret (walBasename (aq_SourceFileName r) (wp_WALDirectory (wo_placement o))) in
    Ret (Limits (fl_Repository f) (fl_Compression f) name) ;;*
    let! source := call (OpenSource (within (wp_WALDirectory (wo_placement o)) name)) in
    match source with
    | Err _ => fail ErrOther
    | Ok s => source_store (Archive (lb_gzip L) (lb_gunzip L) (lb_gzip_header L) (fl_Repository f) (fl_Compression f) name (Some s))
    end).
Definition WALService_Archive (r : option ArchiveRequest) : cprog (cres ()) :=
  match r with
  | None => refuse WalInvalid
  | Some r =>
      if negb (params_len (aq_Parameters r) =? 0) then refuse WalInvalid else
      match valid_paths (aq_ClusterDefinition r) (aq_SourceFileName r) "" false with
      | Err e => refuse e
      | Ok _ => with_slot "walCallbacks" (Err (walError ErrContext)) (let! x := archive_body r in Ret (wal_status x))
      end
  end.
(** The first component of a restore is what the destination file holds afterwards, when it was written. *)
Definition restored (name : string) (f : Files) (destination : string) : cprog (option string * res ()) :=
  source_store (WalArchive.Restore (lb_gunzip L) (lb_gzip_header L) (fl_Repository f) (fl_Compression f) name destination).
Definition restore_body (r : RestoreRequest) : cprog (option string * res ()) :=
  let! o := openWAL (rq_Definition r) false in
  match o with
  | Err e => Ret (None, Err e)
  | Ok o =>
      let! x := data_slot o (
        match walBasename (rq_DestinationFileName r) (wp_WALDirectory (wo_placement o)) with
        | Err e => done (None, Err e)
        | Ok name => let! x := restored (rq_SourceWalName r) (wo_files o) name in done x
        end) in
      Ret (match x with Ok x => x | Err e => (None, Err e) end)
  end.
Definition refuse_restore (e : error) : cprog (option string * cres ()) := Ret (None, Err (walError e)).
Definition with_status (x : option string * res ()) : option string * cres () := (x.1, wal_status x.2).
Definition WALService_Restore (r : option RestoreRequest) : cprog (option string * cres ()) :=
  match r with
  | None => refuse_restore WalInvalid
  | Some r =>
      if negb (params_len (rq_Parameters r) =? 0) || (rq_Mode r <? lb_MODE_UNSPECIFIED L) || (lb_MODE_REWIND L <? rq_Mode r)
      then refuse_restore WalInvalid else
      match valid_paths (rq_Definition r) (rq_DestinationFileName r) (rq_SourceWalName r) true with
      | Err e => refuse_restore e
      | Ok _ => with_slot "walCallbacks" (None, Err (walError ErrContext)) (let! x := restore_body r in Ret (with_status x))
      end
  end.

(** ** WAL of a recovery *)
(** The archive comes first; a bundled segment may lack bytes written after the backup, so the local file may stand in only where no
    remote interval is required. *)
Definition restoreSourceWAL (f : Files) (p : RecoveryPlan) (name root destination : string) : cprog (option string * res ()) :=
  match Coverage (rp_Plan p) name with
  | Err _ => Ret (None, Err WalInvalid)
  | Ok (bundle, remote) =>
      let! (out, x) := restored name f destination in
      match x with
      | Ok _ => Ret (out, Ok ())
      | Err e =>
          if negb (Is e NotFound) then Ret (out, Err e) else
          if remote then Ret (out, Err ErrBlocked) else
          if bundle then
            match rp_Bundled p !! name with
            | None => Ret (out, Err WalCorrupt)
            | Some expected =>
                let! v := verifyLocalBundle root name expected in
                Ret (out, match v with Err e => Err e | Ok _ => Err (failure NotFound) end)
            end
          else if negb (optionalFuture (rp_Plan p) name) then Ret (out, Err ErrBlocked) else Ret (out, Err (failure NotFound))
      end
  end.
Definition check_wal_links (c : Cluster) : cprog (res ()) :=
  visit_all [physicalWAL c; pgdataPath +:+ "/pg_wal"] () (fun _ path =>
    let! actual := native (call (EvalSymlinks path)) in if actual !=? Some (physicalWAL c) then fail WalInvalid else done ()).
(** The fields are copied under the mutex; the archive is read after it is released. *)
Definition recovery_ready (s : Service) (tuple : Tuple) (definition : string) : bool :=
  sv_ready s && negb (sv_closed s) && (tuple ==? rp_Tuple (sv_plan s)) && (definition ==? rp_ClusterDefinition (sv_plan s)).
Definition recovery_read (s : Service) (c : Cluster) (name destination : string) : cprog (option string * cres ()) :=
  let! prepared := (let* reserved := Ret (walCapacity (sv_budgets s) (physicalWAL c) (id_WALSegmentBytes (p_Source (rp_Plan (sv_plan s)))) false) in
                    native (check_capacity reserved) ;;*
                    check_wal_links c ;;*
                    let! local := native (call (Setup ("root " +:+ physicalWAL c))) in
                    if is_err local then fail WalLocal else done ()) in
  match prepared with
  | Err e => refuse_restore e
  | Ok _ =>
      match sv_hold s, sv_files s with
      | Some hold, Some f =>
          let! admitted := source_store (ReadSource (fl_Repository f) hold (done ())) in
          match admitted with
          | Err _ => Ret (None, Err CFailedPrecondition)
          | Ok _ => let! x := restoreSourceWAL f (sv_plan s) name (physicalWAL c) destination in Ret (with_status x)
          end
      | _, _ => Ret (None, Err CPanic)
      end
  end.
Definition recovery_slot (r : RestoreRequest) (tuple : Tuple) (c : Cluster) (destination : string) : cprog (option string * cres ()) :=
  with_slot "walCallbacks" (None, Err (walError ErrContext)) (
    let! s := call Lock in
    let! _ := call (Unlock s) in
    if negb (recovery_ready s tuple (rq_Definition r)) then refuse_restore ErrOther
    else recovery_read s c (rq_SourceWalName r) destination).
Definition recoveryWAL_Restore (r : option RestoreRequest) : cprog (option string * cres ()) :=
  match r with
  | None => refuse_restore WalInvalid
  | Some r =>
      if (rq_Mode r !=? lb_MODE_RECOVERY L) || negb (params_len (rq_Parameters r) =? 1) then refuse_restore WalInvalid else
      match @StrictJSON Tuple _ (params (rq_Parameters r) "recoveryID"), parse_cluster (rq_Definition r) with
      | Some tuple, Ok c =>
          match target_name c (rq_SourceWalName r) (rq_DestinationFileName r) with
          | Err _ => refuse_restore WalInvalid
          | Ok destination =>
              let! a := call (AdmitTask tuple) in
              match a with
              | Err _ => Ret (None, Err CUnknown)
              | Ok _ => let! x := recovery_slot r tuple c destination in let! _ := call TaskDone in Ret x
              end
          end
      | _, _ => refuse_restore WalInvalid
      end
  end.

(** ** The durable plan *)
Definition saveRecovery (directory : string) (p : RecoveryPlan) : cprog (res ()) :=
  Ret (valid_plan p) ;;*
  let b := lb_encode_plan L p in
  if recoveryPlanLimit <? len b then fail ErrCapacity else
  native (call (Setup ("root " +:+ directory))) ;;*
  let! id := native (call (Remote UUID)) in
  let name := "recovery-" +:+ id +:+ ".json" in
  let path := within directory name in
  native (fs (CreateExcl path)) ;;*
  let! written := (native (fs (WriteTo path b)) ;;* native (fs (SyncFile path))) in
  let! closed := native (fs (CloseFile path)) in
  let! x := (Ret written ;;* Ret closed ;;*
             let! renamed := call (Rename path (within directory "recovery.json")) in
             if renamed !=? None then fail ErrOther else native (fs (SyncDir directory))) in
  let! _ := native (fs (RemoveFile path)) in
  Ret x.
(** [None]: the directory or the file does not exist. *)
Definition readRecovery (directory : string) : cprog (res (option RecoveryPlan)) :=
  let path := within directory "recovery.json" in
  let! f := native (call (Open path)) in
  match f with
  | Err IsNotExist => done None
  | Err _ => fail ErrOther
  | Ok bytes =>
      let! st := native (call (Lstat path)) in
      match st with
      | Some (FRegular, size) =>
          if recoveryPlanLimit <? size then fail ErrInvalid else
          native (pass path) ;;*
          let b := String.substring 0 (Z.to_nat (recoveryPlanLimit + 1)) bytes in
          if recoveryPlanLimit <? len b then fail ErrOther else
          match lb_decode_plan L b with
          | None => fail ErrOther
          | Some p => Ret (valid_plan p) ;;* done (Some p)
          end
      | _ => fail ErrInvalid
      end
  end.

(** ** The helper *)
Definition exit_code (reply : cres ()) : Z :=
  match reply with Ok _ => 0 | Err CNotFound => 1 | Err _ => 255 end.
Definition fetch_request (p : RecoveryPlan) (name destination : string) : RestoreRequest :=
  mkRestoreRequest (rp_ClusterDefinition p) name destination (lb_MODE_RECOVERY L) (Some {["recoveryID" := print (tuple_json (rp_Tuple p))]}).
(** [client] is the sidecar at the other end of the socket. *)
Definition fetchWAL (client : RestoreRequest -> cprog (option string * cres ())) (p : RecoveryPlan) (name destination : string) : cprog Z :=
  let! x := client (fetch_request p name destination) in Ret (exit_code x.2).
Definition WALFetch (client : RestoreRequest -> cprog (option string * cres ())) (args : list string) : cprog Z :=
  match args with
  | [plan; path; dashes; name; destination] =>
      if (plan !=? "--plan") || (path !=? helperPlanPath) || (dashes !=? "--") then Ret 255 else
      let! p := readRecovery (path_dir helperPlanPath) in
      match p with
      | Ok (Some p) =>
          if negb (rp_Materialized p) then Ret 255 else
          match parse_cluster (rp_ClusterDefinition p) with
          | Err _ => Ret 255
          | Ok c =>
              if is_err (target_name c name destination) then Ret 255 else
              let! conn := native (call (Setup "dial")) in
              if is_err conn then Ret 255 else fetchWAL client p name destination
          end
      | _ => Ret 255
      end
  | _ => Ret 255
  end.
(** The socket: a call that does not reach the sidecar, or whose answer is lost, ends with the transport's status. *)
Definition served (r : RestoreRequest) : cprog (option string * cres ()) :=
  let! x := recoveryWAL_Restore (Some r) in
  let! lost := native (call (Setup "transport")) in
  Ret (x.1, if is_err lost then Err CUnavailable else x.2).
End Callbacks.
