(* ===== verification/CnpgKube.v ===== *)
(** * Kubernetes as the manager sees it (internal/cnpgi/kubernetes.go, repository_snapshot.go)

    The objects of the API server with the fields the manager reads, the calls it makes, and the reads that are restricted to the
    configured namespaces and Secret names. *)

From S2P Require Import Prelude GoStrings GoTime Sha256 Errors Schema Json LooseJson Prog ProgRules Store GuardConfig Repository RecoveryPlan WalArchive.
From S2P Require Import S3Config Configuration NativeOps NativeText ConfigSnapshot CnpgCluster CnpgOps.

(** [apierrors.IsNotFound], [apierrors.IsAlreadyExists], and every other failure. *)
Inductive kerror := KNotFound | KAlreadyExists | KOther.
#[export] Instance kerror_eq_dec : EqDecision kerror.
Proof. solve_decision. Defined.

(** An unstructured object: its controller by UID and kind, the string data, and the texts of its [spec] and [status]. *)
Record Object := mkObj {
  ob_Name : string; ob_UID : string; ob_ResourceVersion : string; ob_controller : option (string * string); ob_deleting : bool;
  ob_annotations : gmap string string; ob_data : gmap string string; ob_immutable : bool; ob_spec : string;
  ob_Namespace : string; ob_Generation : Z; ob_status : string }.

(** What [FromUnstructured] makes of a Job and of a Pod. *)
Record Job := mkJob {
  jb_UID : string; jb_operation : string; jb_controller : option string; jb_deleting : bool; jb_Conditions : list (string * string);
  jb_Active : Z; jb_Succeeded : Z; jb_Failed : Z; jb_Parallelism : option Z; jb_Completions : option Z; jb_uncounted : bool }.
Record Terminated := mkTerminated { tm_ExitCode : Z; tm_finished : bool; tm_Reason : string }.
Record ContainerStatus := mkContainerStatus { cs_Name : string; cs_ContainerID : string; cs_Terminated : option Terminated }.
Record Pod := mkPod {
  pd_UID : string; pd_ResourceVersion : string; pd_controller : option string; pd_deleting : bool; pd_Phase : string; pd_Reason : string;
  pd_Containers : list string; pd_InitContainers : list string; pd_EphemeralContainers : list string;
  pd_ContainerStatuses : list ContainerStatus; pd_InitContainerStatuses : list ContainerStatus;
  pd_EphemeralContainerStatuses : list ContainerStatus }.
(** One item of a LIST: the operation annotation, and the object when it converts. *)
Inductive Item := JobItem (j : option Job) | PodItem (operation : string) (p : option Pod).

(** What one turn of the watch loop finds. *)
Inductive Round :=
| WatchCtx | WatchClosed | WatchError | WatchBookmark | WatchForeign | WatchTick
| WatchEvent (deleted : bool) (o : Object) (phase : string).
Inductive WatchStart := WatchLate | WatchFailed | WatchOpen.

Inductive kube : Type -> Type :=
| Host {X : Type} (e : os X) : kube X
| KGet (kind namespace name : string) : kube (result kerror Object)
| KCreate (kind namespace : string) (o : Object) : kube (result kerror Object)
| KUpdate (kind namespace : string) (o : Object) : kube (option kerror)
| KList (kind namespace selector cursor : string) : kube (res (list Item * string))
(** the first page of Pods: how many items, the cursor, the resource version *)
| KFirst (namespace selector : string) : kube (res (nat * string * string))
| KWatch (namespace selector version : string) : kube WatchStart
| KRound : kube Round
(** a turn of a ticker; [false] when the context ended first *)
| KTick : kube bool.
Abbreviation kprog := (Prog.prog kube).
Abbreviation ktrace := (list (Prog.action kube)).
Fixpoint host {A} (p : oprog A) : kprog A :=
  match p with Ret a => Ret a | Vis e k => Vis (Host e) (fun x => host (k x)) end.

Record API := mkAPI { api_Namespaces : list string; api_SecretNames : gmap string (list string) }.

Section Kube.
Context (L : Libraries) (base64 : string -> option string) (a : API).

Definition Get (kind namespace name : string) : kprog (result kerror Object) :=
  if negb (bool_decide (namespace ∈ api_Namespaces a)) || (name ==? "") then Ret (Err KOther) else
  if (kind ==? "secrets") && negb (bool_decide (name ∈ default [] (api_SecretNames a !! namespace))) then Ret (Err KOther) else
  call (KGet kind namespace name).

(** ** Credentials *)
(** One read per Secret name: keys of the same Secret come from the same version. *)
Definition read_secret (namespace : string) (secrets : gmap string Object) (s : Selector) : kprog (res (string * gmap string Object)) :=
  let* (object, secrets) := match secrets !! sel_Name s with
                            | Some o => done (o, secrets)
                            | None => let! r := Get "secrets" namespace (sel_Name s) in
                                      Ret (match r with Ok o => Ok (o, <[sel_Name s := o]> secrets) | Err _ => Err ErrOther end)
                            end in
  let encoded := default "" (ob_data object !! sel_Key s) in
  if 90 * 1024 <? len encoded then fail ErrOther else
  match base64 encoded with
  | None => fail ErrOther
  | Some data => if (len data =? 0) || (64 * 1024 <? len data) then fail ErrOther else done (data, secrets)
  end.
Definition repositorySnapshot (namespace : string) (spec : Spec) : kprog (res Snapshot) :=
  let s3 := sp_S3 spec in
  let* (access, secrets) := read_secret namespace ∅ (s3_AccessKeySecret s3) in
  let* (secret, secrets) := read_secret namespace secrets (s3_SecretKeySecret s3) in
  let* token := match s3_SessionTokenSecret s3 with
                | None => done ""
                | Some s => let* (token, _) := read_secret namespace secrets s in done token
                end in
  let* ca := match s3_CAConfigMap s3 with
             | None => done ""
             | Some s =>
                 let! r := Get "configmaps" namespace (sel_Name s) in
                 match r with
                 | Err _ => fail ErrOther
                 | Ok o =>
                     let data := default "" (ob_data o !! sel_Key s) in
                     if 256 * 1024 <? len data then fail ErrOther else
                     host (CAPool (lb_pem_decode L) (lb_ParseCertificate L) data false) ;;* done data
                 end
             end in
  done (mkSnapshot spec access secret token ca).

(** ** Repositories and identities *)
Let decode_spec := DecodeSpec (lb_ParseDuration L) (lb_Parse L) (lb_Hostname L) (lb_IsDNS1123Subdomain L) (lb_IsConfigMapKey L) (lb_ParseQuantity L)
  (lb_into_resources L).
Let repositories := Repositories (lb_range L) (lb_IsDNS1123Subdomain L).
Definition API_Repository (namespace name : string) : kprog (res Spec) :=
  let! r := Get "repositories" namespace name in
  match r with
  | Err _ => fail ErrOther
  | Ok o =>
      match decode_spec (ob_spec o) with
      | Err e => fail e
      | Ok spec => repositorySnapshot namespace spec ;;* done spec
      end
  end.
Definition ValidateRepositories (c : Cluster) : kprog (res (Spec * option Spec)) :=
  match repositories c with
  | Err e => fail e
  | Ok (destination, source) =>
      let* dst := API_Repository (cl_Namespace c) destination in
      if source ==? "" then done (dst, None) else
      let* src := API_Repository (cl_Namespace c) source in
      if sp_RepositoryID dst ==? sp_RepositoryID src then fail ErrOther else done (dst, Some src)
  end.
Definition VerifyCluster (c : Cluster) : kprog (res ()) :=
  let! actual := Get "clusters" (cl_Namespace c) (cl_Name c) in
  match actual with
  | Err _ => fail ErrOther
  | Ok o => if (cl_UID c ==? "") || (ob_UID o !=? cl_UID c) then fail ErrOther else done ()
  end.
(** The identity of a Pod as the caller sent it; [None] when the object does not decode. *)
Record PodIdentity := mkPodIdentity { pi_Kind : string; pi_APIVersion : string; pi_Namespace : string; pi_Name : string; pi_UID : string }.
Definition VerifyLivePod (decode : string -> option PodIdentity) (c : Cluster) (object : string) : kprog (res ()) :=
  VerifyCluster c ;;*
  if 2 * 2 ^ 20 <? len object then fail ErrOther else
  match decode object with
  | None => fail ErrOther
  | Some pod =>
      if (pi_Kind pod !=? "Pod") || (pi_APIVersion pod !=? "v1") || (pi_Namespace pod !=? cl_Namespace c) || (pi_UID pod ==? "") then fail ErrOther else
      let! actual := Get "pods" (cl_Namespace c) (pi_Name pod) in
      match actual with
      | Err _ => fail ErrOther
      | Ok o =>
          if (ob_UID o !=? pi_UID pod) || (option_map fst (ob_controller o) !=? Some (cl_UID c)) then fail ErrOther else done ()
      end
  end.
Definition owned_object (c : Cluster) (name : string) (immutable : bool) (data : gmap string string) : Object :=
  mkObj name "" "" (Some (cl_UID c, "Cluster")) false ∅ data immutable "" (cl_Namespace c) 0 "".
Definition EnsureProjection (c : Cluster) (name : string) (data : gmap string string) : kprog (res ()) :=
  let ns := cl_Namespace c in
  let! existing := Get "configmaps" ns name in
  let matching (existing : result kerror Object) : kprog (res ()) :=
    match existing with
    | Err _ => fail ErrOther
    | Ok o => if (option_map fst (ob_controller o) !=? Some (cl_UID c)) || negb (ob_immutable o) || (ob_data o !=? data) then fail ErrOther else done ()
    end in
  match existing with
  | Err KNotFound =>
      let! created := call (KCreate "configmaps" ns (owned_object c name true data)) in
      match created with
      | Ok _ => done ()
      | Err KAlreadyExists => let! existing := Get "configmaps" ns name in matching existing
      | Err _ => fail ErrOther
      end
  | _ => matching existing
  end.
End Kube.

(** ** Reads stay within the configuration *)
Section Reads.
Context (L : Libraries) (base64 : string -> option string) (a : API).
Definition allowed_read X (e : kube X) : Prop :=
  match e with
  | KGet kind ns name => ns ∈ api_Namespaces a /\ name <> "" /\ (kind = "secrets" -> name ∈ default [] (api_SecretNames a !! ns))
  | _ => True
  end.
Lemma get_allowed kind ns name : calls allowed_read (Get a kind ns name).
Proof.
  unfold Get. destruct (_ || _) eqn:E1; [calls_step|]. destruct (_ && _) eqn:E2; [calls_step|]. calls_step.
  apply orb_false_iff in E1 as [E1 E3]. apply negb_false_iff, bool_decide_eq_true in E1. apply bool_decide_eq_false in E3. split_and!; [done..|].
  intros ->. rewrite (bool_decide_eq_true_2 ("secrets" = "secrets")) in E2 by done. cbn in E2. by apply negb_false_iff, bool_decide_eq_true in E2.
Qed.
Lemma host_allowed {A} (p : oprog A) : calls allowed_read (host p).
Proof. intros tr. induction p as [x|X e k IH] in tr |- *; cbn; [done|]. split; [done|]. intros x. apply IH. Qed.
Lemma secret_allowed ns secrets s : calls allowed_read (read_secret base64 a ns secrets s).
Proof. unfold read_secret. calls_step; [repeat calls_step; apply get_allowed|]. repeat calls_step. Qed.
Lemma snapshot_allowed ns spec : calls allowed_read (repositorySnapshot L base64 a ns spec).
Proof.
  unfold repositorySnapshot. calls_step; [apply secret_allowed|]. repeat calls_step; try apply secret_allowed; try apply get_allowed. apply host_allowed.
Qed.
Lemma repository_allowed ns name : calls allowed_read (API_Repository L base64 a ns name).
Proof. unfold API_Repository. calls_step; [apply get_allowed|]. repeat calls_step. apply snapshot_allowed. Qed.
(** The manager reads only objects of the configured namespaces, and only the Secrets named for them, whatever a Cluster refers to. *)
Theorem reads_allowlisted c pre kind ns name :
  emits (ValidateRepositories L base64 a c) [] pre _ (KGet kind ns name) ->
  ns ∈ api_Namespaces a /\ name <> "" /\ (kind = "secrets" -> name ∈ default [] (api_SecretNames a !! ns)).
Proof.
  intros He. refine (wp_emits (fun _ => allowed_read) (fun _ _ => True) _ _ _ _ _ _ He).
  assert (calls allowed_read (ValidateRepositories L base64 a c)) as H; [|apply H].
  unfold ValidateRepositories. calls_step; [|calls_step]. calls_step. calls_step; [apply repository_allowed|]. repeat calls_step. apply repository_allowed.
Qed.

(** *** One version per Secret *)
Definition secret_read (x : Prog.action kube) : option string :=
  match x with Act (KGet kind _ name) _ => if kind ==? "secrets" then Some name else None | _ => None end.
Definition secrets_read (tr : ktrace) : list string := omap secret_read tr.
Definition fresh_reads (tr : ktrace) (secrets : gmap string Object) : Prop :=
  NoDup (secrets_read tr) /\ forall n, n ∈ secrets_read tr -> is_Some (secrets !! n).
Lemma read_secret_wp ns secrets s tr : fresh_reads tr secrets ->
  wp anything (fun tr x => match x with Ok (_, secrets) => fresh_reads tr secrets | Err _ => NoDup (secrets_read tr) end) (read_secret base64 a ns secrets s) tr.
Proof.
  intros Hf. unfold read_secret. apply wp_bindE.
  eapply (wp_mono _ (fun tr x => match x with Ok (_, secrets) => fresh_reads tr secrets | Err _ => NoDup (secrets_read tr) end)).
  { intros tr1 [[o s1]|e] H; [|done]. cbv zeta. destruct (_ <? len _); [apply H|]. destruct (base64 _); [|apply H]. wp_if as E; [apply H|done]. }
  destruct (secrets !! sel_Name s) as [o|] eqn:Es; [done|]. unfold Get. apply wp_bind.
  destruct (_ || _); [apply Hf|]. destruct (_ && _); [apply Hf|]. split; [done|].
  destruct Hf as [Hn Hs]. assert (NoDup (secrets_read (Act (KGet "secrets" ns (sel_Name s)) (Err KOther) :: tr))) as Hn'.
  { cbn. constructor; [|done]. intros Hin. apply Hs in Hin. rewrite Es in Hin. by destruct Hin. }
  intros [o|e]; cbn [wp]; [|exact Hn']. split; [exact Hn'|]. intros n [->|Hin]%elem_of_cons; [rewrite lookup_insert_eq; by eexists|]. apply lookup_insert_is_Some'. right. by apply Hs.
Qed.
(** The credentials of a snapshot come from one version of each Secret: no Secret is read twice. *)
Theorem secret_read_once ns spec tr x : runs (repositorySnapshot L base64 a ns spec) [] tr x -> NoDup (secrets_read tr).
Proof.
  intros Hr. refine (wp_runs anything (fun tr _ => NoDup (secrets_read tr)) _ _ _ _ _ Hr). unfold repositorySnapshot. cbv zeta.
  apply wp_bindE. eapply wp_mono; [|apply read_secret_wp; split; [constructor|]; intros n Hn; by apply not_elem_of_nil in Hn].
  intros tr1 [[access s1]|e] H1; [|exact H1]. apply wp_bindE. eapply wp_mono; [|by apply read_secret_wp]. intros tr2 [[secret s2]|e] H2; [|exact H2].
  apply wp_bindE. eapply (wp_mono _ (fun tr (x : res string) => NoDup (secrets_read tr))).
  2: { destruct (s3_SessionTokenSecret (sp_S3 spec)) as [s|]; [|apply H2]. apply wp_bindE. eapply wp_mono; [|by apply read_secret_wp].
       intros tr3 [[t s3]|e] H3; [apply H3|exact H3]. }
  intros tr3 [token|e] H3; [|exact H3]. apply wp_bindE. eapply (wp_mono _ (fun tr (x : res string) => NoDup (secrets_read tr))).
  { intros tr4 [ca|e] H4; exact H4. }
  destruct (s3_CAConfigMap (sp_S3 spec)) as [s|]; [|exact H3].
  assert (Hq : forall A (p : oprog A) tr, NoDup (secrets_read tr) -> wp anything (fun tr _ => NoDup (secrets_read tr)) (host p) tr).
  { intros A p. induction p as [y|X e k IH]; intros tr' H; cbn; [done|]. split; [done|]. intros y. by apply IH. }
  unfold Get. destruct (_ || _); [exact H3|]. change ("configmaps" ==? "secrets") with false. cbn [andb]. split; [done|]. intros [o|e]; [|exact H3].
  cbv beta iota zeta. cbn [bind]. destruct (_ <? len _); [exact H3|]. apply wp_bindE. eapply wp_mono; [|apply Hq; exact H3]. intros tr5 [p|e] H5; exact H5.
Qed.
End Reads.
