(* ===== verification/CnpgRecovery.v ===== *)
(** * Recovery operations of the manager (internal/cnpgi/recovery_operation.go, recovery_reconcile.go)

    The manager keeps, per recovering Cluster, a durable operation in a ConfigMap: active, uncertain or completed.  It holds the
    source's lifetime from before the first target Pod until the restore Job and every Pod of it were seen to terminate. *)

From S2P Require Import Guard.
From S2P Require Import Prelude GoStrings GoTime Sha256 Errors Schema Json LooseJson Prog Store GuardConfig Gate Repository RecoveryPlan Lifecycle WalArchive.
From S2P Require Import S3Config Configuration NativeOps NativeText NativePreflight ConfigSnapshot CnpgCluster CnpgOps CnpgWal CnpgKube.

Definition operationAnnotation : string := "cnpg-backup.djosh34.github.io/recovery".
#[export] Instance guard_Config_eq_dec : EqDecision GuardConfig.Config.
Proof. solve_decision. Defined.
Record recoveryOperation := mkOp {
  op_Placement : RecoveryPlacement; op_Targets : GuardConfig.Config; op_ObserverID : string; op_State : string; op_CompletedJobUID : string;
  op_TerminatedPodUIDs : list string; op_LifetimeReleased : bool; op_LastWarningAt : string }.

(** ** The document *)
#[export] Instance loose_RecoveryPlacement : Loose RecoveryPlacement := mkLoose RecoveryPlacement (mkRecoveryPlacement "" "" "" "" "" "" "" "" "") (into_struct [
  ("clusterUID", on_field rl_ClusterUID (fun v x => mkRecoveryPlacement x (rl_Namespace v) (rl_Cluster v) (rl_OperationID v) (rl_BootstrapSHA256 v) (rl_Source v) (rl_Destination v) (rl_SourceConfigSHA256 v) (rl_DestinationConfigSHA256 v)));
  ("namespace", on_field rl_Namespace (fun v x => mkRecoveryPlacement (rl_ClusterUID v) x (rl_Cluster v) (rl_OperationID v) (rl_BootstrapSHA256 v) (rl_Source v) (rl_Destination v) (rl_SourceConfigSHA256 v) (rl_DestinationConfigSHA256 v)));
  ("cluster", on_field rl_Cluster (fun v x => mkRecoveryPlacement (rl_ClusterUID v) (rl_Namespace v) x (rl_OperationID v) (rl_BootstrapSHA256 v) (rl_Source v) (rl_Destination v) (rl_SourceConfigSHA256 v) (rl_DestinationConfigSHA256 v)));
  ("operationID", on_field rl_OperationID (fun v x => mkRecoveryPlacement (rl_ClusterUID v) (rl_Namespace v) (rl_Cluster v) x (rl_BootstrapSHA256 v) (rl_Source v) (rl_Destination v) (rl_SourceConfigSHA256 v) (rl_DestinationConfigSHA256 v)));
  ("bootstrapSHA256", on_field rl_BootstrapSHA256 (fun v x => mkRecoveryPlacement (rl_ClusterUID v) (rl_Namespace v) (rl_Cluster v) (rl_OperationID v) x (rl_Source v) (rl_Destination v) (rl_SourceConfigSHA256 v) (rl_DestinationConfigSHA256 v)));
  ("source", on_field rl_Source (fun v x => mkRecoveryPlacement (rl_ClusterUID v) (rl_Namespace v) (rl_Cluster v) (rl_OperationID v) (rl_BootstrapSHA256 v) x (rl_Destination v) (rl_SourceConfigSHA256 v) (rl_DestinationConfigSHA256 v)));
  ("destination", on_field rl_Destination (fun v x => mkRecoveryPlacement (rl_ClusterUID v) (rl_Namespace v) (rl_Cluster v) (rl_OperationID v) (rl_BootstrapSHA256 v) (rl_Source v) x (rl_SourceConfigSHA256 v) (rl_DestinationConfigSHA256 v)));
  ("sourceConfigSHA256", on_field rl_SourceConfigSHA256 (fun v x => mkRecoveryPlacement (rl_ClusterUID v) (rl_Namespace v) (rl_Cluster v) (rl_OperationID v) (rl_BootstrapSHA256 v) (rl_Source v) (rl_Destination v) x (rl_DestinationConfigSHA256 v)));
  ("destinationConfigSHA256", on_field rl_DestinationConfigSHA256 (fun v x => mkRecoveryPlacement (rl_ClusterUID v) (rl_Namespace v) (rl_Cluster v) (rl_OperationID v) (rl_BootstrapSHA256 v) (rl_Source v) (rl_Destination v) (rl_SourceConfigSHA256 v) x))]).
(** An operation while it is decoded: slices keep their memory. *)
Record raw_operation := mkRawOp {
  ro_Placement : RecoveryPlacement; ro_Targets : raw_config; ro_ObserverID : string; ro_State : string; ro_CompletedJobUID : string;
  ro_TerminatedPodUIDs : slice_of string; ro_LifetimeReleased : bool; ro_LastWarningAt : string }.
#[export] Instance loose_raw_operation : Loose raw_operation := mkLoose raw_operation (mkRawOp zero zero "" "" "" zero false "") (into_struct [
  ("placement", on_field ro_Placement (fun v x => mkRawOp x (ro_Targets v) (ro_ObserverID v) (ro_State v) (ro_CompletedJobUID v) (ro_TerminatedPodUIDs v) (ro_LifetimeReleased v) (ro_LastWarningAt v)));
  ("targets", on_field ro_Targets (fun v x => mkRawOp (ro_Placement v) x (ro_ObserverID v) (ro_State v) (ro_CompletedJobUID v) (ro_TerminatedPodUIDs v) (ro_LifetimeReleased v) (ro_LastWarningAt v)));
  ("observerID", on_field ro_ObserverID (fun v x => mkRawOp (ro_Placement v) (ro_Targets v) x (ro_State v) (ro_CompletedJobUID v) (ro_TerminatedPodUIDs v) (ro_LifetimeReleased v) (ro_LastWarningAt v)));
  ("state", on_field ro_State (fun v x => mkRawOp (ro_Placement v) (ro_Targets v) (ro_ObserverID v) x (ro_CompletedJobUID v) (ro_TerminatedPodUIDs v) (ro_LifetimeReleased v) (ro_LastWarningAt v)));
  ("completedJobUID", on_field ro_CompletedJobUID (fun v x => mkRawOp (ro_Placement v) (ro_Targets v) (ro_ObserverID v) (ro_State v) x (ro_TerminatedPodUIDs v) (ro_LifetimeReleased v) (ro_LastWarningAt v)));
  ("terminatedPodUIDs", on_field ro_TerminatedPodUIDs (fun v x => mkRawOp (ro_Placement v) (ro_Targets v) (ro_ObserverID v) (ro_State v) (ro_CompletedJobUID v) x (ro_LifetimeReleased v) (ro_LastWarningAt v)));
  ("lifetimeReleased", on_field ro_LifetimeReleased (fun v x => mkRawOp (ro_Placement v) (ro_Targets v) (ro_ObserverID v) (ro_State v) (ro_CompletedJobUID v) (ro_TerminatedPodUIDs v) x (ro_LastWarningAt v)));
  ("lastWarningAt", on_field ro_LastWarningAt (fun v x => mkRawOp (ro_Placement v) (ro_Targets v) (ro_ObserverID v) (ro_State v) (ro_CompletedJobUID v) (ro_TerminatedPodUIDs v) (ro_LifetimeReleased v) x))]).
Definition of_raw (v : raw_operation) : recoveryOperation :=
  let t := ro_Targets v in
  mkOp (ro_Placement v) (GuardConfig.mkConfig (rc_ClusterUID t) (rc_OperationUID t) (elements_of (rc_Targets t))) (ro_ObserverID v) (ro_State v)
    (ro_CompletedJobUID v) (elements_of (ro_TerminatedPodUIDs v)) (ro_LifetimeReleased v) (ro_LastWarningAt v).
Definition decode_operation (text : string) : option recoveryOperation := of_raw <$> @StrictJSON raw_operation _ text.
Definition placement_json (p : RecoveryPlacement) : json := JObject [
  ("clusterUID", JText (rl_ClusterUID p)); ("namespace", JText (rl_Namespace p)); ("cluster", JText (rl_Cluster p));
  ("operationID", JText (rl_OperationID p)); ("bootstrapSHA256", JText (rl_BootstrapSHA256 p)); ("source", JText (rl_Source p));
  ("destination", JText (rl_Destination p)); ("sourceConfigSHA256", JText (rl_SourceConfigSHA256 p));
  ("destinationConfigSHA256", JText (rl_DestinationConfigSHA256 p))].
Definition config_json (c : GuardConfig.Config) : json := JObject [
  ("clusterUID", JText (cf_ClusterUID c)); ("operationUID", JText (cf_OperationUID c)); ("targets", JArray (map target_json (cf_Targets c)))].
(** Members with [omitempty]. *)
Definition text_member (k v : string) : list (string * json) := if v ==? "" then [] else [(k, JText v)].
Definition operation_json (op : recoveryOperation) : json := JObject (
  [("placement", placement_json (op_Placement op)); ("targets", config_json (op_Targets op)); ("observerID", JText (op_ObserverID op));
   ("state", JText (op_State op))]
  ++ text_member "completedJobUID" (op_CompletedJobUID op)
  ++ (match op_TerminatedPodUIDs op with [] => [] | l => [("terminatedPodUIDs", JArray (map JText l))] end)
  ++ [("lifetimeReleased", JBool (op_LifetimeReleased op))]
  ++ text_member "lastWarningAt" (op_LastWarningAt op)).
Definition operation_text (op : recoveryOperation) : string := print (operation_json op).

Definition operationName (c : Cluster) : string := cl_Name c +:+ "-cb-recovery".
Definition operationFrom (o : Object) (c : Cluster) : res recoveryOperation :=
  if (ob_controller o !=? Some (cl_UID c, "Cluster")) || ob_deleting o then Err ErrIdentity else
  match ob_data o !! "operation.json" with
  | None => Err ErrInvalid
  | Some text =>
      if 128 * 1024 <? len text then Err ErrInvalid else
      match decode_operation text with
      | None => Err ErrInvalid
      | Some st =>
          if (rl_ClusterUID (op_Placement st) !=? cl_UID c) || (rl_OperationID (op_Placement st) !=? OperationUID c)
             || is_err (Config_Validate (op_Targets st)) then Err ErrIdentity else Ok st
      end
  end.
Definition with_state (op : recoveryOperation) (s : string) : recoveryOperation :=
  mkOp (op_Placement op) (op_Targets op) (op_ObserverID op) s (op_CompletedJobUID op) (op_TerminatedPodUIDs op) (op_LifetimeReleased op) (op_LastWarningAt op).
Definition with_completion (op : recoveryOperation) (job : string) (pods : list string) : recoveryOperation :=
  mkOp (op_Placement op) (op_Targets op) (op_ObserverID op) "completed" job pods (op_LifetimeReleased op) (op_LastWarningAt op).
Definition with_release (op : recoveryOperation) : recoveryOperation :=
  mkOp (op_Placement op) (op_Targets op) (op_ObserverID op) (op_State op) (op_CompletedJobUID op) (op_TerminatedPodUIDs op) true (op_LastWarningAt op).
Definition with_warning (op : recoveryOperation) (t : string) : recoveryOperation :=
  mkOp (op_Placement op) (op_Targets op) (op_ObserverID op) (op_State op) (op_CompletedJobUID op) (op_TerminatedPodUIDs op) (op_LifetimeReleased op) t.

(** ** Termination *)
Definition bad_reason (r : string) : bool := (r ==? "ContainerStatusUnknown") || (r ==? "Unknown") || (r ==? "NodeLost").
Definition status_ok (s : ContainerStatus) : bool :=
  match cs_Terminated s with
  | Some t => tm_finished t && (cs_ContainerID s !=? "") && negb (bad_reason (tm_Reason t))
  | None => false
  end.
(** [check]: as many statuses as containers, each terminated, no name twice, every container named. *)
Fixpoint statuses_ok (seen : list string) (l : list ContainerStatus) : option (list string) :=
  match l with
  | [] => Some seen
  | s :: l => if negb (status_ok s) || bool_decide (cs_Name s ∈ seen) then None else statuses_ok (cs_Name s :: seen) l
  end.
Definition containers_ok (names : list string) (statuses : list ContainerStatus) : bool :=
  (length names =? length statuses)%nat &&
  match statuses_ok [] statuses with Some seen => forallb (fun n => bool_decide (n ∈ seen)) names | None => false end.
Definition exited_zero (s : ContainerStatus) : bool := match cs_Terminated s with Some t => tm_ExitCode t =? 0 | None => false end.
Definition terminatedPod (p : Pod) : bool :=
  if pd_deleting p || ((pd_Phase p !=? "Succeeded") && (pd_Phase p !=? "Failed")) || (pd_Reason p ==? "NodeLost") || (pd_Reason p ==? "Shutdown")
     || (pd_Reason p ==? "Evicted") then false else
  if (pd_Phase p ==? "Succeeded") && negb (forallb exited_zero (pd_ContainerStatuses p)) then false else
  containers_ok (pd_Containers p) (pd_ContainerStatuses p) && containers_ok (pd_InitContainers p) (pd_InitContainerStatuses p)
  && containers_ok (pd_EphemeralContainers p) (pd_EphemeralContainerStatuses p).
Definition job_finished (j : Job) : res bool :=
  forM (jb_Conditions j) false (fun complete '(t, s) =>
    if (t ==? "Failed") && (s ==? "True") then Err ErrOther else Ok (complete || ((t ==? "Complete") && (s ==? "True")))).
Definition job_settled (j : Job) : bool :=
  (jb_UID j !=? "") && (jb_Active j =? 0) && (jb_Succeeded j =? 1) && (jb_Parallelism j ==? Some 1) && (jb_Completions j ==? Some 1)
  && negb (jb_uncounted j).

(** [activeOperation]: the sidecar's copy of the operation still says that this very placement is active. *)
Definition activeOperation (root : string) (p : RecoveryPlacement) : oprog (res ()) :=
  let* b := ConfigSnapshot.Read root "operation.json" (128 * 1024) in
  match decode_operation b with
  | None => fail ErrOther
  | Some op => if (op_State op !=? "active") || (op_Placement op !=? p) then fail ErrOther else done ()
  end.

(** ** LIST, page by page *)
Definition selector (c : Cluster) : string := "cnpg.io/cluster=" +:+ cl_Name c.
Definition visit_items {B} (visit : B -> Item -> res B) (items : list Item) (count : Z) (acc : B) : res (Z * B) :=
  forM items (count, acc) (fun '(count, acc) i =>
    if 1024 <? count + 1 then Err ErrCapacity else let? acc := visit acc i in Ok (count + 1, acc)).
(** Every page but the last holds an item and at most 1024 are visited, so 1026 pages are enough. *)
Definition page_bound : nat := 1026.
Fixpoint pages {B} (fuel : nat) (kind : string) (c : Cluster) (cursor : string) (count : Z) (acc : B) (visit : B -> Item -> res B) : kprog (res B) :=
  match fuel with
  | O => fail Panic
  | S fuel =>
      let* (items, next) := call (KList kind (cl_Namespace c) (selector c) cursor) in
      match visit_items visit items count acc with
      | Err e => fail e
      | Ok (count, acc) =>
          if next ==? "" then done acc else
          if (next ==? cursor) || (Z.of_nat (length items) =? 0) then fail ErrCorrupt else pages fuel kind c next count acc visit
      end
  end.
Definition visitRecoveryObjects {B} (kind : string) (c : Cluster) (acc : B) (visit : B -> Item -> res B) : kprog (res B) :=
  pages page_bound kind c "" 0 acc visit.

Definition job_visit (c : Cluster) (job : option Job) (i : Item) : res (option Job) :=
  match i with
  | JobItem (Some j) =>
      if jb_operation j !=? OperationUID c then Ok job else
      if (jb_controller j !=? Some (cl_UID c)) || jb_deleting j || match job with Some _ => true | None => false end then Err ErrOther
      else Ok (Some j)
  | _ => Err ErrOther
  end.
Record pod_count := mkCount { pc_ids : list string; pc_waiting : bool; pc_succeeded : Z; pc_failed : Z }.
Definition pod_visit (c : Cluster) (job : Job) (observed : gmap string string) (n : pod_count) (i : Item) : res pod_count :=
  match i with
  | PodItem operation pod =>
      if operation !=? OperationUID c then Ok n else
      match pod with
      | None => Err ErrOther
      | Some p =>
          if observed !! pd_UID p !=? Some (pd_ResourceVersion p) then Ok (mkCount (pc_ids n) true (pc_succeeded n) (pc_failed n)) else
          if (pd_controller p !=? Some (jb_UID job)) || negb (terminatedPod p) then Err ErrOther else
          let ok := pd_Phase p ==? "Succeeded" in
          Ok (mkCount (pc_ids n ++ [pd_UID p]) (pc_waiting n) (pc_succeeded n + if ok then 1 else 0) (pc_failed n + if ok then 0 else 1))
      end
  | JobItem _ => Err ErrOther
  end.
(** [None]: not finished yet, or the watch has not caught up. *)
Definition recoveryTermination (c : Cluster) (observed : gmap string string) : kprog (res (option (string * list string))) :=
  let* job := visitRecoveryObjects "jobs" c None (job_visit c) in
  match job with
  | None => if (0 <? size observed)%nat then fail ErrOther else done None
  | Some j =>
      match job_finished j with
      | Err e => fail e
      | Ok false => done None
      | Ok true =>
          if negb (job_settled j) then fail ErrOther else
          let* n := visitRecoveryObjects "pods" c (mkCount [] false 0 0) (pod_visit c j observed) in
          if pc_waiting n then done None else
          if negb (length (pc_ids n) =? size observed)%nat || negb (pc_succeeded n =? 1) || negb (pc_failed n =? jb_Failed j) then fail ErrOther
          else done (Some (jb_UID j, sort_slice String.ltb (pc_ids n)))
      end
  end.

Section Coordinator.
Context (L : Libraries) (base64 : string -> option string) (spec_hash : Spec -> string) (a : API).
Abbreviation get := (Get a).

Definition writeOperation (c : Cluster) (o : Object) (next : recoveryOperation) : kprog (option kerror) :=
  call (KUpdate "configmaps" (cl_Namespace c)
    (mkObj (ob_Name o) (ob_UID o) (ob_ResourceVersion o) (ob_controller o) (ob_deleting o) (ob_annotations o)
       {["operation.json" := operation_text next]} (ob_immutable o) (ob_spec o) (ob_Namespace o) (ob_Generation o) (ob_status o))).
(** The event object, reduced to its reason. *)
Definition recoveryWarning (c : Cluster) (reason : string) : kprog () :=
  let! _ := host now in
  let! _ := call (KCreate "events" (cl_Namespace c) (mkObj "" "" "" None false ∅ {["reason" := reason]} false "" (cl_Namespace c) 0 "")) in Ret ().
Definition changeRecoveryLifetime (c : Cluster) (source : Spec) (release : bool) : kprog (res ()) :=
  let* snap := repositorySnapshot L base64 a (cl_Namespace c) source in
  Ret (open_store L snap) ;;*
  let* dir := host (call (MkdirTemp "/cnpg-backup/control" "gate-")) in
  let! x := (let* repo := host (remote (Lifecycle.OpenSource (sp_RepositoryID source) dir)) in
             if release then host (remote (ReleaseLifetimeAfterTermination repo (cl_UID c) (OperationUID c)))
             else host (remote (EstablishLifetime repo (cl_UID c) (OperationUID c)))) in
  let! _ := host (fs (RemoveAll dir)) in
  Ret x.

(** ** Before the first Pod *)
Record coordinator := mkCoordinator { co_process : string; co_monitors : gmap string bool }.
Definition set_monitor (co : coordinator) (op : string) (over : bool) : coordinator :=
  mkCoordinator (co_process co) (<[op := over]> (co_monitors co)).
Definition find_operation (c : Cluster) (op : recoveryOperation) : kprog (result kerror Object) :=
  let! o := get "configmaps" (cl_Namespace c) (operationName c) in
  match o with
  | Err KNotFound =>
      let! created := call (KCreate "configmaps" (cl_Namespace c)
                         (owned_object c (operationName c) false {["operation.json" := operation_text op]})) in
      match created with
      | Err KAlreadyExists => get "configmaps" (cl_Namespace c) (operationName c)
      | _ => Ret created
      end
  | _ => Ret o
  end.
Definition warn_blocked (c : Cluster) (o : Object) (state : recoveryOperation) : kprog () :=
  let! t := host now in
  let due := match parse_time (op_LastWarningAt state) with Some previous => 300 * second <=? Sub t previous | None => true end in
  if negb due then Ret () else
  let! w := writeOperation c o (with_warning state (format_rfc3339nano (Truncate t))) in
  match w with None => recoveryWarning c "RepositoryAdmissionBlocked" | Some _ => Ret () end.
Definition start_watch (co : coordinator) (c : Cluster) : kprog (coordinator * res ()) :=
  let! first := call (KFirst (cl_Namespace c) (selector c)) in
  match first with
  | Err _ => Ret (co, Err ErrOther)
  | Ok (n, next, version) =>
      if (0 <? n)%nat || (next !=? "") then Ret (co, Err ErrOther) else
      let! w := call (KWatch (cl_Namespace c) (selector c) version) in
      match w with
      | WatchLate => Ret (co, Err ErrContext)
      | WatchFailed => Ret (co, Err ErrOther)
      | WatchOpen => Ret (set_monitor co (OperationUID c) false, Ok ())
      end
  end.
Definition ensureRecovery (co : coordinator) (c : Cluster) (placement : RecoveryPlacement) (guard : GuardConfig.Config) (source : Spec)
    : kprog (coordinator * res ()) :=
  let! o := find_operation c (mkOp placement guard (co_process co) "active" "" [] false "") in
  match o with
  | Err _ => Ret (co, Err ErrOther)
  | Ok o =>
      match operationFrom o c with
      | Err _ => Ret (co, Err ErrIdentity)
      | Ok state =>
          if (op_Placement state !=? placement) || (op_Targets state !=? guard) then Ret (co, Err ErrIdentity) else
          if op_State state !=? "active" then Ret (co, Err ErrOther) else
          if op_ObserverID state !=? co_process co then
            let! _ := writeOperation c o (with_state state "uncertain") in Ret (co, Err ErrOther)
          else
            let! held := changeRecoveryLifetime c source false in
            match held with
            | Err _ => let! _ := warn_blocked c o state in Ret (co, Err ErrOther)
            | Ok _ =>
                match co_monitors co !! OperationUID c with
                | Some true => Ret (co, Err ErrOther)
                | Some false => Ret (co, Ok ())
                | None =>
                    if (16 <=? size (co_monitors co))%nat then Ret (co, Err ErrCapacity) else start_watch co c
                end
            end
      end
  end.

(** ** The watch *)
(** [uncertain]: whether the operation is durably closed afterwards. *)
Definition uncertain (c : Cluster) (observer : string) : kprog bool :=
  let! o := get "configmaps" (cl_Namespace c) (operationName c) in
  match o with
  | Err _ => Ret false
  | Ok o =>
      match operationFrom o c with
      | Err _ => Ret false
      | Ok got =>
          if op_ObserverID got !=? observer then Ret false else
          if (op_State got ==? "uncertain") || (op_State got ==? "completed") then Ret true else
          if op_State got ==? "active" then
            let! w := writeOperation c o (with_state got "uncertain") in
            match w with Some _ => Ret false | None => let! _ := recoveryWarning c "RetentionBlocked" in Ret true end
          else Ret false
      end
  end.
(** [releaseCompletedRecovery], for at most [fuel] turns of its ticker. *)
Fixpoint releaseCompletedRecovery (fuel : nat) (c : Cluster) (source : Spec) : kprog () :=
  match fuel with
  | O => Ret ()
  | S fuel =>
      let again : kprog () := let! t := call KTick in match t with true => releaseCompletedRecovery fuel c source | false => Ret () end in
      let! o := get "configmaps" (cl_Namespace c) (operationName c) in
      match o with
      | Err _ => again
      | Ok o =>
          match operationFrom o c with
          | Err _ => Ret ()
          | Ok state =>
              if (op_State state !=? "completed") || (op_CompletedJobUID state ==? "") || (length (op_TerminatedPodUIDs state) =? 0)%nat then Ret () else
              if op_LifetimeReleased state then Ret () else
              let! e := changeRecoveryLifetime c source true in
              match e with
              | Err _ => again
              | Ok _ => let! w := writeOperation c o (with_release state) in match w with None => Ret () | Some _ => again end
              end
          end
      end
  end.
(** What follows a terminal Pod or a tick: [None] means that the watch goes on. *)
Definition try_complete (fuel : nat) (c : Cluster) (source : Spec) (observer : string) (pods : gmap string string) : kprog (option bool) :=
  let abandon : kprog (option bool) := let! b := uncertain c observer in Ret (Some b) in
  let! t := recoveryTermination c pods in
  match t with
  | Err _ => abandon
  | Ok None => Ret None
  | Ok (Some (job, ids)) =>
      let! o := get "configmaps" (cl_Namespace c) (operationName c) in
      match o with
      | Err _ => abandon
      | Ok o =>
          match operationFrom o c with
          | Err _ => abandon
          | Ok got =>
              if (op_State got !=? "active") || (op_ObserverID got !=? observer) then abandon else
              let! w := writeOperation c o (with_completion got job ids) in
              match w with
              | Some _ => abandon
              | None => let! _ := releaseCompletedRecovery fuel c source in Ret (Some true)
              end
          end
      end
  end.
(** [observeRecovery], for at most [fuel] turns: [Some b] when it returned, with whether the operation is durably closed. *)
Fixpoint observeRecovery (fuel : nat) (c : Cluster) (source : Spec) (observer : string) (pods : gmap string string) : kprog (option bool) :=
  match fuel with
  | O => Ret None
  | S fuel =>
      let abandon : kprog (option bool) := let! b := uncertain c observer in Ret (Some b) in
      let complete pods : kprog (option bool) :=
        let! x := try_complete fuel c source observer pods in
        match x with Some b => Ret (Some b) | None => observeRecovery fuel c source observer pods end in
      let! r := call KRound in
      match r with
      | WatchCtx | WatchClosed | WatchError | WatchForeign => abandon
      | WatchBookmark => observeRecovery fuel c source observer pods
      | WatchTick => complete pods
      | WatchEvent deleted o phase =>
          if default "" (ob_annotations o !! operationAnnotation) !=? OperationUID c then observeRecovery fuel c source observer pods else
          if deleted || ob_deleting o then abandon else
          if (ob_UID o ==? "") || (ob_ResourceVersion o ==? "") || (1024 <=? size pods)%nat then abandon else
          let pods := <[ob_UID o := ob_ResourceVersion o]> pods in
          if (phase !=? "Succeeded") && (phase !=? "Failed") then observeRecovery fuel c source observer pods else complete pods
      end
  end.
(** The deferred part: a durably closed operation needs no fence in memory. *)
Definition observation_over (co : coordinator) (c : Cluster) (durablyClosed : bool) : coordinator :=
  if durablyClosed then mkCoordinator (co_process co) (delete (OperationUID c) (co_monitors co))
  else match co_monitors co !! OperationUID c with Some _ => set_monitor co (OperationUID c) true | None => co end.

(** ** After a restart *)
Definition owns_recovery (c : Cluster) : bool := existsb (own_source (sc_Recovery (cl_Spec c))) (sc_External (cl_Spec c)).
(** What the metrics are told: the state, when it was read, and whether it is known.  [None]: the Cluster is not ours. *)
Definition finish_release (c : Cluster) (cm : Object) (state : recoveryOperation) (known : bool) : kprog (option recoveryOperation * bool) :=
  let! source := API_Repository L base64 a (cl_Namespace c) (rl_Source (op_Placement state)) in
  match source with
  | Err _ => Ret (Some state, known)
  | Ok source =>
      if spec_hash source !=? rl_SourceConfigSHA256 (op_Placement state) then Ret (Some state, known) else
      let! e := changeRecoveryLifetime c source true in
      match e with
      | Err _ => Ret (Some state, known)
      | Ok _ => let! w := writeOperation c cm (with_release state) in
                Ret (Some (with_release state), match w with None => known | Some _ => false end)
      end
  end.
Definition reconcileRecoveryOperation (process : string) (c : Cluster) : kprog (option (option recoveryOperation * bool)) :=
  if negb (owns_recovery c) then Ret None else
  let! x := (
    let! cm := get "configmaps" (cl_Namespace c) (operationName c) in
    match cm with
    | Err _ => Ret (None, false)
    | Ok cm =>
        match operationFrom cm c with
        | Err _ => Ret (None, false)
        | Ok state =>
            let stale := (op_State state ==? "active") && (op_ObserverID state !=? process) in
            let next := if stale then with_state state "uncertain" else state in
            let! refused := (if stale then
                               let! w := writeOperation c cm next in
                               match w with Some _ => Ret true | None => let! _ := recoveryWarning c "RetentionBlocked" in Ret false end
                             else Ret false) in
            if refused then Ret (Some next, false) else
            let known := (op_State next ==? "active") || (op_State next ==? "uncertain") || (op_State next ==? "completed") in
            if (op_State next !=? "completed") || op_LifetimeReleased next || (op_CompletedJobUID next ==? "")
               || (length (op_TerminatedPodUIDs next) =? 0)%nat then Ret (Some next, known)
            else finish_release c cm next known
        end
    end) in
  Ret (Some x).
End Coordinator.
