(* ===== verification/CnpgDemo.v ===== *)
(** * A concrete Cluster and its environment

    A Cluster that recovers from the repository of Memory.v, the plan of its recovery, and an environment in which local operations
    succeed, over the in-memory bucket.  The witnesses of the callbacks run in it. *)

From S2P Require Import Guard.
From S2P Require Import Prelude GoStrings GoTime Sha256 Errors Schema Json LooseJson Prog Store WalNames GuardConfig Admission Gate Repository Transfer Memory RecoveryPlan Restore WalArchive.
From S2P Require Import S3Keys S3Config Configuration Capacity NativePath NativeOps NativeArchive NativeManifest NativeText NativeBudget NativeSafety ConfigSnapshot NativeEvidence CnpgCluster CnpgOps.

Definition demo_definition : string := "{cluster}".
Definition demo_parameters (name : string) : option (gmap string string) := Some {["repository" := name]}.
Definition cnpg_cluster : Cluster :=
  mkCluster "postgresql.cnpg.io/v1" "Cluster" "restored" "db" demo_cluster None
    (mkClusterSpec ("ghcr.io/cloudnative-pg/postgresql@" +:+ DatabaseDigest) "10Gi" None 26 26 [mkPlugin PluginName true (demo_parameters "mine")]
       "" "" [] (Some (mkRecovery "origin" None)) [("origin", Some (mkPlugin PluginName false (demo_parameters "theirs")))] (mkCertificates "" "" "")).
Definition cnpg_operation : string := Eval vm_compute in OperationUID cnpg_cluster.
Definition cnpg_fingerprint : string := Eval vm_compute in BootstrapFingerprint cnpg_cluster.
Definition cnpg_tuple : Tuple := mkTuple (GuardConfig.mkOwner demo_cluster cnpg_operation ex_pod ex_guard) ex_process.
Definition cnpg_segment : string := "000000010000000000000002".
Definition cnpg_plan : RecoveryPlan :=
  mkRecoveryPlan
    (mkPlan 1 ex_identity "77777777-7777-4777-8777-777777777777" demo_cluster cnpg_fingerprint cnpg_operation cnpg_operation (ho_ID demo_reader)
       demo_plan_target [mkTimeline 1 None; mkTimeline 2 (Some "0/3000000")] [demo_commit]
       (Some [mkWALRange 1 "0/2000100" "0/3000000"; mkWALRange 2 "0/3000000" "0/4000000"]))
    cnpg_tuple demo_definition {[cnpg_segment := mkIntegrity (id_WALSegmentBytes ex_identity) ex_hash]} true.
Definition demo_libraries : Libraries := mkLibraries
  (fun l => l) (fun _ => true) (fun _ => true) (fun _ => None) (fun _ => None) (fun _ => None) (fun _ => "") (fun r _ => Some r)
  (fun _ => None) (fun _ => None) (fun _ _ => None) (fun _ _ _ _ => false) (fun _ => Err ErrOther)
  (fun _ => Some cnpg_cluster) (fun _ => demo_definition) (fun _ => None) (fun _ => Some cnpg_plan) (fun _ => "plan")
  tag_gzip tag_gunzip tag_header (fun _ _ => demo_tar) 0 1 2.
Definition cnpg_service : Service := mkService true true false cnpg_plan (Some demo_restore_hold) true (Some (mkFiles demo "gzip")) demo_budgets.

Definition demo_os : Prog.handler (E := os) memory := fun X e m =>
  match e in os X return X * memory with
  | Remote e => memory_handler _ e m | Fs _ => (None, m) | MkdirTemp d p => (Ok (within d p), m) | CreateTemp d p => (Ok (within d p), m)
  | Open _ => (Ok "plan", m) | Pass _ => (None, m) | Tape _ => (None, m) | Lstat _ => (Some (FRegular, 4), m) | Stat _ => (Err IsNotExist, m)
  | ReadDir _ => (Err ErrOther, m) | WalkDir _ => ([], m) | EvalSymlinks p => (Some p, m) | AllocationUnit _ => (Some 8192, m)
  | ReadKernel => (demo_kernel, m) | Tool _ _ _ => (Err ErrOther, m)
  | SpaceRounds => ([], m) | SizeRounds => ([], m) | CaptureRounds => ([], m) | Projected _ _ => (Err ErrOther, m) | Setup _ => (Ok (), m)
  end.
Definition demo_cn (service : Service) : Prog.handler (E := cn) memory := fun X e m =>
  match e in cn X return X * memory with
  | Native e => demo_os _ e m
  | Destination e => (demo_store e, m)
  | OpenSource _ => (Ok demo_source, m) | Rename _ _ => (None, m)
  | Acquire _ => (true, m) | Release _ => ((), m)
  | CnpgOps.ActiveTuple => (Ok cnpg_tuple, m) | AdmitTask _ => (Ok (), m) | TaskDone => ((), m) | CloseAdmission => ((), m)
  | Lock => (service, m) | Unlock _ => ((), m)
  | Hostname => (Some "restored-1", m) | Getenv _ => (ex_pod, m)
  end.
Example cnpg_plan_valid : RecoveryPlan_validate (fun l => l) (fun _ => true) (fun _ => Some cnpg_cluster) (fun _ => demo_definition) cnpg_plan = Ok ().
Proof. vm_compute. reflexivity. Qed.

(** ** An ordinary sidecar: its projected files and its libraries *)
Definition text_of (k v : string) : string := member_of k (quoted v).
Definition selector_json : string := object_of [text_of "name" "keys"; text_of "key" "value"].
Definition spec_json : string := object_of
  [text_of "repositoryID" (id_RepositoryID ex_identity);
   member_of "s3" (object_of [text_of "endpoint" "https://s3.example"; text_of "bucket" "bucket"; text_of "prefix" "p";
     member_of "accessKeySecret" selector_json; member_of "secretKeySecret" selector_json]);
   member_of "workspace" (object_of [text_of "storageClassName" "fast"])].
Definition wal_json : string := object_of
  [text_of "clusterUID" demo_cluster; text_of "namespace" "db"; text_of "cluster" "restored"; text_of "repository" "mine";
   text_of "walDirectory" (pgdataPath +:+ "/pg_wal")].
Definition capacity_json : string := "[" +:+ join "," (map (fun m => object_of [text_of "mount" m; member_of "limitBytes" "10737418240"; member_of "requiredBytes" "0"])
  ["/cnpg-backup/work"; "/var/lib/postgresql/data"]) +:+ "]".
Definition projected_files (p : string) : string :=
  if HasSuffix p "/wal.json" then wal_json
  else if HasSuffix p "/capacity.json" then capacity_json
  else if HasSuffix p "/connection.json" then object_of [text_of "host" "db-rw.ns.svc"; member_of "tablespaces" "{}"]
  else if HasSuffix p "/repository.json" then spec_json
  else "x".
Definition demo_duration (s : string) : option Z :=
  if s ==? "10s" then Some (10 * second) else if s ==? "30s" then Some (30 * second) else if s ==? "120s" then Some (120 * second)
  else if s ==? "15m" then Some (900 * second) else if s ==? "1h" then Some hour_ns else if s ==? "6h" then Some (6 * hour_ns)
  else if s ==? "24h" then Some (24 * hour_ns) else if s ==? "192h" then Some (192 * hour_ns) else None.
Definition demo_certificate : Certificate := mkCertificate true 0 (2 ^ 80) "streaming_replica" "der".
Definition sidecar_libraries : Libraries := mkLibraries
  (fun l => l) (fun _ => true) (fun _ => true) (fun _ => Some (16 * GiB)) demo_duration (fun _ => Some (mkURL "https" "s3.example" false "" false "" "" ""))
  (fun _ => "s3.example") (fun r _ => Some r)
  (fun _ => Some ("CERTIFICATE", "der", "")) (fun _ => Some demo_certificate) (fun _ _ => Some ["der"]) (fun _ _ _ _ => true)
  (fun _ => Ok (mkOpened (S3Keys.mkS3Store "bucket" "p" 1) "s3.example" 0 0 0 0 0 1 1))
  (fun _ => Some cnpg_cluster) (fun _ => demo_definition) (fun _ => None) (fun _ => Some cnpg_plan) (fun _ => "plan")
  tag_gzip tag_gunzip tag_header (fun _ _ => demo_tar) 0 1 2.
Definition sidecar_os : Prog.handler (E := os) memory := fun X e m =>
  match e in os X return X * memory -> X * memory with
  | Projected p _ => fun _ => (Ok (projected_files p), m)
  | Tool _ tool args => fun _ => (small_tool tool args, m)
  | _ => fun d => d
  end (demo_os X e m).
Definition sidecar : Prog.handler (E := cn) memory := fun X e m =>
  match e in cn X return X * memory -> X * memory with
  | CnpgOps.Native e => fun _ => sidecar_os _ e m
  | _ => fun d => d
  end (demo_cn cnpg_service X e m).
