(* ===== verification/CnpgWalSafety.v ===== *)
(** * What a WAL status means (internal/cnpgi/wal.go, recovery_wal.go, wal_fetch.go)

    PostgreSQL ends recovery at the first segment its restore command reports as missing.  The theorems say when the helper may do that,
    and that archiving is acknowledged only for what the archive really holds. *)

From S2P Require Import Guard.
From S2P Require Import Prelude GoStrings GoTime Sha256 Errors Schema Json LooseJson Prog ProgRules Store Disk WalNames GuardConfig Gate Repository Memory RecoveryPlan Lifecycle Restore WalArchive.
From S2P Require Import S3Config Configuration Capacity NativePath NativeOps NativeInput NativeText NativeBudget NativeRestore ConfigSnapshot NativeCapture NativePreflight CnpgCluster CnpgOps CnpgWal CnpgDemo.

(** ** Repository programs below the plugin *)
(** A slot changes nothing about the body's result. *)
Lemma wp_with_slot {A} slot (refused : A) body (Q : ctrace -> A -> Prop) tr : (forall a, stable (fun tr => Q tr a)) ->
  (forall tr, Q tr refused) -> (forall tr, wp anything Q body tr) -> wp anything Q (with_slot slot refused body) tr.
Proof.
  intros Hs Hr Hb. apply wp_call; [done|]. intros [|]; cbv beta iota delta [negb]; [|apply Hr]. apply wp_bind. eapply wp_mono; [|apply Hb]. intros tr' a Ha.
  split; [done|]. intros []. eapply Hs; [apply extends_cons|exact Ha].
Qed.

(** ** Absence in the archive *)
Section Miss.
Context (gunzip : string -> option (string * string)) (gzip_header : string -> bool) (r : Repository) (compression : string).
Lemma absent_stable name : stable (absent r compression name).
Proof.
  intros tr tr' He (key & max & e & H1 & H2 & H3). exists key, max, e. split; [done|]. split; [done|].
  destruct H3 as [H|[(h & Ha & Hh & Hb)|[(ig & H)|H]]].
  - left. by eapply extends_elem.
  - right. left. exists h. split_and!; [by eapply extends_elem|done|by eapply extends_elem].
  - right. right. left. exists ig. by eapply extends_elem.
  - do 3 right. by eapply extends_elem.
Qed.
Lemma explains_bindE {A B} (p : prog (res A)) (f : A -> prog (res B)) N : stable N -> explains p N -> (forall a, explains (f a) N) -> explains (bindE p f) N.
Proof.
  intros HN Hp Hf. eapply reads_bind; [exact Hp|]. intros [a|e].
  - eapply reads_mono; [|exact (Hf a)]. by intros tr' [b|e] H tr _ _.
  - apply reads_ret. intros tr' tr Hq H Hn. eapply HN; [by apply quiet_extends|by apply H].
Qed.
Lemma check_ctx_explains name key max : Limits r compression name = Ok (key, max) -> explains check_ctx (absent r compression name).
Proof.
  intros Hl. apply explains_call; [done|]. intros [e|]; [|by apply reads_ret]. apply explains_answer. intros tr Hn Hc. exists key, max, e.
  split; [done|]. split; [done|]. by do 3 right.
Qed.
Lemma explains_published name destination key max : Limits r compression name = Ok (key, max) ->
  explains (publish_retrieved gunzip gzip_header r compression name destination) (absent r compression name).
Proof.
  intros El. unfold publish_retrieved. eapply explains_bindE; [apply absent_stable|apply Retrieve_explains|]. intros [ig out].
  apply explains_disk_or; [done|]. eapply explains_bindE; [apply absent_stable|by eapply check_ctx_explains|]. intros [].
  apply explains_disk_or; [done|]. by apply reads_ret.
Qed.
Lemma Restore_miss name destination tr : wp (fun _ _ _ => True) (fun tr x => forall e, x.2 = Err e -> Is e NotFound = true ->
  x.1 = None /\ absent r compression name tr) (WalArchive.Restore gunzip gzip_header r compression name destination) tr.
Proof.
  unfold WalArchive.Restore. destruct (Limits r compression name) as [[key max]|e] eqn:El.
  2: { apply Limits_error in El as ->. by intros e [= <-]. }
  wp_if as Ed; [by intros e [= <-]|]. apply wp_bind. apply (wp_mono _ (fun _ x => match x with Err e => Is e NotFound = false | Ok _ => True end)).
  - intros tr0 [[]|e] H0; [|by intros e' [= <-]; rewrite H0]. eapply wp_reads; [done|by eapply explains_published|]. intros tr1 [out|e] _ H.
    + apply wp_bind, wp_bind. split; [done|]. intros [e|]; cbn; (split; [done|]); intros x e' Hx; cbn in Hx; [by injection Hx as <-|done].
    + cbn [bind]. split; [done|]. intros x e' [= <-] Hn. split; [done|]. eapply absent_stable; [apply extends_cons|by apply H].
  - do 2 (apply local_or_wp; [done|done|]; intros ? _). split; [done|]. intros [e|]; [done|]. split; [done|]. by intros [e|].
Qed.
End Miss.

(** ** The answer of the archive *)
Section Answers.
Context (L : Libraries).
(** The segment was retrieved and verified, and the file operations leave exactly its bytes under the destination, also after a crash. *)
Definition supplied (f : Files) (name destination : string) (tr : ctrace) : Prop := exists ig out,
  retrieved (lb_gunzip L) (fl_Repository f) (fl_Compression f) name ig out (remote_trace tr) /\ leaves (persisted destination out) (remote_trace tr).
Definition missing_remote (f : Files) (name : string) (tr : ctrace) : Prop := absent (fl_Repository f) (fl_Compression f) name (remote_trace tr).
Definition local_verified (p : RecoveryPlan) (root name : string) (tr : ctrace) : Prop := exists ig s,
  rp_Bundled p !! name = Some ig /\ Act (OpenSource (within root name)) (Ok s) ∈ tr /\ so_regular s = true /\ so_unmodified s = true
  /\ len (so_read s) = ig_Size ig /\ digest (so_read s) = ig_SHA256 ig.
(** A segment that recovery may do without: no byte of it is required from the archive, the archive does not have it, and either the
    bundled file is in place, verified, or the name lies beyond everything the plan needs. *)
Definition excused (f : Files) (p : RecoveryPlan) (root name : string) (tr : ctrace) : Prop := exists bundle,
  Coverage (rp_Plan p) name = Ok (bundle, false) /\ missing_remote f name tr
  /\ (if bundle : bool then local_verified p root name tr else optionalFuture (rp_Plan p) name = true).
Definition context_miss (tr : ctrace) : Prop := exists c, Act CtxErr (Some c) ∈ remote_trace tr /\ Is c NotFound = true.
Lemma supplied_stable f name destination : stable (supplied f name destination).
Proof.
  intros tr tr' He%remote_extends (ig & out & H1 & H2). exists ig, out. split; [by eapply retrieved_stable|by eapply leaves_stable].
Qed.
Lemma missing_remote_stable f name : stable (missing_remote f name).
Proof. intros tr tr' He. apply absent_stable. by apply remote_extends. Qed.
Lemma local_stable p root name : stable (local_verified p root name).
Proof. intros tr tr' He (ig & s & H1 & H2 & H3). exists ig, s. split; [done|]. split; [by eapply extends_elem|done]. Qed.
Lemma excused_stable f p root name : stable (excused f p root name).
Proof.
  intros tr tr' He (b & H1 & H2 & H3). exists b. split; [done|]. split; [by eapply missing_remote_stable|]. destruct b; [by eapply local_stable|done].
Qed.
Lemma context_stable : stable context_miss.
Proof. intros tr tr' He (c & H1 & H2). exists c. split; [|done]. eapply extends_elem; [by apply remote_extends|done]. Qed.

Lemma restored_wp name f destination tr : wp anything (fun tr x =>
  match x.2 with Ok _ => supplied f name destination tr | Err e => Is e NotFound = true -> x.1 = None /\ missing_remote f name tr end)
  (restored L name f destination) tr.
Proof.
  eapply wp_mono; [|apply (wp_also _ _ _ _ _ (wp_source _ _ tr (fun str => Restore_wp (lb_gunzip L) (lb_gzip_header L) (fl_Repository f) (fl_Compression f) name destination str))
    (wp_source _ _ tr (fun str => Restore_miss (lb_gunzip L) (lb_gzip_header L) (fl_Repository f) (fl_Compression f) name destination str)))].
  intros tr' [[out|] [[]|e]] [H1 H2]; cbn in *.
  - destruct H1 as (_ & [ig H1] & Hl). exists ig, out. split; [done|by apply Hl].
  - intros Hn. by apply (H2 e).
  - done.
  - intros Hn. by apply (H2 e).
Qed.
Lemma context_wp tr : wp anything (fun tr x => match x with Ok _ => True | Err e => Is e NotFound = true -> context_miss tr end) (native check_context) tr.
Proof. split; [done|]. intros [e|]; [|done]. intros Hn. exists e. split; [by left|done]. Qed.
Lemma bundle_wp root name expected tr : wp anything (fun tr x =>
  match x with
  | Ok _ => exists s, Act (OpenSource (within root name)) (Ok s) ∈ tr /\ so_regular s = true /\ so_unmodified s = true
      /\ len (so_read s) = ig_Size expected /\ digest (so_read s) = ig_SHA256 expected
  | Err e => Is e NotFound = true -> context_miss tr
  end) (verifyLocalBundle root name expected) tr.
Proof.
  unfold verifyLocalBundle. apply wp_call; [done|]. intros [s|k]; [|done]. apply wp_past. intros tr1 st H1. wp_if as E1; [done|].
  unfold bindE at 1. eapply wp_knows; [apply context_wp|]. intros tr1' [[]|e] H1' Hc; [|exact Hc].
  apply wp_past. intros tr2 x H2. wp_if as E2; [done|]. wp_if as E3; [done|]. apply wp_past. intros tr3 st' H3. wp_if as E4; [done|].
  exists s. bool_split. split.
  - eapply extends_elem; [|left]. eapply extends_trans; [exact H1|]. eapply extends_trans; [exact H1'|]. by eapply extends_trans.
  - by split_and!.
Qed.
Lemma restoreSourceWAL_wp f p name root destination tr : wp anything (fun tr x =>
  match x.2 with Ok _ => supplied f name destination tr | Err e => Is e NotFound = true -> excused f p root name tr \/ context_miss tr end)
  (restoreSourceWAL L f p name root destination) tr.
Proof.
  unfold restoreSourceWAL. destruct (Coverage (rp_Plan p) name) as [[bundle remote]|e] eqn:Ec; [|done].
  eapply wp_knows; [apply restored_wp|]. intros tr1 [out [[]|e]] H1 H; cbn in H; [done|]. wp_if as En; [cbn; by rewrite (proj1 (negb_true_iff _) En)|].
  apply negb_false_iff in En. destruct (H En) as [_ Hm]. destruct remote; [done|]. destruct bundle.
  - destruct (rp_Bundled p !! name) as [expected|] eqn:Eb; [|done]. eapply wp_knows; [apply bundle_wp|]. intros tr2 [[]|e2] H2 Hv; cbn.
    + intros _. left. exists true. split; [done|]. split; [by eapply missing_remote_stable|]. destruct Hv as (s & Hv). exists expected, s. by split.
    + intros Hn. right. by apply Hv.
  - wp_if as Eo; [done|]. intros _. left. exists false. split; [done|]. split; [done|]. by apply negb_false_iff in Eo.
Qed.

(** ** The recovery callback *)
Lemma wal_not_found e : walError e = CNotFound -> Is e NotFound = true.
Proof. unfold walError. destruct (Is e NotFound); [done|]. repeat case_match; done. Qed.
Lemma forM_error {A B} (f : B -> A -> res B) l acc e : (forall b x e, f b x = Err e -> e = ErrOther) -> forM l acc f = Err e -> e = ErrOther.
Proof.
  intros Hf. revert acc. induction l as [|x l IH]; intros acc; cbn [forM]; [done|]. destruct (f acc x) eqn:E; cbn [res_bind]; [apply IH|].
  intros [= <-]. by eapply Hf.
Qed.
Lemma capacity_error k budgets e : CheckCapacity k budgets = Err e -> e = ErrOther.
Proof.
  unfold CheckCapacity, mounts. destruct (_ || _); [by intros [= <-]|]. destruct (k_mountinfo k) as [text|]; [|by intros [= <-]]. cbv zeta.
  destruct (forM (scan_lines _) _ _) as [[n l]|e'] eqn:E1; cbn [res_bind].
  - destruct (forM budgets _ _) as [?|e'] eqn:E2; cbn [res_bind]; [done|]. intros [= <-]. eapply forM_error; [|exact E2]. clear.
    intros b x e. unfold check_budget, finiteMount, checkSpace. repeat case_match; cbn [res_bind]; repeat case_match; try done; intros; by simplify_eq.
  - intros [= <-]. eapply forM_error; [|exact E1]. clear. intros [n l] x e. unfold mount_line. repeat case_match; cbn [res_bind]; intros; by simplify_eq.
Qed.
Definition answering (r : RestoreRequest) (s : Service) (f : Files) (tr : ctrace) : Prop :=
  Act Lock s ∈ tr /\ sv_files s = Some f /\ exists tuple, @StrictJSON Tuple _ (params (rq_Parameters r) "recoveryID") = Some tuple
  /\ Act (AdmitTask tuple) (Ok ()) ∈ tr /\ recovery_ready s tuple (rq_Definition r) = true.
Lemma answering_stable r s f : stable (answering r s f).
Proof.
  intros tr tr' He (H1 & H2 & tuple & H3 & H4 & H5). split; [by eapply extends_elem|]. split; [done|]. exists tuple.
  split_and!; [done|by eapply extends_elem|done].
Qed.
(** The destination of the request, a name of the Cluster's physical WAL directory, whose root was opened. *)
Abbreviation recovery_destination := (recoveryDestination (lb_range L) (lb_IsDNS1123Subdomain L) (lb_unmarshal L) (lb_marshal L)).
Definition rooted (c : Cluster) (tr : ctrace) : Prop := Act (Native (Setup ("root " +:+ physicalWAL c))) (Ok ()) ∈ tr.
Definition destined (r : RestoreRequest) (c : Cluster) (destination : string) (tr : ctrace) : Prop :=
  ParseCluster (lb_IsDNS1123Subdomain L) (lb_unmarshal L) (rq_Definition r) = Ok c
  /\ recovery_destination c (rq_SourceWalName r) (rq_DestinationFileName r) = Ok destination /\ rooted c tr.
Lemma destined_stable r c d : stable (destined r c d).
Proof. intros tr tr' He (H1 & H2 & H3). split; [done|]. split; [done|]. by eapply extends_elem. Qed.
Definition recovery_post (r : RestoreRequest) (tr : ctrace) (x : option string * cres ()) : Prop :=
  match x.2 with
  | Ok _ => exists s f c destination, answering r s f tr /\ destined r c destination tr /\ supplied f (rq_SourceWalName r) destination tr
  | Err CNotFound => exists s f c, answering r s f tr /\ ParseCluster (lb_IsDNS1123Subdomain L) (lb_unmarshal L) (rq_Definition r) = Ok c
      /\ (excused f (sv_plan s) (physicalWAL c) (rq_SourceWalName r) tr \/ context_miss tr)
  | Err _ => True
  end.
Lemma recovery_post_stable r x : stable (fun tr => recovery_post r tr x).
Proof.
  intros tr tr' He. unfold recovery_post. destruct (x.2) as [[]|[]]; try done.
  - intros (s & f & c & d & H1 & H2 & H3). exists s, f, c, d. split; [by eapply answering_stable|]. split; [by eapply destined_stable|by eapply supplied_stable].
  - intros (s & f & c & H1 & H2 & H3). exists s, f, c. split; [by eapply answering_stable|]. split; [done|].
    destruct H3; [left; by eapply excused_stable|right; by eapply context_stable].
Qed.
Lemma refuse_post r e tr : Is e NotFound = false -> recovery_post r tr (None, Err (walError e)).
Proof. intros He. unfold recovery_post. cbn. destruct (walError e) eqn:E; try done. apply wal_not_found in E. congruence. Qed.
Lemma prepared_wp s c tr : wp anything (fun tr (x : res ()) => match x with Err e => Is e NotFound = false | Ok _ => rooted c tr end)
  (let* reserved := Ret (walCapacity (sv_budgets s) (physicalWAL c) (id_WALSegmentBytes (p_Source (rp_Plan (sv_plan s)))) false) in
   native (check_capacity reserved) ;;*
   check_wal_links c ;;*
   let! local := native (call (Setup ("root " +:+ physicalWAL c))) in
   if is_err local then fail WalLocal else done ()) tr.
Proof.
  apply wp_bindE. cbn [wp]. unfold walCapacity. destruct (_ || _); [done|].
  apply wp_bindE. split; [done|]. intros k. cbn [native remote bind wp]. destruct (CheckCapacity k _) eqn:Ek; [|by rewrite (capacity_error _ _ _ Ek)].
  apply wp_bindE. eapply wp_mono; [|eapply (wp_visit_all _ (fun _ _ => True) (fun _ x => match x with Ok _ => True | Err e => e = WalInvalid end))]; try done.
  - intros tr' [[]|e] He; [|by subst]. split; [done|]. intros x. cbn [native bind]. destruct x as [[]|e]; [|done]. by left.
  - intros tr' [] p _ _. split; [done|]. intros x. cbn [native bind]. by destruct (x !=? _).
Qed.
Lemma recovery_read_wp r s c tuple destination tr : Act Lock s ∈ tr -> Act (AdmitTask tuple) (Ok ()) ∈ tr ->
  @StrictJSON Tuple _ (params (rq_Parameters r) "recoveryID") = Some tuple -> recovery_ready s tuple (rq_Definition r) = true ->
  ParseCluster (lb_IsDNS1123Subdomain L) (lb_unmarshal L) (rq_Definition r) = Ok c ->
  recovery_destination c (rq_SourceWalName r) (rq_DestinationFileName r) = Ok destination ->
  wp anything (recovery_post r) (recovery_read L s c (rq_SourceWalName r) destination) tr.
Proof.
  intros Hl Ha Ht Hr Hc Hd. unfold recovery_read. eapply wp_knows; [apply prepared_wp|]. intros tr1 [[]|e] H1 Hp; [|by apply refuse_post].
  destruct (sv_hold s) as [hold|]; [|done]. destruct (sv_files s) as [f|] eqn:Ef; [|done]. apply wp_past. intros tr2 [[]|e] H2; [|done].
  eapply wp_knows; [apply restoreSourceWAL_wp|]. intros tr3 [out x] H3 Hx. cbn in Hx |- *.
  assert (answering r s f tr3) as Hans.
  { assert (extends tr tr3) as He by (eapply extends_trans; [exact H1|by eapply extends_trans]).
    split; [by eapply extends_elem|]. split; [done|]. exists tuple. split_and!; [done|by eapply extends_elem|done]. }
  unfold recovery_post. destruct x as [[]|e]; cbn.
  { exists s, f, c, destination. split; [done|]. split; [|done]. split; [done|]. split; [done|]. eapply extends_elem; [|exact Hp]. by eapply extends_trans. }
  destruct (walError e) eqn:Ee; try done.
  exists s, f, c. split; [done|]. split; [done|]. apply Hx. by apply wal_not_found.
Qed.
Lemma recoveryWAL_wp r tr : wp anything (recovery_post r) (recoveryWAL_Restore L (Some r)) tr.
Proof.
  unfold recoveryWAL_Restore. wp_if as E; [by apply refuse_post|]. destruct (StrictJSON _) as [tuple|] eqn:Et; [|by apply refuse_post].
  destruct (ParseCluster _ _ (rq_Definition r)) as [c|] eqn:Ec; [|by apply refuse_post].
  destruct (recoveryDestination _ _ _ _ c _ _) as [destination|] eqn:Ed; [|by apply refuse_post]. apply wp_call; [done|]. intros [[]|e]; [|done].
  set (tr1 := Act (AdmitTask tuple) (Ok ()) :: tr). assert (Act (AdmitTask tuple) (Ok ()) ∈ tr1) as Ha by by left.
  apply wp_bind. unfold recovery_slot. eapply (wp_mono _ (recovery_post r)).
  { intros tr' x Hx. apply wp_call; [done|]. intros []. eapply recovery_post_stable; [apply extends_cons|exact Hx]. }
  unfold with_slot. apply wp_call; [done|]. intros [|]; cbv beta iota delta [negb]; [|done]. apply wp_bind.
  eapply (wp_mono _ (recovery_post r)).
  { intros tr' x Hx. apply wp_call; [done|]. intros []. eapply recovery_post_stable; [apply extends_cons|exact Hx]. }
  apply wp_call; [done|]. intros s. apply wp_call; [done|]. intros []. wp_if as Er; [by apply refuse_post|]. apply negb_false_iff in Er.
  eapply recovery_read_wp; [right; by left|by do 3 right|done..].
Qed.
End Answers.

(** C9: The restore command tells PostgreSQL the truth.  The helper exits with 0 only if the sidecar that answered, ready and admitted for
    exactly this plan and process, opened the Cluster's physical WAL directory and published the segment there: the archive's object of this name
    was retrieved and verified, and its file operations leave exactly these bytes under the destination of the request, in every directory and
    also after a crash.  It exits
    with 1, which PostgreSQL takes for the end of WAL, only if storage reported the absence of exactly this segment, no interval the
    plan requires from the archive overlaps it, and either the bundled local file was verified byte for byte or the name lies beyond
    everything the plan needs.  Every other outcome is the fatal 255.  (Context errors are not storage errors.) *)
Theorem recovery_exit_codes L args tr n :
  runs (WALFetch L (served L) args) [] tr n ->
  (forall c, Act CtxErr (Some c) ∈ remote_trace tr -> Is c NotFound = false) ->
  n = 255 \/ exists p name destination s f c,
    args = ["--plan"; helperPlanPath; "--"; name; destination] /\ answering (fetch_request L p name destination) s f tr
    /\ ParseCluster (lb_IsDNS1123Subdomain L) (lb_unmarshal L) (rp_ClusterDefinition p) = Ok c
    /\ ((n = 0 /\ exists target, destined L (fetch_request L p name destination) c target tr /\ supplied L f name target tr)
        \/ (n = 1 /\ excused f (sv_plan s) (physicalWAL c) name tr)).
Proof.
  intros Hr. pattern tr, n. match goal with |- ?P tr n => refine (wp_runs anything P _ _ _ _ _ Hr) end.
  clear Hr tr n. unfold WALFetch.
  destruct args as [|a1 [|a2 [|a3 [|name [|destination [|? ?]]]]]]; try (by left).
  wp_if as Ea; [by left|]. bool_split. subst. apply wp_past. intros tr1 [[p|]|e] _; try (by left). wp_if as Em; [by left|].
  destruct (ParseCluster _ _ (rp_ClusterDefinition p)) as [c|] eqn:Ec; [|by left]. wp_if as Ed; [by left|]. apply wp_past. intros tr2 x _.
  wp_if as Ex; [by left|]. unfold fetchWAL, served. apply wp_bind, wp_bind. eapply wp_mono; [|apply recoveryWAL_wp]. intros tr3 [out y] Hy.
  apply wp_call; [done|]. intros lost Hctx. destruct (is_err lost); cbn; [by left|].
  eapply recovery_post_stable in Hy; [|apply extends_cons]. unfold recovery_post in Hy. cbn in Hy. destruct y as [[]|[]]; try (by left); right.
  - destruct Hy as (s & f & c' & d & H1 & H2 & H3). exists p, name, destination, s, f, c'. split; [done|]. split; [exact H1|]. split; [apply H2|].
    left. split; [done|]. by exists d.
  - destruct Hy as (s & f & c' & H1 & H2 & H3). exists p, name, destination, s, f, c. split; [done|]. split; [exact H1|]. split; [done|]. right. split; [done|].
    rewrite Ec in H2. injection H2 as <-. destruct H3 as [H3|(e & H3 & H4)]; [exact H3|].
    cbn in H3. by rewrite (Hctx _ H3) in H4.
Qed.

Definition demo_args (name destination : string) : list string := ["--plan"; helperPlanPath; "--"; name; destination].
Definition demo_wal_fetch (name destination : string) : cprog Z := WALFetch demo_libraries (served demo_libraries) (demo_args name destination).
Definition demo_fetch_trace (name destination : string) : ctrace := run_trace (demo_cn cnpg_service) (demo_wal_fetch name destination) demo_restore_memory [].
Definition quiet_context (tr : ctrace) : bool :=
  forallb (fun a : Store.action => match a with Act CtxErr (Some _) => false | _ => true end) (remote_trace tr).
Lemma quiet_context_spec tr c : quiet_context tr = true -> Act CtxErr (Some c) ∈ remote_trace tr -> Is c NotFound = false.
Proof. intros H Hin. apply list_elem_of_In in Hin. unfold quiet_context in H. rewrite forallb_forall in H. by apply H in Hin. Qed.
(** A history file of a timeline that does not exist is optional: exit 1; one that the archive holds is published: exit 0; a segment that
    the plan requires and nobody has is fatal. *)
Definition optional_trace : ctrace := demo_fetch_trace "00000009.history" "pg_wal/RECOVERYHISTORY".
(** The repository of the restore, with the history file archived by a sidecar. *)
Definition supplied_memory : memory :=
  let m := demo_restore_memory in
  let others := List.filter (fun kv => negb (HasSuffix kv.1 ".history")) (me_objects m) in
  (run memory_handler (Archive (lb_gzip demo_libraries) (lb_gunzip demo_libraries) (lb_gzip_header demo_libraries) demo "gzip" "00000002.history" (Some demo_source))
     (mkMemory others (me_next m) (me_now m) [])).2.
Definition supplied_trace : ctrace :=
  run_trace (demo_cn cnpg_service) (demo_wal_fetch "00000002.history" "pg_wal/RECOVERYHISTORY") supplied_memory [].
Lemma recovery_exit_codes_witness :
  (exists p s f c, answering (fetch_request demo_libraries p "00000009.history" "pg_wal/RECOVERYHISTORY") s f optional_trace
    /\ excused f (sv_plan s) (physicalWAL c) "00000009.history" optional_trace)
  /\ exists p s f c target, answering (fetch_request demo_libraries p "00000002.history" "pg_wal/RECOVERYHISTORY") s f supplied_trace
    /\ destined demo_libraries (fetch_request demo_libraries p "00000002.history" "pg_wal/RECOVERYHISTORY") c target supplied_trace
    /\ supplied demo_libraries f "00000002.history" target supplied_trace.
Proof.
  split.
  - pose proof (run_trace_runs (demo_cn cnpg_service) (demo_wal_fetch "00000009.history" "pg_wal/RECOVERYHISTORY") demo_restore_memory []) as Hr.
    assert ((run (demo_cn cnpg_service) (demo_wal_fetch "00000009.history" "pg_wal/RECOVERYHISTORY") demo_restore_memory).1 = 1) as E by (vm_compute; reflexivity).
    rewrite E in Hr. unfold demo_wal_fetch in Hr at 1.
    destruct (recovery_exit_codes demo_libraries _ _ _ Hr) as [H|(p & name & dest & s & f & c & Ha & H1 & H2 & H3)].
    + intros c. apply quiet_context_spec. vm_compute. reflexivity.
    + discriminate H.
    + injection Ha as <- <-. destruct H3 as [[H3 _]|(_ & H3)]; [discriminate H3|]. exists p, s, f, c. split; [exact H1|exact H3].
  - pose proof (run_trace_runs (demo_cn cnpg_service) (demo_wal_fetch "00000002.history" "pg_wal/RECOVERYHISTORY") supplied_memory []) as Hr.
    assert ((run (demo_cn cnpg_service) (demo_wal_fetch "00000002.history" "pg_wal/RECOVERYHISTORY") supplied_memory).1 = 0) as E by (vm_compute; reflexivity).
    rewrite E in Hr. unfold demo_wal_fetch in Hr at 1.
    destruct (recovery_exit_codes demo_libraries _ _ _ Hr) as [H|(p & name & dest & s & f & c & Ha & H1 & H2 & H3)].
    + intros c. apply quiet_context_spec. vm_compute. reflexivity.
    + discriminate H.
    + injection Ha as <- <-. destruct H3 as [(_ & target & H3 & H4)|(H3 & _)]; [|discriminate H3]. exists p, s, f, c, target.
      split; [exact H1|]. split; [exact H3|exact H4].
Defined.
Example required_segment_fatal :
  (run (demo_cn cnpg_service) (demo_wal_fetch "000000020000000000000003" "pg_wal/RECOVERYXLOG") demo_restore_memory).1 = 255.
Proof. vm_compute. reflexivity. Qed.

(** ** Acknowledged archiving *)
Section Archiving.
Context (L : Libraries) (locked : bool).
Abbreviation cluster_of := (ParseCluster (lb_IsDNS1123Subdomain L) (lb_unmarshal L)).
Abbreviation decode_spec := (DecodeSpec (lb_ParseDuration L) (lb_Parse L) (lb_Hostname L) (lb_IsDNS1123Subdomain L) (lb_IsConfigMapKey L) (lb_ParseQuantity L)
  (lb_into_resources L)).
(** What the native calls showed: a member of the projected generation, a decoded configuration, the control file of the data directory. *)
Definition member_read (root path b : string) (tr : otrace) : Prop := exists limit, Act (Projected (within root path) limit) (Ok b) ∈ tr /\ len b <= limit.
Definition spec_read (root role : string) (spec : Spec) (tr : otrace) : Prop := exists b,
  member_read root (role +:+ "/repository.json") b tr /\ decode_spec b = Ok spec.
Definition control_read (control : Control) (tr : otrace) : Prop := exists b,
  Act (Tool control_env "pg_controldata" [liveData]) (Ok b) ∈ tr /\ readControl b = Ok control.
Lemma member_read_stable root path b : stable (member_read root path b).
Proof. intros tr tr' He (limit & H1 & H2). exists limit. split; [by eapply extends_elem|done]. Qed.
Lemma spec_read_stable root role spec : stable (spec_read root role spec).
Proof. intros tr tr' He (b & H1 & H2). exists b. split; [by eapply member_read_stable|done]. Qed.
Lemma control_read_stable control : stable (control_read control).
Proof. intros tr tr' He (b & H1 & H2). exists b. split; [by eapply extends_elem|done]. Qed.
Lemma read_knows root path limit tr : wp anything (fun tr x => forall b, x = Ok b -> member_read root path b tr) (ConfigSnapshot.Read root path limit) tr.
Proof.
  unfold ConfigSnapshot.Read. apply wp_call; [done|]. intros [b|e]; [|done]. wp_if as El; [done|]. intros b' [= <-]. exists limit. split; [by left|lia].
Qed.
Lemma projection_knows directory tr :
  wp anything (fun tr x => forall g, x = Ok g -> Act (EvalSymlinks (within directory "..data")) (Some g) ∈ tr) (Projection directory) tr.
Proof.
  unfold Projection. apply wp_call; [done|]. intros [g|]; [|done]. apply wp_bindE. split; [done|]. intros [[]|e]; [|done]. intros g' [= <-]. right. by left.
Qed.
Lemma snapshot_knows root role tr : wp anything (fun tr x => forall s, x = Ok s -> spec_read root role (sn_Spec s) tr)
  (loadRepositorySnapshot (lb_ParseDuration L) (lb_Parse L) (lb_Hostname L) (lb_IsDNS1123Subdomain L) (lb_IsConfigMapKey L) (lb_ParseQuantity L)
    (lb_into_resources L) (lb_pem_decode L) (lb_ParseCertificate L) root role) tr.
Proof.
  unfold loadRepositorySnapshot. eapply wp_knowsE; [apply read_knows|done|]. intros tr1 data He Hd. destruct (decode_spec data) as [spec|] eqn:Es; [|done].
  assert (spec_read root role spec tr1) as Hs by (by exists data). clear Hd.
  do 4 (apply wp_pastE; [done|]; intros ? ? ?). intros s [= <-]. cbn. eapply spec_read_stable; [|exact Hs]. do 3 (eapply extends_trans; [eassumption|]). done.
Qed.
Lemma capture_knows root tr : wp anything (fun tr x => forall s, x = Ok s -> spec_read root "destination" (sn_Spec (cs_Repository s)) tr)
  (LoadCaptureSnapshotFromRoot (lb_ParseDuration L) (lb_Parse L) (lb_Hostname L) (lb_IsDNS1123Subdomain L) (lb_IsConfigMapKey L)
    (lb_ParseQuantity L) (lb_into_resources L) (lb_pem_decode L) (lb_ParseCertificate L) (lb_X509KeyPair L) (lb_Verify L) root) tr.
Proof.
  unfold LoadCaptureSnapshotFromRoot. eapply wp_knowsE; [apply snapshot_knows|done|]. intros tr1 repo _ Hs.
  do 3 (apply wp_pastE; [done|]; intros ? ? ?). destruct (lb_X509KeyPair L _ _) as [certs|]; [|done]. do 2 (apply wp_pastE; [done|]; intros ? ? ?).
  destruct (parse_chain _ _) as [chain|]; [|done]. do 2 (apply wp_pastE; [done|]; intros ? ? ?). intros s [= <-]. cbn. eapply spec_read_stable; [|exact Hs].
  do 6 (eapply extends_trans; [eassumption|]). done.
Qed.
Lemma control_knows tr : wp anything (fun tr x => forall c, x = Ok c -> control_read c tr) ReadControl tr.
Proof.
  unfold ReadControl, command, runTool. apply wp_bindE. cbn [negb]. wp_if as Et; [done|]. split; [done|]. intros [b|e]; [|done]. intros c Hc. exists b. split; [by left|done].
Qed.
Lemma check_knows root tr : wp anything (fun tr x => forall c, x = Ok c -> control_read c tr)
  (CheckWAL (lb_range L) (lb_ParseDuration L) (lb_Parse L) (lb_Hostname L) (lb_IsDNS1123Subdomain L) (lb_IsConfigMapKey L)
    (lb_ParseQuantity L) (lb_into_resources L) (lb_pem_decode L) (lb_ParseCertificate L) (lb_X509KeyPair L) (lb_Verify L) locked root) tr.
Proof. unfold CheckWAL. apply wp_pastE; [done|]. intros tr1 [] _. apply control_knows. Qed.
Lemma wp_natives {Er A} (R : otrace -> A -> Prop) (p : oprog (result Er A)) tr : (forall t, wp anything (fun t x => forall a, x = Ok a -> R t a) p t) ->
  wp anything (fun tr x => forall a, x = Ok a -> R (natives tr) a) (native p) tr.
Proof. intros H. eapply wp_G_mono; [|apply (wp_native anything (fun t x => forall a, x = Ok a -> R t a)), H]. done. Qed.

(** The operation belongs to the Cluster of the request: its placement was read from the projected generation and names this Cluster,
    its configuration was read from the same generation, its physical WAL directory is what pg_wal resolves to, and its repository, opened by reading its
    identity and its gate, is exactly the lineage of that configuration, of that Cluster and of the control file that pg_controldata printed for the data directory. *)
Definition opened_for (definition : string) (o : walOperation) (tr : ctrace) : Prop := exists c root b spec control t,
  Act (EvalSymlinks (within projectionPath "..data")) (Some root) ∈ natives tr
  /\ member_read root "wal.json" b (natives tr) /\ @StrictJSON WALPlacement _ b = Some (wo_placement o)
  /\ cluster_of definition = Ok c /\ validateWALRequest L c (wo_placement o) = Ok ()
  /\ spec_read root "destination" spec (natives tr) /\ fl_Compression (wo_files o) = sp_Compression spec
  /\ control_read control (natives tr)
  /\ Act (EvalSymlinks (pgdataPath +:+ "/pg_wal")) (Some (wp_WALDirectory (wo_placement o))) ∈ natives tr
  /\ r_id (fl_Repository (wo_files o)) = with_created (ordinary_identity spec control (wp_ClusterUID (wo_placement o))) t
  /\ opened (fl_Repository (wo_files o)) (remote_trace tr).
Lemma opened_for_stable d o : stable (opened_for d o).
Proof.
  intros tr tr' He (c & root & b & spec & control & t & H1 & H2 & H3 & H4 & H5 & H6 & H7 & H8 & H9 & H10 & H11). exists c, root, b, spec, control, t.
  pose proof (natives_extends _ _ He) as Hn. pose proof (remote_extends _ _ He) as Hr.
  split_and!; try done; [by eapply extends_elem|by eapply member_read_stable|by eapply spec_read_stable|by eapply control_read_stable|by eapply extends_elem|by eapply opened_stable].
Qed.
Lemma openWAL_wp definition tr : wp anything (fun tr x => match x with Ok o => opened_for definition o tr | Err _ => True end)
  (openWAL L locked definition true) tr.
Proof.
  unfold openWAL. eapply wp_knowsE; [exact (wp_natives _ _ _ (projection_knows _))|done|]. intros tr1 root _ Hroot.
  eapply wp_knowsE; [exact (wp_natives _ _ _ (read_knows _ _ _))|done|]. intros tr2 b E2 Hb.
  destruct (StrictJSON b) as [p|] eqn:Ep; [|done]. destruct (cluster_of definition) as [c|] eqn:Ec; [|done].
  destruct (validateWALRequest L c p) as [[]|] eqn:Ev; [|done].
  eapply wp_knowsE; [exact (wp_natives _ _ _ (capture_knows _))|done|]. intros tr3 snap E3 Hs.
  eapply wp_knowsE; [exact (wp_natives _ _ _ (check_knows _))|done|]. intros tr4 control E4 Hc.
  apply wp_pastE; [done|]. intros tr5 b2 E5. destruct (decode_budgets b2) as [budgets|]; [|done].
  apply wp_pastE; [done|]. intros tr6 reserved E6. apply wp_pastE; [done|]. intros tr7 [] E7.
  apply wp_call; [done|]. intros actual. set (tr8 := Act _ actual :: tr7). assert (extends tr7 tr8) as E8 by apply extends_cons.
  cbn [native bind]. wp_if as Ea; [done|]. apply negb_false_iff, bool_decide_eq_true in Ea.
  assert (Act (EvalSymlinks (pgdataPath +:+ "/pg_wal")) (Some (wp_WALDirectory p)) ∈ natives tr8) as Hin by (unfold tr8; rewrite Ea; by left).
  clearbody tr8. apply wp_past. intros tr9 physical H9. wp_if as Epp; [done|]. apply wp_past. intros tr10 [[]|] H10; [|done]. cbv zeta.
  apply wp_pastE; [done|]. intros tr11 [] H11. apply wp_bindE. apply wp_pastE; [done|]. intros tr12 [] H12.
  eapply wp_knows; [apply (wp_source _ _ _ (fun str => wp_G_mono _ (fun _ _ _ => True) _ _ _ (fun _ _ _ _ => I) (OpenWriter_wp _ workspace str)))|].
  intros tr13 [repo|e] H13 Hw; [|done]. cbn in Hw |- *. destruct Hw as [[t Ht] Hop].
  exists c, root, b, (sn_Spec (cs_Repository snap)), control, t.
  assert (extends tr8 tr13) as F8 by (do 4 (eapply extends_trans; [eassumption|]); done).
  assert (extends tr4 tr13) as F4 by (do 4 (eapply extends_trans; [eassumption|]); done).
  assert (extends tr3 tr13) as F3 by (by eapply extends_trans). assert (extends tr2 tr13) as F2 by (by eapply extends_trans).
  assert (extends tr1 tr13) as F1 by (by eapply extends_trans).
  split_and!; try done; [eapply extends_elem; [|exact Hroot]; by apply natives_extends|eapply member_read_stable; [|exact Hb]; by apply natives_extends
    |eapply spec_read_stable; [|exact Hs]; by apply natives_extends|eapply control_read_stable; [|exact Hc]; by apply natives_extends
    |eapply extends_elem; [|exact Hin]; by apply natives_extends].
Qed.
Definition acknowledged (r : ArchiveRequest) (tr : ctrace) : Prop := exists o name s,
  opened_for (aq_ClusterDefinition r) o tr /\ walBasename (aq_SourceFileName r) (wp_WALDirectory (wo_placement o)) = Ok name
  /\ Act (OpenSource (within (wp_WALDirectory (wo_placement o)) name)) (Ok s) ∈ tr
  /\ source_stable s
  /\ archived (lb_gunzip L) (fl_Repository (wo_files o)) (fl_Compression (wo_files o)) name (so_read s) (remote_trace tr).
Lemma archived_stable r compression name raw : stable (archived (lb_gunzip L) r compression name raw).
Proof. intros tr tr' He (ig & out & H1 & H2). exists ig, out. split; [by eapply retrieved_stable|done]. Qed.
Lemma acknowledged_stable r : stable (acknowledged r).
Proof.
  intros tr tr' He (o & name & s & H1 & H2 & H3 & H4 & H5). exists o, name, s.
  split_and!; [by eapply opened_for_stable|done|by eapply extends_elem|done|]. eapply archived_stable; [by apply remote_extends|done].
Qed.
Definition archive_answer (r : ArchiveRequest) (tr : ctrace) (x : res ()) : Prop := x = Ok () -> acknowledged r tr.
Lemma archive_answer_stable r x : stable (fun tr => archive_answer r tr x).
Proof. intros tr tr' He H Hx. eapply acknowledged_stable; [exact He|by apply H]. Qed.
Lemma archive_file_wp r o tr : opened_for (aq_ClusterDefinition r) o tr ->
  wp anything (archive_answer r)
    (let f := wo_files o in
     let* name := Ret (walBasename (aq_SourceFileName r) (wp_WALDirectory (wo_placement o))) in
     Ret (Limits (fl_Repository f) (fl_Compression f) name) ;;*
     let! source := call (OpenSource (within (wp_WALDirectory (wo_placement o)) name)) in
     match source with
     | Err _ => fail ErrOther
     | Ok s => source_store (Archive (lb_gzip L) (lb_gunzip L) (lb_gzip_header L) (fl_Repository f) (fl_Compression f) name (Some s))
     end) tr.
Proof.
  intros Ho. cbv zeta. destruct (walBasename _ _) as [name|] eqn:Eb; [|done]. apply wp_bindE. cbn [wp]. apply wp_bindE. cbn [wp].
  destruct (Limits _ _ name) as [lim|]; [|done]. apply wp_call; [done|]. intros [s|k]; [|done]. set (tr1 := Act _ _ :: tr).
  eapply wp_mono; [|apply (wp_also _ _ _ _ _ (wp_source _ _ tr1 (fun str => wp_G_mono _ (fun _ _ _ => True) _ _ _ (fun _ _ _ _ => I)
    (Archive_wp (lb_gzip L) (lb_gunzip L) (lb_gzip_header L) (fl_Repository (wo_files o)) (fl_Compression (wo_files o)) name s str))) (wp_grows _ tr1))].
  intros tr2 x [Hx He] ->. destruct (Hx eq_refl) as [H1 H2]. exists o, name, s. split_and!; try done.
  - eapply opened_for_stable; [|exact Ho]. eapply extends_trans; [apply extends_cons|exact He].
  - eapply extends_elem; [exact He|]. by left.
Qed.
Lemma archive_body_wp r tr : wp anything (archive_answer r) (archive_body L locked r) tr.
Proof.
  unfold archive_body. eapply wp_knows; [apply openWAL_wp|]. intros tr1 [o|e] _ Ho; [|done]. unfold data_slot.
  destruct (wo_single o); [|by apply archive_file_wp]. unfold with_slot. apply wp_call; [done|]. intros [|]; cbv beta iota delta [negb]; [|done].
  apply wp_bind. eapply wp_mono; [|apply archive_file_wp; eapply opened_for_stable; [apply extends_cons|exact Ho]]. intros tr2 x Hx.
  apply wp_call; [done|]. intros []. eapply archive_answer_stable; [apply extends_cons|exact Hx].
Qed.
End Archiving.

(** C19: PostgreSQL may recycle a segment only when its own repository holds it.  When the archive callback answers success, the request came
    for the Cluster, namespace and repository of the placement that was read from the sidecar's projected generation; the file was read, unchanged,
    from the physical WAL directory that the data directory's pg_wal resolves to; the repository was opened by reading its identity, which is
    exactly the lineage of the configuration of the same generation, of this Cluster, and of the system identifier and segment size that
    pg_controldata printed for the data directory; and an object of this very name was read back with the length and digest of the file. *)
Theorem archive_callback_acknowledged L locked r tr :
  runs (WALService_Archive L locked (Some r)) [] tr (Ok ()) ->
  params_len (aq_Parameters r) = 0 /\ acknowledged L r tr.
Proof.
  intros Hr. refine (wp_runs anything (fun tr x => x = Ok () -> params_len (aq_Parameters r) = 0 /\ acknowledged L r tr) _ _ _ _ _ Hr eq_refl). clear Hr.
  unfold WALService_Archive. wp_if as Ep; [done|]. destruct (validateWALPaths _ _ _ _ _ _ _); [|done]. unfold with_slot.
  apply wp_call; [done|]. intros [|]; cbv beta iota delta [negb]; [|done]. apply wp_bind, wp_bind. eapply wp_mono; [|apply archive_body_wp].
  intros tr' x Hx. cbn [wp]. apply wp_call; [done|]. intros [] Hs. destruct x as [[]|e]; [|done]. split; [bool_split; lia|].
  eapply acknowledged_stable; [apply extends_cons|]. by apply Hx.
Qed.
Definition demo_archive_request : ArchiveRequest := mkArchiveRequest demo_definition (pgdataPath +:+ "/pg_wal/00000002.history") None.
Definition demo_archive_call : cprog (cres ()) := WALService_Archive sidecar_libraries false (Some demo_archive_request).
Lemma archive_callback_acknowledged_witness : acknowledged sidecar_libraries demo_archive_request (run_trace sidecar demo_archive_call demo_empty []).
Proof.
  pose proof (run_trace_runs sidecar demo_archive_call demo_empty []) as Hr.
  assert ((run sidecar demo_archive_call demo_empty).1 = Ok ()) as E by (vm_compute; reflexivity). rewrite E in Hr. unfold demo_archive_call in Hr at 1.
  exact (proj2 (archive_callback_acknowledged sidecar_libraries false demo_archive_request _ Hr)).
Defined.
(** A symbolic link that leads elsewhere, or a path outside the WAL directory, is refused before anything is read. *)
Example foreign_path_refused :
  run sidecar (WALService_Archive sidecar_libraries false (Some (mkArchiveRequest demo_definition "/etc/00000002.history" None))) demo_empty
  = (Err CInvalidArgument, demo_empty).
Proof. vm_compute. reflexivity. Qed.

(** ** The durable plan *)
Definition save_guard (L : Libraries) (directory : string) (p : RecoveryPlan) (tr : ctrace) X (e : cn X) : Prop :=
  match e with
  | Rename from to => to = within directory "recovery.json"
      /\ RecoveryPlan_validate (lb_range L) (lb_IsDNS1123Subdomain L) (lb_unmarshal L) (lb_marshal L) p = Ok ()
      /\ Act (Native (Fs (WriteTo from (lb_encode_plan L p)))) None ∈ tr /\ Act (Native (Fs (SyncFile from))) None ∈ tr
      /\ Act (Native (Fs (CloseFile from))) None ∈ tr
  | _ => True
  end.
(** The name of the plan only ever points to a whole, validated plan: the rename comes after the bytes of a plan that passed every check
    were written to a new file, synced and closed. *)
Theorem plan_published_whole L directory p pre from to :
  emits (saveRecovery L directory p) [] pre _ (Rename from to) -> save_guard L directory p pre _ (Rename from to).
Proof.
  intros He. refine (wp_emits (save_guard L directory p) (fun _ _ => True) _ _ _ _ _ _ He). unfold saveRecovery.
  destruct (RecoveryPlan_validate _ _ _ _ p) as [[]|] eqn:Ev; [|done]. cbn [bindE bind]. cbv zeta. wp_if as El; [done|].
  split; [done|]. intros [[]|]; [|done]. split; [done|]. intros id. set (path := within directory _).
  split; [done|]. intros [k|]; [done|]. split; [done|]. intros [k|]; cbn.
  { split; [done|]. intros x. destruct x; (split; [done|]); done. }
  split; [done|]. intros [k|]; cbn; (split; [done|]); intros [k'|]; cbn; try (split; [done|]; done).
  split; [split_and!; [done|done|do 2 right; by left|right; by left|by left]|]. intros [k|]; cbn; (split; [done|]); [done|]. intros x. by split.
Qed.
