(* ===== verification/CnpgRecoverySafety.v ===== *)
(** * When a source lifetime ends (internal/cnpgi/recovery_operation.go, recovery_reconcile.go)

    The steps of a durable recovery operation, what a completion rests on, and when the source repository may forget a recovery. *)

From S2P Require Import Prelude GoStrings GoTime Errors Schema Json LooseJson Prog ProgRules Store GuardConfig Admission Gate Repository Memory RecoveryPlan Lifecycle Restore.
From S2P Require Import S3Config Configuration NativeOps NativeText ConfigSnapshot CnpgCluster CnpgOps CnpgKube CnpgRecovery CnpgDemo.

(** ** Complete listings *)
Section Listing.
Context (c : Cluster) (kind : string).
Abbreviation page cursor items next := (Act (KList kind (cl_Namespace c) (selector c) cursor) (Ok (items, next))).
(** The items of a LIST from a cursor to its end. *)
Inductive listed (tr : ktrace) : string -> list Item -> Prop :=
| listed_last cursor items : page cursor items "" ∈ tr -> listed tr cursor items
| listed_more cursor items next rest : page cursor items next ∈ tr -> listed tr next rest -> listed tr cursor (items ++ rest).
Lemma listed_extends tr tr' cursor items : extends tr tr' -> listed tr cursor items -> listed tr' cursor items.
Proof.
  intros He H. induction H as [cursor items H|cursor items next rest H _ IH].
  - apply listed_last. by eapply extends_elem.
  - eapply listed_more; [by eapply extends_elem|done].
Qed.
Lemma visit_items_app {B} (visit : B -> Item -> res B) l1 l2 n acc n1 acc1 :
  visit_items visit l1 n acc = Ok (n1, acc1) -> visit_items visit (l1 ++ l2) n acc = visit_items visit l2 n1 acc1.
Proof.
  unfold visit_items. revert n acc. induction l1 as [|i l1 IH]; intros n acc; cbn [forM app]; [by intros [= -> ->]|].
  destruct (if 1024 <? n + 1 then _ else _) as [[n' acc']|e]; cbn [res_bind]; [apply IH|done].
Qed.
Lemma pages_wp {B} (visit : B -> Item -> res B) fuel cursor count acc tr :
  wp anything (fun tr x => match x with
    | Ok b => exists items n, listed tr cursor items /\ visit_items visit items count acc = Ok (n, b)
    | Err _ => True end) (pages fuel kind c cursor count acc visit) tr.
Proof.
  revert cursor count acc tr. induction fuel as [|fuel IH]; intros cursor count acc tr; cbn [pages]; [done|].
  apply wp_bindE, wp_call; [done|]. intros [[items next]|e]; cbn [wp]; [|done]. set (tr1 := Act _ _ :: tr).
  assert (page cursor items next ∈ tr1) as Hin by by left. clearbody tr1.
  destruct (visit_items visit items count acc) as [[n b]|e] eqn:Ev; [|done]. wp_if as En.
  - apply bool_decide_eq_true in En. subst next. exists items, n. split; [by apply listed_last|done].
  - wp_if as Ec; [done|]. eapply wp_mono; [|apply (wp_also _ _ _ _ _ (IH next n b tr1) (wp_grows _ tr1))].
    intros tr2 [r|e] [H He]; [|done]. destruct H as (rest & m & H1 & H2). exists (items ++ rest), m. split.
    + eapply listed_more; [by eapply extends_elem|done].
    + by rewrite (visit_items_app _ _ _ _ _ _ _ Ev).
Qed.
(** Enough fuel: the loop never stops for want of it. *)
Lemma visit_items_count {B} (visit : B -> Item -> res B) items n acc n' acc' :
  visit_items visit items n acc = Ok (n', acc') -> n' = n + Z.of_nat (length items) /\ (items <> [] -> n' <= 1024).
Proof.
  unfold visit_items. revert n acc. induction items as [|i items IH]; intros n acc; cbn [forM length]; [intros [= -> ->]; split; [lia|done]|].
  destruct (1024 <? n + 1) eqn:E; [done|]. apply Z.ltb_ge in E. destruct (visit acc i) as [b|e]; cbn [res_bind]; [|done]. intros H.
  apply IH in H as [-> H]. split; [lia|]. intros _. destruct items; [cbn; lia|]. apply H. done.
Qed.
Lemma visit_items_error {B} (visit : B -> Item -> res B) items n acc e :
  visit_items visit items n acc = Err e -> e = ErrCapacity \/ exists b i, visit b i = Err e.
Proof.
  unfold visit_items. revert n acc. induction items as [|i items IH]; intros n acc; cbn [forM]; [done|].
  destruct (1024 <? n + 1); cbn [res_bind]; [intros [= <-]; by left|].
  destruct (visit acc i) as [b|e'] eqn:Ev; cbn [res_bind]; [apply IH|]. intros [= <-]. right. by exists acc, i.
Qed.
Lemma pages_enough {B} (visit : B -> Item -> res B) fuel cursor count acc tr :
  0 <= count <= 1024 -> 1026 - count <= Z.of_nat fuel ->
  wp (fun _ _ _ => True) (fun tr x => match x with
    | Err Panic => (exists b i, visit b i = Err Panic) \/ exists cursor', Act (KList kind (cl_Namespace c) (selector c) cursor') (Err Panic) ∈ tr
    | _ => True end) (pages fuel kind c cursor count acc visit) tr.
Proof.
  revert cursor count acc tr. induction fuel as [|fuel IH]; intros cursor count acc tr Hc Hf; cbn [pages]; [lia|].
  apply wp_bindE, wp_call; [done|]. intros [[items next]|e]; cbn [wp].
  2: { destruct e; try done. right. exists cursor. by left. }
  destruct (visit_items visit items count acc) as [[n b]|e] eqn:Ev.
  - wp_if as En; [done|]. wp_if as Ec; [done|]. apply orb_false_iff in Ec as [_ Ec]. apply Z.eqb_neq in Ec.
    apply visit_items_count in Ev as [-> Hn]. assert (items <> []) as Hne by (by intros ->). specialize (Hn Hne). apply IH; lia.
  - cbn. destruct (visit_items_error _ _ _ _ _ Ev) as [->|H]; [done|]. destruct e; try done. by left.
Qed.
End Listing.

(** ** What the visitors establish *)
Definition our_pods (c : Cluster) (items : list Item) : list Pod :=
  omap (fun i => match i with PodItem op (Some p) => if op ==? OperationUID c then Some p else None | _ => None end) items.
Definition unreadable (c : Cluster) (i : Item) : Prop := match i with JobItem _ => True | PodItem op None => op = OperationUID c | PodItem _ (Some _) => False end.
(** A Pod of the Job whose last observed version is the listed one and in which everything has stopped. *)
Definition stopped (job : string) (observed : gmap string string) (p : Pod) : Prop :=
  observed !! pd_UID p = Some (pd_ResourceVersion p) /\ pd_controller p = Some job /\ terminatedPod p = true.
Definition succeeded (p : Pod) : bool := pd_Phase p ==? "Succeeded".
Lemma pods_visited c job observed items count n count' n' :
  visit_items (pod_visit c job observed) items count n = Ok (count', n') -> pc_waiting n' = false ->
  pc_waiting n = false /\ pc_ids n' = pc_ids n ++ map pd_UID (our_pods c items) /\ Forall (stopped (jb_UID job) observed) (our_pods c items)
  /\ pc_succeeded n' = pc_succeeded n + Z.of_nat (length (List.filter succeeded (our_pods c items)))
  /\ pc_succeeded n' + pc_failed n' = pc_succeeded n + pc_failed n + Z.of_nat (length (our_pods c items))
  /\ Forall (fun i => ~ unreadable c i) items.
Proof.
  unfold visit_items. revert count n. induction items as [|i items IH]; intros count n; cbn [forM].
  { intros [= -> ->] H. cbn. rewrite app_nil_r. split_and!; try done; lia. }
  destruct (1024 <? count + 1); [done|]. destruct i as [j|op pod]; [done|]. cbn [pod_visit]. unfold our_pods. cbn [omap list_omap].
  fold (our_pods c items). destruct (op ==? OperationUID c) eqn:Eo; cbn [negb].
  - destruct pod as [p|]; [|done]. destruct (observed !! pd_UID p !=? Some (pd_ResourceVersion p)) eqn:Ev; cbn [res_bind].
    + intros H Hw. apply IH in H as [H _]; done.
    + destruct (_ || negb (terminatedPod p)) eqn:Ep; cbn [res_bind]; [done|]. bool_split. intros Hi Hw.
      apply IH in Hi as (H1 & H2 & H3 & H4 & H5 & H6); [|done]. cbn [pc_waiting pc_ids pc_succeeded pc_failed] in *. split; [done|].
      change (pd_Phase p ==? "Succeeded") with (succeeded p) in *.
      split; [rewrite H2, <- app_assoc; done|]. split; [constructor; [by split_and!|done]|]. cbn [List.filter length].
      split; [rewrite H4; destruct (succeeded p); cbn [length]; lia|]. split; [rewrite H5; destruct (succeeded p); lia|].
      constructor; [by intros []|done].
  - intros H Hw. cbn [res_bind] in H. apply IH in H as (H1 & H2 & H3 & H4 & H5 & H6); [|done].
    apply bool_decide_eq_false in Eo. destruct pod; (split_and!; try done; constructor; [by intros ?|done]).
Qed.
Definition is_our_job (c : Cluster) (j : Job) (i : Item) : Prop := i = JobItem (Some j) /\ jb_operation j = OperationUID c.
Lemma job_visited c items count job count' j :
  visit_items (job_visit c) items count job = Ok (count', Some j) ->
  (job = Some j /\ forall j' i, i ∈ items -> ~ is_our_job c j' i)
  \/ (job = None /\ jb_controller j = Some (cl_UID c) /\ jb_deleting j = false /\ (exists i, i ∈ items /\ is_our_job c j i)
      /\ forall j' i, i ∈ items -> is_our_job c j' i -> j' = j).
Proof.
  unfold visit_items. revert count job. induction items as [|i items IH]; intros count job; cbn [forM].
  { intros [= -> ->]. left. split; [done|]. intros j' i Hi. by apply not_elem_of_nil in Hi. }
  destruct (1024 <? count + 1); [done|]. destruct i as [[j0|]|]; cbn [job_visit]; [|done..].
  destruct (jb_operation j0 !=? OperationUID c) eqn:Eo; cbn [res_bind].
  - apply negb_true_iff, bool_decide_eq_false in Eo.
    assert (forall j', ~ is_our_job c j' (JobItem (Some j0))) as Hno by (intros j' [[= ->] H]; done).
    intros H. apply IH in H as [[-> H]|(-> & H1 & H2 & (i & Hi & Hj) & H3)].
    + left. split; [done|]. intros j' i [->|Hi]%elem_of_cons; [apply Hno|by apply H].
    + right. split_and!; try done; [exists i; split; [by right|done]|]. intros j' i' [->|Hi']%elem_of_cons Hj'; [by destruct (Hno _ Hj')|by eapply H3].
  - apply negb_false_iff, bool_decide_eq_true in Eo. destruct (_ || _ || _) eqn:Eb; cbn [res_bind]; [done|]. bool_split.
    destruct job as [j1|]; [done|]. intros Hi. apply IH in Hi as [[[= ->] Hi]|(? & _)]; [|done]. right.
    split_and!; try done; [exists (JobItem (Some j)); split; [by left|done]|]. intros j' i' [->|Hi']%elem_of_cons Hj'; [by destruct Hj' as [[= ->] _]|].
    by destruct (Hi j' i' Hi').
Qed.

(** The restore Job is the only one of the operation, complete and settled; every Pod of the operation in a complete LIST belongs to it,
    was seen by the watch in its listed version and has stopped; exactly one succeeded, the others are the Job's failures. *)
Definition terminated (c : Cluster) (observed : gmap string string) (job : string) (ids : list string) (tr : ktrace) : Prop := exists j jobs pods,
  listed c "jobs" tr "" jobs /\ listed c "pods" tr "" pods
  /\ jb_UID j = job /\ job <> "" /\ jb_controller j = Some (cl_UID c) /\ jb_deleting j = false /\ job_finished j = Ok true /\ job_settled j = true
  /\ (exists i, i ∈ jobs /\ is_our_job c j i) /\ (forall j' i, i ∈ jobs -> is_our_job c j' i -> j' = j)
  /\ Forall (fun i => ~ unreadable c i) pods /\ Forall (stopped job observed) (our_pods c pods)
  /\ ids ≡ₚ map pd_UID (our_pods c pods) /\ length ids = size observed
  /\ length (List.filter succeeded (our_pods c pods)) = 1%nat /\ Z.of_nat (length (our_pods c pods)) = 1 + jb_Failed j.
Lemma terminated_stable c observed job ids : stable (terminated c observed job ids).
Proof.
  intros tr tr' He (j & jobs & pods & H1 & H2 & H). exists j, jobs, pods. split; [by eapply listed_extends|]. split; [by eapply listed_extends|done].
Qed.
Lemma termination_wp c observed tr :
  wp anything (fun tr x => match x with Ok (Some (job, ids)) => terminated c observed job ids tr | _ => True end) (recoveryTermination c observed) tr.
Proof.
  unfold recoveryTermination, visitRecoveryObjects. unfold bindE at 1. eapply wp_knows; [apply pages_wp|].
  intros tr1 [[j|]|e] _ H1; cbn beta iota; [|by destruct (0 <? size observed)%nat|done].
  destruct H1 as (jobs & n & Hl & Hv). destruct (job_finished j) as [[|]|] eqn:Ef; [|done..].
  wp_if as Es; [done|]. unfold bindE at 1. eapply wp_knows; [apply pages_wp|]. intros tr2 [m|e] He H2; cbn beta iota; [|done].
  destruct H2 as (pods & n2 & Hl2 & Hv2). wp_if as Ew; [done|]. destruct (_ || _ || _) eqn:Ec; [done|]. bool_split. cbn [wp].
  apply job_visited in Hv as [[? _]|(_ & J1 & J2 & J3 & J4)]; [done|]. apply pods_visited in Hv2 as (_ & P1 & P2 & P3 & P4 & P5); [|done].
  cbn in P1, P3, P4. exists j, jobs, pods.
  assert (jb_UID j <> "") as Hid. { unfold job_settled in *. bool_split. done. }
  assert (sort_slice String.ltb (pc_ids m) ≡ₚ map pd_UID (our_pods c pods)) as Hp by (rewrite <- P1; apply sort_slice_perm).
  split; [by eapply listed_extends|]. split_and!; try done.
  - rewrite (Permutation_length (sort_slice_perm _ _)). by apply Nat.eqb_eq.
  - lia.
  - lia.
Qed.

(** ** The steps of an operation *)
Definition stored (o : Object) (next : recoveryOperation) : Object :=
  mkObj (ob_Name o) (ob_UID o) (ob_ResourceVersion o) (ob_controller o) (ob_deleting o) (ob_annotations o)
    {["operation.json" := operation_text next]} (ob_immutable o) (ob_spec o) (ob_Namespace o) (ob_Generation o) (ob_status o).
(** The operation as it was read from the Cluster's ConfigMap. *)
Definition known (c : Cluster) (tr : ktrace) (o : Object) (st : recoveryOperation) : Prop :=
  Act (KGet "configmaps" (cl_Namespace c) (operationName c)) (Ok o) ∈ tr /\ operationFrom o c = Ok st.
(** Every observed Pod of the operation came through the watch, in that version. *)
Definition watched (c : Cluster) (observed : gmap string string) (tr : ktrace) : Prop := forall uid v, observed !! uid = Some v ->
  exists o phase, Act KRound (WatchEvent false o phase) ∈ tr /\ ob_UID o = uid /\ ob_ResourceVersion o = v
    /\ default "" (ob_annotations o !! operationAnnotation) = OperationUID c.
Definition release_due (st : recoveryOperation) : Prop := op_State st = "completed" /\ op_CompletedJobUID st <> "" /\ op_TerminatedPodUIDs st <> [].
Inductive operation_step (c : Cluster) (tr : ktrace) (st : recoveryOperation) : recoveryOperation -> Prop :=
| step_uncertain : op_State st = "active" -> operation_step c tr st (with_state st "uncertain")
| step_completed observed job ids : op_State st = "active" -> watched c observed tr -> terminated c observed job ids tr ->
    operation_step c tr st (with_completion st job ids)
| step_released : release_due st -> operation_step c tr st (with_release st).
Definition recovery_guard (c : Cluster) (tr : ktrace) X (e : kube X) : Prop :=
  match e with
  | KUpdate kind ns o => kind = "configmaps" /\ ns = cl_Namespace c /\ exists r st next, known c tr r st /\ o = stored r next /\ operation_step c tr st next
  | Host (Remote ev) => mutating ev = true -> exists r st, known c tr r st /\ release_due st
  | _ => True
  end.

(** Calls that no guard restricts, and calls that do not touch the operation. *)
Definition calm X (e : kube X) : Prop := match e with KUpdate _ _ _ => False | Host (Remote ev) => mutating ev = false | _ => True end.
Definition no_update X (e : kube X) : Prop := match e with KUpdate _ _ _ => False | _ => True end.
Lemma calm_guard c tr X (e : kube X) : calm X e -> recovery_guard c tr X e.
Proof. destruct e as [X e| | | | | | | |]; try done. destruct e; try done. cbn. intros ->. done. Qed.
Lemma known_extends c tr tr' o st : extends tr tr' -> known c tr o st -> known c tr' o st.
Proof. intros He [H1 H2]. split; [by eapply extends_elem|done]. Qed.
Lemma release_guard c tr r st : known c tr r st -> release_due st -> forall tr' X e, extends tr tr' -> no_update X e -> recovery_guard c tr' X e.
Proof.
  intros Hk Hr tr' X e He Hn. destruct e as [X e| | | | | | | |]; try done. destruct e; try done. intros _. exists r, st. split; [by eapply known_extends|done].
Qed.
Lemma host_calls {A} (S : forall X, os X -> Prop) (S' : forall X, kube X -> Prop) (p : oprog A) :
  (forall X (e : os X), S X e -> S' X (Host e)) -> calls S p -> calls S' (host p).
Proof.
  intros HS Hp tr. specialize (Hp []). revert Hp. generalize (@nil (Prog.action os)) as tr0. revert tr.
  induction p as [a|X e k IH]; intros tr tr0; cbn; [done|]. intros [H1 H2]. split; [by apply HS|]. intros x. by eapply IH.
Qed.
Lemma host_no_update {A} (p : oprog A) : calls no_update (host p).
Proof. apply (host_calls (fun _ _ => True)); [done|]. intros tr. induction p as [a|X e k IH] in tr |- *; cbn; [done|]. split; [done|]. intros x. apply IH. Qed.

Section Steps.
Context (L : Libraries) (base64 : string -> option string) (spec_hash : Spec -> string) (a : API) (c : Cluster) (source : Spec) (observer : string).

Definition local_only X (e : os X) : Prop := match e with Remote ev => mutating ev = false | _ => True end.
Lemma pool_local data : calls local_only (CAPool (lb_pem_decode L) (lb_ParseCertificate L) data false).
Proof. eapply calls_mono; [|apply (from_pool _ _ "")]. intros X e. destruct e as [X e| | | | | | | | | | | | | | | | | | |]; try done. by destruct e. Qed.
Lemma get_calm kind ns name : calls calm (Get a kind ns name).
Proof. unfold Get. by repeat calls_step. Qed.
Lemma secret_calm ns secrets s : calls calm (read_secret base64 a ns secrets s).
Proof. unfold read_secret. calls_step; [repeat calls_step; apply get_calm|]. repeat calls_step. Qed.
Lemma snapshot_calm ns spec : calls calm (repositorySnapshot L base64 a ns spec).
Proof.
  unfold repositorySnapshot. calls_step; [apply secret_calm|]. repeat calls_step; try apply secret_calm; try apply get_calm.
  apply (host_calls local_only); [|apply pool_local]. intros X e. destruct e; done.
Qed.
Lemma repository_calm ns name : calls calm (API_Repository L base64 a ns name).
Proof. unfold API_Repository. calls_step; [apply get_calm|]. repeat calls_step. apply snapshot_calm. Qed.
Lemma calm_no_update X (e : kube X) : calm X e -> no_update X e.
Proof. by destruct e. Qed.
Lemma lifetime_no_update s release : calls no_update (changeRecoveryLifetime L base64 a c s release).
Proof.
  unfold changeRecoveryLifetime. calls_step; [eapply calls_mono; [apply calm_no_update|apply snapshot_calm]|].
  repeat calls_step; apply host_no_update.
Qed.
Lemma warning_calm reason : calls calm (recoveryWarning c reason).
Proof. unfold recoveryWarning, now. calls_step; [|by repeat calls_step]. intros tr. by split. Qed.
Lemma pages_calm {B} (visit : B -> Item -> res B) fuel kind cursor count acc : calls calm (pages fuel kind c cursor count acc visit).
Proof.
  revert cursor count acc. induction fuel as [|fuel IH]; intros cursor count acc; cbn [pages]; [apply calls_ret|]. calls_step; [by calls_step|]. repeat calls_step. apply IH.
Qed.
Lemma termination_calm observed : calls calm (recoveryTermination c observed).
Proof. unfold recoveryTermination, visitRecoveryObjects. repeat calls_step; try apply pages_calm. Qed.

(** Reading the operation. *)
Lemma get_known {B} (f : result kerror Object -> kprog B) (Q : ktrace -> B -> Prop) tr :
  (forall tr' x, extends tr tr' -> (forall o st, x = Ok o -> operationFrom o c = Ok st -> known c tr' o st) -> wp (recovery_guard c) Q (f x) tr') ->
  wp (recovery_guard c) Q (bind (Get a "configmaps" (cl_Namespace c) (operationName c)) f) tr.
Proof.
  intros Hf. eapply wp_calls_bind; [intros; by apply calm_guard|apply get_calm| |].
  - instantiate (1 := fun tr' x => forall o, x = Ok o -> Act (KGet "configmaps" (cl_Namespace c) (operationName c)) (Ok o) ∈ tr').
    unfold Get. wp_if as E1; [done|]. wp_if as E2; [done|]. split; [done|]. intros x o ->. by left.
  - intros tr' x He Hx. apply Hf; [done|]. intros o st -> Hst. split; [by apply Hx|done].
Qed.
Lemma write_step {B} (f : option kerror -> kprog B) (Q : ktrace -> B -> Prop) tr o st next : known c tr o st -> operation_step c tr st next ->
  (forall tr' x, extends tr tr' -> wp (recovery_guard c) Q (f x) tr') -> wp (recovery_guard c) Q (bind (writeOperation c o next) f) tr.
Proof.
  intros Hk Hs Hf. apply wp_call; [split; [done|split; [done|by exists o, st, next]]|]. intros x. apply Hf. apply extends_cons.
Qed.
Lemma kube_calm_bind {A B} (p : kprog A) (f : A -> kprog B) (Q : ktrace -> B -> Prop) tr : calls calm p ->
  (forall tr' x, extends tr tr' -> wp (recovery_guard c) Q (f x) tr') -> wp (recovery_guard c) Q (bind p f) tr.
Proof.
  intros Hp Hf. eapply (wp_calls_bind _ _ (fun _ _ => True)); [intros; by apply calm_guard|exact Hp|eapply wp_mono; [|apply wp_grows]; done|]. intros; by apply Hf.
Qed.
Lemma uncertain_wp tr : wp (recovery_guard c) (fun tr' _ => extends tr tr') (uncertain a c observer) tr.
Proof.
  unfold uncertain. apply get_known. intros tr1 [o|e] H1 Hk; [|done]. destruct (operationFrom o c) as [st|] eqn:Est; [|done].
  wp_if as E1; [done|]. wp_if as E2; [done|]. wp_if as E3; [|done]. apply bool_decide_eq_true in E3.
  eapply write_step; [by apply (Hk o st)|by apply step_uncertain|]. intros tr2 [k|] H2; [by eapply extends_trans|].
  apply kube_calm_bind; [apply warning_calm|]. intros tr3 [] H3. do 2 (eapply extends_trans; [eassumption|]). done.
Qed.
Lemma release_wp fuel tr : wp (recovery_guard c) (fun _ _ => True) (releaseCompletedRecovery L base64 a fuel c source) tr.
Proof.
  revert tr. induction fuel as [|fuel IH]; intros tr; cbn [releaseCompletedRecovery]; [done|]. cbv zeta.
  assert (Hagain : forall tr, wp (recovery_guard c) (fun _ _ => True)
    (let! t := call KTick in match t with true => releaseCompletedRecovery L base64 a fuel c source | false => Ret () end) tr)
    by (intros tr'; split; [done|]; intros [|]; [apply IH|done]).
  apply get_known. intros tr1 [o|e] _ Hk; [|apply Hagain]. destruct (operationFrom o c) as [st|] eqn:Est; [|done].
  wp_if as E1; [done|]. bool_split. wp_if as E2; [done|].
  assert (release_due st) as Hd. { split_and!; [done..|]. intros E. by rewrite E in *. }
  assert (known c tr1 o st) as Hko by (by apply Hk).
  eapply (wp_calls_bind _ no_update (fun _ _ => True)); [by eapply release_guard|apply lifetime_no_update|eapply wp_mono; [|apply wp_grows]; done|].
  intros tr2 [[]|e] H2 _; [|apply Hagain]. eapply write_step; [by eapply known_extends|by apply step_released|]. intros tr3 [k|] _; [apply Hagain|done].
Qed.
Lemma watched_extends observed tr tr' : extends tr tr' -> watched c observed tr -> watched c observed tr'.
Proof. intros He H uid v Hv. destruct (H uid v Hv) as (o & phase & H1 & H2). exists o, phase. split; [by eapply extends_elem|done]. Qed.
Lemma watched_empty tr : watched c ∅ tr.
Proof. intros uid v Hv. by rewrite lookup_empty in Hv. Qed.
Lemma complete_wp fuel observed tr : watched c observed tr ->
  wp (recovery_guard c) (fun tr' _ => extends tr tr') (try_complete L base64 a fuel c source observer observed) tr.
Proof.
  intros Hw. unfold try_complete. cbv zeta.
  assert (Hgive : forall tr', extends tr tr' -> wp (recovery_guard c) (fun tr'' _ => extends tr tr'') (let! b := uncertain a c observer in Ret (Some b)) tr').
  { intros tr' He. apply wp_bind. eapply wp_mono; [|apply uncertain_wp]. intros tr2 b H2. cbn. by eapply extends_trans. }
  eapply wp_calls_bind; [intros; by apply calm_guard|apply termination_calm|apply termination_wp|].
  intros tr1 [[[job ids]|]|e] H1 Ht; [|done|by apply Hgive].
  apply get_known. intros tr2 [o|e] H2 Hk; [|apply Hgive; by eapply extends_trans]. assert (extends tr tr2) as H02 by (by eapply extends_trans).
  destruct (operationFrom o c) as [st|] eqn:Est; [|by apply Hgive]. wp_if as E; [by apply Hgive|]. bool_split.
  eapply write_step; [by apply (Hk o st)|eapply step_completed; [done|by eapply watched_extends|exact (terminated_stable _ _ _ _ _ _ H2 Ht)]|].
  intros tr3 [k|] H3; [apply Hgive; by eapply extends_trans|]. apply wp_bind.
  eapply wp_mono; [|eapply wp_also; [apply release_wp|apply wp_grows]]. intros tr4 [] [_ H4]. cbn. do 2 (eapply extends_trans; [eassumption|]). done.
Qed.
Lemma observe_wp fuel observed tr : watched c observed tr -> wp (recovery_guard c) (fun _ _ => True) (observeRecovery L base64 a fuel c source observer observed) tr.
Proof.
  revert observed tr. induction fuel as [|fuel IH]; intros observed tr Hw; cbn [observeRecovery]; [done|]. cbv zeta.
  assert (Hgive : forall tr, wp (recovery_guard c) (fun _ _ => True) (let! b := uncertain a c observer in Ret (Some b)) tr).
  { intros tr'. apply wp_bind. eapply wp_mono; [|apply uncertain_wp]. done. }
  assert (Hcomplete : forall obs tr, watched c obs tr -> wp (recovery_guard c) (fun _ _ => True)
    (let! x := try_complete L base64 a fuel c source observer obs in match x with Some b => Ret (Some b) | None => observeRecovery L base64 a fuel c source observer obs end) tr).
  { intros obs tr' Hobs. apply wp_bind. eapply wp_mono; [|by apply complete_wp]. intros tr2 [b|] He; [done|]. apply IH. by eapply watched_extends. }
  apply wp_call; [done|]. intros r. set (tr1 := Act KRound r :: tr). assert (watched c observed tr1) as Hw1 by (eapply watched_extends; [apply extends_cons|done]).
  destruct r as [| | | | | |deleted o phase]; cbn beta iota; try apply Hgive; [by apply IH|by apply Hcomplete|].
  wp_if as E1; [by apply IH|]. wp_if as E2; [apply Hgive|]. wp_if as E3; [apply Hgive|]. bool_split. subst deleted.
  assert (watched c (<[ob_UID o := ob_ResourceVersion o]> observed) tr1) as Hw2.
  { intros uid v. rewrite lookup_insert_Some. intros [[<- <-]|[_ Hv]]; [|by apply Hw1]. exists o, phase. split; [by left|done]. }
  wp_if as E4; [by apply IH|by apply Hcomplete].
Qed.
Lemma reconcile_wp process tr : wp (recovery_guard c) (fun _ _ => True) (reconcileRecoveryOperation L base64 spec_hash a process c) tr.
Proof.
  unfold reconcileRecoveryOperation. wp_if as E0; [done|]. apply wp_bind. eapply (wp_mono _ (fun _ _ => True)); [done|].
  apply get_known. intros tr1 [o|e] _ Hk; [|done]. destruct (operationFrom o c) as [st|] eqn:Est; [|done]. cbv zeta.
  assert (known c tr1 o st) as Hko by (by apply Hk). apply wp_bind.
  destruct ((op_State st ==? "active") && (op_ObserverID st !=? process)) eqn:Es; cbn iota.
  - apply andb_true_iff in Es as [Es _]. apply bool_decide_eq_true in Es. eapply write_step; [exact Hko|by apply step_uncertain|].
    intros tr2 [k|] H2; [done|]. apply kube_calm_bind; [apply warning_calm|]. intros tr3 [] H3. done.
  - cbn [wp]. cbn iota. wp_if as E1; [done|]. bool_split. unfold finish_release.
    assert (release_due st) as Hd. { split_and!; [done..|]. intros E. by rewrite E in *. }
    apply kube_calm_bind; [apply repository_calm|]. intros tr2 [src|e] He2; [|done]. wp_if as E2; [done|].
    assert (known c tr2 o st) as Hk2 by (by eapply known_extends).
    eapply (wp_calls_bind _ no_update (fun _ _ => True)); [by eapply release_guard|apply lifetime_no_update|eapply wp_mono; [|apply wp_grows]; done|].
    intros tr3 [[]|e] He3 _; [|done]. eapply write_step; [by eapply known_extends|by apply step_released|]. done.
Qed.
End Steps.

(** ** Before the first Pod *)
(** The operation as the coordinator found or created it. *)
Definition found_operation (c : Cluster) (o : Object) (tr : ktrace) : Prop :=
  Act (KGet "configmaps" (cl_Namespace c) (operationName c)) (Ok o) ∈ tr
  \/ exists o', Act (KCreate "configmaps" (cl_Namespace c) o') (Ok o) ∈ tr.
Lemma find_wp a c op tr : wp anything (fun tr x => match x with Ok o => found_operation c o tr | Err _ => True end) (find_operation a c op) tr.
Proof.
  assert (Hget : forall tr, wp anything (fun tr x => match x with Ok o => found_operation c o tr | Err _ => True end)
    (Get a "configmaps" (cl_Namespace c) (operationName c)) tr).
  { intros tr'. unfold Get. wp_if as E1; [done|]. wp_if as E2; [done|]. split; [done|]. intros [o|e]; [|done]. left. by left. }
  unfold find_operation. eapply wp_knows; [apply Hget|]. intros tr1 [o|[]] _ H; [done| |done..].
  apply wp_call; [done|]. intros [o|[]]; [|done|apply Hget|done]. right. eexists. by left.
Qed.
(** What the coordinator may write before the first Pod: from the active operation it found or created, of exactly this placement and these
    targets, it gives up one that another process observes, or dates its own warning that the source does not admit it. *)
Inductive admission_step (co : coordinator) (st : recoveryOperation) : recoveryOperation -> Prop :=
| step_foreign : op_ObserverID st <> co_process co -> admission_step co st (with_state st "uncertain")
| step_warned time : op_ObserverID st = co_process co -> admission_step co st (with_warning st time).
Definition ensure_guard (co : coordinator) (c : Cluster) (placement : RecoveryPlacement) (guard : GuardConfig.Config) (tr : ktrace) X (e : kube X) : Prop :=
  match e with
  | KUpdate kind ns o => kind = "configmaps" /\ ns = cl_Namespace c /\ exists r st next, found_operation c r tr /\ operationFrom r c = Ok st /\ o = stored r next
      /\ op_State st = "active" /\ op_Placement st = placement /\ op_Targets st = guard /\ admission_step co st next
  | _ => True
  end.
Section Ensure.
Context (L : Libraries) (base64 : string -> option string) (a : API) (co : coordinator) (c : Cluster) (placement : RecoveryPlacement) (guard : GuardConfig.Config).
Let permitted := ensure_guard co c placement guard.
Lemma silent_permitted tr X (e : kube X) : no_update X e -> permitted tr X e.
Proof. by destruct e. Qed.
Lemma silent_bind {A B} (p : kprog A) (f : A -> kprog B) (R : ktrace -> A -> Prop) (Q : ktrace -> B -> Prop) tr :
  calls no_update p -> wp anything R p tr -> (forall tr' x, extends tr tr' -> R tr' x -> wp permitted Q (f x) tr') -> wp permitted Q (bind p f) tr.
Proof. intros Hp Hr Hf. eapply wp_calls_bind; [intros; by apply silent_permitted|exact Hp|exact Hr|exact Hf]. Qed.
Lemma find_no_update op : calls no_update (find_operation a c op).
Proof. unfold find_operation. repeat calls_step; try done; (eapply calls_mono; [apply calm_no_update|apply get_calm]). Qed.
Lemma silent_any {A B} (p : kprog A) (f : A -> kprog B) tr :
  calls no_update p -> (forall tr' x, extends tr tr' -> wp permitted (fun _ _ => True) (f x) tr') -> wp permitted (fun _ _ => True) (bind p f) tr.
Proof. intros Hp Hf. eapply (silent_bind _ _ (fun _ _ => True)); [exact Hp|eapply wp_mono; [|apply wp_grows]; done|]. intros; by apply Hf. Qed.
Lemma ensure_updates source tr : wp permitted (fun _ _ => True) (ensureRecovery L base64 a co c placement guard source) tr.
Proof.
  unfold ensureRecovery. eapply silent_bind; [apply find_no_update|apply find_wp|]. intros tr1 [o|e] _ Hf; [|done].
  destruct (operationFrom o c) as [st|] eqn:Est; [|done]. wp_if as E1; [done|]. bool_split. wp_if as E2; [done|]. bool_split.
  wp_if as E3; bool_split.
  { apply wp_call; [|by intros x]. split; [done|]. split; [done|]. exists o, st, (with_state st "uncertain"). split_and!; try done. by apply step_foreign. }
  apply silent_any; [apply lifetime_no_update|]. intros tr2 [[]|e] He.
  - destruct (co_monitors co !! OperationUID c) as [[|]|]; [done|done|]. wp_if as E4; [done|]. unfold start_watch. split; [done|].
    intros [[[n next] version]|e]; [|done]. cbn. wp_if as E5; [done|]. split; [done|]. by intros [].
  - apply wp_bind. eapply (wp_mono _ (fun _ _ => True)); [done|]. unfold warn_blocked. apply silent_any; [apply host_no_update|]. intros tr3 t He3. cbv zeta. wp_if as E4; [done|]. apply wp_call.
    + split; [done|]. split; [done|]. eexists o, st, _. split_and!; [|done..|by apply step_warned]. destruct Hf as [Hf|(o' & Hf)]; [left|right; exists o'];
        (eapply extends_elem; [|exact Hf]; by eapply extends_trans).
    + intros [k|]; [done|]. eapply wp_calls; [intros; by apply silent_permitted|eapply calls_mono; [apply calm_no_update|apply warning_calm]|].
      eapply wp_mono; [|apply wp_grows]. done.
Qed.
End Ensure.

(** C8: A recovery operation only moves forward, and completes only on evidence.  Whatever the API server, the watch and storage answer,
    the watching manager and the reconciler update the operation only from the version they read, in one of three ways: active becomes
    uncertain; active becomes completed, when the restore Job of the operation is the only one and complete, and every Pod of a
    complete LIST belongs to it, was seen by the uninterrupted watch in its listed version and stopped with all its containers; or a
    completed operation with its Job and Pods on record is marked released.  Before the first Pod, the coordinator only gives up an active
    operation of another process, or dates its own warning. *)
Theorem operation_steps_legal L base64 spec_hash a c source observer process fuel pre kind ns o :
  (emits (observeRecovery L base64 a fuel c source observer ∅) [] pre _ (KUpdate kind ns o)
   \/ emits (reconcileRecoveryOperation L base64 spec_hash a process c) [] pre _ (KUpdate kind ns o) ->
   kind = "configmaps" /\ ns = cl_Namespace c
   /\ exists r st next, known c pre r st /\ o = stored r next /\ operation_step c pre st next)
  /\ forall co placement guard, emits (ensureRecovery L base64 a co c placement guard source) [] pre _ (KUpdate kind ns o) ->
     kind = "configmaps" /\ ns = cl_Namespace c
     /\ exists r st next, found_operation c r pre /\ operationFrom r c = Ok st /\ o = stored r next
        /\ op_State st = "active" /\ op_Placement st = placement /\ op_Targets st = guard /\ admission_step co st next.
Proof.
  split.
  - intros [He|He].
    + exact (wp_emits _ _ _ _ _ _ _ (observe_wp L base64 a c source observer fuel ∅ [] (watched_empty c [])) He).
    + exact (wp_emits _ _ _ _ _ _ _ (reconcile_wp L base64 spec_hash a c process []) He).
  - intros co placement guard He. exact (wp_emits _ _ _ _ _ _ _ (ensure_updates L base64 a co c placement guard source []) He).
Qed.
(** C17: The source repository forgets a recovery only after its completion is durable.  The watching manager and the reconciler send a
    mutating request to the source only after they read back an operation that is completed, with the UIDs of the Job and of the
    terminated Pods on record; a lost watch, a deleted Pod, a failed Job or a foreign observer leaves the lifetime in place. *)
Theorem source_kept_until_completed L base64 spec_hash a c source observer process fuel pre X (ev : Store.event X) :
  emits (observeRecovery L base64 a fuel c source observer ∅) [] pre _ (Host (Remote ev))
  \/ emits (reconcileRecoveryOperation L base64 spec_hash a process c) [] pre _ (Host (Remote ev)) ->
  mutating ev = true -> exists r st, known c pre r st /\ release_due st.
Proof.
  intros [He|He] Hm.
  - exact (wp_emits _ _ _ _ _ _ _ (observe_wp L base64 a c source observer fuel ∅ [] (watched_empty c [])) He Hm).
  - exact (wp_emits _ _ _ _ _ _ _ (reconcile_wp L base64 spec_hash a c process []) He Hm).
Qed.
(** When a LIST names no Pod twice, the record of a completion covers every Pod that the watch ever saw. *)
Lemma terminated_covers c observed job ids tr : terminated c observed job ids tr -> NoDup ids ->
  forall uid, is_Some (observed !! uid) -> uid ∈ ids.
Proof.
  intros (j & jobs & pods & _ & _ & _ & _ & _ & _ & _ & _ & _ & _ & _ & Hs & Hp & Hl & _) Hn uid Hu.
  assert (list_to_set ids = (dom observed : gset string)) as E.
  { assert (list_to_set ids ⊆ (dom observed : gset string)) as Hsub.
    { intros x Hx%elem_of_list_to_set. rewrite Hp in Hx. apply list_elem_of_fmap in Hx as (p & -> & Hx). rewrite Forall_forall in Hs.
      destruct (Hs p Hx) as [H _]. apply elem_of_dom. by eexists. }
    apply set_subseteq_size_eq; [done|]. rewrite size_list_to_set, size_dom by done. lia. }
  apply (elem_of_list_to_set (C := gset string)). rewrite E. by apply elem_of_dom.
Qed.

Definition admitted_watch (L : Libraries) base64 a (co co' : coordinator) (c : Cluster) placement guard source (tr : ktrace) : Prop :=
  exists o st tr1 tr2, found_operation c o tr /\ operationFrom o c = Ok st /\ op_Placement st = placement /\ op_Targets st = guard
  /\ op_State st = "active" /\ op_ObserverID st = co_process co
  /\ runs (changeRecoveryLifetime L base64 a c source false) tr1 tr2 (Ok ()) /\ extends tr2 tr
  /\ ((co' = co /\ co_monitors co !! OperationUID c = Some false)
      \/ (co' = set_monitor co (OperationUID c) false /\ exists version, Act (KFirst (cl_Namespace c) (selector c)) (Ok (0%nat, "", version)) ∈ tr
          /\ Act (KWatch (cl_Namespace c) (selector c) version) WatchOpen ∈ tr)).
Lemma ensure_wp L base64 a co c placement guard source co' tr0 :
  wp anything (fun tr x => x = (co', Ok ()) -> admitted_watch L base64 a co co' c placement guard source tr) (ensureRecovery L base64 a co c placement guard source) tr0.
Proof.
  unfold ensureRecovery. eapply wp_knows; [apply find_wp|]. intros tr1 [o|e] _ Hf; [|done]. destruct (operationFrom o c) as [st|] eqn:Est; [|done].
  wp_if as E1; [done|]. bool_split. wp_if as E2; [done|]. bool_split. wp_if as E3; [by apply wp_past|]. bool_split.
  eapply wp_knows; [apply wp_run|]. intros tr2 [[]|e] H2 Hl; [|by apply wp_past].
  assert (found_operation c o tr2) as Hf2. { destruct Hf as [Hf|(o' & Hf)]; [left|right; exists o']; by eapply extends_elem. }
  assert (Hdone : forall tr, extends tr2 tr ->
    ((co' = co /\ co_monitors co !! OperationUID c = Some false)
      \/ (co' = set_monitor co (OperationUID c) false /\ exists version, Act (KFirst (cl_Namespace c) (selector c)) (Ok (0%nat, "", version)) ∈ tr
          /\ Act (KWatch (cl_Namespace c) (selector c) version) WatchOpen ∈ tr)) -> admitted_watch L base64 a co co' c placement guard source tr).
  { intros tr He Hend. exists o, st, tr1, tr2. split_and!; try done. destruct Hf2 as [Hf2|(o' & Hf2)]; [left|right; exists o']; by eapply extends_elem. }
  destruct (co_monitors co !! OperationUID c) as [[|]|] eqn:Em; [done| |].
  - intros [= <-]. apply Hdone; [apply extends_refl|]. by left.
  - wp_if as Es; [done|]. unfold start_watch. apply wp_call; [done|]. intros [[[n next] version]|e]; [|done]. wp_if as En; [done|].
    apply orb_false_iff in En as [En1 En2]. apply Nat.ltb_ge in En1. apply negb_false_iff, bool_decide_eq_true in En2. subst next.
    apply wp_call; [done|]. intros []; [done..|]. intros [= <-]. apply Hdone.
    + eapply extends_trans; apply extends_cons.
    + right. split; [done|]. exists version. assert (n = 0%nat) as -> by lia. split; [right; by left|by left].
Qed.
(** No target Pod before the source is held and watched.  When the coordinator lets the restore Job be created, the durable operation is
    active, of exactly this placement and target set and of this very process; the source's lifetime was established; and either the watch
    of this operation is still running, or a LIST at one version found no Pod of the Cluster and a watch was opened from that version. *)
Theorem job_after_hold_and_watch L base64 a co c placement guard source tr co' :
  runs (ensureRecovery L base64 a co c placement guard source) [] tr (co', Ok ()) ->
  admitted_watch L base64 a co co' c placement guard source tr.
Proof. intros Hr. exact (wp_runs _ _ _ _ _ _ (ensure_wp L base64 a co c placement guard source co' []) Hr eq_refl). Qed.

(** ** A recovery that completes *)
Definition demo_source_spec : Spec :=
  match DecodeSpec demo_duration (lb_Parse sidecar_libraries) (lb_Hostname sidecar_libraries) (fun _ => true) (fun _ => true) (fun _ => Some (16 * GiB))
          (fun r _ => Some r) spec_json with Ok s => s | Err _ => Defaults end.
Definition demo_placement : RecoveryPlacement :=
  mkRecoveryPlacement demo_cluster "db" "restored" cnpg_operation cnpg_fingerprint "theirs" "mine" ex_hash ex_hash.
Definition demo_targets : GuardConfig.Config := GuardConfig.mkConfig demo_cluster cnpg_operation [GuardConfig.mkTarget ex_pod data_mount].
Definition demo_active : recoveryOperation := mkOp demo_placement demo_targets ex_process "active" "" [] false "".
Definition demo_map (op : recoveryOperation) : Object := owned_object cnpg_cluster (operationName cnpg_cluster) false {["operation.json" := operation_text op]}.
Definition demo_job : Job := mkJob "job-1" cnpg_operation (Some demo_cluster) false [("Complete", "True")] 0 1 0 (Some 1) (Some 1) false.
Definition demo_status (name : string) : ContainerStatus := mkContainerStatus name ("containerd://" +:+ name) (Some (mkTerminated 0 true "Completed")).
Definition demo_pod : Pod := mkPod "pod-1" "42" (Some "job-1") false "Succeeded" "" ["restore"] ["plugin"] [] [demo_status "restore"] [demo_status "plugin"] [].
Definition demo_event (version phase : string) : Round :=
  WatchEvent false (mkObj "restored-1" "pod-1" version (Some ("job-1", "Job")) false {[operationAnnotation := cnpg_operation]} ∅ false "" "db" 0 "") phase.
Definition demo_rounds : list Round := [demo_event "41" "Running"; WatchBookmark; demo_event "42" "Succeeded"].
Record kube_state := mkKube { ks_memory : memory; ks_map : Object; ks_rounds : list Round }.
Definition demo_held : memory :=
  (store_object demo_restoring (r_root demo +:+ "gate.json") (Marshal (with_holders demo_gate [lifetime_holder demo_cluster cnpg_operation])) ∅).2.
Definition demo_secret : Object := mkObj "keys" "" "" None false ∅ {["value" := "eA=="]} false "" "db" 0 "".
Definition demo_kube : Prog.handler (E := kube) kube_state := fun X e s =>
  match e in kube X return X * kube_state with
  | Host e => let '(x, m) := sidecar_os _ e (ks_memory s) in (x, mkKube m (ks_map s) (ks_rounds s))
  | KGet kind _ _ => (Ok (if kind ==? "secrets" then demo_secret else ks_map s), s)
  | KCreate _ _ o => (Ok o, s)
  | KUpdate _ _ o => (None, mkKube (ks_memory s) o (ks_rounds s))
  | KList kind _ _ _ => (Ok (if kind ==? "jobs" then [JobItem (Some demo_job)] else [PodItem cnpg_operation (Some demo_pod)], ""), s)
  | KFirst _ _ => (Ok (0%nat, "", "40"), s)
  | KWatch _ _ _ => (WatchOpen, s)
  | KRound => match ks_rounds s with r :: l => (r, mkKube (ks_memory s) (ks_map s) l) | [] => (WatchClosed, s) end
  | KTick => (false, s)
  end.
Definition demo_api : API := mkAPI ["db"] {["db" := ["keys"]]}.
Definition demo_state : kube_state := mkKube demo_held (demo_map demo_active) demo_rounds.
Definition demo_observe : kprog (option bool) := observeRecovery sidecar_libraries Some demo_api 5 cnpg_cluster demo_source_spec ex_process ∅.
(** The run ends durably closed, released, with the Job and the Pod on record, and the holder gone. *)
Example demo_observe_result :
  let '(x, s) := run demo_kube demo_observe demo_state in
  x = Some true /\ operationFrom (ks_map s) cnpg_cluster = Ok (with_release (with_completion demo_active "job-1" ["pod-1"])).
Proof. vm_compute. done. Qed.
Definition updates (X : Type) (e : kube X) : bool := match e with KUpdate _ _ _ => true | _ => false end.
Definition mutates (X : Type) (e : kube X) : bool := match e with Host (Remote ev) => mutating ev | _ => false end.
Lemma operation_steps_legal_witness : exists pre kind ns o r st next, emits demo_observe [] pre _ (KUpdate kind ns o)
  /\ known cnpg_cluster pre r st /\ o = stored r next /\ operation_step cnpg_cluster pre st next.
Proof.
  destruct (run_emits demo_kube updates demo_observe demo_state []) as (pre & X & e & Hp & He); [reflexivity|vm_compute; reflexivity|].
  destruct e; try discriminate Hp.
  destruct (proj1 (operation_steps_legal sidecar_libraries Some (fun _ => "") demo_api cnpg_cluster demo_source_spec ex_process ex_process 5 pre _ _ _) (or_introl He))
    as (_ & _ & r & st & next & H).
  eexists pre, _, _, _, r, st, next. split; [exact He|exact H].
Defined.
Lemma source_kept_until_completed_witness : exists pre X (ev : Store.event X) r st, emits demo_observe [] pre _ (Host (Remote ev)) /\ mutating ev = true
  /\ known cnpg_cluster pre r st /\ release_due st.
Proof.
  destruct (run_emits demo_kube mutates demo_observe demo_state []) as (pre & X & e & Hp & He); [reflexivity|vm_compute; reflexivity|].
  destruct e as [X e| | | | | | | |]; try discriminate Hp. destruct e as [X e| | | | | | | | | | | | | | | | | | |]; try discriminate Hp.
  destruct (source_kept_until_completed sidecar_libraries Some (fun _ => "") demo_api cnpg_cluster demo_source_spec ex_process ex_process 5 pre _ e
    (or_introl He) Hp) as (r & st & H). exists pre, X, e, r, st. split; [exact He|]. split; [exact Hp|exact H].
Defined.
Definition demo_ensure : kprog (coordinator * res ()) :=
  ensureRecovery sidecar_libraries Some demo_api (mkCoordinator ex_process ∅) cnpg_cluster demo_placement demo_targets demo_source_spec.
Definition demo_first_state : kube_state := mkKube demo_restoring (demo_map demo_active) demo_rounds.
Lemma job_after_hold_and_watch_witness : exists co' tr,
  admitted_watch sidecar_libraries Some demo_api (mkCoordinator ex_process ∅) co' cnpg_cluster demo_placement demo_targets demo_source_spec tr.
Proof.
  pose proof (run_trace_runs demo_kube demo_ensure demo_first_state []) as Hr.
  assert (H : match (run demo_kube demo_ensure demo_first_state).1 with (_, Ok _) => True | (_, Err _) => False end) by (vm_compute; reflexivity).
  destruct ((run demo_kube demo_ensure demo_first_state).1) as [co' [[]|e]] eqn:E; [|destruct H].
  exists co'. eexists. exact (job_after_hold_and_watch sidecar_libraries Some demo_api _ cnpg_cluster demo_placement demo_targets demo_source_spec _ co' Hr).
Defined.
