(* ===== verification/CnpgDocument.v ===== *)
(** * The operation document (internal/cnpgi/recovery_operation.go)

    The JSON that the manager stores for a recovery and the strict decoder that reads it: round trip of the whole document. *)

From S2P Require Import Guard.
From S2P Require Import Prelude GoStrings GoTime Errors Schema Json LooseJson Prog ProgRules Store GuardConfig Admission Gate Repository Memory RecoveryPlan Lifecycle Restore.
From S2P Require Import S3Config Configuration NativeOps NativeText ConfigSnapshot CnpgCluster CnpgOps CnpgKube CnpgRecovery CnpgRecoverySafety CnpgDemo.
Lemma StrictJSON_print {A} {L : Loose A} (v : A) j max :
  plain_tree j -> json_depth_ok 34 0 j = true -> len (print j) <= max -> into zero j = Some v -> StrictJSONLimit (print j) max = Some v.
Proof.
  intros Hp Hd Hl Hj. pose proof (decode_only_print v j Hp Hj) as H. unfold decode_only in H. unfold StrictJSONLimit, StrictJSONInto.
  destruct (print_clean _ j (Nat.le_refl _) Hp) as [[Ha _] Hsize].
  assert (0 < len (print j)) by (unfold len; destruct j; cbn [jsize] in Hsize; lia).
  rewrite (proj2 (Z.leb_gt _ _)), (proj2 (Z.ltb_ge _ _)), ascii_valid by (done || lia). cbn [negb orb].
  destruct (print_clean _ j (Nat.le_refl _) Hp) as [[_ Hu] _].
  specialize (Hu ""). rewrite append_nil_r in Hu. rewrite (sanitize_clean _ _ _ (Nat.le_refl _)), parse_document_print by done. by rewrite Hd.
Qed.
Definition op_texts (op : recoveryOperation) : list string :=
  let p := op_Placement op in let t := op_Targets op in
  [rl_ClusterUID p; rl_Namespace p; rl_Cluster p; rl_OperationID p; rl_BootstrapSHA256 p; rl_Source p; rl_Destination p; rl_SourceConfigSHA256 p;
   rl_DestinationConfigSHA256 p; cf_ClusterUID t; cf_OperationUID t; op_ObserverID op; op_State op; op_CompletedJobUID op; op_LastWarningAt op]
  ++ op_TerminatedPodUIDs op ++ map tg_PVCUID (cf_Targets t) ++ map tg_Mount (cf_Targets t).
Lemma into_targets l : into (zero (A := slice_of GuardConfig.Target)) (JArray (map target_json l)) = Some (mkSlice l (length l)).
Proof. apply into_slice_fresh. apply Forall_forall. by intros [u m] _. Qed.
Lemma into_texts l : into (zero (A := slice_of string)) (JArray (map JText l)) = Some (mkSlice l (length l)).
Proof. apply into_slice_fresh. by apply Forall_forall. Qed.
Lemma into_members_cons {A} (table : field_table A) v k j l f v' :
  field_of table k = Some f -> f v j = Some v' -> into_members table v ((k, j) :: l) = into_members table v' l.
Proof. intros H1 H2. cbn [into_members]. by rewrite H1, H2. Qed.
Lemma into_config c : into zero (config_json c) = Some (mkRawConfig (cf_ClusterUID c) (cf_OperationUID c) (mkSlice (cf_Targets c) (length (cf_Targets c)))).
Proof.
  unfold config_json. cbn [into loose_raw_config into_struct]. do 2 (erewrite into_members_cons; [|reflexivity|reflexivity]).
  erewrite into_members_cons; [reflexivity|reflexivity|]. unfold on_field. cbn [rc_Targets]. by rewrite into_targets.
Qed.
Lemma into_placement p : into zero (placement_json p) = Some p.
Proof. destruct p. vm_compute. reflexivity. Qed.
Lemma into_operation op : exists v, into zero (operation_json op) = Some v /\ of_raw v = op.
Proof.
  destruct op as [p t o s j pods r w]. unfold operation_json, text_member.
  cbn [op_Placement op_Targets op_ObserverID op_State op_CompletedJobUID op_TerminatedPodUIDs op_LifetimeReleased op_LastWarningAt].
  eexists (mkRawOp p (mkRawConfig (cf_ClusterUID t) (cf_OperationUID t) (mkSlice (cf_Targets t) (length (cf_Targets t)))) o s j (mkSlice pods (length pods)) r w).
  split; [|unfold of_raw; cbn; unfold elements_of; cbn [sl_len sl_mem]; rewrite !take_ge by done; by destruct t].
  cbn [into loose_raw_operation into_struct app zero].
  erewrite into_members_cons; [|reflexivity|unfold on_field; cbn [ro_Placement]; rewrite into_placement; reflexivity].
  erewrite into_members_cons; [|reflexivity|unfold on_field; cbn [ro_Targets]; rewrite into_config; reflexivity].
  do 2 (erewrite into_members_cons; [|reflexivity|reflexivity]). cbv beta. cbn [ro_Placement ro_Targets ro_ObserverID ro_State ro_CompletedJobUID ro_TerminatedPodUIDs ro_LifetimeReleased ro_LastWarningAt].
  match goal with |- into_members ?tab _ _ = _ => set (table := tab) end.
  set (raw := fun j pods r w => mkRawOp p (mkRawConfig (cf_ClusterUID t) (cf_OperationUID t) (mkSlice (cf_Targets t) (length (cf_Targets t)))) o s j pods r w).
  change (into_members table (raw "" zero false "") ((if j ==? "" then [] else [("completedJobUID", JText j)]) ++
    match pods with [] => [] | u :: l => [("terminatedPodUIDs", JArray (map JText (u :: l)))] end ++
    ("lifetimeReleased", JBool r) :: (if w ==? "" then [] else [("lastWarningAt", JText w)])) = Some (raw j (mkSlice pods (length pods)) r w)).
  transitivity (into_members table (raw j zero false "") (match pods with [] => [] | u :: l => [("terminatedPodUIDs", JArray (map JText (u :: l)))] end ++
    ("lifetimeReleased", JBool r) :: (if w ==? "" then [] else [("lastWarningAt", JText w)]))).
  { case_bool_decide as Ej; [by subst j|]. cbn [app]. by erewrite (into_members_cons table); [|reflexivity|reflexivity]. }
  transitivity (into_members table (raw j (mkSlice pods (length pods)) false "") (("lifetimeReleased", JBool r) :: (if w ==? "" then [] else [("lastWarningAt", JText w)]))).
  { pose proof (into_texts pods) as Hp. destruct pods as [|u pods]; [done|]. cbn [app].
    erewrite (into_members_cons table); [|reflexivity|unfold on_field; cbn [raw ro_TerminatedPodUIDs]; rewrite Hp; reflexivity]. done. }
  erewrite (into_members_cons table); [|reflexivity|reflexivity]. case_bool_decide as Ew; [by subst w|]. by erewrite (into_members_cons table); [|reflexivity|reflexivity].
Qed.

Lemma depth_object fuel d l : d <= 32 -> bool_decide (NoDup l.*1) = true -> Forall (fun kv => json_depth_ok fuel (d + 1) kv.2 = true) l ->
  json_depth_ok (S fuel) d (JObject l) = true.
Proof.
  intros Hd Hn Hl. cbn. rewrite (proj2 (Z.leb_le _ _)), Hn by lia. apply forallb_forall. intros kv Hkv. rewrite Forall_forall in Hl. by apply Hl, list_elem_of_In.
Qed.
Lemma depth_array fuel d l : d <= 32 -> Forall (fun j => json_depth_ok fuel (d + 1) j = true) l -> json_depth_ok (S fuel) d (JArray l) = true.
Proof.
  intros Hd Hl. cbn. rewrite (proj2 (Z.leb_le _ _)) by lia. apply forallb_forall. intros j Hj. rewrite Forall_forall in Hl. by apply Hl, list_elem_of_In.
Qed.
Lemma depth_text fuel d s : d <= 32 -> json_depth_ok (S fuel) d (JText s) = true.
Proof. intros Hd. cbn. by rewrite (proj2 (Z.leb_le _ _)) by lia. Qed.
Lemma depth_bool fuel d b : d <= 32 -> json_depth_ok (S fuel) d (JBool b) = true.
Proof. intros Hd. cbn. by rewrite (proj2 (Z.leb_le _ _)) by lia. Qed.
Ltac depth_tac :=
  repeat match goal with
  | |- Forall _ [] => constructor
  | |- Forall _ (_ :: _) => constructor; cbn [snd]
  | |- json_depth_ok _ _ (JText _) = true => apply depth_text; lia
  | |- json_depth_ok _ _ (JBool _) = true => apply depth_bool; lia
  | |- json_depth_ok _ _ (JObject _) = true => apply depth_object; [lia|vm_compute; reflexivity|]
  | |- json_depth_ok _ _ (JArray _) = true => apply depth_array; [lia|]
  end.
Lemma operation_depth op : json_depth_ok 34 0 (operation_json op) = true.
Proof.
  unfold operation_json, text_member, config_json, placement_json.
  assert (Forall (fun j => json_depth_ok 31 (0 + 1 + 1 + 1) j = true) (map target_json (cf_Targets (op_Targets op)))) as Ht.
  { apply Forall_forall. intros j (t & -> & _)%list_elem_of_fmap. unfold target_json. depth_tac. }
  assert (Forall (fun j => json_depth_ok 32 (0 + 1 + 1) j = true) (map JText (op_TerminatedPodUIDs op))) as Hp.
  { apply Forall_forall. intros j (t & -> & _)%list_elem_of_fmap. depth_tac. }
  destruct (op_CompletedJobUID op ==? ""), (op_LastWarningAt op ==? ""), (op_TerminatedPodUIDs op) as [|u l]; cbn [app]; depth_tac; try exact Ht; inversion Hp; done.
Qed.
Lemma plain_list {A} (f : A -> json) l : Forall (fun x => plain_tree (f x)) l -> foldr (fun x P => plain_tree x /\ P) True (map f l).
Proof. induction 1 as [|x l Hx _ IH]; cbn; [done|]. by split. Qed.
Lemma operation_plain op : Forall (fun s => ascii_text s = true) (op_texts op) -> plain_tree (operation_json op).
Proof.
  intros H. unfold op_texts in H. cbv zeta in H. apply Forall_app in H as [H1 H]. apply Forall_app in H as [H2 H]. apply Forall_app in H as [H3 H4].
  rewrite !Forall_cons in H1. destruct H1 as (? & ? & ? & ? & ? & ? & ? & ? & ? & ? & ? & ? & ? & ? & ? & _).
  assert (foldr (fun x P => plain_tree x /\ P) True (map target_json (cf_Targets (op_Targets op)))) as Ht.
  { apply plain_list. rewrite Forall_map in H3, H4. rewrite Forall_forall in H3, H4 |- *. intros t Hin. cbn [target_json plain_tree foldr]. split_and!; try done; [by apply H3|by apply H4]. }
  assert (foldr (fun x P => plain_tree x /\ P) True (map JText (op_TerminatedPodUIDs op))) as Hp by (by apply plain_list).
  unfold operation_json, text_member, config_json, placement_json.
  destruct (op_CompletedJobUID op ==? ""), (op_LastWarningAt op ==? ""), (op_TerminatedPodUIDs op) as [|u l]; cbn [app plain_tree foldr]; by split_and!.
Qed.

Lemma decode_operation_text op : Forall (fun s => ascii_text s = true) (op_texts op) -> len (operation_text op) <= 128 * 1024 ->
  decode_operation (operation_text op) = Some op.
Proof.
  intros Hp Hl. destruct (into_operation op) as (v & Hv & Ho). unfold decode_operation, StrictJSON, operation_text in *.
  rewrite (StrictJSON_print v); [by rewrite <- Ho|by apply operation_plain|apply operation_depth|lia|done].
Qed.
(** C28: What the manager writes is what the next manager reads.  The operation that an update stores in a ConfigMap of the Cluster, for this
    Cluster and this recovery and with valid targets, is read back field by field, so the state machine survives restarts and a
    refused decode never comes from the manager's own document. *)
Theorem operation_document_roundtrip c o op :
  ob_controller o = Some (cl_UID c, "Cluster") -> ob_deleting o = false ->
  Forall (fun s => ascii_text s = true) (op_texts op) -> len (operation_text op) <= 128 * 1024 ->
  rl_ClusterUID (op_Placement op) = cl_UID c -> rl_OperationID (op_Placement op) = OperationUID c -> Config_Validate (op_Targets op) = Ok () ->
  operationFrom (stored o op) c = Ok op.
Proof.
  intros Hc Hd Hp Hl H1 H2 H3. unfold operationFrom, stored. cbn [ob_controller ob_deleting ob_data].
  rewrite Hc, Hd, bool_decide_eq_true_2 by done. cbn [negb orb]. rewrite lookup_singleton_eq, (proj2 (Z.ltb_ge _ _)), decode_operation_text by (done || lia).
  rewrite H1, H2, H3, !bool_decide_eq_true_2 by done. done.
Qed.
Lemma operation_document_roundtrip_witness : operationFrom (stored (demo_map demo_active) demo_active) cnpg_cluster = Ok demo_active.
Proof.
  apply (operation_document_roundtrip cnpg_cluster (demo_map demo_active) demo_active); [reflexivity|reflexivity| |vm_compute; discriminate| | |]; try (vm_compute; reflexivity).
  apply Forall_forall. intros s Hs. apply list_elem_of_In in Hs. revert s Hs. apply forallb_forall. vm_compute. reflexivity.
Defined.
