(* ===== verification/CnpgRestore.v ===== *)
(** * The restore service of a recovery (internal/cnpgi/restore.go)

    One original guard session and one source snapshot per process: the bootstrap that admits the source, protects a plan, writes it
    durably and materializes the targets, the restore callback around it, and the drain. *)

From S2P Require Import Guard.
From S2P Require Import Prelude GoStrings GoTime Sha256 Errors Schema Json LooseJson Prog Store WalNames GuardConfig Gate Repository Catalog RecoveryPlan Lifecycle Restore WalArchive.
From S2P Require Import S3Config Configuration Capacity NativePath NativeOps NativeText NativeBudget NativeRestore ConfigSnapshot NativePreflight CnpgCluster CnpgOps CnpgWal CnpgKube CnpgRecovery.

(** ** Deep equality of Cluster specifications *)
Fixpoint json_eq (x y : json) {struct x} : bool :=
  match x, y with
  | JNull, JNull => true
  | JBool a, JBool b => bool_decide (a = b)
  | JNumber a, JNumber b => bool_decide (a = b)
  | JText a, JText b => bool_decide (a = b)
  | JArray l, JArray m => (fix go l m := match l, m with [], [] => true | x :: l, y :: m => json_eq x y && go l m | _, _ => false end) l m
  | JObject l, JObject m => (fix go l m := match l, m with [], [] => true | (k, x) :: l, (k', y) :: m => bool_decide (k = k') && json_eq x y && go l m | _, _ => false end) l m
  | _, _ => false
  end.
Lemma json_eq_spec : forall x y, json_eq x y = true <-> x = y.
Proof.
  fix IH 1. intros [|b|t|t|l|l] [|b'|t'|t'|l'|l']; cbn [json_eq]; try (rewrite ?bool_decide_eq_true; split; congruence).
  - split.
    + revert l'. induction l as [|x l IHl]; intros [|y m]; try done. rewrite andb_true_iff. intros [H1 H2]. apply IH in H1 as ->.
      specialize (IHl m H2). congruence.
    + intros [= <-]. induction l as [|x l IHl]; [done|]. rewrite (proj2 (IH x x) eq_refl). exact IHl.
  - split.
    + revert l'. induction l as [|[k x] l IHl]; intros [|[k' y] m]; try done. rewrite !andb_true_iff. intros [[H0 H1] H2]. apply IH in H1 as ->.
      apply bool_decide_eq_true in H0 as ->. specialize (IHl m H2). congruence.
    + intros [= <-]. induction l as [|[k x] l IHl]; [done|]. rewrite (proj2 (IH x x) eq_refl), bool_decide_eq_true_2 by done. exact IHl.
Qed.
#[export] Instance json_eq_dec : EqDecision json.
Proof. refine (fun x y => cast_if (decide (json_eq x y = true))); by rewrite <- json_eq_spec. Defined.
#[export] Instance Recovery_eq_dec : EqDecision Recovery.
Proof. solve_decision. Defined.
#[export] Instance ClusterSpec_eq_dec : EqDecision ClusterSpec.
Proof. solve_decision. Defined.

(** ** Inputs *)
Definition input_bytes (size : Artifact -> Z) (c : Commit) : Z := foldl (fun n a => n + size a) (c_ManifestBytes c) (c_Artifacts c).
(** The running sums are int64 in Go; the sizes of a validated commit keep them far below. *)
Definition checkRestoreInput (c : Commit) (n : Configuration.Native) : res () :=
  if (c_Kind c !=? "full") && (c_Kind c !=? "differential") then Err ErrInvalid else
  if existsb (fun a => (ar_Role a ==? "wal") && (n_MaxBootstrapWALBytes n <? ar_RawBytes a)) (c_Artifacts c) then Err ErrCapacity else
  if (n_MaxBackupBytes n <? input_bytes ar_RawBytes c) || (spool_bound (n_MaxBackupBytes n) <? input_bytes ar_StoredBytes c) then Err ErrCapacity else Ok ().
Definition selection_need (n : Configuration.Native) (b : FilesystemBudget) : Z :=
  if fb_Mount b ==? workspace then
    let peak := spool_bound (n_MaxBackupBytes n) + 256 * 2 ^ 20 + 64 * 2 ^ 20 + 16 * 2 ^ 20 in peak + CapacityMargin peak
  else fb_RequiredBytes b.
Definition restore_layout (c : Cluster) : RestoreLayout :=
  mkLayout pgdataPath (physicalWAL c)
    (foldl (fun m t => <[t.1 := "/var/lib/postgresql/tablespaces/" +:+ t.1 +:+ "/data"]> m) ∅ (sc_Tablespaces (cl_Spec c))).

Definition new_service (zero : RecoveryPlan) : Service := mkService false false false zero None false None [].
Definition set_budgets (s : Service) (b : list FilesystemBudget) : Service :=
  mkService (sv_attempted s) (sv_ready s) (sv_closed s) (sv_plan s) (sv_hold s) (sv_store s) (sv_files s) b.
Definition set_store (s : Service) : Service :=
  mkService (sv_attempted s) (sv_ready s) (sv_closed s) (sv_plan s) (sv_hold s) true (sv_files s) (sv_budgets s).
Definition set_hold (s : Service) (h : Hold) : Service :=
  mkService (sv_attempted s) (sv_ready s) (sv_closed s) (sv_plan s) (Some h) (sv_store s) (sv_files s) (sv_budgets s).
Definition set_files (s : Service) (f : Files) : Service :=
  mkService (sv_attempted s) (sv_ready s) (sv_closed s) (sv_plan s) (sv_hold s) (sv_store s) (Some f) (sv_budgets s).
Definition set_plan (s : Service) (p : RecoveryPlan) : Service :=
  mkService (sv_attempted s) (sv_ready s) (sv_closed s) p (sv_hold s) (sv_store s) (sv_files s) (sv_budgets s).
Definition set_attempted (s : Service) : Service :=
  mkService true (sv_ready s) (sv_closed s) (sv_plan s) (sv_hold s) (sv_store s) (sv_files s) (sv_budgets s).
Definition set_ready (s : Service) : Service :=
  mkService (sv_attempted s) true (sv_closed s) (sv_plan s) (sv_hold s) (sv_store s) (sv_files s) (sv_budgets s).
Definition set_closed (s : Service) : Service :=
  mkService (sv_attempted s) (sv_ready s) true (sv_plan s) (sv_hold s) (sv_store s) (sv_files s) (sv_budgets s).
Definition with_bundled (p : RecoveryPlan) (b : gmap string Integrity) (materialized : bool) : RecoveryPlan :=
  mkRecoveryPlan (rp_Plan p) (rp_Tuple p) (rp_ClusterDefinition p) b materialized.

(** A step of the bootstrap: an error leaves the service as it is. *)
Definition at_step {A} (s : Service) (p : cprog (res A)) (k : A -> cprog (Service * res ())) : cprog (Service * res ()) :=
  let! x := p in match x with Ok a => k a | Err e => Ret (s, Err e) end.
Notation "'let^' x := p 'at' s 'in' k" := (at_step s p (fun x => k)) (at level 10, x pattern, p at level 100, s at level 100, k at level 200).

Section Service.
Context (L : Libraries) (spec_hash : Spec -> string) (workspaceLocked : bool).
Let repositories := Repositories (lb_range L) (lb_IsDNS1123Subdomain L).
Let parse_cluster := ParseCluster (lb_IsDNS1123Subdomain L) (lb_unmarshal L).
Let load := LoadSnapshotFromRoot (lb_ParseDuration L) (lb_Parse L) (lb_Hostname L) (lb_IsDNS1123Subdomain L) (lb_IsConfigMapKey L)
  (lb_ParseQuantity L) (lb_into_resources L) (lb_pem_decode L) (lb_ParseCertificate L).

(** ** Configuration *)
Definition placement_matches (c : Cluster) (p : RecoveryPlacement) : bool :=
  match repositories c with
  | Ok (dst, src) =>
      (rl_ClusterUID p ==? cl_UID c) && (rl_Namespace p ==? cl_Namespace c) && (rl_Cluster p ==? cl_Name c) && (rl_OperationID p ==? OperationUID c)
      && (rl_BootstrapSHA256 p ==? BootstrapFingerprint c) && (rl_Source p ==? src) && (rl_Destination p ==? dst)
  | Err _ => false
  end.
Definition bootstrap_config (root : string) (c : Cluster) : cprog (res (Snapshot * Snapshot * list FilesystemBudget)) :=
  let* b := native (ConfigSnapshot.Read root "recovery.json" (64 * 1024)) in
  match @StrictJSON RecoveryPlacement _ b with
  | None => fail ErrInvalid
  | Some placement =>
      if negb (placement_matches c placement) then fail ErrIdentity else
      native (activeOperation root placement) ;;*
      let* source := native (load root "source") in
      let* destination := native (load root "destination") in
      if (spec_hash (sn_Spec source) !=? rl_SourceConfigSHA256 placement) || (spec_hash (sn_Spec destination) !=? rl_DestinationConfigSHA256 placement)
         || (sp_RepositoryID (sn_Spec source) ==? sp_RepositoryID (sn_Spec destination)) then fail ErrIdentity else
      let* b := native (ConfigSnapshot.Read root "capacity.json" (64 * 1024)) in
      match decode_budgets b with
      | None => fail ErrInvalid
      | Some budgets => done (source, destination, budgets)
      end
  end.

(** ** Selection *)
(** [history]: the reader of [Resolve]; the temporary file is removed as soon as it is open. *)
Definition history (f : Files) (hold : Hold) (name : string) : Store.prog (res string) :=
  local_or "create history" ErrOther (local_or "remove history" ErrOther (
  let* (_, out) := ReadSource (fl_Repository f) hold
                     (Retrieve (lb_gunzip L) (lb_gzip_header L) (fl_Repository f) (fl_Compression f) "restore-history" name) in
  local_or "seek history" ErrOther (local_or "read history" ErrOther (
  done (String.substring 0 (Z.to_nat (2 ^ 20 + 1)) out))))).
Definition fresh_plan (f : Files) (hold : Hold) (c : Cluster) (destination : Spec) : Store.prog (res Plan) :=
  let n := sp_Native destination in
  match sc_Recovery (cl_Spec c) with
  | None => fail Panic
  | Some recovery =>
      match recoveryTarget (lb_range L) (rv_Target recovery) with
      | Err e => fail e
      | Ok target =>
          let* catalog := Hold_Catalog (lb_gunzip L) (fl_Repository f) hold
                            (mkLimits MaxCatalogRecords (Z.min (n_MaxBackupBytes n) (256 * 2 ^ 20))) in
          let! names := ArchiveNames (fl_Repository f) hold in
          let! plan := match names with
                       | Err e => fail e
                       | Ok names =>
                           Resolve (lb_gunzip L) (fl_Repository f) (fun i => checkRestoreInput i n) (history f hold) hold catalog
                             (mkPlan 0 (mkIdentity 0 "" 0 "" 0 "" "") (sp_RepositoryID destination) "" (BootstrapFingerprint c) "" "" "" target [] [] None) names
                       end in
          let! (_, closed) := Catalog_Close catalog in
          Ret (match plan with Err e => Err e | Ok p => match closed with Err e => Err e | Ok _ => Ok p end end)
      end
  end.
Definition resumed_plan (f : Files) (hold : Hold) (c : Cluster) (destination : Spec) (previous : RecoveryPlan) : Store.prog (res Plan) :=
  if (p_BootstrapSHA256 (rp_Plan previous) !=? BootstrapFingerprint c) || (p_DestinationRepositoryID (rp_Plan previous) !=? sp_RepositoryID destination)
  then fail ErrIdentity else
  match forM (p_Chain (rp_Plan previous)) () (fun _ i => checkRestoreInput i (sp_Native destination)) with
  | Err e => fail e
  | Ok _ => ValidatePlan (lb_gunzip L) (fl_Repository f) hold (rp_Plan previous)
  end.
(** A plan of an earlier attempt is validated, never selected again. *)
Definition protected_plan (f : Files) (hold : Hold) (c : Cluster) (destination : Spec) : cprog (res Plan) :=
  let* previous := readRecovery L (recoveryDirectory (OperationUID c)) in
  source_store (match previous with Some p => resumed_plan f hold c destination p | None => fresh_plan f hold c destination end).

(** ** The durable plan *)
Definition state_root : string := "/var/lib/postgresql/data".
Definition sync_state (path : string) : cprog (res ()) :=
  native (call (Setup ("open " +:+ path))) ;;*
  let! e := native (fs (SyncDir path)) in
  let! ce := native (fs (CloseFile path)) in
  Ret (match e with Err e => Err e | Ok _ => ce end).
Definition state_directory (c : Cluster) : cprog (res ()) :=
  native (call (Setup ("root " +:+ state_root))) ;;*
  let path := within state_root (".cnpg-backup/" +:+ OperationUID c) in
  let! made := native (call (Fs (Mkdir path))) in
  let* _ := match made with
            | None => done ()
            | Some IsExist =>
                let! st := native (call (Lstat path)) in
                match st with Some (FDir, _) => done () | Some _ => fail ErrInvalid | None => fail ErrOther end
            | Some _ => fail ErrOther
            end in
  sync_state (within state_root ".cnpg-backup") ;;* sync_state state_root.
Definition save_both (c : Cluster) (p : RecoveryPlan) : cprog (res ()) :=
  saveRecovery L (recoveryDirectory (OperationUID c)) p ;;* saveRecovery L (path_dir helperPlanPath) p.
(** After the point of no return: a failure closes the admission for good. *)
Definition materialize_targets (s : Service) (f : Files) (c : Cluster) (destination : Spec) (plan : Plan) : cprog (Service * res ()) :=
  let! bundled := native (RestoreFull (lb_gunzip L) (lb_untar L) (lb_range L) (lb_ParseDuration L) (fl_Repository f) workspaceLocked
                            (sv_hold s) plan (sp_Native destination) (sv_budgets s) (restore_layout c)) in
  match bundled with
  | Err e => let! _ := call CloseAdmission in Ret (set_plan s (with_bundled (sv_plan s) ∅ false), Err e)
  | Ok b =>
      let s := set_plan s (with_bundled (sv_plan s) b true) in
      let! saved := save_both c (sv_plan s) in
      match saved with
      | Err e => let! _ := call CloseAdmission in Ret (s, Err e)
      | Ok _ => Ret (s, Ok ())
      end
  end.
Definition destination_identity (id : Identity) (repositoryID writer : string) : Identity :=
  mkIdentity (id_Schema id) repositoryID (id_PostgresMajor id) (id_SystemIdentifier id) (id_WALSegmentBytes id) writer "".

Definition bootstrap (s : Service) (c : Cluster) (tuple : Tuple) : cprog (Service * res ()) :=
  let^ root := native (Projection projectionPath) at s in
  let^ (source, dst, budgets) := bootstrap_config root c at s in
  let spec := sn_Spec dst in
  let s := set_budgets s (required budgets (selection_need (sp_Native spec))) in
  if negb (has_mount budgets workspace) then Ret (s, Err ErrInvalid) else
  let^ _ := native (check_capacity (sv_budgets s)) at s in
  let^ _ := Ret (open_store L source) at s in
  let s := set_store s in
  let^ repo := source_store (Lifecycle.OpenSource (sp_RepositoryID (sn_Spec source)) NativeWorkspace) at s in
  if id_WriterClusterUID (r_id repo) ==? cl_UID c then Ret (s, Err ErrIdentity) else
  let^ hold := source_store (AdmitRestore repo (cl_UID c) (OperationUID c)) at s in
  let s := set_hold s hold in
  let f := mkFiles repo (sp_Compression (sn_Spec source)) in
  let s := set_files s f in
  let^ plan := protected_plan f hold c spec at s in
  let^ _ := Ret (open_store L dst) at s in
  let^ _ := destination (OpenWriter (destination_identity (r_id repo) (sp_RepositoryID spec) (cl_UID c)) NativeWorkspace) at s in
  let s := set_plan s (mkRecoveryPlan plan tuple (lb_marshal L (recoveryCluster c)) ∅ false) in
  let^ _ := state_directory c at s in
  let^ _ := save_both c (sv_plan s) at s in
  materialize_targets s f c spec plan.

(** ** The callback *)
Definition response (s : Service) : string := restoreConfig (tg_Timeline (p_Target (rp_Plan (sv_plan s)))).
(** The work under the mutex: the service afterwards and the answer. *)
Definition restore_locked (s : Service) (c : Cluster) (tuple : Tuple) : cprog (Service * cres string) :=
  if sv_closed s || (ow_ClusterUID (tu_Owner tuple) !=? cl_UID c) || (ow_OperationUID (tu_Owner tuple) !=? OperationUID c)
  then Ret (s, Err (walError ErrOther)) else
  if sv_ready s then
    match parse_cluster (rp_ClusterDefinition (sv_plan s)) with
    | Ok old =>
        if cl_Spec (recoveryCluster c) !=? cl_Spec old then Ret (s, Err (walError ErrIdentity)) else
        match sv_hold s, sv_files s with
        | Some hold, Some f =>
            let! e := source_store (ReadSource (fl_Repository f) hold (done ())) in
            Ret (s, match e with Err e => Err (walError e) | Ok _ => Ok (response s) end)
        | _, _ => Ret (s, Err CPanic)
        end
    | Err _ => Ret (s, Err (walError ErrIdentity))
    end
  else if sv_attempted s then Ret (s, Err (walError ErrOther)) else
  let! (s, e) := bootstrap (set_attempted s) c tuple in
  match e with
  | Err _ => Ret (s, Err CFailedPrecondition)
  | Ok _ => let s := set_ready s in Ret (s, Ok (response s))
  end.
Definition RecoveryService_Restore (definition : option string) : cprog (cres string) :=
  match definition with
  | None => Ret (Err (walError ErrInvalid))
  | Some definition =>
      match parse_cluster definition with
      | Err _ => Ret (Err (walError ErrInvalid))
      | Ok c =>
          if is_err (repositories c) || match sc_Recovery (cl_Spec c) with None => true | Some _ => false end then Ret (Err (walError ErrInvalid)) else
          let! t := call ActiveTuple in
          match t with
          | Err _ => Ret (Err CUnknown)
          | Ok tuple =>
              let! a := call (AdmitTask tuple) in
              match a with
              | Err _ => Ret (Err CUnknown)
              | Ok _ =>
                  let! s := call Lock in
                  let! (s, x) := restore_locked s c tuple in
                  let! _ := call (Unlock s) in
                  let! _ := call TaskDone in
                  Ret x
              end
          end
      end
  end.
(** [drain], bound with [AfterDrain]: it runs once every task is done and the admission is closed. *)
Definition drain : cprog (res ()) :=
  let! s := call Lock in
  let s := set_closed s in
  let! (s, e) := match sv_hold s, sv_files s with
                 | Some hold, Some f =>
                     let! (hold, e) := source_store (Hold_Close (fl_Repository f) hold) in Ret (set_hold s hold, e)
                 | _, _ => Ret (s, Ok ())
                 end in
  let! _ := call (Unlock s) in
  Ret e.
End Service.
