(* ===== verification/CnpgRestoreSafety.v ===== *)
(** * When a recovery touches its targets (internal/cnpgi/restore.go)

    The bootstrap of a recovery writes its plan durably before anything of the targets changes, at most once per process, and a failure
    after that point closes the admission. *)

From S2P Require Import Guard.
From S2P Require Import Prelude GoStrings GoTime Sha256 Errors Schema Json LooseJson Prog Store WalNames GuardConfig Gate Repository Catalog RecoveryPlan Lifecycle Restore WalArchive.
From S2P Require Import S3Config Configuration Capacity NativePath NativeOps NativeText NativeBudget NativeRestore NativeSafety ConfigSnapshot NativePreflight CnpgCluster CnpgOps CnpgWal CnpgKube CnpgRecovery CnpgRestore.
From S2P Require Import ProgRules Memory Admission Transfer NativeEvidence CnpgDemo.

(** The files of the recovery itself: its directory outside PGDATA, and the helper's. *)
Definition state_file (p : string) : bool := HasPrefix p "/var/lib/postgresql/data/.cnpg-backup/" || HasPrefix p "/cnpg-backup/state/".
(** A change of any other file, and every run of pg_combinebackup. *)
Definition outside (f : effect) : bool := match f with Changes op => negb (state_file (fsop_path op)) | Combines _ => true end.
Definition touching {X} (e : cn X) : bool :=
  match e with Native e => match write_of e with Some f => outside f | None => false end | _ => false end.
Definition touched (tr : ctrace) : bool := existsb (act_is (@touching)) tr.
Definition tame X (e : cn X) : Prop := touching e = false.

Definition tame_os X (e : os X) : Prop := tame X (Native e).
Lemma tame_native {A} (p : oprog A) : calls tame_os p -> calls tame (native p).
Proof.
  intros Hp tr. specialize (Hp []). revert tr Hp. generalize (@nil (Prog.action os)) as t0. induction p as [a|X e k IH]; intros t0 tr; cbn; [done|].
  intros [He Hk]. split; [done|]. intros x. by eapply IH.
Qed.
Lemma tame_remote {A} (p : Store.prog A) : calls tame_os (remote p).
Proof. intros tr. induction p as [a|X e k IH] in tr |- *; cbn; [done|]. split; [done|]. intros x. apply IH. Qed.
Lemma tame_source {A} (p : Store.prog A) : calls tame (source_store p).
Proof. apply tame_native, tame_remote. Qed.
Lemma tame_destination {A} (p : Store.prog A) : calls tame (destination p).
Proof. intros tr. induction p as [a|X e k IH] in tr |- *; cbn; [done|]. split; [done|]. intros x. apply IH. Qed.
(** Tame programs leave the targets as they are. *)
Lemma tame_untouched {A} (p : cprog A) tr : calls tame p -> wp anything (fun tr' _ => touched tr' = touched tr) p tr.
Proof.
  intros Hp. specialize (Hp tr). enough (H : forall t0, touched t0 = touched tr -> wp (fun _ => tame) (fun _ _ => True) p t0 -> wp anything (fun tr' _ => touched tr' = touched tr) p t0) by by apply H.
  clear Hp. induction p as [a|X e k IH]; intros t0 Ht; cbn; [done|]. intros [He Hk]. split; [done|]. intros x. apply IH; [|apply Hk].
  cbn. by rewrite He.
Qed.

Ltac tame_step :=
  first [ apply tame_source | apply tame_destination | apply tame_remote
        | match goal with |- calls _ (native _) => apply tame_native end
        | os_step | calls_step ].
Section Bootstrap.
Context (L : Libraries) (spec_hash : Spec -> string) (workspaceLocked : bool).
Lemma tame_load root role : calls tame_os (LoadSnapshotFromRoot (lb_ParseDuration L) (lb_Parse L) (lb_Hostname L) (lb_IsDNS1123Subdomain L)
  (lb_IsConfigMapKey L) (lb_ParseQuantity L) (lb_into_resources L) (lb_pem_decode L) (lb_ParseCertificate L) root role).
Proof. unfold LoadSnapshotFromRoot. os_step; [os_step|]. eapply calls_mono; [|apply from_snapshot]. intros X e. by destruct e. Qed.
Lemma tame_config root c : calls tame (bootstrap_config L spec_hash root c).
Proof. unfold bootstrap_config, activeOperation, Read. repeat tame_step; apply tame_load. Qed.
Lemma tame_plan f hold c spec : calls tame (protected_plan L f hold c spec).
Proof. unfold protected_plan, readRecovery. repeat tame_step. Qed.
Lemma state_directory_file x : state_file ("/var/lib/postgresql/data/.cnpg-backup/" +:+ x) = true.
Proof. unfold state_file. by rewrite (proj1 (HasPrefix_append _ _)). Qed.
Lemma state_within op name : state_file (within (recoveryDirectory op) name) = true.
Proof. unfold within, recoveryDirectory. rewrite append_assoc. apply state_directory_file. Qed.
Lemma helper_within name : state_file (within (path_dir helperPlanPath) name) = true.
Proof. change (within _ name) with ("/cnpg-backup/state/" +:+ name). unfold state_file. rewrite (proj1 (HasPrefix_append _ _)). apply orb_true_r. Qed.
Lemma tame_save dir p : (forall name, state_file (within dir name) = true) -> calls tame (saveRecovery L dir p).
Proof.
  intros Hd. unfold saveRecovery. repeat tame_step; unfold tame_os, tame; cbn [touching write_of outside fsop_writes fsop_path]; try done; by rewrite Hd.
Qed.
Lemma tame_both c p : calls tame (save_both L c p).
Proof. unfold save_both. calls_step; apply tame_save; [apply state_within|apply helper_within]. Qed.
Lemma tame_directory c : calls tame (state_directory c).
Proof.
  unfold state_directory, sync_state. repeat tame_step; unfold tame_os, tame; cbn [touching write_of outside fsop_writes fsop_path]; try done.
  change (within state_root _) with ("/var/lib/postgresql/data/.cnpg-backup/" +:+ OperationUID c). by rewrite state_directory_file.
Qed.

(** ** The durable plan *)
(** A valid plan whose bytes were written to a new file, which was then synced and renamed, and then the directory was synced, in this order. *)
Definition durable (dir : string) (p : RecoveryPlan) (tr : ctrace) : Prop :=
  RecoveryPlan_validate (lb_range L) (lb_IsDNS1123Subdomain L) (lb_unmarshal L) (lb_marshal L) p = Ok ()
  /\ exists from, [Act (Native (Fs (SyncDir dir))) None; Act (Rename from (within dir "recovery.json")) None;
       Act (Native (Fs (SyncFile from))) None; Act (Native (Fs (WriteTo from (lb_encode_plan L p)))) None] `sublist_of` tr.
Definition durable_both (c : Cluster) (p : RecoveryPlan) (tr : ctrace) : Prop :=
  durable (recoveryDirectory (OperationUID c)) p tr /\ durable (path_dir helperPlanPath) p tr.
Lemma durable_stable dir p : stable (durable dir p).
Proof.
  intros tr tr' [l ->] (Hv & from & H). split; [done|]. exists from. by apply sublist_inserts_l.
Qed.
Lemma save_durable dir p tr : wp anything (fun tr x => x = Ok () -> durable dir p tr) (saveRecovery L dir p) tr.
Proof.
  unfold saveRecovery, durable, anything. destruct (RecoveryPlan_validate _ _ _ _ p) as [[]|] eqn:Ev; [|done]. cbn [bindE bind]. cbv zeta. wp_if as El; [done|].
  split; [done|]. intros [[]|]; [|done]. split; [done|]. intros id.
  split; [done|]. intros [k|]; [done|]. split; [done|]. intros [k|]; cbn.
  { split; [done|]. intros x. destruct x; (split; [done|]); done. }
  split; [done|]. intros [k|]; cbn; (split; [done|]); intros [k'|]; cbn; try (split; [done|]; done).
  split; [done|]. intros [k|]; cbn; (split; [done|]); [done|]. intros x. split; [done|]. intros y Hx. split; [done|]. exists (within dir ("recovery-" +:+ id +:+ ".json")).
  destruct x; [done|]. repeat first [apply sublist_nil_l|apply sublist_skip|apply sublist_cons].
Qed.
Lemma both_durable c p tr : wp anything (fun tr x => x = Ok () -> durable_both c p tr) (save_both L c p) tr.
Proof.
  unfold save_both. eapply wp_knows; [apply save_durable|]. intros tr1 [[]|e] He H1; [|done].
  eapply wp_mono; [|apply (wp_also _ _ _ _ _ (save_durable _ _ tr1) (wp_grows _ tr1))]. intros tr2 x [H2 He2] Hx. split; [|by apply H2].
  eapply durable_stable; [exact He2|]. by apply H1.
Qed.

(** ** The order of a bootstrap *)
(** A target changes only after an unmaterialized plan is durable in both places, and then only as the native restore allows. *)
Definition durable_first (c : Cluster) (tr : ctrace) (f : effect) : Prop :=
  exists p, durable_both c p tr /\ rp_Materialized p = false /\ target_guard (lb_untar L) (rp_Plan p) (natives tr) f.
Definition restore_guard (c : Cluster) (tr : ctrace) X (e : cn X) : Prop :=
  match e with Native e => forall f, write_of e = Some f -> outside f = true -> durable_first c tr f | _ => True end.
Lemma tame_guard c tr X (e : cn X) : tame X e -> restore_guard c tr X e.
Proof.
  unfold tame. destruct e as [X e| | | | | | | | | | | | |]; try done. cbn. intros H f Hf Ho. rewrite Hf in H. congruence.
Qed.
(** The service after a bootstrap, and what a failure leaves. *)
Definition bootstrapped (s : Service) (c : Cluster) (tr0 tr : ctrace) (r : Service * res ()) : Prop :=
  let '(s', e) := r in
  sv_attempted s' = sv_attempted s /\ sv_ready s' = sv_ready s /\ sv_closed s' = sv_closed s
  /\ match e with
     | Ok _ => is_Some (sv_hold s') /\ is_Some (sv_files s') /\ rp_Materialized (sv_plan s') = true /\ durable_both c (sv_plan s') tr
     | Err _ => touched tr = touched tr0 \/ Act CloseAdmission () ∈ tr
     end.
Lemma wp_at_step {A} c s0 tr0 s (p : cprog (res A)) k (R : ctrace -> res A -> Prop) tr :
  sv_attempted s = sv_attempted s0 -> sv_ready s = sv_ready s0 -> sv_closed s = sv_closed s0 -> touched tr = touched tr0 ->
  calls tame p -> wp anything R p tr ->
  (forall tr' a, touched tr' = touched tr0 -> R tr' (Ok a) -> wp (restore_guard c) (bootstrapped s0 c tr0) (k a) tr') ->
  wp (restore_guard c) (bootstrapped s0 c tr0) (at_step s p k) tr.
Proof.
  intros H1 H2 H3 Ht Hp Hr Hk. unfold at_step. eapply (wp_calls_bind _ tame).
  - intros. by apply tame_guard.
  - exact Hp.
  - apply (wp_also _ _ _ _ _ Hr (tame_untouched p tr Hp)).
  - intros tr' [a|e] He [Ha Hu]; [apply Hk; [congruence|done]|]. cbn. split_and!; try done. left. congruence.
Qed.
Lemma restore_full_wp c p hold n budgets l r tr :
  (forall l, lb_range L l ≡ₚ l) -> durable_both c p tr -> rp_Materialized p = false ->
  wp (restore_guard c) (fun _ _ => True)
    (native (RestoreFull (lb_gunzip L) (lb_untar L) (lb_range L) (lb_ParseDuration L) r workspaceLocked hold (rp_Plan p) n budgets l)) tr.
Proof.
  intros Hr Hd Hm. pose proof (keeps_RestoreFull (lb_gunzip L) (lb_untar L) (lb_range L) (lb_ParseDuration L) r workspaceLocked (rp_Plan p) Hr hold n budgets l) as Hk.
  apply (wp_frame _ _ _ [] (natives tr)), wp_native, wp_since in Hk. eapply wp_mono; [|eapply wp_G_mono; [|exact Hk]]; [done|].
  intros tr' X e [He Hg]. destruct e as [X e| | | | | | | | | | | | |]; try done. intros f Hf _. exists p.
  split; [|split; [done|]].
  - split; (eapply durable_stable; [exact He|apply Hd]).
  - destruct Hg as (t & -> & Hg). by apply target_guard_after, Hg.
Qed.
Lemma materialize_wp s0 c tr0 s f spec plan tr :
  (forall l, lb_range L l ≡ₚ l) ->
  sv_attempted s = sv_attempted s0 -> sv_ready s = sv_ready s0 -> sv_closed s = sv_closed s0 ->
  is_Some (sv_hold s) -> is_Some (sv_files s) -> rp_Plan (sv_plan s) = plan -> rp_Materialized (sv_plan s) = false -> durable_both c (sv_plan s) tr ->
  wp (restore_guard c) (bootstrapped s0 c tr0) (materialize_targets L workspaceLocked s f c spec plan) tr.
Proof.
  intros Hrange H1 H2 H3 H4 H5 <- H6 Hd. unfold materialize_targets. apply wp_bind.
  eapply (wp_mono _ (fun _ _ => True)).
  - intros tr1 [b|e] _; [|split; [done|]; intros []; cbn; split_and!; try done; right; by left].
    cbv zeta. apply wp_bind. eapply wp_calls; [intros; by apply tame_guard|apply tame_both|].
    eapply wp_mono; [|apply both_durable]. intros tr2 [[]|e] Hs; [by split_and!; auto|].
    split; [done|]. intros []. cbn. split_and!; try done. right. by left.
  - by apply restore_full_wp.
Qed.
Lemma wp_at_tame {A} c s0 tr0 s (p : cprog (res A)) k tr :
  sv_attempted s = sv_attempted s0 -> sv_ready s = sv_ready s0 -> sv_closed s = sv_closed s0 -> touched tr = touched tr0 -> calls tame p ->
  (forall tr' a, touched tr' = touched tr0 -> wp (restore_guard c) (bootstrapped s0 c tr0) (k a) tr') ->
  wp (restore_guard c) (bootstrapped s0 c tr0) (at_step s p k) tr.
Proof.
  intros H1 H2 H3 H4 Hp Hk. eapply (wp_at_step _ _ _ _ _ _ (fun _ _ => True)); try done; [by eapply wp_mono; [|apply wp_grows]|]. auto.
Qed.
Lemma bootstrap_wp s c tuple tr : (forall l, lb_range L l ≡ₚ l) ->
  wp (restore_guard c) (bootstrapped s c tr) (bootstrap L spec_hash workspaceLocked s c tuple) tr.
Proof.
  intros Hr. unfold bootstrap. apply wp_at_tame; [done..|unfold Projection; repeat tame_step|]. intros tr1 root H1.
  apply wp_at_tame; [done..|apply tame_config|]. intros tr2 [[source dst] budgets] H2. cbv zeta. wp_if as Em; [cbn; auto|].
  apply wp_at_tame; [done..|unfold check_capacity; repeat tame_step|]. intros tr3 [] H3.
  apply wp_at_tame; [done..|apply calls_ret|]. intros tr4 [] H4.
  apply wp_at_tame; [done..|apply tame_source|]. intros tr5 repo H5. wp_if as Ew; [cbn; auto|].
  apply wp_at_tame; [done..|apply tame_source|]. intros tr6 hold H6.
  apply wp_at_tame; [done..|apply tame_plan|]. intros tr7 plan H7.
  apply wp_at_tame; [done..|apply calls_ret|]. intros tr8 [] H8.
  apply wp_at_tame; [done..|apply tame_destination|]. intros tr9 writer H9.
  apply wp_at_tame; [done..|apply tame_directory|]. intros tr10 [] H10.
  set (s' := set_plan _ _). apply (wp_at_step _ _ _ _ _ _ (fun tr x => x = Ok () -> durable_both c (sv_plan s') tr)); [done..|apply tame_both|apply both_durable|].
  intros tr11 [] H11 Hd. apply materialize_wp; try done. by apply Hd.
Qed.

(** ** The callback *)
Definition service_ok (s : Service) : Prop :=
  sv_ready s = true -> sv_attempted s = true /\ is_Some (sv_hold s) /\ is_Some (sv_files s) /\ rp_Materialized (sv_plan s) = true.
Definition answered (s : Service) (c : Cluster) (tr0 tr : ctrace) (r : Service * cres string) : Prop :=
  let '(s', x) := r in
  (service_ok s -> service_ok s') /\ (touched tr = touched tr0 \/ sv_attempted s = false /\ sv_attempted s' = true) /\ (sv_attempted s = true -> s' = s)
  /\ match x with
     | Ok t => sv_ready s' = true /\ t = response s' /\ (sv_ready s = false -> durable_both c (sv_plan s') tr)
     | Err _ => sv_ready s' = sv_ready s /\ (touched tr = touched tr0 \/ Act CloseAdmission () ∈ tr)
     end.
Lemma unchanged s c tr0 tr x : touched tr = touched tr0 -> match x with Ok t => sv_ready s = true /\ t = response s | Err _ => True end ->
  answered s c tr0 tr (s, x).
Proof. intros Ht Hx. split; [done|]. split; [by left|]. split; [done|]. destruct x as [t|e]; [|auto]. destruct Hx as [H1 H2]. split_and!; try done. congruence. Qed.
Lemma locked_wp s c tuple tr : (forall l, lb_range L l ≡ₚ l) ->
  wp (restore_guard c) (answered s c tr) (restore_locked L spec_hash workspaceLocked s c tuple) tr.
Proof.
  intros Hr. unfold restore_locked. wp_if as Ec; [by apply unchanged|]. wp_if as Er.
  - destruct (ParseCluster _ _ _) as [old|]; [|by apply unchanged]. wp_if as Ei; [by apply unchanged|].
    destruct (sv_hold s) as [hold|]; [|by apply unchanged]. destruct (sv_files s) as [f|]; [|by apply unchanged].
    eapply (wp_calls_bind _ tame); [intros; by apply tame_guard|apply tame_source|apply tame_untouched, tame_source|].
    intros tr1 [x|e] He Hu; by apply unchanged.
  - wp_if as Ea; [by apply unchanged|]. apply wp_bind. eapply wp_mono; [|by apply bootstrap_wp]. intros tr1 [s' [[]|e]] (H1 & H2 & H3 & H4); cbn.
    + destruct H4 as (H4 & H5 & H6 & H7). cbn in H1. split; [by intros _ _|]. split; [by right|]. split; [congruence|done].
    + cbn in H1, H2. split; [intros _ Hx; cbn in *; congruence|]. split; [by right|]. split; [congruence|]. split; [congruence|done].
Qed.
End Bootstrap.

Section Callback.
Context (L : Libraries) (spec_hash : Spec -> string) (locked : bool) (d : string).
End Callback.
(** The callbacks of one process, in the order in which they hold the mutex: the trace of each. *)
Inductive callbacks (L : Libraries) (spec_hash : Spec -> string) (locked : bool) : Service -> list ctrace -> Service -> Prop :=
| callbacks_none s : callbacks L spec_hash locked s [] s
| callbacks_next s c tuple tr s1 x trs s2 : runs (restore_locked L spec_hash locked s c tuple) [] tr (s1, x) ->
    callbacks L spec_hash locked s1 trs s2 -> callbacks L spec_hash locked s (tr :: trs) s2.
Lemma callbacks_attempted L spec_hash locked s trs s' : (forall l, lb_range L l ≡ₚ l) -> callbacks L spec_hash locked s trs s' -> service_ok s ->
  service_ok s' /\ (sv_attempted s = true -> Forall (fun tr => touched tr = false) trs)
  /\ forall i j tr tr', trs !! i = Some tr -> trs !! j = Some tr' -> touched tr = true -> touched tr' = true -> i = j.
Proof.
  intros Hr Hc. induction Hc as [s|s c tuple tr s1 x trs s2 Hrun _ IH]; intros Hs.
  { split; [done|]. split; [constructor|]. intros i j tr tr' Hi. by rewrite lookup_nil in Hi. }
  destruct (wp_runs _ _ _ _ _ _ (locked_wp L spec_hash locked s c tuple [] Hr) Hrun) as (H1 & H2 & H3 & _). destruct (IH (H1 Hs)) as (IH1 & IH2 & IH3).
  split; [done|]. split.
  { intros Ha. constructor; [destruct H2 as [H2|[H2 _]]; [done|congruence]|]. apply IH2. by rewrite (H3 Ha). }
  assert (touched tr = true -> Forall (fun tr => touched tr = false) trs) as Ht.
  { intros Ht. apply IH2. destruct H2 as [H2|[_ H2]]; [|done]. cbn in H2. congruence. }
  rewrite Forall_lookup in Ht. intros [|i] [|j] u v; cbn; [done|..|intros Hi Hj Hu Hv; f_equal; by eapply IH3].
  - intros [= ->] Hj Hu Hv. specialize (Ht Hu j v Hj). congruence.
  - intros Hi [= ->] Hu Hv. specialize (Ht Hv i u Hi). congruence.
Qed.
(** C18: In one process at most one restore callback changes anything outside the recovery's own state: targets are materialized at most once,
    whatever is requested again, and a ready service always has its hold, its files and a materialized plan. *)
Theorem restore_at_most_once L spec_hash locked zero trs s :
  (forall l, lb_range L l ≡ₚ l) -> callbacks L spec_hash locked (new_service zero) trs s ->
  service_ok s /\ forall i j tr tr', trs !! i = Some tr -> trs !! j = Some tr' -> touched tr = true -> touched tr' = true -> i = j.
Proof. intros Hr Hc. destruct (callbacks_attempted _ _ _ _ _ _ Hr Hc) as (H1 & _ & H2); done. Qed.
(** A restore callback that fails has left everything outside the recovery's own state as it was, or has closed the admission for good; one that
    succeeds answers for a ready service whose materialized plan is durable in both places when this callback materialized it. *)
Theorem restore_failure_closes L spec_hash locked s c tuple tr s' x :
  (forall l, lb_range L l ≡ₚ l) -> runs (restore_locked L spec_hash locked s c tuple) [] tr (s', x) ->
  match x with
  | Err _ => sv_ready s' = sv_ready s /\ (touched tr = true -> Act CloseAdmission () ∈ tr)
  | Ok t => sv_ready s' = true /\ t = response s' /\ (sv_ready s = false -> durable_both L c (sv_plan s') tr)
  end.
Proof.
  intros Hr Hrun. destruct (wp_runs _ _ _ _ _ _ (locked_wp L spec_hash locked s c tuple [] Hr) Hrun) as (_ & _ & _ & H).
  destruct x as [t|e]; [done|]. destruct H as [H1 [H2|H2]]; split; try done. by rewrite H2.
Qed.

(** ** A concrete recovery

    The Cluster of CnpgDemo.v resumes the plan of an earlier attempt: source and destination are two in-memory buckets. *)
Definition origin_spec (id : string) : string := object_of
  [text_of "repositoryID" id;
   member_of "s3" (object_of [text_of "endpoint" "https://s3.example"; text_of "bucket" "bucket"; text_of "prefix" "p";
     member_of "accessKeySecret" selector_json; member_of "secretKeySecret" selector_json]);
   member_of "workspace" (object_of [text_of "storageClassName" "fast"])].
Definition demo_destination : string := p_DestinationRepositoryID (rp_Plan cnpg_plan).
Definition demo_spec_hash (s : Spec) : string := digest (sp_RepositoryID s).
Definition cnpg_placement : RecoveryPlacement :=
  mkRecoveryPlacement demo_cluster "db" "restored" cnpg_operation cnpg_fingerprint "theirs" "mine" (digest (id_RepositoryID ex_identity)) (digest demo_destination).
Definition cnpg_targets : GuardConfig.Config := GuardConfig.mkConfig demo_cluster cnpg_operation [].
Definition recovery_files (p : string) : string :=
  if HasSuffix p "/recovery.json" then print (placement_json cnpg_placement)
  else if HasSuffix p "/operation.json" then operation_text (mkOp cnpg_placement cnpg_targets ex_process "active" "" [] false "")
  else if HasSuffix p "/source/repository.json" then origin_spec (id_RepositoryID ex_identity)
  else if HasSuffix p "/destination/repository.json" then origin_spec demo_destination
  else if HasSuffix p "/capacity.json" then "[" +:+ join "," (map (fun m => object_of [text_of "mount" m; member_of "limitBytes" "1099511627776"; member_of "requiredBytes" "0"])
    ["/cnpg-backup/work"; "/var/lib/postgresql/data"]) +:+ "]"
  else "x".
Definition recovery_stat (m : string) : option (string * Statfs) :=
  Some (if m ==? "/cnpg-backup/work" then "8:16" else "8:32", mkStatfs XFS_SUPER_MAGIC 4096 (2 ^ 28) (2 ^ 28)).
Definition recovery_os : Prog.handler (E := os) memory := fun X e m =>
  match e in os X return X * memory -> X * memory with
  | Projected p _ => fun _ => (Ok (recovery_files p), m)
  | ReadKernel => fun _ => (Capacity.mkKernel (Some small_mountinfo) Some recovery_stat, m)
  | MkdirTemp d p => fun _ => (Ok (within d p +:+ "1"), m)
  | _ => fun d => d
  end (demo_os X e m).
Definition recovery_cn : Prog.handler (E := cn) (memory * memory) := fun X e '(m, n) =>
  match e in cn X return X * memory -> X * (memory * memory) with
  | CnpgOps.Native e => fun _ => let '(x, m) := recovery_os _ e m in (x, (m, n))
  | Destination e => fun _ => let '(x, n) := memory_handler _ e n in (x, (m, n))
  | Lock => fun _ => (new_service cnpg_plan, (m, n))
  | _ => fun '(x, m) => (x, (m, n))
  end (demo_cn cnpg_service X e m).
Definition recovery_start : memory * memory := (demo_restoring, demo_empty).
Lemma demo_range l : lb_range sidecar_libraries l ≡ₚ l.
Proof. done. Qed.
Definition first_restore : cprog (Service * cres string) := restore_locked sidecar_libraries demo_spec_hash true (new_service cnpg_plan) cnpg_cluster cnpg_tuple.
Definition first_trace : ctrace := run_trace recovery_cn first_restore recovery_start [].
Lemma first_runs : runs first_restore [] first_trace (run recovery_cn first_restore recovery_start).1.
Proof. apply run_trace_runs. Qed.
Lemma restore_failure_closes_witness : touched first_trace = true /\ Act CloseAdmission () ∈ first_trace.
Proof.
  pose proof first_runs as Hr. destruct ((run recovery_cn first_restore recovery_start).1) as [s x] eqn:E.
  assert (x = Err CFailedPrecondition) as -> by (change x with (s, x).2; rewrite <- E; vm_compute; reflexivity).
  assert (touched first_trace = true) as Ht by (vm_compute; reflexivity). split; [exact Ht|].
  pose proof (restore_failure_closes _ _ _ _ _ _ _ _ _ demo_range Hr) as [_ Hc]. exact (Hc Ht).
Defined.
(** The first callback materializes, fails and closes the admission; the second one is refused without a call. *)
Lemma restore_at_most_once_witness :
  exists trs s, callbacks sidecar_libraries demo_spec_hash true (new_service cnpg_plan) trs s /\ map touched trs = [true; false] /\ service_ok s.
Proof.
  pose proof first_runs as H1. destruct ((run recovery_cn first_restore recovery_start).1) as [s x] eqn:E.
  set (again := restore_locked sidecar_libraries demo_spec_hash true s cnpg_cluster cnpg_tuple).
  pose proof (run_trace_runs recovery_cn again recovery_start []) as H2. destruct ((run recovery_cn again recovery_start).1) as [s2 y] eqn:E2.
  assert (callbacks sidecar_libraries demo_spec_hash true (new_service cnpg_plan) [first_trace; run_trace recovery_cn again recovery_start []] s2) as Hc
    by (econstructor; [exact H1|econstructor; [exact H2|constructor]]).
  exists [first_trace; run_trace recovery_cn again recovery_start []], s2. split; [exact Hc|]. split.
  - unfold again. replace s with (s, x).1 by reflexivity. rewrite <- E. vm_compute. reflexivity.
  - exact (proj1 (restore_at_most_once _ _ _ _ _ _ demo_range Hc)).
Defined.

(** ** A request repeated *)
(** What [encoding/json] makes of a definition that it wrote itself: an absent raw message is written as [null] and read back as the text [null]. *)
Definition raw_again (raw : string) : string := if raw ==? "" then "null" else raw.
Definition read_back (d : Cluster) : Cluster :=
  let s := cl_Spec d in
  mkCluster (cl_APIVersion d) (cl_Kind d) (cl_Name d) (cl_Namespace d) (cl_UID d) (cl_Annotations d)
    (mkClusterSpec (sc_ImageName s) (sc_StorageSize s) (sc_Parameters s) (sc_PostgresUID s) (sc_PostgresGID s) (sc_Plugins s)
       (raw_again (sc_Replica s)) (raw_again (sc_WALStorage s)) (sc_Tablespaces s) (sc_Recovery s) (sc_External s) (sc_Certificates s)).
(** C29: A ready service refuses to answer its own request again when the Cluster has no replica section: the definition in its plan went
    through the encoder, so that the comparison sees the text null where the request has nothing. *)
Theorem repeated_restore_refused L spec_hash locked s c tuple :
  lb_unmarshal L (rp_ClusterDefinition (sv_plan s)) = Some (read_back (recoveryCluster c)) ->
  sv_ready s = true -> sv_closed s = false -> ow_ClusterUID (tu_Owner tuple) = cl_UID c -> ow_OperationUID (tu_Owner tuple) = OperationUID c ->
  sc_Replica (cl_Spec c) = "" ->
  restore_locked L spec_hash locked s c tuple = Ret (s, Err (walError ErrIdentity)).
Proof.
  intros Hu Hr Hc Ho1 Ho2 Hn. unfold restore_locked. rewrite Hc, Ho1, Ho2.
  rewrite !(bool_decide_eq_true_2 (_ = _)) by done. cbn [negb orb]. rewrite Hr. unfold ParseCluster. destruct (_ <? len _); [done|]. rewrite Hu.
  destruct (_ || _); [done|]. cbv zeta. rewrite bool_decide_eq_false_2; [done|]. intros E. apply (f_equal sc_Replica) in E.
  revert E. cbn. unfold raw_again. rewrite Hn. done.
Qed.
Definition null_libraries : Libraries :=
  let L := demo_libraries in
  mkLibraries (lb_range L) (lb_IsDNS1123Subdomain L) (lb_IsConfigMapKey L) (lb_ParseQuantity L) (lb_ParseDuration L) (lb_Parse L) (lb_Hostname L)
    (lb_into_resources L) (lb_pem_decode L) (lb_ParseCertificate L) (lb_X509KeyPair L) (lb_Verify L) (lb_New L)
    (fun _ => Some (read_back (recoveryCluster cnpg_cluster))) (lb_marshal L) (lb_wal_size L) (lb_decode_plan L) (lb_encode_plan L)
    (lb_gzip L) (lb_gunzip L) (lb_gzip_header L) (lb_untar L) (lb_MODE_UNSPECIFIED L) (lb_MODE_RECOVERY L) (lb_MODE_REWIND L).
Lemma repeated_restore_refused_witness :
  restore_locked null_libraries demo_spec_hash true cnpg_service cnpg_cluster cnpg_tuple = Ret (cnpg_service, Err (walError ErrIdentity)).
Proof. apply repeated_restore_refused; vm_compute; reflexivity. Defined.
