(* ===== verification/CnpgBackup.v ===== *)
(** * The backup callback (internal/cnpgi/backup.go)

    From a request of the operator to the durable backup: validation, the repository, the admission, the frozen request, the capture, the
    publication, and what is released on every path. *)

From S2P Require Import Prelude GoStrings GoTime Sha256 Errors Schema Json LooseJson Documents Prog Store WalNames Gate Repository Transfer Catalog Publication Lifecycle.
From S2P Require Import S3Config Configuration Capacity NativePath NativeOps NativeArchive NativeText NativeBudget NativeRestore ConfigSnapshot NativeCapture NativePreflight.
From S2P Require Import CnpgCluster CnpgOps CnpgWal.

Record backupDefinition := mkBackupDefinition {
  bd_APIVersion : string; bd_Kind : string; bd_UID : string; bd_Namespace : string; bd_ClusterName : string; bd_Method : string; bd_Target : string;
  bd_PluginName : string; bd_Parameters : option (gmap string string); bd_Phase : string; bd_PodName : string }.
Record BackupRequest := mkBackupRequest { bq_BackupDefinition : string; bq_ClusterDefinition : string; bq_Parameters : option (gmap string string) }.
Record BackupResult := mkBackupResult {
  br_BackupId : string; br_StartedAt : Z; br_StoppedAt : Z; br_BeginWal : string; br_EndWal : string; br_BeginLsn : string; br_EndLsn : string;
  br_BackupLabelFile : string; br_TablespaceMapFile : string; br_InstanceId : string; br_Online : bool; br_Metadata : gmap string string }.

(** ** Names and sums *)
(** [leftHex] panics on numbers of more than eight digits, [WALFilename] on a segment size that is zero or exceeds 4 GiB. *)
Definition leftHex (n : Z) : res string :=
  let s := fmt_uint false 16 n in if 8 <? len s then Err Panic else Ok (pad 8 s).
Definition WALFilename (timeline lsn segment : Z) : res string :=
  let per := 2 ^ 32 / segment in
  if (segment =? 0) || (per =? 0) then Err Panic else
  let n := lsn / segment in
  let? a := leftHex timeline in let? b := leftHex (n / per) in let? c := leftHex (n mod per) in Ok (ToUpper (a +:+ b +:+ c)).
Definition unix_of (s : string) : Z := default zero_time (parse_time s) / second.
Definition lsn_or_zero (s : string) : Z := match ParseLSN s with Ok n => n | Err _ => 0 end.
(** The sums are int64 in Go; a validated commit keeps them far below. *)
Definition total (size : Artifact -> Z) (c : Commit) : Z := foldl (fun n a => n + size a) (c_ManifestBytes c) (c_Artifacts c).
Definition backupResult (r : Result) (segment : Z) : res BackupResult :=
  let c := rs_Commit r in
  let? first := WALFilename (c_Timeline c) (lsn_or_zero (c_StartLSN c)) segment in
  let? last := WALFilename (c_Timeline c) ((lsn_or_zero (c_StopLSN c) - 1) mod 2 ^ 64) segment in
  Ok (mkBackupResult (c_BackupUID c) (unix_of (c_StartedAt c)) (unix_of (c_StoppedAt c)) first last (c_StartLSN c) (c_StopLSN c)
        (c_BackupLabel c) (c_TablespaceMap c) (c_CaptureInstanceUID c) true
        (list_to_map [("backupType", c_Kind c); ("repositoryID", c_RepositoryID c); ("rootBackupID", c_RootBackupUID c);
                      ("rawBytes", FormatInt (total ar_RawBytes c)); ("storedBytes", FormatInt (total ar_StoredBytes c)); ("formatVersion", "1");
                      ("publishedAt", format_rfc3339nano (rs_PublishedAt r)); ("bootstrapWAL", "bundled-verified")])).

(** ** Callbacks of a repository operation *)
(** A repository operation that asks its caller: [handle] answers, with a state of its own. *)
Fixpoint calling {S A} (handle : S -> string -> option Commit -> cprog (S * res ())) (s : S) (p : Store.prog A) : cprog (S * A) :=
  match p with
  | Ret a => Ret (s, a)
  | Vis e k =>
      match e in Store.event X return (X -> Store.prog A) -> cprog (S * A) with
      | Caller what about => fun k => let! (s, x) := handle s what about in calling handle s (k x)
      | e => fun k => Vis (Native (Remote e)) (fun x => calling handle s (k x))
      end k
  end.
(** The variables [capture] and [preflightErr] of the callback. *)
Record Session := mkSession { se_capture : option Capture; se_preflightErr : option error }.
Definition no_session : Session := mkSession None None.

(** A step of the callback: an error becomes a status. *)
Definition or_status {A B} (p : cprog (res A)) (k : A -> cprog (cres B)) : cprog (cres B) :=
  let! x := p in match x with Ok a => k a | Err e => Ret (Err (walError e)) end.
Notation "'let&' x := p 'in' k" := (or_status p (fun x => k)) (at level 10, x pattern, p at level 100, k at level 200).

Section Backup.
Context (L : Libraries) (chunks : bool -> string -> list string) (unmarshal_backup : string -> option backupDefinition).
Let parse_cluster := ParseCluster (lb_IsDNS1123Subdomain L) (lb_unmarshal L).
Let load := LoadCaptureSnapshotFromRoot (lb_ParseDuration L) (lb_Parse L) (lb_Hostname L) (lb_IsDNS1123Subdomain L) (lb_IsConfigMapKey L)
  (lb_ParseQuantity L) (lb_into_resources L) (lb_pem_decode L) (lb_ParseCertificate L) (lb_X509KeyPair L) (lb_Verify L).
Let open_native := OpenCapture (lb_range L) (lb_ParseDuration L) (lb_Parse L) (lb_Hostname L) (lb_IsDNS1123Subdomain L) (lb_IsConfigMapKey L)
  (lb_ParseQuantity L) (lb_into_resources L) (lb_pem_decode L) (lb_ParseCertificate L) (lb_X509KeyPair L) (lb_Verify L).

Definition parseBackup (r : option BackupRequest) : res (Cluster * backupDefinition) :=
  match r with
  | None => Err ErrOther
  | Some r =>
      if 2 ^ 20 <? len (bq_BackupDefinition r) then Err ErrOther else
      match unmarshal_backup (bq_BackupDefinition r) with
      | None => Err ErrOther
      | Some b =>
          let? c := parse_cluster (bq_ClusterDefinition r) in
          if (bd_APIVersion b !=? "postgresql.cnpg.io/v1") || (bd_Kind b !=? "Backup") || (bd_UID b ==? "") || (bd_Namespace b !=? cl_Namespace c)
             || (bd_ClusterName b !=? cl_Name c) || (bd_Method b !=? "plugin") || (bd_PluginName b !=? PluginName) || (bq_Parameters r !=? bd_Parameters b)
          then Err ErrOther else
          let? _ := ValidateBackup (bd_Target b) (bq_Parameters r) in
          if (bd_Phase b ==? "failed") || (bd_Phase b ==? "completed") then Err ErrOther else Ok (c, b)
      end
  end.

(** ** Space *)
Definition backup_peak (n : Configuration.Native) (b : FilesystemBudget) : Z :=
  if fb_Mount b ==? workspace then spool_bound (n_MaxBackupBytes n) + GiB + 6 * (2 ^ 30 + 2 ^ 20) + 16 * 2 ^ 20 else 0.
Definition backup_need (n : Configuration.Native) (segment : Z) (b : FilesystemBudget) : Z :=
  backup_peak n b - (if fb_Mount b ==? workspace then 6 * (2 ^ 30 - segment) else 0).

(** ** The request *)
Definition connection_json (c : Connection) : json := JObject
  [("host", JText (cn_Host c));
   ("tablespaces", match cn_Tablespaces c with
                   | None => JNull
                   | Some m => JObject (map (fun kv => (kv.1, JText kv.2)) (sort_slice (fun a b => String.ltb a.1 b.1) (map_to_list m)))
                   end)].
Definition without_creation (id : Identity) : Identity := with_creation id "".
Definition semantic (id : Identity) (compression : string) (c : Connection) (kind : string) : string :=
  print (JObject [("Identity", to_json id); ("Compression", JText compression); ("Connection", connection_json c); ("Tool", JText ("18.6/" +:+ kind))]).
Definition backup_request (spec : Spec) (id : Identity) (conn : Connection) (uid writer kind : string) : Request :=
  mkRequest 1 (sp_RepositoryID spec) uid writer kind None (digest (semantic id (sp_Compression spec) conn kind)).

(** ** The capture *)
Definition openCapture (root : string) (s : Session) : cprog (Session * res ()) :=
  match se_capture s with
  | Some _ => Ret (s, Ok ())
  | None => let! x := native (open_native root) in
            Ret (match x with Ok c => (mkSession (Some c) (se_preflightErr s), Ok ()) | Err e => (s, Err e) end)
  end.
Definition error_of {A} (r : res A) : option error := match r with Ok _ => None | Err e => Some e end.
(** The caller's functions: eligibility of a full for [BeginDifferential], the check of [PublishChecked]. *)
Definition answer (root : string) (s : Session) (what : string) (about : option Commit) : cprog (Session * res ()) :=
  match about with
  | Some full =>
      let! s := match se_preflightErr s with
                | Some _ => Ret s
                | None => let! (s, x) := openCapture root s in Ret (mkSession (se_capture s) (error_of x))
                end in
      match se_preflightErr s, se_capture s with
      | Some e, _ => Ret (s, Err e)
      | None, Some c => let! pod := call (Getenv "POD_UID") in Ret (s, EligibleFull (lb_ParseDuration L) c full pod)
      | None, None => Ret (s, Err Panic)
      end
  | None =>
      match se_capture s with
      | Some c => let! x := native (Postflight (lb_ParseDuration L) c) in Ret (s, match x with Ok _ => Ok () | Err e => Err e end)
      | None => Ret (s, Err Panic)
      end
  end.
Definition begin_request (root : string) (repo : Repository) (hold : Hold) (req : Request) : cprog (Session * (Hold * res (Begun * option Commit))) :=
  if rq_RequestedKind req ==? "differential" then
    let! (s, (hold, x)) := calling (answer root) no_session (BeginDifferential (lb_gunzip L) repo hold req) in
    Ret (s, (hold, match se_preflightErr s with Some e => Err e | None => x end))
  else
    let! (hold, x) := source_store (begin (lb_gunzip L) repo hold req) in
    Ret (no_session, (hold, match x with Ok b => Ok (b, None) | Err e => Err e end)).
Definition take_capture (c : Capture) (repo : Repository) (hold : Hold) (kind : string) (reference : option Commit) : cprog (res Captured) :=
  let! pod := call (Getenv "POD_UID") in
  if kind ==? "differential" then
    match reference with
    | Some root => native (Differential (lb_gunzip L) (lb_untar L) (lb_range L) (lb_ParseDuration L) chunks repo c pod hold root)
    | None => fail Panic
    end
  else native (Full (lb_untar L) (lb_range L) (lb_ParseDuration L) chunks c pod).
Definition bound_commit (c : Commit) (repositoryID : string) (req : Request) (a : Attempt) : Commit :=
  mkCommit (c_Schema c) repositoryID (rq_BackupUID req) (cl_AttemptID (at_claim a)) (cl_RequestSHA256 (at_claim a)) (c_Kind c)
    (c_ParentBackupUID c) (if rq_RequestedKind req ==? "full" then rq_BackupUID req else c_RootBackupUID c) (c_SystemIdentifier c)
    (c_PostgresMajor c) (c_ToolVersion c) (c_Timeline c) (c_ChecksumVersion c) (c_CaptureInstanceUID c) (c_PostmasterStartedAt c)
    (c_StartedAt c) (c_StoppedAt c) (c_StartLSN c) (c_StopLSN c) (c_RedoLSN c) (c_BundledWALStartLSN c) (c_BundledWALEndLSN c)
    (c_WALRanges c) (c_BackupLabel c) (c_TablespaceMap c) (c_RootManifestSHA256 c) (c_ManifestBytes c) (c_ManifestSHA256 c) (c_Tablespaces c)
    (c_Artifacts c).

(** ** The callback *)
Definition finished (repo : Repository) (w : Result) : cprog (cres BackupResult) :=
  let& _ := native check_context in
  Ret (match backupResult w (id_WALSegmentBytes (r_id repo)) with Ok r => Ok r | Err _ => Err CPanic end).
(** A new attempt: the capture, bound to the request, published with the server checked once more.  The files of the capture stay open until the
    publication is over. *)
Definition publish_capture (root : string) (repo : Repository) (hold : Hold) (s : Session) (spec : Spec) (req : Request) (a : Attempt)
    (reference : option Commit) : cprog (Session * (Hold * cres BackupResult)) :=
  let refuse s e : cprog (Session * (Hold * cres BackupResult)) := Ret (s, (hold, Err (walError e))) in
  let! (s, x) := openCapture root s in
  match x, se_capture s with
  | Err e, _ => refuse s e
  | Ok _, None => refuse s Panic
  | Ok _, Some c =>
      if Identity_of c (sp_RepositoryID spec) (rq_WriterClusterUID req) !=? without_creation (r_id repo) then refuse s ErrIdentity else
      let! captured := take_capture c repo hold (rq_RequestedKind req) reference in
      match captured with
      | Err e => refuse s e
      | Ok d =>
          let commit := bound_commit (cp_Commit d) (sp_RepositoryID spec) req a in
          let! (s, (hold, _, x)) := calling (answer root) s (publish (lb_gunzip L) repo hold a commit (Some (mkFile (cp_Manifest d) true))
                                      (map (fun b => Some (mkFile b true)) (cp_Files d)) true) in
          match x with
          | Err e => Ret (s, (hold, Err (walError e)))
          | Ok w => let! r := finished repo w in Ret (s, (hold, r))
          end
      end
  end.
(** Under the hold: the hold afterwards and the answer; a capture is closed on every path. *)
Definition backup_held (root : string) (repo : Repository) (hold : Hold) (spec : Spec) (placement : WALPlacement) (uid kind : string)
    : cprog (Hold * cres BackupResult) :=
  let! data := native (ConfigSnapshot.Read root "native/connection.json" (64 * 1024)) in
  match data with
  | Err e => Ret (hold, Err (walError e))
  | Ok data =>
      match decode_connection data with
      | None => Ret (hold, Err (walError ErrInput))
      | Some conn =>
          let req := backup_request spec (without_creation (r_id repo)) conn uid (wp_ClusterUID placement) kind in
          let! (s, (hold, x)) := begin_request root repo hold req in
          let! (s, (hold, r)) := match x with
                                 | Err e => Ret (s, (hold, Err (walError e)))
                                 | Ok (Winner w, _) => let! r := finished repo w in Ret (s, (hold, r))
                                 | Ok (Fresh a, reference) => publish_capture root repo hold s spec req a reference
                                 end in
          let! _ := match se_capture s with Some c => native (Capture_Close c) | None => Ret () end in
          Ret (hold, r)
      end
  end.
(** The writer's repository: opened, or initialized from the running server when it does not exist yet. *)
Definition open_repository (spec : Spec) (placement : WALPlacement) (directory : string) : cprog (res Repository) :=
  let! r := source_store (Lifecycle.OpenSource (sp_RepositoryID spec) directory) in
  match r with
  | Ok r => done r
  | Err e =>
      if Is e NotFound then
        let* control := native ReadControl in
        source_store (OpenWriter (ordinary_identity spec control (wp_ClusterUID placement)) directory)
      else fail e
  end.
Definition in_repository (root directory : string) (budgets : list FilesystemBudget) (spec : Spec) (placement : WALPlacement) (uid kind : string)
    : cprog (cres BackupResult) :=
  let& repo := open_repository spec placement directory in
  if id_WriterClusterUID (r_id repo) !=? wp_ClusterUID placement then Ret (Err (walError ErrIdentity)) else
  let& _ := native (check_capacity (required budgets (backup_need (sp_Native spec) (id_WALSegmentBytes (r_id repo))))) in
  let& hold := source_store (AdmitBackup repo (wp_ClusterUID placement) uid) in
  let! (hold, r) := backup_held root repo hold spec placement uid kind in
  let! _ := source_store (Hold_Close repo hold) in
  Ret r.
Definition backup_body (c : Cluster) (b : backupDefinition) (kind : string) : cprog (cres BackupResult) :=
  let& root := native (Projection projectionPath) in
  let& bytes := native (ConfigSnapshot.Read root "wal.json" (64 * 1024)) in
  match @StrictJSON WALPlacement _ bytes with
  | None => Ret (Err CInvalidArgument)
  | Some placement =>
      if is_err (validateWALRequest L c placement) then Ret (Err CInvalidArgument) else
      let! hostname := call Hostname in
      if match hostname with None => true | Some h => (bd_PodName b ==? "") || (bd_PodName b !=? h) end then Ret (Err CFailedPrecondition) else
      let& snapshot := native (load root) in
      let spec := sn_Spec (cs_Repository snapshot) in
      let& _ := Ret (open_store L (cs_Repository snapshot)) in
      let& _ := source_store (call CheckBucketSafety) in
      let& data := native (ConfigSnapshot.Read root "capacity.json" (64 * 1024)) in
      match decode_budgets data with
      | None => Ret (Err (walError ErrInput))
      | Some budgets =>
          if negb (has_mount budgets workspace) then Ret (Err (walError ErrInput)) else
          let& _ := native (check_capacity (required budgets (fun _ => 0))) in
          let& directory := native (call (MkdirTemp NativeWorkspace "backup-repository-")) in
          let! r := in_repository root directory budgets spec placement (bd_UID b) kind in
          let! _ := native (fs (RemoveAll directory)) in
          Ret r
      end
  end.
Definition BackupService_Backup (r : option BackupRequest) : cprog (cres BackupResult) :=
  match parseBackup r, r with
  | Ok (c, b), Some r => with_slot "capture" (Err CContext) (backup_body c b (params (bq_Parameters r) "backupType"))
  | _, _ => Ret (Err CInvalidArgument)
  end.
End Backup.
