(* ===== verification/CnpgBackupSafety.v ===== *)
(** * What a backup callback publishes (internal/cnpgi/backup.go)

    The commit of a backup is created only after everything it names was stored and verified and the server was checked once more; an answer of
    the callback describes a verified winner; the names of its first and last segments are those of its positions. *)

From S2P Require Import RetentionRun.
From S2P Require Import Prelude GoStrings GoTime Sha256 Errors Schema Json LooseJson Documents Prog Store WalNames Gate Repository Transfer Catalog Publication Lifecycle.
From S2P Require Import S3Config Configuration Capacity NativePath NativeOps NativeArchive NativeInput NativeText NativeBudget NativeRestore ConfigSnapshot NativeCapture NativePreflight NativeEvidence.
From S2P Require Import Memory RecoveryPlan Restore WalArchive NativeManifest NativeSafety CnpgCluster CnpgOps CnpgWal CnpgBackup CnpgDemo ProgRules.

(** ** Callbacks *)
(** A call of the repository operation, from the trace before it to the one after: a callback has the fact [P], any other call is one action. *)
Definition happens (P : string -> option Commit -> res () -> ctrace -> ctrace -> Prop) (a : Store.action) (before after : ctrace) : Prop :=
  match a with @Act _ X e x =>
    match e in Store.event Y return Y -> Prop with
    | Caller what about => fun x => extends before after /\ P what about x before after
    | e => fun x => after = Act (E := cn) (Native (Remote e)) x :: before
    end x
  end.
(** A history of the repository's calls that really happened, in its order, after [base]. *)
Fixpoint explains (P : string -> option Commit -> res () -> ctrace -> ctrace -> Prop) (base ctr : ctrace) (str : Store.trace) : Prop :=
  match str with
  | [] => extends base ctr
  | a :: str => exists before after, extends after ctr /\ happens P a before after /\ explains P base before str
  end.
Definition no_fact (what : string) (about : option Commit) (x : res ()) (before after : ctrace) : Prop := True.
Abbreviation happened := (explains no_fact []).
Lemma extends_nil {E : Type -> Type} (tr : list (Prog.action E)) : extends [] tr.
Proof. exists tr. by rewrite app_nil_r. Qed.
Lemma happens_grows P a before after : happens P a before after -> extends before after.
Proof. destruct a as [X e x]. destruct e; cbn; try (intros ->; apply extends_cons). by intros [H _]. Qed.
Lemma explains_stable P base str : stable (fun ctr => explains P base ctr str).
Proof.
  intros tr tr' He. destruct str as [|a str]; cbn; [intros H; by eapply extends_trans|].
  intros (before & after & H1 & H2). exists before, after. split; [by eapply extends_trans|done].
Qed.
Lemma explains_grows P base str : forall ctr, explains P base ctr str -> extends base ctr.
Proof.
  induction str as [|a str IH]; intros ctr; [done|]. intros (before & after & H1 & H2 & H3). apply happens_grows in H2.
  eapply extends_trans; [by apply IH|]. by eapply extends_trans.
Qed.
Lemma explains_app P base l1 l2 : forall ctr, explains P base ctr (l1 ++ l2) -> exists mid, explains P base mid l2 /\ explains P mid ctr l1.
Proof.
  induction l1 as [|a l1 IH]; intros ctr; cbn; [intros H; exists ctr; split; [done|apply extends_refl]|].
  intros (before & after & H1 & H2 & H3). destruct (IH _ H3) as (mid & H4 & H5). exists mid. split; [done|]. by exists before, after.
Qed.
Lemma explains_happened P base str : forall ctr, explains P base ctr str -> happened ctr str.
Proof.
  induction str as [|a str IH]; intros ctr; cbn; [intros _; apply extends_nil|]. intros (before & after & H1 & H2 & H3). exists before, after.
  split; [done|]. split; [|by apply IH]. destruct a as [X e x]. by destruct e; cbn in *; try done; destruct H2.
Qed.
Section Calling.
Context {S : Type} (handle : S -> string -> option Commit -> cprog (S * res ())).
Context (P : string -> option Commit -> res () -> ctrace -> ctrace -> Prop) (I : S -> ctrace -> Prop) (GH : ctrace -> forall X, cn X -> Prop).
Hypothesis I_stable : forall s, stable (I s).
Hypothesis handle_wp : forall s what about tr, I s tr ->
  wp GH (fun tr' '(s', x) => I s' tr' /\ P what about x tr tr') (handle s what about) tr.
(** A guard of the repository operation, where it runs with its callbacks answered. *)
Definition called (base : ctrace) (G : Store.trace -> forall X, Store.event X -> Prop) (ctr : ctrace) X (e : cn X) : Prop :=
  GH ctr X e \/ match e with Native e => match e with Remote e => exists str, explains P base ctr str /\ G str _ e | _ => False end | _ => False end.
Lemma calling_wp {A} G (Q : Store.trace -> A -> Prop) (p : Store.prog A) base s str ctr :
  wp G Q p str -> explains P base ctr str -> I s ctr ->
  wp (called base G) (fun ctr' '(s', a) => I s' ctr' /\ exists str', explains P base ctr' str' /\ Q str' a) (calling handle s p) ctr.
Proof.
  revert s str ctr. induction p as [a|X e k IH]; intros s str ctr Hp He Hi; cbn [calling]; [split; [done|]; by exists str|].
  destruct Hp as [Hg Hk].
  assert (forall Y (e : Store.event Y) (y : Y), match e with Caller _ _ => False | _ => True end ->
    explains P base (Act (Native (Remote e)) y :: ctr) (Act e y :: str)) as Hx.
  { intros Y e' y Hn. eexists ctr, _. split; [apply extends_refl|]. split; [by destruct e'|done]. }
  destruct e; try (split; [right; by exists str|]; intros x; eapply IH; [apply Hk|by apply Hx|eapply I_stable; [apply extends_cons|done]]).
  apply wp_bind. eapply wp_mono; [|eapply wp_G_mono; [|apply (wp_also _ _ _ _ _ (handle_wp s what about ctr Hi) (wp_grows _ ctr))]].
  - intros ctr' [s' x] [[Hi' Hp'] Hext]. apply (IH x s' (Act (Caller what about) x :: str)); [apply Hk| |done].
    exists ctr, ctr'. split; [apply extends_refl|]. by split.
  - intros tr X e Hh. by left.
Qed.
End Calling.

(** ** Parts that create no commit *)
Lemma tails_differ k x y a b : (0 < k <= String.length a)%nat -> (k <= String.length b)%nat ->
  String.get (String.length a - k) a <> String.get (String.length b - k) b -> x +:+ a <> y +:+ b.
Proof.
  assert (forall s t, (k <= String.length t)%nat -> String.get (String.length (s +:+ t) - k) (s +:+ t) = String.get (String.length t - k) t) as H.
  { intros s t Hk. rewrite (String.append_correct2 s t (String.length t - k)). f_equal. rewrite length_append. lia. }
  intros Ha Hb Hd E. apply Hd. rewrite <- (H x a), <- (H y b) by lia. by rewrite E.
Qed.
Definition commit_key (key : string) : Prop := exists x, key = x +:+ "commit.json".
Definition plain_store X (e : Store.event X) : Prop := match e with PutFile key _ _ _ _ => ~ commit_key key | _ => True end.
Definition plain_os X (e : os X) : Prop := match e with Remote e => plain_store _ e | _ => True end.
Definition plain X (e : cn X) : Prop := match e with Native e => plain_os _ e | _ => True end.
Lemma plain_native {A} (p : oprog A) : calls plain_os p -> calls plain (native p).
Proof.
  intros Hp tr. specialize (Hp []). revert tr Hp. generalize (@nil (Prog.action os)) as t0. induction p as [a|X e k IH]; intros t0 tr; cbn; [done|].
  intros [He Hk]. split; [done|]. intros x. by eapply IH.
Qed.
Lemma plain_remote {A} (p : Store.prog A) : calls plain_store p -> calls plain_os (remote p).
Proof.
  intros Hp tr. specialize (Hp []). revert tr Hp. generalize (@nil Store.action) as t0. induction p as [a|X e k IH]; intros t0 tr; cbn; [done|].
  intros [He Hk]. split; [done|]. intros x. by eapply IH.
Qed.
Lemma plain_source {A} (p : Store.prog A) : calls plain_store p -> calls plain (source_store p).
Proof. intros Hp. by apply plain_native, plain_remote. Qed.
Lemma plain_reads {A} (p : Store.prog A) Q : reads p Q -> calls plain_store p.
Proof. intros Hp. apply (wp_to_calls (fun _ => plain_store) _ _ _ [] (Hp (fun _ => plain_store) [] ltac:(intros tr X e He; by destruct e))). done. Qed.
Lemma plain_mutation_free {A} (p : oprog A) (S : forall X, os X -> Prop) :
  (forall X (e : os X), S X e -> match e with Remote e => mutating e = false | _ => True end) -> calls S p -> calls plain_os p.
Proof. intros HS. apply calls_mono. intros X e He. apply HS in He. destruct e as [X e| | | | | | | | | | | | | | | | | | |]; try done. by destruct e. Qed.
Lemma not_commit x a k : (0 < k <= String.length a)%nat -> (k <= 11)%nat -> String.get (String.length a - k) a <> String.get (11 - k) "commit.json" -> ~ commit_key (x +:+ a).
Proof. intros H1 H2 H3 [y Hy]. by apply (tails_differ k x y a "commit.json") in Hy. Qed.
Lemma gate_plain r : ~ commit_key (gate_key r).
Proof. apply (not_commit _ "gate.json" 6); cbn; [lia|lia|done]. Qed.
Lemma change_plain r f : calls plain_store (changeGate r f).
Proof.
  refine (wp_to_calls (fun _ => plain_store) _ _ _ [] (changeGate_wp r _ _ _ _ _) _); [|by intros tr X e He; destruct e; try done; destruct He as [-> _]; apply gate_plain|done].
  intros tr X e He. by destruct e.
Qed.
Lemma admit_plain r writer uid : calls plain_store (AdmitBackup r writer uid).
Proof. unfold AdmitBackup, admit_holder, addHolder. repeat calls_step; try done. apply change_plain. Qed.
Lemma close_plain r h : calls plain_store (Hold_Close r h).
Proof. unfold Hold_Close, removeHolder. repeat calls_step. apply change_plain. Qed.
Lemma begin_plain gunzip r h req : calls plain_store (begin gunzip r h req).
Proof.
  apply (wp_to_calls _ _ _ _ _ (begin_wp gunzip r h req)). intros tr X e He. destruct e; try done. destruct He as [_ [[-> _]|[att ->]]].
  - apply (not_commit _ "request.json" 7); cbn; [lia|lia|done].
  - apply (not_commit _ "claim.json" 6); cbn; [lia|lia|done].
Qed.
Lemma writer_plain id workspace : calls plain_store (OpenWriter id workspace).
Proof.
  apply (wp_to_calls _ _ _ _ _ (OpenWriter_wp id workspace [])). intros tr X e He. destruct e; try done.
  destruct He as (_ & _ & t & _ & [[-> _]|[-> _]]); [apply (not_commit _ "repository.json" 6)|apply (not_commit _ "gate.json" 6)]; cbn; lia || done.
Qed.
Lemma source_happened {A} G (Q : Store.trace -> A -> Prop) (p : Store.prog A) str ctr : wp G Q p str -> happened ctr str ->
  wp anything (fun ctr' a => exists str', happened ctr' str' /\ Q str' a) (source_store p) ctr.
Proof.
  revert str ctr. induction p as [a|X e k IH]; intros str ctr Hp Hh; [by exists str|]. destruct Hp as [_ Hk]. split; [done|]. intros x.
  apply (IH x (Act e x :: str)); [apply Hk|]. eexists ctr, _. split; [apply extends_refl|]. split; [|done].
  destruct e; try done. split; [apply extends_cons|done].
Qed.

Section Backup.
Context (L : Libraries) (chunks : bool -> string -> list string) (unmarshal_backup : string -> option backupDefinition).
Abbreviation gunzip := (lb_gunzip L).
Abbreviation open_native := (OpenCapture (lb_range L) (lb_ParseDuration L) (lb_Parse L) (lb_Hostname L) (lb_IsDNS1123Subdomain L) (lb_IsConfigMapKey L)
  (lb_ParseQuantity L) (lb_into_resources L) (lb_pem_decode L) (lb_ParseCertificate L) (lb_X509KeyPair L) (lb_Verify L)).
Definition quiet_os X (e : os X) : Prop := match e with Remote e => mutating e = false | _ => True end.
Lemma quiet_plain {A} (p : oprog A) : calls quiet_os p -> calls plain_os p.
Proof. by apply plain_mutation_free. Qed.
Lemma quiet_tool env tool args : calls quiet_os (runTool env tool args).
Proof. unfold runTool. repeat os_step. Qed.
Lemma from_quiet {A} g (p : oprog A) : calls (reads_from g) p -> calls quiet_os p.
Proof. apply calls_mono. intros X e. destruct e as [X e| | | | | | | | | | | | | | | | | | |]; try done. by destruct e. Qed.
Ltac quiet_step := first [os_step|apply quiet_tool|unfold stat_ok, root_of, fileHash, NativeCapture.controlAt, command, check_capacity].
Lemma quiet_open root : calls quiet_os (open_native root).
Proof.
  unfold OpenCapture. os_step; [eapply from_quiet, from_capture|]. cbv zeta. unfold Read, NativeCapture.controlAt, check_layout, check_links, open_server, prepareConnection, read_state, tool_version.
  repeat quiet_step.
Qed.
Lemma quiet_capture c pod reference : calls quiet_os (capture (lb_untar L) (lb_range L) (lb_ParseDuration L) chunks c pod reference).
Proof. eapply calls_mono; [|by apply only_capture]. intros X e. by destruct e. Qed.
Lemma quiet_remote {A} (p : Store.prog A) Q : reads p Q -> calls quiet_os (remote p).
Proof.
  intros Hp. pose proof (Hp (fun _ X e => mutating e = false) [] (fun _ _ _ H => H)) as Hc. clear Hp.
  intros tr. revert tr Hc. generalize (@nil Store.action) at 2 as t0. induction p as [a|X e k IH]; intros t0 tr; cbn; [done|].
  intros [He Hk]. split; [done|]. intros x. by eapply IH.
Qed.
Lemma quiet_download r h uid i : calls quiet_os (remote (DownloadInput gunzip r h uid i)).
Proof. eapply quiet_remote, DownloadInput_proves. Qed.
Lemma quiet_differential r c pod h root : calls quiet_os (Differential gunzip (lb_untar L) (lb_range L) (lb_ParseDuration L) chunks r c pod h root).
Proof. unfold Differential. repeat quiet_step; try apply quiet_download. apply quiet_capture. Qed.
Lemma quiet_postflight c : calls quiet_os (Postflight (lb_ParseDuration L) c).
Proof. eapply calls_mono; [|apply (only_Postflight _ _ [])]. intros X e. by destruct e. Qed.
Lemma plain_take c repo hold kind reference : calls plain (take_capture L chunks c repo hold kind reference).
Proof. unfold take_capture. repeat calls_step; try done; apply plain_native, quiet_plain; [apply quiet_differential|apply quiet_capture]. Qed.
Lemma plain_open root s : calls plain (openCapture L root s).
Proof. unfold openCapture. repeat calls_step. apply plain_native, quiet_plain, quiet_open. Qed.

(** ** The evidence of a commit *)
(** A run of a program that ended well, somewhere in the trace. *)
Definition succeeded {A} (p : cprog (res A)) (a : A) (tr : ctrace) : Prop := exists tr1 tr2, runs p tr1 tr2 (Ok a) /\ extends tr2 tr.
Lemma succeeded_stable {A} (p : cprog (res A)) a : stable (succeeded p a).
Proof. intros tr tr' He (tr1 & tr2 & H1 & H2). exists tr1, tr2. split; [done|by eapply extends_trans]. Qed.
(** The check of the captured server: the calls between [before] and [after] are a run of it that ended well. *)
Definition checked (c : Capture) (before after : ctrace) : Prop := exists clock, runs (native (Postflight (lb_ParseDuration L) c)) before after (Ok clock).
(** What must have happened before commit.json is created: it describes a capture of this callback that succeeded, everything it names is stored and was
    read back and verified, and after all of that the captured server passed its check again. *)
Definition commit_checked (tr : ctrace) (key b : string) (cond : Condition) : Prop :=
  exists repo hold capture d c req a reference str,
    key = backup repo (c_BackupUID c) +:+ "commit.json" /\ b = Marshal c /\ cond = Create
    /\ c = bound_commit (cp_Commit d) (c_RepositoryID c) req a /\ Commit_validate c (r_id repo) = Ok ()
    /\ happened tr str /\ admitted_seen repo hold str
    /\ exists before after earlier, extends after tr /\ checked capture before after
       /\ succeeded (take_capture L chunks capture repo hold (rq_RequestedKind req) reference) d before
       /\ happened before earlier /\ payload_uploaded gunzip repo c earlier /\ payload_fetched gunzip repo c earlier /\ parent_fetched gunzip repo c earlier.
Definition backup_guard (tr : ctrace) X (e : cn X) : Prop :=
  match e with
  | Native e => match e with
      | Remote e => match e with PutFile key b _ cond _ => commit_key key -> commit_checked tr key b cond | _ => True end
      | _ => True end
  | _ => True
  end.
Lemma plain_guard tr X (e : cn X) : plain X e -> backup_guard tr X e.
Proof.
  destruct e as [X e| | | | | | | | | | | | |]; try done. destruct e as [X e| | | | | | | | | | | | | | | | | | |]; try done.
  destruct e; try done. cbn. intros H1 H2. by destruct H1.
Qed.
(** The answer describes a commit that was read back and verified in full. *)
Definition describes (repo : Repository) (uid : string) (tr : ctrace) (r : BackupResult) : Prop :=
  exists w i str, happened tr str /\ commit_read repo uid (rs_Commit w, rs_Bytes w, i) str /\ rs_PublishedAt w = i_Modified i
    /\ usable gunzip repo (rs_Commit w) str /\ backupResult w (id_WALSegmentBytes (r_id repo)) = Ok r.
Lemma describes_stable repo uid r : stable (fun tr => describes repo uid tr r).
Proof.
  intros tr tr' He (w & i & str & H & H1). exists w, i, str. split; [|done]. by eapply explains_stable.
Qed.

(** ** The callback, part by part *)
Lemma wp_plain {A B} (p : cprog A) (f : A -> cprog B) (R : ctrace -> A -> Prop) (Q : ctrace -> B -> Prop) tr :
  calls plain p -> wp anything R p tr -> (forall tr' a, extends tr tr' -> R tr' a -> wp backup_guard Q (f a) tr') -> wp backup_guard Q (bind p f) tr.
Proof. intros Hp. apply (wp_calls_bind _ plain); [|done]. intros tr' X e _. apply plain_guard. Qed.
Lemma wp_plain_any {A B} (p : cprog A) (f : A -> cprog B) (Q : ctrace -> B -> Prop) tr :
  calls plain p -> (forall tr' a, extends tr tr' -> wp backup_guard Q (f a) tr') -> wp backup_guard Q (bind p f) tr.
Proof. intros Hp Hf. eapply (wp_plain _ _ (fun _ _ => True)); [done|by eapply wp_mono; [|apply wp_grows]|]. auto. Qed.
Lemma wp_status {A} (p : cprog (res A)) (k : A -> cprog (cres BackupResult)) (Q : ctrace -> cres BackupResult -> Prop) tr :
  calls plain p -> (forall tr' e, Q tr' (Err e)) -> (forall tr' a, extends tr tr' -> wp backup_guard Q (k a) tr') -> wp backup_guard Q (or_status p k) tr.
Proof. intros Hp He Hk. unfold or_status. apply wp_plain_any; [done|]. intros tr' [a|e] Hx; [by apply Hk|]. apply He. Qed.
Lemma plain_check : calls plain (native check_context).
Proof. eapply plain_native, plain_remote, plain_reads, proves_check_ctx. Qed.
Lemma finished_wp repo uid w i str tr : happened tr str -> commit_read repo uid (rs_Commit w, rs_Bytes w, i) str -> rs_PublishedAt w = i_Modified i ->
  usable gunzip repo (rs_Commit w) str ->
  wp backup_guard (fun tr x => match x with Ok r => describes repo uid tr r | Err _ => True end) (finished repo w) tr.
Proof.
  intros Hh H1 H2 H3. unfold finished. apply wp_status; [apply plain_check|done|]. intros tr' [] He. cbn.
  destruct (backupResult w _) as [r|e] eqn:Er; [|done]. exists w, i, str. split_and!; try done. by eapply explains_stable.
Qed.

(** *** The frozen request *)
Definition winner_read (repo : Repository) (uid : string) (w : Result) (str : Store.trace) : Prop :=
  exists i, commit_read repo uid (rs_Commit w, rs_Bytes w, i) str /\ rs_PublishedAt w = i_Modified i /\ usable gunzip repo (rs_Commit w) str.
(** Whenever a begun request has a winner, a part of the history read it back and verified it. *)
Definition winner_known (repo : Repository) (uid : string) (str : Store.trace) (y : Hold * res (Begun * option Commit)) : Prop :=
  forall w o, y.2 = Ok (Winner w, o) -> exists l base, str = l ++ base /\ winner_read repo uid w l.
Lemma plain_store_reads : allows_reads (fun _ => plain_store).
Proof. intros tr X e He. by destruct e. Qed.
Lemma select_plain entries : forall acc, calls plain_store (scan_go entries acc select_full).
Proof.
  assert (calls plain_store check_ctx) as Hc by eapply plain_reads, proves_check_ctx.
  assert (forall acc en, calls plain_store (select_full acc en)) as Hs.
  { intros acc en. unfold select_full. repeat first [exact Hc|exact Logic.I|calls_step]. }
  induction entries as [|en entries IH]; intros acc; cbn [scan_go]; (calls_step; [apply Hc|]); (calls_step; [by calls_step|]); repeat first [exact (Hs _ _)|exact (IH _)|exact Logic.I|calls_step].
Qed.
Lemma root_plain repo req : calls plain_store (differential_root gunzip repo req).
Proof.
  unfold differential_root. repeat calls_step; try done; [eapply plain_reads, spoolCatalog_proves|]. unfold scanEntries. repeat calls_step; try done. apply select_plain.
Qed.
Lemma root_same repo req tr : wp anything (fun _ x => forall req', x = Ok req' -> rq_BackupUID req' = rq_BackupUID req) (differential_root gunzip repo req) tr.
Proof.
  unfold differential_root. split; [done|]. intros [[b i]|e]; cbv beta iota; [|].
  - cbn [bind]. destruct (strict b smallLimit) as [frozen|]; [|done]. wp_if as Ev; [done|]. by intros req' [= <-].
  - cbn [bind]. wp_if as En; [|done]. apply wp_pastE; [done|]. intros tr1 f _. apply wp_pastE; [done|]. intros tr2 [s|] _; [|done]. by intros req' [= <-].
Qed.
Lemma begun_known repo req x str : begun gunzip repo req x str -> forall w, x = Winner w -> winner_read repo (rq_BackupUID req) w str.
Proof. intros Hb w ->. destruct Hb as (_ & (i & H1 & H2) & H3). by exists i. Qed.
Lemma begin_known repo h req base : 
  wp (fun _ => plain_store) (fun str '(_, x) => forall w, x = Ok (Winner w) -> exists l, str = l ++ base /\ winner_read repo (rq_BackupUID req) w l) (begin gunzip repo h req) base.
Proof.
  eapply wp_calls; [done|apply begin_plain|]. eapply wp_G_mono, wp_mono; [| |apply (wp_frame _ _ _ [] base (begin_wp gunzip repo h req))]; [done|].
  intros str [h' x] (l & -> & _ & _ & _ & Hb) w ->. exists l. split; [done|]. eapply begun_known; [by apply Hb|done].
Qed.
Lemma differential_known repo h req : wp (fun _ => plain_store) (winner_known repo (rq_BackupUID req)) (BeginDifferential gunzip repo h req) [].
Proof.
  unfold BeginDifferential. eapply wp_stepH; [apply plain_store_reads|apply Hold_check_proves|by intros tr e _ w o|]. intros tr1 [] _ _. wp_if as Ei; [by intros w o|].
  eapply (wp_calls_bind _ plain_store); [done|apply root_plain|apply root_same|]. intros tr2 [req'|e] _ Hs; [|by intros w o]. specialize (Hs req' eq_refl).
  apply wp_bind. eapply wp_mono; [|apply (begin_known repo h req' tr2)]. intros tr3 [h' x] Hb. destruct x as [[a|w]|e]; [| |by intros w o].
  2: { intros w' o [= <- <-]. destruct (Hb w eq_refl) as (l & -> & Hw). exists l, tr2. split; [done|]. by rewrite <- Hs. }
  destruct (rq_RootBackupUID req') as [root|]; [|by intros w o].
  eapply wp_reads; [apply plain_store_reads|apply readCommit_proves|]. by intros tr4 [[[p pb] i]|e] _ _ w o.
Qed.

(** *** The caller's functions *)
Lemma plain_answer root s what about : calls plain (answer L root s what about).
Proof.
  unfold answer. destruct about as [full|].
  - calls_step; [|repeat first [exact Logic.I|calls_step]]. repeat first [exact (plain_open root s)|calls_step].
  - repeat calls_step. apply plain_native, quiet_plain, quiet_postflight.
Qed.
Lemma plain_wp {A} (p : cprog A) (R : ctrace -> A -> Prop) tr : calls plain p -> wp anything R p tr -> wp (fun _ => plain) R p tr.
Proof. apply wp_calls. done. Qed.
Lemma answer_checked root c s what about tr : se_capture s = Some c ->
  wp (fun _ => plain) (fun tr' '(s', x) => se_capture s' = Some c /\ (about = None -> x = Ok () -> checked c tr tr')) (answer L root s what about) tr.
Proof.
  intros Hs. apply plain_wp; [apply plain_answer|]. unfold answer. rewrite Hs. destruct about as [full|].
  - unfold openCapture. rewrite Hs. destruct (se_preflightErr s) as [e|] eqn:Ee; cbn [bind].
    + rewrite Ee. done.
    + cbn. rewrite Hs. by split.
  - apply wp_bind. eapply wp_mono; [|apply wp_run]. intros tr' [out|e] Hr; (split; [done|]); intros _ Hx; [|done].
    by exists out.
Qed.
Lemma called_plain P base tr X (e : cn X) :
  called P (fun _ => plain) base (fun _ => plain_store) tr X e -> backup_guard tr X e.
Proof.
  intros [H|H]; [by apply plain_guard|]. apply plain_guard. destruct e as [X e| | | | | | | | | | | | |]; try done. destruct e; try done.
  by destruct H as (str & _ & H).
Qed.
Lemma begin_request_wp root repo hold req tr :
  wp backup_guard (fun tr '(s, (_, x)) => forall w o, x = Ok (Winner w, o) -> exists str, happened tr str /\ winner_read repo (rq_BackupUID req) w str)
    (begin_request L root repo hold req) tr.
Proof.
  unfold begin_request. wp_if as Ek.
  - assert (forall s what about tr', True -> wp (fun _ => plain) (fun tr2 '(s', x) => True /\ no_fact what about x tr' tr2) (answer L root s what about) tr') as Ha.
    { intros s what about tr' _. eapply wp_mono; [|apply plain_wp; [apply plain_answer|apply wp_grows]]. by intros tr2 [s' x] _. }
    apply wp_bind. eapply wp_mono; [|eapply wp_G_mono; [|apply (calling_wp (answer L root) no_fact (fun _ _ => True) (fun _ => plain) ltac:(done) Ha
      _ _ _ [] no_session [] tr (differential_known repo hold req)); [apply extends_nil|done]]].
    + intros tr' [s [h x]] [_ (str & Hh & Hw)] w o. destruct (se_preflightErr s); [done|]. intros ->. destruct (Hw w o eq_refl) as (l & base & -> & Hr).
      exists l. split; [|done]. apply explains_app in Hh as (mid & _ & Hh). by eapply explains_happened.
    + intros tr' X e. apply called_plain.
  - apply wp_bind. eapply wp_calls; [intros tr' X e _; apply plain_guard|apply plain_source, begin_plain|].
    eapply wp_mono; [|eapply source_happened; [apply (begin_known repo hold req [])|apply extends_nil]].
    intros tr' [h x] (str & Hh & Hw) w o. destruct x as [b|e]; [|done]. intros [= -> <-]. destruct (Hw w eq_refl) as (l & -> & Hr). exists l.
    split; [|done]. apply explains_app in Hh as (mid & _ & Hh). by eapply explains_happened.
Qed.

(** *** The publication *)
Definition check_fact (c : Capture) (what : string) (about : option Commit) (x : res ()) (before after : ctrace) : Prop :=
  about = None -> x = Ok () -> checked c before after.
Lemma called_publish repo hold capture d req a reference rid tr0 :
  succeeded (take_capture L chunks capture repo hold (rq_RequestedKind req) reference) d tr0 ->
  forall tr X e, called (check_fact capture) (fun _ => plain) tr0 (publish_guard gunzip repo hold (bound_commit (cp_Commit d) rid req a) true) tr X e ->
  backup_guard tr X e.
Proof.
  intros Hd tr X e [H|H]; [by apply plain_guard|]. destruct e as [X e| | | | | | | | | | | | |]; try done. destruct e as [X e| | | | | | | | | | | | | | | | | | |]; try done.
  destruct H as (str & Hx & Hg). destruct e; try done. cbn. intros _. destruct Hg as (-> & -> & -> & H1 & H2 & _ & _ & _ & H6).
  exists repo, hold, capture, d, (bound_commit (cp_Commit d) rid req a), req, a, reference, str. split_and!; try done; [by eapply explains_happened|].
  destruct (H6 eq_refl) as (later & earlier & -> & U1 & U2 & U3). apply explains_app in Hx as (mid & (before & after & E1 & [_ E2] & E3) & E4).
  exists before, after, earlier. split_and!; try done.
  - eapply extends_trans; [exact E1|]. by eapply explains_grows.
  - by apply E2.
  - eapply succeeded_stable; [|exact Hd]. by eapply explains_grows.
  - by eapply explains_happened.
Qed.
Lemma publish_capture_wp root repo hold s spec req a reference tr :
  wp backup_guard (fun tr '(_, (_, x)) => match x with Ok r => describes repo (rq_BackupUID req) tr r | Err _ => True end)
    (publish_capture L chunks root repo hold s spec req a reference) tr.
Proof.
  unfold publish_capture. cbv zeta. apply wp_plain_any; [apply plain_open|]. intros tr1 [s1 x] _. destruct x as [[]|e]; [|done].
  destruct (se_capture s1) as [c|] eqn:Ec; [|done]. wp_if as Ei; [done|].
  eapply wp_plain; [apply plain_take|apply wp_run|]. intros tr2 [d|e] He2 Hr2; [|done]. cbv zeta. set (commit := bound_commit _ _ _ _).
  assert (succeeded (take_capture L chunks c repo hold (rq_RequestedKind req) reference) d tr2) as Hd by (exists tr1, tr2; split; [done|apply extends_refl]).
  pose proof (publish_wp gunzip repo hold a commit (Some (mkFile (cp_Manifest d) true)) (map (fun b => Some (mkFile b true)) (cp_Files d)) true) as Hp.
  apply wp_bind. eapply wp_mono; [|eapply wp_G_mono; [|apply (calling_wp (answer L root) (check_fact c) (fun s _ => se_capture s = Some c) (fun _ => plain)
    (fun s tr tr' _ H => H) (answer_checked root c) _ _ _ tr2 s1 [] tr2 Hp); [apply extends_refl|done]]].
  - intros tr3 [s3 [[h3 a3] x3]] [_ (str & Hx & (_ & _ & _ & Hq) & _)]. destruct x3 as [w|e]; [|done]. cbn in Hq. destruct (Hq w eq_refl) as (_ & (i & H1 & H2) & H3).
    apply wp_bind. eapply wp_mono; [|eapply finished_wp; [by eapply explains_happened|exact H1|exact H2|exact H3]]. by intros tr4 [r|e] H4.
  - intros tr3 X e Hg. by eapply called_publish.
Qed.

(** *** From the hold to the request *)
Abbreviation told repo uid := (fun tr (x : cres BackupResult) => match x with Ok r => describes repo uid tr r | Err _ => True end).
Lemma plain_read root path limit : calls plain (native (ConfigSnapshot.Read root path limit)).
Proof. apply plain_native, quiet_plain. unfold Read. repeat os_step. Qed.
Lemma told_stable repo uid tr tr' x : extends tr tr' -> told repo uid tr x -> told repo uid tr' x.
Proof. intros He. destruct x as [r|e]; [|done]. intros H. eapply describes_stable; [exact He|exact H]. Qed.
Lemma held_wp root repo hold spec placement uid kind tr :
  wp backup_guard (fun tr '(_, x) => told repo uid tr x) (backup_held L chunks root repo hold spec placement uid kind) tr.
Proof.
  unfold backup_held. apply wp_plain_any; [apply plain_read|]. intros tr1 [data|e] _; [|done]. destruct (decode_connection data) as [conn|]; [|done]. cbv zeta.
  set (req := backup_request _ _ _ _ _ _). apply wp_bind. eapply wp_mono; [|apply begin_request_wp]. intros tr2 [s [h x]] Hw.
  apply wp_bind. eapply (wp_mono _ (fun tr '(_, (_, x)) => told repo uid tr x)).
  - intros tr3 [s3 [h3 r]] H. apply wp_plain_any.
    + destruct (se_capture s3); [|apply calls_ret]. apply plain_native, quiet_plain. unfold Capture_Close. repeat os_step.
    + intros tr4 [] He. cbn. by eapply told_stable.
  - destruct x as [[[a|w] reference]|e]; [apply (publish_capture_wp root repo h s spec req a reference)| |done].
    destruct (Hw w reference eq_refl) as (str & Hh & i & H1 & H2 & H3). apply wp_bind. eapply wp_mono; [|by eapply finished_wp]. by intros tr3 x H.
Qed.
Lemma plain_repository spec placement directory : calls plain (open_repository spec placement directory).
Proof.
  unfold open_repository. calls_step; [eapply plain_source, plain_reads, OpenSource_proves|]. repeat first [apply plain_source, writer_plain|calls_step].
  apply plain_native, quiet_plain. unfold ReadControl, command. repeat first [apply quiet_tool|os_step].
Qed.
(** The repository a callback opened: its identity and gate were read, and it belongs to this writer. *)
Definition own_repository (writer : string) (repo : Repository) (tr : ctrace) : Prop :=
  opened repo (remote_trace tr) /\ id_WriterClusterUID (r_id repo) = writer.
Lemma own_extends writer repo tr tr' : extends tr tr' -> own_repository writer repo tr -> own_repository writer repo tr'.
Proof. intros He [H1 H2]. split; [|done]. eapply opened_stable; [by apply remote_extends|done]. Qed.
Lemma repository_opened spec placement directory tr :
  wp anything (fun tr x => forall repo, x = Ok repo -> opened repo (remote_trace tr)) (open_repository spec placement directory) tr.
Proof.
  unfold open_repository. eapply wp_knows.
  - apply (wp_source (fun str x => forall repo, x = Ok repo -> opened repo str)). intros str. eapply wp_mono; [|apply OpenSource_proves; by intros].
    intros str' [repo|e] [_ H] r; [|done]. intros [= <-]. apply H.
  - intros tr1 [repo|e] _ H; [exact H|]. wp_if as Ei; [|done]. apply wp_pastE; [done|]. intros tr2 control _.
    apply (wp_source (fun str x => forall repo, x = Ok repo -> opened repo str)). intros str.
    eapply wp_mono; [|eapply wp_G_mono; [|apply (OpenWriter_wp _ directory str)]]; [|done]. intros str' [r|e'] Hr repo; [|done]. intros [= <-]. apply Hr.
Qed.
Lemma plain_capacity budgets : calls plain (native (check_capacity budgets)).
Proof. apply plain_native, quiet_plain. unfold check_capacity. repeat os_step. Qed.
Lemma repository_wp root directory budgets spec placement uid kind tr :
  wp backup_guard (fun tr x => match x with Ok r => exists repo, own_repository (wp_ClusterUID placement) repo tr /\ describes repo uid tr r | Err _ => True end)
    (in_repository L chunks root directory budgets spec placement uid kind) tr.
Proof.
  unfold in_repository. unfold or_status at 1. eapply wp_plain; [apply plain_repository|apply repository_opened|]. intros tr1 [repo|e] _ Ho; [|done].
  specialize (Ho repo eq_refl). wp_if as Ei; [done|]. apply negb_false_iff, bool_decide_eq_true in Ei. assert (own_repository (wp_ClusterUID placement) repo tr1) as Hw by done.
  apply wp_status; [apply plain_capacity|done|]. intros tr2 [] He2. apply wp_status; [apply plain_source, admit_plain|done|]. intros tr3 hold He3.
  apply wp_bind. eapply wp_mono; [|eapply wp_also; [apply held_wp|apply wp_grows]]. intros tr4 [h x] [H He4]. apply wp_plain_any; [apply plain_source, close_plain|].
  intros tr5 y He. destruct x as [r|e]; [|done]. exists repo. split; [|by eapply describes_stable].
  eapply own_extends; [|exact Hw]. do 3 (eapply extends_trans; [eassumption|]). done.
Qed.
Lemma body_wp c b kind tr :
  wp backup_guard (fun tr x => match x with Ok r => exists repo, own_repository (cl_UID c) repo tr /\ describes repo (bd_UID b) tr r | Err _ => True end) (backup_body L chunks c b kind) tr.
Proof.
  unfold backup_body. apply wp_status; [apply plain_native, quiet_plain; unfold Projection; repeat os_step|done|]. intros tr1 root _.
  apply wp_status; [apply plain_read|done|]. intros tr2 bytes _. destruct (StrictJSON bytes) as [placement|]; [|done]. wp_if as Ev; [done|].
  assert (wp_ClusterUID placement = cl_UID c) as Hc.
  { unfold validateWALRequest in Ev. repeat case_match; try done. bool_split. done. }
  apply wp_plain_any; [by calls_step|]. intros tr3 hostname _. wp_if as Eh; [done|].
  apply wp_status; [eapply plain_native, quiet_plain, from_quiet, from_capture|done|]. intros tr4 snapshot _. cbv zeta.
  apply wp_status; [apply calls_ret|done|]. intros tr5 [] _. apply wp_status; [apply plain_source; by calls_step|done|]. intros tr6 [] _.
  apply wp_status; [apply plain_read|done|]. intros tr7 data _. destruct (decode_budgets data) as [budgets|]; [|done]. wp_if as Em; [done|].
  apply wp_status; [apply plain_capacity|done|]. intros tr8 [] _. apply wp_status; [apply plain_native; by calls_step|done|]. intros tr9 directory _.
  apply wp_bind. eapply wp_mono; [|apply repository_wp]. intros tr10 x H. apply wp_plain_any; [apply plain_native, quiet_plain; repeat os_step|].
  intros tr11 y He. destruct x as [r|e]; [|done]. destruct H as (repo & Hw & H). rewrite Hc in Hw. exists repo. split; [by eapply own_extends|by eapply describes_stable].
Qed.
Lemma backup_wp r :
  wp backup_guard (fun tr x => match x with Ok res => exists c b repo, parseBackup L unmarshal_backup r = Ok (c, b) /\ own_repository (cl_UID c) repo tr /\ describes repo (bd_UID b) tr res | Err _ => True end)
    (BackupService_Backup L chunks unmarshal_backup r) [].
Proof.
  unfold BackupService_Backup. destruct (parseBackup L unmarshal_backup r) as [[c b]|] eqn:Ep; [|done]. destruct r as [r|]; [|done].
  unfold with_slot. split; [done|]. intros [|]; cbn [bind negb]; [|done]. apply wp_bind. eapply wp_mono; [|apply body_wp].
  intros tr x H. split; [done|]. intros []. destruct x as [res|e]; [|done]. destruct H as (repo & Hw & H). exists c, b, repo. split; [done|].
  split; [eapply own_extends; [apply extends_cons|done]|]. eapply describes_stable; [apply extends_cons|done].
Qed.
End Backup.

(** C16: An answer of the backup callback describes, field by field, a commit of the requested backup that was read back from the repository that this callback
    opened, whose writer is the Cluster of the request, strictly decoded, valid and verified in full: not retired, its request intact, every payload byte downloaded and matched, its parent included. *)
Theorem backup_answer_verified L chunks unmarshal r tr res :
  runs (BackupService_Backup L chunks unmarshal r) [] tr (Ok res) ->
  exists c b repo, parseBackup L unmarshal r = Ok (c, b) /\ own_repository (cl_UID c) repo tr /\ describes L repo (bd_UID b) tr res.
Proof. intros Hr. exact (wp_runs _ _ _ _ _ _ (backup_wp L chunks unmarshal r) Hr). Qed.

(** ** A concrete backup

    The sidecar of CnpgDemo.v takes a full backup of a small server into an empty repository. *)
Definition demo_backup_uid : string := c_BackupUID ex_commit.
Definition full_parameters : option (gmap string string) := Some {["backupType" := "full"]}.
Definition demo_backup : backupDefinition :=
  mkBackupDefinition "postgresql.cnpg.io/v1" "Backup" demo_backup_uid "db" "restored" "plugin" "primary" PluginName full_parameters "" "restored-1".
Definition demo_unmarshal (_ : string) : option backupDefinition := Some demo_backup.
Definition demo_backup_request : BackupRequest := mkBackupRequest "{backup}" demo_definition full_parameters.
Definition demo_chunks (gzip : bool) (raw : string) : list string := [if gzip then tag_gzip raw else raw].
Definition backup_libraries : Libraries :=
  let L := sidecar_libraries in
  mkLibraries (lb_range L) (lb_IsDNS1123Subdomain L) (lb_IsConfigMapKey L) (lb_ParseQuantity L) (lb_ParseDuration L) (lb_Parse L) (lb_Hostname L)
    (lb_into_resources L) (lb_pem_decode L) (lb_ParseCertificate L) (lb_X509KeyPair L) (lb_Verify L) (lb_New L)
    (lb_unmarshal L) (lb_marshal L) (lb_wal_size L) (lb_decode_plan L) (lb_encode_plan L)
    (lb_gzip L) (lb_gunzip L) (lb_gzip_header L) small_untar (lb_MODE_UNSPECIFIED L) (lb_MODE_RECOVERY L) (lb_MODE_REWIND L).
Definition big_stat (m : string) : option (string * Statfs) :=
  Some (if m ==? "/cnpg-backup/work" then "8:16" else "8:32", mkStatfs XFS_SUPER_MAGIC 4096 (2 ^ 28) (2 ^ 28)).
Definition big_capacity : string := "[" +:+ join "," (map (fun m => object_of [text_of "mount" m; member_of "limitBytes" "1099511627776"; member_of "requiredBytes" "0"])
  ["/cnpg-backup/work"; "/var/lib/postgresql/data"]) +:+ "]".
Definition versioned_tool (tool : string) (args : list string) : res string :=
  if bool_decide (args = ["--version"]) then Ok (tool +:+ " (PostgreSQL) 18.6" +:+ String newline "") else small_tool tool args.
Definition backup_os : Prog.handler (E := os) memory := fun X e m =>
  match e in os X return X * memory -> X * memory with
  | Projected p _ => fun _ => (Ok (if HasSuffix p "/capacity.json" then big_capacity else projected_files p), m)
  | Tool _ tool args => fun _ => (versioned_tool tool args, m)
  | Open p => fun _ => (small_files p, m)
  | ReadDir _ => fun _ => (Ok [("backup_manifest", FRegular); ("base.tar", FRegular); ("pg_wal.tar", FRegular)], m)
  | ReadKernel => fun _ => (Capacity.mkKernel (Some small_mountinfo) Some big_stat, m)
  | MkdirTemp d p => fun _ => (Ok (within d p +:+ "1"), m)
  | _ => fun d => d
  end (demo_os X e m).
Definition backup_cn : Prog.handler (E := cn) memory := fun X e m =>
  match e in cn X return X * memory -> X * memory with
  | CnpgOps.Native e => fun _ => backup_os _ e m
  | _ => fun d => d
  end (demo_cn cnpg_service X e m).
Definition backup_call : cprog (cres BackupResult) := BackupService_Backup backup_libraries demo_chunks demo_unmarshal (Some demo_backup_request).
Definition backup_trace : ctrace := run_trace backup_cn backup_call demo_empty [].
Lemma backup_runs : runs backup_call [] backup_trace (run backup_cn backup_call demo_empty).1.
Proof. apply run_trace_runs. Qed.
Lemma backup_answer_verified_witness : exists r repo,
  (run backup_cn backup_call demo_empty).1 = Ok r /\ br_BeginWal r = "000000010000000000000002" /\ own_repository (cl_UID cnpg_cluster) repo backup_trace
  /\ describes backup_libraries repo demo_backup_uid backup_trace r.
Proof.
  pose proof backup_runs as Hr. destruct ((run backup_cn backup_call demo_empty).1) as [r|e] eqn:E.
  2: { exfalso. assert (is_err ((run backup_cn backup_call demo_empty).1) = false) as H by (vm_compute; reflexivity). rewrite E in H. discriminate H. }
  assert (br_BeginWal r = "000000010000000000000002") as Hb.
  { assert (match (run backup_cn backup_call demo_empty).1 with Ok r => br_BeginWal r | Err _ => "" end = "000000010000000000000002") as H by (vm_compute; reflexivity).
    rewrite E in H. exact H. }
  destruct (backup_answer_verified _ _ _ _ _ _ Hr) as (c & b & repo & Hp & Hd). exists r, repo. split; [reflexivity|]. split; [exact Hb|].
  assert (Ok (c, b) = Ok (cnpg_cluster, demo_backup) :> res _) as [= -> ->] by (rewrite <- Hp; vm_compute; reflexivity). exact Hd.
Defined.
