(* ===== verification/CnpgMetrics.v ===== *)
(** * What the manager remembers for its metrics (internal/cnpgi/backup_metrics.go, retention_metrics.go, recovery_metrics.go)

    Three maps under one mutex: backup series per Cluster and type, retention series per Cluster, restore series per target.  Each
    operation is one critical section, so it is a function on the maps; a scrape only reads them. *)

From S2P Require Import Prelude GoStrings GoTime Errors Configuration Catalog NativeText CnpgCluster CnpgRecovery.

Definition backupHistoryTTL : Z := 300 * second.
Definition forgetAfter : Z := 48 * hour_ns.
Definition series_limit : nat := 4096.

Record backupLabels := mkLabels { bl_Repository : string; bl_Namespace : string; bl_Cluster : string; bl_Type : string }.
#[export] Instance backupLabels_eq_dec : EqDecision backupLabels.
Proof. solve_decision. Defined.
#[export] Program Instance backupLabels_countable : Countable backupLabels :=
  inj_countable' (fun l => (bl_Repository l, bl_Namespace l, bl_Cluster l, bl_Type l)) (fun '(r, n, c, t) => mkLabels r n c t) _.
Next Obligation. by intros []. Qed.
Record backupSeries := mkSeries { bs_Failures : Z; bs_Success : Time; bs_Known : bool; bs_Checked : Time; bs_MaxAge : Z; bs_LastWarning : Time }.
Record retentionSeries := mkRetentionSeries {
  rs_Blocked : bool; rs_Admission : bool; rs_Observed : bool; rs_Holders : Z; rs_Checked : Time; rs_WorkspaceObserved : bool; rs_WorkspaceAvailable : bool }.
Abbreviation restoreLabels := (string * string)%type (only parsing).
Record restoreSeries := mkRestoreSeries { ts_State : string; ts_Known : bool; ts_LifetimeReleased : bool; ts_Checked : Time }.
Record backupMetrics := mkMetrics {
  mt_series : gmap backupLabels backupSeries; mt_retention : gmap backupLabels retentionSeries; mt_restore : gmap restoreLabels restoreSeries }.
Definition newBackupMetrics : backupMetrics := mkMetrics ∅ ∅ ∅.
Definition on_series (m : backupMetrics) (f : gmap backupLabels backupSeries -> gmap backupLabels backupSeries) : backupMetrics :=
  mkMetrics (f (mt_series m)) (mt_retention m) (mt_restore m).
Definition on_retention (m : backupMetrics) (f : gmap backupLabels retentionSeries -> gmap backupLabels retentionSeries) : backupMetrics :=
  mkMetrics (mt_series m) (f (mt_retention m)) (mt_restore m).
Definition on_restore (m : backupMetrics) (f : gmap restoreLabels restoreSeries -> gmap restoreLabels restoreSeries) : backupMetrics :=
  mkMetrics (mt_series m) (mt_retention m) (f (mt_restore m)).
Definition typed (l : backupLabels) (kind : string) : backupLabels := mkLabels (bl_Repository l) (bl_Namespace l) (bl_Cluster l) kind.
(** Reading a missing key of a Go map gives the zero value. *)
Definition no_series : backupSeries := mkSeries 0 zero_time false zero_time 0 zero_time.
Definition series_at (m : gmap backupLabels backupSeries) (l : backupLabels) : backupSeries := default no_series (m !! l).

(** ** Backup series *)
Section Series.
Context (ParseDuration : string -> option Z).
Definition set_age (base : backupLabels) (m : gmap backupLabels backupSeries) (v : string * string) : gmap backupLabels backupSeries :=
  let l := typed base v.1 in
  let s := series_at m l in
  <[l := mkSeries (bs_Failures s) (bs_Success s) (bs_Known s) (bs_Checked s) (default 0 (ParseDuration v.2)) (bs_LastWarning s)]> m.
Definition configure (base : backupLabels) (f : Freshness) (m : backupMetrics) : backupMetrics :=
  on_series m (fun s => foldl (set_age base) s [("full", fr_FullMaxAge f); ("differential", fr_DifferentialMaxAge f)]).
End Series.
Definition set_history (base : backupLabels) (h : option BackupHistory) (now : Time) (m : gmap backupLabels backupSeries) (kind : string)
    : gmap backupLabels backupSeries :=
  let l := typed base kind in
  let s := series_at m l in
  let success := match h with None => zero_time | Some h => if kind ==? "differential" then bh_Differential h else bh_Full h end in
  <[l := mkSeries (bs_Failures s) success (match h with Some _ => true | None => false end) now (bs_MaxAge s) (bs_LastWarning s)]> m.
(** [None]: the history could not be read. *)
Definition history (base : backupLabels) (h : option BackupHistory) (now : Time) (m : backupMetrics) : backupMetrics :=
  on_series m (fun s => foldl (set_history base h now) s ["full"; "differential"]).
Definition failure_warns (s : backupSeries) (now : Time) : bool := IsZero (bs_LastWarning s) || negb (Before now (bs_LastWarning s + 300 * second)).
Definition count_failure (l : backupLabels) (now : Time) (m : backupMetrics) : bool * backupMetrics :=
  let s := series_at (mt_series m) l in
  let warn := failure_warns s now in
  (warn, on_series m (fun n => <[l := mkSeries (wrap64 (bs_Failures s + 1)) (bs_Success s) (bs_Known s) (bs_Checked s) (bs_MaxAge s)
                                       (if warn then now else bs_LastWarning s)]> n)).

(** The Cluster's configuration could not be read: its counters stay, its success is unknown; the labels seen. *)
Definition of_cluster (ns cluster : string) (l : backupLabels) : bool := (bl_Namespace l ==? ns) && (bl_Cluster l ==? cluster).
Definition mark_unknown (ns cluster : string) (m : backupMetrics) : gset backupLabels * backupMetrics :=
  (list_to_set (map (fun kv => typed kv.1 "") (List.filter (fun kv => of_cluster ns cluster kv.1) (map_to_list (mt_series m)))),
   on_series m (map_imap (fun l s => Some (if of_cluster ns cluster l
     then mkSeries (bs_Failures s) (bs_Success s) false (bs_Checked s) (bs_MaxAge s) (bs_LastWarning s) else s)))).
(** After a whole LIST of a namespace: the series of Clusters that were not seen go. *)
Definition swept (ns : string) (seen : gset backupLabels) (l : backupLabels) : bool := (bl_Namespace l ==? ns) && negb (bool_decide (typed l "" ∈ seen)).
Definition sweep (ns : string) (seen : gset backupLabels) (m : backupMetrics) : backupMetrics :=
  on_series m (filter (fun kv => swept ns seen kv.1 = false)).

(** ** Retention and restore series *)
Definition unexpired {K} `{Countable K} {V} (checked : V -> Time) (now : Time) (m : gmap K V) : gmap K V :=
  filter (fun kv => Sub now (checked kv.2) <= forgetAfter) m.
(** The bounded cache of both maps: expired entries go, a new key needs room. *)
Definition remember {K} `{Countable K} {V} (checked : V -> Time) (now : Time) (k : K) (v : V) (m : gmap K V) : gmap K V :=
  let m := unexpired checked now m in
  if negb (bool_decide (is_Some (m !! k))) && (series_limit <=? size m)%nat then m else <[k := v]> m.
Definition retention (l : backupLabels) (blocked admission observed : bool) (holders : Z) (now : Time) (m : backupMetrics) : backupMetrics :=
  on_retention m (remember rs_Checked now (typed l "") (mkRetentionSeries blocked admission observed holders now false false)).
Definition retentionWorkspace (l : backupLabels) (observed available : bool) (m : backupMetrics) : backupMetrics :=
  on_retention m (fun n =>
    match n !! typed l "" with
    | None => n
    | Some s => <[typed l "" := mkRetentionSeries (rs_Blocked s) (rs_Admission s) (rs_Observed s) (rs_Holders s) (rs_Checked s) observed available]> n
    end).
Definition restore_labels (c : Cluster) : restoreLabels := (cl_Namespace c, cl_Name c).
(** [None]: the operation could not be read, [state] is the zero value. *)
Definition restore (c : Cluster) (state : option recoveryOperation) (known : bool) (now : Time) (m : backupMetrics) : backupMetrics :=
  on_restore m (remember ts_Checked now (restore_labels c)
    (mkRestoreSeries (from_option op_State "" state) known (from_option op_LifetimeReleased false state) now)).
Definition forgetRestore (c : Cluster) (m : backupMetrics) : backupMetrics := on_restore m (delete (restore_labels c)).

(** ** A scrape *)
(** A sample of the exposition: the series name, its labels in order, and the value; a duration is printed in seconds. *)
Inductive value := Count (n : Z) | Seconds (nanoseconds : Z).
Record sample := mkSample { sm_name : string; sm_labels : list (string * string); sm_value : value }.
Definition flag (b : bool) : value := Count (if b then 1 else 0).
Definition unix (t : Time) : Z := t / second.
Section Scrape.
(** [strconv.Quote], by which [text] orders the series, and the clock at the scrape. *)
Context (quote : string -> string) (now : Time).
Definition text (l : backupLabels) : string :=
  "repository_id=" +:+ quote (bl_Repository l) +:+ ",namespace=" +:+ quote (bl_Namespace l) +:+ ",cluster=" +:+ quote (bl_Cluster l)
  +:+ ",backup_type=" +:+ quote (bl_Type l).
Definition cluster_labels (l : backupLabels) : list (string * string) :=
  [("repository_id", bl_Repository l); ("namespace", bl_Namespace l); ("cluster", bl_Cluster l)].
Definition backup_sample (name : string) (l : backupLabels) (s : backupSeries) : list sample :=
  let known := bs_Known s && (Sub now (bs_Checked s) <=? backupHistoryTTL) in
  let one v := [mkSample name (cluster_labels l ++ [("backup_type", bl_Type l)]) v] in
  if name ==? "cnpg_backup_failures_total" then one (Count (bs_Failures s))
  else if name ==? "cnpg_backup_success_history_known" then one (flag known)
  else if name ==? "cnpg_backup_last_success_timestamp_seconds" then if known && negb (IsZero (bs_Success s)) then one (Count (unix (bs_Success s))) else []
  else if 0 <? bs_MaxAge s then one (Seconds (bs_MaxAge s)) else [].
Definition retention_sample (name : string) (l : backupLabels) (s : retentionSeries) : list sample :=
  if ((name ==? "cnpg_backup_repository_admission_blocked") || (name ==? "cnpg_backup_repository_holders")) && negb (rs_Observed s) then [] else
  if (name ==? "cnpg_backup_retention_workspace_available") && negb (rs_WorkspaceObserved s) then [] else
  [mkSample name (cluster_labels l)
     (if name ==? "cnpg_backup_retention_blocked" then flag (rs_Blocked s)
      else if name ==? "cnpg_backup_repository_admission_blocked" then flag (rs_Admission s)
      else if name ==? "cnpg_backup_retention_workspace_available" then flag (rs_WorkspaceAvailable s)
      else if name ==? "cnpg_backup_retention_checked_timestamp_seconds" then Count (unix (rs_Checked s))
      else Count (rs_Holders s))].
Definition restore_sample (name : string) (l : restoreLabels) (s : restoreSeries) : list sample :=
  let known := ts_Known s && (Sub now (ts_Checked s) <=? backupHistoryTTL) in
  if (name !=? "observation_known") && negb known then [] else
  [mkSample ("cnpg_backup_restore_" +:+ name) [("namespace", l.1); ("cluster", l.2)]
     (flag (if name ==? "observation_known" then known else if name ==? "active" then ts_State s ==? "active"
            else if name ==? "uncertain" then ts_State s ==? "uncertain" else (ts_State s ==? "completed") && negb (ts_LifetimeReleased s)))].
(** The series of one map in the order of their labels, metric by metric. *)
Definition exposed {K V} (before : K * V -> K * V -> bool) (write : string -> K -> V -> list sample) (names : list string) (l : list (K * V)) : list sample :=
  name ← names; kv ← sort_slice before l; write name kv.1 kv.2.
Definition by_text {V} (a b : backupLabels * V) : bool := String.ltb (text a.1) (text b.1).
Definition by_cluster {V} (a b : restoreLabels * V) : bool :=
  if a.1.1 !=? b.1.1 then String.ltb a.1.1 b.1.1 else String.ltb a.1.2 b.1.2.
Definition writeRetention (m : backupMetrics) : list sample :=
  exposed by_text retention_sample
    ["cnpg_backup_retention_blocked"; "cnpg_backup_repository_admission_blocked"; "cnpg_backup_repository_holders";
     "cnpg_backup_retention_workspace_available"; "cnpg_backup_retention_checked_timestamp_seconds"]
    (map_to_list (unexpired rs_Checked now (mt_retention m))).
Definition writeRestore (m : backupMetrics) : list sample :=
  exposed by_cluster restore_sample ["observation_known"; "active"; "uncertain"; "lifetime_release_pending"]
    (map_to_list (unexpired ts_Checked now (mt_restore m))).
(** [ServeHTTP]: the status and, for a GET of the metrics, the samples in order. *)
Definition ServeHTTP (path method : string) (m : backupMetrics) : Z * list sample :=
  if path !=? "/metrics" then (404, []) else if method !=? "GET" then (405, []) else
  (200, writeRetention m ++ writeRestore m ++
     exposed by_text backup_sample
       ["cnpg_backup_failures_total"; "cnpg_backup_success_history_known"; "cnpg_backup_last_success_timestamp_seconds";
        "cnpg_backup_freshness_max_age_seconds"] (map_to_list (mt_series m))).
End Scrape.

(** ** Sequences of operations *)
Inductive operation :=
| Configured (base : backupLabels) (f : Freshness)
| HistoryRead (base : backupLabels) (h : option BackupHistory) (now : Time)
| Failed (l : backupLabels) (now : Time)
| Unread (ns cluster : string)
| Swept (ns : string) (seen : gset backupLabels)
| Retained (l : backupLabels) (blocked admission observed : bool) (holders : Z) (now : Time)
| Reserved (l : backupLabels) (observed available : bool)
| Restored (c : Cluster) (state : option recoveryOperation) (known : bool) (now : Time)
| Forgotten (c : Cluster).
Section Operations.
Context (ParseDuration : string -> option Z).
Definition apply (m : backupMetrics) (o : operation) : backupMetrics :=
  match o with
  | Configured base f => configure ParseDuration base f m
  | HistoryRead base h now => history base h now m
  | Failed l now => (count_failure l now m).2
  | Unread ns cluster => (mark_unknown ns cluster m).2
  | Swept ns seen => sweep ns seen m
  | Retained l blocked admission observed holders now => retention l blocked admission observed holders now m
  | Reserved l observed available => retentionWorkspace l observed available m
  | Restored c state known now => restore c state known now m
  | Forgotten c => forgetRestore c m
  end.
Definition after (ops : list operation) : backupMetrics := foldl apply newBackupMetrics ops.

(** ** The caches are bounded *)
Lemma remember_size {K} `{Countable K} {V} (checked : V -> Time) now (k : K) (v : V) m :
  (size m <= series_limit)%nat -> (size (remember checked now k v m) <= series_limit)%nat.
Proof.
  intros Hm. unfold remember. set (m' := unexpired checked now m).
  assert (size m' <= size m)%nat as Hs by (apply map_subseteq_size, map_filter_subseteq).
  destruct (bool_decide _) eqn:Eb; cbn [negb andb].
  - apply bool_decide_eq_true in Eb as [s Hk]. rewrite map_size_insert_Some by done. lia.
  - destruct (series_limit <=? size m')%nat eqn:El; [lia|]. apply Nat.leb_gt in El.
    rewrite map_size_insert_None; [lia|]. apply bool_decide_eq_false in Eb. by apply eq_None_not_Some.
Qed.
Definition bounded (m : backupMetrics) : Prop := (size (mt_retention m) <= series_limit)%nat /\ (size (mt_restore m) <= series_limit)%nat.
Lemma apply_bounded m o : bounded m -> bounded (apply m o).
Proof.
  intros [H1 H2]. destruct o; try done; cbn [apply].
  - split; [by apply remember_size|done].
  - split; [|done]. unfold retentionWorkspace, on_retention. cbn [mt_retention]. destruct (mt_retention m !! typed l "") eqn:E; [|done].
    by rewrite map_size_insert_Some by done.
  - split; [done|by apply remember_size].
  - split; [done|]. unfold forgetRestore, on_restore. cbn [mt_restore]. etrans; [|exact H2]. apply map_subseteq_size, delete_subseteq.
Qed.
(** The diagnostic caches cannot grow without bound: whatever is reported, for however many Clusters and targets, each holds at most 4096 series. *)
Theorem caches_bounded ops : bounded (after ops).
Proof.
  unfold after. assert (bounded newBackupMetrics) as H by (split; cbn [newBackupMetrics mt_retention mt_restore]; rewrite map_size_empty; apply Nat.le_0_l).
  revert H. generalize newBackupMetrics. induction ops as [|o ops IH]; intros m Hm; [done|]. by apply IH, apply_bounded.
Qed.

(** ** What a scrape tells *)
Lemma series_insert (m : gmap backupLabels backupSeries) k v l : series_at (<[k := v]> m) l = if decide (k = l) then v else series_at m l.
Proof. unfold series_at. rewrite lookup_insert. by destruct (decide (k = l)). Qed.
Definition success_of (kind : string) (h : BackupHistory) : Time := if kind ==? "differential" then bh_Differential h else bh_Full h.
(** The success that a series shows was read, without an error, at the time it names. *)
Definition read_at (ops : list operation) (l : backupLabels) (s : backupSeries) : Prop :=
  exists base h, HistoryRead base (Some h) (bs_Checked s) ∈ ops /\ l = typed base (bl_Type l) /\ bl_Type l ∈ ["full"; "differential"]
    /\ bs_Success s = success_of (bl_Type l) h.
Definition reported (s : backupSeries) : bool * Time * Time := (bs_Known s, bs_Checked s, bs_Success s).
Lemma series_apply m o l : let s := series_at (mt_series m) l in let s' := series_at (mt_series (apply m o)) l in
  reported s' = reported s \/ bs_Known s' = false \/ read_at [o] l s'.
Proof.
  cbv zeta. destruct o as [base f|base h now|k now|ns cluster|ns seen| | | |]; try (by left); cbn [apply].
  - left. unfold configure, on_series. cbn [mt_series foldl]. unfold set_age. rewrite !series_insert.
    destruct (decide _) as [<-|]; [|destruct (decide _) as [<-|]; [|done]]; rewrite ?decide_False by done; done.
  - unfold history, on_series. cbn [mt_series foldl]. unfold set_history. rewrite !series_insert. destruct h as [h|].
    + destruct (decide _) as [<-|]; [|destruct (decide _) as [<-|]; [|by left]]; right; right; exists base, h; (split; [by apply list_elem_of_singleton|]); cbn;
        (split; [done|]); (split; [set_solver|done]).
    + destruct (decide _) as [<-|]; [|destruct (decide _) as [<-|]; [|by left]]; right; by left.
  - left. unfold count_failure, on_series. cbn [snd mt_series]. rewrite series_insert. by destruct (decide _) as [<-|].
  - unfold mark_unknown, on_series. cbn [snd mt_series]. unfold series_at. rewrite map_lookup_imap. destruct (mt_series m !! l) as [s|]; [|by left].
    cbn. destruct (of_cluster ns cluster l); [right|]; by left.
  - unfold sweep, on_series. cbn [mt_series]. unfold series_at. rewrite map_lookup_filter. destruct (mt_series m !! l) as [s|]; [|by left]. cbn.
    case_guard; [by left|right; by left].
Qed.
Lemma series_after ops l : bs_Known (series_at (mt_series (after ops)) l) = true -> read_at ops l (series_at (mt_series (after ops)) l).
Proof.
  unfold after. induction ops as [|o ops IH] using rev_ind; [done|]. rewrite foldl_app. cbn [foldl]. set (m := foldl apply newBackupMetrics ops) in *.
  destruct (series_apply m o l) as [E|[E|(base & h & H1 & H2)]]; [|congruence|].
  - unfold reported in E. injection E as E1 E2 E3. rewrite E1. intros Hk. destruct (IH Hk) as (base & h & H1 & H2 & H3 & H4). exists base, h.
    rewrite E2, E3. split; [|done]. apply elem_of_app. by left.
  - intros _. exists base, h. split; [|done]. apply elem_of_app. by right.
Qed.
(** A restore series is the last report of its target. *)
Definition report (state : option recoveryOperation) (known : bool) (now : Time) : restoreSeries :=
  mkRestoreSeries (from_option op_State "" state) known (from_option op_LifetimeReleased false state) now.
Lemma remember_lookup {K} `{Countable K} {V} (checked : V -> Time) now (k : K) (v : V) m l x :
  remember checked now k v m !! l = Some x -> m !! l = Some x \/ (l = k /\ x = v).
Proof.
  assert (forall y, unexpired checked now m !! l = Some y -> m !! l = Some y) as Hu by (intros y Hy; by apply map_lookup_filter_Some in Hy as [??]).
  unfold remember. destruct (_ && _); [auto|]. rewrite lookup_insert. destruct (decide (k = l)) as [<-|]; [|auto]. intros [= <-]. by right.
Qed.
Lemma restore_after ops l s : mt_restore (after ops) !! l = Some s ->
  exists c state known now, Restored c state known now ∈ ops /\ restore_labels c = l /\ s = report state known now.
Proof.
  unfold after. induction ops as [|o ops IH] using rev_ind; [done|]. rewrite foldl_app. cbn [foldl]. set (m := foldl apply newBackupMetrics ops) in *.
  assert (mt_restore m !! l = Some s -> exists c state known now, Restored c state known now ∈ ops ++ [o] /\ restore_labels c = l /\ s = report state known now) as Hold.
  { intros Hs. destruct (IH Hs) as (c & st & kn & n & Hin & H). exists c, st, kn, n. split; [|done]. apply elem_of_app. by left. }
  destruct o as [| | | | | | |c state known now|c]; try exact Hold; cbn [apply].
  - intros Hs. apply remember_lookup in Hs as [Hs|[-> ->]]; [auto|]. exists c, state, known, now. split; [|done]. apply elem_of_app. right. by left.
  - unfold forgetRestore, on_restore. cbn [mt_restore]. intros Hs. apply lookup_delete_Some in Hs as [_ Hs]. auto.
Qed.
Lemma elem_of_exposed {K V} before (write : string -> K -> V -> list sample) names l s :
  s ∈ exposed before write names l <-> exists name k v, name ∈ names /\ (k, v) ∈ l /\ s ∈ write name k v.
Proof.
  unfold exposed. rewrite list_elem_of_bind. setoid_rewrite list_elem_of_bind. split.
  - intros (name & ((k & v) & Hs & Hkv) & Hn). exists name, k, v. split; [done|]. split; [by apply elem_of_sort_slice in Hkv|done].
  - intros (name & k & v & Hn & Hkv & Hs). exists name. split; [|done]. exists (k, v). split; [done|]. by apply elem_of_sort_slice.
Qed.
Definition restore_flag (name : string) (s : restoreSeries) : bool :=
  if name ==? "active" then ts_State s ==? "active" else if name ==? "uncertain" then ts_State s ==? "uncertain"
  else (ts_State s ==? "completed") && negb (ts_LifetimeReleased s).
Definition truthful (ops : list operation) (now : Time) (s : sample) : Prop :=
  (sm_name s = "cnpg_backup_last_success_timestamp_seconds" -> exists base kind h t, HistoryRead base (Some h) t ∈ ops /\ Sub now t <= backupHistoryTTL
     /\ kind ∈ ["full"; "differential"] /\ sm_labels s = cluster_labels base ++ [("backup_type", kind)] /\ sm_value s = Count (unix (success_of kind h)))
  /\ (forall name, name ∈ ["active"; "uncertain"; "lifetime_release_pending"] -> sm_name s = "cnpg_backup_restore_" +:+ name ->
     exists c state t, Restored c state true t ∈ ops /\ Sub now t <= backupHistoryTTL
     /\ sm_labels s = [("namespace", cl_Namespace c); ("cluster", cl_Name c)] /\ sm_value s = flag (restore_flag name (report state true t))).
Definition retention_names : list string :=
  ["cnpg_backup_retention_blocked"; "cnpg_backup_repository_admission_blocked"; "cnpg_backup_repository_holders";
   "cnpg_backup_retention_workspace_available"; "cnpg_backup_retention_checked_timestamp_seconds"].
Lemma retention_truthful ops now k v name s : name ∈ retention_names -> s ∈ retention_sample name k v -> truthful ops now s.
Proof.
  intros Hn Hs. assert (sm_name s = name) as <-.
  { unfold retention_sample in Hs. destruct (_ && _); [by apply elem_of_nil in Hs|]. destruct (_ && _); [by apply elem_of_nil in Hs|].
    by apply list_elem_of_singleton in Hs as ->. }
  clear Hs. unfold retention_names in Hn. split; [intros E|intros n Hn' E]; exfalso; rewrite E in Hn; clear E; set_solver.
Qed.
Lemma restore_truthful ops now k v name s : name ∈ ["observation_known"; "active"; "uncertain"; "lifetime_release_pending"] ->
  mt_restore (after ops) !! k = Some v -> s ∈ restore_sample now name k v -> truthful ops now s.
Proof.
  intros Hn Hv Hs. unfold restore_sample in Hs. set (known := ts_Known v && (Sub now (ts_Checked v) <=? backupHistoryTTL)) in Hs.
  destruct ((name !=? "observation_known") && negb known) eqn:Ek; [by apply elem_of_nil in Hs|].
  apply list_elem_of_singleton in Hs as ->. split; cbn [sm_name sm_labels sm_value].
  - intros E. exfalso. set_solver.
  - intros n Hn' E. assert (name = n) as -> by (by simplify_eq). 
    destruct (n ==? "observation_known") eqn:Eo; [apply bool_decide_eq_true in Eo; subst; set_solver|]. cbn [negb andb] in Ek.
    apply negb_false_iff in Ek. subst known. apply andb_true_iff in Ek as [Ek1 Ek2]. apply Z.leb_le in Ek2.
    destruct (restore_after _ _ _ Hv) as (c & st & kn & t & Hin & <- & ->). cbn in Ek1. subst kn. exists c, st, t. cbn in Ek2. split; [done|]. split; [done|]. split; [done|].
    done.
Qed.
Lemma backup_truthful ops now k v name s : 
  name ∈ ["cnpg_backup_failures_total"; "cnpg_backup_success_history_known"; "cnpg_backup_last_success_timestamp_seconds"; "cnpg_backup_freshness_max_age_seconds"] ->
  mt_series (after ops) !! k = Some v -> s ∈ backup_sample now name k v -> truthful ops now s.
Proof.
  intros Hn Hv Hs. pose proof (series_after ops k) as Hr. unfold series_at in Hr. rewrite Hv in Hr. cbn [default] in Hr.
  assert (sm_name s = name) as E by (unfold backup_sample in Hs; repeat (case_match; try (by apply elem_of_nil in Hs)); by apply list_elem_of_singleton in Hs as ->).
  subst name. split; [intros E|intros n Hn' E; exfalso; rewrite E in Hn; clear E Hs; set_solver].
  rewrite E in Hs. unfold backup_sample in Hs. cbn in Hs. destruct (bs_Known v) eqn:Ek; [|by apply elem_of_nil in Hs]. cbn [andb] in Hs.
  destruct (Sub now (bs_Checked v) <=? backupHistoryTTL) eqn:Et; [|by apply elem_of_nil in Hs]. apply Z.leb_le in Et. cbn [andb] in Hs.
  destruct (IsZero (bs_Success v)); [by apply elem_of_nil in Hs|]. apply list_elem_of_singleton in Hs as ->.
  destruct (Hr Ek) as (base & h & H1 & H2 & H3 & H4). exists base, (bl_Type k), h, (bs_Checked v). split; [done|]. split; [done|]. split; [done|].
  cbn in H4 |- *. rewrite H4, H2. done.
Qed.
(** C37: A scrape never passes off old or unread state.  A last-success sample names the newest publication of a history that was read without
    an error within the last five minutes, for exactly this Cluster and type; a restore sample shows the state of an operation that was
    read and recognized within the last five minutes.  Everything older or unread is left out. *)
Theorem scrape_truthful quote ops now path method s :
  s ∈ (ServeHTTP quote now path method (after ops)).2 -> truthful ops now s.
Proof.
  unfold ServeHTTP. destruct (path !=? "/metrics"); [by intros ?%elem_of_nil|]. destruct (method !=? "GET"); [by intros ?%elem_of_nil|].
  cbn [snd]. rewrite !elem_of_app. unfold writeRetention, writeRestore. rewrite !elem_of_exposed.
  intros [(name & k & v & Hn & _ & Hs)|[(name & k & v & Hn & Hv & Hs)|(name & k & v & Hn & Hv & Hs)]].
  - by eapply retention_truthful.
  - apply elem_of_map_to_list, map_lookup_filter_Some in Hv as [Hv _]. by eapply restore_truthful.
  - apply elem_of_map_to_list in Hv. by eapply backup_truthful.
Qed.

(** ** Warnings *)
(** The time of the last warning moves only by a failure that warns, and is lost only when the series is swept. *)
Definition kept (l : backupLabels) (o : operation) : bool := match o with Swept ns seen => negb (swept ns seen l) | _ => true end.
Definition warning (l : backupLabels) (m : backupMetrics) : Time := bs_LastWarning (series_at (mt_series m) l).
Lemma warning_apply m o l : kept l o = true ->
  warning l (apply m o) = warning l m \/ exists now, o = Failed l now /\ failure_warns (series_at (mt_series m) l) now = true /\ warning l (apply m o) = now.
Proof.
  unfold warning. destruct o as [base f|base h now|k now|ns cluster|ns seen| | | |]; try (by left); cbn [apply kept]; intros Hk.
  - left. unfold configure, on_series. cbn [mt_series foldl]. unfold set_age. rewrite !series_insert.
    destruct (decide _) as [<-|]; [|destruct (decide _) as [<-|]; [|done]]; rewrite ?decide_False by done; done.
  - left. unfold history, on_series. cbn [mt_series foldl]. unfold set_history. rewrite !series_insert.
    destruct (decide _) as [<-|]; [|destruct (decide _) as [<-|]; [|done]]; rewrite ?decide_False by done; done.
  - unfold count_failure, on_series. cbn [snd mt_series]. rewrite series_insert. destruct (decide _) as [<-|]; [|by left]. cbn [bs_LastWarning].
    destruct (failure_warns _ now) eqn:E; [|by left]. right. exists now. by rewrite E.
  - left. unfold mark_unknown, on_series. cbn [snd mt_series]. unfold series_at. rewrite map_lookup_imap. destruct (mt_series m !! l) as [s|]; [|done].
    cbn. by destruct (of_cluster ns cluster l).
  - left. unfold sweep, on_series. cbn [mt_series]. unfold series_at. rewrite map_lookup_filter. destruct (mt_series m !! l) as [s|]; [|done]. cbn.
    apply negb_true_iff in Hk. by rewrite option_guard_True.
Qed.
Lemma warning_later m ops l t : zero_time < t -> t <= warning l m -> Forall (fun o => kept l o = true) ops -> t <= warning l (foldl apply m ops).
Proof.
  intros Ht. revert m. induction ops as [|o ops IH]; intros m Hm Hk; [done|]. apply Forall_cons in Hk as [Ho Hk]. cbn [foldl]. apply IH; [|done].
  destruct (warning_apply m o l Ho) as [->|(now & _ & Hw & ->)]; [done|]. unfold failure_warns in Hw. fold (warning l m) in Hw.
  apply orb_true_iff in Hw as [Hz|Hb]; [unfold IsZero in Hz; lia|]. apply negb_true_iff in Hb. unfold Before, second in *. lia.
Qed.
(** Two warnings about one series are at least five minutes apart, whatever else happens in between and in whatever order of the clock, as long
    as the Cluster stays listed. *)
Theorem warnings_spaced m l t1 t2 ops :
  zero_time < t1 -> (count_failure l t1 m).1 = true -> Forall (fun o => kept l o = true) ops ->
  (count_failure l t2 (foldl apply (apply m (Failed l t1)) ops)).1 = true -> t1 + 300 * second <= t2.
Proof.
  intros Ht H1 Hk H2. set (m' := foldl apply (apply m (Failed l t1)) ops) in *.
  assert (t1 <= warning l m') as Hw.
  { apply warning_later; [done| |done]. unfold warning. cbn [apply]. unfold count_failure, on_series in *. cbn [fst snd mt_series] in *.
    rewrite H1, series_insert, decide_True by done. cbn. lia. }
  unfold count_failure in H2. cbn [fst] in H2. unfold failure_warns in H2. fold (warning l m') in H2.
  apply orb_true_iff in H2 as [Hz|Hb]; [unfold IsZero in Hz; lia|]. apply negb_true_iff in Hb. unfold Before in Hb. lia.
Qed.
End Operations.

(** ** A concrete scrape: two histories read, and an operation whose target is watched. *)
Definition metrics_base : backupLabels := mkLabels "repo" "db" "main" "".
Definition metrics_now : Time := 1700000000 * second.
Definition metrics_ops : list operation :=
  [HistoryRead metrics_base (Some (mkBackupHistory (metrics_now - 3600 * second) zero_time)) (metrics_now - 60 * second); Failed (typed metrics_base "full") metrics_now].
Definition metrics_sample : sample :=
  mkSample "cnpg_backup_last_success_timestamp_seconds" (cluster_labels metrics_base ++ [("backup_type", "full")]) (Count 1699996400).
Lemma scrape_truthful_witness : metrics_sample ∈ (ServeHTTP id metrics_now "/metrics" "GET" (after (fun _ => None) metrics_ops)).2
  /\ exists base kind h t, HistoryRead base (Some h) t ∈ metrics_ops /\ Sub metrics_now t <= backupHistoryTTL
     /\ kind ∈ ["full"; "differential"] /\ sm_labels metrics_sample = cluster_labels base ++ [("backup_type", kind)] /\ sm_value metrics_sample = Count (unix (success_of kind h)).
Proof.
  assert (H : metrics_sample ∈ (ServeHTTP id metrics_now "/metrics" "GET" (after (fun _ => None) metrics_ops)).2).
  { apply (list_elem_of_lookup_2 _ 4). vm_compute. reflexivity. }
  split; [exact H|]. exact (proj1 (scrape_truthful (fun _ => None) id metrics_ops metrics_now "/metrics" "GET" metrics_sample H) eq_refl).
Defined.
