(* ===== verification/CnpgManager.v ===== *)
(** * The manager's loops (internal/cnpgi/backup_history.go, status.go, retention.go, retention_workspace.go, version.go)

    Beside the coordinator of recoveries the manager keeps the status of every Repository, reads the publication history of every
    Cluster and runs its retention, one object per tick.  A loop lists with a cursor; what it does with an object never stops it. *)

From S2P Require Import Prelude GoStrings GoTime Sha256 Errors Schema Json LooseJson Prog ProgRules Store GuardConfig Gate Repository RecoveryPlan Catalog Lifecycle WalArchive.
From S2P Require Import Retention RetentionRun S3Config Configuration Capacity NativeOps NativeText ConfigSnapshot CnpgCluster CnpgOps CnpgWal CnpgKube CnpgRecovery CnpgMetrics.

(** ** The status of a Repository *)
Record Condition := mkCondition {
  cd_Type : string; cd_Status : string; cd_ObservedGeneration : Z; cd_Reason : string; cd_Message : string; cd_LastTransitionTime : Time }.
Record retentionStatus := mkRetentionStatus {
  rn_CheckedAt : Time; rn_NextRun : Time; rn_ConfigurationHash : string; rn_OperationID : string; rn_Planned : Z; rn_DryRun : bool;
  rn_LastWarningTime : option Time }.
Record repositoryStatus := mkRepositoryStatus {
  rp_Retention : option retentionStatus; rp_ObservedGeneration : Z; rp_ConfigurationHash : string; rp_Conditions : list Condition;
  rp_LastWarningTime : option Time }.
#[export] Instance Condition_eq_dec : EqDecision Condition.
Proof. solve_decision. Defined.
#[export] Instance retentionStatus_eq_dec : EqDecision retentionStatus.
Proof. solve_decision. Defined.
#[export] Instance repositoryStatus_eq_dec : EqDecision repositoryStatus.
Proof. solve_decision. Defined.

(** ** The calls of the manager *)
Record backupObject := mkBackup {
  bk_UID : string; bk_Name : string; bk_Namespace : string; bk_ResourceVersion : string; bk_fields : gmap (list string) string }.
Record backupObservation := mkObservation { bo_Object : backupObject; bo_SeenFailure : bool; bo_Pending : bool }.
Abbreviation observations := (gmap string backupObservation).

Inductive mg : Type -> Type :=
| Kube {X : Type} (e : kube X) : mg X
(** one critical section of the metrics, of the observer *)
| Metrics {X : Type} (f : backupMetrics -> X * backupMetrics) : mg X
| Observed {X : Type} (f : observations -> X * observations) : mg X
| Failure (l : backupLabels) (now : Time) : mg bool
(** a LIST of one object; an expired cursor may come with its replacement *)
| ListOne (kind namespace cursor : string) : mg (result (option string) (list Object * string))
(** a merge patch of the status, under a resource version *)
| PatchStatus (namespace name version : string) (s : repositoryStatus) : mg (option kerror)
(** the deadline of the pass has gone by *)
| PassOver : mg bool.
Abbreviation mprog := (Prog.prog mg).
Abbreviation mtrace := (list (Prog.action mg)).
Fixpoint kubed {A} (p : kprog A) : mprog A :=
  match p with Ret a => Ret a | Vis e k => Vis (Kube e) (fun x => kubed (k x)) end.
Definition metric (f : backupMetrics -> backupMetrics) : mprog () := call (Metrics (fun m => (tt, f m))).
Definition clock : mprog Time := kubed (host now).
(** A warning event, reduced to what varies. *)
Definition warning_event (namespace name uid reason message : string) : Object :=
  mkObj "" "" "" None false ∅ {["reason" := reason; "message" := message; "name" := name; "uid" := uid]} false "" namespace 0 "".

(** ** Loops *)
(** A loop stops with its context; [fuel] bounds the passes looked at. *)
Definition tick : mprog bool := call (Kube KTick).
Fixpoint rounds {St} (fuel : nat) (pass : St -> mprog St) (s : St) : mprog () :=
  match fuel with
  | O => Ret ()
  | S fuel => let! s := pass s in let! more := tick in if more then rounds fuel pass s else Ret ()
  end.
Record cursor := mkCursor { cr_namespace : nat; cr_continue : string }.
(** [if continuation == "" { namespace = (namespace + 1) % len(a.Namespaces) }] *)
Definition advance (namespaces : list string) (n : nat) (continuation : string) : cursor :=
  mkCursor (if continuation ==? "" then ((n + 1) mod length namespaces)%nat else n) continuation.

Inductive config_error := Unconfigured | Unusable.
(** The error of the retention batch, reduced to what the caller distinguishes. *)
Record retentionObservation := mkObserved {
  ro_result : RetentionRun.Result; ro_holders : Z; ro_admissionBlocked : bool; ro_gateObserved : bool; ro_workspaceObserved : bool;
  ro_workspaceAvailable : bool }.
Definition no_observation : retentionObservation := mkObserved empty_result 0 false false false false.

Definition retentionWorkspacePath : string := "/cnpg-backup/retention".
Definition retentionMountBytes : Z := 512 * 2 ^ 20.
Definition GCWorkspaceBytes : Z := 384 * 2 ^ 20.
(** One visited entry: how many, and the bytes they take. *)
Definition workspace_visit (acc : Z * Z) (e : option walk_entry) : res (Z * Z) :=
  match e with
  | None => Err ErrOther
  | Some e =>
      let entries := acc.1 + 1 in
      if 1024 <? entries then Err ErrCapacity else
      if (we_kind e !=? FDir) && (we_kind e !=? FRegular) then Err ErrInvalid else
      let used := acc.2 + (we_size e + 8192) in
      if retentionMountBytes - GCWorkspaceBytes <? used then Err ErrCapacity else Ok (entries, used)
  end.
Definition newRetentionWorkspace (root : string) : oprog (res string) :=
  let! k := call ReadKernel in
  match k_stat k root with
  | None => fail ErrOther
  | Some (_, st) =>
      if (sf_Bsize st <=? 0) || (sf_Bavail st <? GCWorkspaceBytes / sf_Bsize st + 1) then fail ErrCapacity else
      let! entries := call (WalkDir root) in
      match forM entries (0, 0) workspace_visit with
      | Err e => fail e
      | Ok _ => call (MkdirTemp root "batch-")
      end
  end.

Section Manager.
Context (L : Libraries) (base64 : string -> option string) (spec_hash : Spec -> string) (a : API).
(** [NestedSlice] of [spec.plugins]: per entry that is a map, the name and the repository parameter. *)
Context (plugins_of : string -> list (option (string * string))).
Context (decode_status : string -> option repositoryStatus) (object_text : Object -> string).
(** [meta.SetStatusCondition] and [meta.FindStatusCondition] *)
Context (set_condition : Condition -> list Condition -> list Condition) (has_condition : string -> list Condition -> bool).
Context (o : order).
Let decode_spec := DecodeSpec (lb_ParseDuration L) (lb_Parse L) (lb_Hostname L) (lb_IsDNS1123Subdomain L) (lb_IsConfigMapKey L) (lb_ParseQuantity L)
  (lb_into_resources L).
Abbreviation get := (Get a).

(** ** Which Repository a Cluster uses *)
Definition plugin_entry (acc : bool * string) (p : option (string * string)) : result config_error (bool * string) :=
  match p with
  | Some (name, repository) => if name ==? PluginName then if acc.1 then Err Unusable else Ok (true, repository) else Ok acc
  | None => Ok acc
  end.
Definition backupRepositoryName (c : Object) : result config_error string :=
  match forM (plugins_of (ob_spec c)) (false, "") plugin_entry with
  | Err e => Err e
  | Ok (_, name) => if name ==? "" then Err Unconfigured else Ok name
  end.
Definition backupConfiguration (c : Object) : kprog (result config_error (backupLabels * Spec)) :=
  match backupRepositoryName c with
  | Err e => Ret (Err e)
  | Ok name =>
      let! object := get "repositories" (ob_Namespace c) name in
      Ret (match object with
           | Err _ => Err Unusable
           | Ok object =>
               match decode_spec (ob_spec object) with
               | Err _ => Err Unusable
               | Ok spec => Ok (mkLabels (sp_RepositoryID spec) (ob_Namespace c) (ob_Name c) "", spec)
               end
           end)
  end.

(** ** History *)
Definition readBackupHistory (namespace writerUID : string) (spec : Spec) : kprog (res BackupHistory) :=
  let* snap := repositorySnapshot L base64 a namespace spec in
  Ret (open_store L snap) ;;*
  host (remote (ReadBackupHistory (sp_RepositoryID spec) writerUID)).
Definition to_option {E A} (r : result E A) : option A := match r with Ok a => Some a | Err _ => None end.
Definition reconcileBackupHistory (c : Object) : mprog (result config_error backupLabels) :=
  let! conf := kubed (backupConfiguration c) in
  match conf with
  | Err e => Ret (Err e)
  | Ok (labels, spec) =>
      let! _ := metric (configure (lb_ParseDuration L) labels (sp_BackupFreshness spec)) in
      let! h := kubed (readBackupHistory (ob_Namespace c) (ob_UID c) spec) in
      let! now := clock in
      let! _ := metric (history labels (to_option h) now) in
      Ret (Ok labels)
  end.
(** One listed Cluster: the labels seen so far. *)
Definition history_item (ns : string) (seen : gset backupLabels) (c : Object) : mprog (gset backupLabels) :=
  let! r := reconcileBackupHistory c in
  match r with
  | Ok labels => Ret ({[labels]} ∪ seen)
  | Err Unconfigured => Ret seen
  | Err Unusable => let! marked := call (Metrics (mark_unknown ns (ob_Name c))) in Ret (marked ∪ seen)
  end.
Fixpoint history_items (ns : string) (seen : gset backupLabels) (items : list Object) : mprog (gset backupLabels) :=
  match items with [] => Ret seen | c :: items => let! seen := history_item ns seen c in history_items ns seen items end.
Definition namespace_at (n : nat) : string := nth n (api_Namespaces a) "".
Definition history_pass (s : cursor * gset backupLabels) : mprog (cursor * gset backupLabels) :=
  let '(cr, seen) := s in
  let ns := namespace_at (cr_namespace cr) in
  let! l := call (ListOne "clusters" ns (cr_continue cr)) in
  let! (seen, continuation) := match l with
                               | Err _ => Ret (seen, "")
                               | Ok (items, continuation) =>
                                   let! seen := history_items ns seen items in
                                   let! _ := (if continuation ==? "" then metric (sweep ns seen) else Ret ()) in
                                   Ret (seen, continuation)
                               end in
  Ret (advance (api_Namespaces a) (cr_namespace cr) continuation, if continuation ==? "" then ∅ else seen).
Definition runBackupHistory (fuel : nat) : mprog () :=
  if (length (api_Namespaces a) =? 0)%nat then Ret () else rounds fuel history_pass (mkCursor 0 "", ∅).

(** ** Status of a Repository *)
Definition condition (kind status reason message : string) (generation : Z) (now : Time) : Condition := mkCondition kind status generation reason message now.
Definition truth (b : bool) : string := if b then "True" else "False".
Definition valid_message : string := "Repository configuration is valid. Storage and capacity checks run with each operation.".
Definition invalid_message : string := "Repository configuration or referenced credentials/trust are invalid or unavailable; new operations are rejected.".
Definition due_again (last : option Time) (now : Time) : bool := match last with None => true | Some t => negb (Before now (t + 300 * second)) end.
Definition next_status (object : Object) (previous : repositoryStatus) (spec : option Spec) (now : Time) : repositoryStatus :=
  let valid := match spec with Some _ => true | None => false end in
  let reason := if valid then "ConfigurationValid" else "ConfigurationInvalid" in
  let message := if valid then valid_message else invalid_message in
  let generation := ob_Generation object in
  let conditions := set_condition (condition "Invalid" (truth (negb valid)) reason message generation now)
                      (set_condition (condition "Ready" (truth valid) reason message generation now) (rp_Conditions previous)) in
  let conditions := if has_condition "RetentionBlocked" conditions then conditions
                    else set_condition (condition "RetentionBlocked" "Unknown" "NotObserved" "Retention has not been observed." generation now) conditions in
  mkRepositoryStatus (rp_Retention previous) generation (from_option spec_hash "" spec) conditions
    (if negb valid && due_again (rp_LastWarningTime previous) now then Some now else rp_LastWarningTime previous).
Definition ReconcileRepositoryStatus (object : Object) (now : Time) : mprog (res ()) :=
  match decode_status (ob_status object) with
  | None => fail ErrOther
  | Some previous =>
      let! spec := kubed (API_Repository L base64 a (ob_Namespace object) (ob_Name object)) in
      let next := next_status object previous (to_option spec) now in
      if previous ==? next then done () else
      let! refused := call (PatchStatus (ob_Namespace object) (ob_Name object) (ob_ResourceVersion object) next) in
      match refused with
      | Some _ => fail ErrOther
      | None =>
          if is_err spec && due_again (rp_LastWarningTime previous) now then
            let! e := kubed (call (KCreate "events" (ob_Namespace object) (warning_event (ob_Namespace object) (ob_Name object) (ob_UID object)
                                "ConfigurationInvalid" "Repository configuration or referenced credentials/trust are invalid or unavailable."))) in
            match e with Ok _ => done () | Err _ => fail ErrOther end
          else done ()
      end
  end.
Definition pass_over : mprog bool := call PassOver.
Fixpoint status_items (items : list Object) : mprog () :=
  match items with
  | [] => Ret ()
  | r :: items =>
      let! over := pass_over in
      if over then Ret () else
      let! now := clock in
      let! _ := ReconcileRepositoryStatus r now in
      status_items items
  end.
Definition status_pass (cr : cursor) : mprog cursor :=
  let! l := call (ListOne "repositories" (namespace_at (cr_namespace cr)) (cr_continue cr)) in
  match l with
  | Err expired => Ret (advance (api_Namespaces a) (cr_namespace cr) (default "" expired))
  | Ok (items, continuation) => let! _ := status_items items in Ret (advance (api_Namespaces a) (cr_namespace cr) continuation)
  end.
Definition RunRepositoryStatus (fuel : nat) : mprog () :=
  if (length (api_Namespaces a) =? 0)%nat then Ret () else rounds fuel status_pass (mkCursor 0 "").

(** ** Retention *)
Definition run_options (s : Spec) : Options :=
  let r := sp_Retention s in
  mkOptions (rt_Enabled r) (rt_DryRun r) (default 0 (lb_ParseDuration L (rt_Window r))) (rt_MinimumFulls r) None.
(** After the run: what the gate shows, when it can be read. *)
Definition with_gate (w : retentionObservation) (g : res Gate) : retentionObservation :=
  match g with
  | Err _ => w
  | Ok g =>
      let r := ro_result w in
      mkObserved (match g_Owner g with Some owner => mkRunResult (re_Decision r) (re_Planned r) (re_Executed r) (ow_OperationID owner) | None => r end)
        (Z.of_nat (length (holders_of g))) (match g_Owner g with Some _ => true | None => false end) true (ro_workspaceObserved w) (ro_workspaceAvailable w)
  end.
Definition in_workspace (dir writer : string) (spec : Spec) (now : Time) : oprog (retentionObservation * bool) :=
  let seen := mkObserved empty_result 0 false false true true in
  let! r := remote (Lifecycle.OpenSource (sp_RepositoryID spec) dir) in
  match r with
  | Err _ => Ret (seen, true)
  | Ok r =>
      if id_WriterClusterUID (r_id r) !=? writer then Ret (seen, true) else
      let! (result, errs, _) := remote (Run (lb_gunzip L) (lb_gzip_header L) r (sp_Compression spec) o zero_time now (run_options spec)) in
      let! gate := remote (readGate r) in
      Ret (with_gate (mkObserved result 0 false false true true) (match gate with Ok (g, _) => Ok g | Err e => Err e end),
           match errs with [] => false | _ => true end)
  end.
(** The observation, and whether there was an error. *)
Definition retentionBatch (namespace writer : string) (spec : Spec) (now : Time) : kprog (retentionObservation * bool) :=
  let! snap := repositorySnapshot L base64 a namespace spec in
  match snap with
  | Err _ => Ret (no_observation, true)
  | Ok snap =>
      if is_err (open_store L snap) then Ret (no_observation, true) else
      let! dir := host (newRetentionWorkspace retentionWorkspacePath) in
      match dir with
      | Err e => Ret (mkObserved empty_result 0 false false (e ==? ErrCapacity) false, true)
      | Ok dir =>
          let! x := host (in_workspace dir writer spec now) in
          let! _ := host (fs (RemoveAll dir)) in
          Ret x
      end
  end.
Definition retention_message (spec : Spec) (r : RetentionRun.Result) : string * string :=
  let base := if rt_DryRun (sp_Retention spec) then ("DryRun", "Dry run completed without deleting data.") else ("BatchComplete", "Retention batch completed.") in
  if d_Shortened (re_Decision r) then
    (base.1, base.2 +:+ (if d_Current (re_Decision r) =? 0
       then " No usable backups; recovery window is unavailable. Only proven orphan cleanup is eligible; WAL is untouched."
       else " No usable pre-cutoff anchor; recovery window is shortened."))
  else base.
Definition blocked_text : string * string :=
  ("RetentionBlocked", "Deletion stopped because admission, metadata, recovery coverage, or a storage result is uncertain.").
Definition retention_conditions (object : Object) (text : string * string) (blocked : bool) (w : retentionObservation) (now : Time) (l : list Condition) : list Condition :=
  let set kind status reason message l := set_condition (condition kind status reason message (ob_Generation object) now) l in
  let l := set "RetentionBlocked" (truth blocked) text.1 text.2 l in
  let l := if ro_gateObserved w
           then set "RepositoryAdmissionBlocked" (truth (ro_admissionBlocked w)) "GateObservation"
                  "A GC owner blocks new backups and restores until its destructive requests have drained." l
           else set "RepositoryAdmissionBlocked" "Unknown" "GateUnobserved" "Repository gate has not been observed." l in
  let workspace := if ro_workspaceObserved w then if ro_workspaceAvailable w then ("True", "ReservationPassed") else ("False", "CapacityUnavailable")
                   else ("Unknown", "NotObserved") in
  set "RetentionWorkspaceAvailable" workspace.1 workspace.2 "Result of the last retention workspace reservation." l.
(** The Repository again, with its version, unless its configuration changed since the first read. *)
Definition retention_object (c : Object) (spec : Spec) : kprog (res Object) :=
  match backupRepositoryName c with
  | Err _ => fail ErrOther
  | Ok name =>
      let! object := get "repositories" (ob_Namespace c) name in
      Ret (match object with
           | Err _ => Err ErrOther
           | Ok object =>
               match decode_spec (ob_spec object) with
               | Err _ => Err ErrOther
               | Ok current => if spec_hash current !=? spec_hash spec then Err ErrOther else Ok object
               end
           end)
  end.
Definition retention_due (spec : Spec) (state : repositoryStatus) (now : Time) : bool :=
  match rp_Retention state with
  | Some r => negb ((rn_ConfigurationHash r ==? spec_hash spec) && Before now (rn_NextRun r))
  | None => true
  end.
Definition reconcileRetention (c : Object) (now : Time) : mprog (res ()) :=
  let! conf := kubed (backupConfiguration c) in
  match conf with
  | Err _ => fail ErrOther
  | Ok (labels, spec) =>
      let* object := kubed (retention_object c spec) in
      match decode_status (ob_status object) with
      | None => fail ErrOther
      | Some state =>
          if negb (retention_due spec state now) then done () else
          let interval := default 0 (lb_ParseDuration L (rt_Interval (sp_Retention spec))) in
          let last := match rp_Retention state with Some r => rn_LastWarningTime r | None => None end in
          let enabled := rt_Enabled (sp_Retention spec) in
          let! (w, blocked) := (if enabled then kubed (retentionBatch (ob_Namespace c) (ob_UID c) spec now) else Ret (no_observation, false)) in
          let text := if blocked then blocked_text
                      else if enabled then retention_message spec (ro_result w) else ("Disabled", "Automatic retention is disabled.") in
          let! nextRun := (if enabled && negb blocked && negb (rt_DryRun (sp_Retention spec)) && (0 <? re_Planned (ro_result w))
                           then let! t := clock in Ret (t + second) else Ret (now + interval)) in
          let warn := blocked && due_again last now in
          let next := mkRetentionStatus now nextRun (spec_hash spec) (if enabled then re_OperationID (ro_result w) else "")
                        (if enabled then re_Planned (ro_result w) else 0) (rt_DryRun (sp_Retention spec)) (if warn then Some now else last) in
          let state := mkRepositoryStatus (Some next) (rp_ObservedGeneration state) (rp_ConfigurationHash state)
                         (retention_conditions object text blocked w now (rp_Conditions state)) (rp_LastWarningTime state) in
          let! _ := metric (retention labels blocked (ro_admissionBlocked w) (ro_gateObserved w) (ro_holders w) now) in
          let! _ := metric (retentionWorkspace labels (ro_workspaceObserved w) (ro_workspaceAvailable w)) in
          let! refused := call (PatchStatus (ob_Namespace object) (ob_Name object) (ob_ResourceVersion object) state) in
          match refused with
          | Some _ => fail ErrOther
          | None =>
              let! _ := (if warn then let! _ := kubed (call (KCreate "events" (ob_Namespace object) (warning_event (ob_Namespace object) (ob_Name object)
                                                              (ob_UID object) "RetentionBlocked" text.2))) in Ret () else Ret ()) in
              done ()
          end
      end
  end.
Fixpoint retention_items (items : list Object) : mprog () :=
  match items with [] => Ret () | c :: items => let! now := clock in let! _ := reconcileRetention c now in retention_items items end.
Definition retention_pass (cr : cursor) : mprog cursor :=
  let! l := call (ListOne "clusters" (namespace_at (cr_namespace cr)) (cr_continue cr)) in
  match l with
  | Err _ => Ret (advance (api_Namespaces a) (cr_namespace cr) "")
  | Ok (items, continuation) => let! _ := retention_items items in Ret (advance (api_Namespaces a) (cr_namespace cr) continuation)
  end.
Definition runRetention (fuel : nat) : mprog () :=
  if (length (api_Namespaces a) =? 0)%nat then Ret () else rounds fuel retention_pass (mkCursor 0 "").

(** ** Recovery operations *)
Definition recovery_item (process : string) (r : Object) : mprog () :=
  match ParseCluster (lb_IsDNS1123Subdomain L) (lb_unmarshal L) (object_text r) with
  | Err _ => Ret ()
  | Ok c =>
      let! now := clock in
      let! x := kubed (reconcileRecoveryOperation L base64 spec_hash a process c) in
      metric (match x with None => forgetRestore c | Some (state, known) => restore c state known now end)
  end.
Fixpoint recovery_items (process : string) (items : list Object) : mprog () :=
  match items with [] => Ret () | r :: items => let! _ := recovery_item process r in recovery_items process items end.
Definition recovery_pass (process : string) (cr : cursor) : mprog cursor :=
  let! l := call (ListOne "clusters" (namespace_at (cr_namespace cr)) (cr_continue cr)) in
  match l with
  | Err _ => Ret (advance (api_Namespaces a) (cr_namespace cr) "")
  | Ok (items, continuation) => let! _ := recovery_items process items in Ret (advance (api_Namespaces a) (cr_namespace cr) continuation)
  end.
Definition runRecoveryOperations (process : string) (fuel : nat) : mprog () :=
  if (length (api_Namespaces a) =? 0)%nat then Ret () else rounds fuel (recovery_pass process) (mkCursor 0 "").
End Manager.
