(* ===== verification/CnpgObserver.v ===== *)
(** * Counting failed backups (internal/cnpgi/backup_observer.go)

    An informer reports every Backup object; a worker counts each failure once, after it found out which Repository it belongs to.  The
    informer's calls interleave with the worker's critical sections. *)

From S2P Require Import Prelude GoStrings GoTime Errors Prog ProgRules Store Configuration NativeOps CnpgCluster CnpgOps CnpgKube CnpgRecovery CnpgMetrics CnpgManager.

(** ** Objects *)
Definition backupField (b : backupObject) (path : list string) : string := default "" (bk_fields b !! path).
Definition backupType (b : backupObject) : string :=
  if (backupField b ["spec"; "method"] !=? "plugin") || (backupField b ["spec"; "pluginConfiguration"; "name"] !=? PluginName) then "" else
  let kind := backupField b ["spec"; "pluginConfiguration"; "parameters"; "backupType"] in
  if (kind !=? "full") && (kind !=? "differential") then "" else kind.
Definition compact_paths : list (list string) :=
  [["spec"; "method"]; ["spec"; "cluster"; "name"]; ["spec"; "pluginConfiguration"; "name"];
   ["spec"; "pluginConfiguration"; "parameters"; "backupType"]; ["status"; "phase"]].
Definition compactBackup (b : backupObject) : backupObject :=
  mkBackup (bk_UID b) (bk_Name b) (bk_Namespace b) (bk_ResourceVersion b) (list_to_map (map (fun p => (p, backupField b p)) compact_paths)).

(** ** The informer *)
Definition failed (b : backupObject) : bool := backupField b ["status"; "phase"] ==? "failed".
(** The UIDs to queue, and the observations afterwards. *)
Definition observe (b : backupObject) (initial : bool) (o : observations) : list string * observations :=
  if bk_UID b ==? "" then ([], o) else
  let state := default (mkObservation b false false) (o !! bk_UID b) in
  let state := if bo_SeenFailure state then state else mkObservation b (bo_SeenFailure state) (bo_Pending state) in
  if failed b && negb (bo_SeenFailure state) then
    let count := negb initial && (backupType b !=? "") in
    (if count then [bk_UID b] else [], <[bk_UID b := mkObservation (bo_Object state) true (count || bo_Pending state)]> o)
  else ([], <[bk_UID b := state]> o).
Definition deleted (b : backupObject) (o : observations) : observations := delete (bk_UID b) o.

(** ** The worker *)
Definition claim (uid : string) (o : observations) : bool * observations :=
  match o !! uid with
  | Some s => if bo_Pending s then (true, <[uid := mkObservation (bo_Object s) (bo_SeenFailure s) false]> o) else (false, o)
  | None => (false, o)
  end.
Section Worker.
Context (L : Libraries) (a : API) (plugins_of : string -> list (option (string * string))).
Definition warning (b : backupObject) (kind : string) : kprog () :=
  let! _ := call (KCreate "events" (bk_Namespace b) (warning_event (bk_Namespace b) (bk_Name b) (bk_UID b) "BackupFailed"
                    ("Requested " +:+ kind +:+ " backup failed. Inspect CNPG Backup status."))) in Ret ().
Definition process (uid : string) (now : Time) : mprog (res ()) :=
  let! state := call (Observed (fun o => (o !! uid, o))) in
  match state with
  | Some (mkObservation b _ true) =>
      let! cluster := kubed (Get a "clusters" (bk_Namespace b) (backupField b ["spec"; "cluster"; "name"])) in
      match cluster with
      | Err _ => fail ErrOther
      | Ok cluster =>
          let! conf := kubed (backupConfiguration L a plugins_of cluster) in
          match conf with
          | Err _ => fail ErrOther
          | Ok (labels, spec) =>
              let labels := typed labels (backupType b) in
              let! claimed := call (Observed (claim uid)) in
              match claimed with
              | false => done ()
              | true =>
                  let! _ := metric (configure (lb_ParseDuration L) labels (sp_BackupFreshness spec)) in
                  let! warn := call (Failure labels now) in
                  match warn with
                  | true => let! _ := kubed (warning b (backupType b)) in done ()
                  | false => done ()
                  end
              end
          end
      end
  | _ => done ()
  end.
End Worker.

(** ** What the cache keeps *)
Lemma compact_field b p : p ∈ compact_paths -> backupField (compactBackup b) p = backupField b p.
Proof.
  intros Hp. unfold backupField at 1, compactBackup. cbn [bk_fields]. rewrite (elem_of_list_to_map_1 _ p (backupField b p)); [done| |].
  - change (NoDup compact_paths). apply (bool_decide_unpack _). vm_compute. done.
  - apply list_elem_of_fmap. by exists p.
Qed.
(** The cached object holds nothing but the identity and the five fields: two Backups that differ only elsewhere, in an error text or an
    annotation, are cached as the same object; and it is observed like the original. *)
Theorem compact_keeps_nothing_else b b' :
  bk_UID b = bk_UID b' -> bk_Name b = bk_Name b' -> bk_Namespace b = bk_Namespace b' -> bk_ResourceVersion b = bk_ResourceVersion b' ->
  (forall p, p ∈ compact_paths -> backupField b p = backupField b' p) ->
  compactBackup b = compactBackup b' /\ failed (compactBackup b) = failed b /\ backupType (compactBackup b) = backupType b.
Proof.
  intros H1 H2 H3 H4 Hf. split.
  - unfold compactBackup. rewrite H1, H2, H3, H4. f_equal. f_equal. apply map_ext_in. intros p Hp. by rewrite Hf by (by apply list_elem_of_In).
  - unfold failed, backupType. rewrite !compact_field by (unfold compact_paths; set_solver). done.
Qed.

(** ** Interleavings *)
Record machine := mkMachine { mc_observed : observations; mc_metrics : backupMetrics; mc_worker : option (string * mprog (res ())) }.
Inductive label := Seen (b : backupObject) (initial : bool) | Gone (b : backupObject) | Take (uid : string) (now : Time) | Inside | Counted (uid : string) (l : backupLabels).
(** Calls to the outside, not to the shared state. *)
Definition asks {X} (e : mg X) : bool := match e with Metrics _ | Observed _ | Failure _ _ => false | _ => true end.
Section Machine.
Context (L : Libraries) (a : API) (plugins_of : string -> list (option (string * string))).
(** The informer calls its handlers at any time; the worker takes any UID, and what it asks is answered in any way. *)
Inductive step : machine -> label -> machine -> Prop :=
| step_seen o m w b initial : step (mkMachine o m w) (Seen b initial) (mkMachine (observe b initial o).2 m w)
| step_gone o m w b : step (mkMachine o m w) (Gone b) (mkMachine (deleted b o) m w)
| step_take o m uid now : step (mkMachine o m None) (Take uid now) (mkMachine o m (Some (uid, process L a plugins_of uid now)))
| step_observed o m uid X (f : observations -> X * observations) k :
    step (mkMachine o m (Some (uid, Vis (Observed f) k))) Inside (mkMachine (f o).2 m (Some (uid, k (f o).1)))
| step_metrics o m uid X (f : backupMetrics -> X * backupMetrics) k :
    step (mkMachine o m (Some (uid, Vis (Metrics f) k))) Inside (mkMachine o (f m).2 (Some (uid, k (f m).1)))
| step_asked o m uid X (e : mg X) k x : asks e = true -> step (mkMachine o m (Some (uid, Vis e k))) Inside (mkMachine o m (Some (uid, k x)))
| step_counted o m uid l now k :
    step (mkMachine o m (Some (uid, Vis (Failure l now) k))) (Counted uid l)
      (mkMachine o (count_failure l now m).2 (Some (uid, k (count_failure l now m).1)))
| step_over o m uid x : step (mkMachine o m (Some (uid, Ret x))) Inside (mkMachine o m None).
Inductive steps : machine -> list label -> machine -> Prop :=
| steps_nil c : steps c [] c
| steps_cons c l c' ls c'' : step c l c' -> steps c' ls c'' -> steps c (l :: ls) c''.
Definition start : machine := mkMachine ∅ newBackupMetrics None.

(** What a running worker may still do: count once after a claim, and only what it read of its UID. *)
Section Budget.
Context (shown : string -> string -> Prop).
(** Every pending observation is of a failure that was shown. *)
Definition justified (o : observations) : Prop :=
  forall uid s, o !! uid = Some s -> bo_Pending s = true -> bo_SeenFailure s = true /\ shown uid (backupType (bo_Object s)).
Fixpoint budget {A} (uid : string) (credit : bool) (p : mprog A) : Prop :=
  match p with
  | Ret _ => True
  | Vis e k =>
      match e in mg X return (X -> mprog A) -> Prop with
      | Failure l _ => fun k => credit = true /\ shown uid (bl_Type l) /\ forall x, budget uid false (k x)
      | Observed f => fun k => forall o, justified o ->
          ((f o).2 = o /\ budget uid credit (k (f o).1)) \/ ((exists s, o !! uid = Some s /\ bo_Pending s = true) /\ (f o).2 = (claim uid o).2 /\ budget uid true (k (f o).1))
      | _ => fun k => forall x, budget uid credit (k x)
      end k
  end.
Lemma budget_kubed {A B} uid credit (p : kprog A) (f : A -> mprog B) : (forall x, budget uid credit (f x)) -> budget uid credit (bind (kubed p) f).
Proof. intros Hf. induction p as [x|X e k IH]; cbn; [done|]. intros x. apply IH. Qed.
Lemma budget_process uid now : budget uid false (process L a plugins_of uid now).
Proof.
  unfold process. cbn [bind call budget]. intros o Ho. left. split; [done|]. cbn [fst]. destruct (o !! uid) as [[b seen []]|] eqn:Eo; [|done..].
  destruct (Ho _ _ Eo eq_refl) as [_ Ho1]. cbn [bo_Object] in Ho1. apply budget_kubed. intros [cluster|e]; [|done]. apply budget_kubed. intros [[labels spec]|e]; [|done].
  cbn [bind call budget]. intros o' Ho'. destruct (o' !! uid) as [s|] eqn:Es; [|left; unfold claim; by rewrite Es].
  destruct (bo_Pending s) eqn:Ep; [|left; unfold claim; by rewrite Es, Ep]. right. split; [by exists s|]. split; [done|]. unfold claim. rewrite Es, Ep.
  cbn [fst bind call metric budget]. intros []. split; [done|]. split; [done|]. intros [|]; [apply budget_kubed; by intros []|done].
Qed.
End Budget.

(** ** Counting *)
Definition counts (uid : string) (l : label) : bool := match l with Counted u _ => u ==? uid | _ => false end.
Definition goes (uid : string) (l : label) : bool := match l with Gone b => bk_UID b ==? uid | _ => false end.
Definition number (p : label -> bool) (ls : list label) : nat := length (List.filter p ls).
(** What is still owed to a UID: a pending failure, the credit of the worker; and whether its failure was seen. *)
Definition pending (o : observations) (uid : string) : nat := match o !! uid with Some s => if bo_Pending s then 1 else 0 | None => 0 end.
Definition seen (o : observations) (uid : string) : nat := match o !! uid with Some s => if bo_SeenFailure s then 1 else 0 | None => 0 end.
(** The events that show a failure to be counted. *)
Definition shows (uid kind : string) (l : label) : Prop :=
  match l with Seen b false => bk_UID b = uid /\ failed b = true /\ backupType b = kind /\ kind <> "" | _ => False end.
(** Whether a failure of the UID was shown since it was last deleted, at startup or later. *)
Definition failing (uid : string) (ls : list label) : bool :=
  foldl (fun known l => match l with
                        | Seen b _ => if (bk_UID b ==? uid) && failed b then true else known
                        | Gone b => if bk_UID b ==? uid then false else known
                        | _ => known
                        end) false ls.
(** The observations remember every failure shown. *)
Definition tracked (ls : list label) (o : observations) : Prop := forall uid, uid <> "" -> seen o uid = 0%nat -> failing uid ls = false.
Definition worker_of (shown : string -> string -> Prop) (w : option (string * mprog (res ()))) (uid : string) (credit : nat) : Prop :=
  match w with
  | None => credit = 0%nat
  | Some (u, p) => exists b, budget shown u b p /\ credit = if (u ==? uid) && b then 1%nat else 0%nat
  end.
(** Each UID has had at most one count per life, and nothing is owed for a failure that was not seen. *)
Definition owes (shown : string -> string -> Prop) (c : machine) (uid : string) (counted gone : nat) : Prop :=
  exists credit, worker_of shown (mc_worker c) uid credit
    /\ (counted + credit + pending (mc_observed c) uid <= gone + seen (mc_observed c) uid)%nat /\ (pending (mc_observed c) uid <= seen (mc_observed c) uid)%nat.
Lemma observe_pending b initial o uid : bk_UID b <> uid -> pending (observe b initial o).2 uid = pending o uid /\ seen (observe b initial o).2 uid = seen o uid.
Proof.
  intros Hne. unfold observe, pending, seen. destruct (bk_UID b ==? ""); [done|]. cbv zeta. destruct (_ && _); cbn [snd]; by rewrite lookup_insert_ne by done.
Qed.
Lemma observe_owes b initial o :
  (pending o (bk_UID b) <= seen o (bk_UID b))%nat ->
  let o' := (observe b initial o).2 in let uid := bk_UID b in
  (pending o' uid <= seen o' uid /\ seen o uid <= seen o' uid /\ pending o' uid + seen o uid <= seen o' uid + pending o uid)%nat.
Proof.
  unfold observe, pending, seen. destruct (bk_UID b ==? ""); [cbn; lia|]. cbv zeta.
  destruct (o !! bk_UID b) as [[ob [] []]|] eqn:Eo; cbn [default from_option bo_SeenFailure bo_Pending bo_Object negb andb orb id]; rewrite ?andb_false_r, ?andb_true_r, ?orb_false_r, ?orb_true_r;
    destruct (failed b); cbn [snd negb andb]; rewrite ?lookup_insert_eq; cbn [bo_SeenFailure bo_Pending];
    repeat match goal with |- context [if ?x then _ else _] => destruct x end; lia.
Qed.
Lemma claim_owes u uid o s : o !! u = Some s -> bo_Pending s = true ->
  seen (claim u o).2 uid = seen o uid /\ (pending (claim u o).2 uid + (if u ==? uid then 1 else 0) = pending o uid)%nat.
Proof.
  intros Hs Hp. unfold claim, seen, pending. rewrite Hs, Hp. cbn [snd]. destruct (u ==? uid) eqn:Eu.
  - apply bool_decide_eq_true in Eu as ->. rewrite lookup_insert_eq, Hs, Hp. cbn. lia.
  - apply bool_decide_eq_false in Eu. rewrite lookup_insert_ne by done. lia.
Qed.
Lemma observe_justified shown b initial o :
  (bk_UID b <> "" -> seen o (bk_UID b) = 0%nat -> forall kind, shows (bk_UID b) kind (Seen b initial) -> shown (bk_UID b) kind) ->
  justified shown o -> justified shown (observe b initial o).2.
Proof.
  intros Hsh Hj uid s. unfold observe. destruct (bk_UID b ==? "") eqn:Eu; [apply Hj|]. apply bool_decide_eq_false in Eu. specialize (Hsh Eu). cbv zeta.
  destruct (decide (bk_UID b = uid)) as [<-|Hne]; [|destruct (_ && _); cbn [snd]; rewrite lookup_insert_ne by done; apply Hj].
  destruct (o !! bk_UID b) as [[ob [] p]|] eqn:Eo; cbn [default from_option bo_SeenFailure bo_Pending bo_Object negb id]; rewrite ?andb_false_r, ?andb_true_r; cbn [snd].
  - rewrite lookup_insert_eq. intros [= <-] Hp. by apply (Hj _ _ Eo Hp).
  - destruct p; [by destruct (Hj _ _ Eo eq_refl)|]. destruct (failed b) eqn:Ef; cbn [snd]; rewrite lookup_insert_eq; intros [= <-]; cbn [bo_Pending bo_SeenFailure bo_Object]; [|done].
    rewrite orb_false_r. intros Hp. split; [done|]. apply Hsh; [unfold seen; by rewrite Eo|]. destruct initial; [done|]. cbn in Hp |- *. by apply negb_true_iff, bool_decide_eq_false in Hp.
  - destruct (failed b) eqn:Ef; cbn [snd]; rewrite lookup_insert_eq; intros [= <-]; cbn [bo_Pending bo_SeenFailure bo_Object]; [|done].
    rewrite orb_false_r. intros Hp. split; [done|]. apply Hsh; [unfold seen; by rewrite Eo|]. destruct initial; [done|]. cbn in Hp |- *. by apply negb_true_iff, bool_decide_eq_false in Hp.
Qed.
Lemma claim_justified shown uid o : justified shown o -> justified shown (claim uid o).2.
Proof.
  intros Hj u s. unfold claim. destruct (o !! uid) as [s'|] eqn:Es; [|apply Hj]. destruct (bo_Pending s') eqn:Ep; [|apply Hj]. cbn [snd].
  destruct (decide (uid = u)) as [<-|Hne]; [rewrite lookup_insert_eq; by intros [= <-]|rewrite lookup_insert_ne by done; apply Hj].
Qed.
Lemma observe_tracked b initial o ls : tracked ls o -> tracked (ls ++ [Seen b initial]) (observe b initial o).2.
Proof.
  intros Ht uid Hu. unfold failing. rewrite foldl_app. cbn [foldl]. fold (failing uid ls). destruct (decide (bk_UID b = uid)) as [<-|Hne].
  - rewrite (bool_decide_eq_true_2 (_ = _)) by done. cbn [andb]. unfold observe, seen. rewrite bool_decide_eq_false_2 by done. cbv zeta.
    specialize (Ht _ Hu). unfold seen in Ht.
    destruct (o !! bk_UID b) as [[ob [] p]|] eqn:Eo; cbn [default from_option bo_SeenFailure bo_Pending bo_Object negb id]; rewrite ?andb_false_r, ?andb_true_r; cbn [snd];
      [by rewrite lookup_insert_eq|..]; (destruct (failed b); cbn [snd]; rewrite lookup_insert_eq; [done|intros _; by apply Ht]).
  - destruct (observe_pending b initial o uid Hne) as [_ ->]. rewrite (bool_decide_eq_false_2 (_ = _)) by done. apply Ht, Hu.
Qed.
Lemma deleted_tracked b o ls : tracked ls o -> tracked (ls ++ [Gone b]) (deleted b o).
Proof.
  intros Ht uid Hu. unfold failing. rewrite foldl_app. cbn [foldl]. fold (failing uid ls). destruct (bk_UID b ==? uid) eqn:Eu; [done|].
  apply bool_decide_eq_false in Eu. unfold deleted, seen. rewrite lookup_delete_ne by done. apply Ht, Hu.
Qed.
Lemma tracked_silent ls l o : (match l with Seen _ _ | Gone _ => False | _ => True end) -> tracked ls o -> tracked (ls ++ [l]) o.
Proof. intros Hl Ht uid Hu Hs. unfold failing. rewrite foldl_app. cbn [foldl]. fold (failing uid ls). rewrite (Ht uid Hu Hs). by destruct l. Qed.
Lemma step_tracked shown ls c l c' uid counted gone : step c l c' -> justified shown (mc_observed c) -> owes shown c uid counted gone ->
  tracked ls (mc_observed c) -> tracked (ls ++ [l]) (mc_observed c').
Proof.
  intros Hs Hj (credit & Hw & _) Ht. destruct Hs as [o m w b initial|o m w b|o m u now|o m u X f k|o m u X f k|o m u X e k x Ha|o m u l now k|o m u x];
    cbn [mc_observed mc_worker] in *; try (by apply tracked_silent); [by apply observe_tracked|by apply deleted_tracked|].
  apply tracked_silent; [done|]. destruct Hw as (b & Hb & _). destruct (Hb o Hj) as [[-> _]|((s & Hs & Hp) & -> & _)]; [done|].
  intros v Hv. rewrite (proj1 (claim_owes u v o s Hs Hp)). by apply Ht.
Qed.
Lemma step_justified shown c l c' uid counted gone : step c l c' ->
  (forall uid kind, uid <> "" -> seen (mc_observed c) uid = 0%nat -> shows uid kind l -> shown uid kind) -> justified shown (mc_observed c) ->
  owes shown c uid counted gone -> justified shown (mc_observed c').
Proof.
  intros Hs Hsh Hj (credit & Hw & _). destruct Hs as [o m w b initial|o m w b|o m u now|o m u X f k|o m u X f k|o m u X e k x Ha|o m u l now k|o m u x]; cbn [mc_observed mc_worker] in *; try done.
  - by apply observe_justified; [auto|].
  - intros v s Hv. unfold deleted in Hv. apply lookup_delete_Some in Hv as [_ Hv]. by apply Hj.
  - destruct Hw as (b & Hb & _). destruct (Hb o Hj) as [[-> _]|(_ & -> & _)]; [done|by apply claim_justified].
Qed.
Lemma step_owes shown c l c' uid counted gone :
  step c l c' -> justified shown (mc_observed c) -> owes shown c uid counted gone ->
  owes shown c' uid (counted + if counts uid l then 1 else 0) (gone + if goes uid l then 1 else 0).
Proof.
  intros Hs Hj (credit & Hw & H1 & H2). destruct Hs as [o m w b initial|o m w b|o m u now|o m u X f k|o m u X f k|o m u X e k x Ha|o m u l now k|o m u x]; cbn [mc_observed mc_worker counts goes worker_of] in *; rewrite ?Nat.add_0_r.
  - exists credit. split; [done|]. cbn [mc_observed]. destruct (decide (bk_UID b = uid)) as [<-|Hne].
    + pose proof (observe_owes b initial o H2) as Hb. cbv zeta in Hb. lia.
    + destruct (observe_pending b initial o uid Hne) as [-> ->]. lia.
  - exists credit. split; [done|]. cbn [mc_observed]. unfold deleted, pending, seen in *. destruct (bk_UID b ==? uid) eqn:Eu.
    + apply bool_decide_eq_true in Eu as ->. rewrite lookup_delete_eq. repeat case_match; lia.
    + apply bool_decide_eq_false in Eu. rewrite lookup_delete_ne by done. lia.
  - exists 0%nat. subst credit. split; [|cbn [mc_observed]; lia]. exists false. split; [apply budget_process|by rewrite andb_false_r].
  - destruct Hw as (b & Hb & ->). cbn [budget] in Hb. destruct (Hb o Hj) as [[Ef Hk]|((s & Hs & Hp) & Ef & Hk)].
    + rewrite Ef. eexists. split; [by exists b|]. cbn [mc_observed]. lia.
    + rewrite Ef. destruct (claim_owes u uid o s Hs Hp) as [E1 E2]. eexists. split; [by exists true|]. cbn [mc_observed]. rewrite E1. rewrite andb_true_r.
      destruct (u ==? uid), b; cbn [andb] in *; lia.
  - destruct Hw as (b & Hb & ->). eexists. split; [exists b; split; [apply Hb|done]|]. cbn [mc_observed]. lia.
  - destruct Hw as (b & Hb & ->). eexists. split; [exists b; split; [|done]|cbn [mc_observed]; lia]. destruct e; try discriminate Ha; apply Hb.
  - destruct Hw as (b & (-> & _ & Hb) & ->). eexists. split; [exists false; split; [apply Hb|done]|]. cbn [mc_observed]. rewrite andb_true_r, andb_false_r in *. lia.
  - exists 0%nat. split; [done|]. destruct Hw as (b & _ & ->). cbn [mc_observed]. destruct (_ && _); lia.
Qed.
Lemma step_shown shown c uid l c' u counted gone : step c (Counted uid l) c' -> owes shown c u counted gone -> shown uid (bl_Type l).
Proof. intros Hs (credit & Hw & _). inversion Hs; subst. cbn [mc_worker] in Hw. destruct Hw as (b & (_ & H & _) & _). done. Qed.
Lemma steps_owe shown past c ls c' uid counted gone : steps c ls c' ->
  (forall l1 l l2 uid kind, ls = l1 ++ l :: l2 -> failing uid (past ++ l1) = false -> shows uid kind l -> shown uid kind) ->
  tracked past (mc_observed c) -> justified shown (mc_observed c) -> owes shown c uid counted gone ->
  owes shown c' uid (counted + number (counts uid) ls) (gone + number (goes uid) ls) /\ forall l, Counted uid l ∈ ls -> shown uid (bl_Type l).
Proof.
  intros Hs. revert past counted gone. induction Hs as [c|c l c1 ls c2 Hs _ IH]; intros past counted gone Hsh Ht Hj Ho.
  - unfold number. cbn. rewrite !Nat.add_0_r. split; [done|]. by intros l ?%elem_of_nil.
  - pose proof (step_owes _ _ _ _ _ _ _ Hs Hj Ho) as Ho1.
    assert (justified shown (mc_observed c1)) as Hj1.
    { eapply step_justified; try eassumption. intros u kd Hu Hn. apply (Hsh [] l ls); [done|]. rewrite app_nil_r. by apply Ht. }
    assert (tracked (past ++ [l]) (mc_observed c1)) as Ht1 by (by eapply step_tracked).
    assert (Hsh1 : forall l1 l' l2 u kd, ls = l1 ++ l' :: l2 -> failing u ((past ++ [l]) ++ l1) = false -> shows u kd l' -> shown u kd).
    { intros l1 l' l2 u kd -> Hf. apply (Hsh (l :: l1) l' l2); [done|]. by rewrite <- app_assoc in Hf. }
    destruct (IH _ _ _ Hsh1 Ht1 Hj1 Ho1) as [H1 H2]. split.
    + unfold number in *. cbn [List.filter]. destruct (counts uid l), (goes uid l); cbn [length]; rewrite ?Nat.add_0_r in H1; rewrite <- ?Nat.add_assoc in H1; done.
    + intros k Hk. apply elem_of_cons in Hk as [<-|Hk]; [|by apply H2]. by eapply step_shown.
Qed.
(** An event after the initial list that shows the failure of a Backup whose failure was not shown before in this life. *)
Definition first_shown (uid kind : string) (ls : list label) : Prop :=
  exists l1 b l2, ls = l1 ++ Seen b false :: l2 /\ failing uid l1 = false /\ bk_UID b = uid /\ failed b = true /\ backupType b = kind /\ kind <> "".
Lemma steps_counted ls c uid : steps start ls c ->
  (number (counts uid) ls <= number (goes uid) ls + 1)%nat /\ forall l, Counted uid l ∈ ls -> first_shown uid (bl_Type l) ls.
Proof.
  intros Hs. destruct (steps_owe (fun u k => first_shown u k ls) [] start ls c uid 0 0 Hs) as [(credit & _ & H1 & _) H2].
  - intros l1 l l2 u k E Hf Hl. destruct l as [b []| | | |]; try done. destruct Hl as (H1 & H2 & H3 & H4). exists l1, b, l2. done.
  - done.
  - by intros u s Hu.
  - exists 0%nat. split; [done|]. unfold pending, seen. cbn [mc_observed start]. rewrite lookup_empty. lia.
  - split; [|done]. assert (seen (mc_observed c) uid <= 1)%nat by (unfold seen; repeat case_match; lia). lia.
Qed.
Lemma steps_prefix c ls1 ls2 c' : steps c (ls1 ++ ls2) c' -> exists c1, steps c ls1 c1.
Proof.
  revert c. induction ls1 as [|l ls1 IH]; intros c; [exists c; constructor|]. cbn. intros H. inversion H as [|? ? ? ? ? Hs Hr]; subst.
  destruct (IH _ Hr) as [c1 H1]. exists c1. by eapply steps_cons.
Qed.
End Machine.

(** C36: A failed backup is counted once.  In every interleaving of the informer with the worker, whatever the API answers and however often a UID is
    queued, a UID is counted at most once for each time it was observed anew after a deletion; and a count comes only after an event that followed the initial
    list and was the first since the Backup was last deleted, if ever, to show it failed, with a type requested from this plugin, under which it is counted.
    So a Backup that had already failed at startup, or whose failure was already shown, is never counted for a later event. *)
Theorem failure_counted_once L a plugins_of ls c uid :
  steps L a plugins_of start ls c ->
  (number (counts uid) ls <= number (goes uid) ls + 1)%nat
  /\ forall before l after, ls = before ++ Counted uid l :: after -> first_shown uid (bl_Type l) before.
Proof.
  intros Hs. split; [by eapply steps_counted|]. intros before l after ->. rewrite cons_middle, app_assoc in Hs.
  apply steps_prefix in Hs as [c1 Hs]. destruct (steps_counted _ _ _ _ _ uid Hs) as [_ H].
  destruct (H l) as (l1 & b & l2 & E & Hf & Hb); [apply elem_of_app; right; by left|].
  destruct l2 as [|x l2 _] using rev_ind; [by apply (app_inj_tail _ _ _ _) in E as [_ ?]|].
  rewrite app_comm_cons, app_assoc in E. apply app_inj_tail in E as [-> _]. by exists l1, b, l2.
Qed.

(** ** Concrete executions *)
(** The worker running alone to its end, with a handler that answers its questions: the labels, and what it leaves. *)
Fixpoint work {S} (h : Prog.handler (E := mg) S) (s : S) (uid : string) (p : mprog (res ())) (o : observations) (m : backupMetrics)
    : list label * observations * backupMetrics :=
  match p with
  | Ret _ => ([Inside], o, m)
  | @Vis _ _ X e k =>
      match e in mg X return (X -> mprog (res ())) -> X -> list label * observations * backupMetrics with
      | Observed f => fun k _ => let '(ls, o', m') := work h s uid (k (f o).1) (f o).2 m in (Inside :: ls, o', m')
      | Metrics f => fun k _ => let '(ls, o', m') := work h s uid (k (f m).1) o (f m).2 in (Inside :: ls, o', m')
      | Failure l now => fun k _ => let '(ls, o', m') := work h s uid (k (count_failure l now m).1) o (count_failure l now m).2 in (Counted uid l :: ls, o', m')
      | _ => fun k x => let '(ls, o', m') := work h s uid (k x) o m in (Inside :: ls, o', m')
      end k (h X e s).1
  end.
Lemma work_steps {S} L a plugins_of (h : Prog.handler (E := mg) S) s uid p o m ls c :
  (let '(_, o', m') := work h s uid p o m in steps L a plugins_of (mkMachine o' m' None) ls c) ->
  steps L a plugins_of (mkMachine o m (Some (uid, p))) ((work h s uid p o m).1.1 ++ ls) c.
Proof.
  revert o m. induction p as [x|X e k IH]; intros o m; cbn [work].
  - cbn [fst app]. intros H. eapply steps_cons; [constructor|done].
  - destruct e; cbv beta iota;
      (lazymatch goal with |- context [work h s uid (k ?x) ?o' ?m'] => specialize (IH x o' m'); destruct (work h s uid (k x) o' m') as [[ls' o1] m1] end); cbn [fst app] in *;
      intros H; (eapply steps_cons; [|by apply IH]); (apply step_observed || apply step_metrics || apply step_counted || (by apply step_asked)).
Qed.
