(* ===== verification/CnpgManagerSafety.v ===== *)
(** * What the manager's loops guarantee

    Retention deletes only as a due, enabled batch of the writer's own repository; a warning is delivered only after its throttle is
    stored. *)

From S2P Require Import Guard Sha256 LooseJson WalNames Admission Transfer RecoveryPlan Restore WalArchive S3Keys S3Config NativePath NativeArchive NativeManifest NativeSafety NativeEvidence.
From S2P Require Import Memory Documents Json GuardConfig CnpgDemo NativeBudget.
From S2P Require Import Prelude GoStrings GoTime Errors Schema Prog ProgRules Store Gate Repository Catalog Lifecycle GcSafety Retention RetentionRun.
From S2P Require Import Configuration Capacity NativeOps NativeText ConfigSnapshot CnpgCluster CnpgOps CnpgWal CnpgKube CnpgRecovery CnpgRecoverySafety CnpgMetrics CnpgManager CnpgObserver.

(** ** Parts of a trace *)
Definition host_action (a : Prog.action kube) : option (Prog.action os) :=
  match a with @Act _ X e x => match e in kube Y return Y -> option (Prog.action os) with Host e => fun x => Some (Act e x) | _ => fun _ => None end x end.
Definition hosts (tr : ktrace) : otrace := omap host_action tr.
Definition kube_action (a : Prog.action mg) : option (Prog.action kube) :=
  match a with @Act _ X e x => match e in mg Y return Y -> option (Prog.action kube) with Kube e => fun x => Some (Act e x) | _ => fun _ => None end x end.
Definition kubes (tr : mtrace) : ktrace := omap kube_action tr.
(** The calls to storage. *)
Definition storage (tr : mtrace) : Store.trace := stores (hosts (kubes tr)).
Definition host_guard (G : otrace -> forall X, os X -> Prop) (tr : ktrace) X (e : kube X) : Prop :=
  match e in kube Y return Prop with @Host Y e => G (hosts tr) Y e | _ => True end.
Definition kube_guard (G : ktrace -> forall X, kube X -> Prop) (tr : mtrace) X (e : mg X) : Prop :=
  match e in mg Y return Prop with @Kube Y e => G (kubes tr) Y e | _ => True end.
Lemma wp_host {A} G (Q : otrace -> A -> Prop) (p : oprog A) tr : wp G Q p (hosts tr) -> wp (host_guard G) (fun tr a => Q (hosts tr) a) (host p) tr.
Proof. revert tr. induction p as [x|X e k IH]; intros tr; cbn; [done|]. intros [Hg Hk]. split; [done|]. intros x. apply IH, Hk. Qed.
Lemma wp_kubed {A} G (Q : ktrace -> A -> Prop) (p : kprog A) tr : wp G Q p (kubes tr) -> wp (kube_guard G) (fun tr a => Q (kubes tr) a) (kubed p) tr.
Proof. revert tr. induction p as [x|X e k IH]; intros tr; cbn; [done|]. intros [Hg Hk]. split; [done|]. intros x. apply IH, Hk. Qed.
Lemma kubed_calls {A} (S : forall X, kube X -> Prop) (S' : forall X, mg X -> Prop) (p : kprog A) :
  (forall X (e : kube X), S X e -> S' X (Kube e)) -> calls S p -> calls S' (kubed p).
Proof.
  intros HS Hp tr. specialize (Hp []). revert Hp. generalize (@nil (Prog.action kube)) as tr0. revert tr.
  induction p as [a|X e k IH]; intros tr tr0; cbn; [done|]. intros [H1 H2]. split; [by apply HS|]. intros x. by eapply IH.
Qed.

Section Retention.
Context (L : Libraries) (base64 : string -> option string) (spec_hash : Spec -> string) (a : API).
Context (plugins_of : string -> list (option (string * string))) (decode_status : string -> option repositoryStatus).
Context (set_condition : Condition -> list Condition -> list Condition) (o : order).
Let decode_spec := DecodeSpec (lb_ParseDuration L) (lb_Parse L) (lb_Hostname L) (lb_IsDNS1123Subdomain L) (lb_IsConfigMapKey L) (lb_ParseQuantity L)
  (lb_into_resources L).

(** The call is one of a retention run over the repository that was opened, by reads of its identity and gate before the run, and that names this writer. *)
Definition of_run (writer : string) (spec : Spec) (now : Time) (tr : Store.trace) X (e : Store.event X) : Prop :=
  exists r l base, tr = l ++ base /\ opened r base /\ id_RepositoryID (r_id r) = sp_RepositoryID spec /\ id_WriterClusterUID (r_id r) = writer
    /\ emits (Run (lb_gunzip L) (lb_gzip_header L) r (sp_Compression spec) o zero_time now (run_options L spec)) [] l X e.
Definition run_only (writer : string) (spec : Spec) (now : Time) (tr : Store.trace) X (e : Store.event X) : Prop :=
  mutating e = true -> of_run writer spec now tr X e.
Lemma run_only_reads writer spec now : allows_reads (run_only writer spec now).
Proof. intros tr X e He Hm. congruence. Qed.
Lemma remote_reads {A B} G (p : Store.prog A) (f : A -> oprog B) Q1 (Q : otrace -> B -> Prop) tr :
  allows_reads G -> reads p Q1 -> (forall tr' x, Q1 (stores tr') x -> wp (remote_guard G) Q (f x) tr') -> wp (remote_guard G) Q (bind (remote p) f) tr.
Proof.
  intros HG Hp Hf. apply wp_bind. eapply wp_mono; [|apply wp_remote, (Hp _ _ HG)]. intros tr' x [_ H]. by apply Hf.
Qed.
Lemma in_workspace_wp dir writer spec now tr :
  wp (remote_guard (run_only writer spec now)) (fun _ _ => True) (in_workspace L o dir writer spec now) tr.
Proof.
  unfold in_workspace. eapply remote_reads; [apply run_only_reads|apply OpenSource_proves|]. intros tr1 [r|e]; [|done]. intros [Hr Hop]. wp_if as Ew; [done|].
  apply negb_false_iff, bool_decide_eq_true in Ew. apply wp_bind.
  eapply wp_mono; [|eapply wp_G_mono; [|apply (wp_remote (fun tr X e => exists l, tr = l ++ stores tr1 /\ emits (Run (lb_gunzip L) (lb_gzip_header L) r (sp_Compression spec) o zero_time now (run_options L spec)) [] l X e) (fun _ _ => True))]].
  - intros tr2 [[result errs] t] _. eapply remote_reads; [apply run_only_reads|apply readGate_proves|]. by intros tr3 x _.
  - intros tr2 X e. destruct e; try done. cbn. intros (l & H1 & H2) _. by exists r, l, (stores tr1).
  - eapply wp_mono; [|exact (wp_frame _ _ _ [] (stores tr1) (wp_emitted _ []))]. done.
Qed.
Lemma calm_host writer spec now tr X (e : kube X) : calm X e -> host_guard (remote_guard (run_only writer spec now)) tr X e.
Proof. destruct e as [X e| | | | | | | |]; try done. destruct e; try done. cbn. intros He Hm. congruence. Qed.
Lemma workspace_wp G root tr : wp (remote_guard G) (fun _ _ => True) (newRetentionWorkspace root) tr.
Proof.
  unfold newRetentionWorkspace. apply wp_call; [done|]. intros k. destruct (k_stat k root) as [[d st]|]; [|done]. wp_if as E; [done|]. apply wp_call; [done|]. intros l.
  destruct (forM _ _ _); [by split|done].
Qed.
Lemma wp_host_bind {A B} G (p : oprog A) (f : A -> kprog B) (Q : ktrace -> B -> Prop) tr :
  (forall tr, wp G (fun _ _ => True) p tr) -> (forall tr' x, wp (host_guard G) Q (f x) tr') -> wp (host_guard G) Q (bind (host p) f) tr.
Proof. intros Hp Hf. apply wp_bind. eapply wp_mono; [|apply wp_host, Hp]. intros tr' x _. apply Hf. Qed.
Lemma batch_wp namespace writer spec now tr :
  wp (host_guard (remote_guard (run_only writer spec now))) (fun _ _ => True) (retentionBatch L base64 a o namespace writer spec now) tr.
Proof.
  unfold retentionBatch. eapply (wp_calls_bind _ _ (fun _ _ => True)); [intros; by apply calm_host|apply snapshot_calm|eapply wp_mono; [|apply wp_grows]; done|].
  intros tr1 [snap|e] _ _; [|done]. wp_if as Eo; [done|]. apply wp_host_bind; [intros; apply workspace_wp|]. intros tr2 [dir|e]; [|done].
  apply wp_host_bind; [intros; apply in_workspace_wp|]. intros tr3 x. apply wp_host_bind; [|done]. intros tr4. by split.
Qed.

(** ** The decision to run *)
(** The Cluster's Repository was read, and after that read again, with the same configuration; the status of the second reading says that an
    enabled retention is due. *)
Definition entitled (c : Object) (spec : Spec) (now : Time) (tr : ktrace) : Prop :=
  exists name first object current state later earlier, backupRepositoryName plugins_of c = Ok name
    /\ tr = later ++ Act (KGet "repositories" (ob_Namespace c) name) (Ok object) :: earlier
    /\ Act (KGet "repositories" (ob_Namespace c) name) (Ok first) ∈ earlier /\ decode_spec (ob_spec first) = Ok spec
    /\ decode_spec (ob_spec object) = Ok current /\ spec_hash current = spec_hash spec
    /\ decode_status (ob_status object) = Some state /\ retention_due spec_hash spec state now = true
    /\ rt_Enabled (sp_Retention spec) = true.
Definition retention_guard (c : Object) (now : Time) (tr : mtrace) X (e : mg X) : Prop :=
  match e in mg Y return Prop with
  | Kube (Host (Remote ev)) => mutating ev = true -> exists spec, entitled c spec now (kubes tr) /\ of_run (ob_UID c) spec now (storage tr) _ ev
  | _ => True
  end.
Definition calm_call X (e : mg X) : Prop := match e with Kube e => calm _ e | _ => True end.
Lemma calm_retention c now tr X (e : mg X) : calm_call X e -> retention_guard c now tr X e.
Proof. destruct e as [X e| | | | | |]; try done. destruct e as [X e| | | | | | | |]; try done. destruct e; try done. cbn. intros He Hm. congruence. Qed.
Lemma wp_quiet {A B} c now (p : kprog A) (f : A -> mprog B) (R : ktrace -> A -> Prop) (Q : mtrace -> B -> Prop) tr :
  calls calm p -> wp anything R p (kubes tr) -> (forall tr' x, extends tr tr' -> R (kubes tr') x -> wp (retention_guard c now) Q (f x) tr') ->
  wp (retention_guard c now) Q (bind (kubed p) f) tr.
Proof.
  intros Hp Hr Hf. eapply (wp_calls_bind _ calm_call (fun tr x => R (kubes tr) x)); [intros; by apply calm_retention|by apply (kubed_calls calm)| |done].
  eapply wp_G_mono; [|apply wp_kubed, Hr]. done.
Qed.
Lemma get_seen kind ns name tr : wp anything (fun tr' x => forall r, x = Ok r -> tr' = Act (KGet kind ns name) (Ok r) :: tr) (Get a kind ns name) tr.
Proof. unfold Get. wp_if as E1; [done|]. wp_if as E2; [done|]. split; [done|]. by intros x r ->. Qed.
Lemma configuration_calm c : calls calm (backupConfiguration L a plugins_of c).
Proof. unfold backupConfiguration. calls_step; [|calls_step]. calls_step; [apply get_calm|]. by repeat calls_step. Qed.
Definition first_read (c : Object) (tr : ktrace) (x : result config_error (backupLabels * Spec)) : Prop :=
  forall labels spec, x = Ok (labels, spec) -> exists name first, backupRepositoryName plugins_of c = Ok name
    /\ Act (KGet "repositories" (ob_Namespace c) name) (Ok first) ∈ tr /\ decode_spec (ob_spec first) = Ok spec.
Lemma configuration_known c tr : wp anything (first_read c) (backupConfiguration L a plugins_of c) tr.
Proof.
  unfold backupConfiguration, first_read. destruct (backupRepositoryName plugins_of c) as [name|e] eqn:En; [|done]. apply wp_bind. eapply wp_mono; [|apply get_seen].
  intros tr' [first|e] Hf labels spec; [|done]. fold decode_spec. destruct (decode_spec (ob_spec first)) as [s|] eqn:Es; [|done]. intros [= <- <-].
  exists name, first. split; [done|]. split; [rewrite (Hf _ eq_refl); by left|done].
Qed.
Lemma object_calm c spec : calls calm (retention_object L spec_hash a plugins_of c spec).
Proof. unfold retention_object. calls_step; [|by repeat calls_step]. calls_step; [apply get_calm|]. by repeat calls_step. Qed.
Lemma object_known c spec tr : wp anything (fun tr' x => forall object, x = Ok object -> exists name current, backupRepositoryName plugins_of c = Ok name
    /\ tr' = Act (KGet "repositories" (ob_Namespace c) name) (Ok object) :: tr /\ decode_spec (ob_spec object) = Ok current /\ spec_hash current = spec_hash spec)
  (retention_object L spec_hash a plugins_of c spec) tr.
Proof.
  unfold retention_object. destruct (backupRepositoryName plugins_of c) as [name|e] eqn:En; [|done]. apply wp_bind. eapply wp_mono; [|apply get_seen].
  intros tr' [r|e] Hf object; [|done]. fold decode_spec. destruct (decode_spec (ob_spec r)) as [s|] eqn:Es; [|done]. destruct (_ !=? _) eqn:Eh; [done|].
  intros [= <-]. apply negb_false_iff, bool_decide_eq_true in Eh. exists name, s. split; [done|]. split; [by apply Hf|done].
Qed.
Lemma kubes_extends tr tr' : extends tr tr' -> extends (kubes tr) (kubes tr').
Proof. apply extends_omap. Qed.
Lemma reconcile_retention_wp c now tr :
  wp (retention_guard c now) (fun _ _ => True) (reconcileRetention L base64 spec_hash a plugins_of decode_status set_condition o c now) tr.
Proof.
  unfold reconcileRetention. eapply wp_quiet; [apply configuration_calm|apply configuration_known|]. intros tr1 [[labels spec]|e] _ H1; [|done].
  destruct (H1 _ _ eq_refl) as (name & first & Hn & Hf & Hs). clear H1. eapply wp_quiet; [apply object_calm|apply object_known|].
  intros tr2 [object|e] He2 H2; [|done]. destruct (H2 _ eq_refl) as (name' & current & Hn' & Ho & Hd & Hh). clear H2. rewrite Hn in Hn'. injection Hn' as <-.
  destruct (decode_status (ob_status object)) as [state|] eqn:Est; [|done]. destruct (retention_due spec_hash spec state now) eqn:Edue; [|done]. cbn [negb]. cbv zeta.
  apply wp_bind. apply (wp_mono _ (fun _ _ => True)).
  - intros tr3 [w blocked] _. apply wp_bind. apply (wp_mono _ (fun _ _ => True)); [|destruct (_ && _); [by split|done]].
    intros tr4 nextRun _. apply wp_call; [done|]. intros []. apply wp_call; [done|]. intros []. apply wp_call; [done|]. intros [k|]; [done|].
    apply wp_bind. apply (wp_mono _ (fun _ _ => True)); [done|]. destruct (blocked && _); [|done]. split; [done|]. done.
  - destruct (rt_Enabled (sp_Retention spec)) eqn:Een; [|done].
    eapply wp_G_mono; [|exact (wp_since _ _ _ _ (wp_kubed _ _ _ _ (batch_wp (ob_Namespace c) (ob_UID c) spec now (kubes tr2))))].
    intros tr3 X e [Hx Hg]. destruct e as [X e| | | | | |]; try done. destruct e as [X e| | | | | | | |]; try done. destruct e; try done. cbn in *. intros Hm. exists spec.
    split; [|by apply Hg]. apply kubes_extends in Hx as [later Hx]. rewrite Ho in Hx.
    by exists name, first, object, current, state, later, (kubes tr1).
Qed.
End Retention.

(** C7: The manager deletes only on behalf of a due and enabled retention.  Every mutating request to storage that the reconciliation of a Cluster
    makes, whatever the API server and storage answer, is one of a retention run over the repository of the configuration; before the run that
    repository was opened, its identity read from storage and strictly decoded naming this Cluster as its writer.  The Repository was read, and
    then read a second time with the same configuration, and the status of the second reading says that an enabled retention is due.  The
    request is entitled as every effect of a run with the options of that configuration at this time is: a write of the gate over the version read,
    or one of a batch that the planner's own decision over complete inventories gives. *)
Theorem managed_retention_safe L base64 spec_hash a plugins_of decode_status set_condition o c now pre X (ev : Store.event X) :
  order_ok o ->
  emits (reconcileRetention L base64 spec_hash a plugins_of decode_status set_condition o c now) [] pre _ (Kube (Host (Remote ev))) -> mutating ev = true ->
  exists spec r l base, entitled L spec_hash plugins_of decode_status c spec now (kubes pre) /\ storage pre = l ++ base /\ opened r base
    /\ id_RepositoryID (r_id r) = sp_RepositoryID spec /\ id_WriterClusterUID (r_id r) = ob_UID c
    /\ entitled_effect (lb_gunzip L) r (sp_Compression spec) o now (run_options L spec) l X ev.
Proof.
  intros Ho He Hm. destruct (wp_emits _ _ _ _ _ _ _ (reconcile_retention_wp L base64 spec_hash a plugins_of decode_status set_condition o c now []) He Hm)
    as (spec & Hs & r & l & base & H1 & H2 & H3 & H4 & H5).
  exists spec, r, l, base. split_and!; try done. by eapply run_entitled.
Qed.

(** ** Warnings *)
Definition no_event X (e : kube X) : Prop := match e with KCreate _ _ _ => False | _ => True end.
Definition silent X (e : mg X) : Prop := match e with Kube e => no_event _ e | _ => True end.
Section Warnings.
Context (L : Libraries) (base64 : string -> option string) (spec_hash : Spec -> string) (a : API).
Context (plugins_of : string -> list (option (string * string))) (decode_status : string -> option repositoryStatus).
Context (set_condition : Condition -> list Condition -> list Condition) (has_condition : string -> list Condition -> bool) (o : order).

Lemma any_calls {E : Type -> Type} {A} (p : Prog.prog E A) : calls (fun _ _ => True) p.
Proof. intros tr. induction p as [x|X e k IH] in tr |- *; cbn; [done|]. split; [done|]. intros x. apply IH. Qed.
Lemma host_silent {A} (p : oprog A) : calls no_event (host p).
Proof. apply (host_calls (fun _ _ => True)); [done|apply any_calls]. Qed.
Lemma get_silent kind ns name : calls no_event (Get a kind ns name).
Proof. unfold Get. by repeat calls_step. Qed.
Lemma secret_silent ns secrets s : calls no_event (read_secret base64 a ns secrets s).
Proof. unfold read_secret. calls_step; [repeat calls_step; apply get_silent|]. repeat calls_step. Qed.
Lemma snapshot_silent ns spec : calls no_event (repositorySnapshot L base64 a ns spec).
Proof. unfold repositorySnapshot. calls_step; [apply secret_silent|]. repeat calls_step; try apply secret_silent; try apply get_silent. apply host_silent. Qed.
Lemma repository_silent ns name : calls no_event (API_Repository L base64 a ns name).
Proof. unfold API_Repository. calls_step; [apply get_silent|]. repeat calls_step. apply snapshot_silent. Qed.
Lemma configuration_silent c : calls no_event (backupConfiguration L a plugins_of c).
Proof. unfold backupConfiguration. calls_step; [|calls_step]. calls_step; [apply get_silent|]. by repeat calls_step. Qed.
Lemma object_silent c spec : calls no_event (retention_object L spec_hash a plugins_of c spec).
Proof. unfold retention_object. calls_step; [|by repeat calls_step]. calls_step; [apply get_silent|]. by repeat calls_step. Qed.
Lemma batch_silent ns writer spec now : calls no_event (retentionBatch L base64 a o ns writer spec now).
Proof.
  unfold retentionBatch. calls_step; [apply snapshot_silent|]. repeat first [apply host_silent|calls_step].
Qed.

(** A delivered warning: a status that an accepted update stored says that it was given now, and the one before it allowed that. *)
Definition stored_throttle (object : Object) (now : Time) (field : repositoryStatus -> option Time) (tr : mtrace) : Prop :=
  exists previous next, decode_status (ob_status object) = Some previous /\ due_again (field previous) now = true /\ field next = Some now
    /\ Act (PatchStatus (ob_Namespace object) (ob_Name object) (ob_ResourceVersion object) next) None ∈ tr.
Definition event_guard (P : mtrace -> Prop) (tr : mtrace) X (e : mg X) : Prop :=
  match e in mg Y return Prop with Kube (KCreate _ _ _) => P tr | _ => True end.
Lemma silent_guard P tr X (e : mg X) : silent X e -> event_guard P tr X e.
Proof. destruct e as [X e| | | | | |]; try done. by destruct e. Qed.
Lemma wp_silent {A B} P (p : kprog A) (f : A -> mprog B) (Q : mtrace -> B -> Prop) tr :
  calls no_event p -> (forall tr' x, wp (event_guard P) Q (f x) tr') -> wp (event_guard P) Q (bind (kubed p) f) tr.
Proof.
  intros Hp Hf. eapply (wp_calls_bind _ silent (fun _ _ => True)); [intros; by apply silent_guard|by apply (kubed_calls no_event)|eapply wp_mono; [|apply wp_grows]; done|].
  intros; apply Hf.
Qed.
Lemma status_events object now tr : wp (event_guard (stored_throttle object now rp_LastWarningTime)) (fun _ _ => True)
  (ReconcileRepositoryStatus L base64 spec_hash a decode_status set_condition has_condition object now) tr.
Proof.
  unfold ReconcileRepositoryStatus. destruct (decode_status (ob_status object)) as [previous|] eqn:Ep; [|done]. apply wp_silent; [apply repository_silent|].
  intros tr1 spec. cbv zeta. wp_if as Ee; [done|]. apply wp_call; [done|]. intros [k|]; [done|]. wp_if as Ew; [|done]. apply andb_true_iff in Ew as [E1 E2].
  apply wp_call; [|intros [x|e]; done]. cbn. exists previous. eexists. split; [done|]. split; [done|]. split; [|by left].
  destruct spec as [s|e]; [done|]. cbn [to_option next_status rp_LastWarningTime negb andb]. by rewrite E2.
Qed.
Definition retention_warning (s : repositoryStatus) : option Time := match rp_Retention s with Some r => rn_LastWarningTime r | None => None end.
Lemma retention_events c now tr : wp (event_guard (fun tr => exists object, stored_throttle object now retention_warning tr)) (fun _ _ => True)
  (reconcileRetention L base64 spec_hash a plugins_of decode_status set_condition o c now) tr.
Proof.
  unfold reconcileRetention. apply wp_silent; [apply configuration_silent|]. intros tr1 [[labels spec]|e]; [|done]. apply wp_silent; [apply object_silent|].
  intros tr2 [object|e]; [|done]. destruct (decode_status (ob_status object)) as [state|] eqn:Es; [|done]. wp_if as Ed; [done|]. cbv zeta.
  apply wp_bind. apply (wp_mono _ (fun _ _ => True)).
  - intros tr3 [w blocked] _. apply wp_bind. apply (wp_mono _ (fun _ _ => True)); [|destruct (_ && _); [by split|done]].
    intros tr4 nextRun _. apply wp_call; [done|]. intros []. apply wp_call; [done|]. intros []. apply wp_call; [done|]. intros [k|]; [done|].
    apply wp_bind. apply (wp_mono _ (fun _ _ => True)); [done|]. fold (retention_warning state). destruct (blocked && due_again (retention_warning state) now) eqn:Ew; [|done].
    apply wp_call; [|done]. cbn. apply andb_true_iff in Ew as [E1 E2]. exists object, state. eexists. split; [done|]. split; [done|]. split; [|by left].
    done.
  - destruct (rt_Enabled _); [|done]. eapply (wp_calls _ silent); [intros; by apply silent_guard| |eapply wp_mono; [|apply wp_grows]; done].
    apply (kubed_calls no_event); [done|]. apply batch_silent.
Qed.
End Warnings.

(** A warning about a Repository is throttled across restarts.  An event is created, for an invalid configuration or a blocked retention, only
    after the API server accepted a status of this Repository that records the warning at this time, under the version that was read; and
    the status before it recorded none within five minutes.  A manager that crashes or loses the answer warns less, never more. *)
Theorem warning_after_throttle L base64 spec_hash a plugins_of decode_status set_condition has_condition o object c now pre ns event :
  (emits (ReconcileRepositoryStatus L base64 spec_hash a decode_status set_condition has_condition object now) [] pre _ (Kube (KCreate "events" ns event))
   -> stored_throttle decode_status object now rp_LastWarningTime pre)
  /\ (emits (reconcileRetention L base64 spec_hash a plugins_of decode_status set_condition o c now) [] pre _ (Kube (KCreate "events" ns event))
   -> exists object, stored_throttle decode_status object now retention_warning pre).
Proof.
  split; intros He.
  - exact (wp_emits _ _ _ _ _ _ _ (status_events L base64 spec_hash a decode_status set_condition has_condition object now []) He).
  - exact (wp_emits _ _ _ _ _ _ _ (retention_events L base64 spec_hash a plugins_of decode_status set_condition o c now []) He).
Qed.

(** ** A concrete retention

    The manager collects an abandoned manifest of the small repository. *)
Definition retention_json : string := object_of
  [text_of "repositoryID" (id_RepositoryID ex_identity);
   member_of "s3" (object_of [text_of "endpoint" "https://s3.example"; text_of "bucket" "bucket"; text_of "prefix" "p";
     member_of "accessKeySecret" selector_json; member_of "secretKeySecret" selector_json]);
   member_of "retention" (object_of [member_of "enabled" "true"; member_of "dryRun" "false"; text_of "window" "24h"]);
   member_of "workspace" (object_of [text_of "storageClassName" "fast"])].
Definition demo_managed : Object := mkObj "restored" (id_WriterClusterUID ex_identity) "7" None false ∅ ∅ false "plugins" "db" 1 "".
Definition demo_repository : Object := mkObj "mine" "" "9" None false ∅ ∅ false retention_json "db" 1 "fresh".
Definition demo_plugins (_ : string) : list (option (string * string)) := [None; Some ("other", ""); Some (PluginName, "mine")].
Definition demo_decode (_ : string) : option repositoryStatus := Some (mkRepositoryStatus None 0 "" [] None).
Definition retention_kernel : Kernel := mkKernel None (fun _ => None) (fun _ => Some ("/dev/a", mkStatfs EXT4_SUPER_MAGIC 4096 262144 262144)).
Definition manager_kube : Prog.handler (E := kube) memory := fun X e m =>
  match e in kube X return X * memory with
  | Host e => match e in os X return X * memory with ReadKernel => (retention_kernel, m) | e => sidecar_os _ e m end
  | KGet kind _ _ => (Ok (if kind ==? "secrets" then demo_secret else demo_repository), m)
  | KCreate _ _ o => (Ok o, m)
  | KUpdate _ _ _ => (None, m)
  | KList _ _ _ _ => (Err ErrOther, m)
  | KFirst _ _ => (Err ErrOther, m)
  | KWatch _ _ _ => (WatchFailed, m)
  | KRound => (WatchClosed, m)
  | KTick => (false, m)
  end.
Definition manager : Prog.handler (E := mg) memory := fun X e m =>
  match e in mg X return X * memory with
  | Kube e => manager_kube _ e m
  | Metrics f => ((f newBackupMetrics).1, m)
  | Observed f => ((f ∅).1, m)
  | Failure _ _ => (false, m)
  | ListOne _ _ _ => (Ok ([demo_managed], ""), m)
  | PatchStatus _ _ _ _ => (None, m)
  | PassOver => (false, m)
  end.
Definition demo_hash (s : Spec) : string := sp_RepositoryID s.
Definition demo_reconcile : mprog (res ()) :=
  reconcileRetention sidecar_libraries Some demo_hash demo_api demo_plugins demo_decode (fun c l => c :: l) tree_order demo_managed demo_now.
Definition storage_delete X (e : mg X) : bool := match e with Kube (Host (Remote (Delete _))) => true | _ => false end.
Lemma managed_retention_safe_witness : exists pre key spec r l base,
  entitled sidecar_libraries demo_hash demo_plugins demo_decode demo_managed spec demo_now (kubes pre) /\ storage pre = l ++ base /\ opened r base
  /\ id_RepositoryID (r_id r) = sp_RepositoryID spec /\ id_WriterClusterUID (r_id r) = ob_UID demo_managed
  /\ entitled_effect (lb_gunzip sidecar_libraries) r (sp_Compression spec) tree_order demo_now (run_options sidecar_libraries spec) l _ (Delete key).
Proof.
  destruct (run_emits manager storage_delete demo_reconcile demo_run_memory []) as (pre & X & e & Hp & He).
  - reflexivity.
  - vm_compute. reflexivity.
  - destruct e as [X e| | | | | |]; try discriminate Hp. destruct e as [X e| | | | | | | |]; try discriminate Hp. destruct e as [X e| | | | | | | | | | | | | | | | | | |]; try discriminate Hp.
    destruct e; try discriminate Hp. unfold demo_reconcile in He. exists pre. eexists.
    exact (managed_retention_safe sidecar_libraries Some demo_hash demo_api demo_plugins demo_decode (fun c l => c :: l) tree_order demo_managed demo_now pre _ _ tree_order_ok He eq_refl).
Defined.

(** ** A concrete failure

    A backup fails after the initial list; its UID is queued twice. *)
Definition demo_failed : backupObject := compactBackup (mkBackup "uid-1" "nightly" "db" "12" (list_to_map
  [(["spec"; "method"], "plugin"); (["spec"; "cluster"; "name"], "restored"); (["spec"; "pluginConfiguration"; "name"], PluginName);
   (["spec"; "pluginConfiguration"; "parameters"; "backupType"], "full"); (["status"; "phase"], "failed"); (["status"; "error"], "secret")])).
Definition demo_process : mprog (res ()) := process sidecar_libraries demo_api demo_plugins "uid-1" demo_now.
Definition demo_first : list label * observations * backupMetrics :=
  work manager demo_run_memory "uid-1" demo_process (observe demo_failed false ∅).2 newBackupMetrics.
Definition demo_second : list label * observations * backupMetrics := work manager demo_run_memory "uid-1" demo_process demo_first.1.2 demo_first.2.
Definition demo_labels : list label :=
  Seen demo_failed false :: Take "uid-1" demo_now :: demo_first.1.1 ++ Take "uid-1" demo_now :: demo_second.1.1 ++ [].
Lemma demo_counted : steps sidecar_libraries demo_api demo_plugins start demo_labels (mkMachine demo_second.1.2 demo_second.2 None).
Proof.
  unfold demo_labels, start. eapply steps_cons; [apply step_seen|]. eapply steps_cons; [apply step_take|]. apply work_steps. fold demo_process. fold demo_first.
  destruct demo_first as [[l o] m] eqn:E1. eapply steps_cons; [apply step_take|].
  replace demo_second with (work manager demo_run_memory "uid-1" demo_process o m) by (unfold demo_second; by rewrite E1). apply work_steps. fold demo_process.
  destruct (work manager demo_run_memory "uid-1" demo_process o m) as [[l2 o2] m2]. constructor.
Qed.
Lemma failure_counted_once_witness : number (counts "uid-1") demo_labels = 1%nat /\ (number (counts "uid-1") demo_labels <= number (goes "uid-1") demo_labels + 1)%nat
  /\ exists before l after, demo_labels = before ++ Counted "uid-1" l :: after /\ first_shown "uid-1" (bl_Type l) before.
Proof.
  split; [vm_compute; reflexivity|].
  destruct (failure_counted_once sidecar_libraries demo_api demo_plugins demo_labels _ "uid-1" demo_counted) as [H1 H2]. split; [exact H1|].
  assert (H : exists l, Counted "uid-1" l ∈ demo_labels).
  { assert (E : existsb (counts "uid-1") demo_labels = true) by (vm_compute; reflexivity). apply existsb_exists in E as (x & Hx & Ex).
    destruct x; try discriminate Ex. cbn in Ex. apply bool_decide_eq_true in Ex as ->. exists l. by apply list_elem_of_In. }
  destruct H as [l H]. apply list_elem_of_split in H as (before & after & E). exists before, l, after. split; [exact E|exact (H2 _ _ _ E)].
Defined.
