(* ===== verification/CnpgPlacement.v ===== *)
(** * Placing the sidecar (internal/cnpgi/placement.go, collisions.go, version.go, manager.go)

    The lifecycle hook turns CNPG's Pod or Job template into one with the plugin's volumes, mounts and containers.  The Kubernetes
    structures keep the fields the code reads or writes; everything else of a foreign container or volume is one opaque text. *)

From S2P Require Import Guard CnpgRestore.
From S2P Require Import Prelude GoStrings GoTime Sha256 Errors Schema Json LooseJson Prog ProgRules Store GuardConfig Gate Repository RecoveryPlan.
From S2P Require Import S3Config Configuration Capacity NativeOps NativeText NativeBudget ConfigSnapshot CnpgCluster CnpgOps CnpgWal CnpgKube CnpgRecovery.

(** ** Pods *)
Record VolumeMount := mkMount {
  vm_Name : string; vm_MountPath : string; vm_SubPath : string; vm_SubPathExpr : string; vm_ReadOnly : bool; vm_MountPropagation : option string }.
(** An environment variable: a field reference, or anything else. *)
Record EnvVar := mkEnv { ev_Name : string; ev_FieldRef : option (string * string); ev_rest : string }.
(** A projected volume's sources: the object's name and the keys with their paths. *)
Inductive VolumeProjection := FromConfigMap (name : string) (items : list (string * string)) | FromSecret (name : string) (items : list (string * string)).
Inductive VolumeSource :=
| Claim (name : string) (readonly : bool)
| EmptyDir (limit : string)
| Projection (sources : list VolumeProjection)
| Ephemeral (storageClass size : string)
| ConfigVolume (name : string)
| OtherVolume (text : string).
Record Volume := mkVolume { vo_Name : string; vo_source : VolumeSource }.
(** What else a container has: the plugin's own two containers are fixed but for the mode, the resources and the identity. *)
Inductive ContainerRest := OtherContainer (text : string) | SidecarRest (mode : string) (r : Resources) (uid gid : Z) | PreparerRest (r : Resources) (uid gid : Z).
Record Container := mkContainer {
  cn_Name : string; cn_Image : string; cn_Command : list string; cn_Args : list string; cn_Env : list EnvVar; cn_VolumeMounts : list VolumeMount;
  cn_identity : option (option Z * option Z); cn_rest : ContainerRest }.
Record PodSecurity := mkPodSecurity { sx_RunAsUser : option Z; sx_RunAsGroup : option Z; sx_FSGroupChangePolicy : option string; sx_rest : string }.
Record PodSpec := mkPodSpec {
  ps_HostPID : bool; ps_ShareProcessNamespace : option bool; ps_SecurityContext : option PodSecurity; ps_Containers : list Container;
  ps_InitContainers : list Container; ps_Volumes : list Volume }.
#[export] Instance Recovery_eq_dec : EqDecision Recovery.
Proof. solve_decision. Defined.
Record ObjectMeta := mkMeta { md_Namespace : string; md_Labels : option (gmap string string); md_Annotations : option (gmap string string) }.
#[export] Instance Resources_eq_dec : EqDecision Resources.
Proof. solve_decision. Defined.
#[export] Instance VolumeMount_eq_dec : EqDecision VolumeMount.
Proof. solve_decision. Defined.
#[export] Instance EnvVar_eq_dec : EqDecision EnvVar.
Proof. solve_decision. Defined.
#[export] Instance VolumeProjection_eq_dec : EqDecision VolumeProjection.
Proof. solve_decision. Defined.
#[export] Instance VolumeSource_eq_dec : EqDecision VolumeSource.
Proof. solve_decision. Defined.
#[export] Instance Volume_eq_dec : EqDecision Volume.
Proof. solve_decision. Defined.
#[export] Instance ContainerRest_eq_dec : EqDecision ContainerRest.
Proof. solve_decision. Defined.
#[export] Instance Container_eq_dec : EqDecision Container.
Proof. solve_decision. Defined.
#[export] Instance PodSecurity_eq_dec : EqDecision PodSecurity.
Proof. solve_decision. Defined.

Definition ownedAnnotation : string := "cnpg-backup.djosh34.github.io/owner".
Definition configAnnotation : string := "cnpg-backup.djosh34.github.io/config".
(** [slices.IndexFunc] *)
Definition index_of {A} (p : A -> bool) (l : list A) : option nat := fst <$> list_find (fun x => p x = true) l.

(** ** Checks of a template *)
Definition name_step (seen : list string) (name : string) : res (list string) := if bool_decide (name ∈ seen) then Err ErrOther else Ok (name :: seen).
Definition unique (names : list string) : res () := let? _ := forM names [] name_step in Ok ().
Definition container_step (seen : list string) (c : Container) : res (list string) :=
  let? seen := name_step seen (cn_Name c) in let? _ := unique (map vm_MountPath (cn_VolumeMounts c)) in Ok seen.
Definition uniquePlacementNames (s : PodSpec) : res () :=
  let? _ := unique (map vo_Name (ps_Volumes s)) in
  let? _ := forM (ps_Containers s ++ ps_InitContainers s) [] container_step in Ok ().
Definition main_name (c : Container) : bool :=
  (cn_Name c ==? "postgres") || (cn_Name c ==? "full-recovery") || (cn_Name c ==? "initdb") || (cn_Name c ==? "join").
Definition main_index (s : PodSpec) : option nat :=
  match index_of main_name (ps_Containers s) with
  | Some i => Some i
  | None => if (length (ps_Containers s) =? 1)%nat then Some 0%nat else None
  end.
Definition other_id (want : Z) (got : option Z) : bool := match got with Some n => negb (n =? want) | None => false end.
Definition identity_ok (c : Cluster) (s : PodSpec) : bool :=
  match ps_SecurityContext s with
  | Some x => (sx_RunAsUser x ==? Some (sc_PostgresUID (cl_Spec c))) && (sx_RunAsGroup x ==? Some (sc_PostgresGID (cl_Spec c)))
  | None => false
  end.
(** The main container. *)
Definition main_of (c : Cluster) (s : PodSpec) : res (nat * Container) :=
  if ps_HostPID s || (ps_ShareProcessNamespace s ==? Some true) then Err ErrOther else
  if negb (identity_ok c s) then Err ErrOther else
  match main_index s with
  | None => Err ErrOther
  | Some i =>
      match ps_Containers s !! i with
      | None => Err Panic
      | Some main =>
          match cn_identity main with
          | Some (uid, gid) =>
              if other_id (sc_PostgresUID (cl_Spec c)) uid || other_id (sc_PostgresGID (cl_Spec c)) gid then Err ErrOther else Ok (i, main)
          | None => Ok (i, main)
          end
      end
  end.
Definition guard_prefix : list string := [HelperPath; "recovery-guard"; "--"].
Definition original_argv (main : Container) : list string :=
  let argv := cn_Command main ++ cn_Args main in if take 3 argv ==? guard_prefix then drop 3 argv else argv.
(** The command before it was wrapped, and whether it restores. *)
Definition argv_of (main : Container) (md : ObjectMeta) : res (list string * bool) :=
  let original := original_argv main in
  match original with
  | controller :: instance :: verb :: _ =>
      if (controller !=? "/controller/manager") || (instance !=? "instance") || negb (bool_decide (verb ∈ ["run"; "init"; "join"; "restore"]))
      then Err ErrOther else
      let recovery := verb ==? "restore" in
      if (params (md_Labels md) "cnpg.io/jobRole" ==? "full-recovery") && negb recovery then Err ErrOther else Ok (original, recovery)
  | _ => Err ErrOther
  end.
Definition is_sidecar (v : Container) : bool := cn_Name v ==? "cnpg-backup".
Definition is_preparer (v : Container) : bool := cn_Name v ==? "cnpg-backup-socket-init".
Definition owned_by (c : Cluster) (md : ObjectMeta) : bool := params (md_Annotations md) ownedAnnotation ==? cl_UID c.

(** ** The database's volumes *)
Definition target_volumes (c : Cluster) : gmap string string :=
  let m := {["pgdata" := "/var/lib/postgresql/data"]} in
  let m := if present (sc_WALStorage (cl_Spec c)) then <["pg-wal" := "/var/lib/postgresql/wal"]> m else m in
  foldl (fun m t => <[tablespaceVolume t.1 := "/var/lib/postgresql/tablespaces/" +:+ t.1]> m) m (sc_Tablespaces (cl_Spec c)).
Record Targets := mkTargets { tv_left : gmap string string; tv_mounts : list VolumeMount; tv_guard : list GuardConfig.Target }.
Definition volume_named (s : PodSpec) (name : string) : option Volume := snd <$> list_find (fun v => vo_Name v = name) (ps_Volumes s).

Section Placement.
Context (L : Libraries) (base64 : string -> option string) (spec_hash : Spec -> string) (a : API).
(** [json.Marshal] of a specification, and the claim's volume mode when the object converts. *)
Context (spec_text : Spec -> string) (volume_mode : Object -> option (option string)).

Definition claim_target (c : Cluster) (m : VolumeMount) (claim : string) : kprog (res GuardConfig.Target) :=
  let! o := Get a "persistentvolumeclaims" (cl_Namespace c) claim in
  Ret (match o with
       | Err _ => Err ErrOther
       | Ok o =>
           match volume_mode o with
           | None => Err ErrOther
           | Some mode =>
               if (option_map fst (ob_controller o) !=? Some (cl_UID c)) || ob_deleting o || (ob_UID o ==? "")
                  || match mode with Some v => v !=? "Filesystem" | None => false end then Err ErrOther
               else Ok (GuardConfig.mkTarget (ob_UID o) (vm_MountPath m))
           end
       end).
Definition visit_mount (c : Cluster) (s : PodSpec) (recovery : bool) (t : Targets) (m : VolumeMount) : kprog (res Targets) :=
  match tv_left t !! vm_Name m with
  | None => if HasPrefix (vm_Name m) "tbs-" || HasPrefix (vm_MountPath m) "/var/lib/postgresql/" then fail ErrOther else done t
  | Some expected =>
      if (vm_MountPath m !=? expected) || (vm_SubPath m !=? "") || (vm_SubPathExpr m !=? "") || vm_ReadOnly m || (vm_MountPropagation m !=? None)
      then fail ErrOther else
      match volume_named s (vm_Name m) with
      | Some (mkVolume _ (Claim claim false)) =>
          let* guard := (if recovery then let* g := claim_target c m claim in done (tv_guard t ++ [g]) else done (tv_guard t)) in
          done (mkTargets (delete (vm_Name m) (tv_left t)) (tv_mounts t ++ [m]) guard)
      | _ => fail ErrOther
      end
  end.

(** ** What is projected *)
Definition wal_placement (c : Cluster) (destination : string) : WALPlacement :=
  mkWALPlacement (cl_UID c) (cl_Namespace c) (cl_Name c) destination (physicalWAL c).
Definition wal_placement_json (p : WALPlacement) : json := JObject
  [("clusterUID", JText (wp_ClusterUID p)); ("namespace", JText (wp_Namespace p)); ("cluster", JText (wp_Cluster p)); ("repository", JText (wp_Repository p));
   ("walDirectory", JText (wp_WALDirectory p))].
Definition budget_json (b : FilesystemBudget) : json :=
  JObject [("mount", JText (fb_Mount b)); ("limitBytes", JNumber (FormatInt (fb_LimitBytes b))); ("requiredBytes", JNumber (FormatInt (fb_RequiredBytes b)))].
(** [json.Marshal] of a string map: its members in order. *)
Definition string_map_json (m : gmap string string) : json :=
  JObject (map (fun kv => (kv.1, JText kv.2)) (sort_slice (fun x y => String.ltb x.1 y.1) (map_to_list m))).
Definition native_json (c : Cluster) : json := JObject
  [("host", JText (cl_Name c +:+ "-rw." +:+ cl_Namespace c +:+ ".svc"));
   ("tablespaces", string_map_json (foldl (fun m t => <[t.1 := "/var/lib/postgresql/tablespaces/" +:+ t.1 +:+ "/data"]> m) ∅ (sc_Tablespaces (cl_Spec c))))].
Definition recovery_placement (c : Cluster) (source destination : string) (src dst : Spec) : RecoveryPlacement :=
  mkRecoveryPlacement (cl_UID c) (cl_Namespace c) (cl_Name c) (OperationUID c) (BootstrapFingerprint c) source destination (spec_hash src) (spec_hash dst).
Definition projection_data (c : Cluster) (destination : string) (dst : Spec) (recovery : option (RecoveryPlacement * Spec)) (capacity : list FilesystemBudget)
    : gmap string string :=
  let m := {["destination.json" := spec_text dst; "capacity.json" := print (JArray (map budget_json capacity))]} in
  match recovery with
  | None => <["native.json" := print (native_json c)]> (<["wal.json" := print (wal_placement_json (wal_placement c destination))]> m)
  | Some (p, src) => <["source.json" := spec_text src]> (<["recovery.json" := print (placement_json p)]> m)
  end.
Definition config_name (c : Cluster) (data : gmap string string) : string :=
  cl_Name c +:+ "-cb-" +:+ String.substring 0 12 (digest (print (string_map_json data))).
Definition role_sources (config role : string) (s : Spec) : list VolumeProjection :=
  let secret path (x : Selector) := FromSecret (sel_Name x) [(sel_Key x, role +:+ "/" +:+ path)] in
  [FromConfigMap config [(role +:+ ".json", role +:+ "/repository.json")]; secret "accessKey" (s3_AccessKeySecret (sp_S3 s)); secret "secretKey" (s3_SecretKeySecret (sp_S3 s))]
  ++ (match s3_SessionTokenSecret (sp_S3 s) with Some x => [secret "sessionToken" x] | None => [] end)
  ++ (match s3_CAConfigMap (sp_S3 s) with Some x => [FromConfigMap (sel_Name x) [(sel_Key x, role +:+ "/ca.crt")]] | None => [] end).
Definition or_name (name default : string) : string := if name ==? "" then default else name.
(** The replication client's identity and the public authorities; each Secret must be readable. *)
Definition native_refs (c : Cluster) : list (string * list (string * string)) :=
  let t := sc_Certificates (cl_Spec c) in
  [(or_name (ct_Replication t) (cl_Name c +:+ "-replication"), [("tls.crt", "native/tls.crt"); ("tls.key", "native/tls.key")]);
   (or_name (ct_ServerCA t) (cl_Name c +:+ "-ca"), [("ca.crt", "native/ca.crt")]);
   (or_name (ct_ClientCA t) (cl_Name c +:+ "-ca"), [("ca.crt", "native/client-ca.crt")])].
Definition native_sources (c : Cluster) (config : string) : kprog (res (list VolumeProjection)) :=
  visit_all (native_refs c) [FromConfigMap config [("native.json", "native/connection.json"); ("wal.json", "wal.json")]] (fun l ref =>
    let! o := Get a "secrets" (cl_Namespace c) ref.1 in
    Ret (match o with Err _ => Err ErrOther | Ok _ => Ok (l ++ [FromSecret ref.1 ref.2]) end)).
Definition projection_sources (c : Cluster) (config : string) (dst : Spec) (src : option Spec) : kprog (res (list VolumeProjection)) :=
  let base := FromConfigMap config [("capacity.json", "capacity.json")] :: role_sources config "destination" dst in
  match src with
  | Some src => done (base ++ role_sources config "source" src
                      ++ [FromConfigMap config [("recovery.json", "recovery.json")]; FromConfigMap (operationName c) [("operation.json", "operation.json")]])
  | None => let* l := native_sources c config in done (base ++ l)
  end.

(** ** The plugin's volumes, mounts and containers *)
Definition own_volumes (c : Cluster) (dst : Spec) (sources : list VolumeProjection) (recovery : bool) : list Volume :=
  [mkVolume "cnpg-backup-plugins" (EmptyDir "1Mi"); mkVolume "cnpg-backup-bin" (EmptyDir "128Mi"); mkVolume "cnpg-backup-state" (EmptyDir "64Mi");
   mkVolume "cnpg-backup-projection" (Projection sources);
   mkVolume "cnpg-backup-work" (Ephemeral (ws_StorageClassName (sp_Workspace dst)) (ws_Size (sp_Workspace dst)))]
  ++ (if recovery then [mkVolume "cnpg-backup-config" (ConfigVolume (cl_Name c +:+ "-cb-targets"))] else []).
Definition put_volume (owned : bool) (l : list Volume) (v : Volume) : res (list Volume) :=
  match index_of (fun w => vo_Name w ==? vo_Name v) l with
  | Some i => if owned then Ok (<[i := v]> l) else Err ErrOther
  | None => Ok (l ++ [v])
  end.
Definition plain_mount (name path sub : string) (readonly : bool) : VolumeMount := mkMount name path sub "" readonly None.
Definition config_mount : VolumeMount := plain_mount "cnpg-backup-config" "/cnpg-backup/config" "" true.
Definition main_mounts (recovery : bool) : list VolumeMount :=
  [plain_mount "cnpg-backup-plugins" "/plugins" "plugins" false; plain_mount "cnpg-backup-bin" "/cnpg-backup/bin" "" true;
   plain_mount "cnpg-backup-state" "/cnpg-backup/state" "" true] ++ (if recovery then [config_mount] else []).
Definition addMount (owned : bool) (l : list VolumeMount) (m : VolumeMount) : res (list VolumeMount) :=
  match index_of (fun v => (vm_Name v ==? vm_Name m) || (vm_MountPath v ==? vm_MountPath m)) l with
  | Some i =>
      match l !! i with
      | Some v => if negb owned || (vm_Name v !=? vm_Name m) || (vm_MountPath v !=? vm_MountPath m) then Err ErrOther else Ok (<[i := m]> l)
      | None => Err Panic
      end
  | None => Ok (l ++ [m])
  end.
Definition sidecar_mounts (data : list VolumeMount) (recovery : bool) : list VolumeMount :=
  data ++ [plain_mount "cnpg-backup-plugins" "/plugins" "plugins" false; plain_mount "cnpg-backup-bin" "/cnpg-backup/bin" "" false;
           plain_mount "cnpg-backup-state" "/cnpg-backup/state" "" false; plain_mount "cnpg-backup-projection" "/cnpg-backup/projection" "" true;
           plain_mount "cnpg-backup-work" "/cnpg-backup/work" "" false] ++ (if recovery then [config_mount] else []).
Definition pod_uid : EnvVar := mkEnv "POD_UID" (Some ("v1", "metadata.uid")) "".
Definition binary : string := "/usr/local/bin/cnpg-backup".
Definition sidecar_of (c : Cluster) (dst : Spec) (image : string) (data : list VolumeMount) (recovery : bool) : Container :=
  let mode := if recovery then "recovery-job" else "instance" in
  let uid := sc_PostgresUID (cl_Spec c) in let gid := sc_PostgresGID (cl_Spec c) in
  mkContainer "cnpg-backup" image [binary; mode] [] [pod_uid] (sidecar_mounts data recovery) (Some (Some uid, Some gid)) (SidecarRest mode (sp_Resources dst) uid gid).
Definition preparer_of (c : Cluster) (dst : Spec) (image : string) : Container :=
  let uid := sc_PostgresUID (cl_Spec c) in let gid := sc_PostgresGID (cl_Spec c) in
  mkContainer "cnpg-backup-socket-init" image [binary; "instance"; "--prepare-socket"] [] [] [plain_mount "cnpg-backup-plugins" "/cnpg-backup/socket-root" "" false]
    (Some (Some uid, Some gid)) (PreparerRest (sp_Resources dst) uid gid).
Definition put_containers (owned : bool) (sidecar preparer : Container) (l : list Container) : res (list Container) :=
  let index := index_of is_sidecar l in
  let prepare := index_of is_preparer l in
  match index, prepare with
  | None, None => Ok (l ++ [preparer; sidecar])
  | None, Some _ => Err ErrOther
  | Some _, None => Err ErrOther
  | Some i, Some j => if negb owned || (i <=? j)%nat then Err ErrOther else Ok (<[j := preparer]> (<[i := sidecar]> l))
  end.
Definition with_command (main : Container) (command : list string) (env : list EnvVar) : Container :=
  mkContainer (cn_Name main) (cn_Image main) command [] env (cn_VolumeMounts main) (cn_identity main) (cn_rest main).
Definition with_mounts (main : Container) (l : list VolumeMount) : Container :=
  mkContainer (cn_Name main) (cn_Image main) (cn_Command main) (cn_Args main) (cn_Env main) l (cn_identity main) (cn_rest main).
(** The guard in front of the recovery command, with the Pod's identity. *)
Definition wrap_main (c : Cluster) (main : Container) (original : list string) : res Container :=
  match WrapArgv original [] (present (sc_WALStorage (cl_Spec c))) with
  | Err _ => Err ErrOther
  | Ok wrapped =>
      match snd <$> list_find (fun v => ev_Name v = "POD_UID") (cn_Env main) with
      | Some v => if v !=? pod_uid then Err ErrOther else Ok (with_command main wrapped (cn_Env main))
      | None => Ok (with_command main wrapped (cn_Env main ++ [pod_uid]))
      end
  end.
Definition annotate (c : Cluster) (config : string) (recovery : bool) (md : ObjectMeta) : ObjectMeta :=
  let m := default ∅ (md_Annotations md) in
  let m := if recovery then <[operationAnnotation := OperationUID c]> m else m in
  mkMeta (md_Namespace md) (md_Labels md) (Some (<[configAnnotation := config]> (<[ownedAnnotation := cl_UID c]> m))).
Definition on_root_mismatch (s : PodSecurity) : PodSecurity := mkPodSecurity (sx_RunAsUser s) (sx_RunAsGroup s) (Some "OnRootMismatch") (sx_rest s).
(** The template with everything in place: [i] is the main container, already wrapped when it restores. *)
Definition assemble (c : Cluster) (dst : Spec) (image config : string) (recovery : bool) (data : list VolumeMount) (sources : list VolumeProjection)
    (i : nat) (main : Container) (s : PodSpec) (md : ObjectMeta) : res (PodSpec * ObjectMeta) :=
  let owned := owned_by c md in
  let? volumes := forM (own_volumes c dst sources recovery) (ps_Volumes s) (put_volume owned) in
  let? mounts := forM (main_mounts recovery) (cn_VolumeMounts main) (addMount owned) in
  let? inits := put_containers owned (sidecar_of c dst image data recovery) (preparer_of c dst image) (ps_InitContainers s) in
  Ok (mkPodSpec (ps_HostPID s) (ps_ShareProcessNamespace s) (on_root_mismatch <$> ps_SecurityContext s) (<[i := with_mounts main mounts]> (ps_Containers s)) inits volumes,
      annotate c config recovery md).

(** ** Injection *)
Definition keeping {A B} (co : coordinator) (p : kprog (res A)) (k : A -> kprog (coordinator * res B)) : kprog (coordinator * res B) :=
  let! x := p in match x with Ok x => k x | Err e => Ret (co, Err e) end.
Notation "'let^' x := p 'at' s 'in' k" := (keeping s p (fun x => k)) (at level 10, x pattern, p at level 100, s at level 100, k at level 200).
Let repositories := Repositories (lb_range L) (lb_IsDNS1123Subdomain L).
Let capacity_of := placementCapacity (lb_ParseQuantity L) (lb_wal_size L).
Definition collision (c : Cluster) (s : PodSpec) (md : ObjectMeta) : bool :=
  existsb is_sidecar (ps_Containers s) || (existsb is_sidecar (ps_InitContainers s) && negb (owned_by c md)).
(** The specifications the template needs; a recovery has a source of another lineage. *)
Definition placement_specs (c : Cluster) (recovery : bool) : kprog (res (string * string * Spec * option Spec)) :=
  match repositories c with
  | Err e => fail e
  | Ok (destination, source) =>
      let* dst := API_Repository L base64 a (cl_Namespace c) destination in
      if recovery then
        if source ==? "" then fail ErrOther else
        let* src := API_Repository L base64 a (cl_Namespace c) source in
        if sp_RepositoryID src ==? sp_RepositoryID dst then fail ErrOther else done (destination, source, dst, Some src)
      else done (destination, source, dst, None)
  end.
(** The targets of the guard, published before anything else of the recovery. *)
Definition guarded_main (c : Cluster) (main : Container) (original : list string) (guard : list GuardConfig.Target) : kprog (res (Container * GuardConfig.Config)) :=
  let config := GuardConfig.mkConfig (cl_UID c) (OperationUID c) guard in
  match Config_Validate config with
  | Err _ => fail ErrOther
  | Ok _ =>
      let config := GuardConfig.mkConfig (cl_UID c) (OperationUID c) (sort_slice (fun x y => String.ltb (GuardConfig.tg_PVCUID x) (GuardConfig.tg_PVCUID y)) guard) in
      match wrap_main c main original with
      | Err e => fail e
      | Ok main => EnsureProjection a c (cl_Name c +:+ "-cb-targets") {["guard.json" := print (config_json config)]} ;;* done (main, config)
      end
  end.
Definition inject (co : coordinator) (c : Cluster) (s : PodSpec) (md : ObjectMeta) (image : string) : kprog (coordinator * res (PodSpec * ObjectMeta)) :=
  let^ (i, main, original, recovery) := Ret (let? _ := uniquePlacementNames s in let? (i, main) := main_of c s in
                                             let? (original, recovery) := argv_of main md in Ok (i, main, original, recovery)) at co in
  let^ (destination, source, dst, src) := placement_specs c recovery at co in
  if collision c s md then Ret (co, Err ErrOther) else
  let^ t := visit_all (cn_VolumeMounts main) (mkTargets (target_volumes c) [] []) (visit_mount c s recovery) at co in
  if negb (bool_decide (tv_left t = ∅)) then Ret (co, Err ErrOther) else
  let^ (main, guard) := (if recovery then guarded_main c main original (tv_guard t) else done (main, GuardConfig.mkConfig (cl_UID c) (OperationUID c) [])) at co in
  let^ capacity := Ret (capacity_of c dst) at co in
  let! (co, placement) := match src with
                          | None => Ret (co, Ok None)
                          | Some src =>
                              let p := recovery_placement c source destination src dst in
                              let! (co, x) := ensureRecovery L base64 a co c p guard src in
                              Ret (co, match x with Ok _ => Ok (Some (p, src)) | Err e => Err e end)
                          end in
  match placement with
  | Err e => Ret (co, Err e)
  | Ok placement =>
      let data := projection_data c destination dst placement capacity in
      let config := config_name c data in
      let^ _ := EnsureProjection a c config data at co in
      let^ sources := projection_sources c config dst src at co in
      Ret (co, assemble c dst image config recovery (tv_mounts t) sources i main s md)
  end.

(** ** The patch of a template *)
Inductive patch_value := PContainers (l : list Container) | PVolumes (l : list Volume) | PSecurity (s : option PodSecurity) | PAnnotations (m : option (gmap string string)).
Record patch := mkPatch { pt_Op : string; pt_Path : string; pt_Value : patch_value }.
(** A lifecycle object: its kind, and the Pod or the Job that its text decodes to. *)
Record lifecycle_object := mkLifecycle {
  lo_Kind : string; lo_APIVersion : string; lo_Pod : option (ObjectMeta * PodSpec); lo_Job : option (string * ObjectMeta * PodSpec) }.
Context (decode_object : string -> option lifecycle_object).
Record template := mkTemplate { tp_spec : PodSpec; tp_meta : ObjectMeta; tp_base : string; tp_metaBase : string }.
Definition template_of (c : Cluster) (object : string) : res template :=
  if 2 * 2 ^ 20 <? len object then Err ErrOther else
  match decode_object object with
  | None => Err ErrOther
  | Some o =>
      let? t := (if (lo_Kind o ==? "Pod") && (lo_APIVersion o ==? "v1") then
                   match lo_Pod o with None => Err ErrOther | Some (md, s) => Ok (mkTemplate s md "/spec" "/metadata") end
                 else if (lo_Kind o ==? "Job") && (lo_APIVersion o ==? "batch/v1") then
                   match lo_Job o with
                   | None => Err ErrOther
                   | Some (ns, md, s) => if ns !=? cl_Namespace c then Err ErrOther else Ok (mkTemplate s md "/spec/template/spec" "/spec/template/metadata")
                   end
                 else Err ErrOther) in
      if (md_Namespace (tp_meta t) !=? "") && (md_Namespace (tp_meta t) !=? cl_Namespace c) then Err ErrOther else Ok t
  end.
Definition changed {A} `{EqDecision A} (before after : A) (p : patch) : list patch := if before ==? after then [] else [p].
Definition changes (t : template) (s : PodSpec) (md : ObjectMeta) : list patch :=
  let b := tp_spec t in
  changed (ps_InitContainers b) (ps_InitContainers s) (mkPatch "add" (tp_base t +:+ "/initContainers") (PContainers (ps_InitContainers s)))
  ++ changed (ps_Containers b) (ps_Containers s) (mkPatch "add" (tp_base t +:+ "/containers") (PContainers (ps_Containers s)))
  ++ changed (ps_Volumes b) (ps_Volumes s) (mkPatch "add" (tp_base t +:+ "/volumes") (PVolumes (ps_Volumes s)))
  ++ changed (ps_SecurityContext b) (ps_SecurityContext s) (mkPatch "add" (tp_base t +:+ "/securityContext") (PSecurity (ps_SecurityContext s)))
  ++ changed (md_Annotations (tp_meta t)) (md_Annotations md) (mkPatch "add" (tp_metaBase t +:+ "/annotations") (PAnnotations (md_Annotations md))).
Definition Place (co : coordinator) (c : Cluster) (object image : string) : kprog (coordinator * res (list patch)) :=
  let^ _ := VerifyCluster a c at co in
  let^ t := Ret (template_of c object) at co in
  let! (co, x) := inject co c (tp_spec t) (tp_meta t) image in
  Ret (co, match x with Err e => Err e | Ok (s, md) => Ok (changes t s md) end).

(** ** The operator *)
Definition OperatorImage : string := "ghcr.io/cloudnative-pg/cloudnative-pg@sha256:a2701eb97cdd2a34b1fdb2cb51987f544b706e40bec72ae7146cd8580efefebb".
Record Deployment := mkDeployment {
  dp_Replicas : option Z; dp_Generation : Z; dp_ObservedGeneration : Z; dp_UpdatedReplicas : Z; dp_AvailableReplicas : Z; dp_StatusReplicas : Z; dp_Images : list string }.
Context (deployment_of : Object -> option Deployment) (operatorNamespace : string) (decode_pod : string -> option PodIdentity).
Definition rolled_out (d : Deployment) : bool :=
  match dp_Replicas d with
  | None => false
  | Some n => (1 <=? n) && (dp_ObservedGeneration d =? dp_Generation d) && (dp_UpdatedReplicas d =? n) && (dp_AvailableReplicas d =? n)
              && (dp_StatusReplicas d =? n) && (dp_Images d ==? [OperatorImage])
  end.
Definition VerifyOperator : kprog (res ()) :=
  if operatorNamespace ==? "" then fail ErrOther else
  let! o := call (KGet "deployments" operatorNamespace "cnpg-controller-manager") in
  Ret (match o with
       | Err _ => Err ErrOther
       | Ok o => match deployment_of o with None => Err ErrOther | Some d => if rolled_out d then Ok () else Err ErrOther end
       end).
Let parse_cluster := ParseCluster (lb_IsDNS1123Subdomain L) (lb_unmarshal L).
(** Validation answers: the error that the operator reports to the user, if any. *)
Definition ValidateClusterCreate (definition : string) : kprog (res ()) :=
  VerifyOperator ;;* let* c := Ret (parse_cluster definition) in ValidateRepositories L base64 a c ;;* done ().
Definition same_bootstrap (x y : Cluster) : bool := bool_decide (sc_Recovery (cl_Spec x) = sc_Recovery (cl_Spec y)).
Definition ValidateClusterChange (old new : string) : kprog (res ()) :=
  VerifyOperator ;;*
  let* old := Ret (parse_cluster old) in
  let* next := Ret (parse_cluster new) in
  if negb (same_bootstrap old next) || (cl_UID old !=? cl_UID next) then fail ErrOther else
  ValidateRepositories L base64 a next ;;* done ().

(** ** The lifecycle hook *)
Inductive operation_type := TypeCreate | TypeEvaluate | TypeUpdate | TypePatch | TypeOther.
Inductive hook_error := HInvalidArgument | HUnimplemented | HFailedPrecondition.
Definition LifecycleHook (co : coordinator) (operation : option operation_type) (definition object image : string)
    : kprog (coordinator * result hook_error (list patch)) :=
  match operation with
  | None => Ret (co, Err HInvalidArgument)
  | Some TypeOther => Ret (co, Err HUnimplemented)
  | Some t =>
      let! v := VerifyOperator in
      match v with
      | Err _ => Ret (co, Err HFailedPrecondition)
      | Ok _ =>
          match parse_cluster definition with
          | Err _ => Ret (co, Err HInvalidArgument)
          | Ok c =>
              match t with
              | TypeUpdate | TypePatch =>
                  let! x := VerifyLivePod a decode_pod c object in
                  Ret (co, match x with Ok _ => Ok [] | Err _ => Err HFailedPrecondition end)
              | _ =>
                  let! (co, x) := Place co c object image in
                  Ret (co, match x with Ok p => Ok p | Err _ => Err HFailedPrecondition end)
              end
          end
      end
  end.
End Placement.
