(* ===== verification/CnpgPlacementSafety.v ===== *)
(** * What placement guarantees

    The injected template is a function of the template and the specifications read; placing it again changes nothing; a live Pod is
    only looked at; a recovery is let through only behind its guard and with its source held. *)

From S2P Require Import Prelude GoStrings GoTime Sha256 Errors Schema Json Prog ProgRules Store GuardConfig Repository.
From S2P Require Import NativeText Configuration Capacity NativeOps ConfigSnapshot CnpgCluster CnpgOps CnpgWal CnpgKube CnpgRecovery CnpgRecoverySafety CnpgPlacement.

Lemma forM_ext {Er A B} (f g : B -> A -> result Er B) ms l : (forall l x, f l x = g l x) -> forM ms l f = forM ms l g.
Proof. intros E. revert l. induction ms as [|x ms IH]; intros l; cbn; [done|]. rewrite E. destruct (g l x); cbn; [apply IH|done]. Qed.

(** ** Lists in which an element is replaced or appended *)
Section Put.
Context {A K : Type} `{EqDecision A, EqDecision K} (key : A -> K) (hit : K -> K -> bool).
Hypothesis hit_refl : forall k, hit k k = true.
Definition first_hit (l : list A) (m : A) : option nat := index_of (fun v => hit (key m) (key v)) l.
Definition put (owned : bool) (l : list A) (m : A) : res (list A) :=
  match first_hit l m with
  | Some i => match l !! i with Some v => if owned && (key v ==? key m) then Ok (<[i := m]> l) else Err ErrOther | None => Err Panic end
  | None => Ok (l ++ [m])
  end.
(** The first element that [m] hits is [m]. *)
Definition settled (l : list A) (m : A) : Prop := exists i, first_hit l m = Some i /\ l !! i = Some m.
Lemma index_of_Some (p : A -> bool) l i : index_of p l = Some i <-> exists x, l !! i = Some x /\ p x = true /\ forall j y, l !! j = Some y -> (j < i)%nat -> p y = false.
Proof.
  unfold index_of. split.
  - destruct (list_find _ l) as [[j x]|] eqn:E; [|done]. intros [= <-]. apply list_find_Some in E as (H1 & H2 & H3). exists x. split; [done|]. split; [done|].
    intros k y Hk Hlt. specialize (H3 k y Hk Hlt). by destruct (p y).
  - intros (x & H1 & H2 & H3). assert (list_find (fun x => p x = true) l = Some (i, x)) as -> by (apply list_find_Some; split; [done|]; split; [done|]; intros j y Hj Hlt; by rewrite (H3 j y)). done.
Qed.
Lemma index_of_None (p : A -> bool) l : index_of p l = None <-> forall x, x ∈ l -> p x = false.
Proof.
  unfold index_of. destruct (list_find _ l) as [[j x]|] eqn:E.
  - apply list_find_Some in E as (H1 & H2 & _). split; [done|]. intros H. specialize (H x (list_elem_of_lookup_2 _ _ _ H1)). congruence.
  - apply list_find_None in E. rewrite Forall_forall in E. split; [|done]. intros _ x Hx. specialize (E x Hx). by destruct (p x).
Qed.
Lemma put_again l m : settled l m -> put true l m = Ok l.
Proof.
  intros (i & H1 & H2). unfold put. rewrite H1, H2. cbn. rewrite bool_decide_eq_true_2 by done. by rewrite list_insert_id.
Qed.
Lemma put_settles owned l m l' : put owned l m = Ok l' -> settled l' m.
Proof.
  unfold put. destruct (first_hit l m) as [i|] eqn:Ei.
  - destruct (l !! i) as [v|] eqn:Ev; [|done]. destruct (owned && _) eqn:Eo; [|done]. intros [= <-]. apply andb_true_iff in Eo as [_ Ek]. apply bool_decide_eq_true in Ek.
    unfold first_hit in Ei. apply index_of_Some in Ei as (x & H1 & H2 & H3). pose proof (lookup_lt_Some _ _ _ H1) as Hlt. exists i.
    split; [|by apply list_lookup_insert_eq]. apply index_of_Some. exists m. split; [by apply list_lookup_insert_eq|]. split; [apply hit_refl|].
    intros j y Hj Hji. rewrite list_lookup_insert_ne in Hj by lia. by eapply H3.
  - intros [= <-]. exists (length l). split; [|by apply list_lookup_middle]. apply index_of_Some. exists m. split; [by apply list_lookup_middle|]. split; [apply hit_refl|].
    intros j y Hj Hlt. rewrite lookup_app_l in Hj by done. unfold first_hit in Ei. rewrite index_of_None in Ei. apply Ei. by eapply list_elem_of_lookup_2.
Qed.
Lemma put_keeps owned l m l' n : put owned l m = Ok l' -> hit (key n) (key m) = false -> settled l n -> settled l' n.
Proof.
  intros Hp Hn (i & Hi & Hx). unfold first_hit in Hi. apply index_of_Some in Hi as (x & H1 & H2 & H3). rewrite Hx in H1. injection H1 as <-. exists i.
  unfold put in Hp. destruct (first_hit l m) as [j|] eqn:Ej.
  - destruct (l !! j) as [v|] eqn:Ev; [|done]. destruct (owned && _) eqn:Eo; [|done]. injection Hp as <-. apply andb_true_iff in Eo as [_ Ek]. apply bool_decide_eq_true in Ek.
    assert (j <> i) as Hne by (intros ->; rewrite Hx in Ev; injection Ev as <-; rewrite <- Ek in Hn; congruence).
    split; [|by rewrite list_lookup_insert_ne]. apply index_of_Some. exists n. split; [by rewrite list_lookup_insert_ne|]. split; [done|].
    intros k y Hk Hlt. destruct (decide (j = k)) as [<-|Hjk]; [|rewrite list_lookup_insert_ne in Hk by done; by eapply H3].
    rewrite list_lookup_insert_eq in Hk by (by eapply lookup_lt_Some). injection Hk as <-. done.
  - injection Hp as <-. pose proof (lookup_lt_Some _ _ _ Hx) as Hlt. split; [|by rewrite lookup_app_l]. apply index_of_Some. exists n.
    split; [by rewrite lookup_app_l|]. split; [done|]. intros k y Hk Hki. rewrite lookup_app_l in Hk by lia. by eapply H3.
Qed.
(** Elements that do not hit each other, put one after the other, are all settled, so putting them again changes nothing. *)
Lemma puts_settle owned ms l l' : forM ms l (put owned) = Ok l' -> (forall m n, m ∈ ms -> n ∈ ms -> m = n \/ hit (key n) (key m) = false) ->
  forall m, m ∈ ms \/ settled l m /\ (forall n, n ∈ ms -> hit (key m) (key n) = false) -> settled l' m.
Proof.
  revert l. induction ms as [|x ms IH]; intros l Hp Hd m Hm; cbn in Hp.
  - injection Hp as <-. destruct Hm as [Hm|[Hm _]]; [by apply elem_of_nil in Hm|done].
  - destruct (put owned l x) as [l1|] eqn:Ex; [|done]. cbn in Hp. apply (IH l1); [done|intros ? ? ? ?; apply Hd; by right|].
    destruct Hm as [Hm|[Hs Hn]].
    + destruct (decide (m ∈ ms)) as [Hin|Hin]; [by left|]. apply elem_of_cons in Hm as [->|Hm]; [|done]. right. split; [by eapply put_settles|].
      intros n Hn. destruct (Hd n x) as [->|H]; [by right|by left|done|done].
    + right. split; [eapply put_keeps; [exact Ex|apply Hn; by left|done]|]. intros n Hn'. apply Hn. by right.
Qed.
Lemma puts_again ms l : (forall m, m ∈ ms -> settled l m) -> forM ms l (put true) = Ok l.
Proof.
  induction ms as [|x ms IH]; intros H; cbn; [done|]. rewrite put_again by (apply H; by left). apply IH. intros m Hm. apply H. by right.
Qed.
End Put.

(** ** The template as a function of what was read *)
Definition mount_step (c : Cluster) (s : PodSpec) (acc : gmap string string * list VolumeMount) (m : VolumeMount) : res (gmap string string * list VolumeMount) :=
  match acc.1 !! vm_Name m with
  | None => if HasPrefix (vm_Name m) "tbs-" || HasPrefix (vm_MountPath m) "/var/lib/postgresql/" then Err ErrOther else Ok acc
  | Some expected =>
      if (vm_MountPath m !=? expected) || (vm_SubPath m !=? "") || (vm_SubPathExpr m !=? "") || vm_ReadOnly m || (vm_MountPropagation m !=? None)
      then Err ErrOther else
      match volume_named s (vm_Name m) with
      | Some (mkVolume _ (Claim _ false)) => Ok (delete (vm_Name m) acc.1, acc.2 ++ [m])
      | _ => Err ErrOther
      end
  end.
Definition sources_of (c : Cluster) (config : string) (dst : Spec) (src : option Spec) : list VolumeProjection :=
  FromConfigMap config [("capacity.json", "capacity.json")] :: role_sources config "destination" dst ++
  match src with
  | Some src => role_sources config "source" src
                ++ [FromConfigMap config [("recovery.json", "recovery.json")]; FromConfigMap (operationName c) [("operation.json", "operation.json")]]
  | None => FromConfigMap config [("native.json", "native/connection.json"); ("wal.json", "wal.json")] :: map (fun r => FromSecret r.1 r.2) (native_refs c)
  end.
Section Placed.
Context (L : Libraries) (spec_hash : Spec -> string) (spec_text : Spec -> string).
Definition config_of (c : Cluster) (destination source : string) (dst : Spec) (src : option Spec) (capacity : list FilesystemBudget) : string :=
  config_name c (projection_data spec_text c destination dst ((fun src => (recovery_placement spec_hash c source destination src dst, src)) <$> src) capacity).
Definition placed (c : Cluster) (destination source : string) (dst : Spec) (src : option Spec) (image : string) (s : PodSpec) (md : ObjectMeta) : res (PodSpec * ObjectMeta) :=
  let? _ := uniquePlacementNames s in
  let? (i, main) := main_of c s in
  let? (original, recovery) := argv_of main md in
  if negb (bool_decide (recovery = match src with Some _ => true | None => false end)) then Err ErrOther else
  if collision c s md then Err ErrOther else
  let? (missing, data) := forM (cn_VolumeMounts main) (target_volumes c, []) (mount_step c s) in
  if negb (bool_decide (missing = ∅)) then Err ErrOther else
  let? main := (if recovery then wrap_main c main original else Ok main) in
  let? capacity := placementCapacity (lb_ParseQuantity L) (lb_wal_size L) c dst in
  let config := config_of c destination source dst src capacity in
  assemble c dst image config recovery data (sources_of c config dst src) i main s md.

(** ** Placing again *)
Lemma volumes_again c dst sources recovery owned l l' :
  forM (own_volumes c dst sources recovery) l (put_volume owned) = Ok l' -> forM (own_volumes c dst sources recovery) l' (put_volume true) = Ok l'.
Proof.
  assert (E : forall owned l v, put_volume owned l v = put vo_Name (fun a b => b ==? a) owned l v).
  { intros o l0 v. unfold put_volume, put, first_hit. destruct (index_of _ l0) as [i|] eqn:Ei; [|done]. apply index_of_Some in Ei as (x & H1 & H2 & _).
    rewrite H1, H2. by destruct o. }
  rewrite !(forM_ext _ _ _ _ (E _)). intros H. apply puts_again. intros m Hm. eapply puts_settle; [|exact H| |by left].
  - intros k. by apply bool_decide_eq_true.
  - intros x y Hx Hy. unfold own_volumes in *. clear -Hx Hy.
    destruct recovery; cbn [app] in *; repeat (apply elem_of_cons in Hx as [->|Hx]); try (by apply elem_of_nil in Hx);
      repeat (apply elem_of_cons in Hy as [->|Hy]); try (by apply elem_of_nil in Hy); (by left) || (by right).
Qed.
Lemma mounts_again recovery owned l l' :
  forM (main_mounts recovery) l (addMount owned) = Ok l' -> forM (main_mounts recovery) l' (addMount true) = Ok l'.
Proof.
  set (hit := fun a b : string * string => (b.1 ==? a.1) || (b.2 ==? a.2)).
  assert (E : forall owned l v, addMount owned l v = put (fun m => (vm_Name m, vm_MountPath m)) hit owned l v).
  { intros o l0 v. unfold addMount, put, first_hit. destruct (index_of _ l0) as [i|] eqn:Ei; [|done]. destruct (l0 !! i) as [w|]; [|done].
    destruct o; [|done]. cbn [negb orb andb]. destruct (vm_Name w ==? vm_Name v) eqn:E1, (vm_MountPath w ==? vm_MountPath v) eqn:E2; cbn [negb orb].
    - apply bool_decide_eq_true in E1, E2. rewrite bool_decide_eq_true_2 by congruence. done.
    - apply bool_decide_eq_false in E2. rewrite bool_decide_eq_false_2 by congruence. done.
    - apply bool_decide_eq_false in E1. rewrite bool_decide_eq_false_2 by congruence. done.
    - apply bool_decide_eq_false in E1. rewrite bool_decide_eq_false_2 by congruence. done. }
  rewrite !(forM_ext _ _ _ _ (E _)). intros H. apply puts_again. intros m Hm. eapply puts_settle; [|exact H| |by left].
  - intros [k1 k2]. unfold hit. cbn. by rewrite bool_decide_eq_true_2.
  - intros x y Hx Hy. unfold main_mounts in *. clear -Hx Hy.
    destruct recovery; cbn [app] in *; repeat (apply elem_of_cons in Hx as [->|Hx]); try (by apply elem_of_nil in Hx);
      repeat (apply elem_of_cons in Hy as [->|Hy]); try (by apply elem_of_nil in Hy); (by left) || (by right).
Qed.
Lemma containers_again owned sidecar preparer l l' : is_sidecar sidecar = true -> is_preparer sidecar = false -> is_preparer preparer = true -> is_sidecar preparer = false ->
  put_containers owned sidecar preparer l = Ok l' -> put_containers true sidecar preparer l' = Ok l'.
Proof.
  intros S1 S2 P1 P2. unfold put_containers. cbv zeta. destruct (index_of is_sidecar l) as [i|] eqn:Ei, (index_of is_preparer l) as [j|] eqn:Ej; try done.
  - destruct (negb owned || (i <=? j)%nat) eqn:Eo; [done|]. intros [= <-]. apply orb_false_iff in Eo as [_ Hij]. apply Nat.leb_gt in Hij.
    apply index_of_Some in Ei as (x & X1 & X2 & X3), Ej as (y & Y1 & Y2 & Y3). pose proof (lookup_lt_Some _ _ _ X1) as Li. pose proof (lookup_lt_Some _ _ _ Y1) as Lj.
    set (l1 := <[i := sidecar]> l). assert (l1 !! i = Some sidecar) as A1 by (by apply list_lookup_insert_eq). assert (length l1 = length l) as Ll by apply length_insert.
    assert (<[j := preparer]> l1 !! j = Some preparer) as B1 by (apply list_lookup_insert_eq; lia).
    assert (<[j := preparer]> l1 !! i = Some sidecar) as B2 by (rewrite list_lookup_insert_ne by lia; done).
    assert (index_of is_sidecar (<[j := preparer]> l1) = Some i) as ->.
    { apply index_of_Some. exists sidecar. split; [done|]. split; [done|]. intros k z Hk Hlt. destruct (decide (j = k)) as [<-|]; [congruence|].
      rewrite list_lookup_insert_ne in Hk by done. unfold l1 in Hk. rewrite list_lookup_insert_ne in Hk by lia. by eapply X3. }
    assert (index_of is_preparer (<[j := preparer]> l1) = Some j) as ->.
    { apply index_of_Some. exists preparer. split; [done|]. split; [done|]. intros k z Hk Hlt. rewrite list_lookup_insert_ne in Hk by lia.
      unfold l1 in Hk. rewrite list_lookup_insert_ne in Hk by lia. by eapply Y3. }
    cbn [negb orb]. rewrite (proj2 (Nat.leb_gt _ _) Hij). rewrite (list_insert_id _ _ _ B2), (list_insert_id _ _ _ B1). done.
  - intros [= <-]. rewrite index_of_None in Ei, Ej.
    assert (index_of is_sidecar (l ++ [preparer; sidecar]) = Some (length l + 1)%nat) as ->.
    { apply index_of_Some. exists sidecar. split; [by rewrite lookup_app_r, Nat.add_comm, Nat.add_sub by lia|]. split; [done|].
      intros k z Hk Hlt. apply lookup_app_Some in Hk as [Hk|[Hge Hk]]; [apply Ei; by eapply list_elem_of_lookup_2|].
      replace (k - length l)%nat with 0%nat in Hk by lia. cbn in Hk. congruence. }
    assert (index_of is_preparer (l ++ [preparer; sidecar]) = Some (length l)) as ->.
    { apply index_of_Some. exists preparer. split; [by rewrite list_lookup_middle|]. split; [done|].
      intros k z Hk Hlt. rewrite lookup_app_l in Hk by done. apply Ej. by eapply list_elem_of_lookup_2. }
    assert ((l ++ [preparer; sidecar]) !! (length l + 1)%nat = Some sidecar) as C1 by (by rewrite lookup_app_r, Nat.add_comm, Nat.add_sub by lia).
    assert ((l ++ [preparer; sidecar]) !! length l = Some preparer) as C2 by (by rewrite list_lookup_middle).
    cbn [negb orb]. rewrite (proj2 (Nat.leb_gt _ _)) by lia. rewrite (list_insert_id _ _ _ C1), (list_insert_id _ _ _ C2). done.
Qed.

Lemma put_containers_elem owned sidecar preparer l l' : put_containers owned sidecar preparer l = Ok l' -> sidecar ∈ l'.
Proof.
  unfold put_containers. cbv zeta. destruct (index_of is_sidecar l) as [i|] eqn:Ei, (index_of is_preparer l) as [j|] eqn:Ej; try done.
  - destruct (negb owned || (i <=? j)%nat) eqn:Eo; [done|]. intros [= <-]. apply orb_false_iff in Eo as [_ Hij]. apply Nat.leb_gt in Hij.
    apply index_of_Some in Ei as (x & X1 & _). apply (list_elem_of_lookup_2 _ i). rewrite list_lookup_insert_ne by lia. apply list_lookup_insert_eq. by eapply lookup_lt_Some.
  - intros [= <-]. apply elem_of_app. right. right. by left.
Qed.

(** *** The database mounts *)
Definition data_step (acc : gmap string string * list VolumeMount) (m : VolumeMount) : gmap string string * list VolumeMount :=
  match acc.1 !! vm_Name m with Some _ => (delete (vm_Name m) acc.1, acc.2 ++ [m]) | None => acc end.
Lemma mounts_data c s ms acc acc' : forM ms acc (mount_step c s) = Ok acc' -> acc' = foldl data_step acc ms.
Proof.
  revert acc. induction ms as [|m ms IH]; intros acc; cbn; [by intros [= ->]|]. destruct (mount_step c s acc m) as [acc1|] eqn:E; [|done]. cbn. intros H.
  rewrite (IH _ H). f_equal. unfold mount_step in E. unfold data_step. destruct (acc.1 !! vm_Name m); [|by destruct (_ || _); [|injection E as <-]].
  destruct (_ || _); [done|]. repeat case_match; congruence.
Qed.
(** Mounts that are not of the database do not matter. *)
Lemma data_foreign acc m : acc.1 !! vm_Name m = None -> data_step acc m = acc.
Proof. intros H. unfold data_step. by rewrite H. Qed.
Lemma data_shrinks ms acc k : acc.1 !! k = None -> (foldl data_step acc ms).1 !! k = None.
Proof.
  revert acc. induction ms as [|m ms IH]; intros acc H; cbn; [done|]. apply IH. unfold data_step. destruct (acc.1 !! vm_Name m); [|done]. cbn. by rewrite lookup_delete_None; right.
Qed.
Lemma data_put owned l m l' acc : acc.1 !! vm_Name m = None -> addMount owned l m = Ok l' -> foldl data_step acc l' = foldl data_step acc l.
Proof.
  intros Hm. unfold addMount. destruct (index_of _ l) as [i|] eqn:Ei.
  - destruct (l !! i) as [v|] eqn:Ev; [|done]. destruct (_ || _) eqn:Eo; [done|]. intros [= <-]. apply orb_false_iff in Eo as [Eo _]. apply orb_false_iff in Eo as [_ En].
    apply negb_false_iff, bool_decide_eq_true in En. rewrite <- (take_drop_middle _ _ _ Ev) at 2. rewrite insert_take_drop by (by eapply lookup_lt_Some).
    rewrite !foldl_app. cbn [foldl]. rewrite !data_foreign by (apply data_shrinks; congruence). done.
  - intros [= <-]. rewrite foldl_app. cbn [foldl]. apply data_foreign. by apply data_shrinks.
Qed.
Lemma data_puts owned ms l l' acc : (forall m, m ∈ ms -> acc.1 !! vm_Name m = None) -> forM ms l (addMount owned) = Ok l' -> foldl data_step acc l' = foldl data_step acc l.
Proof.
  revert l. induction ms as [|m ms IH]; intros l Hm; cbn; [by intros [= ->]|]. destruct (addMount owned l m) as [l1|] eqn:E; [|done]. cbn. intros H.
  rewrite (IH l1) by (done || (intros; apply Hm; by right)). eapply data_put; [|exact E]. apply Hm. by left.
Qed.
Lemma target_keys c k : is_Some (target_volumes c !! k) -> k = "pgdata" \/ k = "pg-wal" \/ HasPrefix k "tbs-" = true.
Proof.
  unfold target_volumes. set (m0 := if present _ then _ else _).
  assert (forall k, is_Some (m0 !! k) -> k = "pgdata" \/ k = "pg-wal" \/ HasPrefix k "tbs-" = true) as H0.
  { intros k'. unfold m0. destruct (present _); [rewrite lookup_insert; destruct (decide ("pg-wal" = k')) as [<-|]; [auto|]|];
      rewrite lookup_singleton; destruct (decide ("pgdata" = k')) as [<-|]; auto; by intros [? ?]. }
  revert H0. generalize m0. clear m0. induction (sc_Tablespaces (cl_Spec c)) as [|t l IH]; intros m Hm; cbn [foldl]; [apply Hm|]. apply IH.
  intros k'. rewrite lookup_insert. destruct (decide (tablespaceVolume t.1 = k')) as [<-|]; [|apply Hm]. intros _. right. right. apply HasPrefix_append.
Qed.

(** *** The main container *)
Lemma main_index_same s s' i main main' : main_index s = Some i -> ps_Containers s !! i = Some main -> cn_Name main' = cn_Name main ->
  ps_Containers s' = <[i := main']> (ps_Containers s) -> main_index s' = Some i.
Proof.
  intros Hi Hm Hn Hc. assert (main_name main' = main_name main) as En by (unfold main_name; by rewrite Hn). pose proof (lookup_lt_Some _ _ _ Hm) as Hlt.
  unfold main_index in *. rewrite Hc, length_insert. destruct (index_of main_name (ps_Containers s)) as [j|] eqn:Ej.
  - injection Hi as ->. apply index_of_Some in Ej as (x & X1 & X2 & X3). assert (index_of main_name (<[i := main']> (ps_Containers s)) = Some i) as ->; [|done].
    apply index_of_Some. exists main'. split; [by apply list_lookup_insert_eq|]. split; [congruence|]. intros k y Hk Hlk. rewrite list_lookup_insert_ne in Hk by lia. by eapply X3.
  - assert (index_of main_name (<[i := main']> (ps_Containers s)) = None) as ->; [|done]. rewrite index_of_None in *. intros x Hx.
    apply list_elem_of_lookup in Hx as [k Hk]. destruct (decide (i = k)) as [<-|]; [|rewrite list_lookup_insert_ne in Hk by done; apply Ej; by eapply list_elem_of_lookup_2].
    rewrite list_lookup_insert_eq in Hk by done. injection Hk as <-. rewrite En. apply Ej. by eapply list_elem_of_lookup_2.
Qed.
Definition placed_spec (s : PodSpec) (i : nat) (main : Container) (mounts : list VolumeMount) (inits : list Container) (volumes : list Volume) : PodSpec :=
  mkPodSpec (ps_HostPID s) (ps_ShareProcessNamespace s) (on_root_mismatch <$> ps_SecurityContext s) (<[i := with_mounts main mounts]> (ps_Containers s)) inits volumes.
Lemma main_of_same c s i main main' mounts inits volumes : main_of c s = Ok (i, main) -> cn_Name main' = cn_Name main -> cn_identity main' = cn_identity main ->
  main_of c (placed_spec s i main' mounts inits volumes) = Ok (i, with_mounts main' mounts).
Proof.
  unfold main_of. intros H Hn Hid. unfold placed_spec at 1 2. cbn [ps_HostPID ps_ShareProcessNamespace]. destruct (_ || _); [done|].
  assert (identity_ok c (placed_spec s i main' mounts inits volumes) = identity_ok c s) as -> by (unfold identity_ok, placed_spec; cbn; by destruct (ps_SecurityContext s)).
  destruct (identity_ok c s); [|done]. cbn [negb] in *. destruct (main_index s) as [j|] eqn:Ej; [|done]. destruct (ps_Containers s !! j) as [m|] eqn:Em; [|done].
  assert (j = i /\ m = main) as [-> ->] by (repeat case_match; by simplify_eq).
  rewrite (main_index_same s (placed_spec s i main' mounts inits volumes) i main (with_mounts main' mounts) Ej Em Hn eq_refl).
  unfold placed_spec. cbn [ps_Containers]. rewrite list_lookup_insert_eq by (by eapply lookup_lt_Some). cbn [with_mounts cn_identity]. rewrite Hid.
  destruct (cn_identity main) as [[uid gid]|]; [|done]. by destruct (_ || _).
Qed.
Lemma main_of_lookup c s i main : main_of c s = Ok (i, main) -> (i < length (ps_Containers s))%nat.
Proof.
  unfold main_of. destruct (_ || _); [done|]. destruct (negb _); [done|]. destruct (main_index s) as [j|]; [|done]. destruct (ps_Containers s !! j) as [m|] eqn:Em; [|done].
  intros H. assert (j = i) as -> by (repeat case_match; by simplify_eq). by eapply lookup_lt_Some.
Qed.
Lemma argv_of_same main md original recovery main' config c :
  argv_of main md = Ok (original, recovery) -> original_argv main' = original -> argv_of main' (annotate c config recovery md) = Ok (original, recovery).
Proof. unfold argv_of. intros H ->. assert (original_argv main = original) as E by (repeat case_match; by simplify_eq). rewrite E in H. done. Qed.
Lemma wrap_main_spec c main original main' : wrap_main c main original = Ok main' ->
  cn_Name main' = cn_Name main /\ cn_identity main' = cn_identity main /\ cn_VolumeMounts main' = cn_VolumeMounts main
  /\ cn_Command main' = guard_prefix ++ original /\ cn_Args main' = [] /\ pod_uid ∈ cn_Env main'.
Proof.
  unfold wrap_main. destruct (WrapArgv original [] _) as [w|] eqn:Ew; [|done]. apply wrap_argv_exact in Ew as (level & field & stamp & _ & _ & _ & _ & Ew). rewrite app_nil_r in Ew. subst w.
  destruct (list_find _ (cn_Env main)) as [[j v]|] eqn:El; cbn.
  - destruct (v !=? pod_uid) eqn:Ev; [done|]. apply negb_false_iff, bool_decide_eq_true in Ev as ->. intros [= <-]. cbn. split_and!; try done.
    apply list_find_Some in El as (H & _). by eapply list_elem_of_lookup_2.
  - intros [= <-]. cbn. split_and!; try done. apply elem_of_app. right. by left.
Qed.
Lemma wrap_main_again c main original main' mounts : wrap_main c main original = Ok main' -> forall main2, wrap_main c (with_mounts main' mounts) original = Ok main2 -> main2 = with_mounts main' mounts.
Proof.
  intros H main2 H2. destruct (wrap_main_spec _ _ _ _ H) as (_ & _ & _ & H4 & H5 & H6). unfold wrap_main in H2.
  destruct (WrapArgv original [] _) as [w|] eqn:Ew; [|done]. apply wrap_argv_exact in Ew as (level & field & stamp & _ & _ & _ & _ & Ew). rewrite app_nil_r in Ew. subst w.
  cbn [with_mounts cn_Env] in H2. destruct (list_find _ (cn_Env main')) as [[j v]|] eqn:El; cbn in H2.
  - destruct (v !=? pod_uid); [done|]. injection H2 as <-. unfold with_command, with_mounts. cbn. by rewrite H4, H5.
  - apply list_find_None in El. rewrite Forall_forall in El. by destruct (El pod_uid H6).
Qed.

(** What a placement consists of. *)
Record parts (c : Cluster) (destination source : string) (dst : Spec) (src : option Spec) (image : string) (s : PodSpec) (md : ObjectMeta) (s' : PodSpec) (md' : ObjectMeta)
    (i : nat) (main : Container) (original : list string) (data : list VolumeMount) (wrapped : Container) (capacity : list FilesystemBudget)
    (volumes : list Volume) (mounts : list VolumeMount) (inits : list Container) : Prop := mkParts {
  pa_main : main_of c s = Ok (i, main);
  pa_argv : argv_of main md = Ok (original, match src with Some _ => true | None => false end);
  pa_clear : collision c s md = false;
  pa_data : forM (cn_VolumeMounts main) (target_volumes c, []) (mount_step c s) = Ok (∅, data);
  pa_wrapped : match src with Some _ => wrap_main c main original = Ok wrapped | None => wrapped = main end;
  pa_capacity : placementCapacity (lb_ParseQuantity L) (lb_wal_size L) c dst = Ok capacity;
  pa_volumes : forM (own_volumes c dst (sources_of c (config_of c destination source dst src capacity) dst src) (match src with Some _ => true | None => false end))
                 (ps_Volumes s) (put_volume (owned_by c md)) = Ok volumes;
  pa_mounts : forM (main_mounts (match src with Some _ => true | None => false end)) (cn_VolumeMounts wrapped) (addMount (owned_by c md)) = Ok mounts;
  pa_inits : put_containers (owned_by c md) (sidecar_of c dst image data (match src with Some _ => true | None => false end)) (preparer_of c dst image) (ps_InitContainers s) = Ok inits;
  pa_spec : s' = placed_spec s i wrapped mounts inits volumes;
  pa_meta : md' = annotate c (config_of c destination source dst src capacity) (match src with Some _ => true | None => false end) md }.
Lemma placed_parts c destination source dst src image s md s' md' : placed c destination source dst src image s md = Ok (s', md') ->
  exists i main original data wrapped capacity volumes mounts inits,
    parts c destination source dst src image s md s' md' i main original data wrapped capacity volumes mounts inits.
Proof.
  unfold placed, assemble. intros H. apply res_bind_ok in H as (u & _ & H). apply res_bind_ok in H as ([i main] & E1 & H). apply res_bind_ok in H as ([original recovery] & E2 & H).
  destruct (bool_decide (recovery = _)) eqn:E3; [|done]. cbn [negb] in H. apply bool_decide_eq_true in E3 as ->. destruct (collision c s md) eqn:E4; [done|].
  apply res_bind_ok in H as ([missing data] & E5 & H). destruct (bool_decide (missing = ∅)) eqn:E6; [|done]. cbn [negb] in H. apply bool_decide_eq_true in E6 as ->.
  apply res_bind_ok in H as (wrapped & E7 & H). apply res_bind_ok in H as (capacity & E8 & H). apply res_bind_ok in H as (volumes & E9 & H).
  apply res_bind_ok in H as (mounts & E10 & H). apply res_bind_ok in H as (inits & E11 & H). injection H as <- <-.
  exists i, main, original, data, wrapped, capacity, volumes, mounts, inits. constructor; try done. destruct src; [done|by injection E7].
Qed.
Lemma annotate_again c config recovery md : annotate c config recovery (annotate c config recovery md) = annotate c config recovery md.
Proof.
  unfold annotate. cbn. f_equal. f_equal. set (m := default ∅ (md_Annotations md)). apply map_eq. intros k.
  destruct (decide (k = configAnnotation)) as [->|H1]; [by rewrite !lookup_insert_eq|]. rewrite !(lookup_insert_ne _ configAnnotation k) by done.
  destruct (decide (k = ownedAnnotation)) as [->|H2]; [by rewrite !lookup_insert_eq|]. rewrite !(lookup_insert_ne _ ownedAnnotation k) by done.
  destruct recovery; [|by rewrite !lookup_insert_ne by done]. destruct (decide (k = operationAnnotation)) as [->|H3]; [by rewrite !lookup_insert_eq|]. by rewrite !lookup_insert_ne by done.
Qed.
Lemma annotate_owned c config recovery md : owned_by c (annotate c config recovery md) = true.
Proof.
  unfold owned_by, annotate, params, at_opt, at_key. cbn [md_Annotations default from_option id]. apply bool_decide_eq_true. rewrite lookup_insert_ne by done. by rewrite lookup_insert_eq.
Qed.
Lemma own_mounts_foreign c recovery m : m ∈ main_mounts recovery -> target_volumes c !! vm_Name m = None.
Proof.
  intros Hm. destruct (target_volumes c !! vm_Name m) eqn:E; [|done]. exfalso.
  destruct (target_keys c (vm_Name m)) as [H|[H|H]]; [by eexists| | |]; revert H; unfold main_mounts in Hm;
    destruct recovery; cbn [app] in Hm; repeat (apply elem_of_cons in Hm as [->|Hm]); try (by apply elem_of_nil in Hm); vm_compute; discriminate.
Qed.
Definition restores (src : option Spec) : bool := match src with Some _ => true | None => false end.
(** The main container of a placed template, and what it runs. *)
Lemma wrapped_spec c src main original wrapped md recovery : argv_of main md = Ok (original, recovery) ->
  match src : option Spec with Some _ => wrap_main c main original = Ok wrapped | None => wrapped = main end ->
  cn_Name wrapped = cn_Name main /\ cn_identity wrapped = cn_identity main /\ cn_VolumeMounts wrapped = cn_VolumeMounts main
  /\ forall mounts, original_argv (with_mounts wrapped mounts) = original.
Proof.
  intros Ha Hw. destruct src.
  - destruct (wrap_main_spec _ _ _ _ Hw) as (X1 & X2 & X3 & X4 & X5 & _). split_and!; try done. intros mounts. unfold original_argv, with_mounts. cbn [cn_Command cn_Args].
    rewrite X4, X5, app_nil_r. rewrite take_app_length' by done. by rewrite bool_decide_eq_true_2, drop_app_length' by done.
  - subst wrapped. split_and!; try done. intros mounts. unfold argv_of in Ha. unfold original_argv, with_mounts in *. cbn [cn_Command cn_Args]. repeat case_match; by simplify_eq.
Qed.
Lemma parts_main c destination source dst src image s md s' md' i main original data wrapped capacity volumes mounts inits :
  parts c destination source dst src image s md s' md' i main original data wrapped capacity volumes mounts inits ->
  main_of c s' = Ok (i, with_mounts wrapped mounts) /\ argv_of (with_mounts wrapped mounts) md' = Ok (original, restores src).
Proof.
  intros []. destruct (wrapped_spec c src main original wrapped md _ pa_argv0 pa_wrapped0) as (W1 & W2 & W3 & W4). subst s' md'.
  split; [by eapply main_of_same|]. eapply argv_of_same; [exact pa_argv0|apply W4].
Qed.
Lemma placed_restores c destination source dst src dst' src' image s md s1 md1 s2 md2 :
  placed c destination source dst src image s md = Ok (s1, md1) -> placed c destination source dst' src' image s1 md1 = Ok (s2, md2) -> restores src' = restores src.
Proof.
  intros H1 H2. destruct (placed_parts _ _ _ _ _ _ _ _ _ _ H1) as (i & main & original & data & wrapped & capacity & volumes & mounts & inits & P1).
  destruct (placed_parts _ _ _ _ _ _ _ _ _ _ H2) as (i' & main' & original' & data' & wrapped' & capacity' & volumes' & mounts' & inits' & P2).
  destruct (parts_main _ _ _ _ _ _ _ _ _ _ _ _ _ _ _ _ _ _ _ P1) as [M1 A1]. destruct P2. rewrite M1 in pa_main0. injection pa_main0 as <- <-.
  rewrite A1 in pa_argv0. by injection pa_argv0.
Qed.
Lemma placed_again c destination source dst src image s md s1 md1 s2 md2 :
  placed c destination source dst src image s md = Ok (s1, md1) -> placed c destination source dst src image s1 md1 = Ok (s2, md2) -> s2 = s1 /\ md2 = md1.
Proof.
  intros H1 H2. destruct (placed_parts _ _ _ _ _ _ _ _ _ _ H1) as (i & main & original & data & wrapped & capacity & volumes & mounts & inits & P1). clear H1.
  destruct (placed_parts _ _ _ _ _ _ _ _ _ _ H2) as (i' & main' & original' & data' & wrapped' & capacity' & volumes' & mounts' & inits' & []). clear H2.
  destruct (parts_main _ _ _ _ _ _ _ _ _ _ _ _ _ _ _ _ _ _ _ P1) as [M1 A1]. destruct P1. rewrite M1 in pa_main0. injection pa_main0 as <- <-.
  rewrite A1 in pa_argv0. injection pa_argv0 as <-. rewrite pa_capacity1 in pa_capacity0. injection pa_capacity0 as <-.
  destruct (wrapped_spec c src main original wrapped md _ pa_argv1 pa_wrapped1) as (_ & _ & W3 & _). fold (restores src) in *.
  assert (owned_by c md1 = true) as Ho by (subst md1; apply annotate_owned). rewrite Ho in *.
  assert (data' = data) as ->.
  { apply mounts_data in pa_data1, pa_data0. cbn [with_mounts cn_VolumeMounts] in pa_data0. rewrite (data_puts _ _ _ _ (target_volumes c, []) (fun m Hm => own_mounts_foreign c _ m Hm) pa_mounts1), W3 in pa_data0. congruence. }
  assert (wrapped' = with_mounts wrapped mounts) as ->.
  { destruct src as [src'|]; [|done]. by eapply wrap_main_again. }
  cbn [with_mounts cn_VolumeMounts] in pa_mounts0. rewrite (mounts_again _ _ _ _ pa_mounts1) in pa_mounts0. injection pa_mounts0 as <-.
  rewrite pa_spec1 in pa_volumes0, pa_inits0. cbn [placed_spec ps_Volumes ps_InitContainers] in pa_volumes0, pa_inits0.
  rewrite (volumes_again _ _ _ _ _ _ _ pa_volumes1) in pa_volumes0. injection pa_volumes0 as <-.
  rewrite (containers_again _ (sidecar_of c dst image data (restores src)) (preparer_of c dst image) _ _ eq_refl eq_refl eq_refl eq_refl pa_inits1) in pa_inits0. injection pa_inits0 as <-.
  split.
  - rewrite pa_spec0, pa_spec1. unfold placed_spec. cbn [ps_HostPID ps_ShareProcessNamespace ps_SecurityContext ps_Containers]. f_equal.
    + by destruct (ps_SecurityContext s).
    + by rewrite list_insert_insert_eq.
  - rewrite pa_meta0, pa_meta1. apply annotate_again.
Qed.
End Placed.

(** ** Injection computes the placement *)
Section Injected.
Context (L : Libraries) (base64 : string -> option string) (spec_hash : Spec -> string) (a : API) (spec_text : Spec -> string)
  (volume_mode : Object -> option (option string)).
Let decode_spec := DecodeSpec (lb_ParseDuration L) (lb_Parse L) (lb_Hostname L) (lb_IsDNS1123Subdomain L) (lb_IsConfigMapKey L) (lb_ParseQuantity L)
  (lb_into_resources L).
(** The specification of a repository as it was read. *)
Definition read_spec (tr : ktrace) (ns name : string) (spec : Spec) : Prop :=
  exists o, Act (KGet "repositories" ns name) (Ok o) ∈ tr /\ decode_spec (ob_spec o) = Ok spec.
Lemma read_spec_extends tr tr' ns name spec : extends tr tr' -> read_spec tr ns name spec -> read_spec tr' ns name spec.
Proof. intros He (o & H & Hd). exists o. split; [by eapply extends_elem|done]. Qed.
Lemma get_answer kind ns name tr : wp anything (fun tr x => forall o, x = Ok o -> Act (KGet kind ns name) (Ok o) ∈ tr) (Get a kind ns name) tr.
Proof. unfold Get. destruct (_ || _); [done|]. destruct (_ && _); [done|]. split; [done|]. intros x o ->. by left. Qed.
Lemma repository_read ns name tr : wp anything (fun tr x => forall spec, x = Ok spec -> read_spec tr ns name spec) (API_Repository L base64 a ns name) tr.
Proof.
  unfold API_Repository. eapply wp_knows; [apply get_answer|]. intros tr1 [o|e] _ Ho; [|done]. specialize (Ho o eq_refl).
  fold decode_spec. destruct (decode_spec (ob_spec o)) as [spec|] eqn:Ed; [|done]. apply wp_pastE; [done|]. intros tr2 _ He spec' [= <-].
  exists o. split; [by eapply extends_elem|done].
Qed.
(** The target of the guard for a mount: the claim of the volume this mount names, alive, a filesystem of the Cluster, as it was read. *)
Definition claimed (c : Cluster) (s : PodSpec) (tr : ktrace) (m : VolumeMount) (t : GuardConfig.Target) : Prop :=
  exists volume claim o mode, volume_named s (vm_Name m) = Some (mkVolume volume (Claim claim false))
  /\ Act (KGet "persistentvolumeclaims" (cl_Namespace c) claim) (Ok o) ∈ tr
  /\ GuardConfig.tg_PVCUID t = ob_UID o /\ GuardConfig.tg_Mount t = vm_MountPath m /\ ob_UID o <> ""
  /\ option_map fst (ob_controller o) = Some (cl_UID c) /\ ob_deleting o = false /\ volume_mode o = Some mode /\ default "Filesystem" mode = "Filesystem".
Lemma claimed_extends c s tr tr' m t : extends tr tr' -> claimed c s tr m t -> claimed c s tr' m t.
Proof. intros He (volume & claim & o & mode & Hv & H & Hd). exists volume, claim, o, mode. split; [done|]. split; [by eapply extends_elem|done]. Qed.
Lemma claim_target_wp c s m volume claim tr : volume_named s (vm_Name m) = Some (mkVolume volume (Claim claim false)) ->
  wp anything (fun tr x => forall t, x = Ok t -> claimed c s tr m t) (claim_target a volume_mode c m claim) tr.
Proof.
  intros Hv. unfold claim_target. eapply wp_knows; [apply get_answer|]. intros tr1 [o|e] _ Ho t; [|done]. specialize (Ho o eq_refl).
  destruct (volume_mode o) as [mode|] eqn:Em; [|done]. destruct (_ || _) eqn:E; [done|]. intros [= <-]. bool_split.
  exists volume, claim, o, mode. split_and!; try done. destruct mode as [v|]; [|done]. cbn. by bool_split.
Qed.
(** The targets so far: those of the data mounts so far, in their order. *)
Definition targets_sound (c : Cluster) (s : PodSpec) (recovery : bool) (tr : ktrace) (t : Targets) : Prop :=
  recovery = true -> Forall2 (claimed c s tr) (tv_mounts t) (tv_guard t).
Lemma targets_extends c s recovery tr tr' t : extends tr tr' -> targets_sound c s recovery tr t -> targets_sound c s recovery tr' t.
Proof. intros He H Hr. eapply Forall2_impl; [by apply H|]. intros m g. by apply claimed_extends. Qed.
Lemma visit_mount_wp c s recovery t m tr : targets_sound c s recovery tr t ->
  wp anything (fun tr x => forall t', x = Ok t' -> mount_step c s (tv_left t, tv_mounts t) m = Ok (tv_left t', tv_mounts t') /\ targets_sound c s recovery tr t')
    (visit_mount a volume_mode c s recovery t m) tr.
Proof.
  intros Ht. unfold visit_mount, mount_step. cbn [fst snd]. destruct (tv_left t !! vm_Name m) as [expected|] eqn:El.
  2: { destruct (_ || _); [done|]. intros t' [= <-]. done. }
  destruct (_ || _); [done|]. destruct (volume_named s (vm_Name m)) as [[name [claim []| | | | |]]|] eqn:Ev; try done.
  destruct recovery; cycle 1.
  { intros t' [= <-]. done. }
  apply wp_bindE. apply wp_bindE. eapply wp_mono; [|apply (wp_also _ _ _ _ _ (claim_target_wp c s m name claim tr Ev) (wp_grows _ tr))].
  intros tr1 [g|e] [Hg He]; [|done]. specialize (Hg g eq_refl). intros t' [= <-]. split; [done|]. intros _. cbn [tv_guard tv_mounts].
  apply Forall2_app; [by apply (targets_extends _ _ _ _ _ _ He Ht)|]. by constructor.
Qed.
Lemma visit_mounts_wp c s recovery ms t tr : targets_sound c s recovery tr t ->
  wp anything (fun tr x => forall t', x = Ok t' -> forM ms (tv_left t, tv_mounts t) (mount_step c s) = Ok (tv_left t', tv_mounts t') /\ targets_sound c s recovery tr t')
    (visit_all ms t (visit_mount a volume_mode c s recovery)) tr.
Proof.
  revert t tr. induction ms as [|m ms IH]; intros t tr Ht; cbn [visit_all forM]; [by intros t' [= <-]|].
  apply wp_bindE. eapply wp_mono; [|by apply visit_mount_wp]. intros tr1 [t1|e] H; [|done]. destruct (H t1 eq_refl) as [E1 T1]. rewrite E1. by apply IH.
Qed.
(** A mount of the whole volume, writable. *)
Definition whole (m : VolumeMount) : Prop := vm_SubPath m = "" /\ vm_SubPathExpr m = "" /\ vm_ReadOnly m = false /\ vm_MountPropagation m = None.
Definition elsewhere (m : VolumeMount) : Prop := HasPrefix (vm_Name m) "tbs-" = false /\ HasPrefix (vm_MountPath m) "/var/lib/postgresql/" = false.
(** The mounts of a container at exactly the places of the database: each place once, whole and writable, and nothing else below it. *)
Record database_mounts (places : gmap string string) (mounts data : list VolumeMount) : Prop := mkDatabase {
  db_mounted : data `sublist_of` mounts;
  db_once : NoDup (map vm_Name data);
  db_placed : Forall (fun m => places !! vm_Name m = Some (vm_MountPath m) /\ whole m) data;
  db_complete : forall name, is_Some (places !! name) -> name ∈ map vm_Name data;
  db_alone : forall m, m ∈ mounts -> m ∈ data \/ elsewhere m }.
Lemma mount_steps c s ms left0 data0 left data : forM ms (left0, data0) (mount_step c s) = Ok (left, data) ->
  exists added, data = data0 ++ added /\ added `sublist_of` ms /\ NoDup (map vm_Name added)
  /\ Forall (fun m => left0 !! vm_Name m = Some (vm_MountPath m) /\ whole m) added
  /\ (forall name, is_Some (left0 !! name) -> is_Some (left !! name) \/ name ∈ map vm_Name added)
  /\ forall m, m ∈ ms -> m ∈ added \/ elsewhere m.
Proof.
  revert left0 data0. induction ms as [|m ms IH]; intros left0 data0; cbn [forM].
  { intros [= <- <-]. exists []. rewrite app_nil_r. split_and!; try done; [constructor|by left|]. intros m Hm. by apply elem_of_nil in Hm. }
  unfold mount_step at 1. cbn [fst snd]. destruct (left0 !! vm_Name m) as [expected|] eqn:El.
  - destruct (_ || _) eqn:Eb; [done|]. bool_split. destruct (volume_named s (vm_Name m)) as [[name [claim []| | | | |]]|]; try done. cbn [res_bind].
    intros (added & -> & A1 & A2 & A3 & A4 & A5)%IH. rewrite Forall_forall in A3. exists (m :: added). rewrite <- app_assoc. split_and!.
    + done.
    + by apply sublist_skip.
    + cbn. constructor; [|done]. intros (x & Hx & Hin)%list_elem_of_fmap. destruct (A3 x Hin) as [Hl _]. by rewrite <- Hx, lookup_delete_eq in Hl.
    + constructor; [by subst; split_and!|]. apply Forall_forall. intros x Hx. destruct (A3 x Hx) as [Hl Hw]. apply lookup_delete_Some in Hl as [_ Hl]. done.
    + intros n Hn. cbn. destruct (decide (n = vm_Name m)) as [->|Hne]; [right; by left|].
      destruct (A4 n) as [Hl|Hl]; [by rewrite lookup_delete_ne|by left|right; by right].
    + intros x [->|Hx]%elem_of_cons; [left; by left|]. destruct (A5 x Hx); [left; by right|by right].
  - destruct (_ || _) eqn:Eb; [done|]. bool_split. cbn [res_bind]. intros (added & -> & A1 & A2 & A3 & A4 & A5)%IH. exists added. split_and!; try done.
    + by apply sublist_cons.
    + intros x [->|Hx]%elem_of_cons; [by right|by apply A5].
Qed.
Lemma mounts_exact c s ms places data : forM ms (places, []) (mount_step c s) = Ok (∅, data) -> database_mounts places ms data.
Proof.
  intros (added & -> & H1 & H2 & H3 & H4 & H5)%mount_steps. split; try done. intros name Hn. destruct (H4 name Hn) as [[x H]|H]; [by rewrite lookup_empty in H|done].
Qed.
(** A projection in place: read with its contents, or created. *)
Definition projected (c : Cluster) (name : string) (data : gmap string string) (tr : ktrace) : Prop :=
  (exists o, Act (KGet "configmaps" (cl_Namespace c) name) (Ok o) ∈ tr /\ option_map fst (ob_controller o) = Some (cl_UID c) /\ ob_immutable o = true /\ ob_data o = data)
  \/ exists o, Act (KCreate "configmaps" (cl_Namespace c) (owned_object c name true data)) (Ok o) ∈ tr.
Lemma projected_extends c name data tr tr' : extends tr tr' -> projected c name data tr -> projected c name data tr'.
Proof. intros He [(o & H & R)|(o & H)]; [left|right]; exists o; [split; [|done]|]; by eapply extends_elem. Qed.
Lemma projection_wp c name data tr : wp anything (fun tr x => x = Ok () -> projected c name data tr) (EnsureProjection a c name data) tr.
Proof.
  unfold EnsureProjection. cbv zeta. eapply wp_knows; [apply get_answer|]. intros tr1 x _ Hx.
  assert (Hm : forall tr o, Act (KGet "configmaps" (cl_Namespace c) name) (Ok o) ∈ tr -> wp (E := kube) anything (fun tr x => x = Ok () -> projected c name data tr)
    (if (option_map fst (ob_controller o) !=? Some (cl_UID c)) || negb (ob_immutable o) || (ob_data o !=? data) then fail ErrOther else done ()) tr).
  { intros tr' o Ho. destruct (_ || _) eqn:E; [done|]. bool_split. intros _. left. exists o. split_and!; done. }
  destruct x as [o|[]]; [apply Hm, Hx, eq_refl| |done..]. apply wp_call; [done|]. intros [o|[]]; [|done| |done].
  - intros _. right. exists o. by left.
  - eapply wp_knows; [apply get_answer|]. intros tr2 [o|e] _ Ho; [apply Hm, Ho, eq_refl|done].
Qed.
Definition sorted_config (c : Cluster) (targets : list GuardConfig.Target) : GuardConfig.Config :=
  GuardConfig.mkConfig (cl_UID c) (OperationUID c) (sort_slice (fun x y => String.ltb (GuardConfig.tg_PVCUID x) (GuardConfig.tg_PVCUID y)) targets).
(** What a recovery template was placed with: the claims of exactly the database mounts of the container, behind a guard whose targets are published,
    and an operation that holds the source and watches the Pods. *)
Record held (co co' : coordinator) (c : Cluster) (s : PodSpec) (mounts : list VolumeMount) (destination source : string) (dst src : Spec) (data : list VolumeMount) (targets : list GuardConfig.Target)
    (tr : ktrace) : Prop := mkHeld {
  he_database : database_mounts (target_volumes c) mounts data;
  he_claims : Forall2 (claimed c s tr) data targets;
  he_valid : Config_Validate (GuardConfig.mkConfig (cl_UID c) (OperationUID c) targets) = Ok ();
  he_published : projected c (cl_Name c +:+ "-cb-targets") {["guard.json" := print (config_json (sorted_config c targets))]} tr;
  he_lineage : sp_RepositoryID src <> sp_RepositoryID dst;
  he_watched : exists tr1, extends tr1 tr /\ admitted_watch L base64 a co co' c (recovery_placement spec_hash c source destination src dst) (sorted_config c targets) src tr1 }.
Let repositories := Repositories (lb_range L) (lb_IsDNS1123Subdomain L).
Definition injected (co : coordinator) (c : Cluster) (s : PodSpec) (md : ObjectMeta) (image : string) (tr : ktrace) (co' : coordinator) (s' : PodSpec) (md' : ObjectMeta) : Prop :=
  exists destination source dst src, repositories c = Ok (destination, source) /\ read_spec tr (cl_Namespace c) destination dst
  /\ placed L spec_hash spec_text c destination source dst src image s md = Ok (s', md')
  /\ match src with
     | None => co' = co
     | Some src => read_spec tr (cl_Namespace c) source src /\ exists i main data targets, main_of c s = Ok (i, main)
                   /\ forM (cn_VolumeMounts main) (target_volumes c, []) (mount_step c s) = Ok (∅, data) /\ held co co' c s (cn_VolumeMounts main) destination source dst src data targets tr
     end.
Lemma wp_keeping {A B} co (p : kprog (res A)) (k : A -> kprog (coordinator * res B)) (R : ktrace -> res A -> Prop) (Q : ktrace -> coordinator * res B -> Prop) tr :
  (forall tr e, Q tr (co, Err e)) -> wp anything R p tr -> (forall tr' x, extends tr tr' -> R tr' (Ok x) -> wp anything Q (k x) tr') -> wp anything Q (keeping co p k) tr.
Proof. intros He Hp Hk. unfold keeping. eapply wp_knows; [exact Hp|]. intros tr1 [x|e] Hx Hr; [by apply Hk|apply He]. Qed.
Definition specs_read (c : Cluster) (recovery : bool) (tr : ktrace) (x : res (string * string * Spec * option Spec)) : Prop :=
  forall destination source dst src, x = Ok (destination, source, dst, src) -> repositories c = Ok (destination, source) /\ read_spec tr (cl_Namespace c) destination dst
  /\ recovery = (match src with Some _ => true | None => false end)
  /\ match src with Some src => read_spec tr (cl_Namespace c) source src /\ sp_RepositoryID src <> sp_RepositoryID dst | None => True end.
Lemma specs_wp c recovery tr : wp anything (specs_read c recovery) (placement_specs L base64 a c recovery) tr.
Proof.
  unfold placement_specs, specs_read. fold repositories. destruct (repositories c) as [[destination source]|] eqn:Er; [|by intros; simplify_eq].
  apply wp_bindE. eapply wp_mono; [|apply repository_read]. intros tr1 [dst|e] Hd; [|by intros; simplify_eq]. specialize (Hd dst eq_refl).
  destruct recovery; [|intros ? ? ? ? [= <- <- <- <-]; done]. destruct (source ==? ""); [by intros; simplify_eq|].
  apply wp_bindE. eapply wp_mono; [|apply (wp_also _ _ _ _ _ (repository_read _ _ tr1) (wp_grows _ tr1))]. intros tr2 [src|e] [Hs He]; [|by intros; simplify_eq].
  specialize (Hs src eq_refl). destruct (_ ==? _) eqn:Ei; [by intros; simplify_eq|]. bool_split. intros ? ? ? ? [= <- <- <- <-].
  split_and!; try done. by eapply read_spec_extends.
Qed.
Lemma guarded_wp c main original guard tr :
  wp anything (fun tr x => forall m g, x = Ok (m, g) -> wrap_main c main original = Ok m /\ g = sorted_config c guard
      /\ Config_Validate (GuardConfig.mkConfig (cl_UID c) (OperationUID c) guard) = Ok ()
      /\ projected c (cl_Name c +:+ "-cb-targets") {["guard.json" := print (config_json (sorted_config c guard))]} tr)
    (guarded_main a c main original guard) tr.
Proof.
  unfold guarded_main. cbv zeta. destruct (Config_Validate _) as [[]|] eqn:Ev; [|done]. destruct (wrap_main c main original) as [m|] eqn:Ew; [|done].
  apply wp_bindE. eapply wp_mono; [|apply projection_wp]. intros tr1 [[]|e] Hp; [|done]. intros m' g [= <- <-]. split_and!; try done. by apply Hp.
Qed.
(** The main container as it is placed, and the guard's targets when it restores. *)
Definition guarded (c : Cluster) (main : Container) (original : list string) (recovery : bool) (targets : list GuardConfig.Target) (tr : ktrace)
    (x : res (Container * GuardConfig.Config)) : Prop :=
  forall m g, x = Ok (m, g) -> (if recovery then wrap_main c main original else Ok main) = Ok m
  /\ if recovery then g = sorted_config c targets /\ Config_Validate (GuardConfig.mkConfig (cl_UID c) (OperationUID c) targets) = Ok ()
       /\ projected c (cl_Name c +:+ "-cb-targets") {["guard.json" := print (config_json (sorted_config c targets))]} tr else True.
Lemma main_guarded c main original recovery targets tr : wp anything (guarded c main original recovery targets)
  (if recovery then guarded_main a c main original targets else done (main, GuardConfig.mkConfig (cl_UID c) (OperationUID c) [])) tr.
Proof. unfold guarded. destruct recovery; [|by intros m g [= <- <-]]. eapply wp_mono; [|apply guarded_wp]. intros tr1 x H m g E. by apply H. Qed.
Lemma placement_wp co c destination source dst src guard tr :
  wp anything (fun tr x => forall co' p, x = (co', Ok p) -> p = ((fun src => (recovery_placement spec_hash c source destination src dst, src)) <$> src)
      /\ match src with Some src => admitted_watch L base64 a co co' c (recovery_placement spec_hash c source destination src dst) guard src tr | None => co' = co end)
    (match src with
     | None => Ret (co, Ok None)
     | Some src => let p := recovery_placement spec_hash c source destination src dst in
                   let! (co, x) := ensureRecovery L base64 a co c p guard src in
                   Ret (co, match x with Ok _ => Ok (Some (p, src)) | Err e => Err e end)
     end) tr.
Proof.
  destruct src as [src|]; [|by intros co' p [= <- <-]]. cbv zeta. apply wp_bind.
  enough (H : wp anything (fun tr x => forall co', x = (co', Ok ()) -> admitted_watch L base64 a co co' c (recovery_placement spec_hash c source destination src dst) guard src tr)
    (ensureRecovery L base64 a co c (recovery_placement spec_hash c source destination src dst) guard src) tr).
  { eapply wp_mono; [|exact H]. intros tr1 [co1 [[]|e]] Hx co' p [= <- <-]. split; [done|]. by apply Hx. }
  apply wp_all. intros co'. apply ensure_wp.
Qed.
Lemma native_wp c config tr : wp anything (fun _ x => forall l, x = Ok l ->
    l = FromConfigMap config [("native.json", "native/connection.json"); ("wal.json", "wal.json")] :: map (fun r => FromSecret r.1 r.2) (native_refs c)) (native_sources a c config) tr.
Proof.
  unfold native_sources. set (acc := [FromConfigMap _ _]).
  enough (forall tr acc, wp anything (fun _ x => forall l, x = Ok l -> l = acc ++ map (fun r => FromSecret r.1 r.2) (native_refs c))
    (visit_all (native_refs c) acc (fun l ref => let! o := Get a "secrets" (cl_Namespace c) ref.1 in
       Ret (match o with Err _ => Err ErrOther | Ok _ => Ok (l ++ [FromSecret ref.1 ref.2]) end))) tr) as H by apply (H tr acc). clear acc tr.
  induction (native_refs c) as [|r refs IH]; intros tr acc; cbn [visit_all map]; [intros l [= <-]; by rewrite app_nil_r|].
  apply wp_bindE. apply wp_past. intros tr1 [o|e] _; [|done]. cbn [wp]. eapply wp_mono; [|apply IH]. intros tr2 [l|e] H; [|done]. intros l' [= <-].
  rewrite (H l eq_refl), <- app_assoc. done.
Qed.
Lemma sources_wp c config dst src tr : wp anything (fun _ x => forall l, x = Ok l -> l = sources_of c config dst src) (projection_sources a c config dst src) tr.
Proof.
  unfold projection_sources, sources_of. destruct src as [src|]; [by intros l [= <-]|]. apply wp_bindE. eapply wp_mono; [|apply native_wp].
  intros tr1 [l|e] H; [|done]. rewrite (H l eq_refl). by intros l' [= <-].
Qed.
Lemma inject_wp co c s md image tr :
  wp anything (fun tr x => forall co' s' md', x = (co', Ok (s', md')) -> injected co c s md image tr co' s' md')
    (inject L base64 spec_hash a spec_text volume_mode co c s md image) tr.
Proof.
  unfold inject. eapply (wp_keeping _ _ _ (fun _ x => x = _)); [by intros; simplify_eq|cbn [wp]; reflexivity|]. intros tr0 [[[i main] original] recovery] _ E. symmetry in E.
  apply res_bind_ok in E as (u & E0 & E). apply res_bind_ok in E as ([i' main'] & E1 & E). apply res_bind_ok in E as ([original' recovery'] & E2 & [= -> -> -> ->]).
  eapply wp_keeping; [by intros; simplify_eq|apply specs_wp|]. intros tr1 [[[destination source] dst] src] _ Hs. destruct (Hs _ _ _ _ eq_refl) as (Hr & Hd & Erec & Hsrc). clear Hs.
  destruct (collision c s md) eqn:Ec; [done|]. eapply wp_keeping; [by intros; simplify_eq|apply visit_mounts_wp|].
  { intros _. constructor. }
  intros tr2 t X2 Ht. destruct (Ht t eq_refl) as [Em Hsound]. clear Ht. cbn [tv_left tv_mounts] in Em. destruct (bool_decide (tv_left t = ∅)) eqn:El; [|done]. cbn [negb].
  apply bool_decide_eq_true in El. rewrite El in Em.
  eapply wp_keeping; [by intros; simplify_eq|apply main_guarded|]. intros tr3 [main1 guard] X3 Hg. destruct (Hg _ _ eq_refl) as (Ew & Hguard). clear Hg.
  eapply (wp_keeping _ _ _ (fun _ x => x = _)); [by intros; simplify_eq|cbn [wp]; reflexivity|]. intros tr4 capacity X4 Ecap. symmetry in Ecap.
  eapply wp_knows; [apply (placement_wp co c destination source dst src guard)|]. intros tr5 [co1 placement] X5 Hp.
  destruct placement as [placement|]; [|done]. destruct (Hp _ _ eq_refl) as [-> Hheld]. clear Hp.
  eapply wp_keeping; [by intros; simplify_eq|apply wp_grows|]. intros tr6 u6 X6 _. eapply wp_keeping; [done|apply sources_wp|]. intros tr7 sources X7 Hsrcs. rewrite (Hsrcs _ eq_refl). clear Hsrcs sources.
  intros co' s' md' [= <- E]. assert (extends tr1 tr7) as X17 by (repeat (eapply extends_trans; [eassumption|]); apply extends_refl).
  assert (extends tr2 tr7) as X27 by (repeat (eapply extends_trans; [eassumption|]); apply extends_refl).
  assert (extends tr3 tr7) as X37 by (repeat (eapply extends_trans; [eassumption|]); apply extends_refl).
  assert (extends tr5 tr7) as X57 by (repeat (eapply extends_trans; [eassumption|]); apply extends_refl).
  exists destination, source, dst, src. split; [done|]. split; [exact (read_spec_extends _ _ _ _ _ X17 Hd)|]. split.
  { unfold placed. rewrite E0. cbn. rewrite E1. cbn. rewrite E2. cbn. rewrite Erec, bool_decide_eq_true_2 by done. cbn [negb]. rewrite Ec, Em. cbn.
    rewrite bool_decide_eq_true_2 by done. cbn [negb]. rewrite <- Erec, Ew. cbn. rewrite Ecap. cbn. rewrite Erec in *. exact E. }
  destruct src as [src|]; [|done]. destruct Hsrc as [Hsrc Hid]. split; [exact (read_spec_extends _ _ _ _ _ X17 Hsrc)|]. subst recovery. destruct Hguard as (-> & Hv & Hpub).
  exists i, main, (tv_mounts t), (tv_guard t). split; [done|]. split; [done|]. constructor; try done.
  - by eapply mounts_exact.
  - by apply (targets_extends _ _ _ _ _ _ X27 Hsound).
  - exact (projected_extends _ _ _ _ _ X37 Hpub).
  - by exists tr5.
Qed.
End Injected.

(** ** The claims *)
Section Claims.
Context (L : Libraries) (base64 : string -> option string) (spec_hash : Spec -> string) (a : API) (spec_text : Spec -> string)
  (volume_mode : Object -> option (option string)).
Let decode_spec := DecodeSpec (lb_ParseDuration L) (lb_Parse L) (lb_Hostname L) (lb_IsDNS1123Subdomain L) (lb_IsConfigMapKey L) (lb_ParseQuantity L)
  (lb_into_resources L).
(** Every read of a repository is of the specification [spec_at] has for it. *)
Definition unchanged (spec_at : string -> string -> Spec) (tr : ktrace) : Prop :=
  forall ns name o spec, Act (KGet "repositories" ns name) (Ok o) ∈ tr -> decode_spec (ob_spec o) = Ok spec -> spec = spec_at ns name.
Lemma unchanged_read spec_at tr ns name spec : unchanged spec_at tr -> read_spec L tr ns name spec -> spec = spec_at ns name.
Proof. intros Hu (o & Ho & Hd). by eapply Hu. Qed.
Lemma changed_same {A} `{EqDecision A} (x : A) p : changed x x p = [].
Proof. unfold changed. by rewrite bool_decide_eq_true_2. Qed.
(** C32: Placing is idempotent.  A template that was placed, placed again while the repositories it reads are the same, comes out as it went in: the
    second patch is empty, so the operator never restarts a Pod because of the plugin. *)
Theorem placing_again_changes_nothing spec_at co1 co2 co1' co2' c s md s1 md1 s2 md2 image base metaBase tr1 tr2 :
  runs (inject L base64 spec_hash a spec_text volume_mode co1 c s md image) [] tr1 (co1', Ok (s1, md1)) ->
  runs (inject L base64 spec_hash a spec_text volume_mode co2 c s1 md1 image) [] tr2 (co2', Ok (s2, md2)) ->
  unchanged spec_at tr1 -> unchanged spec_at tr2 ->
  s2 = s1 /\ md2 = md1 /\ changes (mkTemplate s1 md1 base metaBase) s2 md2 = [].
Proof.
  intros R1 R2 U1 U2.
  pose proof (wp_runs _ _ _ _ _ _ (inject_wp L base64 spec_hash a spec_text volume_mode co1 c s md image []) R1 _ _ _ eq_refl) as (destination & source & dst & src & E1 & D1 & P1 & S1).
  pose proof (wp_runs _ _ _ _ _ _ (inject_wp L base64 spec_hash a spec_text volume_mode co2 c s1 md1 image []) R2 _ _ _ eq_refl) as (destination' & source' & dst' & src' & E2 & D2 & P2 & S2).
  rewrite E1 in E2. injection E2 as <- <-. assert (dst' = dst) as -> by (rewrite (unchanged_read _ _ _ _ _ U1 D1); by eapply unchanged_read).
  assert (src' = src) as ->.
  { pose proof (placed_restores _ _ _ _ _ _ _ _ _ _ _ _ _ _ _ _ _ P1 P2) as H. destruct src as [src|], src' as [src'|]; try done. f_equal.
    destruct S1 as [S1 _], S2 as [S2 _]. rewrite (unchanged_read _ _ _ _ _ U1 S1). by eapply unchanged_read. }
  destruct (placed_again _ _ _ _ _ _ _ _ _ _ _ _ _ _ _ P1 P2) as [-> ->]. split_and!; [done..|]. unfold changes. by rewrite !changed_same.
Qed.

(** C11: A restore runs only behind its guard.  When the template of a recovery was placed, its main container runs the original command through the guard
    with nothing else and knows its Pod's UID; its database mounts are exactly the places of the
    Cluster's data, WAL and tablespaces, each once, whole and writable; the guard's targets are, mount by mount, the live filesystem claims of the volumes these
    mounts name, owned by the Cluster, valid and published; the repository restored from is of another lineage than the one written to; and before that the source was held and the Pods watched. *)
Theorem restore_runs_behind_guard co co' c s md s' md' image tr i main original :
  runs (inject L base64 spec_hash a spec_text volume_mode co c s md image) [] tr (co', Ok (s', md')) ->
  main_of c s = Ok (i, main) -> argv_of main md = Ok (original, true) ->
  exists main' destination source dst src data targets, ps_Containers s' !! i = Some main' /\ cn_Command main' = guard_prefix ++ original /\ cn_Args main' = []
  /\ pod_uid ∈ cn_Env main' /\ sidecar_of c dst image data true ∈ ps_InitContainers s'
  /\ read_spec L tr (cl_Namespace c) destination dst /\ read_spec L tr (cl_Namespace c) source src
  /\ held L base64 spec_hash a volume_mode co co' c s (cn_VolumeMounts main) destination source dst src data targets tr.
Proof.
  intros R Hm Ha.
  pose proof (wp_runs _ _ _ _ _ _ (inject_wp L base64 spec_hash a spec_text volume_mode co c s md image []) R _ _ _ eq_refl) as (destination & source & dst & src & E & D & P & S).
  destruct (placed_parts _ _ _ _ _ _ _ _ _ _ _ _ _ P) as (i' & main1 & original' & data & wrapped & capacity & volumes & mounts & inits & []).
  rewrite Hm in pa_main0. injection pa_main0 as <- <-. rewrite Ha in pa_argv0. injection pa_argv0 as <- Er. destruct src as [src|]; [|done].
  destruct S as (Hs & i2 & main2 & data2 & targets & M2 & D2 & H). rewrite Hm in M2. injection M2 as <- <-. rewrite pa_data0 in D2. injection D2 as <-.
  destruct (wrap_main_spec _ _ _ _ pa_wrapped0) as (_ & _ & _ & W4 & W5 & W6). subst s'.
  exists (with_mounts wrapped mounts), destination, source, dst, src, data, targets. split_and!; try done.
  - cbn. apply list_lookup_insert_eq. by eapply main_of_lookup.
  - cbn. by eapply put_containers_elem.
Qed.
End Claims.

(** ** A live Pod is only looked at *)
Section Hook.
Context (L : Libraries) (base64 : string -> option string) (spec_hash : Spec -> string) (a : API) (spec_text : Spec -> string)
  (volume_mode : Object -> option (option string)) (decode_object : string -> option lifecycle_object) (deployment_of : Object -> option Deployment)
  (operatorNamespace : string) (decode_pod : string -> option PodIdentity).
Definition only_gets X (e : kube X) : Prop := match e with KGet _ _ _ => True | _ => False end.
Lemma get_only kind ns name : calls only_gets (Get a kind ns name).
Proof. unfold Get. repeat calls_step; done. Qed.
Lemma operator_only : calls only_gets (VerifyOperator deployment_of operatorNamespace).
Proof. unfold VerifyOperator. repeat calls_step; done. Qed.
Lemma live_only c object : calls only_gets (VerifyLivePod a decode_pod c object).
Proof. unfold VerifyLivePod, VerifyCluster. repeat calls_step; apply get_only. Qed.
(** An update or a patch of a Pod makes only reads, and its answer is never a change. *)
Theorem live_pod_only_inspected co t definition object image : t = TypeUpdate \/ t = TypePatch ->
  wp (fun _ => only_gets) (fun _ x => x.1 = co /\ forall p, x.2 = Ok p -> p = [])
    (LifecycleHook L base64 spec_hash a spec_text volume_mode decode_object deployment_of operatorNamespace decode_pod co (Some t) definition object image) [].
Proof.
  intros Ht. unfold LifecycleHook. destruct Ht as [->| ->].
  all: apply wp_bind; eapply wp_mono; [|apply operator_only]; intros tr1 [[]|e] _; [|done].
  all: destruct (ParseCluster _ _ definition) as [c|]; [|done]; apply wp_bind; eapply wp_mono; [|apply live_only].
  all: intros tr2 [[]|e] _; split; [done| |done|]; by intros p [= <-].
Qed.
End Hook.
