(* ===== verification/CnpgPlacementDemo.v ===== *)
(** * A concrete placement

    The templates of a recovery Job and of an instance of the Cluster of CnpgDemo.v, placed against an API server that has its two repositories,
    its Secrets and its claims, and creates what it is asked to. *)

From S2P Require Import Guard CnpgRestore.
From S2P Require Import Prelude GoStrings GoTime Sha256 Errors Schema Json Prog ProgRules Store GuardConfig Admission Repository Memory Restore NativeEvidence NativeText Configuration.
From S2P Require Import NativeOps ConfigSnapshot CnpgCluster CnpgOps CnpgDemo CnpgKube CnpgRecovery CnpgRecoverySafety CnpgPlacement CnpgPlacementSafety.

Definition mine_json : string := object_of
  [text_of "repositoryID" ex_guard;
   member_of "s3" (object_of [text_of "endpoint" "https://s3.example"; text_of "bucket" "bucket"; text_of "prefix" "q";
     member_of "accessKeySecret" selector_json; member_of "secretKeySecret" selector_json]);
   member_of "workspace" (object_of [text_of "storageClassName" "fast"])].
Definition spec_object (name spec : string) : Object := mkObj name "" "9" None false ∅ ∅ false spec "db" 1 "".
Definition demo_claim : Object := mkObj "restored-1" ex_pod "3" (Some (demo_cluster, "Cluster")) false ∅ ∅ false "" "db" 1 "".
Definition placing_kube : Prog.handler (E := kube) memory := fun X e m =>
  match e in kube X return X * memory with
  | Host e => sidecar_os _ e m
  | KGet kind _ name =>
      (if kind ==? "secrets" then Ok demo_secret
       else if kind ==? "repositories" then Ok (spec_object name (if name ==? "mine" then mine_json else spec_json))
       else if kind ==? "persistentvolumeclaims" then Ok demo_claim
       else Err KNotFound, m)
  | KCreate _ _ o => (Ok o, m)
  | KUpdate _ _ _ => (None, m)
  | KList _ _ _ _ => (Err ErrOther, m)
  | KFirst _ _ => (Ok (0%nat, "", "40"), m)
  | KWatch _ _ _ => (WatchOpen, m)
  | KRound => (WatchClosed, m)
  | KTick => (false, m)
  end.
Definition placing_api : API := mkAPI ["db"] {["db" := ["keys"; "restored-replication"; "restored-ca"]]}.
Definition demo_main (command : list string) : Container :=
  mkContainer "postgres" "postgres:18" command [] [] [mkMount "pgdata" "/var/lib/postgresql/data" "" "" false None] None (OtherContainer "rest").
Definition demo_template (command : list string) : PodSpec :=
  mkPodSpec false None (Some (mkPodSecurity (Some 26) (Some 26) None "rest")) [demo_main command] [mkContainer "bootstrap" "cnpg:1" [] [] [] [] None (OtherContainer "copy")]
    [mkVolume "pgdata" (Claim "restored-1" false)].
Definition demo_meta : ObjectMeta := mkMeta "db" None None.
Definition demo_process_start : coordinator := mkCoordinator ex_process ∅.
Definition demo_inject (s : PodSpec) (md : ObjectMeta) : kprog (coordinator * res (PodSpec * ObjectMeta)) :=
  inject sidecar_libraries Some (fun _ => ex_hash) placing_api sp_RepositoryID (fun _ => Some None) demo_process_start cnpg_cluster s md "plugin:1".
Definition outcome (s : PodSpec) (md : ObjectMeta) : coordinator * res (PodSpec * ObjectMeta) := (run placing_kube (demo_inject s md) demo_restoring).1.
Definition placed_once (command : list string) : PodSpec * ObjectMeta :=
  match (outcome (demo_template command) demo_meta).2 with Ok x => x | Err _ => (demo_template command, demo_meta) end.
Definition instance_run : list string := ["/controller/manager"; "instance"; "run"].
Definition outcome_trace (s : PodSpec) (md : ObjectMeta) : ktrace := run_trace placing_kube (demo_inject s md) demo_restoring [].
Lemma outcome_runs s md : runs (demo_inject s md) [] (outcome_trace s md) (outcome s md).
Proof. apply run_trace_runs. Qed.
(** The repositories this API server has do not change. *)
Definition demo_decode_spec : string -> res Spec :=
  let L := sidecar_libraries in
  DecodeSpec (lb_ParseDuration L) (lb_Parse L) (lb_Hostname L) (lb_IsDNS1123Subdomain L) (lb_IsConfigMapKey L) (lb_ParseQuantity L) (lb_into_resources L).
Definition demo_spec_at (ns name : string) : Spec :=
  match demo_decode_spec (if name ==? "mine" then mine_json else spec_json) with Ok s => s | Err _ => Defaults end.
Definition repository_answer (x : Prog.action kube) : option (string * result kerror Object) :=
  match x with
  | Act e x => match e in kube X return X -> option (string * result kerror Object) with
               | KGet kind _ name => fun x => if kind ==? "repositories" then Some (name, x) else None
               | _ => fun _ => None
               end x
  end.
Lemma outcome_unchanged s md : unchanged sidecar_libraries demo_spec_at (outcome_trace s md).
Proof.
  assert (H : forall x, x ∈ outcome_trace s md -> forall name o, repository_answer x = Some (name, Ok o) -> ob_spec o = if name ==? "mine" then mine_json else spec_json).
  { intros x. refine (run_trace_answers placing_kube (fun x => forall name o, repository_answer x = Some (name, Ok o) -> ob_spec o = if name ==? "mine" then mine_json else spec_json) _ _ _ _ _ x); [|by intros ? ?%elem_of_nil].
    clear x. intros X e m name o. destruct e; try done. cbn [placing_kube repository_answer]. destruct (kind ==? "secrets") eqn:E1.
    - apply bool_decide_eq_true in E1 as ->. done.
    - destruct (kind ==? "repositories"); [|done]. intros [= <- <-]. done. }
  intros ns name o spec Hin. rewrite (H _ Hin name o eq_refl). fold demo_decode_spec. unfold demo_spec_at. intros E.
  change (demo_decode_spec (if name ==? "mine" then mine_json else spec_json) = Ok spec) in E. by rewrite E.
Qed.
Lemma placing_again_changes_nothing_witness : exists s1 md1, (outcome (demo_template (expected_argv false)) demo_meta).2 = Ok (s1, md1)
  /\ s1 <> demo_template (expected_argv false) /\ exists s2 md2, (outcome s1 md1).2 = Ok (s2, md2) /\ changes (mkTemplate s1 md1 "/spec" "/metadata") s2 md2 = [].
Proof.
  pose proof (outcome_runs (demo_template (expected_argv false)) demo_meta) as R1. pose proof (outcome_unchanged (demo_template (expected_argv false)) demo_meta) as U1.
  assert (H : match (outcome (demo_template (expected_argv false)) demo_meta).2 with
              | Ok (s1, md1) => length (ps_InitContainers s1) = 3%nat /\ match (outcome s1 md1).2 with Ok _ => True | Err _ => False end | Err _ => False end) by (vm_compute; done).
  destruct (outcome (demo_template (expected_argv false)) demo_meta) as [co1 [[s1 md1]|e]]; [|destruct H]. cbn [snd] in *. exists s1, md1. split; [reflexivity|]. destruct H as [Hn H].
  split; [intros ->; discriminate Hn|]. pose proof (outcome_runs s1 md1) as R2. pose proof (outcome_unchanged s1 md1) as U2.
  destruct (outcome s1 md1) as [co2 [[s2 md2]|e]]; [|destruct H]. exists s2, md2. split; [reflexivity|].
  exact (proj2 (proj2 (placing_again_changes_nothing _ _ _ _ _ _ demo_spec_at _ _ _ _ _ _ _ _ _ _ _ _ "/spec" "/metadata" _ _ R1 R2 U1 U2))).
Defined.
Lemma restore_runs_behind_guard_witness : exists co' s' md' main' destination source dst src data targets,
  runs (demo_inject (demo_template (expected_argv false)) demo_meta) [] (outcome_trace (demo_template (expected_argv false)) demo_meta) (co', Ok (s', md'))
  /\ ps_Containers s' !! 0%nat = Some main' /\ cn_Command main' = guard_prefix ++ expected_argv false /\ pod_uid ∈ cn_Env main'
  /\ held sidecar_libraries Some (fun _ => ex_hash) placing_api (fun _ => Some None) demo_process_start co' cnpg_cluster (demo_template (expected_argv false))
       (cn_VolumeMounts (demo_main (expected_argv false))) destination source dst src data targets (outcome_trace (demo_template (expected_argv false)) demo_meta).
Proof.
  pose proof (outcome_runs (demo_template (expected_argv false)) demo_meta) as R.
  assert (H : match (outcome (demo_template (expected_argv false)) demo_meta).2 with Ok _ => True | Err _ => False end) by (vm_compute; done).
  destruct (outcome (demo_template (expected_argv false)) demo_meta) as [co' [[s' md']|e]]; [|destruct H]. exists co', s', md'.
  destruct (restore_runs_behind_guard sidecar_libraries Some (fun _ => ex_hash) placing_api sp_RepositoryID (fun _ => Some None) demo_process_start co' cnpg_cluster _ _ s' md' "plugin:1" _
    0%nat (demo_main (expected_argv false)) (expected_argv false) R) as (main' & destination & source & dst & src & data & targets & H1 & H2 & _ & H4 & _ & _ & _ & H8);
    [vm_compute; reflexivity|vm_compute; reflexivity|].
  exists main', destination, source, dst, src, data, targets. split; [exact R|]. split; [exact H1|]. split; [exact H2|]. split; [exact H4|exact H8].
Defined.
