(* ===== verification/CnpgProcess.v ===== *)
(** * The processes of the plugin (internal/cnpgi/sidecar.go, manager.go, internal/recoveryguard/config.go, cmd/cnpg-backup/main.go)

    How a sidecar and the manager start, in the order of their calls, up to the servers that take the modelled callbacks; and the command line
    that selects them.  The servers, the listeners and the signals answer anything. *)

From S2P Require Import Prelude GoStrings GoTime Sha256 Errors Schema Json LooseJson Prog ProgRules Store GuardConfig Admission Repository.
From S2P Require Import S3Config Configuration NativePath NativeOps NativeText NativeBudget ConfigSnapshot NativePreflight CnpgCluster CnpgOps CnpgKube CnpgPlacement.

Definition SocketPath : string := "/plugins/" +:+ PluginName.
Definition ConfigPath : string := "/cnpg-backup/config/guard.json".
Definition socketLock : string := "/cnpg-backup/bin/socket.lock".
Definition managerTLSPath : string := "/cnpg-backup/tls".

(** The services a server registers, and how serving ends. *)
Inductive service := IdentityService | WALServer | BackupServer | RestoreJobServer | RecoveryWALServer | ControlServer | OperatorServer | LifecycleServer | MetricsServer.
#[export] Instance service_eq_dec : EqDecision service.
Proof. solve_decision. Defined.
Inductive serve_end := CtxEnded | ServerStopped | ServeFailed.
Inductive loop := StatusLoop | RecoveryLoop | HistoryLoop | RetentionLoop | ObserverLoop.

Inductive pr : Type -> Type :=
| Api {X : Type} (e : kube X) : pr X
| PodUID : pr string
| NewUUID : pr string
| Getpid : pr Z
| Executable : pr (res string)
| Renamed (from to : string) : pr bool
(** [os.Lstat]: whether the entry is a socket *)
| LstatSocket (p : string) : pr (result failure_kind bool)
(** open without following links, the flags of the descriptor, [LOCK_EX|LOCK_NB], and the descriptor's end *)
| OpenLock (p : string) : pr bool
| StatLock (p : string) : pr (option stat_info)
| Flock (p : string) : pr bool
| CloseLock (p : string) : pr ()
| Listen (network address : string) : pr bool
| CloseListener (address : string) : pr ()
| CloseAdmission : pr ()
(** [serve] with these services, until it ends *)
| Serving (services : list service) : pr serve_end
| KubernetesVersion : pr (option (Z * string))
| Go (l : loop) : pr ().
Abbreviation pprog := (Prog.prog pr).
Abbreviation ptrace := (list (Prog.action pr)).
Fixpoint api {A} (p : kprog A) : pprog A :=
  match p with Ret a => Ret a | Vis e k => Vis (Api e) (fun x => api (k x)) end.
Definition sys {A} (p : oprog A) : pprog A := api (host p).
(** [defer]: the call is made whatever the rest returned. *)
Definition deferred {A B} (p : pprog A) (c : pprog B) : pprog A := let! x := p in let! _ := c in Ret x.

(** ** The helper executable *)
Definition helperLimit : Z := 128 * 2 ^ 20.
Definition InstallHelper (source destination : string) : pprog (res ()) :=
  let* bytes := sys (open_file source) in
  let dir := path_dir destination in
  let* f := sys (call (CreateTemp dir ".helper-")) in
  let copy := String.substring 0 (Z.to_nat (helperLimit + 1)) bytes in
  deferred (
    sys (pass source ;;* fs (WriteTo f copy)) ;;*
    if helperLimit <? len copy then fail ErrOther else
    sys (fs (Chmod f) ;;* fs (SyncFile f) ;;* fs (CloseFile f)) ;;*
    let! renamed := call (Renamed f destination) in
    if negb renamed then fail ErrOther else sys (fs (SyncDir dir)))
    (sys (let! _ := fs (CloseFile f) in fs (RemoveFile f))).

(** ** The sidecar *)
Record Identity := mkIdentity { id_WAL : bool; id_Backup : bool; id_Restore : bool }.
Inductive capability := WALCapability | BackupCapability | RestoreJobCapability.
Definition GetPluginCapabilities (s : Identity) : list capability :=
  (if id_WAL s then [WALCapability] else []) ++ (if id_Backup s then [BackupCapability] else []) ++ (if id_Restore s then [RestoreJobCapability] else []).
(** Readiness is the installed helper. *)
Definition Identity_Probe : pprog (res ()) :=
  let! info := sys (call (Stat HelperPath)) in
  Ret (match info with Ok st => if (si_kind st ==? FRegular) && (si_perm st =? 0x16d) then Ok () else Err ErrOther | Err _ => Err ErrOther end).
Definition served_identity (admission : option Admission) : Identity :=
  match admission with None => mkIdentity true true false | Some _ => mkIdentity true false true end.
(** [Serve]: the watcher of the context stops the server, which ends [Serving]. *)
Definition Serve (admission : option Admission) : pprog (res ()) :=
  let* services := match admission with
                   | None => done [IdentityService; WALServer; BackupServer]
                   | Some a => match AfterDrain a true with
                               | (Err _, _) => fail ErrOther
                               | (Ok _, _) => done [IdentityService; RestoreJobServer; RecoveryWALServer; ControlServer]
                               end
                   end in
  let! ended := call (Serving services) in
  let! _ := match admission with Some _ => call CloseAdmission | None => Ret () end in
  Ret (match ended with ServeFailed => Err ErrOther | _ => Ok () end).
Definition socketRoot : string := "/cnpg-backup/socket-root/plugins".
Definition PrepareSocket : pprog (res ()) :=
  let! e := sys (call (Fs (Mkdir socketRoot))) in
  if negb (bool_decide (e = None \/ e = Some IsExist)) then fail ErrOther else
  let! opened := call (OpenLock socketRoot) in
  if negb opened then fail ErrOther else
  deferred (
    let! st := call (StatLock socketRoot) in
    match st with
    | None => fail ErrOther
    | Some st => if negb (si_owned st) then fail ErrOther else sys (fs (Chmod socketRoot))
    end) (call (CloseLock socketRoot)).
Definition AcquireWorkspace (pod : string) : pprog (res ()) :=
  let! pid := call Getpid in
  if negb (pid =? 1) then fail ErrOther else sys (acquireWorkspaceAt workspace pod).
(** The configuration and the admission of a recovery. *)
Definition recovery_admission : pprog (res Admission) :=
  let! file := sys (call (Open ConfigPath)) in
  match LoadConfig (match file with Ok b => Ok b | Err _ => Err (ErrText "open") end) with
  | Err _ => fail ErrOther
  | Ok config =>
      let! pod := call PodUID in
      let! guard := call NewUUID in
      let! process := call NewUUID in
      match NewAdmission config pod guard process with Err _ => fail ErrOther | Ok a => done a end
  end.
Definition lock_safe (st : stat_info) : bool := private_file st && (si_nlink st =? 1) && si_owned st.
Definition replace_socket : pprog (res ()) :=
  let! info := call (LstatSocket SocketPath) in
  match info with
  | Ok socket => if negb socket then fail ErrOther else sys (fs (RemoveFile SocketPath))
  | Err IsNotExist => done ()
  | Err _ => fail ErrOther
  end.
(** After the permanent lock is held. *)
Definition owning_socket (admission : option Admission) : pprog (res ()) :=
  let! pod := call PodUID in
  AcquireWorkspace pod ;;*
  deferred (
    let* source := call Executable in
    InstallHelper source HelperPath ;;*
    sys (fs (Chmod (path_dir SocketPath))) ;;*
    replace_socket ;;*
    let! listening := call (Listen "unix" SocketPath) in
    if negb listening then fail ErrOther else
    deferred (sys (fs (Chmod SocketPath)) ;;* Serve admission) (call (CloseListener SocketPath)))
    (call (CloseLock (within workspace "native.lock"))).
Definition admitted_sidecar (admission : option Admission) : pprog (res ()) :=
  let! opened := call (OpenLock socketLock) in
  if negb opened then fail ErrOther else
  deferred (
    let! st := call (StatLock socketLock) in
    match st with
    | None => fail ErrOther
    | Some st =>
        if negb (lock_safe st) then fail ErrOther else
        let! held := call (Flock socketLock) in
        if negb held then fail ErrOther else owning_socket admission
    end) (call (CloseLock socketLock)).
Definition RunSidecar (recovery : bool) : pprog (res ()) :=
  if recovery then let* a := recovery_admission in deferred (admitted_sidecar (Some a)) (call CloseAdmission)
  else admitted_sidecar None.

(** ** The manager *)
Record ManagerConfig := mkManagerConfig {
  mc_OperatorNamespace : string; mc_Namespaces : slice_of string; mc_SecretNames : option (gmap string (slice_of string)); mc_Image : string; mc_ClientName : string }.
#[export] Instance loose_slices : Loose (option (gmap string (slice_of string))) := loose_map loose_slice.
#[export] Instance loose_ManagerConfig : Loose ManagerConfig := mkLoose ManagerConfig (mkManagerConfig "" zero zero "" "") (into_struct [
  ("operatorNamespace", on_field mc_OperatorNamespace (fun v x => mkManagerConfig x (mc_Namespaces v) (mc_SecretNames v) (mc_Image v) (mc_ClientName v)));
  ("namespaces", on_field mc_Namespaces (fun v x => mkManagerConfig (mc_OperatorNamespace v) x (mc_SecretNames v) (mc_Image v) (mc_ClientName v)));
  ("secretNames", on_field mc_SecretNames (fun v x => mkManagerConfig (mc_OperatorNamespace v) (mc_Namespaces v) x (mc_Image v) (mc_ClientName v)));
  ("image", on_field mc_Image (fun v x => mkManagerConfig (mc_OperatorNamespace v) (mc_Namespaces v) (mc_SecretNames v) x (mc_ClientName v)));
  ("clientName", on_field mc_ClientName (fun v x => mkManagerConfig (mc_OperatorNamespace v) (mc_Namespaces v) (mc_SecretNames v) (mc_Image v) x))]).
Definition image_char (c : ascii) : bool :=
  is_digit c || in_range "a" "z" c || in_range "A" "Z" c || bool_decide (c ∈ ["."; "/"; ":"; "_"; "-"]%char).
(** An image pinned by its digest; the class before the digest has no at sign. *)
Definition pinned_image (s : string) : bool :=
  let n := (String.length s - 72)%nat in
  (72 <? String.length s)%nat && all_chars image_char (String.substring 0 n s) && (String.substring n 8 s ==? "@sha256:")
  && class_n is_hex_lower 64 (String.substring (n + 8) 64 s).
Definition ManagerConfig_ok (c : ManagerConfig) : bool :=
  (0 <? length (elements_of (mc_Namespaces c)))%nat && (length (elements_of (mc_Namespaces c)) <=? 32)%nat && (mc_ClientName c !=? "") && pinned_image (mc_Image c).
Definition api_of (c : ManagerConfig) : API := mkAPI (elements_of (mc_Namespaces c)) (elements_of <$> default ∅ (mc_SecretNames c)).
Section Manager.
Context (L : Libraries) (deployment_of : Object -> option Deployment).
Definition load_tls := LoadManagerTLS (lb_pem_decode L) (lb_ParseCertificate L) (lb_X509KeyPair L).
Definition version_ok (v : option (Z * string)) : bool := match v with Some (status, version) => (status =? 200) && (version ==? "v1.35.8") | None => false end.
Definition serve_manager : pprog (res ()) :=
  let! _ := call (Go StatusLoop) in
  let! _ := call (Go RecoveryLoop) in
  let! _ := call (Go HistoryLoop) in
  let! _ := call (Go RetentionLoop) in
  let! _ := call (Go ObserverLoop) in
  let! ended := call (Serving [IdentityService; OperatorServer; LifecycleServer; MetricsServer]) in
  Ret (match ended with ServeFailed => Err ErrOther | _ => Ok () end).
Definition RunManager : pprog (res ()) :=
  let* b := sys (open_file "/cnpg-backup/manager/config.json") in
  match @StrictJSON ManagerConfig _ b with
  | None => fail ErrOther
  | Some config =>
      if negb (ManagerConfig_ok config) then fail ErrOther else
      sys (load_tls managerTLSPath (mc_ClientName config)) ;;*
      sys (call (Setup "in-cluster configuration")) ;;*
      let! version := call KubernetesVersion in
      if negb (version_ok version) then fail ErrOther else
      sys (call (Setup "clients")) ;;*
      api (VerifyOperator deployment_of (mc_OperatorNamespace config)) ;;*
      let! listening := call (Listen "tcp" ":9090") in
      if negb listening then fail ErrOther else
      deferred (
        let! metrics := call (Listen "tcp" ":9091") in
        if negb metrics then fail ErrOther else
        deferred serve_manager (call (CloseListener ":9091")))
        (call (CloseListener ":9090"))
  end.
End Manager.

(** ** The command line *)
Inductive command :=
| Version | FetchWAL (args : list string) | PrepareSocketCommand | CheckNative | CheckCapacityCommand | ProbeCommand | SidecarCommand (recovery : bool)
| GuardCommand (argv : list string) | ManagerCommand | Invalid | Usage.
Definition dispatch (args : list string) : command :=
  match args with
  | ["version"] | ["--version"] => Version
  | "wal-fetch" :: rest => FetchWAL rest
  | ["instance"; "--prepare-socket"] => PrepareSocketCommand
  | ["instance"; "--check-native"] => CheckNative
  | ["instance"; "--check-capacity"] | ["recovery-job"; "--check-capacity"] => CheckCapacityCommand
  | ["instance"; "--probe"] | ["recovery-job"; "--probe"] => ProbeCommand
  | ["instance"] => SidecarCommand false
  | ["recovery-job"] => SidecarCommand true
  | "instance" :: _ | "recovery-job" :: _ => Invalid
  | "recovery-guard" :: "--" :: a :: argv => GuardCommand (a :: argv)
  | "recovery-guard" :: _ => Invalid
  | ["manager"] => ManagerCommand
  | "manager" :: _ => Invalid
  | _ => Usage
  end.
(** What the command came to: an exit code of its own, an error or none, or a panic. *)
Inductive ending := Exited (code : Z) | Returned (failed : bool) | Panicked.
Definition exit_of (args : list string) (e : ending) : Z :=
  match e with
  | Panicked => match args with first :: _ => if first ==? "wal-fetch" then 255 else 2 | [] => 2 end
  | Exited code => code
  | Returned failed => if failed then 2 else 0
  end.
(** Whether a command can end that way. *)
Definition ends (c : command) (e : ending) : Prop :=
  match c, e with
  | Version, Returned false => True
  | FetchWAL _, Exited code => code = 0 \/ code = 1 \/ code = 255
  | (PrepareSocketCommand | CheckNative | CheckCapacityCommand | ProbeCommand | SidecarCommand _ | ManagerCommand), Returned _ => True
  | GuardCommand _, (Exited _ | Returned true) => True
  | (Invalid | Usage), Returned true => True
  | _, Panicked => True
  | _, _ => False
  end.

(** ** A socket is replaced only by its owner *)
Definition gives_back (a : Prog.action pr) : bool := match a with Act e _ => match e with CloseLock p => p ==? socketLock | _ => false end end.
Definition not_given_back (tr : ptrace) : Prop := Forall (fun a => gives_back a = false) tr.
(** The permanent lock is exclusively held: its file was safe, the lock was taken, and it was not given back since. *)
Definition lock_held (tr : ptrace) : Prop :=
  (exists st, Act (StatLock socketLock) (Some st) ∈ tr /\ lock_safe st = true) /\ Act (Flock socketLock) true ∈ tr /\ not_given_back tr.
Definition takes_socket X (e : pr X) : Prop :=
  match e with
  | Api (Host (Fs (RemoveFile p))) => p = SocketPath
  | Listen _ _ => True
  | Serving _ => True
  | _ => False
  end.
Definition socket_guard (tr : ptrace) X (e : pr X) : Prop := takes_socket X e -> lock_held tr.
Definition keeps X (e : pr X) : Prop := match e with CloseLock p => p <> socketLock | _ => True end.
Lemma keeps_not_given_back tr X (e : pr X) x : keeps X e -> not_given_back tr -> not_given_back (Act e x :: tr).
Proof. intros Hk Ht. constructor; [|done]. destruct e; try done. cbn in *. by apply bool_decide_eq_false. Qed.
Lemma lock_kept_wp {A} (p : pprog A) tr : calls keeps p -> lock_held tr -> wp socket_guard (fun tr _ => lock_held tr) p tr.
Proof.
  intros Hc. specialize (Hc tr). revert tr Hc. induction p as [a|X e k IH]; intros tr Hc Hl; cbn; [done|]. destruct Hc as [Hk Hc]. split; [by intros _|]. intros x.
  apply IH; [apply Hc|]. destruct Hl as ((st & H1 & H2) & H3 & H4). split; [exists st; split; [by right|done]|]. split; [by right|]. by apply keeps_not_given_back.
Qed.
Lemma api_keeps {A} (p : kprog A) : calls keeps (api p).
Proof. intros tr. induction p as [x|X e k IH] in tr |- *; cbn; [done|]. split; [done|]. intros x. apply IH. Qed.
Lemma install_keeps source destination : calls keeps (InstallHelper source destination).
Proof. unfold InstallHelper, deferred. cbv zeta. repeat first [exact I | calls_step | apply api_keeps]. Qed.
Lemma owning_keeps admission : calls keeps (owning_socket admission).
Proof.
  unfold owning_socket, AcquireWorkspace, replace_socket, Serve, deferred. cbv zeta.
  repeat first [exact I | calls_step | apply api_keeps | apply install_keeps]; by vm_compute.
Qed.
Definition quiet X (e : pr X) : Prop := keeps X e /\ ~ takes_socket X e.
Lemma quiet_wp {A} (p : pprog A) tr : calls quiet p -> not_given_back tr -> wp socket_guard (fun tr _ => not_given_back tr) p tr.
Proof.
  intros Hc. specialize (Hc tr). revert tr Hc. induction p as [a|X e k IH]; intros tr Hc Ht; cbn; [done|]. destruct Hc as [[Hk Hn] Hc]. split; [by intros H|]. intros x.
  apply IH; [apply Hc|]. by apply keeps_not_given_back.
Qed.
Lemma admission_quiet : calls quiet recovery_admission.
Proof. unfold recovery_admission. repeat calls_step; [intros tr; cbn|..]; by repeat split; auto. Qed.
Lemma admitted_wp admission tr : not_given_back tr -> wp socket_guard (fun _ _ => True) (admitted_sidecar admission) tr.
Proof.
  intros Ht. unfold admitted_sidecar. apply wp_call; [by intros []|]. intros opened. wp_if as Eo; [done|]. unfold deferred. apply wp_bind.
  apply (wp_mono _ (fun _ _ => True)); [intros tr' x _; apply wp_call; [by intros []|]; done|].
  apply wp_call; [by intros []|]. intros [st|]; [|done]. wp_if as Es; [done|]. apply wp_call; [by intros []|]. intros held. wp_if as Eh; [done|].
  apply negb_false_iff in Es, Eh. subst held. apply (wp_mono _ (fun tr _ => lock_held tr)); [done|]. apply lock_kept_wp; [apply owning_keeps|].
  split; [exists st; split; [right; by left|done]|]. split; [by left|]. by repeat (apply keeps_not_given_back; [done|]).
Qed.
(** A stale socket is removed, an address bound and a server started only while the sidecar exclusively holds the permanent lock of the socket,
    whose file was its own, private and unaliased: a live sidecar's socket is never taken from it. *)
Theorem socket_replaced_under_lock recovery pre X (e : pr X) : emits (RunSidecar recovery) [] pre X e -> takes_socket X e -> lock_held pre.
Proof.
  intros He. refine (wp_emits socket_guard (fun _ _ => True) (RunSidecar recovery) [] pre X e _ He). unfold RunSidecar. destruct recovery; [|apply admitted_wp; constructor].
  apply wp_bindE. eapply wp_mono; [|apply quiet_wp; [apply admission_quiet|constructor]]. intros tr [a|e'] Ht; [|done]. unfold deferred. apply wp_bind.
  apply (wp_mono _ (fun _ _ => True)); [intros tr' x _; apply wp_call; [by intros []|]; done|]. by apply admitted_wp.
Qed.
(** However a recovery sidecar ends once it has an admission, closing the admission is the last thing it does. *)
Theorem admission_closed_last tr x : runs (RunSidecar true) [] tr x ->
  (exists tr', tr = Act CloseAdmission tt :: tr') \/ exists e, runs recovery_admission [] tr (Err e) /\ x = Err e.
Proof.
  intros Hr. refine (wp_runs anything (fun tr x => (exists tr', tr = Act CloseAdmission tt :: tr') \/ exists e, runs recovery_admission [] tr (Err e) /\ x = Err e) _ _ _ _ _ Hr).
  unfold RunSidecar. eapply wp_knows; [apply wp_run|]. intros tr1 [a|e] _ H1; [|right; by exists e]. unfold deferred. apply wp_past. intros tr2 y _.
  apply wp_call; [done|]. intros []. left. by exists tr2.
Qed.

(** ** The manager serves only what it was pinned to *)
Section Pinned.
Context (L : Libraries) (deployment_of : Object -> option Deployment).
Definition starts X (e : pr X) : Prop := match e with Listen _ _ => True | Serving _ => True | Go _ => True | _ => False end.
(** The configuration was read and valid, the API server has the supported version, and the operator is the pinned one. *)
Definition verified (tr : ptrace) : Prop := exists b config tr1 tr2, Act (Api (Host (Open "/cnpg-backup/manager/config.json"))) (Ok b) ∈ tr
  /\ @StrictJSON ManagerConfig _ b = Some config /\ ManagerConfig_ok config = true
  /\ Act KubernetesVersion (Some (200, "v1.35.8")) ∈ tr
  /\ runs (api (VerifyOperator deployment_of (mc_OperatorNamespace config))) tr1 tr2 (Ok ()) /\ extends tr2 tr.
Lemma verified_extends tr tr' : extends tr tr' -> verified tr -> verified tr'.
Proof.
  intros He (b & config & tr1 & tr2 & H1 & H2 & H3 & H4 & H5 & H6). exists b, config, tr1, tr2. split_and!; try done; try (by eapply extends_elem). by eapply extends_trans.
Qed.
Definition start_guard (tr : ptrace) X (e : pr X) : Prop := starts X e -> verified tr.
Definition idle X (e : pr X) : Prop := ~ starts X e.
Lemma idle_guard tr X (e : pr X) : idle X e -> start_guard tr X e.
Proof. by intros Hi Hs. Qed.
Lemma api_idle {A} (p : kprog A) : calls idle (api p).
Proof. intros tr. induction p as [x|X e k IH] in tr |- *; cbn; [done|]. split; [by intros []|]. intros x. apply IH. Qed.
Lemma wp_idle {A B} (p : pprog A) (f : A -> pprog B) (Q : ptrace -> B -> Prop) tr : calls idle p ->
  (forall tr' a, extends tr tr' -> runs p tr tr' a -> wp start_guard Q (f a) tr') -> wp start_guard Q (bind p f) tr.
Proof. intros Hp Hf. eapply wp_calls_bind; [intros tr' X e _; apply idle_guard|exact Hp|apply wp_run|exact Hf]. Qed.
Lemma verified_wp {A} (p : pprog A) tr : verified tr -> wp start_guard (fun _ _ => True) p tr.
Proof.
  revert tr. induction p as [a|X e k IH]; intros tr Hv; cbn; [done|]. split; [by intros _|]. intros x. apply IH. eapply verified_extends; [apply extends_cons|done].
Qed.
(** No listener is opened, no loop started and no server run unless the configuration is valid with a pinned image, the API server has the supported
    version and the operator's rollout of the pinned image was verified. *)
Theorem manager_starts_verified pre X (e : pr X) : emits (RunManager L deployment_of) [] pre X e -> starts X e -> verified pre.
Proof.
  intros He. refine (wp_emits start_guard (fun _ _ => True) (RunManager L deployment_of) [] pre X e _ He). unfold RunManager. unfold sys at 1. unfold open_file.
  cbn [host api bind bindE call]. split; [by apply idle_guard; intros []|]. intros [b|k]; cbn [api host bind]; [|done]. destruct (StrictJSON b) as [config|] eqn:Ec; [|done].
  wp_if as Eok; [done|]. apply negb_false_iff in Eok. apply wp_idle; [apply api_idle|]. intros tr1 [tls|e1] X1 _; [|done].
  apply wp_idle; [apply api_idle|]. intros tr2 [u2|e2] X2 _; [|done]. apply wp_call; [by apply idle_guard; intros []|]. intros version. wp_if as Ev; [done|].
  apply negb_false_iff in Ev. apply wp_idle; [apply api_idle|]. intros tr3 [u3|e3] X3 _; [|done]. apply wp_idle; [apply api_idle|]. intros tr4 [[]|e4] X4 R4; [|done].
  apply verified_wp. exists b, config, tr3, tr4. destruct version as [[status v]|]; [|done]. cbn in Ev. apply andb_true_iff in Ev as [E1 E2]. apply Z.eqb_eq in E1 as ->. apply bool_decide_eq_true in E2 as ->.
  assert (extends (Act KubernetesVersion (Some (200, "v1.35.8")) :: tr2) tr4) as X24 by (eapply extends_trans; [exact X3|exact X4]).
  split_and!; try done; try apply extends_refl.
  - eapply extends_elem; [exact X24|]. right. eapply extends_elem; [exact X2|]. eapply extends_elem; [exact X1|]. by left.
  - eapply extends_elem; [exact X24|]. by left.
Qed.
End Pinned.

(** ** Exit codes *)
(** PostgreSQL takes exit code 1 of the restore command for the end of the archive: only a fetch that found the segment absent ends so, never a panic, a bad
    argument or a failing sidecar. *)
Theorem absent_only_from_fetch args e : ends (dispatch args) e -> exit_of args e = 1 ->
  e = Exited 1 /\ ((exists rest, dispatch args = FetchWAL rest) \/ exists argv, dispatch args = GuardCommand argv).
Proof.
  intros He Hx. destruct e as [code|failed|]; cbn in Hx.
  - subst code. split; [done|]. destruct (dispatch args) eqn:E; cbn in He; try done; eauto.
  - by destruct failed.
  - destruct args as [|first rest]; [done|]. by destruct (first ==? "wal-fetch").
Qed.
